(* ===== verification/_CoqProject ===== *)
-Q . S2P
Prelude.v
Utf.v
CString.v
Values.v
Streams.v
Functions.v
Lists.v
ListBuiltins.v
Words.v
Numbers.v
Preps.v
Db.v
Links.v
Hierarchy.v
Attributes.v
Verbs.v
Properties.v
PropView.v
PropChange.v
ChangeParent.v
Objects.v
Renumber.v
Database.v
Authority.v
PropBuiltins.v
VerbBuiltins.v
Commands.v
Ast.v
CodeGen.v
CodeSpec.v
CodeProof.v
CodeStmts.v
Decompile.v
DecompileProof.v
DecompileStmts.v
InputQueue.v
Activation.v
Tasks.v
Machine.v
TaskQueues.v
Run.v
Interp.v
Scheduler.v
ObjBuiltins.v
Eval.v
Exec.v
RunProof.v
TaskProof.v
TypeProof.v
