(* ===== verification/Prelude.v ===== *)
(** * LambdaMOO server: verification library

    LambdaMOO is a server for a persistent, programmable multi-user world.
    Players type commands; the server finds a verb on the objects around them,
    runs its program on a virtual machine, and the program reads and changes
    the object database through built-in functions.  This library models the
    parts of the server that carry this logic as executable functions, each
    named after the C function it is translated from, and proves what makes
    them correct.

    ** Parts of the server and files of the library

    - Basics: [Prelude] (automation, machine integers, lists); [Utf] (utf.c,
      utf.h); [CString] (utils.c: comparison, verb names, hashing, searching,
      binary notation); [Values] (structures.h, utils.c: MOO values, truth,
      equality, sizes); [Streams] (streams.c).
    - Built-in functions: [Functions] (functions.c: packages, registration, the
      call gate, cached options); [Lists], [ListBuiltins] (list.c); [Words]
      (parse_cmd.c: splitting lines; strtol); [Numbers] (numbers.c).
    - The database: [Db] (db_private.h, db.h: programs, objects, the table of
      objects); [Links] (the linked lists of db_objects.c); [Hierarchy] (loops
      over the tree of objects); [Attributes] (names, owners, flags, contents);
      [Preps], [Verbs] (db_verbs.c); [Properties] (db_properties.c), [PropView]
      (what its tables mean), [PropChange] (adding, deleting, renaming);
      [ChangeParent] (db_change_parent); [Objects] (creation, destruction,
      renumbering), [Renumber] (what renumbering does to every link and owner);
      [Database] (all operations as one state machine and its invariant).
    - Access to the database: [Authority] (the permissions that operations
      require), [PropBuiltins] (property.c, quota.c), [VerbBuiltins] (verbs.c).
    - Commands: [Commands] (match.c, parse_cmd.c).
    - Programs: [Ast] (ast.h, opcode.h), [CodeGen] (code_gen.c); [CodeSpec]
      says what code a tree has, with places instead of bytes, and how the
      primitives of the generator act on it; [CodeProof] (expressions) and
      [CodeStmts] (statements, the filling of the holes, programs) prove the
      generator against it.  [Decompile] (decompile.c) turns vectors back into
      trees; [DecompileProof] (reading, expressions) and [DecompileStmts]
      prove that it undoes the generator.  Its fuel bounds the instructions in
      sequence and inside of one another.
    - The virtual machine (execute.c): [Activation] (execute.h, eval_env.c,
      eval_vm.c: activations, environments, tick counts), [Machine] (the state,
      calls of verbs and built-ins, errors, tracebacks, unwinding), [Run] (one
      definition per instruction, and [run()]), [Interp] (entry points and the
      built-ins of execute.c), [ObjBuiltins] (objects.c).  [unwind_stack]
      returns to the activations below, one per unit of its fuel, so that the
      height of the stack is enough; the fuel of [run] is the number of
      instructions, and [None] stands for a machine that still runs, or panics.
      A task of the interpreter may go on for ever, so the fuel is a parameter,
      as is the timer ([task_timed_out]).
    - [Eval] says what a program of expressions, conditionals, loops, breaks
      and returns means, by recursion on the tree; [Exec] proves that the code
      [CodeGen] puts out for it, run by [Run], computes that.  [RunProof] is
      about unwinding, and about two programs that do not do what they say;
      [TypeProof] shows that what programs compute are values.
    - Tasks (tasks.c): [InputQueue] (the lines a connection has typed),
      [Tasks] (queues of tasks, usage, counting), [TaskQueues] (options,
      forking, suspending, reading, killing, resuming), [Scheduler] (commands,
      logging in, programming, [run_ready_tasks], the built-ins).  [TaskProof]
      has the invariant of the queues.

    A built-in function is called through the gate of [Functions], which checks
    the number and the types of its arguments; the functions of [ListBuiltins]
    and [Numbers] compute with values only, those of [PropBuiltins] and
    [VerbBuiltins] check permissions and call the operations of [Database].
    The theorems about a client use the invariant [Database.db_inv] and the
    effect lemmas of the operations, not their code.

    ** Conventions

    - A C function that may panic, read outside an array or run out of fuel is
      a function to [option]; [None] stands for all three, so a theorem that
      says [f x = Some y] excludes them.  Loops without a structural argument
      take fuel: [ll_fuel] is one more than the number of objects, for loops
      over linked lists and the hierarchy; loops over a buffer have its length;
      the loop of [do_power] has 63; the search of [random] the length of its
      list of random numbers.  The theorems show that it is enough.
    - State is passed explicitly: a [db] goes in and a [db] comes out.  The
      table of objects is a finite map, a [Verbdef] has the address of its
      structure, so that handles and the verb cache may refer to it.
    - A C string is the list of its bytes without the NUL ([cstr]: each between
      1 and 255), a buffer that is written in place the list of all its bytes.
    - An integer of width w is a [Z]; [swrap], [uwrap], [int] write out the
      wrap-around.  Overflow of signed integers, which C leaves undefined, is
      modelled as wrap-around, the code of the usual compilers.
    - Floats are [spec_float]s; the functions of the C library on them, its
      random numbers and its formatting are parameters of the definitions, as
      are the regular expression library, iconv and the parser that yacc
      generates.  Hypotheses about them state their documented behaviour and
      have a witness with a concrete function.

    ** What the theorems show

    - The database: [Database.database_invariant] (every sequence of operations
      of creating, destroying, renumbering, moving, reparenting and so on keeps
      the hierarchy, contents, property tables, users, verbs and verb cache
      well formed, and no operation that is called as documented fails);
      [Renumber.db_renumber_object_spec] (everything refers to the new number
      as it did to the old one); the functional theorems of each operation ([db_change_parent_correct],
      [db_add_propdef_correct], [db_find_property_correct], ...).
    - Access: the built-ins on properties and verbs do only what the programmer
      may do, keep the invariant and are atomic when they raise an error
      ([property_builtins_obey], [verb_builtins_obey]); from this, isolation: no
      sequence of calls changes what the programmer cannot write
      ([property_isolation]).
    - Verb lookup: the cache answers what a search would
      ([verb_lookup_correct]); names match as documented
      ([verbcasecmp_correct]).
    - Values: arithmetic, equality, reading and printing of numbers, lists and
      strings; round trips of UTF-8, binary notation, quoting.
    - Commands: the words of a line are distributed over verb, objects and
      preposition without loss ([parse_command_correct]), names match as
      documented ([match_object_correct]).
    - Programs: the code generator never panics on what the parser builds, and
      its vectors are the code of the tree ([generate_code_correct]), within
      limits that the lemmas after it show to be needed.  Decompiling such a
      program terminates and gives the tree back ([decompile_generate]), with
      one exception that [decompile_slot_106] shows.
    - Running programs: what the generator puts out, the machine computes
      ([program_runs]: with enough ticks and fuel the interpreter ends with the
      value that the tree means), which is a value of MOO and no mark or empty
      slot ([program_values]).  Errors go to the handler the program's text
      says ([unwinding_correct]), an abort is stopped by none and ends the task
      ([abort_ends_task]).  A loop that no limit stops, and a scattering
      assignment that loses an element: [named_while_never_stops],
      [scatter_rest_misses_last].
    - Tasks: the input of a connection is a plain list of lines
      ([input_queue_correct]); the queues of tasks stay ordered, disjoint,
      complete and exactly counted under every operation ([tasks_invariant]).

    ** Configuration

    UNICODE_STRINGS on; WAIF_CORE off; 64-bit integers with a 128-bit type for
    products; unboxed floats; no pragmas; UNICODE_NUMBERS and
    BITWISE_OPERATORS off (the instructions of the latter are modelled all the
    same); VERB_CACHE on; [char] signed; lrand48 as the source of random numbers (RAND_MAX is 2^31-1); BQM_64 with F = 4 and V = 8;
    MAX_LIST 134217725; PATTERN_CACHE_SIZE 20.

    ** Not modelled

    Reference counts and memory (storage.c, ref_count.c, exceptions.c): values
    are mathematical, memory is never exhausted and addresses are never used
    again.  [int] counters over arrays in memory are not wrapped where the
    array would have to be larger than memory.  The [static] results of
    [db_find_property] and the like are returned by value.  Networking, the
    main loop, checkpoints and the database file (net_*.c, server.c, db_file.c,
    db_io.c) are system calls with little logic between them; regexpr.c and
    md5.c are third-party code; waifs and XML are off; the parser is generated
    by yacc, which leaves its grammar as text.

    Of the machine: saving activations to and restoring them from a database
    file, [seconds_left()] and the timers; line numbers of tracebacks
    ([find_line_number]) and the listing of programs (unparse.c, disassemble.c)
    are parameters.  Of the tasks: saving and restoring, the queues of
    experiments.c, the sizes that [queued_tasks()] shows.  [Eval] leaves out
    what has an effect outside of the activation (calls, assignments to
    properties, forks) and the handlers of errors, which [unwinding_correct]
    treats on its own.

    ** Plan

    What is left of the program is input and output: the database file, saved
    tasks and networking would need a model of files and sockets; the listing
    of programs would need one of the printed grammar, which only yacc reads.
    The theorem about the machine could be extended to calls of verbs, with
    the stack of activations in the meaning of a program. *)

From stdpp Require Export prelude list gmap strings.
From Stdlib Require Export ZArith Lia.
From Stdlib Require Ascii String.

#[global] Open Scope Z_scope.

(** ** Automation *)

(** Lemmas that automate the common cases are registered in [moo]; equations
    that only ever simplify are registered for [autorewrite with moo]. *)
Create HintDb moo discriminated.
#[export] Hint Constants Opaque : moo.
#[export] Hint Variables Opaque : moo.

(** Turn boolean tests of the code into propositions, in hypotheses and goal. *)
Ltac breflect :=
  repeat match goal with
  | H : (_ =? _) = true |- _ => apply Z.eqb_eq in H
  | H : (_ =? _) = false |- _ => apply Z.eqb_neq in H
  | H : (_ <? _) = true |- _ => apply Z.ltb_lt in H
  | H : (_ <? _) = false |- _ => apply Z.ltb_ge in H
  | H : (_ <=? _) = true |- _ => apply Z.leb_le in H
  | H : (_ <=? _) = false |- _ => apply Z.leb_gt in H
  | H : negb _ = true |- _ => apply negb_true_iff in H
  | H : negb _ = false |- _ => apply negb_false_iff in H
  | H : (_ && _)%bool = true |- _ => apply andb_true_iff in H as [? ?]
  | H : (_ || _)%bool = false |- _ => apply orb_false_iff in H as [? ?]
  | H : bool_decide _ = true |- _ => apply bool_decide_eq_true in H
  | H : bool_decide _ = false |- _ => apply bool_decide_eq_false in H
  end.

(** [lia] with the Euclidean equations of the quotients and remainders. *)
Ltac dlia := Z.to_euclidean_division_equations; lia.

(** Case analysis on the first boolean test of the goal; [btestd] also decides
    tests about quotients and remainders. *)
Ltac btest_with tac :=
  match goal with
  | |- context [Z.eqb ?a ?b] => destruct (Z.eqb_spec a b)
  | |- context [Z.ltb ?a ?b] => destruct (Z.ltb_spec a b)
  | |- context [Z.leb ?a ?b] => destruct (Z.leb_spec a b)
  end; simpl; try tac.
(** The same without simplifying anything but the test. *)
Ltac btestc :=
  match goal with
  | |- context [Z.eqb ?a ?b] => destruct (Z.eqb_spec a b)
  | |- context [Z.ltb ?a ?b] => destruct (Z.ltb_spec a b)
  | |- context [Z.leb ?a ?b] => destruct (Z.leb_spec a b)
  end; cbn [negb andb orb]; cbv beta iota; try lia.
Ltac btest := btest_with ltac:(lia).
Ltac btestd := btest_with ltac:(solve [dlia]).

(** Invert a successful computation in the option monad. *)
Ltac invopt := repeat (progress simplify_option_eq; breflect).

(** ** Machine integers *)

(** An unsigned [w]-bit value: reduction modulo 2^w. *)
Definition uwrap (w z : Z) : Z := z mod 2 ^ w.

(** A signed two's complement [w]-bit value. *)
Definition swrap (w z : Z) : Z := (z + 2 ^ (w - 1)) mod 2 ^ w - 2 ^ (w - 1).

Lemma uwrap_range w z : 0 <= w -> 0 <= uwrap w z < 2 ^ w.
Proof. intros. apply Z.mod_pos_bound. lia. Qed.

Lemma uwrap_id w z : 0 <= z < 2 ^ w -> uwrap w z = z.
Proof. apply Z.mod_small. Qed.

Lemma swrap_range w z : 1 <= w -> - 2 ^ (w - 1) <= swrap w z < 2 ^ (w - 1).
Proof.
  intros. unfold swrap.
  assert (2 ^ w = 2 * 2 ^ (w - 1)) as -> by (rewrite <- Z.pow_succ_r by lia; f_equal; lia).
  pose proof (Z.mod_pos_bound (z + 2 ^ (w - 1)) (2 * 2 ^ (w - 1))). lia.
Qed.

Lemma swrap_id w z : 1 <= w -> - 2 ^ (w - 1) <= z < 2 ^ (w - 1) -> swrap w z = z.
Proof.
  intros Hw Hz. unfold swrap.
  assert (2 ^ w = 2 * 2 ^ (w - 1)) as -> by (rewrite <- Z.pow_succ_r by lia; f_equal; lia).
  rewrite Z.mod_small; lia.
Qed.

(** Wrapping early or late makes no difference to a sum. *)
Lemma swrap_add_l w a b : 1 <= w -> swrap w (swrap w a + b) = swrap w (a + b).
Proof.
  intros Hw. unfold swrap. f_equal.
  replace ((a + 2 ^ (w - 1)) mod 2 ^ w - 2 ^ (w - 1) + b + 2 ^ (w - 1))
    with ((a + 2 ^ (w - 1)) mod 2 ^ w + b) by lia.
  rewrite Zplus_mod_idemp_l. f_equal. lia.
Qed.

#[export] Hint Resolve uwrap_range swrap_range : moo.

(** ** Bits

    A field below bit [n] can be merged with [lor] into a multiple of 2^n. *)
Lemma lor_low (k n b : Z) : 0 <= n -> 0 <= b < 2 ^ n -> Z.lor (k * 2 ^ n) b = k * 2 ^ n + b.
Proof.
  intros Hn Hb. symmetry. apply Z.add_nocarry_lor. apply Z.bits_inj'. intros i Hi.
  rewrite Z.land_spec, Z.bits_0, <- Z.shiftl_mul_pow2, Z.shiftl_spec by lia.
  destruct (Z.ltb_spec i n).
  - rewrite Z.testbit_neg_r by lia. done.
  - rewrite <- (Z.mod_small b (2 ^ n)) by done.
    rewrite Z.mod_pow2_bits_high by lia. apply andb_false_r.
Qed.

Lemma land_low (a n : Z) : 0 <= n -> Z.land a (2 ^ n - 1) = a mod 2 ^ n.
Proof. intros. rewrite <- Z.land_ones by done. f_equal. rewrite Z.ones_equiv. lia. Qed.

(** ** C strings

    A [char *] that points to the start of an allocated string is the list of
    its bytes without the terminating NUL; a pointer into it is an offset. *)
Abbreviation bytes := (list Z).

(** A byte list that can be the contents of a C string. *)
Definition cstr (s : bytes) : Prop := Forall (fun c => 0 < c < 256) s.

Definition cstrb (s : bytes) : bool := forallb (fun c => (0 <? c) && (c <? 256)) s.
Lemma cstrb_ok s : cstrb s = true -> cstr s.
Proof.
  unfold cstrb. rewrite forallb_forall. intros H. apply Forall_forall. intros c Hc.
  apply list_elem_of_In, H in Hc. breflect. lia.
Qed.

(** Reading through a pointer: the NUL is what lies at the end. *)
Definition byte_at (s : bytes) (p : nat) : Z := nth p s 0.

(** Literals, for concrete strings of the source and of the examples. *)
Fixpoint bytes_of_string (s : string) : bytes :=
  match s with
  | String.EmptyString => []
  | String.String c s' => Z.of_nat (Ascii.nat_of_ascii c) :: bytes_of_string s'
  end.

Abbreviation BS s := (bytes_of_string s%string) (only parsing).

Lemma byte_at_app_l s t p : (p < length s)%nat -> byte_at (s ++ t) p = byte_at s p.
Proof. intros. unfold byte_at. by rewrite app_nth1. Qed.

Lemma byte_at_app_r s t p :
  (length s <= p)%nat -> byte_at (s ++ t) p = byte_at t (p - length s).
Proof. intros. unfold byte_at. by rewrite app_nth2. Qed.

Lemma byte_at_end s p : (length s <= p)%nat -> byte_at s p = 0.
Proof. apply nth_overflow. Qed.

Lemma byte_at_cstr s p : cstr s -> (p < length s)%nat -> 0 < byte_at s p < 256.
Proof.
  intros Hs Hp. unfold byte_at. rewrite nth_lookup.
  destruct (lookup_lt_is_Some_2 s p Hp) as [c Hc]. rewrite Hc. simpl.
  by apply (Forall_lookup_1 _ _ _ _ Hs Hc).
Qed.

(** ** Intrusive linked lists

    The object database threads its lists through the objects themselves: a
    head field in one object, a next field in each member, ended by a sentinel.
    [chain nx stop h l] says that following the partial function [nx] from [h]
    visits exactly the elements of [l], in order, and then meets [stop]. *)
Section Chain.
Context (stop : Z).
Implicit Types (nx : Z -> option Z) (h x y : Z) (l : list Z).

Inductive chain nx : Z -> list Z -> Prop :=
| chain_nil : chain nx stop []
| chain_cons h t l : h <> stop -> nx h = Some t -> chain nx t l -> chain nx h (h :: l).

(** The traversal loop [for (c = h; c != stop; c = nx(c))], with fuel. *)
Fixpoint walk nx (fuel : nat) (h : Z) : option (list Z) :=
  match fuel with
  | O => None
  | S f => if h =? stop then Some []
           else t ← nx h; l ← walk nx f t; Some (h :: l)
  end.

Lemma chain_inv_stop nx l : chain nx stop l -> l = [].
Proof. by inversion 1. Qed.

Lemma chain_inv nx h l : chain nx h l -> h <> stop ->
  exists t l', l = h :: l' /\ nx h = Some t /\ chain nx t l'.
Proof. inversion 1; intros; simplify_eq; eauto. Qed.

Lemma chain_cons_inv nx h x l : chain nx h (x :: l) ->
  x = h /\ h <> stop /\ exists t, nx h = Some t /\ chain nx t l.
Proof. inversion 1; simplify_eq; eauto. Qed.

Lemma chain_nil_inv nx h : chain nx h [] -> h = stop.
Proof. by inversion 1. Qed.

Lemma chain_det nx h l1 l2 : chain nx h l1 -> chain nx h l2 -> l1 = l2.
Proof.
  intros H; revert l2. induction H as [|h t l Hs Ht Hc IH]; intros l2 Hl2.
  - symmetry. by eapply chain_inv_stop.
  - destruct (chain_inv _ _ _ Hl2 Hs) as (t' & l' & -> & Ht' & Hc').
    simplify_eq. f_equal. by apply IH.
Qed.

Lemma chain_not_stop nx h l : chain nx h l -> stop ∉ l.
Proof. induction 1; set_solver. Qed.

Lemma chain_split nx h l1 x l2 : chain nx h (l1 ++ x :: l2) -> chain nx x (x :: l2).
Proof.
  revert h. induction l1 as [|y l1 IH]; intros h H; simpl in *.
  - by destruct (chain_cons_inv _ _ _ _ H) as (-> & _).
  - destruct (chain_cons_inv _ _ _ _ H) as (_ & _ & t & _ & H'). eauto.
Qed.

(** A finite chain cannot visit an element twice. *)
Lemma chain_NoDup nx h l : chain nx h l -> NoDup l.
Proof.
  induction 1 as [|h t l Hs Ht Hc IH]; constructor; [|done].
  intros Hin. apply list_elem_of_split in Hin as (l1 & l2 & ->).
  apply chain_split in Hc as Hc2.
  assert (Hc3 : chain nx h (h :: l1 ++ h :: l2)) by (econstructor; eauto).
  pose proof (chain_det _ _ _ _ Hc2 Hc3) as E.
  apply (f_equal length) in E. simpl in E. rewrite length_app in E. simpl in E. lia.
Qed.

Lemma chain_elem_defined nx h l x : chain nx h l -> x ∈ l -> is_Some (nx x).
Proof. induction 1; set_solver. Qed.

Lemma chain_ext nx nx' h l :
  (forall x, x ∈ l -> nx' x = nx x) -> chain nx h l -> chain nx' h l.
Proof.
  intros E H. induction H as [|h t l Hs Ht Hc IH]; [constructor|].
  econstructor; [done| |apply IH; set_solver].
  by rewrite E by set_solver.
Qed.

Lemma walk_chain nx f h l : walk nx f h = Some l -> chain nx h l.
Proof.
  revert h l. induction f as [|f IH]; intros h l; simpl; [done|].
  destruct (Z.eqb_spec h stop) as [->|]; intros; invopt; econstructor; eauto.
Qed.

Lemma chain_walk nx f h l : chain nx h l -> (length l < f)%nat -> walk nx f h = Some l.
Proof.
  intros H; revert f. induction H as [|h t l Hs Ht Hc IH]; intros [|f] Hf;
    simpl in *; try lia.
  - by rewrite Z.eqb_refl.
  - destruct (Z.eqb_spec h stop); [done|]. rewrite Ht. simpl.
    by rewrite IH by lia.
Qed.

(** With finitely many nodes the chain is no longer than their number. *)
Lemma chain_length nx h l (D : gset Z) :
  chain nx h l -> (forall x, is_Some (nx x) -> x ∈ D) -> (length l <= size D)%nat.
Proof.
  intros H HD. rewrite <- (size_list_to_set (C := gset Z) l) by eauto using chain_NoDup.
  apply subseteq_size. intros x Hx. apply elem_of_list_to_set in Hx.
  eauto using chain_elem_defined.
Qed.
(** Cutting a node out: the node before it takes over its successor. *)
Lemma chain_cut nx nx' h l1 p c l2 t :
  chain nx h (l1 ++ p :: c :: l2) -> nx c = Some t -> nx' p = Some t ->
  (forall x, x ∈ l1 ++ l2 -> nx' x = nx x) ->
  chain nx' h (l1 ++ p :: l2).
Proof.
  intros H Hc Hp E. revert h H. induction l1 as [|y l1 IH]; intros h H; simpl in *.
  - destruct (chain_cons_inv _ _ _ _ H) as (-> & Hs & u & Hu & H').
    destruct (chain_cons_inv _ _ _ _ H') as (-> & Hs' & u' & Hu' & H''). simplify_eq.
    econstructor; [done|done|]. eapply chain_ext; [|done]. intros. apply E. done.
  - destruct (chain_cons_inv _ _ _ _ H) as (-> & Hs & u & Hu & H').
    econstructor; [done|by rewrite E by set_solver|]. apply IH; [set_solver|done].
Qed.

(** Appending a node: the last one points to it, and it points to the end. *)
Lemma chain_append nx nx' h l p c :
  chain nx h (l ++ [p]) -> c <> stop -> nx' p = Some c -> nx' c = Some stop ->
  (forall x, x ∈ l -> nx' x = nx x) ->
  chain nx' h (l ++ [p; c]).
Proof.
  intros H Hs Hp Hc E. revert h H. induction l as [|y l IH]; intros h H; simpl in *.
  - destruct (chain_cons_inv _ _ _ _ H) as (-> & Hs' & _).
    do 2 (econstructor; [done|done|]). constructor.
  - destruct (chain_cons_inv _ _ _ _ H) as (-> & Hs' & u & Hu & H').
    econstructor; [done|by rewrite E by set_solver|]. apply IH; [set_solver|done].
Qed.
End Chain.
Arguments chain_nil {stop nx}.
#[export] Hint Resolve chain_nil : moo.

(** ** Lists *)

Lemma lookup_snoc_last {A} (l : list A) x : (l ++ [x]) !! length l = Some x.
Proof. by rewrite lookup_app_r, Nat.sub_diag by lia. Qed.

(** A list is empty or has a last element. *)
Lemma app_case {A} (l : list A) : l = [] \/ exists l' x, l = l' ++ [x].
Proof. induction l as [|x l _] using rev_ind; [by left|right; eauto]. Qed.

(** A list without an element. *)
Definition without (c : Z) (l : list Z) : list Z := filter (fun x => x <> c) l.

Lemma without_notin c l : c ∉ l -> without c l = l.
Proof.
  unfold without. induction l as [|a l IH]; [done|]. intros H. apply not_elem_of_cons in H as [H1 H2].
  rewrite filter_cons_True by congruence. by rewrite IH.
Qed.

Lemma without_split c l1 l2 : NoDup (l1 ++ c :: l2) -> without c (l1 ++ c :: l2) = l1 ++ l2.
Proof.
  intros H. unfold without. rewrite filter_app, filter_cons_False by (intros Hc; by apply Hc).
  apply NoDup_app in H as (H1 & H2 & H3). apply NoDup_cons in H3 as [H3 _].
  f_equal; apply without_notin; [|done]. intros Hc. apply (H2 c); set_solver.
Qed.

Lemma fold_left_invariant {A B} (P : B -> Prop) (f : B -> A -> B) (l : list A) b :
  P b -> (forall b x, x ∈ l -> P b -> P (f b x)) -> P (fold_left f l b).
Proof.
  revert b. induction l as [|a l IH]; intros b Hb Hf; simpl; [done|].
  apply IH; [apply Hf; [set_solver|done]|]. intros. apply Hf; [set_solver|done].
Qed.

(** A property of bytes checked on all 256 values. *)
Lemma byte_cases (P : Z -> bool) : forallb P (seqZ 0 256) = true ->
  forall c, 0 <= c < 256 -> P c = true.
Proof.
  intros H c Hc. rewrite forallb_forall in H. apply H.
  apply list_elem_of_In, elem_of_seqZ. lia.
Qed.

Lemma existsb_ext {A} (f g : A -> bool) (l : list A) :
  (forall x, f x = g x) -> existsb f l = existsb g l.
Proof. intros H. induction l as [|x l IH]; simpl; [done|]. by rewrite H, IH. Qed.
