(* ===== verification/Utf.v ===== *)
(** * UTF-8 handling (utf.c, utf.h, configured with UNICODE_STRINGS)

    A [char **] argument is an offset into the string it points into; the byte
    at and beyond the end reads as the terminating NUL.  Functions that
    advance the pointer return the new offset. *)

From S2P Require Import Prelude.

(** ** Definitions *)

Definition INVALID_RUNE : Z := 0xfffd.

Definition is_utf8_cont_byte (c : Z) : bool := Z.land c 0xc0 =? 0x80.

(** The macro GET_CONT of [get_utf]: read a continuation byte at [p] into [v]
    and go on with [k]; the byte is [uint8_t], so anything outside
    0x80..0xbf wraps above 0x3f and leads to the label [bad_cont]. *)
Definition get_cont (s : bytes) (p : nat) (v : Z) (k : nat -> Z -> Z * nat) : Z * nat :=
  let c := uwrap 8 (byte_at s p - 0x80) in
  if 0x3f <? c then (INVALID_RUNE, p)
  else k (S p) (uwrap 32 (Z.shiftl v 6 + c)).

Definition get_utf (s : bytes) (p : nat) : Z * nat :=
  let c := byte_at s p in
  let p := S p in
  if c <=? 0x7f then (c, p)
  else if c <=? 0xbf then (INVALID_RUNE, p)
  else if c <=? 0xdf then
    get_cont s p (Z.land c 0x1f) (fun p v =>
      (if v <=? 0x7f then INVALID_RUNE else v, p))
  else if c <=? 0xef then
    get_cont s p (Z.land c 0x0f) (fun p v =>
    get_cont s p v (fun p v =>
      (if (v <=? 0x7ff) || ((0xd800 <=? v) && (v <=? 0xdfff)) then INVALID_RUNE else v, p)))
  else if c <=? 0xf7 then
    get_cont s p (Z.land c 0x07) (fun p v =>
    get_cont s p v (fun p v =>
    get_cont s p v (fun p v =>
      (if (v <=? 0xffff) || (0x10ffff <? v) then INVALID_RUNE else v, p))))
  else (INVALID_RUNE, p).

(** The client of [get_utf_call]: a function that yields the next byte, or
    EOF, and its own state. *)
Definition EOF : Z := -1.

Section get_utf_call.
Context {D : Type} (c_getch : D -> Z * D).

(** GET_CONT of [get_utf_call].  Here [c] is an [int32_t]: [c - 0x80] is
    negative, and passes the test, for every [c] below 0x80. *)
Definition get_cont_call (d : D) (v : Z) (k : D -> Z -> Z * D * Z) : Z * D * Z :=
  let '(c, d) := c_getch d in
  let cc := c in
  let c := c - 0x80 in
  if 0x3f <? c then (INVALID_RUNE, d, cc)
  else k d (swrap 32 (Z.shiftl v 6 + c)).

(** Returns the character, the client's state and the new [*state]. *)
Definition get_utf_call (c_data : D) (state : Z) : Z * D * Z :=
  let '(c, d) := if negb (state =? -1) then (state, c_data) else c_getch c_data in
  if (state =? -1) && (c =? EOF) then (EOF, d, state)
  else if c <=? 0x7f then (c, d, -1)
  else if c <=? 0xbf then (INVALID_RUNE, d, -1)
  else if c <=? 0xdf then
    get_cont_call d (Z.land c 0x1f) (fun d v =>
      (if v <=? 0x7f then INVALID_RUNE else v, d, -1))
  else if c <=? 0xef then
    get_cont_call d (Z.land c 0x0f) (fun d v =>
    get_cont_call d v (fun d v =>
      (if (v <=? 0x7ff) || ((0xd800 <=? v) && (v <=? 0xdfff)) then INVALID_RUNE else v,
       d, -1)))
  else if c <=? 0xf7 then
    get_cont_call d (Z.land c 0x07) (fun d v =>
    get_cont_call d v (fun d v =>
    get_cont_call d v (fun d v =>
      (if (v <=? 0xffff) || (0x10ffff <? v) then INVALID_RUNE else v, d, -1))))
  else (INVALID_RUNE, d, -1).
End get_utf_call.

(** A byte stored through a [char *]. *)
Definition byte (z : Z) : Z := uwrap 8 z.

(** The bytes written through [*pp], or [None] for the result -1; [v] is a
    [uint32_t]. *)
Definition put_utf (v : Z) : option bytes :=
  if v <=? 0x7f then Some [byte v]
  else if v <=? 0x7ff then
    Some [byte (Z.lor 0xc0 (Z.shiftr v 6)); byte (Z.lor 0x80 (Z.land v 0x3f))]
  else if v <=? 0xffff then
    if uwrap 32 (v - 0xd800) <=? 0xdfff - 0xd800 then None
    else Some [byte (Z.lor 0xe0 (Z.shiftr v 12));
               byte (Z.lor 0x80 (Z.land (Z.shiftr v 6) 0x3f));
               byte (Z.lor 0x80 (Z.land v 0x3f))]
  else if v <=? 0x10ffff then
    Some [byte (Z.lor 0xf0 (Z.shiftr v 18));
          byte (Z.lor 0x80 (Z.land (Z.shiftr v 12) 0x3f));
          byte (Z.lor 0x80 (Z.land (Z.shiftr v 6) 0x3f));
          byte (Z.lor 0x80 (Z.land v 0x3f))]
  else None.

(** [do { --ci; } while (get_utf(&s) && ci > 1)], with fuel. *)
Fixpoint byte_index_loop (fuel : nat) (s : bytes) (p : nat) (ci : Z) : option (nat * Z) :=
  match fuel with
  | O => None
  | S f =>
      let ci := ci - 1 in
      let '(v, p) := get_utf s p in
      if negb (v =? 0) && (1 <? ci) then byte_index_loop f s p ci else Some (p, ci)
  end.

Definition utf_byte_index (s0 : bytes) (ci : Z) : option Z :=
  if ci <=? 1 then Some ci
  else '(p, ci) ← byte_index_loop (S (length s0)) s0 0 ci; Some (Z.of_nat p + ci).

(** *** utf_byte_range

    The array [cis] is a pair; the roaming pointer [cis] is an index relative
    to the start of the array, so that [cis[o]] is [aget a (c + o)]. *)
Definition aget (a : Z * Z) (i : Z) : Z := if i =? 0 then a.1 else a.2.
Definition aset (a : Z * Z) (i v : Z) : Z * Z := if i =? 0 then (v, a.2) else (a.1, v).

Section utf_byte_range.
Context (o step cidone : Z).

(** [while (cis[o] <= 0) { cis += step; if (cis == cidone) return; }]:
    [None] is the early return. *)
Fixpoint range_skip (fuel : nat) (a : Z * Z) (c : Z) : option Z :=
  match fuel with
  | O => None
  | S f => if aget a (c + o) <=? 0
           then let c := c + step in if c =? cidone then None else range_skip f a c
           else Some c
  end.

(** [while (cis[o] == cn) ...] of the main loop; [inl] is the early return. *)
Fixpoint range_hit (fuel : nat) (a : Z * Z) (c cn : Z) (p : nat) : Z * Z + Z * Z * Z :=
  match fuel with
  | O => inl a
  | S f => if aget a (c + o) =? cn
           then let a := aset a (c + o) (Z.of_nat p + 1) in
                let c := c + step in
                if c =? cidone then inl a else range_hit f a c cn p
           else inr (a, c)
  end.

(** The final loop, for the indices beyond the end of the string. *)
Fixpoint range_rest (fuel : nat) (a : Z * Z) (c cn : Z) (p : nat) : Z * Z :=
  match fuel with
  | O => a
  | S f => let a := aset a (c + o) (aget a (c + o) + (Z.of_nat p - cn + 1)) in
           let c := c + step in
           if c =? cidone then a else range_rest f a c cn p
  end.

Fixpoint range_loop (fuel : nat) (s : bytes) (a : Z * Z) (c cn : Z) (p : nat)
  : option (Z * Z) :=
  match fuel with
  | O => None
  | S f =>
      match range_hit 3 a c cn p with
      | inl a => Some a
      | inr (a, c) =>
          let cn := cn + 1 in
          let '(v, p) := get_utf s p in
          if negb (v =? 0) then range_loop f s a c cn p
          else Some (range_rest 3 a c cn p)
      end
  end.
End utf_byte_range.

(** The array has two elements, so the inner loops run at most twice: their
    fuel of 3 is never used up. *)
Definition utf_byte_range (s : bytes) (cis : Z * Z) : option (Z * Z) :=
  let o := if cis.2 <? cis.1 then -1 else 0 in
  let step := Z.lor o 1 in
  let cidone := 1 + step in
  let c := 1 - step in
  match range_skip o step cidone 3 cis c with
  | None => Some cis
  | Some c => range_loop o step cidone (S (length s)) s cis c 1 0
  end.

(** [while (is_utf8_cont_byte( *--s));]: [None] would be a read before the start. *)
Fixpoint utf_back (s : bytes) (p : nat) : option nat :=
  match p with
  | O => None
  | S p' => if is_utf8_cont_byte (byte_at s p') then utf_back s p' else Some p'
  end.

Fixpoint char_index_loop (fuel : nat) (s : bytes) (p : nat) (ci : Z) : option Z :=
  match fuel with
  | O => None
  | S f => if (0 <? p)%nat then p ← utf_back s p; char_index_loop f s p (ci + 1)
           else Some ci
  end.

(** [None] is the panic on a malformed string. *)
Definition utf_char_index (s0 : bytes) (bi : Z) : option Z :=
  if is_utf8_cont_byte (byte_at s0 0) then None
  else let p := Z.to_nat (bi - 1) in char_index_loop (S p) s0 p 1.

Fixpoint strlen_utf_loop (fuel : nat) (s : bytes) (p : nat) (i : Z) : option Z :=
  match fuel with
  | O => None
  | S f => let '(v, p) := get_utf s p in
           if negb (v =? 0) then strlen_utf_loop f s p (i + 1) else Some i
  end.

Definition memo_strlen_utf (s : bytes) : option Z := strlen_utf_loop (S (length s)) s 0 0.

Definition clearance_utf (c : Z) : Z :=
  if c <=? 0x7f then 1
  else if c <=? 0xbf then 1
  else if c <=? 0xdf then 2
  else if c <=? 0xef then 3
  else if c <=? 0xf7 then 4
  else 1.

Definition char_size (c : Z) : Z :=
  1 + (if 0x7f <? c then 1 else 0) + (if 0x77f <? c then 1 else 0)
    + (if 0xffff <? c then 1 else 0).

(** ** Specification *)

(** The characters that [put_utf] encodes, the NUL apart. *)
Definition scalar (v : Z) : Prop :=
  0 < v <= 0x10ffff /\ ~ (0xd800 <= v <= 0xdfff).

(** The encoding of a sequence of characters. *)
Definition encode (v : Z) : bytes := default [] (put_utf v).
Definition encode_all (vs : list Z) : bytes := concat (encode <$> vs).

(** The byte offsets at which [get_utf] starts reading a character, up to the
    end of the string. *)
Fixpoint starts_from (fuel : nat) (s : bytes) (p : nat) : list nat :=
  match fuel with
  | O => []
  | S f => if (p <? length s)%nat then p :: starts_from f s (get_utf s p).2 else []
  end.
Definition starts (s : bytes) : list nat := starts_from (length s) s 0.
Definition nchars (s : bytes) : nat := length (starts s).

(** The byte index of character index [ci] as utf.h words it: [s] imagined as
    part of a longer string of single-byte characters. *)
Definition byte_index_spec (s : bytes) (ci : Z) : Z :=
  if ci <=? 1 then ci
  else if ci <=? Z.of_nat (nchars s)
  then Z.of_nat (nth (Z.to_nat (ci - 1)) (starts s) 0%nat) + 1
  else ci - Z.of_nat (nchars s) + Z.of_nat (length s).

(** ** Lemmas *)

Lemma get_cont_ind (P : Z * nat -> Prop) s p v k :
  P (INVALID_RUNE, p) ->
  (forall v', (p < length s)%nat -> P (k (S p) v')) ->
  P (get_cont s p v k).
Proof.
  intros Hbad Hk. unfold get_cont. case_match eqn:E; [done|]. apply Hk.
  destruct (decide (p < length s)%nat); [done|].
  rewrite byte_at_end in E by lia. by vm_compute in E.
Qed.

(** At or past the end [get_utf] reads the NUL; before it, a character that is
    not NUL, and never runs over the terminator. *)
Lemma get_utf_end s p : (length s <= p)%nat -> get_utf s p = (0, S p).
Proof. intros. unfold get_utf. by rewrite byte_at_end. Qed.

Lemma get_utf_char s p : cstr s -> (p < length s)%nat ->
  (get_utf s p).1 <> 0 /\ (p < (get_utf s p).2 <= length s)%nat.
Proof.
  intros Hs Hp. pose proof (byte_at_cstr s p Hs Hp) as Hc. unfold get_utf.
  repeat case_match; breflect;
    repeat (apply get_cont_ind; [by simpl; split; [|lia]|intros ??]);
    repeat case_match; simpl; try (split; [lia|lia]); split; try done; try lia;
    repeat match goal with H : (_ || _)%bool = false |- _ => apply orb_false_iff in H as [??] end;
    breflect; lia.
Qed.

Lemma get_utf_nz s p : cstr s -> (get_utf s p).1 = 0 <-> (length s <= p)%nat.
Proof.
  intros Hs. split; intros H.
  - destruct (decide (length s <= p)%nat); [done|].
    destruct (get_utf_char s p Hs ltac:(lia)). lia.
  - by rewrite get_utf_end.
Qed.

Lemma starts_from_fuel s p f1 f2 : cstr s -> (length s - p <= f1)%nat ->
  (length s - p <= f2)%nat -> starts_from f1 s p = starts_from f2 s p.
Proof.
  intros Hs. revert p f2. induction f1 as [|f1 IH]; intros p [|f2] H1 H2; simpl; try done.
  - destruct (Nat.ltb_spec p (length s)); [lia|done].
  - destruct (Nat.ltb_spec p (length s)); [lia|done].
  - destruct (Nat.ltb_spec p (length s)) as [Hp|]; [|done].
    destruct (get_utf_char s p Hs Hp) as [_ Hq]. f_equal. apply IH; lia.
Qed.

(** The starting offsets from [p] on; the fuel of the definition is enough. *)
Definition starts_at (s : bytes) (p : nat) : list nat := starts_from (length s) s p.

Lemma starts_at_end s p : (length s <= p)%nat -> starts_at s p = [].
Proof.
  intros. unfold starts_at. destruct (length s) eqn:E; simpl; [done|].
  rewrite E. destruct (Nat.ltb_spec p (S n)); [lia|done].
Qed.

Lemma starts_at_step s p : cstr s -> (p < length s)%nat ->
  starts_at s p = p :: starts_at s (get_utf s p).2.
Proof.
  intros Hs Hp. unfold starts_at at 1. destruct (length s) as [|n] eqn:E; [lia|].
  simpl. rewrite E. destruct (Nat.ltb_spec p (S n)); [|lia]. f_equal.
  destruct (get_utf_char s p Hs ltac:(lia)) as [_ Hq].
  apply starts_from_fuel; [done|lia|lia].
Qed.

Lemma starts_at_le s p : cstr s -> (length (starts_at s p) <= length s - p)%nat.
Proof.
  intros Hs. remember (length s - p)%nat as n eqn:En.
  revert p En. induction n as [n IH] using lt_wf_ind; intros p ->.
  destruct (decide (p < length s)%nat) as [Hp|].
  - rewrite starts_at_step by done. simpl.
    destruct (get_utf_char s p Hs Hp) as [_ Hq].
    specialize (IH (length s - (get_utf s p).2)%nat ltac:(lia) _ eq_refl). lia.
  - rewrite starts_at_end by lia. simpl. lia.
Qed.

(** Induction on a C string by the characters that [get_utf] reads from [p]. *)
Lemma utf_ind (s : bytes) (P : nat -> Prop) :
  cstr s ->
  (forall p, (length s <= p)%nat -> P p) ->
  (forall p, (p < length s)%nat -> (p < (get_utf s p).2 <= length s)%nat ->
     (get_utf s p).1 <> 0 -> P (get_utf s p).2 -> P p) ->
  forall p, P p.
Proof.
  intros Hs Hend Hstep p. remember (length s - p)%nat as n eqn:En.
  revert p En. induction n as [n IH] using lt_wf_ind; intros p ->.
  destruct (decide (p < length s)%nat) as [Hp|]; [|apply Hend; lia].
  destruct (get_utf_char s p Hs Hp) as [Hv Hq].
  apply Hstep; try done. eapply IH; [|done]. lia.
Qed.

Lemma strlen_utf_loop_spec s p i f : cstr s -> (length s - p < f)%nat ->
  strlen_utf_loop f s p i = Some (i + Z.of_nat (length (starts_at s p))).
Proof.
  intros Hs. revert i f. pattern p. revert p. apply (utf_ind s); [done|..].
  - intros p Hp i [|f] Hf; [lia|]. simpl.
    rewrite get_utf_end, starts_at_end by lia. simpl. f_equal. lia.
  - intros p Hp Hq Hv IH i [|f] Hf; [lia|]. simpl.
    rewrite starts_at_step by done.
    destruct (get_utf s p) as [v q] eqn:E. simpl in *.
    destruct (Z.eqb_spec v 0); [lia|]. simpl. rewrite IH by lia. f_equal. lia.
Qed.

(** The byte index that character index [ci], counted from the character at
    [p], stands for. *)
Definition index_from (s : bytes) (p : nat) (ci : Z) : Z :=
  let n := length (starts_at s p) in
  if ci <=? Z.of_nat n
  then Z.of_nat (nth (Z.to_nat (ci - 1)) (starts_at s p) 0%nat) + 1
  else ci - Z.of_nat n + Z.of_nat (length s).

Lemma index_from_step s p ci : cstr s -> (p < length s)%nat -> 1 < ci ->
  index_from s p ci = index_from s (get_utf s p).2 (ci - 1).
Proof.
  intros Hs Hp Hci. unfold index_from. rewrite (starts_at_step s p) by done. simpl length.
  repeat btest.
  replace (Z.to_nat (ci - 1)) with (S (Z.to_nat (ci - 1 - 1))) by lia. done.
Qed.

Lemma index_from_1 s p : cstr s -> (p <= length s)%nat -> index_from s p 1 = Z.of_nat p + 1.
Proof.
  intros Hs Hp. unfold index_from. destruct (decide (p < length s)%nat).
  - rewrite starts_at_step by done. simpl length. btest.
  - rewrite starts_at_end by lia. simpl. lia.
Qed.

Lemma index_from_end s ci : 1 <= ci ->
  index_from s (length s) ci = ci + Z.of_nat (length s).
Proof. intros. unfold index_from. rewrite starts_at_end by lia. simpl. btest. Qed.

Lemma byte_index_spec_from s ci : byte_index_spec s ci =
  if ci <=? 1 then ci else index_from s 0 ci.
Proof. reflexivity. Qed.

Lemma byte_index_loop_spec s p ci f : cstr s -> (p <= length s)%nat -> 1 < ci ->
  (length s - p < f)%nat ->
  exists q c, byte_index_loop f s p ci = Some (q, c) /\ Z.of_nat q + c = index_from s p ci.
Proof.
  intros Hs. revert ci f. pattern p. revert p. apply (utf_ind s); [done|..].
  - intros p Hp ci [|f] Hpl Hci Hf; [lia|]. simpl.
    rewrite get_utf_end by lia. simpl. eexists _, _. split; [done|].
    assert (p = length s) as -> by lia. rewrite index_from_end by lia. lia.
  - intros p Hp Hq Hv IH ci [|f] Hpl Hci Hf; [lia|]. simpl.
    rewrite (index_from_step s p) by done.
    destruct (get_utf s p) as [v q] eqn:E. simpl in *.
    destruct (Z.eqb_spec v 0); [lia|]. simpl.
    destruct (Z.ltb_spec 1 (ci - 1)).
    + apply IH; lia.
    + eexists _, _. split; [done|]. replace (ci - 1) with 1 by lia.
      rewrite index_from_1 by (done || lia). lia.
Qed.

Lemma utf_byte_index_eq s ci : cstr s -> utf_byte_index s ci = Some (byte_index_spec s ci).
Proof.
  intros Hs. unfold utf_byte_index. rewrite byte_index_spec_from.
  destruct (Z.leb_spec ci 1); [done|].
  destruct (byte_index_loop_spec s 0 ci (S (length s)) Hs) as (q & c & -> & Hqc); [lia..|].
  simpl. by f_equal.
Qed.

(** *** The two-element version

    Both visiting orders are covered at once: the first element visited is at
    index [i0], the second at [i1]. *)
Section range.
Context (o step cidone i0 i1 : Z).
Context (Horder : (o, step, cidone, i0, i1) = (0, 1, 2, 0, 1) \/
                  (o, step, cidone, i0, i1) = (-1, -1, 0, 1, 0)).

Ltac order := destruct Horder; simplify_eq; simpl.

Lemma range_hit_B a cn p : range_hit o step cidone 3 a 1 cn p =
  if aget a i1 =? cn then inl (aset a i1 (Z.of_nat p + 1)) else inr (a, 1).
Proof. order; reflexivity. Qed.

Lemma range_hit_A a cn p : range_hit o step cidone 3 a (1 - step) cn p =
  if aget a i0 =? cn then
    let a := aset a i0 (Z.of_nat p + 1) in
    if aget a i1 =? cn then inl (aset a i1 (Z.of_nat p + 1)) else inr (a, 1)
  else inr (a, 1 - step).
Proof. order; reflexivity. Qed.

Lemma range_rest_B a cn p : range_rest o step cidone 3 a 1 cn p =
  aset a i1 (aget a i1 + (Z.of_nat p - cn + 1)).
Proof. order; reflexivity. Qed.

Lemma range_rest_A a cn p : range_rest o step cidone 3 a (1 - step) cn p =
  let a := aset a i0 (aget a i0 + (Z.of_nat p - cn + 1)) in
  aset a i1 (aget a i1 + (Z.of_nat p - cn + 1)).
Proof. order; reflexivity. Qed.

Lemma range_skip_A a : range_skip o step cidone 3 a (1 - step) =
  if aget a i0 <=? 0 then if aget a i1 <=? 0 then None else Some 1
  else Some (1 - step).
Proof. order; reflexivity. Qed.

Lemma range_loop_S f s a c cn p : range_loop o step cidone (S f) s a c cn p =
  match range_hit o step cidone 3 a c cn p with
  | inl a => Some a
  | inr (a, c) =>
      let '(v, p) := get_utf s p in
      if negb (v =? 0) then range_loop o step cidone f s a c (cn + 1) p
      else Some (range_rest o step cidone 3 a c (cn + 1) p)
  end.
Proof. reflexivity. Qed.

Lemma aget_aset_10 a v : aget (aset a i0 v) i1 = aget a i1.
Proof. order; by destruct a. Qed.

Lemma range_loop_B s a cn p f : cstr s -> (p <= length s)%nat -> cn <= aget a i1 ->
  (length s - p < f)%nat ->
  range_loop o step cidone f s a 1 cn p =
    Some (aset a i1 (index_from s p (aget a i1 - cn + 1))).
Proof.
  intros Hs. revert cn f. pattern p. revert p. apply (utf_ind s); [done|..].
  - intros p Hp cn [|f] Hpl Hcn Hf; [lia|]. rewrite !range_loop_S.
    assert (p = length s) as -> by lia. rewrite range_hit_B.
    destruct (Z.eqb_spec (aget a i1) cn) as [Heq|].
    + rewrite index_from_end by lia. do 2 f_equal. lia.
    + rewrite get_utf_end by lia. cbv beta iota. simpl negb. cbv iota. rewrite range_rest_B, index_from_end by lia.
      do 2 f_equal. lia.
  - intros p Hp Hq Hv IH cn [|f] Hpl Hcn Hf; [lia|]. rewrite !range_loop_S.
    rewrite range_hit_B. destruct (Z.eqb_spec (aget a i1) cn) as [Heq|].
    + rewrite Heq, Z.sub_diag. simpl. by rewrite index_from_1 by (done || lia).
    + rewrite (index_from_step s p) by (done || lia).
      destruct (get_utf s p) as [v q]. simpl in *. destruct (Z.eqb_spec v 0); [lia|].
      simpl. rewrite IH by lia. do 3 f_equal. lia.
Qed.

Lemma range_loop_A s a cn p f : cstr s -> (p <= length s)%nat ->
  cn <= aget a i0 <= aget a i1 -> (length s - p < f)%nat ->
  range_loop o step cidone f s a (1 - step) cn p =
    Some (aset (aset a i0 (index_from s p (aget a i0 - cn + 1))) i1
               (index_from s p (aget a i1 - cn + 1))).
Proof.
  intros Hs. revert cn f. pattern p. revert p. apply (utf_ind s); [done|..].
  - intros p Hp cn [|f] Hpl Hcn Hf; [lia|].
    assert (p = length s) as -> by lia.
    destruct (Z.eqb_spec (aget a i0) cn) as [Heq|Hne].
    + rewrite Heq, Z.sub_diag. simpl (0 + 1). rewrite index_from_1 by (done || lia).
      rewrite <- (aget_aset_10 a (Z.of_nat (length s) + 1)).
      rewrite <- (range_loop_B s _ cn (length s) (S f)) by
        (done || rewrite ?aget_aset_10; lia).
      rewrite !range_loop_S. rewrite range_hit_A, range_hit_B, Heq, Z.eqb_refl. simpl.
      by rewrite aget_aset_10.
    + rewrite !range_loop_S. rewrite range_hit_A. destruct (Z.eqb_spec (aget a i0) cn); [lia|].
      rewrite get_utf_end by lia. cbv beta iota. simpl negb. cbv iota. rewrite range_rest_A.
      cbv zeta. rewrite aget_aset_10, !index_from_end by lia.
      do 2 f_equal; [f_equal|]; lia.
  - intros p Hp Hq Hv IH cn [|f] Hpl Hcn Hf; [lia|].
    destruct (Z.eqb_spec (aget a i0) cn) as [Heq|Hne].
    + rewrite Heq, Z.sub_diag. simpl (0 + 1). rewrite index_from_1 by (done || lia).
      rewrite <- (aget_aset_10 a (Z.of_nat p + 1)).
      rewrite <- (range_loop_B s _ cn p (S f)) by (done || rewrite ?aget_aset_10; lia).
      rewrite !range_loop_S. rewrite range_hit_A, range_hit_B, Heq, Z.eqb_refl. simpl.
      by rewrite aget_aset_10.
    + rewrite !range_loop_S. rewrite range_hit_A. destruct (Z.eqb_spec (aget a i0) cn); [lia|].
      rewrite !(index_from_step s p) by (done || lia).
      destruct (get_utf s p) as [v q]. simpl in *. destruct (Z.eqb_spec v 0); [lia|].
      simpl. rewrite IH by lia. do 2 f_equal; [f_equal|]; f_equal; lia.
Qed.

Lemma range_correct s a : cstr s -> aget a i0 <= aget a i1 ->
  match range_skip o step cidone 3 a (1 - step) with
  | None => Some a
  | Some c => range_loop o step cidone (S (length s)) s a c 1 0
  end = Some (aset (aset a i0 (byte_index_spec s (aget a i0))) i1
                   (byte_index_spec s (aget a i1))).
Proof.
  intros Hs Hle. rewrite range_skip_A, !byte_index_spec_from.
  assert (Hid : forall i, i = i0 \/ i = i1 -> forall a : Z * Z, aset a i (aget a i) = a)
    by (intros i Hi [x y]; clear Hle; order; destruct Hi; subst; done).
  assert (H1 : forall z, 1 <= z -> (if z <=? 1 then z else index_from s 0 z) = index_from s 0 z)
    by (intros z Hz; destruct (Z.leb_spec z 1); [|done];
        replace z with 1 by lia; rewrite index_from_1 by (done || lia); done).
  destruct (Z.leb_spec (aget a i0) 0).
  - destruct (Z.leb_spec (aget a i0) 1); [|lia]. rewrite Hid by auto.
    destruct (Z.leb_spec (aget a i1) 0).
    + destruct (Z.leb_spec (aget a i1) 1); [|lia]. by rewrite Hid by auto.
    + rewrite range_loop_B by (done || lia). rewrite H1 by lia. do 3 f_equal. lia.
  - rewrite range_loop_A by (done || lia). rewrite !H1 by lia.
    do 2 f_equal; [f_equal|]; f_equal; lia.
Qed.
End range.

Lemma utf_byte_range_eq s c0 c1 : cstr s ->
  utf_byte_range s (c0, c1) = Some (byte_index_spec s c0, byte_index_spec s c1).
Proof.
  intros Hs. unfold utf_byte_range. simpl fst. simpl snd.
  destruct (Z.ltb_spec c1 c0).
  - refine (range_correct (-1) (-1) 0 1 0 _ s (c0, c1) Hs _); [by right|].
    unfold aget. simpl. lia.
  - refine (range_correct 0 1 2 0 1 _ s (c0, c1) Hs _); [by left|].
    unfold aget. simpl. lia.
Qed.

(** *** Encoding and decoding *)

Lemma get_cont_shift pre t p v k k' :
  (forall v, k (S (length pre + p)) v =
    ((k' (S p) v).1, (length pre + (k' (S p) v).2)%nat)) ->
  get_cont (pre ++ t) (length pre + p) v k =
    ((get_cont t p v k').1, (length pre + (get_cont t p v k').2)%nat).
Proof.
  intros Hk. unfold get_cont.
  rewrite byte_at_app_r by lia. replace (length pre + p - length pre)%nat with p by lia.
  case_match; [done|]. apply Hk.
Qed.

(** What [get_utf] reads does not depend on what precedes the pointer. *)
Lemma get_utf_shift pre t p :
  get_utf (pre ++ t) (length pre + p) =
    ((get_utf t p).1, (length pre + (get_utf t p).2)%nat).
Proof.
  unfold get_utf.
  rewrite byte_at_app_r by lia. replace (length pre + p - length pre)%nat with p by lia.
  replace (S (length pre + p)) with (length pre + S p)%nat by lia.
  repeat case_match; try (simpl; f_equal; lia);
    repeat (apply get_cont_shift; intros ?;
            try replace (S (length pre + S p)) with (length pre + S (S p))%nat by lia;
            try replace (S (length pre + S (S p))) with (length pre + S (S (S p)))%nat by lia);
    simpl; f_equal; lia.
Qed.

Lemma byte_small z : 0 <= z < 256 -> byte z = z.
Proof. intros. by apply uwrap_id. Qed.

Lemma get_cont_ok t p v k b : byte_at t p = 0x80 + b -> 0 <= b < 64 -> 0 <= v < 2 ^ 26 - 1 ->
  get_cont t p v k = k (S p) (v * 64 + b).
Proof.
  intros Hb Hr Hv. unfold get_cont. rewrite Hb.
  replace (0x80 + b - 0x80) with b by lia. rewrite (uwrap_id 8) by lia.
  destruct (Z.ltb_spec 0x3f b); [lia|]. rewrite Z.shiftl_mul_pow2 by lia.
  by rewrite uwrap_id by lia.
Qed.

(** The encoding as arithmetic. *)
Lemma encode_arith v : scalar v -> encode v =
  if v <=? 0x7f then [v]
  else if v <=? 0x7ff then [0xc0 + v / 64; 0x80 + v mod 64]
  else if v <=? 0xffff then
    [0xe0 + v / 64 / 64; 0x80 + (v / 64) mod 64; 0x80 + v mod 64]
  else [0xf0 + v / 64 / 64 / 64; 0x80 + (v / 64 / 64) mod 64;
        0x80 + (v / 64) mod 64; 0x80 + v mod 64].
Proof.
  intros [Hv Hs]. unfold encode, put_utf.
  assert (Hm : forall x, Z.land x 0x3f = x mod 64) by (intros x; by apply (land_low x 6)).
  assert (Hc : forall x, Z.lor 0x80 (x mod 64) = 0x80 + x mod 64)
    by (intros x; apply (lor_low 2 6); dlia).
  assert (Hsh : forall x, Z.shiftr x 6 = x / 64) by (intros; by rewrite Z.shiftr_div_pow2).
  assert (H12 : Z.shiftr v 12 = v / 64 / 64)
    by (rewrite Z.shiftr_div_pow2 by dlia; change (2 ^ 12) with (64 * 64); rewrite Z.div_div; dlia).
  assert (H18 : Z.shiftr v 18 = v / 64 / 64 / 64)
    by (rewrite Z.shiftr_div_pow2 by dlia; change (2 ^ 18) with (64 * 64 * 64);
        rewrite !Z.div_div; dlia).
  rewrite !Hm, !Hc, H12, H18, !Hsh.
  destruct (Z.leb_spec v 0x7f); [simpl; by rewrite byte_small by dlia|].
  destruct (Z.leb_spec v 0x7ff).
  { simpl. replace (Z.lor 0xc0 (v / 64)) with (0xc0 + v / 64) by (symmetry; apply (lor_low 6 5); dlia).
  rewrite !byte_small by dlia. done. }
  destruct (Z.leb_spec v 0xffff).
  { destruct (Z.leb_spec (uwrap 32 (v - 0xd800)) (0xdfff - 0xd800)) as [Hle|].
    - exfalso. apply Hs. unfold uwrap in Hle. change (2 ^ 32) with 4294967296 in Hle. dlia.
    - simpl. replace (Z.lor 0xe0 (v / 64 / 64)) with (0xe0 + v / 64 / 64) by (symmetry; apply (lor_low 14 4); dlia).
  rewrite !byte_small by dlia. done. }
  destruct (Z.leb_spec v 0x10ffff); [|dlia].
  simpl. replace (Z.lor 0xf0 (v / 64 / 64 / 64)) with (0xf0 + v / 64 / 64 / 64) by (symmetry; apply (lor_low 30 3); dlia).
  rewrite !byte_small by dlia. done.
Qed.

Lemma land_field k n b : 0 <= n -> 0 <= b < 2 ^ n ->
  Z.land (k * 2 ^ n + b) (2 ^ n - 1) = b.
Proof.
  intros. rewrite land_low by done. rewrite Z.add_comm, Z.mod_add by dlia.
  by apply Z.mod_small.
Qed.

Lemma get_utf_encode v post : scalar v -> get_utf (encode v ++ post) 0 = (v, length (encode v)).
Proof.
  intros Hv. rewrite encode_arith by done. destruct Hv as [Hv Hs]. unfold get_utf.
  destruct (Z.leb_spec v 0x7f); [cbn; by btestd|].
  destruct (Z.leb_spec v 0x7ff).
  { cbn [app byte_at nth length]. repeat btestd.
    replace (Z.land (0xc0 + v / 64) 0x1f) with (v / 64) by (symmetry; apply (land_field 6 5); dlia).
    rewrite (get_cont_ok _ 1 _ _ (v mod 64)) by (done || dlia).
    btestd. f_equal. dlia. }
  destruct (Z.leb_spec v 0xffff).
  { cbn [app byte_at nth length]. repeat btestd.
    replace (Z.land (0xe0 + v / 64 / 64) 0x0f) with (v / 64 / 64) by (symmetry; apply (land_field 14 4); dlia).
    rewrite (get_cont_ok _ 1 _ _ ((v / 64) mod 64)) by (done || dlia).
    rewrite (get_cont_ok _ 2 _ _ (v mod 64)) by (done || dlia).
    case_match eqn:E; [|f_equal; dlia].
    apply orb_true_iff in E as [E|E]; breflect; dlia. }
  cbn [app byte_at nth length]. repeat btestd.
  replace (Z.land (0xf0 + v / 64 / 64 / 64) 0x07) with (v / 64 / 64 / 64) by (symmetry; apply (land_field 30 3); dlia).
  rewrite (get_cont_ok _ 1 _ _ ((v / 64 / 64) mod 64)) by (done || dlia).
  rewrite (get_cont_ok _ 2 _ _ ((v / 64) mod 64)) by (done || dlia).
  rewrite (get_cont_ok _ 3 _ _ (v mod 64)) by (done || dlia).
  case_match eqn:E; [|f_equal; dlia].
  apply orb_true_iff in E as [E|E]; breflect; dlia.
Qed.

Lemma is_cont_range c : 0 <= c < 256 ->
  is_utf8_cont_byte c = (0x80 <=? c) && (c <=? 0xbf).
Proof.
  intros Hc. apply eqb_prop.
  apply (byte_cases (fun c => Bool.eqb (is_utf8_cont_byte c) ((0x80 <=? c) && (c <=? 0xbf))));
    [by vm_compute|done].
Qed.

(** An encoding is a byte that is no continuation byte, then only such bytes. *)
Lemma encode_shape v : scalar v -> exists c t, encode v = c :: t /\
  0 < c < 256 /\ is_utf8_cont_byte c = false /\
  Forall (fun b => 0x80 <= b <= 0xbf) t.
Proof.
  intros Hv. rewrite encode_arith by done. destruct Hv as [Hv Hs].
  assert (Hb : forall x, 0x80 <= 0x80 + x mod 64 <= 0xbf) by (intros; dlia).
  assert (Hc : forall c, 0 < c < 256 -> c < 0x80 \/ 0xbf < c -> is_utf8_cont_byte c = false)
    by (intros c H1 H2; rewrite is_cont_range by lia; by repeat btest).
  repeat case_match; breflect; eexists _, _; (split; [done|]); (split; [dlia|]);
    (split; [apply Hc; dlia|]); repeat constructor; apply Hb.
Qed.

Lemma encode_cstr v : scalar v -> cstr (encode v).
Proof.
  intros Hv. destruct (encode_shape v Hv) as (c & t & -> & Hc & _ & Ht).
  constructor; [lia|]. eapply Forall_impl; [done|]. simpl. lia.
Qed.

Lemma encode_all_cstr vs : Forall scalar vs -> cstr (encode_all vs).
Proof.
  induction 1; simpl; [constructor|]. apply Forall_app. split; [by apply encode_cstr|done].
Qed.

Lemma encode_all_app us vs : encode_all (us ++ vs) = encode_all us ++ encode_all vs.
Proof. unfold encode_all. by rewrite fmap_app, concat_app. Qed.

Lemma encode_all_cons v vs : encode_all (v :: vs) = encode v ++ encode_all vs.
Proof. done. Qed.

Lemma encode_all_snoc vs v : encode_all (vs ++ [v]) = encode_all vs ++ encode v.
Proof. rewrite encode_all_app, encode_all_cons. unfold encode_all at 2. simpl. by rewrite app_nil_r. Qed.

Lemma encode_length_pos v : scalar v -> (0 < length (encode v))%nat.
Proof. intros Hv. destruct (encode_shape v Hv) as (c & t & -> & _). simpl. lia. Qed.

Lemma get_utf_at us v vs : scalar v ->
  get_utf (encode_all (us ++ v :: vs)) (length (encode_all us)) =
    (v, length (encode_all us) + length (encode v))%nat.
Proof.
  intros Hv. rewrite encode_all_app, encode_all_cons.
  pose proof (get_utf_shift (encode_all us) (encode v ++ encode_all vs) 0) as H.
  rewrite Nat.add_0_r, get_utf_encode in H by done. exact H.
Qed.

Lemma starts_at_encode us vs : Forall scalar us -> Forall scalar vs ->
  starts_at (encode_all (us ++ vs)) (length (encode_all us)) =
    (fun i => length (encode_all us) + length (encode_all (take i vs)))%nat <$>
      seq 0 (length vs).
Proof.
  intros Hus Hvs. revert us Hus.
  induction Hvs as [|v vs Hv Hvs IH]; intros us Hus.
  - rewrite app_nil_r. by rewrite starts_at_end.
  - rewrite starts_at_step.
    2:{ apply encode_all_cstr, Forall_app. split; [done|by constructor]. }
    2:{ rewrite encode_all_app, encode_all_cons, !length_app.
        pose proof (encode_length_pos v Hv). lia. }
    rewrite get_utf_at by done. simpl snd.
    replace (us ++ v :: vs) with ((us ++ [v]) ++ vs) by (by rewrite <- app_assoc).
    replace (length (encode_all us) + length (encode v))%nat
      with (length (encode_all (us ++ [v])))
      by (by rewrite encode_all_snoc, length_app).
    rewrite IH by (apply Forall_app; split; [done|by constructor]).
    simpl length. rewrite <- cons_seq, <- fmap_S_seq, fmap_cons, <- list_fmap_compose. f_equal.
    + simpl. lia.
    + apply list_fmap_ext. intros i x _. simpl.
      rewrite encode_all_snoc, encode_all_cons, !length_app. simpl. lia.
Qed.

Lemma starts_encode vs : Forall scalar vs -> starts (encode_all vs) =
  (fun i => length (encode_all (take i vs))) <$> seq 0 (length vs).
Proof. intros. by apply (starts_at_encode []). Qed.

Lemma nchars_encode vs : Forall scalar vs -> nchars (encode_all vs) = length vs.
Proof. intros. unfold nchars. by rewrite starts_encode, length_fmap, length_seq. Qed.

Lemma byte_index_encode vs ci : Forall scalar vs -> 1 <= ci <= Z.of_nat (length vs) + 1 ->
  byte_index_spec (encode_all vs) ci =
    Z.of_nat (length (encode_all (take (Z.to_nat (ci - 1)) vs))) + 1.
Proof.
  intros Hvs Hci. unfold byte_index_spec. rewrite nchars_encode by done.
  destruct (Z.leb_spec ci 1); [by replace ci with 1 by lia|].
  destruct (Z.leb_spec ci (Z.of_nat (length vs))).
  - do 2 f_equal. rewrite starts_encode by done. apply nth_lookup_Some.
    rewrite list_lookup_fmap, lookup_seq_lt by lia. done.
  - rewrite take_ge by lia. lia.
Qed.

Lemma utf_back_cont pre c t post : is_utf8_cont_byte c = false ->
  Forall (fun b => 0x80 <= b <= 0xbf) t ->
  utf_back (pre ++ (c :: t) ++ post) (length pre + S (length t)) = Some (length pre).
Proof.
  intros Hc. revert post. induction t as [|b t IH] using rev_ind; intros post Ht.
  - replace (length pre + S (length []))%nat with (S (length pre)) by (simpl; lia).
    cbn [utf_back]. rewrite byte_at_app_r, Nat.sub_diag by lia.
    change (byte_at _ 0) with c. by rewrite Hc.
  - apply Forall_app in Ht as [Ht Hb]. apply Forall_inv in Hb. simpl in Hb.
    replace (length pre + S (length (t ++ [b])))%nat with (S (length pre + S (length t)))
      by (rewrite length_app; simpl; lia).
    cbn [utf_back]. rewrite byte_at_app_r by lia.
    replace (length pre + S (length t) - length pre)%nat with (length (c :: t)) by (simpl; lia).
    replace ((c :: t ++ [b]) ++ post) with ((c :: t) ++ b :: post) by (simpl; by rewrite <- app_assoc).
    rewrite byte_at_app_r, Nat.sub_diag by lia. change (byte_at _ 0) with b.
    rewrite is_cont_range by lia. repeat btest. by apply (IH (b :: post)).
Qed.

Lemma char_index_loop_encode us post ci f : Forall scalar us ->
  (length (encode_all us) < f)%nat ->
  char_index_loop f (encode_all us ++ post) (length (encode_all us)) ci =
    Some (ci + Z.of_nat (length us)).
Proof.
  intros Hus. revert post ci f. induction us as [|v us IH] using rev_ind; intros post ci f Hf.
  - destruct f; [simpl in Hf; lia|]. simpl. f_equal. lia.
  - apply Forall_app in Hus as [Hus Hv]. apply Forall_inv in Hv.
    rewrite encode_all_snoc in *. destruct (encode_shape v Hv) as (c & t & Ev & _ & Hc & Ht).
    rewrite Ev in *. rewrite length_app in *. simpl in Hf.
    destruct f as [|f]; [lia|]. simpl char_index_loop.
    destruct (Nat.ltb_spec 0 (length (encode_all us) + S (length t))); [|lia].
    rewrite <- app_assoc, utf_back_cont by done. simpl.
    rewrite (IH Hus) by lia. rewrite length_app. simpl. f_equal. lia.
Qed.

(** *** Only canonical encodings are accepted *)

(** ASCII text is its own encoding. *)
Lemma encode_ascii cs : Forall (fun c => 0 < c < 128) cs -> Forall scalar cs /\ encode_all cs = cs.
Proof.
  induction 1 as [|c cs Hc H [IH1 IH2]]; [done|]. assert (scalar c) by (unfold scalar; lia). split; [by constructor|].
  rewrite encode_all_cons, IH2, encode_arith by done. by destruct (Z.leb_spec c 0x7f); [|lia].
Qed.

Lemma get_cont_inv s p v k w q : cstr s -> 0 <= v < 2 ^ 20 -> w <> INVALID_RUNE ->
  get_cont s p v k = (w, q) ->
  exists b, 0 <= b < 64 /\ drop p s = 0x80 + b :: drop (S p) s /\
    k (S p) (v * 64 + b) = (w, q).
Proof.
  intros Hs Hv Hw. unfold get_cont.
  destruct (Z.ltb_spec 0x3f (uwrap 8 (byte_at s p - 0x80))) as [|Hle]; [congruence|].
  destruct (decide (p < length s)%nat) as [Hp|].
  2:{ rewrite byte_at_end in Hle by lia. by vm_compute in Hle. }
  pose proof (byte_at_cstr s p Hs Hp) as Hc. unfold uwrap in Hle. change (2 ^ 8) with 256 in Hle.
  assert (Hb : 0x80 <= byte_at s p <= 0xbf) by dlia. intros Hk.
  exists (byte_at s p - 0x80). split; [lia|]. split.
  - rewrite (drop_S s (byte_at s p) p); [f_equal; lia|].
    unfold byte_at. destruct (nth_lookup_or_length s p 0); [done|lia].
  - rewrite Z.shiftl_mul_pow2 in Hk by lia.
    rewrite (uwrap_id 8), (uwrap_id 32) in Hk by lia. exact Hk.
Qed.

Lemma land_top c m k n : 0 <= n -> m = 2 ^ n - 1 -> k * 2 ^ n <= c < k * 2 ^ n + 2 ^ n ->
  Z.land c m = c - k * 2 ^ n.
Proof.
  intros Hn -> Hc. replace c with (k * 2 ^ n + (c - k * 2 ^ n)) at 1 by lia.
  apply land_field; lia.
Qed.

Lemma get_utf_decodes s p v q : cstr s -> (p < length s)%nat ->
  get_utf s p = (v, q) -> v <> INVALID_RUNE ->
  scalar v /\ drop p s = encode v ++ drop q s.
Proof.
  intros Hs Hp H Hv. pose proof (byte_at_cstr s p Hs Hp) as Hc.
  assert (Hd : drop p s = byte_at s p :: drop (S p) s).
  { rewrite (drop_S s (byte_at s p) p); [done|].
    unfold byte_at. destruct (nth_lookup_or_length s p 0); [done|lia]. }
  assert (Hfin : forall bs, scalar v -> encode v = bs -> drop p s = bs ++ drop q s ->
    scalar v /\ drop p s = encode v ++ drop q s) by (intros bs ? -> ?; done).
  unfold get_utf in H. revert H Hd. generalize (byte_at s p) Hc. clear Hc. intros c Hc H Hd.
  destruct (Z.leb_spec c 0x7f).
  { injection H as <- <-. assert (scalar c) by (split; lia).
    apply (Hfin [c]); [done|rewrite encode_arith by done|exact Hd]. by btest. }
  destruct (Z.leb_spec c 0xbf); [congruence|].
  destruct (Z.leb_spec c 0xdf).
  { rewrite (land_top c 0x1f 6 5) in H by lia.
    apply get_cont_inv in H as (b & Hb & Hd1 & H); [|done|lia|done].
    rewrite Hd1 in Hd. case_match; [congruence|]. breflect. injection H as Hvv <-.
    assert (scalar v) by (split; lia).
    apply (Hfin [c; 0x80 + b]); [done|rewrite encode_arith by done|exact Hd].
    repeat btest. f_equal; [dlia|f_equal; dlia]. }
  destruct (Z.leb_spec c 0xef).
  { rewrite (land_top c 0x0f 14 4) in H by lia.
    apply get_cont_inv in H as (b & Hb & Hd1 & H); [|done|lia|done].
    apply get_cont_inv in H as (b' & Hb' & Hd2 & H); [|done|lia|done].
    rewrite Hd1, Hd2 in Hd. case_match eqn:E; [congruence|].
    apply orb_false_iff in E as [E1 E2]. apply andb_false_iff in E2. injection H as Hvv <-.
    assert (scalar v) by (split; destruct E2; breflect; lia).
    apply (Hfin [c; 0x80 + b; 0x80 + b']); [done|rewrite encode_arith by done|exact Hd].
    breflect. repeat btest. f_equal; [dlia|f_equal; [dlia|f_equal; dlia]]. }
  destruct (Z.leb_spec c 0xf7); [|congruence].
  rewrite (land_top c 0x07 30 3) in H by lia.
  apply get_cont_inv in H as (b & Hb & Hd1 & H); [|done|lia|done].
  apply get_cont_inv in H as (b' & Hb' & Hd2 & H); [|done|lia|done].
  apply get_cont_inv in H as (b'' & Hb'' & Hd3 & H); [|done|lia|done].
  rewrite Hd1, Hd2, Hd3 in Hd. case_match eqn:E; [congruence|]. breflect.
  injection H as Hvv <-. assert (scalar v) by (split; lia).
  apply (Hfin [c; 0x80 + b; 0x80 + b'; 0x80 + b'']);
    [done|rewrite encode_arith by done|exact Hd].
  repeat btest. f_equal; [dlia|f_equal; [dlia|f_equal; [dlia|f_equal; dlia]]].
Qed.

Lemma scalar_INVALID_RUNE : scalar INVALID_RUNE.
Proof. unfold scalar, INVALID_RUNE. lia. Qed.

(** *** The callback reader *)

(** A source of bytes held in a list; it keeps answering EOF at the end. *)
Definition list_getch (d : bytes) : Z * bytes :=
  match d with [] => (EOF, []) | c :: d => (c, d) end.

Lemma get_cont_call_ok b t v k : 0 <= b < 64 -> 0 <= v < 2 ^ 20 ->
  get_cont_call list_getch (0x80 + b :: t) v k = k t (v * 64 + b).
Proof.
  intros Hb Hv. unfold get_cont_call. simpl list_getch. cbv beta iota zeta.
  replace (0x80 + b - 0x80) with b by lia. destruct (Z.ltb_spec 0x3f b); [lia|].
  rewrite Z.shiftl_mul_pow2 by lia. by rewrite swrap_id by lia.
Qed.

Lemma get_utf_call_valid v rest : scalar v ->
  get_utf_call list_getch (encode v ++ rest) (-1) = (v, rest, -1).
Proof.
  intros Hv. rewrite encode_arith by done. destruct Hv as [Hv Hs].
  assert (Hx : forall x, 0 <= x mod 64 < 64) by (intros; dlia).
  unfold get_utf_call. simpl negb. cbv iota.
  destruct (Z.leb_spec v 0x7f); [cbn [app list_getch]; unfold EOF; by repeat btestd|].
  destruct (Z.leb_spec v 0x7ff).
  { cbn [app list_getch]. unfold EOF. repeat btestd.
    replace (Z.land (0xc0 + v / 64) 0x1f) with (v / 64) by (symmetry; apply (land_field 6 5); dlia).
    rewrite get_cont_call_ok by (done || dlia). btestd. do 2 f_equal. dlia. }
  destruct (Z.leb_spec v 0xffff).
  { cbn [app list_getch]. unfold EOF. repeat btestd.
    replace (Z.land (0xe0 + v / 64 / 64) 0x0f) with (v / 64 / 64)
      by (symmetry; apply (land_field 14 4); dlia).
    rewrite !get_cont_call_ok by (done || dlia).
    case_match eqn:E; [|do 2 f_equal; dlia].
    apply orb_true_iff in E as [E|E]; breflect; dlia. }
  cbn [app list_getch]. unfold EOF. repeat btestd.
  replace (Z.land (0xf0 + v / 64 / 64 / 64) 0x07) with (v / 64 / 64 / 64)
    by (symmetry; apply (land_field 30 3); dlia).
  rewrite !get_cont_call_ok by (done || dlia).
  case_match eqn:E; [|do 2 f_equal; dlia].
  apply orb_true_iff in E as [E|E]; breflect; dlia.
Qed.

(** ** Properties *)

(** C28: [put_utf] and [get_utf] are inverse on characters.  [put_utf] accepts
    exactly the Unicode scalar values (and refuses surrogates and values above
    0x10ffff); what it writes, wherever it lies in a string, is read back by
    [get_utf] as the same character, and the pointer moves by as many bytes as
    were written, which is also what [clearance_utf] says of the first byte. *)
Theorem put_get_utf (pre post : bytes) (v : Z) :
  0 < v < 2 ^ 32 ->
  match put_utf v with
  | Some bs =>
      scalar v /\
      get_utf (pre ++ bs ++ post) (length pre) = (v, (length pre + length bs)%nat) /\
      clearance_utf (byte_at bs 0) = Z.of_nat (length bs)
  | None => ~ scalar v
  end.
Proof.
  intros Hv.
  assert (Hn : put_utf v = None -> ~ scalar v).
  { intros E Hs. pose proof (encode_length_pos v Hs) as H.
    unfold encode in H. rewrite E in H. simpl in H. lia. }
  destruct (put_utf v) as [bs|] eqn:E; [|by apply Hn].
  assert (Hs : scalar v).
  { unfold put_utf in E. unfold scalar. unfold uwrap in E. change (2 ^ 32) with 4294967296 in *.
    repeat case_match; breflect; try discriminate; dlia. }
  assert (bs = encode v) as -> by (unfold encode; by rewrite E).
  split; [done|]. split.
  - pose proof (get_utf_shift pre (encode v ++ post) 0) as H.
    by rewrite Nat.add_0_r, get_utf_encode in H.
  - rewrite encode_arith by done. destruct Hs. unfold clearance_utf.
    repeat case_match; breflect; cbn [byte_at nth length] in *; try done; dlia.
Qed.

Example put_get_utf_witness :
  0 < 0x20ac < 2 ^ 32 /\ put_utf 0x20ac = Some [0xe2; 0x82; 0xac] /\
  match put_utf 0x20ac with
  | Some bs =>
      scalar 0x20ac /\
      get_utf ([65] ++ bs ++ [66]) (length [65]) = (0x20ac, (length [65] + length bs)%nat) /\
      clearance_utf (byte_at bs 0) = Z.of_nat (length bs)
  | None => ~ scalar 0x20ac
  end.
Proof. split; [lia|]. split; [reflexivity|]. apply (put_get_utf [65] [66] 0x20ac). lia. Defined.

(** C29: [get_utf] is safe and strict on every C string, well-formed or not: it
    never moves past the terminating NUL, always makes progress, and either
    answers INVALID_RUNE or has read the unique encoding of a scalar value (no
    overlong form, no surrogate, nothing out of range). *)
Theorem get_utf_safe (s : bytes) (p : nat) (v : Z) (q : nat) :
  cstr s -> (p < length s)%nat -> get_utf s p = (v, q) ->
  (p < q <= length s)%nat /\ scalar v /\
  (v = INVALID_RUNE \/ take (q - p) (drop p s) = encode v).
Proof.
  intros Hs Hp H. destruct (get_utf_char s p Hs Hp) as [_ Hq]. rewrite H in Hq. simpl in Hq.
  split; [done|]. destruct (decide (v = INVALID_RUNE)) as [->|Hv].
  { split; [apply scalar_INVALID_RUNE|by left]. }
  destruct (get_utf_decodes s p v q Hs Hp H Hv) as [Hsc Hd]. split; [done|]. right.
  apply (f_equal length) in Hd as Hl. rewrite length_app, !length_drop in Hl.
  rewrite Hd, take_app_le, take_ge by lia. done.
Qed.

Example get_utf_safe_witness :
  cstr (encode 0x20ac) /\ (0 < length (encode 0x20ac))%nat /\
  get_utf (encode 0x20ac) 0 = (0x20ac, 3%nat) /\
  (0 < 3 <= length (encode 0x20ac))%nat /\ scalar 0x20ac /\
  (0x20ac = INVALID_RUNE \/ take (3 - 0) (drop 0 (encode 0x20ac)) = encode 0x20ac).
Proof.
  assert (cstr (encode 0x20ac)) by (apply encode_cstr; unfold scalar; lia).
  assert (0 < length (encode 0x20ac))%nat by (vm_compute; lia).
  split; [done|]. split; [done|]. split; [reflexivity|].
  apply get_utf_safe; [done|done|reflexivity].
Defined.

(** The character-to-byte index translations terminate and agree with the
    comment of utf.h on every string and every pair of integers, in either
    order: [utf_byte_range] gives what two calls of [utf_byte_index] give. *)
Theorem utf_indexing_correct (s : bytes) (c0 c1 : Z) :
  cstr s ->
  utf_byte_index s c0 = Some (byte_index_spec s c0) /\
  utf_byte_range s (c0, c1) = Some (byte_index_spec s c0, byte_index_spec s c1).
Proof. intros Hs. split; [by apply utf_byte_index_eq|by apply utf_byte_range_eq]. Qed.

Example utf_indexing_correct_witness :
  cstr (65 :: encode 0x20ac ++ [66]) /\ byte_index_spec (65 :: encode 0x20ac ++ [66]) 3 = 5 /\
  utf_byte_index (65 :: encode 0x20ac ++ [66]) 3 =
    Some (byte_index_spec (65 :: encode 0x20ac ++ [66]) 3) /\
  utf_byte_range (65 :: encode 0x20ac ++ [66]) (3, 2) =
    Some (byte_index_spec (65 :: encode 0x20ac ++ [66]) 3,
          byte_index_spec (65 :: encode 0x20ac ++ [66]) 2).
Proof.
  assert (cstr (65 :: encode 0x20ac ++ [66])) by (vm_compute; repeat constructor; done).
  split; [done|]. split; [reflexivity|]. by apply utf_indexing_correct.
Defined.

(** On well-formed UTF-8, [memo_strlen_utf] counts the characters and
    [utf_char_index] undoes [utf_byte_index], for the index of every character
    and the one just past the end. *)
Theorem utf_char_index_inverse (vs : list Z) (ci : Z) :
  Forall scalar vs -> 1 <= ci <= Z.of_nat (length vs) + 1 ->
  memo_strlen_utf (encode_all vs) = Some (Z.of_nat (length vs)) /\
  (bi ← utf_byte_index (encode_all vs) ci; utf_char_index (encode_all vs) bi) = Some ci.
Proof.
  intros Hvs Hci. split.
  { unfold memo_strlen_utf. rewrite strlen_utf_loop_spec by (auto using encode_all_cstr; lia).
    pose proof (nchars_encode vs Hvs) as H. unfold nchars, starts in H.
    unfold starts_at. by rewrite H. }
  rewrite utf_byte_index_eq by auto using encode_all_cstr. simpl.
  rewrite byte_index_encode by done.
  set (us := take (Z.to_nat (ci - 1)) vs).
  assert (Hus : Forall scalar us) by (by apply Forall_take).
  rewrite <- (take_drop (Z.to_nat (ci - 1)) vs). fold us.
  assert (Hlen : length us = Z.to_nat (ci - 1)) by (apply length_take_le; lia).
  unfold utf_char_index.
  assert (is_utf8_cont_byte (byte_at (encode_all (us ++ drop (Z.to_nat (ci - 1)) vs)) 0) = false)
    as ->.
  { unfold us. rewrite take_drop. destruct vs as [|v vs']; [done|].
    apply Forall_cons_1 in Hvs as [Hv _]. destruct (encode_shape v Hv) as (c & t & E & _ & Hc & _).
    rewrite encode_all_cons, E. exact Hc. }
  rewrite Z.add_simpl_r, Nat2Z.id.
  rewrite encode_all_app, char_index_loop_encode by (done || lia). f_equal. lia.
Qed.

Example utf_char_index_inverse_witness :
  Forall scalar [65; 0x20ac; 66] /\ 1 <= 3 <= Z.of_nat (length [65; 0x20ac; 66]) + 1 /\
  memo_strlen_utf (encode_all [65; 0x20ac; 66]) = Some (Z.of_nat (length [65; 0x20ac; 66])) /\
  (bi ← utf_byte_index (encode_all [65; 0x20ac; 66]) 3;
   utf_char_index (encode_all [65; 0x20ac; 66]) bi) = Some 3.
Proof.
  assert (Forall scalar [65; 0x20ac; 66]) by (repeat constructor; unfold scalar; lia).
  split; [done|]. split; [simpl; lia|]. apply utf_char_index_inverse; [done|simpl; lia].
Defined.

(** The callback reader [get_utf_call] agrees with [get_utf] on well-formed
    input, but not on truncated characters: after the lead byte of a two-byte
    character it consumes a following ASCII byte [c], which is lost, where
    [get_utf] stops in front of it.  The comment above the function promises
    the latter (an invalid sequence followed by the letter). *)
Theorem get_utf_call_truncated (lead c : Z) (rest : bytes) :
  0xc4 <= lead <= 0xdf -> 0 < c < 0x80 ->
  get_utf (lead :: c :: rest) 0 = (INVALID_RUNE, 1%nat) /\
  get_utf_call list_getch (lead :: c :: rest) (-1) =
    ((lead - 0xc0) * 64 + (c - 0x80), rest, -1).
Proof.
  intros Hl Hc. split.
  - unfold get_utf. cbn [byte_at nth]. repeat btestc. unfold get_cont. cbn [byte_at nth].
    unfold uwrap. change (2 ^ 8) with 256.
    destruct (Z.ltb_spec 0x3f ((c - 0x80) mod 256)); [done|dlia].
  - unfold get_utf_call. rewrite Z.eqb_refl. cbn [list_getch negb andb].
    rewrite (land_top lead 0x1f 6 5) by lia. unfold EOF, get_cont_call. cbn [list_getch].
    cbv beta iota zeta. do 5 (btestc; []).
    rewrite Z.shiftl_mul_pow2 by lia.
    change (2 ^ 5) with 32. change (2 ^ 6) with 64.
    rewrite swrap_id by lia. btestc. do 2 f_equal.
Qed.

Example get_utf_call_truncated_witness :
  0xc4 <= 0xc5 <= 0xdf /\ 0 < 0x41 < 0x80 /\
  get_utf [0xc5; 0x41; 0x42] 0 = (INVALID_RUNE, 1%nat) /\
  get_utf_call list_getch [0xc5; 0x41; 0x42] (-1) =
    ((0xc5 - 0xc0) * 64 + (0x41 - 0x80), [0x42], -1).
Proof. split; [lia|]. split; [lia|]. apply get_utf_call_truncated; lia. Defined.

(** [char_size] is the encoded length of a character except for U+0780 to
    U+07FF, where it answers 3 for the two bytes that [put_utf] writes (the
    constant 0x77f stands where 0x7ff is meant). *)
Theorem char_size_correct (c : Z) :
  scalar c ->
  char_size c = Z.of_nat (length (encode c)) + (if (0x780 <=? c) && (c <=? 0x7ff) then 1 else 0).
Proof.
  intros Hc. rewrite encode_arith by done. unfold char_size.
  repeat (btest; try (simpl; lia)).
Qed.

Example char_size_correct_witness :
  scalar 0x780 /\ char_size 0x780 = 3 /\ encode 0x780 = [0xde; 0x80] /\
  char_size 0x780 = Z.of_nat (length (encode 0x780)) +
    (if (0x780 <=? 0x780) && (0x780 <=? 0x7ff) then 1 else 0).
Proof.
  assert (scalar 0x780) by (unfold scalar; lia).
  split; [done|]. split; [reflexivity|]. split; [reflexivity|]. by apply char_size_correct.
Defined.
