(* ===== verification/CString.v ===== *)
(** * String utilities (utils.c)

    Case-insensitive comparison, verb-name matching, hashing, searching and
    substitution, and the "MOO binary" escape notation.  A C string is the
    list of its bytes; a pointer that walks along a string is the remaining
    suffix or, where positions are compared, an offset. *)

From S2P Require Import Prelude Utf.

(** ** Definitions *)

Definition star_char : Z := 42.   (* '*' *)
Definition space_char : Z := 32.  (* ' ' *)
Definition tilde_char : Z := 126. (* '~' *)

(** The table [cmap], of (signed) [char]: upper case letters map to lower case
    and everything else to itself. *)
Definition cmap (c : Z) : Z :=
  swrap 8 (if (65 <=? c) && (c <=? 90) then c + 32 else c).

Fixpoint mystrcasecmp (s t : bytes) : Z :=
  match s, t with
  | [], [] => 0
  | [], d :: _ => cmap 0 - cmap d
  | c :: _, [] => cmap c - cmap 0
  | c :: s, d :: t => if cmap c =? cmap d then mystrcasecmp s t else cmap c - cmap d
  end.

Fixpoint mystrncasecmp (s t : bytes) (n : nat) : Z :=
  match n with
  | O => 0
  | S n =>
      match s, t with
      | [], [] => 0
      | [], d :: _ => cmap 0 - cmap d
      | c :: _, [] => cmap c - cmap 0
      | c :: s, d :: t => if cmap c =? cmap d then mystrncasecmp s t n else cmap c - cmap d
      end
  end.

(** The C library's [strncmp] and [strcmp], on bytes. *)
Fixpoint strncmp (s t : bytes) (n : nat) : Z :=
  match n with
  | O => 0
  | S n =>
      match s, t with
      | [], [] => 0
      | [], d :: _ => 0 - d
      | c :: _, [] => c - 0
      | c :: s, d :: t => if c =? d then strncmp s t n else c - d
      end
  end.

Fixpoint strcmp (s t : bytes) : Z :=
  match s, t with
  | [], [] => 0
  | [], d :: _ => 0 - d
  | c :: _, [] => c - 0
  | c :: s, d :: t => if c =? d then strcmp s t else c - d
  end.

(** *** verbcasecmp *)

Inductive star_t := SNone | SInner | SEnd.

#[export] Instance star_t_eq_dec : EqDecision star_t.
Proof. solve_decision. Defined.

(** [!*v || *v == ' '] *)
Definition at_alias_end (v : bytes) : bool :=
  match v with [] => true | c :: _ => c =? space_char end.

(** The loop [while (1)]: skip stars and compare, until the break; the result
    is the value of [v], [w] and [star] there. *)
Fixpoint verb_match (v w : bytes) (star : star_t) : bytes * bytes * star_t :=
  match v with
  | [] => (v, w, star)
  | c :: v' =>
      if c =? star_char
      then verb_match v' w (if at_alias_end v' then SEnd else SInner)
      else if c =? space_char then (v, w, star)
      else match w with
           | [] => (v, w, star)
           | d :: w' => if cmap d =? cmap c then verb_match v' w' star else (v, w, star)
           end
  end.

Fixpoint skip_word (v : bytes) : bytes :=
  match v with
  | [] => []
  | c :: v' => if c =? space_char then v else skip_word v'
  end.

Fixpoint skip_spaces (v : bytes) : bytes :=
  match v with
  | [] => []
  | c :: v' => if c =? space_char then skip_spaces v' else v
  end.

(** The test after the loop. *)
Definition verb_accept (r : bytes * bytes * star_t) : bool :=
  let '(v, w, star) := r in
  match w with
  | [] => negb (bool_decide (star = SNone)) || at_alias_end v
  | _ => bool_decide (star = SEnd)
  end.

(** [while ( *v) ...], with fuel: each round consumes at least one byte. *)
Fixpoint verb_loop (fuel : nat) (v word : bytes) : bool :=
  match fuel with
  | O => false
  | S f =>
      match v with
      | [] => false
      | _ =>
          let r := verb_match v word SNone in
          if verb_accept r then true
          else verb_loop f (skip_spaces (skip_word r.1.1)) word
      end
  end.

(** [same] is the pointer comparison [verb == word] with which the function
    starts. *)
Definition verbcasecmp (same : bool) (verb word : bytes) : bool :=
  if same then true else verb_loop (length verb) verb word.

(** *** Hashing, searching, substitution *)

Definition hash_step (ans c : Z) : Z :=
  uwrap 32 (uwrap 32 (Z.shiftl ans 3) + Z.shiftr ans 28 + cmap c).
Definition str_hash (s : bytes) : Z := fold_left hash_step s 0.

(** [!(case_counts ? strncmp(s, what, lwhat) : mystrncasecmp(s, what, lwhat))] *)
Definition str_at (case_counts : bool) (s what : bytes) : bool :=
  (if case_counts then strncmp s what (length what)
   else mystrncasecmp s what (length what)) =? 0.

(** What is added to the stream; the loop does not end when [what] is empty. *)
Fixpoint strsub_loop (fuel : nat) (source what with_ : bytes) (case_counts : bool)
  : option bytes :=
  match fuel with
  | O => None
  | S f =>
      match source with
      | [] => Some []
      | c :: rest =>
          if str_at case_counts source what
          then r ← strsub_loop f (drop (length what) source) what with_ case_counts;
               Some (with_ ++ r)
          else r ← strsub_loop f rest what with_ case_counts; Some (c :: r)
      end
  end.
Definition stream_add_strsub (source what with_ : bytes) (case_counts : bool) : option bytes :=
  strsub_loop (S (length source)) source what with_ case_counts.

(** The pointers [s] and [e] are offsets; [e] may lie before the start. *)
Fixpoint strindex_loop (fuel : nat) (source what : bytes) (case_counts : bool)
    (s : nat) (e : Z) (ind : Z) : option Z :=
  match fuel with
  | O => None
  | S f =>
      if Z.of_nat s <=? e then
        if str_at case_counts (drop s source) what then Some (ind + 1)
        else strindex_loop f source what case_counts (get_utf source s).2 e (ind + 1)
      else Some 0
  end.
Definition strindex (source what : bytes) (case_counts : bool) : option Z :=
  strindex_loop (S (S (length source))) source what case_counts 0
    (Z.of_nat (length source) - Z.of_nat (length what)) 0.

(** Backwards over the bytes, [n] being the number of positions left to try
    from [s = n - 1] down to the start. *)
Fixpoint strrindex_loop (n : nat) (source what : bytes) (case_counts : bool) : option Z :=
  match n with
  | O => Some 0
  | S s =>
      if is_utf8_cont_byte (byte_at source s) then strrindex_loop s source what case_counts
      else if str_at case_counts (drop s source) what
           then utf_char_index source (Z.of_nat s + 1)
           else strrindex_loop s source what case_counts
  end.
Definition strrindex (source what : bytes) (case_counts : bool) : option Z :=
  strrindex_loop (S (length source) - length what) source what case_counts.

(** *** MOO binary *)

(** A digit of [%02x]. *)
Definition hex_digit (d : Z) : Z := if d <? 10 then 48 + d else 87 + d.

Definition stream_add_moobinary_from_raw_bytes (buffer : bytes) : bytes :=
  concat ((fun c => if (32 <=? c) && (c <? 126) then [c]
                    else [tilde_char; hex_digit (c / 16); hex_digit (c mod 16)]) <$> buffer).

(** One hexadecimal digit of an escape, [c = *ptr++ | 0x20]. *)
Definition unhex (cc c : Z) : option Z :=
  let c := Z.lor c 0x20 in
  if (48 <=? c) && (c <=? 57) then Some (byte (Z.shiftl cc 4 + (c - 48)))
  else if (97 <=? c) && (c <=? 102) then Some (byte (Z.shiftl cc 4 + (c - 97 + 10)))
  else None.

Fixpoint moobinary_to_raw_bytes (binary : bytes) : option bytes :=
  match binary with
  | [] => Some []
  | c :: ptr =>
      if negb (c =? tilde_char) then r ← moobinary_to_raw_bytes ptr; Some (c :: r)
      else match ptr with
           | a :: b :: ptr =>
               cc ← unhex 0 a; cc ← unhex cc b;
               r ← moobinary_to_raw_bytes ptr; Some (cc :: r)
           | _ => None
           end
  end.

(** ** Specification *)

(** Two strings with the same case folding are the same name. *)
Definition casefold (s : bytes) : list Z := cmap <$> s.

Fixpoint prefixb (l k : list Z) : bool :=
  match l, k with
  | [], _ => true
  | x :: l, y :: k => (x =? y) && prefixb l k
  | _, [] => false
  end.

(** An alias in a verb's name, up to the next space. *)
Fixpoint alias_head (v : bytes) : bytes :=
  match v with
  | [] => []
  | c :: v' => if c =? space_char then [] else c :: alias_head v'
  end.

(** The letters of an alias, and how many come before its first star. *)
Definition alias_letters (a : bytes) : bytes := filter (fun c => c <> star_char) a.
Fixpoint alias_required (a : bytes) : nat :=
  match a with
  | [] => O
  | c :: a' => if c =? star_char then O else S (alias_required a')
  end.
Fixpoint ends_with_star (a : bytes) : bool :=
  match a with
  | [] => false
  | [c] => c =? star_char
  | _ :: a' => ends_with_star a'
  end.

(** An alias matches the abbreviations of its letters that go up to the first
    star at least and, if it ends with a star, also every extension of them. *)
Definition alias_matches (a word : bytes) : bool :=
  let letters := casefold (alias_letters a) in
  let w := casefold word in
  (prefixb w letters && (alias_required a <=? length word)%nat)
  || (ends_with_star a && prefixb letters w).

(** The aliases: words separated by spaces; an initial space counts as the end
    of an empty one. *)
Fixpoint aliases_fuel (fuel : nat) (v : bytes) : list bytes :=
  match fuel with
  | O => []
  | S f => match v with
           | [] => []
           | _ => alias_head v :: aliases_fuel f (skip_spaces (skip_word v))
           end
  end.
Definition name_aliases (names : bytes) : list bytes := aliases_fuel (length names) names.

(** ** Lemmas *)

Lemma cmap_nz c : 0 < c < 256 -> cmap c <> 0.
Proof.
  intros Hc. pose proof (byte_cases (fun c => (c =? 0) || negb (cmap c =? 0))
    ltac:(by vm_compute) c ltac:(lia)) as H. simpl in H.
  apply orb_true_iff in H as [H|H]; breflect; lia.
Qed.

Lemma cmap_0 : cmap 0 = 0.
Proof. reflexivity. Qed.

(** Folding fixes the characters with a meaning of their own. *)
Lemma cmap_special c d : 0 <= c < 256 -> (d = star_char \/ d = space_char) ->
  cmap c = cmap d -> c = d.
Proof.
  intros Hc Hd H.
  pose proof (byte_cases (fun c => (negb (cmap c =? cmap star_char) || (c =? star_char)) &&
    (negb (cmap c =? cmap space_char) || (c =? space_char))) ltac:(by vm_compute) c Hc) as HP.
  simpl in HP. apply andb_true_iff in HP as [H1 H2].
  apply orb_true_iff in H1, H2. destruct Hd; subst; naive_solver (breflect; congruence).
Qed.

Lemma casefold_cons c s : casefold (c :: s) = cmap c :: casefold s.
Proof. done. Qed.

Lemma mystrcasecmp_eq s t : cstr s -> cstr t ->
  mystrcasecmp s t = 0 <-> casefold s = casefold t.
Proof.
  intros Hs. revert t. induction Hs as [|c s Hc Hs IH]; intros t Ht; destruct Ht as [|d t Hd Ht];
    simpl; try done.
  - split; [|done]. intros H. destruct (cmap_nz d Hd). rewrite cmap_0 in H. lia.
  - split; [|done]. intros H. destruct (cmap_nz c Hc). rewrite cmap_0 in H. lia.
  - destruct (Z.eqb_spec (cmap c) (cmap d)) as [E|E].
    + rewrite IH by done. unfold casefold. simpl. rewrite E. split; [congruence|by intros [=]].
    + split; [lia|]. unfold casefold. simpl. congruence.
Qed.

Lemma prefixb_nil_r l : prefixb l [] = bool_decide (l = []).
Proof. by destruct l. Qed.

Lemma prefixb_prefix l k : prefixb l k = true <-> l `prefix_of` k.
Proof.
  revert k. induction l as [|x l IH]; intros [|y k]; simpl.
  - split; [intros _; by exists []|done].
  - split; [intros _; apply prefix_nil|done].
  - split; [done|]. intros [? [=]].
  - rewrite andb_true_iff, IH, Z.eqb_eq. split.
    + intros [-> H]. by apply prefix_cons.
    + intros H. split; [by eapply prefix_cons_inv_1|by eapply prefix_cons_inv_2].
Qed.

Lemma mystrncasecmp_eq s t n : cstr s -> cstr t ->
  mystrncasecmp s t n = 0 <-> take n (casefold s) = take n (casefold t).
Proof.
  intros Hs. revert t n. induction Hs as [|c s Hc Hs IH]; intros t [|n] Ht;
    destruct Ht as [|d t Hd Ht]; simpl; try done.
  - split; [|done]. intros H. destruct (cmap_nz d Hd). rewrite cmap_0 in H. lia.
  - split; [|done]. intros H. destruct (cmap_nz c Hc). rewrite cmap_0 in H. lia.
  - destruct (Z.eqb_spec (cmap c) (cmap d)) as [E|E].
    + rewrite IH by done. rewrite E. split; [congruence|by intros [=]].
    + split; [lia|congruence].
Qed.

Lemma strncmp_eq s t n : cstr s -> cstr t ->
  strncmp s t n = 0 <-> take n s = take n t.
Proof.
  intros Hs. revert t n. induction Hs as [|c s Hc Hs IH]; intros t [|n] Ht;
    destruct Ht as [|d t Hd Ht]; simpl; try done.
  - split; [lia|done].
  - split; [lia|done].
  - destruct (Z.eqb_spec c d) as [->|E].
    + rewrite IH by done. split; [congruence|by intros [=]].
    + split; [lia|congruence].
Qed.

Lemma cstr_drop s n : cstr s -> cstr (drop n s).
Proof. apply Forall_drop. Qed.
#[export] Hint Resolve cstr_drop : moo.

(** Where the search string is found. *)
Definition occurs_at (case_counts : bool) (s what : bytes) (p : nat) : Prop :=
  if case_counts then take (length what) (drop p s) = what
  else take (length what) (casefold (drop p s)) = casefold what.

Lemma str_at_spec cc s what p : cstr s -> cstr what ->
  str_at cc (drop p s) what = true <-> occurs_at cc s what p.
Proof.
  intros Hs Hw. unfold str_at, occurs_at. rewrite Z.eqb_eq. destruct cc.
  - rewrite strncmp_eq by auto with moo. by rewrite (take_ge what) by lia.
  - rewrite mystrncasecmp_eq by auto with moo.
    rewrite (take_ge (casefold what)); [done|]. unfold casefold. by rewrite length_fmap.
Qed.

(** *** Hashing *)

Lemma str_hash_casefold s t : casefold s = casefold t -> str_hash s = str_hash t.
Proof.
  unfold str_hash. generalize 0. revert t. induction s as [|c s IH]; intros [|d t] a H;
    unfold casefold in H; simpl in *; try done. injection H as Hc H.
  unfold hash_step at 2 4. rewrite Hc. by apply IH.
Qed.

(** *** Verb names *)

Lemma casefold_nil s : casefold s = [] <-> s = [].
Proof. destruct s; done. Qed.

Lemma ends_with_star_cons c a : ends_with_star (c :: a) =
  if bool_decide (a = []) then c =? star_char else ends_with_star a.
Proof. by destruct a. Qed.

Lemma at_alias_end_head v : at_alias_end v = bool_decide (alias_head v = []).
Proof. destruct v as [|c v]; [done|]. simpl. by destruct (c =? space_char). Qed.

Lemma alias_letters_star a : alias_letters (star_char :: a) = alias_letters a.
Proof. unfold alias_letters. rewrite filter_cons_False; [done|]. intros H. by apply H. Qed.

Lemma alias_letters_cons c a : c <> star_char ->
  alias_letters (c :: a) = c :: alias_letters a.
Proof. intros. unfold alias_letters. by rewrite filter_cons_True. Qed.
#[local] Arguments alias_letters : simpl never.

(** The loop decides, from any point inside an alias, whether the rest of the
    alias matches the rest of the word, given the stars seen so far. *)
Lemma verb_match_spec v w star : (star = SEnd -> alias_head v = []) ->
  verb_accept (verb_match v w star) =
    let a := alias_head v in
    let letters := casefold (alias_letters a) in
    (prefixb (casefold w) letters &&
       (negb (bool_decide (star = SNone)) || (alias_required a <=? length w)%nat))
    || ((ends_with_star a || bool_decide (star = SEnd)) && prefixb letters (casefold w)).
Proof.
  revert w star. induction v as [|c v IH]; intros w star Hinv.
  - simpl. destruct w; simpl; [by rewrite !orb_true_r|by rewrite andb_true_r].
  - simpl in *. destruct (Z.eqb_spec c star_char) as [->|Hc].
    + (* a star *)
      change (star_char =? space_char) with false in *. cbv iota in *.
      rewrite IH by (rewrite at_alias_end_head; case_bool_decide; done).
      rewrite ends_with_star_cons, at_alias_end_head, alias_letters_star.
      cbv zeta. simpl alias_required.
      assert (star <> SEnd) as HnE by (intros ->; by specialize (Hinv eq_refl)).
      rewrite (bool_decide_eq_false_2 (star = SEnd)) by done.
      destruct (bool_decide_reflect (alias_head v = [])) as [E|E]; simpl;
        by rewrite ?orb_true_r, ?andb_true_r, ?orb_false_r.
    + destruct (Z.eqb_spec c space_char) as [->|Hsp].
      * (* end of the alias *)
        simpl. destruct w; simpl; [by rewrite !orb_true_r|by rewrite andb_true_r].
      * (* a letter *)
        assert (star <> SEnd) as HnE by (intros ->; by specialize (Hinv eq_refl)).
        rewrite (bool_decide_eq_false_2 (star = SEnd)) by done. rewrite orb_false_r.
        rewrite alias_letters_cons by done.
        assert (Hes : ends_with_star (c :: alias_head v) = ends_with_star (alias_head v)).
        { rewrite ends_with_star_cons. case_bool_decide as E; [|done]. rewrite E. simpl.
          by apply Z.eqb_neq. }
        rewrite Hes, casefold_cons. destruct w as [|d w]; [|rewrite casefold_cons]; simpl;
          (destruct (Z.eqb_spec c star_char); [done|]).
        { destruct (Z.eqb_spec c space_char); [done|]. by rewrite ?andb_false_r, ?orb_false_r. }
        destruct (Z.eqb_spec (cmap d) (cmap c)) as [E|E].
        { rewrite IH by done. cbv zeta. rewrite (bool_decide_eq_false_2 (star = SEnd)) by done.
          rewrite orb_false_r, E, Z.eqb_refl. done. }
        { simpl. rewrite (bool_decide_eq_false_2 (star = SEnd)) by done.
          destruct (Z.eqb_spec (cmap c) (cmap d)); [congruence|]. simpl. by rewrite andb_false_r. }
Qed.

Lemma verb_match_alias v w :
  verb_accept (verb_match v w SNone) = alias_matches (alias_head v) w.
Proof.
  rewrite verb_match_spec by done. unfold alias_matches. cbv zeta. simpl.
  by rewrite orb_false_r.
Qed.

(** The loop breaks inside the alias, so skipping from there skips the alias. *)
Lemma verb_match_rest v w star : skip_word (verb_match v w star).1.1 = skip_word v.
Proof.
  revert w star. induction v as [|c v IH]; intros w star; [done|]. simpl.
  destruct (Z.eqb_spec c star_char) as [->|]; [by rewrite IH|].
  destruct (Z.eqb_spec c space_char) as [->|Hc]; [done|].
  destruct w as [|d w]; simpl; [by destruct (Z.eqb_spec c space_char)|].
  case_match; [by rewrite IH|]. simpl. by destruct (Z.eqb_spec c space_char).
Qed.

Lemma skip_word_le v : (length (skip_word v) <= length v)%nat.
Proof. induction v; simpl; [done|]. case_match; simpl; lia. Qed.
Lemma skip_spaces_le v : (length (skip_spaces v) <= length v)%nat.
Proof. induction v; simpl; [done|]. case_match; simpl; lia. Qed.

Lemma skip_progress c v :
  (length (skip_spaces (skip_word (c :: v))) < length (c :: v))%nat.
Proof.
  simpl. destruct (Z.eqb_spec c space_char) as [->|].
  - simpl. pose proof (skip_spaces_le v). lia.
  - pose proof (skip_word_le v). pose proof (skip_spaces_le (skip_word v)). lia.
Qed.

Lemma verb_loop_spec f v w : (length v <= f)%nat ->
  verb_loop f v w = existsb (fun a => alias_matches a w) (aliases_fuel f v).
Proof.
  revert v. induction f as [|f IH]; intros v Hf; [by destruct v; simpl in *; try lia|].
  destruct v as [|c v]; [done|]. cbn [verb_loop aliases_fuel existsb].
  rewrite verb_match_alias, verb_match_rest.
  destruct (alias_matches _ w); [done|]. simpl orb. apply IH.
  pose proof (skip_progress c v). simpl length in *. lia.
Qed.

Lemma verbcasecmp_eq same names w :
  verbcasecmp same names w =
    same || existsb (fun a => alias_matches a w) (name_aliases names).
Proof. unfold verbcasecmp. destruct same; [done|]. by apply verb_loop_spec. Qed.

(** Only the folded word matters. *)
Lemma alias_matches_casefold a w w' : casefold w = casefold w' ->
  alias_matches a w = alias_matches a w'.
Proof.
  intros H. unfold alias_matches. rewrite H.
  apply (f_equal length) in H. unfold casefold in H. rewrite !length_fmap in H. by rewrite H.
Qed.

Lemma verbcasecmp_casefold names w w' : casefold w = casefold w' ->
  verbcasecmp false names w = verbcasecmp false names w'.
Proof.
  intros H. rewrite !verbcasecmp_eq. apply existsb_ext. intros a.
  by apply alias_matches_casefold.
Qed.

(** *** Searching *)

#[export] Instance occurs_at_dec cc s what p : Decision (occurs_at cc s what p).
Proof. unfold occurs_at. destruct cc; apply _. Defined.

Lemma occurs_at_bound cc s what p : occurs_at cc s what p ->
  (p <= length s)%nat -> (p + length what <= length s)%nat.
Proof.
  unfold occurs_at, casefold. intros H Hp.
  destruct cc; apply (f_equal length) in H;
    rewrite ?length_fmap, length_take, ?length_fmap, length_drop in H; lia.
Qed.

Lemma occurs_at_nil cc s p : occurs_at cc s [] p.
Proof. by destruct cc. Qed.

Lemma starts_at_ge s p q : cstr s -> q ∈ starts_at s p -> (p <= q <= length s)%nat.
Proof.
  intros Hs. pattern p. revert p. apply (utf_ind s); [done|..].
  - intros p Hp Hin. rewrite starts_at_end in Hin by done. by apply elem_of_nil in Hin.
  - intros p Hp Hq Hv IH Hin. rewrite starts_at_step in Hin by done.
    apply elem_of_cons in Hin as [->|Hin]; [lia|]. apply IH in Hin. lia.
Qed.

Definition find_result (k : Z) (r : option (nat * nat)) : Z :=
  match r with Some (i, _) => k + Z.of_nat i + 1 | None => 0 end.

Lemma find_result_cons (P : nat -> Prop) `{!forall p, Decision (P p)} k p l :
  find_result k (list_find P (p :: l)) =
    if decide (P p) then k + 1 else find_result (k + 1) (list_find P l).
Proof.
  simpl. case_decide; simpl; [lia|]. destruct (list_find P l) as [[i x]|]; simpl; lia.
Qed.

Lemma list_find_none (P : nat -> Prop) `{!forall p, Decision (P p)} l :
  (forall p, p ∈ l -> ~ P p) -> list_find P l = None.
Proof. intros Hn. apply list_find_None, Forall_forall. done. Qed.

Lemma strindex_loop_spec cc s what p ind f : cstr s -> cstr what ->
  (p <= length s)%nat -> (S (length s - p) < f)%nat ->
  strindex_loop f s what cc p (Z.of_nat (length s) - Z.of_nat (length what)) ind =
    Some (find_result ind (list_find (occurs_at cc s what) (starts_at s p ++ [length s]))).
Proof.
  intros Hs Hw. revert ind f. pattern p. revert p. apply (utf_ind s); [done|..].
  - intros p Hp ind [|f] Hpl Hf; [lia|]. cbn [strindex_loop].
    assert (p = length s) as -> by lia. rewrite starts_at_end by lia. simpl app.
    rewrite find_result_cons.
    destruct (Z.leb_spec (Z.of_nat (length s)) (Z.of_nat (length s) - Z.of_nat (length what))).
    + assert (what = []) as -> by (destruct what; simpl in *; [done|lia]).
      destruct (str_at cc (drop (length s) s) []) eqn:E.
      * by rewrite decide_True by apply occurs_at_nil.
      * rewrite (proj2 (str_at_spec cc s [] (length s) Hs Hw)) in E; [done|apply occurs_at_nil].
    + rewrite decide_False; [done|]. intros Ho. apply occurs_at_bound in Ho; lia.
  - intros p Hp Hq Hv IH ind [|f] Hpl Hf; [lia|]. cbn [strindex_loop].
    rewrite (starts_at_step s p) by done. simpl app. rewrite find_result_cons.
    destruct (Z.leb_spec (Z.of_nat p) (Z.of_nat (length s) - Z.of_nat (length what))).
    + destruct (str_at cc (drop p s) what) eqn:E.
      * apply str_at_spec in E; [|done|done]. by rewrite decide_True.
      * rewrite decide_False by (intros Ho; apply str_at_spec in Ho; [congruence|done|done]).
        apply IH; lia.
    + rewrite decide_False by (intros Ho; apply occurs_at_bound in Ho; lia).
      rewrite list_find_none; [done|]. intros q Hin Ho.
      assert (p <= q <= length s)%nat.
      { apply elem_of_app in Hin as [Hin|Hin].
        - apply starts_at_ge in Hin; [lia|done].
        - apply list_elem_of_singleton in Hin as ->. lia. }
      apply occurs_at_bound in Ho; lia.
Qed.

(** *** Searching backwards *)

(** The offsets at which the characters of [vs] start, and the end. *)
Definition boundaries (vs : list Z) : list nat :=
  (fun i => length (encode_all (take i vs))) <$> seq 0 (S (length vs)).

Lemma boundaries_starts vs : Forall scalar vs ->
  boundaries vs = starts (encode_all vs) ++ [length (encode_all vs)].
Proof.
  intros Hvs. unfold boundaries. rewrite seq_S, fmap_app, starts_encode by done.
  simpl. by rewrite take_ge by lia.
Qed.

Lemma boundaries_snoc us v :
  boundaries (us ++ [v]) = boundaries us ++ [length (encode_all (us ++ [v]))].
Proof.
  unfold boundaries. rewrite length_app. simpl length. rewrite Nat.add_1_r, (seq_S (S _)), fmap_app.
  f_equal.
  - apply list_fmap_ext. intros i x Hx. apply lookup_seq in Hx as [-> ?].
    f_equal. f_equal. rewrite take_app_le; [done|lia].
  - simpl. by rewrite (take_ge (us ++ [v])) by (rewrite length_app; simpl; lia).
Qed.

Lemma strrindex_loop_skip cc pre t post what : Forall (fun b => 0x80 <= b <= 0xbf) t ->
  strrindex_loop (length pre + length t) (pre ++ t ++ post) what cc =
    strrindex_loop (length pre) (pre ++ t ++ post) what cc.
Proof.
  revert post. induction t as [|b t IH] using rev_ind; intros post Ht.
  - by rewrite Nat.add_0_r.
  - apply Forall_app in Ht as [Ht Hb]. apply Forall_inv in Hb. simpl in Hb.
    rewrite length_app. simpl length. rewrite Nat.add_1_r, Nat.add_succ_r. cbn [strrindex_loop].
    replace (pre ++ (t ++ [b]) ++ post) with (pre ++ t ++ b :: post) by (by rewrite <- (app_assoc t)).
    rewrite byte_at_app_r by lia.
    replace (length pre + length t - length pre)%nat with (length t) by lia.
    rewrite byte_at_app_r, Nat.sub_diag by lia. change (byte_at _ 0) with b.
    rewrite is_cont_range by lia. repeat btestc. apply IH. done.
Qed.

Lemma not_cont_at us vs : Forall scalar vs ->
  is_utf8_cont_byte (byte_at (encode_all us ++ encode_all vs) (length (encode_all us))) = false.
Proof.
  intros Hvs. rewrite byte_at_app_r, Nat.sub_diag by lia.
  destruct Hvs as [|v vs Hv Hvs]; [done|].
  destruct (encode_shape v Hv) as (c & t & E & _ & Hc & _). by rewrite encode_all_cons, E.
Qed.

Lemma strrindex_loop_spec cc us vs what : Forall scalar us -> Forall scalar vs ->
  cstr what ->
  strrindex_loop (S (length (encode_all us))) (encode_all us ++ encode_all vs) what cc =
    Some (match list_find (occurs_at cc (encode_all us ++ encode_all vs) what)
                          (reverse (boundaries us)) with
          | Some (i, _) => Z.of_nat (length us) + 1 - Z.of_nat i
          | None => 0
          end).
Proof.
  intros Hus Hvs Hw. revert vs Hvs. induction us as [|v us IH] using rev_ind; intros vs Hvs;
    cbn [strrindex_loop].
  - rewrite not_cont_at by done. cbn [encode_all length]. simpl app.
    assert (Hs : cstr (encode_all vs)) by by apply encode_all_cstr.
    unfold boundaries. simpl.
    destruct (str_at cc (drop 0 (encode_all vs)) what) eqn:E.
    + apply (str_at_spec cc _ what 0) in E; [|done|done].
      rewrite decide_True by done. unfold utf_char_index.
      assert (is_utf8_cont_byte (byte_at (encode_all vs) 0) = false) as ->
        by exact (not_cont_at [] vs Hvs). done.
    + rewrite decide_False; [done|]. intros Ho.
      apply (str_at_spec cc _ what 0) in Ho; [congruence|done|done].
  - assert (Hs : cstr (encode_all (us ++ [v]) ++ encode_all vs)).
    { rewrite <- encode_all_app. apply encode_all_cstr, Forall_app. done. }
    apply Forall_app in Hus as Hus'. destruct Hus' as [Hus1 Hv]. apply Forall_inv in Hv.
    rewrite not_cont_at by done. rewrite boundaries_snoc, reverse_snoc. cbn [list_find].
    destruct (str_at cc _ what) eqn:E.
    + apply str_at_spec in E; [|done|done]. rewrite decide_True by done.
      unfold utf_char_index. rewrite Z.add_simpl_r, Nat2Z.id.
      rewrite char_index_loop_encode by (done || lia).
      assert (is_utf8_cont_byte (byte_at (encode_all (us ++ [v]) ++ encode_all vs) 0) = false)
        as ->; [|f_equal; lia].
      rewrite <- encode_all_app.
      apply (not_cont_at [] ((us ++ [v]) ++ vs)). apply Forall_app. done.
    + rewrite decide_False by (intros Ho; apply str_at_spec in Ho; [congruence|done|done]).
      rewrite !encode_all_snoc, <- !app_assoc.
      destruct (encode_shape v Hv) as (c & t & Ev & _ & _ & Ht).
      assert (length (encode_all us ++ encode v) = (length (encode_all us ++ [c]) + length t)%nat)
        as -> by (rewrite Ev, !length_app; simpl; lia).
      replace (encode_all us ++ encode v ++ encode_all vs)
        with ((encode_all us ++ [c]) ++ t ++ encode_all vs)
        by (rewrite Ev, <- app_assoc; done).
      rewrite strrindex_loop_skip by done.
      replace ((encode_all us ++ [c]) ++ t ++ encode_all vs)
        with (encode_all us ++ encode_all (v :: vs))
        by (rewrite encode_all_cons, Ev, <- !app_assoc; done).
      rewrite length_app, Nat.add_1_r. rewrite IH by (done || by constructor).
      destruct (list_find _ (reverse (boundaries us))) as [[i x]|]; simpl; [|done].
      rewrite length_app. simpl. f_equal. lia.
Qed.

Lemma strrindex_loop_beyond cc s what k : cstr s -> cstr what ->
  (k <= length what)%nat -> (length what <= S (length s))%nat ->
  strrindex_loop (S (length s) - length what + k) s what cc =
    strrindex_loop (S (length s) - length what) s what cc.
Proof.
  intros Hs Hw. induction k as [|k IH]; intros Hk Hl; [by rewrite Nat.add_0_r|].
  rewrite Nat.add_succ_r. cbn [strrindex_loop].
  destruct (is_utf8_cont_byte _); [apply IH; lia|].
  destruct (str_at cc _ what) eqn:E; [|apply IH; lia].
  apply str_at_spec in E; [|done|done]. apply occurs_at_bound in E; lia.
Qed.

(** *** Substitution *)

Lemma strsub_loop_total f source what with_ cc : what <> [] -> (length source < f)%nat ->
  is_Some (strsub_loop f source what with_ cc).
Proof.
  intros Hw. revert source. induction f as [|f IH]; intros source Hf; [lia|].
  destruct source as [|c rest]; cbn [strsub_loop]; [by eexists|].
  assert (0 < length what)%nat by (destruct what; simpl; [done|lia]).
  destruct (str_at cc (c :: rest) what).
  - destruct (IH (drop (length what) (c :: rest))) as [r ->]; [|by eexists].
    rewrite length_drop. simpl in *. lia.
  - destruct (IH rest) as [r ->]; [simpl in *; lia|by eexists].
Qed.

Lemma strsub_loop_absent f source what with_ cc : cstr source -> cstr what ->
  (length source < f)%nat -> (forall p, (p < length source)%nat -> ~ occurs_at cc source what p) ->
  strsub_loop f source what with_ cc = Some source.
Proof.
  intros Hs Hw. revert f. induction Hs as [|c rest Hc Hs IH]; intros [|f] Hf Hno;
    simpl in Hf; try lia; [done|]. cbn [strsub_loop].
  destruct (str_at cc (c :: rest) what) eqn:E.
  - exfalso. apply (Hno 0%nat); [simpl; lia|]. apply str_at_spec; [by constructor|done|exact E].
  - rewrite IH; [done|lia|]. intros p Hp Ho. apply (Hno (S p)); [simpl; lia|exact Ho].
Qed.

Lemma strsub_loop_same f source what : cstr source -> cstr what -> what <> [] ->
  (length source < f)%nat -> strsub_loop f source what what true = Some source.
Proof.
  intros Hs Hw Hne. revert source Hs. induction f as [|f IH]; intros source Hs Hf; [lia|].
  destruct source as [|c rest]; [done|]. cbn [strsub_loop].
  assert (0 < length what)%nat by (destruct what; simpl; [done|lia]).
  destruct (str_at true (c :: rest) what) eqn:E.
  - apply (str_at_spec true (c :: rest) what 0) in E; [|done|done]. simpl in E.
    rewrite IH; [|by apply Forall_drop|rewrite length_drop; simpl in *; lia].
    simpl. f_equal. rewrite <- E at 1. apply take_drop.
  - inversion Hs; subst. rewrite IH; [done|done|simpl in *; lia].
Qed.

(** *** MOO binary *)

Definition moobinary_char (c : Z) : bytes :=
  if (32 <=? c) && (c <? 126) then [c]
  else [tilde_char; hex_digit (c / 16); hex_digit (c mod 16)].

Lemma moobinary_char_decode c rest : 0 <= c < 256 ->
  moobinary_to_raw_bytes (moobinary_char c ++ rest) =
    (r ← moobinary_to_raw_bytes rest; Some (c :: r)).
Proof.
  intros Hc. unfold moobinary_char.
  destruct (Z.leb_spec 32 c), (Z.ltb_spec c 126); simpl andb; cbv iota.
  1: { cbn [app moobinary_to_raw_bytes].
       destruct (Z.eqb_spec c tilde_char) as [->|]; [unfold tilde_char in *; lia|done]. }
  all: cbn [app moobinary_to_raw_bytes]; rewrite Z.eqb_refl; cbn [negb].
  all: pose proof (byte_cases (fun c =>
    match unhex 0 (hex_digit (c / 16)) with
    | Some cc => match unhex cc (hex_digit (c mod 16)) with Some r => r =? c | None => false end
    | None => false end) ltac:(by vm_compute) c Hc) as HP; cbv beta in HP.
  all: destruct (unhex 0 _) as [cc|]; [|done]; destruct (unhex cc _) as [r|] eqn:E; [|done].
  all: apply Z.eqb_eq in HP as ->; simpl; rewrite E; done.
Qed.

Lemma moobinary_char_printable c : 0 <= c < 256 ->
  Forall (fun b => 32 <= b <= 126) (moobinary_char c).
Proof.
  intros Hc. unfold moobinary_char, hex_digit, tilde_char.
  case_match eqn:E; breflect; repeat constructor; try lia.
  all: repeat case_match; breflect; dlia.
Qed.

Lemma strrindex_eq (vs : list Z) (what : bytes) (cc : bool) :
  Forall scalar vs -> cstr what ->
  strrindex (encode_all vs) what cc =
    Some (match list_find (occurs_at cc (encode_all vs) what)
                          (reverse (starts (encode_all vs) ++ [length (encode_all vs)])) with
          | Some (i, _) => Z.of_nat (length vs) + 1 - Z.of_nat i
          | None => 0
          end).
Proof.
  intros Hvs Hw. rewrite <- boundaries_starts by done.
  pose proof (strrindex_loop_spec cc vs [] what Hvs ltac:(constructor) Hw) as H.
  change (encode_all []) with (@nil Z) in H. rewrite app_nil_r in H.
  unfold strrindex. rewrite <- H.
  destruct (decide (length what <= S (length (encode_all vs)))%nat).
  - rewrite <- (strrindex_loop_beyond cc _ what (length what)) by (auto using encode_all_cstr; lia).
    f_equal. lia.
  - rewrite H. replace (S (length (encode_all vs)) - length what)%nat with 0%nat by lia. simpl.
    rewrite list_find_none; [done|]. intros p Hp Ho.
    rewrite boundaries_starts, elem_of_reverse, elem_of_app in Hp by done.
    assert (p <= length (encode_all vs))%nat.
    { destruct Hp as [Hp|Hp].
      - apply (starts_at_ge _ 0) in Hp; [lia|by apply encode_all_cstr].
      - apply list_elem_of_singleton in Hp as ->. lia. }
    apply occurs_at_bound in Ho; lia.
Qed.

(** ** Properties *)

(** The case-insensitive comparison decides equality up to case folding,
    its bounded version that of the first [n] characters, and equal names have
    equal hashes: the hash tests in front of the comparisons in db_properties.c
    never hide a match. *)
Theorem mystrcasecmp_correct (s t : bytes) (n : nat) :
  cstr s -> cstr t ->
  (mystrcasecmp s t = 0 <-> casefold s = casefold t) /\
  (mystrncasecmp s t n = 0 <-> take n (casefold s) = take n (casefold t)) /\
  (mystrcasecmp s t = 0 -> str_hash s = str_hash t).
Proof.
  intros Hs Ht. split; [by apply mystrcasecmp_eq|]. split; [by apply mystrncasecmp_eq|].
  intros H. apply str_hash_casefold. by apply mystrcasecmp_eq.
Qed.

Lemma BS_cstr_Name : cstr (BS "Name") /\ cstr (BS "nAME").
Proof. split; vm_compute; repeat constructor; done. Qed.

Example mystrcasecmp_correct_witness :
  cstr (BS "Name") /\ cstr (BS "nAME") /\ mystrcasecmp (BS "Name") (BS "nAME") = 0 /\
  (mystrcasecmp (BS "Name") (BS "nAME") = 0 <->
     casefold (BS "Name") = casefold (BS "nAME")) /\
  (mystrncasecmp (BS "Name") (BS "nAME") 2 = 0 <->
     take 2 (casefold (BS "Name")) = take 2 (casefold (BS "nAME"))) /\
  (mystrcasecmp (BS "Name") (BS "nAME") = 0 -> str_hash (BS "Name") = str_hash (BS "nAME")).
Proof.
  destruct BS_cstr_Name. split; [done|]. split; [done|]. split; [reflexivity|].
  by apply mystrcasecmp_correct.
Defined.

(** C33: verb-name matching: apart from the pointer shortcut, [verbcasecmp]
    holds exactly if one of the space-separated aliases of the verb's name
    matches the word; an alias matches the case-insensitive abbreviations of
    its letters that reach its first star, and any extension of its letters if
    it ends with a star.  The loop terminates on every input. *)
Theorem verbcasecmp_correct (same : bool) (names word : bytes) :
  verbcasecmp same names word = true <->
  same = true \/ exists a, a ∈ name_aliases names /\ alias_matches a word = true.
Proof.
  rewrite verbcasecmp_eq, orb_true_iff, existsb_exists.
  split; intros [?|(a & Ha & Hm)]; [by left| |by left|].
  all: right; exists a; split; [by apply list_elem_of_In|done].
Qed.

(** The pointer shortcut of [verbcasecmp] changes the result: a word that
    spells out an alias with an inner star does not match it, unless the word
    happens to be the very string object stored as the verb's name. *)
Theorem verbcasecmp_identity_matters (a : bytes) :
  Forall (fun c => c <> space_char) a -> a <> [] ->
  star_char ∈ a -> ends_with_star a = false ->
  verbcasecmp false a a = false /\ verbcasecmp true a a = true.
Proof.
  intros Hsp Hne Hst Hend. split; [|done]. rewrite verbcasecmp_eq. cbn [orb].
  assert (Hh : alias_head a = a).
  { clear -Hsp. induction Hsp as [|c a Hc Ha IH]; [done|]. simpl.
    apply Z.eqb_neq in Hc. rewrite Hc. by f_equal. }
  assert (Hk : skip_word a = []).
  { clear -Hsp. induction Hsp as [|c a Hc Ha IH]; [done|]. simpl.
    apply Z.eqb_neq in Hc. by rewrite Hc. }
  unfold name_aliases. destruct (length a) as [|n] eqn:En; [by destruct a|].
  cbn [aliases_fuel]. rewrite Hh, Hk. destruct a as [|c a'] eqn:Ea; [done|]. rewrite <- Ea in *.
  assert (forall f w, existsb (fun x => alias_matches x w) (aliases_fuel f (skip_spaces [])) = false)
    as Hnil by (intros [|f] w; done).
  cbn [existsb]. rewrite Hnil, orb_false_r. unfold alias_matches. rewrite Hend. simpl.
  rewrite orb_false_r. apply andb_false_iff. left. apply not_true_iff_false. intros Hp.
  apply prefixb_prefix, prefix_length in Hp. unfold casefold in Hp. rewrite !length_fmap in Hp.
  assert (length (alias_letters a) < length a)%nat; [|lia].
  unfold alias_letters. apply list_elem_of_split in Hst as (l1 & l2 & ->).
  rewrite filter_app, filter_cons_False by (intros H; by apply H). rewrite !length_app. simpl.
  pose proof (length_filter (fun c => c <> star_char) l1).
  pose proof (length_filter (fun c => c <> star_char) l2). lia.
Qed.

Example verbcasecmp_identity_matters_witness :
  Forall (fun c => c <> space_char) (BS "foo*bar") /\ BS "foo*bar" <> [] /\
  star_char ∈ BS "foo*bar" /\ ends_with_star (BS "foo*bar") = false /\
  verbcasecmp false (BS "foo*bar") (BS "foo*bar") = false /\
  verbcasecmp true (BS "foo*bar") (BS "foo*bar") = true.
Proof.
  assert (Forall (fun c => c <> space_char) (BS "foo*bar")) by (vm_compute; repeat constructor; done).
  assert (star_char ∈ BS "foo*bar") by (vm_compute; repeat constructor).
  split; [done|]. split; [done|]. split; [done|]. split; [reflexivity|].
  by apply verbcasecmp_identity_matters.
Defined.

(** [strindex] terminates and answers the (1-based) character index of
    the first occurrence that starts at a character, the end of the string
    included, or 0 if there is none. *)
Theorem strindex_correct (source what : bytes) (cc : bool) :
  cstr source -> cstr what ->
  strindex source what cc =
    Some (match list_find (occurs_at cc source what) (starts source ++ [length source]) with
          | Some (i, _) => Z.of_nat i + 1
          | None => 0
          end).
Proof.
  intros Hs Hw. unfold strindex.
  rewrite (strindex_loop_spec cc source what 0 0) by (done || lia).
  unfold find_result. fold (starts source).
  change (starts_at source 0) with (starts source). by destruct (list_find _ _) as [[i x]|].
Qed.

Example strindex_correct_witness :
  cstr (BS "foobar") /\ cstr (BS "OB") /\ strindex (BS "foobar") (BS "OB") false = Some 3 /\
  strindex (BS "foobar") (BS "OB") false =
    Some (match list_find (occurs_at false (BS "foobar") (BS "OB"))
                          (starts (BS "foobar") ++ [length (BS "foobar")]) with
          | Some (i, _) => Z.of_nat i + 1
          | None => 0
          end).
Proof.
  assert (cstr (BS "foobar")) by (vm_compute; repeat constructor; done).
  assert (cstr (BS "OB")) by (vm_compute; repeat constructor; done).
  split; [done|]. split; [done|]. split; [reflexivity|]. by apply strindex_correct.
Defined.

(** On well-formed UTF-8, [strrindex] answers the character index of the
    last occurrence, searching the same positions as [strindex] in the
    opposite order although it walks backwards over single bytes. *)
Theorem strrindex_correct (vs : list Z) (what : bytes) (cc : bool) :
  Forall scalar vs -> cstr what ->
  strrindex (encode_all vs) what cc =
    Some (match list_find (occurs_at cc (encode_all vs) what)
                          (reverse (starts (encode_all vs) ++ [length (encode_all vs)])) with
          | Some (i, _) => Z.of_nat (length vs) + 1 - Z.of_nat i
          | None => 0
          end).
Proof. by apply strrindex_eq. Qed.

Example strrindex_correct_witness :
  Forall scalar [65; 0x20ac; 65; 66] /\ cstr [65] /\
  strrindex (encode_all [65; 0x20ac; 65; 66]) [65] true = Some 3 /\
  strrindex (encode_all [65; 0x20ac; 65; 66]) [65] true =
    Some (match list_find (occurs_at true (encode_all [65; 0x20ac; 65; 66]) [65])
                 (reverse (starts (encode_all [65; 0x20ac; 65; 66])
                           ++ [length (encode_all [65; 0x20ac; 65; 66])])) with
          | Some (i, _) => Z.of_nat (length [65; 0x20ac; 65; 66]) + 1 - Z.of_nat i
          | None => 0
          end).
Proof.
  assert (Forall scalar [65; 0x20ac; 65; 66]) by (repeat constructor; unfold scalar; lia).
  assert (cstr [65]) by (repeat constructor; done).
  split; [done|]. split; [done|]. split; [reflexivity|]. by apply strrindex_correct.
Defined.

(** For a non-empty search string (the builtin refuses an empty one)
    [stream_add_strsub] terminates, changes nothing where the search string
    does not occur, and a case-sensitive replacement of a string by itself is
    the identity. *)
Theorem stream_add_strsub_correct (source what with_ : bytes) (cc : bool) :
  cstr source -> cstr what -> what <> [] ->
  is_Some (stream_add_strsub source what with_ cc) /\
  ((forall p, (p < length source)%nat -> ~ occurs_at cc source what p) ->
     stream_add_strsub source what with_ cc = Some source) /\
  stream_add_strsub source what what true = Some source.
Proof.
  intros Hs Hw Hne. unfold stream_add_strsub.
  split; [by apply strsub_loop_total; [|lia]|].
  split; [intros; apply strsub_loop_absent; (done || lia)|].
  apply strsub_loop_same; (done || lia).
Qed.

Example stream_add_strsub_correct_witness :
  cstr (BS "foobar") /\ cstr (BS "o") /\ BS "o" <> [] /\
  stream_add_strsub (BS "foobar") (BS "O") (BS "00") false = Some (BS "f0000bar") /\
  is_Some (stream_add_strsub (BS "foobar") (BS "o") (BS "00") true) /\
  ((forall p, (p < length (BS "foobar"))%nat -> ~ occurs_at true (BS "foobar") (BS "o") p) ->
     stream_add_strsub (BS "foobar") (BS "o") (BS "00") true = Some (BS "foobar")) /\
  stream_add_strsub (BS "foobar") (BS "o") (BS "o") true = Some (BS "foobar").
Proof.
  assert (cstr (BS "foobar")) by (vm_compute; repeat constructor; done).
  assert (cstr (BS "o")) by (vm_compute; repeat constructor; done).
  split; [done|]. split; [done|]. split; [done|]. split; [reflexivity|].
  by apply stream_add_strsub_correct.
Defined.

(** C34: the MOO binary notation round-trips: decoding what
    [stream_add_moobinary_from_raw_bytes] writes gives back the bytes, NUL and
    tilde included, and what is written is printable ASCII. *)
Theorem moobinary_roundtrip (buffer : bytes) :
  Forall (fun c => 0 <= c < 256) buffer ->
  moobinary_to_raw_bytes (stream_add_moobinary_from_raw_bytes buffer) = Some buffer /\
  Forall (fun c => 32 <= c <= 126) (stream_add_moobinary_from_raw_bytes buffer).
Proof.
  change (stream_add_moobinary_from_raw_bytes buffer)
    with (concat (moobinary_char <$> buffer)).
  induction 1 as [|c buffer Hc Hb [IH1 IH2]]; [done|].
  rewrite fmap_cons. cbn [concat]. split.
  - by rewrite moobinary_char_decode, IH1.
  - apply Forall_app. split; [by apply moobinary_char_printable|done].
Qed.

Example moobinary_roundtrip_witness :
  Forall (fun c => 0 <= c < 256) [65; 126; 0; 255] /\
  stream_add_moobinary_from_raw_bytes [65; 126; 0; 255] = BS "A~7e~00~ff" /\
  moobinary_to_raw_bytes (stream_add_moobinary_from_raw_bytes [65; 126; 0; 255]) =
    Some [65; 126; 0; 255] /\
  Forall (fun c => 32 <= c <= 126) (stream_add_moobinary_from_raw_bytes [65; 126; 0; 255]).
Proof.
  assert (Forall (fun c => 0 <= c < 256) [65; 126; 0; 255]) by (repeat constructor; lia).
  split; [done|]. split; [reflexivity|]. by apply moobinary_roundtrip.
Defined.
