(* ===== verification/Values.v ===== *)
(** * MOO values (structures.h; the value functions of utils.c and numbers.c)

    A [Var] is a tagged union; here it is an inductive type whose payload is
    the value, not the storage: strings are their bytes, lists their elements
    (the length that the code keeps in element 0 is the length of the list).
    Reference counts are not represented.  Floats are IEEE doubles
    (FT_DOUBLE), as [spec_float]. *)

From Stdlib Require Import Floats.SpecFloat.
From S2P Require Import Prelude Utf CString.

(** ** Definitions *)

(** The special object numbers. *)
Definition SYSTEM_OBJECT : Z := 0.
Definition NOTHING : Z := -1.
Definition AMBIGUOUS : Z := -2.
Definition FAILED_MATCH : Z := -3.

(** [Num], [Objid] and [int] at their widths. *)
Definition NUM_BITS : Z := 64.
Definition NUM_MAX : Z := 2 ^ 63 - 1.
Definition NUM_MIN : Z := - 2 ^ 63.
Definition Num (z : Z) : Z := swrap 64 z.
Definition int (z : Z) : Z := swrap 32 z.
Definition is_Num (z : Z) : Prop := NUM_MIN <= z <= NUM_MAX.
Definition INT32_MAX : Z := 2 ^ 31 - 1.
Definition INT32_MIN : Z := - 2 ^ 31.

Inductive error :=
| E_NONE | E_TYPE | E_DIV | E_PERM | E_PROPNF | E_VERBNF | E_VARNF | E_INVIND
| E_RECMOVE | E_MAXREC | E_RANGE | E_ARGS | E_NACC | E_INVARG | E_QUOTA | E_FLOAT.

#[export] Instance error_eq_dec : EqDecision error.
Proof. solve_decision. Defined.

(** The numeric value of an error: its position in ERR_SPEC_LIST. *)
Definition error_list : list error :=
  [E_NONE; E_TYPE; E_DIV; E_PERM; E_PROPNF; E_VERBNF; E_VARNF; E_INVIND;
   E_RECMOVE; E_MAXREC; E_RANGE; E_ARGS; E_NACC; E_INVARG; E_QUOTA; E_FLOAT].

Definition unparse_error (e : error) : bytes :=
  match e with
  | E_NONE => BS "No error"
  | E_TYPE => BS "Type mismatch"
  | E_DIV => BS "Division by zero"
  | E_PERM => BS "Permission denied"
  | E_PROPNF => BS "Property not found"
  | E_VERBNF => BS "Verb not found"
  | E_VARNF => BS "Variable not found"
  | E_INVIND => BS "Invalid indirection"
  | E_RECMOVE => BS "Recursive move"
  | E_MAXREC => BS "Too many verb calls"
  | E_RANGE => BS "Range error"
  | E_ARGS => BS "Incorrect number of arguments"
  | E_NACC => BS "Move refused by destination"
  | E_INVARG => BS "Invalid argument"
  | E_QUOTA => BS "Resource limit exceeded"
  | E_FLOAT => BS "Floating-point arithmetic error"
  end.

Definition error_name (e : error) : bytes :=
  match e with
  | E_NONE => BS "E_NONE" | E_TYPE => BS "E_TYPE" | E_DIV => BS "E_DIV"
  | E_PERM => BS "E_PERM" | E_PROPNF => BS "E_PROPNF" | E_VERBNF => BS "E_VERBNF"
  | E_VARNF => BS "E_VARNF" | E_INVIND => BS "E_INVIND" | E_RECMOVE => BS "E_RECMOVE"
  | E_MAXREC => BS "E_MAXREC" | E_RANGE => BS "E_RANGE" | E_ARGS => BS "E_ARGS"
  | E_NACC => BS "E_NACC" | E_INVARG => BS "E_INVARG" | E_QUOTA => BS "E_QUOTA"
  | E_FLOAT => BS "E_FLOAT"
  end.

Inductive Var :=
| VInt (n : Z)
| VObj (o : Z)
| VStr (s : bytes)
| VErr (e : error)
| VList (l : list Var)
| VClear
| VNone
| VCatch (n : Z)
| VFinally (n : Z)
| VFloat (f : spec_float).

(** Induction on values, through the elements of lists. *)
Section Var_ind.
Context (P : Var -> Prop).
Context (Pint : forall n, P (VInt n)) (Pobj : forall o, P (VObj o))
  (Pstr : forall s, P (VStr s)) (Perr : forall e, P (VErr e))
  (Plist : forall l, Forall P l -> P (VList l))
  (Pclear : P VClear) (Pnone : P VNone) (Pcatch : forall n, P (VCatch n))
  (Pfinally : forall n, P (VFinally n)) (Pfloat : forall f, P (VFloat f)).

Fixpoint Var_rect' (v : Var) : P v :=
  match v with
  | VInt n => Pint n | VObj o => Pobj o | VStr s => Pstr s | VErr e => Perr e
  | VList l => Plist l ((fix go l : Forall P l :=
      match l with [] => Forall_nil_2 P | v :: l => Forall_cons_2 P v l (Var_rect' v) (go l) end) l)
  | VClear => Pclear | VNone => Pnone | VCatch n => Pcatch n | VFinally n => Pfinally n
  | VFloat f => Pfloat f
  end.
End Var_ind.

#[export] Instance spec_float_eq_dec : EqDecision spec_float.
Proof. solve_decision. Defined.

Fixpoint Var_eqb (v w : Var) : bool :=
  match v, w with
  | VInt n, VInt m | VObj n, VObj m | VCatch n, VCatch m | VFinally n, VFinally m => n =? m
  | VStr s, VStr t => bool_decide (s = t)
  | VErr e, VErr f => bool_decide (e = f)
  | VList l, VList m =>
      (fix go l m := match l, m with
       | [], [] => true
       | v :: l, w :: m => Var_eqb v w && go l m
       | _, _ => false
       end) l m
  | VClear, VClear | VNone, VNone => true
  | VFloat f, VFloat g => bool_decide (f = g)
  | _, _ => false
  end.

Lemma Var_eqb_spec v w : Var_eqb v w = true <-> v = w.
Proof.
  revert w. induction v as [| | | |l IH| | | | |] using Var_rect'; intros []; simpl;
    rewrite ?Z.eqb_eq, ?bool_decide_eq_true;
    try (split; [congruence | intros [= ->]; done]); try (split; congruence).
  rename l0 into m. transitivity (l = m); [|split; congruence].
  revert m. induction IH as [|v l Hv Hl IHl]; intros [|w m]; try (split; congruence).
  rewrite andb_true_iff, Hv, IHl. split; [intros [-> ->] | intros [= -> ->]]; done.
Qed.

#[export] Instance Var_eq_dec : EqDecision Var.
Proof.
  intros v w. destruct (Var_eqb v w) eqn:E; [left; by apply Var_eqb_spec | right].
  intros H%Var_eqb_spec. congruence.
Defined.

(** Types as the code tags them in memory, with the wildcards of built-in
    prototypes; floats are not boxed, so only strings and lists (and waifs)
    carry the complex flag. *)
Definition TYPE_DB_MASK : Z := 0x7f.
Definition TYPE_COMPLEX_FLAG : Z := 0x80.

Inductive var_type :=
| TYPE_INT | TYPE_OBJ | TYPE_STR | TYPE_ERR | TYPE_LIST | TYPE_CLEAR | TYPE_NONE
| TYPE_CATCH | TYPE_FINALLY | TYPE_FLOAT | TYPE_WAIF | TYPE_ANY | TYPE_NUMERIC.

#[export] Instance var_type_eq_dec : EqDecision var_type.
Proof. solve_decision. Defined.

Definition var_type_value (t : var_type) : Z :=
  match t with
  | TYPE_INT => 0 | TYPE_OBJ => 1 | TYPE_STR => Z.lor 2 TYPE_COMPLEX_FLAG | TYPE_ERR => 3
  | TYPE_LIST => Z.lor 4 TYPE_COMPLEX_FLAG | TYPE_CLEAR => 5 | TYPE_NONE => 6
  | TYPE_CATCH => 7 | TYPE_FINALLY => 8 | TYPE_FLOAT => 9
  | TYPE_WAIF => Z.lor 10 TYPE_COMPLEX_FLAG | TYPE_ANY => -1 | TYPE_NUMERIC => -2
  end.

(** The field [type] of a [Var]. *)
Definition type_of (v : Var) : var_type :=
  match v with
  | VInt _ => TYPE_INT | VObj _ => TYPE_OBJ | VStr _ => TYPE_STR | VErr _ => TYPE_ERR
  | VList _ => TYPE_LIST | VClear => TYPE_CLEAR | VNone => TYPE_NONE | VCatch _ => TYPE_CATCH
  | VFinally _ => TYPE_FINALLY | VFloat _ => TYPE_FLOAT
  end.

Definition float_zero : spec_float := S754_zero false.

Definition is_true (v : Var) : bool :=
  match v with
  | VInt n => negb (n =? 0)
  | VFloat f => negb (SFeqb f float_zero)
  | VStr s => negb (byte_at s 0 =? 0)
  | VList l => negb (Z.of_nat (length l) =? 0)
  | _ => false
  end.

(** [do_equals] in the default configuration (pragma FLOATINT_EQ off). *)
Definition do_equals (lfnum : spec_float) (rhs : Var) : bool :=
  match rhs with VFloat g => SFeqb lfnum g | _ => false end.

(** [equality]; [None] is the panic on a type that MOO code cannot produce.
    [same] answers whether two lists of equal length are the same pointer. *)
Section equality.
Context (same : list Var -> list Var -> bool).

Fixpoint equality_ptr (lhs rhs : Var) (case_matters : bool) : option bool :=
  match lhs, rhs with
  | VFloat f, _ => Some (do_equals f rhs)
  | _, VFloat g => Some (do_equals g lhs)
  | VInt n, VInt m => Some (n =? m)
  | VObj n, VObj m => Some (n =? m)
  | VErr e, VErr f => Some (bool_decide (e = f))
  | VStr s, VStr t =>
      Some (if case_matters then strcmp s t =? 0 else mystrcasecmp s t =? 0)
  | VList l, VList m =>
      if negb (Z.of_nat (length l) =? Z.of_nat (length m)) then Some false
      else if same l m then Some true
      else (fix go l m := match l, m with
            | v :: l, w :: m =>
                b ← equality_ptr v w case_matters;
                if negb b then Some false else go l m
            | _, _ => Some true
            end) l m
  | VClear, VClear | VNone, VNone | VCatch _, VCatch _ | VFinally _, VFinally _ => None
  | _, _ => Some false
  end.
End equality.

(** Without the pointer shortcut, which changes nothing for comparable values
    ([equality_correct]). *)
Definition equality : Var -> Var -> bool -> option bool := equality_ptr (fun _ _ => false).

(** Byte quota model BQM_64: F = 4, V = 8, floats not boxed. *)
Definition BQM_FOUR : Z := 4.
Definition BQM_VAR : Z := 2 * BQM_FOUR.
Definition BQM_SIZEOF_PTR : Z := BQM_VAR.
Definition BQM_SIZEOF_Var : Z := 2 * BQM_VAR.

(** [value_bytes] adds up in an [int]. *)
Fixpoint value_bytes (v : Var) : Z :=
  let size := BQM_SIZEOF_Var in
  match v with
  | VStr s => int (size + int (Z.of_nat (length s) + 1))
  | VList l =>
      (fix go (l : list Var) (size : Z) : Z := match l with
       | [] => size
       | v :: l => go l (int (size + value_bytes v))
       end) l (int (size + BQM_SIZEOF_Var))
  | _ => size
  end.

(** ** Specification *)

(** The values that MOO code can hold: no stack markers and no clear slots,
    strings that are C strings, and no float that differs from itself. *)
Fixpoint user_value (v : Var) : Prop :=
  match v with
  | VInt n | VObj n => is_Num n
  | VStr s => cstr s
  | VErr _ => True
  | VList l => (fix go l := match l with [] => True | v :: l => user_value v /\ go l end) l
  | VFloat f => f <> S754_nan
  | _ => False
  end.

(** Values equal up to the case of strings and the sign of a float zero. *)
Inductive same_value (case_matters : bool) : Var -> Var -> Prop :=
| same_int n : same_value case_matters (VInt n) (VInt n)
| same_obj n : same_value case_matters (VObj n) (VObj n)
| same_err e : same_value case_matters (VErr e) (VErr e)
| same_str s t :
    (if case_matters then s = t else casefold s = casefold t) ->
    same_value case_matters (VStr s) (VStr t)
| same_float f g : SFeqb f g = true -> same_value case_matters (VFloat f) (VFloat g)
| same_list l m :
    Forall2 (same_value case_matters) l m -> same_value case_matters (VList l) (VList m).

(** All the values inside a value, itself included, and the bytes of each. *)
Fixpoint subvalues (v : Var) : list Var :=
  v :: match v with
       | VList l => (fix go l := match l with [] => [] | v :: l => subvalues v ++ go l end) l
       | _ => []
       end.
Definition own_bytes (v : Var) : Z :=
  match v with
  | VStr s => 16 + Z.of_nat (length s) + 1
  | VList _ => 16 + 16
  | _ => 16
  end.
Definition sumZ (l : list Z) : Z := foldr Z.add 0 l.
Definition exact_bytes (v : Var) : Z := sumZ (own_bytes <$> subvalues v).

(** ** Lemmas *)

Lemma user_value_list l : user_value (VList l) <-> Forall user_value l.
Proof.
  split; [|induction 1; split; done].
  induction l as [|v l IH]; simpl; [constructor|]. intros [Hv Hl]. constructor; auto.
Qed.

Lemma strcmp_eq s t : cstr s -> cstr t -> strcmp s t = 0 <-> s = t.
Proof.
  intros Hs. revert t. induction Hs as [|c s Hc Hs IH]; intros t Ht; destruct Ht as [|d t Hd Ht];
    simpl; try done.
  - split; [lia|done].
  - split; [lia|done].
  - destruct (Z.eqb_spec c d) as [->|]; [|split; [lia|congruence]].
    rewrite IH by done. split; congruence.
Qed.

(** Float equality is structural equality up to the sign of zero. *)
Lemma SFeqb_spec f g :
  SFeqb f g = true <->
  f <> S754_nan /\ (f = g \/ (exists b c, f = S754_zero b /\ g = S754_zero c)).
Proof.
  assert (Hpos : forall m n : positive, (m ?= n)%positive = Eq <-> m = n)
    by (intros; apply Pos.compare_eq_iff).
  unfold SFeqb. destruct f as [b|b| |b m e], g as [c|c| |c n d]; cbn [SFcompare];
    change (Pos.compare_cont Eq ?x ?y) with (x ?= y)%positive;
    try destruct b, c; try (destruct (Z.compare_spec e d) as [->|?|?]);
    try (pose proof (Hpos m n); destruct (m ?= n)%positive); cbn;
    (split; [intros E; first [discriminate E | split; [done|]]
            |intros [? [?|(?&?&?&?)]]; simplify_eq; try done; try lia]);
    solve [eauto | left; f_equal; naive_solver | naive_solver].
Qed.

(** [same_value] is an equivalence on the values of MOO code. *)
Lemma same_value_refl cm v : user_value v -> same_value cm v v.
Proof.
  induction v as [n|o|s|e|l IH| | | | |f] using Var_rect'; intros Hv; try done;
    try (constructor; by destruct cm).
  - constructor. apply user_value_list in Hv.
    induction IH as [|v l Hh Ht IHl]; constructor; apply Forall_cons in Hv as [? ?]; auto.
  - constructor. apply SFeqb_spec. by auto.
Qed.

Lemma same_value_sym cm v w : same_value cm v w -> same_value cm w v.
Proof.
  revert w. induction v as [n|o|s|e|l IH| | | | |f] using Var_rect'; intros w Hw;
    inversion Hw as [| | |? ? E|? ? E|? ? HF]; subst; constructor; try done.
  - by destruct cm.
  - revert m HF Hw. induction IH as [|v l Hh Ht IHl]; intros m HF _;
      inversion HF; subst; constructor; auto. apply IHl; [done|by constructor].
  - apply SFeqb_spec in E as [Hn [<-|(b & c & -> & ->)]]; apply SFeqb_spec; eauto 10.
Qed.

Lemma same_value_trans cm v w x : same_value cm v w -> same_value cm w x -> same_value cm v x.
Proof.
  revert w x. induction v as [n|o|s|e|l IH| | | | |f] using Var_rect'; intros w x Hw Hx;
    inversion Hw as [| | |? ? E|? ? E|? ? HF]; subst;
    inversion Hx as [| | |? ? E'|? ? E'|? ? HF']; subst; constructor.
  - destruct cm; congruence.
  - clear Hw Hx. revert m m0 HF HF'. induction IH as [|v l Hh Ht IHl]; intros m k HF HF';
      inversion HF; subst; inversion HF'; subst; constructor; eauto.
  - apply SFeqb_spec in E as [Hn E]. apply SFeqb_spec in E' as [Hn' E']. apply SFeqb_spec.
    split; [done|].
    destruct E as [->|(b & c & -> & ->)]; [done|].
    destruct E' as [<-|(b' & c' & _ & ->)]; eauto 10.
Qed.

(** Comparison against the relation, one value at a time; the lists follow by
    induction. *)
Lemma equality_ptr_spec same cm v w :
  (forall l m, same l m = true -> l = m) -> user_value v -> user_value w ->
  exists b, equality_ptr same v w cm = Some b /\ (b = true <-> same_value cm v w).
Proof.
  intros Hsame. revert w.
  induction v as [n|o|s|e|l IH| | | | |f] using Var_rect'; intros w Hv Hw; try done;
    destruct w as [m|p|t|e'|m| | | | |g]; try done; cbn [equality_ptr do_equals];
    try (eexists; split; [reflexivity|]; split; [done | inversion 1; done]).
  - eexists; split; [done|]. rewrite Z.eqb_eq. split; [intros ->; constructor | by inversion 1].
  - eexists; split; [done|]. rewrite Z.eqb_eq. split; [intros ->; constructor | by inversion 1].
  - eexists; split; [done|]. destruct cm; rewrite Z.eqb_eq.
    + rewrite strcmp_eq by done. split; [intros ->; by constructor | by inversion 1].
    + rewrite mystrcasecmp_eq by done. split; [intros E; by constructor | by inversion 1].
  - eexists; split; [done|]. rewrite bool_decide_eq_true.
    split; [intros ->; constructor | by inversion 1].
  - apply user_value_list in Hv. apply user_value_list in Hw.
    destruct (Z.eqb_spec (Z.of_nat (length l)) (Z.of_nat (length m))) as [El|El]; cbn [negb].
    2: { eexists; split; [done|]. split; [done|]. inversion 1 as [| | | | |? ? HF].
         apply Forall2_length in HF. lia. }
    assert (Hgo : exists b, (fix go l m := match l, m with
            | v :: l, w :: m =>
                b ← equality_ptr same v w cm;
                if negb b then Some false else go l m
            | _, _ => Some true
            end) l m = Some b /\ (b = true <-> Forall2 (same_value cm) l m)).
    { clear -IH Hv Hw El. revert m Hw El.
      induction IH as [|v l Hhd Htl IHl]; intros [|w m] Hw El; try done.
      { exists true. by repeat constructor. }
      apply Forall_cons in Hv as [Hv1 Hv2]. apply Forall_cons in Hw as [Hw1 Hw2].
      destruct (Hhd w Hv1 Hw1) as (b & -> & Hb). simpl.
      destruct b; cbn [negb].
      - destruct (IHl Hv2 m Hw2) as (b' & -> & Hb'); [simpl in El; lia|].
        exists b'. split; [done|]. rewrite Forall2_cons, Hb'. split; [|by intros []].
        intros. split; [by apply Hb|done].
      - exists false. split; [done|]. split; [done|]. rewrite Forall2_cons.
        intros [H _]. apply Hb in H. done. }
    destruct Hgo as (b & Hb & Hb'). destruct (same l m) eqn:Es.
    + apply Hsame in Es as <-. exists true. split; [done|]. split; [|done]. intros _.
      by apply same_value_refl, user_value_list.
    + exists b. split; [done|]. rewrite Hb'. split; [by constructor|by inversion 1].
  - eexists; split; [done|]. split; [by constructor | by inversion 1].
Qed.

Lemma same_value_coarser cm v w : same_value true v w -> same_value cm v w.
Proof.
  revert w. induction v as [n|o|s|e|l IH| | | | |f] using Var_rect'; intros w Hw;
    inversion Hw as [| | |? ? E|? ? E|? ? HF]; subst; constructor; try done.
  - by destruct cm.
  - clear Hw. revert m HF. induction IH as [|v l Hh Ht IHl]; intros m HF;
      inversion HF; subst; constructor; eauto.
Qed.

Lemma same_value_is_true v w : same_value true v w -> is_true v = is_true w.
Proof.
  inversion 1 as [| | |s t E|f g E|l m HF]; subst; try done; cbn [is_true].
  - apply SFeqb_spec in E as [_ [->|(b & c & -> & ->)]]; done.
  - by rewrite (Forall2_length _ _ _ HF).
Qed.

Lemma int_add_l a b : int (int a + b) = int (a + b).
Proof. unfold int. apply swrap_add_l. lia. Qed.
Lemma int_add_r a b : int (a + int b) = int (a + b).
Proof. rewrite Z.add_comm, int_add_l. f_equal. lia. Qed.
Lemma int_id z : INT32_MIN <= z <= INT32_MAX -> int z = z.
Proof. intros. apply swrap_id; unfold INT32_MIN, INT32_MAX in *; lia. Qed.

Lemma sumZ_app l m : sumZ (l ++ m) = sumZ l + sumZ m.
Proof. induction l as [|x l IH]; cbn; [done|]. unfold sumZ in *. lia. Qed.

Lemma subvalues_list l : subvalues (VList l) = VList l :: concat (subvalues <$> l).
Proof. cbn [subvalues]. f_equal. induction l as [|v l IH]; [done|]. cbn. by rewrite IH. Qed.

Lemma exact_bytes_list l : exact_bytes (VList l) = 32 + sumZ (exact_bytes <$> l).
Proof.
  unfold exact_bytes at 1. rewrite subvalues_list, fmap_cons.
  cbn [own_bytes sumZ foldr]. change (foldr Z.add 0) with sumZ. f_equal.
  induction l as [|v l IH]; [done|]. cbn [fmap list_fmap concat].
  by rewrite fmap_app, sumZ_app, IH.
Qed.

Lemma value_bytes_eq v : value_bytes v = int (exact_bytes v).
Proof.
  induction v as [n|o|s|e|l IH| | | | |f] using Var_rect'; try done.
  - unfold exact_bytes. cbn -[int]. rewrite int_add_r. f_equal.
    unfold BQM_SIZEOF_Var, BQM_VAR, BQM_FOUR. lia.
  - rewrite exact_bytes_list. cbn [value_bytes].
    change (int (BQM_SIZEOF_Var + BQM_SIZEOF_Var)) with (int 32).
    generalize 32. induction IH as [|v l Hv Hl IHl]; intros z; cbn [fmap list_fmap sumZ foldr].
    { f_equal. lia. }
    rewrite Hv, int_add_r, int_add_l, IHl. f_equal. unfold sumZ. lia.
Qed.

Lemma exact_bytes_pos v : 16 <= exact_bytes v.
Proof.
  induction v as [n|o|s|e|l IH| | | | |f] using Var_rect'; try (cbn; lia).
  rewrite exact_bytes_list. induction IH as [|v l Hv Hl IHl]; cbn in *; unfold sumZ in *; lia.
Qed.

(** ** Properties *)

(** Comparing two MOO values never panics, whatever lists happen to share
    storage: the pointer shortcut changes no answer, and the answer is
    equality up to the case of strings (when case does not matter) and the
    sign of float zeros. *)
Theorem equality_correct (same : list Var -> list Var -> bool) (cm : bool) (v w : Var) :
  (forall l m, same l m = true -> l = m) -> user_value v -> user_value w ->
  exists b, equality_ptr same v w cm = Some b /\ equality v w cm = Some b /\
            (b = true <-> same_value cm v w).
Proof.
  intros Hs Hv Hw. destruct (equality_ptr_spec same cm v w) as (b & E & Hb); [done..|].
  destruct (equality_ptr_spec (fun _ _ => false) cm v w) as (b' & E' & Hb'); [done..|].
  exists b. split; [done|]. split; [|done]. unfold equality. rewrite E'. f_equal.
  apply eq_true_iff_eq. by rewrite Hb, Hb'.
Qed.

Example equality_correct_witness :
  let v := VList [VStr (BS "Ab"); VFloat (S754_zero true)] in
  let w := VList [VStr (BS "aB"); VFloat (S754_zero false)] in
  equality v w false = Some true /\
  exists b, equality_ptr (fun l m => bool_decide (l = m)) v w false = Some b /\
    equality v w false = Some b /\ (b = true <-> same_value false v w).
Proof.
  intros v w. split; [reflexivity|]. apply equality_correct.
  - intros l m H. by apply bool_decide_eq_true in H.
  - repeat constructor; done.
  - repeat constructor; done.
Defined.

(** Equality is an equivalence relation on MOO values, it is finer when
    case matters, and a value is true exactly if it is a non-zero number, a
    non-empty string or a non-empty list. *)
Theorem equality_equivalence (cm : bool) (u v w : Var) :
  user_value u -> user_value v -> user_value w ->
  equality v v cm = Some true /\
  (equality v w cm = Some true -> equality w v cm = Some true) /\
  (equality u v cm = Some true -> equality v w cm = Some true ->
   equality u w cm = Some true) /\
  (equality v w true = Some true -> equality v w cm = Some true /\ is_true v = is_true w).
Proof.
  intros Hu Hv Hw.
  assert (E : forall cm v w, user_value v -> user_value w ->
            equality v w cm = Some true <-> same_value cm v w).
  { clear. intros cm v w Hv Hw.
    destruct (equality_ptr_spec (fun _ _ => false) cm v w) as (b & E & Hb); [done..|].
    unfold equality. rewrite E, <- Hb. split; congruence. }
  rewrite !E by done. split; [by apply same_value_refl|].
  split; [apply same_value_sym|]. split; [apply same_value_trans|].
  intros H. split; [by apply same_value_coarser | by apply same_value_is_true].
Qed.

Example equality_equivalence_witness :
  let v := VStr (BS "Ab") in
  equality v v true = Some true /\
  (equality v v true = Some true -> equality v v true = Some true) /\
  (equality v v true = Some true -> equality v v true = Some true ->
   equality v v true = Some true) /\
  (equality v v true = Some true -> equality v v true = Some true /\ is_true v = is_true v).
Proof. intros v. apply equality_equivalence; repeat constructor; done. Defined.

(** [value_bytes] is the sum of the sizes of all the values inside a
    value, computed in an [int]: exact up to 2^31-1 bytes, modulo 2^32 beyond. *)
Theorem value_bytes_correct (v : Var) :
  value_bytes v = int (exact_bytes v) /\
  (exact_bytes v <= INT32_MAX -> value_bytes v = exact_bytes v /\ 0 < value_bytes v).
Proof.
  rewrite value_bytes_eq. split; [done|]. intros H. pose proof (exact_bytes_pos v).
  rewrite int_id; [lia|]. unfold INT32_MIN. lia.
Qed.

Example value_bytes_correct_witness :
  let v := VList [VStr (BS "abc"); VInt 7] in
  value_bytes v = 68 /\ exact_bytes v <= INT32_MAX /\
  value_bytes v = exact_bytes v /\ 0 < value_bytes v.
Proof.
  intros v. assert (H : exact_bytes v <= INT32_MAX) by (vm_compute; discriminate).
  split; [reflexivity|]. split; [exact H|]. by apply (value_bytes_correct v).
Defined.
