(* ===== verification/Streams.v ===== *)
(** * Growable output buffers (streams.c, streams.h)

    A [Stream] is a buffer of [buflen] bytes of which the first [current] are
    in use; here the used part is a byte list, so that [current] is its length.
    An operation that may raise [stream_too_big] answers [None] when it does.
    [allow_stream_exceptions] and [stream_alloc_maximum] are globals of the
    code and context of the section. *)

From S2P Require Import Prelude Utf.

(** ** Definitions *)

Record Stream := mkStream { s_data : bytes; s_buflen : Z }.

Definition current (s : Stream) : Z := Z.of_nat (length (s_data s)).

(** [NEXT_2_POWER], on a 64-bit [size_t]. *)
Definition smear (k v : Z) : Z := Z.lor v (Z.shiftr v k).
Definition NEXT_2_POWER (v : Z) : Z :=
  let v := smear 1 v in
  let v := smear 2 v in
  let v := smear 4 v in
  let v := smear 8 v in
  let v := smear 16 v in
  uwrap 64 (1 + smear 32 v).

Definition new_stream (size : Z) : Stream :=
  let size := Z.lor size 0x1f in
  mkStream [] (NEXT_2_POWER size).

Section Streams.
Context (allow_stream_exceptions : Z) (stream_alloc_maximum : Z).

(** The stream with room for [need] more bytes, and whether it was reallocated. *)
Definition grew (s : Stream) (need : Z) : option (Stream * bool) :=
  if uwrap 64 (current s + need) <? s_buflen s then Some (s, false)
  else
    let newlen := NEXT_2_POWER (uwrap 64 (current s + need)) in
    newlen ←
      (if 0 <? allow_stream_exceptions then
         if stream_alloc_maximum <? newlen then
           if uwrap 64 (current s + need) <? stream_alloc_maximum
           then Some stream_alloc_maximum else None
         else Some newlen
       else Some newlen);
    Some (mkStream (s_data s) newlen, true).

Definition stream_add_char (s : Stream) (c : Z) : option Stream :=
  '(s, _) ← grew s 1;
  Some (mkStream (s_data s ++ [c]) (s_buflen s)).

Definition stream_delete_char (s : Stream) : Stream :=
  if 0 <? current s then mkStream (removelast (s_data s)) (s_buflen s) else s.

(** The stream and the result of [put_utf]. *)
Definition stream_add_utf (s : Stream) (c : Z) : option (Stream * Z) :=
  '(s, _) ← grew s 4;
  match put_utf c with
  | Some b => Some (mkStream (s_data s ++ b) (s_buflen s), 0)
  | None => Some (s, -1)
  end.

(** [None] is a step back beyond the start of the buffer. *)
Definition stream_delete_utf (s : Stream) : option Stream :=
  if 0 <? current s then
    p ← utf_back (s_data s) (length (s_data s));
    Some (mkStream (take p (s_data s)) (s_buflen s))
  else Some s.

Definition stream_add_bytes (s : Stream) (b : bytes) : option Stream :=
  '(s, _) ← grew s (Z.of_nat (length b));
  Some (mkStream (s_data s ++ b) (s_buflen s)).

Definition stream_add_string (s : Stream) (string : bytes) : option Stream :=
  stream_add_bytes s string.

(** [vsnprintf]: what it stores in a buffer of [room] bytes (the terminating
    NUL apart) when the whole output is [out]. *)
Definition vsnprintf (room : Z) (out : bytes) : bytes := take (Z.to_nat (room - 1)) out.

(** [stream_printf], given the complete formatted output: the first attempt
    may be cut off, and is repeated after the buffer has grown. *)
Definition stream_printf (s : Stream) (out : bytes) : option Stream :=
  let first := vsnprintf (s_buflen s - current s) out in
  let len := Z.of_nat (length out) in
  '(s, again) ← grew s len;
  let stored := if again : bool then vsnprintf (s_buflen s - current s) out else first in
  Some (mkStream (s_data s ++ stored) (s_buflen s)).

(** The stream and the C string it held. *)
Definition reset_stream (s : Stream) : Stream * bytes := (mkStream [] (s_buflen s), s_data s).
Definition stream_contents (s : Stream) : bytes := s_data s.
Definition stream_length (s : Stream) : Z := current s.

(** [char] is signed. *)
Definition stream_last_byte (s : Stream) : Z :=
  match last (s_data s) with Some c => swrap 8 c | None => -1 end.

(** [stream_beginfill] answers the room it offers; [stream_endfill] takes what
    was written into it, and panics ([None]) if more is unused than there was. *)
Definition stream_beginfill (s : Stream) (need : Z) : option (Stream * Z) :=
  '(s, _) ← grew s need;
  Some (s, s_buflen s - current s - 1).

Definition stream_endfill (s : Stream) (written : bytes) (unused : Z) : option Stream :=
  if s_buflen s - current s <=? unused then None
  else let now := s_buflen s - 1 - unused in
       Some (mkStream (s_data s ++ take (Z.to_nat (now - current s)) written) (s_buflen s)).
End Streams.

(** ** Specification *)

(** There is always a byte left for the terminating NUL. *)
Definition stream_ok (s : Stream) : Prop := current s < s_buflen s.

(** The abstract stream: a byte list that must stay shorter than [max]. *)
Definition bounded_append (max : Z) (data b : bytes) (room : Z) : option bytes :=
  if Z.of_nat (length data) + room <? max then Some (data ++ b) else None.

(** ** Lemmas *)

(** [r] has a bit set exactly where [v] has one among the next [k] bits. *)
Definition smeared (k v r : Z) : Prop :=
  forall i, 0 <= i -> Z.testbit r i = true <-> exists j, i <= j < i + k /\ Z.testbit v j = true.

Lemma smeared_1 v : smeared 1 v v.
Proof.
  intros i Hi. split; [exists i; split; [lia|done]|].
  intros (j & ? & ?). by replace i with j by lia.
Qed.

Lemma smeared_step k v r : 0 <= k -> smeared k v r -> smeared (2 * k) v (smear k r).
Proof.
  intros Hk H i Hi. unfold smear.
  rewrite Z.lor_spec, Z.shiftr_spec, orb_true_iff, (H i), (H (i + k)) by lia. split.
  - intros [(j & ? & ?)|(j & ? & ?)]; exists j; (split; [lia|done]).
  - intros (j & Hj & ?). destruct (Z.lt_ge_cases j (i + k)); [left|right]; exists j; (split; [lia|done]).
Qed.

Lemma smear_log2 v r : 0 < v < 2 ^ 64 -> 0 <= r -> smeared 64 v r -> r = Z.ones (Z.log2 v + 1).
Proof.
  intros Hv Hr H. apply Z.bits_inj'. intros i Hi.
  apply eq_true_iff_eq. rewrite (H i Hi).
  assert (Z.log2 v < 64) by (apply Z.log2_lt_pow2; lia).
  pose proof (Z.log2_nonneg v). rewrite Z.testbit_ones_nonneg, Z.ltb_lt by lia. split.
  - intros (j & Hj & Hb). destruct (Z.lt_ge_cases (Z.log2 v) j) as [Hlt|]; [|lia].
    rewrite Z.bits_above_log2 in Hb by lia. done.
  - intros. exists (Z.log2 v). split; [lia|]. apply Z.bit_log2; lia.
Qed.

Lemma smear_nonneg k v : 0 <= v -> 0 <= smear k v.
Proof. intros. apply Z.lor_nonneg. split; [done|]. by apply Z.shiftr_nonneg. Qed.

Lemma NEXT_2_POWER_spec v : 0 < v < 2 ^ 63 -> NEXT_2_POWER v = 2 ^ (Z.log2 v + 1).
Proof.
  intros Hv. unfold NEXT_2_POWER. cbv zeta.
  match goal with |- uwrap 64 (1 + ?r) = _ => assert (Hr : r = Z.ones (Z.log2 v + 1)) end.
  { apply smear_log2; [lia| by repeat apply smear_nonneg; lia|].
    apply (smeared_step 32), (smeared_step 16), (smeared_step 8), (smeared_step 4),
      (smeared_step 2), (smeared_step 1), smeared_1; lia. }
  rewrite Hr, Z.ones_equiv. replace (1 + Z.pred (2 ^ (Z.log2 v + 1))) with (2 ^ (Z.log2 v + 1)) by lia.
  apply uwrap_id. assert (Z.log2 v < 63) by (apply Z.log2_lt_pow2; lia).
  pose proof (Z.log2_nonneg v). split; [lia|]. apply Z.pow_lt_mono_r; lia.
Qed.

Lemma NEXT_2_POWER_bounds v : 0 <= v < 2 ^ 62 -> v < NEXT_2_POWER v <= Z.max 1 (2 * v).
Proof.
  intros Hv. destruct (Z.eqb_spec v 0) as [->|]; [split; reflexivity || (vm_compute; done)|].
  rewrite NEXT_2_POWER_spec by lia. pose proof (Z.log2_spec v).
  rewrite Z.pow_succ_r in H by apply Z.log2_nonneg.
  rewrite Z.pow_add_r by (try apply Z.log2_nonneg; lia). lia.
Qed.

Section Spec.
Context (allow max : Z).

(** A stream whose length computations do not wrap. *)
Definition stream_wf (s : Stream) : Prop := stream_ok s /\ s_buflen s <= max.

Definition implements (r : option Stream) (a : option bytes) : Prop :=
  match r, a with
  | Some s, Some d => s_data s = d /\ stream_wf s
  | None, None => True
  | _, _ => False
  end.

Context (Hallow : 0 < allow) (Hmax : max < 2 ^ 61).

Lemma grew_spec s need : stream_wf s -> 0 <= need < 2 ^ 61 ->
  match grew allow max s need with
  | Some (s', _) => current s + need < max /\ s_data s' = s_data s /\
                    current s + need < s_buflen s' <= max
  | None => max <= current s + need
  end.
Proof.
  intros [Hok Hle] Hn. unfold stream_ok in Hok. unfold grew.
  assert (Hc : 0 <= current s) by (unfold current; lia).
  rewrite uwrap_id by lia.
  pose proof (NEXT_2_POWER_bounds (current s + need) ltac:(lia)).
  destruct (Z.ltb_spec (current s + need) (s_buflen s)); [simpl; split_and!; done || lia|].
  destruct (Z.ltb_spec 0 allow); [|lia].
  destruct (Z.ltb_spec max (NEXT_2_POWER (current s + need))); simpl; [|split_and!; try done; lia].
  destruct (Z.ltb_spec (current s + need) max); simpl; [split_and!; try done; lia|lia].
Qed.

Lemma add_spec s (b : bytes) need (f : Stream -> bytes) :
  stream_wf s -> Z.of_nat (length b) <= need < 2 ^ 61 ->
  (forall s' again, grew allow max s need = Some (s', again) -> s_data s' = s_data s ->
     current s + need < s_buflen s' -> f s' = b) ->
  implements ('(s, _) ← grew allow max s need; Some (mkStream (s_data s ++ f s) (s_buflen s)))
             (bounded_append max (s_data s) b need).
Proof.
  intros Hwf Hn Hf. pose proof (grew_spec s need Hwf ltac:(lia)) as Hg. unfold bounded_append.
  fold (current s). destruct (grew allow max s need) as [[s' again]|] eqn:E; simpl.
  - destruct Hg as (Hlt & Hd & Hb). destruct (Z.ltb_spec (current s + need) max); [|lia].
    rewrite (Hf s' again), Hd by (done || lia). split; [done|]. split; simpl; [|lia].
    unfold stream_ok, current. simpl. rewrite length_app. fold (current s).
    unfold current in *. lia.
  - by destruct (Z.ltb_spec (current s + need) max); [lia|].
Qed.

Lemma grew_same s s' need : grew allow max s need = Some (s', false) -> s' = s.
Proof.
  unfold grew. destruct (_ <? s_buflen s); [by intros [= ->]|].
  intros H. by apply bind_Some in H as (newlen & _ & [=]).
Qed.

Lemma printf_spec s (out : bytes) : stream_wf s -> Z.of_nat (length out) < 2 ^ 61 ->
  implements (stream_printf allow max s out)
             (bounded_append max (s_data s) out (Z.of_nat (length out))).
Proof.
  intros Hwf Hl. unfold stream_printf.
  pose proof (add_spec s out (Z.of_nat (length out)) (fun _ => out) Hwf ltac:(lia) ltac:(done)) as H.
  destruct (grew allow max s (Z.of_nat (length out))) as [[s' again]|] eqn:E; [|done].
  simpl in *. pose proof (grew_spec s _ Hwf (conj (Nat2Z.is_nonneg _) Hl)) as Hg.
  rewrite E in Hg. destruct Hg as (_ & Hd & Hb). unfold current in *. rewrite Hd in *.
  destruct again; unfold vsnprintf.
  - by rewrite (take_ge out) by lia.
  - apply grew_same in E as ->. by rewrite (take_ge out) by lia.
Qed.
End Spec.

Lemma encode_length_le c : (length (encode c) <= 4)%nat.
Proof. unfold encode, put_utf. repeat case_match; simpl; lia. Qed.

Lemma encode_put v : scalar v -> put_utf v = Some (encode v).
Proof.
  intros Hv. pose proof (encode_length_pos v Hv). unfold encode in *.
  destruct (put_utf v); [done|simpl in *; lia].
Qed.

Lemma new_stream_spec size : 0 <= size < 2 ^ 62 ->
  exists k, s_buflen (new_stream size) = 2 ^ k /\ 5 <= k /\ size < 2 ^ k /\
            (2 ^ (k - 1) <= size \/ k = 5) /\ stream_ok (new_stream size).
Proof.
  intros Hs. unfold new_stream, stream_ok, current. cbn [s_buflen s_data length].
  set (v := Z.lor size 31).
  assert (Hlog : Z.log2 v = Z.max (Z.log2 size) 4) by (unfold v; by rewrite Z.log2_lor by lia).
  assert (Hl2 : Z.log2 size < 62).
  { destruct (Z.eqb_spec size 0) as [->|]; [done|]. apply Z.log2_lt_pow2; lia. }
  assert (Hv : 0 < v).
  { assert (0 <= v) by (apply Z.lor_nonneg; lia). assert (v <> 0); [|lia].
    unfold v. rewrite Z.lor_eq_0_iff. lia. }
  assert (Hv' : v < 2 ^ 63) by (apply Z.log2_lt_pow2; lia).
  rewrite NEXT_2_POWER_spec by lia. exists (Z.log2 v + 1). split; [done|].
  rewrite Hlog. pose proof (Z.log2_nonneg size).
  assert (Hpos : size < 2 ^ (Z.max (Z.log2 size) 4 + 1)).
  { apply Z.lt_le_trans with (2 ^ (Z.log2 size + 1)).
    - destruct (Z.eqb_spec size 0) as [->|]; [done|]. rewrite Z.add_1_r. apply Z.log2_spec. lia.
    - apply Z.pow_le_mono_r; lia. }
  split_and!; [lia|done| |lia].
  destruct (Z.le_gt_cases (Z.log2 size) 4); [right; lia|left].
  replace (Z.max (Z.log2 size) 4 + 1 - 1) with (Z.log2 size) by lia.
  apply Z.log2_spec. destruct (Z.eqb_spec size 0) as [->|]; [|lia]. change (Z.log2 0) with 0 in *. lia.
Qed.

Lemma delete_utf_spec s v n : scalar v ->
  exists s'', stream_delete_utf (mkStream (s_data s ++ encode v) n) = Some s'' /\
              s_data s'' = s_data s.
Proof.
  intros Hv. destruct (encode_shape v Hv) as (c & t & -> & Hc & Hl & Ht).
  unfold stream_delete_utf, current. simpl. rewrite length_app. simpl.
  destruct (Z.ltb_spec 0 (Z.of_nat (length (s_data s) + S (length t)))); [|lia].
  pose proof (utf_back_cont (s_data s) c t [] Hl Ht) as E. rewrite app_nil_r in E. rewrite E.
  simpl. eexists. split; [done|]. simpl. by rewrite take_app_length.
Qed.

(** ** Properties *)

(** C35: a stream implements a byte list bounded by [stream_alloc_maximum]:
    adding text raises [stream_too_big] exactly if the text and its NUL would
    not fit in the maximum, otherwise it appends exactly that text (a [printf]
    cut off by a full buffer is completed), and no write passes the end of
    the buffer.  [stream_add_utf] asks for the room of four bytes whatever the
    character. *)
Theorem stream_refines (allow max : Z) (s : Stream) (b : bytes) (c : Z) :
  0 < allow -> max < 2 ^ 61 -> stream_wf max s -> Z.of_nat (length b) < 2 ^ 61 ->
  implements max (stream_add_bytes allow max s b)
    (bounded_append max (s_data s) b (Z.of_nat (length b))) /\
  implements max (stream_printf allow max s b)
    (bounded_append max (s_data s) b (Z.of_nat (length b))) /\
  implements max (stream_add_char allow max s c) (bounded_append max (s_data s) [c] 1) /\
  implements max (fst <$> stream_add_utf allow max s c)
    (bounded_append max (s_data s) (encode c) 4) /\
  (forall s' r, stream_add_utf allow max s c = Some (s', r) ->
     r = if put_utf c then 0 else -1).
Proof.
  intros Ha Hm Hwf Hb. split_and!.
  - apply (add_spec allow max Ha Hm s b _ (fun _ => b)); done || lia.
  - by apply printf_spec.
  - apply (add_spec allow max Ha Hm s [c] 1 (fun _ => [c])); done || (simpl; lia).
  - pose proof (add_spec allow max Ha Hm s (encode c) 4 (fun _ => encode c) Hwf
      ltac:(pose proof (encode_length_le c); lia) ltac:(done)) as H.
    unfold stream_add_utf. unfold encode in *.
    destruct (grew allow max s 4) as [[s' again]|]; simpl in *; [|done].
    destruct (put_utf c); simpl in *; [done|]. rewrite app_nil_r in H. by destruct s'.
  - intros s' r. unfold stream_add_utf. destruct (grew allow max s 4) as [[? ?]|]; [|done].
    simpl. destruct (put_utf c); by intros [= _ <-].
Qed.

Example stream_refines_witness :
  let s := new_stream 100 in
  (s_buflen s = 128 /\ stream_wf 1000 s) /\
  implements 1000 (stream_add_bytes 1 1000 s (BS "abc"))
    (bounded_append 1000 (s_data s) (BS "abc") (Z.of_nat (length (BS "abc")))) /\
  implements 1000 (stream_printf 1 1000 s (BS "abc"))
    (bounded_append 1000 (s_data s) (BS "abc") (Z.of_nat (length (BS "abc")))) /\
  implements 1000 (stream_add_char 1 1000 s 65) (bounded_append 1000 (s_data s) [65] 1) /\
  implements 1000 (fst <$> stream_add_utf 1 1000 s 65)
    (bounded_append 1000 (s_data s) (encode 65) 4) /\
  (forall s' r, stream_add_utf 1 1000 s 65 = Some (s', r) -> r = if put_utf 65 then 0 else -1).
Proof.
  intros s. assert (H : stream_wf 1000 s) by (split; vm_compute; done).
  split; [split; [reflexivity|done]|].
  apply (stream_refines 1 1000 s (BS "abc") 65); [lia|lia|done|vm_compute; done].
Defined.

(** Buffers are sized as promised.  A new stream has the smallest power
    of two above its size (and at least 32) and room for a NUL; a fill
    offers at least the room asked for, and ending it with at most that much
    unused appends exactly the bytes written; deleting a character undoes
    appending it. *)
Theorem stream_buffers_correct (allow max size need : Z) (s : Stream) (written : bytes) (v : Z) :
  0 < allow -> max < 2 ^ 61 -> stream_wf max s -> 0 <= size < 2 ^ 62 -> 0 <= need < 2 ^ 61 ->
  scalar v ->
  (exists k, s_buflen (new_stream size) = 2 ^ k /\ 5 <= k /\ size < 2 ^ k /\
             (2 ^ (k - 1) <= size \/ k = 5) /\ stream_ok (new_stream size)) /\
  (forall s' room, stream_beginfill allow max s need = Some (s', room) ->
     need <= room /\ s_data s' = s_data s /\
     (Z.of_nat (length written) <= room ->
      exists s'', stream_endfill s' written (room - Z.of_nat (length written)) = Some s'' /\
                  s_data s'' = s_data s ++ written /\ stream_wf max s'')) /\
  (forall s', stream_add_utf allow max s v = Some (s', 0) ->
     exists s'', stream_delete_utf s' = Some s'' /\ s_data s'' = s_data s).
Proof.
  intros Ha Hm Hwf Hsize Hneed Hv. split; [|split].
  - apply new_stream_spec; lia.
  - intros s' room. unfold stream_beginfill. pose proof (grew_spec allow max Ha Hm s need Hwf Hneed) as Hg.
    destruct (grew allow max s need) as [[s1 again]|]; [|done]. intros [= <- <-]. simpl.
    destruct Hg as (Hlt & Hd & Hb). unfold current in *. rewrite Hd in *.
    split; [lia|]. split; [done|]. intros Hw. unfold stream_endfill, current. rewrite Hd.
    destruct (Z.leb_spec (s_buflen s1 - Z.of_nat (length (s_data s)))
      (s_buflen s1 - Z.of_nat (length (s_data s)) - 1 - Z.of_nat (length written))); [lia|].
    eexists. split; [done|]. simpl. rewrite (take_ge written) by lia.
    split; [done|]. split; simpl; [|lia]. unfold stream_ok, current. simpl.
    rewrite length_app. lia.
  - intros s'. unfold stream_add_utf. pose proof (grew_spec allow max Ha Hm s 4 Hwf ltac:(lia)) as Hg.
    destruct (grew allow max s 4) as [[s1 again]|]; [|done]. simpl.
    destruct Hg as (_ & Hd & _). rewrite Hd. pose proof (encode_put v Hv) as ->.
    intros [= <-]. by apply delete_utf_spec.
Qed.

Example stream_buffers_correct_witness :
  let s := new_stream 100 in
  (exists k, s_buflen (new_stream 100) = 2 ^ k /\ 5 <= k /\ 100 < 2 ^ k /\
             (2 ^ (k - 1) <= 100 \/ k = 5) /\ stream_ok (new_stream 100)) /\
  (forall s' room, stream_beginfill 1 1000 s 200 = Some (s', room) ->
     200 <= room /\ s_data s' = s_data s /\
     (Z.of_nat (length (BS "abc")) <= room ->
      exists s'', stream_endfill s' (BS "abc") (room - Z.of_nat (length (BS "abc"))) = Some s'' /\
                  s_data s'' = s_data s ++ BS "abc" /\ stream_wf 1000 s'')) /\
  (forall s', stream_add_utf 1 1000 s 233 = Some (s', 0) ->
     exists s'', stream_delete_utf s' = Some s'' /\ s_data s'' = s_data s).
Proof.
  intros s. apply (stream_buffers_correct 1 1000 100 200 s (BS "abc") 233); try lia.
  - split; vm_compute; done.
  - split; [lia|]. lia.
Defined.
