(* ===== verification/Functions.v ===== *)
(** * Built-in functions: registration and calling (functions.c, functions.h)

    A built-in answers a [package].  The pointers a package carries for
    resumption (a call's data, a suspension's procedure) are opaque handles. *)

From S2P Require Import Prelude Utf CString Values.

(** ** Definitions *)

Inductive abort_reason := ABORT_KILL | ABORT_SECONDS | ABORT_TICKS.

Inductive package :=
| BI_RETURN (ret : Var)
| BI_RAISE (code : Var) (msg : bytes) (value : Var)
| BI_CALL (pc : Z) (data : Z)
| BI_SUSPEND (proc data : Z)
| BI_ABORT (why : abort_reason).

Definition zero : Var := VInt 0.

Definition make_abort_pack (reason : abort_reason) : package := BI_ABORT reason.
Definition make_raise_pack (err : error) (msg : bytes) (value : Var) : package :=
  BI_RAISE (VErr err) msg value.
Definition make_error_pack (err : error) : package :=
  make_raise_pack err (unparse_error err) zero.
Definition make_var_pack (v : Var) : package := BI_RETURN v.
Definition no_var_pack : package := make_var_pack zero.
Definition make_int_pack (v : Z) : package := BI_RETURN (VInt v).
Definition make_string_pack (s : bytes) : package := BI_RETURN (VStr s).
Definition make_call_pack (pc data : Z) : package := BI_CALL pc data.
Definition tail_call_pack : package := make_call_pack 0 0.
Definition make_suspend_pack (proc data : Z) : package := BI_SUSPEND proc data.

(** [make_space_pack]; the flag is the cached option [max_concat_catchable]. *)
Definition make_space_pack (catchable : bool) : package :=
  if catchable then make_error_pack E_QUOTA else make_abort_pack ABORT_SECONDS.

(** The types of built-ins: argument list, program counter, data, programmer. *)
Definition bf_type : Type := list Var -> Z -> Z -> Z -> package.

Record bft_entry := mkBft {
  bf_name : bytes;
  bf_protect_str : bytes;
  bf_verb_str : bytes;
  bf_minargs : Z;
  bf_maxargs : Z;
  bf_prototype : list var_type;
  bf_func : bf_type;
  bf_protected : bool
}.

Definition MAX_FUNC : Z := 256.
Definition FUNC_NOT_FOUND : Z := MAX_FUNC.

(** [bf_table], of which [top_bf_table] entries are in use: a list. *)
Abbreviation bf_table := (list bft_entry).
Definition top_bf_table (t : bf_table) : Z := Z.of_nat (length t).

(** [args] are the variable arguments: [None] if there are fewer than the
    code fetches. *)
Definition register_common (t : bf_table) (name : bytes) (minargs maxargs : Z)
    (func : bf_type) (args : list var_type) : option (bf_table * Z) :=
  let num_arg_types := if maxargs =? -1 then minargs else maxargs in
  if top_bf_table t =? MAX_FUNC then Some (t, 0)
  else if Z.of_nat (length args) <? num_arg_types then None
  else Some (t ++ [mkBft name (BS "protect_" ++ name) (BS "bf_" ++ name) minargs maxargs
                     (take (Z.to_nat num_arg_types) args) func false],
             top_bf_table t).

Definition func_not_found_msg : bytes := BS "no such function".

Definition name_func_by_num (t : bf_table) (n : Z) : bytes :=
  match t !! Z.to_nat n with Some e => bf_name e | None => func_not_found_msg end.

Fixpoint find_func (t : bf_table) (name : bytes) (i : Z) : Z :=
  match t with
  | [] => FUNC_NOT_FOUND
  | e :: t => if mystrcasecmp name (bf_name e) =? 0 then i else find_func t name (i + 1)
  end.
Definition number_func_by_name (t : bf_table) (name : bytes) : Z := find_func t name 0.

Definition proto_matches (proto arg : var_type) : bool :=
  bool_decide (proto = TYPE_ANY)
  || (bool_decide (proto = TYPE_NUMERIC)
      && (bool_decide (arg = TYPE_INT) || bool_decide (arg = TYPE_FLOAT)))
  || bool_decide (proto = arg).

(** The loop over the first [max] arguments: [None] is an access outside the
    prototype or the arguments, [Some false] a mismatch. *)
Fixpoint check_types (max : nat) (protos : list var_type) (args : list Var) : option bool :=
  match max with
  | O => Some true
  | S max =>
      match protos, args with
      | p :: protos, a :: args =>
          if proto_matches p (type_of a) then check_types max protos args else Some false
      | _, _ => None
      end
  end.

(** The data that marks the return from a #0:bf_NAME() call. *)
Definition call_bi_func_data : Z := 1.

(** [call_bi_func].  [caller] is the object calling, [wizard] whether the
    programmer is a wizard, and [verb_call] the outcome of calling
    #0:bf_NAME() (execute.c), which happens only for a protected function. *)
Definition call_bi_func (t : bf_table) (caller : Z) (wizard : bool) (verb_call : bytes -> error)
    (n : Z) (arglist : list Var) (func_pc progr vdata : Z) : option package :=
  match t !! Z.to_nat n with
  | None => Some no_var_pack
  | Some f =>
      let nargs := Z.of_nat (length arglist) in
      let run := Some (bf_func f arglist func_pc vdata progr) in
      if func_pc =? 1 then
        let checked :=
          if (nargs <? bf_minargs f) || (negb (bf_maxargs f =? -1) && (bf_maxargs f <? nargs))
          then Some (make_error_pack E_ARGS)
          else
            let max := if bf_maxargs f =? -1 then bf_minargs f else nargs in
            ok ← check_types (Z.to_nat max) (bf_prototype f) arglist;
            if ok : bool then run else Some (make_error_pack E_TYPE) in
        if negb (caller =? SYSTEM_OBJECT) && bf_protected f then
          let e := verb_call (bf_verb_str f) in
          if bool_decide (e = E_NONE) then Some tail_call_pack
          else if bool_decide (e = E_MAXREC) || negb wizard
          then Some (make_error_pack (if bool_decide (e = E_MAXREC) then e else E_PERM))
          else checked
        else checked
      else if (func_pc =? 2) && (vdata =? call_bi_func_data)
      then Some (make_var_pack (VList arglist))
      else run
  end.

Definition function_description (f : bft_entry) : Var :=
  VList [VStr (bf_name f); VInt (bf_minargs f); VInt (bf_maxargs f);
         VList ((fun p => VInt (let v := var_type_value p in
                               if v <? 0 then v else Z.land v TYPE_DB_MASK))
                <$> bf_prototype f)].

(** [arglist] was checked against the prototype (0 to 1 arguments, a string);
    [None] is a read of an argument that is not there. *)
Definition bf_function_info (t : bf_table) (arglist : list Var) : option package :=
  if Z.of_nat (length arglist) =? 1 then
    match arglist with
    | VStr s :: _ =>
        let i := number_func_by_name t s in
        if i =? FUNC_NOT_FOUND then Some (make_error_pack E_INVARG)
        else f ← t !! Z.to_nat i; Some (make_var_pack (function_description f))
    | _ => None
    end
  else Some (make_var_pack (VList (function_description <$> t))).

(** *** Server options

    [get] is [get_server_option(SYSTEM_OBJECT, ...)] (server.c), the lookup of
    a property of $server_options. *)
Section Options.
Context (get : bytes -> option Var).

Definition server_flag_option (name : bytes) (defallt : bool) : bool :=
  match get name with Some v => is_true v | None => defallt end.

Definition server_int_option (name : bytes) (defallt : Z) : Z :=
  match get name with
  | Some (VInt n) => n
  | Some _ => defallt
  | None => defallt
  end.

Definition load_server_protect_function_flags (t : bf_table) : bf_table :=
  (fun f => mkBft (bf_name f) (bf_protect_str f) (bf_verb_str f) (bf_minargs f) (bf_maxargs f)
              (bf_prototype f) (bf_func f) (server_flag_option (bf_protect_str f) false)) <$> t.

(** Configured limits (options.ac) and hard limits (structures.h). *)
Definition MIN_LIST_CONCAT_LIMIT : Z := 1022.
Definition MIN_STRING_CONCAT_LIMIT : Z := 1015.
Definition DEFAULT_MAX_LIST_CONCAT : Z := 4194302.
Definition DEFAULT_MAX_STRING_CONCAT : Z := 33554423.
Definition sizeof_Var : Z := 16.
Definition MAX_LIST : Z := INT32_MAX / sizeof_Var - 2.
Definition MAX_STRING : Z := INT32_MAX - 9.

Definition canonical_list_concat (value : Z) : Z :=
  if (0 <? value) && (value <? MIN_LIST_CONCAT_LIMIT) then MIN_LIST_CONCAT_LIMIT
  else if (value <=? 0) || (MAX_LIST <? value) then MAX_LIST
  else value.

Definition canonical_string_concat (value : Z) : Z :=
  if (0 <? value) && (value <? MIN_STRING_CONCAT_LIMIT) then MIN_STRING_CONCAT_LIMIT
  else if (value <=? 0) || (MAX_STRING <? value) then MAX_STRING
  else value.

(** The names of the built-in properties, in the order of their numbers. *)
Definition BUILTIN_PROPERTIES : list bytes :=
  [BS "name"; BS "owner"; BS "programmer"; BS "wizard"; BS "r"; BS "w"; BS "f";
   BS "location"; BS "contents"].

(** [_server_int_option_cache] and the stream limit that is set with it. *)
Record option_cache := mkCache {
  SVO_PROTECT : list bool;
  SVO_MAX_LIST_CONCAT : Z;
  SVO_MAX_STRING_CONCAT : Z;
  SVO_MAX_CONCAT_CATCHABLE : bool;
  stream_alloc_maximum : Z
}.

Definition load_server_options (t : bf_table) : bf_table * option_cache :=
  let t := load_server_protect_function_flags t in
  let protect := (fun p => server_flag_option (BS "protect_" ++ p) false) <$> BUILTIN_PROPERTIES in
  let lists := canonical_list_concat
                 (server_int_option (BS "max_list_concat") DEFAULT_MAX_LIST_CONCAT) in
  let strings := canonical_string_concat
                   (server_int_option (BS "max_string_concat") DEFAULT_MAX_STRING_CONCAT) in
  (t, mkCache protect lists strings (server_flag_option (BS "max_concat_catchable") false)
        (strings + 1)).
End Options.

(** ** Specification *)

(** What registration establishes for an entry: the prototype has a type for
    every argument that will be checked. *)
Definition wf_entry (f : bft_entry) : Prop :=
  0 <= bf_minargs f /\
  (if bf_maxargs f =? -1 then Z.of_nat (length (bf_prototype f)) = bf_minargs f
   else bf_minargs f <= bf_maxargs f /\ Z.of_nat (length (bf_prototype f)) = bf_maxargs f).

Definition count_accepted (f : bft_entry) (args : list Var) : Prop :=
  bf_minargs f <= Z.of_nat (length args) /\
  (bf_maxargs f = -1 \/ Z.of_nat (length args) <= bf_maxargs f).

(** Every argument with a prototype matches it. *)
Definition types_accepted (protos : list var_type) (args : list Var) : Prop :=
  forall k p a, protos !! k = Some p -> args !! k = Some a -> proto_matches p (type_of a) = true.

(** ** Lemmas *)

Lemma types_accepted_cons p protos a args :
  types_accepted (p :: protos) (a :: args) <->
  proto_matches p (type_of a) = true /\ types_accepted protos args.
Proof.
  split.
  - intros H. split; [by apply (H 0%nat)|]. intros k p' a' Hp Ha. by apply (H (S k)).
  - intros [H H'] [|k] p' a' Hp Ha; simpl in *; [congruence|]. by apply (H' k).
Qed.

Lemma check_types_spec max protos args :
  (max <= length protos)%nat -> (max <= length args)%nat ->
  (length protos <= max \/ length args <= max)%nat ->
  exists b, check_types max protos args = Some b /\ (b = true <-> types_accepted protos args).
Proof.
  revert protos args. induction max as [|max IH]; intros protos args Hp Ha Hor.
  - exists true. split; [done|]. split; [|done]. intros _ k p a Hk Hk'.
    apply lookup_lt_Some in Hk, Hk'. lia.
  - destruct protos as [|p protos], args as [|a args]; simpl in *; try lia.
    setoid_rewrite types_accepted_cons. destruct (proto_matches p (type_of a)).
    + destruct (IH protos args) as (b & -> & Hb); [lia..|]. exists b. rewrite Hb.
      split; [done|]. split; [done|by intros []].
    + exists false. split; [done|]. split; [done|by intros []].
Qed.

Lemma count_accepted_spec f args : wf_entry f ->
  ((Z.of_nat (length args) <? bf_minargs f)
   || (negb (bf_maxargs f =? -1) && (bf_maxargs f <? Z.of_nat (length args)))) = false
  <-> count_accepted f args.
Proof.
  intros _. unfold count_accepted.
  rewrite orb_false_iff, andb_false_iff, negb_false_iff, Z.ltb_ge, Z.ltb_ge, Z.eqb_eq. done.
Qed.

Lemma find_func_fresh t name i : i + Z.of_nat (length t) <= MAX_FUNC ->
  (forall e, e ∈ t -> mystrcasecmp name (bf_name e) <> 0) ->
  find_func t name i = FUNC_NOT_FOUND.
Proof.
  revert i. induction t as [|e t IH]; intros i Hi H; simpl in *; [done|].
  destruct (Z.eqb_spec (mystrcasecmp name (bf_name e)) 0) as [E|_].
  - by destruct (H e); [left|].
  - apply IH; [lia|]. intros e' He'. apply H. by right.
Qed.

Lemma find_func_app t t' name i :
  (forall e, e ∈ t -> mystrcasecmp name (bf_name e) <> 0) ->
  find_func (t ++ t') name i = find_func t' name (i + Z.of_nat (length t)).
Proof.
  revert i. induction t as [|e t IH]; intros i H; simpl; [f_equal; lia|].
  destruct (Z.eqb_spec (mystrcasecmp name (bf_name e)) 0) as [E|_].
  - by destruct (H e); [left|].
  - rewrite IH; [f_equal; lia|]. intros e' He'. apply H. by right.
Qed.

Lemma canonical_bounds v :
  MIN_LIST_CONCAT_LIMIT <= canonical_list_concat v <= MAX_LIST /\
  MIN_STRING_CONCAT_LIMIT <= canonical_string_concat v <= MAX_STRING.
Proof.
  unfold canonical_list_concat, canonical_string_concat, MIN_LIST_CONCAT_LIMIT, MAX_LIST,
    MIN_STRING_CONCAT_LIMIT, MAX_STRING, INT32_MAX, sizeof_Var.
  change ((2 ^ 31 - 1) / 16) with 134217727. split; repeat btestc.
Qed.

(** ** Properties *)

(** C36: the call gate of built-ins.  On first entry of an unprotected
    function (or from #0), the function runs exactly if the number of
    arguments is within its bounds and every argument matches its prototype;
    otherwise the call raises E_ARGS, or E_TYPE if only a type is wrong.  A
    protected function runs only after #0:bf_NAME() has failed for a wizard
    with an error other than E_MAXREC. *)
Theorem call_bi_func_checked (t : bf_table) (f : bft_entry) (caller : Z) (wizard : bool)
    (verb_call : bytes -> error) (n progr vdata : Z) (args : list Var) :
  t !! Z.to_nat n = Some f -> wf_entry f ->
  let call := call_bi_func t caller wizard verb_call n args 1 progr vdata in
  let e := verb_call (bf_verb_str f) in
  (caller = SYSTEM_OBJECT \/ bf_protected f = false ->
     (count_accepted f args -> types_accepted (bf_prototype f) args ->
        call = Some (bf_func f args 1 vdata progr)) /\
     (~ count_accepted f args -> call = Some (make_error_pack E_ARGS)) /\
     (count_accepted f args -> ~ types_accepted (bf_prototype f) args ->
        call = Some (make_error_pack E_TYPE))) /\
  (caller <> SYSTEM_OBJECT -> bf_protected f = true ->
     (e = E_NONE -> call = Some tail_call_pack) /\
     (e = E_MAXREC -> call = Some (make_error_pack E_MAXREC)) /\
     (e <> E_NONE -> e <> E_MAXREC -> wizard = false -> call = Some (make_error_pack E_PERM)) /\
     (e <> E_NONE -> e <> E_MAXREC -> wizard = true ->
        call = call_bi_func t SYSTEM_OBJECT wizard verb_call n args 1 progr vdata)).
Proof.
  intros Hf Hwf call e. subst call. unfold call_bi_func. rewrite Hf. cbn [Z.eqb Pos.eqb].
  change (SYSTEM_OBJECT =? SYSTEM_OBJECT) with true. cbn [negb andb]. fold e.
  split.
  - intros Hprot. replace (negb (caller =? SYSTEM_OBJECT) && bf_protected f) with false
      by (destruct Hprot as [-> | ->]; [done|by rewrite andb_false_r]).
    pose proof (count_accepted_spec f args Hwf) as Hc. cbv zeta.
    destruct ((_ <? _) || _) eqn:Ec.
    { split_and!; [|done|]; intros H%Hc; done. }
    apply proj1 in Hc. specialize (Hc eq_refl) as Hcount. destruct Hwf as [Hmin Hproto].
    destruct (check_types_spec (Z.to_nat (if bf_maxargs f =? -1 then bf_minargs f
      else Z.of_nat (length args))) (bf_prototype f) args) as (b & -> & Hb);
      [destruct Hcount; destruct (Z.eqb_spec (bf_maxargs f) (-1)); lia..|].
    simpl. destruct b.
    + split_and!; [done|done|]. intros _ []. by apply Hb.
    + split_and!; [|done|done]. intros _ H%Hb. done.
  - intros Hcaller Hprot. destruct (Z.eqb_spec caller SYSTEM_OBJECT); [done|].
    rewrite Hprot. cbn [negb andb]. split_and!.
    + by intros ->.
    + by intros ->.
    + intros ? ? ->. by repeat case_bool_decide.
    + intros ? ? ->. by repeat case_bool_decide.
Qed.

Example call_bi_func_checked_witness :
  let f := mkBft (BS "length") (BS "protect_length") (BS "bf_length") 1 1 [TYPE_ANY]
             (fun args _ _ _ => make_int_pack (Z.of_nat (length args))) false in
  let e := E_VERBNF in
  let call := call_bi_func [f] 2 false (fun _ => e) 0 [VInt 7] 1 2 0 in
  call = Some (BI_RETURN (VInt 1)) /\
  (2 = SYSTEM_OBJECT \/ bf_protected f = false ->
     (count_accepted f [VInt 7] -> types_accepted (bf_prototype f) [VInt 7] ->
        call = Some (bf_func f [VInt 7] 1 0 2)) /\
     (~ count_accepted f [VInt 7] -> call = Some (make_error_pack E_ARGS)) /\
     (count_accepted f [VInt 7] -> ~ types_accepted (bf_prototype f) [VInt 7] ->
        call = Some (make_error_pack E_TYPE))) /\
  (2 <> SYSTEM_OBJECT -> bf_protected f = true ->
     (e = E_NONE -> call = Some tail_call_pack) /\
     (e = E_MAXREC -> call = Some (make_error_pack E_MAXREC)) /\
     (e <> E_NONE -> e <> E_MAXREC -> false = false -> call = Some (make_error_pack E_PERM)) /\
     (e <> E_NONE -> e <> E_MAXREC -> false = true ->
        call = call_bi_func [f] SYSTEM_OBJECT false (fun _ => e) 0 [VInt 7] 1 2 0)).
Proof.
  intros f e call. split; [reflexivity|].
  apply (call_bi_func_checked [f] f 2 false (fun _ => e) 0 2 0 [VInt 7]); [reflexivity|].
  split; [simpl; lia|]. simpl. lia.
Defined.

(** Registration.  While the table has room, registering a function with
    a new name adds a well-formed entry that is found by its name (in any
    case) and by the number returned, and leaves the others as they were;
    a full table is left alone and 0 is returned. *)
Theorem register_common_correct (t : bf_table) (name word : bytes) (minargs maxargs : Z)
    (func : bf_type) (types : list var_type) :
  Forall wf_entry t -> cstr name -> cstr word -> casefold word = casefold name ->
  (forall e, e ∈ t -> mystrcasecmp word (bf_name e) <> 0) ->
  0 <= minargs -> (maxargs = -1 \/ minargs <= maxargs) ->
  Z.of_nat (length types) = (if maxargs =? -1 then minargs else maxargs) ->
  top_bf_table t <= MAX_FUNC ->
  exists t' n, register_common t name minargs maxargs func types = Some (t', n) /\
    Forall wf_entry t' /\
    (top_bf_table t < MAX_FUNC ->
       n = top_bf_table t /\ (exists e, t' = t ++ [e] /\ bf_func e = func) /\
       number_func_by_name t' word = n /\ name_func_by_num t' n = name) /\
    (top_bf_table t = MAX_FUNC -> t' = t /\ n = 0 /\ number_func_by_name t' word = FUNC_NOT_FOUND).
Proof.
  intros Hwf Hname Hword Hfold Hfresh Hmin Hmax Hlen Htop. unfold register_common.
  destruct (Z.eqb_spec (top_bf_table t) MAX_FUNC) as [E|E].
  { do 2 eexists. split; [done|]. split; [done|]. split; [lia|]. intros _. split_and!; try done.
    apply find_func_fresh; [unfold top_bf_table in *; lia|done]. }
  rewrite Hlen. rewrite Z.ltb_irrefl.
  do 2 eexists. split; [reflexivity|]. split; [|split; [intros _|lia]].
  { apply Forall_app. split; [done|]. constructor; [|done]. split; [done|]. simpl.
    rewrite take_ge by lia. destruct (Z.eqb_spec maxargs (-1)); [done|]. split; [lia|done]. }
  split; [done|]. split; [by eexists|]. split.
  - unfold number_func_by_name. rewrite find_func_app by done. simpl.
    replace (mystrcasecmp word name =? 0) with true; [done|].
    symmetry. apply Z.eqb_eq. by apply mystrcasecmp_eq.
  - unfold name_func_by_num, top_bf_table. rewrite Nat2Z.id, lookup_snoc_last. done.
Qed.

Example register_common_correct_witness :
  let func : bf_type := fun _ _ _ _ => no_var_pack in
  exists t' n, register_common [] (BS "length") 1 1 func [TYPE_ANY] = Some (t', n) /\
    Forall wf_entry t' /\
    (top_bf_table [] < MAX_FUNC ->
       n = top_bf_table [] /\ (exists e, t' = [] ++ [e] /\ bf_func e = func) /\
       number_func_by_name t' (BS "LENGTH") = n /\ name_func_by_num t' n = BS "length") /\
    (top_bf_table [] = MAX_FUNC ->
       t' = [] /\ n = 0 /\ number_func_by_name t' (BS "LENGTH") = FUNC_NOT_FOUND).
Proof.
  intros func. apply (register_common_correct [] (BS "length") (BS "LENGTH") 1 1 func [TYPE_ANY]).
  - constructor.
  - repeat constructor.
  - repeat constructor.
  - reflexivity.
  - intros e He. inversion He.
  - lia.
  - right. lia.
  - reflexivity.
  - unfold top_bf_table, MAX_FUNC. simpl. lia.
Defined.

(** Whatever values $server_options holds, the cached limits lie between
    their configured minimum and the hard maximum, so lists and strings never
    reach the size at which an allocation overflows, and the limit of a stream
    is one more than that of a string. *)
Theorem load_server_options_bounds (get : bytes -> option Var) (t t' : bf_table)
    (c : option_cache) :
  load_server_options get t = (t', c) ->
  MIN_LIST_CONCAT_LIMIT <= SVO_MAX_LIST_CONCAT c <= MAX_LIST /\
  (SVO_MAX_LIST_CONCAT c + 1) * sizeof_Var < 2 ^ 31 /\
  MIN_STRING_CONCAT_LIMIT <= SVO_MAX_STRING_CONCAT c <= MAX_STRING /\
  stream_alloc_maximum c = SVO_MAX_STRING_CONCAT c + 1 /\
  length (SVO_PROTECT c) = length BUILTIN_PROPERTIES /\
  (forall n f, t' !! n = Some f -> exists f0, t !! n = Some f0 /\ bf_func f = bf_func f0 /\
     (wf_entry f0 -> wf_entry f) /\
     bf_protected f = match get (bf_protect_str f0) with Some v => is_true v | None => false end).
Proof.
  unfold load_server_options. intros E. apply pair_eq in E as [<- <-].
  cbn [SVO_MAX_LIST_CONCAT SVO_MAX_STRING_CONCAT stream_alloc_maximum SVO_PROTECT].
  pose proof (canonical_bounds (server_int_option get (BS "max_list_concat") DEFAULT_MAX_LIST_CONCAT))
    as [H1 _].
  pose proof (canonical_bounds (server_int_option get (BS "max_string_concat")
    DEFAULT_MAX_STRING_CONCAT)) as [_ H2].
  split_and!; try done; try lia.
  - unfold MAX_LIST, sizeof_Var, INT32_MAX in *. change ((2 ^ 31 - 1) / 16) with 134217727 in *. lia.
  - intros n f. unfold load_server_protect_function_flags. rewrite list_lookup_fmap.
    intros (f0 & Hf0 & ->)%fmap_Some. exists f0. by split_and!.
Qed.

Example load_server_options_bounds_witness :
  let get : bytes -> option Var :=
    fun n => if bool_decide (n = BS "max_list_concat") then Some (VInt 5) else None in
  let t' := fst (load_server_options get []) in
  let c := snd (load_server_options get []) in
  SVO_MAX_LIST_CONCAT c = 1022 /\
  MIN_LIST_CONCAT_LIMIT <= SVO_MAX_LIST_CONCAT c <= MAX_LIST /\
  (SVO_MAX_LIST_CONCAT c + 1) * sizeof_Var < 2 ^ 31 /\
  MIN_STRING_CONCAT_LIMIT <= SVO_MAX_STRING_CONCAT c <= MAX_STRING /\
  stream_alloc_maximum c = SVO_MAX_STRING_CONCAT c + 1 /\
  length (SVO_PROTECT c) = length BUILTIN_PROPERTIES /\
  (forall n f, t' !! n = Some f -> exists f0, ([] : bf_table) !! n = Some f0 /\
     bf_func f = bf_func f0 /\ (wf_entry f0 -> wf_entry f) /\
     bf_protected f = match get (bf_protect_str f0) with Some v => is_true v | None => false end).
Proof.
  intros get t' c. split; [reflexivity|].
  apply (load_server_options_bounds get [] t' c). reflexivity.
Defined.
