(* ===== verification/Lists.v ===== *)
(** * Lists and strings as values (list.c)

    The list operations work on arrays: element 0 holds the length and the
    elements are numbered from 1.  An array being filled is a list of
    [option Var], [None] standing for an element not yet assigned; a read or
    write outside an array, and a list handed on with unassigned elements, is
    [None].  The built-ins take the argument list that [call_bi_func] has
    checked; for them [None] is a panic or an invalid access. *)

From Stdlib Require Import Floats.SpecFloat.
From S2P Require Import Prelude Utf CString Values Streams Functions.

(** ** Array primitives *)

Abbreviation arr := (list (option Var)).

Definition llen (l : list Var) : Z := Z.of_nat (length l).

(** Reading and writing element [i], numbered from 1. *)
Definition aread (l : list Var) (i : Z) : option Var :=
  if 1 <=? i then l !! Z.to_nat (i - 1) else None.
Definition awrite (a : arr) (i : Z) (v : Var) : option arr :=
  if (1 <=? i) && (i <=? Z.of_nat (length a)) then Some (<[Z.to_nat (i - 1) := Some v]> a)
  else None.

(** [n] times [new[i++] = old[j++]]. *)
Fixpoint copy_loop (n : nat) (old : list Var) (j : Z) (new : arr) (i : Z) : option arr :=
  match n with
  | O => Some new
  | S n => v ← aread old j; new ← awrite new i v; copy_loop n old (j + 1) new (i + 1)
  end.

(** The completed list. *)
Definition finish (a : arr) : option (list Var) := mapM id a.

(** ** Definitions *)

Definition new_list (size : Z) : option arr :=
  let size := int size in
  if size <? 0 then None else Some (replicate (Z.to_nat size) None).

(** The search loop of [ismember], from element [i]. *)
Fixpoint ismember_from (lhs : Var) (rhs : list Var) (i : Z) (case_matters : bool) : option Z :=
  match rhs with
  | [] => Some 0
  | v :: rhs => b ← equality lhs v case_matters;
                if b : bool then Some i else ismember_from lhs rhs (i + 1) case_matters
  end.
Definition ismember (lhs : Var) (rhs : list Var) (case_matters : bool) : option Z :=
  ismember_from lhs rhs 1 case_matters.

Definition listset (list_ : list Var) (value : Var) (pos : Z) : option (list Var) :=
  _ ← aread list_ pos; Some (<[Z.to_nat (pos - 1) := value]> list_).

(** [sole] says that the argument is the only reference to the list, so that it
    may be extended in place. *)
Definition doinsert (sole : bool) (list_ : list Var) (value : Var) (pos : Z) : option (list Var) :=
  let size := int (llen list_ + 1) in
  if sole && (pos =? size) then Some (list_ ++ [value])
  else
    new ← new_list size;
    new ← copy_loop (Z.to_nat (pos - 1)) list_ 1 new 1;
    new ← awrite new pos value;
    new ← copy_loop (Z.to_nat (llen list_ - pos + 1)) list_ pos new (pos + 1);
    finish new.

Definition listinsert (sole : bool) (list_ : list Var) (value : Var) (pos : Z) : option (list Var) :=
  let pos := if pos <=? 0 then 1 else if llen list_ <? pos then int (llen list_ + 1) else pos in
  doinsert sole list_ value pos.

Definition listappend (sole : bool) (list_ : list Var) (value : Var) : option (list Var) :=
  doinsert sole list_ value (int (llen list_ + 1)).

Definition listdelete (list_ : list Var) (pos : Z) : option (list Var) :=
  new ← new_list (llen list_ - 1);
  new ← copy_loop (Z.to_nat (pos - 1)) list_ 1 new 1;
  new ← copy_loop (Z.to_nat (llen list_ - pos)) list_ (pos + 1) new pos;
  finish new.

(** The resulting list and whether it is the argument itself. *)
Definition setadd (sole : bool) (list_ : list Var) (value : Var) : option (list Var * bool) :=
  i ← ismember value list_ false;
  if negb (i =? 0) then Some (list_, true)
  else l ← listappend sole list_ value; Some (l, sole).

Definition setremove (list_ : list Var) (value : Var) : option (list Var) :=
  i ← ismember value list_ false;
  if negb (i =? 0) then listdelete list_ i else Some list_.

Definition listconcat (first second : list Var) : option (list Var) :=
  let lsecond := int (llen second) in
  let lfirst := int (llen first) in
  new ← new_list (lsecond + lfirst);
  new ← copy_loop (Z.to_nat lfirst) first 1 new 1;
  new ← copy_loop (Z.to_nat lsecond) second 1 new (1 + lfirst);
  finish new.

Definition size_t (z : Z) : Z := uwrap 64 z.

Definition listrangeset (base : list Var) (from after : Z) (value : list Var)
    : option (list Var) :=
  let val_len := llen value in
  let base_len := llen base in
  let lenleft := if 1 <? from then from - 1 else 0 in
  let lenright := if uwrap 64 after <=? base_len then size_t (base_len - after + 1) else 0 in
  let newsize := size_t (lenleft + val_len + lenright) in
  ans ← new_list newsize;
  ans ← copy_loop (Z.to_nat lenleft) base 1 ans 1;
  ans ← copy_loop (Z.to_nat lenright) base after ans (1 + lenleft + val_len);
  ans ← copy_loop (Z.to_nat val_len) value 1 ans (1 + lenleft);
  finish ans.

Definition sublist (list_ : list Var) (first after : Z) : option (list Var) :=
  let length_ := if first <? after then size_t (after - first) else 0 in
  r ← new_list length_;
  if negb (length_ =? 0) then r ← copy_loop (Z.to_nat length_) list_ first r 1; finish r
  else finish r.

(** [memcpy] of [len] bytes from offset [off] of a string of known length. *)
Definition read_bytes (s : bytes) (off len : Z) : option bytes :=
  if len =? 0 then Some []
  else if (0 <=? off) && (0 <=? len) && (off + len <=? Z.of_nat (length s))
  then Some (take (Z.to_nat len) (drop (Z.to_nat off) s)) else None.

Definition strrangeset (base : bytes) (from after : Z) (value : bytes) : option bytes :=
  let val_len := Z.of_nat (length value) in
  let base_len := Z.of_nat (length base) in
  let lenleft := if 1 <? from then from - 1 else 0 in
  let lenright := if uwrap 64 after <=? base_len then size_t (base_len - after + 1) else 0 in
  right_ ← read_bytes base (after - 1) lenright;
  left_ ← read_bytes base 0 lenleft;
  Some (left_ ++ value ++ right_).

Definition substr (str : bytes) (first after : Z) : option bytes :=
  let len := Num (after - first) in
  if len <=? 0 then Some [] else read_bytes str (first - 1) len.

(** ** Array lemmas *)

Lemma aread_nat l j : aread l (Z.of_nat j + 1) = l !! j.
Proof. unfold aread. destruct (Z.leb_spec 1 (Z.of_nat j + 1)); [|lia]. f_equal. lia. Qed.

(** A write at the end of a filled part [a]. *)
Lemma awrite_app a b x i v : i = Z.of_nat (length a) + 1 ->
  awrite (a ++ x :: b) i v = Some (a ++ Some v :: b).
Proof.
  intros ->. unfold awrite. rewrite length_app. simpl length. repeat btestc.
  f_equal. rewrite insert_app_r_alt by lia.
  by replace (Z.to_nat (Z.of_nat (length a) + 1 - 1) - length a)%nat with 0%nat by lia.
Qed.

(** A copy to the position after a part [a] of the array. *)
Lemma copy_loop_app n old j a b i :
  1 <= j -> i = Z.of_nat (length a) + 1 ->
  n = 0%nat \/ j - 1 + Z.of_nat n <= llen old -> (n <= length b)%nat ->
  copy_loop n old j (a ++ b) i =
    Some (a ++ (Some <$> take n (drop (Z.to_nat (j - 1)) old)) ++ drop n b).
Proof.
  intros Hj -> [-> | Hn] Hb; [done|]. unfold llen in Hn. assert (exists j', j = Z.of_nat j' + 1) as [j' ->].
  { exists (Z.to_nat (j - 1)). lia. }
  replace (Z.to_nat (Z.of_nat j' + 1 - 1)) with j' by lia. clear Hj.
  revert j' a b Hn Hb. induction n as [|n IH]; intros j a b Hn Hb; [done|].
  destruct b as [|x b]; [simpl in *; lia|]. cbn [copy_loop]. rewrite aread_nat.
  destruct (lookup_lt_is_Some_2 old j) as [v Hv]; [lia|]. rewrite Hv. cbn [mbind option_bind].
  rewrite awrite_app by done. cbn [mbind option_bind].
  replace (a ++ Some v :: b) with ((a ++ [Some v]) ++ b) by (by rewrite <- app_assoc).
  replace (Z.of_nat j + 1 + 1) with (Z.of_nat (S j) + 1) by lia.
  replace (Z.of_nat (length a) + 1 + 1) with (Z.of_nat (length (a ++ [Some v])) + 1)
    by (rewrite length_app; simpl; lia).
  rewrite IH by (simpl in *; lia). rewrite (drop_S old v j) by done.
  cbn [take fmap list_fmap drop]. by rewrite <- app_assoc.
Qed.

Lemma finish_fmap l : finish (Some <$> l) = Some l.
Proof. apply mapM_Some. induction l; constructor; done. Qed.

Lemma new_list_spec n : 0 <= n <= INT32_MAX -> new_list n = Some (replicate (Z.to_nat n) None).
Proof.
  intros. unfold new_list. rewrite int_id by (unfold INT32_MIN; lia).
  destruct (Z.ltb_spec n 0); [lia|done].
Qed.

(** The lengths lists have. *)
Definition list_ok (l : list Var) : Prop := llen l <= MAX_LIST.

Lemma list_ok_int l k : list_ok l -> -1 <= k <= 1 ->
  int (llen l + k) = llen l + k /\ 0 <= llen l <= 134217725.
Proof.
  unfold list_ok. change MAX_LIST with 134217725. unfold llen. intros.
  split; [apply int_id; unfold INT32_MIN, INT32_MAX; lia|lia].
Qed.

Ltac fill_step :=
  first [rewrite copy_loop_app by
           (unfold llen; rewrite ?length_app, ?length_fmap, ?length_take, ?length_drop,
              ?length_cons, ?length_replicate; cbn [length]; lia)
        | rewrite awrite_app by
           (rewrite ?length_app, ?length_fmap, ?length_take, ?length_drop; cbn [length]; lia)];
  cbn [mbind option_bind]; rewrite ?drop_replicate.

Lemma doinsert_spec sole l v pos : list_ok l -> 1 <= pos <= llen l + 1 ->
  doinsert sole l v pos = Some (take (Z.to_nat (pos - 1)) l ++ v :: drop (Z.to_nat (pos - 1)) l).
Proof.
  intros Hl Hpos. destruct (list_ok_int l 1 Hl) as [E1 Hb]; [lia|].
  unfold doinsert. rewrite E1. cbv zeta.
  destruct (sole && (pos =? llen l + 1)) eqn:E.
  { breflect. subst pos. unfold llen. rewrite take_ge, drop_ge by lia. done. }
  rewrite new_list_spec by (unfold INT32_MAX; lia). cbn [mbind option_bind].
  rewrite <- (app_nil_l (replicate _ _)). unfold llen in *.
  fill_step. change (Z.to_nat (1 - 1)) with 0%nat. rewrite drop_0, app_nil_l.
  replace (Z.to_nat (Z.of_nat (length l) + 1) - Z.to_nat (pos - 1))%nat
    with (S (Z.to_nat (Z.of_nat (length l) - pos + 1))) by lia.
  cbn [replicate]. fill_step.
  match goal with |- context [copy_loop _ _ _ (?a ++ Some v :: ?b) _] =>
    replace (a ++ Some v :: b) with ((a ++ [Some v]) ++ b) by (by rewrite <- app_assoc) end.
  fill_step.
  match goal with |- context [replicate ?n _] => replace n with 0%nat by lia end.
  cbn [replicate].
  rewrite app_nil_r, (take_ge (drop _ _)) by (rewrite length_drop; lia).
  change [Some v] with (Some <$> [v]). rewrite <- !fmap_app, finish_fmap. by rewrite <- app_assoc.
Qed.

Lemma listappend_spec sole l v : list_ok l -> listappend sole l v = Some (l ++ [v]).
Proof.
  intros Hl. destruct (list_ok_int l 1 Hl) as [E1 Hb]; [lia|].
  unfold listappend. rewrite E1, doinsert_spec by (done || lia).
  unfold llen. by rewrite take_ge, drop_ge by lia.
Qed.

Lemma listdelete_spec l pos : list_ok l -> 1 <= pos <= llen l ->
  listdelete l pos = Some (delete (Z.to_nat (pos - 1)) l).
Proof.
  intros Hl Hpos. destruct (list_ok_int l 0 Hl) as [_ Hb]; [lia|].
  unfold listdelete. rewrite new_list_spec by (unfold INT32_MAX; lia). cbn [mbind option_bind].
  rewrite <- (app_nil_l (replicate _ _)). unfold llen in *.
  fill_step. change (Z.to_nat (1 - 1)) with 0%nat. rewrite drop_0, app_nil_l.
  fill_step. rewrite (take_ge (drop _ _)) by (rewrite length_drop; lia).
  replace (Z.to_nat (pos + 1 - 1)) with (S (Z.to_nat (pos - 1))) by lia.
  match goal with |- context [replicate ?n _] => replace n with 0%nat by lia end.
  cbn [replicate]. rewrite app_nil_r, <- fmap_app, finish_fmap.
  by rewrite delete_take_drop.
Qed.

Lemma listconcat_spec l m : list_ok l -> list_ok m -> listconcat l m = Some (l ++ m).
Proof.
  intros Hl Hm. destruct (list_ok_int l 0 Hl) as [E1 Hb]; [lia|].
  destruct (list_ok_int m 0 Hm) as [E2 Hc]; [lia|]. rewrite !Z.add_0_r in *.
  unfold listconcat. rewrite E1, E2. cbv zeta.
  rewrite new_list_spec by (unfold INT32_MAX; lia). cbn [mbind option_bind].
  rewrite <- (app_nil_l (replicate _ _)). unfold llen in *.
  fill_step. change (Z.to_nat (1 - 1)) with 0%nat. rewrite drop_0, app_nil_l. fill_step.
  change (Z.to_nat (1 - 1)) with 0%nat. rewrite drop_0.
  rewrite !take_ge by lia.
  match goal with |- context [replicate ?n _] => replace n with 0%nat by lia end.
  cbn [replicate]. by rewrite app_nil_r, <- fmap_app, finish_fmap.
Qed.

Lemma listrangeset_spec base from after value :
  list_ok base -> list_ok value -> 1 <= after <= NUM_MAX -> from <= llen base + 1 ->
  Z.max 0 (from - 1) + llen value + Z.max 0 (llen base - after + 1) <= MAX_LIST ->
  listrangeset base from after value =
    Some (take (Z.to_nat (from - 1)) base ++ value ++ drop (Z.to_nat (after - 1)) base).
Proof.
  intros Hb Hv Hafter Hfrom Hsize.
  destruct (list_ok_int base 0 Hb) as [_ Hb']; [lia|].
  destruct (list_ok_int value 0 Hv) as [_ Hv']; [lia|].
  unfold NUM_MAX in Hafter. change MAX_LIST with 134217725 in Hsize. unfold listrangeset, size_t.
  cbv zeta. rewrite (uwrap_id 64 after) by lia.
  replace (if 1 <? from then from - 1 else 0) with (Z.of_nat (Z.to_nat (from - 1)))
    by (btestc).
  replace (if after <=? llen base then uwrap 64 (llen base - after + 1) else 0)
    with (Z.of_nat (Z.to_nat (llen base - after + 1)))
    by (btestc; rewrite uwrap_id by lia; lia).
  rewrite uwrap_id by lia. rewrite new_list_spec by (unfold INT32_MAX; lia).
  unfold llen in *. rewrite !Nat2Z.id. cbn [mbind option_bind].
  rewrite <- (app_nil_l (replicate _ _)). fill_step.
  change (Z.to_nat (1 - 1)) with 0%nat. rewrite drop_0, app_nil_l.
  remember (Z.to_nat (from - 1)) as nl eqn:Enl.
  remember (Z.to_nat (Z.of_nat (length base) - after + 1)) as nr eqn:Enr.
  match goal with |- context [replicate ?n _] => replace n with (length value + nr)%nat by lia end.
  rewrite replicate_add, app_assoc. fill_step.
  rewrite Nat.sub_diag. cbn [replicate]. rewrite app_nil_r, <- app_assoc. fill_step.
  rewrite drop_app_length' by (by rewrite length_replicate).
  change (Z.to_nat (1 - 1)) with 0%nat. rewrite drop_0, (take_ge value) by lia.
  rewrite (take_ge (drop _ _)) by (rewrite length_drop; lia).
  by rewrite <- !fmap_app, finish_fmap.
Qed.

Lemma sublist_spec l first after : list_ok l ->
  (first < after -> 1 <= first /\ after <= llen l + 1) ->
  sublist l first after =
    Some (take (Z.to_nat (after - first)) (drop (Z.to_nat (first - 1)) l)).
Proof.
  intros Hl Hr. destruct (list_ok_int l 0 Hl) as [_ Hb]; [lia|].
  unfold sublist, size_t. destruct (Z.ltb_spec first after) as [Hlt|].
  - specialize (Hr Hlt). unfold llen in *. cbv zeta. rewrite uwrap_id by lia.
    rewrite new_list_spec by (unfold INT32_MAX; lia). cbn [mbind option_bind].
    destruct (Z.eqb_spec (after - first) 0); [lia|]. cbn [negb].
    rewrite <- (app_nil_l (replicate _ _)). fill_step.
    rewrite Nat.sub_diag. cbn [replicate]. by rewrite app_nil_r, app_nil_l, finish_fmap.
  - cbn. by replace (Z.to_nat (after - first)) with 0%nat by lia.
Qed.

Lemma read_bytes_spec s off len : 0 <= len -> (0 < len -> 0 <= off /\ off + len <= Z.of_nat (length s)) ->
  read_bytes s off len = Some (take (Z.to_nat len) (drop (Z.to_nat off) s)).
Proof.
  intros Hl Hr. unfold read_bytes. destruct (Z.eqb_spec len 0) as [->|]; [done|].
  destruct Hr as [? ?]; [lia|]. repeat btestc; done.
Qed.

Definition bytes_ok (s : bytes) : Prop := Z.of_nat (length s) <= MAX_STRING.

Lemma strrangeset_spec base from after value :
  bytes_ok base -> 1 <= after <= NUM_MAX -> from <= Z.of_nat (length base) + 1 ->
  strrangeset base from after value =
    Some (take (Z.to_nat (from - 1)) base ++ value ++ drop (Z.to_nat (after - 1)) base).
Proof.
  intros Hb Hafter Hfrom. unfold bytes_ok, MAX_STRING, INT32_MAX in Hb. unfold NUM_MAX in Hafter.
  unfold strrangeset, size_t. cbv zeta. rewrite (uwrap_id 64 after) by lia.
  replace (if after <=? _ then _ else 0) with (Z.max 0 (Z.of_nat (length base) - after + 1))
    by (btestc; rewrite ?uwrap_id by lia; lia).
  replace (if 1 <? from then from - 1 else 0) with (Z.max 0 (from - 1)) by btestc.
  rewrite !read_bytes_spec by lia. cbn [mbind option_bind]. rewrite drop_0.
  rewrite (take_ge (drop _ _)) by (rewrite length_drop; lia).
  by replace (Z.to_nat (Z.max 0 (from - 1))) with (Z.to_nat (from - 1)) by lia.
Qed.

Lemma substr_spec s first after : bytes_ok s ->
  is_Num first -> is_Num after -> is_Num (after - first) ->
  (first < after -> 1 <= first /\ after <= Z.of_nat (length s) + 1) ->
  substr s first after = Some (take (Z.to_nat (after - first)) (drop (Z.to_nat (first - 1)) s)).
Proof.
  intros Hb Hf Ha Hd Hr. unfold substr, Num, is_Num, NUM_MAX, NUM_MIN in *. cbv zeta.
  rewrite swrap_id by lia. destruct (Z.leb_spec (after - first) 0).
  - by replace (Z.to_nat (after - first)) with 0%nat by lia.
  - rewrite read_bytes_spec by lia. done.
Qed.

(** Membership: the first position whose element is equal, 0 if there is none. *)
Lemma ismember_from_spec v l i cm : user_value v -> Forall user_value l ->
  ismember_from v l i cm =
    Some (match list_find (fun w => equality v w cm = Some true) l with
          | Some (k, _) => i + Z.of_nat k
          | None => 0
          end).
Proof.
  intros Hv Hl. revert i. induction Hl as [|w l Hw Hl IH]; intros i; [done|].
  cbn [ismember_from]. destruct (equality_ptr_spec (fun _ _ => false) cm v w) as (b & E & _);
    [done..|]. change (equality v w cm = Some b) in E. rewrite E. cbn [mbind option_bind].
  simpl. rewrite decide_bool_decide, (bool_decide_ext _ (b = true)) by (rewrite E; split; congruence).
  destruct b; simpl; [f_equal; lia|]. rewrite IH.
  destruct (list_find _ l) as [[k x]|]; simpl; [f_equal; lia|done].
Qed.

Lemma equality_total v w cm : user_value v -> user_value w -> is_Some (equality v w cm).
Proof.
  intros. destruct (equality_ptr_spec (fun _ _ => false) cm v w) as (b & E & _); [done..|].
  by exists b.
Qed.

Lemma ismember_spec v l cm : user_value v -> Forall user_value l ->
  exists i, ismember v l cm = Some i /\ 0 <= i <= llen l /\
    (i = 0 -> forall w, w ∈ l -> ~ same_value cm v w) /\
    (0 < i -> exists w, l !! Z.to_nat (i - 1) = Some w /\ same_value cm v w /\
       forall k w', (k < Z.to_nat (i - 1))%nat -> l !! k = Some w' -> ~ same_value cm v w').
Proof.
  intros Hv Hl. unfold ismember. rewrite ismember_from_spec by done.
  assert (Heq : forall w, w ∈ l -> equality v w cm = Some true <-> same_value cm v w).
  { intros w Hw. rewrite Forall_forall in Hl.
    destruct (equality_ptr_spec (fun _ _ => false) cm v w) as (b & E & Hb); [done|done|by apply Hl|].
    unfold equality. rewrite E, <- Hb. split; congruence. }
  destruct (list_find _ l) as [[k w]|] eqn:E.
  - apply list_find_Some in E as (Hk & Hw & Hlt). eexists. split; [done|].
    pose proof (lookup_lt_Some _ _ _ Hk). unfold llen. split; [lia|]. split; [lia|]. intros _.
    replace (Z.to_nat (1 + Z.of_nat k - 1)) with k by lia.
    exists w. split; [done|]. split; [apply Heq; [|done]; by eapply list_elem_of_lookup_2|].
    intros k' w' Hk' Hw' Hs. apply (Hlt k' w' Hw' Hk'). apply Heq; [|done].
    by eapply list_elem_of_lookup_2.
  - exists 0. apply list_find_None in E. unfold llen. split_and!; try done; try lia.
    intros _ w Hw Hs. rewrite Forall_forall in E. apply (E w Hw). by apply Heq.
Qed.

(** ** Properties *)

(** C37: the list operations fill their arrays completely and inside their
    bounds, whether or not the argument may be extended in place, and mean what
    they say: insertion puts the value before position [pos] (clamped to the
    list by [listinsert]), deletion and replacement affect exactly position
    [pos], concatenation appends. *)
Theorem list_operations_correct (sole : bool) (l m : list Var) (v : Var) (pos : Z) :
  list_ok l -> list_ok m ->
  listappend sole l v = Some (l ++ [v]) /\
  listconcat l m = Some (l ++ m) /\
  (exists k, (k <= length l)%nat /\ listinsert sole l v pos = Some (take k l ++ v :: drop k l) /\
     Z.of_nat k = Z.max 0 (Z.min (pos - 1) (llen l))) /\
  (1 <= pos <= llen l ->
     listdelete l pos = Some (delete (Z.to_nat (pos - 1)) l) /\
     listset l v pos = Some (<[Z.to_nat (pos - 1) := v]> l)) /\
  (~ 1 <= pos <= llen l -> listset l v pos = None).
Proof.
  intros Hl Hm. destruct (list_ok_int l 1 Hl) as [E1 Hb]; [lia|]. split_and!.
  - by apply listappend_spec.
  - by apply listconcat_spec.
  - unfold listinsert. rewrite E1. cbv zeta.
    set (p := if pos <=? 0 then 1 else if llen l <? pos then llen l + 1 else pos).
    assert (Hp : p = Z.max 1 (Z.min pos (llen l + 1))) by (unfold p; repeat btestc).
    exists (Z.to_nat (p - 1)). rewrite doinsert_spec by (done || lia). unfold llen in *.
    split; [lia|]. split; [done|lia].
  - intros Hpos. split; [by apply listdelete_spec|]. unfold listset, llen in *.
    replace pos with (Z.of_nat (Z.to_nat (pos - 1)) + 1) at 1 by lia. rewrite aread_nat.
    destruct (lookup_lt_is_Some_2 l (Z.to_nat (pos - 1))) as [w ->]; [lia|done].
  - intros Hpos. unfold listset, aread, llen in *. destruct (Z.leb_spec 1 pos); [|done].
    by rewrite lookup_ge_None_2 by lia.
Qed.

Example list_operations_correct_witness :
  let l := [VInt 1; VInt 2; VInt 3] in
  listinsert false l (VInt 9) 2 = Some [VInt 1; VInt 9; VInt 2; VInt 3] /\
  listappend false l (VInt 9) = Some (l ++ [VInt 9]) /\
  listconcat l l = Some (l ++ l) /\
  (exists k, (k <= length l)%nat /\
     listinsert false l (VInt 9) 2 = Some (take k l ++ VInt 9 :: drop k l) /\
     Z.of_nat k = Z.max 0 (Z.min (2 - 1) (llen l))) /\
  (1 <= 2 <= llen l ->
     listdelete l 2 = Some (delete (Z.to_nat (2 - 1)) l) /\
     listset l (VInt 9) 2 = Some (<[Z.to_nat (2 - 1) := VInt 9]> l)) /\
  (~ 1 <= 2 <= llen l -> listset l (VInt 9) 2 = None).
Proof.
  intros l. split; [reflexivity|].
  apply (list_operations_correct false l l (VInt 9) 2); vm_compute; discriminate.
Defined.

(** Subrange assignment and extraction, of lists and of strings.  For
    every range the interpreter lets through (1 <= [after], [from] at most one
    past the end), including empty and reversed ranges, the copies stay inside
    their arrays and the result is the part before [from], the new value, and
    the part from [after] on; extracting the assigned range gives the value
    back. *)
Theorem rangeset_correct (base value : list Var) (sbase svalue : bytes) (from after : Z) :
  list_ok base -> list_ok value -> bytes_ok sbase ->
  1 <= after <= NUM_MAX -> 1 <= from <= llen base + 1 -> from <= Z.of_nat (length sbase) + 1 ->
  from - 1 + llen value + Z.max 0 (llen base - after + 1) <= MAX_LIST ->
  exists l s,
    listrangeset base from after value = Some l /\
    l = take (Z.to_nat (from - 1)) base ++ value ++ drop (Z.to_nat (after - 1)) base /\
    sublist l from (from + llen value) = Some value /\
    strrangeset sbase from after svalue = Some s /\
    s = take (Z.to_nat (from - 1)) sbase ++ svalue ++ drop (Z.to_nat (after - 1)) sbase /\
    (bytes_ok s -> substr s from (from + Z.of_nat (length svalue)) = Some svalue).
Proof.
  intros Hb Hv Hs Hafter Hfrom Hsfrom Hsize.
  destruct (list_ok_int base 0 Hb) as [_ Hb']; [lia|]. change MAX_LIST with 134217725 in Hsize.
  do 2 eexists. split; [apply listrangeset_spec; try done; change MAX_LIST with 134217725; lia|].
  split; [reflexivity|]. split; [|split; [by apply strrangeset_spec|]; split; [reflexivity|]].
  - rewrite sublist_spec.
    + unfold llen in *. rewrite drop_app_length' by (rewrite length_take; lia).
      by rewrite take_app_length' by lia.
    + unfold list_ok, llen in *. rewrite !length_app, length_take, length_drop.
      change MAX_LIST with 134217725. lia.
    + unfold llen in *. rewrite !length_app, length_take, length_drop. lia.
  - intros Hok. assert (Hlen : Z.of_nat (length svalue) <= MAX_STRING).
    { unfold bytes_ok in Hok. rewrite !length_app in Hok. lia. }
    unfold MAX_STRING, INT32_MAX in Hlen. rewrite substr_spec; try done;
      try (unfold is_Num, NUM_MAX, NUM_MIN in *; lia).
    + rewrite drop_app_length' by (rewrite length_take; lia).
      by rewrite take_app_length' by lia.
    + rewrite !length_app, length_take, length_drop. lia.
Qed.

Example rangeset_correct_witness :
  let base := [VInt 1; VInt 2; VInt 3; VInt 4] in
  listrangeset base 2 4 [VInt 9] = Some [VInt 1; VInt 9; VInt 4] /\
  exists l s,
    listrangeset base 2 4 [VInt 9] = Some l /\
    l = take (Z.to_nat (2 - 1)) base ++ [VInt 9] ++ drop (Z.to_nat (4 - 1)) base /\
    sublist l 2 (2 + llen [VInt 9]) = Some [VInt 9] /\
    strrangeset (BS "abcd") 2 4 (BS "X") = Some s /\
    s = take (Z.to_nat (2 - 1)) (BS "abcd") ++ BS "X" ++ drop (Z.to_nat (4 - 1)) (BS "abcd") /\
    (bytes_ok s -> substr s 2 (2 + Z.of_nat (length (BS "X"))) = Some (BS "X")).
Proof.
  intros base. split; [reflexivity|].
  apply (rangeset_correct base [VInt 9] (BS "abcd") (BS "X") 2 4);
    try (vm_compute; discriminate); split; vm_compute; discriminate.
Defined.

(** Lists as sets.  [ismember] never panics on MOO values and finds the
    first equal element; [setadd] leaves a list with such an element alone and
    otherwise appends; [setremove] deletes the first equal element only; so
    adding and then removing a new value restores the list. *)
Theorem set_operations_correct (sole : bool) (l : list Var) (v : Var) :
  user_value v -> Forall user_value l -> llen l < MAX_LIST ->
  exists i l' same l'', ismember v l false = Some i /\
    setadd sole l v = Some (l', same) /\ setremove l v = Some l'' /\
    (i = 0 -> (forall w, w ∈ l -> ~ same_value false v w) /\ l' = l ++ [v] /\ l'' = l /\
              setremove l' v = Some l) /\
    (i <> 0 -> exists w, 1 <= i <= llen l /\ l !! Z.to_nat (i - 1) = Some w /\
               same_value false v w /\ l' = l /\ same = true /\
               l'' = delete (Z.to_nat (i - 1)) l).
Proof.
  intros Hv Hl Hlen.
  assert (Hok : list_ok l) by (unfold list_ok; lia).
  assert (Happ : listappend sole l v = Some (l ++ [v])) by by apply listappend_spec.
  destruct (ismember_spec v l false Hv Hl) as (i & Hi & Hrange & H0 & H1).
  unfold setadd, setremove. rewrite Hi. cbn [mbind option_bind].
  destruct (Z.eqb_spec i 0) as [Ei|Ei]; cbn [negb].
  - rewrite Happ. cbn [mbind option_bind]. exists i, (l ++ [v]), sole, l. split_and!; try done.
    intros _. split_and!; try done; [by apply H0|].
    destruct (ismember_spec v (l ++ [v]) false) as (k & Hk & Hr & K0 & K1); [done| |].
    { apply Forall_app. by repeat constructor. }
    rewrite Hk. cbn [mbind option_bind]. unfold llen in *. rewrite length_app in Hr. simpl in Hr.
    destruct (Z.eqb_spec k 0) as [->|Hk0].
    { destruct (K0 eq_refl v); [set_solver|]. by apply same_value_refl. }
    destruct K1 as (w & Hw & Hs & _); [lia|].
    assert (Z.to_nat (k - 1) = length l) as Ek.
    { destruct (decide (Z.to_nat (k - 1) < length l)%nat); [|lia].
      rewrite lookup_app_l in Hw by done. destruct (H0 Ei w); [|done].
      by eapply list_elem_of_lookup_2. }
    cbn [negb]. rewrite listdelete_spec; [|unfold list_ok, llen; rewrite length_app; simpl; lia..].
    rewrite Ek. f_equal. rewrite delete_take_drop, drop_ge, take_app_length; [by rewrite app_nil_r|].
    rewrite length_app. simpl. lia.
  - destruct H1 as (w & Hw & Hs & _); [lia|].
    exists i, l, true, (delete (Z.to_nat (i - 1)) l).
    rewrite listdelete_spec by (done || lia). split_and!; try done. intros _. exists w.
    split_and!; try done; lia.
Qed.

Example set_operations_correct_witness :
  let l := [VStr (BS "a"); VInt 2] in
  setadd false l (VStr (BS "A")) = Some (l, true) /\
  exists i l' same l'', ismember (VStr (BS "A")) l false = Some i /\
    setadd false l (VStr (BS "A")) = Some (l', same) /\ setremove l (VStr (BS "A")) = Some l'' /\
    (i = 0 -> (forall w, w ∈ l -> ~ same_value false (VStr (BS "A")) w) /\
              l' = l ++ [VStr (BS "A")] /\ l'' = l /\ setremove l' (VStr (BS "A")) = Some l) /\
    (i <> 0 -> exists w, 1 <= i <= llen l /\ l !! Z.to_nat (i - 1) = Some w /\
               same_value false (VStr (BS "A")) w /\ l' = l /\ same = true /\
               l'' = delete (Z.to_nat (i - 1)) l).
Proof.
  intros l. split; [reflexivity|]. apply set_operations_correct.
  - repeat constructor.
  - repeat constructor; vm_compute; discriminate.
  - reflexivity.
Defined.
