(* ===== verification/ListBuiltins.v ===== *)
(** * The built-in functions on lists and strings (list.c)

    Each built-in takes the arguments that [call_bi_func] has checked against
    its prototype ([list_functions]); [None] is a panic or an access to
    something that is not there.  Text is assembled in a [Stream] between
    TRY_STREAM and ENDTRY_STREAM, where [stream_too_big] becomes
    [make_space_pack].

    Parameters stand for the C library (floating-point printing and parsing,
    iconv), the Unicode character database behind utf-ctype.c, and the
    regular expression library behind pattern.h. *)

From Stdlib Require Import Floats.SpecFloat.
From S2P Require Import Prelude Utf CString Values Streams Functions Lists.

(** ** Definitions *)

(** Computations on streams: done, [stream_too_big] raised, or panic. *)
Inductive sres (A : Type) := SOk (a : A) | STooBig | SPanic.
Arguments SOk {A}.
Arguments STooBig {A}.
Arguments SPanic {A}.

Definition sbind {A B} (x : sres A) (f : A -> sres B) : sres B :=
  match x with SOk a => f a | STooBig => STooBig | SPanic => SPanic end.
Notation "x <-- e ; f" := (sbind e (fun x => f))
  (at level 100, e at level 99, f at level 200, right associativity).

Definition raise_none {A} (x : option A) : sres A :=
  match x with Some a => SOk a | None => STooBig end.
Definition panic_none {A} (x : option A) : sres A :=
  match x with Some a => SOk a | None => SPanic end.

(** Decimal digits of a non-negative number, as [%d] prints them. *)
Fixpoint digits (fuel : nat) (n : Z) (acc : bytes) : bytes :=
  match fuel with
  | O => acc
  | S f => let acc := 48 + n mod 10 :: acc in
           if n <? 10 then acc else digits f (n / 10) acc
  end.
(** [printf("%ld", n)]: 20 digits are enough for 64 bits. *)
Definition print_num (n : Z) : bytes :=
  if n <? 0 then 45 :: digits 20 (- n) [] else digits 20 n [].

Section ListBuiltins.
Context (cache : option_cache).

(** Printing a float with [%.*g] at a precision, and parsing it. *)
Context (float_g : Z -> spec_float -> bytes) (strtod : bytes -> spec_float).

Definition FLOAT_DIGITS : Z := 15.

(** Adding to a stream under TRY_STREAM. *)
Definition add_bytes (s : Stream) (b : bytes) : sres Stream :=
  raise_none (stream_add_bytes 1 (stream_alloc_maximum cache) s b).
Definition add_char (s : Stream) (c : Z) : sres Stream :=
  raise_none (stream_add_char 1 (stream_alloc_maximum cache) s c).
Definition add_printf (s : Stream) (out : bytes) : sres Stream :=
  raise_none (stream_printf 1 (stream_alloc_maximum cache) s out).

(** The precision loop: the text printed so far is taken back before each new
    attempt.  At most five attempts are made. *)
Fixpoint unparse_float_loop (fuel : nat) (s : Stream) (here : nat) (prec : Z) (n : spec_float)
    (for_tostr : bool) : sres Stream :=
  match fuel with
  | O => SPanic
  | S f =>
      s <-- add_printf s (float_g prec n);
      if for_tostr || SFeqb n (strtod (drop here (s_data s))) || (4 <=? prec - FLOAT_DIGITS)
      then SOk s
      else unparse_float_loop f (mkStream (take here (s_data s)) (s_buflen s)) here (prec + 1) n
             for_tostr
  end.

Definition stream_unparse_float (s : Stream) (n : spec_float) (for_tostr : bool) : sres Stream :=
  let here := length (s_data s) in
  s <-- unparse_float_loop 5 s here FLOAT_DIGITS n for_tostr;
  if existsb (fun c => (c =? 46) || (c =? 101)) (drop here (s_data s)) then SOk s
  else add_bytes s (BS ".0").

Definition stream_add_tostr (s : Stream) (v : Var) : sres Stream :=
  match v with
  | VInt n => add_printf s (print_num n)
  | VObj n => add_printf s (35 :: print_num n)
  | VStr t => add_bytes s t
  | VErr e => add_bytes s (unparse_error e)
  | VFloat f => stream_unparse_float s f true
  | VList _ => add_bytes s (BS "{list}")
  | _ => SPanic
  end.

(** The characters of a string literal: double quotes and backslashes are escaped. *)
Fixpoint unparse_string (s : Stream) (str : bytes) : sres Stream :=
  match str with
  | [] => SOk s
  | c :: str =>
      s <-- (if (c =? 34) || (c =? 92) then add_char s 92 else SOk s);
      s <-- add_char s c;
      unparse_string s str
  end.

Fixpoint unparse_value (s : Stream) (v : Var) : sres Stream :=
  match v with
  | VInt n => add_printf s (print_num n)
  | VObj n => add_printf s (35 :: print_num n)
  | VErr e => add_bytes s (error_name e)
  | VFloat f => stream_unparse_float s f false
  | VStr str =>
      s <-- add_char s 34;
      s <-- unparse_string s str;
      add_char s 34
  | VList l =>
      s <-- add_char s 123;
      s <-- (fix go (l : list Var) (sep : bytes) (s : Stream) : sres Stream := match l with
             | [] => SOk s
             | v :: l => s <-- add_bytes s sep;
                         s <-- unparse_value s v;
                         go l (BS ", ") s
             end) l [] s;
      add_char s 125
  | _ => add_bytes s (BS ">>Unknown value<<")
  end.

(** TRY_STREAM ... EXCEPT (stream_too_big) ... ENDTRY_STREAM. *)
Definition try_stream (r : sres package) : option package :=
  match r with
  | SOk p => Some p
  | STooBig => Some (make_space_pack (SVO_MAX_CONCAT_CATCHABLE cache))
  | SPanic => None
  end.

(** A C string handed out as a value stops at its first NUL. *)
Fixpoint c_string (b : bytes) : bytes :=
  match b with
  | [] => []
  | c :: b => if c =? 0 then [] else c :: c_string b
  end.
Definition str_dup (b : bytes) : bytes := c_string b.

Definition space_pack : package := make_space_pack (SVO_MAX_CONCAT_CATCHABLE cache).

Definition bf_length (arglist : list Var) : option package :=
  match arglist with
  | VList l :: _ => Some (make_int_pack (llen l))
  | VStr s :: _ => n ← memo_strlen_utf s; Some (make_int_pack n)
  | _ :: _ => Some (make_error_pack E_TYPE)
  | [] => None
  end.

(** The list is referenced by the arguments too, so it is never extended in
    place. *)
Definition bf_setadd (arglist : list Var) : option package :=
  match arglist with
  | VList l :: v :: _ =>
      '(r, same) ← setadd false l v;
      if same || (llen r <=? SVO_MAX_LIST_CONCAT cache) then Some (make_var_pack (VList r))
      else Some space_pack
  | _ => None
  end.

Definition bf_setremove (arglist : list Var) : option package :=
  match arglist with
  | VList l :: v :: _ => r ← setremove l v; Some (make_var_pack (VList r))
  | _ => None
  end.

(** [pos] is an [int]: the 64-bit position is truncated. *)
Definition insert_or_append (arglist : list Var) (append1 : bool) : option package :=
  match arglist with
  | VList lst :: elt :: rest =>
      if SVO_MAX_LIST_CONCAT cache <=? llen lst then Some space_pack
      else
        pos ← (match rest with
               | [] => Some (if append1 then int (llen lst + 1) else 1)
               | VInt n :: _ =>
                   let pos := int (n + (if append1 then 1 else 0)) in
                   Some (if pos <=? 0 then 1
                         else if llen lst + 1 <? pos then int (llen lst + 1) else pos)
               | _ => None
               end);
        r ← doinsert false lst elt pos;
        Some (make_var_pack (VList r))
  | _ => None
  end.

Definition bf_listappend (arglist : list Var) : option package := insert_or_append arglist true.
Definition bf_listinsert (arglist : list Var) : option package := insert_or_append arglist false.

Definition bf_listdelete (arglist : list Var) : option package :=
  match arglist with
  | VList l :: VInt n :: _ =>
      if (n <=? 0) || (llen l <? n) then Some (make_error_pack E_RANGE)
      else r ← listdelete l (int n); Some (make_var_pack (VList r))
  | _ => None
  end.

Definition bf_listset (arglist : list Var) : option package :=
  match arglist with
  | VList l :: v :: VInt n :: _ =>
      if (n <=? 0) || (llen l <? n) then Some (make_error_pack E_RANGE)
      else r ← listset l v (int n); Some (make_var_pack (VList r))
  | _ => None
  end.

Definition bf_equal (arglist : list Var) : option package :=
  match arglist with
  | v :: w :: _ => b ← equality v w true; Some (make_int_pack (if b : bool then 1 else 0))
  | _ => None
  end.

Definition bf_is_member (arglist : list Var) : option package :=
  match arglist with
  | v :: VList l :: _ => i ← ismember v l true; Some (make_int_pack i)
  | _ => None
  end.

Definition case_arg (rest : list Var) : bool :=
  match rest with v :: _ => is_true v | [] => false end.

Definition bf_strsub (arglist : list Var) : option package :=
  match arglist with
  | VStr source :: VStr what :: VStr with_ :: rest =>
      if byte_at what 0 =? 0 then Some (make_error_pack E_INVARG)
      else try_stream (text <-- panic_none (stream_add_strsub source what with_ (case_arg rest));
                       s <-- add_bytes (new_stream 100) text;
                       SOk (make_string_pack (str_dup (stream_contents s))))
  | _ => None
  end.

Definition signum (x : Z) : Z := if x <? 0 then -1 else if 0 <? x then 1 else 0.

Definition bf_strcmp (arglist : list Var) : option package :=
  match arglist with
  | VStr s :: VStr t :: _ => Some (make_int_pack (signum (strcmp s t)))
  | _ => None
  end.

Definition bf_index (arglist : list Var) : option package :=
  match arglist with
  | VStr s :: VStr what :: rest => n ← strindex s what (case_arg rest); Some (make_int_pack n)
  | _ => None
  end.

Definition bf_rindex (arglist : list Var) : option package :=
  match arglist with
  | VStr s :: VStr what :: rest => n ← strrindex s what (case_arg rest); Some (make_int_pack n)
  | _ => None
  end.

Fixpoint tostr_all (s : Stream) (args : list Var) : sres Stream :=
  match args with
  | [] => SOk s
  | v :: args => s <-- stream_add_tostr s v; tostr_all s args
  end.

Definition bf_tostr (arglist : list Var) : option package :=
  try_stream (s <-- tostr_all (new_stream 100) arglist;
              SOk (make_string_pack (str_dup (stream_contents s)))).

Definition bf_toliteral (arglist : list Var) : option package :=
  match arglist with
  | v :: _ => try_stream (s <-- unparse_value (new_stream 100) v;
                          SOk (make_string_pack (str_dup (stream_contents s))))
  | [] => None
  end.

(** *** Pattern matching

    [Pattern] is what the regular expression library compiles a string to; a
    cache entry without a string is unused.  The cache is the linked list of
    its entries, in order. *)
Context {Pattern : Type} (new_pattern : bytes -> bool -> option Pattern).

Record pat_cache_entry := mkPat {
  pc_string : option bytes;
  pc_case_matters : bool;
  pc_pattern : option Pattern
}.

Definition PATTERN_CACHE_SIZE : nat := 20.

Definition setup_pattern_cache : list pat_cache_entry :=
  replicate PATTERN_CACHE_SIZE (mkPat None false None).

(** A hit on an entry. *)
Definition pat_hit (string_ : bytes) (case_matters : bool) (e : pat_cache_entry) : bool :=
  match pc_string e with
  | Some s => (strcmp string_ s =? 0) && Bool.eqb case_matters (pc_case_matters e)
  | None => false
  end.

(** The search: the entry found or refilled, and the entries before and after it. *)
Fixpoint pat_search (string_ : bytes) (case_matters : bool) (entries : list pat_cache_entry)
    : option (list pat_cache_entry * pat_cache_entry * list pat_cache_entry) :=
  match entries with
  | [] => None
  | entry :: next =>
      if pat_hit string_ case_matters entry then Some ([], entry, next)
      else match next with
           | [] => let pattern := new_pattern string_ case_matters in
                   Some ([], mkPat (match pattern with Some _ => Some string_ | None => None end)
                               case_matters pattern, [])
           | _ => '(before, e, after) ← pat_search string_ case_matters next;
                  Some (entry :: before, e, after)
           end
  end.

(** The pattern and the new cache, with the entry moved to the front. *)
Definition get_pattern (cache : list pat_cache_entry) (string_ : bytes) (case_matters : bool)
    : option (option Pattern * list pat_cache_entry) :=
  '(before, e, after) ← pat_search string_ case_matters cache;
  Some (pc_pattern e, e :: before ++ after).

(** The outcome of [match_pattern]: ten pairs of 1-based byte positions. *)
Inductive match_result := MATCH_SUCCEEDED (regs : list (Z * Z)) | MATCH_FAILED | MATCH_ABORTED.
Context (match_pattern : Pattern -> bytes -> bool -> match_result).

Definition match_pair (subject : bytes) (r : Z * Z) : option (Z * Z) :=
  start ← utf_char_index subject r.1;
  end_ ← utf_char_index subject (r.2 + 1);
  Some (start, end_ - 1).

Definition do_match (cache : list pat_cache_entry) (arglist : list Var) (reverse_ : bool)
    : option (Var * list pat_cache_entry) :=
  match arglist with
  | VStr subject :: VStr pattern :: rest =>
      '(pat, cache) ← get_pattern cache pattern (case_arg rest);
      ans ← (match pat with
             | None => Some (VErr E_INVARG)
             | Some p =>
                 match match_pattern p subject reverse_ with
                 | MATCH_SUCCEEDED regs =>
                     whole ← regs !! 0%nat;
                     whole ← match_pair subject whole;
                     pairs ← mapM (fun i => r ← regs !! i; match_pair subject r) (seq 1 9);
                     Some (VList [VInt whole.1; VInt whole.2;
                                  VList ((fun p => VList [VInt p.1; VInt p.2]) <$> pairs);
                                  VStr subject])
                 | MATCH_FAILED => Some (VList [])
                 | MATCH_ABORTED => Some (VErr E_QUOTA)
                 end
             end);
      Some (ans, cache)
  | _ => None
  end.

Definition bf_match (cache : list pat_cache_entry) (arglist : list Var)
    : option (package * list pat_cache_entry) :=
  '(ans, cache) ← do_match cache arglist false;
  Some (match ans with VErr e => make_error_pack e | _ => make_var_pack ans end, cache).

Definition bf_rmatch (cache : list pat_cache_entry) (arglist : list Var)
    : option (package * list pat_cache_entry) :=
  '(ans, cache) ← do_match cache arglist true;
  Some (match ans with VErr e => make_error_pack e | _ => make_var_pack ans end, cache).

(** [invalid_pair], of [int]s. *)
Definition invalid_pair (num1 num2 max : Z) : bool :=
  negb (((num1 =? 0) && (num2 =? -1))
        || ((0 <? num1) && (num1 - 1 <=? num2) && (num2 <=? max))).

Definition invalid_sub (v : Var) (max : Z) : bool :=
  match v with
  | VList [VInt a; VInt b] => invalid_pair (int a) (int b) max
  | _ => true
  end.

(** [true] if the match result is unusable. *)
Definition check_subs_list (subs : Var) : option bool :=
  match subs with
  | VList [VInt a; VInt b; VList pairs; VStr subj] =>
      if negb (llen pairs =? 9) then Some true
      else
        n ← memo_strlen_utf subj;
        let subj_length := int n in
        if invalid_pair (int a) (int b) subj_length then Some true
        else Some (existsb (fun p => invalid_sub p subj_length) pairs)
  | _ => Some true
  end.

(** The loop over the template; [inr] is the jump to [oops] with an error. *)
Fixpoint substitute_loop (subs : Z * Z * list Var * bytes) (s : Stream) (template : bytes)
    : sres (Stream + error) :=
  match template with
  | [] => SOk (inl s)
  | c :: template =>
      if negb (c =? 37) then s <-- add_char s c; substitute_loop subs s template
      else
        match template with
        | [] => SOk (inr E_INVARG)
        | c :: template =>
            if c =? 37 then s <-- add_char s 37; substitute_loop subs s template
            else
              let '(a, b, pairs, subject) := subs in
              let range :=
                if (49 <=? c) && (c <=? 57) then
                  match aread pairs (c - 48) with
                  | Some (VList [VInt start; VInt end_]) => SOk (Some (int start, int end_))
                  | _ => SPanic
                  end
                else if c =? 48 then SOk (Some (int a, int b))
                else SOk None in
              range <-- range;
              match range with
              | None => SOk (inr E_INVARG)
              | Some (start, end_) =>
                  bstartafter <-- panic_none (utf_byte_range subject (start, int (end_ + 1)));
                  piece <-- panic_none (read_bytes subject (bstartafter.1 - 1)
                                          (bstartafter.2 - bstartafter.1));
                  s <-- add_bytes s piece;
                  substitute_loop subs s template
              end
        end
  end.

Definition bf_substitute (arglist : list Var) : option package :=
  match arglist with
  | VStr template :: subs :: _ =>
      bad ← check_subs_list subs;
      if bad : bool then Some (make_error_pack E_INVARG)
      else
        match subs with
        | VList [VInt a; VInt b; VList pairs; VStr subject] =>
            try_stream (r <-- substitute_loop (a, b, pairs, subject)
                                (new_stream (Z.of_nat (length template))) template;
                        SOk (match r with
                             | inl s => make_string_pack (str_dup (stream_contents s))
                             | inr e => make_error_pack e
                             end))
        | _ => None
        end
  | _ => None
  end.

Definition bf_value_bytes (arglist : list Var) : option package :=
  match arglist with v :: _ => Some (make_int_pack (value_bytes v)) | [] => None end.

(** *** Binary strings *)

(** Bytes that [decode_binary] keeps as text. *)
Definition binary_text (c : Z) : bool := ((32 <=? c) && (c <=? 126)) || (c =? 9).

(** The first pass: the number of elements. *)
Fixpoint binary_count (b : bytes) (count : Z) (in_string : bool) : Z :=
  match b with
  | [] => count
  | c :: b => if binary_text c then binary_count b (if in_string then count else count + 1) true
              else binary_count b (count + 1) false
  end.

(** The second pass fills the array; [s] is the text collected so far. *)
Fixpoint binary_fill (b : bytes) (r : arr) (count : Z) (in_string : bool) (s : bytes)
    : option arr :=
  match b with
  | [] => if in_string then awrite r count (VStr (str_dup s)) else Some r
  | c :: b =>
      if binary_text c then binary_fill b r count true (s ++ [c])
      else
        '(r, count, s) ← (if in_string
                          then r ← awrite r count (VStr (str_dup s)); Some (r, count + 1, [])
                          else Some (r, count, s));
        r ← awrite r count (VInt c);
        binary_fill b r (count + 1) false s
  end.

Definition bf_decode_binary (arglist : list Var) : option package :=
  match arglist with
  | VStr s :: rest =>
      let fully := match rest with v :: _ => is_true v | [] => false end in
      match moobinary_to_raw_bytes s with
      | None => Some (make_error_pack E_INVARG)
      | Some b =>
          if fully then
            if SVO_MAX_LIST_CONCAT cache <? Z.of_nat (length b) then Some space_pack
            else Some (make_var_pack (VList (VInt <$> b)))
          else
            let count := binary_count b 0 false in
            if SVO_MAX_LIST_CONCAT cache <? count then Some space_pack
            else r ← new_list count;
                 r ← binary_fill b r 1 false [];
                 l ← finish r;
                 Some (make_var_pack (VList l))
      end
  | _ => None
  end.

(** The stream, and whether everything could be encoded. *)
Fixpoint encode_binary (s : Stream) (v : Var) : sres (Stream * bool) :=
  match v with
  | VInt n => if (n <? 0) || (256 <=? n) then SOk (s, false)
              else s <-- add_char s (byte n); SOk (s, true)
  | VStr t => s <-- add_bytes s t; SOk (s, true)
  | VList l =>
      (fix go (l : list Var) (s : Stream) : sres (Stream * bool) := match l with
       | [] => SOk (s, true)
       | v :: l => r <-- encode_binary s v;
                   if r.2 : bool then go l r.1 else SOk (r.1, false)
       end) l s
  | _ => SOk (s, false)
  end.

Definition bf_encode_binary (arglist : list Var) : option package :=
  try_stream (r <-- encode_binary (new_stream 100) (VList arglist);
              if r.2 : bool then
                s2 <-- add_bytes (new_stream 100)
                         (stream_add_moobinary_from_raw_bytes (stream_contents r.1));
                SOk (make_string_pack (str_dup (stream_contents s2)))
              else SOk (make_error_pack E_INVARG)).

(** *** Characters *)
Context (my_is_printable : Z -> bool) (my_char_lookup : bytes -> Z)
  (my_char_name : Z -> option bytes).

(** [ucs] is an [int]: a negative number is truncated to 32 bits. *)
Definition bf_tochar (arglist : list Var) : option package :=
  match arglist with
  | v :: _ =>
      let ucs := match v with
                 | VInt n => Some (int (if n <=? 0x10ffff then n else 0))
                 | VStr s => Some (my_char_lookup s)
                 | _ => None
                 end in
      match ucs with
      | None => Some (make_error_pack E_TYPE)
      | Some ucs =>
          if my_is_printable (uwrap 32 ucs)
          then Some (make_string_pack (str_dup (default [] (put_utf (uwrap 32 ucs)))))
          else Some (make_error_pack E_INVARG)
      end
  | [] => None
  end.

(** On the empty string [get_utf] moves behind the NUL, and the byte there,
    which is tested next, is outside the string. *)
Definition single_char_first_argument (arglist : list Var) : option Z :=
  match arglist with
  | VStr s :: _ => let '(ucs, p) := get_utf s 0 in
                   if (p <=? length s)%nat then Some (if byte_at s p =? 0 then ucs else 0) else None
  | _ => None
  end.

Definition bf_charname (arglist : list Var) : option package :=
  ucs ← single_char_first_argument arglist;
  if ucs =? 0 then Some (make_error_pack E_INVARG)
  else match my_char_name ucs with
       | None => Some (make_error_pack E_INVARG)
       | Some name => Some (make_string_pack name)
       end.

Definition bf_ord (arglist : list Var) : option package :=
  ucs ← single_char_first_argument arglist;
  if ucs =? 0 then Some (make_error_pack E_INVARG) else Some (make_int_pack ucs).

(** The 32-bit words that [stream_add_recoded_chars] leaves in the stream for
    a byte string and an encoding, or failure (iconv). *)
Context (recoded_chars : bytes -> bytes -> option (list Z)).

(** The first pass of [decode_chars]: the longest run of text (by [char_size])
    and the number of elements. *)
Fixpoint chars_count (d : list Z) (scount smax llen : Z) : Z * Z :=
  match d with
  | [] => (Z.max smax scount, llen)
  | c :: d =>
      if my_is_printable c
      then chars_count d (scount + char_size c) smax (if scount =? 0 then llen + 1 else llen)
      else chars_count d 0 (Z.max smax scount) (llen + 1)
  end.

Fixpoint chars_fill (d : list Z) (r : arr) (llast : Z) (s : bytes) : option (arr * Z) :=
  let flush := if negb (length s =? 0)%nat
               then r ← awrite r (llast + 1) (VStr (str_dup s)); Some (r, llast + 1)
               else Some (r, llast) in
  match d with
  | [] => flush
  | c :: d =>
      if my_is_printable c then chars_fill d r llast (s ++ encode c)
      else '(r, llast) ← flush;
           r ← awrite r (llast + 1) (VInt c);
           chars_fill d r (llast + 1) []
  end.

Definition bf_decode_chars (arglist : list Var) : option package :=
  match arglist with
  | VStr s :: VStr encoding :: rest =>
      let fully := case_arg rest in
      match (ebytes ← moobinary_to_raw_bytes s; recoded_chars ebytes encoding) with
      | None => Some (make_error_pack E_INVARG)
      | Some dchars =>
          let dchars := match dchars with
                        | c :: d => if c =? 0xFEFF then d else dchars
                        | [] => dchars
                        end in
          if fully then
            if SVO_MAX_LIST_CONCAT cache <? Z.of_nat (length dchars) then Some space_pack
            else Some (make_var_pack (VList (VInt <$> dchars)))
          else
            let '(smax, count) := chars_count dchars 0 0 0 in
            if (SVO_MAX_LIST_CONCAT cache <? count) || (SVO_MAX_STRING_CONCAT cache <? smax)
            then Some space_pack
            else r ← new_list count;
                 '(r, llast) ← chars_fill dchars r 0 [];
                 if negb (llast =? count) then None
                 else l ← finish r; Some (make_var_pack (VList l))
      end
  | _ => None
  end.

(** Name, argument bounds, prototype and function of the built-ins that
    [register_list] registers and whose result is a function of their arguments. *)
Definition list_functions : list (bytes * Z * Z * list var_type * (list Var -> option package)) :=
  [(BS "value_bytes", 1, 1, [TYPE_ANY], bf_value_bytes);
   (BS "decode_binary", 1, 2, [TYPE_STR; TYPE_ANY], bf_decode_binary);
   (BS "encode_binary", 0, -1, [], bf_encode_binary);
   (BS "length", 1, 1, [TYPE_ANY], bf_length);
   (BS "setadd", 2, 2, [TYPE_LIST; TYPE_ANY], bf_setadd);
   (BS "setremove", 2, 2, [TYPE_LIST; TYPE_ANY], bf_setremove);
   (BS "listappend", 2, 3, [TYPE_LIST; TYPE_ANY; TYPE_INT], bf_listappend);
   (BS "listinsert", 2, 3, [TYPE_LIST; TYPE_ANY; TYPE_INT], bf_listinsert);
   (BS "listdelete", 2, 2, [TYPE_LIST; TYPE_INT], bf_listdelete);
   (BS "listset", 3, 3, [TYPE_LIST; TYPE_ANY; TYPE_INT], bf_listset);
   (BS "equal", 2, 2, [TYPE_ANY; TYPE_ANY], bf_equal);
   (BS "is_member", 2, 2, [TYPE_ANY; TYPE_LIST], bf_is_member);
   (BS "tostr", 0, -1, [], bf_tostr);
   (BS "toliteral", 1, 1, [TYPE_ANY], bf_toliteral);
   (BS "substitute", 2, 2, [TYPE_STR; TYPE_LIST], bf_substitute);
   (BS "index", 2, 3, [TYPE_STR; TYPE_STR; TYPE_ANY], bf_index);
   (BS "rindex", 2, 3, [TYPE_STR; TYPE_STR; TYPE_ANY], bf_rindex);
   (BS "strcmp", 2, 2, [TYPE_STR; TYPE_STR], bf_strcmp);
   (BS "strsub", 3, 4, [TYPE_STR; TYPE_STR; TYPE_STR; TYPE_ANY], bf_strsub);
   (BS "tochar", 1, 1, [TYPE_ANY], bf_tochar);
   (BS "charname", 1, 1, [TYPE_STR], bf_charname);
   (BS "ord", 1, 1, [TYPE_STR], bf_ord);
   (BS "decode_chars", 2, 3, [TYPE_STR; TYPE_STR; TYPE_ANY], bf_decode_chars)].
End ListBuiltins.

(** ** Specification *)

(** The calls that read outside their argument. *)
Definition reads_behind (name : bytes) (args : list Var) : bool :=
  match args with
  | [VStr []] => bool_decide (name ∈ [BS "charname"; BS "ord"])
  | _ => false
  end.

(** The values the server lets MOO code build: sizes within the hard limits and
    text in well-formed UTF-8. *)
Fixpoint wf_value (v : Var) : Prop :=
  match v with
  | VInt n | VObj n => is_Num n
  | VStr s => bytes_ok s /\ exists vs, Forall scalar vs /\ s = encode_all vs
  | VErr _ => True
  | VList l => list_ok l /\ (fix go l := match l with [] => True | v :: l => wf_value v /\ go l end) l
  | VFloat f => f <> S754_nan
  | _ => False
  end.

(** The elements of a binary string decoded: maximal runs of text, and the
    other bytes one by one. *)
Fixpoint binary_elements (b : bytes) (run : bytes) : list Var :=
  let flush := match run with [] => [] | _ => [VStr run] end in
  match b with
  | [] => flush
  | c :: b => if binary_text c then binary_elements b (run ++ [c])
              else flush ++ VInt c :: binary_elements b []
  end.

(** The same for characters, given which are printable; a run is its UTF-8. *)
Fixpoint chars_elements (printable : Z -> bool) (d : list Z) (run : bytes) : list Var :=
  let flush := match run with [] => [] | _ => [VStr run] end in
  match d with
  | [] => flush
  | c :: d => if printable c then chars_elements printable d (run ++ encode c)
              else flush ++ VInt c :: chars_elements printable d []
  end.

(** The bytes that an encodable value stands for. *)
Fixpoint binary_bytes (v : Var) : option bytes :=
  match v with
  | VInt n => if (0 <=? n) && (n <? 256) then Some [n] else None
  | VStr t => Some t
  | VList l => (fix go l := match l with
                | [] => Some []
                | v :: l => b ← binary_bytes v; c ← go l; Some (b ++ c)
                end) l
  | _ => None
  end.

(** The characters [start] to [end] (from 1) of a text, as [substitute] means
    them: nothing for the range (0, -1). *)
Definition char_range (vs : list Z) (start end_ : Z) : list Z :=
  if start =? 0 then [] else take (Z.to_nat (end_ - start + 1)) (drop (Z.to_nat (start - 1)) vs).

(** ** Lemmas *)

Lemma wf_value_list l : wf_value (VList l) <-> list_ok l /\ Forall wf_value l.
Proof.
  cbn [wf_value]. apply and_iff_compat_l. split.
  - induction l as [|v l IH]; [constructor|]. intros [Hv Hl]. constructor; auto.
  - induction 1; split; done.
Qed.

Lemma wf_value_user v : wf_value v -> user_value v.
Proof.
  induction v as [n|o|s|e|l IH| | | | |f] using Var_rect'; try done.
  - intros (_ & vs & Hvs & ->). by apply encode_all_cstr.
  - rewrite wf_value_list, user_value_list. intros [_ Hl].
    induction IH; constructor; apply Forall_cons in Hl as [? ?]; auto.
Qed.

Lemma wf_value_str s : wf_value (VStr s) -> cstr s.
Proof. apply (wf_value_user (VStr s)). Qed.

Lemma wf_ascii s : forallb (fun c => (0 <? c) && (c <? 128)) s = true -> (Z.of_nat (length s) <=? MAX_STRING) = true ->
  wf_value (VStr s).
Proof.
  rewrite forallb_forall. intros H Hl. split; [unfold bytes_ok; lia|]. destruct (encode_ascii s) as [Hs E].
  - apply Forall_forall. intros c Hc%list_elem_of_In%H. lia.
  - by exists s.
Qed.

Lemma wf_values_user l : Forall wf_value l -> Forall user_value l.
Proof. intros H. eapply Forall_impl; [exact H|apply wf_value_user]. Qed.

Lemma memo_strlen_total s : cstr s -> memo_strlen_utf s = Some (Z.of_nat (nchars s)).
Proof. intros. unfold memo_strlen_utf. by rewrite strlen_utf_loop_spec by (done || lia). Qed.

(** Character indices up to one past the end give ordered byte indices inside
    the string. *)
Lemma index_from_mono s : cstr s -> forall p a b, (p <= length s)%nat ->
  1 <= a <= b -> b <= Z.of_nat (length (starts_at s p)) + 1 ->
  Z.of_nat p + 1 <= index_from s p a <= index_from s p b /\
  index_from s p b <= Z.of_nat (length s) + 1.
Proof.
  intros Hs p. pattern p. revert p. apply (utf_ind s); [done|..].
  - intros p Hp a b Hpl Hab Hb. assert (p = length s) as -> by lia.
    rewrite starts_at_end in Hb by lia. simpl in Hb.
    assert (a = 1) as -> by lia. assert (b = 1) as -> by lia. rewrite index_from_1 by (done || lia). lia.
  - intros p Hp Hq Hnz IH a b Hpl Hab Hb. rewrite starts_at_step in Hb by done. simpl in Hb.
    destruct (Z.eqb_spec b 1) as [->|].
    { assert (a = 1) as -> by lia. rewrite index_from_1 by (done || lia). lia. }
    rewrite (index_from_step s p b) by (done || lia).
    destruct (Z.eqb_spec a 1) as [->|].
    + rewrite index_from_1 by (done || lia).
      destruct (IH 1 (b - 1)) as [? ?]; [lia..|]. lia.
    + rewrite (index_from_step s p a) by (done || lia).
      destruct (IH (a - 1) (b - 1)) as [? ?]; [lia..|]. lia.
Qed.

Lemma byte_index_mono s a b : cstr s -> 1 <= a <= b -> b <= Z.of_nat (nchars s) + 1 ->
  1 <= byte_index_spec s a <= byte_index_spec s b /\
  byte_index_spec s b <= Z.of_nat (length s) + 1.
Proof.
  intros Hs Hab Hb. pose proof (index_from_mono s Hs 0 a b ltac:(lia) Hab Hb) as H.
  assert (H1 : index_from s 0 1 = 1) by (rewrite index_from_1; [done|done|lia]).
  rewrite !byte_index_spec_from.
  destruct (Z.leb_spec a 1), (Z.leb_spec b 1); try (assert (a = 1) as -> by lia);
    try (assert (b = 1) as -> by lia); rewrite ?H1 in *; lia.
Qed.

(** The piece that a checked pair of indices selects lies inside the subject. *)
Lemma substitute_piece s start end_ : cstr s -> invalid_pair start end_ (Z.of_nat (nchars s)) = false ->
  Z.of_nat (length s) < INT32_MAX ->
  exists r piece, utf_byte_range s (start, int (end_ + 1)) = Some r /\
    read_bytes s (r.1 - 1) (r.2 - r.1) = Some piece /\
    (start = 0 -> piece = []) /\
    (start <> 0 -> 1 <= start /\ start <= end_ + 1 /\ end_ <= Z.of_nat (nchars s) /\
       piece = take (Z.to_nat (byte_index_spec s (end_ + 1) - byte_index_spec s start))
                 (drop (Z.to_nat (byte_index_spec s start - 1)) s)).
Proof.
  intros Hs Hp Hlen. unfold invalid_pair in Hp. apply negb_false_iff, orb_true_iff in Hp.
  assert (Hn : Z.of_nat (nchars s) <= Z.of_nat (length s)).
  { unfold nchars, starts. pose proof (starts_at_le s 0 Hs). unfold starts_at in *. lia. }
  destruct Hp as [Hp|Hp]; breflect.
  - subst. rewrite int_id by (unfold INT32_MIN, INT32_MAX; lia).
    rewrite utf_byte_range_eq by done. change (byte_index_spec s 0) with 0.
    change (byte_index_spec s (-1 + 1)) with 0. do 2 eexists. split; [done|]. simpl.
    split; [done|]. split; [done|lia].
  - repeat match goal with H : (_ && _)%bool = true |- _ => apply andb_true_iff in H as [? ?] end.
    breflect. unfold INT32_MAX in Hlen.
    rewrite int_id by (unfold INT32_MIN, INT32_MAX; lia).
    rewrite utf_byte_range_eq by done.
    destruct (byte_index_mono s start (end_ + 1)) as [Hm1 Hm2]; [done|lia..|].
    do 2 eexists. split; [done|]. cbn [fst snd]. rewrite read_bytes_spec by lia.
    split; [done|]. split; [lia|]. intros _. split_and!; try lia. done.
Qed.

Lemma proto_str a : proto_matches TYPE_STR (type_of a) = true -> exists s, a = VStr s.
Proof. destruct a; try done. by eexists. Qed.
Lemma proto_list a : proto_matches TYPE_LIST (type_of a) = true -> exists l, a = VList l.
Proof. destruct a; try done. by eexists. Qed.
Lemma proto_int a : proto_matches TYPE_INT (type_of a) = true -> exists n, a = VInt n.
Proof. destruct a; try done. by eexists. Qed.
Lemma proto_obj a : proto_matches TYPE_OBJ (type_of a) = true -> exists n, a = VObj n.
Proof. destruct a; try done. by eexists. Qed.

(** A stream computation that never panics. *)
Definition no_panic {A} (x : sres A) : Prop := x <> SPanic.

Lemma no_panic_bind {A B} (x : sres A) (f : A -> sres B) :
  no_panic x -> (forall a, no_panic (f a)) -> no_panic (sbind x f).
Proof. unfold no_panic. destruct x; simpl; [auto|done|done]. Qed.

Lemma no_panic_ok {A} (a : A) : no_panic (SOk a).
Proof. done. Qed.

Lemma no_panic_add_bytes c s b : no_panic (add_bytes c s b).
Proof. unfold no_panic, add_bytes, raise_none. by case_match. Qed.
Lemma no_panic_add_char c s b : no_panic (add_char c s b).
Proof. unfold no_panic, add_char, raise_none. by case_match. Qed.
Lemma no_panic_add_printf c s b : no_panic (add_printf c s b).
Proof. unfold no_panic, add_printf, raise_none. by case_match. Qed.
#[export] Hint Resolve no_panic_bind no_panic_ok no_panic_add_bytes no_panic_add_char
  no_panic_add_printf : moo.

Lemma no_panic_try c r : no_panic r -> is_Some (try_stream c r).
Proof. unfold no_panic. destruct r; simpl; [by eexists|by eexists|done]. Qed.

Lemma c_string_id b : Forall (fun c => 0 < c) b -> c_string b = b.
Proof.
  induction 1 as [|c b Hc Hb IH]; [done|]. simpl. destruct (Z.eqb_spec c 0); [lia|].
  by rewrite IH.
Qed.
Lemma str_dup_id b : Forall (fun c => 0 < c) b -> str_dup b = b.
Proof. apply c_string_id. Qed.

(** The elements of a binary string stand for its bytes. *)
Lemma binary_bytes_cons v l : binary_bytes (VList (v :: l)) =
  b ← binary_bytes v; c ← binary_bytes (VList l); Some (b ++ c).
Proof. reflexivity. Qed.

Lemma binary_bytes_elements b run : Forall (fun c => 0 <= c < 256) b ->
  binary_bytes (VList (binary_elements b run)) = Some (run ++ b).
Proof.
  intros Hb. revert run. induction Hb as [|c b Hc Hb IH]; intros run; cbn [binary_elements].
  - destruct run; simpl; by rewrite ?app_nil_r.
  - destruct (binary_text c); [by rewrite IH, <- app_assoc|].
    assert (E : binary_bytes (VList (VInt c :: binary_elements b [])) = Some (c :: b)).
    { rewrite binary_bytes_cons, IH. cbn [binary_bytes].
      destruct (Z.leb_spec 0 c), (Z.ltb_spec c 256); try lia. done. }
    destruct run as [|d run]; [exact E|]. cbn [app]. rewrite binary_bytes_cons, E. done.
Qed.

Lemma binary_elements_length b run :
  (length (binary_elements b run) <= length b + (if (length run =? 0)%nat then 0 else 1))%nat.
Proof.
  revert run. induction b as [|c b IH]; intros run; cbn [binary_elements].
  - destruct run; simpl; lia.
  - destruct (binary_text c).
    + specialize (IH (run ++ [c])). revert IH. case_match; case_match; simpl; lia.
    + specialize (IH []). simpl in *. destruct run; simpl; lia.
Qed.

Lemma moobinary_length b :
  (length (stream_add_moobinary_from_raw_bytes b) <= 3 * length b)%nat.
Proof.
  change (stream_add_moobinary_from_raw_bytes b) with (concat (moobinary_char <$> b)).
  induction b as [|c b IH]; [done|]. rewrite fmap_cons. cbn [concat]. rewrite length_app.
  assert (length (moobinary_char c) <= 3)%nat by (unfold moobinary_char; case_match; simpl; lia).
  simpl length. lia.
Qed.

Lemma moobinary_printable b : Forall (fun c => 0 <= c < 256) b ->
  Forall (fun c => 32 <= c <= 126) (stream_add_moobinary_from_raw_bytes b).
Proof.
  change (stream_add_moobinary_from_raw_bytes b) with (concat (moobinary_char <$> b)).
  induction 1 as [|c b Hc Hb IH]; [constructor|]. rewrite fmap_cons. cbn [concat].
  apply Forall_app. split; [by apply moobinary_char_printable|done].
Qed.

Section Safety.
Context (cache : option_cache) (float_g : Z -> spec_float -> bytes) (strtod : bytes -> spec_float).
Context (my_is_printable : Z -> bool) (my_char_lookup : bytes -> Z)
  (my_char_name : Z -> option bytes) (recoded_chars : bytes -> bytes -> option (list Z)).

(** The cached limits are what [load_server_options] makes them. *)
Context (Hcache : 0 <= SVO_MAX_LIST_CONCAT cache <= MAX_LIST).
(** Printable characters are characters. *)
Context (Hprintable : forall c, my_is_printable c = true -> scalar c).

Lemma no_panic_float_loop f s here prec n b : (Z.of_nat f >= 5 - (prec - FLOAT_DIGITS)) ->
  prec - FLOAT_DIGITS < 5 -> no_panic (unparse_float_loop cache float_g strtod f s here prec n b).
Proof.
  revert s prec. induction f as [|f IH]; intros s prec Hf Hp; [lia|]. cbn [unparse_float_loop].
  apply no_panic_bind; [auto with moo|]. intros s'. case_match eqn:E; [auto with moo|].
  breflect. apply IH; lia.
Qed.

Lemma no_panic_float s n b : no_panic (stream_unparse_float cache float_g strtod s n b).
Proof.
  unfold stream_unparse_float. apply no_panic_bind.
  - apply no_panic_float_loop; unfold FLOAT_DIGITS; lia.
  - intros s'. case_match; auto with moo.
Qed.

Lemma no_panic_tostr s v : wf_value v -> no_panic (stream_add_tostr cache float_g strtod s v).
Proof. destruct v; intros Hv; try done; simpl; auto using no_panic_float with moo. Qed.

Lemma no_panic_tostr_all s l : Forall wf_value l -> no_panic (tostr_all cache float_g strtod s l).
Proof.
  intros Hl. revert s. induction Hl as [|v l Hv Hl IH]; intros s; [done|].
  apply no_panic_bind; [by apply no_panic_tostr|auto].
Qed.

Lemma no_panic_unparse_string s t : no_panic (unparse_string cache s t).
Proof.
  revert s. induction t as [|c t IH]; intros s; [done|]. cbn [unparse_string].
  apply no_panic_bind; [case_match; auto with moo|]. intros. apply no_panic_bind; auto with moo.
Qed.

Lemma no_panic_unparse v : forall s, no_panic (unparse_value cache float_g strtod s v).
Proof.
  induction v as [n|o|t|e|l IH| | | | |f] using Var_rect'; intros s; cbn [unparse_value];
    auto using no_panic_float with moo.
  - apply no_panic_bind; [auto with moo|]. intros. apply no_panic_bind; auto with moo.
    apply no_panic_unparse_string.
  - apply no_panic_bind; [auto with moo|]. intros s1.
    apply no_panic_bind; [|auto with moo]. generalize (@nil Z) as sep. revert s1.
    induction IH as [|v l Hv Hl IHl]; intros s1 sep; [done|].
    apply no_panic_bind; [auto with moo|]. intros s2.
    apply no_panic_bind; [auto|]. intros s3. apply IHl.
Qed.

Lemma no_panic_encode v : forall s, no_panic (encode_binary cache s v).
Proof.
  induction v as [n|o|t|e|l IH| | | | |f] using Var_rect'; intros s; cbn [encode_binary];
    try done.
  - case_match; [done|]. apply no_panic_bind; auto with moo.
  - apply no_panic_bind; auto with moo.
  - revert s. induction IH as [|v l Hv Hl IHl]; intros s; [done|].
    apply no_panic_bind; [auto|]. intros [s' []]; simpl; [apply IHl|done].
Qed.

(** The two passes of [decode_binary] agree: the array has room for exactly
    the elements that are written. *)
Lemma binary_count_spec b count run :
  binary_count b count (negb (length run =? 0)%nat) =
    count + Z.of_nat (length (binary_elements b run)) - (if (length run =? 0)%nat then 0 else 1).
Proof.
  revert count run. induction b as [|c b IH]; intros count run; cbn [binary_count binary_elements].
  - destruct run; simpl; lia.
  - destruct (binary_text c).
    + specialize (IH (if negb (length run =? 0)%nat then count else count + 1) (run ++ [c])).
      replace (length (run ++ [c]) =? 0)%nat with false in IH
        by (symmetry; apply Nat.eqb_neq; rewrite length_app; simpl; lia).
      cbn [negb] in IH. rewrite IH. destruct run; simpl; lia.
    + specialize (IH (count + 1) []). simpl in IH. rewrite IH. destruct run; simpl; lia.
Qed.

Lemma binary_fill_spec b a run (n : nat) count :
  Forall (fun c => 0 < c) run ->
  n = length (binary_elements b run) -> count = Z.of_nat (length a) + 1 ->
  binary_fill b ((Some <$> a) ++ replicate n None) count (negb (length run =? 0)%nat) run =
    Some (Some <$> (a ++ binary_elements b run)).
Proof.
  revert a run n count. induction b as [|c b IH]; intros a run n count Hrun Hn Hc;
    cbn [binary_fill binary_elements] in *.
  - destruct run as [|c run]; simpl in Hn; subst n; simpl.
    + by rewrite !app_nil_r.
    + rewrite awrite_app by (rewrite length_fmap; done). rewrite fmap_app. do 3 f_equal. simpl.
      f_equal. f_equal. f_equal. by apply (str_dup_id (c :: run)).
  - destruct (binary_text c) eqn:Ec.
    + assert (Hrun' : Forall (fun c => 0 < c) (run ++ [c])).
      { apply Forall_app. repeat constructor; [done|]. unfold binary_text in Ec.
        destruct (Z.ltb_spec 0 c); [done|]. revert Ec. repeat btestc; done. }
      rewrite <- (IH a (run ++ [c]) n count Hrun' Hn Hc).
      f_equal. symmetry. apply negb_true_iff, Nat.eqb_neq. rewrite length_app. simpl. lia.
    + destruct run as [|d run]; simpl in Hn; subst n; cbn [negb length Nat.eqb mbind option_bind].
      * cbn [replicate]. rewrite awrite_app by (rewrite length_fmap; done). cbn [mbind option_bind].
        pose proof (IH (a ++ [VInt c]) [] _ (count + 1) (Forall_nil_2 _) eq_refl) as H.
        rewrite fmap_app, <- !app_assoc in H. apply H. rewrite length_app. simpl. lia.
      * cbn [replicate]. rewrite awrite_app by (rewrite length_fmap; done). cbn [mbind option_bind].
        rewrite (str_dup_id (d :: run)) by done.
        match goal with |- context [awrite (?x ++ Some ?v :: ?y)] =>
          replace (x ++ Some v :: y) with ((Some <$> (a ++ [v])) ++ y)
            by (by rewrite fmap_app, <- app_assoc) end.
        rewrite awrite_app by (rewrite length_fmap, length_app; simpl; lia). cbn [mbind option_bind].
        pose proof (IH (a ++ [VStr (d :: run); VInt c]) [] _ (count + 1 + 1) (Forall_nil_2 _) eq_refl) as H.
        rewrite !fmap_app, <- !app_assoc in *. apply H. rewrite length_app. simpl. lia.
Qed.
Abbreviation elements := (chars_elements my_is_printable).

Lemma run_app_encode run c : my_is_printable c = true ->
  (length (run ++ encode c) =? 0)%nat = false /\ Forall (fun c => 0 < c) (encode c).
Proof.
  intros Hc. apply Hprintable in Hc. split.
  - apply Nat.eqb_neq. rewrite length_app. pose proof (encode_length_pos c Hc). lia.
  - eapply Forall_impl; [by apply encode_cstr|]. simpl. lia.
Qed.

Lemma chars_count_spec d scount smax llen run :
  0 <= scount -> (scount = 0 <-> run = []) ->
  (chars_count my_is_printable d scount smax llen).2 =
    llen + Z.of_nat (length (elements d run)) - (if (length run =? 0)%nat then 0 else 1).
Proof.
  revert scount smax llen run. induction d as [|c d IH]; intros scount smax llen run H0 Hr;
    cbn [chars_count chars_elements].
  - destruct run; simpl; lia.
  - destruct (my_is_printable c) eqn:Ec.
    + destruct (run_app_encode run c Ec) as [E _].
      assert (Hsz : 1 <= char_size c) by (unfold char_size; repeat case_match; lia).
      rewrite (IH _ _ _ (run ++ encode c)), E; [|lia|].
      * destruct run as [|x run]; simpl.
        -- assert (scount = 0) as -> by (by apply Hr). simpl. lia.
        -- destruct (Z.eqb_spec scount 0) as [->|]; [|lia]. by destruct Hr as [Hr _]; specialize (Hr eq_refl).
      * split; [lia|]. intros E'. rewrite E' in E. done.
    + rewrite (IH 0 _ _ []) by done. destruct run; simpl; lia.
Qed.

Lemma chars_fill_spec d a run n llast :
  Forall (fun c => 0 < c) run ->
  n = length (elements d run) -> llast = Z.of_nat (length a) ->
  chars_fill my_is_printable d ((Some <$> a) ++ replicate n None) llast run =
    Some (Some <$> (a ++ elements d run), llast + Z.of_nat n).
Proof.
  revert a run n llast. induction d as [|c d IH]; intros a run n llast Hrun Hn Hl;
    cbn [chars_fill chars_elements] in *.
  - destruct run as [|c run]; simpl in Hn; subst n; simpl.
    + rewrite !app_nil_r. do 2 f_equal. lia.
    + rewrite awrite_app by (rewrite length_fmap; lia). cbn [mbind option_bind].
      rewrite fmap_app. do 5 f_equal. simpl. do 3 f_equal. by apply (str_dup_id (c :: run)).
  - destruct (my_is_printable c) eqn:Ec.
    + destruct (run_app_encode run c Ec) as [_ E]. apply IH; try done. by apply Forall_app.
    + destruct run as [|x run]; simpl in Hn; subst n; cbn [negb length Nat.eqb mbind option_bind].
      * cbn [replicate]. rewrite awrite_app by (rewrite length_fmap; lia). cbn [mbind option_bind].
        pose proof (IH (a ++ [VInt c]) [] _ (llast + 1) (Forall_nil_2 _) eq_refl) as H.
        rewrite fmap_app, <- !app_assoc in H.
        etransitivity; [apply H; rewrite length_app; simpl; lia|]. do 2 f_equal. simpl. lia.
      * cbn [replicate]. rewrite awrite_app by (rewrite length_fmap; lia). cbn [mbind option_bind].
        rewrite (str_dup_id (x :: run)) by done.
        match goal with |- context [awrite (?x ++ Some ?v :: ?y)] =>
          replace (x ++ Some v :: y) with ((Some <$> (a ++ [v])) ++ y)
            by (by rewrite fmap_app, <- app_assoc) end.
        rewrite awrite_app by (rewrite length_fmap, length_app; simpl; lia). cbn [mbind option_bind].
        pose proof (IH (a ++ [VStr (x :: run); VInt c]) [] _ (llast + 1 + 1) (Forall_nil_2 _) eq_refl) as H.
        rewrite !fmap_app, <- !app_assoc in *.
        etransitivity; [apply H; rewrite length_app; simpl; lia|].
        do 2 f_equal. simpl. lia.
Qed.

(** Each built-in, on arguments its prototype accepts. *)
Lemma safe_decode_binary s rest : is_Some (bf_decode_binary cache (VStr s :: rest)).
Proof.
  unfold bf_decode_binary. destruct (moobinary_to_raw_bytes s) as [b|]; [|by eexists].
  destruct (match rest with [] => false | v :: _ => is_true v end); [case_match; by eexists|].
  cbv zeta. case_match; [by eexists|]. breflect.
  pose proof (binary_count_spec b 0 []) as Hc. simpl in Hc. rewrite Hc in *.
  change MAX_LIST with 134217725 in Hcache.
  rewrite new_list_spec by (unfold INT32_MAX; lia). cbn [mbind option_bind].
  pose proof (binary_fill_spec b [] [] _ 1 (Forall_nil_2 _) eq_refl eq_refl) as Hf. simpl in Hf.
  replace (Z.to_nat _) with (length (binary_elements b [])) by lia. rewrite Hf.
  cbn [mbind option_bind]. rewrite finish_fmap. by eexists.
Qed.

Lemma safe_decode_chars s e rest :
  is_Some (bf_decode_chars cache my_is_printable recoded_chars (VStr s :: VStr e :: rest)).
Proof.
  unfold bf_decode_chars. destruct (_ ≫= _) as [d|]; [|by eexists].
  set (d' := match d with [] => d | _ => _ end). clearbody d'.
  destruct (case_arg rest); [case_match; by eexists|].
  pose proof (chars_count_spec d' 0 0 0 [] ltac:(lia) ltac:(done)) as Hc.
  destruct (chars_count my_is_printable d' 0 0 0) as [smax count]. simpl in Hc.
  destruct ((_ <? _) || _) eqn:Ec; [by eexists|]. apply orb_false_iff in Ec as [? ?]. breflect.
  change MAX_LIST with 134217725 in Hcache.
  rewrite new_list_spec by (unfold INT32_MAX; lia). cbn [mbind option_bind].
  pose proof (chars_fill_spec d' [] [] _ 0 (Forall_nil_2 _) eq_refl eq_refl) as Hf. simpl in Hf.
  rewrite Z.add_0_l in Hf.
  replace (Z.to_nat count) with (length (elements d' [])) by lia. rewrite Hf.
  cbn [mbind option_bind]. destruct (Z.eqb_spec (Z.of_nat (length (elements d' []))) count); [|lia].
  cbn [negb]. rewrite finish_fmap. by eexists.
Qed.

Lemma safe_insert l v rest b : list_ok l ->
  match rest with [] => True | VInt _ :: _ => True | _ => False end ->
  is_Some (insert_or_append cache (VList l :: v :: rest) b).
Proof.
  intros Hl Hrest. destruct (list_ok_int l 1 Hl) as [E1 Hb]; [lia|]. unfold insert_or_append.
  destruct (SVO_MAX_LIST_CONCAT cache <=? llen l); [by eexists|].
  destruct rest as [|[] ?]; try done; cbn [mbind option_bind]; cbv zeta; rewrite ?E1.
  - rewrite doinsert_spec; [by eexists|done|destruct b; lia].
  - rewrite doinsert_spec; [by eexists|done|]. repeat case_match; breflect; lia.
Qed.

(** A checked substitution: the subject and the index pairs. *)
Definition checked_subs (a b : Z) (pairs : list Var) (subject : bytes) : Prop :=
  cstr subject /\ Z.of_nat (length subject) < INT32_MAX /\ llen pairs = 9 /\
  invalid_pair (int a) (int b) (Z.of_nat (nchars subject)) = false /\
  forall k p, pairs !! k = Some p -> exists x y, p = VList [VInt x; VInt y] /\
    invalid_pair (int x) (int y) (Z.of_nat (nchars subject)) = false.

Ltac refuse := try (solve [eexists; split; [reflexivity|done]]).
Lemma check_subs_list_spec subs : wf_value subs ->
  exists bad, check_subs_list subs = Some bad /\
    (bad = false -> exists a b pairs subject,
       subs = VList [VInt a; VInt b; VList pairs; VStr subject] /\ checked_subs a b pairs subject).
Proof.
  intros Hs. unfold check_subs_list.
  destruct subs as [| | | |l| | | | |]; refuse. destruct l as [|[a| | | | | | | | |] l]; refuse.
  destruct l as [|[b| | | | | | | | |] l]; refuse. destruct l as [|[| | | |pairs| | | | |] l]; refuse.
  destruct l as [|[| |subject| | | | | | |] l]; refuse. destruct l; refuse.
  apply wf_value_list in Hs as [_ Hs]. repeat (apply Forall_cons in Hs as [? Hs]).
  rename select (wf_value (VStr subject)) into Hstr.
  pose proof (wf_value_str _ Hstr) as Hc. destruct Hstr as [Hlen _].
  unfold bytes_ok, MAX_STRING in Hlen.
  destruct (Z.eqb_spec (llen pairs) 9); cbn [negb]; [|by eexists].
  rewrite memo_strlen_total by done. cbn [mbind option_bind].
  assert (Z.of_nat (nchars subject) <= Z.of_nat (length subject)).
  { unfold nchars, starts. pose proof (starts_at_le subject 0 Hc). unfold starts_at in *. lia. }
  rewrite (int_id (Z.of_nat (nchars subject))) by (unfold INT32_MIN; lia).
  destruct (invalid_pair (int a) (int b) _) eqn:Eab; [by eexists|].
  eexists. split; [done|]. intros Hex. exists a, b, pairs, subject. split; [done|].
  split_and!; try done; [lia|]. intros k p Hp.
  assert (Hin : invalid_sub p (Z.of_nat (nchars subject)) = false).
  { apply not_true_iff_false. intros Hi. apply not_true_iff_false in Hex. apply Hex.
    apply existsb_exists. exists p. split; [|done].
    by eapply list_elem_of_In, list_elem_of_lookup_2. }
  unfold invalid_sub in Hin. repeat (case_match; try done; []). subst. eauto.
Qed.

Lemma no_panic_substitute a b pairs subject t s : checked_subs a b pairs subject ->
  no_panic (substitute_loop cache (a, b, pairs, subject) s t).
Proof.
  intros (Hs & Hlen & Hp & Hab & Hpairs). revert s.
  assert (Hpiece : forall x y s f,
    invalid_pair (int x) (int y) (Z.of_nat (nchars subject)) = false ->
    (forall s, no_panic (f s)) ->
    no_panic (A := Stream + error)
      (bstartafter <-- panic_none (utf_byte_range subject (int x, int (int y + 1)));
       piece <-- panic_none (read_bytes subject (bstartafter.1 - 1)
                               (bstartafter.2 - bstartafter.1));
       s <-- add_bytes cache s piece; f s)).
  { intros x y s f Hv Hf. destruct (substitute_piece subject (int x) (int y)) as (r & piece & -> & E & _);
      [done..|]. simpl. rewrite E. simpl. apply no_panic_bind; auto with moo. }
  induction t as [t IH] using (induction_ltof1 _ (@length Z)). unfold ltof in IH. intros s.
  destruct t as [|c t]; [done|]. cbn [substitute_loop].
  destruct (c =? 37); cbn [negb].
  2: { apply no_panic_bind; [auto with moo|]. intros. apply IH. simpl. lia. }
  destruct t as [|c' t]; [done|].
  destruct (c' =? 37).
  { apply no_panic_bind; [auto with moo|]. intros. apply IH. simpl. lia. }
  assert (Hrec : forall s, no_panic (substitute_loop cache (a, b, pairs, subject) s t))
    by (intros; apply IH; simpl; lia).
  destruct ((49 <=? c') && (c' <=? 57)) eqn:Ec.
  - breflect. replace (c' - 48) with (Z.of_nat (Z.to_nat (c' - 49)) + 1) by lia. rewrite aread_nat.
    unfold llen in Hp. destruct (lookup_lt_is_Some_2 pairs (Z.to_nat (c' - 49))) as [p Hk]; [lia|].
    destruct (Hpairs _ _ Hk) as (x & y & -> & Hv). rewrite Hk. cbn [sbind]. by apply Hpiece.
  - destruct (c' =? 48); cbn [sbind]; [by apply Hpiece|done].
Qed.

Lemma safe_substitute t subs rest : wf_value subs ->
  is_Some (bf_substitute cache (VStr t :: subs :: rest)).
Proof.
  intros Hs. unfold bf_substitute. destruct (check_subs_list_spec subs Hs) as (bad & -> & Hb).
  cbn [mbind option_bind]. destruct bad; [by eexists|].
  destruct (Hb eq_refl) as (a & b & pairs & subject & -> & Hc).
  apply no_panic_try, no_panic_bind; [by apply no_panic_substitute|]. intros []; done.
Qed.
(** The rest of [bf_] functions of one or more arguments. *)
Lemma safe_length v rest : wf_value v -> is_Some (bf_length (v :: rest)).
Proof.
  intros Hv. destruct v; try by eexists. unfold bf_length.
  rewrite memo_strlen_total by by apply wf_value_str. by eexists.
Qed.

Lemma safe_set l v : wf_value (VList l) -> wf_value v -> llen l < MAX_LIST ->
  is_Some (bf_setadd cache [VList l; v]) /\ is_Some (bf_setremove [VList l; v]).
Proof.
  intros [Hok Hl]%wf_value_list Hv Hlt.
  destruct (ismember_spec v l false (wf_value_user v Hv) (wf_values_user l Hl)) as (i & Hi & Hr & _).
  unfold bf_setadd, bf_setremove, setadd, setremove. rewrite Hi. cbn [mbind option_bind].
  destruct (Z.eqb_spec i 0); cbn [negb].
  - rewrite listappend_spec by done. cbn [mbind option_bind]. split; [|by eexists].
    case_match; by eexists.
  - rewrite listdelete_spec by (done || lia). cbn [mbind option_bind]. split; [|by eexists].
    case_match; by eexists.
Qed.

Lemma safe_delete_set l v n rest : list_ok l ->
  is_Some (bf_listdelete (VList l :: VInt n :: rest)) /\
  is_Some (bf_listset (VList l :: v :: VInt n :: rest)).
Proof.
  intros Hok. destruct (list_ok_int l 0 Hok) as [_ Hb]; [lia|]. unfold bf_listdelete, bf_listset.
  destruct ((n <=? 0) || (llen l <? n)) eqn:E; [split; by eexists|].
  apply orb_false_iff in E as [? ?]. breflect.
  rewrite int_id by (unfold INT32_MIN, INT32_MAX; lia). split.
  - rewrite listdelete_spec by (done || lia). by eexists.
  - unfold listset. replace n with (Z.of_nat (Z.to_nat (n - 1)) + 1) at 1 by lia. rewrite aread_nat.
    unfold llen in *. destruct (lookup_lt_is_Some_2 l (Z.to_nat (n - 1))) as [w ->]; [lia|].
    by eexists.
Qed.

Lemma safe_equal v w : wf_value v -> wf_value w -> is_Some (bf_equal [v; w]).
Proof.
  intros Hv Hw. unfold bf_equal.
  destruct (equality_total v w true) as [b ->]; [by apply wf_value_user..|]. by eexists.
Qed.

Lemma safe_is_member v l : wf_value v -> wf_value (VList l) -> is_Some (bf_is_member [v; VList l]).
Proof.
  intros Hv [_ Hl]%wf_value_list. unfold bf_is_member.
  destruct (ismember_spec v l true (wf_value_user v Hv) (wf_values_user l Hl)) as (i & -> & _).
  by eexists.
Qed.

Lemma safe_search s what rest : wf_value (VStr s) -> wf_value (VStr what) ->
  is_Some (bf_index (VStr s :: VStr what :: rest)) /\
  is_Some (bf_rindex (VStr s :: VStr what :: rest)).
Proof.
  intros Hs Hw. pose proof (wf_value_str s Hs) as Hcs. pose proof (wf_value_str what Hw) as Hcw.
  unfold bf_index, bf_rindex. split.
  - unfold strindex. rewrite (strindex_loop_spec _ s what 0 0) by (done || lia). by eexists.
  - destruct Hs as (_ & vs & Hvs & ->). rewrite strrindex_eq by done. by eexists.
Qed.

Lemma safe_strsub s what w rest : cstr s -> cstr what ->
  is_Some (bf_strsub cache (VStr s :: VStr what :: VStr w :: rest)).
Proof.
  intros Hs Hw. unfold bf_strsub. destruct (Z.eqb_spec (byte_at what 0) 0); [by eexists|].
  destruct what as [|c what]; [done|].
  destruct (strsub_loop_total (S (length s)) s (c :: what) w (case_arg rest)) as [t Ht]; [done|lia|].
  apply no_panic_try, no_panic_bind.
  - unfold stream_add_strsub. rewrite Ht. done.
  - intros. apply no_panic_bind; auto with moo.
Qed.

Lemma safe_tochar v : is_Some (bf_tochar my_is_printable my_char_lookup [v]).
Proof. unfold bf_tochar. repeat case_match; by eexists. Qed.

Lemma safe_char s rest : cstr s -> s <> [] -> is_Some (bf_charname my_char_name (VStr s :: rest)) /\
  is_Some (bf_ord (VStr s :: rest)).
Proof.
  intros Hs Hne. unfold bf_charname, bf_ord, single_char_first_argument.
  destruct (get_utf_char s 0 Hs) as [_ Hq]; [destruct s; [done|simpl; lia]|].
  destruct (get_utf s 0) as [ucs p]. simpl in Hq. destruct (Nat.leb_spec p (length s)); [|lia].
  cbn [mbind option_bind]. split; repeat case_match; by eexists.
Qed.

Lemma behind_other name args : bool_decide (name ∈ [BS "charname"; BS "ord"]) = false -> reads_behind name args = false.
Proof. intros E. unfold reads_behind. by destruct args as [|[| |[|? ?]| | | | | | |] [|? ?]]. Qed.

Lemma unsafe_char rest : bf_charname my_char_name (VStr [] :: rest) = None /\ bf_ord (VStr [] :: rest) = None.
Proof. by split. Qed.
End Safety.

(** *** Encoding binary strings *)

Lemma decode_binary_spec cache s b :
  0 <= SVO_MAX_LIST_CONCAT cache <= MAX_LIST ->
  moobinary_to_raw_bytes s = Some b -> Z.of_nat (length b) <= SVO_MAX_LIST_CONCAT cache ->
  bf_decode_binary cache [VStr s] = Some (make_var_pack (VList (binary_elements b []))).
Proof.
  intros Hc Hs Hlen. unfold bf_decode_binary. rewrite Hs. cbv zeta.
  pose proof (binary_count_spec b 0 []) as Hn. simpl in Hn. rewrite Hn.
  pose proof (binary_elements_length b []) as Hl. simpl in Hl.
  destruct (Z.ltb_spec (SVO_MAX_LIST_CONCAT cache)
    (0 + Z.of_nat (length (binary_elements b [])) - 0)); [lia|].
  change MAX_LIST with 134217725 in Hc.
  rewrite new_list_spec by (unfold INT32_MAX; lia). cbn [mbind option_bind].
  pose proof (binary_fill_spec b [] [] _ 1 (Forall_nil_2 _) eq_refl eq_refl) as Hf. simpl in Hf.
  replace (Z.to_nat _) with (length (binary_elements b [])) by lia. rewrite Hf.
  cbn [mbind option_bind]. by rewrite finish_fmap.
Qed.

Section Encode.
Context (cache : option_cache).
Abbreviation max := (stream_alloc_maximum cache).
Context (Hmax : max < 2 ^ 61).

Lemma add_bytes_fits s b : stream_wf max s ->
  Z.of_nat (length (s_data s) + length b) < max ->
  exists s', add_bytes cache s b = SOk s' /\ s_data s' = s_data s ++ b /\ stream_wf max s'.
Proof.
  intros Hwf Hl.
  pose proof (add_spec 1 max ltac:(lia) Hmax s b (Z.of_nat (length b)) (fun _ => b) Hwf
    ltac:(lia) ltac:(done)) as H.
  unfold add_bytes, stream_add_bytes. unfold bounded_append in H.
  destruct (Z.ltb_spec (Z.of_nat (length (s_data s)) + Z.of_nat (length b)) max); [|lia].
  destruct (grew 1 max s (Z.of_nat (length b))) as [[s1 again]|]; simpl in *; [|done].
  destruct H as [Hd Hw]. simpl in Hd. eexists. split; [done|]. split; [done|done].
Qed.

Lemma add_char_fits s c : stream_wf max s -> Z.of_nat (length (s_data s)) + 1 < max ->
  exists s', add_char cache s c = SOk s' /\ s_data s' = s_data s ++ [c] /\ stream_wf max s'.
Proof.
  intros Hwf Hl.
  pose proof (add_spec 1 max ltac:(lia) Hmax s [c] 1 (fun _ => [c]) Hwf
    ltac:(simpl; lia) ltac:(done)) as H.
  unfold add_char, stream_add_char. unfold bounded_append in H.
  destruct (Z.ltb_spec (Z.of_nat (length (s_data s)) + 1) max); [|lia].
  destruct (grew 1 max s 1) as [[s1 again]|]; simpl in *; [|done].
  destruct H as [Hd Hw]. simpl in Hd. eexists. split; [done|]. split; [done|done].
Qed.

(** Encoding appends the bytes that a value stands for. *)
Lemma encode_binary_fits v : forall s b, binary_bytes v = Some b ->
  stream_wf max s -> Z.of_nat (length (s_data s) + length b) < max ->
  exists s', encode_binary cache s v = SOk (s', true) /\ s_data s' = s_data s ++ b /\
             stream_wf max s'.
Proof.
  induction v as [n|o|t|e|l IH| | | | |f] using Var_rect'; intros s b Hb Hwf Hl; try done;
    cbn [binary_bytes encode_binary] in *.
  - destruct (Z.ltb_spec n 0), (Z.leb_spec 0 n), (Z.ltb_spec n 256), (Z.leb_spec 256 n);
      try lia; cbn in Hb; simplify_eq; cbn [orb].
    destruct (add_char_fits s (byte n) Hwf) as (s' & -> & Hd & Hw); [simpl in Hl; lia|].
    unfold byte in *. rewrite uwrap_id in * by lia. eexists. by split.
  - simplify_eq. destruct (add_bytes_fits s b Hwf Hl) as (s' & -> & Hd & Hw). eexists. by split.
  - revert s b Hb Hwf Hl. induction IH as [|v l Hv _ IHl]; intros s b Hb Hwf Hl.
    { simplify_eq. exists s. by rewrite app_nil_r. }
    apply bind_Some in Hb as (b1 & Hb1 & Hb). apply bind_Some in Hb as (b2 & Hb2 & [= <-]).
    rewrite length_app in Hl.
    destruct (Hv s b1 Hb1 Hwf) as (s1 & -> & Hd1 & Hw1); [lia|]. simpl.
    destruct (IHl s1 b2 Hb2 Hw1) as (s2 & E & Hd2 & Hw2); [rewrite Hd1, length_app; lia|].
    exists s2. split; [exact E|]. by rewrite Hd2, Hd1, app_assoc.
Qed.

Lemma encode_binary_elements b : 128 <= max ->
  Forall (fun c => 0 <= c < 256) b -> 3 * Z.of_nat (length b) < max ->
  bf_encode_binary cache (binary_elements b []) =
    Some (make_string_pack (stream_add_moobinary_from_raw_bytes b)).
Proof.
  intros H128 Hb Hl.
  assert (Hnew : stream_wf max (new_stream 100)) by (split; [done|by change (128 <= max)]).
  assert (Hbin : binary_bytes (VList (binary_elements b [])) = Some b)
    by (by rewrite binary_bytes_elements).
  unfold bf_encode_binary.
  destruct (encode_binary_fits _ (new_stream 100) b Hbin Hnew) as (s & -> & Hd & _); [simpl; lia|].
  cbn [sbind fst snd]. unfold stream_contents. rewrite Hd. cbn [new_stream s_data app].
  pose proof (moobinary_length b) as Hlen.
  destruct (add_bytes_fits (new_stream 100) (stream_add_moobinary_from_raw_bytes b) Hnew)
    as (s2 & -> & Hd2 & _); [cbn [new_stream s_data length Nat.add]; lia|].
  cbn [sbind try_stream]. rewrite Hd2. cbn [new_stream s_data app].
  rewrite str_dup_id; [done|]. eapply Forall_impl; [by apply moobinary_printable|]. simpl. lia.
Qed.
End Encode.

(** *** The pattern cache *)

(** An entry in use holds the compilation of its string. *)
Definition pat_entry_ok {Pattern : Type} (new_pattern : bytes -> bool -> option Pattern)
    (e : pat_cache_entry) : Prop :=
  forall s, pc_string e = Some s -> cstr s /\ exists p, pc_pattern e = Some p /\
    new_pattern s (pc_case_matters e) = Some p.

Lemma pat_hit_spec {Pattern : Type} new_pattern s cm (e : @pat_cache_entry Pattern) :
  pat_entry_ok new_pattern e -> cstr s -> pat_hit s cm e = true ->
  pc_string e = Some s /\ pc_case_matters e = cm /\ pc_pattern e = new_pattern s cm.
Proof.
  unfold pat_hit. intros He Hs. destruct (pc_string e) as [t|] eqn:Et; [|done].
  destruct (He t Et) as (Ht & p & Hp & Hn). rewrite andb_true_iff, Z.eqb_eq.
  intros [E Hcm]. apply strcmp_eq in E as ->; [|done..]. apply eqb_prop in Hcm as ->.
  split_and!; congruence.
Qed.

(** The entry found, the entries around it, and the old entry it replaces. *)
Lemma pat_search_spec {Pattern : Type} new_pattern s cm (c : list (@pat_cache_entry Pattern)) :
  c <> [] -> Forall (pat_entry_ok new_pattern) c -> cstr s ->
  exists before e after d, pat_search new_pattern s cm c = Some (before, e, after) /\
    pat_entry_ok new_pattern e /\ pc_pattern e = new_pattern s cm /\
    c = before ++ d :: after /\
    (forall p, new_pattern s cm = Some p -> pc_string e = Some s /\ pc_case_matters e = cm) /\
    ((exists x, x ∈ c /\ pat_hit s cm x = true) -> d = e).
Proof.
  intros Hne Hok Hs. induction Hok as [|e c He Hc IH]; [done|]. cbn [pat_search].
  destruct (pat_hit s cm e) eqn:Eh.
  { destruct (pat_hit_spec new_pattern s cm e He Hs Eh) as (E1 & E2 & E3).
    exists [], e, c, e. split_and!; try done. }
  destruct c as [|e2 c].
  - eexists [], _, [], e. split; [reflexivity|]. split_and!; try done.
    + intros t. simpl. destruct (new_pattern s cm) as [p|] eqn:Ep; [|done].
      intros [= <-]. split; [done|]. by exists p.
    + simpl. by intros p ->.
    + intros (x & ->%list_elem_of_singleton & Hx). congruence.
  - destruct IH as (b & e' & a & d & -> & He' & Hp & -> & Hd & Hh); [done|].
    exists (e :: b), e', a, d. split; [done|]. split_and!; try done.
    intros (x & [->|Hx]%elem_of_cons & Hhit); [congruence|]. apply Hh. eauto.
Qed.

(** Take the arguments apart along a prototype. *)
Ltac open_args :=
  repeat match goal with
  | H : Forall wf_value (_ :: _) |- _ => apply Forall_cons in H as [? H]
  | H : types_accepted (_ :: _) (_ :: _) |- _ => apply types_accepted_cons in H as [? H]
  | H : proto_matches TYPE_STR _ = true |- _ => apply proto_str in H as [? ->]
  | H : proto_matches TYPE_LIST _ = true |- _ => apply proto_list in H as [? ->]
  | H : proto_matches TYPE_INT _ = true |- _ => apply proto_int in H as [? ->]
  | H : proto_matches TYPE_OBJ _ = true |- _ => apply proto_obj in H as [? ->]
  end.

(** Arguments of a built-in: accepted by its prototype, of values MOO code can
    build, the lists not already of the largest size. *)
Definition good_arguments (mn mx : Z) (proto : list var_type) (args : list Var) : Prop :=
  mn <= llen args /\ (mx = -1 \/ llen args <= mx) /\ types_accepted proto args /\
  Forall wf_value args /\ (forall l, VList l ∈ args -> llen l < MAX_LIST).

(** The arguments of a function with a fixed maximum, one case per number. *)
Ltac open_good H :=
  let Hmin := fresh in let Hmax := fresh in let Ht := fresh in let Hwf := fresh in
  let Hlt := fresh "Hlt" in
  destruct H as (Hmin & Hmax & Ht & Hwf & Hlt); unfold llen in Hmin, Hmax;
  match type of Hmax with
  | -1 = -1 \/ _ => idtac
  | _ => match goal with args : list Var |- _ =>
           destruct args as [|? [|? [|? [|? [|? ?]]]]]; cbn [length] in Hmin, Hmax; try lia end;
         open_args
  end; clear Hmin Hmax.

(** ** Properties *)

(** C38: the built-ins on lists and strings are safe behind the call gate:
    whatever arguments the prototype of a function accepts, the function does
    not panic, does not read or write outside a list, a string or the
    argument list, and (for [decode_binary] and [decode_chars]) fills exactly
    the list it has allocated; it returns a value or raises an error.  The only
    exceptions are [charname] and [ord], which read behind the end of the empty
    string.  [list_functions] are 23 of the 30 functions that list.c
    registers, all but value_hash, string_hash, binary_hash, match, rmatch,
    crypt and encode_chars. *)
Theorem list_builtins_safe (cache : option_cache) (float_g : Z -> spec_float -> bytes)
    (strtod : bytes -> spec_float) (printable : Z -> bool) (lookup : bytes -> Z)
    (char_name : Z -> option bytes) (recoded : bytes -> bytes -> option (list Z))
  :
  0 <= SVO_MAX_LIST_CONCAT cache <= MAX_LIST ->
  (forall c, printable c = true -> scalar c) ->
  Forall (fun '(name, mn, mx, proto, f) =>
            forall args, good_arguments mn mx proto args ->
              if reads_behind name args then f args = None else is_Some (f args))
    (list_functions cache float_g strtod printable lookup char_name recoded).
Proof.
  intros Hc Hpr. unfold list_functions.
  repeat (apply Forall_cons; split); [..|constructor]; intros args Hargs;
    open_good Hargs.
  all: try (rewrite behind_other by reflexivity).
  all: try match goal with
       | |- if reads_behind _ [VStr ?s] then _ else _ => assert (Hs : cstr s) by (by apply wf_value_str);
           destruct s as [|c s]; [by apply unsafe_char|by apply (safe_char char_name (c :: s) [] Hs)]
       end.
  all: try (rename select (wf_value (VList _)) into Hwl; pose proof (proj1 (wf_value_list _) Hwl) as [Hok _]).
  all: solve
    [ by eexists
    | by eapply safe_decode_binary | by eapply safe_decode_chars
    | by apply no_panic_try, no_panic_bind;
        [apply no_panic_encode | intros [? []]; simpl; [apply no_panic_bind; auto with moo|done]]
    | by apply safe_length | by apply safe_tochar
    | by apply safe_set; [..|apply Hlt; left]
    | by apply safe_insert
    | by apply (safe_delete_set _ VNone) | by apply safe_delete_set
    | by apply safe_equal | by apply safe_is_member
    | by apply no_panic_try, no_panic_bind; [apply no_panic_tostr_all|]
    | by apply no_panic_try, no_panic_bind; [apply no_panic_unparse|]
    | by apply safe_substitute
    | by apply safe_search
    | by apply safe_strsub; apply wf_value_str ].
Qed.

Example list_builtins_safe_witness :
  let cache := mkCache [] 1022 1015 true 1016 in
  let f := list_functions cache (fun _ _ => BS "1") (fun _ => S754_zero false)
             (fun c => (32 <=? c) && (c <=? 126)) (fun _ => 0) (fun _ => None) (fun _ _ => None) in
  length f = 23%nat /\
  Forall (fun '(name, mn, mx, proto, f) =>
            forall args, good_arguments mn mx proto args ->
              if reads_behind name args then f args = None else is_Some (f args)) f.
Proof.
  intros cache f. split; [reflexivity|]. apply list_builtins_safe.
  - vm_compute. split; discriminate.
  - intros c Hc. apply andb_true_iff in Hc as [H1 H2]. apply Z.leb_le in H1, H2.
    unfold scalar. lia.
Defined.

(** C39: a binary string, decoded to a list and encoded again, is the canonical
    notation of the same bytes: whatever bytes the string stands for (NULs and
    bytes above 127 included), [decode_binary] splits them into runs of text and
    single bytes, and [encode_binary] of that list gives the notation back, as
    long as the results are within the limits. *)
Theorem binary_roundtrip (cache : option_cache) (s b : bytes) :
  0 <= SVO_MAX_LIST_CONCAT cache <= MAX_LIST ->
  moobinary_to_raw_bytes s = Some b -> Forall (fun c => 0 <= c < 256) b ->
  128 <= stream_alloc_maximum cache < 2 ^ 61 ->
  Z.of_nat (length b) <= SVO_MAX_LIST_CONCAT cache ->
  3 * Z.of_nat (length b) < stream_alloc_maximum cache ->
  exists l, bf_decode_binary cache [VStr s] = Some (make_var_pack (VList l)) /\
    bf_encode_binary cache l =
      Some (make_string_pack (stream_add_moobinary_from_raw_bytes b)).
Proof.
  intros Hc Hs Hb [H128 Hmax] Hlist Hlen. exists (binary_elements b []).
  split; [by apply decode_binary_spec|]. by apply encode_binary_elements.
Qed.

Example binary_roundtrip_witness :
  let cache := mkCache [] 1022 1015 true 1016 in
  bf_decode_binary cache [VStr (BS "ab~00~ffc")] =
    Some (make_var_pack (VList [VStr (BS "ab"); VInt 0; VInt 255; VStr (BS "c")])) /\
  exists l, bf_decode_binary cache [VStr (BS "ab~00~FFc")] = Some (make_var_pack (VList l)) /\
    bf_encode_binary cache l =
      Some (make_string_pack (stream_add_moobinary_from_raw_bytes [97; 98; 0; 255; 99])).
Proof.
  intros cache. split; [reflexivity|].
  apply (binary_roundtrip cache (BS "ab~00~FFc") [97; 98; 0; 255; 99]).
  - split; vm_compute; discriminate.
  - reflexivity.
  - repeat constructor; lia.
  - split; [vm_compute; discriminate|reflexivity].
  - vm_compute. discriminate.
  - reflexivity.
Defined.

(** C40: the positions of [listinsert] and [listappend] are truncated to 32
    bits before they are clamped to the list.  Positions that fit an [int]
    behave as documented; beyond, an element can end up anywhere: a position
    far past the end may put it at the front. *)
Theorem insert_position_truncated (cache : option_cache) (l : list Var) (v : Var) (n : Z) :
  list_ok l -> llen l < SVO_MAX_LIST_CONCAT cache ->
  let place k := Some (make_var_pack (VList (take k l ++ v :: drop k l))) in
  (INT32_MIN <= n < INT32_MAX ->
     bf_listinsert cache [VList l; v; VInt n] = place (Z.to_nat (n - 1)) /\
     bf_listappend cache [VList l; v; VInt n] = place (Z.to_nat n)) /\
  bf_listappend cache [VList l; v; VInt INT32_MAX] = place 0%nat /\
  (1 <= n <= llen l -> bf_listinsert cache [VList l; v; VInt (n + 2 ^ 32)] = place (Z.to_nat (n - 1))).
Proof.
  intros Hl Hlt place. destruct (list_ok_int l 1 Hl) as [E1 Hb]; [lia|].
  unfold bf_listinsert, bf_listappend, insert_or_append. cbn [mbind option_bind]. cbv zeta.
  destruct (Z.leb_spec (SVO_MAX_LIST_CONCAT cache) (llen l)); [lia|]. rewrite E1.
  assert (Hplace : forall p k, Z.of_nat (k `min` length l) = Z.max 0 (Z.min (p - 1) (llen l)) ->
    (r ← doinsert false l v (if p <=? 0 then 1 else if llen l + 1 <? p then llen l + 1 else p);
     Some (make_var_pack (VList r))) = place k).
  { intros p k Hk.
    set (q := if p <=? 0 then 1 else if llen l + 1 <? p then llen l + 1 else p).
    assert (Hq : q = Z.max 1 (Z.min p (llen l + 1))) by (unfold q; repeat btestc).
    rewrite doinsert_spec by (done || lia). unfold place, llen in *. cbn [mbind option_bind].
    replace (Z.to_nat (q - 1)) with (k `min` length l)%nat by lia.
    destruct (decide (k <= length l)%nat); [by rewrite Nat.min_l|].
    rewrite Nat.min_r by lia. by rewrite !(take_ge l), !(drop_ge l) by lia. }
  unfold llen in *. split_and!.
  - intros Hn. unfold INT32_MIN, INT32_MAX in Hn.
    rewrite !int_id by (unfold INT32_MIN, INT32_MAX; lia). split; apply Hplace; lia.
  - change (int (INT32_MAX + 1)) with (- 2 ^ 31). apply Hplace. lia.
  - intros Hn. rewrite Z.add_0_r. replace (int (n + 2 ^ 32)) with n; [apply Hplace; lia|].
    unfold int, swrap. replace (n + 2 ^ 32 + 2 ^ (32 - 1)) with (n + 2 ^ (32 - 1) + 1 * 2 ^ 32) by lia.
    rewrite Z_mod_plus_full, Z.mod_small by lia. lia.
Qed.

Example insert_position_truncated_witness :
  let cache := mkCache [] 1022 1015 true 1016 in
  let l := [VInt 1; VInt 2] in
  let place k := Some (make_var_pack (VList (take k l ++ VInt 9 :: drop k l))) in
  place 0%nat = Some (BI_RETURN (VList [VInt 9; VInt 1; VInt 2])) /\
  (INT32_MIN <= 2 < INT32_MAX ->
     bf_listinsert cache [VList l; VInt 9; VInt 2] = place (Z.to_nat (2 - 1)) /\
     bf_listappend cache [VList l; VInt 9; VInt 2] = place (Z.to_nat 2)) /\
  bf_listappend cache [VList l; VInt 9; VInt INT32_MAX] = place 0%nat /\
  (1 <= 2 <= llen l ->
     bf_listinsert cache [VList l; VInt 9; VInt (2 + 2 ^ 32)] = place (Z.to_nat (2 - 1))).
Proof.
  intros cache l place. split; [reflexivity|].
  apply (insert_position_truncated cache l (VInt 9) 2); vm_compute; [discriminate|reflexivity].
Defined.

(** The pattern cache is transparent: looking a pattern up gives what
    compiling it would give, whatever was looked up before; the entry moves to
    the front, no entry is lost but the least recently used one, and a failed
    compilation is not remembered as a hit. *)
Theorem get_pattern_transparent {Pattern : Type} (new_pattern : bytes -> bool -> option Pattern)
    (c : list pat_cache_entry) (s : bytes) (cm : bool) :
  c <> [] -> Forall (pat_entry_ok new_pattern) c -> cstr s ->
  exists e c' dropped, get_pattern new_pattern c s cm = Some (new_pattern s cm, e :: c') /\
    Forall (pat_entry_ok new_pattern) (e :: c') /\ length (e :: c') = length c /\
    (dropped :: c' ≡ₚ c) /\
    (forall p, new_pattern s cm = Some p -> pc_string e = Some s /\ pc_case_matters e = cm) /\
    ((exists x, x ∈ c /\ pat_hit s cm x = true) -> dropped = e).
Proof.
  intros Hne Hok Hs. unfold get_pattern.
  destruct (pat_search_spec new_pattern s cm c Hne Hok Hs) as (b & e & a & d & -> & He & Hp & Hc & Hd & Hh).
  cbn [mbind option_bind]. rewrite Hp. exists e, (b ++ a), d.
  assert (Hperm : d :: b ++ a ≡ₚ c) by (rewrite Hc; apply Permutation_middle).
  split; [done|]. split; [|split; [|split; [done|split; [done|done]]]].
  - constructor; [done|]. rewrite <- Hperm in Hok. by apply Forall_inv_tail in Hok.
  - rewrite <- Hperm. done.
Qed.

Example get_pattern_transparent_witness :
  let compile : bytes -> bool -> option bytes := fun s cm => Some (s ++ [if cm then 1 else 0]) in
  let c0 := setup_pattern_cache (Pattern := bytes) in
  let get s := match get_pattern compile c0 s false with Some (_, c) => c | None => [] end in
  let c := get (BS "x") in
  Forall (pat_entry_ok compile) c /\
  exists e c' dropped,
    get_pattern compile c (BS "x") false = Some (compile (BS "x") false, e :: c') /\
    Forall (pat_entry_ok compile) (e :: c') /\ length (e :: c') = length c /\
    (dropped :: c' ≡ₚ c) /\
    (forall p, compile (BS "x") false = Some p ->
       pc_string e = Some (BS "x") /\ pc_case_matters e = false) /\
    ((exists x, x ∈ c /\ pat_hit (BS "x") false x = true) -> dropped = e).
Proof.
  intros compile c0 get c.
  assert (Hx : cstr (BS "x")) by (repeat constructor).
  assert (H : Forall (pat_entry_ok compile) c).
  { unfold c, get. cbn. repeat (apply Forall_cons; split); [..|by apply Forall_nil_2]; intros s Hs;
      simpl in Hs; simplify_eq; (split; [done|by eexists]). }
  split; [done|]. apply get_pattern_transparent; done.
Defined.
