(* ===== verification/Words.v ===== *)
(** * Splitting a line into words (parse_cmd.c, and the C library's strtol)

    [parse_into_words] splits its argument in place: it unquotes into the same
    buffer it reads.  The model keeps the buffer; the theorem is that the
    in-place version computes a function of the string. *)

From S2P Require Import Prelude Utf CString Values.

(** ** Definitions *)

Definition dquote : Z := 34.
Definition backslash : Z := 92.

(** A buffer is the array of its bytes, the NUL included. *)
Definition put (buf : bytes) (p : nat) (c : Z) : option bytes :=
  if decide (p < length buf)%nat then Some (<[p := c]> buf) else None.

(** [while ( *input == ' ') input++]. *)
Fixpoint skip_blanks (fuel : nat) (buf : bytes) (input : nat) : option nat :=
  match fuel with
  | O => None
  | S f => c ← buf !! input; if c =? space_char then skip_blanks f buf (S input) else Some input
  end.

(** [while ( *input != '\0' && (in_quotes || *input != ' '))]. *)
Fixpoint word_loop (fuel : nat) (buf : bytes) (input ptr : nat) (in_quotes : bool)
    : option (bytes * nat * nat * bool) :=
  match fuel with
  | O => None
  | S f =>
      c ← buf !! input;
      if negb (c =? 0) && (in_quotes || negb (c =? space_char)) then
        let input := S input in
        if c =? dquote then word_loop f buf input ptr (negb in_quotes)
        else if c =? backslash then
          c ← buf !! input;
          if negb (c =? 0) then buf ← put buf ptr c; word_loop f buf (S input) (S ptr) in_quotes
          else word_loop f buf input ptr in_quotes
        else buf ← put buf ptr c; word_loop f buf input (S ptr) in_quotes
      else Some (buf, input, ptr, in_quotes)
  end.

(** The array of words has as many places as needed: it is doubled when full. *)
Fixpoint words_loop (fuel : nat) (buf : bytes) (input ptr : nat) (in_quotes : bool) (words : list nat)
    : option (bytes * list nat) :=
  match fuel with
  | O => None
  | S f =>
      c ← buf !! input;
      if c =? 0 then Some (buf, words)
      else
        let words := words ++ [ptr] in
        '(buf, input, ptr, in_quotes) ← word_loop (S (length buf)) buf input ptr in_quotes;
        input ← skip_blanks (length buf) buf input;
        buf ← put buf ptr 0;
        words_loop f buf input (S ptr) in_quotes words
  end.

(** The result is the buffer as it is afterwards, and the words as offsets. *)
Definition parse_into_words (buf : bytes) : option (bytes * list nat) :=
  input ← skip_blanks (length buf) buf 0;
  words_loop (length buf) buf input 0 false [].

(** The string that starts at an offset of a buffer. *)
Fixpoint until_nul (s : bytes) : bytes :=
  match s with [] => [] | c :: s => if c =? 0 then [] else c :: until_nul s end.
Definition string_at (buf : bytes) (p : nat) : bytes := until_nul (drop p buf).

(** The words of a string, as strings. *)
Definition words_of (s : bytes) : option (list bytes) :=
  '(buf, words) ← parse_into_words (s ++ [0]); Some (map (string_at buf) words).

(** [strcpy], then [strcat] of a blank and of each further word, into memory of
    the size computed before. *)
Definition build_string (argv : list bytes) : option bytes :=
  match argv with
  | [] => Some []
  | w :: rest =>
      let len := fold_left (fun len a => (len + (1 + length a))%nat) rest (length w) in
      let str := fold_left (fun s a => s ++ [space_char] ++ a) rest w in
      if decide (length str < len + 1)%nat then Some str else None
  end.

Definition parse_into_wordlist (command : bytes) : option Var :=
  argv ← words_of command; Some (VList (VStr <$> argv)).

(** *** strtol, base 10 *)

Definition isspace (c : Z) : bool := (c =? space_char) || ((9 <=? c) && (c <=? 13)).
Definition isdigit (c : Z) : bool := (48 <=? c) && (c <=? 57).

Fixpoint skip_isspace (s : bytes) : bytes :=
  match s with c :: s' => if isspace c then skip_isspace s' else s | [] => [] end.

(** The number that the leading digits of [s] denote after [acc], and the rest. *)
Fixpoint read_digits (acc : Z) (s : bytes) : Z * bytes :=
  match s with
  | c :: s' => if isdigit c then read_digits (acc * 10 + (c - 48)) s' else (acc, s)
  | [] => (acc, [])
  end.

(** A [long] has 64 bits; a value out of range becomes the nearest [long]. *)
Definition clamp_long (z : Z) : Z := Z.max NUM_MIN (Z.min NUM_MAX z).

(** The value and what follows the number; the whole string if there is none. *)
Definition strtol (s : bytes) : Z * bytes :=
  let t := skip_isspace s in
  let '(neg, t) := match t with
                   | c :: t' => if c =? 45 then (true, t') else if c =? 43 then (false, t') else (false, t)
                   | [] => (false, [])
                   end in
  match t with
  | c :: _ => if isdigit c
              then let '(n, rest) := read_digits 0 t in (clamp_long (if neg : bool then - n else n), rest)
              else (0, s)
  | [] => (0, s)
  end.

(** ** Specification *)

(** The rest of a word, and what follows it. *)
Fixpoint scan_word (q : bool) (s : bytes) : bytes * bytes :=
  match s with
  | [] => ([], [])
  | c :: s' =>
      if q || negb (c =? space_char) then
        if c =? dquote then scan_word (negb q) s'
        else if c =? backslash then
          match s' with
          | [] => ([], [])
          | c' :: s'' => let '(w, r) := scan_word q s'' in (c' :: w, r)
          end
        else let '(w, r) := scan_word q s' in (c :: w, r)
      else ([], s)
  end.

Fixpoint split_fuel (fuel : nat) (s : bytes) : list bytes :=
  match fuel with
  | O => []
  | S f =>
      match skip_spaces s with
      | [] => []
      | s' => let '(w, r) := scan_word false s' in w :: split_fuel f r
      end
  end.
Definition split_words (s : bytes) : list bytes := split_fuel (S (length s)) s.

(** Writing a word so that it is read back. *)
Definition quote (w : bytes) : bytes :=
  [dquote] ++ (w ≫= fun c => if (c =? dquote) || (c =? backslash) then [backslash; c] else [c]) ++ [dquote].
Fixpoint join (l : list bytes) : bytes :=
  match l with
  | [] => []
  | [w] => w
  | w :: l => w ++ [space_char] ++ join l
  end.

(** ** In place *)

Lemma put_mid pre x post c : put (pre ++ x :: post) (length pre) c = Some (pre ++ c :: post).
Proof.
  unfold put. rewrite decide_True by (rewrite length_app; simpl; lia).
  by rewrite insert_app_r_alt, Nat.sub_diag by lia.
Qed.

Lemma get_mid (pre mid : bytes) c s : (pre ++ mid ++ c :: s) !! (length pre + length mid)%nat = Some c.
Proof. rewrite app_assoc, <- length_app. apply list_lookup_middle. done. Qed.

(** The next byte [c] goes to the end of what has been written. *)
Lemma put_next pre mid d c s : exists mid',
  put (pre ++ mid ++ d :: s) (length pre) c = Some ((pre ++ [c]) ++ mid' ++ s) /\ length mid' = length mid.
Proof.
  destruct mid as [|m mid]; simpl.
  - exists []. by rewrite put_mid, <- app_assoc.
  - exists (mid ++ [d]). rewrite put_mid, <- !app_assoc. split; [done|]. rewrite length_app. simpl. lia.
Qed.

Lemma cstr_cons c s : cstr (c :: s) <-> 0 < c < 256 /\ cstr s.
Proof. unfold cstr. by rewrite Forall_cons. Qed.

Lemma scan_word_spec n : forall q s, (length s <= n)%nat -> cstr s ->
  cstr (scan_word q s).1 /\ cstr (scan_word q s).2 /\
  (length (scan_word q s).1 + length (scan_word q s).2 <= length s)%nat.
Proof.
  induction n as [|n IH]; intros q s Hn Hs.
  { destruct s; [|simpl in Hn; lia]. by repeat split. }
  destruct s as [|c s]; [by repeat split|]. simpl in Hn. cbn [scan_word].
  destruct (q || negb (c =? space_char)); [|split; [constructor|by split]].
  apply cstr_cons in Hs as [Hc Hs].
  destruct (c =? dquote); [destruct (IH (negb q) s) as (?&?&?); [lia|done|]; repeat split; simpl; (done||lia)|].
  destruct (c =? backslash).
  - destruct s as [|c' s]; [by repeat split; simpl; (done || lia)|]. apply cstr_cons in Hs as [Hc' Hs].
    destruct (IH q s) as (?&?&?); [simpl in Hn; lia|done|]. destruct (scan_word q s) as [w r]. simpl in *.
    repeat split; [by constructor|done|lia].
  - destruct (IH q s) as (?&?&?); [lia|done|]. destruct (scan_word q s) as [w r]. simpl in *.
    repeat split; [by constructor|done|lia].
Qed.

Lemma word_loop_spec fuel : forall pre mid s q, (length s < fuel)%nat -> cstr s ->
  let w := (scan_word q s).1 in let r := (scan_word q s).2 in
  exists mid' q', word_loop fuel (pre ++ mid ++ s ++ [0]) (length pre + length mid) (length pre) q =
    Some (pre ++ w ++ mid' ++ r ++ [0], (length pre + length w + length mid')%nat, (length pre + length w)%nat, q') /\
    (r = [] \/ exists r', r = space_char :: r' /\ q' = false).
Proof.
  induction fuel as [|f IH]; intros pre mid s q Hf Hs; [lia|]. cbv zeta. cbn [word_loop].
  destruct s as [|c s].
  { simpl. rewrite get_mid. simpl. exists mid, q. rewrite !Nat.add_0_r. split; [done|by left]. }
  apply cstr_cons in Hs as [Hc Hs]. cbn [app]. rewrite get_mid. cbn [mbind option_bind scan_word].
  destruct (Z.eqb_spec c 0); [lia|]. cbn [negb andb].
  destruct (q || negb (c =? space_char)) eqn:E.
  2: { apply orb_false_iff in E as [-> E]. apply negb_false_iff, Z.eqb_eq in E as ->. simpl.
       exists mid, false. rewrite !Nat.add_0_r. split; [done|]. right. by eexists. }
  simpl in Hf.
  assert (Hin : pre ++ mid ++ c :: s ++ [0] = pre ++ (mid ++ [c]) ++ s ++ [0]) by by rewrite <- !app_assoc.
  assert (Hlen : S (length pre + length mid) = (length pre + length (mid ++ [c]))%nat) by (rewrite length_app; simpl; lia).
  destruct (c =? dquote).
  { rewrite Hin, Hlen. destruct (IH pre (mid ++ [c]) s (negb q)) as (mid' & q' & -> & Hr); [lia|done|].
    exists mid', q'. by split. }
  destruct (c =? backslash).
  - destruct s as [|c' s].
    { rewrite Hin, Hlen. cbn [app]. rewrite get_mid. cbn [mbind option_bind Z.eqb negb].
      destruct (IH pre (mid ++ [c]) [] q) as (mid' & q' & E' & Hr); [simpl in *; lia|done|].
      simpl in E'. rewrite E'. exists mid', q'. by split. }
    apply cstr_cons in Hs as [Hc' Hs].
    rewrite Hin, Hlen. cbn [app]. rewrite get_mid. cbn [mbind option_bind].
    destruct (Z.eqb_spec c' 0); [lia|]. cbn [negb].
    destruct (put_next pre (mid ++ [c]) c' c' (s ++ [0])) as (m2 & -> & Hm2). cbn [mbind option_bind].
    replace (S (length pre + length (mid ++ [c]))) with (length (pre ++ [c']) + length m2)%nat
      by (rewrite Hm2, !length_app; simpl; lia).
    replace (S (length pre)) with (length (pre ++ [c'])) by (rewrite length_app; simpl; lia).
    destruct (IH (pre ++ [c']) m2 s q) as (mid' & q' & -> & Hr); [simpl in Hf; lia|done|].
    destruct (scan_word q s) as [w r]. exists mid', q'. simpl in *. rewrite <- !app_assoc, length_app. simpl.
    split; [|done]. f_equal. repeat apply (f_equal2 pair); (done || lia).
  - destruct (put_next pre mid c c (s ++ [0])) as (m2 & -> & Hm2). cbn [mbind option_bind].
    replace (S (length pre + length mid)) with (length (pre ++ [c]) + length m2)%nat
      by (rewrite Hm2, !length_app; simpl; lia).
    replace (S (length pre)) with (length (pre ++ [c])) by (rewrite length_app; simpl; lia).
    destruct (IH (pre ++ [c]) m2 s q) as (mid' & q' & -> & Hr); [simpl in Hf; lia|done|].
    destruct (scan_word q s) as [w r]. exists mid', q'. simpl in *. rewrite <- !app_assoc, length_app. simpl.
    split; [|done]. f_equal. repeat apply (f_equal2 pair); (done || lia).
Qed.

Lemma skip_blanks_spec fuel pre s : (length s < fuel)%nat -> cstr s ->
  exists k, skip_blanks fuel (pre ++ s ++ [0]) (length pre) = Some (length pre + k)%nat /\
    drop k s = skip_spaces s /\ (k <= length s)%nat /\ (forall r, s = space_char :: r -> (0 < k)%nat).
Proof.
  revert pre s. induction fuel as [|f IH]; intros pre s Hf Hs; [lia|]. cbn [skip_blanks].
  destruct s as [|c s].
  { simpl. rewrite list_lookup_middle by done. simpl. exists 0%nat. rewrite Nat.add_0_r. by split_and!. }
  cbn [app]. rewrite list_lookup_middle by done. cbn [mbind option_bind skip_spaces].
  apply cstr_cons in Hs as [_ Hs]. destruct (Z.eqb_spec c space_char).
  - destruct (IH (pre ++ [c]) s) as (k & E & Hd & Hk & _); [simpl in Hf; lia|done|].
    rewrite <- app_assoc, length_app, Nat.add_1_r in E. cbn [app] in E. rewrite E. exists (S k).
    split; [f_equal; lia|]. split; [done|]. split; [simpl; lia|]. intros; lia.
  - exists 0%nat. split; [f_equal; lia|]. split; [done|]. split; [lia|]. intros r [=]. done.
Qed.

(** The words laid out one after another, each with its NUL, and their offsets. *)
Definition layout (ws : list bytes) : bytes := ws ≫= fun w => w ++ [0].
Fixpoint offsets (p : nat) (ws : list bytes) : list nat :=
  match ws with [] => [] | w :: ws => p :: offsets (p + length w + 1) ws end.

Lemma skip_spaces_idem s : skip_spaces (skip_spaces s) = skip_spaces s.
Proof.
  induction s as [|c s IH]; [done|]. cbn [skip_spaces]. destruct (c =? space_char) eqn:E; [done|].
  cbn [skip_spaces]. by rewrite E.
Qed.

Lemma skip_spaces_cstr s : cstr s -> cstr (skip_spaces s).
Proof.
  induction 1 as [|c s Hc Hs IH]; [constructor|]. cbn [skip_spaces]. destruct (c =? space_char); [done|].
  by constructor.
Qed.

Lemma split_fuel_skip f s : split_fuel f (skip_spaces s) = split_fuel f s.
Proof. destruct f; [done|]. cbn [split_fuel]. by rewrite skip_spaces_idem. Qed.

(** A word takes at least its first byte. *)
Lemma scan_word_progress c s : c <> space_char -> cstr (c :: s) ->
  (length (scan_word false (c :: s)).2 <= length s)%nat.
Proof.
  intros Hc [_ Hs]%cstr_cons. cbn [scan_word]. destruct (Z.eqb_spec c space_char); [done|]. cbn [orb negb].
  destruct (c =? dquote).
  { destruct (scan_word_spec _ true s (Nat.le_refl _) Hs) as (_ & _ & H). lia. }
  destruct (c =? backslash).
  - destruct s as [|c' s]; [simpl; lia|]. apply cstr_cons in Hs as [_ Hs].
    destruct (scan_word_spec _ false s (Nat.le_refl _) Hs) as (_ & _ & H).
    destruct (scan_word false s). simpl in *. lia.
  - destruct (scan_word_spec _ false s (Nat.le_refl _) Hs) as (_ & _ & H).
    destruct (scan_word false s). simpl in *. lia.
Qed.

(** What the loop does after a word: the blanks are skipped, the NUL written. *)
Lemma word_end (pre mid r : bytes) : cstr r -> (r = [] \/ exists r', r = space_char :: r') ->
  exists input, skip_blanks (length (pre ++ mid ++ r ++ [0])) (pre ++ mid ++ r ++ [0]) (length pre + length mid) = Some input /\
    ((exists mid' : bytes, put (pre ++ mid ++ r ++ [0]) (length pre) 0 = Some ((pre ++ [0%Z]) ++ mid' ++ skip_spaces r ++ [0]) /\
                   input = (length (pre ++ [0%Z]) + length mid')%nat) \/
     (skip_spaces r = [] /\ put (pre ++ mid ++ r ++ [0]) (length pre) 0 = Some (pre ++ [0]) /\ input = length pre)).
Proof.
  intros Hr Hsp.
  destruct (skip_blanks_spec (length (pre ++ mid ++ r ++ [0])) (pre ++ mid) r) as (k & E & Hd & Hk & Hpos);
    [rewrite !length_app; simpl; lia|done|].
  rewrite <- app_assoc, (length_app pre mid) in E. rewrite E. eexists. split; [done|].
  destruct (mid ++ r) as [|x M] eqn:EM.
  - right. apply app_eq_nil in EM as [-> ->]. simpl. simpl in Hk. split; [done|]. split; [by rewrite put_mid|lia].
  - left. exists (take (length mid + k - 1) M).
    assert (Hx : (0 < length mid + k)%nat).
    { destruct mid; [|simpl; lia]. simpl in EM. subst r. destruct Hsp as [|[r' Hr']]; [done|].
      specialize (Hpos _ Hr'). lia. }
    assert (HM : drop (length mid + k - 1) M = skip_spaces r).
    { rewrite <- Hd. replace (drop k r) with (drop (length mid + k) (mid ++ r)) by (rewrite drop_app_add'; done).
      rewrite EM. by replace (length mid + k)%nat with (S (length mid + k - 1)) at 2 by lia. }
    assert (Hl : length (x :: M) = (length mid + length r)%nat) by (rewrite <- EM, length_app; done). simpl in Hl.
    split.
    + rewrite (app_assoc mid), EM. cbn [app]. rewrite put_mid. f_equal. rewrite <- HM, (app_assoc (take _ _)), take_drop.
      by rewrite <- app_assoc.
    + rewrite length_take, length_app. simpl. lia.
Qed.

Lemma put_length buf p c buf' : put buf p c = Some buf' -> length buf' = length buf.
Proof. unfold put. case_decide; [|done]. intros [= <-]. apply length_insert. Qed.

Lemma word_loop_length fuel buf input ptr q r : word_loop fuel buf input ptr q = Some r ->
  length r.1.1.1 = length buf.
Proof.
  revert buf input ptr q. induction fuel as [|f IH]; intros buf input ptr q; [done|]. cbn [word_loop].
  destruct (buf !! input) as [c|]; [|done]. cbn [mbind option_bind].
  destruct (negb (c =? 0) && _); [|by intros [= <-]].
  destruct (c =? dquote); [apply IH|]. destruct (c =? backslash).
  - destruct (buf !! S input) as [c'|]; [|done]. cbn [mbind option_bind].
    destruct (negb (c' =? 0)); [|apply IH]. destruct (put buf ptr c') eqn:E; [|done]. cbn [mbind option_bind].
    intros H%IH. by rewrite H, (put_length _ _ _ _ E).
  - destruct (put buf ptr c) eqn:E; [|done]. cbn [mbind option_bind].
    intros H%IH. by rewrite H, (put_length _ _ _ _ E).
Qed.

Lemma words_loop_length fuel buf input ptr q words buf' ws : words_loop fuel buf input ptr q words = Some (buf', ws) ->
  length buf' = length buf.
Proof.
  revert buf input ptr q words. induction fuel as [|f IH]; intros buf input ptr q words; [done|]. cbn [words_loop].
  destruct (buf !! input) as [c|]; [|done]. cbn [mbind option_bind].
  destruct (c =? 0); [by intros [= <- _]|].
  destruct (word_loop _ buf input ptr q) as [[[[b i] p] q']|] eqn:E; [|done]. cbn [mbind option_bind].
  apply word_loop_length in E. simpl in E. destruct (skip_blanks _ b i); [|done]. cbn [mbind option_bind].
  destruct (put b p 0) eqn:Ep; [|done]. cbn [mbind option_bind]. intros H%IH.
  by rewrite H, (put_length _ _ _ _ Ep), E.
Qed.

Lemma words_loop_spec fuel : forall f' pre mid s q words, (length s < fuel)%nat -> (length s < f')%nat -> cstr s ->
  skip_spaces s = s -> (q = false \/ s = []) ->
  exists rest, words_loop fuel (pre ++ mid ++ s ++ [0]) (length pre + length mid) (length pre) q words =
    Some (pre ++ layout (split_fuel f' s) ++ rest, words ++ offsets (length pre) (split_fuel f' s)).
Proof.
  induction fuel as [|f IH]; intros [|f'] pre mid s q words Hf Hf' Hs Hsk Hq; try lia.
  cbn [words_loop split_fuel]. rewrite Hsk. destruct s as [|c s].
  { simpl. rewrite get_mid. simpl. exists (mid ++ [0]). by rewrite app_nil_r. }
  destruct Hq as [-> |]; [|done]. simpl in Hf, Hf'.
  assert (Hc : c <> space_char).
  { intros ->. cbn [skip_spaces] in Hsk. simpl in Hsk. apply (f_equal length) in Hsk.
    pose proof (skip_spaces_le s). simpl in *. lia. }
  pose proof (scan_word_progress c s Hc Hs) as Hprog.
  destruct (word_loop_spec (S (length (pre ++ mid ++ (c :: s) ++ [0]))) pre mid (c :: s) false) as (mid' & q' & E & Hr);
    [rewrite !length_app; lia|done|].
  destruct (scan_word_spec _ false (c :: s) (Nat.le_refl _) Hs) as (Hcw & Hcr & _).
  pose proof Hs as [Hc0 _]%cstr_cons.
  cbn [app] in E |- *. rewrite get_mid. cbn [mbind option_bind].
  destruct (Z.eqb_spec c 0); [lia|]. rewrite E. cbn [mbind option_bind].
  destruct (scan_word false (c :: s)) as [w r]. simpl in Hr, Hcw, Hcr, Hprog, E |- *.
  replace (length pre + length w)%nat with (length (pre ++ w)) by apply length_app.
  destruct (word_end (pre ++ w) mid' r) as (input & Eb & Hput); [done|naive_solver|].
  rewrite <- !app_assoc in Eb, Hput.
  rewrite Eb. cbn [mbind option_bind].
  pose proof (skip_spaces_cstr r Hcr) as Hcr'.
  assert (Hlr : (length (skip_spaces r) <= length r)%nat) by apply skip_spaces_le.
  destruct Hput as [(m2 & -> & ->)|(Enil & -> & ->)]; cbn [mbind option_bind].
  - destruct (IH f' ((pre ++ w) ++ [0]) m2 (skip_spaces r) q' (words ++ [length pre])) as (rest & Ew);
      [lia|lia|done|by rewrite skip_spaces_idem| |].
    { destruct Hr as [-> |(r' & _ & ->)]; [by right|by left]. }
    replace (S (length (pre ++ w))) with (length ((pre ++ w) ++ [0%Z])) by (rewrite !length_app; simpl; lia).
    rewrite <- !app_assoc in Ew |- *. cbn [app] in Ew |- *. rewrite Ew, split_fuel_skip. exists rest.
    rewrite <- !app_assoc. cbn [app layout mbind list_bind]. unfold layout. repeat f_equal.
    + rewrite !length_app. simpl. lia.
  - assert (Hrest : words_loop f (pre ++ w ++ [0]) (length (pre ++ w)) (S (length (pre ++ w))) q' (words ++ [length pre]) =
      Some (pre ++ w ++ [0], words ++ [length pre])).
    { destruct f; [lia|]. cbn [words_loop]. by rewrite app_assoc, list_lookup_middle. }
    rewrite <- app_assoc, Hrest, <- split_fuel_skip, Enil. exists []. destruct f'; simpl; [lia|].
    by rewrite !app_nil_r.
Qed.

Lemma split_fuel_cstr f s : cstr s -> Forall cstr (split_fuel f s).
Proof.
  revert s. induction f as [|f IH]; intros s Hs; [constructor|]. cbn [split_fuel].
  pose proof (skip_spaces_cstr s Hs) as H. destruct (skip_spaces s) as [|c t]; [constructor|].
  destruct (scan_word_spec _ false (c :: t) (Nat.le_refl _) H) as (? & ? & _).
  destruct (scan_word false (c :: t)) as [w r]. constructor; [done|by apply IH].
Qed.

Lemma until_nul_cstr w rest : cstr w -> until_nul (w ++ 0 :: rest) = w.
Proof. induction 1 as [|c w Hc Hw IH]; [done|]. simpl. destruct (Z.eqb_spec c 0); [lia|]. by rewrite IH. Qed.

Lemma string_at_layout pre ws rest : Forall cstr ws ->
  map (string_at (pre ++ layout ws ++ rest)) (offsets (length pre) ws) = ws.
Proof.
  intros H. revert pre. induction H as [|w ws Hw Hws IH]; intros pre; [done|]. cbn [offsets map]. f_equal.
  - unfold string_at. rewrite drop_app_length. unfold layout. cbn [mbind list_bind].
    rewrite <- !app_assoc. by apply until_nul_cstr.
  - etrans; [|apply (IH (pre ++ w ++ [0]))].
    replace (length pre + length w + 1)%nat with (length (pre ++ w ++ [0])) by (rewrite !length_app; simpl; lia).
    f_equal. unfold layout. cbn [mbind list_bind]. by rewrite <- !app_assoc.
Qed.

Lemma parse_into_words_spec s : cstr s ->
  exists buf, parse_into_words (s ++ [0]) = Some (buf, offsets 0 (split_words s)) /\
    length buf = length (s ++ [0]) /\ map (string_at buf) (offsets 0 (split_words s)) = split_words s.
Proof.
  intros Hs. unfold parse_into_words, split_words.
  destruct (skip_blanks_spec (length (s ++ [0])) [] s) as (k & E & Hd & Hk & _); [rewrite length_app; simpl; lia|done|].
  simpl in E. rewrite E. cbn [mbind option_bind].
  destruct (words_loop_spec (length (s ++ [0])) (S (length s)) [] (take k s) (skip_spaces s) false []) as (rest & Ew).
  - rewrite length_app. simpl. pose proof (skip_spaces_le s). lia.
  - pose proof (skip_spaces_le s). lia.
  - by apply skip_spaces_cstr.
  - apply skip_spaces_idem.
  - by left.
  - rewrite split_fuel_skip, <- Hd in Ew. cbn [app length Nat.add] in Ew.
    rewrite app_assoc, take_drop, length_take in Ew. replace (k `min` length s)%nat with k in Ew by lia.
    eexists. split; [exact Ew|]. split; [by eapply words_loop_length|].
    apply (string_at_layout [] _ rest). by apply split_fuel_cstr.
Qed.

Lemma words_of_spec s : cstr s -> words_of s = Some (split_words s).
Proof.
  intros Hs. unfold words_of. destruct (parse_into_words_spec s Hs) as (buf & -> & _ & E).
  cbn [mbind option_bind]. by rewrite E.
Qed.

(** ** Quoting *)

Lemma scan_quoted w rest : scan_word true ((w ≫= fun c => if (c =? dquote) || (c =? backslash) then [backslash; c] else [c]) ++ dquote :: rest)
  = (let '(v, r) := scan_word false rest in (w ++ v, r)).
Proof.
  induction w as [|c w IH]; [simpl; by destruct (scan_word false rest)|].
  cbn [mbind list_bind]. rewrite <- app_assoc. destruct (Z.eqb_spec c dquote) as [->|Hq]; cbn [orb].
  - cbn [app scan_word orb]. simpl. rewrite IH. by destruct (scan_word false rest).
  - destruct (Z.eqb_spec c backslash) as [->|Hb].
    + cbn [app scan_word orb]. simpl. rewrite IH. by destruct (scan_word false rest).
    + cbn [app scan_word orb]. destruct (Z.eqb_spec c dquote); [done|]. destruct (Z.eqb_spec c backslash); [done|].
      rewrite IH. by destruct (scan_word false rest).
Qed.

Lemma scan_quote w rest : (rest = [] \/ exists r, rest = space_char :: r) ->
  scan_word false (quote w ++ rest) = (w, rest).
Proof.
  intros Hr. unfold quote. rewrite <- !app_assoc. cbn [app scan_word orb negb]. simpl (dquote =? _).
  cbn [negb]. rewrite scan_quoted.
  destruct Hr as [->|[r ->]]; simpl; by rewrite app_nil_r.
Qed.

Lemma split_join f ws : (length (join (quote <$> ws)) < f)%nat -> split_fuel f (join (quote <$> ws)) = ws.
Proof.
  revert f. induction ws as [|w ws IH]; intros [|f] Hf; try (simpl in Hf; lia); [done|].
  assert (Hh : forall r, exists t, quote w ++ r = dquote :: t) by (intros r; by eexists).
  destruct ws as [|w' ws].
  - cbn [fmap list_fmap join split_fuel]. destruct (Hh []) as [t Et]. rewrite app_nil_r in Et.
    pose proof (scan_quote w [] ltac:(by left)) as Es. rewrite app_nil_r, Et in Es.
    rewrite Et. simpl skip_spaces. cbv iota. rewrite Es. by destruct f.
  - change (join (quote <$> w :: w' :: ws)) with (quote w ++ [space_char] ++ join (quote <$> w' :: ws)) in *.
    cbn [split_fuel]. destruct (Hh ([space_char] ++ join (quote <$> w' :: ws))) as [t Et].
    pose proof (scan_quote w ([space_char] ++ join (quote <$> w' :: ws)) ltac:(right; by eexists)) as Es.
    rewrite !length_app in Hf. rewrite Et in *. simpl skip_spaces. cbv iota. rewrite Es. f_equal.
    rewrite <- split_fuel_skip. cbn [app]. simpl skip_spaces. rewrite split_fuel_skip. apply IH.
    simpl length in Hf at 2. lia.
Qed.

Lemma quote_cstr w : cstr w -> cstr (quote w).
Proof.
  intros H. unfold quote. apply Forall_app. split; [by repeat constructor|]. apply Forall_app. split; [|by repeat constructor].
  induction H as [|c w Hc Hw IH]; [constructor|]. cbn [mbind list_bind]. apply Forall_app. split; [|done].
  destruct (_ || _); repeat apply Forall_cons_2; (done || constructor).
Qed.

Lemma join_cstr l : Forall cstr l -> cstr (join l).
Proof.
  induction 1 as [|w l Hw Hl IH]; [constructor|]. destruct l; [done|]. apply Forall_app. split; [done|].
  by apply Forall_app; split; [repeat constructor|].
Qed.

Lemma build_string_spec l : build_string l = Some (join l).
Proof.
  destruct l as [|w l]; [done|]. unfold build_string.
  assert (G : forall l w n, length w = n ->
    fold_left (fun s a => s ++ [space_char] ++ a) l w = join (w :: l) /\
    length (join (w :: l)) = fold_left (fun len a => (len + (1 + length a))%nat) l n).
  { clear. induction l as [|a l IH]; intros w n Hn; [by rewrite <- Hn|]. cbn [fold_left].
    destruct (IH (w ++ [space_char] ++ a) (n + (1 + length a))%nat) as [E1 E2]; [rewrite !length_app; simpl; lia|].
    assert (Ej : join ((w ++ [space_char] ++ a) :: l) = join (w :: a :: l)).
    { destruct l; simpl; by rewrite <- ?app_assoc. }
    by rewrite E1, Ej, <- E2, Ej. }
  destruct (G l w _ eq_refl) as [-> ->]. rewrite decide_True by lia. done.
Qed.

(** ** Theorems *)

(** Splitting a line: [parse_into_words] stays inside its buffer although
    it unquotes in place, terminates, and yields the words of the line; every
    list of words, blanks, quotes and backslashes included, can be written as a
    line that splits into exactly these words. *)
Theorem parse_into_words_correct (s : bytes) (ws : list bytes) :
  cstr s -> Forall cstr ws ->
  (exists buf, parse_into_words (s ++ [0]) = Some (buf, offsets 0 (split_words s)) /\
     length buf = length (s ++ [0]) /\ map (string_at buf) (offsets 0 (split_words s)) = split_words s) /\
  parse_into_wordlist (join (quote <$> ws)) = Some (VList (VStr <$> ws)).
Proof.
  intros Hs Hws. split; [by apply parse_into_words_spec|]. unfold parse_into_wordlist.
  rewrite words_of_spec by (apply join_cstr, Forall_fmap; eapply Forall_impl; [done|]; apply quote_cstr).
  cbn [mbind option_bind]. unfold split_words. by rewrite split_join by lia.
Qed.

(** Words of a line typed by a user; a list with an empty word and a quote. *)
Example parse_into_words_correct_witness :
  split_words (BS "  put ball  in box") = [BS "put"; BS "ball"; BS "in"; BS "box"] /\
  parse_into_wordlist (join (quote <$> [BS "a b"; []; [dquote]])) = Some (VList (VStr <$> [BS "a b"; []; [dquote]])).
Proof.
  split; [by vm_compute|].
  apply (parse_into_words_correct (BS "  put ball  in box") [BS "a b"; []; [dquote]]); repeat constructor.
Defined.
