(* ===== verification/Numbers.v ===== *)
(** * Numbers (numbers.c)

    Integers have 64 bits and wrap around, as two's complement machines do; the
    division that the machine cannot represent is undefined ([None]).  Floats
    are IEEE doubles; the C library's functions on them ([pow], [fmod],
    [strtod], the formatting of [printf]) and the Unicode property "white
    space" are parameters.  The input of [parse_number] is the list of the
    characters that [getch] will deliver, EOF from its end on; [ungetch] puts
    a character in front.  The sequence of random numbers is a list that
    [RANDOM] consumes. *)

From Stdlib Require Import SpecFloat.
From S2P Require Import Prelude Utf CString Values Streams Functions ListBuiltins Words.

(** ** Definitions *)

Definition fadd : spec_float -> spec_float -> spec_float := SFadd 53 1024.
Definition fsub : spec_float -> spec_float -> spec_float := SFsub 53 1024.
Definition fmul : spec_float -> spec_float -> spec_float := SFmul 53 1024.
Definition fdiv : spec_float -> spec_float -> spec_float := SFdiv 53 1024.

(** [IS_REAL]: neither infinite nor a NaN. *)
Definition IS_REAL (f : spec_float) : bool :=
  match f with S754_zero _ | S754_finite _ _ _ => true | _ => false end.

(** Conversion of an integer, rounded to the nearest double. *)
Definition float_of_int (z : Z) : spec_float := binary_normalize 53 1024 z 0 false.

Definition E_type : Var := VErr E_TYPE.
Definition float_result (d : spec_float) : Var := if IS_REAL d then VFloat d else VErr E_FLOAT.

(** The operands are numbers; for other operands of one type the code reads a
    float that is not there. *)
Definition simple_binary (iop : Z -> Z -> Z) (fop : spec_float -> spec_float -> spec_float) (a b : Var)
    : option Var :=
  if negb (bool_decide (type_of a = type_of b)) then Some E_type
  else match a, b with
       | VInt x, VInt y => Some (VInt (Num (iop x y)))
       | VFloat x, VFloat y => Some (float_result (fop x y))
       | _, _ => None
       end.
Definition do_add : Var -> Var -> option Var := simple_binary Z.add fadd.
Definition do_subtract : Var -> Var -> option Var := simple_binary Z.sub fsub.
Definition do_multiply : Var -> Var -> option Var := simple_binary Z.mul fmul.

(** [a / b] and [a % b] of C: truncating, and trapping where the quotient is
    not a [Num]. *)
Definition division_op (iop : Z -> Z -> Z) (fop : spec_float -> spec_float -> spec_float) (a b : Var)
    : option Var :=
  if negb (bool_decide (type_of a = type_of b)) then Some E_type
  else match a, b with
       | VInt x, VInt y =>
           if negb (y =? 0) then
             if (x =? NUM_MIN) && (y =? -1) then None else Some (VInt (iop x y))
           else Some (VErr E_DIV)
       | VFloat x, VFloat y =>
           if negb (SFeqb y float_zero) then Some (float_result (fop x y)) else Some (VErr E_DIV)
       | _, _ => Some (VErr E_DIV)
       end.
Definition do_divide : Var -> Var -> option Var := division_op Z.quot fdiv.

Section Libm.
Context (fmod : spec_float -> spec_float -> spec_float).
(** The value and whether [errno] has been set. *)
Context (pow : spec_float -> spec_float -> spec_float * bool).

Definition do_modulus : Var -> Var -> option Var := division_op Z.rem fmod.

(** [while (b != 0) { if (b & 1) r *= a; a *= a; b >>= 1; }]. *)
Fixpoint power_loop (fuel : nat) (r a b : Z) : option Z :=
  if b =? 0 then Some r
  else match fuel with
       | O => None
       | S f => power_loop f (if Z.land b 1 =? 0 then r else Num (r * a)) (Num (a * a)) (Z.shiftr b 1)
       end.

Definition do_power (lhs rhs : Var) : option Var :=
  match lhs with
  | VInt a =>
      match rhs with
      | VInt b =>
          if b <? 0 then
            Some (if a =? -1 then VInt (if Z.land b 1 =? 0 then -1 else 1)
                  else if a =? 0 then VErr E_DIV
                  else if a =? 1 then VInt 1 else VInt 0)
          else r ← power_loop 63 1 a b; Some (VInt r)
      | _ => Some E_type
      end
  | VFloat x =>
      let power d := let '(d, err) := pow x d in
                     Some (if err || negb (IS_REAL d) then VErr E_FLOAT else VFloat d) in
      match rhs with
      | VInt b => power (float_of_int b)
      | VFloat d => power d
      | _ => Some E_type
      end
  | _ => Some E_type
  end.
End Libm.

(** [numeric_lt_or_eq], without the comparison of integers with floats. *)
Definition numeric_lt_or_eq (not : bool) (a b : Var) : option Var :=
  let ans (c : bool) := Some (VInt (if xorb not c then 1 else 0)) in
  if negb (bool_decide (type_of a = type_of b)) then Some E_type
  else match a, b with
       | VInt x, VInt y => ans (x <=? y)
       | VFloat x, VFloat y => ans (SFleb x y)
       | _, _ => None
       end.

(** *** Built-ins *)

Section MinMax.
(** Whether an argument replaces the result found so far. *)
Context (iless : Z -> Z -> bool) (fless : spec_float -> spec_float -> bool).

(** The loop over the further arguments. *)
Fixpoint extreme_loop (r : Var) (bad_types : bool) (args : list Var) : Var * bool :=
  match args with
  | [] => (r, bad_types)
  | v :: args =>
      match r, v with
      | VInt x, VInt y => extreme_loop (if iless y x then v else r) bad_types args
      | VFloat x, VFloat y => extreme_loop (if fless y x then v else r) bad_types args
      | _, _ => extreme_loop r true args
      end
  end.
Definition bf_extreme (arglist : list Var) : option package :=
  match arglist with
  | r :: args => let '(r, bad_types) := extreme_loop r false args in
                 Some (if bad_types then make_error_pack E_TYPE else make_var_pack r)
  | [] => None
  end.
End MinMax.
Definition bf_min : list Var -> option package := bf_extreme Z.ltb SFltb.
Definition bf_max : list Var -> option package := bf_extreme (fun y x => x <? y) (fun y x => SFltb x y).

Definition bf_abs (arglist : list Var) : option package :=
  match arglist with
  | [VInt n] => Some (make_int_pack (if n <? 0 then Num (- n) else n))
  | [VFloat d] => Some (make_var_pack (VFloat (SFabs d)))
  | _ => None
  end.

(** The functions of the C library: [fn] gives the value and [errno], which is
    0, EDOM or another number. *)
Inductive math_errno := NO_ERRNO | EDOM | OTHER_ERRNO.
Definition math_result (r : spec_float * math_errno) : package :=
  match snd r with
  | EDOM => make_error_pack E_INVARG
  | OTHER_ERRNO => make_error_pack E_FLOAT
  | NO_ERRNO => if IS_REAL (fst r) then make_var_pack (VFloat (fst r)) else make_error_pack E_FLOAT
  end.
Definition math_func (fn : spec_float -> spec_float * math_errno) (arglist : list Var) : option package :=
  match arglist with [VFloat d] => Some (math_result (fn d)) | _ => None end.

Definition bf_trunc (ceil floor : spec_float -> spec_float * math_errno) (arglist : list Var) : option package :=
  match arglist with
  | [VFloat d] => Some (math_result (if SFltb d float_zero then ceil d else floor d))
  | _ => None
  end.

Definition bf_atan (atan : spec_float -> spec_float * math_errno)
    (atan2 : spec_float -> spec_float -> spec_float * math_errno) (arglist : list Var) : option package :=
  match arglist with
  | [VFloat d] => Some (math_result (atan d))
  | [VFloat d; VFloat e] => Some (math_result (atan2 d e))
  | _ => None
  end.

(** [bf_j] and [bf_y]: the functions of order 0, 1 and [n], an [int]. *)
Definition bf_bessel (f0 f1 : spec_float -> spec_float * math_errno)
    (fn : Z -> spec_float -> spec_float * math_errno) (arglist : list Var) : option package :=
  match arglist with
  | [VInt n; VFloat d] =>
      Some (math_result (if n =? 0 then f0 d else if n =? 1 then f1 d else fn (int n) d))
  | _ => None
  end.

(** *** Reading numbers *)

Section ParseNumber.
Context (my_isspace : Z -> bool).
(** [strtod]: the value, and what of the string follows the number. *)
Context (strtod : bytes -> spec_float * bytes).

(** The PN_ flags, and whether there is an [ungetch]. *)
Record pn_flags := mkPN {
  PN_FLOAT_OK : bool; PN_REQ_FLOAT : bool; PN_REQ_INT : bool; PN_NONNEG : bool; PN_OCTOTHORPE : bool;
  PN_LDSPACE : bool; PN_TRSPACE : bool; PN_OCTOSPACE : bool; PN_MUST_EOF : bool; pn_ungetch : bool }.

(** The stream [ns], whether [ret.type] is TYPE_FLOAT, and the F_ flags; F_INT
    is the negation of PN_FLOAT_OK throughout. *)
Record pn_state := mkPst {
  ns : bytes; is_float : bool; F_MINUS : bool; F_DOT : bool; F_EXP : bool; F_DIGIT : bool; F_XSIGN : bool }.

Definition add (st : pn_state) (c : Z) (fl mi dot ex dig xs : bool) : pn_state :=
  mkPst (ns st ++ [c]) fl mi dot ex dig xs.

(** NEXTC at the end of the input goes to [at_eof], here [None]; otherwise the
    character and the rest of the input.  The second component is what is left
    in the former case. *)
Definition NEXTC (inp : list Z) : option (Z * list Z) * list Z :=
  match inp with
  | [] => (None, [])
  | c :: inp => (if c =? EOF then None else Some (c, inp), inp)
  end.

(** [while (my_isspace(c)) NEXTC();]. *)
Fixpoint skip_pn_spaces (inp : list Z) (c : Z) : option (Z * list Z) * list Z :=
  if my_isspace c then
    match inp with
    | [] => (None, [])
    | c' :: inp => if c' =? EOF then (None, inp) else skip_pn_spaces inp c'
    end
  else (Some (c, inp), inp).

(** Where the scan ends: at label [badchar] or at label [at_eof], with the
    character [c] and the rest of the input. *)
Inductive pn_end := BADCHAR (c : Z) (inp : list Z) | AT_EOF (inp : list Z).

Section Loop.
Context (fl : pn_flags).

(** Looking ahead leaves the input as it was: the character that [getch] gives
    is put back. *)
Definition dot_starts_new_token (inp : list Z) : bool :=
  pn_ungetch fl && bool_decide (head inp = Some 46).

Fixpoint pn_loop (inp : list Z) (c : Z) (st : pn_state) : pn_end * pn_state :=
  let next st := match inp with
                 | [] => (AT_EOF [], st)
                 | c :: inp => if c =? EOF then (AT_EOF inp, st) else pn_loop inp c st
                 end in
  let badchar := (BADCHAR c inp, st) in
  let '(mkPst _ fd mi dot ex dig xs) := st in
  if c =? 43 then
    if negb (ex && negb xs) then badchar else next (add st c fd mi dot ex dig true)
  else if c =? 45 then
    if xs then badchar else next (add st c fd true dot ex dig true)
  else if c =? 46 then
    if dot || ex || negb (PN_FLOAT_OK fl) then badchar
    else if dot_starts_new_token inp then badchar
    else next (add st c true mi true ex dig true)
  else if (c =? 101) || (c =? 69) then
    if negb dig || ex || negb (PN_FLOAT_OK fl) then badchar
    else next (add st c true mi dot true false false)
  else if isdigit c then next (add st c fd mi dot ex true true)
  else if PN_TRSPACE fl then
    match skip_pn_spaces inp c with
    | (Some (c, inp), _) => (BADCHAR c inp, st)
    | (None, inp) => (AT_EOF inp, st)
    end
  else badchar.

(** What comes before the loop: the character it starts with, or the end. *)
Definition pn_start (c : Z) (inp : list Z) : option (Z * list Z) * list Z :=
  if c =? EOF then (None, inp)
  else match (if PN_LDSPACE fl then skip_pn_spaces inp c else (Some (c, inp), inp)) with
       | (Some (c, inp), _) =>
           if PN_OCTOTHORPE fl && (c =? 35) then
             match NEXTC inp with
             | (Some (c, inp), _) => if PN_OCTOSPACE fl then skip_pn_spaces inp c else (Some (c, inp), inp)
             | r => r
             end
           else (Some (c, inp), inp)
       | r => r
       end.
End Loop.

(** [strtoimax], base 10: the value, whether it is out of range, and the rest. *)
Definition strtoimax (s : bytes) : Z * bool * bytes :=
  let t := skip_isspace s in
  let '(neg, t) := match t with
                   | c :: t' => if c =? 45 then (true, t') else if c =? 43 then (false, t') else (false, t)
                   | [] => (false, [])
                   end in
  match t with
  | c :: _ => if isdigit c
              then let '(n, rest) := read_digits 0 t in
                   let n := if neg : bool then - n else n in
                   (clamp_long n, (n <? NUM_MIN) || (NUM_MAX <? n), rest)
              else (0, false, s)
  | [] => (0, false, s)
  end.

(** Truncation towards zero, and the ceiling, of a float that is real. *)
Definition float_trunc (f : spec_float) : Z :=
  match f with
  | S754_finite s m e =>
      let a := if 0 <=? e then Z.pos m * 2 ^ e else Z.pos m / 2 ^ (- e) in
      if s then - a else a
  | _ => 0
  end.
Definition float_ceil (f : spec_float) : Z :=
  match f with
  | S754_finite s m e =>
      let a := (if s then Z.neg m else Z.pos m) in
      if 0 <=? e then a * 2 ^ e else - (- a / 2 ^ (- e))
  | _ => 0
  end.
(** NUM_MIN and its opposite are doubles, so the comparisons are exact. *)
Definition inrange_for_float_to_int (d : spec_float) : bool :=
  (NUM_MIN <=? float_ceil d) && SFltb d (float_of_int (2 ^ 63)).

(** What follows label [have_digits]. *)
Definition have_digits (fl : pn_flags) (st : pn_state) : Var :=
  if negb (is_float st) && negb (PN_REQ_FLOAT fl) then
    let '(i, erange, p) := strtoimax (ns st) in
    if erange : bool then VErr E_RANGE
    else if negb (bool_decide (p = [])) then VErr E_INVARG
    else VInt (if PN_NONNEG fl then Num (- i) else i)
  else
    let '(d, p) := strtod (drop (if PN_NONNEG fl then 1 else 0) (ns st)) in
    if negb (bool_decide (p = [])) then VErr E_INVARG
    else if negb (IS_REAL d) then VErr E_FLOAT
    else if PN_REQ_INT fl then
      if negb (inrange_for_float_to_int d) then VErr E_FLOAT else VInt (float_trunc d)
    else VFloat d.

(** Labels [badchar] and [at_eof], where [c] is EOF: the value, and the input
    that is left. *)
Definition pn_finish (fl : pn_flags) (r : pn_end * pn_state) : Var * list Z :=
  let '(e, st) := r in
  let at_eof c inp :=
    let inp := if pn_ungetch fl then c :: inp else inp in
    if F_DIGIT st then (have_digits fl st, inp)
    else if F_EXP st || negb (pn_ungetch fl) then (VErr E_INVARG, inp)
    else let inp := if F_DOT st then 46 :: inp else inp in
         let inp := if F_MINUS st then 45 :: inp else inp in
         (VErr E_NONE, inp) in
  match e with
  | BADCHAR c inp => if PN_MUST_EOF fl then (VErr E_INVARG, inp) else at_eof c inp
  | AT_EOF inp => at_eof EOF inp
  end.

Definition parse_number (fl : pn_flags) (c_first : Z) (inp : list Z) : Var * list Z :=
  let st := mkPst (if PN_NONNEG fl then [45] else []) false false false false false false in
  pn_finish fl (match pn_start fl c_first inp with
                | (Some (c, inp), _) => pn_loop fl inp c st
                | (None, inp) => (AT_EOF inp, st)
                end).

(** What [snp_getch] delivers. *)
Definition snp_chars (str : bytes) : list Z := map (fun p => (get_utf str p).1) (starts str).

Definition parse_number_from_string (str : bytes) (fl : pn_flags) : Var :=
  match snp_chars str with
  | [] => (parse_number fl EOF []).1
  | c :: inp => (parse_number fl c inp).1
  end.

(** The number of an enumeration constant. *)
Definition error_value (e : error) : Z := from_option (fun p => Z.of_nat p.1) 0 (list_find (eq e) error_list).

(** PN_SPACE | PN_REQ_INT | (called_from_tonum ? PN_FLOAT_OK : PN_OCTOTHORPE), with PN_MUST_EOF. *)
Definition integer_flags (called_from_tonum : bool) : pn_flags :=
  mkPN called_from_tonum false true false (negb called_from_tonum) true true true true false.
Definition float_flags : pn_flags := mkPN true true false false false true true true true false.

(** The outer [None] is a panic. *)
Definition become_integer (v : Var) (called_from_tonum : bool) : option (error + Z) :=
  match v with
  | VInt n => Some (inr n)
  | VStr s => match parse_number_from_string s (integer_flags called_from_tonum) with
              | VErr E_NONE => None
              | VErr _ => Some (inr 0)
              | VInt n => Some (inr n)
              | _ => None
              end
  | VObj n => Some (inr n)
  | VErr e => Some (inr (error_value e))
  | VFloat d => Some (if negb (IS_REAL d && inrange_for_float_to_int d) then inl E_FLOAT else inr (float_trunc d))
  | VList _ => Some (inl E_TYPE)
  | _ => None
  end.

Definition become_float (v : Var) : option (error + spec_float) :=
  match v with
  | VInt n => Some (inr (float_of_int n))
  | VStr s => match parse_number_from_string s float_flags with
              | VErr E_NONE | VErr E_RANGE => None
              | VErr E_FLOAT => Some (inl E_INVARG)
              | VErr e => Some (inl e)
              | VFloat d => Some (inr d)
              | _ => None
              end
  | VObj n => Some (inr (float_of_int n))
  | VErr e => Some (inr (float_of_int (error_value e)))
  | VFloat d => Some (inr d)
  | VList _ => Some (inl E_TYPE)
  | _ => None
  end.

Definition bf_toint (arglist : list Var) : option package :=
  match arglist with
  | [v] => r ← become_integer v true;
           Some (match r with inl e => make_error_pack e | inr n => make_int_pack n end)
  | _ => None
  end.

Definition bf_tofloat (arglist : list Var) : option package :=
  match arglist with
  | [v] => r ← become_float v;
           Some (match r with inl e => make_error_pack e | inr d => make_var_pack (VFloat d) end)
  | _ => None
  end.
End ParseNumber.

(** [stream_float_printf] of the format with the precision: scientific or not. *)
Definition bf_floatstr (float_printf : bool -> Z -> spec_float -> bytes) (arglist : list Var) : option package :=
  match arglist with
  | VFloat d :: VInt prec :: rest =>
      let use_sci := match rest with v :: _ => is_true v | [] => false end in
      if FLOAT_DIGITS + 4 <? prec then Some (make_string_pack (float_printf use_sci (FLOAT_DIGITS + 4) d))
      else if prec <? 0 then Some (make_error_pack E_INVARG)
      else Some (make_string_pack (float_printf use_sci prec d))
  | _ => None
  end.

(** *** Random numbers *)

(** RAND_MAX + 1: [lrand48] has 31 bits. *)
Definition RAND_MAX : Z := 2 ^ 31 - 1.
Definition RANGE : Z := RAND_MAX + 1.
Definition URNum (z : Z) : Z := uwrap 64 z.

(** With a type of 128 bits for the product. *)
Definition muladdmod (a b c m : Z) : Z := URNum (uwrap 128 (a * b + c) mod m).

Section Random.
Context (num : Z).
Definition range_l : Z := (RAND_MAX + 1) mod num.

(** [while (e*RANGE < num) ...]: the state, the last random number, the rest. *)
Fixpoint random_inner (rs : list Z) (rnd e rnd_next : Z) : option (Z * Z * Z * list Z) :=
  if (e <? num / RANGE) || ((e =? num / RANGE) && negb (num mod RANGE =? 0)) then
    match rs with
    | [] => None
    | r :: rs => random_inner rs (URNum (rnd * RANGE + rnd_next)) (URNum (e * RANGE)) r
    end
  else Some (rnd, e, rnd_next, rs).

Fixpoint random_loop (fuel : nat) (rs : list Z) (rnd e : Z) : option (Z * list Z) :=
  match fuel, rs with
  | S f, r :: rs =>
      '(rnd, e, rnd_next, rs) ← random_inner rs rnd e r;
      if num / RANGE <? rnd then Some (1 + muladdmod rnd range_l rnd_next num, rs)
      else
        let rnd := URNum (rnd * RANGE + rnd_next) in
        let e := muladdmod e range_l 0 num in
        if e <=? rnd then Some (1 + rnd mod num, rs) else random_loop f rs rnd e
  | _, _ => None
  end.
End Random.

(** The result and the random numbers that are left; [None] when the list
    given is too short. *)
Definition bf_random (arglist : list Var) (rs : list Z) : option (package * list Z) :=
  let num := match arglist with VInt n :: _ => n | _ => NUM_MAX end in
  if num <=? 0 then Some (make_error_pack E_INVARG, rs)
  else '(r, rs) ← random_loop num (length rs) rs 0 1; Some (make_int_pack r, rs).

(** ** Lemmas *)

Lemma Num_mod z : Num z mod 2 ^ 64 = z mod 2 ^ 64.
Proof.
  unfold Num, swrap. rewrite Zminus_mod_idemp_l. f_equal. change (2 ^ (64 - 1)) with (2 ^ 63). lia.
Qed.

Lemma Num_congr a b : a mod 2 ^ 64 = b mod 2 ^ 64 -> Num a = Num b.
Proof.
  intros H. unfold Num, swrap. rewrite Zplus_mod, H, <- Zplus_mod. done.
Qed.

Lemma Num_mul_l a b : Num (Num a * b) = Num (a * b).
Proof. apply Num_congr. by rewrite Zmult_mod, Num_mod, <- Zmult_mod. Qed.
Lemma Num_mul_r a b : Num (a * Num b) = Num (a * b).
Proof. rewrite Z.mul_comm, Num_mul_l, Z.mul_comm. done. Qed.

Lemma Num_range z : is_Num (Num z).
Proof. unfold is_Num, NUM_MIN, NUM_MAX, Num. pose proof (swrap_range 64 z). lia. Qed.
Lemma Num_id z : is_Num z -> Num z = z.
Proof. unfold is_Num, NUM_MIN, NUM_MAX, Num. intros. apply swrap_id; lia. Qed.

Lemma Num_pow_l a n : 0 <= n -> Num (Num a ^ n) = Num (a ^ n).
Proof.
  intros Hn. revert n Hn. apply natlike_ind; [done|]. intros n Hn IH. rewrite !Z.pow_succ_r by done.
  rewrite Num_mul_l, <- Num_mul_r, IH, Num_mul_r. done.
Qed.

Lemma land_1 b : 0 <= b -> Z.land b 1 = b mod 2.
Proof. intros. change 1 with (Z.ones 1). by rewrite Z.land_ones by lia. Qed.

Lemma power_loop_spec fuel r a b : is_Num r -> 0 <= b < 2 ^ Z.of_nat fuel ->
  power_loop fuel r a b = Some (Num (r * a ^ b)).
Proof.
  revert r a b. induction fuel as [|f IH]; intros r a b Hr Hb.
  { assert (b = 0) as -> by (simpl in Hb; lia). simpl. by rewrite Z.mul_1_r, Num_id. }
  cbn [power_loop]. destruct (Z.eqb_spec b 0) as [->|Hne]; [by rewrite Z.pow_0_r, Z.mul_1_r, Num_id|].
  rewrite land_1, Z.shiftr_div_pow2 by lia. change (2 ^ 1) with 2.
  assert (Hb2 : 0 <= b / 2 < 2 ^ Z.of_nat f).
  { rewrite Nat2Z.inj_succ, Z.pow_succ_r in Hb by lia. split; [apply Z.div_pos; lia|]. apply Z.div_lt_upper_bound; lia. }
  assert (Hpow : Num (a * a) ^ (b / 2) mod 2 ^ 64 = a ^ (2 * (b / 2)) mod 2 ^ 64).
  { rewrite <- Num_mod, Num_pow_l, Num_mod by lia. f_equal. rewrite Z.pow_mul_r by lia. f_equal. lia. }
  pose proof (Z.div_mod b 2 ltac:(lia)) as Hdm. destruct (Z.eqb_spec (b mod 2) 0) as [E|E].
  - rewrite IH by done. f_equal. apply Num_congr. rewrite Zmult_mod, Hpow, <- Zmult_mod. do 3 f_equal. lia.
  - assert (b mod 2 = 1) as E1 by (pose proof (Z.mod_pos_bound b 2); lia).
    rewrite IH by (apply Num_range || done). f_equal. rewrite Num_mul_l. apply Num_congr.
    rewrite Zmult_mod, Hpow, <- Zmult_mod. f_equal. rewrite <- Z.mul_assoc. f_equal.
    rewrite <- Z.pow_succ_r by lia. f_equal. lia.
Qed.

(** The only quotient of two [Num]s that is not a [Num]. *)
Lemma quot_Num x y : is_Num x -> is_Num y -> y <> 0 -> ~ (x = NUM_MIN /\ y = -1) -> is_Num (Z.quot x y) /\ is_Num (Z.rem x y).
Proof.
  unfold is_Num, NUM_MIN, NUM_MAX. intros Hx Hy Hne Hmin.
  pose proof (Z.quot_rem' x y) as E. pose proof (Z.rem_bound_abs x y Hne).
  assert (Z.abs (Z.quot x y) <= Z.abs x).
  { rewrite <- Z.quot_abs by done. apply Z.quot_le_upper_bound; nia. }
  split; [|lia]. split; [lia|]. destruct (decide (x = -2 ^ 63)) as [->|]; [|lia].
  destruct (decide (Z.quot (-2 ^ 63) y = 2 ^ 63)) as [Eq|]; [|lia]. rewrite Eq in E. exfalso.
  apply Hmin. split; [done|]. pose proof (Z.rem_sign_mul (-2^63) y Hne). nia.
Qed.

Lemma pow_m1 n : 0 <= n -> (-1) ^ n = if Z.land n 1 =? 0 then 1 else -1.
Proof.
  intros Hn. rewrite land_1 by done. pose proof (Z.div_mod n 2 ltac:(lia)) as E. pose proof (Z.mod_pos_bound n 2 ltac:(lia)).
  assert (0 <= n / 2) by (apply Z.div_pos; lia). rewrite E at 1.
  rewrite Z.pow_add_r, Z.pow_mul_r by lia. change ((-1) ^ 2) with 1. rewrite Z.pow_1_l by lia.
  destruct (Z.eqb_spec (n mod 2) 0) as [->|]; [done|]. by replace (n mod 2) with 1 by lia.
Qed.

(** A negative exponent: the reciprocal, truncated to an integer; for the base
    -1 with the wrong sign. *)
Lemma power_negative fpow a b : a <> 0 -> b < 0 ->
  do_power fpow (VInt a) (VInt b) =
    Some (VInt (if a =? -1 then - Z.quot 1 (a ^ (- b)) else Z.quot 1 (a ^ (- b)))).
Proof.
  intros Ha Hb. unfold do_power. destruct (Z.ltb_spec b 0); [|lia]. f_equal.
  assert (Hland : Z.land (- b) 1 = Z.land b 1).
  { change 1 with (Z.ones 1). rewrite !Z.land_ones by lia. change (2 ^ 1) with 2.
    pose proof (Z.div_mod b 2 ltac:(lia)). pose proof (Z.mod_pos_bound b 2 ltac:(lia)).
    symmetry. apply (Z.mod_unique _ _ (- (b / 2) - b mod 2)); lia. }
  destruct (Z.eqb_spec a (-1)) as [->|].
  { rewrite pow_m1, Hland by lia. by destruct (Z.land b 1 =? 0). }
  destruct (Z.eqb_spec a 0); [done|]. destruct (Z.eqb_spec a 1) as [->|]; [by rewrite Z.pow_1_l by lia|].
  f_equal. symmetry. apply Z.quot_small_iff.
  - apply Z.pow_nonzero; lia.
  - rewrite Z.abs_pow. assert (2 ^ 1 <= Z.abs a ^ (- b)); [|simpl in *; lia].
    etrans; [apply Z.pow_le_mono_l; instantiate (1 := Z.abs a); lia|apply Z.pow_le_mono_r; lia].
Qed.

(** *** Reading numbers *)

(** Continuing with the rest of the input. *)
Definition pn_next (my_isspace : Z -> bool) (fl : pn_flags) (inp : list Z) (st : pn_state) : pn_end * pn_state :=
  match inp with
  | [] => (AT_EOF [], st)
  | c :: inp => if c =? EOF then (AT_EOF inp, st) else pn_loop my_isspace fl inp c st
  end.

(** The number that a list of digits denotes. *)
Definition digits_value (ds : list Z) : Z := fold_left (fun a c => a * 10 + (c - 48)) ds 0.

(** What a string must look like to be read as an integer, without floats:
    blanks, perhaps a number sign and blanks, perhaps a minus, digits, blanks. *)
Fixpoint drop_spaces (my_isspace : Z -> bool) (l : list Z) : list Z :=
  match l with c :: l' => if my_isspace c then drop_spaces my_isspace l' else l | [] => [] end.
Fixpoint span_digits (l : list Z) : list Z * list Z :=
  match l with
  | c :: l' => if isdigit c then let '(ds, r) := span_digits l' in (c :: ds, r) else ([], l)
  | [] => ([], [])
  end.
Definition read_signed (my_isspace : Z -> bool) (t : list Z) : option Z :=
  let '(neg, t) := match t with c :: t' => if c =? 45 then (true, t') else (false, t) | [] => (false, []) end in
  let '(ds, r) := span_digits t in
  if bool_decide (ds = []) then None
  else if forallb my_isspace r then Some (if neg : bool then - digits_value ds else digits_value ds) else None.
Definition read_integer (my_isspace : Z -> bool) (vs : list Z) : option Z :=
  read_signed my_isspace
    (match drop_spaces my_isspace vs with
     | c :: t => if c =? 35 then drop_spaces my_isspace t else c :: t
     | [] => []
     end).

(** In or out of the range of [Num]. *)
Definition ranged (v : Z) : Var := if (NUM_MIN <=? v) && (v <=? NUM_MAX) then VInt v else VErr E_RANGE.

Section Reading.
Context (my_isspace : Z -> bool) (strtod : bytes -> spec_float * bytes).
(** White space contains no graphic ASCII character. *)
Context (Hspace : forall c, 33 <= c <= 126 -> my_isspace c = false).

Abbreviation next := (pn_next my_isspace).
Abbreviation loop := (pn_loop my_isspace).

Lemma read_digits_all acc ds : forallb isdigit ds = true ->
  read_digits acc ds = (fold_left (fun a c => a * 10 + (c - 48)) ds acc, []).
Proof.
  revert acc. induction ds as [|c ds IH]; intros acc H; [done|]. simpl in *.
  apply andb_true_iff in H as [-> H]. by apply IH.
Qed.

Lemma isdigit_range c : isdigit c = true <-> 48 <= c <= 57.
Proof. unfold isdigit. rewrite andb_true_iff, !Z.leb_le. done. Qed.

Lemma isspace_digit c : isdigit c = true -> isspace c = false.
Proof.
  rewrite isdigit_range. intros. unfold isspace, space_char.
  destruct (Z.eqb_spec c 32); [lia|]. destruct (Z.leb_spec 9 c), (Z.leb_spec c 13); simpl; done || lia.
Qed.

Lemma strtoimax_all (neg : bool) ds : forallb isdigit ds = true -> ds <> [] ->
  let v := if neg then - digits_value ds else digits_value ds in
  strtoimax ((if neg then [45] else []) ++ ds) = (clamp_long v, (v <? NUM_MIN) || (NUM_MAX <? v), []).
Proof.
  intros H Hne v. destruct ds as [|c ds]; [done|]. pose proof H as H'. simpl in H'. apply andb_true_iff in H' as [Hc _].
  pose proof (read_digits_all 0 (c :: ds) H) as E. pose proof (proj1 (isdigit_range c) Hc) as Hr.
  unfold strtoimax. destruct neg; cbn [app skip_isspace].
  - change (isspace 45) with false. cbn iota. change (45 =? 45) with true. cbn iota. rewrite Hc, E. done.
  - rewrite (isspace_digit c Hc). cbn iota.
    destruct (Z.eqb_spec c 45); [lia|]. destruct (Z.eqb_spec c 43); [lia|]. rewrite Hc, E. done.
Qed.

Lemma have_digits_integer fl (neg : bool) ds mi dot ex dig xs : PN_REQ_FLOAT fl = false -> PN_NONNEG fl = false ->
  forallb isdigit ds = true -> ds <> [] ->
  have_digits strtod fl (mkPst ((if neg then [45] else []) ++ ds) false mi dot ex dig xs) =
    ranged (if neg then - digits_value ds else digits_value ds).
Proof.
  intros Hq Hn Hds Hne. unfold have_digits. rewrite Hq, Hn. cbn [is_float negb andb ns].
  rewrite strtoimax_all by done. unfold ranged, clamp_long. set (v := if neg then _ else _).
  destruct (Z.ltb_spec v NUM_MIN), (Z.ltb_spec NUM_MAX v), (Z.leb_spec NUM_MIN v), (Z.leb_spec v NUM_MAX);
    simpl; try done; try lia. f_equal. unfold NUM_MIN, NUM_MAX in *. lia.
Qed.

Lemma digit_step fl c inp st : isdigit c = true ->
  loop fl inp c st = next fl inp (mkPst (ns st ++ [c]) (is_float st) (F_MINUS st) (F_DOT st) (F_EXP st) true true).
Proof.
  intros Hc. pose proof (proj1 (isdigit_range c) Hc). destruct st. unfold pn_next.
  destruct inp; cbn [pn_loop]; repeat btestc; rewrite Hc; reflexivity.
Qed.

Lemma minus_step fl inp st : F_XSIGN st = false ->
  loop fl inp 45 st = next fl inp (mkPst (ns st ++ [45]) (is_float st) true (F_DOT st) (F_EXP st) (F_DIGIT st) true).
Proof. destruct st; simpl. intros ->. by destruct inp. Qed.

(** Scanning digits. *)
Lemma next_digits fl ds rest st : forallb isdigit ds = true -> ds <> [] ->
  next fl (ds ++ rest) st =
  next fl rest (mkPst (ns st ++ ds) (is_float st) (F_MINUS st) (F_DOT st) (F_EXP st) true true).
Proof.
  revert st. induction ds as [|c ds IH]; [done|]. intros st H _. simpl in H. apply andb_true_iff in H as [Hc H].
  pose proof (proj1 (isdigit_range c) Hc). cbn [app pn_next]. destruct (Z.eqb_spec c EOF); [unfold EOF in *; lia|].
  rewrite digit_step by done. destruct ds as [|c' ds]; [done|].
  rewrite IH by done. simpl. by rewrite <- app_assoc.
Qed.

Lemma skip_pn_spaces_spec inp c : EOF ∉ c :: inp ->
  skip_pn_spaces my_isspace inp c =
  match drop_spaces my_isspace (c :: inp) with c' :: inp' => (Some (c', inp'), inp') | [] => (None, []) end.
Proof.
  revert c. induction inp as [|c' inp IH]; intros c H; cbn [skip_pn_spaces drop_spaces]; destruct (my_isspace c); [done..| |done].
  apply not_elem_of_cons in H as [_ H]. pose proof H as [H' _]%not_elem_of_cons.
  destruct (Z.eqb_spec c' EOF); [done|]. rewrite IH by done. done.
Qed.

Lemma drop_spaces_all l : forallb my_isspace l = true <-> drop_spaces my_isspace l = [].
Proof. induction l as [|c l IH]; simpl; [done|]. destruct (my_isspace c); simpl; [done|]. by split. Qed.

Lemma drop_spaces_head l c t : drop_spaces my_isspace l = c :: t -> my_isspace c = false.
Proof. induction l as [|c' l IH]; simpl; [done|]. destruct (my_isspace c') eqn:E; [done|]. by intros [= -> ->]. Qed.

Lemma drop_spaces_eof l : EOF ∉ l -> EOF ∉ drop_spaces my_isspace l.
Proof. induction l as [|c l IH]; simpl; [done|]. destruct (my_isspace c); set_solver. Qed.

(** A character that is none of those the scanner knows. *)
Lemma other_step fl inp c st : ~ (33 <= c <= 126) ->
  loop fl inp c st =
  if PN_TRSPACE fl then match skip_pn_spaces my_isspace inp c with
                        | (Some (c, inp), _) => (BADCHAR c inp, st)
                        | (None, inp) => (AT_EOF inp, st)
                        end
  else (BADCHAR c inp, st).
Proof.
  intros Hc. assert (isdigit c = false) as Hd.
  { destruct (isdigit c) eqn:E; [|done]. apply isdigit_range in E. lia. }
  destruct st, inp; cbn [pn_loop]; repeat btestc; rewrite Hd; done.
Qed.

(** What follows the digits, or stands in their place: blanks to the end, or a
    character that cannot be part of an integer. *)
Lemma next_tail fl rest st : PN_FLOAT_OK fl = false -> PN_TRSPACE fl = true -> F_EXP st = false ->
  EOF ∉ rest -> (forall c t, rest = c :: t -> isdigit c = false /\ (F_XSIGN st = true \/ c <> 45)) ->
  exists e, next fl rest st = (e, st) /\
    (if forallb my_isspace rest then e = AT_EOF [] else exists c inp, e = BADCHAR c inp).
Proof.
  intros Hf Ht He Heof Hhead. destruct rest as [|c t]; [by eexists|]. destruct (Hhead c t eq_refl) as [Hd Hx].
  unfold pn_next. pose proof Heof as [H1 _]%not_elem_of_cons. destruct (Z.eqb_spec c EOF); [done|].
  assert (Hskip : exists e, match skip_pn_spaces my_isspace t c with
                            | (Some (c, inp), _) => (BADCHAR c inp, st)
                            | (None, inp) => (AT_EOF inp, st)
                            end = (e, st) /\
            (if forallb my_isspace (c :: t) then e = AT_EOF [] else exists c inp, e = BADCHAR c inp)).
  { rewrite skip_pn_spaces_spec by done. pose proof (drop_spaces_all (c :: t)) as Ha.
    destruct (drop_spaces my_isspace (c :: t)) as [|c' t'] eqn:Ed.
    - destruct Ha as [_ ->]; [|done]. eauto.
    - destruct (forallb my_isspace (c :: t)); [by pose proof (proj1 Ha eq_refl)|]. eauto. }
  destruct (decide (33 <= c <= 126)) as [Hc|Hc].
  - cbn [forallb]. rewrite Hspace by done. cbn [andb].
    destruct st as [? ? ? ? ex ? xs]; simpl in *; subst ex.
    assert (exists e, loop fl t c (mkPst ns0 is_float0 F_MINUS0 F_DOT0 false F_DIGIT0 xs) =
              (e, mkPst ns0 is_float0 F_MINUS0 F_DOT0 false F_DIGIT0 xs) /\ exists c inp, e = BADCHAR c inp); [|done].
    destruct t as [|c' t]; cbn [pn_loop skip_pn_spaces]; rewrite Hf, Ht, Hd, !orb_true_r, (Hspace c Hc); cbn [negb andb];
      (destruct (c =? 43); [by eauto|]); (destruct (Z.eqb_spec c 45); [destruct Hx as [-> | ?]; [by eauto|done]|]);
      (destruct (c =? 46); [by eauto|]); (destruct ((c =? 101) || (c =? 69)); by eauto).
  - rewrite other_step, Ht by done. done.
Qed.

Lemma span_digits_spec l : let '(ds, r) := span_digits l in
  l = ds ++ r /\ forallb isdigit ds = true /\ (forall c t, r = c :: t -> isdigit c = false).
Proof.
  induction l as [|c l IH]; simpl; [done|]. destruct (isdigit c) eqn:E.
  - destruct (span_digits l) as [ds r]. destruct IH as (-> & H & Hr). simpl. by rewrite E.
  - split; [done|]. split; [done|]. by intros ? ? [= <- <-].
Qed.

(** The scan of a signed integer from the initial state, to the end. *)
Lemma scan_signed fl t : PN_FLOAT_OK fl = false -> PN_TRSPACE fl = true -> PN_MUST_EOF fl = true ->
  pn_ungetch fl = false -> PN_NONNEG fl = false -> PN_REQ_FLOAT fl = false -> EOF ∉ t ->
  (pn_finish strtod fl (next fl t (mkPst [] false false false false false false))).1 = from_option ranged (VErr E_INVARG) (read_signed my_isspace t).
Proof.
  intros Hf Ht Hm Hu Hn Hq Heof.
  assert (Hmain : forall (neg : bool) u, EOF ∉ u -> (neg = false -> forall c t, u = c :: t -> c <> 45) ->
    (pn_finish strtod fl (next fl u (mkPst (if neg then [45] else []) false neg false false false neg))).1 = from_option ranged (VErr E_INVARG)
      (let '(ds, r) := span_digits u in
       if bool_decide (ds = []) then None
       else if forallb my_isspace r then Some (if neg then - digits_value ds else digits_value ds) else None)).
  { intros neg u Hu' Hneg. pose proof (span_digits_spec u) as Hs. destruct (span_digits u) as [ds r].
    destruct Hs as (-> & Hds & Hr). assert (Hre : EOF ∉ r) by set_solver.
    destruct (decide (ds = [])) as [-> |Hne].
    - simpl. destruct (next_tail fl r (mkPst (if neg then [45] else []) false neg false false false neg)) as (e & -> & He);
        [done..| |]. { intros c' t' ->. split; [eauto|]. destruct neg; [by left|right; by eapply Hneg]. }
      destruct e; simpl; by rewrite ?Hm, ?Hu.
    - rewrite bool_decide_false, next_digits by done. cbn [ns is_float F_MINUS F_DOT F_EXP].
      destruct (next_tail fl r (mkPst ((if neg then [45] else []) ++ ds) false neg false false true true)) as (e & -> & He);
        [done..| |]. { intros c' t' ->. split; [eauto|by left]. }
      destruct (forallb my_isspace r); [subst e|destruct He as (? & ? & ->); simpl; by rewrite Hm]. simpl.
      by rewrite have_digits_integer. }
  unfold read_signed. destruct t as [|c t]; [exact (Hmain false [] Heof ltac:(done))|].
  destruct (Z.eqb_spec c 45) as [-> |Hc].
  - unfold pn_next at 1. change (45 =? EOF) with false. cbn iota. rewrite minus_step by done. apply (Hmain true); [set_solver|done].
  - apply (Hmain false); [done|]. by intros _ ? ? [= <- <-].
Qed.

Lemma snp_chars_from us vs : Forall scalar us -> Forall scalar vs ->
  map (fun p => (get_utf (encode_all (us ++ vs)) p).1) (starts_at (encode_all (us ++ vs)) (length (encode_all us))) = vs.
Proof.
  intros Hus Hvs. revert us Hus. induction Hvs as [|v vs Hv Hvs IH]; intros us Hus.
  - rewrite app_nil_r. by rewrite starts_at_end.
  - rewrite starts_at_step.
    + rewrite get_utf_at by done. cbn [map snd]. rewrite get_utf_at by done. cbn [fst]. f_equal.
      specialize (IH (us ++ [v])). rewrite encode_all_snoc, length_app, <- app_assoc in IH. apply IH.
      apply Forall_app; split; [done|by constructor].
    + apply encode_all_cstr, Forall_app. split; [done|by constructor].
    + rewrite encode_all_app, encode_all_cons, !length_app. pose proof (encode_length_pos v Hv). lia.
Qed.

Lemma snp_chars_encode vs : Forall scalar vs -> snp_chars (encode_all vs) = vs.
Proof. intros. by apply (snp_chars_from []). Qed.

(** The characters read are scalar values, whatever the bytes. *)
Lemma snp_chars_scalar s : cstr s -> Forall scalar (snp_chars s).
Proof.
  intros Hs. unfold snp_chars, starts. fold (starts_at s 0). generalize 0%nat.
  apply (utf_ind s); [done| |].
  - intros p Hp. by rewrite starts_at_end.
  - intros p Hp Hq _ IH. rewrite starts_at_step by done. cbn [map]. constructor; [|done].
    destruct (get_utf s p) as [v q] eqn:E. simpl. destruct (decide (v = INVALID_RUNE)) as [-> |Hv]; [apply scalar_INVALID_RUNE|].
    by destruct (get_utf_decodes s p v q Hs Hp E Hv).
Qed.

Lemma snp_chars_eof s : cstr s -> EOF ∉ snp_chars s.
Proof.
  intros Hs Hin. pose proof (snp_chars_scalar s Hs) as H. rewrite Forall_forall in H.
  specialize (H _ Hin). unfold scalar, EOF in H. lia.
Qed.

(** Objects: a string read without floats. *)
Lemma parse_object_number s : cstr s ->
  parse_number_from_string my_isspace strtod s (integer_flags false) =
    from_option ranged (VErr E_INVARG) (read_integer my_isspace (snp_chars s)).
Proof.
  intros Hs. pose proof (snp_chars_eof s Hs) as Heof. unfold parse_number_from_string, read_integer.
  destruct (snp_chars s) as [|c inp]; [done|]. unfold parse_number, pn_start. cbn [PN_LDSPACE integer_flags].
  pose proof Heof as [H1 _]%not_elem_of_cons. destruct (Z.eqb_spec c EOF); [done|].
  rewrite skip_pn_spaces_spec by done. pose proof (drop_spaces_eof _ Heof) as Hd.
  destruct (drop_spaces my_isspace (c :: inp)) as [|c' t]; [done|]. cbn [PN_OCTOTHORPE integer_flags negb].
  assert (Hscan : forall u, EOF ∉ u -> (pn_finish strtod (integer_flags false)
      (next (integer_flags false) u (mkPst [] false false false false false false))).1 =
    from_option ranged (VErr E_INVARG) (read_signed my_isspace u)) by (intros; by apply scan_signed).
  destruct (Z.eqb_spec c' 35) as [-> |]; cbn [andb].
  - destruct t as [|c2 t]; [done|]. pose proof Hd as [_ Hd2]%not_elem_of_cons. pose proof Hd2 as [H2 _]%not_elem_of_cons.
    unfold NEXTC. destruct (Z.eqb_spec c2 EOF); [done|]. cbn [PN_OCTOSPACE integer_flags].
    rewrite skip_pn_spaces_spec by done. pose proof (drop_spaces_eof _ Hd2) as Hd3.
    rewrite <- Hscan by done. destruct (drop_spaces my_isspace (c2 :: t)) as [|c3 u]; [done|].
    unfold pn_next. pose proof Hd3 as [H3 _]%not_elem_of_cons. by destruct (Z.eqb_spec c3 EOF).
  - rewrite <- Hscan by done. unfold pn_next. pose proof Hd as [H3 _]%not_elem_of_cons. by destruct (Z.eqb_spec c' EOF).
Qed.

Lemma drop_spaces_app l c t : forallb my_isspace l = true -> my_isspace c = false ->
  drop_spaces my_isspace (l ++ c :: t) = c :: t.
Proof.
  intros Hl Hc. induction l as [|x l IH]; simpl; [by rewrite Hc|]. simpl in Hl. apply andb_true_iff in Hl as [-> Hl]. auto.
Qed.

Lemma next_spaces fl sp st : PN_TRSPACE fl = true -> EOF ∉ sp -> forallb my_isspace sp = true ->
  next fl sp st = (AT_EOF [], st).
Proof.
  intros Ht Heof Hsp. destruct sp as [|c sp]; [done|]. unfold pn_next. pose proof Heof as [? _]%not_elem_of_cons.
  destruct (Z.eqb_spec c EOF); [done|]. rewrite other_step.
  - rewrite Ht, skip_pn_spaces_spec by done. apply drop_spaces_all in Hsp. by rewrite Hsp.
  - intros Hg. simpl in Hsp. apply andb_true_iff in Hsp as [Hsp _]. by rewrite Hspace in Hsp.
Qed.

(** Blanks, a sign, digits and blanks are an integer also where floats are allowed. *)
Lemma parse_integer_float_ok s sp1 (neg : bool) ds sp2 : cstr s ->
  snp_chars s = sp1 ++ (if neg then [45] else []) ++ ds ++ sp2 ->
  forallb my_isspace sp1 = true -> forallb my_isspace sp2 = true -> forallb isdigit ds = true -> ds <> [] ->
  parse_number_from_string my_isspace strtod s (integer_flags true) =
    ranged (if neg then - digits_value ds else digits_value ds).
Proof.
  intros Hs E H1 H2 Hd Hne. pose proof (snp_chars_eof s Hs) as Heof. unfold parse_number_from_string.
  destruct ds as [|d0 ds]; [done|]. pose proof Hd as Hd0. simpl in Hd0. apply andb_true_iff in Hd0 as [Hd0 _].
  pose proof (proj1 (isdigit_range d0) Hd0) as Hr.
  set (body := (if neg then [45] else []) ++ (d0 :: ds) ++ sp2) in *.
  assert (Hb : exists c t, body = c :: t /\ my_isspace c = false).
  { unfold body. destruct neg; eexists _, _; (split; [reflexivity|]); apply Hspace; lia. }
  destruct Hb as (c & t & Eb & Hc).
  assert (Hst : next (integer_flags true) body (mkPst [] false false false false false false) =
       (AT_EOF [], mkPst ((if neg then [45] else []) ++ d0 :: ds) false neg false false true true)).
  { assert (EOF ∉ sp2) by (rewrite E in Heof; unfold body in Heof; set_solver). unfold body. destruct neg; cbn [app].
    - unfold pn_next. change (45 =? EOF) with false. cbn iota. rewrite minus_step by done.
      change (d0 :: ds ++ sp2) with ((d0 :: ds) ++ sp2). rewrite next_digits by done. by rewrite next_spaces.
    - change (d0 :: ds ++ sp2) with ((d0 :: ds) ++ sp2). rewrite next_digits by done. by rewrite next_spaces. }
  rewrite <- (have_digits_integer (integer_flags true) neg (d0 :: ds) neg false false true true) by done.
  destruct (snp_chars s) as [|x inp] eqn:Ex; [by rewrite Eb in E; destruct sp1|].
  unfold parse_number, pn_start. pose proof Heof as [? _]%not_elem_of_cons.
  destruct (Z.eqb_spec x EOF); [done|]. cbn [PN_LDSPACE integer_flags]. rewrite skip_pn_spaces_spec by done.
  rewrite E, Eb, drop_spaces_app by done. cbn [PN_OCTOTHORPE integer_flags negb andb].
  rewrite Eb in Hst. assert (EOF ∉ c :: t) as Hbe by (rewrite E, Eb in Heof; set_solver).
  pose proof Hbe as [? _]%not_elem_of_cons. unfold pn_next in Hst. destruct (Z.eqb_spec c EOF); [done|].
  cbn [PN_NONNEG integer_flags]. rewrite Hst. done.
Qed.
End Reading.

(** What [print_num] prints is digits that denote the number. *)
Lemma digits_spec f : forall n acc, 0 <= n < 10 ^ Z.of_nat f -> (0 < f)%nat -> exists ds, digits f n acc = ds ++ acc /\
  forallb isdigit ds = true /\ ds <> [] /\
  forall a, fold_left (fun a c => a * 10 + (c - 48)) ds a = a * 10 ^ Z.of_nat (length ds) + n.
Proof.
  induction f as [|f IH]; intros n acc Hn Hf; [lia|]. cbn [digits].
  assert (Hd : isdigit (48 + n mod 10) = true) by (apply isdigit_range; pose proof (Z.mod_pos_bound n 10); lia).
  destruct (Z.ltb_spec n 10) as [Hlt|Hge].
  - exists [48 + n mod 10]. rewrite Z.mod_small by lia. rewrite Z.mod_small in Hd by lia.
    split; [done|]. split; [cbn [forallb]; by rewrite Hd|]. split; [done|]. intros a. simpl. lia.
  - rewrite Nat2Z.inj_succ, Z.pow_succ_r in Hn by lia.
    destruct (IH (n / 10) (48 + n mod 10 :: acc)) as (ds & -> & Hds & Hne & Hv).
    + split; [apply Z.div_pos; lia|]. apply Z.div_lt_upper_bound; lia.
    + destruct f; [simpl in Hn; lia|lia].
    + exists (ds ++ [48 + n mod 10]). rewrite <- app_assoc. split; [done|].
      split; [rewrite forallb_app, Hds; cbn [forallb]; by rewrite Hd|]. split; [by destruct ds|].
      intros a. rewrite fold_left_app, Hv, length_app, Nat2Z.inj_add. simpl.
      rewrite Z.pow_add_r by lia. pose proof (Z.div_mod n 10 ltac:(lia)). lia.
Qed.

Lemma print_num_spec n : is_Num n -> exists ds, print_num n = (if n <? 0 then [45] else []) ++ ds /\
  forallb isdigit ds = true /\ ds <> [] /\ digits_value ds = Z.abs n.
Proof.
  intros Hn. unfold is_Num, NUM_MIN, NUM_MAX in Hn. unfold print_num.
  assert (H : 0 <= Z.abs n < 10 ^ Z.of_nat 20) by (change (10 ^ Z.of_nat 20) with 100000000000000000000; lia).
  destruct (digits_spec 20 (Z.abs n) [] H ltac:(lia)) as (ds & E & Hd & Hne & Hv). rewrite app_nil_r in E.
  exists ds. specialize (Hv 0). simpl in Hv. split; [|done]. destruct (Z.ltb_spec n 0).
  - by replace (- n) with (Z.abs n) by lia; rewrite E.
  - by replace n with (Z.abs n) at 1 by lia.
Qed.

Lemma digits_ascii ds : forallb isdigit ds = true -> Forall (fun c => 0 < c < 128) ds.
Proof.
  rewrite forallb_forall. intros H. apply Forall_forall. intros c Hc%list_elem_of_In. apply H, isdigit_range in Hc. lia.
Qed.

Lemma snp_chars_ascii cs : Forall (fun c => 0 < c < 128) cs -> cstr cs /\ snp_chars cs = cs.
Proof.
  intros H. destruct (encode_ascii cs H) as [Hs E]. split.
  - eapply Forall_impl; [exact H|]. simpl. lia.
  - rewrite <- E at 1. by apply snp_chars_encode.
Qed.

Lemma span_digits_all ds : forallb isdigit ds = true -> span_digits ds = (ds, []).
Proof. induction ds as [|c ds IH]; [done|]. simpl. intros [-> H]%andb_true_iff. by rewrite IH. Qed.

Lemma print_num_ascii n : is_Num n -> Forall (fun c => 0 < c < 128) (print_num n).
Proof.
  intros Hn. destruct (print_num_spec n Hn) as (ds & -> & Hd & _). apply Forall_app. split; [|by apply digits_ascii].
  destruct (n <? 0); [|done]. constructor; [lia|done].
Qed.

Lemma read_signed_print my_isspace n : is_Num n -> read_signed my_isspace (print_num n) = Some n.
Proof.
  intros Hn. destruct (print_num_spec n Hn) as (ds & -> & Hd & Hne & Hv). unfold read_signed.
  destruct (Z.ltb_spec n 0); cbn [app].
  - change (45 =? 45) with true. cbn iota. rewrite span_digits_all, bool_decide_false, Hv by done. f_equal. lia.
  - destruct ds as [|c ds]; [done|]. pose proof Hd as Hd'. simpl in Hd'. apply andb_true_iff in Hd' as [Hc%isdigit_range _].
    destruct (Z.eqb_spec c 45); [lia|]. rewrite span_digits_all, bool_decide_false, Hv by done. f_equal. lia.
Qed.

(** No printed number begins with a blank or a number sign. *)
Lemma read_integer_print my_isspace n : (forall c, 33 <= c <= 126 -> my_isspace c = false) -> is_Num n ->
  read_integer my_isspace (print_num n) = Some n /\ read_integer my_isspace (35 :: print_num n) = Some n.
Proof.
  intros Hsp Hn. pose proof (read_signed_print my_isspace n Hn) as E.
  assert (Hh : drop_spaces my_isspace (print_num n) = print_num n /\ forall c t, print_num n = c :: t -> c <> 35).
  { destruct (print_num_spec n Hn) as (ds & -> & Hd & Hne & _). destruct (n <? 0); cbn [app].
    - cbn [drop_spaces]. rewrite Hsp by lia. split; [done|]. by intros ? ? [= <- _].
    - destruct ds as [|c ds]; [done|]. simpl in Hd. apply andb_true_iff in Hd as [Hc%isdigit_range _].
      cbn [drop_spaces]. rewrite Hsp by lia. split; [done|]. intros ? ? [= <- _]. lia. }
  destruct Hh as [Hdrop H35]. unfold read_integer. split.
  - rewrite Hdrop. destruct (print_num n) as [|c t]; [done|]. specialize (H35 c t eq_refl). by destruct (Z.eqb_spec c 35).
  - cbn [drop_spaces]. rewrite Hsp by lia. change (35 =? 35) with true. cbn iota. by rewrite Hdrop.
Qed.

(** What [become_integer] makes of the result of the reader. *)
Definition integer_or_0 (r : Var) : option (error + Z) :=
  match r with VErr E_NONE => None | VErr _ => Some (inr 0) | VInt n => Some (inr n) | _ => None end.

Lemma integer_flags_total my_isspace strtod s b :
  exists n, integer_or_0 (parse_number_from_string my_isspace strtod s (integer_flags b)) = Some (inr n).
Proof.
  assert (Hd : forall st, exists n, integer_or_0 (have_digits strtod (integer_flags b) st) = Some (inr n)).
  { intros st. unfold have_digits. repeat case_match; simpl; eauto; done. }
  assert (H : forall r, exists n, integer_or_0 (pn_finish strtod (integer_flags b) r).1 = Some (inr n)).
  { intros [[c inp|inp] st]; unfold pn_finish; cbn [PN_MUST_EOF pn_ungetch integer_flags]; [simpl; eauto|].
    destruct (F_DIGIT st); [apply Hd|]. rewrite orb_true_r. simpl. eauto. }
  unfold parse_number_from_string, parse_number. destruct (snp_chars s); apply H.
Qed.

Lemma ranged_Num n : is_Num n -> ranged n = VInt n.
Proof. unfold is_Num, ranged. intros. by rewrite !(proj2 (Z.leb_le _ _)) by lia. Qed.

(** *** The lexer's use of the reader *)

Section Lexing.
Context (my_isspace : Z -> bool) (strtod : bytes -> spec_float * bytes) (fl : pn_flags).
Context (Hunget : pn_ungetch fl = true) (Htr : PN_TRSPACE fl = false).

(** Inputs from which [getch] delivers the same characters. *)
Definition same_input (a b : list Z) : Prop := forall n : nat, nth n a EOF = nth n b EOF.

Lemma same_input_refl a : same_input a a.
Proof. by intros n. Qed.
Lemma same_input_trans a b c : same_input a b -> same_input b c -> same_input a c.
Proof. intros H1 H2 n. by rewrite H1. Qed.
Lemma same_input_app a b c : same_input b c -> same_input (a ++ b) (a ++ c).
Proof. intros H. induction a as [|x a IH]; [done|]. intros [|n]; [done|apply IH]. Qed.
Lemma same_input_eof : same_input [EOF] [].
Proof. intros [|[|n]]; done. Qed.

Abbreviation loop := (pn_loop my_isspace fl).

(** One step of the loop: it stops at [c], or takes it and goes on. *)
Lemma loop_step inp c st :
  loop inp c st = (BADCHAR c inp, st) \/
  exists st', loop inp c st = pn_next my_isspace fl inp st' /\
    (F_DIGIT st || F_EXP st = true -> F_DIGIT st' || F_EXP st' = true) /\
    (F_DIGIT st' || F_EXP st' = true \/
     (c = 45 /\ F_XSIGN st = false /\ F_DOT st' = F_DOT st /\ F_MINUS st' = true /\ F_XSIGN st' = true) \/
     (c = 46 /\ F_DOT st = false /\ F_DOT st' = true /\ F_MINUS st' = F_MINUS st /\ F_XSIGN st' = true)).
Proof.
  destruct st as [s fd mi dot ex dig xs]. unfold pn_next.
  destruct inp as [|c' inp]; cbn [pn_loop]; rewrite Htr; cbn [F_DIGIT F_EXP F_XSIGN F_DOT F_MINUS];
    (destruct (c =? 43); [destruct ex, xs; try (by left); right; eexists; split; [reflexivity|]; cbn; by rewrite ?orb_true_r; auto|]);
    (destruct (Z.eqb_spec c 45); [destruct xs; [by left|]; right; eexists; split; [reflexivity|]; cbn; by auto 8|]);
    (destruct (Z.eqb_spec c 46); [destruct dot; [by left|]; destruct ex; [by left|]; destruct (PN_FLOAT_OK fl); [|by left];
       destruct (dot_starts_new_token _ _); [by left|]; right; eexists; split; [reflexivity|]; cbn; by auto 8|]);
    (destruct ((c =? 101) || (c =? 69)); [destruct dig, ex, (PN_FLOAT_OK fl); try (by left);
       right; eexists; split; [reflexivity|]; cbn; by auto|]);
    (destruct (isdigit c); [right; eexists; split; [reflexivity|]; cbn; by auto|by left]).
Qed.

(** The characters taken while neither a digit nor an exponent has been seen. *)
Definition taken (st : pn_state) : list Z :=
  (if F_MINUS st then [45] else []) ++ (if F_DOT st then [46] else []).
Definition left_over (e : pn_end) : list Z := match e with BADCHAR c inp => c :: inp | AT_EOF inp => EOF :: inp end.

Lemma loop_sticky inp c st : F_DIGIT st || F_EXP st = true ->
  F_DIGIT (loop inp c st).2 || F_EXP (loop inp c st).2 = true.
Proof.
  revert c st. induction inp as [|c' inp IH]; intros c st H.
  - destruct (loop_step [] c st) as [-> |(st' & -> & Hs & _)]; [done|]. by apply Hs.
  - destruct (loop_step (c' :: inp) c st) as [-> |(st' & -> & Hs & _)]; [done|]. cbn [pn_next].
    destruct (c' =? EOF); auto.
Qed.

Lemma loop_backtracks inp : forall c st, (F_MINUS st || F_DOT st = true -> F_XSIGN st = true) ->
  F_DIGIT (loop inp c st).2 || F_EXP (loop inp c st).2 = true \/
  same_input (taken (loop inp c st).2 ++ left_over (loop inp c st).1) (taken st ++ c :: inp).
Proof.
  induction inp as [|c' inp IH]; intros c st Hx.
  all: match goal with |- context [pn_loop _ _ ?inp ?c ?st] => destruct (loop_step inp c st) as [-> |(st' & -> & Hs & Hc)] end;
    [right; apply same_input_refl|].
  all: destruct (F_DIGIT st' || F_EXP st') eqn:Ed.
  1: by left.
  2: { left. cbn [pn_next]. destruct (c' =? EOF); [done|by apply loop_sticky]. }
  all: assert (Ht : taken st' = taken st ++ [c] /\ F_XSIGN st' = true).
  1, 3: destruct Hc as [|[(-> & Hx0 & Hd & Hm & ?)|(-> & Hd0 & Hd & Hm & ?)]]; [done| |]; (split; [|done]); unfold taken; rewrite Hd, Hm;
     [destruct (F_MINUS st), (F_DOT st); try done; by rewrite Hx in Hx0|by rewrite Hd0, app_nil_r].
  all: destruct Ht as [Ht Hx']; cbn [pn_next].
  - right. cbn [fst snd left_over]. rewrite Ht, <- app_assoc. apply same_input_app, (same_input_app [c]), same_input_eof.
  - destruct (Z.eqb_spec c' EOF) as [-> |].
    + right. cbn [fst snd left_over]. rewrite Ht, <- app_assoc. apply same_input_refl.
    + destruct (IH c' st') as [|IH']; [done|by left|]. right. eapply same_input_trans; [exact IH'|].
      rewrite Ht, <- app_assoc. apply same_input_refl.
Qed.

(** "E_NONE returned means the parser has fully backtracked." *)
Lemma parse_number_backtracks c inp inp' : PN_LDSPACE fl = false -> PN_OCTOTHORPE fl = false -> PN_MUST_EOF fl = false ->
  parse_number my_isspace strtod fl c inp = (VErr E_NONE, inp') -> same_input inp' (c :: inp).
Proof.
  intros Hl Ho Hm. unfold parse_number, pn_start. rewrite Hl, Ho. cbn [andb].
  set (st0 := mkPst _ _ _ _ _ _ _).
  assert (Hnone : forall st, have_digits strtod fl st <> VErr E_NONE).
  { intros st. unfold have_digits. repeat case_match; done. }
  assert (Hfin : forall r, (F_DIGIT r.2 || F_EXP r.2 = true \/ same_input (taken r.2 ++ left_over r.1) (c :: inp)) ->
    pn_finish strtod fl r = (VErr E_NONE, inp') -> same_input inp' (c :: inp)).
  { intros [e st] H. unfold pn_finish. rewrite Hm, Hunget. cbn [fst snd] in H. 
    assert (E : (match e with BADCHAR c inp => (fun c inp => (c :: inp)) c inp | AT_EOF inp => EOF :: inp end) = left_over e) by by destruct e.
    destruct (F_DIGIT st).
    - destruct e; intros [= Hv _]; by apply Hnone in Hv.
    - destruct (F_EXP st); [by destruct e|]. destruct H as [|H]; [done|]. unfold taken, left_over in H.
      destruct e, (F_MINUS st), (F_DOT st); intros [= <-]; exact H. }
  apply Hfin. destruct (Z.eqb_spec c EOF) as [-> |].
  - right. apply same_input_refl.
  - apply (loop_backtracks inp c st0). done.
Qed.
End Lexing.

(** A character that cannot continue a number which has digits only: the scan
    stops.  A period stops it when a second one follows. *)
Definition ends_integer (float_ok : bool) (t : list Z) : Prop :=
  match t with
  | [] => True
  | c :: t => isdigit c = false /\
              (float_ok = true -> c <> 101 /\ c <> 69 /\ (c = 46 -> head t = Some 46))
  end.

(** The flags of yylex. *)
Definition lexer_flags (float_ok : bool) : pn_flags :=
  mkPN float_ok false false true false false false false false true.

Lemma digits_value_nonneg ds : forallb isdigit ds = true -> 0 <= digits_value ds.
Proof.
  assert (H : forall l a, 0 <= a -> forallb isdigit l = true -> 0 <= fold_left (fun a c => a * 10 + (c - 48)) l a).
  { induction l as [|x l IH]; intros a Ha H; [done|]. simpl in H. apply andb_true_iff in H as [Hx%isdigit_range H].
    simpl. apply IH; [lia|done]. }
  by apply H.
Qed.

Lemma lexer_value strtod float_ok ds mi dot ex dig xs : forallb isdigit ds = true -> ds <> [] ->
  have_digits strtod (lexer_flags float_ok) (mkPst ([45] ++ ds) false mi dot ex dig xs) =
    if digits_value ds <=? 2 ^ 63 then VInt (Num (digits_value ds)) else VErr E_RANGE.
Proof.
  intros Hd Hne. pose proof (digits_value_nonneg ds Hd). unfold have_digits.
  cbn [is_float negb PN_REQ_FLOAT lexer_flags andb ns].
  rewrite (strtoimax_all true ds) by done. cbn [PN_NONNEG]. unfold NUM_MIN, NUM_MAX, clamp_long.
  destruct (Z.ltb_spec (- digits_value ds) (- 2 ^ 63)), (Z.leb_spec (digits_value ds) (2 ^ 63)); try lia; cbn [orb]; [done|].
  destruct (Z.ltb_spec (2 ^ 63 - 1) (- digits_value ds)); [lia|]. do 2 f_equal. unfold NUM_MIN, NUM_MAX. lia.
Qed.

Lemma lexer_stops my_isspace float_ok t st : F_EXP st = false -> F_XSIGN st = true -> ends_integer float_ok t ->
  exists e, pn_next my_isspace (lexer_flags float_ok) t st = (e, st) /\ same_input (left_over e) t.
Proof.
  intros Hex Hxs Ht. destruct t as [|c t]; [exists (AT_EOF []); split; [done|apply same_input_eof]|]. unfold pn_next.
  destruct (Z.eqb_spec c EOF) as [-> |]; [by exists (AT_EOF t); split|].
  exists (BADCHAR c t). split; [|by apply same_input_refl].
  destruct Ht as [Hd Hf]. destruct st as [? ? ? dot ? dig ?]; simpl in *; subst.
  assert (H46 : c = 46 -> float_ok = true -> dot_starts_new_token (lexer_flags float_ok) t = true).
  { intros E Ef. unfold dot_starts_new_token. destruct (Hf Ef) as (_ & _ & ->); done. }
  destruct t as [|c3 t]; cbn [pn_loop]; rewrite Hd;
    change (PN_FLOAT_OK (lexer_flags float_ok)) with float_ok; change (PN_TRSPACE (lexer_flags float_ok)) with false.
  all: destruct (c =? 43); [done|]; destruct (c =? 45); [done|].
  all: destruct float_ok; [destruct (Hf eq_refl) as (? & ? & _)|].
  all: destruct (Z.eqb_spec c 46); [rewrite ?H46 by done; by destruct dot|].
  all: destruct (Z.eqb_spec c 101), (Z.eqb_spec c 69); try done.
  all: by destruct dig.
Qed.

Lemma lex_integer my_isspace strtod float_ok ds t c inp : forallb isdigit ds = true -> ds <> [] ->
  ends_integer float_ok t -> c :: inp = ds ++ t ->
  exists inp', same_input inp' t /\ parse_number my_isspace strtod (lexer_flags float_ok) c inp =
    (if digits_value ds <=? 2 ^ 63 then VInt (Num (digits_value ds)) else VErr E_RANGE, inp').
Proof.
  intros Hd Hne Ht E. unfold parse_number.
  assert (Hs : pn_start my_isspace (lexer_flags float_ok) c inp = (Some (c, inp), inp) /\ c <> EOF).
  { destruct ds as [|d ds]; [done|]. injection E as -> ->. simpl in Hd. apply andb_true_iff in Hd as [Hd%isdigit_range _].
    unfold pn_start. destruct (Z.eqb_spec d EOF); [unfold EOF in *; lia|]. split; [done|]. unfold EOF. lia. }
  destruct Hs as [-> Hc]. set (st0 := mkPst _ _ _ _ _ _ _).
  assert (Hloop : pn_loop my_isspace (lexer_flags float_ok) inp c st0 =
    pn_next my_isspace (lexer_flags float_ok) t (mkPst ([45] ++ ds) false false false false true true)).
  { transitivity (pn_next my_isspace (lexer_flags float_ok) (c :: inp) st0).
    - unfold pn_next. by destruct (Z.eqb_spec c EOF).
    - rewrite E. by apply next_digits. }
  rewrite Hloop. destruct (lexer_stops my_isspace float_ok t (mkPst ([45] ++ ds) false false false false true true)) as (e & -> & Hs);
    [done..|]. exists (left_over e). split; [done|]. rewrite <- (lexer_value strtod float_ok ds false false false true true) by done. by destruct e.
Qed.

(** *** Random numbers *)

(** The ideal process: [rnd] is one of [e] equally likely numbers; each random
    number multiplies the possibilities by RANGE; when there are at least
    [num], the largest multiple of [num] that fits is used, the rest is the
    new [e]. *)
Fixpoint ideal_random (num : Z) (rs : list Z) (rnd e : Z) : option (Z * list Z) :=
  match rs with
  | [] => None
  | x :: rs =>
      let y := rnd * RANGE + x in
      if e * RANGE <? num then ideal_random num rs y (e * RANGE)
      else let m := (e * RANGE) mod num in
           if m <=? y then Some (1 + y mod num, rs) else ideal_random num rs y m
  end.

Definition random_number (x : Z) : Prop := 0 <= x < RANGE.

Section Random.
Context (num : Z) (Hnum : 0 < num <= NUM_MAX).

Lemma random_test e : 0 <= e ->
  (e <? num / RANGE) || ((e =? num / RANGE) && negb (num mod RANGE =? 0)) = (e * RANGE <? num).
Proof.
  intros He. assert (HR : 0 < RANGE) by (unfold RANGE, RAND_MAX; lia).
  pose proof (Z.div_mod num RANGE ltac:(lia)) as Hd. pose proof (Z.mod_pos_bound num RANGE HR).
  destruct (Z.ltb_spec e (num / RANGE)), (Z.eqb_spec e (num / RANGE)), (Z.eqb_spec (num mod RANGE) 0),
    (Z.ltb_spec (e * RANGE) num); simpl; try done; try nia.
Qed.

Lemma muladdmod_eq a b : 0 <= a <= NUM_MAX -> 0 <= b < RANGE ->
  muladdmod a (range_l num) b num = (a * RANGE + b) mod num.
Proof.
  intros Ha Hb. unfold muladdmod, URNum, range_l, NUM_MAX in *. fold RANGE.
  assert (HR : RANGE = 2 ^ 31) by done. rewrite HR in *. pose proof (Z.mod_pos_bound (2 ^ 31) num ltac:(lia)) as Hl.
  pose proof (Z.mod_le (2 ^ 31) num ltac:(lia) ltac:(lia)).
  rewrite (uwrap_id 128) by nia.
  rewrite uwrap_id by (pose proof (Z.mod_pos_bound (a * (2 ^ 31 mod num) + b) num ltac:(lia)); lia).
  rewrite Zplus_mod, Zmult_mod_idemp_r, <- Zplus_mod. done.
Qed.

(** The body of the outer loop after the inner one, with the fuel that is left. *)
Definition random_body (f : nat) (r : option (Z * Z * Z * list Z)) : option (Z * list Z) :=
  '(rnd, e, rnd_next, rs) ← r;
  if num / RANGE <? rnd then Some (1 + muladdmod rnd (range_l num) rnd_next num, rs)
  else
    let rnd := URNum (rnd * RANGE + rnd_next) in
    let e := muladdmod e (range_l num) 0 num in
    if e <=? rnd then Some (1 + rnd mod num, rs) else random_loop num f rs rnd e.

Lemma random_body_ideal rs : Forall random_number rs -> forall x f rnd e, random_number x -> (length rs <= f)%nat ->
  0 <= rnd < e -> e <= NUM_MAX -> random_body f (random_inner num rs rnd e x) = ideal_random num (x :: rs) rnd e.
Proof.
  unfold random_number, NUM_MAX in *. assert (HR : RANGE = 2 ^ 31) by done.
  induction 1 as [|r rs Hr Hrs IH]; intros x f rnd e Hx Hf Hrnd He; cbn [random_inner]; rewrite random_test by lia;
    cbn [ideal_random]; destruct (Z.ltb_spec (e * RANGE) num) as [Hlt|Hge]; [done| | |].
  2: { assert (E1 : URNum (rnd * RANGE + x) = rnd * RANGE + x) by (apply uwrap_id; nia).
       assert (E2 : URNum (e * RANGE) = e * RANGE) by (apply uwrap_id; nia).
       rewrite E1, E2. apply IH; simpl in Hf; try lia; nia. }
  all: unfold random_body; cbn [mbind option_bind]; rewrite !muladdmod_eq by (unfold NUM_MAX; lia); rewrite Z.add_0_r.
  all: pose proof (Z.mod_pos_bound (e * RANGE) num ltac:(lia)) as Hm.
  all: pose proof (Z.div_mod num RANGE ltac:(lia)) as Hd; pose proof (Z.mod_pos_bound num RANGE ltac:(lia)).
  all: destruct (Z.ltb_spec (num / RANGE) rnd) as [Hbig|Hsmall];
    [destruct (Z.leb_spec ((e * RANGE) mod num) (rnd * RANGE + x)); [done|nia]|].
  all: assert (E1 : URNum (rnd * RANGE + x) = rnd * RANGE + x) by (apply uwrap_id; nia); rewrite E1.
  all: destruct (Z.leb_spec ((e * RANGE) mod num) (rnd * RANGE + x)); [done|].
  - by destruct f.
  - destruct f as [|f]; [simpl in Hf; lia|]. cbn [random_loop]. apply IH; simpl in Hf; lia.
Qed.

Lemma random_loop_ideal rs : Forall random_number rs -> random_loop num (length rs) rs 0 1 = ideal_random num rs 0 1.
Proof.
  intros H. destruct H as [|x rs Hx Hrs]; [done|]. cbn [length random_loop].
  apply (random_body_ideal rs Hrs x (length rs) 0 1); [done|lia|lia|unfold NUM_MAX; lia].
Qed.

Lemma ideal_range rs rnd e r rs' : ideal_random num rs rnd e = Some (r, rs') -> 1 <= r <= num.
Proof.
  revert rnd e. induction rs as [|x rs IH]; intros rnd e; simpl; [done|].
  destruct (_ <? _); [apply IH|]. destruct (_ <=? _); [|apply IH].
  intros [= <- _]. pose proof (Z.mod_pos_bound (rnd * RANGE + x) num). lia.
Qed.
End Random.

(** Sums over lists, and the number of elements that satisfy a test. *)
Definition zsum {A} (f : A -> Z) (l : list A) : Z := fold_right (fun a s => f a + s) 0 l.
Definition count {A} (p : A -> bool) (l : list A) : Z := zsum (fun a => if p a then 1 else 0) l.

Lemma zsum_app {A} (f : A -> Z) l k : zsum f (l ++ k) = zsum f l + zsum f k.
Proof. induction l as [|a l IH]; simpl; lia. Qed.
Lemma zsum_ext {A} (f g : A -> Z) l : (forall a, a ∈ l -> f a = g a) -> zsum f l = zsum g l.
Proof. induction l as [|a l IH]; intros H; simpl; [done|]. rewrite H, IH by set_solver. done. Qed.
Lemma zsum_map {A B} (f : B -> Z) (g : A -> B) l : zsum f (map g l) = zsum (fun a => f (g a)) l.
Proof. induction l as [|a l IH]; simpl; [done|]. by rewrite IH. Qed.
Lemma zsum_flat_map {A B} (f : B -> Z) (g : A -> list B) l : zsum f (flat_map g l) = zsum (fun a => zsum f (g a)) l.
Proof. induction l as [|a l IH]; simpl; [done|]. by rewrite zsum_app, IH. Qed.
Lemma zsum_seqZ_app f a n k : 0 <= n -> 0 <= k -> zsum f (seqZ a (n + k)) = zsum f (seqZ a n) + zsum f (seqZ (a + n) k).
Proof. intros. by rewrite seqZ_app, zsum_app by done. Qed.
Lemma zsum_shift f a b n : zsum f (seqZ (a + b) n) = zsum (fun x => f (a + x)) (seqZ b n).
Proof. rewrite <- fmap_add_seqZ. apply zsum_map. Qed.

(** A double sum over two ranges is a sum over their product. *)
Lemma zsum_product h R e : 0 <= R -> 0 <= e ->
  zsum (fun a => zsum (fun x => h (a * R + x)) (seqZ 0 R)) (seqZ 0 e) = zsum h (seqZ 0 (e * R)).
Proof.
  intros HR He. revert e He. apply natlike_ind; [done|]. intros e He IH.
  replace (Z.succ e) with (e + 1) by lia. rewrite Z.mul_add_distr_r, Z.mul_1_l, !zsum_seqZ_app, IH by nia. f_equal.
  rewrite !Z.add_0_l. replace (seqZ e 1) with [e] by (rewrite seqZ_cons by lia; done). simpl. rewrite Z.add_0_r.
  pose proof (zsum_shift h (e * R) 0 R) as H. by rewrite Z.add_0_r in H.
Qed.

(** Among [q * n] consecutive numbers each remainder occurs [q] times. *)
Lemma residue_block a n c : 0 <= a -> 0 <= c < n ->
  zsum (fun y => if y mod n =? c then 1 else 0) (seqZ a n) = 1.
Proof.
  intros Ha Hc. revert a Ha. apply natlike_ind.
  - rewrite (zsum_ext _ (fun y => if y =? c then 1 else 0)).
    2: { intros y Hy%elem_of_seqZ. by rewrite Z.mod_small by lia. }
    assert (Hz : forall b k, c < b \/ b + k <= c -> zsum (fun y => if y =? c then 1 else 0) (seqZ b k) = 0).
    { intros b k Hbk. rewrite (zsum_ext _ (fun _ => 0)); [by induction (seqZ b k)|].
      intros y Hy%elem_of_seqZ. destruct (Z.eqb_spec y c); [lia|done]. }
    replace n with (c + (1 + (n - c - 1))) by lia. rewrite !zsum_seqZ_app, (Hz 0 c), (Hz (0 + c + 1)) by lia.
    replace (seqZ (0 + c) 1) with [c] by (rewrite seqZ_cons by lia; done). simpl. by rewrite Z.eqb_refl.
  - intros a Ha IH. set (f := fun y => _) in *. 
    assert (E1 : zsum f (seqZ a (1 + n)) = f a + zsum f (seqZ (Z.succ a) n)).
    { rewrite zsum_seqZ_app by lia. replace (seqZ a 1) with [a] by (rewrite seqZ_cons by lia; done). simpl.
      replace (a + 1) with (Z.succ a) by lia. lia. }
    assert (E2 : zsum f (seqZ a (n + 1)) = zsum f (seqZ a n) + f (a + n)).
    { rewrite zsum_seqZ_app by lia. replace (seqZ (a + n) 1) with [a + n] by (rewrite seqZ_cons by lia; done). simpl. lia. }
    assert (E3 : f (a + n) = f a).
    { unfold f. replace (a + n) with (a + 1 * n) by lia. by rewrite Z.mod_add by lia. }
    replace (1 + n) with (n + 1) in E1 by lia. lia.
Qed.

Lemma residue_count a n q c : 0 <= a -> 0 <= q -> 0 <= c < n ->
  zsum (fun y => if y mod n =? c then 1 else 0) (seqZ a (q * n)) = q.
Proof.
  intros Ha Hq Hc. revert q Hq. apply natlike_ind; [done|]. intros q Hq IH.
  replace (Z.succ q * n) with (q * n + n) by lia. rewrite zsum_seqZ_app, IH, residue_block by nia. lia.
Qed.

(** All sequences of [k] random numbers, and how many of them make the process
    answer [r] with the last of them. *)
Fixpoint draws (k : nat) : list (list Z) :=
  match k with O => [[]] | S k => flat_map (fun x => map (cons x) (draws k)) (seqZ 0 RANGE) end.
Definition answers (r : Z) (o : option (Z * list Z)) : bool :=
  match o with Some (r', []) => r' =? r | _ => false end.

Lemma count_draws p k :
  count p (draws (S k)) = zsum (fun x => count (fun rs => p (x :: rs)) (draws k)) (seqZ 0 RANGE).
Proof. unfold count. cbn [draws]. rewrite zsum_flat_map. apply zsum_ext. intros x _. apply zsum_map. Qed.

Lemma zsum_0 {A} (l : list A) : zsum (fun _ => 0) l = 0.
Proof. by induction l. Qed.

Lemma count_answered k y r :
  count (fun rs => answers r (Some (1 + y, rs))) (draws k) = if (y =? r - 1) then (if (k =? 0)%nat then 1 else 0) else 0.
Proof.
  assert (E : (1 + y =? r) = (y =? r - 1)).
  { destruct (Z.eqb_spec (1 + y) r), (Z.eqb_spec y (r - 1)); done || lia. }
  destruct k as [|k].
  - unfold count, answers. simpl. rewrite E. by destruct (y =? r - 1).
  - rewrite count_draws. unfold count, answers. rewrite (zsum_ext _ (fun _ => 0)); [|intros; apply zsum_0].
    rewrite zsum_0. by destruct (y =? r - 1).
Qed.

Lemma zsum_scale {A} (p : A -> bool) c l : zsum (fun y => if p y then c else 0) l = c * zsum (fun y => if p y then 1 else 0) l.
Proof. induction l as [|y l IH]; simpl; [lia|]. rewrite IH. destruct (p y); lia. Qed.

Definition hits (num : Z) (k : nat) (e r : Z) : Z :=
  zsum (fun rnd => count (fun rs => answers r (ideal_random num rs rnd e)) (draws k)) (seqZ 0 e).

(** One more random number. *)
Lemma hits_step num k e s : 0 < num -> 0 <= e -> 1 <= s <= num -> hits num (S k) e s =
    if e * RANGE <? num then hits num k (e * RANGE) s
    else hits num k ((e * RANGE) mod num) s + (if (k =? 0)%nat then 1 else 0) * (e * RANGE / num).
Proof.
  intros Hn He Hs. assert (HR : 0 < RANGE) by (unfold RANGE, RAND_MAX; lia). unfold hits at 1.
  rewrite (zsum_ext _ _ _ (fun rnd _ => count_draws _ k)). cbn [ideal_random].
  rewrite (zsum_product (fun y => count (fun rs => answers s (if e * RANGE <? num then ideal_random num rs y (e * RANGE)
     else if (e * RANGE) mod num <=? y then Some (1 + y mod num, rs)
     else ideal_random num rs y ((e * RANGE) mod num))) (draws k))) by lia.
  destruct (Z.ltb_spec (e * RANGE) num) as [|Hge]; [done|].
  pose proof (Z.mod_pos_bound (e * RANGE) num Hn). pose proof (Z.div_mod (e * RANGE) num ltac:(lia)) as Hd.
  assert (0 <= e * RANGE / num) by (apply Z.div_pos; lia).
  assert (Es : seqZ 0 (e * RANGE) = seqZ 0 ((e * RANGE) mod num + e * RANGE / num * num)) by (f_equal; lia).
  rewrite Es, zsum_seqZ_app, Z.add_0_l by nia. f_equal.
  - apply zsum_ext. intros y Hy%elem_of_seqZ. unfold count. apply zsum_ext. intros rs _.
    by destruct (Z.leb_spec ((e * RANGE) mod num) y); [lia|].
  - rewrite (zsum_ext _ (fun y => if y mod num =? s - 1 then (if (k =? 0)%nat then 1 else 0) else 0)).
    + rewrite zsum_scale, residue_count by lia. done.
    + intros y Hy%elem_of_seqZ. rewrite <- count_answered. unfold count. apply zsum_ext. intros rs _.
      by destruct (Z.leb_spec ((e * RANGE) mod num) y); [|lia].
Qed.

(** The process is fair: every answer comes from the same number of sequences. *)
Lemma hits_fair num k r r' : 0 < num -> 1 <= r <= num -> 1 <= r' <= num ->
  forall e, 0 <= e -> hits num k e r = hits num k e r'.
Proof.
  intros Hn Hr Hr'. induction k as [|k IH]; intros e He; [done|].
  rewrite !hits_step by done. destruct (_ <? _) eqn:E; [apply IH; unfold RANGE, RAND_MAX; lia|].
  f_equal. apply IH. by apply Z.mod_pos_bound.
Qed.

Lemma draws_random k rs : rs ∈ draws k -> Forall random_number rs /\ length rs = k.
Proof.
  revert rs. induction k as [|k IH]; intros rs; cbn [draws].
  - intros ->%list_elem_of_singleton. done.
  - rewrite list_elem_of_In, in_flat_map. intros (x & Hx & H). rewrite in_map_iff in H.
    destruct H as (rs' & <- & H). apply (proj2 (list_elem_of_In _ _)) in Hx, H. rewrite elem_of_seqZ in Hx.
    destruct (IH _ H) as [H' <-]. split; [constructor; [unfold random_number; lia|done]|done].
Qed.

(** [bf_random] is the ideal process. *)
Definition answered (r : Z) (o : option (package * list Z)) : bool :=
  match o with Some (BI_RETURN (VInt r'), []) => r' =? r | _ => false end.

Lemma bf_random_ideal n rs : 0 < n <= NUM_MAX -> Forall random_number rs ->
  bf_random [VInt n] rs = '(r, rs) ← ideal_random n rs 0 1; Some (make_int_pack r, rs).
Proof.
  intros Hn Hrs. unfold bf_random. destruct (Z.leb_spec n 0); [lia|]. by rewrite random_loop_ideal.
Qed.

Lemma count_hits n k r : 0 < n <= NUM_MAX -> count (fun rs => answered r (bf_random [VInt n] rs)) (draws k) = hits n k 1 r.
Proof.
  intros Hn. unfold hits. replace (seqZ 0 1) with [0] by (rewrite seqZ_cons by lia; done). cbn [zsum fold_right].
  rewrite Z.add_0_r. unfold count. apply zsum_ext. intros rs Hrs. destruct (draws_random k rs Hrs) as [H _].
  rewrite bf_random_ideal by done. by destruct (ideal_random n rs 0 1) as [[r' l]|].
Qed.

(** ** Theorems *)

(** C32: arithmetic on integers: sums, differences, products and powers are
    exact modulo 2^64 (the loop of [do_power] ends for every exponent), so
    exact when they fit; quotient and remainder truncate towards zero, a zero
    divisor is E_DIV, and the single division that would trap is the smallest
    integer by -1; a negative exponent gives the truncated reciprocal, except
    that the powers of -1 have the wrong sign, and of zero E_DIV; an integer and
    a value of another type are E_TYPE for every operator and in either order,
    only that a float may have an integer exponent. *)
Theorem integer_arithmetic_correct fmod fpow (x y : Z) :
  is_Num x -> is_Num y ->
  (exists s m t p, do_add (VInt x) (VInt y) = Some (VInt s) /\ do_subtract (VInt x) (VInt y) = Some (VInt m) /\
     do_multiply (VInt x) (VInt y) = Some (VInt t) /\ (0 <= y -> do_power fpow (VInt x) (VInt y) = Some (VInt p)) /\
     Forall is_Num [s; m; t; p] /\
     Forall2 (fun r e => r mod 2 ^ 64 = e mod 2 ^ 64 /\ (is_Num e -> r = e)) [s; m; t; p] [x + y; x - y; x * y; x ^ y]) /\
  (y < 0 -> x <> 0 -> do_power fpow (VInt x) (VInt y) =
     Some (VInt (if x =? -1 then - Z.quot 1 (x ^ (- y)) else Z.quot 1 (x ^ (- y))))) /\
  (y <> 0 -> ~ (x = NUM_MIN /\ y = -1) ->
   exists q r, do_divide (VInt x) (VInt y) = Some (VInt q) /\ do_modulus fmod (VInt x) (VInt y) = Some (VInt r) /\
     is_Num q /\ is_Num r /\ x = y * q + r /\ Z.abs r < Z.abs y /\ 0 <= r * x) /\
  (y = 0 -> do_divide (VInt x) (VInt y) = Some (VErr E_DIV) /\ do_modulus fmod (VInt x) (VInt y) = Some (VErr E_DIV)) /\
  (y < 0 -> do_power fpow (VInt 0) (VInt y) = Some (VErr E_DIV)) /\
  (x = NUM_MIN -> y = -1 -> do_divide (VInt x) (VInt y) = None /\ do_modulus fmod (VInt x) (VInt y) = None) /\
  (forall w, type_of w <> TYPE_INT ->
     Forall (fun op => op (VInt x) w = Some E_type /\ op w (VInt x) = Some E_type)
       [do_add; do_subtract; do_multiply; do_divide; do_modulus fmod] /\
     do_power fpow (VInt x) w = Some E_type /\ (type_of w <> TYPE_FLOAT -> do_power fpow w (VInt x) = Some E_type)).
Proof.
  intros Hx Hy. split; [|split; [|split; [|split; [|split; [|split]]]]].
  - exists (Num (x + y)), (Num (x - y)), (Num (x * y)), (Num (x ^ y)). do 3 (split; [done|]). split; [|split].
    + intros Hy0. unfold do_power. destruct (Z.ltb_spec y 0); [lia|].
      rewrite power_loop_spec by (unfold is_Num, NUM_MIN, NUM_MAX in *; simpl; lia). by rewrite Z.mul_1_l.
    + repeat constructor; apply Num_range.
    + repeat constructor; rewrite ?Num_mod; auto using Num_id.
  - intros. by apply power_negative.
  - intros Hne Hmin. exists (Z.quot x y), (Z.rem x y). unfold do_divide, do_modulus, division_op. simpl.
    destruct (Z.eqb_spec y 0); [done|]. simpl.
    replace ((x =? NUM_MIN) && (y =? -1)) with false.
    2: { symmetry. apply andb_false_iff. destruct (Z.eqb_spec x NUM_MIN); [right; apply Z.eqb_neq; tauto|by left]. }
    destruct (quot_Num x y Hx Hy Hne Hmin). do 4 (split; [done|]). split; [apply Z.quot_rem'|].
    split; [by apply Z.rem_bound_abs|by apply Z.rem_sign_mul].
  - intros ->. done.
  - intros H. unfold do_power. destruct (Z.ltb_spec y 0); [done|lia].
  - intros -> ->. done.
  - intros w Hw. split; [|by destruct w].
    repeat (apply Forall_cons_2; [by destruct w|]). constructor.
Qed.

Example integer_arithmetic_correct_witness :
  do_power (fun a _ => (a, false)) (VInt 3) (VInt 5) = Some (VInt 243) /\
  do_power (fun a _ => (a, false)) (VInt 0) (VInt (-2)) = Some (VErr E_DIV) /\
  exists q r, do_divide (VInt (-7)) (VInt 2) = Some (VInt q) /\ is_Num q /\ -7 = 2 * q + r.
Proof.
  split; [reflexivity|]. split.
  { destruct (integer_arithmetic_correct (fun a _ => a) (fun a _ => (a, false)) 5 (-2)) as (_ & _ & _ & _ & H & _);
      [unfold is_Num, NUM_MIN, NUM_MAX; lia..|]. apply H. lia. }
  destruct (integer_arithmetic_correct (fun a _ => a) (fun a _ => (a, false)) (-7) 2) as (_ & _ & H & _);
    [unfold is_Num, NUM_MIN, NUM_MAX; lia..|].
  destruct H as (q & r & E & _ & Hq & _ & Hr & _); [lia|lia|]. exists q, r. split; [exact E|]. split; [exact Hq|exact Hr].
Defined.

(** Where the machine traps. *)
Lemma division_traps fmod : do_divide (VInt NUM_MIN) (VInt (-1)) = None /\ do_modulus fmod (VInt NUM_MIN) (VInt (-1)) = None.
Proof. done. Qed.

(** C31: reading a number never panics and never fails: a string read as an
    object number gives the integer that the grammar of [read_integer] assigns
    to its characters (blanks, perhaps a number sign and blanks, perhaps a
    minus, digits, blanks), and 0 for any other string or an integer out of
    range; what [tostr] prints for an integer or an object is read back. *)
Theorem become_integer_correct my_isspace strtod (s : bytes) (b : bool) (n : Z) :
  (forall c, 33 <= c <= 126 -> my_isspace c = false) -> cstr s -> is_Num n ->
  become_integer my_isspace strtod (VStr s) false =
    Some (inr match read_integer my_isspace (snp_chars s) with
              | Some v => if (NUM_MIN <=? v) && (v <=? NUM_MAX) then v else 0
              | None => 0
              end) /\
  (exists v, become_integer my_isspace strtod (VStr s) b = Some (inr v)) /\
  become_integer my_isspace strtod (VStr (print_num n)) b = Some (inr n) /\
  become_integer my_isspace strtod (VStr (35 :: print_num n)) false = Some (inr n).
Proof.
  intros Hsp Hs Hn. assert (E : forall s b, become_integer my_isspace strtod (VStr s) b =
    integer_or_0 (parse_number_from_string my_isspace strtod s (integer_flags b))) by done.
  pose proof (print_num_ascii n Hn) as Ha. destruct (snp_chars_ascii _ Ha) as [Hc Hch].
  destruct (snp_chars_ascii (35 :: print_num n)) as [Hc' Hch']; [constructor; [lia|exact Ha]|].
  destruct (read_integer_print my_isspace n Hsp Hn) as [E1 E2]. split; [|split; [|split]].
  - rewrite E, parse_object_number by done. unfold ranged. destruct (read_integer my_isspace (snp_chars s)) as [v|]; [|done]. cbn [from_option]. by destruct ((NUM_MIN <=? v) && (v <=? NUM_MAX)).
  - rewrite E. apply integer_flags_total.
  - rewrite E. destruct b.
    + destruct (print_num_spec n Hn) as (ds & Ep & Hd & Hne & Hv).
      rewrite (parse_integer_float_ok my_isspace strtod Hsp _ [] (n <? 0) ds []); try done.
      * rewrite Hv. rewrite (ranged_Num) by (destruct (Z.ltb_spec n 0); unfold is_Num in *; lia). simpl.
        do 2 f_equal. destruct (Z.ltb_spec n 0); lia.
      * by rewrite Hch, Ep, app_nil_r.
    + rewrite parse_object_number, Hch, E1 by done. simpl. by rewrite ranged_Num.
  - rewrite E, parse_object_number, Hch', E2 by done. simpl. by rewrite ranged_Num.
Qed.

Example become_integer_correct_witness :
  become_integer (fun c => c =? 32) (fun s => (float_zero, s)) (VStr (BS " # -12 ")) false = Some (inr (-12)) /\
  become_integer (fun c => c =? 32) (fun s => (float_zero, s)) (VStr (print_num (- 7))) true = Some (inr (-7)).
Proof.
  destruct (become_integer_correct (fun c => c =? 32) (fun s => (float_zero, s)) (BS " # -12 ") true (-7))
    as (H1 & _ & H2 & _); [intros; apply Z.eqb_neq; lia|apply cstrb_ok; reflexivity|unfold is_Num, NUM_MIN, NUM_MAX; lia|].
  split; [exact H1|exact H2].
Defined.

(** Reading numbers from the source of a verb, where characters can be put
    back: E_NONE means that the input is as it was before the first character;
    digits that cannot be part of a float (a period counts as one when a second
    one follows) are the integer they denote, NUM_MAX + 1 becoming NUM_MIN and
    anything larger E_RANGE, and the input goes on after the last of them. *)
Theorem parse_number_lexer_correct my_isspace strtod (float_ok : bool) (c : Z) (inp inp' : list Z) (ds t : list Z) :
  (parse_number my_isspace strtod (lexer_flags float_ok) c inp = (VErr E_NONE, inp') -> same_input inp' (c :: inp)) /\
  (c :: inp = ds ++ t -> forallb isdigit ds = true -> ds <> [] -> ends_integer float_ok t ->
   exists left, same_input left t /\ parse_number my_isspace strtod (lexer_flags float_ok) c inp =
     (if digits_value ds <=? 2 ^ 63 then VInt (Num (digits_value ds)) else VErr E_RANGE, left)).
Proof.
  split; [by apply parse_number_backtracks|]. intros. by apply lex_integer.
Qed.

Example parse_number_lexer_correct_witness :
  exists left, same_input left (BS "..5]") /\
    parse_number (fun c => c =? 32) (fun s => (float_zero, s)) (lexer_flags true) 49 (BS "2..5]") = (VInt 12, left).
Proof.
  destruct (parse_number_lexer_correct (fun c => c =? 32) (fun s => (float_zero, s)) true 49 (BS "2..5]") [] (BS "12") (BS "..5]"))
    as [_ H]. apply H; [reflexivity|reflexivity|discriminate|]. split; [reflexivity|]. intros _.
  split; [discriminate|]. split; [discriminate|reflexivity].
Defined.

(** C30: [random(n)] answers E_INVARG unless [n] is positive; its answers lie
    between 1 and [n]; and it is fair: for every length, as many sequences of
    random numbers of that length lead to one answer as to any other.  With [n]
    at most RANGE a single random number gives each answer in RANGE/n cases, so
    more than half of them end the loop at once. *)
Theorem bf_random_fair (n : Z) (rs rs' : list Z) (p : package) (k : nat) (r r' : Z) :
  is_Num n -> Forall random_number rs ->
  bf_random [] rs = bf_random [VInt NUM_MAX] rs /\
  (n <= 0 -> bf_random [VInt n] rs = Some (make_error_pack E_INVARG, rs)) /\
  (0 < n -> bf_random [VInt n] rs = Some (p, rs') -> exists a, p = make_int_pack a /\ 1 <= a <= n) /\
  (1 <= r <= n -> 1 <= r' <= n ->
   count (fun l => answered r (bf_random [VInt n] l)) (draws k) =
   count (fun l => answered r' (bf_random [VInt n] l)) (draws k)) /\
  (1 <= r <= n -> n <= RANGE -> count (fun l => answered r (bf_random [VInt n] l)) (draws 1) = RANGE / n).
Proof.
  intros [_ Hn] Hrs. split; [done|]. split; [|split; [|split]].
  - intros Hn0. unfold bf_random. by destruct (Z.leb_spec n 0); [|lia].
  - intros Hn0. rewrite bf_random_ideal by (done || lia). destruct (ideal_random n rs 0 1) as [[a l]|] eqn:E; [|done].
    cbn [mbind option_bind]. intros [= <- _]. exists a. split; [done|]. by apply (ideal_range n (conj Hn0 Hn)) in E.
  - intros. rewrite !count_hits by lia. apply hits_fair; lia.
  - intros Hr HR. rewrite count_hits, hits_step by lia. rewrite Z.mul_1_l. destruct (Z.ltb_spec RANGE n); [lia|].
    rewrite Z.mul_1_l. unfold hits. rewrite (zsum_ext _ (fun _ => 0)); [by rewrite zsum_0|done].
Qed.

Example bf_random_fair_witness :
  count (fun l => answered 2 (bf_random [VInt 10] l)) (draws 1) = 214748364 /\
  (exists a, make_int_pack 6 = make_int_pack a /\ 1 <= a <= 10).
Proof.
  destruct (bf_random_fair 10 [35] [] (make_int_pack 6) 1 2 3) as (_ & _ & H1 & _ & H2);
    [unfold is_Num, NUM_MIN, NUM_MAX; lia|constructor; [unfold random_number, RANGE, RAND_MAX; lia|constructor]|].
  split; [exact (H2 ltac:(lia) ltac:(unfold RANGE, RAND_MAX; lia))|apply H1; [lia|reflexivity]].
Defined.
