(* ===== verification/Preps.v ===== *)
(** * Prepositions (the first part of db_verbs.c)

    The table of prepositional phrases, and the recognition of one in a command
    and in the arguments of the verb built-ins. *)

From S2P Require Import Prelude Utf CString Values Words.

(** ** Definitions *)

Definition PREP_ANY : Z := -2.
Definition PREP_NONE : Z := -1.
Definition MAXPPHRASE : nat := 3.

Definition prep_list : list bytes :=
  [BS "with/using"; BS "at/to"; BS "in front of"; BS "in/inside/into"; BS "on top of/on/onto/upon";
   BS "out of/from inside/from"; BS "over"; BS "through"; BS "under/underneath/beneath"; BS "behind";
   BS "beside"; BS "for/about"; BS "is"; BS "as"; BS "off/off of"].
Definition NPREPS : Z := Z.of_nat (length prep_list).

Definition slash : Z := 47.

(** [while ( *p && *p != '/') *t++ = *p++]. *)
Fixpoint copy_alias (p : bytes) : bytes * bytes :=
  match p with
  | [] => ([], [])
  | c :: p' => if c =? slash then ([], p) else let '(t, r) := copy_alias p' in (c :: t, r)
  end.

(** The aliases of one preposition, each the list of its words; [None] if one
    does not fit into [cprep] or [words]. *)
Fixpoint build_aliases (fuel : nat) (p : bytes) : option (list (list bytes)) :=
  match fuel with
  | O => None
  | S f =>
      match p with
      | [] => Some []
      | c :: p' =>
          let '(cprep, rest) := copy_alias (if c =? slash then p' else p) in
          if decide (length cprep < 100)%nat then
            words ← words_of cprep;
            if decide (length words <= MAXPPHRASE)%nat
            then more ← build_aliases f rest; Some (words :: more) else None
          else None
      end
  end.

Definition dbpriv_build_prep_table : option (list (list (list bytes))) :=
  mapM (fun p => build_aliases (S (length p)) p) prep_list.

(** [prep_table], as it is after initialisation. *)
Definition prep_table : list (list (list bytes)) := default [] dbpriv_build_prep_table.

(** [for (k = 0; k < alias->nwords; k++) if (mystrcasecmp(...)) break]. *)
Fixpoint match_words (argv words : list bytes) : nat :=
  match words, argv with
  | w :: words, a :: argv => if negb (mystrcasecmp a w =? 0) then 0 else S (match_words argv words)
  | _, _ => 0
  end.

(** The tests of one alias, at the words that start at [argv + i]. *)
Definition alias_found (exact_match : bool) (argv words : list bytes) : bool :=
  bool_decide (length words <= length argv)%nat &&
  (let k := match_words argv words in
   bool_decide (k = length words) && (negb exact_match || bool_decide (k = length argv))).

(** The loops over the aliases and over the prepositions: the index of the
    preposition and the length of the alias. *)
Fixpoint preps_loop (exact_match : bool) (argv : list bytes) (j : Z) (table : list (list (list bytes)))
    : option (Z * nat) :=
  match table with
  | [] => None
  | aliases :: table =>
      match find (alias_found exact_match argv) aliases with
      | Some words => Some (j, length words)
      | None => preps_loop exact_match argv (j + 1) table
      end
  end.

(** The loop over the positions; [first] and [last] are what is stored through
    the pointers. *)
Fixpoint find_prep_from (exact_match : bool) (i : Z) (argv : list bytes) : Z * option (Z * Z) :=
  match argv with
  | [] => (PREP_NONE, None)
  | _ :: argv' =>
      match preps_loop exact_match argv 0 prep_table with
      | Some (j, nwords) => (j, if exact_match then None else Some (i, i + Z.of_nat nwords - 1))
      | None => if exact_match then (PREP_NONE, None) else find_prep_from exact_match (i + 1) argv'
      end
  end.
Definition db_find_prep (exact_match : bool) (argv : list bytes) : Z * option (Z * Z) :=
  find_prep_from exact_match 0 argv.

(** The enumeration type is an [int]: the [long] that strtol returns is cut. *)
Definition db_match_prep (prepname : bytes) : option Z :=
  let s1 := match prepname with c :: s => if c =? 35 then s else prepname | [] => [] end in
  let '(n, ptr) := strtol s1 in
  let prep := int n in
  match ptr with
  | [] => Some (if negb (isdigit (byte_at s1 0)) || (NPREPS <=? prep) then PREP_NONE else prep)
  | _ =>
      argv ← words_of (fst (copy_alias prepname));
      Some (fst (db_find_prep true argv))
  end.

(** [None]: reading outside [prep_list]. *)
Definition db_unparse_prep (prep : Z) : option bytes :=
  if prep =? PREP_NONE then Some (BS "none")
  else if prep =? PREP_ANY then Some (BS "any")
  else if prep <? 0 then None else prep_list !! Z.to_nat prep.

(** ** Specification *)

(** Some alias of preposition [j] is the words of [argv] from [i] on, [n] of them. *)
Definition phrase_at (argv : list bytes) (j i n : nat) : Prop :=
  exists aliases words, prep_table !! j = Some aliases /\ words ∈ aliases /\ length words = n /\
    casefold <$> words = casefold <$> take n (drop i argv).

(** ** Lemmas *)

(** The table is built, and all its words are C strings. *)
Lemma prep_table_built : dbpriv_build_prep_table = Some prep_table.
Proof. vm_compute. reflexivity. Qed.

Lemma table_words aliases words : aliases ∈ prep_table -> words ∈ aliases ->
  Forall cstr words /\ (0 < length words)%nat.
Proof.
  assert (H : forallb (forallb (fun ws => forallb cstrb ws && Nat.ltb 0 (length ws))) prep_table = true)
    by (vm_compute; reflexivity).
  rewrite forallb_forall in H. intros Ha%list_elem_of_In%H Hw%list_elem_of_In.
  rewrite forallb_forall in Ha. apply Ha, andb_true_iff in Hw as [Hw Hl]. apply Nat.ltb_lt in Hl.
  split; [|done]. rewrite forallb_forall in Hw. apply Forall_forall. intros w Hin%list_elem_of_In%Hw. by apply cstrb_ok.
Qed.

#[local] Opaque prep_table.

Lemma match_words_spec argv words : Forall cstr argv -> Forall cstr words -> (length words <= length argv)%nat ->
  (match_words argv words <= length words)%nat /\
  (match_words argv words = length words <-> casefold <$> words = casefold <$> take (length words) argv).
Proof.
  intros Ha Hw. revert argv Ha. induction Hw as [|w words Hw Hws IH]; intros argv Ha Hl; [by destruct argv|].
  destruct Ha as [|a argv Ha Has]; [simpl in Hl; lia|]. cbn [match_words length take fmap list_fmap].
  destruct (Z.eqb_spec (mystrcasecmp a w) 0) as [E|E]; cbn [negb].
  - apply mystrcasecmp_eq in E; [|done|done]. destruct (IH argv Has) as [IH1 IH2]; [simpl in Hl; lia|].
    split; [lia|]. rewrite E. split.
    + intros [= H%IH2]. unfold fmap in *. by rewrite H.
    + intros [= H]. f_equal. by apply IH2.
  - split; [lia|]. split; [done|]. intros [= H _]. destruct E. by apply mystrcasecmp_eq.
Qed.

Lemma alias_found_spec exact argv words : Forall cstr argv -> Forall cstr words ->
  alias_found exact argv words = true <->
  casefold <$> words = casefold <$> take (length words) argv /\ (exact = true -> length words = length argv).
Proof.
  intros Ha Hw. unfold alias_found. rewrite !andb_true_iff, !bool_decide_eq_true, orb_true_iff, negb_true_iff, bool_decide_eq_true.
  split.
  - intros (Hl & Hk & Hx). split; [by apply match_words_spec|]. intros ->. destruct Hx as [|Hx]; [done|congruence].
  - intros [E Hx]. assert (Hl : (length words <= length argv)%nat).
    { apply (f_equal length) in E. rewrite !length_fmap, length_take in E. lia. }
    apply match_words_spec in E; [|done..]. split; [done|]. split; [done|].
    destruct exact; [right; rewrite E; auto|by left].
Qed.

Lemma preps_loop_spec exact argv table : forall k,
  match preps_loop exact argv k table with
  | Some (j, n) => exists idx aliases words, j = k + Z.of_nat idx /\ table !! idx = Some aliases /\
      words ∈ aliases /\ length words = n /\ alias_found exact argv words = true /\
      (forall idx' aliases' words', (idx' < idx)%nat -> table !! idx' = Some aliases' -> words' ∈ aliases' ->
         alias_found exact argv words' = false)
  | None => forall aliases words, aliases ∈ table -> words ∈ aliases -> alias_found exact argv words = false
  end.
Proof.
  induction table as [|aliases table IH]; intros k; cbn [preps_loop].
  { intros ? ? H. by apply elem_of_nil in H. }
  destruct (find (alias_found exact argv) aliases) as [words|] eqn:E.
  - apply find_some in E as [Hin Hf]. exists 0%nat, aliases, words. split; [lia|]. split; [done|].
    split; [by apply list_elem_of_In|]. split; [done|]. split; [done|]. intros; lia.
  - pose proof (find_none _ _ E) as Hn. specialize (IH (k + 1)).
    assert (Hn' : forall words, words ∈ aliases -> alias_found exact argv words = false).
    { intros words Hw. by apply Hn, list_elem_of_In. }
    destruct (preps_loop exact argv (k + 1) table) as [[j n]|].
    + destruct IH as (idx & al & words & -> & Hl & Hw & Hlen & Hf & Hmin). exists (S idx), al, words.
      split; [lia|]. split; [done|]. split; [done|]. split; [done|]. split; [done|].
      intros [|idx'] al' words' Hi Hl' Hw'; [injection Hl' as <-; by apply Hn'|]. simpl in Hl'.
      eapply Hmin; [|done|done]. lia.
    + intros al words [-> |Ha]%elem_of_cons Hw; [by apply Hn'|by eapply IH].
Qed.

(** One position: [n] words from there are a phrase of [j], the first such. *)
Lemma preps_loop_phrase exact argv i : Forall cstr argv ->
  match preps_loop exact (drop i argv) 0 prep_table with
  | Some (j, n) => exists k, j = Z.of_nat k /\ (k < length prep_table)%nat /\ phrase_at argv k i n /\ (0 < n <= length argv - i)%nat /\
      (exact = true -> n = length (drop i argv)) /\
      (forall k' n', (k' < k)%nat -> (exact = true -> n' = length (drop i argv)) -> ~ phrase_at argv k' i n')
  | None => forall k n, (exact = true -> n = length (drop i argv)) -> ~ phrase_at argv k i n
  end.
Proof.
  intros Ha. assert (Hd : Forall cstr (drop i argv)) by by apply Forall_drop.
  assert (G : forall k n aliases words, prep_table !! k = Some aliases -> words ∈ aliases -> length words = n ->
    (exact = true -> n = length (drop i argv)) -> casefold <$> words = casefold <$> take n (drop i argv) ->
    alias_found exact (drop i argv) words = true).
  { intros k n aliases words Hk Hw <- Hx E. apply alias_found_spec; [done| |done].
    eapply table_words; [by eapply list_elem_of_lookup_2|done]. }
  pose proof (preps_loop_spec exact (drop i argv) prep_table 0) as H.
  destruct (preps_loop exact (drop i argv) 0 prep_table) as [[j n]|].
  - destruct H as (k & aliases & words & -> & Hk & Hw & Hlen & Hf & Hmin).
    destruct (table_words aliases words) as [Hcs Hpos]; [by eapply list_elem_of_lookup_2|done|].
    apply alias_found_spec in Hf as [E Hx]; [|done|done]. exists k. split; [lia|].
    split; [by eapply lookup_lt_Some|]. split; [by exists aliases, words; subst n|].
    pose proof (f_equal length E) as El. rewrite !length_fmap, length_take, length_drop in El.
    split; [lia|]. split; [intros; subst n; by apply Hx|].
    intros k' n' Hk' Hx' (al' & w' & Hl' & Hw' & Hn' & E'). specialize (Hmin k' al' w' Hk' Hl' Hw').
    rewrite (G k' n' al' w') in Hmin by done. done.
  - intros k n Hx (al & w & Hl & Hw & Hn & E). specialize (H al w ltac:(by eapply list_elem_of_lookup_2) Hw).
    rewrite (G k n al w) in H by done. done.
Qed.

Lemma phrase_at_length argv j i n : phrase_at argv j i n -> (0 < n)%nat /\ (i + n <= length argv)%nat.
Proof.
  intros (al & w & Hl & Hw & Hn & E). destruct (table_words al w) as [_ Hp]; [by eapply list_elem_of_lookup_2|done|].
  apply (f_equal length) in E. rewrite !length_fmap, length_take, length_drop in E. lia.
Qed.

Lemma find_prep_from_spec argv : Forall cstr argv -> forall i,
  match find_prep_from false (Z.of_nat i) (drop i argv) with
  | (p, Some (first, last)) => exists j f n, p = Z.of_nat j /\ first = Z.of_nat f /\ last = first + Z.of_nat n - 1 /\
      (j < length prep_table)%nat /\ (i <= f)%nat /\ phrase_at argv j f n /\
      (forall j' n', (j' < j)%nat -> ~ phrase_at argv j' f n') /\
      (forall j' f' n', (i <= f' < f)%nat -> ~ phrase_at argv j' f' n')
  | (p, None) => p = PREP_NONE /\ forall j f n, (i <= f)%nat -> ~ phrase_at argv j f n
  end.
Proof.
  intros Ha i. remember (length argv - i)%nat as k eqn:Hk. revert i Hk.
  induction k as [|k IH]; intros i Hk.
  { rewrite drop_ge by lia. simpl. split; [done|]. intros j f n Hf [??]%phrase_at_length. lia. }
  destruct (drop i argv) as [|a rest] eqn:E.
  { apply (f_equal length) in E. rewrite length_drop in E. simpl in E. lia. }
  assert (Er : rest = drop (S i) argv) by by rewrite <- Nat.add_1_r, <- drop_drop, E.
  cbn [find_prep_from]. rewrite <- E. pose proof (preps_loop_phrase false argv i Ha) as H.
  destruct (preps_loop false (drop i argv) 0 prep_table) as [[j n]|].
  - destruct H as (idx & -> & Hidx & Hph & _ & _ & Hmin). exists idx, i, n.
    do 5 (split; [done || lia|]). split; [done|]. split; [|intros; lia].
    intros j' n' Hj'. by apply Hmin.
  - rewrite Er. replace (Z.of_nat i + 1) with (Z.of_nat (S i)) by lia.
    specialize (IH (S i) ltac:(lia)).
    assert (Hi : forall j' n', ~ phrase_at argv j' i n') by (intros; by apply H).
    destruct (find_prep_from false (Z.of_nat (S i)) (drop (S i) argv)) as [p [[first last]|]].
    + destruct IH as (j & f & n & -> & -> & Hl & Hj & Hf & Hph & Hm1 & Hm2). exists j, f, n.
      do 4 (split; [done|]). split; [lia|]. split; [done|]. split; [done|]. intros j' f' n' Hf'.
      destruct (decide (f' = i)) as [->|]; [apply Hi|]. apply Hm2. lia.
    + destruct IH as [-> Hn]. split; [done|]. intros j f n Hf.
      destruct (decide (f = i)) as [->|]; [apply Hi|]. apply Hn. lia.
Qed.

(** ** Theorems *)

(** Prepositions: searching a command finds the leftmost phrase, and at
    that place the first preposition of the table that has one; in exact mode
    it finds the first preposition that is the whole sequence of words.  Every
    preposition is recognised from its own printed form, and every alias from
    the alias. *)
Theorem db_find_prep_correct (argv : list bytes) :
  Forall cstr argv ->
  match db_find_prep false argv with
  | (p, Some (first, last)) => exists j f n, p = Z.of_nat j /\ first = Z.of_nat f /\ last = first + Z.of_nat n - 1 /\
      p < NPREPS /\ phrase_at argv j f n /\
      (forall j' n', (j' < j)%nat -> ~ phrase_at argv j' f n') /\
      (forall j' f' n', (f' < f)%nat -> ~ phrase_at argv j' f' n')
  | (p, None) => p = PREP_NONE /\ forall j f n, ~ phrase_at argv j f n
  end /\
  (let '(p, out) := db_find_prep true argv in out = None /\
     ((p = PREP_NONE /\ forall j, ~ phrase_at argv j 0 (length argv)) \/
      exists j, p = Z.of_nat j /\ phrase_at argv j 0 (length argv) /\
        forall j', (j' < j)%nat -> ~ phrase_at argv j' 0 (length argv))) /\
  (forall p, 0 <= p < NPREPS -> (db_unparse_prep p ≫= db_match_prep) = Some p) /\
  (forall j aliases words, prep_table !! j = Some aliases -> words ∈ aliases ->
     db_match_prep (join words) = Some (Z.of_nat j)).
Proof.
  intros Ha. split; [|split; [|split]].
  - pose proof (find_prep_from_spec argv Ha 0) as H. rewrite drop_0 in H. unfold db_find_prep.
    change (Z.of_nat 0) with 0 in H. destruct (find_prep_from false 0 argv) as [p [[first last]|]].
    + destruct H as (j & f & n & -> & -> & Hl & Hj & _ & Hph & Hm1 & Hm2). exists j, f, n.
      do 3 (split; [done|]). split; [change NPREPS with (Z.of_nat (length prep_table)); lia|].
      split; [done|]. split; [done|]. intros j' f' n' Hf. apply Hm2. lia.
    + destruct H as [-> H]. split; [done|]. intros. apply H. lia.
  - pose proof (preps_loop_phrase true argv 0 Ha) as H. rewrite drop_0 in H. unfold db_find_prep.
    destruct argv as [|a argv]; [split; [done|]; left; split; [done|]; intros j [? _]%phrase_at_length; simpl in *; lia|].
    cbn [find_prep_from]. destruct (preps_loop true (a :: argv) 0 prep_table) as [[j n]|].
    + destruct H as (k & -> & _ & Hph & _ & Hn & Hmin). rewrite (Hn eq_refl) in Hph. split; [done|]. right.
      exists k. split; [done|]. split; [done|]. intros j' Hj'. by apply Hmin.
    + split; [done|]. left. split; [done|]. intros j. by apply H.
  - assert (G : forallb (fun p => bool_decide ((db_unparse_prep p ≫= db_match_prep) = Some p)) (seqZ 0 NPREPS) = true)
      by (vm_compute; reflexivity).
    rewrite forallb_forall in G. intros p Hp. apply (bool_decide_eq_true_1 _), G, list_elem_of_In, elem_of_seqZ. lia.
  - assert (G : forallb (fun '(j, aliases) => forallb (fun words => bool_decide (db_match_prep (join words) = Some j)) aliases)
      (zip (seqZ 0 NPREPS) prep_table) = true) by (vm_compute; reflexivity).
    rewrite forallb_forall in G. intros j aliases words Hj Hw.
    assert (Hin : (Z.of_nat j, aliases) ∈ zip (seqZ 0 NPREPS) prep_table).
    { apply list_elem_of_lookup. exists j. apply lookup_zip_with_Some. exists (Z.of_nat j), aliases.
      split; [done|]. split; [|done]. apply lookup_seqZ. split; [lia|].
      apply lookup_lt_Some in Hj. change NPREPS with (Z.of_nat (length prep_table)). lia. }
    apply list_elem_of_In, G in Hin. rewrite forallb_forall in Hin.
    apply (bool_decide_eq_true_1 _), Hin, list_elem_of_In. done.
Qed.

Example db_find_prep_correct_witness :
  db_find_prep false [BS "ball"; BS "IN"; BS "front"; BS "of"; BS "box"] = (2, Some (1, 3)) /\
  (forall p, 0 <= p < NPREPS -> (db_unparse_prep p ≫= db_match_prep) = Some p).
Proof.
  split; [vm_compute; reflexivity|].
  destruct (db_find_prep_correct [BS "ball"; BS "IN"]) as (_ & _ & H & _); [|exact H].
  repeat (apply Forall_cons_2; [apply cstrb_ok; reflexivity|]). constructor.
Defined.

(** The preposition "off of" is never found in a command: "off" comes first. *)
Lemma off_of_unreachable : forall a b, db_find_prep false [BS "off"; BS "of"; a; b] = (14, Some (0, 0)).
Proof. intros a b. vm_compute. reflexivity. Qed.

(** A number whose low 32 bits are negative passes the range check, and its
    preposition cannot be printed. *)
Theorem db_match_prep_unchecked :
  db_match_prep (BS "4294950000") = Some (-17296) /\ db_unparse_prep (-17296) = None.
Proof. split; vm_compute; reflexivity. Qed.
