(* ===== verification/Db.v ===== *)
(** * The object database: data and primitive access (db_private.h, program.h,
    program.c; the first functions of db_objects.c)

    The table [objects] is a finite map from object numbers to objects: a null
    entry, and any index outside the table, has no object, and dereferencing it
    is [None].  Objects refer to each other by number.  A verb definition has
    an address, by which handles and the verb cache refer to it; fresh
    addresses come from a counter. *)

From S2P Require Import Prelude Utf CString Values.

(** ** Programs *)

Record Bytecodes := mkBytecodes {
  bc_numbytes : list Z;      (* label, literal, fork, var_name, stack *)
  bc_vector : bytes;
  bc_max_stack : Z
}.
Definition bc_size (b : Bytecodes) : Z := Z.of_nat (length (bc_vector b)).

Record Program := mkProgram {
  p_version : Z;
  p_first_lineno : Z;
  p_ref_count : Z;
  p_main_vector : Bytecodes;
  p_literals : list Var;
  p_fork_vectors : list Bytecodes;
  p_var_names : list bytes;
  p_cached_lineno : Z;
  p_cached_lineno_pc : Z;
  p_cached_lineno_vec : Z
}.

Definition MAIN_VECTOR : Z := -1.
Definition BQM_SIZEOF_Bytecodes : Z := 4 * BQM_FOUR + BQM_VAR.
Definition BQM_SIZEOF_Program : Z := 8 * BQM_FOUR + 9 * BQM_VAR.

(** The fields that [new_program] leaves uninitialised are arguments. *)
Definition new_program (version : Z) (main_vector : Bytecodes) (literals : list Var)
    (forks : list Bytecodes) (names : list bytes) : Program :=
  mkProgram version 1 1 main_vector literals forks names 1 0 MAIN_VECTOR.

Definition program_ref (p : Program) : Program :=
  mkProgram (p_version p) (p_first_lineno p) (uwrap 32 (p_ref_count p + 1)) (p_main_vector p)
    (p_literals p) (p_fork_vectors p) (p_var_names p) (p_cached_lineno p)
    (p_cached_lineno_pc p) (p_cached_lineno_vec p).

(** [program_bytes] adds up in an [unsigned] and answers an [int]. *)
Definition program_bytes (p : Program) : Z :=
  let count := uwrap 32 BQM_SIZEOF_Program in
  let count := uwrap 32 (count + bc_size (p_main_vector p)) in
  let count := fold_left (fun count v => uwrap 32 (count + value_bytes v)) (p_literals p) count in
  let count := uwrap 32 (count + BQM_SIZEOF_Bytecodes * Z.of_nat (length (p_fork_vectors p))) in
  let count := fold_left (fun count b => uwrap 32 (count + bc_size b)) (p_fork_vectors p) count in
  let count := uwrap 32 (count + BQM_SIZEOF_PTR * Z.of_nat (length (p_var_names p))) in
  let count := fold_left (fun count s => uwrap 32 (count + (Z.of_nat (length s) + 1)))
                 (p_var_names p) count in
  int count.

(** [free_program]: [None] when the last reference goes and the program with it. *)
Definition free_program (p : Program) : option Program :=
  let n := uwrap 32 (p_ref_count p - 1) in
  if n =? 0 then None
  else Some (mkProgram (p_version p) (p_first_lineno p) n (p_main_vector p)
    (p_literals p) (p_fork_vectors p) (p_var_names p) (p_cached_lineno p)
    (p_cached_lineno_pc p) (p_cached_lineno_vec p)).

(** ** Objects *)

Record Verbdef := mkVerbdef {
  v_addr : Z;                  (* the address of the structure *)
  v_name : bytes;
  v_program : option Program;
  v_owner : Z;
  v_perms : Z;
  v_prep : Z
}.
Definition BQM_SIZEOF_Verbdef : Z := 5 * BQM_VAR.

Record Propdef := mkPropdef { pd_name : bytes; pd_hash : Z }.
Definition BQM_SIZEOF_Propdef : Z := 2 * BQM_VAR.

(** [cur_length] is the length of [pl_l]; the array has room for [pl_max_length]. *)
Record Proplist := mkProplist { pl_max_length : Z; pl_l : list Propdef }.
Definition pl_cur_length (p : Proplist) : Z := Z.of_nat (length (pl_l p)).

Record Pval := mkPval { pv_var : Var; pv_owner : Z; pv_perms : Z }.
Definition BQM_SIZEOF_Pval : Z := 4 * BQM_VAR.

Record Object := mkObject {
  o_id : Z;
  o_owner : Z;
  o_location : Z;
  o_contents : Z;
  o_next : Z;
  o_parent : Z;
  o_child : Z;
  o_sibling : Z;
  o_name : bytes;
  o_flags : Z;
  o_verbdefs : list Verbdef;
  o_propdefs : Proplist;
  o_propval : list Pval
}.
Definition BQM_SIZEOF_Object : Z := 2 * BQM_FOUR + 13 * BQM_VAR.

(** Assignment to one field. *)
Definition set_id (z : Z) (o : Object) : Object :=
  let 'mkObject a b c d e f g h i j k l m := o in mkObject z b c d e f g h i j k l m.
Definition set_owner (z : Z) (o : Object) : Object :=
  let 'mkObject a b c d e f g h i j k l m := o in mkObject a z c d e f g h i j k l m.
Definition set_location (z : Z) (o : Object) : Object :=
  let 'mkObject a b c d e f g h i j k l m := o in mkObject a b z d e f g h i j k l m.
Definition set_contents (z : Z) (o : Object) : Object :=
  let 'mkObject a b c d e f g h i j k l m := o in mkObject a b c z e f g h i j k l m.
Definition set_next (z : Z) (o : Object) : Object :=
  let 'mkObject a b c d e f g h i j k l m := o in mkObject a b c d z f g h i j k l m.
Definition set_parent (z : Z) (o : Object) : Object :=
  let 'mkObject a b c d e f g h i j k l m := o in mkObject a b c d e z g h i j k l m.
Definition set_child (z : Z) (o : Object) : Object :=
  let 'mkObject a b c d e f g h i j k l m := o in mkObject a b c d e f z h i j k l m.
Definition set_sibling (z : Z) (o : Object) : Object :=
  let 'mkObject a b c d e f g h i j k l m := o in mkObject a b c d e f g z i j k l m.
Definition set_name (s : bytes) (o : Object) : Object :=
  let 'mkObject a b c d e f g h i j k l m := o in mkObject a b c d e f g h s j k l m.
Definition set_flags (z : Z) (o : Object) : Object :=
  let 'mkObject a b c d e f g h i j k l m := o in mkObject a b c d e f g h i z k l m.
Definition set_verbdefs (v : list Verbdef) (o : Object) : Object :=
  let 'mkObject a b c d e f g h i j k l m := o in mkObject a b c d e f g h i j v l m.
Definition set_propdefs (p : Proplist) (o : Object) : Object :=
  let 'mkObject a b c d e f g h i j k l m := o in mkObject a b c d e f g h i j k p m.
Definition set_propval (p : list Pval) (o : Object) : Object :=
  let 'mkObject a b c d e f g h i j k l m := o in mkObject a b c d e f g h i j k l p.

(** The permanent object flags, by bit number. *)
Definition FLAG_USER : Z := 0.
Definition FLAG_PROGRAMMER : Z := 1.
Definition FLAG_WIZARD : Z := 2.
Definition FLAG_OBSOLETE_1 : Z := 3.
Definition FLAG_READ : Z := 4.
Definition FLAG_WRITE : Z := 5.
Definition FLAG_OBSOLETE_2 : Z := 6.
Definition FLAG_FERTILE : Z := 7.

(** ** The verb cache *)

(** What a non-null verb handle points to. *)
Record handle := mkHandle { h_definer : Z; h_verbdef : Z }.

(** [vc_handle] is [None] when the entry records a failed lookup. *)
Record vc_entry := mkVc {
  vc_hash : Z;
  vc_oid_key : Z;
  vc_verbname : bytes;
  vc_handle : option handle
}.

(** [vc_table] is [None] before the table is made; an absent bucket is empty. *)
Record verb_cache := mkCacheState {
  vc_table : option (gmap Z (list vc_entry));
  vc_size : Z;
  db_verb_generation : Z;
  verbcache_hit : Z;
  verbcache_neg_hit : Z;
  verbcache_miss : Z
}.

(** ** The database *)

Record db := mkDb {
  objects : gmap Z Object;
  num_objects : Z;
  max_objects : Z;
  all_users : list Var;
  vcache : verb_cache;
  next_addr : Z
}.

Definition with_objects (f : gmap Z Object -> gmap Z Object) (d : db) : db :=
  mkDb (f (objects d)) (num_objects d) (max_objects d) (all_users d) (vcache d) (next_addr d).
Definition with_users (u : list Var) (d : db) : db :=
  mkDb (objects d) (num_objects d) (max_objects d) u (vcache d) (next_addr d).
Definition with_vcache (c : verb_cache) (d : db) : db :=
  mkDb (objects d) (num_objects d) (max_objects d) (all_users d) c (next_addr d).

(** [objects[x]->... = ...]: a write through a table entry. *)
Definition update (x : Z) (f : Object -> Object) (d : db) : option db :=
  match objects d !! x with
  | Some o => Some (with_objects (<[x := f o]>) d)
  | None => None
  end.

Definition dbpriv_find_object (d : db) (oid : Z) : option Object :=
  if (oid <? 0) || (num_objects d <=? oid) then None else objects d !! oid.

Definition valid (d : db) (oid : Z) : bool :=
  match dbpriv_find_object d oid with Some _ => true | None => false end.

(** The objects of a flag word. *)
Definition has_flag (o : Object) (f : Z) : bool := negb (Z.land (o_flags o) (Z.shiftl 1 f) =? 0).

Definition db_object_has_flag (d : db) (oid f : Z) : option bool :=
  o ← objects d !! oid; Some (has_flag o f).

(** [valid(oid) && db_object_has_flag(oid, ...)]. *)
Definition valid_with_flag (d : db) (oid f : Z) : bool :=
  match dbpriv_find_object d oid with Some o => has_flag o f | None => false end.
Definition is_wizard (d : db) (oid : Z) : bool := valid_with_flag d oid FLAG_WIZARD.
Definition is_programmer (d : db) (oid : Z) : bool := valid_with_flag d oid FLAG_PROGRAMMER.
Definition is_user (d : db) (oid : Z) : bool := valid_with_flag d oid FLAG_USER.

(** Discard every entry of the verb cache. *)
Definition db_priv_affected_callable_verb_lookup (d : db) : db :=
  let c := vcache d in
  match vc_table c with
  | None => d
  | Some _ => with_vcache (mkCacheState (Some ∅) (vc_size c) (int (db_verb_generation c + 1))
                             (verbcache_hit c) (verbcache_neg_hit c) (verbcache_miss c)) d
  end.

(** ** Specification *)

(** The table holds objects only below [num_objects], each under its number. *)
Definition table_ok (d : db) : Prop :=
  0 <= num_objects d <= max_objects d /\ max_objects d <= INT32_MAX /\
  (forall x o, objects d !! x = Some o -> 0 <= x < num_objects d /\ o_id o = x).

(** A small database on which the theorems are tried out: #1 has the children
    #2 and #3, #2 the child #4; the room #3 contains #4 and #2; #4 is a user.
    #1 defines the property "description" and #2 the property "size". *)
Definition sample_pd (name : bytes) : Propdef := mkPropdef name (str_hash name).
Definition sample : db :=
  let none := mkProplist 0 [] in
  mkDb (list_to_map
    [(0, mkObject 0 1 (-1) (-1) (-1) (-1) (-1) (-1) (BS "System") 0 [] none []);
     (1, mkObject 1 1 (-1) (-1) (-1) (-1) 2 (-1) (BS "Root") 0 []
           (mkProplist 8 [sample_pd (BS "description")])
           [mkPval (VStr (BS "a thing")) 1 5]);
     (2, mkObject 2 4 3 (-1) (-1) 1 4 3 (BS "Ball") 0 []
           (mkProplist 8 [sample_pd (BS "size")])
           [mkPval (VInt 5) 4 1; mkPval VClear 4 5]);
     (3, mkObject 3 1 (-1) 4 (-1) 1 (-1) (-1) (BS "Room") 16 [] none
           [mkPval (VStr (BS "a room")) 1 5]);
     (4, mkObject 4 4 3 (-1) 2 2 (-1) (-1) (BS "Anna") 1 [] none
           [mkPval VClear 4 1; mkPval VClear 4 5])])
    5 100 [VObj 4] (mkCacheState None 0 0 0 0 0) 1000.

(** ** Lemmas *)

Lemma find_object_objects d x : table_ok d -> dbpriv_find_object d x = objects d !! x.
Proof.
  intros (_ & _ & H). unfold dbpriv_find_object.
  destruct ((x <? 0) || (num_objects d <=? x)) eqn:E; [|done].
  destruct (objects d !! x) as [o|] eqn:Ex; [|done]. destruct (H x o Ex) as [? _].
  apply orb_true_iff in E as [E|E]; breflect; lia.
Qed.

Lemma table_size d : table_ok d -> Z.of_nat (size (objects d)) <= num_objects d.
Proof.
  intros (Hn & _ & H). rewrite <- size_dom.
  replace (num_objects d) with (Z.of_nat (length (seqZ 0 (num_objects d))))
    by (rewrite length_seqZ; lia).
  apply inj_le. rewrite <- (size_list_to_set (C := gset Z)) by apply NoDup_seqZ.
  apply subseteq_size. intros x Hx. apply elem_of_dom in Hx as [o Ho].
  destruct (H _ _ Ho) as [? _]. apply elem_of_list_to_set, elem_of_seqZ. lia.
Qed.

Lemma valid_spec d x : table_ok d -> valid d x = true <-> is_Some (objects d !! x).
Proof.
  intros H. unfold valid. rewrite find_object_objects by done.
  destruct (objects d !! x); split; [by eexists|done|done|by intros [? ?]].
Qed.

Lemma NOTHING_invalid d : table_ok d -> objects d !! NOTHING = None.
Proof.
  intros (_ & _ & H). destruct (objects d !! NOTHING) as [o|] eqn:E; [|done].
  destruct (H _ _ E) as [? _]. unfold NOTHING in *. lia.
Qed.

Lemma update_Some x f d o : objects d !! x = Some o ->
  update x f d = Some (with_objects (<[x := f o]>) d).
Proof. unfold update. by intros ->. Qed.

Lemma flush_objects d : objects (db_priv_affected_callable_verb_lookup d) = objects d.
Proof. unfold db_priv_affected_callable_verb_lookup. by case_match. Qed.
#[export] Hint Rewrite flush_objects : moo.
