(* ===== verification/Links.v ===== *)
(** * Linked lists through the objects (the list macros of db_objects.c)

    Two families of lists run through the object table: the children of an
    object ([child], [sibling], [parent]) and its contents ([contents], [next],
    [location]).  The macros LL_REMOVE and LL_APPEND take the names of the
    fields; here they take a [LinkFields], and the lemmas need only its laws. *)

From S2P Require Import Prelude Utf CString Values Db.

(** ** Link fields *)

Record LinkFields := mkLinks {
  lk_head : Object -> Z;
  lk_set_head : Z -> Object -> Object;
  lk_next : Object -> Z;
  lk_set_next : Z -> Object -> Object;
  lk_up : Object -> Z;
  lk_set_up : Z -> Object -> Object
}.

Definition children_links : LinkFields :=
  mkLinks o_child set_child o_sibling set_sibling o_parent set_parent.
Definition contents_links : LinkFields :=
  mkLinks o_contents set_contents o_next set_next o_location set_location.

(** What the algorithms rely on. *)
Class LinkLaws (L : LinkFields) : Prop := {
  head_head z o : lk_head L (lk_set_head L z o) = z;
  head_next z o : lk_head L (lk_set_next L z o) = lk_head L o;
  head_up z o : lk_head L (lk_set_up L z o) = lk_head L o;
  next_head z o : lk_next L (lk_set_head L z o) = lk_next L o;
  next_next z o : lk_next L (lk_set_next L z o) = z;
  next_up z o : lk_next L (lk_set_up L z o) = lk_next L o;
  up_head z o : lk_up L (lk_set_head L z o) = lk_up L o;
  up_next z o : lk_up L (lk_set_next L z o) = lk_up L o;
  up_up z o : lk_up L (lk_set_up L z o) = z
}.

#[export] Instance children_laws : LinkLaws children_links.
Proof. by split; intros z []. Qed.
#[export] Instance contents_laws : LinkLaws contents_links.
Proof. by split; intros z []. Qed.

(** ** Definitions *)

(** Two databases that agree on what [g] shows of each object. *)
Definition agree {A} (g : Object -> A) (d d' : db) : Prop :=
  forall x, g <$> objects d' !! x = g <$> objects d !! x.

Section LL.
Context (L : LinkFields).

(** [for (lid = ...; lid != NOTHING; lid = objects[lid]->nextname)] of LL_REMOVE. *)
Fixpoint ll_unlink (fuel : nat) (d : db) (lid what : Z) : option db :=
  match fuel with
  | O => None
  | S f =>
      if lid =? NOTHING then Some d
      else
        o ← objects d !! lid;
        if lk_next L o =? what then
          w ← objects d !! what;
          update lid (lk_set_next L (lk_next L w)) d
        else ll_unlink f d (lk_next L o) what
  end.

Definition ll_fuel (d : db) : nat := S (size (objects d)).

Definition LL_REMOVE (d : db) (where_ what : Z) : option db :=
  o ← objects d !! where_;
  d ← (if lk_head L o =? what then
         w ← objects d !! what;
         update where_ (lk_set_head L (lk_next L w)) d
       else ll_unlink (ll_fuel d) d (lk_head L o) what);
  update what (lk_set_next L NOTHING) d.

(** [for (lid = ...; objects[lid]->nextname != NOTHING; ...)] of LL_APPEND. *)
Fixpoint ll_last (fuel : nat) (d : db) (lid : Z) : option Z :=
  match fuel with
  | O => None
  | S f => o ← objects d !! lid;
           if lk_next L o =? NOTHING then Some lid else ll_last f d (lk_next L o)
  end.

Definition LL_APPEND (d : db) (where_ what : Z) : option db :=
  o ← objects d !! where_;
  d ← (if lk_head L o =? NOTHING then update where_ (lk_set_head L what) d
       else lid ← ll_last (ll_fuel d) d (lk_head L o);
            update lid (lk_set_next L what) d);
  update what (lk_set_next L NOTHING) d.

(** Counting, and calling a function on every member until it answers true. *)
Fixpoint ll_count (fuel : nat) (d : db) (c : Z) (i : Z) : option Z :=
  match fuel with
  | O => None
  | S f => if c =? NOTHING then Some i
           else o ← objects d !! c; ll_count f d (lk_next L o) (int (i + 1))
  end.

Fixpoint ll_for_all {A} (fuel : nat) (d : db) (func : A -> Z -> A * bool) (data : A) (c : Z)
    : option (A * bool) :=
  match fuel with
  | O => None
  | S f => if c =? NOTHING then Some (data, false)
           else
             let '(data, stop) := func data c in
             if stop : bool then Some (data, true)
             else o ← objects d !! c; ll_for_all f d func data (lk_next L o)
  end.

(** ** Specification *)

Definition nextf (d : db) (x : Z) : option Z := lk_next L <$> objects d !! x.
Definition headf (d : db) (x : Z) : option Z := lk_head L <$> objects d !! x.
Definition upf (d : db) (x : Z) : option Z := lk_up L <$> objects d !! x.

(** The members of the list of [p], in order. *)
Definition members (d : db) (p : Z) : option (list Z) :=
  h ← headf d p; walk NOTHING (nextf d) (ll_fuel d) h.

(** The lists end, and no object is in two of them. *)
Definition lists_ok (d : db) : Prop :=
  objects d !! NOTHING = None /\
  (forall p, is_Some (objects d !! p) -> is_Some (members d p)) /\
  (forall p q lp lq x, members d p = Some lp -> members d q = Some lq ->
     x ∈ lp -> x ∈ lq -> p = q).

(** The lists and the upward field agree. *)
Definition links_ok (d : db) : Prop :=
  lists_ok d /\
  (forall p l, members d p = Some l -> forall c, c ∈ l <-> upf d c = Some p) /\
  (forall c p, upf d c = Some p -> p <> NOTHING -> is_Some (objects d !! p)).

(** Whether [links_ok] holds, by computation. *)
Definition links_check (d : db) : bool :=
  match objects d !! NOTHING with Some _ => false | None => true end &&
  forallb (fun '(p, _) => match members d p with
                          | Some l => forallb (fun c => bool_decide (upf d c = Some p)) l
                          | None => false
                          end) (map_to_list (objects d)) &&
  forallb (fun '(c, o) => (lk_up L o =? NOTHING) ||
                          match members d (lk_up L o) with
                          | Some l => bool_decide (c ∈ l)
                          | None => false
                          end) (map_to_list (objects d)).

(** ** Lemmas *)
Context {HL : LinkLaws L}.

Lemma members_chain d p h l :
  headf d p = Some h -> members d p = Some l <-> chain NOTHING (nextf d) h l.
Proof.
  intros Hh. unfold members. rewrite Hh. cbn [mbind option_bind]. split; [apply walk_chain|].
  intros Hc. apply chain_walk; [done|]. unfold ll_fuel. rewrite <- size_dom.
  apply Nat.lt_succ_r. eapply (chain_length _ _ _ _ (dom (objects d))); [done|].
  intros x [y Hy]. unfold nextf in Hy. apply fmap_Some in Hy as (o & Ho & _).
  by apply elem_of_dom_2 in Ho.
Qed.

Lemma members_head d p l : members d p = Some l -> exists h, headf d p = Some h.
Proof. unfold members. intros H. apply bind_Some in H as (h & Hh & _). eauto. Qed.

Lemma members_inv d p l : members d p = Some l ->
  exists h, headf d p = Some h /\ chain NOTHING (nextf d) h l.
Proof. intros H. destruct (members_head _ _ _ H) as [h Hh]. exists h. split; [done|]. by apply (members_chain _ _ _ _ Hh). Qed.

Lemma members_length d p l : members d p = Some l -> (length l < ll_fuel d)%nat.
Proof.
  intros H. destruct (members_inv _ _ _ H) as (h & Hh & Hc). unfold ll_fuel. rewrite <- size_dom.
  apply Nat.lt_succ_r. eapply (chain_length _ _ _ _ (dom (objects d))); [done|].
  intros x [y Hy]. unfold nextf in Hy. apply fmap_Some in Hy as (o & Ho & _).
  by apply elem_of_dom_2 in Ho.
Qed.

Lemma members_NoDup d p l : members d p = Some l -> NoDup l.
Proof. intros H. destruct (members_inv _ _ _ H) as (h & _ & Hc). by eapply chain_NoDup. Qed.

Lemma members_defined d p l x : members d p = Some l -> x ∈ l -> is_Some (objects d !! x).
Proof.
  intros H Hx. destruct (members_inv _ _ _ H) as (h & _ & Hc).
  destruct (chain_elem_defined _ _ _ _ _ Hc Hx) as [y Hy]. unfold nextf in Hy.
  apply fmap_Some in Hy as (o & Ho & _). eauto.
Qed.

(** Lists depend only on the next fields of their members and on the head. *)
Lemma members_ext d d' p l :
  members d p = Some l -> headf d' p = headf d p ->
  (forall x, x ∈ l -> nextf d' x = nextf d x) -> members d' p = Some l.
Proof.
  intros H Hh Hn. destruct (members_inv _ _ _ H) as (h & Hh' & Hc).
  apply (members_chain _ _ h); [congruence|]. by eapply chain_ext.
Qed.

Lemma agree_dom {A} (g : Object -> A) d d' x :
  agree g d d' -> is_Some (objects d' !! x) <-> is_Some (objects d !! x).
Proof.
  intros H. specialize (H x). destruct (objects d !! x), (objects d' !! x); simpl in H; done.
Qed.

Lemma agree_fuel {A} (g : Object -> A) d d' : agree g d d' -> ll_fuel d' = ll_fuel d.
Proof.
  intros H. unfold ll_fuel. f_equal. rewrite <- !size_dom. f_equal.
  apply set_eq. intros x. rewrite !elem_of_dom. by eapply agree_dom.
Qed.

Lemma walk_agree nx nx' fuel h : (forall x : Z, nx' x = nx x) ->
  walk NOTHING nx' fuel h = walk NOTHING nx fuel h.
Proof.
  intros E. revert h. induction fuel as [|n IH]; intros h; simpl; [done|].
  destruct (h =? NOTHING); [done|]. rewrite E. destruct (nx h); simpl; [by rewrite IH|done].
Qed.

Lemma members_agree d d' p : agree (lk_head L) d d' -> agree (lk_next L) d d' ->
  members d' p = members d p.
Proof.
  intros Hh Hn. unfold members, headf. rewrite (Hh p), (agree_fuel _ d d' Hn).
  destruct (lk_head L <$> objects d !! p) as [h|]; [|done]. cbn [mbind option_bind].
  apply walk_agree. intros x. apply Hn.
Qed.

Lemma links_agree d d' : agree (lk_head L) d d' -> agree (lk_next L) d d' -> agree (lk_up L) d d' ->
  links_ok d -> links_ok d'.
Proof.
  intros Hh Hn Hu ((HN & Ht & Hd) & Hm & Hv).
  assert (Em : forall p, members d' p = members d p) by (intros; by apply members_agree).
  assert (Hdom : forall x, is_Some (objects d' !! x) <-> is_Some (objects d !! x))
    by (intros; by eapply agree_dom).
  assert (Eu : forall x, upf d' x = upf d x) by (intros; apply Hu).
  split; [split; [|split]|split].
  - apply eq_None_not_Some. rewrite Hdom, HN. by intros [? ?].
  - intros p Hp. rewrite Em. by apply Ht, Hdom.
  - intros p q lp lq x. rewrite !Em. by apply Hd.
  - intros p l. rewrite Em. intros Hl c. rewrite Eu. by apply Hm.
  - intros c p. rewrite Eu. intros Hc Hp. apply Hdom. by eapply Hv.
Qed.

Lemma members_is_Some d p : is_Some (members d p) -> is_Some (objects d !! p).
Proof.
  intros [l H]. apply members_head in H as [h H]. unfold headf in H.
  apply fmap_Some in H as (o & -> & _). eauto.
Qed.

Lemma links_check_ok d : links_check d = true -> links_ok d.
Proof.
  unfold links_check. rewrite !andb_true_iff, !forallb_forall. intros [[HN H1] H2].
  assert (Hm : forall p, is_Some (objects d !! p) -> exists l, members d p = Some l /\
             forall c, c ∈ l -> upf d c = Some p).
  { intros p [o Ho]. assert (H := H1 (p, o)). specialize (H ltac:(by apply list_elem_of_In, elem_of_map_to_list)). cbn beta iota in H.
    destruct (members d p) as [l|] eqn:El; [|done].
    exists l. split; [done|]. intros c Hc. rewrite forallb_forall in H.
    apply (bool_decide_eq_true (upf d c = Some p)), H. by apply list_elem_of_In. }
  assert (Hu : forall c p, upf d c = Some p -> p = NOTHING \/ exists l, members d p = Some l /\ c ∈ l).
  { intros c p Hc. unfold upf in Hc. apply fmap_Some in Hc as (o & Ho & ->).
    assert (H := H2 (c, o)). specialize (H ltac:(by apply list_elem_of_In, elem_of_map_to_list)). cbn beta iota in H.
    destruct (Z.eqb_spec (lk_up L o) NOTHING) as [|_]; [by left|right]. cbn [orb] in H.
    destruct (members d (lk_up L o)) as [l|]; [|done].
    exists l. split; [done|]. by apply bool_decide_eq_true in H. }
  destruct (objects d !! NOTHING) eqn:HN'; [done|].
  assert (Hm' : forall p l c, members d p = Some l -> c ∈ l -> upf d c = Some p).
  { intros p l c El. destruct (Hm p) as (l' & El' & Hl'); [by apply members_is_Some; eexists|].
    rewrite El in El'. injection El' as <-. apply Hl'. }
  split; [split; [done|split]|split].
  - intros p Hp. destruct (Hm p Hp) as (l & -> & _). by eexists.
  - intros p q lp lq x Ep Eq Hp Hq. pose proof (Hm' _ _ _ Ep Hp). pose proof (Hm' _ _ _ Eq Hq). congruence.
  - intros p l El c. split; [by apply Hm'|]. intros Hc. destruct (Hu _ _ Hc) as [->|(l' & El' & Hin)].
    + destruct (members_is_Some d NOTHING) as [? ?]; [by eexists|]. congruence.
    + congruence.
  - intros c p Hc Hp. destruct (Hu _ _ Hc) as [->|(l & El & _)]; [done|].
    apply members_is_Some. by eexists.
Qed.

(** The fields after an update. *)
Lemma update_objects d d' x f : update x f d = Some d' ->
  exists o, objects d !! x = Some o /\ objects d' = <[x := f o]> (objects d) /\
            d' = with_objects (<[x := f o]>) d.
Proof. unfold update. destruct (objects d !! x) as [o|]; [|done]. intros [= <-]. eauto. Qed.

Lemma update_field {A} (g : Object -> A) d d' x f y : update x f d = Some d' ->
  (forall o, g (f o) = g o) -> g <$> objects d' !! y = g <$> objects d !! y.
Proof.
  intros H Hg. apply update_objects in H as (o & Ho & -> & _).
  destruct (decide (x = y)) as [<-|].
  - rewrite lookup_insert_eq, Ho. simpl. by rewrite Hg.
  - by rewrite lookup_insert_ne.
Qed.

Lemma update_ne {A} (g : Object -> A) d d' x f y : update x f d = Some d' -> x <> y ->
  g <$> objects d' !! y = g <$> objects d !! y.
Proof.
  intros H Hne. apply update_objects in H as (o & Ho & -> & _). by rewrite lookup_insert_ne.
Qed.

Lemma update_eq {A} (g : Object -> A) d d' x f z : update x f d = Some d' ->
  (forall o, g (f o) = z) -> g <$> objects d' !! x = Some z.
Proof.
  intros H Hg. apply update_objects in H as (o & Ho & -> & _).
  rewrite lookup_insert_eq. simpl. by rewrite Hg.
Qed.

(** What a list operation on [L] leaves alone: everything but heads and nexts. *)
Definition links_only (d d' : db) : Prop :=
  (exists m, d' = with_objects (fun _ => m) d) /\
  (forall (A : Type) (g : Object -> A), (forall z o, g (lk_set_head L z o) = g o) ->
     (forall z o, g (lk_set_next L z o) = g o) ->
     forall x, g <$> objects d' !! x = g <$> objects d !! x).

Lemma links_only_trans d d' d'' : links_only d d' -> links_only d' d'' -> links_only d d''.
Proof.
  intros [[m ->] H1] [[m' ->] H2]. split; [by exists m'|].
  intros A g Hh Hn x. by rewrite H2, H1.
Qed.

Lemma links_only_head d d' x z : update x (lk_set_head L z) d = Some d' -> links_only d d'.
Proof.
  intros H. split.
  - apply update_objects in H as (o & _ & _ & ->). by eexists.
  - intros A g Hh Hn y. by eapply update_field.
Qed.
Lemma links_only_next d d' x z : update x (lk_set_next L z) d = Some d' -> links_only d d'.
Proof.
  intros H. split.
  - apply update_objects in H as (o & _ & _ & ->). by eexists.
  - intros A g Hh Hn y. by eapply update_field.
Qed.

Lemma links_only_dom d d' x : links_only d d' -> is_Some (objects d' !! x) <-> is_Some (objects d !! x).
Proof.
  intros [_ H]. specialize (H unit (fun _ => tt) ltac:(done) ltac:(done) x).
  destruct (objects d !! x), (objects d' !! x); simpl in H; done.
Qed.

Lemma update_is_Some x f d : is_Some (objects d !! x) -> exists d', update x f d = Some d'.
Proof. intros [o Ho]. unfold update. rewrite Ho. eauto. Qed.

Lemma nextf_update_next d d' x z : update x (lk_set_next L z) d = Some d' ->
  nextf d' x = Some z /\ (forall y, y <> x -> nextf d' y = nextf d y) /\
  (forall y, headf d' y = headf d y).
Proof.
  intros H. unfold nextf, headf. split; [|split].
  - eapply update_eq; [done|]. intros. apply next_next.
  - intros y Hy. by eapply update_ne.
  - intros y. eapply update_field; [done|]. intros. apply head_next.
Qed.

Lemma headf_update_head d d' x z : update x (lk_set_head L z) d = Some d' ->
  headf d' x = Some z /\ (forall y, y <> x -> headf d' y = headf d y) /\
  (forall y, nextf d' y = nextf d y).
Proof.
  intros H. unfold nextf, headf. split; [|split].
  - eapply update_eq; [done|]. intros. apply head_head.
  - intros y Hy. by eapply update_ne.
  - intros y. eapply update_field; [done|]. intros. apply next_head.
Qed.

Lemma ll_unlink_spec fuel d lid pre p c post t :
  chain NOTHING (nextf d) lid (pre ++ p :: c :: post) -> nextf d c = Some t ->
  (length pre < fuel)%nat ->
  ll_unlink fuel d lid c = update p (lk_set_next L t) d.
Proof.
  intros Hch Hc. revert lid fuel Hch. induction pre as [|a pre IH]; intros lid [|fuel] Hch Hf;
    try (simpl in Hf; lia); destruct (chain_cons_inv _ _ _ _ _ Hch) as (-> & Hs & u & Hu & Hch');
    cbn [ll_unlink]; (destruct (Z.eqb_spec lid NOTHING); [done|]);
    unfold nextf in Hu; apply fmap_Some in Hu as (o & Ho & Hn); rewrite Ho; cbn [mbind option_bind].
  - destruct (chain_cons_inv _ _ _ _ _ Hch') as (-> & _). rewrite <- Hn, Z.eqb_refl.
    unfold nextf in Hc. apply fmap_Some in Hc as (w & -> & ->). done.
  - destruct (Z.eqb_spec (lk_next L o) c) as [E|_].
    + exfalso. assert (u = c) as -> by congruence.
      change (chain NOTHING (nextf d) c (pre ++ p :: c :: post)) in Hch'.
      pose proof (chain_NoDup _ _ _ _ Hch') as Hnd.
      assert (HcN : c <> NOTHING) by (intros ->; by apply chain_inv_stop in Hch'; destruct pre).
      destruct (chain_inv _ _ _ _ Hch' HcN) as (t' & l' & El & _).
      apply NoDup_app in Hnd as (_ & Hnd & Hnd'). apply NoDup_cons in Hnd' as [Hpc _].
      destruct pre as [|b pre]; simpl in El; injection El as Eb El.
      * apply Hpc. rewrite Eb. set_solver.
      * apply (Hnd b); [set_solver|]. rewrite Eb. set_solver.
    + rewrite <- Hn. apply IH; [done|]. simpl in Hf. lia.
Qed.

Lemma LL_REMOVE_spec d p l c :
  lists_ok d -> members d p = Some l -> c ∈ l ->
  exists d', LL_REMOVE d p c = Some d' /\ links_only d d' /\
    members d' p = Some (without c l) /\
    (forall q, q <> p -> members d' q = members d q) /\
    nextf d' c = Some NOTHING /\
    (forall y, y ∉ l -> nextf d' y = nextf d y).
Proof.
  intros (HN & Htot & Hdisj) Hl Hc. destruct (members_inv _ _ _ Hl) as (h & Hh & Hch).
  pose proof (members_NoDup _ _ _ Hl) as Hnd.
  assert (Hlen := members_length _ _ _ Hl).
  apply list_elem_of_split in Hc as (l1 & l2 & ->). rewrite without_split by done.
  apply NoDup_app in Hnd as Hnd'. destruct Hnd' as (_ & Hn1 & Hn2). apply NoDup_cons in Hn2 as [Hn2 _].
  apply chain_split in Hch as Hc2. destruct (chain_cons_inv _ _ _ _ _ Hc2) as (_ & HcN & t & Ht & Hrest).
  pose proof Hh as Hh'. unfold headf in Hh'. apply fmap_Some in Hh' as (o & Ho & Eh).
  pose proof Ht as Ht'. unfold nextf in Ht'. apply fmap_Some in Ht' as (w & Hw & Et).
  unfold LL_REMOVE. rewrite Ho. cbn [mbind option_bind]. rewrite <- Eh.
  assert (Hstep : exists d1, (if h =? c then w ← objects d !! c; update p (lk_set_head L (lk_next L w)) d
                              else ll_unlink (ll_fuel d) d h c) = Some d1 /\ links_only d d1 /\
    (exists h1, headf d1 p = Some h1 /\ forall nx', nx' c = Some NOTHING ->
       (forall y, y <> c -> nx' y = nextf d1 y) -> chain NOTHING nx' h1 (l1 ++ l2)) /\
    (forall y, y ∉ l1 ++ c :: l2 -> nextf d1 y = nextf d y) /\
    (forall y, y <> p -> headf d1 y = headf d y)).
  { destruct (app_case l1) as [->|(l0 & z & ->)].
    - destruct (chain_cons_inv _ _ _ _ _ Hch) as (<- & _). rewrite Z.eqb_refl, Hw. cbn [mbind option_bind].
      destruct (update_is_Some p (lk_set_head L (lk_next L w)) d) as [d1 Hd1]; [by eexists|].
      destruct (headf_update_head _ _ _ _ Hd1) as (E1 & E2 & E3).
      exists d1. split; [done|]. split; [by eapply links_only_head|]. split; [|split; [done|done]].
      exists t. split; [by rewrite E1, Et|]. intros nx' _ Hnx. simpl. eapply chain_ext; [|done].
      intros y Hy. rewrite Hnx, E3; [done|]. intros ->. done.
    - destruct (Z.eqb_spec h c) as [->|_].
      { exfalso. destruct (chain_inv _ _ _ _ Hch HcN) as (t' & l' & El & _).
        apply (Hn1 c); [|set_solver]. destruct l0 as [|b l0]; simpl in El; injection El as -> _; set_solver. }
      rewrite <- app_assoc in Hch. simpl in Hch. rewrite length_app in Hlen. simpl in Hlen.
      rewrite length_app in Hlen.
      rewrite (ll_unlink_spec _ _ _ _ _ _ _ _ Hch Ht) by lia.
      destruct (update_is_Some z (lk_set_next L t) d) as [d1 Hd1].
      { apply (members_defined d p (l0 ++ z :: c :: l2)); [by apply (members_chain _ _ h)|set_solver]. }
      destruct (nextf_update_next _ _ _ _ Hd1) as (E1 & E2 & E3).
      exists d1. split; [done|]. split; [by eapply links_only_next|].
      assert (Hzc : z <> c) by (intros ->; apply (Hn1 c); set_solver).
      assert (Hz : z ∉ l0 ++ l2).
      { apply chain_NoDup in Hch as Hd. apply NoDup_app in Hd as (_ & Hd1' & Hd2').
        apply NoDup_cons in Hd2' as [Hd2' _]. rewrite elem_of_app. intros [Hz|Hz].
        - apply (Hd1' z); set_solver.
        - set_solver. }
      split; [|split; [|intros; apply E3]].
      + exists h. split; [by rewrite E3|]. intros nx' Hc' Hnx. rewrite <- app_assoc. simpl.
        eapply (chain_cut _ _ _ _ _ _ _ _ t Hch Ht).
        * by rewrite Hnx, E1.
        * intros x Hx. assert (x <> c) by (intros ->; set_solver).
          assert (x <> z) by (intros ->; done). by rewrite Hnx, E2.
      + intros y Hy. apply E2. intros ->. set_solver. }
  destruct Hstep as (d1 & -> & Hlo & (h1 & Hh1 & Hchain) & Hnext & Hhead). cbn [mbind option_bind].
  destruct (update_is_Some c (lk_set_next L NOTHING) d1) as [d2 Hd2].
  { apply (links_only_dom d d1); [done|]. by eexists. }
  destruct (nextf_update_next _ _ _ _ Hd2) as (E1 & E2 & E3).
  exists d2. split; [done|]. split; [by eapply links_only_trans, links_only_next|].
  assert (Hnext2 : forall y, y ∉ l1 ++ c :: l2 -> nextf d2 y = nextf d y).
  { intros y Hy. rewrite E2 by set_solver. by apply Hnext. }
  split; [|split; [|split; [done|done]]].
  - apply (members_chain _ _ h1); [by rewrite E3|]. apply Hchain; [done|].
    intros y Hy. by apply E2.
  - intros q Hq. destruct (members d q) as [lq|] eqn:Elq.
    + eapply members_ext; [done|by rewrite E3, Hhead|]. intros x Hx. apply Hnext2.
      intros Hx'. apply Hq. by eapply (Hdisj q p).
    + unfold members. rewrite E3, Hhead by done.
      destruct (headf d q) as [hq|] eqn:Ehq; [|done]. exfalso.
      unfold headf in Ehq. apply fmap_Some in Ehq as (oq & Hoq & _).
      destruct (Htot q) as [lq Hlq]; [by eexists|]. congruence.
Qed.

Lemma ll_last_spec fuel d h l p :
  chain NOTHING (nextf d) h (l ++ [p]) -> (length l < fuel)%nat -> ll_last fuel d h = Some p.
Proof.
  revert h fuel. induction l as [|y l IH]; intros h [|fuel] Hc Hf; simpl in *; try lia;
    destruct (chain_cons_inv _ _ _ _ _ Hc) as (<- & Hs & t & Ht & Hc');
    unfold nextf in Ht; apply fmap_Some in Ht as (o & -> & ->); cbn [mbind option_bind].
  - apply chain_nil_inv in Hc'. by rewrite Hc'.
  - destruct (Z.eqb_spec (lk_next L o) NOTHING) as [E|_].
    + rewrite E in Hc'. apply chain_inv_stop in Hc'. by destruct l.
    + apply IH; [done|lia].
Qed.

Lemma LL_APPEND_spec d q l c :
  lists_ok d -> members d q = Some l -> is_Some (objects d !! c) ->
  (forall p lp, members d p = Some lp -> c ∉ lp) ->
  exists d', LL_APPEND d q c = Some d' /\ links_only d d' /\
    members d' q = Some (l ++ [c]) /\
    (forall p, p <> q -> members d' p = members d p).
Proof.
  intros (HN & Htot & Hdisj) Hl Hc Hfree. destruct (members_inv _ _ _ Hl) as (h & Hh & Hch).
  assert (HcN : c <> NOTHING) by (intros ->; rewrite HN in Hc; by destruct Hc).
  assert (Hlen := members_length _ _ _ Hl).
  assert (Hcl : c ∉ l) by by eapply Hfree.
  pose proof Hh as Hh'. unfold headf in Hh'. apply fmap_Some in Hh' as (o & Ho & Eh).
  unfold LL_APPEND. rewrite Ho. cbn [mbind option_bind]. rewrite <- Eh.
  assert (Hstep : exists d1, (if h =? NOTHING then update q (lk_set_head L c) d
       else lid ← ll_last (ll_fuel d) d h; update lid (lk_set_next L c) d) = Some d1 /\
    links_only d d1 /\
    (exists h1, headf d1 q = Some h1 /\ forall nx', nx' c = Some NOTHING ->
       (forall y, y <> c -> nx' y = nextf d1 y) -> chain NOTHING nx' h1 (l ++ [c])) /\
    (forall y, y ∉ l -> nextf d1 y = nextf d y) /\
    (forall y, y <> q -> headf d1 y = headf d y)).
  { destruct (app_case l) as [->|(l0 & z & ->)].
    - apply chain_nil_inv in Hch as ->. rewrite Z.eqb_refl.
      destruct (update_is_Some q (lk_set_head L c) d) as [d1 Hd1]; [by eexists|].
      destruct (headf_update_head _ _ _ _ Hd1) as (E1 & E2 & E3).
      exists d1. split; [done|]. split; [by eapply links_only_head|]. split; [|split; [done|done]].
      exists c. split; [done|]. intros nx' Hn _. econstructor; [done|done|constructor].
    - destruct (Z.eqb_spec h NOTHING) as [->|_]; [apply chain_inv_stop in Hch; by destruct l0|].
      rewrite length_app in Hlen. rewrite (ll_last_spec _ _ _ _ _ Hch) by lia. cbn [mbind option_bind].
      destruct (update_is_Some z (lk_set_next L c) d) as [d1 Hd1].
      { eapply (members_defined d q); [done|set_solver]. }
      destruct (nextf_update_next _ _ _ _ Hd1) as (E1 & E2 & E3).
      exists d1. split; [done|]. split; [by eapply links_only_next|].
      split; [|split; [intros; apply E2; set_solver|intros; apply E3]].
      exists h. split; [by rewrite E3|]. intros nx' Hn Hnx. rewrite <- app_assoc. simpl.
      apply chain_NoDup in Hch as Hnd. apply NoDup_app in Hnd as (_ & Hnd & _).
      eapply chain_append; [done|done| |done|].
      + rewrite Hnx by set_solver. done.
      + intros x Hx. assert (x <> z) by (intros ->; apply (Hnd z); set_solver).
        rewrite Hnx, E2; [done|done|set_solver]. }
  destruct Hstep as (d1 & -> & Hlo & (h1 & Hh1 & Hchain) & Hnext & Hhead). cbn [mbind option_bind].
  destruct (update_is_Some c (lk_set_next L NOTHING) d1) as [d2 Hd2].
  { by apply (links_only_dom d d1). }
  destruct (nextf_update_next _ _ _ _ Hd2) as (E1 & E2 & E3).
  exists d2. split; [done|]. split; [by eapply links_only_trans, links_only_next|]. split.
  - apply (members_chain _ _ h1); [by rewrite E3|]. by apply Hchain.
  - intros p Hp. destruct (members d p) as [lp|] eqn:Elp.
    + eapply members_ext; [done|by rewrite E3, Hhead|]. intros x Hx.
      assert (x <> c) by (intros ->; by eapply Hfree). rewrite E2, Hnext; [done| |done].
      intros Hx'. apply Hp. by eapply (Hdisj p q).
    + unfold members. rewrite E3, Hhead by done.
      destruct (headf d p) as [hp|] eqn:Ehp; [|done]. exfalso.
      unfold headf in Ehp. apply fmap_Some in Ehp as (op & Hop & _).
      destruct (Htot p) as [lp Hlp]; [by eexists|]. congruence.
Qed.

(** *** Moving an object from one list to another *)

(** Take [c] out of the list of [old] when [rem], then add it to that of [new]
    when [app]; the upward field follows. *)
Definition ll_move (d : db) (rem app : bool) (old new c : Z) : option db :=
  d ← (if rem then LL_REMOVE d old c else Some d);
  d ← (if app then LL_APPEND d new c else Some d);
  update c (lk_set_up L new) d.

Lemma links_only_field {A} (g : Object -> A) d d' x : links_only d d' ->
  (forall z o, g (lk_set_head L z o) = g o) -> (forall z o, g (lk_set_next L z o) = g o) ->
  g <$> objects d' !! x = g <$> objects d !! x.
Proof. intros [_ H] ? ?. by apply H. Qed.

(** A relation between the lists of two databases that keeps [lists_ok]. *)
Lemma lists_ok_change d d' :
  lists_ok d -> (forall x, is_Some (objects d' !! x) <-> is_Some (objects d !! x)) ->
  (forall p, is_Some (members d p) -> is_Some (members d' p)) ->
  (forall p q lp lq x, members d' p = Some lp -> members d' q = Some lq ->
     x ∈ lp -> x ∈ lq -> p = q) -> lists_ok d'.
Proof.
  intros (HN & Ht & _) Hdom Hm Hd. split; [|split; [|done]].
  - apply eq_None_not_Some. rewrite Hdom, HN. by intros [? ?].
  - intros p Hp. apply Hm, Ht. by apply Hdom.
Qed.

Lemma links_members d p : links_ok d -> is_Some (objects d !! p) -> exists l, members d p = Some l.
Proof. intros [(_ & Ht & _) _] Hp. by apply Ht. Qed.

(** Taking [c] out of its list, when it is in one. *)
Lemma remove_step d c old : links_ok d -> upf d c = Some old ->
  exists d1, (if bool_decide (is_Some (objects d !! old)) then LL_REMOVE d old c else Some d) = Some d1 /\
    links_only d d1 /\ lists_ok d1 /\
    (forall p, members d1 p = without c <$> members d p).
Proof.
  intros Hok Hc. pose proof Hok as (Hl & Hup & Hval). destruct (bool_decide_reflect (is_Some (objects d !! old))) as [Ho|Hno].
  - destruct (links_members d old Hok Ho) as [l Hm].
    destruct (LL_REMOVE_spec d old l c Hl Hm) as (d1 & E & Hlo & Hm1 & Hm2 & _).
    { by eapply Hup. }
    assert (Hall : forall p, members d1 p = without c <$> members d p).
    { intros p. destruct (decide (p = old)) as [->|Hp]; [by rewrite Hm1, Hm|].
      rewrite Hm2 by done. destruct (members d p) as [lp|] eqn:Ep; [|done]. simpl.
      rewrite without_notin; [done|]. intros Hin. apply (Hup _ _ Ep) in Hin. congruence. }
    exists d1. split; [done|]. split; [done|]. split; [|done].
    apply (lists_ok_change d); [done|by intros; apply links_only_dom| |].
    + intros p [lp Hp]. rewrite Hall, Hp. by eexists.
    + intros p q lp lq x. rewrite !Hall. intros Hp Hq Hx1 Hx2.
      apply fmap_Some in Hp as (lp' & Ep & ->). apply fmap_Some in Hq as (lq' & Eq & ->).
      destruct Hl as (_ & _ & Hd). apply list_elem_of_filter in Hx1 as [_ ?].
      apply list_elem_of_filter in Hx2 as [_ ?]. by eapply (Hd p q).
  - exists d. split; [done|]. split; [split; [by exists (objects d); destruct d|done]|]. split; [done|].
    intros p. destruct (members d p) as [lp|] eqn:Ep; [|done]. simpl.
    rewrite without_notin; [done|]. intros Hin. apply (Hup _ _ Ep) in Hin. simplify_eq.
    apply Hno, members_is_Some. by eexists.
Qed.

(** Adding [c], which is in no list, to one. *)
Lemma append_step d c new : lists_ok d -> is_Some (objects d !! c) ->
  (forall p l, members d p = Some l -> c ∉ l) ->
  exists d1, (if bool_decide (is_Some (objects d !! new)) then LL_APPEND d new c else Some d) = Some d1 /\
    links_only d d1 /\ lists_ok d1 /\
    (forall p, members d1 p = (fun l => l ++ (if decide (p = new) then [c] else [])) <$> members d p).
Proof.
  intros Hl Hc Hfree. destruct (bool_decide_reflect (is_Some (objects d !! new))) as [Ho|Hno].
  - destruct Hl as (HN & Ht & Hd). destruct (Ht new Ho) as [l Hm].
    destruct (LL_APPEND_spec d new l c ltac:(done) Hm Hc Hfree) as (d1 & E & Hlo & Hm1 & Hm2).
    assert (Hall : forall p, members d1 p = (fun l => l ++ (if decide (p = new) then [c] else [])) <$> members d p).
    { intros p. destruct (decide (p = new)) as [->|Hp]; [by rewrite Hm1, Hm|].
      rewrite Hm2 by done. destruct (members d p); [|done]. simpl. by rewrite app_nil_r. }
    exists d1. split; [done|]. split; [done|]. split; [|done].
    apply (lists_ok_change d); [done|by intros; apply links_only_dom| |].
    + intros p [lp Hp]. rewrite Hall, Hp. by eexists.
    + intros p q lp lq x. rewrite !Hall. intros Hp Hq Hx1 Hx2.
      apply fmap_Some in Hp as (lp' & Ep & ->). apply fmap_Some in Hq as (lq' & Eq & ->).
      pose proof (Hd p q _ _ x Ep Eq). pose proof (Hfree _ _ Ep). pose proof (Hfree _ _ Eq).
      repeat case_decide; set_solver.
  - exists d. split; [done|]. split; [split; [by exists (objects d); destruct d|done]|]. split; [done|].
    intros p. destruct (members d p) as [lp|] eqn:Ep; [|done]. simpl. case_decide; [|by rewrite app_nil_r].
    subst. destruct Hno. apply members_is_Some. by eexists.
Qed.

(** What moving [c] to [new] does: every list loses [c], that of [new] gains it
    at the end, [c] points up to [new], and nothing else changes. *)
Definition moved (d d' : db) (c new : Z) : Prop :=
  (forall p, members d' p =
     (fun l => without c l ++ (if decide (p = new) then [c] else [])) <$> members d p) /\
  (forall x, upf d' x = if decide (x = c) then Some new else upf d x) /\
  (exists m, d' = with_objects (fun _ => m) d) /\
  (forall (A : Type) (g : Object -> A), (forall z o, g (lk_set_head L z o) = g o) ->
     (forall z o, g (lk_set_next L z o) = g o) -> (forall z o, g (lk_set_up L z o) = g o) ->
     forall x, g <$> objects d' !! x = g <$> objects d !! x).

Lemma moved_dom d d' c new x : moved d d' c new -> is_Some (objects d' !! x) <-> is_Some (objects d !! x).
Proof.
  intros (_ & _ & _ & H). specialize (H unit (fun _ => tt) ltac:(done) ltac:(done) ltac:(done) x).
  destruct (objects d !! x), (objects d' !! x); simpl in H; done.
Qed.

Lemma ll_move_spec d c old new : links_ok d -> upf d c = Some old ->
  (new = NOTHING \/ is_Some (objects d !! new)) ->
  exists d', ll_move d (bool_decide (is_Some (objects d !! old)))
                      (bool_decide (is_Some (objects d !! new))) old new c = Some d' /\
             moved d d' c new /\ links_ok d'.
Proof.
  intros Hok Hc Hnew. pose proof Hok as (Hl & Hup & Hval).
  assert (Hco : is_Some (objects d !! c)).
  { unfold upf in Hc. apply fmap_Some in Hc as (o & -> & _). eauto. }
  destruct (remove_step d c old Hok Hc) as (d1 & E1 & Hlo1 & Hl1 & Hm1).
  destruct (append_step d1 c new Hl1) as (d2 & E2 & Hlo2 & Hl2 & Hm2).
  { by apply (links_only_dom d d1). }
  { intros p l. rewrite Hm1. intros H. apply fmap_Some in H as (l' & _ & ->).
    unfold without. rewrite list_elem_of_filter. tauto. }
  destruct (update_is_Some c (lk_set_up L new) d2) as [d3 E3].
  { rewrite (links_only_dom d1 d2), (links_only_dom d d1) by done. done. }
  assert (Hlo : links_only d d2) by by eapply links_only_trans.
  assert (Hmoved : moved d d3 c new).
  { split; [|split; [|split]].
    - intros p. transitivity (members d2 p).
      + destruct (members d2 p) as [l|] eqn:El.
        * eapply members_ext; [done| |].
          -- unfold headf. eapply update_field; [done|]. intros. apply head_up.
          -- intros x _. unfold nextf. eapply update_field; [done|]. intros. apply next_up.
        * unfold members. unfold headf. rewrite (update_field (lk_head L) d2 d3 c _ p E3)
            by (intros; apply head_up). fold (headf d2 p).
          destruct (headf d2 p) as [h|] eqn:Eh; [|done]. exfalso.
          unfold headf in Eh. apply fmap_Some in Eh as (op & Hop & _).
          destruct Hl2 as (_ & Ht2 & _). destruct (Ht2 p) as [lp Hlp]; [by eexists|]. congruence.
      + rewrite Hm2, Hm1. by destruct (members d p).
    - intros x. unfold upf. case_decide as Hx.
      + subst. eapply update_eq; [done|]. intros. apply up_up.
      + rewrite (update_ne (lk_up L) d2 d3 c _ x E3) by congruence.
        eapply links_only_field; [done|intros; apply up_head|intros; apply up_next].
    - apply update_objects in E3 as (o & _ & _ & ->). destruct Hlo as [[m ->] _]. by eexists.
    - intros A g Hg1 Hg2 Hg3 x. rewrite (update_field g d2 d3 c _ x E3) by done.
      by eapply links_only_field. }
  exists d3. split; [|split; [done|]].
  - unfold ll_move. rewrite E1. cbn [mbind option_bind].
    rewrite (bool_decide_ext _ (is_Some (objects d1 !! new))) by (symmetry; by apply links_only_dom).
    rewrite E2. done.
  - pose proof Hmoved as (M1 & M2 & _). split; [|split].
    + apply (lists_ok_change d); [done|by intros; eapply moved_dom| |].
      * intros p [l Hp]. rewrite M1, Hp. by eexists.
      * intros p q lp lq x. rewrite !M1. intros Hp Hq Hx1 Hx2.
        apply fmap_Some in Hp as (lp' & Ep & ->). apply fmap_Some in Hq as (lq' & Eq & ->).
        destruct Hl as (_ & _ & Hd). pose proof (Hd p q _ _ x Ep Eq) as Hd'.
        unfold without in *. rewrite elem_of_app, list_elem_of_filter in Hx1, Hx2.
        repeat case_decide; set_solver.
    + intros p l. rewrite M1. intros H. apply fmap_Some in H as (l' & Ep & ->). intros x.
      unfold without. rewrite elem_of_app, list_elem_of_filter, M2, (Hup _ _ Ep).
      repeat case_decide; set_solver.
    + intros x p. rewrite M2. intros Hx Hp. eapply moved_dom; [done|].
      case_decide; simplify_eq; [|by eapply Hval]. by destruct Hnew.
Qed.
End LL.
