(* ===== verification/Hierarchy.v ===== *)
(** * The object hierarchy (the tree of parents and children)

    The loops over the children of an object, the chain of ancestors, and the
    recursion that db_properties.c uses to update the property values of an
    object and all its descendants ([descend]), with the one lemma from which
    the effect of each such function follows. *)

From S2P Require Import Prelude Utf CString Values Db Links.

(** ** Definitions *)

(** [for (c = ...; c != NOTHING; c = dbpriv_find_object(c)->sibling)]. *)
Fixpoint child_loop (fuel : nat) (body : db -> Z -> option db) (d : db) (c : Z) : option db :=
  match fuel with
  | O => None
  | S f => if c =? NOTHING then Some d
           else d ← body d c; o ← dbpriv_find_object d c; child_loop f body d (o_sibling o)
  end.

(** The same loop, left with 1 as soon as a test succeeds. *)
Fixpoint child_exists (fuel : nat) (test : Z -> option bool) (d : db) (c : Z) : option bool :=
  match fuel with
  | O => None
  | S f => if c =? NOTHING then Some false
           else b ← test c;
                if b : bool then Some true
                else o ← dbpriv_find_object d c; child_exists f test d (o_sibling o)
  end.

(** ** Specification *)

(** An object, its parent, and so on. *)
Definition ancestors (d : db) (x : Z) : option (list Z) :=
  walk NOTHING (upf children_links d) (ll_fuel d) x.

Definition tree_ok (d : db) : Prop :=
  table_ok d /\ links_ok children_links d /\
  (forall x, is_Some (objects d !! x) -> is_Some (ancestors d x)).

Definition below (d : db) (r y : Z) : Prop := exists l, ancestors d y = Some l /\ r ∈ l.

#[export] Instance below_dec d r y : Decision (below d r y).
Proof.
  destruct (ancestors d y) as [l|] eqn:E; [destruct (decide (r ∈ l))|].
  - left. by exists l.
  - right. intros (l' & E' & H). congruence.
  - right. intros (l' & E' & H). congruence.
Defined.

(** Whether [tree_ok] holds, by computation. *)
Definition table_check (d : db) : bool :=
  (0 <=? num_objects d) && (num_objects d <=? max_objects d) && (max_objects d <=? INT32_MAX) &&
  forallb (fun '(x, o) => (0 <=? x) && (x <? num_objects d) && (o_id o =? x)) (map_to_list (objects d)).
Definition tree_check (d : db) : bool :=
  table_check d && links_check children_links d &&
  forallb (fun '(x, _) => bool_decide (is_Some (ancestors d x))) (map_to_list (objects d)).

(** Two databases that differ in property values only. *)
Definition same_but_propval (d d' : db) : Prop :=
  (exists m, d' = with_objects (fun _ => m) d) /\
  (forall x, set_propval [] <$> objects d' !! x = set_propval [] <$> objects d !! x).

Definition propval (d : db) (x : Z) : option (list Pval) := o_propval <$> objects d !! x.

(** ** Ancestors *)

Lemma ancestors_chain d x l :
  ancestors d x = Some l <-> chain NOTHING (upf children_links d) x l.
Proof.
  unfold ancestors. split; [apply walk_chain|]. intros Hc. apply chain_walk; [done|].
  unfold ll_fuel. rewrite <- size_dom. apply Nat.lt_succ_r.
  eapply (chain_length _ _ _ _ (dom (objects d))); [done|].
  intros y [z Hz]. unfold upf in Hz. apply fmap_Some in Hz as (o & Ho & _). by apply elem_of_dom_2 in Ho.
Qed.

Lemma ancestors_length d x l : ancestors d x = Some l -> (length l < ll_fuel d)%nat.
Proof.
  intros Hc%ancestors_chain. unfold ll_fuel. rewrite <- size_dom. apply Nat.lt_succ_r.
  eapply (chain_length _ _ _ _ (dom (objects d))); [done|].
  intros y [z Hz]. unfold upf in Hz. apply fmap_Some in Hz as (o & Ho & _). by apply elem_of_dom_2 in Ho.
Qed.

Lemma ancestors_NoDup d x l : ancestors d x = Some l -> NoDup l.
Proof. intros H%ancestors_chain. by eapply chain_NoDup. Qed.

Lemma ancestors_NOTHING d : ancestors d NOTHING = Some [].
Proof. apply ancestors_chain. constructor. Qed.

Lemma ancestors_valid d x l y : ancestors d x = Some l -> y ∈ l -> is_Some (objects d !! y).
Proof.
  intros H%ancestors_chain Hy. destruct (chain_elem_defined _ _ _ _ _ H Hy) as [z Hz].
  unfold upf in Hz. apply fmap_Some in Hz as (o & -> & _). eauto.
Qed.

Lemma ancestors_parent d x o :
  objects d !! x = Some o -> x <> NOTHING ->
  ancestors d x = (fun l => x :: l) <$> ancestors d (o_parent o).
Proof.
  intros Ho Hx. assert (Hu : upf children_links d x = Some (o_parent o)) by (unfold upf; by rewrite Ho).
  destruct (ancestors d (o_parent o)) as [l|] eqn:E.
  - apply ancestors_chain. econstructor; [done|done|]. by apply ancestors_chain.
  - destruct (ancestors d x) as [l|] eqn:E'; [|done]. apply ancestors_chain in E'.
    destruct (chain_inv _ _ _ _ E' Hx) as (t & l' & -> & Ht & Hc).
    apply ancestors_chain in Hc. simplify_eq.
Qed.

Lemma ancestors_suffix d x l1 y l2 :
  ancestors d x = Some (l1 ++ y :: l2) -> ancestors d y = Some (y :: l2).
Proof. rewrite !ancestors_chain. apply chain_split. Qed.

Lemma ancestors_head d x l : ancestors d x = Some l -> x <> NOTHING -> exists l', l = x :: l'.
Proof. intros H%ancestors_chain Hx. destruct (chain_inv _ _ _ _ H Hx) as (t & l' & -> & _). eauto. Qed.

Lemma below_split d r y :
  below d r y <-> exists l1 l2, ancestors d y = Some (l1 ++ r :: l2) /\ ancestors d r = Some (r :: l2).
Proof.
  split.
  - intros (l & El & Hr). apply list_elem_of_split in Hr as (l1 & l2 & ->).
    exists l1, l2. split; [done|]. by eapply ancestors_suffix.
  - intros (l1 & l2 & E & _). exists (l1 ++ r :: l2). split; [done|]. set_solver.
Qed.

Section Tree.
Context (d : db) (Hok : tree_ok d).

Lemma tree_NOTHING : objects d !! NOTHING = None.
Proof. destruct Hok as (H & _). by apply NOTHING_invalid. Qed.

Lemma tree_ne x : is_Some (objects d !! x) -> x <> NOTHING.
Proof. intros [o Ho] ->. by rewrite tree_NOTHING in Ho. Qed.

Lemma tree_ancestors x : is_Some (objects d !! x) -> exists l, ancestors d x = Some (x :: l).
Proof.
  intros Hx. destruct Hok as (_ & _ & H). destruct (H x Hx) as [l Hl].
  destruct (ancestors_head _ _ _ Hl (tree_ne _ Hx)) as [l' ->]. eauto.
Qed.

Lemma below_refl x : is_Some (objects d !! x) -> below d x x.
Proof. intros Hx. destruct (tree_ancestors x Hx) as [l Hl]. exists (x :: l). split; [done|set_solver]. Qed.

Lemma below_valid r y : below d r y -> is_Some (objects d !! y) /\ is_Some (objects d !! r).
Proof.
  intros (l & El & Hr). split; [|by eapply ancestors_valid].
  destruct (decide (y = NOTHING)) as [->|Hy].
  - rewrite ancestors_NOTHING in El. set_solver.
  - destruct (ancestors_head _ _ _ El Hy) as [l' ->]. eapply ancestors_valid; [done|set_solver].
Qed.

Lemma below_trans r x y : below d r x -> below d x y -> below d r y.
Proof.
  intros (l & El & Hr) (l1 & l2 & Ey & Ex)%below_split. exists (l1 ++ x :: l2). split; [done|].
  simplify_eq. set_solver.
Qed.

Lemma below_antisym x y : below d x y -> below d y x -> x = y.
Proof.
  intros (l1 & l2 & Ey & Ex)%below_split (l3 & l4 & Ex' & Ey')%below_split.
  rewrite Ey in Ey'. rewrite Ex in Ex'. injection Ey' as E1. injection Ex' as E2.
  pose proof (f_equal length E1) as L1. pose proof (f_equal length E2) as L2.
  rewrite !length_app in *. cbn [length] in *. destruct l1; [by injection E1|cbn [length] in *; lia].
Qed.

Lemma child_ancestors c o p l : objects d !! c = Some o -> o_parent o = p ->
  ancestors d p = Some l -> ancestors d c = Some (c :: l).
Proof.
  intros Ho <- Hl. rewrite (ancestors_parent d c o Ho) by (apply tree_ne; by eexists). by rewrite Hl.
Qed.

Lemma child_below c o : objects d !! c = Some o -> is_Some (objects d !! o_parent o) -> below d (o_parent o) c.
Proof.
  intros Ho Hp. destruct (tree_ancestors _ Hp) as [l Hl].
  exists (c :: o_parent o :: l). split; [by eapply child_ancestors|set_solver].
Qed.

Lemma child_not_above c o : objects d !! c = Some o -> is_Some (objects d !! o_parent o) ->
  ~ below d c (o_parent o).
Proof.
  intros Ho Hp Hb. destruct (tree_ancestors _ Hp) as [l Hl].
  pose proof (child_ancestors c o _ _ Ho eq_refl Hl) as Hc. apply ancestors_NoDup in Hc.
  destruct Hb as (l' & El' & Hin). simplify_eq. apply NoDup_cons in Hc as [Hc _]. done.
Qed.

(** The descendants of [x] are [x] and those of its children, in disjoint sets. *)
Lemma below_children x y : below d x y ->
  y = x \/ exists c o, objects d !! c = Some o /\ o_parent o = x /\ below d c y.
Proof.
  intros Hb. pose proof Hb as (l1 & l2 & Ey & Ex)%below_split.
  destruct (below_valid _ _ Hb) as [Hy Hx].
  destruct (app_case l1) as [->|(l0 & c & ->)].
  - left. destruct (tree_ancestors y Hy) as [l Hl]. simplify_list_eq. congruence.
  - right. rewrite <- app_assoc in Ey. simpl in Ey. pose proof (ancestors_suffix _ _ _ _ _ Ey) as Ec.
    destruct (ancestors_valid _ _ _ c Ey) as [o Ho]; [set_solver|].
    exists c, o. split; [done|]. split; [|exists (l0 ++ c :: x :: l2); split; [done|set_solver]].
    apply ancestors_chain in Ec. destruct (chain_cons_inv _ _ _ _ _ Ec) as (_ & _ & t & Ht & Hc).
    destruct (chain_cons_inv _ _ _ _ _ Hc) as (-> & _). unfold upf in Ht. rewrite Ho in Ht.
    by injection Ht.
Qed.

Lemma below_disjoint x c1 o1 c2 o2 y : objects d !! c1 = Some o1 -> objects d !! c2 = Some o2 ->
  o_parent o1 = x -> o_parent o2 = x -> is_Some (objects d !! x) ->
  below d c1 y -> below d c2 y -> c1 = c2.
Proof.
  intros H1 H2 P1 P2 Hx (l1 & m1 & E1 & A1)%below_split (l2 & m2 & E2 & A2)%below_split.
  destruct (tree_ancestors _ Hx) as [l Hl].
  pose proof (child_ancestors c1 o1 x _ H1 P1 Hl). pose proof (child_ancestors c2 o2 x _ H2 P2 Hl).
  simplify_eq.
  assert (E : (l1 ++ [c1]) ++ (o_parent o2 :: l) = (l2 ++ [c2]) ++ (o_parent o2 :: l)).
  { rewrite <- !app_assoc. simpl. congruence. }
  apply app_inv_tail in E. by apply app_inj_tail in E as [_ ?].
Qed.

End Tree.

(** ** Databases that differ in property values only *)

Lemma same_refl d : same_but_propval d d.
Proof. split; [exists (objects d); by destruct d|done]. Qed.

Lemma same_trans d d' d'' : same_but_propval d d' -> same_but_propval d' d'' -> same_but_propval d d''.
Proof. intros [[m ->] H1] [[m' ->] H2]. split; [by exists m'|]. intros x. by rewrite H2, H1. Qed.

Lemma same_field {A} (g : Object -> A) d d' x : same_but_propval d d' ->
  (forall l o, g (set_propval l o) = g o) -> g <$> objects d' !! x = g <$> objects d !! x.
Proof.
  intros [_ H] Hg. specialize (H x). destruct (objects d !! x) as [o|], (objects d' !! x) as [o'|];
    simpl in *; try done.
  injection H as H. f_equal. rewrite <- (Hg [] o'), <- (Hg [] o). congruence.
Qed.

Lemma same_object d d' x o : same_but_propval d d' -> objects d !! x = Some o ->
  exists l, objects d' !! x = Some (set_propval l o).
Proof.
  intros [_ H] Ho. specialize (H x). rewrite Ho in H. simpl in H.
  destruct (objects d' !! x) as [o'|]; [|done]. simpl in H. injection H as H.
  exists (o_propval o'). f_equal.
  transitivity (set_propval (o_propval o') (set_propval [] o')); [by destruct o'|].
  rewrite H. by destruct o.
Qed.

Lemma erased_eq {A} (g : Object -> A) o o' : set_propval [] o = set_propval [] o' ->
  (forall l o, g (set_propval l o) = g o) -> g o = g o'.
Proof. intros H Hg. apply (f_equal g) in H. by rewrite !Hg in H. Qed.

Lemma same_agree {A} (g : Object -> A) d d' : same_but_propval d d' ->
  (forall l o, g (set_propval l o) = g o) -> agree g d d'.
Proof. intros H Hg x. by apply same_field. Qed.

Lemma same_dom d d' x : same_but_propval d d' -> is_Some (objects d' !! x) <-> is_Some (objects d !! x).
Proof. intros H. eapply (agree_dom (fun _ => tt)). by eapply same_agree. Qed.

Lemma same_size d d' : same_but_propval d d' -> ll_fuel d' = ll_fuel d.
Proof. intros H. eapply (agree_fuel (fun _ => tt)). by eapply same_agree. Qed.

Lemma ancestors_agree d d' x : agree o_parent d d' -> ancestors d' x = ancestors d x.
Proof.
  intros H. unfold ancestors. rewrite (agree_fuel _ d d' H). apply walk_agree. intros y. apply H.
Qed.

Lemma same_ancestors d d' x : same_but_propval d d' -> ancestors d' x = ancestors d x.
Proof. intros H. apply ancestors_agree. eapply same_agree; [done|by intros ? []]. Qed.

Lemma same_below d d' r y : same_but_propval d d' -> below d' r y <-> below d r y.
Proof. intros H. unfold below. by rewrite (same_ancestors d d' y H). Qed.

Lemma table_agree d d' : agree o_id d d' -> num_objects d' = num_objects d ->
  max_objects d' = max_objects d -> table_ok d -> table_ok d'.
Proof.
  intros H En Em (H1 & H2 & H3). unfold table_ok. rewrite En, Em. split; [done|]. split; [done|].
  intros x o Ho. specialize (H x). rewrite Ho in H.
  destruct (objects d !! x) as [o'|] eqn:Ex; [|done]. simpl in H. injection H as ->. by apply H3.
Qed.

(** The hierarchy depends on four fields. *)
Lemma tree_agree d d' : agree o_id d d' -> agree o_parent d d' -> agree o_child d d' ->
  agree o_sibling d d' -> num_objects d' = num_objects d -> max_objects d' = max_objects d ->
  tree_ok d -> tree_ok d'.
Proof.
  intros Hi Hp Hc Hs En Em (H1 & H2 & H3). split; [by eapply table_agree|]. split.
  - by apply (links_agree children_links d).
  - intros x Hx. rewrite (ancestors_agree d d') by done. by apply H3, (agree_dom _ d d' x Hp).
Qed.

Lemma same_table d d' : same_but_propval d d' -> table_ok d -> table_ok d'.
Proof.
  intros H. pose proof H as [[m ->] _]. apply table_agree; [|done..].
  eapply same_agree; [done|by intros ? []].
Qed.

Lemma same_tree d d' : same_but_propval d d' -> tree_ok d -> tree_ok d'.
Proof.
  intros H. pose proof H as [[m ->] _]. apply tree_agree; [..|done|done];
    (eapply same_agree; [done|by intros ? []]).
Qed.

Lemma update_same d x l : is_Some (objects d !! x) ->
  exists d', update x (set_propval l) d = Some d' /\ same_but_propval d d' /\
    propval d' x = Some l /\ (forall y, y <> x -> propval d' y = propval d y).
Proof.
  intros Hx. destruct (update_is_Some x (set_propval l) d Hx) as [d' E].
  pose proof E as (o & Ho & Eo & Ed)%update_objects.
  exists d'. split; [done|]. split; [|split].
  - split; [by rewrite Ed; eexists|]. intros y. eapply update_field; [done|]. by intros [].
  - unfold propval. rewrite Eo, lookup_insert_eq. simpl. by destruct o.
  - intros y Hy. unfold propval. by rewrite Eo, lookup_insert_ne by congruence.
Qed.

(** ** Loops over the children *)

Lemma child_loop_rule d0 (P : list Z -> db -> Prop) body fuel c cs d :
  table_ok d0 -> chain NOTHING (nextf children_links d0) c cs -> (length cs < fuel)%nat ->
  same_but_propval d0 d -> P [] d ->
  (forall pre c post d, cs = pre ++ c :: post -> same_but_propval d0 d -> P pre d ->
     exists d', body d c = Some d' /\ same_but_propval d0 d' /\ P (pre ++ [c]) d') ->
  exists d', child_loop fuel body d c = Some d' /\ same_but_propval d0 d' /\ P cs d'.
Proof.
  intros Ht Hc Hf Hs HP Hbody.
  assert (G : forall post pre c d fuel, cs = pre ++ post -> chain NOTHING (nextf children_links d0) c post ->
    (length post < fuel)%nat -> same_but_propval d0 d -> P pre d ->
    exists d', child_loop fuel body d c = Some d' /\ same_but_propval d0 d' /\ P cs d').
  2: { by apply (G cs [] c d fuel). }
  clear c d fuel Hc Hf Hs HP.
  induction post as [|y post IH]; intros pre c d [|fuel] E Hc Hf Hs HP; simpl in Hf; try lia; simpl.
  - apply chain_nil_inv in Hc as ->. rewrite Z.eqb_refl. rewrite app_nil_r in E. subst. eauto.
  - destruct (chain_cons_inv _ _ _ _ _ Hc) as (-> & Hn & t & Ht' & Hc').
    destruct (Z.eqb_spec c NOTHING); [done|].
    destruct (Hbody pre c post d E Hs HP) as (d1 & -> & Hs1 & HP1). cbn [mbind option_bind].
    rewrite find_object_objects by by eapply same_table.
    unfold nextf in Ht'. rewrite <- (same_field _ d0 d1) in Ht' by (done || by intros ? []).
    apply fmap_Some in Ht' as (o & -> & ->). cbn [mbind option_bind].
    apply (IH (pre ++ [c])); [|done|lia|done|done]. by rewrite <- app_assoc.
Qed.

Lemma child_exists_spec d test (Q : Z -> Prop) fuel c cs :
  table_ok d -> chain NOTHING (nextf children_links d) c cs -> (length cs < fuel)%nat ->
  (forall c, c ∈ cs -> exists b, test c = Some b /\ (b = true <-> Q c)) ->
  exists b, child_exists fuel test d c = Some b /\ (b = true <-> exists c, c ∈ cs /\ Q c).
Proof.
  intros Ht Hc. revert fuel. induction Hc as [|h t l Hn Hnx Hc IH]; intros [|fuel] Hf Htest;
    simpl in Hf; try lia; simpl.
  - exists false. split; [done|]. split; [done|]. intros (c & Hc & _). set_solver.
  - destruct (Z.eqb_spec h NOTHING); [done|].
    destruct (Htest h) as (b & -> & Hb); [set_solver|]. cbn [mbind option_bind]. destruct b.
    + exists true. split; [done|]. split; [intros _; exists h; split; [set_solver|by apply Hb]|done].
    + rewrite find_object_objects by done. unfold nextf in Hnx.
      apply fmap_Some in Hnx as (o & -> & Eo). cbn [mbind option_bind].
      destruct (IH fuel ltac:(lia)) as (b & E & Hb'); [intros; apply Htest; set_solver|].
      simpl in Eo. rewrite <- Eo. exists b. split; [done|]. rewrite Hb'. split.
      * intros (c & Hin & HQ). exists c. split; [set_solver|done].
      * intros (c & [-> | Hin]%elem_of_cons & HQ); [apply Hb in HQ; done|eauto].
Qed.

(** ** Recursion over an object and its descendants

    [step] is what a recursive function does to one object; [next o s c] is the
    parameter it passes on from object [o], called with [s], to the child [c]. *)

Section Descend.
Context {T : Type} (step : db -> Z -> T -> option db) (next : Object -> T -> Object -> T).

Fixpoint descend (fuel : nat) (d : db) (x : Z) (s : T) : option db :=
  match fuel with
  | O => None
  | S f =>
      d ← step d x s;
      o ← dbpriv_find_object d x;
      child_loop (ll_fuel d)
        (fun d c => oc ← dbpriv_find_object d c; descend f d c (next o s oc)) d (o_child o)
  end.

Context (d0 : db) (Hok : tree_ok d0) (root : Z) (Hroot : is_Some (objects d0 !! root)).
Context (s_of : Z -> T) (R : Z -> list Pval).

(** The property values when the recursion is done. *)
Definition final (y : Z) : option (list Pval) :=
  if decide (below d0 root y) then Some (R y) else propval d0 y.

Context (Hnext : forall y c oy oc, below d0 root y ->
  set_propval [] <$> objects d0 !! y = Some (set_propval [] oy) ->
  set_propval [] <$> objects d0 !! c = Some (set_propval [] oc) ->
  o_parent oc = y -> next oy (s_of y) oc = s_of c).
Context (Hstep : forall d y oy, same_but_propval d0 d -> below d0 root y ->
  objects d0 !! y = Some oy -> propval d y = propval d0 y ->
  propval d (o_parent oy) = final (o_parent oy) ->
  step d y (s_of y) = update y (set_propval (R y)) d).

Lemma erased d x o : same_but_propval d0 d -> objects d !! x = Some o ->
  set_propval [] <$> objects d0 !! x = Some (set_propval [] o).
Proof. intros [_ H] Ho. by rewrite <- H, Ho. Qed.

Lemma descend_gen fuel : forall d x ox lx,
  same_but_propval d0 d -> below d0 root x -> objects d0 !! x = Some ox ->
  ancestors d0 x = Some lx -> (size (objects d0) < fuel + length lx)%nat ->
  (forall y, below d0 x y -> propval d y = propval d0 y) ->
  propval d (o_parent ox) = final (o_parent ox) ->
  exists d', descend fuel d x (s_of x) = Some d' /\ same_but_propval d0 d' /\
    (forall y, propval d' y = if decide (below d0 x y) then Some (R y) else propval d y).
Proof.
  induction fuel as [|f IH]; intros d x ox lx Hs Hb Hox Hlx Hf Horig Hpar.
  { apply ancestors_length in Hlx. unfold ll_fuel in Hlx. lia. }
  cbn [descend]. rewrite (Hstep d x ox) by (done || (apply Horig, below_refl; [done|by eexists])).
  destruct (update_same d x (R x)) as (d1 & E1 & Hs1 & Hx1 & Hy1).
  { apply (same_dom d0 d); [done|by eexists]. }
  rewrite E1. cbn [mbind option_bind].
  assert (Hs01 : same_but_propval d0 d1) by by eapply same_trans.
  destruct (same_object d0 d1 x ox Hs01 Hox) as [l1 Ho1].
  rewrite find_object_objects, Ho1 by (eapply same_table; [done|apply Hok]). cbn [mbind option_bind].
  pose proof Hok as (Htab & Hlinks & _).
  destruct (links_members children_links d0 x Hlinks ltac:(by eexists)) as [cs Hcs].
  destruct (members_inv _ _ _ _ Hcs) as (h & Hh & Hch).
  assert (Hkid : forall c, c ∈ cs <-> exists oc, objects d0 !! c = Some oc /\ o_parent oc = x).
  { intros c. destruct Hlinks as (_ & Hm & _). rewrite (Hm _ _ Hcs c). unfold upf.
    rewrite fmap_Some. split; intros (o & ? & ?); eauto. }
  destruct (child_loop_rule d0 (fun pre d2 => forall y, propval d2 y =
      if decide (Exists (fun c => below d0 c y) pre) then Some (R y) else propval d1 y)
    (fun d c => oc ← dbpriv_find_object d c; descend f d c (next (set_propval l1 ox) (s_of x) oc))
    (ll_fuel d1) h cs d1) as (d2 & E2 & Hs2 & HP2).
  - done.
  - done.
  - rewrite (same_size d0 d1) by done. by eapply members_length.
  - done.
  - intros y. rewrite decide_False; [done|]. by intros ?%Exists_nil.
  - intros pre c post d2 Ecs Hs2 HP2. destruct (Hkid c) as [Hk _].
    destruct Hk as (oc & Hoc & Hpc); [subst; set_solver|].
    destruct (same_object d0 d2 c oc Hs2 Hoc) as [l2 Ho2].
    rewrite find_object_objects, Ho2 by by eapply same_table. cbn [mbind option_bind].
    assert (Hbx : below d0 x c) by (subst; eapply child_below; [done|done|by eexists]).
    rewrite (Hnext x c _ (set_propval l2 oc));
      [|done|rewrite Hox; by destruct ox|rewrite Hoc; by destruct oc|by destruct oc].
    assert (Hnd : NoDup cs) by by eapply members_NoDup.
    assert (Hdisj : forall y c', c' ∈ pre -> below d0 c' y -> below d0 c y -> False).
    { intros y c' Hc' Hb1 Hb2. destruct (proj1 (Hkid c')) as (oc' & Hoc' & Hpc'); [subst; set_solver|].
      assert (c' = c) as -> by (eapply (below_disjoint d0 Hok x c' oc' c oc y); (done || by eexists)).
      subst cs. apply NoDup_app in Hnd as (_ & Hnd & _). apply (Hnd c); set_solver. }
    destruct (IH d2 c oc (c :: lx)) as (d3 & E3 & Hs3 & HP3); [done| |done| | | | |].
    + by eapply below_trans.
    + eapply child_ancestors; [done|done|done|by rewrite ?Hpc].
    + simpl. lia.
    + intros y Hy. rewrite HP2, decide_False by (intros (c' & ? & ?)%Exists_exists; eauto).
      assert (Hxy : y <> x).
      { intros ->. rewrite <- Hpc in Hy. eapply child_not_above in Hy; [done|done|done|].
        rewrite Hpc. by eexists. }
      rewrite Hy1 by done. apply Horig. by eapply below_trans.
    + rewrite Hpc, HP2, decide_False.
      * unfold final. by rewrite Hx1, decide_True.
      * intros (c' & Hc' & Hb')%Exists_exists. destruct (proj1 (Hkid c')) as (oc' & Hoc' & Hpc'); [subst; set_solver|].
        rewrite <- Hpc' in Hb'. eapply child_not_above in Hb'; [done|done|done|].
        rewrite Hpc'. by eexists.
    + exists d3. split; [done|]. split; [done|]. intros y. rewrite HP3, HP2.
      destruct (decide (below d0 c y)) as [Hc|Hc].
      * rewrite decide_True; [done|]. apply Exists_exists. exists c. set_solver.
      * apply decide_ext. rewrite Exists_app, Exists_cons, Exists_nil. tauto.
  - exists d2. split; [|split; [done|]].
    + unfold headf in Hh. rewrite Hox in Hh. injection Hh as Hh.
      replace (o_child (set_propval l1 ox)) with h by (by destruct ox). done.
    + intros y. rewrite HP2. destruct (decide (below d0 x y)) as [Hxy|Hxy].
      * destruct (below_children d0 Hok x y Hxy) as [->|(c & oc & Hoc & Hpc & Hcy)].
        -- rewrite Hx1. by destruct (decide _).
        -- rewrite decide_True; [done|]. apply Exists_exists. exists c. split; [apply Hkid; eauto|done].
      * rewrite decide_False.
        -- apply Hy1. intros ->. apply Hxy. apply below_refl; [done|by eexists].
        -- intros (c & Hc & Hcy)%Exists_exists. apply Hkid in Hc as (oc & Hoc & Hpc). apply Hxy.
           eapply (below_trans d0 Hok x c y); [|exact Hcy]. rewrite <- Hpc.
           apply (child_below d0 Hok c oc Hoc). rewrite Hpc. by eexists.
Qed.

Lemma descend_spec : exists d', descend (ll_fuel d0) d0 root (s_of root) = Some d' /\
  same_but_propval d0 d' /\ (forall y, propval d' y = final y).
Proof.
  destruct Hroot as [o Ho]. destruct (tree_ancestors d0 Hok root Hroot) as [l Hl].
  apply (descend_gen (ll_fuel d0) d0 root o (root :: l));
    [apply same_refl|apply (below_refl d0 Hok), Hroot|exact Ho|exact Hl| |reflexivity|].
  - unfold ll_fuel. simpl. lia.
  - unfold final. rewrite decide_False; [done|]. intros Hb.
    eapply child_not_above in Hb; [done|done|done|]. by destruct (below_valid d0 Hok _ _ Hb).
Qed.
End Descend.

(** ** Checking the invariants of a given database *)

Lemma table_check_ok d : table_check d = true -> table_ok d.
Proof.
  unfold table_check. rewrite !andb_true_iff, !Z.leb_le, forallb_forall. intros [[[? ?] ?] Hall].
  split; [done|]. split; [done|]. intros x o Ho.
  assert (Hin : In (x, o) (map_to_list (objects d))) by (by apply list_elem_of_In, elem_of_map_to_list).
  specialize (Hall _ Hin). cbn beta iota in Hall.
  rewrite !andb_true_iff, Z.leb_le, Z.ltb_lt, Z.eqb_eq in Hall. tauto.
Qed.

Lemma tree_check_ok d : tree_check d = true -> tree_ok d.
Proof.
  unfold tree_check. rewrite !andb_true_iff, forallb_forall. intros [[H1 H2] H3].
  split; [by apply table_check_ok|]. split; [by apply links_check_ok|].
  intros x [o Ho].
  assert (Hin : In (x, o) (map_to_list (objects d))) by (by apply list_elem_of_In, elem_of_map_to_list).
  specialize (H3 _ Hin). cbn beta iota in H3.
  by apply bool_decide_eq_true in H3.
Qed.
