(* ===== verification/Attributes.v ===== *)
(** * Object attributes (the second part of db_objects.c)

    Owner, name, location and contents, permission flags and the list of
    users.  The functions that read or write [objects[oid]] directly need [oid]
    to be valid: otherwise they follow a null pointer, which is [None] here. *)

From S2P Require Import Prelude Utf CString Values Streams Functions Lists Db Links Hierarchy.

(** ** Definitions *)

Definition db_object_owner (d : db) (oid : Z) : option Z := o ← objects d !! oid; Some (o_owner o).
Definition db_set_object_owner (d : db) (oid owner : Z) : option db := update oid (set_owner owner) d.
Definition db_object_name (d : db) (oid : Z) : option bytes := o ← objects d !! oid; Some (o_name o).
Definition db_set_object_name (d : db) (oid : Z) (name : bytes) : option db :=
  update oid (set_name name) d.
Definition db_object_parent (d : db) (oid : Z) : option Z := o ← objects d !! oid; Some (o_parent o).
Definition db_object_location (d : db) (oid : Z) : option Z :=
  o ← objects d !! oid; Some (o_location o).

Definition db_count_children (d : db) (oid : Z) : option Z :=
  o ← objects d !! oid; ll_count children_links (ll_fuel d) d (o_child o) 0.
Definition db_count_contents (d : db) (oid : Z) : option Z :=
  o ← objects d !! oid; ll_count contents_links (ll_fuel d) d (o_contents o) 0.

(** The callback gets its data and the object, and answers the new data and
    whether to stop. *)
Definition db_for_all_children {A} (d : db) (oid : Z) (func : A -> Z -> A * bool) (data : A)
    : option (A * bool) :=
  o ← objects d !! oid; ll_for_all children_links (ll_fuel d) d func data (o_child o).
Definition db_for_all_contents {A} (d : db) (oid : Z) (func : A -> Z -> A * bool) (data : A)
    : option (A * bool) :=
  o ← objects d !! oid; ll_for_all contents_links (ll_fuel d) d func data (o_contents o).

Definition db_change_location (d : db) (oid location : Z) : option db :=
  old_location ← db_object_location d oid;
  d ← (if valid d old_location then LL_REMOVE contents_links d old_location oid else Some d);
  d ← (if valid d location then LL_APPEND contents_links d location oid else Some d);
  update oid (set_location location) d.

(** [flags] is 16 bits wide.  [sole] says that the database holds the only
    reference to the list of users. *)
Definition db_set_object_flag (sole : bool) (d : db) (oid f : Z) : option db :=
  o ← objects d !! oid;
  d ← update oid (set_flags (uwrap 16 (Z.lor (o_flags o) (Z.shiftl 1 f)))) d;
  if f =? FLAG_USER then
    '(users, _) ← setadd sole (all_users d) (VObj oid); Some (with_users users d)
  else Some d.

Definition db_clear_object_flag (d : db) (oid f : Z) : option db :=
  o ← objects d !! oid;
  d ← update oid (set_flags (uwrap 16 (Z.land (o_flags o) (Z.lnot (Z.shiftl 1 f))))) d;
  if f =? FLAG_USER then
    users ← setremove (all_users d) (VObj oid); Some (with_users users d)
  else Some d.

Definition db_object_allows (d : db) (oid progr f : Z) : option bool :=
  owner ← db_object_owner d oid;
  if (progr =? owner) || is_wizard d progr then Some true else db_object_has_flag d oid f.

Definition db_all_users (d : db) : list Var := all_users d.
Definition dbpriv_set_all_users (d : db) (v : list Var) : db := with_users v d.

(** ** Specification *)

(** The list of users holds the objects with the user flag, each once. *)
Definition users_ok (d : db) : Prop :=
  exists us, all_users d = VObj <$> us /\ NoDup us /\ forall x, x ∈ us <-> is_user d x = true.

(** The loop runs the callback over the members in order, up to the first that
    stops it. *)
Fixpoint visit {A} (func : A -> Z -> A * bool) (data : A) (l : list Z) : A * bool :=
  match l with
  | [] => (data, false)
  | c :: l => let '(data, stop) := func data c in
              if stop : bool then (data, true) else visit func data l
  end.

(** ** Loops over linked lists *)

Section Loops.
Context (L : LinkFields) (d : db).

Lemma ll_count_chain fuel c l i : chain NOTHING (nextf L d) c l -> (length l < fuel)%nat ->
  0 <= i -> i + Z.of_nat (length l) <= INT32_MAX ->
  ll_count L fuel d c i = Some (i + Z.of_nat (length l)).
Proof.
  intros Hc. revert fuel i. induction Hc as [|h t l Hn Ht Hc IH]; intros [|fuel] i Hf Hi Hl;
    simpl in Hf; try lia; cbn [ll_count].
  - rewrite Z.eqb_refl. f_equal. simpl. lia.
  - destruct (Z.eqb_spec h NOTHING); [done|]. unfold nextf in Ht.
    apply fmap_Some in Ht as (o & -> & ->). cbn [mbind option_bind]. cbn [length] in *.
    rewrite int_id by (unfold INT32_MIN; lia). rewrite IH by lia. f_equal. lia.
Qed.

Lemma ll_for_all_chain {A} fuel (func : A -> Z -> A * bool) data c l :
  chain NOTHING (nextf L d) c l -> (length l < fuel)%nat ->
  ll_for_all L fuel d func data c = Some (visit func data l).
Proof.
  intros Hc. revert fuel data. induction Hc as [|h t l Hn Ht Hc IH]; intros [|fuel] data Hf;
    simpl in Hf; try lia; cbn [ll_for_all visit].
  - by rewrite Z.eqb_refl.
  - destruct (Z.eqb_spec h NOTHING); [done|]. destruct (func data h) as [data' []]; [done|].
    unfold nextf in Ht. apply fmap_Some in Ht as (o & -> & ->). cbn [mbind option_bind].
    apply IH. lia.
Qed.
End Loops.

Lemma count_members L d p l o : objects d !! p = Some o -> members L d p = Some l ->
  table_ok d -> ll_count L (ll_fuel d) d (lk_head L o) 0 = Some (Z.of_nat (length l)).
Proof.
  intros Ho Hl Ht. destruct (members_inv _ _ _ _ Hl) as (h & Hh & Hc).
  unfold headf in Hh. rewrite Ho in Hh. injection Hh as ->.
  rewrite (ll_count_chain L d _ _ l); [done|done|by eapply members_length|lia|].
  pose proof (members_length _ _ _ _ Hl) as Hlen. unfold ll_fuel in Hlen.
  pose proof (table_size d Ht). destruct Ht as (? & ? & _). lia.
Qed.

Lemma for_all_members {A} L d p l o (func : A -> Z -> A * bool) data :
  objects d !! p = Some o -> members L d p = Some l ->
  ll_for_all L (ll_fuel d) d func data (lk_head L o) = Some (visit func data l).
Proof.
  intros Ho Hl. destruct (members_inv _ _ _ _ Hl) as (h & Hh & Hc).
  unfold headf in Hh. rewrite Ho in Hh. injection Hh as ->.
  apply ll_for_all_chain; [done|by eapply members_length].
Qed.

(** ** The list of users *)

Lemma ismember_objs x us i : 0 <= i -> exists k, ismember_from (VObj x) (VObj <$> us) i false = Some k /\
  (x ∈ us -> exists j, us !! j = Some x /\ k = i + Z.of_nat j /\ x ∉ take j us) /\ (x ∉ us -> k = 0).
Proof.
  revert i. induction us as [|u us IH]; intros i Hi.
  - exists 0. split; [done|]. split; [set_solver|done].
  - rewrite fmap_cons. cbn [ismember_from].
    replace (equality (VObj x) (VObj u) false) with (Some (x =? u)) by done.
    cbn [mbind option_bind]. destruct (Z.eqb_spec x u) as [->|Hne].
    + exists i. split; [done|]. split; [|set_solver]. intros _. exists 0%nat.
      split; [done|]. split; [lia|set_solver].
    + destruct (IH (i + 1) ltac:(lia)) as (k & -> & H1 & H2). exists k. split; [done|]. split.
      * intros [->|Hx]%elem_of_cons; [done|]. destruct (H1 Hx) as (j & Hj & -> & Hn).
        exists (S j). split; [done|]. split; [lia|]. simpl. set_solver.
      * intros Hx. apply H2. set_solver.
Qed.

Lemma setadd_objs sole us x : Z.of_nat (length us) < MAX_LIST ->
  exists same, setadd sole (VObj <$> us) (VObj x) =
    Some (VObj <$> (if decide (x ∈ us) then us else us ++ [x]), same).
Proof.
  intros Hl. unfold setadd, ismember. destruct (ismember_objs x us 1 ltac:(lia)) as (k & -> & H1 & H2).
  cbn [mbind option_bind]. case_decide as Hx.
  - destruct (H1 Hx) as (j & _ & -> & _). destruct (Z.eqb_spec (1 + Z.of_nat j) 0); [lia|]. by eexists.
  - rewrite (H2 Hx). cbn [negb Z.eqb]. rewrite listappend_spec
      by (unfold list_ok, llen; rewrite length_fmap; lia).
    cbn [mbind option_bind]. rewrite fmap_app. by eexists.
Qed.

Lemma setremove_objs us x : Z.of_nat (length us) <= MAX_LIST -> NoDup us ->
  setremove (VObj <$> us) (VObj x) = Some (VObj <$> without x us).
Proof.
  intros Hl Hnd. unfold setremove, ismember.
  destruct (ismember_objs x us 1 ltac:(lia)) as (k & -> & H1 & H2). cbn [mbind option_bind].
  destruct (decide (x ∈ us)) as [Hx|Hx].
  - destruct (H1 Hx) as (j & Hj & -> & _). destruct (Z.eqb_spec (1 + Z.of_nat j) 0); [lia|]. cbn [negb].
    assert (j < length us)%nat by by eapply lookup_lt_Some.
    rewrite listdelete_spec by (unfold list_ok, llen; rewrite length_fmap; lia).
    replace (Z.to_nat (1 + Z.of_nat j - 1)) with j by lia.
    rewrite <- (take_drop_middle us j x Hj) in Hnd |- *. rewrite without_split by done.
    f_equal. rewrite !fmap_app, fmap_cons.
    rewrite <- (length_take_le us j) at 1 by lia. rewrite <- (length_fmap VObj (take j us)).
    by rewrite delete_middle.
  - rewrite (H2 Hx), without_notin by done. done.
Qed.

(** ** Theorems *)

Lemma moved_agree {A} L (g : Object -> A) d d' c new : moved L d d' c new ->
  (forall z o, g (lk_set_head L z o) = g o) -> (forall z o, g (lk_set_next L z o) = g o) ->
  (forall z o, g (lk_set_up L z o) = g o) -> agree g d d'.
Proof. intros (_ & _ & _ & H) H1 H2 H3 x. by apply H. Qed.

Lemma moved_tree d d' c new : moved contents_links d d' c new -> tree_ok d -> tree_ok d'.
Proof.
  intros H. pose proof H as (_ & _ & [m ->] & _).
  apply tree_agree; [..|done|done]; (eapply moved_agree; [done|by intros ? []..]).
Qed.

Lemma valid_bool_decide d x : table_ok d -> valid d x = bool_decide (is_Some (objects d !! x)).
Proof. intros H. apply eq_true_iff_eq. by rewrite valid_spec, bool_decide_eq_true. Qed.

Lemma change_location_spec d oid location old :
  table_ok d -> links_ok contents_links d -> db_object_location d oid = Some old ->
  location = NOTHING \/ valid d location = true ->
  exists d', db_change_location d oid location = Some d' /\
    moved contents_links d d' oid location /\ links_ok contents_links d'.
Proof.
  intros Ht Hl Hold Hloc.
  assert (Hup : upf contents_links d oid = Some old).
  { unfold db_object_location in Hold. unfold upf. by destruct (objects d !! oid). }
  destruct (remove_step _ d oid old Hl Hup) as (d1 & E1 & Hlo & _).
  destruct (ll_move_spec _ d oid old location Hl Hup) as (d' & E & Hm & Hok).
  { by rewrite <- valid_spec. }
  exists d'. split; [|done]. unfold ll_move in E. rewrite E1 in E. cbn [mbind option_bind] in E.
  unfold db_change_location. rewrite Hold. cbn [mbind option_bind].
  rewrite valid_bool_decide, E1 by done. cbn [mbind option_bind].
  rewrite valid_bool_decide.
  - by rewrite (bool_decide_ext _ _ (links_only_dom _ d d1 location Hlo)).
  - pose proof Hlo as [[m ->] _]. apply (table_agree d); [|done..].
    intros x. eapply links_only_field; [done|by intros ? []..].
Qed.

(** C25: moving an object: the object leaves the contents list of its old
    location, wherever it stands in it, and is appended to that of the new one
    (moved to the end if they are the same); its location is set, nothing else
    changes in any object, and the contents lists, locations and the hierarchy
    stay well formed. *)
Theorem db_change_location_correct (d : db) (oid location : Z) :
  tree_ok d -> links_ok contents_links d -> valid d oid = true ->
  location = NOTHING \/ valid d location = true ->
  exists d', db_change_location d oid location = Some d' /\
    (forall p, members contents_links d' p =
       (fun l => without oid l ++ (if decide (p = location) then [oid] else [])) <$>
       members contents_links d p) /\
    (forall x, db_object_location d' x =
       if decide (x = oid) then Some location else db_object_location d x) /\
    (forall (A : Type) (g : Object -> A), (forall z o, g (set_contents z o) = g o) ->
       (forall z o, g (set_next z o) = g o) -> (forall z o, g (set_location z o) = g o) ->
       agree g d d') /\
    all_users d' = all_users d /\ vcache d' = vcache d /\
    tree_ok d' /\ links_ok contents_links d'.
Proof.
  intros Ht Hl Ho Hloc. pose proof Ht as (Htab & _). rewrite valid_spec in Ho by done.
  destruct Ho as [o Ho].
  assert (Hold : db_object_location d oid = Some (o_location o)) by (unfold db_object_location; by rewrite Ho).
  destruct (change_location_spec d oid location _ Htab Hl Hold Hloc) as (d' & E & Hm & Hok).
  exists d'. split; [done|]. split; [apply Hm|]. split.
  { intros x. unfold db_object_location. destruct Hm as (_ & Hup & _). specialize (Hup x).
    unfold upf in Hup. cbn [contents_links lk_up] in Hup.
    destruct (objects d' !! x), (objects d !! x); repeat case_decide; simpl in *; congruence. }
  split; [intros A g H1 H2 H3; eapply moved_agree; done|].
  split; [by destruct Hm as (_ & _ & [m ->] & _)|]. split; [by destruct Hm as (_ & _ & [m ->] & _)|].
  split; [by eapply moved_tree|done].
Qed.

(** The ball is put into the room again, behind the visitor. *)
Example db_change_location_correct_witness :
  exists d', db_change_location sample 4 3 = Some d' /\ members contents_links d' 3 = Some [2; 4].
Proof.
  destruct (db_change_location_correct sample 4 3) as (d' & E & H & _).
  - apply tree_check_ok. by vm_compute.
  - apply links_check_ok. by vm_compute.
  - by vm_compute.
  - right. by vm_compute.
  - exists d'. split; [exact E|]. rewrite H. by vm_compute.
Defined.

(** *** Flags *)

Lemma land_bit z f : 0 <= f -> negb (Z.land z (Z.shiftl 1 f) =? 0) = Z.testbit z f.
Proof.
  intros Hf. rewrite Z.shiftl_mul_pow2, Z.mul_1_l by done.
  destruct (Z.testbit z f) eqn:E.
  - apply negb_true_iff, Z.eqb_neq. intros H. apply (f_equal (fun z => Z.testbit z f)) in H.
    rewrite Z.land_spec, Z.pow2_bits_true, E, Z.bits_0 in H by done. done.
  - apply negb_false_iff, Z.eqb_eq, Z.bits_inj'. intros n Hn.
    rewrite Z.land_spec, Z.bits_0, Z.pow2_bits_eqb by done.
    destruct (Z.eqb_spec f n) as [<-|]; [by rewrite E|by rewrite andb_false_r].
Qed.

Lemma testbit_uwrap w z n : 0 <= n < w -> Z.testbit (uwrap w z) n = Z.testbit z n.
Proof. intros H. unfold uwrap. apply Z.mod_pow2_bits_low. lia. Qed.

Lemma is_user_flag d x : table_ok d -> is_user d x = true <-> db_object_has_flag d x FLAG_USER = Some true.
Proof.
  intros H. unfold is_user, valid_with_flag, db_object_has_flag. rewrite find_object_objects by done.
  destruct (objects d !! x) as [o|]; simpl; [split; congruence|done].
Qed.

(** Writing one bit of the flags of [oid]. *)
Lemma write_flags d oid o z : objects d !! oid = Some o -> tree_ok d ->
  exists d', update oid (set_flags z) d = Some d' /\ tree_ok d' /\ all_users d' = all_users d /\
    (forall x g, db_object_has_flag d' x g =
       if decide (x = oid) then Some (negb (Z.land z (Z.shiftl 1 g) =? 0))
       else db_object_has_flag d x g) /\
    (forall (A : Type) (g : Object -> A), (forall z o, g (set_flags z o) = g o) -> agree g d d').
Proof.
  intros Ho Ht. destruct (update_is_Some oid (set_flags z) d ltac:(by eexists)) as [d' E].
  assert (Hag : forall (A : Type) (g : Object -> A), (forall z o, g (set_flags z o) = g o) -> agree g d d').
  { intros A g Hg x. by eapply update_field. }
  exists d'. split; [done|]. pose proof E as (o' & Ho' & Eo & Ed)%update_objects. split; [|split; [|split]].
  - apply (tree_agree d); [by apply Hag; intros ? []..|by rewrite Ed|by rewrite Ed|done].
  - by rewrite Ed.
  - intros x g. unfold db_object_has_flag. rewrite Eo. case_decide as Hx.
    + subst x. rewrite lookup_insert_eq. unfold has_flag. by destruct o'.
    + by rewrite lookup_insert_ne.
  - done.
Qed.

Lemma with_users_tree u d : tree_ok (with_users u d) <-> tree_ok d.
Proof. split; apply tree_agree; done. Qed.

Lemma object_flags_spec (sole : bool) (d : db) (oid f : Z) :
  tree_ok d -> users_ok d -> llen (all_users d) < MAX_LIST -> valid d oid = true -> 0 <= f < 16 ->
  exists d1 d2,
    db_set_object_flag sole d oid f = Some d1 /\ db_clear_object_flag d oid f = Some d2 /\
    (forall x g, 0 <= g < 16 -> db_object_has_flag d1 x g =
       if decide (x = oid /\ g = f) then Some true else db_object_has_flag d x g) /\
    (forall x g, 0 <= g < 16 -> db_object_has_flag d2 x g =
       if decide (x = oid /\ g = f) then Some false else db_object_has_flag d x g) /\
    tree_ok d1 /\ tree_ok d2 /\ users_ok d1 /\ users_ok d2 /\
    (forall (A : Type) (g : Object -> A), (forall z o, g (set_flags z o) = g o) ->
       agree g d d1 /\ agree g d d2).
Proof.
  intros Ht (us & Eus & Hnd & Hus) Hlen Hv Hf. pose proof Ht as (Htab & _).
  rewrite valid_spec in Hv by done. destruct Hv as [o Ho].
  unfold llen in Hlen. rewrite Eus, length_fmap in Hlen.
  unfold db_set_object_flag, db_clear_object_flag. rewrite Ho. cbn [mbind option_bind].
  destruct (write_flags d oid o (uwrap 16 (Z.lor (o_flags o) (Z.shiftl 1 f))) Ho Ht)
    as (d1 & -> & Ht1 & U1 & F1 & A1).
  destruct (write_flags d oid o (uwrap 16 (Z.land (o_flags o) (Z.lnot (Z.shiftl 1 f)))) Ho Ht)
    as (d2 & -> & Ht2 & U2 & F2 & A2). cbn [mbind option_bind].
  assert (Hbit : forall z g, 0 <= g < 16 ->
    negb (Z.land (uwrap 16 z) (Z.shiftl 1 g) =? 0) = Z.testbit z g).
  { intros z g Hg. rewrite land_bit, testbit_uwrap; [done|lia..]. }
  assert (Hold : forall g, 0 <= g -> db_object_has_flag d oid g = Some (Z.testbit (o_flags o) g)).
  { intros g Hg. unfold db_object_has_flag. rewrite Ho. simpl. unfold has_flag. by rewrite land_bit. }
  assert (G1 : forall x g, 0 <= g < 16 -> db_object_has_flag d1 x g =
       if decide (x = oid /\ g = f) then Some true else db_object_has_flag d x g).
  { intros x g Hg. rewrite F1. destruct (decide (x = oid)) as [->|]; [|by rewrite decide_False by tauto].
    rewrite Hbit, Z.lor_spec, Z.shiftl_mul_pow2, Z.mul_1_l, Z.pow2_bits_eqb, Hold by lia.
    case_decide as E; destruct (Z.eqb_spec f g); subst; rewrite ?orb_true_r, ?orb_false_r;
      (done || naive_solver). }
  assert (G2 : forall x g, 0 <= g < 16 -> db_object_has_flag d2 x g =
       if decide (x = oid /\ g = f) then Some false else db_object_has_flag d x g).
  { intros x g Hg. rewrite F2. destruct (decide (x = oid)) as [->|]; [|by rewrite decide_False by tauto].
    rewrite Hbit, Z.land_spec, Z.lnot_spec, Z.shiftl_mul_pow2, Z.mul_1_l, Z.pow2_bits_eqb, Hold by lia.
    case_decide as E; destruct (Z.eqb_spec f g); subst; rewrite ?andb_true_r, ?andb_false_r;
      (done || naive_solver). }
  destruct (setadd_objs sole us oid Hlen) as [same Hadd].
  pose proof (setremove_objs us oid ltac:(lia) Hnd) as Hrem.
  rewrite U1, U2, Eus, Hadd, Hrem. cbn [mbind option_bind].
  pose proof Ht1 as (Htab1 & _). pose proof Ht2 as (Htab2 & _).
  assert (H0 : 0 <= FLAG_USER < 16) by done.
  destruct (Z.eqb_spec f FLAG_USER) as [->|Hne].
  - eexists _, _. split; [done|]. split; [done|]. split; [done|]. split; [done|].
    split; [by apply with_users_tree|]. split; [by apply with_users_tree|].
    split; [|split; [|by split; [apply A1|apply A2]]].
    + exists (if decide (oid ∈ us) then us else us ++ [oid]). split; [done|]. split.
      * case_decide; [done|]. apply NoDup_app. split; [done|]. split; [set_solver|apply NoDup_singleton].
      * intros x. transitivity (is_user d1 x = true); [|done].
        rewrite (is_user_flag d1 x Htab1), (G1 x _ H0).
        destruct (decide (x = oid /\ _)) as [[-> _]|Hx]; [case_decide; set_solver|].
        rewrite <- (is_user_flag d x Htab), <- Hus. case_decide; set_solver.
    + exists (without oid us). split; [done|]. split; [by apply NoDup_filter|].
      intros x. transitivity (is_user d2 x = true); [|done].
      rewrite (is_user_flag d2 x Htab2), (G2 x _ H0).
      unfold without. rewrite list_elem_of_filter, Hus, (is_user_flag d x Htab).
      destruct (decide (x = oid /\ _)) as [[-> _]|Hx]; [naive_solver|].
      split; [tauto|]. intros ?. split; [|done]. intros ->. by apply Hx.
  - exists d1, d2. split; [done|]. split; [done|]. split; [done|]. split; [done|].
    split; [done|]. split; [done|]. split; [|split; [|by split; [apply A1|apply A2]]];
      exists us; (split; [congruence|]); (split; [done|]); intros x; rewrite Hus.
    + rewrite (is_user_flag d1 x Htab1), (G1 x _ H0), decide_False by (intros [_ E]; congruence).
      by apply is_user_flag.
    + rewrite (is_user_flag d2 x Htab2), (G2 x _ H0), decide_False by (intros [_ E]; congruence).
      by apply is_user_flag.
Qed.

(** Permission flags: setting or clearing a flag of an object changes that
    flag of that object and no other, and the list of users stays the list of
    the objects with the user flag, without duplicates. *)
Theorem db_object_flags_correct (sole : bool) (d : db) (oid f : Z) :
  tree_ok d -> users_ok d -> llen (all_users d) < MAX_LIST -> valid d oid = true -> 0 <= f < 16 ->
  exists d1 d2,
    db_set_object_flag sole d oid f = Some d1 /\ db_clear_object_flag d oid f = Some d2 /\
    (forall x g, 0 <= g < 16 -> db_object_has_flag d1 x g =
       if decide (x = oid /\ g = f) then Some true else db_object_has_flag d x g) /\
    (forall x g, 0 <= g < 16 -> db_object_has_flag d2 x g =
       if decide (x = oid /\ g = f) then Some false else db_object_has_flag d x g) /\
    tree_ok d1 /\ tree_ok d2 /\ users_ok d1 /\ users_ok d2 /\
    (forall (A : Type) (g : Object -> A), (forall z o, g (set_flags z o) = g o) ->
       agree g d d1 /\ agree g d d2).
Proof. exact (object_flags_spec sole d oid f). Qed.

Lemma sample_users : users_ok sample.
Proof.
  assert (Ht : tree_ok sample) by (apply tree_check_ok; by vm_compute).
  exists [4]. split; [done|]. split; [apply NoDup_singleton|]. intros x. rewrite list_elem_of_singleton.
  split; [by intros ->|]. intros Hx. unfold is_user, valid_with_flag in Hx.
  rewrite find_object_objects in Hx by apply Ht.
  destruct (objects sample !! x) as [o|] eqn:E; [|done].
  apply elem_of_list_to_map_2 in E. repeat (apply elem_of_cons in E as [E|E];
    [apply pair_eq in E as [-> ->]; (done || by vm_compute in Hx)|]). by apply elem_of_nil in E.
Qed.

(** The visitor of the sample ceases to be a user. *)
Example db_object_flags_correct_witness :
  exists d1 d2, db_set_object_flag true sample 2 0 = Some d1 /\
    db_clear_object_flag sample 4 0 = Some d2 /\ users_ok d1 /\ users_ok d2 /\
    all_users d1 = [VObj 4; VObj 2] /\ all_users d2 = [].
Proof.
  assert (Ht : tree_ok sample) by (apply tree_check_ok; by vm_compute).
  pose proof sample_users as Hu.
  destruct (db_object_flags_correct true sample 2 0) as (d1 & d1' & E1 & _ & _ & _ & _ & _ & H1 & _);
    [done|done|by vm_compute|by vm_compute|done|].
  destruct (db_object_flags_correct true sample 4 0) as (d2' & d2 & _ & E2 & _ & _ & _ & _ & _ & H2 & _);
    [done|done|by vm_compute|by vm_compute|done|].
  exists d1, d2. split; [done|]. split; [done|]. split; [done|]. split; [done|].
  assert (F1 : all_users <$> db_set_object_flag true sample 2 0 = Some [VObj 4; VObj 2]) by by vm_compute.
  assert (F2 : all_users <$> db_clear_object_flag sample 4 0 = Some []) by by vm_compute.
  rewrite E1 in F1. rewrite E2 in F2. by injection F1; injection F2.
Defined.
