(* ===== verification/Verbs.v ===== *)
(** * Verbs on objects (db_verbs.c)

    Adding, deleting and finding verbs, the verb cache, and what a verb handle
    gives access to.  A [Verbdef] is a structure with an address; the list of an
    object is threaded through [next].  A handle is the definer and the address
    of the structure. *)

From S2P Require Import Prelude Utf CString Values Streams Functions Lists Db Links Hierarchy Words Preps.

(** ** Definitions *)

Definition VF_READ : Z := 1.
Definition VF_WRITE : Z := 2.
Definition VF_EXEC : Z := 4.
Definition VF_DEBUG : Z := 8.
Definition ASPEC_NONE : Z := 0.
Definition ASPEC_ANY : Z := 1.
Definition ASPEC_THIS : Z := 2.

Definition DOBJSHIFT : Z := 4.
Definition IOBJSHIFT : Z := 6.
Definition OBJMASK : Z := 3.
Definition PERMMASK : Z := 15.

(** [perms] is a [uint16_t] and [prep] an [int16_t]. *)
Definition pack_specs (flags dobj iobj : Z) : Z :=
  uwrap 16 (Z.lor (Z.lor flags (Z.shiftl dobj DOBJSHIFT)) (Z.shiftl iobj IOBJSHIFT)).
Definition dobj_spec (v : Verbdef) : Z := Z.land (Z.shiftr (v_perms v) DOBJSHIFT) OBJMASK.
Definition iobj_spec (v : Verbdef) : Z := Z.land (Z.shiftr (v_perms v) IOBJSHIFT) OBJMASK.

(** Assignment to one field of a [Verbdef]. *)
Definition set_v_name (s : bytes) (v : Verbdef) : Verbdef :=
  mkVerbdef (v_addr v) s (v_program v) (v_owner v) (v_perms v) (v_prep v).
Definition set_v_program (p : option Program) (v : Verbdef) : Verbdef :=
  mkVerbdef (v_addr v) (v_name v) p (v_owner v) (v_perms v) (v_prep v).
Definition set_v_owner (w : Z) (v : Verbdef) : Verbdef :=
  mkVerbdef (v_addr v) (v_name v) (v_program v) w (v_perms v) (v_prep v).
Definition set_v_perms (p : Z) (v : Verbdef) : Verbdef :=
  mkVerbdef (v_addr v) (v_name v) (v_program v) (v_owner v) p (v_prep v).
Definition set_v_prep (p : Z) (v : Verbdef) : Verbdef :=
  mkVerbdef (v_addr v) (v_name v) (v_program v) (v_owner v) (v_perms v) p.

(** The memory for a new structure is at an address that was never used. *)
Definition with_next_addr (a : Z) (d : db) : db :=
  mkDb (objects d) (num_objects d) (max_objects d) (all_users d) (vcache d) a.

Definition db_add_verb (d : db) (oid : Z) (vnames : bytes) (owner flags dobj prep iobj : Z)
    : option (db * Z) :=
  let o := dbpriv_find_object d oid in
  let d := db_priv_affected_callable_verb_lookup d in
  let newv := mkVerbdef (next_addr d) vnames None owner (pack_specs flags dobj iobj) (swrap 16 prep) in
  let d := with_next_addr (next_addr d + 1) d in
  o ← o;
  d ← update oid (fun o => set_verbdefs (o_verbdefs o ++ [newv]) o) d;
  Some (d, int (Z.of_nat (length (o_verbdefs o)) + 1)).

Section Lookup.
(** Whether the pointer to the word that is looked up is that to the name of a
    verb: the first thing [verbcasecmp] compares. *)
Context (same : Verbdef -> bool).

Definition find_verbdef_by_name (o : Object) (vname : bytes) (check_x_bit : bool) : option Verbdef :=
  find (fun v => verbcasecmp (same v) (v_name v) vname &&
                 (negb check_x_bit || negb (Z.land (v_perms v) VF_EXEC =? 0))) (o_verbdefs o).

(** The test in the loop of [db_find_command_verb]. *)
Definition command_matches (verb : bytes) (dobj prep iobj : Z) (v : Verbdef) : bool :=
  verbcasecmp (same v) (v_name v) verb &&
  ((dobj_spec v =? ASPEC_ANY) || (dobj_spec v =? dobj)) &&
  ((v_prep v =? PREP_ANY) || (v_prep v =? prep)) &&
  ((iobj_spec v =? ASPEC_ANY) || (iobj_spec v =? iobj)).

(** [for (o = ...; o; o = dbpriv_find_object(o->parent))] with a search on each
    object; [Some None] is the null handle. *)
Fixpoint search_up (fuel : nat) (d : db) (find : Object -> option Verbdef) (o : option Object)
    : option (option handle) :=
  match o with
  | None => Some None
  | Some o =>
      match fuel with
      | O => None
      | S f => match find o with
               | Some v => Some (Some (mkHandle (o_id o) (v_addr v)))
               | None => search_up f d find (dbpriv_find_object d (o_parent o))
               end
      end
  end.

Definition db_find_command_verb (d : db) (oid : Z) (verb : bytes) (dobj prep iobj : Z)
    : option (option handle) :=
  search_up (ll_fuel d) d (fun o => find (command_matches verb dobj prep iobj) (o_verbdefs o))
    (dbpriv_find_object d oid).

(** The loop that looks for an object with verbs. *)
Fixpoint first_with_verbs (fuel : nat) (d : db) (o : option Object) : option (option Object) :=
  match o with
  | None => Some None
  | Some o =>
      match fuel with
      | O => None
      | S f => match o_verbdefs o with
               | [] => first_with_verbs f d (dbpriv_find_object d (o_parent o))
               | _ => Some (Some o)
               end
      end
  end.

Definition DEFAULT_VC_SIZE : Z := 7507.

Definition make_vc_table (size : Z) (c : verb_cache) : verb_cache :=
  mkCacheState (Some ∅) size (db_verb_generation c) (verbcache_hit c) (verbcache_neg_hit c) (verbcache_miss c).

Definition bucket_of (table : gmap Z (list vc_entry)) (b : Z) : list vc_entry := default [] (table !! b).

(** [str_hash(verb) ^ (~first_parent_with_verbs)], as an [unsigned int]. *)
Definition vc_key_hash (verb : bytes) (key : Z) : Z := uwrap 32 (Z.lxor (str_hash verb) (Z.lnot key)).

Definition vc_hit (hash key : Z) (verb : bytes) (e : vc_entry) : bool :=
  (hash =? vc_hash e) && (key =? vc_oid_key e) && (mystrcasecmp verb (vc_verbname e) =? 0).

Definition count_hit (c : verb_cache) : verb_cache :=
  mkCacheState (vc_table c) (vc_size c) (db_verb_generation c) (int (verbcache_hit c + 1)) (verbcache_neg_hit c) (verbcache_miss c).
Definition count_neg_hit (c : verb_cache) : verb_cache :=
  mkCacheState (vc_table c) (vc_size c) (db_verb_generation c) (verbcache_hit c) (int (verbcache_neg_hit c + 1)) (verbcache_miss c).
Definition count_miss (c : verb_cache) : verb_cache :=
  mkCacheState (vc_table c) (vc_size c) (db_verb_generation c) (verbcache_hit c) (verbcache_neg_hit c) (int (verbcache_miss c + 1)).
Definition with_table_of (t : gmap Z (list vc_entry)) (c : verb_cache) : verb_cache :=
  mkCacheState (Some t) (vc_size c) (db_verb_generation c) (verbcache_hit c) (verbcache_neg_hit c) (verbcache_miss c).

Definition db_find_callable_verb (d : db) (oid : Z) (verb : bytes) : option (db * option handle) :=
  let c := match vc_table (vcache d) with None => make_vc_table DEFAULT_VC_SIZE (vcache d) | Some _ => vcache d end in
  let table := default ∅ (vc_table c) in
  o ← first_with_verbs (ll_fuel d) d (dbpriv_find_object d oid);
  let key := match o with Some o => o_id o | None => NOTHING end in
  let hash := vc_key_hash verb key in
  let bucket := hash mod vc_size c in
  match find (vc_hit hash key verb) (bucket_of table bucket) with
  | Some e =>
      match vc_handle e with
      | Some h => Some (with_vcache (count_hit c) d, Some h)
      | None => Some (with_vcache (count_neg_hit c) d, None)
      end
  | None =>
      h ← search_up (ll_fuel d) d (fun o => find_verbdef_by_name o verb true) o;
      let new_vc := mkVc hash key verb h in
      let table := <[bucket := new_vc :: bucket_of table bucket]> table in
      Some (with_vcache (with_table_of table (count_miss c)) d, h)
  end.

(** [int num]: the [long] of strtol is cut; -1 where numbers are not meant. *)
Definition db_find_defined_verb (d : db) (oid : Z) (vname : bytes) (allow_numbers : bool)
    : option (option handle) :=
  o ← dbpriv_find_object d oid;
  let '(n, p) := strtol vname in
  let num := if negb allow_numbers then -1
             else if isspace (byte_at vname 0) || negb (bool_decide (p = [])) then -1 else int n in
  Some ((fun '(_, v) => mkHandle (o_id o) (v_addr v)) <$>
    find (fun '(i, v) => (i =? num) || verbcasecmp (same v) (v_name v) vname)
      (zip (seqZ 0 (Z.of_nat (length (o_verbdefs o)))) (o_verbdefs o))).
End Lookup.

Definition db_find_indexed_verb (d : db) (oid index : Z) : option (option handle) :=
  o ← dbpriv_find_object d oid;
  Some ((fun '(_, v) => mkHandle (o_id o) (v_addr v)) <$>
    find (fun '(i, _) => i =? index)
      (zip (seqZ 1 (Z.of_nat (length (o_verbdefs o)))) (o_verbdefs o))).

Definition db_count_verbs (d : db) (oid : Z) : option Z :=
  o ← dbpriv_find_object d oid; Some (int (Z.of_nat (length (o_verbdefs o)))).

Fixpoint verbs_loop {A} (func : A -> bytes -> A * bool) (data : A) (l : list Verbdef) : A * bool :=
  match l with
  | [] => (data, false)
  | v :: l => let '(data, stop) := func data (v_name v) in
              if stop : bool then (data, true) else verbs_loop func data l
  end.
Definition db_for_all_verbs {A} (d : db) (oid : Z) (func : A -> bytes -> A * bool) (data : A)
    : option (A * bool) :=
  o ← dbpriv_find_object d oid; Some (verbs_loop func data (o_verbdefs o)).

(** *** Through a handle *)

(** [h->verbdef]. *)
Definition deref (d : db) (h : handle) : option Verbdef :=
  o ← objects d !! h_definer h; find (fun v => v_addr v =? h_verbdef h) (o_verbdefs o).

Definition write_at (a : Z) (f : Verbdef -> Verbdef) (l : list Verbdef) : list Verbdef :=
  (fun v => if v_addr v =? a then f v else v) <$> l.

(** [h->verbdef->... = ...]. *)
Definition write_verb (d : db) (h : handle) (f : Verbdef -> Verbdef) : option db :=
  _ ← deref d h;
  update (h_definer h) (fun o => set_verbdefs (write_at (h_verbdef h) f (o_verbdefs o)) o) d.

(** A null handle is a panic. *)
Definition db_verb_definer (h : option handle) : option Z := h ← h; Some (h_definer h).
Definition db_verb_names (d : db) (h : option handle) : option bytes := h ← h; v ← deref d h; Some (v_name v).
Definition db_set_verb_names (d : db) (h : option handle) (names : bytes) : option db :=
  let d := db_priv_affected_callable_verb_lookup d in
  h ← h; write_verb d h (set_v_name names).
Definition db_verb_owner (d : db) (h : option handle) : option Z := h ← h; v ← deref d h; Some (v_owner v).
Definition db_set_verb_owner (d : db) (h : option handle) (owner : Z) : option db :=
  h ← h; write_verb d h (set_v_owner owner).
Definition db_verb_flags (d : db) (h : option handle) : option Z :=
  h ← h; v ← deref d h; Some (Z.land (v_perms v) PERMMASK).
Definition db_set_verb_flags (d : db) (h : option handle) (flags : Z) : option db :=
  let d := db_priv_affected_callable_verb_lookup d in
  h ← h;
  write_verb d h (fun v =>
    let v := set_v_perms (uwrap 16 (Z.land (v_perms v) (Z.lnot PERMMASK))) v in
    set_v_perms (uwrap 16 (Z.lor (v_perms v) flags)) v).
(** [null] is [null_program()], the program of an empty list of lines. *)
Definition db_verb_program (null : Program) (d : db) (h : option handle) : option Program :=
  h ← h; v ← deref d h; Some (default null (v_program v)).
Definition db_set_verb_program (d : db) (h : option handle) (program : option Program) : option db :=
  h ← h; write_verb d h (set_v_program program).
Definition db_verb_arg_specs (d : db) (h : option handle) : option (Z * Z * Z) :=
  h ← h; v ← deref d h; Some (dobj_spec v, v_prep v, iobj_spec v).
Definition db_set_verb_arg_specs (d : db) (h : option handle) (dobj prep iobj : Z) : option db :=
  let d := db_priv_affected_callable_verb_lookup d in
  h ← h;
  write_verb d h (fun v =>
    set_v_prep (swrap 16 prep) (set_v_perms (pack_specs (Z.land (v_perms v) PERMMASK) dobj iobj) v)).
Definition db_verb_allows (d : db) (h : option handle) (progr flag : Z) : option bool :=
  flags ← db_verb_flags d h;
  owner ← db_verb_owner d h;
  Some (negb (Z.land flags flag =? 0) || (progr =? owner) || is_wizard d progr).

(** [while (vv->next != v) vv = vv->next; vv->next = v->next]. *)
Fixpoint unlink_verb (a : Z) (l : list Verbdef) : option (list Verbdef) :=
  match l with
  | [] => None
  | v :: l => if v_addr v =? a then Some l else r ← unlink_verb a l; Some (v :: r)
  end.

Definition db_delete_verb (d : db) (h : option handle) : option db :=
  h ← h;
  let o := dbpriv_find_object d (h_definer h) in
  let d := db_priv_affected_callable_verb_lookup d in
  o ← o;
  l ← unlink_verb (h_verbdef h) (o_verbdefs o);
  update (h_definer h) (set_verbdefs l) d.

(** *** Statistics of the cache *)

Definition VC_CACHE_STATS_MAX : nat := 16.

(** [histogram[min(depth, 16)]++] for each bucket. *)
Definition count_depth (c : verb_cache) (histogram : list Z) (i : Z) : list Z :=
  let depth := length (bucket_of (default ∅ (vc_table c)) i) in
  let depth := if decide (VC_CACHE_STATS_MAX < depth)%nat then VC_CACHE_STATS_MAX else depth in
  alter (fun n => n + 1) depth histogram.
Definition cache_histogram (c : verb_cache) : list Z :=
  fold_left (count_depth c) (seqZ 0 (vc_size c)) (replicate (VC_CACHE_STATS_MAX + 1) 0).
Definition db_verb_cache_stats (d : db) : Var :=
  let c := vcache d in
  VList [VInt (verbcache_hit c); VInt (verbcache_neg_hit c); VInt (verbcache_miss c);
         VInt (db_verb_generation c); VList (VInt <$> cache_histogram c)].

(** ** Specification *)

Definition verbs (d : db) (a : Z) : list Verbdef :=
  match objects d !! a with Some o => o_verbdefs o | None => [] end.

(** The verbs of a list of objects, with the definers, and the first of them
    that satisfies a test. *)
Definition all_verbs (d : db) (l : list Z) : list (Z * Verbdef) := l ≫= fun a => (fun v => (a, v)) <$> verbs d a.
Definition to_handle (p : Z * Verbdef) : handle := mkHandle (fst p) (v_addr (snd p)).
Definition first_verb (d : db) (P : Verbdef -> bool) (x : Z) : option handle :=
  l ← ancestors d x; to_handle <$> find (fun p => P (snd p)) (all_verbs d l).

(** Matching of names, by [CString.verbcasecmp_correct]: some alias matches. *)
Definition name_matches (names word : bytes) : bool := existsb (fun a => alias_matches a word) (name_aliases names).

Definition executable (v : Verbdef) : bool := negb (Z.land (v_perms v) VF_EXEC =? 0).
Definition callable (word : bytes) (v : Verbdef) : bool := name_matches (v_name v) word && executable v.

(** Words without a special character. *)
Definition plain (w : bytes) : Prop := w <> [] /\ star_char ∉ w /\ space_char ∉ w.
#[export] Instance plain_dec w : Decision (plain w).
Proof. unfold plain. apply _. Defined.

(** What an entry of the cache says is so. *)
Definition entry_ok (d : db) (e : vc_entry) : Prop :=
  cstr (vc_verbname e) /\
  (vc_oid_key e = NOTHING \/ verbs d (vc_oid_key e) <> []) /\
  (plain (vc_verbname e) -> vc_handle e = first_verb d (callable (vc_verbname e)) (vc_oid_key e)).

Definition vc_ok (d : db) : Prop :=
  match vc_table (vcache d) with
  | None => True
  | Some t => 0 < vc_size (vcache d) /\ forall b e, e ∈ bucket_of t b -> entry_ok d e
  end.

(** The structures of an object have addresses of their own. *)
Definition verbs_ok (d : db) : Prop :=
  forall x o, objects d !! x = Some o ->
    NoDup (v_addr <$> o_verbdefs o) /\ Forall (fun v => v_addr v < next_addr d) (o_verbdefs o).

(** ** Lookup *)

Lemma find_app {A} (P : A -> bool) (l1 l2 : list A) :
  find P (l1 ++ l2) = match find P l1 with Some x => Some x | None => find P l2 end.
Proof. induction l1 as [|x l1 IH]; [done|]. simpl. by destruct (P x). Qed.

Lemma find_ext {A} (P Q : A -> bool) (l : list A) : (forall x, P x = Q x) -> find P l = find Q l.
Proof. intros H. induction l as [|x l IH]; [done|]. simpl. by rewrite H, IH. Qed.

Lemma find_fmap {A B} (P : B -> bool) (g : A -> B) (l : list A) : find P (g <$> l) = g <$> find (fun x => P (g x)) l.
Proof.
  induction l as [|x l IH]; [done|]. rewrite fmap_cons. cbn [find].
  destruct (P (g x)); [done|]. by rewrite IH.
Qed.

Lemma all_verbs_cons d a l : all_verbs d (a :: l) = ((fun v => (a, v)) <$> verbs d a) ++ all_verbs d l.
Proof. done. Qed.

Lemma search_up_spec fuel d P x l : tree_ok d -> ancestors d x = Some l -> (length l <= fuel)%nat ->
  search_up fuel d (fun o => find P (o_verbdefs o)) (dbpriv_find_object d x) =
    Some (to_handle <$> find (fun p => P (snd p)) (all_verbs d l)).
Proof.
  intros Ht. pose proof Ht as (Htab & _). revert x l.
  induction fuel as [|f IH]; intros x l Hl Hf; rewrite find_object_objects by done.
  - destruct l; [|simpl in Hf; lia]. apply ancestors_chain, chain_nil_inv in Hl as ->. by rewrite tree_NOTHING.
  - destruct (decide (x = NOTHING)) as [->|Hx].
    { rewrite ancestors_NOTHING in Hl. injection Hl as <-. by rewrite tree_NOTHING. }
    destruct (ancestors_head _ _ _ Hl Hx) as [l' ->].
    destruct (ancestors_valid _ _ _ x Hl) as [o Ho]; [by left|]. rewrite Ho. cbn [search_up].
    rewrite (ancestors_parent d x o Ho Hx) in Hl. destruct (ancestors d (o_parent o)) as [l|] eqn:El; [|done].
    injection Hl as ->. rewrite all_verbs_cons, find_app, find_fmap. simpl.
    assert (Ev : verbs d x = o_verbdefs o) by (unfold verbs; by rewrite Ho). rewrite Ev.
    destruct (find P (o_verbdefs o)) as [v|]; simpl.
    + unfold to_handle. simpl. destruct Htab as (_ & _ & H). by destruct (H x o Ho) as [_ ->].
    + apply IH; [done|simpl in Hf; lia].
Qed.

(** The first ancestor with verbs, and that only its ancestors matter. *)
Lemma first_with_verbs_spec fuel d x l : tree_ok d -> ancestors d x = Some l -> (length l <= fuel)%nat ->
  exists o key, first_with_verbs fuel d (dbpriv_find_object d x) = Some o /\
    o = dbpriv_find_object d key /\ key = match o with Some o => o_id o | None => NOTHING end /\
    (forall P, first_verb d P x = first_verb d P key) /\
    (key = NOTHING \/ verbs d key <> []) /\
    exists l', ancestors d key = Some l' /\ (length l' <= length l)%nat.
Proof.
  intros Ht. pose proof Ht as (Htab & _). revert x l.
  induction fuel as [|f IH]; intros x l Hl Hf.
  - destruct l; [|simpl in Hf; lia]. pose proof Hl as H. apply ancestors_chain, chain_nil_inv in H as ->.
    exists None, NOTHING. rewrite find_object_objects, tree_NOTHING by done. split; [done|]. split; [done|].
    split; [done|]. split; [done|]. split; [by left|]. by exists [].
  - destruct (decide (x = NOTHING)) as [->|Hx].
    { exists None, NOTHING. rewrite find_object_objects, tree_NOTHING by done.
      rewrite ancestors_NOTHING in *. injection Hl as <-. split; [done|]. split; [done|].
      split; [done|]. split; [done|]. split; [by left|]. by exists []. }
    destruct (ancestors_head _ _ _ Hl Hx) as [l' ->].
    destruct (ancestors_valid _ _ _ x Hl) as [o Ho]; [by left|]. rewrite find_object_objects, Ho by done. cbn [first_with_verbs].
    destruct (o_verbdefs o) as [|v vs] eqn:Ev.
    + pose proof Hl as Hl'. rewrite (ancestors_parent d x o Ho Hx) in Hl'.
      destruct (ancestors d (o_parent o)) as [l|] eqn:El; [|done]. injection Hl' as ->.
      destruct (IH (o_parent o) l' El ltac:(simpl in Hf; lia)) as (o' & key & E & Eo & Ek & HP & Hv & l2 & Hl2 & Hlen).
      exists o', key. split; [done|]. split; [done|]. split; [done|]. split; [|split; [done|exists l2; split; [done|simpl; lia]]].
      intros P. rewrite <- HP. unfold first_verb. rewrite Hl, El. cbn [mbind option_bind].
      rewrite all_verbs_cons. unfold verbs. by rewrite Ho, Ev.
    + exists (Some o), x. rewrite find_object_objects by done. split; [done|]. split; [done|].
      split; [destruct Htab as (_ & _ & H); by destruct (H x o Ho) as [_ ->]|]. split; [done|].
      split; [right; unfold verbs; by rewrite Ho, Ev|]. by exists (x :: l').
Qed.

(** ** Names *)

Lemma name_matches_casefold names w w' : casefold w = casefold w' -> name_matches names w = name_matches names w'.
Proof. intros H. apply existsb_ext. intros a. by apply alias_matches_casefold. Qed.

Lemma name_matches_plain w : plain w -> name_matches w w = true.
Proof.
  intros (Hne & Hst & Hsp). unfold name_matches, name_aliases.
  assert (Hh : alias_head w = w).
  { clear -Hsp. induction w as [|c w IH]; [done|]. apply not_elem_of_cons in Hsp as [Hc Hsp]. simpl.
    destruct (Z.eqb_spec c space_char); [congruence|]. by rewrite IH. }
  assert (Hl : alias_letters w = w).
  { clear -Hst. unfold alias_letters. induction w as [|c w IH]; [done|]. apply not_elem_of_cons in Hst as [Hc Hst].
    rewrite filter_cons_True by congruence. by rewrite IH. }
  assert (Hr : (alias_required w <= length w)%nat).
  { clear. induction w as [|c w IH]; [done|]. simpl. destruct (c =? star_char); lia. }
  destruct w as [|c w]; [done|]. cbn [length aliases_fuel existsb]. rewrite Hh. apply orb_true_iff. left.
  unfold alias_matches. rewrite Hl. apply orb_true_iff. left. apply andb_true_iff. split.
  - by apply prefixb_prefix.
  - by apply Nat.leb_le.
Qed.

(** The pointer shortcut does not matter for a plain word. *)
Lemma verbcasecmp_plain same names w : (same = true -> names = w) -> plain w ->
  verbcasecmp same names w = name_matches names w.
Proof.
  intros Hs Hp. rewrite verbcasecmp_eq. destruct same; [|done]. rewrite Hs by done. simpl. symmetry.
  by apply name_matches_plain.
Qed.

Lemma casefold_special w w' d : cstr w -> cstr w' -> casefold w = casefold w' -> (d = star_char \/ d = space_char) ->
  d ∈ w -> d ∈ w'.
Proof.
  intros Hw Hw' E Hd Hin. assert (Hin' : cmap d ∈ casefold w') by (rewrite <- E; by apply list_elem_of_fmap_2).
  apply list_elem_of_fmap in Hin' as (c & Ec & Hc).
  unfold cstr in Hw'. rewrite Forall_forall in Hw'. specialize (Hw' c Hc).
  assert (c = d) as <-; [|done]. by apply cmap_special; [lia| |].
Qed.

Lemma plain_casefold w w' : cstr w -> cstr w' -> casefold w = casefold w' -> plain w -> plain w'.
Proof.
  intros Hw Hw' E (Hne & Hst & Hsp). split; [|split].
  - intros ->. apply Hne. by apply casefold_nil.
  - intros H. apply Hst. eapply casefold_special; [exact Hw'|done|done|by left|done].
  - intros H. apply Hsp. eapply casefold_special; [exact Hw'|done|done|by right|done].
Qed.

Lemma callable_casefold w w' v : casefold w = casefold w' -> callable w v = callable w' v.
Proof. intros H. unfold callable. by rewrite (name_matches_casefold _ w w'). Qed.

Lemma first_verb_ext d P Q x : (forall v, P v = Q v) -> first_verb d P x = first_verb d Q x.
Proof.
  intros H. unfold first_verb. destruct (ancestors d x); [|done]. cbn [mbind option_bind]. f_equal.
  apply find_ext. intros. apply H.
Qed.

(** ** The cache *)

Lemma bucket_insert t b l b' : bucket_of (<[b := l]> t) b' = if decide (b = b') then l else bucket_of t b'.
Proof. unfold bucket_of. rewrite lookup_insert. by case_decide. Qed.

Lemma bucket_empty b : bucket_of ∅ b = [].
Proof. unfold bucket_of. by rewrite lookup_empty. Qed.

Lemma vc_hit_spec hash key verb e : cstr verb -> cstr (vc_verbname e) -> vc_hit hash key verb e = true ->
  vc_oid_key e = key /\ casefold (vc_verbname e) = casefold verb.
Proof.
  unfold vc_hit. rewrite !andb_true_iff, !Z.eqb_eq. intros Hv He ((_ & ->) & H). split; [done|].
  symmetry. by apply mystrcasecmp_eq.
Qed.

(** Only parents and verbs matter. *)
Definition same_verbs (d d' : db) : Prop := agree o_parent d d' /\ agree o_verbdefs d d'.

Lemma first_verb_same d d' P x : same_verbs d d' -> first_verb d' P x = first_verb d P x.
Proof.
  intros [Hp Hv]. unfold first_verb. rewrite (ancestors_agree d d') by done.
  destruct (ancestors d x) as [l|]; [|done]. cbn [mbind option_bind]. f_equal. f_equal.
  unfold all_verbs. clear -Hv. induction l as [|a l IH]; [done|]. cbn [mbind list_bind]. rewrite IH. f_equal. f_equal.
  unfold verbs. specialize (Hv a). destruct (objects d !! a), (objects d' !! a); simpl in Hv; congruence.
Qed.

Lemma with_vcache_same c d : same_verbs d (with_vcache c d).
Proof. done. Qed.

Section Cached.
Context (same : Verbdef -> bool) (d : db) (word : bytes).
Context (Hsame : forall v, same v = true -> v_name v = word) (Hok : tree_ok d) (Hvc : vc_ok d) (Hw : cstr word).

Lemma find_callable_spec oid : is_Some (ancestors d oid) ->
  exists c h, db_find_callable_verb same d oid word = Some (with_vcache c d, h) /\ vc_ok (with_vcache c d) /\
    (plain word -> h = first_verb d (callable word) oid).
Proof.
  intros [l Hl]. unfold db_find_callable_verb.
  set (c0 := match vc_table (vcache d) with None => _ | _ => _ end).
  assert (Hc0 : 0 < vc_size c0 /\ exists t, vc_table c0 = Some t /\ forall b e, e ∈ bucket_of t b -> entry_ok d e).
  { unfold c0, vc_ok in *. destruct (vc_table (vcache d)) as [t|] eqn:E.
    - destruct Hvc as [? He]. split; [done|]. by exists t.
    - split; [done|]. exists ∅. split; [done|]. intros b e. rewrite bucket_empty. intros H. by apply elem_of_nil in H. }
  destruct Hc0 as (Hsz & t & Et & He). rewrite Et. change (default ∅ (Some t)) with t.
  pose proof (ancestors_length _ _ _ Hl) as Hlen.
  destruct (first_with_verbs_spec (ll_fuel d) d oid l Hok Hl) as (o & key & -> & Eo & Ekey & HP & Hkey & l' & Hl' & Hlen'); [lia|].
  cbn [mbind option_bind]. rewrite <- Ekey.
  set (hash := vc_key_hash word key). set (b := hash mod vc_size c0).
  assert (Hplain : plain word -> forall v, verbcasecmp (same v) (v_name v) word && (negb true || negb (Z.land (v_perms v) VF_EXEC =? 0)) =
    callable word v).
  { intros Hp v. unfold callable. f_equal. apply verbcasecmp_plain; [apply Hsame|done]. }
  destruct (find (vc_hit hash key word) (bucket_of t b)) as [e|] eqn:Ef.
  - apply find_some in Ef as [Hin Hhit]. apply list_elem_of_In in Hin. destruct (He b e Hin) as (Hcs & _ & Hh).
    destruct (vc_hit_spec _ _ _ _ Hw Hcs Hhit) as [Hk Hn].
    assert (G : plain word -> vc_handle e = first_verb d (callable word) oid).
    { intros Hp. rewrite Hh by (by apply (plain_casefold word)). rewrite Hk, HP.
      apply first_verb_ext. intros v. by apply callable_casefold. }
    destruct (vc_handle e) as [h|]; eexists _, _; (split; [done|]); (split; [|done]).
    all: unfold vc_ok; simpl; rewrite Et; done.
  - rewrite Eo. unfold find_verbdef_by_name. rewrite (search_up_spec (ll_fuel d) d _ key l') by (done || lia).
    cbn [mbind option_bind]. eexists _, _. split; [done|].
    assert (G : plain word -> to_handle <$> find (fun p => verbcasecmp (same p.2) (v_name p.2) word &&
        (negb true || negb (Z.land (v_perms p.2) VF_EXEC =? 0))) (all_verbs d l') = first_verb d (callable word) key).
    { intros Hp. unfold first_verb. rewrite Hl'. cbn [mbind option_bind]. f_equal. apply find_ext. intros [a v].
      by apply Hplain. }
    split.
    + unfold vc_ok. simpl. split; [done|]. intros b' e. rewrite bucket_insert. case_decide as Hb.
      * intros [-> |Hin]%elem_of_cons; [split; [exact Hw|split; [exact Hkey|exact G]]|]. by eapply He.
      * apply He.
    + intros Hp. rewrite HP. by apply G.
Qed.
End Cached.

(** ** Bits of [perms] *)

Lemma testbit_high n z k : 0 <= z < 2 ^ k -> 0 <= k <= n -> Z.testbit z n = false.
Proof. intros Hz Hk. rewrite <- (Z.mod_small z (2 ^ k)) by done. apply Z.mod_pow2_bits_high. lia. Qed.

Lemma uwrap_testbit w z n : 0 <= w -> Z.testbit (uwrap w z) n = (n <? w) && Z.testbit z n.
Proof.
  intros Hw. unfold uwrap. destruct (Z.ltb_spec n w); cbn [andb].
  - by apply Z.mod_pow2_bits_low.
  - apply Z.mod_pow2_bits_high. lia.
Qed.

Lemma mask_testbit k n : 0 <= k -> 0 <= n -> Z.testbit (Z.ones k) n = (n <? k).
Proof. intros. apply Z.testbit_ones_nonneg; lia. Qed.

Lemma pack_testbit flags dobj iobj n : 0 <= n ->
  Z.testbit (pack_specs flags dobj iobj) n =
  (n <? 16) && (Z.testbit flags n || Z.testbit dobj (n - 4) || Z.testbit iobj (n - 6)).
Proof.
  intros Hn. unfold pack_specs, DOBJSHIFT, IOBJSHIFT. rewrite uwrap_testbit by lia.
  rewrite !Z.lor_spec, !Z.shiftl_spec by lia. done.
Qed.

Lemma perm_mask_testbit z n : 0 <= n -> Z.testbit (Z.land z PERMMASK) n = (n <? 4) && Z.testbit z n.
Proof. intros Hn. rewrite Z.land_spec. change PERMMASK with (Z.ones 4). rewrite mask_testbit by lia. apply andb_comm. Qed.

Lemma obj_mask_testbit z k n : 0 <= n -> 0 <= k -> Z.testbit (Z.land (Z.shiftr z k) OBJMASK) n = (n <? 2) && Z.testbit z (n + k).
Proof.
  intros Hn Hk. rewrite Z.land_spec, Z.shiftr_spec by lia. change OBJMASK with (Z.ones 2).
  rewrite mask_testbit by lia. apply andb_comm.
Qed.

(** Three fields that do not overlap. *)
Lemma pack_fields flags dobj iobj : 0 <= flags < 16 -> 0 <= dobj < 4 -> 0 <= iobj < 4 ->
  Z.land (pack_specs flags dobj iobj) PERMMASK = flags /\
  Z.land (Z.shiftr (pack_specs flags dobj iobj) DOBJSHIFT) OBJMASK = dobj /\
  Z.land (Z.shiftr (pack_specs flags dobj iobj) IOBJSHIFT) OBJMASK = iobj.
Proof.
  intros Hf Hd Hi. unfold DOBJSHIFT, IOBJSHIFT.
  split; [|split]; apply Z.bits_inj'; intros n Hn.
  - rewrite perm_mask_testbit, pack_testbit by lia. destruct (Z.ltb_spec n 4); cbn [andb].
    + destruct (Z.ltb_spec n 16); [|lia]. rewrite (Z.testbit_neg_r dobj), (Z.testbit_neg_r iobj) by lia.
      by rewrite !orb_false_r.
    + by rewrite (testbit_high n flags 4) by lia.
  - rewrite obj_mask_testbit, pack_testbit by lia. destruct (Z.ltb_spec n 2); cbn [andb].
    + destruct (Z.ltb_spec (n + 4) 16); [|lia]. rewrite (testbit_high _ flags 4), (Z.testbit_neg_r iobj) by lia.
      rewrite orb_false_r. simpl. f_equal. lia.
    + by rewrite (testbit_high n dobj 2) by lia.
  - rewrite obj_mask_testbit, pack_testbit by lia. destruct (Z.ltb_spec n 2); cbn [andb].
    + destruct (Z.ltb_spec (n + 6) 16); [|lia]. rewrite (testbit_high _ flags 4), (testbit_high _ dobj 2) by lia.
      simpl. f_equal. lia.
    + by rewrite (testbit_high n iobj 2) by lia.
Qed.

(** Replacing the flags keeps the rest. *)
Lemma replace_flags p flags : 0 <= flags < 16 ->
  let p' := uwrap 16 (Z.lor (uwrap 16 (Z.land p (Z.lnot PERMMASK))) flags) in
  Z.land p' PERMMASK = flags /\ (forall k n, 4 <= n + k < 16 -> 0 <= n -> 0 <= k -> Z.testbit p' (n + k) = Z.testbit p (n + k)).
Proof.
  intros Hf p'. assert (Hb : forall n, 0 <= n -> Z.testbit p' n = (n <? 16) && ((Z.testbit p n && negb (n <? 4)) || Z.testbit flags n)).
  { intros n Hn. unfold p'. rewrite uwrap_testbit, Z.lor_spec, uwrap_testbit, Z.land_spec, Z.lnot_spec by lia.
    change PERMMASK with (Z.ones 4). rewrite mask_testbit by lia. by destruct (n <? 16). }
  split.
  - apply Z.bits_inj'. intros n Hn. rewrite perm_mask_testbit, Hb by lia. destruct (Z.ltb_spec n 4); cbn [andb negb].
    + destruct (Z.ltb_spec n 16); [|lia]. by rewrite andb_false_r.
    + by rewrite (testbit_high n flags 4) by lia.
  - intros k n Hn ? ?. rewrite Hb by lia. destruct (Z.ltb_spec (n + k) 16); [|lia]. destruct (Z.ltb_spec (n + k) 4); [lia|].
    rewrite (testbit_high (n + k) flags 4) by lia. by rewrite orb_false_r, andb_true_r.
Qed.

Lemma specs_of_bits p p' : (forall n, 4 <= n < 8 -> Z.testbit p' n = Z.testbit p n) ->
  Z.land (Z.shiftr p' DOBJSHIFT) OBJMASK = Z.land (Z.shiftr p DOBJSHIFT) OBJMASK /\
  Z.land (Z.shiftr p' IOBJSHIFT) OBJMASK = Z.land (Z.shiftr p IOBJSHIFT) OBJMASK.
Proof.
  intros H. unfold DOBJSHIFT, IOBJSHIFT.
  split; apply Z.bits_inj'; intros n Hn; rewrite !obj_mask_testbit by lia.
  all: destruct (Z.ltb_spec n 2); [rewrite H by lia; done|done].
Qed.

(** ** Handles *)

Lemma update_inv x f d d' : update x f d = Some d' ->
  exists o, objects d !! x = Some o /\ d' = with_objects (<[x := f o]>) d.
Proof. unfold update. destruct (objects d !! x) as [o|]; [|done]. intros [= <-]. by exists o. Qed.

Lemma get_set_verbdefs l o : o_verbdefs (set_verbdefs l o) = l.
Proof. by destruct o. Qed.

Lemma deref_inv d h v : deref d h = Some v -> exists o, objects d !! h_definer h = Some o /\
  find (fun w => v_addr w =? h_verbdef h) (o_verbdefs o) = Some v /\ v ∈ o_verbdefs o /\ v_addr v = h_verbdef h.
Proof.
  unfold deref. destruct (objects d !! h_definer h) as [o|]; [|done]. cbn [mbind option_bind]. intros H.
  exists o. split; [done|]. split; [done|]. apply find_some in H as [Hin E]. split; [by apply list_elem_of_In|lia].
Qed.

Lemma find_write_at a b f l : (forall v, v_addr (f v) = v_addr v) ->
  find (fun w => v_addr w =? b) (write_at a f l) =
  (if a =? b then f else id) <$> find (fun w => v_addr w =? b) l.
Proof.
  intros Hf. induction l as [|w l IH]; [done|]. unfold write_at in *. cbn [fmap list_fmap find].
  destruct (Z.eqb_spec (v_addr w) a) as [E|E].
  - rewrite Hf. destruct (Z.eqb_spec (v_addr w) b) as [E'|E'].
    + destruct (Z.eqb_spec a b); [done|lia].
    + apply IH.
  - destruct (Z.eqb_spec (v_addr w) b) as [E'|E'].
    + destruct (Z.eqb_spec a b); [lia|done].
    + apply IH.
Qed.

(** A write through a handle is seen through it and through no other. *)
Lemma write_verb_spec d h v f : deref d h = Some v -> (forall v, v_addr (f v) = v_addr v) ->
  exists d', write_verb d h f = Some d' /\ deref d' h = Some (f v) /\
    (forall h', h' <> h -> deref d' h' = deref d h') /\
    (forall x, set_verbdefs [] <$> objects d' !! x = set_verbdefs [] <$> objects d !! x) /\
    (exists m, d' = with_objects (fun _ => m) d) /\
    (forall x, (map v_addr ∘ o_verbdefs) <$> objects d' !! x = (map v_addr ∘ o_verbdefs) <$> objects d !! x).
Proof.
  intros Hd Hf. destruct (deref_inv _ _ _ Hd) as (o & Ho & Hfind & _ & Ha).
  unfold write_verb. rewrite Hd. cbn [mbind option_bind]. rewrite (update_Some _ _ _ _ Ho).
  eexists. split; [done|]. split; [|split; [|split; [|split]]].
  - unfold deref. simpl. rewrite lookup_insert_eq. cbn [mbind option_bind].
    rewrite get_set_verbdefs, find_write_at, Hfind, Z.eqb_refl by done. done.
  - intros h' Hne. unfold deref. simpl. destruct (decide (h_definer h' = h_definer h)) as [E|E].
    + rewrite E, lookup_insert_eq, Ho. cbn [mbind option_bind]. rewrite get_set_verbdefs, find_write_at by done.
      destruct (Z.eqb_spec (h_verbdef h) (h_verbdef h')); [destruct h, h'; simpl in *; congruence|].
      by rewrite option_fmap_id.
    + by rewrite lookup_insert_ne.
  - intros x. simpl. destruct (decide (x = h_definer h)) as [->|]; [|by rewrite lookup_insert_ne].
    rewrite lookup_insert_eq, Ho. simpl. f_equal. by destruct o.
  - by exists (<[h_definer h := set_verbdefs (write_at (h_verbdef h) f (o_verbdefs o)) o]> (objects d)).
  - intros x. simpl. destruct (decide (x = h_definer h)) as [->|]; [|by rewrite lookup_insert_ne].
    rewrite lookup_insert_eq, Ho. simpl. f_equal. rewrite get_set_verbdefs. unfold write_at.
    rewrite <- list_fmap_compose. apply list_fmap_ext. intros i w _. simpl. by destruct (_ =? _).
Qed.

Lemma unlink_verb_spec a l1 v l2 : v_addr v = a -> a ∉ v_addr <$> l1 -> unlink_verb a (l1 ++ v :: l2) = Some (l1 ++ l2).
Proof.
  intros Ha. induction l1 as [|w l1 IH]; intros Hn; simpl.
  - by destruct (Z.eqb_spec (v_addr v) a).
  - rewrite fmap_cons in Hn. apply not_elem_of_cons in Hn as [Hw Hn]. destruct (Z.eqb_spec (v_addr w) a); [congruence|].
    by rewrite IH.
Qed.

Lemma fresh_addr d x o : verbs_ok d -> objects d !! x = Some o -> next_addr d ∉ v_addr <$> o_verbdefs o.
Proof.
  intros Hv Ho Hin. destruct (Hv x o Ho) as [_ Hf]. apply list_elem_of_fmap in Hin as (v & E & Hin).
  rewrite Forall_forall in Hf. specialize (Hf v Hin). lia.
Qed.

Lemma flush_fields d : exists c, db_priv_affected_callable_verb_lookup d = with_vcache c d /\
  (vc_table c = None \/ vc_table c = Some ∅) /\ vc_size c = vc_size (vcache d).
Proof.
  unfold db_priv_affected_callable_verb_lookup. destruct (vc_table (vcache d)) eqn:E.
  - eexists. split; [done|]. split; [by right|done].
  - exists (vcache d). split; [by destruct d|]. split; [by left|done].
Qed.

Lemma add_verb_spec d oid o vnames owner flags dobj prep iobj :
  table_ok d -> verbs_ok d -> objects d !! oid = Some o -> Z.of_nat (length (o_verbdefs o)) < INT32_MAX ->
  exists d' v, db_add_verb d oid vnames owner flags dobj prep iobj =
      Some (d', Z.of_nat (length (o_verbdefs o)) + 1) /\
    v = mkVerbdef (next_addr d) vnames None owner (pack_specs flags dobj iobj) (swrap 16 prep) /\
    objects d' = <[oid := set_verbdefs (o_verbdefs o ++ [v]) o]> (objects d) /\
    next_addr d' = next_addr d + 1 /\ num_objects d' = num_objects d /\ max_objects d' = max_objects d /\
    all_users d' = all_users d /\ vcache d' = vcache (db_priv_affected_callable_verb_lookup d) /\ verbs_ok d'.
Proof.
  intros Ht Hv Ho Hlen. unfold db_add_verb. rewrite find_object_objects, Ho by done. cbn [mbind option_bind].
  destruct (flush_fields d) as (c & -> & _ & _). unfold update. simpl. rewrite Ho. cbn [mbind option_bind].
  rewrite int_id by (unfold INT32_MIN, INT32_MAX in *; lia).
  eexists _, _. split; [done|]. split; [done|]. split; [done|]. do 5 (split; [done|]).
  intros x ox Hx. simpl in Hx. destruct (decide (x = oid)) as [->|].
  - rewrite lookup_insert_eq in Hx. injection Hx as <-. rewrite get_set_verbdefs, fmap_app.
    destruct (Hv oid o Ho) as [Hnd Hf]. split.
    + apply NoDup_app. split; [done|]. split; [|apply NoDup_singleton]. intros a Ha ->%list_elem_of_singleton.
      by eapply fresh_addr.
    + simpl. apply Forall_app. split; [eapply Forall_impl; [done|]; simpl; lia|]. repeat constructor. simpl. lia.
  - rewrite lookup_insert_ne in Hx by done. destruct (Hv x ox Hx) as [? Hf]. split; [done|]. simpl.
    eapply Forall_impl; [done|]. simpl. lia.
Qed.

Lemma find_unique l1 v l2 : NoDup (v_addr <$> l1 ++ v :: l2) ->
  find (fun w => v_addr w =? v_addr v) (l1 ++ v :: l2) = Some v.
Proof.
  rewrite fmap_app, fmap_cons. intros (_ & H & _)%NoDup_app. rewrite find_app. simpl. rewrite Z.eqb_refl.
  destruct (find _ l1) as [w|] eqn:E; [|done]. apply find_some in E as [Hin E]. exfalso.
  apply (H (v_addr w)); [apply list_elem_of_fmap_2; by apply list_elem_of_In|]. apply elem_of_cons. left. lia.
Qed.

Lemma delete_verb_spec d h v : table_ok d -> verbs_ok d -> deref d h = Some v ->
  exists d' o l1 l2, db_delete_verb d (Some h) = Some d' /\ objects d !! h_definer h = Some o /\
    o_verbdefs o = l1 ++ v :: l2 /\ objects d' = <[h_definer h := set_verbdefs (l1 ++ l2) o]> (objects d) /\
    next_addr d' = next_addr d /\ num_objects d' = num_objects d /\ max_objects d' = max_objects d /\
    all_users d' = all_users d /\ vcache d' = vcache (db_priv_affected_callable_verb_lookup d) /\ verbs_ok d'.
Proof.
  intros Ht Hv Hd. destruct (deref_inv _ _ _ Hd) as (o & Ho & _ & Hin & Ha).
  apply list_elem_of_split in Hin as (l1 & l2 & El). unfold db_delete_verb. cbn [mbind option_bind].
  rewrite find_object_objects, Ho by done. cbn [mbind option_bind].
  destruct (Hv _ o Ho) as [Hnd Hf]. rewrite El in Hnd, Hf. rewrite El, unlink_verb_spec; [|done|].
  2: { rewrite fmap_app, fmap_cons in Hnd. apply NoDup_app in Hnd as (_ & H & _). intros Hi. apply (H _ Hi).
       apply elem_of_cons. by left. }
  cbn [mbind option_bind]. destruct (flush_fields d) as (c & -> & _ & _). unfold update. simpl. rewrite Ho.
  eexists _, o, l1, l2. split; [done|]. do 3 (split; [done|]). do 5 (split; [done|]).
  intros x ox Hx. simpl in Hx |- *. destruct (decide (x = h_definer h)) as [->|].
  - rewrite lookup_insert_eq in Hx. injection Hx as <-. rewrite get_set_verbdefs. split.
    + rewrite fmap_app, fmap_cons in Hnd. rewrite fmap_app. apply NoDup_app in Hnd as (H1 & H2 & H3).
      apply NoDup_cons in H3 as [_ H3]. apply NoDup_app. split; [done|]. split; [|done].
      intros a Hi Hi2. apply (H2 a Hi). apply elem_of_cons. by right.
    + apply Forall_app in Hf as [H1 H2]. apply Forall_cons in H2 as [_ H2]. by apply Forall_app.
  - rewrite lookup_insert_ne in Hx by done. by apply Hv with x.
Qed.

Lemma verbdefs_id o : set_verbdefs (o_verbdefs o) o = o.
Proof. by destruct o. Qed.

Lemma indexed_last f l (v : Verbdef) : (forall i, f i = (i =? Z.of_nat (length l) + 1)) ->
  find (fun '(i, _) => f i) (zip (seqZ 1 (Z.of_nat (length (l ++ [v])))) (l ++ [v])) = Some (Z.of_nat (length l) + 1, v).
Proof.
  intros Hf. rewrite length_app, Nat2Z.inj_add. simpl (Z.of_nat (length [v])). rewrite seqZ_app by lia.
  rewrite zip_with_app by (rewrite length_seqZ; lia). rewrite find_app.
  destruct (find _ (zip (seqZ 1 (Z.of_nat (length l))) l)) as [[i w]|] eqn:E.
  - apply find_some in E as [Hin E]. rewrite Hf in E. apply list_elem_of_In, elem_of_zip_l, elem_of_seqZ in Hin. lia.
  - rewrite Z.add_comm. simpl. by rewrite Hf, Z.eqb_refl.
Qed.

(** A verb of the end of the list, and that it can only be there. *)
Lemma last_verb l v l1 l2 : NoDup (v_addr <$> l ++ [v]) -> l ++ [v] = l1 ++ v :: l2 -> l1 = l /\ l2 = [].
Proof.
  intros Hnd El. destruct (app_case l2) as [->|(l2' & w & ->)].
  - split; [|done]. symmetry. by apply (app_inj_tail _ _ v v).
  - exfalso. rewrite app_comm_cons, app_assoc in El. apply app_inj_tail in El as [El <-].
    rewrite El, fmap_app in Hnd. apply NoDup_app in Hnd as (_ & H & _).
    apply (H (v_addr v)); [|by left]. apply list_elem_of_fmap_2. set_solver.
Qed.

Lemma set_verb_flags_spec d h v flags : deref d h = Some v -> 0 <= flags < 16 ->
  exists d', db_set_verb_flags d (Some h) flags = Some d' /\ db_verb_flags d' (Some h) = Some flags /\
    db_verb_arg_specs d' (Some h) = Some (dobj_spec v, v_prep v, iobj_spec v).
Proof.
  intros Hd Hf. unfold db_set_verb_flags. destruct (flush_fields d) as (c & -> & _ & _). cbn [mbind option_bind].
  edestruct (write_verb_spec (with_vcache c d) h v) as (d' & -> & Hd' & _); [exact Hd| |]; [done|].
  exists d'. split; [done|]. unfold db_verb_flags, db_verb_arg_specs, dobj_spec, iobj_spec. cbn [mbind option_bind].
  rewrite Hd'. cbn [mbind option_bind v_perms set_v_perms v_prep].
  destruct (replace_flags (v_perms v) flags Hf) as [R1 R2]. rewrite R1. split; [done|].
  destruct (specs_of_bits (v_perms v) (uwrap 16 (Z.lor (uwrap 16 (Z.land (v_perms v) (Z.lnot PERMMASK))) flags))) as [-> ->].
  { intros n Hn. specialize (R2 0 n). rewrite Z.add_0_r in R2. apply R2; lia. }
  done.
Qed.

Lemma set_verb_arg_specs_spec d h v dobj prep iobj : deref d h = Some v ->
  0 <= dobj < 4 -> 0 <= iobj < 4 -> - 2 ^ 15 <= prep < 2 ^ 15 ->
  exists d', db_set_verb_arg_specs d (Some h) dobj prep iobj = Some d' /\
    db_verb_flags d' (Some h) = db_verb_flags d (Some h) /\
    db_verb_arg_specs d' (Some h) = Some (dobj, prep, iobj).
Proof.
  intros Hd Hdo Hio Hp. unfold db_set_verb_arg_specs. destruct (flush_fields d) as (c & -> & _ & _). cbn [mbind option_bind].
  edestruct (write_verb_spec (with_vcache c d) h v) as (d' & -> & Hd' & _); [exact Hd| |]; [done|].
  exists d'. split; [done|]. unfold db_verb_flags, db_verb_arg_specs, dobj_spec, iobj_spec. cbn [mbind option_bind].
  rewrite Hd', Hd. cbn [mbind option_bind v_perms set_v_perms v_prep set_v_prep].
  assert (Hf : 0 <= Z.land (v_perms v) PERMMASK < 16).
  { change PERMMASK with (2 ^ 4 - 1). rewrite land_low by lia. apply Z.mod_pos_bound. lia. }
  destruct (pack_fields _ dobj iobj Hf Hdo Hio) as (-> & -> & ->). by rewrite swrap_id by lia.
Qed.

(** ** Theorems *)


(** C27: what is stored in a verb is what comes back: after adding a verb its
    handle shows the names, owner, flags and argument specifiers given, the
    packed bit fields do not disturb each other, also when one is changed
    later; no other verb changes, and deleting the verb undoes the addition. *)
Theorem verb_record_correct (d : db) (oid : Z) (o : Object) (vnames : bytes) (owner flags dobj prep iobj : Z) :
  table_ok d -> verbs_ok d -> objects d !! oid = Some o -> Z.of_nat (length (o_verbdefs o)) < INT32_MAX ->
  0 <= flags < 16 -> 0 <= dobj < 4 -> 0 <= iobj < 4 -> - 2 ^ 15 <= prep < 2 ^ 15 ->
  exists d' n h, db_add_verb d oid vnames owner flags dobj prep iobj = Some (d', n) /\ verbs_ok d' /\
    db_count_verbs d' oid = Some n /\ db_find_indexed_verb d' oid n = Some (Some h) /\
    db_verb_definer (Some h) = Some oid /\ db_verb_names d' (Some h) = Some vnames /\
    db_verb_owner d' (Some h) = Some owner /\ db_verb_flags d' (Some h) = Some flags /\
    db_verb_arg_specs d' (Some h) = Some (dobj, prep, iobj) /\
    (forall h', h' <> h -> deref d' h' = deref d h') /\
    (exists d'', db_delete_verb d' (Some h) = Some d'' /\ objects d'' = objects d) /\
    (forall flags', 0 <= flags' < 16 -> exists d'', db_set_verb_flags d' (Some h) flags' = Some d'' /\
       db_verb_flags d'' (Some h) = Some flags' /\ db_verb_arg_specs d'' (Some h) = Some (dobj, prep, iobj)) /\
    (forall dobj' iobj' prep', 0 <= dobj' < 4 -> 0 <= iobj' < 4 -> - 2 ^ 15 <= prep' < 2 ^ 15 ->
       exists d'', db_set_verb_arg_specs d' (Some h) dobj' prep' iobj' = Some d'' /\
       db_verb_flags d'' (Some h) = Some flags /\ db_verb_arg_specs d'' (Some h) = Some (dobj', prep', iobj')).
Proof.
  intros Ht Hv Ho Hlen Hf Hd Hi Hp.
  destruct (add_verb_spec d oid o vnames owner flags dobj prep iobj Ht Hv Ho Hlen)
    as (d' & v & -> & Ev & Eo & En & En' & Em & Eu & Ec & Hv').
  assert (Ht' : table_ok d').
  { destruct Ht as (H1 & H2 & H3). unfold table_ok. rewrite En', Em. split; [done|]. split; [done|]. intros x ox Hx.
    rewrite Eo in Hx. destruct (decide (x = oid)) as [->|]; [|rewrite lookup_insert_ne in Hx by done; by apply H3].
    rewrite lookup_insert_eq in Hx. injection Hx as <-. destruct (H3 oid o Ho). by destruct o. }
  set (h := mkHandle oid (v_addr v)). set (o' := set_verbdefs (o_verbdefs o ++ [v]) o) in Eo.
  assert (Ho' : objects d' !! oid = Some o') by (by rewrite Eo, lookup_insert_eq).
  assert (Evs : o_verbdefs o' = o_verbdefs o ++ [v]) by apply get_set_verbdefs.
  assert (Hder : deref d' h = Some v).
  { unfold deref. simpl. rewrite Ho'. cbn [mbind option_bind]. rewrite Evs. apply find_unique. rewrite <- Evs. by apply (Hv' oid). }
  assert (Hperms : v_perms v = pack_specs flags dobj iobj) by by rewrite Ev.
  assert (Hprep : v_prep v = prep) by (rewrite Ev; simpl; apply swrap_id; lia).
  destruct (pack_fields flags dobj iobj Hf Hd Hi) as (F1 & F2 & F3).
  exists d', (Z.of_nat (length (o_verbdefs o)) + 1), h. split; [done|]. split; [done|].
  unfold db_count_verbs, db_find_indexed_verb. rewrite find_object_objects, Ho' by done. cbn [mbind option_bind].
  rewrite Evs. split.
  { f_equal. rewrite length_app, Nat2Z.inj_add. simpl. apply int_id. unfold INT32_MIN, INT32_MAX in *. lia. }
  split.
  { rewrite (indexed_last (fun i => i =? Z.of_nat (length (o_verbdefs o)) + 1)) by done. simpl. f_equal. f_equal.
    unfold h. f_equal. destruct Ht' as (_ & _ & H). by apply (H oid o'). }
  split; [done|]. unfold db_verb_names, db_verb_owner, db_verb_flags, db_verb_arg_specs. cbn [mbind option_bind].
  rewrite Hder. cbn [mbind option_bind]. unfold dobj_spec, iobj_spec. rewrite Hperms, F1, F2, F3, Hprep, Ev. cbn [v_name v_owner].
  do 4 (split; [done|]). split; [|split; [|split]].
  - intros h' Hne. unfold deref. rewrite Eo. destruct (decide (h_definer h' = oid)) as [E|E].
    + rewrite E, lookup_insert_eq, Ho. cbn [mbind option_bind]. rewrite Evs, find_app.
      destruct (find _ (o_verbdefs o)); [done|]. simpl. destruct (Z.eqb_spec (v_addr v) (h_verbdef h')); [|done].
      destruct Hne. unfold h. destruct h'. simpl in *. congruence.
    + by rewrite lookup_insert_ne.
  - destruct (delete_verb_spec d' h v Ht' Hv' Hder) as (d'' & o2 & l1 & l2 & E & Ho2 & El & Eo2 & _).
    exists d''. split; [done|]. simpl in Ho2. rewrite Ho' in Ho2. injection Ho2 as <-.
    destruct (last_verb (o_verbdefs o) v l1 l2) as [-> ->]; [rewrite <- Evs; by apply (Hv' oid)|by rewrite <- Evs|].
    rewrite Eo2, Eo. simpl. rewrite insert_insert, decide_True, app_nil_r by done. unfold o'.
    replace (set_verbdefs (o_verbdefs o) (set_verbdefs (o_verbdefs o ++ [v]) o)) with o by by destruct o.
    by apply insert_id.
  - intros flags' Hf'. destruct (set_verb_flags_spec d' h v flags' Hder Hf') as (d'' & E & Ef & Es).
    exists d''. split; [done|]. split; [done|]. unfold db_verb_arg_specs, dobj_spec, iobj_spec in Es.
    by rewrite Hperms, F2, F3, Hprep in Es.
  - intros dobj' iobj' prep' Hd' Hi' Hp'.
    destruct (set_verb_arg_specs_spec d' h v dobj' prep' iobj' Hder Hd' Hi' Hp') as (d'' & E & Ef & Es).
    exists d''. split; [done|]. split; [|done]. unfold db_verb_flags in Ef. cbn [mbind option_bind] in Ef.
    rewrite Hder in Ef. cbn [mbind option_bind] in Ef. by rewrite Hperms, F1 in Ef.
Qed.

Lemma sample_verbs : verbs_ok sample.
Proof.
  intros x o Ho. apply elem_of_list_to_map_2 in Ho.
  repeat (apply elem_of_cons in Ho as [Ho|Ho]; [injection Ho as -> ->; split; constructor|]). by apply elem_of_nil in Ho.
Qed.

(** A verb "get take" on the root, found from its grandchild, twice. *)
Definition verb_sample : db :=
  match db_add_verb sample 1 (BS "get take") 1 5 ASPEC_THIS PREP_NONE ASPEC_NONE with
  | Some (d, _) => d
  | None => sample
  end.


Example verb_record_correct_witness :
  exists d' h, db_add_verb sample 1 (BS "get take") 1 5 ASPEC_THIS PREP_NONE ASPEC_NONE = Some (d', 1) /\
    db_verb_arg_specs d' (Some h) = Some (ASPEC_THIS, PREP_NONE, ASPEC_NONE).
Proof.
  destruct (objects sample !! 1) as [o|] eqn:Ho; [|vm_compute in Ho; discriminate].
  assert (El : o_verbdefs o = []) by (vm_compute in Ho; by injection Ho as <-).
  destruct (verb_record_correct sample 1 o (BS "get take") 1 5 ASPEC_THIS PREP_NONE ASPEC_NONE)
    as (d' & n & h & E & _ & Ec & _ & _ & _ & _ & _ & Es & _).
  - apply table_check_ok. vm_compute. reflexivity.
  - exact sample_verbs.
  - exact Ho.
  - rewrite El. reflexivity.
  - lia.
  - unfold ASPEC_THIS. lia.
  - unfold ASPEC_NONE. lia.
  - unfold PREP_NONE. lia.
  - exists d', h. split; [|exact Es].
    assert (G : snd <$> db_add_verb sample 1 (BS "get take") 1 5 ASPEC_THIS PREP_NONE ASPEC_NONE = Some 1)
      by (vm_compute; reflexivity).
    rewrite E in G. injection G as ->. exact E.
Defined.
