(* ===== verification/Properties.v ===== *)
(** * Properties (db_properties.c)

    Every object holds one value slot for each property defined on it or on
    one of its ancestors: first the slots of the properties it defines itself,
    in the order of their definitions, then those of its parent's, and so on.
    A slot whose value is [VClear] inherits the parent's value.

    A non-null property handle points to a slot ([PSlot]) or to the number of
    the object whose built-in property it is ([PBuiltIn]); it is meant to be
    used before the next change or lookup. *)

From S2P Require Import Prelude Utf CString Values Streams Functions Lists Db Links Hierarchy Attributes.

(** ** Data *)

Inductive bi_prop :=
| BP_NONE | BP_NAME | BP_OWNER | BP_PROGRAMMER | BP_WIZARD | BP_R | BP_W | BP_F
| BP_LOCATION | BP_CONTENTS.

#[export] Instance bi_prop_eq_dec : EqDecision bi_prop.
Proof. solve_decision. Defined.

Inductive prop_ptr := PNull | PBuiltIn (oid : Z) | PSlot (oid : Z) (n : Z).

Record db_prop_handle := mkPropHandle {
  built_in : bi_prop;
  definer : Z;
  ptr : prop_ptr
}.

Definition PF_READ : Z := 1.
Definition PF_WRITE : Z := 2.
Definition PF_CHOWN : Z := 4.

(** The table of [db_find_property]. *)
Definition ptable : list (bytes * bi_prop) :=
  zip BUILTIN_PROPERTIES
    [BP_NAME; BP_OWNER; BP_PROGRAMMER; BP_WIZARD; BP_R; BP_W; BP_F; BP_LOCATION; BP_CONTENTS].

(** ** Definitions *)

Definition dbpriv_new_propdef (name : bytes) : Propdef := mkPropdef name (str_hash name).

(** [for (o = ...; o; o = dbpriv_find_object(o->parent)) nprops += ...]. *)
Fixpoint count_loop (fuel : nat) (d : db) (o : option Object) (nprops : Z) : option Z :=
  match o with
  | None => Some nprops
  | Some o =>
      match fuel with
      | O => None
      | S f => count_loop f d (dbpriv_find_object d (o_parent o)) (nprops + pl_cur_length (o_propdefs o))
      end
  end.
Definition dbpriv_count_properties (d : db) (oid : Z) : option Z :=
  count_loop (ll_fuel d) d (dbpriv_find_object d oid) 0.

(** [p.hash == hash && !mystrcasecmp(p.name, name)]. *)
Definition propdef_matches (hash : Z) (name : bytes) (p : Propdef) : bool :=
  (pd_hash p =? hash) && (mystrcasecmp (pd_name p) name =? 0).

(** The search loop over the definitions of one object. *)
Fixpoint find_propdef (hash : Z) (name : bytes) (defs : list Propdef) (i : Z) : option Z :=
  match defs with
  | [] => None
  | p :: defs => if propdef_matches hash name p then Some i else find_propdef hash name defs (i + 1)
  end.

Fixpoint property_defined_at_or_below (fuel : nat) (d : db) (pname : bytes) (phash : Z) (oid : Z)
    : option bool :=
  match fuel with
  | O => None
  | S f =>
      o ← dbpriv_find_object d oid;
      match find_propdef phash pname (pl_l (o_propdefs o)) 0 with
      | Some _ => Some true
      | None => child_exists (ll_fuel d) (property_defined_at_or_below f d pname phash) d (o_child o)
      end
  end.

(** [n] slots from [i] on; a read outside the array is [None]. *)
Definition slots (l : list Pval) (i n : Z) : option (list Pval) :=
  if n <=? 0 then Some []
  else if (0 <=? i) && (i + n <=? Z.of_nat (length l))
  then Some (take (Z.to_nat n) (drop (Z.to_nat i) l)) else None.

Definition set_pv_var (v : Var) (p : Pval) : Pval := mkPval v (pv_owner p) (pv_perms p).
Definition set_pv_owner (w : Z) (p : Pval) : Pval := mkPval (pv_var p) w (pv_perms p).
Definition set_pv_perms (w : Z) (p : Pval) : Pval := mkPval (pv_var p) (pv_owner p) w.
Definition has_perm (p : Pval) (flag : Z) : bool := negb (Z.land (pv_perms p) flag =? 0).

(** [if (perms & PF_CHOWN) owner = ...]. *)
Definition chown (owner : Z) (p : Pval) : Pval :=
  if has_perm p PF_CHOWN then set_pv_owner owner p else p.

Definition insert_prop (d : db) (oid pos : Z) (pval : Pval) : option db :=
  nprops ← dbpriv_count_properties d oid;
  o ← dbpriv_find_object d oid;
  if (0 <=? pos) && (pos <? nprops) then
    first ← slots (o_propval o) 0 pos;
    rest ← slots (o_propval o) pos (nprops - (pos + 1));
    update oid (set_propval (first ++ chown (o_owner o) pval :: rest)) d
  else None.

Fixpoint insert_prop_recursively (fuel : nat) (d : db) (root root_pos : Z) (pv : Pval) : option db :=
  match fuel with
  | O => None
  | S f =>
      d ← insert_prop d root root_pos pv;
      let pv := set_pv_var VClear pv in
      o ← dbpriv_find_object d root;
      child_loop (ll_fuel d)
        (fun d c => oc ← dbpriv_find_object d c;
                    let new_prop_count := pl_cur_length (o_propdefs oc) in
                    insert_prop_recursively f d c (new_prop_count + root_pos) pv) d (o_child o)
  end.

(** *** Lookup *)

Fixpoint find_builtin (hash : Z) (name : bytes) (t : list (bytes * bi_prop)) : option bi_prop :=
  match t with
  | [] => None
  | (n, p) :: t => if (str_hash n =? hash) && (mystrcasecmp name n =? 0) then Some p
                   else find_builtin hash name t
  end.

Definition add_to_list (data : option arr * Z) (c : Z) : (option arr * Z) * bool :=
  let i := snd data + 1 in
  ((a ← fst data; awrite a i (VObj c), i), false).

Definition flag_value (d : db) (oid f : Z) : option Var :=
  b ← db_object_has_flag d oid f; Some (VInt (if b : bool then 1 else 0)).

Definition get_bi_value (d : db) (h : bi_prop) (oid : Z) : option Var :=
  match h with
  | BP_NAME => s ← db_object_name d oid; Some (VStr s)
  | BP_OWNER => o ← db_object_owner d oid; Some (VObj o)
  | BP_PROGRAMMER => flag_value d oid FLAG_PROGRAMMER
  | BP_WIZARD => flag_value d oid FLAG_WIZARD
  | BP_R => flag_value d oid FLAG_READ
  | BP_W => flag_value d oid FLAG_WRITE
  | BP_F => flag_value d oid FLAG_FERTILE
  | BP_LOCATION => l ← db_object_location d oid; Some (VObj l)
  | BP_CONTENTS =>
      n ← db_count_contents d oid;
      r ← new_list n;
      '((a, _), _) ← db_for_all_contents d oid add_to_list (Some r, 0);
      a ← a; l ← finish a; Some (VList l)
  | BP_NONE => None
  end.

(** The search through the ancestors: the definer and the slot number. *)
Fixpoint find_prop_loop (fuel : nat) (d : db) (o : option Object) (hash : Z) (name : bytes) (n : Z)
    : option (option (Z * Z)) :=
  match o with
  | None => Some None
  | Some o =>
      match fuel with
      | O => None
      | S f =>
          match find_propdef hash name (pl_l (o_propdefs o)) 0 with
          | Some i => Some (Some (o_id o, n + i))
          | None => find_prop_loop f d (dbpriv_find_object d (o_parent o)) hash name
                      (n + pl_cur_length (o_propdefs o))
          end
      end
  end.

Definition slot (l : list Pval) (n : Z) : option Pval := if n <? 0 then None else l !! Z.to_nat n.

(** [while (prop->var.type == TYPE_CLEAR)]: up to the object whose slot has a value. *)
Fixpoint clear_loop (fuel : nat) (d : db) (o : Object) (n : Z) : option Var :=
  match fuel with
  | O => None
  | S f =>
      prop ← slot (o_propval o) n;
      match pv_var prop with
      | VClear =>
          o' ← dbpriv_find_object d (o_parent o);
          clear_loop f d o' (n - pl_cur_length (o_propdefs o))
      | v => Some v
      end
  end.

(** The handle, and the value if [value] is wanted. *)
Definition db_find_property (d : db) (oid : Z) (name : bytes) (value : bool)
    : option (db_prop_handle * option Var) :=
  let hash := str_hash name in
  match find_builtin hash name ptable with
  | Some p =>
      let h := mkPropHandle p NOTHING (PBuiltIn oid) in
      if value then v ← get_bi_value d p oid; Some (h, Some v) else Some (h, None)
  | None =>
      r ← find_prop_loop (ll_fuel d) d (dbpriv_find_object d oid) hash name 0;
      match r with
      | None => Some (mkPropHandle BP_NONE NOTHING PNull, None)
      | Some (a, n) =>
          let h := mkPropHandle BP_NONE a (PSlot oid n) in
          if value then
            o ← dbpriv_find_object d oid;
            v ← clear_loop (ll_fuel d) d o n; Some (h, Some v)
          else Some (h, None)
      end
  end.

Definition is_null (h : db_prop_handle) : bool :=
  match ptr h with PNull => true | _ => false end.

(** *** Adding, renaming and deleting definitions *)

(** [props->l[i]] is written within the allocated array only. *)
Definition push_propdef (p : Propdef) (props : Proplist) : option Proplist :=
  if pl_cur_length props <? pl_max_length props
  then Some (mkProplist (pl_max_length props) (pl_l props ++ [p])) else None.

Definition grow_propdefs (props : Proplist) : Proplist :=
  if pl_cur_length props =? pl_max_length props
  then mkProplist (if pl_max_length props =? 0 then 8 else int (2 * pl_max_length props)) (pl_l props)
  else props.

Definition db_add_propdef (d : db) (oid : Z) (pname : bytes) (value : Var) (owner flags : Z)
    : option (db * bool) :=
  '(h, _) ← db_find_property d oid pname false;
  below ← (if negb (is_null h) then Some true
           else property_defined_at_or_below (ll_fuel d) d pname (str_hash pname) oid);
  if below : bool then Some (d, false)
  else
    o ← dbpriv_find_object d oid;
    props ← push_propdef (dbpriv_new_propdef pname) (grow_propdefs (o_propdefs o));
    d ← update oid (set_propdefs props) d;
    d ← insert_prop_recursively (ll_fuel d) d oid (pl_cur_length props - 1)
          (mkPval value owner (uwrap 16 flags));
    Some (d, true).

Definition db_rename_propdef (d : db) (oid : Z) (old new : bytes) : option (db * bool) :=
  o ← dbpriv_find_object d oid;
  let props := o_propdefs o in
  match find_propdef (str_hash old) old (pl_l props) 0 with
  | None => Some (d, false)
  | Some i =>
      taken ← (if negb (mystrcasecmp old new =? 0) then
                 '(h, _) ← db_find_property d oid new false;
                 if negb (is_null h) then Some true
                 else property_defined_at_or_below (ll_fuel d) d new (str_hash new) oid
               else Some false);
      if taken : bool then Some (d, false)
      else
        d ← update oid (set_propdefs (mkProplist (pl_max_length props)
              (<[Z.to_nat i := dbpriv_new_propdef new]> (pl_l props)))) d;
        Some (d, true)
  end.

Definition remove_prop (d : db) (oid pos : Z) : option db :=
  o ← dbpriv_find_object d oid;
  nprops ← dbpriv_count_properties d oid;
  _ ← slot (o_propval o) pos;
  if nprops =? 0 then update oid (set_propval []) d
  else
    first ← slots (o_propval o) 0 pos;
    rest ← slots (o_propval o) (pos + 1) (nprops - pos);
    update oid (set_propval (first ++ rest)) d.

Fixpoint remove_prop_recursively (fuel : nat) (d : db) (root root_pos : Z) : option db :=
  match fuel with
  | O => None
  | S f =>
      d ← remove_prop d root root_pos;
      o ← dbpriv_find_object d root;
      child_loop (ll_fuel d)
        (fun d c => oc ← dbpriv_find_object d c;
                    let new_prop_count := pl_cur_length (o_propdefs oc) in
                    remove_prop_recursively f d c (new_prop_count + root_pos)) d (o_child o)
  end.

(** The definitions without the [i]th, in an array of half the size when it is
    less than three eighths full. *)
Definition delete_propdef_at (i : Z) (props : Proplist) : option Proplist :=
  let max := pl_max_length props in
  let l := delete (Z.to_nat i) (pl_l props) in
  if (8 <? max) && (pl_cur_length props <=? max * 3 / 8) then
    let new_size := max / 2 in
    if Z.of_nat (length l) <=? new_size then Some (mkProplist new_size l) else None
  else Some (mkProplist max l).

Definition db_delete_propdef (d : db) (oid : Z) (pname : bytes) : option (db * bool) :=
  o ← dbpriv_find_object d oid;
  match find_propdef (str_hash pname) pname (pl_l (o_propdefs o)) 0 with
  | None => Some (d, false)
  | Some i =>
      props ← delete_propdef_at i (o_propdefs o);
      d ← update oid (set_propdefs props) d;
      d ← remove_prop_recursively (ll_fuel d) d oid i;
      Some (d, true)
  end.

Definition db_count_propdefs (d : db) (oid : Z) : option Z :=
  o ← dbpriv_find_object d oid; Some (pl_cur_length (o_propdefs o)).

Fixpoint propdefs_loop {A} (func : A -> bytes -> A * bool) (data : A) (l : list Propdef) : A * bool :=
  match l with
  | [] => (data, false)
  | p :: l => let '(data, stop) := func data (pd_name p) in
              if stop : bool then (data, true) else propdefs_loop func data l
  end.
Definition db_for_all_propdefs {A} (d : db) (oid : Z) (func : A -> bytes -> A * bool) (data : A)
    : option (A * bool) :=
  o ← dbpriv_find_object d oid; Some (propdefs_loop func data (pl_l (o_propdefs o))).

(** *** Access through a handle *)

Definition read_slot (d : db) (h : db_prop_handle) : option Pval :=
  match ptr h with PSlot oid n => o ← objects d !! oid; slot (o_propval o) n | _ => None end.

Definition write_slot (d : db) (h : db_prop_handle) (f : Pval -> Pval) : option db :=
  match ptr h with
  | PSlot oid n =>
      o ← objects d !! oid; p ← slot (o_propval o) n;
      update oid (set_propval (<[Z.to_nat n := f p]> (o_propval o))) d
  | _ => None
  end.

Definition db_property_value (d : db) (h : db_prop_handle) : option Var :=
  match built_in h, ptr h with
  | BP_NONE, _ => p ← read_slot d h; Some (pv_var p)
  | bi, PBuiltIn oid => get_bi_value d bi oid
  | _, _ => None
  end.

Definition write_flag (d : db) (oid flag : Z) (value : Var) : option db :=
  if is_true value then db_set_object_flag true d oid flag else db_clear_object_flag d oid flag.

Definition db_set_property_value (d : db) (h : db_prop_handle) (value : Var) : option db :=
  match built_in h, ptr h with
  | BP_NONE, _ => write_slot d h (set_pv_var value)
  | BP_NAME, PBuiltIn oid => match value with VStr s => db_set_object_name d oid s | _ => None end
  | BP_OWNER, PBuiltIn oid => match value with VObj o => db_set_object_owner d oid o | _ => None end
  | BP_PROGRAMMER, PBuiltIn oid => write_flag d oid FLAG_PROGRAMMER value
  | BP_WIZARD, PBuiltIn oid => write_flag d oid FLAG_WIZARD value
  | BP_R, PBuiltIn oid => write_flag d oid FLAG_READ value
  | BP_W, PBuiltIn oid => write_flag d oid FLAG_WRITE value
  | BP_F, PBuiltIn oid => write_flag d oid FLAG_FERTILE value
  | _, _ => None
  end.

Definition db_property_owner (d : db) (h : db_prop_handle) : option Z :=
  match built_in h with BP_NONE => p ← read_slot d h; Some (pv_owner p) | _ => None end.
Definition db_set_property_owner (d : db) (h : db_prop_handle) (oid : Z) : option db :=
  match built_in h with BP_NONE => write_slot d h (set_pv_owner oid) | _ => None end.
Definition db_property_flags (d : db) (h : db_prop_handle) : option Z :=
  match built_in h with BP_NONE => p ← read_slot d h; Some (pv_perms p) | _ => None end.
Definition db_set_property_flags (d : db) (h : db_prop_handle) (flags : Z) : option db :=
  match built_in h with BP_NONE => write_slot d h (set_pv_perms (uwrap 16 flags)) | _ => None end.

Definition db_property_allows (d : db) (h : db_prop_handle) (progr flag : Z) : option bool :=
  flags ← db_property_flags d h;
  if negb (Z.land flags flag =? 0) then Some true
  else owner ← db_property_owner d h; Some ((progr =? owner) || is_wizard d progr).

(** *** Changing parents *)

Definition inherit (owner : Z) (p : Pval) : Pval := chown owner (set_pv_var VClear p).

Fixpoint fix_props (fuel : nat) (d : db) (oid parent_local old new common : Z) : option db :=
  match fuel with
  | O => None
  | S f =>
      me ← dbpriv_find_object d oid;
      let local := parent_local + pl_cur_length (o_propdefs me) in
      _ ← slots (o_propval me) local old;
      new_propval ← (if negb (local + new + common =? 0) then
          first ← slots (o_propval me) 0 local;
          inherited ← (if 0 <? new then
                         parent ← dbpriv_find_object d (o_parent me);
                         slots (o_propval parent) parent_local new
                       else Some []);
          rest ← slots (o_propval me) (local + old) common;
          Some (first ++ (inherit (o_owner me) <$> inherited) ++ rest)
        else Some []);
      d ← update oid (set_propval new_propval) d;
      child_loop (ll_fuel d) (fun d c => fix_props f d c local old new common) d (o_child me)
  end.

Fixpoint check_defs (d : db) (l : list Propdef) (oid : Z) : option bool :=
  match l with
  | [] => Some true
  | p :: l =>
      b ← property_defined_at_or_below (ll_fuel d) d (pd_name p) (pd_hash p) oid;
      if b : bool then Some false else check_defs d l oid
  end.
Fixpoint check_loop (fuel : nat) (d : db) (o : option Object) (oid : Z) : option bool :=
  match o with
  | None => Some true
  | Some o =>
      match fuel with
      | O => None
      | S f => b ← check_defs d (pl_l (o_propdefs o)) oid;
               if b : bool then check_loop f d (dbpriv_find_object d (o_parent o)) oid else Some false
      end
  end.
Definition dbpriv_check_properties_for_chparent (d : db) (oid new_parent : Z) : option bool :=
  check_loop (ll_fuel d) d (dbpriv_find_object d new_parent) oid.

(** The two nested loops that look for the nearest common ancestor. *)
Fixpoint is_above (fuel : nat) (d : db) (o1 o2 : Z) : option bool :=
  match fuel with
  | O => None
  | S f => if o2 =? NOTHING then Some false
           else if o1 =? o2 then Some true
           else p ← db_object_parent d o2; is_above f d o1 p
  end.
Fixpoint common_ancestor (fuel : nat) (d : db) (o1 old_parent : Z) : option Z :=
  match fuel with
  | O => None
  | S f => if o1 =? NOTHING then Some NOTHING
           else b ← is_above (ll_fuel d) d o1 old_parent;
                if b : bool then Some o1
                else p ← db_object_parent d o1; common_ancestor f d p old_parent
  end.

Definition dbpriv_fix_properties_after_chparent (d : db) (oid old_parent : Z) : option db :=
  new_parent ← db_object_parent d oid;
  common ← common_ancestor (ll_fuel d) d new_parent old_parent;
  common_props ← (if negb (common =? NOTHING) then dbpriv_count_properties d common else Some 0);
  old_count ← dbpriv_count_properties d old_parent;
  new_count ← dbpriv_count_properties d new_parent;
  fix_props (ll_fuel d) d oid 0 (old_count - common_props) (new_count - common_props) common_props.
