(* ===== verification/PropView.v ===== *)
(** * What the property tables mean (specification of db_properties.c)

    The view of an object's properties: which names it has, who defines each,
    and what its slot holds; the invariant that makes the parallel arrays of
    definitions and slots fit together; and the correctness of counting and
    lookup. *)

From S2P Require Import Prelude Utf CString Values Streams Functions Lists Db Links Hierarchy Attributes Properties.

(** ** Specification *)

(** The definitions on one object, and on a list of ancestors, with the definers. *)
Definition own (d : db) (a : Z) : list Propdef :=
  match objects d !! a with Some o => pl_l (o_propdefs o) | None => [] end.
Definition keys (d : db) (l : list Z) : list (Z * Propdef) := l ≫= fun a => (fun p => (a, p)) <$> own d a.

(** Names count up to case. *)
Definition key_name (p : Z * Propdef) : bytes := casefold (pd_name (snd p)).
Definition builtin_name (k : bytes) : Prop := k ∈ casefold <$> BUILTIN_PROPERTIES.

#[export] Instance builtin_name_dec k : Decision (builtin_name k).
Proof. unfold builtin_name. apply _. Defined.

Definition propdef_ok (p : Propdef) : Prop :=
  cstr (pd_name p) /\ pd_hash p = str_hash (pd_name p) /\ ~ builtin_name (casefold (pd_name p)).

Definition proplist_ok (p : Proplist) : Prop :=
  Forall propdef_ok (pl_l p) /\ pl_cur_length p <= pl_max_length p.

Record props_ok (d : db) : Prop := {
  po_tree : tree_ok d;
  po_defs : forall x o, objects d !! x = Some o -> proplist_ok (o_propdefs o);
  po_len : forall x o l, objects d !! x = Some o -> ancestors d x = Some l ->
    length (o_propval o) = length (keys d l);
  po_own : forall x o i pv, objects d !! x = Some o -> (i < length (pl_l (o_propdefs o)))%nat ->
    o_propval o !! i = Some pv -> pv_var pv <> VClear;
  po_names : forall x l, ancestors d x = Some l -> NoDup (key_name <$> keys d l)
}.

(** The properties of an object, with definers and slots, and lookup by name. *)
Fixpoint assoc (k : bytes) (v : list ((Z * Propdef) * Pval)) : option (Z * Pval) :=
  match v with
  | [] => None
  | (p, pv) :: v => if decide (key_name p = k) then Some (fst p, pv) else assoc k v
  end.

Definition pview (d : db) (x : Z) : list ((Z * Propdef) * Pval) :=
  match ancestors d x, propval d x with
  | Some l, Some v => zip (keys d l) v
  | _, _ => []
  end.

Definition prop_lookup (d : db) (x : Z) (k : bytes) : option (Z * Pval) := assoc k (pview d x).

(** The value: that of the first slot on the way up that is not clear. *)
Fixpoint effective (d : db) (l : list Z) (k : bytes) : option Var :=
  match l with
  | [] => None
  | y :: l => '(_, pv) ← prop_lookup d y k;
              match pv_var pv with VClear => effective d l k | v => Some v end
  end.
Definition prop_value (d : db) (x : Z) (k : bytes) : option Var :=
  l ← ancestors d x; effective d l k.

Definition slot_handle (a x n : Z) : db_prop_handle := mkPropHandle BP_NONE a (PSlot x n).

(** Whether [props_ok] holds, by computation. *)
Definition props_check (d : db) : bool :=
  tree_check d &&
  forallb (fun '(x, o) =>
    let defs := pl_l (o_propdefs o) in
    bool_decide (Forall (fun p => Forall (fun c => 0 < c < 256) (pd_name p) /\
      pd_hash p = str_hash (pd_name p) /\
      casefold (pd_name p) ∉ casefold <$> BUILTIN_PROPERTIES) defs) &&
    (pl_cur_length (o_propdefs o) <=? pl_max_length (o_propdefs o)) &&
    bool_decide (Forall (fun pv => pv_var pv <> VClear) (take (length defs) (o_propval o))) &&
    match ancestors d x with
    | Some l => bool_decide (length (o_propval o) = length (keys d l)) &&
                bool_decide (NoDup (key_name <$> keys d l))
    | None => true
    end) (map_to_list (objects d)).

(** ** Keys *)

Lemma keys_cons d a l : keys d (a :: l) = ((fun p => (a, p)) <$> own d a) ++ keys d l.
Proof. done. Qed.
Lemma keys_app d l1 l2 : keys d (l1 ++ l2) = keys d l1 ++ keys d l2.
Proof. unfold keys. by rewrite bind_app. Qed.

Lemma keys_ext d d' l : (forall a, a ∈ l -> own d' a = own d a) -> keys d' l = keys d l.
Proof.
  induction l as [|a l IH]; intros H; [done|]. rewrite !keys_cons, H, IH; [done|set_solver..].
Qed.

Lemma elem_of_keys d l a p : (a, p) ∈ keys d l <-> a ∈ l /\ p ∈ own d a.
Proof.
  unfold keys. rewrite list_elem_of_bind. split.
  - intros (b & H & Hb). apply list_elem_of_fmap in H as (q & E & Hq). by injection E as -> ->.
  - intros [Ha Hp]. exists a. split; [|done]. apply list_elem_of_fmap. eauto.
Qed.

(** ** Lookup by name in a list of definitions *)

Lemma propdef_matches_name name p : cstr name -> propdef_ok p ->
  propdef_matches (str_hash name) name p = true <-> casefold (pd_name p) = casefold name.
Proof.
  intros Hn (Hp & Hh & _). unfold propdef_matches. rewrite andb_true_iff, !Z.eqb_eq, mystrcasecmp_eq by done.
  split; [tauto|]. intros E. split; [|done]. rewrite Hh. by apply str_hash_casefold.
Qed.

Lemma find_propdef_spec name defs i : cstr name -> Forall propdef_ok defs ->
  find_propdef (str_hash name) name defs i =
  (fun r => i + Z.of_nat (fst r)) <$> list_find (fun p => casefold (pd_name p) = casefold name) defs.
Proof.
  intros Hn Hd. revert i. induction Hd as [|p defs Hp Hd IH]; intros i; [done|].
  cbn [find_propdef list_find]. case_decide as E.
  - apply propdef_matches_name in E as ->; [|done..]. simpl. f_equal. lia.
  - destruct (propdef_matches (str_hash name) name p) eqn:E'.
    { by apply propdef_matches_name in E'. }
    rewrite IH. destruct (list_find _ defs) as [[j q]|]; [|done]. simpl. f_equal. lia.
Qed.

Lemma find_builtin_spec name : cstr name ->
  match find_builtin (str_hash name) name ptable with
  | Some p => builtin_name (casefold name) /\ p <> BP_NONE
  | None => ~ builtin_name (casefold name)
  end.
Proof.
  intros Hn. unfold builtin_name.
  assert (G : forall l q, length l = length q -> Forall cstr l -> Forall (fun p => p <> BP_NONE) q ->
    match find_builtin (str_hash name) name (zip l q) with
    | Some p => casefold name ∈ casefold <$> l /\ p <> BP_NONE
    | None => casefold name ∉ casefold <$> l
    end).
  { induction l as [|n l IH]; intros [|p q] Hlen Hl Hq; try done; [simpl; set_solver|].
    apply Forall_cons in Hl as [Hc Hl]. apply Forall_cons in Hq as [Hpn Hq]. cbn [zip_with find_builtin].
    rewrite fmap_cons. specialize (IH q ltac:(by injection Hlen) Hl Hq).
    destruct ((str_hash n =? str_hash name) && (mystrcasecmp name n =? 0)) eqn:E.
    - apply andb_true_iff in E as [_ E%Z.eqb_eq]. apply mystrcasecmp_eq in E; [|done..].
      rewrite E. set_solver.
    - destruct (find_builtin _ _ _); [set_solver|].
      apply not_elem_of_cons. split; [|done]. intros E'.
      apply andb_false_iff in E as [E|E]; apply Z.eqb_neq in E.
      + apply E. symmetry. by apply str_hash_casefold.
      + apply E. by apply mystrcasecmp_eq. }
  apply G; [done| |].
  - repeat constructor; vm_compute; (by repeat split) || by repeat constructor.
  - by repeat constructor.
Qed.

(** ** Association lists *)

Lemma assoc_app k v1 v2 :
  assoc k (v1 ++ v2) = match assoc k v1 with Some r => Some r | None => assoc k v2 end.
Proof. induction v1 as [|[p pv] v1 IH]; simpl; [done|]. by case_decide. Qed.

Lemma assoc_zip k K P : length K = length P ->
  assoc k (zip K P) =
  match list_find (fun p => key_name p = k) K with
  | Some (j, (a, _)) => (fun pv => (a, pv)) <$> P !! j
  | None => None
  end.
Proof.
  revert P. induction K as [|[a p] K IH]; intros [|pv P] Hlen; try done.
  cbn [zip_with assoc list_find]. case_decide; [done|].
  rewrite IH by (by injection Hlen). by destruct (list_find _ K) as [[j [b q]]|].
Qed.

Lemma assoc_None k K P : length K = length P ->
  assoc k (zip K P) = None <-> k ∉ key_name <$> K.
Proof.
  revert P. induction K as [|p K IH]; intros [|pv P] Hlen; try done; simpl; [split; [set_solver|done]|].
  case_decide as E.
  - split; [done|]. intros H. exfalso. apply H. rewrite <- E. set_solver.
  - rewrite IH by (by injection Hlen). set_solver.
Qed.

Lemma zip_app {A B} (l1 l2 : list A) (v : list B) :
  zip (l1 ++ l2) v = zip l1 (take (length l1) v) ++ zip l2 (drop (length l1) v).
Proof.
  revert v. induction l1 as [|a l1 IH]; intros v; [done|]. destruct v as [|b v]; simpl.
  - by destruct l2.
  - by rewrite IH.
Qed.

(** ** Counting and lookup *)

Section View.
Context (d : db) (Hok : props_ok d).

Let Ht : tree_ok d := po_tree d Hok.

Lemma find_object_ok x : dbpriv_find_object d x = objects d !! x.
Proof. apply find_object_objects, Ht. Qed.

Lemma own_ok a : Forall propdef_ok (own d a).
Proof.
  unfold own. destruct (objects d !! a) as [o|] eqn:E; [|constructor]. by eapply po_defs.
Qed.

Lemma own_propval a o : objects d !! a = Some o -> exists l,
  ancestors d a = Some (a :: l) /\ ancestors d (o_parent o) = Some l /\
  length (o_propval o) = (length (own d a) + length (keys d l))%nat.
Proof.
  intros Ho. destruct (tree_ancestors d Ht a ltac:(by eexists)) as [l Hl]. exists l.
  split; [done|]. split.
  - rewrite (ancestors_parent d a o Ho) in Hl by (apply (tree_ne d Ht); by eexists).
    destruct (ancestors d (o_parent o)); [|done]. by injection Hl as ->.
  - by rewrite (po_len d Hok a o _ Ho Hl), keys_cons, length_app, length_fmap.
Qed.

Lemma pview_zip x o l : objects d !! x = Some o -> ancestors d x = Some l ->
  pview d x = zip (keys d l) (o_propval o).
Proof. intros Ho Hl. unfold pview, propval. by rewrite Hl, Ho. Qed.

Lemma prop_lookup_None x o l k : objects d !! x = Some o -> ancestors d x = Some l ->
  prop_lookup d x k = None <-> k ∉ key_name <$> keys d l.
Proof.
  intros Ho Hl. unfold prop_lookup. rewrite (pview_zip x o l), assoc_None; [done| |done|done].
  symmetry. by eapply po_len.
Qed.
End View.

Lemma count_loop_spec fuel d x l n : tree_ok d -> ancestors d x = Some l -> (length l <= fuel)%nat ->
  count_loop fuel d (dbpriv_find_object d x) n = Some (n + Z.of_nat (length (keys d l))).
Proof.
  intros Ht. revert x l n. induction fuel as [|f IH]; intros x l n Hl Hf.
  - destruct l; [|simpl in Hf; lia]. apply ancestors_chain, chain_nil_inv in Hl as ->.
    rewrite find_object_objects, tree_NOTHING by (done || apply Ht). simpl. f_equal. lia.
  - destruct (decide (x = NOTHING)) as [->|Hx].
    { rewrite ancestors_NOTHING in Hl. injection Hl as <-.
      rewrite find_object_objects, tree_NOTHING by (done || apply Ht). simpl. f_equal. lia. }
    destruct (ancestors_head _ _ _ Hl Hx) as [l' ->].
    destruct (ancestors_valid _ _ _ x Hl) as [o Ho]; [set_solver|].
    rewrite find_object_objects, Ho by apply Ht. cbn [count_loop].
    rewrite (ancestors_parent d x o Ho Hx) in Hl.
    destruct (ancestors d (o_parent o)) as [l|] eqn:Hl'; [|done]. injection Hl as ->.
    rewrite (IH _ l') by (done || (simpl in Hf; lia)).
    rewrite keys_cons, length_app, length_fmap. unfold own. rewrite Ho. unfold pl_cur_length. f_equal. lia.
Qed.

Lemma count_properties_spec d x l : tree_ok d -> ancestors d x = Some l ->
  dbpriv_count_properties d x = Some (Z.of_nat (length (keys d l))).
Proof.
  intros Ht Hl. unfold dbpriv_count_properties.
  rewrite (count_loop_spec _ d x l 0 Ht Hl); [f_equal; lia|].
  apply ancestors_length in Hl. lia.
Qed.

Lemma list_find_fmap_own (a : Z) (l : list Propdef) k :
  list_find (fun p => key_name p = k) ((fun p => (a, p)) <$> l) =
  (fun r => (fst r, (a, snd r))) <$> list_find (fun p => casefold (pd_name p) = k) l.
Proof.
  induction l as [|p l IH]; [done|]. rewrite fmap_cons. cbn [list_find].
  change (key_name (a, p)) with (casefold (pd_name p)). case_decide; [done|]. rewrite IH.
  by destruct (list_find (fun p => casefold (pd_name p) = k) l) as [[j q]|].
Qed.

Lemma list_find_app {A} (P : A -> Prop) `{forall x, Decision (P x)} (l1 l2 : list A) :
  list_find P (l1 ++ l2) =
  match list_find P l1 with
  | Some r => Some r
  | None => (fun r => ((length l1 + fst r)%nat, snd r)) <$> list_find P l2
  end.
Proof.
  induction l1 as [|x l1 IH]; simpl; [by destruct (list_find P l2) as [[]|]|].
  case_decide; [done|]. rewrite IH. destruct (list_find P l1) as [[]|]; [done|].
  by destruct (list_find P l2) as [[]|].
Qed.

Lemma find_prop_loop_spec fuel d x l name n : props_ok d -> cstr name ->
  ancestors d x = Some l -> (length l <= fuel)%nat ->
  find_prop_loop fuel d (dbpriv_find_object d x) (str_hash name) name n =
  Some ((fun r => (fst (snd r), n + Z.of_nat (fst r))) <$>
        list_find (fun p => key_name p = casefold name) (keys d l)).
Proof.
  intros Hok Hn. revert x l n. induction fuel as [|f IH]; intros x l n Hl Hf.
  - destruct l; [|simpl in Hf; lia]. apply ancestors_chain, chain_nil_inv in Hl as ->.
    by rewrite find_object_ok, tree_NOTHING by (done || apply Hok).
  - destruct (decide (x = NOTHING)) as [->|Hx].
    { rewrite ancestors_NOTHING in Hl. injection Hl as <-.
      by rewrite find_object_ok, tree_NOTHING by (done || apply Hok). }
    destruct (ancestors_head _ _ _ Hl Hx) as [l' ->].
    destruct (ancestors_valid _ _ _ x Hl) as [o Ho]; [set_solver|].
    rewrite find_object_ok, Ho by done. cbn [find_prop_loop].
    rewrite (ancestors_parent d x o Ho Hx) in Hl.
    destruct (ancestors d (o_parent o)) as [l|] eqn:Hl'; [|done]. injection Hl as ->.
    assert (Hown : own d x = pl_l (o_propdefs o)) by (unfold own; by rewrite Ho).
    rewrite <- Hown, find_propdef_spec by (done || by apply own_ok).
    rewrite keys_cons, list_find_app, list_find_fmap_own, length_fmap.
    destruct (list_find (fun p => casefold (pd_name p) = _) (own d x)) as [[j q]|]; simpl.
    + pose proof (po_tree d Hok) as ((_ & _ & Htab) & _). by destruct (Htab _ _ Ho) as [_ ->].
    + rewrite (IH _ l') by (done || (simpl in Hf; lia)).
      destruct (list_find _ (keys d l')) as [[j [a q]]|]; simpl; [|done].
      do 3 f_equal. unfold pl_cur_length. rewrite <- Hown. lia.
Qed.

Lemma slot_nat l j : slot l (Z.of_nat j) = l !! j.
Proof. unfold slot. destruct (Z.ltb_spec (Z.of_nat j) 0); [lia|]. by rewrite Nat2Z.id. Qed.

(** Going up until a slot is not clear ends, at the latest at the definer. *)
Lemma clear_loop_spec d fuel x o l k j a p : props_ok d ->
  objects d !! x = Some o -> ancestors d x = Some (x :: l) -> (length l < fuel)%nat ->
  list_find (fun p => key_name p = k) (keys d (x :: l)) = Some (j, (a, p)) ->
  exists v, clear_loop fuel d o (Z.of_nat j) = Some v /\ effective d (x :: l) k = Some v /\ v <> VClear.
Proof.
  intros Hok. revert x o l j. induction fuel as [|f IH]; intros x o l j Ho Hl Hf Hj; [lia|].
  destruct (own_propval d Hok x o Ho) as (l' & El & Hp & Hlen). rewrite Hl in El. injection El as <-.
  assert (Hlook : prop_lookup d x k = (fun pv => (a, pv)) <$> o_propval o !! j).
  { unfold prop_lookup. rewrite (pview_zip d x o _ Ho Hl), assoc_zip, Hj; [done|].
    symmetry. by eapply po_len. }
  assert (Hjl : (j < length (o_propval o))%nat).
  { rewrite (po_len d Hok x o _ Ho Hl). apply list_find_Some in Hj as (Hj & _). by eapply lookup_lt_Some. }
  destruct (lookup_lt_is_Some_2 _ _ Hjl) as [pv Hpv].
  cbn [clear_loop effective]. rewrite slot_nat, Hlook, Hpv. cbn [mbind option_bind fmap option_fmap option_map].
  destruct (decide (pv_var pv = VClear)) as [E|E].
  2: { exists (pv_var pv). split; [|split; [|done]]; by destruct (pv_var pv). }
  rewrite E. assert (Hown : own d x = pl_l (o_propdefs o)) by (unfold own; by rewrite Ho).
  assert (Hge : (length (own d x) <= j)%nat).
  { destruct (decide (length (own d x) <= j)%nat); [done|]. exfalso.
    eapply (po_own d Hok x o j pv); [done| |done|done]. rewrite <- Hown. lia. }
  rewrite keys_cons, list_find_app in Hj.
  destruct (list_find _ ((fun p => (x, p)) <$> own d x)) as [[j' q]|] eqn:E'.
  { apply list_find_Some in E' as (E' & _). apply lookup_lt_Some in E'. rewrite length_fmap in E'.
    injection Hj as -> ->. lia. }
  destruct (list_find _ (keys d l)) as [[j' [a' q]]|] eqn:Ej; [|done]. simpl in Hj.
  injection Hj as <- -> ->. rewrite length_fmap in *.
  destruct (decide (o_parent o = NOTHING)) as [EN|Hpar].
  { rewrite EN, ancestors_NOTHING in Hp. injection Hp as <-. done. }
  destruct (ancestors_head _ _ _ Hp Hpar) as [l' ->].
  destruct (ancestors_valid _ _ _ (o_parent o) Hp) as [o' Ho']; [set_solver|].
  rewrite find_object_ok, Ho' by done. cbn [mbind option_bind].
  destruct (IH (o_parent o) o' l' j' Ho' Hp ltac:(simpl in Hf; lia) Ej) as (v & Hv & He & Hc).
  exists v. split; [|done]. rewrite <- Hv. f_equal. unfold pl_cur_length. rewrite <- Hown. lia.
Qed.

Lemma assoc_zip_insert k K P j (a : Z) p pv : length K = length P -> NoDup (key_name <$> K) ->
  K !! j = Some (a, p) ->
  assoc k (zip K (<[j := pv]> P)) =
  if decide (k = key_name (a, p)) then Some (a, pv) else assoc k (zip K P).
Proof.
  intros Hlen Hnd Hj. rewrite !assoc_zip by (rewrite ?length_insert; done).
  assert (Hjl : (j < length P)%nat) by (rewrite <- Hlen; by eapply lookup_lt_Some).
  case_decide as E.
  - destruct (list_find (fun p => key_name p = k) K) as [[i [b q]]|] eqn:Ef.
    + apply list_find_Some in Ef as (Hi & Hk & _).
      assert (i = j) as ->.
      { eapply (NoDup_lookup _ _ _ k Hnd); rewrite list_lookup_fmap; [by rewrite Hi; simpl; rewrite Hk|].
        rewrite Hj. simpl. by rewrite E. }
      rewrite Hj in Hi. injection Hi as <- <-. by rewrite list_lookup_insert_eq.
    + eapply list_find_None, Forall_lookup_1 in Ef; [|done]. congruence.
  - destruct (list_find (fun p => key_name p = k) K) as [[i [b q]]|] eqn:Ef; [|done].
    apply list_find_Some in Ef as (Hi & Hk & _). rewrite list_lookup_insert_ne; [done|].
    intros ->. congruence.
Qed.

(** The slot a lookup finds. *)
Lemma find_slot d x o name a pv : props_ok d -> cstr name -> objects d !! x = Some o ->
  prop_lookup d x (casefold name) = Some (a, pv) ->
  exists l j p, ancestors d x = Some (x :: l) /\ keys d (x :: l) !! j = Some (a, p) /\
    key_name (a, p) = casefold name /\ o_propval o !! j = Some pv /\
    list_find (fun p => key_name p = casefold name) (keys d (x :: l)) = Some (j, (a, p)) /\
    find_prop_loop (ll_fuel d) d (dbpriv_find_object d x) (str_hash name) name 0 =
      Some (Some (a, Z.of_nat j)).
Proof.
  intros Hok Hn Ho Hl. destruct (tree_ancestors d (po_tree d Hok) x ltac:(by eexists)) as [l El].
  unfold prop_lookup in Hl. rewrite (pview_zip d x o _ Ho El), assoc_zip in Hl
    by (symmetry; by eapply po_len).
  destruct (list_find _ (keys d (x :: l))) as [[j [b p]]|] eqn:Ef; [|done].
  apply fmap_Some in Hl as (pv' & Hpv & E). injection E as -> ->.
  pose proof Ef as (Hj & Hk & _)%list_find_Some.
  exists l, j, p. split_and!; [done..|].
  rewrite (find_prop_loop_spec _ d x _ name 0 Hok Hn El) by (apply ancestors_length in El; lia).
  by rewrite Ef.
Qed.

(** What a lookup finds. *)
Lemma find_property_spec (d : db) (x : Z) (name : bytes) :
  props_ok d -> valid d x = true -> cstr name ->
  let k := casefold name in
  (builtin_name k -> exists p, p <> BP_NONE /\
     db_find_property d x name false = Some (mkPropHandle p NOTHING (PBuiltIn x), None)) /\
  (~ builtin_name k ->
   match prop_lookup d x k with
   | None => db_find_property d x name true = Some (mkPropHandle BP_NONE NOTHING PNull, None)
   | Some (a, pv) => exists n v,
       db_find_property d x name true = Some (slot_handle a x n, Some v) /\
       read_slot d (slot_handle a x n) = Some pv /\ prop_value d x k = Some v /\ v <> VClear /\
       below d a x /\ exists p, p ∈ own d a /\ casefold (pd_name p) = k
   end).
Proof.
  intros Hok Hv Hn k. pose proof (po_tree d Hok) as Ht. rewrite valid_spec in Hv by apply Ht.
  destruct Hv as [o Ho]. pose proof (find_builtin_spec name Hn) as Hb. unfold db_find_property.
  destruct (find_builtin _ _ _) as [p|]; (split; intros Hk; [|try tauto]); try tauto.
  { exists p. tauto. }
  fold k in Hb. destruct (prop_lookup d x k) as [[a pv]|] eqn:E.
  - destruct (find_slot d x o name a pv Hok Hn Ho E) as (l & j & p & El & Hj & Hkey & Hpv & Ef & ->).
    cbn [mbind option_bind]. rewrite find_object_ok, Ho by done. cbn [mbind option_bind].
    destruct (clear_loop_spec d (ll_fuel d) x o l k j a p Hok Ho El) as (v & -> & He & Hc); [|done|].
    { apply ancestors_length in El. simpl in El. lia. }
    cbn [mbind option_bind]. exists (Z.of_nat j), v. split; [done|]. split.
    { unfold read_slot. cbn [ptr slot_handle]. rewrite Ho. cbn [mbind option_bind]. by rewrite slot_nat. }
    split; [unfold prop_value; rewrite El; done|]. split; [done|].
    apply list_elem_of_lookup_2, elem_of_keys in Hj as [Ha Hp].
    split; [by exists (x :: l)|]. by exists p.
  - destruct (tree_ancestors d Ht x ltac:(by eexists)) as [l El].
    rewrite (find_prop_loop_spec _ d x _ name 0 Hok Hn El) by (apply ancestors_length in El; lia).
    unfold prop_lookup in E. rewrite (pview_zip d x o _ Ho El), assoc_zip in E
      by (symmetry; by eapply po_len).
    destruct (list_find _ (keys d (x :: l))) as [[j [b p]]|] eqn:Ef; [|done].
    apply fmap_None in E. apply list_find_Some in Ef as (Hj & _).
    apply lookup_lt_Some in Hj. apply lookup_ge_None in E. rewrite (po_len d Hok x o _ Ho El) in E. lia.
Qed.

(** Asking for the value makes no difference to the handle. *)
Lemma find_property_handle d x name h v : db_find_property d x name true = Some (h, v) ->
  db_find_property d x name false = Some (h, None).
Proof.
  unfold db_find_property. destruct (find_builtin _ _ _) as [b|].
  - destruct (get_bi_value d b x); [|done]. cbn [mbind option_bind]. by intros [= <- _].
  - destruct (find_prop_loop _ _ _ _ _ _) as [[[a n]|]|]; [|by intros [= <- <-]|done]. cbn [mbind option_bind].
    destruct (dbpriv_find_object d x); [|done]. cbn [mbind option_bind]. destruct (clear_loop _ _ _ _); [|done].
    cbn [mbind option_bind]. by intros [= <- _].
Qed.

(** C14: looking a property up: a built-in name (in any case) is found first;
    otherwise the answer is the definer on the object or its nearest ancestor
    and the object's own slot, with the value of the first slot that is not
    clear on the way up to the definer; it is null exactly if neither the
    object nor an ancestor defines the name.  The search and the walk over
    clear slots always end. *)
Theorem db_find_property_correct (d : db) (x : Z) (name : bytes) :
  props_ok d -> valid d x = true -> cstr name ->
  let k := casefold name in
  (builtin_name k -> exists p, p <> BP_NONE /\
     db_find_property d x name false = Some (mkPropHandle p NOTHING (PBuiltIn x), None)) /\
  (~ builtin_name k ->
   match prop_lookup d x k with
   | None => db_find_property d x name true = Some (mkPropHandle BP_NONE NOTHING PNull, None)
   | Some (a, pv) => exists n v,
       db_find_property d x name true = Some (slot_handle a x n, Some v) /\
       read_slot d (slot_handle a x n) = Some pv /\ prop_value d x k = Some v /\ v <> VClear /\
       below d a x /\ exists p, p ∈ own d a /\ casefold (pd_name p) = k
   end).
Proof. exact (find_property_spec d x name). Qed.

(** *** Checking the invariant *)

Lemma props_check_ok d : props_check d = true -> props_ok d.
Proof.
  unfold props_check. rewrite andb_true_iff, forallb_forall. intros [Ht%tree_check_ok Hall].
  assert (G : forall x o, objects d !! x = Some o -> exists l, ancestors d x = Some l /\
    proplist_ok (o_propdefs o) /\
    Forall (fun pv => pv_var pv <> VClear) (take (length (pl_l (o_propdefs o))) (o_propval o)) /\
    length (o_propval o) = length (keys d l) /\ NoDup (key_name <$> keys d l)).
  { intros x o Ho. destruct (tree_ancestors d Ht x ltac:(by eexists)) as [l El].
    assert (Hin : In (x, o) (map_to_list (objects d))) by (by apply list_elem_of_In, elem_of_map_to_list).
    specialize (Hall _ Hin). cbn beta iota zeta in Hall. rewrite El in Hall.
    rewrite !andb_true_iff, !bool_decide_eq_true, Z.leb_le in Hall.
    destruct Hall as [[[H1 H2] H3] [H4 H5]]. exists (x :: l). split_and!; try done. }
  split.
  - done.
  - intros x o Ho. destruct (G x o Ho) as (_ & _ & H & _). done.
  - intros x o l Ho El. destruct (G x o Ho) as (l' & El' & _ & _ & H & _). by simplify_eq.
  - intros x o i pv Ho Hi Hpv. destruct (G x o Ho) as (_ & _ & _ & H & _).
    rewrite Forall_lookup in H. apply (H i). by rewrite lookup_take_lt.
  - intros x l El. destruct (decide (x = NOTHING)) as [->|Hx].
    { rewrite ancestors_NOTHING in El. injection El as <-. constructor. }
    destruct (ancestors_head _ _ _ El Hx) as [l' ->].
    destruct (ancestors_valid _ _ _ x El) as [o Ho]; [set_solver|].
    destruct (G x o Ho) as (l2 & El' & _ & _ & _ & H). rewrite El in El'. by injection El' as <-.
Qed.

(** *** Writing to a slot *)

Lemma write_slot_spec d x o name a pv : props_ok d -> cstr name ->
  objects d !! x = Some o -> prop_lookup d x (casefold name) = Some (a, pv) ->
  exists n, find_prop_loop (ll_fuel d) d (dbpriv_find_object d x) (str_hash name) name 0 =
      Some (Some (a, n)) /\ read_slot d (slot_handle a x n) = Some pv /\
    forall f, (a = x -> pv_var (f pv) <> VClear) -> exists d',
    write_slot d (slot_handle a x n) f = Some d' /\ same_but_propval d d' /\ props_ok d' /\
    forall y k, prop_lookup d' y k =
      if decide (y = x /\ k = casefold name) then Some (a, f pv) else prop_lookup d y k.
Proof.
  intros Hok Hn Ho Hl.
  destruct (find_slot d x o name a pv Hok Hn Ho Hl) as (l & j & p & El & Hj & Hkey & Hpv & Ef & Eloop).
  exists (Z.of_nat j). split; [done|]. unfold read_slot, write_slot, slot_handle. cbn [ptr].
  rewrite Ho. cbn [mbind option_bind]. rewrite slot_nat, Hpv, Nat2Z.id. cbn [mbind option_bind].
  split; [done|]. intros f Hf.
  destruct (update_same d x (<[j := f pv]> (o_propval o)) ltac:(by eexists)) as (d' & Ed & Hs & Hx & Hy).
  exists d'. split; [done|]. split; [done|].
  pose proof (same_tree _ _ Hs (po_tree d Hok)) as Ht'.
  assert (Hown : forall y, own d' y = own d y).
  { intros y. unfold own. pose proof (same_field (fun o => pl_l (o_propdefs o)) d d' y Hs) as E.
    specialize (E ltac:(by intros ? [])). by destruct (objects d' !! y), (objects d !! y); simplify_eq/=. }
  assert (Hkeys : forall l, keys d' l = keys d l) by (intros; by apply keys_ext).
  assert (Hpvs : forall y, propval d' y = if decide (y = x) then Some (<[j := f pv]> (o_propval o)) else propval d y).
  { intros y. case_decide; subst; auto. }
  assert (Hobj : forall y o', objects d' !! y = Some o' -> exists o0, objects d !! y = Some o0 /\
     o_propdefs o' = o_propdefs o0 /\
     o_propval o' = (if decide (y = x) then <[j := f pv]> (o_propval o0) else o_propval o0)).
  { intros y o' E. destruct (proj1 (same_dom d d' y Hs) ltac:(by eexists)) as [o0 E0]. exists o0.
    pose proof (same_field o_propdefs d d' y Hs ltac:(by intros ? [])) as E1.
    pose proof (Hpvs y) as E2. unfold propval in E2. rewrite E, E0 in *. simpl in *.
    case_decide; simplify_eq; split_and!; congruence. }
  split; [|].
  - split.
    + done.
    + intros y o' (o0 & E0 & -> & _)%Hobj. by eapply po_defs.
    + intros y o' l' E' El'. apply Hobj in E' as (o0 & E0 & _ & ->). rewrite Hkeys.
      rewrite (same_ancestors d d') in El' by done.
      case_decide; rewrite ?length_insert; by eapply po_len.
    + intros y o' i q E'. apply Hobj in E' as (o0 & E0 & -> & ->). intros Hi Hq.
      destruct (decide (y = x)) as [->|]; [|by eapply (po_own d Hok y)].
      apply list_lookup_insert_Some in Hq as [(<- & <- & _)|(_ & Hq)]; [|by eapply (po_own d Hok x)].
      apply Hf. rewrite keys_cons in Hj. simplify_eq.
      rewrite lookup_app_l in Hj by (rewrite length_fmap; unfold own; by rewrite Ho).
      rewrite list_lookup_fmap in Hj. destruct (own d x !! j); simpl in Hj; congruence.
    + intros y l'. rewrite (same_ancestors d d'), Hkeys by done. apply (po_names d Hok).
  - intros y k. unfold prop_lookup, pview. rewrite (same_ancestors d d'), Hpvs by done.
    destruct (decide (y = x)) as [->|Hne].
    + unfold propval. rewrite El, Ho, Hkeys. simpl fmap. cbn [fmap option_fmap option_map].
      rewrite (assoc_zip_insert _ _ _ _ a p); [|symmetry; by eapply po_len|by eapply (po_names d Hok)|done].
      rewrite Hkey. apply decide_ext. tauto.
    + rewrite decide_False by tauto. destruct (ancestors d y); [|done]. by rewrite Hkeys.
Qed.

(** The visitor inherits the description of #1. *)
Example db_find_property_correct_witness :
  exists n v, db_find_property sample 4 (BS "Description") true = Some (slot_handle 1 4 n, Some v) /\
    prop_value sample 4 (casefold (BS "Description")) = Some v.
Proof.
  destruct (db_find_property_correct sample 4 (BS "Description")) as [_ H].
  - apply props_check_ok. by vm_compute.
  - by vm_compute.
  - by repeat constructor.
  - assert (E : prop_lookup sample 4 (casefold (BS "Description")) = Some (1, mkPval VClear 4 5))
      by by vm_compute.
    cbv zeta in H. rewrite E in H.
    destruct H as (n & v & E1 & _ & E2 & _).
    { apply (bool_decide_eq_false_1 (builtin_name _)). by vm_compute. }
    exists n, v. split; [exact E1|exact E2].
Defined.

Lemma property_access_spec (d : db) (x : Z) (name : bytes) (a : Z) (pv : Pval)
    (v : Var) (owner flags : Z) :
  props_ok d -> valid d x = true -> cstr name -> ~ builtin_name (casefold name) ->
  prop_lookup d x (casefold name) = Some (a, pv) -> (a = x -> v <> VClear) ->
  exists h d1 d2 d3,
    db_find_property d x name false = Some (h, None) /\ is_null h = false /\
    db_property_value d h = Some (pv_var pv) /\
    db_property_owner d h = Some (pv_owner pv) /\ db_property_flags d h = Some (pv_perms pv) /\
    db_set_property_value d h v = Some d1 /\ db_set_property_owner d h owner = Some d2 /\
    db_set_property_flags d h flags = Some d3 /\
    Forall2 (fun d' f => same_but_propval d d' /\ props_ok d' /\
        forall y k, prop_lookup d' y k =
          if decide (y = x /\ k = casefold name) then Some (a, f pv) else prop_lookup d y k)
      [d1; d2; d3] [set_pv_var v; set_pv_owner owner; set_pv_perms (uwrap 16 flags)].
Proof.
  intros Hok Hv Hn Hb Hl Hc. rewrite valid_spec in Hv by apply Hok. destruct Hv as [o Ho].
  pose proof (find_builtin_spec name Hn) as Hfb. unfold db_find_property.
  destruct (find_builtin _ _ _); [tauto|].
  assert (Hown : a = x -> pv_var pv <> VClear).
  { intros ->. destruct (find_slot d x o name x pv Hok Hn Ho Hl) as (l & j & p & El & Hj & _ & Hpv & _).
    intros E. eapply (po_own d Hok x o j pv); [done| |done|done]. rewrite keys_cons in Hj.
    destruct (decide (j < length (own d x))%nat) as [Hlt|Hge]; [unfold own in Hlt; by rewrite Ho in Hlt|].
    exfalso. rewrite lookup_app_r in Hj by (rewrite length_fmap; lia).
    apply list_elem_of_lookup_2, elem_of_keys in Hj as [Hin _].
    apply ancestors_NoDup in El. by apply NoDup_cons in El as [El _]. }
  destruct (write_slot_spec d x o name a pv Hok Hn Ho Hl) as (n & -> & Hr & W).
  destruct (W (set_pv_var v) Hc) as (d1 & W1 & R1).
  destruct (W (set_pv_owner owner) Hown) as (d2 & W2 & R2).
  destruct (W (set_pv_perms (uwrap 16 flags)) Hown) as (d3 & W3 & R3).
  exists (slot_handle a x n), d1, d2, d3. cbn [mbind option_bind]. split; [done|]. split; [done|].
  unfold db_property_value, db_property_owner, db_property_flags, db_set_property_value,
    db_set_property_owner, db_set_property_flags. cbn [built_in slot_handle].
  fold (slot_handle a x n). rewrite Hr. cbn [mbind option_bind]. do 6 (split; [done|]).
  constructor; [exact R1|]. constructor; [exact R2|].
  constructor; [exact R3|constructor].
Qed.

(** C15: access through a handle: reading and writing the value, owner or flags
    of a property that a lookup has found affects that one slot of that one
    object, and is what a later lookup finds; the tables stay well formed as
    long as the definer's own slot is never cleared. *)
Theorem property_access_correct (d : db) (x : Z) (name : bytes) (a : Z) (pv : Pval)
    (v : Var) (owner flags : Z) :
  props_ok d -> valid d x = true -> cstr name -> ~ builtin_name (casefold name) ->
  prop_lookup d x (casefold name) = Some (a, pv) -> (a = x -> v <> VClear) ->
  exists h d1 d2 d3,
    db_find_property d x name false = Some (h, None) /\ is_null h = false /\
    db_property_value d h = Some (pv_var pv) /\
    db_property_owner d h = Some (pv_owner pv) /\ db_property_flags d h = Some (pv_perms pv) /\
    db_set_property_value d h v = Some d1 /\ db_set_property_owner d h owner = Some d2 /\
    db_set_property_flags d h flags = Some d3 /\
    Forall2 (fun d' f => same_but_propval d d' /\ props_ok d' /\
        forall y k, prop_lookup d' y k =
          if decide (y = x /\ k = casefold name) then Some (a, f pv) else prop_lookup d y k)
      [d1; d2; d3] [set_pv_var v; set_pv_owner owner; set_pv_perms (uwrap 16 flags)].
Proof. exact (property_access_spec d x name a pv v owner flags). Qed.

Example property_access_correct_witness :
  exists h d1, db_find_property sample 4 (BS "size") false = Some (h, None) /\
    db_set_property_value sample h (VInt 7) = Some d1 /\
    prop_lookup d1 4 (casefold (BS "size")) = Some (2, mkPval (VInt 7) 4 1) /\
    prop_lookup d1 2 (casefold (BS "size")) = Some (2, mkPval (VInt 5) 4 1).
Proof.
  destruct (property_access_correct sample 4 (BS "size") 2 (mkPval VClear 4 1) (VInt 7) 0 0)
    as (h & d1 & d2 & d3 & Eh & _ & _ & _ & _ & E1 & _ & _ & H).
  - apply props_check_ok. by vm_compute.
  - by vm_compute.
  - by repeat constructor.
  - apply (bool_decide_eq_false_1 (builtin_name _)). by vm_compute.
  - by vm_compute.
  - done.
  - apply Forall2_cons in H as [(_ & _ & H) _]. exists h, d1. split; [done|]. split; [done|].
    assert (E2 : prop_lookup sample 2 (casefold (BS "size")) = Some (2, mkPval (VInt 5) 4 1))
      by by vm_compute.
    revert H E2. generalize (casefold (BS "size")). intros k H E2. split; rewrite H.
    + rewrite decide_True; [reflexivity|split; reflexivity].
    + rewrite decide_False by (intros [? _]; lia). exact E2.
Defined.
