(* ===== verification/PropChange.v ===== *)
(** * Changing the set of properties (db_properties.c: adding, deleting and
    renaming definitions; the slots after a change of parents)

    Each operation changes the definitions of one object and the slots of all
    its descendants; the theorems say what that means for the view of every
    object ([prop_lookup]), and that the tables stay well formed. *)

From S2P Require Import Prelude Utf CString Values Streams Functions Lists Db Links Hierarchy Attributes Properties PropView.

(** ** Specification *)

(** Two databases that differ in property definitions and values only. *)
Definition erase (o : Object) : Object := set_propdefs (mkProplist 0 []) (set_propval [] o).
Definition same_shape (d d' : db) : Prop :=
  (exists m, d' = with_objects (fun _ => m) d) /\
  (forall x, erase <$> objects d' !! x = erase <$> objects d !! x).

(** The ancestors of [y] that are properly below [r]. *)
Fixpoint upto (r : Z) (l : list Z) : list Z :=
  match l with [] => [] | a :: l => if a =? r then [] else a :: upto r l end.
Definition above (d : db) (r y : Z) : list Z := upto r (default [] (ancestors d y)).

Definition owner_of (d : db) (y : Z) : Z := default NOTHING (o_owner <$> objects d !! y).

(** Inserting and deleting at a position of a list. *)
Definition insert_at {A} (n : nat) (x : A) (l : list A) : list A := take n l ++ x :: drop n l.

(** ** Fields *)

Lemma get_set_propval l o : o_propval (set_propval l o) = l.
Proof. by destruct o. Qed.
Lemma owner_set_propval l o : o_owner (set_propval l o) = o_owner o.
Proof. by destruct o. Qed.

(** ** Shapes *)

Lemma shape_field {A} (g : Object -> A) d d' : same_shape d d' ->
  (forall l o, g (set_propval l o) = g o) -> (forall p o, g (set_propdefs p o) = g o) -> agree g d d'.
Proof.
  intros [_ H] Hv Hd x. specialize (H x).
  destruct (objects d !! x) as [o|], (objects d' !! x) as [o'|]; simpl in *; try done.
  injection H as H. f_equal. apply (f_equal g) in H. unfold erase in H. by rewrite !Hd, !Hv in H.
Qed.

Lemma shape_refl d : same_shape d d.
Proof. split; [exists (objects d); by destruct d|done]. Qed.
Lemma shape_trans d d' d'' : same_shape d d' -> same_shape d' d'' -> same_shape d d''.
Proof. intros [[m ->] H1] [[m' ->] H2]. split; [by exists m'|]. intros x. by rewrite H2, H1. Qed.

Lemma shape_same d d' : same_but_propval d d' -> same_shape d d'.
Proof.
  intros H. split; [apply H|]. intros x. apply same_field; [done|]. by intros ? [].
Qed.

Lemma shape_dom d d' x : same_shape d d' -> is_Some (objects d' !! x) <-> is_Some (objects d !! x).
Proof. intros H. eapply (agree_dom (fun _ => tt)). by eapply shape_field. Qed.

Lemma shape_tree d d' : same_shape d d' -> tree_ok d -> tree_ok d'.
Proof.
  intros H. pose proof H as [[m ->] _].
  apply tree_agree; [by eapply shape_field; [done|intros ? []..]..|done|done].
Qed.

Lemma shape_ancestors d d' x : same_shape d d' -> ancestors d' x = ancestors d x.
Proof. intros H. apply ancestors_agree. by eapply shape_field; [done|intros ? []..]. Qed.

Lemma shape_below d d' r y : same_shape d d' -> below d' r y <-> below d r y.
Proof. intros H. unfold below. by rewrite (shape_ancestors d d' y H). Qed.

Lemma shape_above d d' r y : same_shape d d' -> above d' r y = above d r y.
Proof. intros H. unfold above. by rewrite (shape_ancestors d d' y H). Qed.

Lemma shape_owner d d' y : same_shape d d' -> owner_of d' y = owner_of d y.
Proof.
  intros H. unfold owner_of. by rewrite (shape_field o_owner d d' H ltac:(by intros ? []) ltac:(by intros ? []) y).
Qed.

Lemma same_own d d' y : same_but_propval d d' -> own d' y = own d y.
Proof.
  intros H. unfold own. pose proof (same_field (fun o => pl_l (o_propdefs o)) d d' y H) as E.
  specialize (E ltac:(by intros ? [])). by destruct (objects d' !! y), (objects d !! y); simplify_eq/=.
Qed.

Lemma same_keys d d' l : same_but_propval d d' -> keys d' l = keys d l.
Proof. intros H. apply keys_ext. intros. by apply same_own. Qed.

(** Writing the definitions of one object. *)
Lemma update_propdefs d x o props : objects d !! x = Some o ->
  exists d', update x (set_propdefs props) d = Some d' /\ same_shape d d' /\
    objects d' !! x = Some (set_propdefs props o) /\
    (forall y, y <> x -> objects d' !! y = objects d !! y) /\
    (forall y, propval d' y = propval d y) /\
    (forall y, own d' y = if decide (y = x) then pl_l props else own d y).
Proof.
  intros Ho. destruct (update_is_Some x (set_propdefs props) d ltac:(by eexists)) as [d' E].
  pose proof E as (o' & Ho' & Eo & Ed)%update_objects. simplify_eq.
  exists (with_objects <[x:=set_propdefs props o]> d). split; [done|].
  assert (H1 : objects (with_objects <[x:=set_propdefs props o]> d) !! x = Some (set_propdefs props o))
    by apply lookup_insert_eq.
  assert (H2 : forall y, y <> x -> objects (with_objects <[x:=set_propdefs props o]> d) !! y = objects d !! y)
    by (intros y Hy; by apply lookup_insert_ne).
  split; [|split; [done|split; [done|split]]].
  - split; [by eexists|]. intros y. destruct (decide (y = x)) as [->|]; [|by rewrite H2].
    rewrite H1, Ho. simpl. f_equal. by destruct o.
  - intros y. unfold propval. destruct (decide (y = x)) as [->|]; [|by rewrite H2].
    rewrite H1, Ho. by destruct o.
  - intros y. unfold own. case_decide; [subst; rewrite H1; by destruct o|by rewrite H2].
Qed.

(** ** Offsets *)

Lemma upto_app root l1 l2 : root ∉ l1 -> upto root (l1 ++ root :: l2) = l1.
Proof.
  induction l1 as [|a l1 IH]; intros H; simpl; [by rewrite Z.eqb_refl|].
  destruct (Z.eqb_spec a root) as [->|]; [set_solver|]. f_equal. apply IH. set_solver.
Qed.

Section Above.
Context (d : db) (Ht : tree_ok d) (root : Z) (lr : list Z).
Context (Hlr : ancestors d root = Some (root :: lr)).

Lemma above_below y : below d root y ->
  ancestors d y = Some (above d root y ++ root :: lr) /\ root ∉ above d root y /\ root ∉ lr.
Proof.
  intros (l1 & l2 & Ey & Er)%below_split. rewrite Hlr in Er. injection Er as <-.
  pose proof (ancestors_NoDup _ _ _ Ey) as Hnd. apply NoDup_app in Hnd as (_ & H1 & H2).
  apply NoDup_cons in H2 as [H2 _]. assert (root ∉ l1) by (intros Hr; apply (H1 root Hr); set_solver).
  unfold above. rewrite Ey. simpl. by rewrite upto_app.
Qed.

Lemma above_root : above d root root = [].
Proof. unfold above. rewrite Hlr. simpl. by rewrite Z.eqb_refl. Qed.

Lemma above_child c oc y : objects d !! c = Some oc -> o_parent oc = y -> below d root y ->
  above d root c = c :: above d root y /\ c <> root /\ below d root c.
Proof.
  intros Hc Hp Hb. destruct (above_below y Hb) as (Ey & Hn & _).
  assert (Hne : c <> root).
  { intros ->. rewrite <- Hp in Hb. eapply child_not_above in Hb; [done|done|done|].
    by destruct (below_valid d Ht _ _ Hb). }
  pose proof (child_ancestors d Ht c oc y _ Hc Hp Ey) as Ec.
  split; [|split; [done|]].
  - unfold above at 1. rewrite Ec. simpl. destruct (Z.eqb_spec c root); [done|]. f_equal.
    by apply upto_app.
  - exists (c :: above d root y ++ root :: lr). split; [done|set_solver].
Qed.

Lemma above_cons y : below d root y -> y <> root -> exists l, above d root y = y :: l.
Proof.
  intros Hb Hne. destruct (above_below y Hb) as (Ey & _).
  destruct (ancestors_head _ _ _ Ey) as [l El].
  { apply (tree_ne d Ht). by destruct (below_valid d Ht _ _ Hb). }
  destruct (above d root y) as [|a l']; simpl in El; injection El as -> _; [done|]. eauto.
Qed.

Lemma above_in y a : below d root y -> a ∈ above d root y -> below d root a /\ a <> root.
Proof.
  intros Hb (l1 & l2 & E)%list_elem_of_split. destruct (above_below y Hb) as (Ey & Hn & _).
  rewrite E in Hn, Ey. split; [|set_solver]. rewrite <- app_assoc in Ey. simpl in Ey.
  apply ancestors_suffix in Ey. exists (a :: l2 ++ root :: lr). split; [done|set_solver].
Qed.
End Above.

Lemma child_loop_ext f g fuel d c : (forall d c, f d c = g d c) ->
  child_loop fuel f d c = child_loop fuel g d c.
Proof.
  intros E. revert d c. induction fuel as [|n IH]; intros d c; simpl; [done|].
  destruct (c =? NOTHING); [done|]. rewrite E. destruct (g d c); simpl; [|done].
  destruct (dbpriv_find_object _ c); simpl; [apply IH|done].
Qed.

Lemma slots_spec l i n : 0 <= i -> 0 <= n -> i + n <= Z.of_nat (length l) ->
  slots l i n = Some (take (Z.to_nat n) (drop (Z.to_nat i) l)).
Proof.
  intros. unfold slots. destruct (Z.leb_spec n 0).
  - by replace (Z.to_nat n) with 0%nat by lia.
  - replace ((0 <=? i) && (i + n <=? Z.of_nat (length l))) with true; [done|].
    symmetry. apply andb_true_iff. split; apply Z.leb_le; lia.
Qed.

(** ** The recursive functions as instances of [descend] *)

Lemma insert_recursively_descend fuel d root pos pv :
  insert_prop_recursively fuel d root pos pv =
  descend (fun d x s => insert_prop d x (fst s) (snd s))
    (fun _ s oc => (pl_cur_length (o_propdefs oc) + fst s, set_pv_var VClear (snd s)))
    fuel d root (pos, pv).
Proof.
  revert d root pos pv. induction fuel as [|f IH]; intros d root pos pv; [done|].
  cbn [insert_prop_recursively descend fst snd]. destruct (insert_prop d root pos pv); [|done].
  cbn [mbind option_bind]. destruct (dbpriv_find_object _ root); [|done]. cbn [mbind option_bind].
  apply child_loop_ext. intros d' c. destruct (dbpriv_find_object d' c); [|done]. apply IH.
Qed.

Lemma remove_recursively_descend fuel d root pos :
  remove_prop_recursively fuel d root pos =
  descend remove_prop (fun _ s oc => pl_cur_length (o_propdefs oc) + s) fuel d root pos.
Proof.
  revert d root pos. induction fuel as [|f IH]; intros d root pos; [done|].
  cbn [remove_prop_recursively descend]. destruct (remove_prop d root pos); [|done].
  cbn [mbind option_bind]. destruct (dbpriv_find_object _ root); [|done]. cbn [mbind option_bind].
  apply child_loop_ext. intros d' c. destruct (dbpriv_find_object d' c); [|done]. apply IH.
Qed.

(** ** Effects on the slots *)

Section Effects.
Context (d : db) (Ht : tree_ok d) (root : Z) (lr : list Z).
Context (Hlr : ancestors d root = Some (root :: lr)).
Context (pos : nat) (Hpos : (pos <= length (own d root))%nat).

(** Where the slots of [root]'s own definitions start in [y]. *)
Definition offset (y : Z) : nat := (length (keys d (above d root y)) + pos)%nat.

Lemma offset_child y c oc : objects d !! c = Some oc -> o_parent oc = y -> below d root y ->
  offset c = (length (pl_l (o_propdefs oc)) + offset y)%nat.
Proof.
  intros Hc Hp Hb. unfold offset. destruct (above_child d Ht root lr Hlr c oc y Hc Hp Hb) as (-> & _).
  rewrite keys_cons, length_app, length_fmap. unfold own at 1. rewrite Hc. lia.
Qed.

Lemma below_root : below d root root.
Proof. exists (root :: lr). split; [done|set_solver]. Qed.

Lemma below_keys y : below d root y -> exists l, ancestors d y = Some l /\
  keys d l = keys d (above d root y) ++ ((fun p => (root, p)) <$> own d root) ++ keys d lr.
Proof.
  intros Hb. destruct (above_below d Ht root lr Hlr y Hb) as (E & _). eexists. split; [done|].
  by rewrite keys_app, keys_cons.
Qed.

Lemma root_valid : is_Some (objects d !! root).
Proof. apply (below_valid d Ht root root), below_root. Qed.

Lemma insert_effect pv :
  (pos < length (own d root))%nat ->
  (forall y o l, below d root y -> objects d !! y = Some o -> ancestors d y = Some l ->
     S (length (o_propval o)) = length (keys d l)) ->
  exists d', insert_prop_recursively (ll_fuel d) d root (Z.of_nat pos) pv = Some d' /\
    same_but_propval d d' /\
    forall y, propval d' y =
      if decide (below d root y)
      then insert_at (offset y) (chown (owner_of d y) (if decide (y = root) then pv else set_pv_var VClear pv))
             <$> propval d y
      else propval d y.
Proof.
  intros Hlt Hlen.
  set (pv_of y := if decide (y = root) then pv else set_pv_var VClear pv).
  set (R y := insert_at (offset y) (chown (owner_of d y) (pv_of y)) (default [] (propval d y))).
  destruct (descend_spec (fun d x s => insert_prop d x (fst s) (snd s))
    (fun _ s oc => (pl_cur_length (o_propdefs oc) + fst s, set_pv_var VClear (snd s)))
    d Ht root root_valid (fun y => (Z.of_nat (offset y), pv_of y)) R) as (d' & E & Hs & HP).
  - intros y c oy oc Hb Hy Hc Hp. cbn [fst snd]. apply fmap_Some in Hc as (oc0 & Hc & Ec).
    pose proof (erased_eq o_propdefs _ _ Ec ltac:(by intros ? [])) as Ep.
    pose proof (erased_eq o_parent _ _ Ec ltac:(by intros ? [])) as Eq. rewrite Hp in Eq. symmetry in Eq.
    destruct (above_child d Ht root lr Hlr c oc0 y Hc Eq Hb) as (_ & Hne & _).
    f_equal.
    + rewrite Ep, (offset_child y c oc0) by done. unfold pl_cur_length. lia.
    + unfold pv_of. rewrite (decide_False (P := c = root)) by done. by case_decide.
  - intros d2 y oy Hs Hb Hy Hsame _. cbn [fst snd].
    destruct (below_keys y Hb) as (l & El & Ek). specialize (Hlen y oy l Hb Hy El).
    unfold insert_prop. rewrite (count_properties_spec d2 y l);
      [|by eapply same_tree|by rewrite (same_ancestors d d2)].
    rewrite (same_keys d d2) by done. cbn [mbind option_bind].
    destruct (same_object d d2 y oy Hs Hy) as [v Hv].
    rewrite find_object_objects, Hv by (eapply same_table; [done|apply Ht]). cbn [mbind option_bind].
    assert (Ev : v = o_propval oy).
    { unfold propval in Hsame. rewrite Hv, Hy in Hsame. simpl in Hsame. by rewrite get_set_propval in Hsame; injection Hsame. }
    rewrite get_set_propval, owner_set_propval, Ev.
    replace (o_owner oy) with (owner_of d y) by (unfold owner_of; by rewrite Hy).
    rewrite Ek, !length_app, length_fmap in Hlen.
    assert (Hoff : (offset y < length (keys d l))%nat).
    { unfold offset. rewrite Ek, !length_app, length_fmap. lia. }
    replace ((0 <=? Z.of_nat (offset y)) && (Z.of_nat (offset y) <? Z.of_nat (length (keys d l)))) with true
      by (symmetry; apply andb_true_iff; split; [apply Z.leb_le|apply Z.ltb_lt]; lia).
    assert (Hol : S (length (o_propval oy)) = length (keys d l))
      by (rewrite Ek, !length_app, length_fmap; lia).
    rewrite !slots_spec by lia. cbn [mbind option_bind]. unfold R, insert_at, propval. rewrite Hy. simpl.
    rewrite drop_0, !Nat2Z.id, (take_ge (drop _ _)) by (rewrite length_drop; lia). done.
  - exists d'. rewrite insert_recursively_descend.
    replace (Z.of_nat pos, pv) with ((fun y => (Z.of_nat (offset y), pv_of y)) root).
    2: { cbn beta. unfold offset, pv_of. rewrite (above_root d root lr), decide_True by done. done. }
    split; [done|]. split; [done|]. intros y. rewrite HP. unfold final. case_decide as Hb; [|done].
    destruct (proj1 (below_valid d Ht _ _ Hb)) as [o Ho]. unfold R, propval. by rewrite Ho.
Qed.

Lemma remove_effect :
  (forall y o l, below d root y -> objects d !! y = Some o -> ancestors d y = Some l ->
     length (o_propval o) = S (length (keys d l))) ->
  exists d', remove_prop_recursively (ll_fuel d) d root (Z.of_nat pos) = Some d' /\
    same_but_propval d d' /\
    forall y, propval d' y =
      if decide (below d root y) then delete (offset y) <$> propval d y else propval d y.
Proof.
  intros Hlen.
  set (R y := delete (offset y) (default [] (propval d y))).
  destruct (descend_spec remove_prop (fun _ s oc => pl_cur_length (o_propdefs oc) + s)
    d Ht root root_valid (fun y => Z.of_nat (offset y)) R) as (d' & E & Hs & HP).
  - intros y c oy oc Hb Hy Hc Hp. apply fmap_Some in Hc as (oc0 & Hc & Ec).
    pose proof (erased_eq o_propdefs _ _ Ec ltac:(by intros ? [])) as Ep.
    pose proof (erased_eq o_parent _ _ Ec ltac:(by intros ? [])) as Eq. rewrite Hp in Eq. symmetry in Eq.
    rewrite Ep, (offset_child y c oc0) by done. unfold pl_cur_length. lia.
  - intros d2 y oy Hs Hb Hy Hsame _.
    destruct (below_keys y Hb) as (l & El & Ek). specialize (Hlen y oy l Hb Hy El).
    destruct (same_object d d2 y oy Hs Hy) as [v Hv].
    unfold remove_prop. rewrite find_object_objects, Hv by (eapply same_table; [done|apply Ht]).
    cbn [mbind option_bind]. rewrite (count_properties_spec d2 y l);
      [|by eapply same_tree|by rewrite (same_ancestors d d2)].
    rewrite (same_keys d d2) by done. cbn [mbind option_bind].
    assert (Ev : v = o_propval oy).
    { unfold propval in Hsame. rewrite Hv, Hy in Hsame. simpl in Hsame. by rewrite get_set_propval in Hsame; injection Hsame. }
    rewrite get_set_propval, Ev.
    assert (Hoff : (offset y <= length (keys d l))%nat).
    { unfold offset. rewrite Ek, !length_app, length_fmap. lia. }
    rewrite slot_nat. destruct (lookup_lt_is_Some_2 (o_propval oy) (offset y)) as [p Hp]; [lia|].
    rewrite Hp. cbn [mbind option_bind]. unfold R, propval. rewrite Hy. simpl.
    destruct (Z.eqb_spec (Z.of_nat (length (keys d l))) 0) as [E0|_].
    + assert (offset y = 0%nat) as -> by lia. destruct (o_propval oy) as [|q [|]]; simpl in *; try lia. done.
    + rewrite !slots_spec by lia. cbn [mbind option_bind]. rewrite drop_0, Nat2Z.id.
      rewrite (take_ge (drop _ _)) by (rewrite length_drop; lia).
      replace (Z.to_nat (Z.of_nat (offset y) + 1)) with (S (offset y)) by lia.
      by rewrite <- delete_take_drop.
  - exists d'. rewrite remove_recursively_descend.
    replace (Z.of_nat pos) with ((fun y => Z.of_nat (offset y)) root).
    2: { cbn beta. unfold offset. by rewrite (above_root d root lr). }
    split; [done|]. split; [done|]. intros y. rewrite HP. unfold final. case_decide as Hb; [|done].
    destruct (proj1 (below_valid d Ht _ _ Hb)) as [o Ho]. unfold R, propval. by rewrite Ho.
Qed.
End Effects.

(** ** Searching the descendants for a definition *)

Lemma find_propdef_bool name defs : cstr name -> Forall propdef_ok defs ->
  match find_propdef (str_hash name) name defs 0 with Some _ => true | None => false end = true <->
  exists p, p ∈ defs /\ casefold (pd_name p) = casefold name.
Proof.
  intros Hn Hd. rewrite find_propdef_spec by done.
  destruct (list_find _ defs) as [[j q]|] eqn:E; simpl.
  - apply list_find_Some in E as (Hj & Hq & _). split; [|done]. intros _. exists q.
    split; [by eapply list_elem_of_lookup_2|done].
  - split; [done|]. intros (p & Hp & Hk). apply list_find_None in E.
    rewrite Forall_forall in E. by destruct (E p Hp).
Qed.

Lemma defined_below_gen fuel d name : props_ok d -> cstr name -> forall x lx,
  is_Some (objects d !! x) -> ancestors d x = Some lx -> (size (objects d) < fuel + length lx)%nat ->
  exists b, property_defined_at_or_below fuel d name (str_hash name) x = Some b /\
    (b = true <-> exists y p, below d x y /\ p ∈ own d y /\ casefold (pd_name p) = casefold name).
Proof.
  intros Hok Hn. pose proof (po_tree d Hok) as Ht.
  induction fuel as [|f IH]; intros x lx [o Ho] Hlx Hf.
  { apply ancestors_length in Hlx. unfold ll_fuel in Hlx. lia. }
  cbn [property_defined_at_or_below]. rewrite find_object_ok, Ho by done. cbn [mbind option_bind].
  assert (Hown : own d x = pl_l (o_propdefs o)) by (unfold own; by rewrite Ho).
  pose proof (find_propdef_bool name (own d x) Hn (own_ok d Hok x)) as Hfind. rewrite Hown in Hfind.
  destruct (find_propdef (str_hash name) name (pl_l (o_propdefs o)) 0).
  - exists true. split; [done|]. split; [|done]. intros _.
    destruct (proj1 Hfind eq_refl) as (p & Hp & Hk). exists x, p. rewrite Hown.
    split; [|done]. apply below_refl; [done|by eexists].
  - pose proof Ht as (_ & Hlinks & _).
    destruct (links_members children_links d x Hlinks ltac:(by eexists)) as [cs Hcs].
    destruct (members_inv _ _ _ _ Hcs) as (h & Hh & Hch).
    unfold headf in Hh. rewrite Ho in Hh. injection Hh as Hh. cbn [lk_head children_links] in Hh.
    assert (Hkid : forall c, c ∈ cs <-> exists oc, objects d !! c = Some oc /\ o_parent oc = x).
    { intros c. destruct Hlinks as (_ & Hm & _). rewrite (Hm _ _ Hcs c). unfold upf.
      rewrite fmap_Some. split; intros (oc & ? & ?); eauto. }
    destruct (child_exists_spec d (property_defined_at_or_below f d name (str_hash name))
      (fun c => exists y p, below d c y /\ p ∈ own d y /\ casefold (pd_name p) = casefold name)
      (ll_fuel d) h cs) as (b & E & Hb); [apply Ht|done|by eapply members_length| |].
    + intros c Hc. apply Hkid in Hc as (oc & Hoc & Hpc).
      apply (IH c (c :: lx)); [by eexists| |simpl; lia].
      eapply child_ancestors; [done|done|exact Hpc|done].
    + rewrite Hh. exists b. split; [done|]. rewrite Hb. split.
      * intros (c & Hc & y & p & Hy & Hp). apply Hkid in Hc as (oc & Hoc & Hpc). exists y, p.
        split; [|done]. eapply (below_trans d Ht x c y); [|done]. rewrite <- Hpc.
        apply (child_below d Ht c oc Hoc). rewrite Hpc. by eexists.
      * intros (y & p & Hy & Hp & Hk). destruct (below_children d Ht x y Hy) as [->|(c & oc & Hoc & Hpc & Hcy)].
        -- rewrite Hown in Hp. assert (false = true) by (apply Hfind; by exists p). done.
        -- exists c. split; [apply Hkid; eauto|]. by exists y, p.
Qed.

Lemma defined_below_spec d name x : props_ok d -> cstr name -> is_Some (objects d !! x) ->
  exists b, property_defined_at_or_below (ll_fuel d) d name (str_hash name) x = Some b /\
    (b = true <-> exists y p, below d x y /\ p ∈ own d y /\ casefold (pd_name p) = casefold name).
Proof.
  intros Hok Hn Hx. destruct (tree_ancestors d (po_tree d Hok) x Hx) as [l Hl].
  eapply defined_below_gen; [done|done|done|done|]. unfold ll_fuel. simpl. lia.
Qed.

(** Defined at or below, or inherited: some object at or below has the property. *)
Lemma name_taken d x k : props_ok d -> is_Some (objects d !! x) ->
  (prop_lookup d x k <> None \/ (exists y p, below d x y /\ p ∈ own d y /\ casefold (pd_name p) = k)) <->
  (exists y, below d x y /\ prop_lookup d y k <> None).
Proof.
  intros Hok Hx. pose proof (po_tree d Hok) as Ht. split.
  - intros [H|(y & p & Hy & Hp & Hk)]; [exists x; split; [by apply below_refl|done]|].
    exists y. split; [done|]. destruct (below_valid d Ht _ _ Hy) as [[o Ho] _].
    destruct (tree_ancestors d Ht y ltac:(by eexists)) as [l Hl].
    rewrite (prop_lookup_None d Hok y o _ k Ho Hl). intros Hn. apply Hn. rewrite <- Hk.
    apply list_elem_of_fmap. exists (y, p). split; [done|]. apply elem_of_keys. set_solver.
  - intros (y & Hy & H). destruct (below_valid d Ht _ _ Hy) as [[o Ho] _].
    destruct Hx as [ox Hox]. destruct (tree_ancestors d Ht x ltac:(by eexists)) as [lr Hlr].
    destruct (above_below d Ht x lr Hlr y Hy) as (Ey & _).
    assert (Hin : k ∈ key_name <$> keys d (above d x y ++ x :: lr)).
    { destruct (decide (k ∈ key_name <$> keys d (above d x y ++ x :: lr))) as [|Hn]; [done|].
      by apply (prop_lookup_None d Hok y o _ k Ho Ey) in Hn. }
    apply list_elem_of_fmap in Hin as ([a p] & -> & Hap). apply elem_of_keys in Hap as [Ha Hp].
    apply elem_of_app in Ha as [Ha|Ha].
    + right. exists a, p. split; [|done]. by destruct (above_in d Ht x lr Hlr y a Hy Ha).
    + left. rewrite (prop_lookup_None d Hok x ox _ _ Hox Hlr). intros Hn. apply Hn.
      apply list_elem_of_fmap. exists (a, p). split; [done|]. by apply elem_of_keys.
Qed.

(** ** Association lists under insertion and deletion *)

Lemma NoDup_middle {A} (x : A) l1 l2 : NoDup (l1 ++ x :: l2) <-> x ∉ l1 ++ l2 /\ NoDup (l1 ++ l2).
Proof. by rewrite <- Permutation_middle, NoDup_cons. Qed.

Lemma zip_insert_at {A B} (l1 l2 : list A) (x : A) (v : list B) (y : B) : (length l1 <= length v)%nat ->
  zip (l1 ++ x :: l2) (insert_at (length l1) y v) =
  zip l1 (take (length l1) v) ++ (x, y) :: zip l2 (drop (length l1) v).
Proof.
  intros H. unfold insert_at. rewrite zip_app, take_app_length', drop_app_length'; [done|..];
    rewrite length_take; lia.
Qed.

Lemma zip_delete {A B} (l1 l2 : list A) (v : list B) : (length l1 <= length v)%nat ->
  zip (l1 ++ l2) (delete (length l1) v) =
  zip l1 (take (length l1) v) ++ zip l2 (drop (S (length l1)) v).
Proof.
  intros H. rewrite delete_take_drop, zip_app, take_app_length', drop_app_length'; [done|..];
    rewrite length_take; lia.
Qed.

Lemma assoc_skip k (K : list (Z * Propdef)) P : k ∉ key_name <$> K -> assoc k (zip K P) = None.
Proof.
  revert P. induction K as [|p K IH]; intros [|q P] H; try done. simpl.
  rewrite fmap_cons in H. apply not_elem_of_cons in H as [H1 H2].
  rewrite decide_False by congruence. by apply IH.
Qed.

Lemma assoc_insert_at k A B q v P : (length A <= length P)%nat -> key_name q ∉ key_name <$> A ->
  assoc k (zip (A ++ q :: B) (insert_at (length A) v P)) =
  if decide (k = key_name q) then Some (fst q, v) else assoc k (zip (A ++ B) P).
Proof.
  intros Hlen Hq. rewrite zip_insert_at, zip_app, !assoc_app by done. cbn [assoc].
  destruct (decide (k = key_name q)) as [->|E].
  - rewrite assoc_skip by done. by rewrite decide_True.
  - by rewrite (decide_False (P := key_name q = k)) by congruence.
Qed.

Lemma assoc_delete_at k A B q P : length P = S (length (A ++ B)) -> NoDup (key_name <$> A ++ q :: B) ->
  assoc k (zip (A ++ B) (delete (length A) P)) =
  if decide (k = key_name q) then None else assoc k (zip (A ++ q :: B) P).
Proof.
  intros Hlen Hnd. rewrite length_app in Hlen. rewrite fmap_app, fmap_cons in Hnd.
  apply NoDup_app in Hnd as (_ & H1 & H2). apply NoDup_cons in H2 as [H2 _].
  rewrite zip_delete, zip_app, !assoc_app by lia.
  destruct (drop (length A) P) as [|v P'] eqn:E.
  { apply (f_equal length) in E. rewrite length_drop in E. simpl in E. lia. }
  assert (E' : drop (S (length A)) P = P').
  { replace (S (length A)) with (length A + 1)%nat by lia. by rewrite <- drop_drop, E. }
  rewrite E'. cbn [zip_with assoc]. destruct (decide (k = key_name q)) as [->|Ek].
  - rewrite !assoc_skip; [done|done|]. intros Hin. apply (H1 _ Hin). set_solver.
  - by rewrite (decide_False (P := key_name q = k)) by congruence.
Qed.

(** ** What a change of definitions does to the view

    [d'] comes from [d] by giving [oid] the definitions [props'] and changing
    the slots of its descendants by [Rf]. *)

Section Change.
Context (d d1 d' : db) (oid : Z) (o : Object) (props' : Proplist) (lr : list Z)
  (Rf : Z -> list Pval -> list Pval).
Context (Hok : props_ok d) (Ho : objects d !! oid = Some o).
Context (Hlr : ancestors d oid = Some (oid :: lr)).
Context (H1 : update oid (set_propdefs props') d = Some d1) (Hs' : same_but_propval d1 d').
Context (HP : forall y, propval d' y =
  if decide (below d oid y) then Rf y <$> propval d y else propval d y).

Definition keys_at (y : Z) (defs : list Propdef) : list (Z * Propdef) :=
  keys d (above d oid y) ++ ((fun q => (oid, q)) <$> defs) ++ keys d lr.

Lemma change_shape : same_shape d d'.
Proof.
  destruct (update_propdefs d oid o props' Ho) as (d1' & E & Hs & _).
  rewrite H1 in E. injection E as <-. eapply shape_trans; [done|by apply shape_same].
Qed.

Lemma change_own y : own d' y = if decide (y = oid) then pl_l props' else own d y.
Proof.
  destruct (update_propdefs d oid o props' Ho) as (d1' & E & _ & _ & _ & _ & Hown).
  rewrite H1 in E. injection E as <-. by rewrite (same_own d1 d').
Qed.

Lemma change_defs y oy' : objects d' !! y = Some oy' -> exists oy, objects d !! y = Some oy /\
  o_propdefs oy' = (if decide (y = oid) then props' else o_propdefs oy).
Proof.
  intros Hy'. destruct (update_propdefs d oid o props' Ho) as (d1' & E & _ & Hroot & Hother & _).
  rewrite H1 in E. injection E as <-.
  pose proof (same_field o_propdefs d1 d' y Hs' ltac:(by intros ? [])) as E. rewrite Hy' in E.
  case_decide as Hy.
  - subst y. exists o. split; [done|]. rewrite Hroot in E. simpl in E. injection E as ->. by destruct o.
  - rewrite Hother in E by done. destruct (objects d !! y) as [oy|]; [|done]. exists oy.
    simpl in E. by injection E as ->.
Qed.

Lemma change_keys y : below d oid y -> exists l oy, ancestors d y = Some l /\ objects d !! y = Some oy /\
  keys d l = keys_at y (own d oid) /\ keys d' l = keys_at y (pl_l props') /\
  length (o_propval oy) = length (keys_at y (own d oid)).
Proof.
  intros Hy. destruct (above_below d (po_tree d Hok) oid lr Hlr y Hy) as (Ey & Hn & Hn').
  destruct (below_valid d (po_tree d Hok) _ _ Hy) as [[oy Hoy] _]. do 2 eexists. split; [done|].
  split; [done|]. assert (Ek : keys d (above d oid y ++ oid :: lr) = keys_at y (own d oid)).
  { unfold keys_at. by rewrite keys_app, keys_cons. }
  split; [done|]. split; [|rewrite <- Ek; by eapply po_len].
  unfold keys_at. rewrite keys_app, keys_cons, change_own, decide_True by done.
  f_equal; [|f_equal]; apply keys_ext; intros a Ha; rewrite change_own, decide_False;
    (done || (intros ->; done)).
Qed.

Lemma change_keys_out y l : ~ below d oid y -> ancestors d y = Some l -> keys d' l = keys d l.
Proof.
  intros Hy El. apply keys_ext. intros a Ha. rewrite change_own, decide_False; [done|].
  intros ->. apply Hy. by exists l.
Qed.

(** Lookup after the change. *)
Lemma change_lookup y k : prop_lookup d' y k =
  if decide (below d oid y)
  then assoc k (zip (keys_at y (pl_l props')) (Rf y (default [] (propval d y))))
  else prop_lookup d y k.
Proof.
  unfold prop_lookup, pview. rewrite (shape_ancestors d d'), HP by apply change_shape.
  case_decide as Hy.
  - destruct (change_keys y Hy) as (l & oy & -> & Hoy & _ & -> & _). unfold propval. by rewrite Hoy.
  - destruct (ancestors d y) as [l|] eqn:El; [|done]. by rewrite (change_keys_out y l).
Qed.

Lemma change_lookup_old y k : below d oid y ->
  prop_lookup d y k = assoc k (zip (keys_at y (own d oid)) (default [] (propval d y))).
Proof.
  intros Hy. destruct (change_keys y Hy) as (l & oy & El & Hoy & Ek & _).
  unfold prop_lookup. by rewrite (pview_zip d y oy l), Ek; unfold propval; rewrite ?Hoy.
Qed.

(** The tables stay well formed. *)
Lemma change_ok :
  proplist_ok props' ->
  (forall y v, below d oid y -> length v = length (keys_at y (own d oid)) ->
     length (Rf y v) = length (keys_at y (pl_l props'))) ->
  (forall y v i, below d oid y -> y <> oid -> length v = length (keys_at y (own d oid)) ->
     (i < length (own d y))%nat -> Rf y v !! i = v !! i) ->
  (forall i pv, (i < length (pl_l props'))%nat -> Rf oid (o_propval o) !! i = Some pv ->
     pv_var pv <> VClear) ->
  (forall y, below d oid y -> NoDup (key_name <$> keys_at y (pl_l props'))) ->
  props_ok d'.
Proof.
  intros Hp Hlen Hkeep Hroot Hnames.
  assert (Hob : below d oid oid) by (apply below_refl; [apply Hok|by eexists]).
  assert (Hval : forall y oy', objects d' !! y = Some oy' -> exists oy, objects d !! y = Some oy /\
    o_propval oy' = (if decide (below d oid y) then Rf y (o_propval oy) else o_propval oy)).
  { intros y oy' Hy'. destruct (proj1 (shape_dom d d' y change_shape) ltac:(by eexists)) as [oy Hoy].
    exists oy. split; [done|]. pose proof (HP y) as E. unfold propval in E. rewrite Hy', Hoy in E.
    case_decide; simpl in E; by injection E. }
  split.
  - eapply shape_tree; [apply change_shape|apply Hok].
  - intros y oy' (oy & Hoy & ->)%change_defs. case_decide; [done|]. by eapply po_defs.
  - intros y oy' l (oy & Hoy & ->)%Hval El. rewrite (shape_ancestors d d') in El by apply change_shape.
    case_decide as Hy.
    + destruct (change_keys y Hy) as (l' & oy2 & El' & Hoy2 & _ & Ek & Hl).
      rewrite El in El'. injection El' as <-. rewrite Hoy in Hoy2. injection Hoy2 as <-.
      by rewrite Ek, Hlen.
    + rewrite (change_keys_out y l) by done. by eapply po_len.
  - intros y oy' i pv Hy' Hi Hpv. destruct (Hval y oy' Hy') as (oy & Hoy & E). rewrite E in Hpv.
    destruct (change_defs y oy' Hy') as (oy2 & Hoy2 & E2). rewrite E2 in Hi.
    rewrite Hoy in Hoy2. injection Hoy2 as <-.
    destruct (decide (y = oid)) as [->|Hne].
    + rewrite decide_True in Hpv by done. rewrite Ho in Hoy. injection Hoy as <-. by eapply Hroot.
    + case_decide as Hb; [|by eapply po_own].
      destruct (change_keys y Hb) as (_ & oy2 & _ & Hoy2 & _ & _ & Hl).
      rewrite Hoy in Hoy2. injection Hoy2 as <-.
      rewrite Hkeep in Hpv by (done || (unfold own; by rewrite Hoy)). by eapply po_own.
  - intros y l El. rewrite (shape_ancestors d d') in El by apply change_shape.
    destruct (decide (below d oid y)) as [Hy|Hy].
    + destruct (change_keys y Hy) as (l' & oy2 & El' & _ & _ & Ek & _).
      rewrite El in El'. injection El' as <-. rewrite Ek. by apply Hnames.
    + rewrite (change_keys_out y l) by done. by apply (po_names d Hok y).
Qed.
End Change.

(** ** Adding a definition *)

Lemma grow_propdefs_spec p props : proplist_ok props -> propdef_ok p ->
  2 * pl_max_length props <= INT32_MAX ->
  exists max, push_propdef p (grow_propdefs props) = Some (mkProplist max (pl_l props ++ [p])) /\
    proplist_ok (mkProplist max (pl_l props ++ [p])).
Proof.
  intros [Hf Hle] Hp Hmax. unfold grow_propdefs, push_propdef, pl_cur_length in *.
  set (n := Z.of_nat (length (pl_l props))) in *. assert (0 <= n) by lia.
  assert (E : exists max, (if n =? pl_max_length props
     then mkProplist (if pl_max_length props =? 0 then 8 else int (2 * pl_max_length props)) (pl_l props)
     else props) = mkProplist max (pl_l props) /\ n < max).
  { destruct (Z.eqb_spec n (pl_max_length props)) as [E|E].
    - eexists. split; [done|]. destruct (Z.eqb_spec (pl_max_length props) 0); [lia|].
      rewrite int_id by (unfold INT32_MIN, INT32_MAX in *; lia). lia.
    - exists (pl_max_length props). split; [by destruct props|]. lia. }
  destruct E as (max & -> & Hlt). exists max. cbn [pl_l pl_max_length]. fold n.
  destruct (Z.ltb_spec n max); [|lia]. split; [done|]. split; cbn [pl_l].
  - apply Forall_app. split; [done|]. by apply Forall_singleton.
  - unfold pl_cur_length. cbn [pl_l pl_max_length]. rewrite length_app. simpl. lia.
Qed.

Lemma effective_clear d l1 l2 k :
  (forall a, a ∈ l1 -> exists b pv, prop_lookup d a k = Some (b, pv) /\ pv_var pv = VClear) ->
  effective d (l1 ++ l2) k = effective d l2 k.
Proof.
  induction l1 as [|a l1 IH]; intros H; [done|]. cbn [effective app].
  destruct (H a) as (b & pv & -> & E); [set_solver|]. cbn [mbind option_bind]. rewrite E.
  apply IH. intros; apply H; set_solver.
Qed.

Lemma chown_var w p : pv_var (chown w p) = pv_var p.
Proof. unfold chown. by case_match. Qed.


(** The slots that precede [root]'s own [n]th in a descendant. *)
Lemma offset_shape d d1 oid lr n y : tree_ok d -> same_shape d d1 ->
  (forall a, own d1 a = own d a \/ a = oid) -> ancestors d oid = Some (oid :: lr) -> below d oid y ->
  offset d1 oid n y = (length (keys d (above d oid y)) + n)%nat.
Proof.
  intros Ht Hs Hown Hlr Hy. unfold offset. rewrite (shape_above d d1) by done.
  destruct (above_below d Ht oid lr Hlr y Hy) as (_ & Hn & _). rewrite (keys_ext d d1); [done|].
  intros a Ha. destruct (Hown a) as [| ->]; done.
Qed.

Lemma keys_at_split d oid lr y l1 q l2 :
  keys_at d oid lr y (l1 ++ q :: l2) =
  (keys d (above d oid y) ++ ((fun q => (oid, q)) <$> l1)) ++
  (oid, q) :: ((fun q => (oid, q)) <$> l2) ++ keys d lr.
Proof. unfold keys_at. by rewrite fmap_app, fmap_cons, <- !app_assoc. Qed.

Lemma keys_at_join d oid lr y l1 l2 :
  keys_at d oid lr y (l1 ++ l2) =
  (keys d (above d oid y) ++ ((fun q => (oid, q)) <$> l1)) ++
  ((fun q => (oid, q)) <$> l2) ++ keys d lr.
Proof. unfold keys_at. by rewrite fmap_app, <- !app_assoc. Qed.

(** The slots of [y]'s own definitions come before those of [oid]. *)
Lemma own_before d oid lr y n : tree_ok d -> ancestors d oid = Some (oid :: lr) -> below d oid y ->
  y <> oid -> (length (own d y) <= length (keys d (above d oid y)) + n)%nat.
Proof.
  intros Ht Hlr Hy Hne. destruct (above_cons d Ht oid lr Hlr y Hy Hne) as [l ->].
  rewrite keys_cons, length_app, length_fmap. lia.
Qed.

Lemma lookup_insert_at_lt {A} n (x : A) l i : (i < n)%nat -> (n <= length l)%nat ->
  insert_at n x l !! i = l !! i.
Proof.
  intros Hi Hn. unfold insert_at. rewrite lookup_app_l by (rewrite length_take; lia).
  by apply lookup_take_lt.
Qed.

Lemma lookup_insert_at_eq {A} n (x : A) l : (n <= length l)%nat -> insert_at n x l !! n = Some x.
Proof.
  intros Hn. unfold insert_at. rewrite lookup_app_r by (rewrite length_take; lia).
  rewrite length_take, Nat.min_l, Nat.sub_diag by lia. done.
Qed.

Lemma length_insert_at {A} n (x : A) l : (n <= length l)%nat -> length (insert_at n x l) = S (length l).
Proof. intros H. unfold insert_at. rewrite length_app, length_take. simpl. rewrite length_drop. lia. Qed.

Lemma add_propdef_spec d oid o p max pv : props_ok d -> objects d !! oid = Some o ->
  let k := casefold (pd_name p) in
  (forall y, below d oid y -> prop_lookup d y k = None) -> pv_var pv <> VClear ->
  proplist_ok (mkProplist max (pl_l (o_propdefs o) ++ [p])) ->
  exists d1 d', update oid (set_propdefs (mkProplist max (pl_l (o_propdefs o) ++ [p]))) d = Some d1 /\
    insert_prop_recursively (ll_fuel d1) d1 oid (Z.of_nat (length (pl_l (o_propdefs o)))) pv = Some d' /\
    props_ok d' /\ same_shape d d' /\
    forall y k', prop_lookup d' y k' =
      if decide (k' = k /\ below d oid y)
      then Some (oid, chown (owner_of d y) (if decide (y = oid) then pv else set_pv_var VClear pv))
      else prop_lookup d y k'.
Proof.
  intros Hok Ho k Hfree Hpv Hprops. pose proof (po_tree d Hok) as Ht.
  set (props' := mkProplist max (pl_l (o_propdefs o) ++ [p])) in *.
  destruct (update_propdefs d oid o props' Ho) as (d1 & E1 & Hs1 & Hroot & _ & Hval & Hown).
  destruct (tree_ancestors d Ht oid ltac:(by eexists)) as [lr Hlr].
  assert (Hlr1 : ancestors d1 oid = Some (oid :: lr)) by by rewrite (shape_ancestors d d1).
  assert (Eown : own d oid = pl_l (o_propdefs o)) by (unfold own; by rewrite Ho).
  set (n := length (pl_l (o_propdefs o))) in *.
  set (A y := keys d (above d oid y) ++ ((fun q => (oid, q)) <$> own d oid)).
  set (pv_of y := chown (owner_of d y) (if decide (y = oid) then pv else set_pv_var VClear pv)).
  assert (HA : forall y, length (A y) = (length (keys d (above d oid y)) + n)%nat).
  { intros y. unfold A. by rewrite length_app, length_fmap, Eown. }
  assert (Hold : forall y, keys_at d oid lr y (own d oid) = A y ++ keys d lr).
  { intros y. unfold A, keys_at. by rewrite <- app_assoc. }
  assert (Hnew : forall y, keys_at d oid lr y (pl_l props') = A y ++ (oid, p) :: keys d lr).
  { intros y. unfold props'. cbn [pl_l]. by rewrite keys_at_split, <- Eown. }
  assert (Hown1 : own d1 oid = pl_l props') by (rewrite Hown; by rewrite decide_True).
  assert (Hn1 : (n < length (own d1 oid))%nat).
  { rewrite Hown1. unfold props'. cbn [pl_l]. rewrite length_app. simpl. lia. }
  destruct (insert_effect d1 (shape_tree _ _ Hs1 Ht) oid lr Hlr1 n) with (pv := pv)
    as (d' & E' & Hs' & HP); [lia|done| |].
  { intros y oy l Hy Hoy El. rewrite (shape_below d d1) in Hy by done.
    rewrite (shape_ancestors d d1) in El by done.
    destruct (change_keys d d1 d1 oid o props' lr Hok Ho Hlr E1 (same_refl d1) y Hy)
      as (l' & oy0 & El' & Hoy0 & _ & Ek & Hl). rewrite El in El'. injection El' as <-.
    pose proof (Hval y) as Ev. unfold propval in Ev. rewrite Hoy, Hoy0 in Ev. injection Ev as ->.
    rewrite Hl, Ek, Hold, Hnew, !length_app. simpl. lia. }
  exists d1, d'. split; [done|]. split; [done|].
  assert (HP' : forall y, propval d' y =
    if decide (below d oid y) then insert_at (length (A y)) (pv_of y) <$> propval d y else propval d y).
  { intros y. rewrite HP, Hval, (shape_owner d d1) by done.
    rewrite (decide_ext _ _ _ _ (shape_below d d1 oid y Hs1)). case_decide as Hy; [|done].
    rewrite (offset_shape d d1 oid lr n y Ht Hs1), HA; [done| |done|done].
    intros a. rewrite Hown. case_decide; [by right|by left]. }
  assert (Hnotin : forall y, below d oid y -> k ∉ key_name <$> A y ++ keys d lr).
  { intros y Hy. pose proof (Hfree y Hy) as Hf.
    destruct (change_keys d d1 d' oid o props' lr Hok Ho Hlr E1 Hs' y Hy) as (l & oy & El & Hoy & Ek & _).
    by rewrite (prop_lookup_None d Hok y oy l k Hoy El), Ek, Hold in Hf. }
  split; [|split; [eapply change_shape; done|]].
  - apply (change_ok d d1 d' oid o props' lr (fun y => insert_at (length (A y)) (pv_of y))); try done.
    + intros y v Hy Hl. rewrite Hold, length_app in Hl.
      rewrite Hnew, length_insert_at by lia. rewrite Hl, length_app. simpl. lia.
    + intros y v i Hy Hne Hl Hi. rewrite Hold, length_app in Hl. apply lookup_insert_at_lt; [|lia].
      rewrite HA. pose proof (own_before d oid lr y n Ht Hlr Hy Hne). lia.
    + intros i q Hi Hq. assert (Hob : below d oid oid) by (apply below_refl; [done|by eexists]).
      destruct (change_keys d d1 d' oid o props' lr Hok Ho Hlr E1 Hs' oid Hob) as (_ & o2 & _ & Ho2 & _ & _ & Hl).
      rewrite Ho in Ho2. injection Ho2 as <-. rewrite Hold, length_app in Hl.
      assert (HAn : length (A oid) = n) by (rewrite HA, (above_root d oid lr); done).
      unfold props' in Hi. cbn [pl_l] in Hi. rewrite length_app in Hi. simpl in Hi. fold n in Hi.
      destruct (decide (i = n)) as [->|].
      * rewrite <- HAn, lookup_insert_at_eq in Hq by lia. injection Hq as <-. unfold pv_of.
        by rewrite chown_var, decide_True.
      * rewrite lookup_insert_at_lt in Hq by lia. eapply (po_own d Hok oid o i); [done| |done]. fold n. lia.
    + intros y Hy. rewrite Hnew. destruct (change_keys d d1 d' oid o props' lr Hok Ho Hlr E1 Hs' y Hy)
        as (l & oy & El & Hoy & Ek & _). pose proof (po_names d Hok y l El) as Hnd. rewrite Ek, Hold in Hnd.
      rewrite fmap_app, fmap_cons, NoDup_middle, <- fmap_app. split; [apply (Hnotin y Hy)|done].
  - intros y k'. rewrite (change_lookup d d1 d' oid o props' lr _ Hok Ho Hlr E1 Hs' HP').
    destruct (decide (below d oid y)) as [Hy|Hy]; [|by rewrite decide_False by tauto].
    rewrite Hnew, assoc_insert_at.
    + rewrite (change_lookup_old d d1 d' oid o props' lr Hok Ho Hlr E1 Hs' y k' Hy), Hold.
      change (key_name (oid, p)) with k. clearbody k. by destruct (decide (k' = k)), (decide (k' = k /\ below d oid y)); tauto || done.
    + destruct (change_keys d d1 d' oid o props' lr Hok Ho Hlr E1 Hs' y Hy)
        as (l & oy & El & Hoy & _ & _ & Hl). unfold propval. rewrite Hoy. simpl.
      rewrite Hl, Hold, length_app. lia.
    + intros Hin. apply (Hnotin y Hy). rewrite fmap_app. apply elem_of_app. by left.
Qed.

(** ** Deleting a definition *)

Lemma delete_middle_at {A} (l1 l2 : list A) x : delete (length l1) (l1 ++ x :: l2) = l1 ++ l2.
Proof. by rewrite delete_middle. Qed.

Lemma delete_propdef_spec d oid o max l1 q l2 : props_ok d -> objects d !! oid = Some o ->
  pl_l (o_propdefs o) = l1 ++ q :: l2 -> proplist_ok (mkProplist max (l1 ++ l2)) ->
  let k := casefold (pd_name q) in
  exists d1 d', update oid (set_propdefs (mkProplist max (l1 ++ l2))) d = Some d1 /\
    remove_prop_recursively (ll_fuel d1) d1 oid (Z.of_nat (length l1)) = Some d' /\
    props_ok d' /\ same_shape d d' /\
    forall y k', prop_lookup d' y k' =
      if decide (k' = k /\ below d oid y) then None else prop_lookup d y k'.
Proof.
  intros Hok Ho Hdefs Hprops k. pose proof (po_tree d Hok) as Ht.
  set (props' := mkProplist max (l1 ++ l2)) in *.
  destruct (update_propdefs d oid o props' Ho) as (d1 & E1 & Hs1 & Hroot & _ & Hval & Hown).
  destruct (tree_ancestors d Ht oid ltac:(by eexists)) as [lr Hlr].
  assert (Hlr1 : ancestors d1 oid = Some (oid :: lr)) by by rewrite (shape_ancestors d d1).
  assert (Eown : own d oid = l1 ++ q :: l2) by (unfold own; by rewrite Ho).
  set (n := length l1) in *.
  set (A y := keys d (above d oid y) ++ ((fun q => (oid, q)) <$> l1)).
  set (B := ((fun q => (oid, q)) <$> l2) ++ keys d lr).
  assert (HA : forall y, length (A y) = (length (keys d (above d oid y)) + n)%nat).
  { intros y. unfold A. by rewrite length_app, length_fmap. }
  assert (Hold : forall y, keys_at d oid lr y (own d oid) = A y ++ (oid, q) :: B).
  { intros y. by rewrite Eown, keys_at_split. }
  assert (Hnew : forall y, keys_at d oid lr y (pl_l props') = A y ++ B).
  { intros y. unfold props'. cbn [pl_l]. by rewrite keys_at_join. }
  assert (Hown1 : own d1 oid = pl_l props') by (rewrite Hown; by rewrite decide_True).
  assert (Hn1 : (n <= length (own d1 oid))%nat).
  { rewrite Hown1. unfold props'. cbn [pl_l]. rewrite length_app. fold n. lia. }
  pose proof (change_keys d d1 d1 oid o props' lr Hok Ho Hlr E1 (same_refl d1)) as Hkeys1.
  destruct (remove_effect d1 (shape_tree _ _ Hs1 Ht) oid lr Hlr1 n) as (d' & E' & Hs' & HP); [done| |].
  { intros y oy l Hy Hoy El. rewrite (shape_below d d1) in Hy by done.
    rewrite (shape_ancestors d d1) in El by done.
    destruct (Hkeys1 y Hy) as (l' & oy0 & El' & Hoy0 & _ & Ek & Hl). rewrite El in El'. injection El' as <-.
    pose proof (Hval y) as Ev. unfold propval in Ev. rewrite Hoy, Hoy0 in Ev. injection Ev as ->.
    rewrite Hl, Ek, Hold, Hnew, !length_app. simpl. lia. }
  exists d1, d'. split; [done|]. split; [done|].
  assert (HP' : forall y, propval d' y =
    if decide (below d oid y) then delete (length (A y)) <$> propval d y else propval d y).
  { intros y. rewrite HP, Hval.
    rewrite (decide_ext _ _ _ _ (shape_below d d1 oid y Hs1)). case_decide as Hy; [|done].
    rewrite (offset_shape d d1 oid lr n y Ht Hs1), HA; [done| |done|done].
    intros a. rewrite Hown. case_decide; [by right|by left]. }
  pose proof (change_keys d d1 d' oid o props' lr Hok Ho Hlr E1 Hs') as Hkeys.
  assert (Hnames : forall y, below d oid y -> NoDup (key_name <$> A y ++ (oid, q) :: B)).
  { intros y Hy. destruct (Hkeys y Hy) as (l & oy & El & Hoy & Ek & _).
    rewrite <- Hold, <- Ek. by apply (po_names d Hok y). }
  split; [|split; [eapply change_shape; done|]].
  - apply (change_ok d d1 d' oid o props' lr (fun y => delete (length (A y)))); try done.
    + intros y v Hy Hl. rewrite Hold in Hl. rewrite Hnew, length_delete.
      * rewrite Hl, !length_app. simpl. lia.
      * apply lookup_lt_is_Some_2. rewrite Hl, length_app. simpl. lia.
    + intros y v i Hy Hne Hl Hi. apply list_lookup_delete_lt. rewrite HA.
      pose proof (own_before d oid lr y n Ht Hlr Hy Hne). lia.
    + intros i pv Hi Hpv. assert (HAn : length (A oid) = n) by (rewrite HA, (above_root d oid lr); done).
      rewrite HAn in Hpv. unfold props' in Hi. cbn [pl_l] in Hi. rewrite length_app in Hi.
      assert (Hlen : length (pl_l (o_propdefs o)) = S (length l1 + length l2))
        by (rewrite Hdefs, length_app; simpl; lia).
      destruct (decide (i < n)%nat) as [Hin|Hin].
      * rewrite list_lookup_delete_lt in Hpv by done. eapply (po_own d Hok oid o i); [done|lia|done].
      * rewrite list_lookup_delete_ge in Hpv by lia. eapply (po_own d Hok oid o (S i)); [done|lia|done].
    + intros y Hy. rewrite Hnew. pose proof (Hnames y Hy) as Hnd.
      rewrite fmap_app, fmap_cons, NoDup_middle, <- fmap_app in Hnd. apply Hnd.
  - intros y k'. rewrite (change_lookup d d1 d' oid o props' lr _ Hok Ho Hlr E1 Hs' HP').
    destruct (decide (below d oid y)) as [Hy|Hy]; [|by rewrite decide_False by tauto].
    rewrite Hnew, (assoc_delete_at k' (A y) B (oid, q)); [| |by apply Hnames].
    + rewrite (change_lookup_old d d1 d' oid o props' lr Hok Ho Hlr E1 Hs' y k' Hy), Hold.
      change (key_name (oid, q)) with k. clearbody k.
      by destruct (decide (k' = k)), (decide (k' = k /\ below d oid y)); tauto || done.
    + destruct (Hkeys y Hy) as (l & oy & El & Hoy & _ & _ & Hl). unfold propval. rewrite Hoy. simpl.
      rewrite Hl, Hold, !length_app. simpl. lia.
Qed.

(** The test of adding and renaming: whether the name is taken. *)
Lemma taken_spec d oid name : props_ok d -> is_Some (objects d !! oid) -> cstr name ->
  let k := casefold name in
  exists h b, db_find_property d oid name false = Some (h, None) /\
    (if negb (is_null h) then Some true
     else property_defined_at_or_below (ll_fuel d) d name (str_hash name) oid) = Some b /\
    (b = false <-> ~ builtin_name k /\ forall y, below d oid y -> prop_lookup d y k = None).
Proof.
  intros Hok [o Ho] Hn k. pose proof (po_tree d Hok) as Ht.
  destruct (tree_ancestors d Ht oid ltac:(by eexists)) as [lr Hlr].
  pose proof (find_builtin_spec name Hn) as Hb. fold k in Hb. unfold db_find_property.
  destruct (find_builtin _ _ _) as [bp|].
  { do 2 eexists. split; [done|]. split; [done|]. split; [done|]. intros [H _]. tauto. }
  rewrite (find_prop_loop_spec _ d oid _ name 0 Hok Hn Hlr) by (apply ancestors_length in Hlr; lia).
  fold k. pose proof (prop_lookup_None d Hok oid o _ k Ho Hlr) as Hnone.
  assert (Hfind : match list_find (fun p => key_name p = k) (keys d (oid :: lr)) with
                  | Some _ => prop_lookup d oid k <> None | None => prop_lookup d oid k = None end).
  { destruct (list_find _ _) as [[j q]|] eqn:Ef.
    - rewrite Hnone. intros Hni. apply list_find_Some in Ef as (Hj & Hq & _). apply Hni. rewrite <- Hq.
      apply list_elem_of_fmap. exists q. split; [done|]. by eapply list_elem_of_lookup_2.
    - apply Hnone. apply list_find_None in Ef. intros Hin. apply list_elem_of_fmap in Hin as (p & E & Hp).
      rewrite Forall_forall in Ef. by apply (Ef p Hp). }
  destruct (defined_below_spec d name oid Hok Hn ltac:(by eexists)) as (b & Eb & Hbelow). fold k in Hbelow.
  pose proof (name_taken d oid k Hok ltac:(by eexists)) as Htaken.
  destruct (list_find _ _) as [[j [a q]]|]; cbn [fmap option_fmap option_map mbind option_bind].
  - do 2 eexists. split; [done|]. split; [done|]. split; [done|]. intros [_ H]. exfalso.
    apply Hfind, H, below_refl; [done|by eexists].
  - exists (mkPropHandle BP_NONE NOTHING PNull), b. split; [done|]. split; [done|]. split.
    + intros ->. split; [done|]. intros y Hy. destruct (prop_lookup d y k) eqn:E; [|done]. exfalso.
      destruct (proj2 Htaken) as [H|H]; [exists y; split; [done|by rewrite E]|done|].
      by apply Hbelow in H.
    + intros [_ H]. destruct b; [|done]. exfalso. pose proof (proj1 Hbelow eq_refl) as Hex.
      destruct (proj1 Htaken) as (y & Hy & Hne); [by right|]. by apply Hne, H.
Qed.

(** ** Theorems *)

Lemma db_add_propdef_spec (d : db) (oid : Z) (o : Object) (name : bytes) (value : Var) (owner flags : Z) :
  props_ok d -> objects d !! oid = Some o -> cstr name -> value <> VClear ->
  2 * pl_max_length (o_propdefs o) <= INT32_MAX ->
  let k := casefold name in
  let pv := mkPval value owner (uwrap 16 flags) in
  (builtin_name k \/ (exists y, below d oid y /\ prop_lookup d y k <> None) ->
     db_add_propdef d oid name value owner flags = Some (d, false)) /\
  (~ builtin_name k -> (forall y, below d oid y -> prop_lookup d y k = None) ->
     exists d', db_add_propdef d oid name value owner flags = Some (d', true) /\
       props_ok d' /\ same_shape d d' /\
       (forall y k', prop_lookup d' y k' =
          if decide (k' = k /\ below d oid y)
          then Some (oid, chown (owner_of d y) (if decide (y = oid) then pv else set_pv_var VClear pv))
          else prop_lookup d y k') /\
       (forall y, below d oid y -> prop_value d' y k = Some value)).
Proof.
  intros Hok Ho Hn Hv Hmax k pv. pose proof (po_tree d Hok) as Ht.
  destruct (tree_ancestors d Ht oid ltac:(by eexists)) as [lr Hlr].
  destruct (taken_spec d oid name Hok ltac:(by eexists) Hn) as (h & b & E1 & E2 & Hb).
  unfold db_add_propdef. rewrite E1. cbn [mbind option_bind]. rewrite E2. cbn [mbind option_bind].
  fold k in Hb. split.
  { intros Htaken. destruct b; [done|]. destruct (proj1 Hb eq_refl) as [Hnb Hfree].
    destruct Htaken as [|(y & Hy & Hne)]; [done|]. by destruct Hne; apply Hfree. }
  intros Hnb Hfree. rewrite (proj2 Hb (conj Hnb Hfree)).
  rewrite find_object_ok, Ho by done. cbn [mbind option_bind].
  assert (Hpd : propdef_ok (dbpriv_new_propdef name)) by done.
  destruct (grow_propdefs_spec (dbpriv_new_propdef name) (o_propdefs o)) as (max & -> & Hpl);
    [by eapply po_defs|done|done|]. cbn [mbind option_bind].
  destruct (add_propdef_spec d oid o (dbpriv_new_propdef name) max pv Hok Ho Hfree Hv Hpl)
    as (d1 & d' & -> & E3 & Hok' & Hs & Hlook). cbn [mbind option_bind].
  replace (pl_cur_length (mkProplist max (pl_l (o_propdefs o) ++ [dbpriv_new_propdef name])) - 1)
    with (Z.of_nat (length (pl_l (o_propdefs o))))
    by (unfold pl_cur_length; cbn [pl_l]; rewrite length_app; simpl; lia).
  fold pv. rewrite E3. cbn [mbind option_bind]. exists d'. split; [done|]. split; [done|]. split; [done|].
  split; [exact Hlook|]. intros y Hy. unfold prop_value. rewrite (shape_ancestors d d') by done.
  destruct (above_below d Ht oid lr Hlr y Hy) as (-> & _). cbn [mbind option_bind].
  rewrite effective_clear.
  - cbn [effective]. rewrite Hlook, decide_True by (split; [done|by apply below_refl; [|eexists]]).
    cbn [mbind option_bind]. rewrite decide_True, chown_var by done. by destruct value.
  - intros a Ha. destruct (above_in d Ht oid lr Hlr y a Hy Ha) as [Hb1 Hb2].
    rewrite Hlook, decide_True by done. do 2 eexists. split; [done|].
    by rewrite chown_var, decide_False.
Qed.

(** C11: adding a property: it is refused exactly if the name is that of a
    built-in property or the object, one of its ancestors or one of its
    descendants already has a property of that name (in any case).  Otherwise
    the object defines it with the given value, every descendant inherits that
    value through a clear slot, owned by the given owner or (with the c flag)
    by the descendant's owner, and every other property of every object is as
    before; the walk over the descendants ends. *)
Theorem db_add_propdef_correct (d : db) (oid : Z) (o : Object) (name : bytes) (value : Var) (owner flags : Z) :
  props_ok d -> objects d !! oid = Some o -> cstr name -> value <> VClear ->
  2 * pl_max_length (o_propdefs o) <= INT32_MAX ->
  let k := casefold name in
  let pv := mkPval value owner (uwrap 16 flags) in
  (builtin_name k \/ (exists y, below d oid y /\ prop_lookup d y k <> None) ->
     db_add_propdef d oid name value owner flags = Some (d, false)) /\
  (~ builtin_name k -> (forall y, below d oid y -> prop_lookup d y k = None) ->
     exists d', db_add_propdef d oid name value owner flags = Some (d', true) /\
       props_ok d' /\ same_shape d d' /\
       (forall y k', prop_lookup d' y k' =
          if decide (k' = k /\ below d oid y)
          then Some (oid, chown (owner_of d y) (if decide (y = oid) then pv else set_pv_var VClear pv))
          else prop_lookup d y k') /\
       (forall y, below d oid y -> prop_value d' y k = Some value)).
Proof. exact (db_add_propdef_spec d oid o name value owner flags). Qed.

Example db_add_propdef_correct_witness :
  exists d', db_add_propdef sample 1 (BS "Weight") (VInt 3) 1 5 = Some (d', true) /\
    prop_value d' 4 (casefold (BS "weight")) = Some (VInt 3).
Proof.
  destruct (db_add_propdef_correct sample 1 (default (mkObject 0 0 0 0 0 0 0 0 [] 0 [] (mkProplist 0 []) [])
    (objects sample !! 1)) (BS "Weight") (VInt 3) 1 5) as [_ H].
  - apply props_check_ok. by vm_compute.
  - by vm_compute.
  - by repeat constructor.
  - done.
  - by vm_compute.
  - cbv zeta in H. replace (casefold (BS "weight")) with (casefold (BS "Weight")) by by vm_compute.
    destruct H as (d' & E & _ & _ & _ & Hval).
    + apply (bool_decide_eq_false_1 (builtin_name _)). by vm_compute.
    + intros y Hy. assert (Hin : y ∈ [1; 2; 3; 4]).
      { destruct (below_valid sample ltac:(apply tree_check_ok; by vm_compute) _ _ Hy) as [[o Ho] _].
        apply elem_of_list_to_map_2 in Ho. simpl in Ho.
        repeat (apply elem_of_cons in Ho as [Ho|Ho]; [apply pair_eq in Ho as [-> _]|]);
          [|set_solver..|by apply elem_of_nil in Ho].
        destruct Hy as (l & El & Hl). vm_compute in El. injection El as <-. set_solver. }
      repeat (apply elem_of_cons in Hin as [-> | Hin]; [by vm_compute|]). by apply elem_of_nil in Hin.
    + exists d'. split; [exact E|]. apply Hval. exists [4; 2; 1]. split; [vm_compute; reflexivity|clear; set_solver].
Defined.

Lemma delete_propdef_at_spec i props : proplist_ok props -> (i < length (pl_l props))%nat ->
  exists max, delete_propdef_at (Z.of_nat i) props = Some (mkProplist max (delete i (pl_l props))) /\
    proplist_ok (mkProplist max (delete i (pl_l props))).
Proof.
  intros [Hf Hle] Hi. unfold delete_propdef_at, pl_cur_length in *. rewrite Nat2Z.id.
  assert (Hf' : Forall propdef_ok (delete i (pl_l props))) by by apply Forall_delete.
  assert (Hl : S (length (delete i (pl_l props))) = length (pl_l props)).
  { rewrite length_delete by by apply lookup_lt_is_Some_2. lia. }
  destruct ((8 <? pl_max_length props) && (Z.of_nat (length (pl_l props)) <=? pl_max_length props * 3 / 8)) eqn:E.
  - breflect. assert (Hfit : Z.of_nat (length (delete i (pl_l props))) <= pl_max_length props / 2).
    { assert (pl_max_length props * 3 / 8 <= pl_max_length props / 2 + 1); [|lia].
      pose proof (Z.div_le_mono (pl_max_length props * 3) (pl_max_length props * 4) 8 ltac:(lia) ltac:(lia)).
      replace (pl_max_length props * 4) with (4 * pl_max_length props) in H1 by lia.
      change 8 with (4 * 2) in H1 at 2. rewrite Z.div_mul_cancel_l in H1 by lia. lia. }
    replace (Z.of_nat (length (delete i (pl_l props))) <=? pl_max_length props / 2) with true
      by (symmetry; by apply Z.leb_le).
    eexists. split; [done|]. split; [done|]. done.
  - eexists. split; [done|]. split; [done|]. unfold pl_cur_length. cbn [pl_l pl_max_length]. lia.
Qed.

Lemma db_delete_propdef_spec (d : db) (oid : Z) (name : bytes) :
  props_ok d -> valid d oid = true -> cstr name ->
  let k := casefold name in
  ((forall p, p ∈ own d oid -> casefold (pd_name p) <> k) -> db_delete_propdef d oid name = Some (d, false)) /\
  ((exists p, p ∈ own d oid /\ casefold (pd_name p) = k) ->
   exists d', db_delete_propdef d oid name = Some (d', true) /\ props_ok d' /\ same_shape d d' /\
     forall y k', prop_lookup d' y k' =
       if decide (k' = k /\ below d oid y) then None else prop_lookup d y k').
Proof.
  intros Hok Hv Hn k. pose proof (po_tree d Hok) as Ht. rewrite valid_spec in Hv by apply Ht.
  destruct Hv as [o Ho]. assert (Eown : own d oid = pl_l (o_propdefs o)) by (unfold own; by rewrite Ho).
  unfold db_delete_propdef. rewrite find_object_ok, Ho by done. cbn [mbind option_bind].
  rewrite find_propdef_spec, Eown by (done || by eapply po_defs). fold k.
  destruct (list_find _ (pl_l (o_propdefs o))) as [[i q]|] eqn:E; cbn [fmap option_fmap option_map fst].
  - apply list_find_Some in E as (Hi & Hq & _). split.
    { intros H. exfalso. apply (H q); [by eapply list_elem_of_lookup_2|done]. }
    intros _. rewrite Z.add_0_l. assert (Hlt : (i < length (pl_l (o_propdefs o)))%nat) by by eapply lookup_lt_Some.
    destruct (delete_propdef_at_spec i (o_propdefs o)) as (max & -> & Hpl); [by eapply po_defs|done|].
    cbn [mbind option_bind].
    pose proof (take_drop_middle _ _ _ Hi) as Hsplit. rewrite delete_take_drop in Hpl |- *.
    assert (Hlen : length (take i (pl_l (o_propdefs o))) = i) by (rewrite length_take; lia).
    destruct (delete_propdef_spec d oid o max _ q _ Hok Ho (eq_sym Hsplit) Hpl)
      as (d1 & d' & -> & E2 & Hok' & Hs & Hlook). rewrite Hlen in E2. cbn [mbind option_bind].
    rewrite E2. cbn [mbind option_bind]. exists d'. split; [done|]. split; [done|]. split; [done|].
    rewrite <- Hq. exact Hlook.
  - split; [done|]. intros (p & Hp & Hk). apply list_find_None in E. rewrite Forall_forall in E.
    by destruct (E p Hp).
Qed.

(** C16: deleting a property definition: it is refused exactly if the object
    itself defines no property of that name; otherwise the property disappears
    from the object and all its descendants, whatever their slots held, and
    every other property of every object is as before. *)
Theorem db_delete_propdef_correct (d : db) (oid : Z) (name : bytes) :
  props_ok d -> valid d oid = true -> cstr name ->
  let k := casefold name in
  ((forall p, p ∈ own d oid -> casefold (pd_name p) <> k) -> db_delete_propdef d oid name = Some (d, false)) /\
  ((exists p, p ∈ own d oid /\ casefold (pd_name p) = k) ->
   exists d', db_delete_propdef d oid name = Some (d', true) /\ props_ok d' /\ same_shape d d' /\
     forall y k', prop_lookup d' y k' =
       if decide (k' = k /\ below d oid y) then None else prop_lookup d y k').
Proof. exact (db_delete_propdef_spec d oid name). Qed.

Example db_delete_propdef_correct_witness :
  exists d', db_delete_propdef sample 2 (BS "SIZE") = Some (d', true) /\
    prop_lookup d' 4 (casefold (BS "SIZE")) = None.
Proof.
  destruct (db_delete_propdef_correct sample 2 (BS "SIZE")) as [_ H].
  - apply props_check_ok. by vm_compute.
  - by vm_compute.
  - by repeat constructor.
  - cbv zeta in H. destruct H as (d' & E & _ & _ & Hlook).
    + exists (sample_pd (BS "size")). split; [by left|by vm_compute].
    + exists d'. split; [exact E|]. rewrite Hlook, decide_True; [reflexivity|].
      split; [reflexivity|]. exists [4; 2; 1]. split; [vm_compute; reflexivity|clear; set_solver].
Defined.

(** ** Renaming a definition *)

Lemma assoc_rename k A B q q' P : fst q = fst q' -> NoDup (key_name <$> A ++ q :: B) ->
  length P = length (A ++ q :: B) -> (key_name q' = key_name q \/ key_name q' ∉ key_name <$> A ++ B) ->
  assoc k (zip (A ++ q' :: B) P) =
  if decide (k = key_name q') then assoc (key_name q) (zip (A ++ q :: B) P)
  else if decide (k = key_name q) then None else assoc k (zip (A ++ q :: B) P).
Proof.
  intros Hfst Hnd Hlen Hq'. rewrite length_app in Hlen. simpl in Hlen.
  rewrite fmap_app, fmap_cons, NoDup_middle, <- fmap_app in Hnd. destruct Hnd as [Hq Hnd].
  rewrite fmap_app in Hq, Hq'. rewrite not_elem_of_app in Hq, Hq'. destruct Hq as [Hq1 Hq2].
  rewrite !zip_app, !assoc_app. destruct (drop (length A) P) as [|v P'] eqn:E.
  { apply (f_equal length) in E. rewrite length_drop in E. simpl in E. lia. }
  cbn [zip_with assoc]. rewrite (assoc_skip (key_name q)) by done.
  rewrite (decide_True (P := key_name q = key_name q)) by done.
  destruct (decide (k = key_name q')) as [->|Hk].
  - rewrite assoc_skip, decide_True by (done || by destruct Hq' as [-> | []]). by rewrite Hfst.
  - rewrite (decide_False (P := key_name q' = k)) by congruence.
    destruct (decide (k = key_name q)) as [->|Hkq]; [by rewrite !assoc_skip|].
    by rewrite (decide_False (P := key_name q = k)) by congruence.
Qed.

Lemma insert_middle {A} (l1 l2 : list A) x y : <[length l1 := y]> (l1 ++ x :: l2) = l1 ++ y :: l2.
Proof. induction l1 as [|a l1 IH]; simpl; [done|]. by rewrite IH. Qed.

Lemma rename_propdef_spec d oid o l1 q l2 p : props_ok d -> objects d !! oid = Some o ->
  pl_l (o_propdefs o) = l1 ++ q :: l2 -> propdef_ok p ->
  let ko := casefold (pd_name q) in let kn := casefold (pd_name p) in
  (kn = ko \/ forall y, below d oid y -> prop_lookup d y kn = None) ->
  exists d', update oid (set_propdefs (mkProplist (pl_max_length (o_propdefs o)) (l1 ++ p :: l2))) d = Some d' /\
    props_ok d' /\ same_shape d d' /\
    forall y k, prop_lookup d' y k =
      if decide (below d oid y)
      then (if decide (k = kn) then prop_lookup d y ko else if decide (k = ko) then None else prop_lookup d y k)
      else prop_lookup d y k.
Proof.
  intros Hok Ho Hdefs Hp ko kn Hfree. pose proof (po_tree d Hok) as Ht.
  set (props' := mkProplist (pl_max_length (o_propdefs o)) (l1 ++ p :: l2)) in *.
  destruct (update_propdefs d oid o props' Ho) as (d' & E1 & Hs1 & _ & _ & Hval & _).
  destruct (tree_ancestors d Ht oid ltac:(by eexists)) as [lr Hlr].
  assert (Eown : own d oid = l1 ++ q :: l2) by (unfold own; by rewrite Ho).
  set (A y := keys d (above d oid y) ++ ((fun q => (oid, q)) <$> l1)).
  set (B := ((fun q => (oid, q)) <$> l2) ++ keys d lr).
  assert (Hold : forall y, keys_at d oid lr y (own d oid) = A y ++ (oid, q) :: B).
  { intros y. by rewrite Eown, keys_at_split. }
  assert (Hnew : forall y, keys_at d oid lr y (pl_l props') = A y ++ (oid, p) :: B).
  { intros y. unfold props'. cbn [pl_l]. by rewrite keys_at_split. }
  assert (HP : forall y, propval d' y = if decide (below d oid y) then (fun v => v) <$> propval d y else propval d y).
  { intros y. rewrite Hval. case_decide; [|done]. by destruct (propval d y). }
  pose proof (change_keys d d' d' oid o props' lr Hok Ho Hlr E1 (same_refl d')) as Hkeys.
  assert (Hnames : forall y, below d oid y -> NoDup (key_name <$> A y ++ (oid, q) :: B)).
  { intros y Hy. destruct (Hkeys y Hy) as (l & oy & El & Hoy & Ek & _).
    rewrite <- Hold, <- Ek. by apply (po_names d Hok y). }
  assert (Hkn : forall y, below d oid y -> kn = ko \/ kn ∉ key_name <$> A y ++ B).
  { intros y Hy. destruct Hfree as [|Hf]; [by left|right]. specialize (Hf y Hy).
    destruct (Hkeys y Hy) as (l & oy & El & Hoy & Ek & _).
    rewrite (prop_lookup_None d Hok y oy l kn Hoy El), Ek, Hold in Hf.
    rewrite fmap_app in Hf |- *. rewrite fmap_cons in Hf. rewrite !not_elem_of_app in *.
    rewrite not_elem_of_cons in Hf. tauto. }
  exists d'. split; [done|]. split; [|split; [done|]].
  - apply (change_ok d d' d' oid o props' lr (fun _ v => v) Hok Ho Hlr E1 (same_refl d') HP).
    + pose proof (po_defs d Hok oid o Ho) as [Hf Hle]. rewrite Hdefs in Hf. split.
      * change (Forall propdef_ok (l1 ++ p :: l2)). rewrite Forall_app, Forall_cons in Hf |- *. by destruct Hf as (? & _ & ?).
      * unfold pl_cur_length, props' in *. cbn [pl_l pl_max_length]. rewrite Hdefs in Hle.
        rewrite length_app in *. simpl in *. lia.
    + intros y v Hy ->. rewrite Hold, Hnew, !length_app. done.
    + done.
    + intros i pv Hi. eapply (po_own d Hok oid o); [done|]. rewrite Hdefs.
      unfold props' in Hi. cbn [pl_l] in Hi. rewrite length_app in *. simpl in *. lia.
    + intros y Hy. rewrite Hnew. pose proof (Hnames y Hy) as Hnd.
      rewrite fmap_app, fmap_cons, NoDup_middle, <- fmap_app in Hnd |- *. destruct Hnd as [Hq Hnd].
      split; [|done]. change (key_name (oid, p)) with kn. destruct (Hkn y Hy) as [-> |]; done.
  - intros y k. rewrite (change_lookup d d' d' oid o props' lr _ Hok Ho Hlr E1 (same_refl d') HP).
    destruct (decide (below d oid y)) as [Hy|Hy]; [|done].
    rewrite Hnew, (assoc_rename k (A y) B (oid, q) (oid, p)); [|done|by apply Hnames| |by apply Hkn].
    + rewrite !(change_lookup_old d d' d' oid o props' lr Hok Ho Hlr E1 (same_refl d') y _ Hy), Hold. done.
    + destruct (Hkeys y Hy) as (l & oy & El & Hoy & _ & _ & Hl). unfold propval. rewrite Hoy. simpl.
      by rewrite Hl, Hold.
Qed.

Lemma db_rename_propdef_spec (d : db) (oid : Z) (old new : bytes) :
  props_ok d -> valid d oid = true -> cstr old -> cstr new ->
  let ko := casefold old in
  let kn := casefold new in
  let defined := exists p, p ∈ own d oid /\ casefold (pd_name p) = ko in
  let free := kn = ko \/ (~ builtin_name kn /\ forall y, below d oid y -> prop_lookup d y kn = None) in
  (~ (defined /\ free) -> db_rename_propdef d oid old new = Some (d, false)) /\
  (defined -> free ->
   exists d', db_rename_propdef d oid old new = Some (d', true) /\ props_ok d' /\ same_shape d d' /\
     forall y k, prop_lookup d' y k =
       if decide (below d oid y)
       then (if decide (k = kn) then prop_lookup d y ko
             else if decide (k = ko) then None else prop_lookup d y k)
       else prop_lookup d y k).
Proof.
  intros Hok Hv Ho Hn ko kn defined free. pose proof (po_tree d Hok) as Ht. rewrite valid_spec in Hv by apply Ht.
  destruct Hv as [o Hoo]. assert (Eown : own d oid = pl_l (o_propdefs o)) by (unfold own; by rewrite Hoo).
  destruct (tree_ancestors d Ht oid ltac:(by eexists)) as [lr Hlr].
  unfold db_rename_propdef. rewrite find_object_ok, Hoo by done. cbn [mbind option_bind].
  rewrite find_propdef_spec by (done || by eapply po_defs). fold ko.
  destruct (list_find _ (pl_l (o_propdefs o))) as [[i q]|] eqn:E; cbn [fmap option_fmap option_map fst].
  2: { split; [done|]. intros (p & Hp & Hk) _. apply list_find_None in E. rewrite Forall_forall in E.
       rewrite Eown in Hp. by destruct (E p Hp). }
  apply list_find_Some in E as (Hi & Hq & _). rewrite Z.add_0_l.
  assert (Hdef : defined) by (exists q; rewrite Eown; split; [by eapply list_elem_of_lookup_2|done]).
  assert (Hlen : length (take i (pl_l (o_propdefs o))) = i).
  { rewrite length_take. apply lookup_lt_Some in Hi. lia. }
  pose proof (take_drop_middle _ _ _ Hi) as Hsplit.
  assert (Hpd : ~ builtin_name kn -> propdef_ok (dbpriv_new_propdef new)) by done.
  assert (Hins : <[Z.to_nat (Z.of_nat i) := dbpriv_new_propdef new]> (pl_l (o_propdefs o)) =
    take i (pl_l (o_propdefs o)) ++ dbpriv_new_propdef new :: drop (S i) (pl_l (o_propdefs o))).
  { rewrite Nat2Z.id. rewrite <- Hsplit at 1. rewrite <- Hlen at 1. by rewrite insert_middle. }
  assert (Hdo : ~ builtin_name kn -> free -> exists d', update oid (set_propdefs (mkProplist
      (pl_max_length (o_propdefs o)) (<[Z.to_nat (Z.of_nat i) := dbpriv_new_propdef new]> (pl_l (o_propdefs o))))) d
      = Some d' /\ props_ok d' /\ same_shape d d' /\ forall y k, prop_lookup d' y k =
       if decide (below d oid y)
       then (if decide (k = kn) then prop_lookup d y ko
             else if decide (k = ko) then None else prop_lookup d y k)
       else prop_lookup d y k).
  { intros Hnb Hfree. rewrite Hins.
    destruct (rename_propdef_spec d oid o _ q _ (dbpriv_new_propdef new) Hok Hoo (eq_sym Hsplit) (Hpd Hnb))
      as (d' & H). { change (casefold (pd_name (dbpriv_new_propdef new))) with kn. rewrite Hq. destruct Hfree as [?|[_ ?]]; [by left|by right]. }
    change (casefold (pd_name (dbpriv_new_propdef new))) with kn in H. rewrite Hq in H. by exists d'. }
  assert (Hnb : kn = ko -> ~ builtin_name kn).
  { intros ->. rewrite <- Hq. pose proof (own_ok d Hok oid) as Hf. rewrite Eown, Forall_forall in Hf.
    by apply (Hf q), list_elem_of_lookup_2 with i. }
  assert (Hgo : forall taken, (taken = false <-> free) ->
    (~ (defined /\ free) -> taken = true) /\ (taken = false -> ~ builtin_name kn /\ free)).
  { intros taken Htk. split.
    - intros H. destruct taken; [done|]. destruct H. split; [done|by apply Htk].
    - intros H%Htk. split; [|done]. destruct H as [|[? _]]; [by apply Hnb|done]. }
  assert (Hcase : mystrcasecmp old new = 0 <-> kn = ko) by (rewrite mystrcasecmp_eq by done; split; intros E; symmetry; exact E).
  assert (Htaken : exists taken, (if negb (mystrcasecmp old new =? 0) then
      '(h, _) ← db_find_property d oid new false;
      if negb (is_null h) then Some true
      else property_defined_at_or_below (ll_fuel d) d new (str_hash new) oid
    else Some false) = Some taken /\ (taken = false <-> free)).
  { destruct (Z.eqb_spec (mystrcasecmp old new) 0) as [Ec|Ec]; cbn [negb].
    - exists false. split; [done|]. split; [|done]. intros _. left. by apply Hcase.
    - destruct (taken_spec d oid new Hok ltac:(by eexists) Hn) as (h & b & E1 & E2 & Hb).
      rewrite E1. cbn [mbind option_bind]. exists b. split; [done|]. rewrite Hb. fold kn.
      split; [by right|]. intros [|]; [|done]. by destruct Ec; apply Hcase. }
  destruct Htaken as (taken & -> & Htk). cbn [mbind option_bind]. destruct (Hgo taken Htk) as [G1 G2]. split.
  - intros H. by rewrite (G1 H).
  - intros _ Hfree. apply Htk in Hfree as ->. destruct (G2 eq_refl) as [Hnb' Hfree].
    destruct (Hdo Hnb' Hfree) as (d' & -> & H). cbn [mbind option_bind]. by exists d'.
Qed.

(** C18: renaming a property definition: it succeeds exactly if the object
    itself defines the old name, and the new name differs from it in case only
    or is free (not built in, and not found on the object, its ancestors or its
    descendants); then the slots of the object and its descendants are found
    under the new name instead of the old, and nothing else changes. *)
Theorem db_rename_propdef_correct (d : db) (oid : Z) (old new : bytes) :
  props_ok d -> valid d oid = true -> cstr old -> cstr new ->
  let ko := casefold old in
  let kn := casefold new in
  let defined := exists p, p ∈ own d oid /\ casefold (pd_name p) = ko in
  let free := kn = ko \/ (~ builtin_name kn /\ forall y, below d oid y -> prop_lookup d y kn = None) in
  (~ (defined /\ free) -> db_rename_propdef d oid old new = Some (d, false)) /\
  (defined -> free ->
   exists d', db_rename_propdef d oid old new = Some (d', true) /\ props_ok d' /\ same_shape d d' /\
     forall y k, prop_lookup d' y k =
       if decide (below d oid y)
       then (if decide (k = kn) then prop_lookup d y ko
             else if decide (k = ko) then None else prop_lookup d y k)
       else prop_lookup d y k).
Proof. exact (db_rename_propdef_spec d oid old new). Qed.

Example db_rename_propdef_correct_witness :
  exists d', db_rename_propdef sample 2 (BS "size") (BS "diameter") = Some (d', true) /\
    prop_lookup d' 4 (casefold (BS "diameter")) = Some (2, mkPval VClear 4 1).
Proof.
  destruct (db_rename_propdef_correct sample 2 (BS "size") (BS "diameter")) as [_ H].
  - apply props_check_ok. by vm_compute.
  - by vm_compute.
  - by repeat constructor.
  - by repeat constructor.
  - cbv zeta in H. destruct H as (d' & E & _ & _ & Hlook).
    + exists (sample_pd (BS "size")). split; [by left|by vm_compute].
    + right. split; [apply (bool_decide_eq_false_1 (builtin_name _)); by vm_compute|].
      intros y (l & El & Hl). assert (Hy : is_Some (objects sample !! y)).
      { apply (below_valid sample ltac:(apply tree_check_ok; by vm_compute) 2 y). by exists l. }
      destruct Hy as [o Ho]. apply elem_of_list_to_map_2 in Ho. simpl in Ho.
      repeat (apply elem_of_cons in Ho as [Ho|Ho];
        [apply pair_eq in Ho as [-> _]; vm_compute; reflexivity|]). by apply elem_of_nil in Ho.
    + exists d'. split; [exact E|]. rewrite Hlook, decide_True, decide_True.
      * vm_compute. reflexivity.
      * reflexivity.
      * exists [4; 2; 1]. split; [vm_compute; reflexivity|clear; set_solver].
Defined.
