(* ===== verification/ChangeParent.v ===== *)
(** * Changing the parent of an object (db_change_parent of db_objects.c with
    the functions of db_properties.c it calls)

    The object moves between the lists of children, and it and all its
    descendants lose the slots of properties they no longer inherit and get
    clear slots for those they now do. *)

From S2P Require Import Prelude Utf CString Values Streams Functions Lists Db Links Hierarchy Attributes Properties PropView PropChange.

(** ** Definitions *)

(** The result is whether the parent has been changed. *)
Definition db_change_parent (d : db) (oid parent : Z) : option (db * bool) :=
  ok ← dbpriv_check_properties_for_chparent d oid parent;
  if negb ok then Some (d, false)
  else
    o ← objects d !! oid;
    let d := if (o_child o =? NOTHING) && match o_verbdefs o with [] => true | _ => false end then d
             else db_priv_affected_callable_verb_lookup d in
    let old_parent := o_parent o in
    d ← (if negb (old_parent =? NOTHING) then LL_REMOVE children_links d old_parent oid else Some d);
    d ← (if negb (parent =? NOTHING) then LL_APPEND children_links d parent oid else Some d);
    d ← update oid (set_parent parent) d;
    d ← dbpriv_fix_properties_after_chparent d oid old_parent;
    Some (d, true).

(** ** The check for clashing names *)

Lemma check_defs_spec d oid l : props_ok d -> is_Some (objects d !! oid) -> Forall propdef_ok l ->
  exists b, check_defs d l oid = Some b /\
    (b = true <-> forall p y q, p ∈ l -> below d oid y -> q ∈ own d y ->
       casefold (pd_name q) <> casefold (pd_name p)).
Proof.
  intros Hok Ho. induction 1 as [|p l (Hc & Hh & _) Hl (b & IH & Hb)]; cbn [check_defs].
  - exists true. split; [done|]. split; [|done]. intros _ p y q Hp. by apply elem_of_nil in Hp.
  - rewrite Hh. destruct (defined_below_spec d (pd_name p) oid Hok Hc Ho) as (c & -> & Hd).
    cbn [mbind option_bind]. destruct c.
    + exists false. split; [done|]. split; [done|]. intros H. exfalso.
      destruct (proj1 Hd eq_refl) as (y & q & Hy & Hq & E). eapply (H p y q); [by left|done|done|done].
    + exists b. split; [done|]. rewrite Hb. split; intros H p' y q Hp Hy Hq.
      * apply elem_of_cons in Hp as [-> |Hp]; [|by eapply H]. intros E.
        assert (false = true) by (apply Hd; eauto). done.
      * eapply H; [by right|done|done].
Qed.

Lemma check_loop_spec fuel d oid x l : props_ok d -> is_Some (objects d !! oid) ->
  ancestors d x = Some l -> (length l <= fuel)%nat ->
  exists b, check_loop fuel d (dbpriv_find_object d x) oid = Some b /\
    (b = true <-> forall a p y q, a ∈ l -> p ∈ own d a -> below d oid y -> q ∈ own d y ->
       casefold (pd_name q) <> casefold (pd_name p)).
Proof.
  intros Hok Ho. revert x l. induction fuel as [|f IH]; intros x l Hl Hf.
  - destruct l; [|simpl in Hf; lia]. apply ancestors_chain, chain_nil_inv in Hl as ->.
    rewrite find_object_ok, tree_NOTHING by (done || apply Hok).
    exists true. split; [done|]. split; [|done]. intros _ a p y q Ha. by apply elem_of_nil in Ha.
  - destruct (decide (x = NOTHING)) as [->|Hx].
    { rewrite ancestors_NOTHING in Hl. injection Hl as <-.
      rewrite find_object_ok, tree_NOTHING by (done || apply Hok).
      exists true. split; [done|]. split; [|done]. intros _ a p y q Ha. by apply elem_of_nil in Ha. }
    destruct (ancestors_head _ _ _ Hl Hx) as [l' ->].
    destruct (ancestors_valid _ _ _ x Hl) as [ox Hox]; [set_solver|].
    rewrite find_object_ok, Hox by done. cbn [check_loop].
    rewrite (ancestors_parent d x ox Hox Hx) in Hl.
    destruct (ancestors d (o_parent ox)) as [l|] eqn:Hl'; [|done]. injection Hl as ->.
    assert (Hown : own d x = pl_l (o_propdefs ox)) by (unfold own; by rewrite Hox).
    destruct (check_defs_spec d oid (own d x) Hok Ho (own_ok d Hok x)) as (b & E & Hb).
    rewrite <- Hown, E. cbn [mbind option_bind]. destruct b.
    + destruct (IH (o_parent ox) l' Hl' ltac:(simpl in Hf; lia)) as (c & -> & Hc).
      exists c. split; [done|]. rewrite Hc. split; intros H a p y q Ha.
      * apply elem_of_cons in Ha as [-> |Ha]; [intros; by eapply (proj1 Hb eq_refl)|by eapply H].
      * eapply H. by right.
    + exists false. split; [done|]. split; [done|]. intros H. apply Hb. intros p y q Hp Hy Hq.
      eapply (H x p y q); [by left|done..].
Qed.

(** ** The nearest common ancestor *)

Lemma parent_step d x l : tree_ok d -> ancestors d x = Some (x :: l) ->
  exists p, db_object_parent d x = Some p /\ ancestors d p = Some l.
Proof.
  intros Ht Hl. destruct (ancestors_valid _ _ _ x Hl) as [o Ho]; [by left|].
  exists (o_parent o). unfold db_object_parent. rewrite Ho. split; [done|].
  rewrite (ancestors_parent d x o Ho) in Hl by (apply (tree_ne d Ht); by eexists).
  destruct (ancestors d (o_parent o)); [|done]. by injection Hl as ->.
Qed.

Lemma is_above_spec fuel d o1 o2 l : tree_ok d -> ancestors d o2 = Some l -> (length l < fuel)%nat ->
  is_above fuel d o1 o2 = Some (bool_decide (o1 ∈ l)).
Proof.
  intros Ht. revert o2 l. induction fuel as [|f IH]; intros o2 l Hl Hf; [lia|]. cbn [is_above].
  destruct (Z.eqb_spec o2 NOTHING) as [->|Hne].
  - rewrite ancestors_NOTHING in Hl. injection Hl as <-. by rewrite bool_decide_eq_false_2 by set_solver.
  - destruct (ancestors_head _ _ _ Hl Hne) as [l' ->].
    destruct (Z.eqb_spec o1 o2) as [->|Hne']; [by rewrite bool_decide_eq_true_2 by set_solver|].
    destruct (parent_step d o2 l' Ht Hl) as (p & -> & Hp). cbn [mbind option_bind].
    rewrite (IH p l' Hp) by (simpl in Hf; lia). f_equal. apply bool_decide_ext. set_solver.
Qed.

Lemma common_ancestor_spec fuel d x y lx ly : tree_ok d -> ancestors d x = Some lx ->
  ancestors d y = Some ly -> (length lx < fuel)%nat ->
  exists c n1 o1 lc, common_ancestor fuel d x y = Some c /\ lx = n1 ++ lc /\ ly = o1 ++ lc /\
    ancestors d c = Some lc /\ (forall a, a ∈ n1 -> a ∉ ly).
Proof.
  intros Ht Hx Hy. revert x lx Hx. induction fuel as [|f IH]; intros x lx Hx Hf; [lia|].
  cbn [common_ancestor]. destruct (Z.eqb_spec x NOTHING) as [->|Hne].
  - rewrite ancestors_NOTHING in Hx. injection Hx as <-. exists NOTHING, [], ly, [].
    split; [done|]. split; [done|]. split; [by rewrite app_nil_r|]. split; [apply ancestors_NOTHING|].
    intros a Ha. by apply elem_of_nil in Ha.
  - destruct (ancestors_head _ _ _ Hx Hne) as [l ->].
    rewrite (is_above_spec _ d x y ly) by (done || by eapply ancestors_length). cbn [mbind option_bind].
    case_bool_decide as Hin.
    + apply list_elem_of_split in Hin as (o1 & l2 & ->).
      pose proof (ancestors_suffix _ _ _ _ _ Hy) as Hx'. rewrite Hx in Hx'. injection Hx' as <-.
      exists x, [], o1, (x :: l). split_and!; try done. intros a Ha. by apply elem_of_nil in Ha.
    + destruct (parent_step d x l Ht Hx) as (p & -> & Hp). cbn [mbind option_bind].
      destruct (IH p l Hp ltac:(simpl in Hf; lia)) as (c & n1 & o1 & lc & -> & -> & -> & Hc & Hn).
      exists c, (x :: n1), o1, lc. split_and!; try done.
      intros a [-> |Ha]%elem_of_cons; [done|by apply Hn].
Qed.

(** ** The recursion over the slots *)

Lemma fix_props_descend fuel d x s old new common :
  fix_props fuel d x s old new common =
  descend (fun d x s =>
      me ← dbpriv_find_object d x;
      let local := s + pl_cur_length (o_propdefs me) in
      _ ← slots (o_propval me) local old;
      new_propval ← (if negb (local + new + common =? 0) then
          first ← slots (o_propval me) 0 local;
          inherited ← (if 0 <? new then
                         parent ← dbpriv_find_object d (o_parent me);
                         slots (o_propval parent) s new
                       else Some []);
          rest ← slots (o_propval me) (local + old) common;
          Some (first ++ (inherit (o_owner me) <$> inherited) ++ rest)
        else Some []);
      update x (set_propval new_propval) d)
    (fun me s _ => s + pl_cur_length (o_propdefs me)) fuel d x s.
Proof.
  revert d x s. induction fuel as [|f IH]; intros d x s; [done|]. cbn [fix_props descend].
  destruct (dbpriv_find_object d x) as [me|] eqn:Eme; [|done]. cbn [mbind option_bind].
  destruct (slots (o_propval me) _ old); [|done]. cbn [mbind option_bind].
  match goal with |- context [if negb ?b then ?t else ?e] => destruct (if negb b then t else e) as [np|] end; [|done].
  cbn [mbind option_bind]. destruct (update x (set_propval np) d) as [d1|] eqn:Ed; [|done].
  cbn [mbind option_bind]. apply update_objects in Ed as (o & Ho & Eo & Ed).
  assert (Hfind : dbpriv_find_object d1 x = Some (set_propval np me)).
  { revert Eme. unfold dbpriv_find_object. rewrite Ed. cbn [num_objects objects with_objects].
    destruct (_ || _); [done|]. rewrite Ho, lookup_insert_eq. by intros [= ->]. }
  rewrite Hfind. cbn [mbind option_bind].
  replace (o_child (set_propval np me)) with (o_child me) by by destruct me.
  replace (o_propdefs (set_propval np me)) with (o_propdefs me) by by destruct me.
  apply child_loop_ext. intros d' c. rewrite IH.
  destruct (dbpriv_find_object d' c) eqn:Ec; [done|]. destruct f; cbn [descend]; [done|].
  by rewrite Ec.
Qed.

Lemma inherit_inherit w w' p : inherit w (inherit w' p) = inherit w p.
Proof.
  unfold inherit, chown. destruct p as [v o f]. unfold has_perm, set_pv_var, set_pv_owner. cbn.
  by destruct (negb (Z.land f PF_CHOWN =? 0)) eqn:E; cbn; rewrite ?E.
Qed.

Lemma inherit_var w p : pv_var (inherit w p) = VClear.
Proof. unfold inherit. by rewrite chown_var. Qed.

Section Fix.
Context (d : db) (Ht : tree_ok d) (root : Z) (lr : list Z) (o : Object).
Context (Hlr : ancestors d root = Some (root :: lr)) (Ho : objects d !! root = Some o).
Context (old new common : nat) (pslots : list Pval).

(** The number of slots of [y] for definitions at or below [root]. *)
Definition local_slots (y : Z) : nat :=
  (length (keys d (above d root y)) + length (own d root))%nat.

Definition fixed (y : Z) (v : list Pval) : list Pval :=
  take (local_slots y) v ++ (inherit (owner_of d y) <$> take new pslots) ++
  drop (local_slots y + old) v.

Context (Hlen : forall y v, below d root y -> propval d y = Some v ->
  length v = (local_slots y + old + common)%nat).
Context (Hpar : (0 < new)%nat -> propval d (o_parent o) = Some pslots /\ (new <= length pslots)%nat).

Lemma local_own y : below d root y -> (length (own d y) <= local_slots y)%nat.
Proof.
  intros Hy. unfold local_slots. destruct (decide (y = root)) as [->|Hne]; [lia|].
  pose proof (own_before d root lr y 0 Ht Hlr Hy Hne). lia.
Qed.

Lemma local_child y c oc : objects d !! c = Some oc -> o_parent oc = y -> below d root y ->
  c <> root /\ local_slots c = (length (own d c) + local_slots y)%nat.
Proof.
  intros Hc Hp Hb. destruct (above_child d Ht root lr Hlr c oc y Hc Hp Hb) as (E & Hne & _).
  split; [done|]. unfold local_slots. rewrite E, keys_cons, length_app, length_fmap. lia.
Qed.

Lemma local_root : local_slots root = length (own d root).
Proof. unfold local_slots. by rewrite (above_root d root lr). Qed.

(** The slots of the parent that are inherited, whether the parent is [root]'s
    or has just been done itself. *)
Lemma parent_slots y oy : below d root y -> objects d !! y = Some oy -> (0 < new)%nat ->
  exists pv, (if decide (below d root (o_parent oy)) then fixed (o_parent oy) <$> propval d (o_parent oy)
              else propval d (o_parent oy)) = Some pv /\
    (local_slots y - length (own d y) + new <= length pv)%nat /\
    inherit (owner_of d y) <$> take new (drop (local_slots y - length (own d y)) pv) =
    inherit (owner_of d y) <$> take new pslots.
Proof.
  intros Hy Hoy Hnew. destruct (Hpar Hnew) as [Hp Hle].
  destruct (decide (y = root)) as [->|Hne].
  - rewrite Ho in Hoy. injection Hoy as <-. rewrite decide_False.
    + exists pslots. rewrite local_root, Nat.sub_diag. split; [done|]. split; [lia|done].
    + intros Hb. eapply child_not_above in Hb; [done|done|done|]. by destruct (below_valid d Ht _ _ Hb).
  - assert (Hb : below d root (o_parent oy)).
    { destruct (above_below d Ht root lr Hlr y Hy) as (Ey & Hn & _).
      destruct (above_cons d Ht root lr Hlr y Hy Hne) as [l El]. rewrite El in Ey. simpl in Ey.
      rewrite (ancestors_parent d y oy Hoy) in Ey by (apply (tree_ne d Ht); by eexists).
      destruct (ancestors d (o_parent oy)) as [l'|] eqn:E'; [|done]. injection Ey as ->.
      exists (l ++ root :: lr). split; [done|set_solver]. }
    rewrite decide_True by done. destruct (local_child _ y oy Hoy eq_refl Hb) as [_ E].
    replace (local_slots y - length (own d y))%nat with (local_slots (o_parent oy)) by lia.
    destruct (proj1 (below_valid d Ht _ _ Hb)) as [op Hop].
    assert (Epv : propval d (o_parent oy) = Some (o_propval op)) by (unfold propval; by rewrite Hop).
    rewrite Epv. eexists. split; [done|]. pose proof (Hlen _ _ Hb Epv) as Hl. unfold fixed. split.
    + rewrite !length_app, length_fmap, !length_take. lia.
    + rewrite drop_app_length', take_app_length' by (rewrite ?length_fmap, length_take; lia).
      rewrite <- list_fmap_compose. apply list_fmap_ext. intros i p _. apply inherit_inherit.
Qed.

Lemma fix_effect : exists d',
  fix_props (ll_fuel d) d root 0 (Z.of_nat old) (Z.of_nat new) (Z.of_nat common) = Some d' /\
  same_but_propval d d' /\
  forall y, propval d' y = if decide (below d root y) then fixed y <$> propval d y else propval d y.
Proof.
  rewrite fix_props_descend.
  set (R y := fixed y (default [] (propval d y))).
  set (s_of y := Z.of_nat (local_slots y - length (own d y))).
  assert (Hval : forall y, below d root y -> exists v, propval d y = Some v).
  { intros y Hy. destruct (proj1 (below_valid d Ht _ _ Hy)) as [oy Hoy]. unfold propval. rewrite Hoy. by eexists. }
  match goal with |- context [descend ?st ?nx _ _ _ _] =>
    destruct (descend_spec st nx d Ht root ltac:(by eexists) s_of R) as (d' & E & Hs & HP) end.
  - intros y c oy oc Hb Hy Hc Hp. apply fmap_Some in Hc as (oc0 & Hc & Ec).
    apply fmap_Some in Hy as (oy0 & Hy & Ey).
    pose proof (erased_eq o_propdefs _ _ Ey ltac:(by intros ? [])) as Epy.
    pose proof (erased_eq o_parent _ _ Ec ltac:(by intros ? [])) as Eq. rewrite Hp in Eq. symmetry in Eq.
    destruct (local_child y c oc0 Hc Eq Hb) as (_ & El). unfold s_of. rewrite El, Epy.
    assert (Hoy : own d y = pl_l (o_propdefs oy0)) by (unfold own; by rewrite Hy).
    pose proof (local_own y Hb). unfold pl_cur_length. rewrite <- Hoy. lia.
  - intros d2 y oy Hs Hb Hy Hsame Hparent.
    destruct (same_object d d2 y oy Hs Hy) as [v Hv].
    assert (Hown : own d y = pl_l (o_propdefs oy)) by (unfold own; by rewrite Hy).
    assert (Ev : v = o_propval oy).
    { unfold propval in Hsame. rewrite Hv, Hy in Hsame. simpl in Hsame.
      by rewrite get_set_propval in Hsame; injection Hsame. }
    assert (Hfind : forall x, dbpriv_find_object d2 x = objects d2 !! x).
    { intros x. apply find_object_objects. eapply same_table; [done|apply Ht]. }
    rewrite Hfind, Hv. cbn [mbind option_bind]. rewrite get_set_propval, owner_set_propval, Ev.
    replace (o_propdefs (set_propval (o_propval oy) oy)) with (o_propdefs oy) by by destruct oy.
    replace (o_parent (set_propval (o_propval oy) oy)) with (o_parent oy) by by destruct oy.
    replace (o_owner oy) with (owner_of d y) by (unfold owner_of; by rewrite Hy).
    assert (Epv : propval d y = Some (o_propval oy)) by (unfold propval; by rewrite Hy).
    pose proof (Hlen y _ Hb Epv) as Hl. pose proof (local_own y Hb) as Hlo.
    assert (Eloc : s_of y + pl_cur_length (o_propdefs oy) = Z.of_nat (local_slots y)).
    { unfold s_of, pl_cur_length. rewrite <- Hown. lia. }
    rewrite Eloc, (slots_spec _ _ (Z.of_nat old)) by lia. cbn [mbind option_bind].
    assert (Hnp : (if negb (Z.of_nat (local_slots y) + Z.of_nat new + Z.of_nat common =? 0) then
          first ← slots (o_propval oy) 0 (Z.of_nat (local_slots y));
          inherited ← (if 0 <? Z.of_nat new then
                         parent ← dbpriv_find_object d2 (o_parent oy);
                         slots (o_propval parent) (s_of y) (Z.of_nat new)
                       else Some []);
          rest ← slots (o_propval oy) (Z.of_nat (local_slots y) + Z.of_nat old) (Z.of_nat common);
          Some (first ++ (inherit (owner_of d y) <$> inherited) ++ rest)
        else Some []) = Some (R y)).
    { unfold R. rewrite Epv. simpl default. unfold fixed.
      destruct (Z.eqb_spec (Z.of_nat (local_slots y) + Z.of_nat new + Z.of_nat common) 0) as [E0|_]; cbn [negb].
      { assert (local_slots y = 0 /\ new = 0 /\ common = 0)%nat as (E1 & E2 & E3) by lia.
        rewrite E1, E2, take_0, take_0, drop_ge by lia. done. }
      rewrite (slots_spec _ 0) by lia. cbn [mbind option_bind]. rewrite drop_0, Nat2Z.id.
      assert (Hinh : exists inh, (if 0 <? Z.of_nat new then
                         parent ← dbpriv_find_object d2 (o_parent oy);
                         slots (o_propval parent) (s_of y) (Z.of_nat new)
                       else Some []) = Some inh /\
                inherit (owner_of d y) <$> inh = inherit (owner_of d y) <$> take new pslots).
      { destruct (Z.ltb_spec 0 (Z.of_nat new)) as [Hn|Hn].
        - destruct (parent_slots y oy Hb Hy ltac:(lia)) as (pv & Hpv & Hle & Einh).
          rewrite Hfind. assert (Hp2 : propval d2 (o_parent oy) = Some pv).
          { rewrite Hparent. unfold final. rewrite <- Hpv. case_decide as Hbp; [|done].
            destruct (Hval _ Hbp) as [w Hw]. unfold R. by rewrite Hw. }
          unfold propval in Hp2. destruct (objects d2 !! o_parent oy) as [op|]; [|done].
          injection Hp2 as Hp2. cbn [mbind option_bind]. rewrite Hp2. unfold s_of. rewrite slots_spec by lia.
          rewrite !Nat2Z.id. by eexists.
        - exists []. split; [done|]. assert (new = 0%nat) as -> by lia. done. }
      destruct Hinh as (inh & E1 & E2). rewrite E1. cbn [mbind option_bind].
      rewrite slots_spec by lia. cbn [mbind option_bind]. rewrite E2, Nat2Z.id.
      rewrite (take_ge (drop _ _)) by (rewrite length_drop; lia).
      by replace (Z.to_nat (Z.of_nat (local_slots y) + Z.of_nat old)) with (local_slots y + old)%nat by lia. }
    rewrite Hnp. done.
  - exists d'. split; [|split; [done|]].
    + assert (E0 : s_of root = 0) by (unfold s_of; rewrite local_root; lia). by rewrite E0 in E.
    + intros y. rewrite HP. unfold final. case_decide as Hb; [|done].
      destruct (Hval y Hb) as [v Hv]. unfold R. by rewrite Hv.
Qed.
End Fix.

(** ** Lookup in slots that have been exchanged *)

Lemma assoc_fmap k K P (f : Pval -> Pval) :
  assoc k (zip K (f <$> P)) = (fun r => (fst r, f (snd r))) <$> assoc k (zip K P).
Proof.
  revert P. induction K as [|q K IH]; intros [|pv P]; try done. rewrite fmap_cons. cbn [zip_with assoc].
  by destruct (decide (key_name q = k)).
Qed.

Lemma assoc_In k K P a pv : assoc k (zip K P) = Some (a, pv) -> exists p, (a, p) ∈ K /\ key_name (a, p) = k.
Proof.
  revert P. induction K as [|[b q] K IH]; intros [|w P] H; try done. cbn [zip_with assoc] in H.
  destruct (decide (key_name (b, q) = k)) as [E|_].
  - injection H as -> ->. exists q. split; [by left|done].
  - destruct (IH P H) as (p & Hp & E). exists p. split; [by right|done].
Qed.

(** Three runs of keys: the local ones, those lost or gained, the common ones. *)
Lemma assoc_three k A B C v n : length A = n ->
  assoc k (zip (A ++ B ++ C) v) =
  match assoc k (zip A (take n v)) with
  | Some r => Some r
  | None => match assoc k (zip B (take (length B) (drop n v))) with
            | Some r => Some r
            | None => assoc k (zip C (drop (n + length B) v))
            end
  end.
Proof. intros <-. by rewrite !zip_app, !assoc_app, drop_drop. Qed.

Lemma assoc_runs k A B C l1 l2 l3 : length A = length l1 -> length B = length l2 ->
  assoc k (zip (A ++ B ++ C) (l1 ++ l2 ++ l3)) =
  match assoc k (zip A l1) with
  | Some r => Some r
  | None => match assoc k (zip B l2) with Some r => Some r | None => assoc k (zip C l3) end
  end.
Proof.
  intros H1 H2. rewrite !zip_app, !assoc_app, take_app_length', drop_app_length' by done.
  by rewrite take_app_length', drop_app_length' by done.
Qed.

Lemma after_lookup k (A O N C : list (Z * Propdef)) v pslots f (kept : Z -> bool) :
  length v = (length A + length O + length C)%nat ->
  length pslots = (length N + length C)%nat ->
  NoDup (key_name <$> A ++ O ++ C) -> NoDup (key_name <$> N ++ C) ->
  (forall a p, (a, p) ∈ A ++ C -> kept a = true) -> (forall a p, (a, p) ∈ O -> kept a = false) ->
  let inherited := (fun r => (fst r, f (snd r))) <$> assoc k (zip (N ++ C) pslots) in
  assoc k (zip (A ++ N ++ C)
    (take (length A) v ++ (f <$> take (length N) pslots) ++ drop (length A + length O) v)) =
  match assoc k (zip (A ++ O ++ C) v) with
  | Some (a, pv) => if kept a then Some (a, pv) else inherited
  | None => inherited
  end.
Proof.
  intros Hv Hp Hnd Hnd' Hk1 Hk2 inherited.
  assert (HlA : length (take (length A) v) = length A) by (rewrite length_take; lia).
  assert (HlN : length (f <$> take (length N) pslots) = length N) by (rewrite length_fmap, length_take; lia).
  rewrite assoc_runs, (assoc_three k A O C v (length A) eq_refl), assoc_fmap by done.
  assert (Einh : inherited = (fun r => (fst r, f (snd r))) <$>
    match assoc k (zip N (take (length N) pslots)) with
    | Some r => Some r | None => assoc k (zip C (drop (length N) pslots)) end).
  { unfold inherited. by rewrite zip_app, assoc_app. }
  rewrite !fmap_app in Hnd. apply NoDup_app in Hnd as (_ & HA & Hnd). apply NoDup_app in Hnd as (_ & HO & _).
  rewrite fmap_app in Hnd'. apply NoDup_app in Hnd' as (_ & HN & _).
  assert (Hin : forall K P a pv, assoc k (zip K P) = Some (a, pv) -> k ∈ key_name <$> K).
  { intros K P a pv (p & Hap & <-)%assoc_In. by apply list_elem_of_fmap_2. }
  destruct (assoc k (zip A (take (length A) v))) as [[a pv]|] eqn:EA.
  { destruct (assoc_In _ _ _ _ _ EA) as (p & Hap & _).
    by rewrite (Hk1 a p) by (apply elem_of_app; by left). }
  destruct (assoc k (zip O (take (length O) (drop (length A) v)))) as [[a pv]|] eqn:EO.
  { destruct (assoc_In _ _ _ _ _ EO) as (p & Hap & _). rewrite (Hk2 a p Hap), Einh.
    assert (Hc : k ∉ key_name <$> C) by (apply HO; by eapply Hin).
    rewrite !(assoc_skip k C) by done. by destruct (assoc k (zip N _)). }
  destruct (assoc k (zip C (drop (length A + length O) v))) as [[a pv]|] eqn:EC.
  { destruct (assoc_In _ _ _ _ _ EC) as (p & Hap & _).
    rewrite (Hk1 a p) by (apply elem_of_app; by right).
    rewrite (assoc_skip k N); [done|]. intros Hn. apply (HN k Hn). by eapply Hin. }
  rewrite Einh. apply assoc_None in EC; [|rewrite length_drop; lia].
  rewrite (assoc_skip k C) by done. by destruct (assoc k (zip N _)).
Qed.

(** ** The hierarchy after the move *)

Section Move.
Context (d dm : db) (oid parent : Z) (o : Object) (lnew : list Z).
Context (Ht : tree_ok d) (Ho : objects d !! oid = Some o).
Context (Hm : moved children_links d dm oid parent) (Hlinks : links_ok children_links dm).
Context (Hnew : ancestors d parent = Some lnew) (Hcycle : oid ∉ lnew).

Lemma move_up x : upf children_links dm x = if decide (x = oid) then Some parent else upf children_links d x.
Proof. apply Hm. Qed.

Lemma move_ancestors_out y l : ancestors d y = Some l -> oid ∉ l -> ancestors dm y = Some l.
Proof.
  intros Hl Hn. apply ancestors_chain. apply ancestors_chain in Hl. eapply chain_ext; [|done].
  intros x Hx. rewrite move_up, decide_False; [done|]. intros ->. done.
Qed.

Lemma move_ancestors_root : ancestors dm oid = Some (oid :: lnew).
Proof.
  apply ancestors_chain. econstructor.
  - apply (tree_ne d Ht). by eexists.
  - rewrite move_up. by rewrite decide_True.
  - apply ancestors_chain. by apply move_ancestors_out.
Qed.

Lemma move_ancestors_in y : below d oid y -> ancestors dm y = Some (above d oid y ++ oid :: lnew).
Proof.
  intros Hy. destruct (tree_ancestors d Ht oid ltac:(by eexists)) as [lr Hlr].
  destruct (above_below d Ht oid lr Hlr y Hy) as (Ey & Hn & _).
  apply ancestors_chain. apply ancestors_chain in Ey.
  pose proof move_ancestors_root as Hr. apply ancestors_chain in Hr.
  revert Ey Hn. generalize (above d oid y). clear Hy. intros l. revert y.
  induction l as [|a l IH]; intros y Hc Hn; simpl in *.
  - by destruct (chain_cons_inv _ _ _ _ _ Hc) as (-> & _).
  - destruct (chain_cons_inv _ _ _ _ _ Hc) as (-> & Hs & t & Ht' & Hc').
    apply not_elem_of_cons in Hn as [Hne Hn]. econstructor; [done| |by apply IH].
    rewrite move_up, decide_False by congruence. done.
Qed.

Lemma move_dom x : is_Some (objects dm !! x) <-> is_Some (objects d !! x).
Proof. by eapply moved_dom. Qed.

Lemma move_agree {A} (g : Object -> A) : (forall z o, g (set_child z o) = g o) ->
  (forall z o, g (set_sibling z o) = g o) -> (forall z o, g (set_parent z o) = g o) -> agree g d dm.
Proof. intros H1 H2 H3. by eapply (moved_agree children_links). Qed.

Lemma move_tree : tree_ok dm.
Proof.
  pose proof Hm as (_ & _ & [m E] & _). destruct Ht as (Htab & _ & Hanc). split; [|split; [done|]].
  - apply (table_agree d); [apply move_agree; by intros ? []|by rewrite E|by rewrite E|done].
  - intros y Hy. apply move_dom in Hy. destruct (Hanc y Hy) as [l Hl].
    destruct (decide (oid ∈ l)) as [Hin|Hin].
    + rewrite move_ancestors_in by (by exists l). by eexists.
    + rewrite (move_ancestors_out y l) by done. by eexists.
Qed.

Lemma move_below y : below dm oid y <-> below d oid y.
Proof.
  split.
  - intros (l & Hl & Hin). destruct (decide (below d oid y)) as [|Hn]; [done|].
    assert (Hy : is_Some (objects d !! y)).
    { apply move_dom. by apply (below_valid dm move_tree oid y); exists l. }
    destruct (tree_ancestors d Ht y Hy) as [l' Hl']. exists (y :: l'). split; [done|].
    destruct (decide (oid ∈ y :: l')) as [|Hni]; [done|].
    rewrite (move_ancestors_out y _ Hl' Hni) in Hl. by injection Hl as <-.
  - intros Hy. exists (above d oid y ++ oid :: lnew). split; [by apply move_ancestors_in|set_solver].
Qed.

Lemma move_above y : below d oid y -> above dm oid y = above d oid y.
Proof.
  intros Hy. unfold above at 1. rewrite move_ancestors_in by done. simpl. apply upto_app.
  destruct (tree_ancestors d Ht oid ltac:(by eexists)) as [lr Hlr].
  by destruct (above_below d Ht oid lr Hlr y Hy) as (_ & Hn & _).
Qed.

Lemma move_own y : own dm y = own d y.
Proof.
  unfold own. pose proof (move_agree (fun o => pl_l (o_propdefs o)) ltac:(by intros ? [])
    ltac:(by intros ? []) ltac:(by intros ? []) y) as E.
  by destruct (objects dm !! y), (objects d !! y); simplify_eq/=.
Qed.

Lemma move_keys l : keys dm l = keys d l.
Proof. apply keys_ext. intros. apply move_own. Qed.

Lemma move_propval y : propval dm y = propval d y.
Proof. apply (move_agree o_propval); by intros ? []. Qed.

Lemma move_owner y : owner_of dm y = owner_of d y.
Proof.
  unfold owner_of. by rewrite (move_agree o_owner ltac:(by intros ? []) ltac:(by intros ? [])
    ltac:(by intros ? []) y).
Qed.

Context (Hok : props_ok d) (lold : list Z) (Hold : ancestors d (o_parent o) = Some lold).

Definition slots_after (n1 o1 : list Z) (y : Z) (v : list Pval) : list Pval :=
  let local := (length (keys d (above d oid y)) + length (own d oid))%nat in
  take local v ++
  (inherit (owner_of d y) <$> take (length (keys d n1)) (default [] (propval d parent))) ++
  drop (local + length (keys d o1)) v.

Lemma move_old : ancestors d oid = Some (oid :: lold) /\ oid ∉ lold.
Proof.
  assert (E : ancestors d oid = Some (oid :: lold)).
  { rewrite (ancestors_parent d oid o Ho) by (apply (tree_ne d Ht); by eexists). by rewrite Hold. }
  split; [done|]. apply ancestors_NoDup in E. by apply NoDup_cons in E as [E _].
Qed.

(** The slots of a descendant before the move. *)
Lemma move_slots y oy : below d oid y -> objects d !! y = Some oy ->
  ancestors d y = Some (above d oid y ++ oid :: lold) /\
  keys d (above d oid y ++ oid :: lold) = keys_at d oid lold y (own d oid) /\
  length (o_propval oy) =
    (length (keys d (above d oid y)) + length (own d oid) + length (keys d lold))%nat.
Proof.
  intros Hy Hoy. destruct move_old as [E _]. destruct (above_below d Ht oid lold E y Hy) as (Ey & _).
  split; [done|]. split; [unfold keys_at; by rewrite keys_app, keys_cons|].
  rewrite (po_len d Hok y oy _ Hoy Ey), keys_app, keys_cons, !length_app, length_fmap. lia.
Qed.

Lemma fix_after_spec : exists d' n1 o1 lc,
  dbpriv_fix_properties_after_chparent dm oid (o_parent o) = Some d' /\ same_but_propval dm d' /\
  lnew = n1 ++ lc /\ lold = o1 ++ lc /\ (forall a, a ∈ n1 -> a ∉ lold) /\
  forall y, propval d' y = if decide (below d oid y) then slots_after n1 o1 y <$> propval d y else propval d y.
Proof.
  pose proof move_tree as Htm. destruct move_old as [Eold Hnold].
  pose proof (move_ancestors_out _ _ Hold Hnold) as Eo. pose proof (move_ancestors_out _ _ Hnew Hcycle) as En.
  destruct (proj2 (move_dom oid) ltac:(by eexists)) as [om Hom].
  assert (Epar : o_parent om = parent).
  { pose proof (move_up oid) as Eu. unfold upf in Eu. rewrite Hom, decide_True in Eu by done.
    by injection Eu. }
  destruct (common_ancestor_spec (ll_fuel dm) dm parent (o_parent o) lnew lold Htm En Eo)
    as (c & n1 & o1 & lc & Ec & E1 & E2 & Hc & Hn); [by eapply ancestors_length|].
  assert (Hcnt : (if negb (c =? NOTHING) then dbpriv_count_properties dm c else Some 0) =
                 Some (Z.of_nat (length (keys d lc)))).
  { destruct (Z.eqb_spec c NOTHING) as [->|Hne]; cbn [negb].
    - rewrite ancestors_NOTHING in Hc. by injection Hc as <-.
    - by rewrite (count_properties_spec dm c lc Htm Hc), move_keys. }
  destruct (fix_effect dm Htm oid lnew om move_ancestors_root Hom (length (keys d o1))
    (length (keys d n1)) (length (keys d lc)) (default [] (propval d parent))) as (d' & Ed & Hs & HP).
  - intros y v Hy Hv. rewrite move_propval in Hv. apply move_below in Hy.
    unfold local_slots. rewrite move_above, move_keys, move_own by done.
    unfold propval in Hv. apply fmap_Some in Hv as (oy & Hoy & ->).
    destruct (move_slots y oy Hy Hoy) as (_ & _ & ->). rewrite E2, keys_app, length_app. lia.
  - intros Hpos. rewrite Epar, move_propval. destruct (decide (parent = NOTHING)) as [->|Hne].
    { rewrite ancestors_NOTHING in Hnew. injection Hnew as <-. destruct n1; [simpl in Hpos; lia|done]. }
    destruct (ancestors_head _ _ _ Hnew Hne) as [l El].
    destruct (ancestors_valid _ _ _ parent Hnew) as [op Hop]; [rewrite El; by left|].
    unfold propval. rewrite Hop. split; [done|]. simpl.
    rewrite (po_len d Hok parent op _ Hop Hnew), E1, keys_app, length_app. lia.
  - exists d', n1, o1, lc. split; [|split; [done|split; [done|split; [done|split; [done|]]]]].
    + unfold dbpriv_fix_properties_after_chparent, db_object_parent. rewrite Hom. cbn [mbind option_bind].
      rewrite Epar, Ec. cbn [mbind option_bind]. rewrite Hcnt. cbn [mbind option_bind].
      rewrite (count_properties_spec dm _ lold Htm Eo), (count_properties_spec dm _ lnew Htm En), !move_keys.
      cbn [mbind option_bind]. rewrite E1, E2, !keys_app, !length_app. rewrite <- Ed. f_equal; lia.
    + intros y. rewrite HP, move_propval. rewrite (decide_ext _ _ _ _ (move_below y)).
      case_decide as Hy; [|done]. destruct (propval d y) as [v|]; [|done]. simpl. f_equal.
      unfold fixed, slots_after, local_slots. by rewrite move_above, move_keys, move_own, move_owner.
Qed.

(** *** The view after the exchange of slots *)

Context (Hcheck : forall a p y q, a ∈ lnew -> p ∈ own d a -> below d oid y -> q ∈ own d y ->
  casefold (pd_name q) <> casefold (pd_name p)).
Context (d' : db) (n1 o1 lc : list Z) (Hs : same_but_propval dm d').
Context (E1 : lnew = n1 ++ lc) (E2 : lold = o1 ++ lc) (Hdiff : forall a, a ∈ n1 -> a ∉ lold).
Context (HP : forall y, propval d' y =
  if decide (below d oid y) then slots_after n1 o1 y <$> propval d y else propval d y).

Definition local_keys (y : Z) : list (Z * Propdef) :=
  keys d (above d oid y) ++ ((fun p => (oid, p)) <$> own d oid).

Lemma local_keys_length y : length (local_keys y) = (length (keys d (above d oid y)) + length (own d oid))%nat.
Proof. unfold local_keys. by rewrite length_app, length_fmap. Qed.

Lemma local_keys_below y a p : below d oid y -> (a, p) ∈ local_keys y ->
  below d oid a /\ p ∈ own d a /\ a ∈ above d oid y ++ [oid].
Proof.
  intros Hy Hin. destruct move_old as [Eold _]. unfold local_keys in Hin.
  apply elem_of_app in Hin as [Hin|Hin].
  - apply elem_of_keys in Hin as [Ha Hp]. destruct (above_in d Ht oid lold Eold y a Hy Ha) as [Hb _].
    split; [done|]. split; [done|]. apply elem_of_app. by left.
  - apply list_elem_of_fmap in Hin as (q & E & Hq). injection E as -> ->.
    split; [by apply below_refl; [|eexists]|]. split; [done|]. apply elem_of_app. right. by left.
Qed.

Lemma after_keys y : below d oid y ->
  keys d (above d oid y ++ oid :: lold) = local_keys y ++ keys d o1 ++ keys d lc /\
  ancestors d' y = Some (above d oid y ++ oid :: lnew) /\
  keys d' (above d oid y ++ oid :: lnew) = local_keys y ++ keys d n1 ++ keys d lc.
Proof.
  intros Hy. rewrite (same_ancestors dm d'), move_ancestors_in by done.
  rewrite (same_keys dm d'), move_keys, E1, E2 by done. unfold local_keys.
  rewrite !keys_app, !keys_cons, !keys_app, <- !app_assoc. done.
Qed.

Lemma after_names y : below d oid y -> NoDup (key_name <$> local_keys y ++ keys d n1 ++ keys d lc).
Proof.
  intros Hy. destruct (proj1 (below_valid d Ht _ _ Hy)) as [oy Hoy].
  destruct (move_slots y oy Hy Hoy) as (Ey & _). destruct (after_keys y Hy) as (Ek & _).
  pose proof (po_names d Hok y _ Ey) as Hnd. rewrite Ek in Hnd.
  pose proof (po_names d Hok parent _ Hnew) as Hnd'. rewrite E1, keys_app in Hnd'.
  rewrite !fmap_app in *. apply NoDup_app in Hnd as (HA & HAx & _). apply NoDup_app. split; [done|].
  split; [|done]. intros k Hk. apply not_elem_of_app. split.
  - intros Hn. apply list_elem_of_fmap in Hk as ([a q] & -> & Haq).
    apply list_elem_of_fmap in Hn as ([b p] & E & Hbp).
    destruct (local_keys_below y a q Hy Haq) as (Hba & Hq & _). apply elem_of_keys in Hbp as [Hb Hp].
    eapply (Hcheck b p a q); [rewrite E1; apply elem_of_app; by left|done|done|done|exact E].
  - intros Hn. apply (HAx k Hk). apply elem_of_app. by right.
Qed.

Lemma after_lookup_eq y k : prop_lookup d' y k =
  if decide (below d oid y)
  then let inherited := (fun r => (fst r, inherit (owner_of d y) (snd r))) <$> prop_lookup d parent k in
       match prop_lookup d y k with
       | Some (a, pv) => if decide (below d' a y) then Some (a, pv) else inherited
       | None => inherited
       end
  else prop_lookup d y k.
Proof.
  case_decide as Hy.
  2: { unfold prop_lookup, pview. rewrite (same_ancestors dm d'), HP, decide_False by done.
       destruct (decide (is_Some (objects d !! y))) as [Hv|Hv].
       - destruct (tree_ancestors d Ht y Hv) as [l El]. rewrite (move_ancestors_out y _ El).
         + by rewrite El, (same_keys dm d'), move_keys.
         + intros Hin. apply Hy. by exists (y :: l).
       - unfold propval. apply eq_None_not_Some in Hv. rewrite Hv. cbn [fmap option_fmap option_map].
         by destruct (ancestors dm y), (ancestors d y). }
  destruct (proj1 (below_valid d Ht _ _ Hy)) as [oy Hoy].
  destruct (move_slots y oy Hy Hoy) as (Ey & _ & Hl). destruct (after_keys y Hy) as (Ek & Ey' & Ek').
  assert (Ev : propval d y = Some (o_propval oy)) by (unfold propval; by rewrite Hoy).
  assert (Epar : exists pslots, default [] (propval d parent) = pslots /\
    prop_lookup d parent k = assoc k (zip (keys d n1 ++ keys d lc) pslots) /\
    length pslots = (length (keys d n1) + length (keys d lc))%nat).
  { destruct (decide (parent = NOTHING)) as [->|Hne].
    - rewrite ancestors_NOTHING in Hnew. injection Hnew as <-. symmetry in E1. apply app_eq_nil in E1 as [-> ->].
      unfold propval, prop_lookup, pview, propval. rewrite (tree_NOTHING d Ht), ancestors_NOTHING. by exists [].
    - destruct (ancestors_head _ _ _ Hnew Hne) as [l El].
      destruct (ancestors_valid _ _ _ parent Hnew) as [op Hop]; [rewrite El; by left|].
      exists (o_propval op). unfold prop_lookup. rewrite (pview_zip d parent op _ Hop Hnew), E1, keys_app.
      unfold propval. rewrite Hop. split; [done|]. split; [done|].
      by rewrite (po_len d Hok parent op _ Hop Hnew), E1, keys_app, length_app. }
  destruct Epar as (pslots & Eps & Elook & Hps).
  unfold prop_lookup at 1. unfold pview. rewrite HP, decide_True, Ey', Ek', Ev by done.
  cbn [fmap option_fmap option_map]. unfold slots_after. rewrite Eps, <- local_keys_length.
  rewrite (after_lookup k (local_keys y) (keys d o1) (keys d n1) (keys d lc) _ pslots _
    (fun a => bool_decide (below d' a y))).
  - cbv zeta. rewrite Elook. unfold prop_lookup. rewrite (pview_zip d y oy _ Hoy Ey), Ek.
    destruct (assoc k (zip (local_keys y ++ _) _)) as [[a pv]|]; [|done].
    by destruct (decide (below d' a y)); [rewrite bool_decide_eq_true_2|rewrite bool_decide_eq_false_2].
  - rewrite Hl, local_keys_length, E2, keys_app, length_app. lia.
  - done.
  - rewrite <- Ek. by apply (po_names d Hok y).
  - rewrite <- keys_app, <- E1. by apply (po_names d Hok parent).
  - intros a p Hap. apply bool_decide_eq_true_2. exists (above d oid y ++ oid :: lnew). split; [done|].
    apply elem_of_app in Hap as [Hap|Hap].
    + destruct (local_keys_below y a p Hy Hap) as (_ & _ & Ha). set_solver.
    + apply elem_of_keys in Hap as [Ha _]. rewrite E1. set_solver.
  - intros a p Hap. apply bool_decide_eq_false_2. intros (l & El & Hin).
    rewrite Ey' in El. injection El as <-. apply elem_of_keys in Hap as [Ha _].
    apply ancestors_NoDup in Ey. rewrite E2 in Ey. rewrite E1 in Hin.
    replace (above d oid y ++ oid :: o1 ++ lc) with ((above d oid y ++ [oid]) ++ o1 ++ lc) in Ey
      by (by rewrite <- app_assoc). apply NoDup_app in Ey as (_ & H1 & Ey). apply NoDup_app in Ey as (_ & H2 & _).
    apply elem_of_app in Hin as [Hin|Hin]; [by apply (H1 a); apply elem_of_app; left|].
    apply elem_of_cons in Hin as [->|Hin]; [apply (H1 oid); apply elem_of_app; [right|]; by left|].
    apply elem_of_app in Hin as [Hin|Hin]; [|by apply (H2 a)].
    apply (Hdiff a Hin). rewrite E2. apply elem_of_app. by left.
Qed.

Lemma after_agree {A} (g : Object -> A) : (forall z o, g (set_child z o) = g o) ->
  (forall z o, g (set_sibling z o) = g o) -> (forall z o, g (set_parent z o) = g o) ->
  (forall l o, g (set_propval l o) = g o) -> agree g d d'.
Proof.
  intros H1 H2 H3 H4 x. rewrite (same_agree g dm d' Hs H4 x). by apply (move_agree g).
Qed.

Lemma after_ok : props_ok d'.
Proof.
  pose proof move_tree as Htm.
  assert (Hdefs : forall y oy', objects d' !! y = Some oy' ->
    exists oy, objects d !! y = Some oy /\ o_propdefs oy' = o_propdefs oy /\
      o_propval oy' = if decide (below d oid y) then slots_after n1 o1 y (o_propval oy) else o_propval oy).
  { intros y oy' Hy'. pose proof (after_agree o_propdefs ltac:(by intros ? []) ltac:(by intros ? [])
      ltac:(by intros ? []) ltac:(by intros ? []) y) as E. pose proof (HP y) as Ev. unfold propval in Ev.
    rewrite Hy' in E, Ev. destruct (objects d !! y) as [oy|]; [|done]. exists oy. simpl in *.
    split; [done|]. split; [by injection E|]. case_decide; by injection Ev. }
  split.
  - by eapply same_tree.
  - intros y oy' (oy & Hoy & -> & _)%Hdefs. by eapply po_defs.
  - intros y oy' l (oy & Hoy & _ & ->)%Hdefs El. case_decide as Hy.
    + destruct (after_keys y Hy) as (_ & Ey' & Ek'). rewrite El in Ey'. injection Ey' as ->. rewrite Ek'.
      destruct (move_slots y oy Hy Hoy) as (_ & _ & Hl). rewrite E2, keys_app, length_app in Hl.
      assert (Hp : (length (keys d n1) <= length (default [] (propval d parent)))%nat).
      { destruct (decide (parent = NOTHING)) as [->|Hne].
        - rewrite ancestors_NOTHING in Hnew. injection Hnew as <-.
          symmetry in E1. apply app_eq_nil in E1 as [-> _]. simpl. lia.
        - destruct (ancestors_head _ _ _ Hnew Hne) as [l' El'].
          destruct (ancestors_valid _ _ _ parent Hnew) as [op Hop]; [rewrite El'; by left|].
          unfold propval. rewrite Hop. simpl. rewrite (po_len d Hok parent op _ Hop Hnew), E1, keys_app, length_app. lia. }
      unfold slots_after. rewrite !length_app, length_fmap, !length_take, length_drop, local_keys_length. lia.
    + rewrite (same_ancestors dm d') in El by done. rewrite (same_keys dm d'), move_keys by done.
      destruct (tree_ancestors d Ht y ltac:(by eexists)) as [l' El'].
      rewrite (move_ancestors_out y _ El') in El.
      * injection El as <-. by eapply po_len.
      * intros Hin. apply Hy. by exists (y :: l').
  - intros y oy' i pv (oy & Hoy & -> & ->)%Hdefs Hi Hpv. eapply (po_own d Hok y oy i); [done|done|].
    case_decide as Hy; [|done]. destruct (move_slots y oy Hy Hoy) as (_ & _ & Hl). destruct move_old as [Eold _].
    assert (Hlt : (i < length (local_keys y))%nat).
    { rewrite local_keys_length. destruct (decide (y = oid)) as [->|Hne].
      - unfold own. rewrite Hoy. lia.
      - pose proof (own_before d oid lold y 0 Ht Eold Hy Hne) as Hb. unfold own in Hb at 1. rewrite Hoy in Hb. lia. }
    unfold slots_after in Hpv. rewrite <- local_keys_length in Hpv.
    rewrite lookup_app_l, lookup_take_lt in Hpv; [done|done|].
    rewrite length_take, local_keys_length in *. lia.
  - intros y l El. destruct (decide (below d oid y)) as [Hy|Hy].
    + destruct (after_keys y Hy) as (_ & Ey' & Ek'). rewrite El in Ey'. injection Ey' as ->. rewrite Ek'.
      by apply after_names.
    + rewrite (same_ancestors dm d') in El by done. rewrite (same_keys dm d'), move_keys by done.
      destruct (decide (is_Some (objects d !! y))) as [Hv|Hv].
      * destruct (tree_ancestors d Ht y Hv) as [l' El']. rewrite (move_ancestors_out y _ El') in El.
        -- injection El as <-. by apply (po_names d Hok y).
        -- intros Hin. apply Hy. by exists (y :: l').
      * destruct (decide (y = NOTHING)) as [->|Hne].
        -- rewrite ancestors_NOTHING in El. injection El as <-. constructor.
        -- destruct (ancestors_head _ _ _ El Hne) as [l' ->].
           destruct Hv. apply move_dom. eapply ancestors_valid; [done|by left].
Qed.
End Move.

(** ** Theorem *)

Lemma with_vcache_props c d : props_ok d -> props_ok (with_vcache c d).
Proof. by destruct 1. Qed.

Lemma change_parent_move d oid o parent : links_ok children_links d -> objects d !! oid = Some o ->
  parent = NOTHING \/ is_Some (objects d !! parent) ->
  exists dm, (d1 ← (if negb (o_parent o =? NOTHING) then LL_REMOVE children_links d (o_parent o) oid else Some d);
              d2 ← (if negb (parent =? NOTHING) then LL_APPEND children_links d1 parent oid else Some d1);
              update oid (set_parent parent) d2) = Some dm /\
    moved children_links d dm oid parent /\ links_ok children_links dm.
Proof.
  intros Hl Ho Hp. assert (Hup : upf children_links d oid = Some (o_parent o)) by (unfold upf; by rewrite Ho).
  destruct (ll_move_spec children_links d oid (o_parent o) parent Hl Hup Hp) as (dm & E & Hm & Hok).
  exists dm. split; [|done]. unfold ll_move in E. pose proof Hl as ((HN & _) & _ & Hv).
  assert (G : forall x, (x = NOTHING \/ is_Some (objects d !! x)) ->
    bool_decide (is_Some (objects d !! x)) = negb (x =? NOTHING)).
  { intros x Hx. destruct (Z.eqb_spec x NOTHING) as [->|Hne]; simpl.
    - apply bool_decide_eq_false_2. rewrite HN. by intros [? ?].
    - apply bool_decide_eq_true_2. by destruct Hx. }
  rewrite (G parent Hp), (G (o_parent o)) in E; [exact E|].
  destruct (decide (o_parent o = NOTHING)); [by left|right]. by eapply Hv.
Qed.

Lemma change_parent_flush (flush : bool) d : exists c,
  (if flush then d else db_priv_affected_callable_verb_lookup d) = with_vcache c d.
Proof.
  destruct flush; [exists (vcache d); by destruct d|].
  unfold db_priv_affected_callable_verb_lookup. case_match; [by eexists|exists (vcache d); by destruct d].
Qed.

Lemma db_change_parent_spec (d : db) (oid parent : Z) (o : Object) :
  props_ok d -> objects d !! oid = Some o -> parent = NOTHING \/ valid d parent = true ->
  ~ below d oid parent ->
  let clash := exists y q, below d oid y /\ q ∈ own d y /\
                 prop_lookup d parent (casefold (pd_name q)) <> None in
  (clash -> db_change_parent d oid parent = Some (d, false)) /\
  (~ clash -> exists d', db_change_parent d oid parent = Some (d', true) /\ props_ok d' /\
     (forall p, members children_links d' p =
        (fun l => without oid l ++ (if decide (p = parent) then [oid] else [])) <$> members children_links d p) /\
     (forall x, db_object_parent d' x = if decide (x = oid) then Some parent else db_object_parent d x) /\
     (forall y k, prop_lookup d' y k =
        if decide (below d oid y)
        then let inherited := (fun r => (fst r, inherit (owner_of d y) (snd r))) <$> prop_lookup d parent k in
             match prop_lookup d y k with
             | Some (a, pv) => if decide (below d' a y) then Some (a, pv) else inherited
             | None => inherited
             end
        else prop_lookup d y k) /\
     (forall (A : Type) (g : Object -> A), (forall z o, g (set_child z o) = g o) ->
        (forall z o, g (set_sibling z o) = g o) -> (forall z o, g (set_parent z o) = g o) ->
        (forall l o, g (set_propval l o) = g o) -> agree g d d') /\
     (exists m, d' = with_objects (fun _ => m)
        (if (o_child o =? NOTHING) && match o_verbdefs o with [] => true | _ => false end then d
         else db_priv_affected_callable_verb_lookup d))).
Proof.
  intros Hok Ho Hp Hcycle clash. pose proof (po_tree d Hok) as Ht. pose proof Ht as (Htab & Hlinks & _).
  assert (Hp' : parent = NOTHING \/ is_Some (objects d !! parent)) by (destruct Hp; [by left|right; by apply valid_spec]).
  assert (Hnew : exists lnew, ancestors d parent = Some lnew /\ oid ∉ lnew).
  { destruct Hp' as [->|Hv].
    - exists []. split; [apply ancestors_NOTHING|]. intros Hin. by apply elem_of_nil in Hin.
    - destruct (tree_ancestors d Ht parent Hv) as [l El]. exists (parent :: l). split; [done|].
      intros Hin. apply Hcycle. by exists (parent :: l). }
  destruct Hnew as (lnew & Hnew & Hnin).
  assert (Hclash : clash <-> exists a p y q, a ∈ lnew /\ p ∈ own d a /\ below d oid y /\ q ∈ own d y /\
    casefold (pd_name q) = casefold (pd_name p)).
  { assert (G : forall k, prop_lookup d parent k <> None <-> exists a p, a ∈ lnew /\ p ∈ own d a /\ casefold (pd_name p) = k).
    { intros k. destruct Hp' as [->|[op Hop]].
      - rewrite ancestors_NOTHING in Hnew. injection Hnew as <-.
        unfold prop_lookup, pview, propval. rewrite (tree_NOTHING d Ht), ancestors_NOTHING. simpl.
        split; [done|]. intros (a & p & Ha & _). by apply elem_of_nil in Ha.
      - rewrite (prop_lookup_None d Hok parent op lnew k Hop Hnew). split.
        + intros Hn. destruct (decide (k ∈ key_name <$> keys d lnew)) as [Hin|]; [|done].
          apply list_elem_of_fmap in Hin as ([a p] & -> & Hap). apply elem_of_keys in Hap as [Ha Hpa]. by exists a, p.
        + intros (a & p & Ha & Hpa & <-) Hn. apply Hn. apply list_elem_of_fmap. exists (a, p).
          split; [done|]. by apply elem_of_keys. }
    unfold clash. split.
    - intros (y & q & Hy & Hq & (a & p & Ha & Hpa & E)%G). by exists a, p, y, q.
    - intros (a & p & y & q & Ha & Hpa & Hy & Hq & E). exists y, q. split; [done|]. split; [done|].
      apply G. by exists a, p. }
  unfold db_change_parent, dbpriv_check_properties_for_chparent.
  destruct (check_loop_spec (ll_fuel d) d oid parent lnew Hok ltac:(by eexists) Hnew) as (b & -> & Hb).
  { apply ancestors_length in Hnew. lia. }
  cbn [mbind option_bind]. split.
  { intros Hc. destruct b; [|done]. apply Hclash in Hc as (a & p & y & q & Ha & Hpa & Hy & Hq & E).
    by destruct (proj1 Hb eq_refl a p y q). }
  intros Hnc. assert (Hcheck : forall a p y q, a ∈ lnew -> p ∈ own d a -> below d oid y -> q ∈ own d y ->
    casefold (pd_name q) <> casefold (pd_name p)).
  { intros a p y q Ha Hpa Hy Hq E. apply Hnc, Hclash. by exists a, p, y, q. }
  rewrite (proj2 Hb Hcheck). cbn [negb]. rewrite Ho. cbn [mbind option_bind].
  destruct (change_parent_flush ((o_child o =? NOTHING) && match o_verbdefs o with [] => true | _ => false end) d)
    as [c Ec]. rewrite Ec. set (d0 := with_vcache c d).
  pose proof (with_vcache_props c d Hok) as Hok0. fold d0 in Hok0.
  destruct (change_parent_move d0 oid o parent) as (dm & Em & Hm & Hlm); [apply Hok0|done|done|].
  destruct (tree_ancestors d Ht oid ltac:(by eexists)) as [lold Eold].
  assert (Hold : ancestors d0 (o_parent o) = Some lold).
  { rewrite (ancestors_parent d oid o Ho) in Eold by (apply (tree_ne d Ht); by eexists).
    change (ancestors d0 (o_parent o)) with (ancestors d (o_parent o)).
    destruct (ancestors d (o_parent o)); [|done]. by injection Eold as ->. }
  destruct (fix_after_spec d0 dm oid parent o lnew (po_tree d0 Hok0) Ho Hm Hlm Hnew Hnin Hok0 lold Hold)
    as (d' & n1 & o1 & lc & Ef & Hs & E1 & E2 & Hdiff & HP).
  exists d'. split.
  { destruct (if negb (o_parent o =? NOTHING) then _ else _) as [d1|]; [|done]. cbn [mbind option_bind] in Em |- *.
    destruct (if negb (parent =? NOTHING) then _ else _) as [d2|]; [|done]. cbn [mbind option_bind] in Em |- *.
    rewrite Em. cbn [mbind option_bind]. by rewrite Ef. }
  assert (Hpf : forall (A : Type) (g : Object -> A), (forall l o, g (set_propval l o) = g o) -> agree g dm d').
  { intros A g Hg. by apply same_agree. }
  split; [by eapply (after_ok d0 dm oid parent o lnew)|]. split; [|split; [|split; [|split]]].
  - intros p. rewrite (members_agree children_links dm d') by (apply Hpf; by intros ? []). apply Hm.
  - intros x. destruct Hm as (_ & Hup & _). specialize (Hup x). pose proof (Hpf Z o_parent ltac:(by intros ? []) x) as E.
    unfold upf in Hup. cbn [lk_up children_links] in Hup. rewrite <- E in Hup. unfold db_object_parent.
    change (objects d0) with (objects d) in Hup.
    destruct (objects d' !! x), (objects d !! x); repeat case_decide; simpl in *; congruence.
  - intros y k. by eapply (after_lookup_eq d0 dm oid parent o lnew).
  - intros A g H1 H2 H3 H4. by eapply (after_agree d0 dm oid parent).
  - destruct Hs as [[m ->] _]. destruct Hm as (_ & _ & [m' ->] & _). by exists m.
Qed.

(** C9: changing the parent of an object to one that is not among its own
    descendants.  It is refused exactly if the object or a descendant defines a
    property whose name the new parent already has.  Otherwise the object
    becomes the last child of the new parent; it and its descendants keep their
    slots of every property whose definer is still an ancestor, lose those
    whose definer no longer is, and get for every other property of the new
    parent a clear slot, owned as the c flag says; all other objects and all
    other fields are as before, and the tables stay well formed. *)
Theorem db_change_parent_correct (d : db) (oid parent : Z) (o : Object) :
  props_ok d -> objects d !! oid = Some o -> parent = NOTHING \/ valid d parent = true ->
  ~ below d oid parent ->
  let clash := exists y q, below d oid y /\ q ∈ own d y /\
                 prop_lookup d parent (casefold (pd_name q)) <> None in
  (clash -> db_change_parent d oid parent = Some (d, false)) /\
  (~ clash -> exists d', db_change_parent d oid parent = Some (d', true) /\ props_ok d' /\
     (forall p, members children_links d' p =
        (fun l => without oid l ++ (if decide (p = parent) then [oid] else [])) <$> members children_links d p) /\
     (forall x, db_object_parent d' x = if decide (x = oid) then Some parent else db_object_parent d x) /\
     (forall y k, prop_lookup d' y k =
        if decide (below d oid y)
        then let inherited := (fun r => (fst r, inherit (owner_of d y) (snd r))) <$> prop_lookup d parent k in
             match prop_lookup d y k with
             | Some (a, pv) => if decide (below d' a y) then Some (a, pv) else inherited
             | None => inherited
             end
        else prop_lookup d y k) /\
     (forall (A : Type) (g : Object -> A), (forall z o, g (set_child z o) = g o) ->
        (forall z o, g (set_sibling z o) = g o) -> (forall z o, g (set_parent z o) = g o) ->
        (forall l o, g (set_propval l o) = g o) -> agree g d d')).
Proof.
  intros Hok Ho Hp Hcycle clash. destruct (db_change_parent_spec d oid parent o Hok Ho Hp Hcycle) as [H1 H2].
  split; [exact H1|]. intros Hc. destruct (H2 Hc) as (d' & E & H3 & H4 & H5 & H6 & H7 & _). by exists d'.
Qed.

(** The room becomes a ball: it keeps its description and inherits the size. *)
Example db_change_parent_correct_witness :
  exists d', db_change_parent sample 3 2 = Some (d', true) /\
    prop_lookup d' 3 (casefold (BS "size")) = Some (2, mkPval VClear 4 1).
Proof.
  assert (Ht : tree_ok sample) by (apply tree_check_ok; by vm_compute).
  destruct (objects sample !! 3) as [o|] eqn:Ho; [|by vm_compute in Ho].
  assert (Hb : forall y, below sample 3 y -> y = 3).
  { intros y Hy. destruct (below_valid sample Ht _ _ Hy) as [[oy Hoy] _].
    apply elem_of_list_to_map_2 in Hoy. simpl in Hoy. destruct Hy as (l & El & Hin).
    repeat (apply elem_of_cons in Hoy as [Hoy|Hoy];
      [apply pair_eq in Hoy as [-> _]; vm_compute in El; injection El as <-; clear -Hin; set_solver|]).
    by apply elem_of_nil in Hoy. }
  destruct (db_change_parent_correct sample 3 2 o) as [_ H].
  - apply props_check_ok. by vm_compute.
  - exact Ho.
  - right. by vm_compute.
  - intros Hc. by apply Hb in Hc.
  - destruct H as (d' & E & _ & _ & _ & Hlook & _).
    + intros (y & q & Hy & Hq & _). apply Hb in Hy as ->. by apply elem_of_nil in Hq.
    + exists d'. split; [exact E|]. rewrite Hlook, decide_True.
      * vm_compute. reflexivity.
      * exists [3; 1]. split; [vm_compute; reflexivity|clear; set_solver].
Defined.
