(* ===== verification/Objects.v ===== *)
(** * The life of objects (the rest of db_objects.c)

    Creating, recycling and renumbering objects, the high-water mark of object
    numbers, and the size of an object. *)

From S2P Require Import Prelude Utf CString Values Streams Functions Lists Db Links Hierarchy Attributes Words Preps Verbs Properties PropView PropChange.

(** ** Definitions *)

Definition with_table (num max : Z) (d : db) : db :=
  mkDb (objects d) num max (all_users d) (vcache d) (next_addr d).

Definition db_last_used_objid (d : db) : Z := num_objects d - 1.

(** [while (!objects[num_objects - 1]) num_objects--]: with no object at all it
    reads below the table. *)
Fixpoint reset_loop (fuel : nat) (d : db) : option db :=
  match fuel with
  | O => None
  | S f =>
      if num_objects d - 1 <? 0 then None
      else match objects d !! (num_objects d - 1) with
           | Some _ => Some d
           | None => reset_loop f (with_table (num_objects d - 1) (max_objects d) d)
           end
  end.
Definition db_reset_last_used_objid (d : db) : option db :=
  reset_loop (S (Z.to_nat (num_objects d))) d.

Definition ensure_new_object (d : db) : db :=
  let d := if max_objects d =? 0 then with_table (num_objects d) 100 d else d in
  if max_objects d <=? num_objects d
  then with_table (num_objects d) (int (max_objects d * 2)) d else d.

(** [junk] is what the allocated memory happens to hold. *)
Definition dbpriv_new_object (junk : Object) (d : db) : option (db * Z) :=
  let d := ensure_new_object d in
  let oid := num_objects d in
  if oid <? max_objects d
  then Some (with_table (int (oid + 1)) (max_objects d) (with_objects <[oid := set_id oid junk]> d), oid)
  else None.

Definition dbpriv_new_recycled_object (d : db) : option db :=
  let d := ensure_new_object d in
  if num_objects d <? max_objects d
  then Some (with_table (int (num_objects d + 1)) (max_objects d) (with_objects (delete (num_objects d)) d))
  else None.

(** Every field but the owner is initialised. *)
Definition db_create_object (junk : Object) (d : db) : option (db * Z) :=
  '(d, oid) ← dbpriv_new_object junk d;
  d ← update oid (fun o => mkObject (o_id o) (o_owner o) NOTHING NOTHING NOTHING NOTHING NOTHING NOTHING
                             [] 0 [] (mkProplist 0 []) []) d;
  Some (d, oid).

(** The [None]s are the two panics, and reading a slot that is not there. *)
Definition db_destroy_object (d : db) (oid : Z) : option db :=
  o ← dbpriv_find_object d oid;
  let d := db_priv_affected_callable_verb_lookup d in
  if negb (o_location o =? NOTHING) || negb (o_contents o =? NOTHING)
     || negb (o_parent o =? NOTHING) || negb (o_child o =? NOTHING) then None
  else
    users ← (if is_user d oid then setremove (all_users d) (VObj oid) else Some (all_users d));
    _ ← slots (o_propval o) 0 (pl_cur_length (o_propdefs o));
    Some (with_objects (delete oid) (with_users users d)).

(** *** Renumbering *)

(** [for (new = 0; new < old; new++) if (objects[new] == 0)]. *)
Fixpoint find_free (fuel : nat) (d : db) (new old : Z) : option Z :=
  match fuel with
  | O => None
  | S f => if new <? old then
             match objects d !! new with
             | None => Some new
             | Some _ => find_free f d (new + 1) old
             end
           else None
  end.

Section Relink.
Context (L : LinkFields).

(** [oidp = &objects[*oidp]->next] until [*oidp] is [old]; then [*oidp = new]. *)
Fixpoint relink_loop (fuel : nat) (d : db) (x old new : Z) : option db :=
  match fuel with
  | O => None
  | S f =>
      o ← objects d !! x;
      if lk_next L o =? old then update x (lk_set_next L new) d
      else if lk_next L o =? NOTHING then None
      else relink_loop f d (lk_next L o) old new
  end.

Definition relink (d : db) (up old new : Z) : option db :=
  if up =? NOTHING then Some d
  else
    o ← objects d !! up;
    if lk_head L o =? old then update up (lk_set_head L new) d
    else if lk_head L o =? NOTHING then None
    else relink_loop (ll_fuel d) d (lk_head L o) old new.

(** [for (oid = o->head; oid != NOTHING; oid = objects[oid]->next) objects[oid]->up = new]. *)
Fixpoint redirect (fuel : nat) (d : db) (oid new : Z) : option db :=
  match fuel with
  | O => None
  | S f =>
      if oid =? NOTHING then Some d
      else
        d ← update oid (lk_set_up L new) d;
        o ← objects d !! oid;
        redirect f d (lk_next L o) new
  end.
End Relink.

(** The new number in the list of users: the first occurrence only. *)
Fixpoint renumber_user (l : list Var) (old new : Z) : list Var :=
  match l with
  | [] => []
  | VObj x :: l => if x =? old then VObj new :: l else VObj x :: renumber_user l old new
  | v :: l => v :: renumber_user l old new
  end.

(** [if (owner == new) owner = NOTHING; else if (owner == old) owner = new]. *)
Definition renumber_owner (old new x : Z) : Z :=
  if x =? new then NOTHING else if x =? old then new else x.

Definition renumber_owners (d : db) (old new oid : Z) : option db :=
  match objects d !! oid with
  | None => Some d
  | Some o =>
      count ← dbpriv_count_properties d oid;
      first ← slots (o_propval o) 0 count;
      update oid (fun o =>
        set_propval ((fun p => set_pv_owner (renumber_owner old new (pv_owner p)) p) <$> first)
          (set_verbdefs ((fun v => set_v_owner (renumber_owner old new (v_owner v)) v) <$> o_verbdefs o)
            (set_owner (renumber_owner old new (o_owner o)) o))) d
  end.

(** [for (oid = 0; oid < num_objects; oid++)], from [oid] on. *)
Fixpoint owners_loop (fuel : nat) (d : db) (old new oid : Z) : option db :=
  match fuel with
  | O => None
  | S f => if oid <? num_objects d
           then d ← renumber_owners d old new oid; owners_loop f d old new (oid + 1)
           else Some d
  end.

Definition db_renumber_object (d : db) (old : Z) : option (db * Z) :=
  let d := db_priv_affected_callable_verb_lookup d in
  match find_free (Z.to_nat old) d 0 old with
  | None => Some (d, old)
  | Some new =>
      o ← objects d !! old;
      let d := with_objects (fun m => delete old (<[new := set_id new o]> m)) d in
      d ← relink children_links d (o_parent o) old new;
      d ← redirect children_links (ll_fuel d) d (o_child o) new;
      d ← relink contents_links d (o_location o) old new;
      d ← redirect contents_links (ll_fuel d) d (o_contents o) new;
      let d := if is_user d new then with_users (renumber_user (all_users d) old new) d else d in
      d ← owners_loop (S (Z.to_nat (num_objects d))) d old new 0;
      Some (d, new)
  end.

(** *** Size *)

Definition verb_bytes (v : Verbdef) : Z :=
  BQM_SIZEOF_Verbdef + (Z.of_nat (length (v_name v)) + 1) +
  match v_program v with Some p => program_bytes p | None => 0 end.

(** The sum is kept in an [int]. *)
Definition db_object_bytes (d : db) (oid : Z) : option Z :=
  o ← objects d !! oid;
  len ← dbpriv_count_properties d oid;
  pvs ← slots (o_propval o) 0 len;
  let count := int (BQM_SIZEOF_Object + BQM_SIZEOF_PTR + (Z.of_nat (length (o_name o)) + 1)) in
  let count := fold_left (fun count v => int (count + verb_bytes v)) (o_verbdefs o) count in
  let count := int (count + BQM_SIZEOF_Propdef * pl_cur_length (o_propdefs o)) in
  let count := fold_left (fun count p => int (count + (Z.of_nat (length (pd_name p)) + 1)))
                 (pl_l (o_propdefs o)) count in
  let count := int (count + (BQM_SIZEOF_Pval - BQM_SIZEOF_Var) * len) in
  Some (fold_left (fun count p => int (count + value_bytes (pv_var p))) pvs count).

(** ** Specification *)

(** The invariant of the database as far as objects and properties go. *)
Record db_ok (d : db) : Prop := {
  ok_props : props_ok d;
  ok_contents : links_ok contents_links d;
  ok_users : users_ok d
}.

(** [x] is in no list and has none. *)
Definition isolated (L : LinkFields) (o : Object) : Prop :=
  lk_head L o = NOTHING /\ lk_up L o = NOTHING.

(** ** Adding and deleting isolated objects *)

Section Isolated.
Context (L : LinkFields) {HL : LinkLaws L} (d d' : db) (x : Z) (o : Object).
Context (Hx : objects d !! x = None) (Hx' : objects d' !! x = Some o) (Hiso : isolated L o).
Context (Hother : forall y, y <> x -> objects d' !! y = objects d !! y).

Lemma isolated_valid y : y <> x -> is_Some (objects d' !! y) <-> is_Some (objects d !! y).
Proof. intros H. by rewrite Hother. Qed.

Lemma isolated_members_x : objects d' !! NOTHING = None -> members L d' x = Some [].
Proof.
  intros HN. apply (members_chain L d' x NOTHING).
  - unfold headf. rewrite Hx'. simpl. f_equal. apply Hiso.
  - constructor.
Qed.

Lemma isolated_chain h l : x ∉ l -> chain NOTHING (nextf L d') h l <-> chain NOTHING (nextf L d) h l.
Proof.
  intros Hn. split; apply chain_ext; intros y Hy; unfold nextf; rewrite Hother; (done || (intros ->; done)).
Qed.

Lemma add_members p : links_ok L d -> p <> x -> members L d' p = members L d p.
Proof.
  intros ((_ & Ht & _) & _) Hp. destruct (objects d !! p) as [op|] eqn:E.
  - destruct (Ht p ltac:(by eexists)) as [l Hl]. rewrite Hl.
    destruct (members_inv _ _ _ _ Hl) as (h & Hh & Hc). apply (members_chain L d' p h).
    + rewrite <- Hh. unfold headf. by rewrite Hother.
    + apply isolated_chain; [|done]. intros Hin.
      destruct (members_defined _ _ _ _ _ Hl Hin) as [? E']. by rewrite Hx in E'.
  - unfold members, headf. by rewrite Hother, E.
Qed.

Lemma delete_members p : links_ok L d' -> p <> x -> members L d' p = members L d p.
Proof.
  intros ((HN & Ht & _) & Hm & _) Hp. destruct (objects d' !! p) as [op|] eqn:E.
  - destruct (Ht p ltac:(by eexists)) as [l Hl]. rewrite Hl. symmetry.
    destruct (members_inv _ _ _ _ Hl) as (h & Hh & Hc). apply (members_chain L d p h).
    + rewrite <- Hh. unfold headf. by rewrite Hother.
    + apply isolated_chain; [|done]. intros Hin. apply (Hm _ _ Hl) in Hin. unfold upf in Hin.
      rewrite Hx' in Hin. simpl in Hin. destruct Hiso as [_ Eu]. rewrite Eu in Hin. injection Hin as <-.
      by rewrite HN in E.
  - unfold members, headf. by rewrite <- Hother, E.
Qed.

Lemma add_links : x <> NOTHING -> links_ok L d -> links_ok L d'.
Proof.
  intros HxN Hl. pose proof Hl as ((HN & Ht & Hd) & Hm & Hv).
  assert (HN' : objects d' !! NOTHING = None) by (rewrite <- HN; apply Hother; congruence).
  pose proof (isolated_members_x HN') as Ex.
  split; [split; [done|split]|split].
  - intros p Hp. destruct (decide (p = x)) as [->|Hne]; [rewrite Ex; by eexists|].
    rewrite add_members by done. apply Ht. by apply isolated_valid.
  - intros p q lp lq y Hp Hq Hyp Hyq.
    destruct (decide (p = x)) as [->|Hne]; [rewrite Ex in Hp; injection Hp as <-; by apply elem_of_nil in Hyp|].
    destruct (decide (q = x)) as [->|Hne']; [rewrite Ex in Hq; injection Hq as <-; by apply elem_of_nil in Hyq|].
    rewrite add_members in Hp, Hq by done. by eapply Hd.
  - intros p l Hp c. destruct (decide (p = x)) as [->|Hne].
    + rewrite Ex in Hp. injection Hp as <-. split; [intros Hc; by apply elem_of_nil in Hc|].
      intros Hc. exfalso. unfold upf in Hc. destruct (decide (c = x)) as [->|Hcx].
      * rewrite Hx' in Hc. destruct Hiso as [_ Eu]. simpl in Hc. rewrite Eu in Hc. injection Hc as E. by apply HxN.
      * rewrite Hother in Hc by done. destruct (Hv c x Hc HxN) as [? E]. by rewrite Hx in E.
    + rewrite add_members in Hp by done. rewrite (Hm p l Hp). unfold upf.
      destruct (decide (c = x)) as [->|Hcx]; [|by rewrite Hother].
      rewrite Hx, Hx'. destruct Hiso as [_ Eu]. simpl. rewrite Eu. split; [done|]. intros [= <-].
      destruct (members_is_Some L d NOTHING ltac:(by eexists)) as [? E]. by rewrite HN in E.
  - intros c p Hc Hp. unfold upf in Hc. destruct (decide (c = x)) as [->|Hcx].
    + rewrite Hx' in Hc. destruct Hiso as [_ Eu]. simpl in Hc. rewrite Eu in Hc. by injection Hc as <-.
    + rewrite Hother in Hc by done. pose proof (Hv c p Hc Hp) as Hs.
      destruct (decide (p = x)) as [->|]; [by eexists|by apply isolated_valid].
Qed.

Lemma delete_links : links_ok L d' -> links_ok L d.
Proof.
  intros Hl. pose proof Hl as ((HN & Ht & Hd) & Hm & Hv).
  assert (HN' : objects d !! NOTHING = None).
  { destruct (decide (x = NOTHING)) as [->|]; [done|]. by rewrite <- Hother. }
  assert (Hne : forall p, is_Some (members L d p) -> p <> x).
  { intros p Hp ->. apply members_is_Some in Hp as [? E]. by rewrite Hx in E. }
  split; [split; [done|split]|split].
  - intros p Hp. assert (p <> x) by (intros ->; rewrite Hx in Hp; by destruct Hp).
    rewrite <- delete_members by done. apply Ht. by apply isolated_valid.
  - intros p q lp lq y Hp Hq. pose proof (Hne p ltac:(by eexists)). pose proof (Hne q ltac:(by eexists)).
    rewrite <- delete_members in Hp, Hq by done. by apply Hd.
  - intros p l Hp c. pose proof (Hne p ltac:(by eexists)) as Hpx.
    rewrite <- delete_members in Hp by done. rewrite (Hm p l Hp). unfold upf.
    destruct (decide (c = x)) as [->|Hcx]; [|by rewrite Hother].
    rewrite Hx, Hx'. destruct Hiso as [_ Eu]. simpl. rewrite Eu. split; [|done]. intros [= <-].
    destruct (members_is_Some L d' NOTHING ltac:(by eexists)) as [? E]. by rewrite HN in E.
  - intros c p Hc Hp. unfold upf in Hc. assert (Hcx : c <> x) by (intros ->; by rewrite Hx in Hc).
    rewrite <- Hother in Hc by done. pose proof (Hv c p Hc Hp) as Hs.
    destruct (decide (p = x)) as [->|]; [|by apply isolated_valid]. exfalso.
    destruct (links_members L d' x Hl Hs) as [l El]. apply (Hm x l El) in Hc.
    rewrite (isolated_members_x HN) in El. injection El as <-. by apply elem_of_nil in Hc.
Qed.
End Isolated.

Lemma chain_pred nx h l y : chain NOTHING nx h l -> y ∈ l -> y = h \/ exists w, nx w = Some y.
Proof.
  induction 1 as [|h t l Hh Ht Hc IH].
  - by intros ?%elem_of_nil.
  - intros [-> | Hy]%elem_of_cons; [by left|]. destruct (IH Hy) as [-> | ?]; [|by right]. right. by exists h.
Qed.

(** ** Adding and deleting an object that is alone *)

Section Alone.
Context (d d' : db) (x : Z) (o : Object) (HxN : x <> NOTHING).
Context (Hx : objects d !! x = None) (Hx' : objects d' !! x = Some o).
Context (Hch : isolated children_links o) (Hco : isolated contents_links o).
Context (Hother : forall y, y <> x -> objects d' !! y = objects d !! y).
Context (Hl' : links_ok children_links d').

Let L := children_links.

Lemma alone_NOTHING : objects d' !! NOTHING = None.
Proof. by destruct Hl' as ((? & _) & _). Qed.

Lemma no_child c : upf L d' c <> Some x.
Proof.
  intros Hc. pose proof Hl' as (_ & Hm & _).
  pose proof (isolated_members_x L d' x o Hx' Hch alone_NOTHING) as E.
  apply (Hm x _ E) in Hc. by apply elem_of_nil in Hc.
Qed.

Lemma alone_ancestors_x : ancestors d' x = Some [x].
Proof.
  apply ancestors_chain. econstructor; [done| |constructor].
  unfold upf. rewrite Hx'. simpl. f_equal. apply Hch.
Qed.

Lemma alone_ancestors y : y <> x -> ancestors d' y = ancestors d y.
Proof.
  intros Hy. assert (Hext : forall l, x ∉ l ->
    chain NOTHING (upf L d') y l <-> chain NOTHING (upf L d) y l).
  { intros l Hn. split; apply chain_ext; intros z Hz; unfold upf; rewrite Hother; (done || (intros ->; done)). }
  apply option_eq. intros l. rewrite !ancestors_chain. split; intros Hc; apply Hext in Hc; try done.
  - intros [-> | [w Hw]]%(chain_pred _ _ _ _ Hc); [done|]. by apply no_child in Hw.
  - intros Hin. apply ancestors_chain in Hc. apply (ancestors_valid _ _ _ _ Hc) in Hin as [? E]. by rewrite Hx in E.
Qed.

Lemma alone_not_in y l : y <> x -> ancestors d' y = Some l -> x ∉ l.
Proof.
  intros Hy Hl Hin. rewrite alone_ancestors in Hl by done.
  apply (ancestors_valid _ _ _ _ Hl) in Hin as [? E]. by rewrite Hx in E.
Qed.

Lemma alone_own y : y <> x -> own d' y = own d y.
Proof. intros Hy. unfold own. by rewrite Hother. Qed.

Lemma alone_keys y l : y <> x -> ancestors d' y = Some l -> keys d' l = keys d l.
Proof.
  intros Hy Hl. apply keys_ext. intros a Ha. apply alone_own. intros ->.
  by apply (alone_not_in _ _ Hy Hl).
Qed.

Lemma alone_lookup y k : y <> x -> prop_lookup d' y k = prop_lookup d y k.
Proof.
  intros Hy. unfold prop_lookup, pview, propval. rewrite Hother by done.
  rewrite <- alone_ancestors by done.
  destruct (ancestors d' y) as [l|] eqn:E; [|done]. by rewrite (alone_keys y l).
Qed.

Lemma alone_keys_x : keys d' [x] = (fun p => (x, p)) <$> pl_l (o_propdefs o).
Proof. rewrite keys_cons. unfold own. rewrite Hx'. simpl. by rewrite app_nil_r. Qed.

(** The tables of an object alone. *)
Definition alone_ok : Prop :=
  proplist_ok (o_propdefs o) /\ length (o_propval o) = length (pl_l (o_propdefs o)) /\
  (forall i pv, o_propval o !! i = Some pv -> pv_var pv <> VClear) /\
  NoDup (casefold ∘ pd_name <$> pl_l (o_propdefs o)).

Lemma add_props : table_ok d' -> alone_ok -> props_ok d -> props_ok d'.
Proof.
  intros Ht (Hd & Hlen & Hv & Hnd) [Htree Hdefs Hl Hown Hnames].
  assert (Hval : forall y, is_Some (objects d' !! y) -> y = x \/ (y <> x /\ is_Some (objects d !! y))).
  { intros y Hy. destruct (decide (y = x)) as [->|Hne]; [by left|right]. by rewrite Hother in Hy. }
  split.
  - split; [done|]. split; [done|]. intros y Hy. destruct (Hval y Hy) as [-> |[Hne Hy']].
    + rewrite alone_ancestors_x. by eexists.
    + rewrite alone_ancestors by done. by apply Htree.
  - intros y oy Hy. destruct (decide (y = x)) as [->|Hne].
    + rewrite Hx' in Hy. by injection Hy as <-.
    + rewrite Hother in Hy by done. by eapply Hdefs.
  - intros y oy l Hy Ha. destruct (decide (y = x)) as [->|Hne].
    + rewrite Hx' in Hy. injection Hy as <-. rewrite alone_ancestors_x in Ha. injection Ha as <-.
      by rewrite alone_keys_x, length_fmap.
    + rewrite (alone_keys y l Hne Ha). rewrite Hother in Hy by done. rewrite alone_ancestors in Ha by done. by eapply Hl.
  - intros y oy i pv Hy Hi Hp. destruct (decide (y = x)) as [->|Hne].
    + rewrite Hx' in Hy. injection Hy as <-. by eapply Hv.
    + rewrite Hother in Hy by done. by eapply Hown.
  - intros y l Ha. destruct (decide (y = x)) as [->|Hne].
    + rewrite alone_ancestors_x in Ha. injection Ha as <-. rewrite alone_keys_x, <- list_fmap_compose. done.
    + rewrite (alone_keys y l Hne Ha). rewrite alone_ancestors in Ha by done. by eapply Hnames.
Qed.

Lemma delete_props : table_ok d -> links_ok L d -> props_ok d' -> props_ok d.
Proof.
  intros Ht Hl [Htree Hdefs Hlen Hown Hnames].
  assert (Hne : forall y, is_Some (objects d !! y) -> y <> x).
  { intros y [? E] ->. by rewrite Hx in E. }
  split.
  - split; [done|]. split; [done|]. intros y Hy. pose proof (Hne y Hy). rewrite <- alone_ancestors by done.
    apply Htree. by rewrite Hother.
  - intros y oy Hy. pose proof (Hne y ltac:(by eexists)). rewrite <- Hother in Hy by done. by eapply Hdefs.
  - intros y oy l Hy Ha. pose proof (Hne y ltac:(by eexists)) as Hyx. rewrite <- Hother in Hy by done.
    rewrite <- alone_ancestors in Ha by done. rewrite <- (alone_keys y l Hyx Ha). by eapply Hlen.
  - intros y oy i pv Hy. pose proof (Hne y ltac:(by eexists)) as Hyx. rewrite <- Hother in Hy by done. by eapply Hown.
  - intros y l Ha. destruct (decide (y = x)) as [->|Hyx].
    + apply ancestors_chain in Ha. assert (l = []) as ->; [|constructor].
      destruct l as [|z l]; [done|]. exfalso. pose proof Ha as Ha'. inversion Ha; subst.
      unfold upf in *. by rewrite Hx in *.
    + rewrite <- alone_ancestors in Ha by done. rewrite <- (alone_keys y l Hyx Ha). by eapply Hnames.
Qed.
End Alone.

(** ** The high-water mark *)

Lemma reset_loop_spec fuel d : table_ok d -> (Z.to_nat (num_objects d) < fuel)%nat -> (exists x, is_Some (objects d !! x)) ->
  exists n, reset_loop fuel d = Some (with_table (n + 1) (max_objects d) d) /\
    is_Some (objects d !! n) /\ (forall x, n < x -> objects d !! x = None).
Proof.
  revert d. induction fuel as [|f IH]; intros d Ht Hf Hex; [lia|]. cbn [reset_loop].
  destruct Ht as (Hn & Hm & Ht). destruct Hex as [x [o Ho]]. destruct (Ht x o Ho) as [Hx _].
  destruct (Z.ltb_spec (num_objects d - 1) 0); [lia|].
  destruct (objects d !! (num_objects d - 1)) as [o'|] eqn:E.
  - exists (num_objects d - 1). split; [f_equal; destruct d; unfold with_table; simpl; f_equal; lia|].
    split; [by eexists|]. intros y Hy. destruct (objects d !! y) as [oy|] eqn:Ey; [|done].
    destruct (Ht y oy Ey) as [? _]. lia.
  - set (d1 := with_table (num_objects d - 1) (max_objects d) d).
    assert (Hne : forall y oy, objects d !! y = Some oy -> y <> num_objects d - 1) by (intros y oy Ey ->; congruence).
    destruct (IH d1) as (n & En & Hs & Hl).
    + split; [simpl; lia|]. split; [done|]. intros y oy Ey. simpl in Ey. pose proof (Hne y oy Ey). destruct (Ht y oy Ey).
      simpl. split; [lia|done].
    + simpl. lia.
    + exists x. by exists o.
    + exists n. by rewrite En.
Qed.

(** ** Creating objects *)

Lemma flush_vcache d : exists c, db_priv_affected_callable_verb_lookup d = with_vcache c d.
Proof.
  unfold db_priv_affected_callable_verb_lookup. case_match; [by eexists|exists (vcache d); by destruct d].
Qed.

Lemma sample_ok : db_ok sample.
Proof.
  split; [apply props_check_ok; by vm_compute|apply links_check_ok; by vm_compute|exact sample_users].
Qed.

Lemma is_user_other d d' y : table_ok d -> table_ok d' -> objects d' !! y = objects d !! y ->
  is_user d' y = is_user d y.
Proof.
  intros Ht Ht' E. unfold is_user, valid_with_flag. by rewrite !find_object_objects, E.
Qed.

(** There is room in the table: it need not grow, or its doubled size is an [int]. *)
Definition table_room (d : db) : Prop := num_objects d < max_objects d \/ 2 * max_objects d <= INT32_MAX.

Lemma ensure_spec d : table_ok d -> table_room d ->
  exists max, ensure_new_object d = with_table (num_objects d) max d /\ num_objects d < max <= INT32_MAX.
Proof.
  unfold table_ok, table_room, INT32_MAX. intros (Hn & Hm & _) Hr. unfold ensure_new_object.
  destruct (Z.eqb_spec (max_objects d) 0) as [E|E]; simpl.
  - exists 100. destruct (Z.leb_spec 100 (num_objects d)); [lia|]. split; [done|lia].
  - destruct (Z.leb_spec (max_objects d) (num_objects d)).
    + exists (int (max_objects d * 2)). split; [done|]. rewrite int_id by (unfold INT32_MIN, INT32_MAX; lia). lia.
    + exists (max_objects d). split; [by destruct d|lia].
Qed.

(** The object that is created, where the memory held [junk]. *)
Definition fresh_object (oid : Z) (junk : Object) : Object :=
  mkObject oid (o_owner junk) NOTHING NOTHING NOTHING NOTHING NOTHING NOTHING [] 0 [] (mkProplist 0 []) [].

Lemma db_create_object_spec (junk : Object) (d : db) :
  db_ok d -> table_room d ->
  let new := db_last_used_objid d + 1 in
  objects d !! new = None /\
  exists d', db_create_object junk d = Some (d', new) /\ db_ok d' /\
    db_last_used_objid d' = new /\ objects d' = <[new := fresh_object new junk]> (objects d) /\
    all_users d' = all_users d /\ is_user d' new = false /\
    members children_links d' new = Some [] /\ members contents_links d' new = Some [] /\
    (forall k, prop_lookup d' new k = None) /\
    (forall y k, y <> new -> prop_lookup d' y k = prop_lookup d y k).
Proof.
  intros [Hp Hc Hu] Hr. pose proof (po_tree d Hp) as ((Hn & Hm & Ht) & Hl & Ha). cbv zeta.
  unfold db_last_used_objid. replace (num_objects d - 1 + 1) with (num_objects d) by lia.
  set (new := num_objects d).
  assert (Hx : objects d !! new = None).
  { destruct (objects d !! new) as [o|] eqn:E; [|done]. apply Ht in E as [? _]. unfold new in *. lia. }
  split; [done|].
  destruct (ensure_spec d (conj Hn (conj Hm Ht)) Hr) as (max & E & Hmax).
  unfold db_create_object, dbpriv_new_object. rewrite E. simpl. fold new.
  destruct (Z.ltb_spec new max); [|unfold new in *; lia].
  unfold INT32_MAX in *. rewrite int_id by (unfold INT32_MIN, INT32_MAX, new in *; lia). simpl. unfold update. simpl.
  rewrite lookup_insert, decide_True by done. simpl. unfold with_table, with_objects. simpl. rewrite insert_insert, decide_True by done.
  replace (o_id (set_id new junk)) with new by (by destruct junk).
  replace (o_owner (set_id new junk)) with (o_owner junk) by (by destruct junk).
  fold (fresh_object new junk).
  set (d' := mkDb _ _ _ _ _ _). exists d'.
  assert (Hx' : objects d' !! new = Some (fresh_object new junk)) by (unfold d'; simpl; apply lookup_insert_eq).
  assert (Hother : forall y, y <> new -> objects d' !! y = objects d !! y) by (intros y Hy; unfold d'; simpl; by rewrite lookup_insert_ne).
  assert (HN : new <> NOTHING) by (unfold NOTHING, new; lia).
  assert (Hch : isolated children_links (fresh_object new junk)) by done.
  assert (Hco : isolated contents_links (fresh_object new junk)) by done.
  assert (Htab : table_ok d').
  { split; [|split]; [simpl; unfold new in *; lia|simpl; unfold INT32_MAX; lia|]. intros y o Hy. simpl.
    destruct (decide (y = new)) as [->|Hne].
    - rewrite Hx' in Hy. injection Hy as <-. simpl. split; [unfold new in *; lia|done].
    - rewrite Hother in Hy by done. destruct (Ht y o Hy) as [? ?]. split; [unfold new in *; lia|done]. }
  pose proof (add_links _ d d' new _ Hx Hx' Hch Hother HN Hl) as Hl'.
  pose proof (add_links _ d d' new _ Hx Hx' Hco Hother HN Hc) as Hc'.
  assert (Hp' : props_ok d').
  { eapply (add_props d d'); try done. split; [|split; [done|split]]; [split; [constructor|done]| |constructor].
    intros i pv Hi. simpl in Hi. by rewrite lookup_nil in Hi. }
  assert (Hnu : is_user d' new = false).
  { unfold is_user, valid_with_flag. rewrite find_object_objects by done. by rewrite Hx'. }
  split; [done|]. split.
  { split; [done|done|]. destruct Hu as (us & Eu & Hnd & Hus). exists us. split; [done|]. split; [done|].
    intros y. rewrite Hus. destruct (decide (y = new)) as [->|Hne]; [|rewrite (is_user_other d d'); [done|done|done|by apply Hother]].
    rewrite Hnu. unfold is_user, valid_with_flag. rewrite find_object_objects, Hx; done. }
  split; [simpl; lia|]. split; [done|]. split; [done|]. split; [done|].
  split; [apply (isolated_members_x _ _ _ _ Hx' Hch), Hl'|]. split; [apply (isolated_members_x _ _ _ _ Hx' Hco), Hl'|].
  split.
  - intros k. apply (prop_lookup_None d' Hp' new (fresh_object new junk) [new]); [done| |].
    + by eapply alone_ancestors_x.
    + erewrite (alone_keys_x d'); [|done]. simpl. by intros ?%elem_of_nil.
  - intros y k Hy. by eapply (alone_lookup d d').
Qed.

(** C23: creating an object: it gets the number after the last one used, is
    valid, without parent, children, location, contents, verbs or properties
    and not a user; the tables stay well formed, and no other object nor its
    properties change. *)
Theorem db_create_object_correct (junk : Object) (d : db) :
  db_ok d -> table_room d ->
  let new := db_last_used_objid d + 1 in
  objects d !! new = None /\
  exists d', db_create_object junk d = Some (d', new) /\ db_ok d' /\
    db_last_used_objid d' = new /\ objects d' = <[new := fresh_object new junk]> (objects d) /\
    all_users d' = all_users d /\ is_user d' new = false /\
    members children_links d' new = Some [] /\ members contents_links d' new = Some [] /\
    (forall k, prop_lookup d' new k = None) /\
    (forall y k, y <> new -> prop_lookup d' y k = prop_lookup d y k).
Proof. exact (db_create_object_spec junk d). Qed.

(** A new object after the last of the sample. *)
Lemma db_create_object_correct_witness : let junk := fresh_object 77 (mkObject 1 2 3 4 5 6 7 8 [] 9 [] (mkProplist 0 []) []) in
  exists d', db_create_object junk sample = Some (d', 5) /\ db_ok d' /\
    members children_links d' 5 = Some [].
Proof.
  intros junk. destruct (db_create_object_correct junk sample) as (_ & d' & E & H & _ & _ & _ & _ & M & _).
  - exact sample_ok.
  - left. reflexivity.
  - exists d'. split; [exact E|]. split; [exact H|exact M].
Defined.

(** ** Destroying objects *)

(** The object is in no list, and nothing is in its lists. *)
Definition barren (d : db) (x : Z) : Prop :=
  exists o, objects d !! x = Some o /\ isolated children_links o /\ isolated contents_links o.

Lemma barren_members d x o : props_ok d -> links_ok contents_links d -> objects d !! x = Some o ->
  barren d x <-> o_parent o = NOTHING /\ o_location o = NOTHING /\
                 members children_links d x = Some [] /\ members contents_links d x = Some [].
Proof.
  intros Hp Hc Hx. pose proof (po_tree d Hp) as (_ & Hl & _). split.
  - intros (o' & Ho' & [H1 H2] & [H3 H4]). rewrite Hx in Ho'. injection Ho' as <-. split; [done|]. split; [done|].
    split; (eapply isolated_members_x; [done|done|]).
    + by destruct Hl as ((? & _) & _).
    + by destruct Hc as ((? & _) & _).
  - intros (H1 & H2 & H3 & H4). exists o. split; [done|].
    assert (G : forall L, members L d x = Some [] -> lk_head L o = NOTHING).
    { intros L Hm. destruct (members_inv _ _ _ _ Hm) as (h & Hh & Hch). apply chain_nil_inv in Hch as ->.
      unfold headf in Hh. rewrite Hx in Hh. by injection Hh. }
    by split; split; try done; apply G.
Qed.

Lemma db_destroy_object_spec (d : db) (oid : Z) :
  db_ok d -> llen (all_users d) < MAX_LIST ->
  (~ barren d oid -> db_destroy_object d oid = None) /\
  (barren d oid -> exists d', db_destroy_object d oid = Some d' /\ db_ok d' /\ valid d' oid = false /\
     objects d' = delete oid (objects d) /\ db_last_used_objid d' = db_last_used_objid d /\
     (forall us, all_users d = VObj <$> us -> all_users d' = VObj <$> without oid us) /\
     (forall y k, y <> oid -> prop_lookup d' y k = prop_lookup d y k)).
Proof.
  intros [Hp Hc Hu] Hlen. pose proof (po_tree d Hp) as (Htab & Hl & Ha).
  unfold db_destroy_object. rewrite find_object_objects by done. split.
  - intros Hb. destruct (objects d !! oid) as [o|] eqn:Ho; [|done]. cbn [mbind option_bind].
    case_match eqn:E; [done|]. exfalso. apply Hb. exists o. split; [done|].
    rewrite !orb_false_iff, !negb_false_iff, !Z.eqb_eq in E. destruct E as [[[E1 E2] E3] E4]. done.
  - intros (o & Ho & [H1 H2] & [H3 H4]). simpl in H1, H2, H3, H4. rewrite Ho. cbn [mbind option_bind].
    rewrite H1, H2, H3, H4. cbn [negb orb NOTHING Z.eqb Pos.eqb].
    destruct (flush_vcache d) as [c ->].
    set (d0 := with_vcache c d).
    destruct Hu as (us & Eus & Hnd & Hus). unfold llen in Hlen. rewrite Eus, length_fmap in Hlen.
    assert (Eu : is_user d0 oid = is_user d oid) by done.
    set (us' := without oid us).
    assert (Eset : (if is_user d0 oid then setremove (all_users d0) (VObj oid) else Some (all_users d0)) = Some (VObj <$> us')).
    { simpl. rewrite Eu, Eus. destruct (is_user d oid) eqn:E; [apply setremove_objs; [lia|done]|].
      unfold us'. rewrite without_notin; [done|]. rewrite Hus. congruence. }
    rewrite Eset. cbn [mbind option_bind].
    assert (HxN : oid <> NOTHING) by (apply (tree_ne d ltac:(done)); by eexists).
    assert (Ea : ancestors d oid = Some [oid]).
    { rewrite (ancestors_parent d oid o Ho HxN), H2, ancestors_NOTHING. done. }
    pose proof (po_len d Hp oid o [oid] Ho Ea) as Hpl. unfold keys, own in Hpl. simpl in Hpl.
    rewrite Ho, app_nil_r, length_fmap in Hpl.
    rewrite slots_spec by (unfold pl_cur_length; lia). cbn [mbind option_bind].
    set (d' := with_objects _ _). exists d'. split; [done|].
    assert (Hx : objects d' !! oid = None) by apply lookup_delete_eq.
    assert (Hother : forall y, y <> oid -> objects d !! y = objects d' !! y).
    { intros y Hy. symmetry. by apply lookup_delete_ne. }
    assert (Htab' : table_ok d').
    { destruct Htab as (Hn & Hm & Ht). split; [done|]. split; [done|]. intros y oy Hy. apply Ht.
      destruct (decide (y = oid)) as [->|]; [by rewrite Hx in Hy|]. by rewrite Hother. }
    assert (Hl' : links_ok children_links d') by by eapply (delete_links _ d' d oid o).
    assert (Hc' : links_ok contents_links d') by by eapply (delete_links _ d' d oid o).
    assert (Hp' : props_ok d') by by eapply (delete_props d' d oid o).
    assert (Hv : is_user d' oid = false).
    { unfold is_user, valid_with_flag. by rewrite find_object_objects, Hx. }
    split; [|split; [|split; [done|split; [done|split]]]].
    + split; [done|done|]. exists us'. split; [done|]. split; [by apply NoDup_filter|].
      intros y. unfold us', without. rewrite list_elem_of_filter, Hus.
      destruct (decide (y = oid)) as [->|Hy]; [rewrite Hv; split; [by intros [? _]|done]|].
      rewrite (is_user_other d d'); [by split; [intros [_ ?]|]|done|done|]. symmetry. by apply Hother.
    + unfold valid. by rewrite find_object_objects, Hx.
    + intros us2 E. rewrite Eus in E. apply (list_fmap_eq_inj VObj) in E; [by subst|]. by intros ? ? [=].
    + intros y k Hy. symmetry. by eapply (alone_lookup d' d).
Qed.

(** C24: recycling: only an object without parent, children, location and
    contents can be destroyed, any other is a panic.  Its number is then free,
    it is off the list of users, the tables stay well formed, and nothing
    changes for the other objects. *)
Theorem db_destroy_object_correct (d : db) (oid : Z) :
  db_ok d -> llen (all_users d) < MAX_LIST ->
  (~ barren d oid -> db_destroy_object d oid = None) /\
  (barren d oid -> exists d', db_destroy_object d oid = Some d' /\ db_ok d' /\ valid d' oid = false /\
     objects d' = delete oid (objects d) /\ db_last_used_objid d' = db_last_used_objid d /\
     (forall us, all_users d = VObj <$> us -> all_users d' = VObj <$> without oid us) /\
     (forall y k, y <> oid -> prop_lookup d' y k = prop_lookup d y k)).
Proof. exact (db_destroy_object_spec d oid). Qed.

Lemma db_destroy_object_correct_witness :
  (exists d', db_destroy_object sample 0 = Some d' /\ valid d' 0 = false) /\ db_destroy_object sample 4 = None.
Proof.
  split.
  - destruct (db_destroy_object_correct sample 0) as [_ H]; [exact sample_ok|reflexivity|].
    destruct H as (d' & E & _ & V & _); [|exists d'; split; [exact E|exact V]].
    destruct (objects sample !! 0) as [o|] eqn:Ho; [|by vm_compute in Ho]. exists o. split; [done|].
    vm_compute in Ho. injection Ho as <-. done.
  - destruct (db_destroy_object_correct sample 4) as [H _]; [exact sample_ok|reflexivity|].
    apply H. intros (o & Ho & [_ Hp] & _). vm_compute in Ho. injection Ho as <-. done.
Defined.
