(* ===== verification/Renumber.v ===== *)
(** * Renumbering an object (the end of db_objects.c)

    An object is moved to the lowest free number.  Everything that refers to
    it, the hierarchy, the contents lists, the list of users and the owners,
    then refers to the new number, and nothing else changes. *)

From S2P Require Import Prelude Utf CString Values Streams Functions Lists Db Links Hierarchy Attributes Words Preps Verbs Properties PropView PropChange Objects.

(** ** Definitions *)

(** The number that an object has afterwards. *)
Definition ren (old new x : Z) : Z := if x =? old then new else x.

(** What the operations on the links [L] leave alone. *)
Definition relinked (L : LinkFields) (d d' : db) : Prop :=
  (exists m, d' = with_objects (fun _ => m) d) /\
  forall (A : Type) (g : Object -> A), (forall z o, g (lk_set_head L z o) = g o) ->
    (forall z o, g (lk_set_next L z o) = g o) -> (forall z o, g (lk_set_up L z o) = g o) -> agree g d d'.

(** An object with the owners of itself, its verbs and its properties renumbered. *)
Definition reowned (old new : Z) (o : Object) : Object :=
  set_propval ((fun p => set_pv_owner (renumber_owner old new (pv_owner p)) p) <$> o_propval o)
    (set_verbdefs ((fun v => set_v_owner (renumber_owner old new (v_owner v)) v) <$> o_verbdefs o)
      (set_owner (renumber_owner old new (o_owner o)) o)).

(** What shows neither the number of an object nor its place in a list. *)
Definition unlinked {A} (g : Object -> A) : Prop :=
  forall z o, g (set_id z o) = g o /\ g (set_child z o) = g o /\ g (set_sibling z o) = g o /\ g (set_parent z o) = g o /\
    g (set_contents z o) = g o /\ g (set_next z o) = g o /\ g (set_location z o) = g o.

(** [d'] is [d] with [new] in the place of [old], and [f] applied to every object. *)
Record renamed (old new : Z) (f : Object -> Object) (d d' : db) : Prop := {
  rn_dom y : is_Some (objects d' !! y) <-> exists x, y = ren old new x /\ is_Some (objects d !! x);
  rn_id y o : objects d' !! y = Some o -> o_id o = y;
  rn_parent x : x <> new -> upf children_links d' (ren old new x) = ren old new <$> upf children_links d x;
  rn_location x : x <> new -> upf contents_links d' (ren old new x) = ren old new <$> upf contents_links d x;
  rn_children q l : members children_links d q = Some l -> members children_links d' (ren old new q) = Some (ren old new <$> l);
  rn_contents q l : members contents_links d q = Some l -> members contents_links d' (ren old new q) = Some (ren old new <$> l);
  rn_child_links : links_ok children_links d';
  rn_content_links : links_ok contents_links d';
  rn_fields {A} (g : Object -> A) x : unlinked g -> x <> new -> g <$> objects d' !! ren old new x = (fun o => g (f o)) <$> objects d !! x;
  rn_num : num_objects d' = num_objects d;
  rn_max : max_objects d' = max_objects d;
  rn_addr : next_addr d' = next_addr d;
  rn_cache : vcache d' = vcache d
}.

(** ** Lemmas *)

(** *** Chains *)

Lemma chain_lookup nx h l i x : chain NOTHING nx h l -> l !! i = Some x -> nx x = Some (default NOTHING (l !! S i)).
Proof.
  intros H. revert i. induction H as [|h t l Hh Ht Hc IH]; intros i Hi; [done|]. destruct i as [|i]; [|by apply IH].
  injection Hi as <-. rewrite Ht. inversion Hc; subst; done.
Qed.
Lemma chain_next_in nx h l x y : chain NOTHING nx h l -> x ∈ l -> nx x = Some y -> y <> NOTHING -> y ∈ l.
Proof.
  intros H [i Hi]%list_elem_of_lookup Hn Hy. rewrite (chain_lookup _ _ _ _ _ H Hi) in Hn. injection Hn as <-.
  destruct (l !! S i) as [z|] eqn:E; [|done]. by eapply list_elem_of_lookup_2.
Qed.
(** A member has one predecessor. *)
Lemma chain_pred_unique nx h l x y z : chain NOTHING nx h l -> x ∈ l -> y ∈ l -> nx x = Some z -> nx y = Some z -> z <> NOTHING -> x = y.
Proof.
  intros H [i Hi]%list_elem_of_lookup [j Hj]%list_elem_of_lookup Hx Hy Hz.
  rewrite (chain_lookup _ _ _ _ _ H Hi) in Hx. rewrite (chain_lookup _ _ _ _ _ H Hj) in Hy. injection Hx as Hx. injection Hy as Hy.
  destruct (l !! S i) as [u|] eqn:Ei; cbn in Hx; [|congruence]. destruct (l !! S j) as [v|] eqn:Ej; cbn in Hy; [|congruence]. subst.
  assert (S i = S j) as [= ->] by (by eapply (NoDup_lookup l); [by eapply chain_NoDup|..]). congruence.
Qed.
(** The head has none. *)
Lemma chain_head_no_pred nx h l x : chain NOTHING nx h l -> x ∈ l -> h ∈ l -> nx x <> Some h.
Proof.
  intros H [i Hi]%list_elem_of_lookup Hh Hx. rewrite (chain_lookup _ _ _ _ _ H Hi) in Hx. injection Hx as Hx.
  pose proof (chain_NoDup _ _ _ _ H) as Hd. destruct l as [|h' l]; [by apply elem_of_nil in Hh|].
  destruct (chain_cons_inv _ _ _ _ _ H) as (-> & Hs & _). destruct ((h :: l) !! S i) as [u|] eqn:Ei; cbn in Hx; [subst u|congruence].
  assert (S i = 0%nat); [|lia]. by eapply (NoDup_lookup (h :: l)).
Qed.

Section Ren.
Context (old new : Z) (Hnew : new <> NOTHING) (Hold : old <> NOTHING) (Hne : new <> old).
Notation ren := (ren old new).

Lemma ren_old : ren old = new.
Proof. unfold Renumber.ren. by rewrite Z.eqb_refl. Qed.
Lemma ren_ne x : x <> old -> ren x = x.
Proof. unfold Renumber.ren. by destruct (Z.eqb_spec x old). Qed.
Lemma ren_NOTHING x : ren x = NOTHING <-> x = NOTHING.
Proof. unfold Renumber.ren. destruct (Z.eqb_spec x old); [subst; done|done]. Qed.
Lemma ren_not_old x : ren x <> old.
Proof. unfold Renumber.ren. by destruct (Z.eqb_spec x old). Qed.
Lemma ren_inj x y : x <> new -> y <> new -> ren x = ren y -> x = y.
Proof. unfold Renumber.ren. destruct (Z.eqb_spec x old), (Z.eqb_spec y old); congruence. Qed.
Lemma ren_list (l : list Z) : old ∉ l -> ren <$> l = l.
Proof.
  induction l as [|x l IH]; [done|]. rewrite not_elem_of_cons. intros [H1 H2]. rewrite fmap_cons, (IH H2), ren_ne by congruence. done.
Qed.
Lemma elem_of_ren_list (l : list Z) x : new ∉ l -> x <> new -> ren x ∈ ren <$> l <-> x ∈ l.
Proof.
  intros Hl Hx. rewrite list_elem_of_fmap. split; [|by exists x]. intros (y & E & Hy). apply ren_inj in E; [congruence|done|by intros ->].
Qed.

Lemma chain_ren (nx nx' : Z -> option Z) h (l : list Z) : (forall x, x ∈ l -> nx' (ren x) = ren <$> nx x) -> chain NOTHING nx h l -> chain NOTHING nx' (ren h) (ren <$> l).
Proof.
  intros E H. induction H as [|h t l Hh Ht Hc IH].
  - rewrite (proj2 (ren_NOTHING NOTHING)) by done. constructor.
  - cbn [fmap list_fmap]. econstructor; [by rewrite ren_NOTHING|rewrite E by left; by rewrite Ht|]. apply IH. intros x Hx. apply E. by right.
Qed.
End Ren.

(** *** Links *)

Section Links.
Context (L : LinkFields) {HL : LinkLaws L} (d d1 : db) (old new : Z) (o : Object).
Context (Hl : links_ok L d) (Ho : objects d !! old = Some o) (Hfree : objects d !! new = None) (Hnew : new <> NOTHING) (Hself : lk_up L o <> old).
Notation ren := (ren old new).
(** [d1]: the object has moved, and what refers to it has not changed. *)
Context (Hgone : objects d1 !! old = None).
Context (Hhead : forall x, x <> new -> headf L d1 (ren x) = headf L d x) (Hnext : forall x, x <> new -> nextf L d1 (ren x) = nextf L d x).
Context (Hup : forall x, x <> new -> upf L d1 (ren x) = upf L d x).

Lemma rn_old : old <> NOTHING.
Proof. intros E. destruct Hl as ((HN & _) & _). clear -E HN Ho. by rewrite E, HN in Ho. Qed.
Lemma rn_ne : new <> old.
Proof. intros E. clear -E Hfree Ho. rewrite <- E in Ho. by rewrite Hfree in Ho. Qed.
Lemma rn_valid x : is_Some (objects d !! x) -> x <> new.
Proof. intros [y Hy] E. clear -E Hfree Hy. rewrite E in Hy. by rewrite Hfree in Hy. Qed.
Lemma upf_valid x p : upf L d x = Some p -> is_Some (objects d !! x).
Proof. unfold upf. intros H. apply fmap_Some in H as (y & -> & _). by eexists. Qed.
Lemma upf_old : upf L d old = Some (lk_up L o).
Proof. unfold upf. by rewrite Ho. Qed.
Lemma in_list x p : upf L d x = Some p -> p <> NOTHING -> exists l, members L d p = Some l /\ x ∈ l.
Proof.
  intros Hu Hp. pose proof Hl as (_ & Hm & Hv). destruct (links_members L d p Hl (Hv x p Hu Hp)) as [l El]. exists l. split; [done|]. by apply (Hm p l El).
Qed.
(** The head of a list, and what is behind a member. *)
Lemma list_head_up q h : headf L d q = Some h -> h <> NOTHING -> upf L d h = Some q.
Proof.
  intros Hh Hn. pose proof Hl as (_ & Hm & _). assert (Hq : is_Some (objects d !! q)) by (unfold headf in Hh; apply fmap_Some in Hh as (y & -> & _); by eexists).
  destruct (links_members L d q Hl Hq) as [l El]. apply (Hm q l El). apply (members_chain L d q h l Hh) in El.
  destruct (chain_inv _ _ _ _ El Hn) as (t & l' & -> & _). left.
Qed.
Lemma list_next_up x q y : upf L d x = Some q -> q <> NOTHING -> nextf L d x = Some y -> y <> NOTHING -> upf L d y = Some q.
Proof.
  intros Hu Hq Hn Hy. pose proof Hl as (_ & Hm & _). destruct (in_list x q Hu Hq) as (l & El & Hx). apply (Hm q l El).
  destruct (members_inv L d q l El) as (h & _ & Hc). by eapply chain_next_in.
Qed.

Definition heads_renamed (d2 : db) : Prop := forall q, is_Some (objects d !! q) -> headf L d2 (ren q) = ren <$> headf L d q.
Definition nexts_renamed (d2 : db) : Prop := forall x q, upf L d x = Some q -> q <> NOTHING -> nextf L d2 (ren x) = ren <$> nextf L d x.

Lemma relinked_head d2 x z : update x (lk_set_head L z) d1 = Some d2 -> relinked L d1 d2.
Proof.
  intros H. split; [apply update_objects in H as (y & _ & -> & _) || apply update_objects in H as (y & _ & _ & ->); by eexists|].
  intros A g H1 _ _ y. by eapply update_field.
Qed.
Lemma relinked_next d2 x z : update x (lk_set_next L z) d1 = Some d2 -> relinked L d1 d2.
Proof.
  intros H. split; [apply update_objects in H as (y & _ & _ & ->); by eexists|].
  intros A g _ H1 _ y. by eapply update_field.
Qed.

(** The loop finds the one that is before [old]. *)
Lemma relink_loop_spec l2 : forall l fuel x, chain NOTHING (nextf L d) x (l ++ old :: l2) -> l <> [] -> old ∉ l -> new ∉ l -> (length l <= fuel)%nat ->
  exists y d2, relink_loop L fuel d1 x old new = Some d2 /\ y ∈ l /\ nextf L d y = Some old /\ update y (lk_set_next L new) d1 = Some d2.
Proof.
  pose proof rn_old as HoN. induction l as [|a l IH]; intros fuel x Hc Hn Ho1 Hn1 Hf; [done|]. destruct fuel as [|fuel]; [cbn in Hf; lia|].
  cbn [app] in Hc. destruct (chain_cons_inv _ _ _ _ _ Hc) as (-> & Hs & t & Ht & Hc').
  apply not_elem_of_cons in Ho1 as [Hxo Ho1]. apply not_elem_of_cons in Hn1 as [Hxn Hn1].
  assert (E1 : nextf L d1 x = Some t) by (rewrite <- Ht, <- (Hnext x) by done; by rewrite ren_ne).
  pose proof E1 as E1'. unfold nextf in E1'. apply fmap_Some in E1' as (ox & Hox & Et). cbn [relink_loop]. rewrite Hox. cbn [mbind option_bind].
  rewrite <- Et. destruct (Z.eqb_spec t old) as [->|Hto].
  - destruct (update_is_Some x (lk_set_next L new) d1) as [d2 E]; [by eexists|]. exists x, d2. split; [exact E|]. split; [left|]. by split.
  - destruct l as [|b l]; [cbn in Hc'; destruct (chain_cons_inv _ _ _ _ _ Hc') as (? & _); congruence|].
    destruct (Z.eqb_spec t NOTHING) as [->|HtN]; [cbn in Hc'; by apply chain_inv_stop in Hc'|].
    destruct (IH fuel t Hc') as (y & d2 & E & Hy & Hny & Eu); [done|done|done|cbn in *; lia|]. exists y, d2. split; [exact E|]. split; [by right|]. by split.
Qed.

(** Nothing refers to [old] in a list but what is before it. *)
Lemma no_head_is_old q : is_Some (objects d !! q) -> headf L d q = Some old -> lk_up L o = q.
Proof. intros Hq Hh. pose proof (list_head_up q old Hh rn_old) as H. rewrite upf_old in H. by injection H. Qed.
Lemma no_next_is_old x q : upf L d x = Some q -> q <> NOTHING -> nextf L d x = Some old -> lk_up L o = q.
Proof. intros Hu Hq Hn. pose proof (list_next_up x q old Hu Hq Hn rn_old) as H. rewrite upf_old in H. by injection H. Qed.

Lemma ren_unless (f f1 : Z -> option Z) x : x <> new -> (forall x, x <> new -> f1 (ren x) = f x) -> f x <> Some old -> f1 (ren x) = ren <$> f x.
Proof. intros Hx E Hf. rewrite E by done. destruct (f x) as [y|]; [|done]. cbn. rewrite ren_ne; [done|congruence]. Qed.

Lemma relink_orphan : lk_up L o = NOTHING -> heads_renamed d1 /\ nexts_renamed d1.
Proof.
  intros E. split.
  - intros q Hq. apply ren_unless; [by apply rn_valid|done|]. intros Hh. apply (no_head_is_old q Hq) in Hh. rewrite E in Hh.
    destruct Hl as ((HN & _) & _). rewrite <- Hh, HN in Hq. by destruct Hq.
  - intros x q Hu Hq. apply ren_unless; [by apply rn_valid, (upf_valid x q)|done|]. intros Hn. apply (no_next_is_old x q Hu Hq) in Hn. congruence.
Qed.

Lemma relink_at_head p h l : members L d p = Some l -> headf L d p = Some h -> h = old -> old ∈ l -> lk_up L o = p -> p <> NOTHING ->
  exists d2, update p (lk_set_head L new) d1 = Some d2 /\ heads_renamed d2 /\ nexts_renamed d2 /\ (forall x, upf L d2 x = upf L d1 x).
Proof.
  intros El Hh -> Hin Eup Hp. assert (Hpo : p <> old) by congruence. assert (Hpv : is_Some (objects d !! p)) by (apply (members_is_Some L); by rewrite El).
  assert (Hp1 : is_Some (objects d1 !! p)).
  { pose proof (Hhead p (rn_valid p Hpv)) as E. rewrite ren_ne, Hh in E by done. unfold headf in E. apply fmap_Some in E as (y & -> & _). by eexists. }
  destruct (update_is_Some p (lk_set_head L new) d1 Hp1) as [d2 E2]. exists d2. split; [exact E2|].
  destruct (headf_update_head L d1 d2 p new E2) as (E3 & E4 & E5). split; [|split].
  - intros q Hq. destruct (decide (q = p)) as [->|Hqp]; [rewrite ren_ne, E3, Hh by done; cbn; by rewrite ren_old|].
    assert (ren q <> p).
    { destruct (decide (q = old)) as [->|]; [rewrite ren_old; intros <-; by apply (rn_valid _ Hpv)|by rewrite ren_ne]. }
    rewrite E4 by done. apply ren_unless; [by apply rn_valid|done|]. intros Hhq. apply (no_head_is_old q Hq) in Hhq. congruence.
  - intros x q Hu Hq. rewrite E5. apply ren_unless; [by apply rn_valid, (upf_valid x q)|done|]. intros Hn.
    pose proof (no_next_is_old x q Hu Hq Hn) as E. assert (q = p) as -> by congruence. pose proof Hl as (_ & Hm & _). apply (Hm p l El) in Hu.
    apply (members_chain L d p old l Hh) in El. by apply (chain_head_no_pred _ _ _ _ El Hu Hin).
  - intros x. unfold upf. eapply update_field; [exact E2|]. intros. apply up_head.
Qed.

Lemma relink_in_middle p h l1 l2 : members L d p = Some (l1 ++ old :: l2) -> headf L d p = Some h -> l1 <> [] ->
  lk_up L o = p -> p <> NOTHING -> (ll_fuel d <= ll_fuel d1)%nat ->
  exists y d2, relink_loop L (ll_fuel d1) d1 h old new = Some d2 /\ update y (lk_set_next L new) d1 = Some d2 /\
    heads_renamed d2 /\ nexts_renamed d2 /\ (forall x, upf L d2 x = upf L d1 x).
Proof.
  intros El Hh Hl1 Eup Hp Hfuel. pose proof (members_length L d p _ El) as Hlen. rewrite length_app in Hlen.
  pose proof (proj1 (members_chain L d p h _ Hh) El) as Hc. pose proof (members_NoDup L d p _ El) as Hnd.
  assert (Hv : forall x, x ∈ l1 ++ old :: l2 -> x <> new) by (intros x Hx; apply rn_valid; by eapply members_defined).
  apply NoDup_app in Hnd as (_ & Hnd & _).
  assert (Ho1 : old ∉ l1) by (intros Hx; apply (Hnd _ Hx); by left).
  destruct (relink_loop_spec l2 l1 (ll_fuel d1) h Hc Hl1 Ho1) as (y & d2 & E & Hy & Hny & Eu); [intros Hx; apply (Hv new); [apply elem_of_app; by left|done]|lia|].
  exists y, d2. split; [exact E|]. split; [exact Eu|]. destruct (nextf_update_next L d1 d2 y new Eu) as (E3 & E4 & E5).
  assert (Hyn : y <> new) by (apply Hv, elem_of_app; by left). assert (Hyo : y <> old) by (by intros ->).
  split; [|split].
  - intros q Hq. rewrite E5. apply ren_unless; [by apply rn_valid|done|]. intros Hhq. pose proof (no_head_is_old q Hq Hhq) as Eq.
    assert (q = p) as -> by congruence. rewrite Hh in Hhq. injection Hhq as ->. destruct l1 as [|a l1]; [done|].
    destruct (chain_cons_inv _ _ _ _ _ Hc) as (-> & _). apply Ho1. by left.
  - intros x q Hu Hq. destruct (decide (x = y)) as [->|Hxy]; [rewrite ren_ne, E3, Hny by done; cbn; by rewrite ren_old|].
    assert (Hxn : x <> new) by (by apply rn_valid, (upf_valid x q)).
    rewrite E4 by (unfold Renumber.ren; by destruct (Z.eqb_spec x old); [intros <-|]). apply ren_unless; [done|done|]. intros Hn.
    pose proof (no_next_is_old x q Hu Hq Hn) as E6. assert (q = p) as -> by congruence. pose proof Hl as (_ & Hm & _). apply (Hm p _ El) in Hu.
    apply Hxy. eapply (chain_pred_unique _ _ _ x y old Hc); [done|apply elem_of_app; by left|done|done|apply rn_old].
  - intros x. unfold upf. eapply update_field; [exact Eu|]. intros. apply up_next.
Qed.

Lemma relink_spec : (ll_fuel d <= ll_fuel d1)%nat ->
  exists d2, relink L d1 (lk_up L o) old new = Some d2 /\ relinked L d1 d2 /\ heads_renamed d2 /\ nexts_renamed d2 /\
    (forall x, upf L d2 x = upf L d1 x).
Proof.
  intros Hfuel. unfold relink. destruct (Z.eqb_spec (lk_up L o) NOTHING) as [E|Hp].
  { destruct (relink_orphan E). exists d1. split; [done|]. split; [split; [exists (objects d1); by destruct d1|done]|done]. }
  remember (lk_up L o) as p eqn:Ep. symmetry in Ep. assert (Hu : upf L d old = Some p) by (by rewrite upf_old, Ep).
  destruct (in_list old p Hu Hp) as (l & El & Hin). destruct (members_inv L d p l El) as (h & Hh & Hc).
  assert (Hpv : is_Some (objects d !! p)) by (apply (members_is_Some L); by rewrite El).
  pose proof (Hhead p (rn_valid p Hpv)) as E1. rewrite ren_ne, Hh in E1 by congruence. unfold headf in E1. apply fmap_Some in E1 as (op & Hop & Eh).
  rewrite Hop. cbn [mbind option_bind]. rewrite <- Eh. destruct (Z.eqb_spec h old) as [Eho|Hho].
  - destruct (relink_at_head p h l El Hh Eho Hin Ep Hp) as (d2 & E2 & H). exists d2. split; [exact E2|]. split; [by eapply relinked_head|exact H].
  - apply list_elem_of_split in Hin as (l1 & l2 & ->). assert (Hl1 : l1 <> []).
    { intros ->. destruct (chain_cons_inv _ _ _ _ _ Hc) as (? & _). congruence. }
    destruct (Z.eqb_spec h NOTHING) as [->|_]; [apply chain_inv_stop in Hc; by destruct l1|].
    destruct (relink_in_middle p h l1 l2 El Hh Hl1 Ep Hp Hfuel) as (y & d2 & E2 & Eu & H). exists d2. split; [exact E2|].
    split; [by eapply relinked_next|exact H].
Qed.

(** *** The lists afterwards *)

Section Result.
Context (d3 : db) (Hh3 : heads_renamed d3) (Hn3 : nexts_renamed d3).
Context (Hu3 : forall x, x <> new -> upf L d3 (ren x) = ren <$> upf L d x).
Context (Hdom : forall y, is_Some (objects d3 !! y) <-> exists x, y = ren x /\ is_Some (objects d !! x)).

Lemma renamed_members q l : members L d q = Some l -> members L d3 (ren q) = Some (ren <$> l).
Proof.
  intros El. destruct (members_inv L d q l El) as (h & Hh & Hc). assert (Hq : is_Some (objects d !! q)) by (apply (members_is_Some L); by rewrite El).
  pose proof Hl as ((HN & _) & Hm & _).
  apply (members_chain L d3 (ren q) (ren h)); [by rewrite Hh3, Hh|]. apply chain_ren with (nx := nextf L d); [done|apply rn_old| |done].
  intros x Hx. apply (Hn3 x q); [by apply (Hm q l El)|intros ->; rewrite HN in Hq; by destruct Hq].
Qed.
Lemma renamed_lists p l : members L d3 p = Some l -> exists q l0, p = ren q /\ l = ren <$> l0 /\ members L d q = Some l0.
Proof.
  intros El. destruct (proj1 (Hdom p)) as (q & -> & Hq); [apply (members_is_Some L); by rewrite El|].
  destruct (links_members L d q Hl Hq) as [l0 E0]. exists q, l0. split; [done|]. split; [|done]. rewrite (renamed_members q l0 E0) in El. congruence.
Qed.
Lemma up_not_new x q : upf L d x = Some q -> q <> new.
Proof. intros Hu ->. pose proof Hl as (_ & _ & Hv). destruct (Hv x new Hu Hnew) as [? E]. by rewrite Hfree in E. Qed.

Lemma renamed_links : links_ok L d3.
Proof.
  pose proof Hl as ((HN & Ht & Hd) & Hm & Hv). pose proof rn_old as HoN.
  assert (Hmv : forall q l x, members L d q = Some l -> x ∈ l -> x <> new) by (intros q l x El Hx; apply rn_valid; by eapply members_defined).
  split; [split; [|split]|split].
  - apply eq_None_not_Some. rewrite Hdom. intros (x & E & Hx). symmetry in E. apply ren_NOTHING in E; [|done..]. subst x. rewrite HN in Hx. by destruct Hx.
  - intros p Hp. apply Hdom in Hp as (q & -> & Hq). destruct (Ht q Hq) as [l El]. rewrite (renamed_members q l El). by eexists.
  - intros p q lp lq x Hp Hq Hxp Hxq. apply renamed_lists in Hp as (p0 & l1 & -> & -> & E1). apply renamed_lists in Hq as (q0 & l2 & -> & -> & E2).
    apply list_elem_of_fmap in Hxp as (x1 & -> & H1). apply list_elem_of_fmap in Hxq as (x2 & E & H2).
    apply ren_inj in E; [|exact (Hmv _ _ _ E1 H1)|exact (Hmv _ _ _ E2 H2)]. subst x2. f_equal. by apply (Hd p0 q0 l1 l2 x1).
  - intros p l El c. apply renamed_lists in El as (q & l0 & -> & -> & E0).
    assert (Hq : is_Some (objects d !! q)) by (apply (members_is_Some L); by rewrite E0). split.
    + intros (x & -> & Hx)%list_elem_of_fmap. rewrite Hu3 by (exact (Hmv _ _ _ E0 Hx)). apply (Hm q l0 E0) in Hx. by rewrite Hx.
    + intros Hu. assert (Hc : is_Some (objects d3 !! c)) by (unfold upf in Hu; apply fmap_Some in Hu as (? & -> & _); by eexists).
      apply Hdom in Hc as (x & -> & Hx). rewrite Hu3 in Hu by (by apply rn_valid). apply fmap_Some in Hu as (q' & Hu & E).
      symmetry in E. apply ren_inj in E; [|by eapply up_not_new|by apply rn_valid]. subst q'. apply list_elem_of_fmap. exists x. split; [done|]. by apply (Hm q l0 E0).
  - intros c p Hu Hp. assert (Hc : is_Some (objects d3 !! c)) by (unfold upf in Hu; apply fmap_Some in Hu as (? & -> & _); by eexists).
    apply Hdom in Hc as (x & -> & Hx). rewrite Hu3 in Hu by (by apply rn_valid). apply fmap_Some in Hu as (q & Hu & ->).
    apply Hdom. exists q. split; [done|]. apply (Hv x q Hu). intros ->. by apply Hp, ren_NOTHING.
Qed.
End Result.
End Links.

(** The members of a list look at a new object. *)
Lemma redirect_spec (L : LinkFields) {HL : LinkLaws L} new l : forall d h fuel, chain NOTHING (nextf L d) h l -> (length l < fuel)%nat ->
  exists d', redirect L fuel d h new = Some d' /\ relinked L d d' /\ (forall x, headf L d' x = headf L d x) /\
    (forall x, nextf L d' x = nextf L d x) /\ (forall x, upf L d' x = if decide (x ∈ l) then Some new else upf L d x).
Proof.
  induction l as [|a l IH]; intros d h fuel Hc Hf; (destruct fuel as [|fuel]; [cbn in Hf; lia|]); cbn [redirect].
  - apply chain_nil_inv in Hc as ->. rewrite Z.eqb_refl. exists d. split; [done|]. split; [split; [exists (objects d); by destruct d|done]|].
    split; [done|]. split; [done|]. intros x. by rewrite decide_False by (by intros ?%elem_of_nil).
  - destruct (chain_cons_inv _ _ _ _ _ Hc) as (-> & Hs & t & Ht & Hc'). destruct (Z.eqb_spec h NOTHING); [done|].
    assert (Hh : is_Some (objects d !! h)) by (unfold nextf in Ht; apply fmap_Some in Ht as (? & -> & _); by eexists).
    destruct (update_is_Some h (lk_set_up L new) d Hh) as [d1 E]. rewrite E. cbn [mbind option_bind].
    assert (En : forall x, nextf L d1 x = nextf L d x) by (intros x; unfold nextf; eapply update_field; [exact E|]; intros; apply next_up).
    assert (Et : nextf L d1 h = Some t) by (by rewrite En). unfold nextf in Et. apply fmap_Some in Et as (o1 & -> & ->). cbn [mbind option_bind].
    destruct (IH d1 (lk_next L o1) fuel) as (d2 & E2 & [[m Em] Ha] & E3 & E4 & E5); [eapply chain_ext; [|exact Hc']; intros; apply En|cbn in Hf; lia|].
    exists d2. split; [exact E2|]. split; [|split; [|split]].
    + split; [apply update_objects in E as (? & _ & _ & ->); rewrite Em; by eexists|]. intros A g H1 H2 H3 x. rewrite (Ha A g H1 H2 H3 x). by eapply update_field.
    + intros x. rewrite E3. unfold headf. eapply update_field; [exact E|]. intros. apply head_up.
    + intros x. by rewrite E4, En.
    + intros x. rewrite E5. destruct (decide (x ∈ l)) as [Hx|Hx]; [rewrite decide_True by (by right); done|].
      unfold upf. destruct (decide (x = h)) as [->|Hne]; [rewrite decide_True by left; eapply update_eq; [exact E|]; intros; apply up_up|].
      rewrite decide_False by (by intros [|]%elem_of_cons). eapply update_ne; [exact E|]. congruence.
Qed.

Lemma relinked_trans (L : LinkFields) d d' d'' : relinked L d d' -> relinked L d' d'' -> relinked L d d''.
Proof. intros [[m ->] H1] [[m' ->] H2]. split; [by exists m'|]. intros A g ? ? ? x. by rewrite (H2 A g), (H1 A g). Qed.

Section Both.
Context (L : LinkFields) {HL : LinkLaws L} (d d1 : db) (old new : Z) (o : Object).
Context (Hl : links_ok L d) (Ho : objects d !! old = Some o) (Hfree : objects d !! new = None) (Hnew : new <> NOTHING) (Hself : lk_up L o <> old).
Notation ren := (ren old new).
Context (Hgone : objects d1 !! old = None).
Context (Hhead : forall x, x <> new -> headf L d1 (ren x) = headf L d x) (Hnext : forall x, x <> new -> nextf L d1 (ren x) = nextf L d x).
Context (Hup : forall x, x <> new -> upf L d1 (ren x) = upf L d x) (Hfuel : ll_fuel d1 = ll_fuel d).

(** Both halves of the repair of one family of lists. *)
Lemma relink_redirect : exists d2 d3, relink L d1 (lk_up L o) old new = Some d2 /\ redirect L (ll_fuel d2) d2 (lk_head L o) new = Some d3 /\
  relinked L d1 d3 /\ heads_renamed L d old new d3 /\ nexts_renamed L d old new d3 /\ (forall x, x <> new -> upf L d3 (ren x) = ren <$> upf L d x).
Proof.
  pose proof (rn_old L d old o Hl Ho) as HoN. pose proof (rn_ne d old new o Ho Hfree) as Hne.
  destruct (relink_spec L d d1 old new o) as (d2 & E2 & R2 & Hh2 & Hn2 & Hu2); [done..|by rewrite Hfuel|].
  assert (Hov : is_Some (objects d !! old)) by (by eexists). destruct (links_members L d old Hl Hov) as [l El]. pose proof Hl as (_ & Hm & _).
  assert (Hol : old ∉ l). { intros Hin. apply (Hm old l El) in Hin. unfold upf in Hin. rewrite Ho in Hin. by injection Hin. }
  assert (Hnl : new ∉ l). { intros Hin. destruct (members_defined L d old l new El Hin) as [? E]. by rewrite Hfree in E. }
  assert (Hh : headf L d old = Some (lk_head L o)) by (unfold headf; by rewrite Ho).
  pose proof (proj1 (members_chain L d old _ l Hh) El) as Hc.
  assert (Hc2 : chain NOTHING (nextf L d2) (lk_head L o) l).
  { rewrite <- (ren_list old new l Hol). assert (lk_head L o = ren (lk_head L o)) as E.
    { symmetry. apply ren_ne. intros E. apply Hol. rewrite <- E. destruct (chain_inv _ _ _ _ Hc) as (t & l' & -> & _); [by rewrite E|by left]. }
    rewrite E. apply chain_ren with (nx := nextf L d); [done|done| |done]. intros x Hx. apply (Hn2 x old); [by apply (Hm old l El)|done]. }
  assert (Ef : ll_fuel d2 = ll_fuel d) by (rewrite <- Hfuel; destruct R2 as [_ R2]; apply (agree_fuel (fun _ => tt)), R2; done).
  destruct (redirect_spec L new l d2 (lk_head L o) (ll_fuel d2) Hc2) as (d3 & E3 & R3 & Hh3 & Hn3 & Hu3); [rewrite Ef; by apply (members_length L d old)|].
  exists d2, d3. split; [exact E2|]. split; [exact E3|]. split; [by eapply relinked_trans|]. split; [intros q Hq; by rewrite Hh3, Hh2|].
  split; [intros x q Hx Hq; rewrite Hn3; by apply (Hn2 x q)|]. intros x Hx. rewrite Hu3, Hu2, Hup by done.
  destruct (decide (x = old)) as [->|Hxo].
  - rewrite ren_old, decide_False by done. unfold upf. rewrite Ho. cbn. by rewrite ren_ne.
  - rewrite ren_ne by done. pose proof (Hm old l El x) as Hin. destruct (decide (x ∈ l)) as [Hxl|Hxl].
    + rewrite (proj1 Hin Hxl). cbn. by rewrite ren_old.
    + destruct (upf L d x) as [q|] eqn:E; [|done]. cbn. rewrite ren_ne; [done|]. intros ->. by apply Hxl, Hin.
Qed.
End Both.

(** *** All the links *)

Section Step.
Context (d : db) (old new : Z) (o : Object) (Ht : tree_ok d) (Hc : links_ok contents_links d).
Context (Ho : objects d !! old = Some o) (Hfree : objects d !! new = None) (Hnew : 0 <= new) (Hloc : o_location o <> old).
Notation ren := (ren old new).
Let d1 := with_objects (fun m => delete old (<[new := set_id new o]> m)) d.

Lemma step_ne : new <> old.
Proof. intros ->. by rewrite Hfree in Ho. Qed.
Lemma step_field {A} (g : Object -> A) x : (forall z o, g (set_id z o) = g o) -> x <> new -> g <$> objects d1 !! ren x = g <$> objects d !! x.
Proof.
  intros Hg Hx. pose proof step_ne as Hne. unfold d1. cbn [objects with_objects]. destruct (decide (x = old)) as [->|Hxo].
  - rewrite ren_old, lookup_delete_ne, lookup_insert_eq, Ho by done. cbn. by rewrite Hg.
  - rewrite ren_ne, lookup_delete_ne, lookup_insert_ne by done. done.
Qed.
Lemma step_dom y : is_Some (objects d1 !! y) <-> exists x, y = ren x /\ is_Some (objects d !! x).
Proof.
  pose proof step_ne as Hne. unfold d1. cbn [objects with_objects]. split.
  - intros Hy. destruct (decide (y = old)) as [->|Hyo]; [rewrite lookup_delete_eq in Hy; by destruct Hy|].
    rewrite lookup_delete_ne in Hy by done. destruct (decide (y = new)) as [->|Hyn]; [exists old; rewrite ren_old; split; [done|by eexists]|].
    rewrite lookup_insert_ne in Hy by done. exists y. by rewrite ren_ne.
  - intros (x & -> & Hx). assert (x <> new) by (intros ->; rewrite Hfree in Hx; by destruct Hx). destruct (decide (x = old)) as [->|Hxo].
    + rewrite ren_old, lookup_delete_ne, lookup_insert_eq by done. by eexists.
    + by rewrite ren_ne, lookup_delete_ne, lookup_insert_ne.
Qed.
Lemma step_id y o1 : objects d1 !! y = Some o1 -> o_id o1 = y.
Proof.
  pose proof step_ne as Hne. destruct Ht as ((_ & _ & Hid) & _). unfold d1. cbn [objects with_objects]. intros H. apply lookup_delete_Some in H as [_ H].
  apply lookup_insert_Some in H as [[<- <-]|[_ H]]; [by destruct o|by apply Hid].
Qed.
Lemma step_fuel : ll_fuel d1 = ll_fuel d.
Proof.
  pose proof step_ne as Hne. unfold ll_fuel, d1. cbn [objects with_objects]. f_equal.
  assert (H1 : is_Some (<[new:=set_id new o]> (objects d) !! old)) by (rewrite lookup_insert_ne by done; by eexists).
  rewrite map_size_delete_Some by done. rewrite map_size_insert_None by done. done.
Qed.
Lemma step_parent : o_parent o <> old.
Proof.
  intros E. apply (child_not_above d Ht old o Ho); rewrite E; [by eexists|]. apply (below_refl d Ht). by eexists.
Qed.

Lemma step_gone : objects d1 !! old = None.
Proof. unfold d1. cbn [objects with_objects]. apply lookup_delete_eq. Qed.

(** The repair of both hierarchies succeeds, and nothing refers to [old]. *)
Lemma links_step : exists d2 d3 d4 d5,
  relink children_links d1 (o_parent o) old new = Some d2 /\ redirect children_links (ll_fuel d2) d2 (o_child o) new = Some d3 /\
  relink contents_links d3 (o_location o) old new = Some d4 /\ redirect contents_links (ll_fuel d4) d4 (o_contents o) new = Some d5 /\
  renamed old new id d d5 /\ all_users d5 = all_users d.
Proof.
  pose proof Ht as (_ & Hl & _). assert (HnN : new <> NOTHING) by (unfold NOTHING; lia). pose proof step_ne as Hne.
  destruct (relink_redirect children_links d d1 old new o) as (d2 & d3 & E2 & E3 & R3 & Hh3 & Hn3 & Hu3); try done.
  { apply step_parent. } { apply step_gone. } { intros x Hx. by apply step_field; [intros ? []|]. } { intros x Hx. by apply step_field; [intros ? []|]. }
  { intros x Hx. by apply step_field; [intros ? []|]. } { apply step_fuel. }
  assert (A3 : forall A (g : Object -> A), (forall z o, g (set_child z o) = g o) -> (forall z o, g (set_sibling z o) = g o) ->
    (forall z o, g (set_parent z o) = g o) -> agree g d1 d3) by (intros A g H1 H2 H3; by apply R3).
  assert (D3 : forall y, is_Some (objects d3 !! y) <-> is_Some (objects d1 !! y)) by (intros y; apply (agree_dom (fun _ => tt)); by apply A3).
  assert (F3 : forall A (g : Object -> A) x, (forall z o, g (set_id z o) = g o) -> (forall z o, g (set_child z o) = g o) ->
    (forall z o, g (set_sibling z o) = g o) -> (forall z o, g (set_parent z o) = g o) -> x <> new -> g <$> objects d3 !! ren x = g <$> objects d !! x).
  { intros A g x H1 H2 H3 H4 Hx. rewrite (A3 A g H2 H3 H4). by apply step_field. }
  destruct (relink_redirect contents_links d d3 old new o) as (d4 & d5 & E4 & E5 & R5 & Hh5 & Hn5 & Hu5); try done.
  { apply eq_None_not_Some. rewrite D3, step_gone. by intros [? ?]. } { intros x Hx. by apply F3; [intros ? []..|]. } { intros x Hx. by apply F3; [intros ? []..|]. }
  { intros x Hx. by apply F3; [intros ? []..|]. } { rewrite <- step_fuel. apply (agree_fuel (fun _ => tt)). by apply A3. }
  exists d2, d3, d4, d5. do 4 (split; [done|]).
  assert (A5 : forall A (g : Object -> A), (forall z o, g (set_contents z o) = g o) -> (forall z o, g (set_next z o) = g o) ->
    (forall z o, g (set_location z o) = g o) -> agree g d3 d5) by (intros A g H1 H2 H3; by apply R5).
  assert (D5 : forall y, is_Some (objects d5 !! y) <-> exists x, y = ren x /\ is_Some (objects d !! x)).
  { intros y. rewrite <- step_dom, <- D3. apply (agree_dom (fun _ => tt)). by apply A5. }
  assert (D3' : forall y, is_Some (objects d3 !! y) <-> exists x, y = ren x /\ is_Some (objects d !! x)) by (intros y; by rewrite D3, step_dom).
  assert (M3 : forall q, members children_links d5 q = members children_links d3 q) by (intros q; apply members_agree; apply A5; by intros ? []).
  destruct R3 as [[m3 E6] _], R5 as [[m5 E7] _]. split; [|by rewrite E7, E6]. split.
  - exact D5.
  - intros y oy Hy. assert (E : o_id <$> objects d5 !! y = o_id <$> objects d1 !! y) by (rewrite (A5 _ o_id) by (by intros ? []); apply A3; by intros ? []).
    rewrite Hy in E. destruct (objects d1 !! y) as [o1|] eqn:E1; [|done]. injection E as ->. by apply step_id.
  - intros x Hx. rewrite <- Hu3 by done. unfold upf. apply A5; by intros ? [].
  - exact Hu5.
  - intros q l El. rewrite M3. by eapply renamed_members.
  - intros q l El. by eapply renamed_members.
  - apply (links_agree children_links d3); [apply A5; by intros ? []..|]. by eapply renamed_links.
  - by eapply renamed_links.
  - intros A g x Hg Hx. rewrite (A5 A g) by (intros; apply Hg). apply F3; [intros; apply Hg..|done].
  - by rewrite E7, E6.
  - by rewrite E7, E6.
  - by rewrite E7, E6.
  - by rewrite E7, E6.
Qed.
End Step.

(** *** Hierarchy and properties *)

(** The tables fit together again when the objects were renamed by [r]. *)
Lemma props_transfer (r : Z -> Z) d d' : tree_ok d' -> (forall y, is_Some (objects d' !! y) -> exists x, y = r x /\ is_Some (objects d !! x)) ->
  (forall x l, is_Some (objects d !! x) -> ancestors d x = Some l -> ancestors d' (r x) = Some (r <$> l)) ->
  (forall x, is_Some (objects d !! x) -> o_propdefs <$> objects d' !! r x = o_propdefs <$> objects d !! x) ->
  (forall x, is_Some (objects d !! x) -> (fun o => pv_var <$> o_propval o) <$> objects d' !! r x = (fun o => pv_var <$> o_propval o) <$> objects d !! x) ->
  props_ok d -> props_ok d'.
Proof.
  intros Ht' Hdom Han Hd Hv [Ht H1 H2 H3 H4].
  assert (Hobj : forall y o', objects d' !! y = Some o' -> exists x o, y = r x /\ objects d !! x = Some o /\
    o_propdefs o' = o_propdefs o /\ pv_var <$> o_propval o' = pv_var <$> o_propval o).
  { intros y o' Ho'. destruct (Hdom y) as (x & -> & o & Ho); [by eexists|]. specialize (Hd x). specialize (Hv x). rewrite Ho, Ho' in Hd, Hv.
    exists x, o. split; [done|]. split; [done|]. injection Hd as ->; [|by eexists]. injection Hv as ->; [done|by eexists]. }
  assert (Hown : forall a, is_Some (objects d !! a) -> own d' (r a) = own d a).
  { intros a Ha. specialize (Hd a Ha). unfold own. destruct (objects d' !! r a), (objects d !! a); cbn in Hd; try done. by injection Hd as ->. }
  assert (Hk : forall l, (forall a, a ∈ l -> is_Some (objects d !! a)) -> key_name <$> keys d' (r <$> l) = key_name <$> keys d l).
  { induction l as [|a l IH]; intros Hl; [done|]. rewrite fmap_cons, !keys_cons, !fmap_app, IH by (intros; apply Hl; by right).
    f_equal. rewrite Hown by (apply Hl; by left). rewrite <- !list_fmap_compose. done. }
  assert (Hanc : forall y l, ancestors d' y = Some l -> l = [] \/ exists x l0, y = r x /\ is_Some (objects d !! x) /\ ancestors d x = Some l0 /\ l = r <$> l0 /\
    key_name <$> keys d' l = key_name <$> keys d l0).
  { intros y l El. destruct l as [|a l]; [by left|]. right. assert (Hy : is_Some (objects d' !! y)).
    { destruct (decide (y = NOTHING)) as [->|Hn]; [by rewrite ancestors_NOTHING in El|]. destruct (ancestors_head _ _ _ El Hn) as [l' E].
      eapply ancestors_valid; [exact El|]. rewrite E. by left. }
    destruct (Hdom y Hy) as (x & -> & Hx). destruct (tree_ancestors d Ht x Hx) as [l0 E0]. exists x, (x :: l0). rewrite (Han x _ Hx E0) in El. injection El as <- <-.
    do 4 (split; [done|]). apply (Hk (x :: l0)). intros b Hb. by eapply ancestors_valid. }
  split; [done|..].
  - intros y o' (x & o & -> & Ho & -> & _)%Hobj. by eapply H1.
  - intros y o' l Ho' El. destruct (Hobj y o' Ho') as (x & o & -> & Ho & _ & Ev). assert (Hx : is_Some (objects d !! x)) by (by eexists).
    destruct (tree_ancestors d Ht x Hx) as [l0 E0]. rewrite (Han x _ Hx E0) in El. injection El as <-. apply (f_equal length) in Ev. rewrite !length_fmap in Ev. rewrite Ev.
    rewrite (H2 x o _ Ho E0). assert (Hl : forall a, a ∈ x :: l0 -> is_Some (objects d !! a)) by (intros a Ha; by eapply ancestors_valid).
    pose proof (f_equal length (Hk _ Hl)) as E. rewrite !length_fmap in E. done.
  - intros y o' i pv (x & o & -> & Ho & -> & Ev)%Hobj Hi Hpv. assert (E : (pv_var <$> o_propval o') !! i = Some (pv_var pv)) by (by rewrite list_lookup_fmap, Hpv).
    rewrite Ev, list_lookup_fmap in E. destruct (o_propval o !! i) as [pv0|] eqn:E0; [|done]. injection E as <-. by apply (H3 x o i pv0).
  - intros y l El. destruct (Hanc y l El) as [->|(x & l0 & -> & _ & E0 & _ & ->)]; [constructor|by apply (H4 x)].
Qed.

Lemma table_room_ren old new d d' f : table_ok d -> objects d !! new = None -> 0 <= new < old -> is_Some (objects d !! old) -> renamed old new f d d' -> table_ok d'.
Proof.
  intros (H1 & H2 & H3) Hfree Hnew [oo Hoo] R. destruct (H3 old oo Hoo) as [? _]. split; [by rewrite (rn_num _ _ _ _ _ R), (rn_max _ _ _ _ _ R)|].
  split; [by rewrite (rn_max _ _ _ _ _ R)|]. intros y o Hy. split; [|by apply (rn_id _ _ _ _ _ R)]. rewrite (rn_num _ _ _ _ _ R).
  assert (Hs : is_Some (objects d' !! y)) by (by eexists). apply (rn_dom _ _ _ _ _ R) in Hs as (x & -> & ox & Hx).
  unfold ren. destruct (Z.eqb_spec x old); [lia|]. by destruct (H3 x ox Hx).
Qed.

Section Transfer.
Context (old new : Z) (f : Object -> Object) (d d' : db) (Hp : props_ok d) (Hfree : objects d !! new = None) (Hnew : 0 <= new < old).
Context (Hold : is_Some (objects d !! old)) (R : renamed old new f d d').
Context (Hfd : forall o, o_propdefs (f o) = o_propdefs o) (Hfv : forall o, pv_var <$> o_propval (f o) = pv_var <$> o_propval o).

Lemma renamed_valid x : is_Some (objects d !! x) -> x <> new.
Proof. intros [o Ho] E. by rewrite E, Hfree in Ho. Qed.

Lemma renamed_ancestors x l : ancestors d x = Some l -> ancestors d' (ren old new x) = Some (ren old new <$> l).
Proof.
  intros El. assert (Hv : forall y, y ∈ l -> is_Some (objects d !! y)) by (intros y Hy; by eapply ancestors_valid). apply ancestors_chain in El.
  apply ancestors_chain. apply chain_ren with (nx := upf children_links d); [unfold NOTHING; lia|unfold NOTHING; lia| |done].
  intros y Hy. apply (rn_parent _ _ _ _ _ R). by apply renamed_valid, Hv.
Qed.

Lemma renamed_props : props_ok d'.
Proof.
  pose proof (po_tree d Hp) as Ht. pose proof Ht as (Htab & _). assert (Hdom : forall y, is_Some (objects d' !! y) -> exists x, y = ren old new x /\ is_Some (objects d !! x)) by (intros y; apply (rn_dom _ _ _ _ _ R)).
  apply (props_transfer (ren old new) d); [|exact Hdom|intros x l _; apply renamed_ancestors|..|exact Hp].
  - split; [by apply (table_room_ren old new d d' f)|]. split; [apply R|]. intros y (x & -> & Hx)%Hdom. destruct (tree_ancestors d Ht x Hx) as [l El].
    rewrite (renamed_ancestors x _ El). by eexists.
  - intros x Hx. rewrite (rn_fields _ _ _ _ _ R o_propdefs) by (by intros ? [] || by apply renamed_valid). apply option_fmap_ext. intros o. apply Hfd.
  - intros x Hx. rewrite (rn_fields _ _ _ _ _ R (fun o => pv_var <$> o_propval o)) by (by intros ? [] || by apply renamed_valid). apply option_fmap_ext. intros o. apply Hfv.
Qed.
End Transfer.

(** *** Owners *)

Lemma reowned_field {A} (g : Object -> A) old new o : (forall l o, g (set_propval l o) = g o) -> (forall l o, g (set_verbdefs l o) = g o) ->
  (forall z o, g (set_owner z o) = g o) -> g (reowned old new o) = g o.
Proof. intros H1 H2 H3. unfold reowned. by rewrite H1, H2, H3. Qed.
Lemma reowned_vars old new o : pv_var <$> o_propval (reowned old new o) = pv_var <$> o_propval o.
Proof. destruct o; cbn. rewrite <- list_fmap_compose. done. Qed.
Lemma reowned_addrs old new o : v_addr <$> o_verbdefs (reowned old new o) = v_addr <$> o_verbdefs o.
Proof. destruct o; cbn. rewrite <- list_fmap_compose. done. Qed.

Lemma reowned_unlinked {A} (g : Object -> A) old new : unlinked g -> unlinked (fun o => g (reowned old new o)).
Proof. intros Hg z o. specialize (Hg z (reowned old new o)). destruct o. exact Hg. Qed.

Lemma renumber_owners_spec d old new x o : props_ok d -> objects d !! x = Some o ->
  exists d', renumber_owners d old new x = Some d' /\ d' = with_objects (<[x := reowned old new o]>) d /\ props_ok d'.
Proof.
  intros Hp Ho. pose proof (po_tree d Hp) as Ht. destruct (tree_ancestors d Ht x) as [l El]; [by eexists|].
  unfold renumber_owners. rewrite Ho, (count_properties_spec d x _ Ht El). cbn [mbind option_bind].
  rewrite slots_spec by (try lia; by rewrite (po_len d Hp x o _ Ho El)). rewrite Nat2Z.id, <- (po_len d Hp x o _ Ho El). cbn [mbind option_bind Z.to_nat drop].
  rewrite firstn_all. unfold update. rewrite Ho. cbn [mbind option_bind]. eexists. split; [reflexivity|]. split; [done|].
  set (d' := with_objects _ d).
  assert (Hg : forall A (g : Object -> A), g (reowned old new o) = g o -> agree g d d').
  { intros A g Hg y. unfold d'. cbn [objects with_objects]. destruct (decide (y = x)) as [->|]; [rewrite lookup_insert_eq, Ho; cbn; by rewrite <- Hg|by rewrite lookup_insert_ne]. }
  assert (Hg3 : forall A (g : Object -> A), (forall l o, g (set_propval l o) = g o) -> (forall l o, g (set_verbdefs l o) = g o) ->
    (forall z o, g (set_owner z o) = g o) -> agree g d d') by (intros; apply Hg; by apply reowned_field).
  apply (props_transfer (fun y => y) d); [|..|exact Hp].
  - apply (tree_agree d); [apply Hg3; by intros ? []..|done|done|done].
  - intros y Hy. exists y. split; [done|]. apply (agree_dom (fun _ => tt) d d'); [by apply Hg|done].
  - intros y l' _ E. rewrite list_fmap_id. rewrite <- E. apply ancestors_agree. apply Hg3; by intros ? [].
  - intros y _. apply Hg3; by intros ? [].
  - intros y _. apply Hg. apply reowned_vars.
Qed.

Lemma owners_loop_spec old new fuel : forall d x, props_ok d -> (Z.to_nat (num_objects d - x) < fuel)%nat ->
  exists d', owners_loop fuel d old new x = Some d' /\ (exists m, d' = with_objects (fun _ => m) d) /\ props_ok d' /\
    forall y, objects d' !! y = (if decide (x <= y) then reowned old new else id) <$> objects d !! y.
Proof.
  induction fuel as [|fuel IH]; intros d x Hp Hf; [lia|]. cbn [owners_loop]. pose proof (po_tree d Hp) as ((Hn & _ & Hid) & _).
  destruct (Z.ltb_spec x (num_objects d)) as [Hx|Hx].
  2: { exists d. split; [done|]. split; [exists (objects d); by destruct d|]. split; [done|]. intros y. destruct (objects d !! y) as [o|] eqn:E; [|done].
       destruct (Hid y o E). by rewrite decide_False by lia. }
  assert (G : forall d1, num_objects d1 = num_objects d -> props_ok d1 -> (exists m, d1 = with_objects (fun _ => m) d) ->
    (forall y, objects d1 !! y = (if decide (y = x) then reowned old new else id) <$> objects d !! y) ->
    exists d', owners_loop fuel d1 old new (x + 1) = Some d' /\ (exists m, d' = with_objects (fun _ => m) d) /\ props_ok d' /\
      forall y, objects d' !! y = (if decide (x <= y) then reowned old new else id) <$> objects d !! y).
  { intros d1 En Hp1 [m1 E1] Hy1. destruct (IH d1 (x + 1) Hp1) as (d' & E & [m Em] & Hp' & Hy); [rewrite En; lia|]. exists d'. split; [exact E|].
    split; [exists m; by rewrite Em, E1|]. split; [done|]. intros y. rewrite Hy, Hy1. destruct (objects d !! y) as [o|]; [|done]. cbn. f_equal.
    destruct (decide (y = x)); [rewrite decide_False by lia; rewrite decide_True by lia; done|]. destruct (decide (x + 1 <= y)); [by rewrite decide_True by lia|by rewrite decide_False by lia]. }
  destruct (objects d !! x) as [o|] eqn:Ho.
  - destruct (renumber_owners_spec d old new x o Hp Ho) as (d1 & -> & -> & Hp1). cbn [mbind option_bind]. apply G; [done|done|by eexists|].
    intros y. cbn [objects with_objects]. destruct (decide (y = x)) as [->|]; [by rewrite lookup_insert_eq, Ho|rewrite lookup_insert_ne by done; by destruct (objects d !! y)].
  - unfold renumber_owners. rewrite Ho. cbn [mbind option_bind]. apply G; [done|done|exists (objects d); by destruct d|].
    intros y. destruct (decide (y = x)) as [->|]; [by rewrite Ho|by destruct (objects d !! y)].
Qed.

(** *** Users, and the free number *)

Lemma find_free_spec d old fuel : forall n, Z.to_nat (old - n) = fuel -> n <= old ->
  match find_free fuel d n old with
  | Some new => n <= new < old /\ objects d !! new = None /\ forall x, n <= x < new -> is_Some (objects d !! x)
  | None => forall x, n <= x < old -> is_Some (objects d !! x)
  end.
Proof.
  induction fuel as [|fuel IH]; intros n Hf Hn; cbn [find_free]; [intros x ?; lia|]. destruct (Z.ltb_spec n old); [|lia].
  destruct (objects d !! n) as [o|] eqn:E; [|split; [lia|split; [done|intros; lia]]]. specialize (IH (n + 1) ltac:(lia) ltac:(lia)).
  assert (G : forall x, n <= x -> x = n \/ n + 1 <= x) by lia. destruct (find_free fuel d (n + 1) old) as [new|].
  - destruct IH as (H1 & H2 & H3). split; [lia|]. split; [done|]. intros x Hx. destruct (G x ltac:(lia)) as [->|]; [by eexists|apply H3; lia].
  - intros x Hx. destruct (G x ltac:(lia)) as [->|]; [by eexists|apply IH; lia].
Qed.

Lemma renumber_user_spec old new (us : list Z) : NoDup us -> renumber_user (VObj <$> us) old new = VObj <$> (ren old new <$> us).
Proof.
  induction 1 as [|x us Hx Hd IH]; [done|]. rewrite !fmap_cons. cbn [renumber_user]. destruct (Z.eqb_spec x old) as [->|].
  - by rewrite ren_old, (ren_list old new us Hx).
  - by rewrite IH, ren_ne.
Qed.

(** *** The whole *)

(** Renumbering succeeds; the object has the lowest free number, if that is
    less than its own; and everything refers to it as it did before. *)
Lemma db_renumber_object_spec d old o : db_ok d -> objects d !! old = Some o -> o_location o <> old ->
  exists d' new, db_renumber_object d old = Some (d', new) /\ db_ok d' /\ 0 <= new <= old /\ (forall x, 0 <= x < new -> is_Some (objects d !! x)) /\
    (new = old -> d' = db_priv_affected_callable_verb_lookup d) /\
    (new <> old -> objects d !! new = None /\ renamed old new (reowned old new) (db_priv_affected_callable_verb_lookup d) d' /\
      exists us, all_users d = VObj <$> us /\ all_users d' = VObj <$> (ren old new <$> us)).
Proof.
  intros [Hp0 Hc0 Hu0] Ho0 Hloc. destruct (flush_vcache d) as [c Ec]. unfold db_renumber_object. rewrite Ec. set (d0 := with_vcache c d).
  assert (Hp : props_ok d0) by (by destruct Hp0; split). assert (Hc : links_ok contents_links d0) by exact Hc0. assert (Hu : users_ok d0) by exact Hu0.
  assert (Ho : objects d0 !! old = Some o) by exact Ho0. change (objects d) with (objects d0). change (all_users d) with (all_users d0).
  clearbody d0. clear Ec Hp0 Hc0 Hu0 Ho0 d c. rename d0 into d. pose proof (po_tree d Hp) as Ht. pose proof Ht as (Htab & _).
  pose proof Htab as (_ & _ & Hid). destruct (Hid old o Ho) as [Hr _].
  pose proof (find_free_spec d old (Z.to_nat old) 0 ltac:(lia) ltac:(lia)) as Hff. destruct (find_free (Z.to_nat old) d 0 old) as [new|].
  2: { exists d, old. split; [done|]. split; [done|]. split; [lia|]. split; [exact Hff|]. split; [done|]. by intros []. }
  destruct Hff as (Hnew & Hfree & Hbelow). rewrite Ho. cbn [mbind option_bind].
  destruct (links_step d old new o Ht Hc Ho Hfree ltac:(lia) Hloc) as (d2 & d3 & d4 & d5 & E2 & E3 & E4 & E5 & R & Eu).
  cbv zeta in E2. rewrite E2. cbn [mbind option_bind]. rewrite E3. cbn [mbind option_bind]. rewrite E4. cbn [mbind option_bind]. rewrite E5. cbn [mbind option_bind].
  assert (Hov : is_Some (objects d !! old)) by (by eexists).
  assert (Hp5 : props_ok d5) by (by apply (renamed_props old new id d)). pose proof (po_tree d5 Hp5) as (Htab5 & _).
  assert (Hus : forall x, x <> new -> is_user d5 (ren old new x) = is_user d x).
  { intros x Hx. unfold is_user, valid_with_flag. rewrite !find_object_objects by done.
    pose proof (rn_fields _ _ _ _ _ R (fun o => has_flag o FLAG_USER) x ltac:(by intros ? []) Hx) as E. destruct (objects d5 !! ren old new x), (objects d !! x); cbn in E; congruence. }
  destruct Hu as (us & Eus & Hnd & Hin). assert (Hnu : new ∉ us).
  { rewrite Hin. unfold is_user, valid_with_flag. rewrite find_object_objects by done. by rewrite Hfree. }
  set (d6 := if is_user d5 new then _ else d5).
  assert (E6 : d6 = with_users (VObj <$> (ren old new <$> us)) d5).
  { unfold d6. rewrite <- (ren_old old new), (Hus old) by lia. rewrite Eu, Eus. destruct (is_user d old) eqn:E.
    - rewrite ren_old. by rewrite renumber_user_spec.
    - rewrite ren_list by (intros Ho'; apply Hin in Ho'; congruence). rewrite <- Eus, <- Eu; by destruct d5. }
  clearbody d6. subst d6. set (d6 := with_users _ d5). assert (Hp6 : props_ok d6) by (by destruct Hp5; split).
  destruct (owners_loop_spec old new (S (Z.to_nat (num_objects d6))) d6 0 Hp6) as (d' & E7 & [m Em] & Hp' & Hy); [lia|].
  rewrite E7. cbn [mbind option_bind]. exists d', new. split; [done|].
  assert (Hy' : forall y, objects d' !! y = reowned old new <$> objects d5 !! y).
  { intros y. rewrite Hy. change (objects d6) with (objects d5). destruct (objects d5 !! y) as [oy|] eqn:E; [|done].
    pose proof Htab5 as (_ & _ & Hid5). destruct (Hid5 y oy E). by rewrite decide_True by lia. }
  assert (Hag : forall A (g : Object -> A), (forall l o, g (set_propval l o) = g o) -> (forall l o, g (set_verbdefs l o) = g o) ->
    (forall z o, g (set_owner z o) = g o) -> agree g d5 d').
  { intros A g H1 H2 H3 y. rewrite Hy'. destruct (objects d5 !! y); [|done]. cbn. by rewrite reowned_field. }
  assert (Hmem : forall L q, L = children_links \/ L = contents_links -> members L d' q = members L d5 q).
  { intros L q HL. apply members_agree; apply Hag; destruct HL as [->| ->]; by intros ? []. }
  assert (Hlk : forall L, L = children_links \/ L = contents_links -> links_ok L d5 -> links_ok L d').
  { intros L HL. apply links_agree; apply Hag; destruct HL as [->| ->]; by intros ? []. }
  assert (R' : renamed old new (reowned old new) d d').
  { split.
    - intros y. rewrite <- (rn_dom _ _ _ _ _ R). apply (agree_dom (fun _ => tt)). by apply Hag.
    - intros y oy E. rewrite Hy' in E. destruct (objects d5 !! y) as [o5|] eqn:E1; [|done]. injection E as <-. rewrite (reowned_field o_id) by (by intros ? []). by apply (rn_id _ _ _ _ _ R).
    - intros x Hx. rewrite <- (rn_parent _ _ _ _ _ R x Hx). apply Hag; by intros ? [].
    - intros x Hx. rewrite <- (rn_location _ _ _ _ _ R x Hx). apply Hag; by intros ? [].
    - intros q l El. rewrite Hmem by (by left). by apply (rn_children _ _ _ _ _ R).
    - intros q l El. rewrite Hmem by (by right). by apply (rn_contents _ _ _ _ _ R).
    - apply Hlk; [by left|apply R].
    - apply Hlk; [by right|apply R].
    - intros A g x Hg Hx. rewrite Hy', <- option_fmap_compose. rewrite (rn_fields _ _ _ _ _ R (g ∘ reowned old new) x); [done| |done].
      by apply reowned_unlinked.
    - rewrite Em. apply R.
    - rewrite Em. apply R.
    - rewrite Em. apply R.
    - rewrite Em. apply R. }
  split; [|split; [lia|split; [exact Hbelow|split; [lia|]]]].
  - split; [done|apply R'|]. exists (ren old new <$> us). split; [by rewrite Em|]. assert (Hnv : forall x, x ∈ us -> x <> new) by (by intros x Hx ->). split.
    + apply NoDup_fmap_2_strong; [|done]. intros x y Hx Hy1. by apply ren_inj; apply Hnv.
    + assert (Hus' : forall y, is_user d' y = is_user d5 y).
      { intros y. unfold is_user, valid_with_flag. rewrite !find_object_objects by (done || apply Hp'). rewrite Hy'. destruct (objects d5 !! y) as [[]|]; reflexivity. }
      intros y. rewrite Hus'. split.
      * intros (x & -> & Hx)%list_elem_of_fmap. rewrite Hus by (by apply Hnv). by apply Hin.
      * intros Hy1. assert (Hv : is_Some (objects d5 !! y)). { unfold is_user, valid_with_flag in Hy1. rewrite find_object_objects in Hy1 by done. destruct (objects d5 !! y); [by eexists|done]. }
        apply (rn_dom _ _ _ _ _ R) in Hv as (x & -> & Hx). assert (x <> new) by (intros ->; rewrite Hfree in Hx; by destruct Hx).
        rewrite Hus in Hy1 by done. apply list_elem_of_fmap. exists x. split; [done|]. by apply Hin.
  - intros _. split; [done|]. split; [done|]. exists us. split; [done|]. by rewrite Em.
Qed.
