(* ===== verification/Database.v ===== *)
(** * The database as a state machine

    The operations of db_objects.c, db_properties.c and db_verbs.c as one step
    function, and the invariant they keep: the hierarchy, the contents lists,
    the property tables, the list of users, the verb lists and the verb cache
    stay well formed together, and no operation that is called as its
    documentation asks fails, panics or runs on for ever. *)

From S2P Require Import Prelude Utf CString Values Streams Functions Lists Db Links Hierarchy Attributes Words Preps Verbs Properties PropView PropChange ChangeParent Objects Renumber.

(** ** Definitions *)

Inductive db_op :=
| OpCreate (junk : Object)
| OpRecycled
| OpReset
| OpDestroy (oid : Z)
| OpName (oid : Z) (name : bytes)
| OpOwner (oid owner : Z)
| OpMove (oid location : Z)
| OpSetFlag (sole : bool) (oid f : Z)
| OpClearFlag (oid f : Z)
| OpParent (oid parent : Z)
| OpAddProp (oid : Z) (name : bytes) (value : Var) (owner flags : Z)
| OpDeleteProp (oid : Z) (name : bytes)
| OpRenameProp (oid : Z) (old new : bytes)
| OpPropValue (oid : Z) (name : bytes) (value : Var)
| OpPropOwner (oid : Z) (name : bytes) (owner : Z)
| OpPropFlags (oid : Z) (name : bytes) (flags : Z)
| OpAddVerb (oid : Z) (names : bytes) (owner flags dobj prep iobj : Z)
| OpDeleteVerb (h : handle)
| OpVerbNames (h : handle) (names : bytes)
| OpVerbOwner (h : handle) (owner : Z)
| OpVerbFlags (h : handle) (flags : Z)
| OpVerbProgram (h : handle) (program : option Program)
| OpVerbArgs (h : handle) (dobj prep iobj : Z)
| OpFindVerb (same : Verbdef -> bool) (oid : Z) (word : bytes)
| OpRenumber (oid : Z)
| OpSetUsers (users : list Var).

Definition exec (op : db_op) (d : db) : option db :=
  match op with
  | OpCreate junk => fst <$> db_create_object junk d
  | OpRecycled => dbpriv_new_recycled_object d
  | OpReset => db_reset_last_used_objid d
  | OpDestroy oid => db_destroy_object d oid
  | OpName oid name => db_set_object_name d oid name
  | OpOwner oid owner => db_set_object_owner d oid owner
  | OpMove oid location => db_change_location d oid location
  | OpSetFlag sole oid f => db_set_object_flag sole d oid f
  | OpClearFlag oid f => db_clear_object_flag d oid f
  | OpParent oid parent => fst <$> db_change_parent d oid parent
  | OpAddProp oid name value owner flags => fst <$> db_add_propdef d oid name value owner flags
  | OpDeleteProp oid name => fst <$> db_delete_propdef d oid name
  | OpRenameProp oid old new => fst <$> db_rename_propdef d oid old new
  | OpPropValue oid name value => '(h, _) ← db_find_property d oid name false; db_set_property_value d h value
  | OpPropOwner oid name owner => '(h, _) ← db_find_property d oid name false; db_set_property_owner d h owner
  | OpPropFlags oid name flags => '(h, _) ← db_find_property d oid name false; db_set_property_flags d h flags
  | OpAddVerb oid names owner flags dobj prep iobj => fst <$> db_add_verb d oid names owner flags dobj prep iobj
  | OpDeleteVerb h => db_delete_verb d (Some h)
  | OpVerbNames h names => db_set_verb_names d (Some h) names
  | OpVerbOwner h owner => db_set_verb_owner d (Some h) owner
  | OpVerbFlags h flags => db_set_verb_flags d (Some h) flags
  | OpVerbProgram h program => db_set_verb_program d (Some h) program
  | OpVerbArgs h dobj prep iobj => db_set_verb_arg_specs d (Some h) dobj prep iobj
  | OpFindVerb same oid word => fst <$> db_find_callable_verb same d oid word
  | OpRenumber oid => fst <$> db_renumber_object d oid
  | OpSetUsers users => Some (dbpriv_set_all_users d users)
  end.

(** A property that is not built in, found on an object. *)
Definition has_prop (d : db) (oid : Z) (name : bytes) (ok : Z -> Prop) : Prop :=
  valid d oid = true /\ cstr name /\ ~ builtin_name (casefold name) /\
  exists a pv, prop_lookup d oid (casefold name) = Some (a, pv) /\ ok a.

(** What the callers of an operation have to see to. *)
Definition pre (op : db_op) (d : db) : Prop :=
  match op with
  | OpCreate _ | OpRecycled => table_room d
  | OpReset => exists x, valid d x = true
  | OpDestroy oid => barren d oid /\ llen (all_users d) < MAX_LIST
  | OpName oid _ | OpOwner oid _ => valid d oid = true
  | OpMove oid location => valid d oid = true /\ (location = NOTHING \/ valid d location = true)
  | OpSetFlag _ oid f | OpClearFlag oid f =>
      valid d oid = true /\ 0 <= f < 16 /\ llen (all_users d) < MAX_LIST
  | OpParent oid parent => valid d oid = true /\ (parent = NOTHING \/ valid d parent = true) /\ ~ below d oid parent
  | OpAddProp oid name value _ _ => cstr name /\ value <> VClear /\
      exists o, objects d !! oid = Some o /\ 2 * pl_max_length (o_propdefs o) <= INT32_MAX
  | OpDeleteProp oid name => valid d oid = true /\ cstr name
  | OpRenameProp oid old new => valid d oid = true /\ cstr old /\ cstr new
  | OpPropValue oid name value => has_prop d oid name (fun a => a = oid -> value <> VClear)
  | OpPropOwner oid name _ | OpPropFlags oid name _ => has_prop d oid name (fun _ => True)
  | OpAddVerb oid _ _ _ _ _ _ => exists o, objects d !! oid = Some o /\ Z.of_nat (length (o_verbdefs o)) < INT32_MAX
  | OpDeleteVerb h | OpVerbNames h _ | OpVerbOwner h _ | OpVerbFlags h _ | OpVerbProgram h _ | OpVerbArgs h _ _ _ =>
      is_Some (deref d h)
  | OpFindVerb same oid word => valid d oid = true /\ cstr word /\ (forall v, same v = true -> v_name v = word)
  | OpRenumber oid => valid d oid = true /\ db_object_location d oid <> Some oid
  | OpSetUsers users => users_ok (dbpriv_set_all_users d users)
  end.

(** A database as the server starts with it. *)
Definition empty_db : db := mkDb ∅ 0 0 [] (mkCacheState None 0 0 0 0 0) 1.

(** The databases that come about by the operations. *)
Inductive reachable : db -> Prop :=
| reach_start : reachable empty_db
| reach_step d op d' : reachable d -> pre op d -> exec op d = Some d' -> reachable d'.

(** ** The invariant *)

Record db_inv (d : db) : Prop := {
  inv_ok : db_ok d;
  inv_verbs : verbs_ok d;
  inv_cache : vc_ok d
}.

(** The cache stays right where lookups give the same, and when it is emptied. *)
Lemma vc_ok_ext d d' : vcache d' = vcache d -> (forall x, verbs d x <> [] -> verbs d' x <> []) ->
  (forall w x, x = NOTHING \/ verbs d x <> [] -> first_verb d' (callable w) x = first_verb d (callable w) x) ->
  vc_ok d -> vc_ok d'.
Proof.
  intros E Hv H Hc. unfold vc_ok in *. rewrite E. destruct (vc_table (vcache d)) as [t|]; [|done].
  destruct Hc as [Hs He]. split; [done|]. intros b e Hin. destruct (He b e Hin) as (Hn & Hk & Hh). split; [done|].
  split; [destruct Hk; [by left|right; by apply Hv]|]. intros Hp. by rewrite H, Hh.
Qed.

Lemma agree_verbs d d' : agree o_verbdefs d d' -> forall x, verbs d' x = verbs d x.
Proof.
  intros H x. unfold verbs. specialize (H x). destruct (objects d' !! x), (objects d !! x); simpl in H; congruence.
Qed.

Lemma vc_ok_flushed d d' : vc_ok d -> vcache d' = vcache (db_priv_affected_callable_verb_lookup d) -> vc_ok d'.
Proof.
  intros Hc E. unfold vc_ok in *. rewrite E. unfold db_priv_affected_callable_verb_lookup.
  destruct (vc_table (vcache d)) as [t|] eqn:Et; [|by rewrite Et]. simpl. split; [apply Hc|].
  intros b e. rewrite bucket_empty. intros H. by apply elem_of_nil in H.
Qed.

(** Operations that change neither verbs nor the memory they are in. *)
Lemma verbs_ok_agree d d' : agree o_verbdefs d d' -> next_addr d' = next_addr d -> verbs_ok d -> verbs_ok d'.
Proof.
  intros Ha En Hv x o' Ho'. specialize (Ha x). rewrite Ho' in Ha. destruct (objects d !! x) as [o|] eqn:Ho; [|done].
  injection Ha as ->. rewrite En. by apply (Hv x).
Qed.

(** The tables, users and contents depend on these fields only. *)
Lemma props_agree d d' : agree o_id d d' -> agree o_parent d d' -> agree o_child d d' -> agree o_sibling d d' ->
  agree o_propdefs d d' -> agree o_propval d d' -> num_objects d' = num_objects d -> max_objects d' = max_objects d ->
  props_ok d -> props_ok d'.
Proof.
  intros Hi Hp Hc Hs Hd Hv En Em [Ht H1 H2 H3 H4].
  assert (Hobj : forall x o', objects d' !! x = Some o' -> exists o, objects d !! x = Some o /\
    o_propdefs o' = o_propdefs o /\ o_propval o' = o_propval o).
  { intros x o' Ho'. specialize (Hd x). specialize (Hv x). rewrite Ho' in Hd, Hv.
    destruct (objects d !! x) as [o|]; [|done]. injection Hd as ->. injection Hv as ->. by exists o. }
  assert (Hown : forall y, own d' y = own d y).
  { intros y. unfold own. specialize (Hd y). destruct (objects d' !! y), (objects d !! y); simpl in Hd; congruence. }
  assert (Hk : forall l, keys d' l = keys d l) by (intros; by apply keys_ext).
  assert (Han : forall x, ancestors d' x = ancestors d x) by (intros; by apply ancestors_agree).
  split.
  - by apply (tree_agree d).
  - intros x o' (o & Ho & -> & _)%Hobj. by eapply H1.
  - intros x o' l (o & Ho & _ & ->)%Hobj. rewrite Han, Hk. by apply H2.
  - intros x o' i pv (o & Ho & -> & ->)%Hobj. by apply (H3 x).
  - intros x l. rewrite Han, Hk. apply H4.
Qed.

Lemma users_agree d d' : table_ok d -> table_ok d' -> agree o_flags d d' -> all_users d' = all_users d ->
  users_ok d -> users_ok d'.
Proof.
  intros Ht Ht' Hf Eu (us & E & Hnd & Hus). exists us. split; [congruence|]. split; [done|]. intros x. rewrite Hus.
  rewrite !is_user_flag by done. unfold db_object_has_flag, has_flag. specialize (Hf x).
  destruct (objects d !! x), (objects d' !! x); simpl in *; [|done..]. by injection Hf as ->.
Qed.

(** Operations that keep everything but some fields of some objects: what has
    to be shown is that the fields that matter are the same. *)
Lemma inv_frame d d' : db_inv d -> props_ok d' -> links_ok contents_links d' -> users_ok d' ->
  same_verbs d d' -> next_addr d' = next_addr d -> vcache d' = vcache d -> db_inv d'.
Proof.
  intros [_ Hv Hc] Hp Hl Hu Hs En Ec. split; [done| |].
  - by eapply verbs_ok_agree; [apply Hs| |].
  - apply (vc_ok_ext d); [done| | |done].
    + intros x. by rewrite (agree_verbs d d') by apply Hs.
    + intros. by apply first_verb_same.
Qed.

(** Writing one field of one object. *)
Lemma update_agree {A} (g : Object -> A) x f d d' : update x f d = Some d' -> (forall o, g (f o) = g o) -> agree g d d'.
Proof. intros H Hg y. by eapply update_field. Qed.

Lemma inv_update d x f : db_inv d -> valid d x = true ->
  (forall A (g : Object -> A), (forall z o, g (set_name z o) = g o) -> (forall z o, g (set_owner z o) = g o) -> forall o, g (f o) = g o) ->
  exists d', update x f d = Some d' /\ db_inv d'.
Proof.
  intros Hi Hv Hf. pose proof (inv_ok d Hi) as [Hp Hc Hu]. pose proof (po_tree d Hp) as (Ht & _).
  apply valid_spec in Hv; [|done]. destruct (update_is_Some x f d Hv) as [d' E]. exists d'. split; [done|].
  assert (Ha : forall A (g : Object -> A), (forall z o, g (set_name z o) = g o) -> (forall z o, g (set_owner z o) = g o) -> agree g d d')
    by (intros; eapply update_agree; eauto).
  destruct (update_inv _ _ _ _ E) as (o & _ & Ed).
  assert (Hp' : props_ok d') by (apply (props_agree d); [apply Ha; by intros ? []..|by rewrite Ed|by rewrite Ed|done]).
  apply (inv_frame d); try done.
  - apply (links_agree contents_links d); [apply Ha; by intros ? []..|done].
  - apply (users_agree d); [done|apply Hp'|apply Ha; by intros ? []|by rewrite Ed|done].
  - split; apply Ha; by intros ? [].
  - by rewrite Ed.
  - by rewrite Ed.
Qed.

(** Operations that change property definitions and slots only. *)
Lemma inv_shape d d' : db_inv d -> props_ok d' -> same_shape d d' -> db_inv d'.
Proof.
  intros Hi Hp Hs. pose proof (inv_ok d Hi) as [Hp0 Hc Hu]. pose proof Hs as [[m Em] _].
  assert (Ha : forall A (g : Object -> A), (forall l o, g (set_propval l o) = g o) ->
    (forall p o, g (set_propdefs p o) = g o) -> agree g d d') by (intros; by apply shape_field).
  apply (inv_frame d); try done; try by rewrite Em.
  - apply (links_agree contents_links d); [apply Ha; by intros ? []..|done].
  - apply (users_agree d); [apply Hp0|apply Hp|apply Ha; by intros ? []|by rewrite Em|done].
  - split; apply Ha; by intros ? [].
Qed.

Lemma inv_same d d' : db_inv d -> props_ok d' -> same_but_propval d d' -> db_inv d'.
Proof. intros Hi Hp Hs. by apply (inv_shape d), shape_same. Qed.

(** Operations that change verbs: [vc] is the cache afterwards. *)
Lemma inv_verbs_changed d d' x f : db_inv d -> verbs_ok d' -> vc_ok d' ->
  objects d' = <[x := set_verbdefs f (default (mkObject 0 0 0 0 0 0 0 0 [] 0 [] (mkProplist 0 []) []) (objects d !! x))]> (objects d) ->
  is_Some (objects d !! x) -> num_objects d' = num_objects d -> max_objects d' = max_objects d -> all_users d' = all_users d ->
  db_inv d'.
Proof.
  intros Hi Hv Hc Eo [o Ho] En Em Eu. rewrite Ho in Eo. simpl in Eo.
  pose proof (inv_ok d Hi) as [Hp Hl Hu].
  assert (Ha : forall A (g : Object -> A), (forall l o, g (set_verbdefs l o) = g o) -> agree g d d').
  { intros A g Hg y. rewrite Eo. destruct (decide (y = x)) as [->|]; [|by rewrite lookup_insert_ne].
    rewrite lookup_insert_eq, Ho. simpl. by rewrite Hg. }
  assert (Hp' : props_ok d') by (apply (props_agree d); [apply Ha; by intros ? []..|done|done|done]).
  split; [|done|done]. split; [done| |].
  - apply (links_agree contents_links d); [apply Ha; by intros ? []..|done].
  - apply (users_agree d); [apply Hp|apply Hp'|apply Ha; by intros ? []|done|done].
Qed.

(** ** Verbs *)

(** A write that changes neither name nor permissions: lookups are the same. *)
Lemma first_verb_write d x o a f P y : objects d !! x = Some o -> (forall v, v_addr (f v) = v_addr v) ->
  (forall v, P (f v) = P v) ->
  first_verb (with_objects (<[x := set_verbdefs (write_at a f (o_verbdefs o)) o]>) d) P y = first_verb d P y.
Proof.
  intros Ho Ha HP. set (d' := with_objects _ d).
  assert (Hp : agree o_parent d d').
  { intros z. simpl. destruct (decide (z = x)) as [->|]; [|by rewrite lookup_insert_ne].
    rewrite lookup_insert_eq, Ho. simpl. by destruct o. }
  unfold first_verb. rewrite (ancestors_agree d d') by done. destruct (ancestors d y) as [l|]; [|done]. cbn [mbind option_bind].
  set (G := fun p : Z * Verbdef => if bool_decide (fst p = x) && (v_addr (snd p) =? a) then (fst p, f (snd p)) else p).
  assert (E : all_verbs d' l = G <$> all_verbs d l).
  { unfold all_verbs. induction l as [|z l IH]; [done|]. cbn [mbind list_bind]. rewrite IH, fmap_app. f_equal.
    unfold verbs. simpl. destruct (decide (z = x)) as [->|Hz].
    - rewrite lookup_insert_eq, Ho, get_set_verbdefs. unfold write_at. rewrite <- !list_fmap_compose.
      apply list_fmap_ext. intros i v _. unfold G. simpl. rewrite bool_decide_eq_true_2 by done. simpl. by destruct (_ =? _).
    - rewrite lookup_insert_ne by done. rewrite <- list_fmap_compose. apply list_fmap_ext. intros i v _.
      unfold G. simpl. by rewrite bool_decide_eq_false_2. }
  rewrite E, find_fmap. rewrite (find_ext _ (fun p => P (snd p))).
  - destruct (find _ _) as [[b v]|]; [|done]. simpl. f_equal. unfold G. simpl. destruct (_ && _); [|done].
    unfold to_handle. simpl. by rewrite Ha.
  - intros [b v]. unfold G. simpl. destruct (_ && _); simpl; [apply HP|done].
Qed.

Lemma write_at_addrs a f l : (forall v, v_addr (f v) = v_addr v) -> v_addr <$> write_at a f l = v_addr <$> l.
Proof.
  intros Ha. unfold write_at. rewrite <- list_fmap_compose. apply list_fmap_ext. intros i v _. simpl.
  by destruct (_ =? _).
Qed.

Lemma write_at_addr_bound a f l n : (forall v, v_addr (f v) = v_addr v) ->
  Forall (fun v => v_addr v < n) l -> Forall (fun v => v_addr v < n) (write_at a f l).
Proof.
  intros Ha H. unfold write_at. apply Forall_fmap. eapply Forall_impl; [done|]. intros v Hv. simpl.
  destruct (_ =? _); [by rewrite Ha|done].
Qed.

(** [c]: the cache, flushed or as it was. *)
Lemma inv_write_verb d h f c : db_inv d -> is_Some (deref d h) -> (forall v, v_addr (f v) = v_addr v) ->
  vcache (with_vcache c d) = vcache (db_priv_affected_callable_verb_lookup d) \/
    (c = vcache d /\ forall w v, callable w (f v) = callable w v) ->
  exists d', write_verb (with_vcache c d) h f = Some d' /\ db_inv d'.
Proof.
  intros Hi [v Hd] Ha Hc. destruct (deref_inv _ _ _ Hd) as (o & Ho & _).
  unfold write_verb. change (deref (with_vcache c d) h) with (deref d h). rewrite Hd. cbn [mbind option_bind].
  rewrite (update_Some _ _ _ o) by done. eexists. split; [done|]. set (d' := with_objects _ _).
  assert (Hv : verbs_ok d').
  { intros x ox Hx. simpl in Hx |- *. destruct (decide (x = h_definer h)) as [->|].
    - rewrite lookup_insert_eq in Hx. injection Hx as <-. rewrite get_set_verbdefs, write_at_addrs by done.
      destruct (inv_verbs d Hi _ o Ho) as [? ?]. split; [done|]. by apply write_at_addr_bound.
    - rewrite lookup_insert_ne in Hx by done. by apply (inv_verbs d Hi x). }
  assert (Hvc : vc_ok d').
  { destruct Hc as [Hc|[-> Hc]].
    - apply (vc_ok_flushed d); [apply Hi|done].
    - apply (vc_ok_ext d); [done| | |apply Hi].
      + intros x. unfold verbs. simpl. destruct (decide (x = h_definer h)) as [->|]; [|by rewrite lookup_insert_ne].
        rewrite lookup_insert_eq, Ho, get_set_verbdefs. by destruct (o_verbdefs o).
      + intros w x _. rewrite <- (first_verb_write d (h_definer h) o (h_verbdef h) f _ x) by done. done. }
  apply (inv_verbs_changed d d' (h_definer h) (write_at (h_verbdef h) f (o_verbdefs o))); try done.
  unfold d'. simpl. by rewrite Ho.
Qed.

Lemma flush_vcache_eq d : exists c, db_priv_affected_callable_verb_lookup d = with_vcache c d /\
  vcache (with_vcache c d) = vcache (db_priv_affected_callable_verb_lookup d).
Proof. destruct (flush_vcache d) as [c E]. exists c. by rewrite E. Qed.

(** The setters that empty the cache. *)
Lemma inv_write_flushed d h f : db_inv d -> is_Some (deref d h) -> (forall v, v_addr (f v) = v_addr v) ->
  exists d', write_verb (db_priv_affected_callable_verb_lookup d) h f = Some d' /\ db_inv d'.
Proof.
  intros Hi Hd Ha. destruct (flush_vcache_eq d) as (c & E & Ec). rewrite E. apply inv_write_verb; [done..|]. by left.
Qed.

(** Those that do not. *)
Lemma inv_write_quiet d h f : db_inv d -> is_Some (deref d h) -> (forall v, v_addr (f v) = v_addr v) ->
  (forall w v, callable w (f v) = callable w v) ->
  exists d', write_verb d h f = Some d' /\ db_inv d'.
Proof.
  intros Hi Hd Ha Hc. replace d with (with_vcache (vcache d) d) at 1 by by destruct d.
  apply inv_write_verb; [done..|]. by right.
Qed.

Lemma inv_add_verb d oid o names owner flags dobj prep iobj : db_inv d -> objects d !! oid = Some o ->
  Z.of_nat (length (o_verbdefs o)) < INT32_MAX ->
  exists d' n, db_add_verb d oid names owner flags dobj prep iobj = Some (d', n) /\ db_inv d'.
Proof.
  intros Hi Ho Hlen. pose proof (inv_ok d Hi) as [Hp _ _].
  destruct (add_verb_spec d oid o names owner flags dobj prep iobj) as (d' & v & E & _ & Eo & En & Enum & Em & Eu & Ec & Hv);
    [apply Hp|apply Hi|done|done|].
  exists d'. eexists. split; [done|]. apply (inv_verbs_changed d d' oid (o_verbdefs o ++ [v])); try done.
  - apply (vc_ok_flushed d); [apply Hi|done].
  - by rewrite Eo, Ho.
Qed.

Lemma inv_delete_verb d h : db_inv d -> is_Some (deref d h) ->
  exists d', db_delete_verb d (Some h) = Some d' /\ db_inv d'.
Proof.
  intros Hi [v Hd]. pose proof (inv_ok d Hi) as [Hp _ _].
  destruct (delete_verb_spec d h v) as (d' & o & l1 & l2 & E & Ho & _ & Eo & En & Enum & Em & Eu & Ec & Hv);
    [apply Hp|apply Hi|done|].
  exists d'. split; [done|]. apply (inv_verbs_changed d d' (h_definer h) (l1 ++ l2)); try done.
  - apply (vc_ok_flushed d); [apply Hi|done].
  - by rewrite Eo, Ho.
Qed.

Lemma inv_find_verb d same oid word : db_inv d -> valid d oid = true -> cstr word ->
  (forall v, same v = true -> v_name v = word) ->
  exists d' h, db_find_callable_verb same d oid word = Some (d', h) /\ db_inv d'.
Proof.
  intros Hi Hv Hw Hs. pose proof (inv_ok d Hi) as [Hp Hl Hu]. pose proof (po_tree d Hp) as Ht.
  apply valid_spec in Hv; [|apply Ht]. destruct (tree_ancestors d Ht oid Hv) as [l El].
  destruct (find_callable_spec same d word Hs Ht (inv_cache d Hi) Hw oid ltac:(by eexists)) as (c & h & E & Hc & _).
  exists (with_vcache c d), h. split; [done|]. split; [split; [by apply with_vcache_props|done|done]|apply Hi|done].
Qed.

(** ** Objects *)

Lemma ensure_frame d : exists m, ensure_new_object d = with_table (num_objects d) m d.
Proof.
  unfold ensure_new_object. destruct (max_objects d =? 0); case_match; try by eexists.
  exists (max_objects d). by destruct d.
Qed.

Lemma create_frame junk d d' n : db_create_object junk d = Some (d', n) ->
  vcache d' = vcache d /\ next_addr d' = next_addr d.
Proof.
  unfold db_create_object, dbpriv_new_object. destruct (ensure_frame d) as [m ->].
  destruct (_ <? _); [|done]. cbn [mbind option_bind]. destruct (update _ _ _) as [d1|] eqn:E; [|done].
  apply update_inv in E as (o & _ & ->). intros [= <- _]. done.
Qed.

Lemma inv_create junk d : db_inv d -> table_room d ->
  exists d' n, db_create_object junk d = Some (d', n) /\ db_inv d'.
Proof.
  intros Hi Hr. destruct (db_create_object_spec junk d (inv_ok d Hi) Hr) as (Hx & d' & E & Hok & _ & Eo & _).
  set (x := db_last_used_objid d + 1) in *. exists d', x. split; [done|]. destruct (create_frame _ _ _ _ E) as [Ec Ea].
  pose proof (inv_ok d Hi) as [Hp Hl Hu].
  assert (Hx' : objects d' !! x = Some (fresh_object x junk)) by (rewrite Eo; apply lookup_insert_eq).
  assert (Hother : forall y, y <> x -> objects d' !! y = objects d !! y) by (intros; rewrite Eo; by rewrite lookup_insert_ne).
  split; [done| |].
  - intros y o Hy. rewrite Ea. destruct (decide (y = x)) as [->|]; [|rewrite Hother in Hy by done; by apply (inv_verbs d Hi y)].
    rewrite Hx' in Hy. injection Hy as <-. split; constructor.
  - apply (vc_ok_ext d); [done| | |apply Hi].
    { intros y Hy. unfold verbs in *. destruct (decide (y = x)) as [->|]; [by rewrite Hx in Hy|]. by rewrite Hother. }
    intros w y _. assert (Hl' : links_ok children_links d') by apply Hok.
    assert (HxN : x <> NOTHING).
    { intros E'. destruct Hl' as ((HN & _) & _). rewrite <- E' in HN. congruence. }
    assert (Hch : isolated children_links (fresh_object x junk)) by done.
    unfold first_verb. destruct (decide (y = x)) as [->|Hy].
    + rewrite (alone_ancestors_x d' x _ HxN Hx' Hch). cbn [mbind option_bind].
      assert (ancestors d x = None) as ->.
      { destruct (ancestors d x) as [l|] eqn:E1; [|done]. destruct (ancestors_head _ _ _ E1 HxN) as [l' ->].
        destruct (ancestors_valid _ _ _ x E1) as [o Ho]; [by left|]. congruence. }
      simpl. unfold all_verbs, verbs. simpl. by rewrite Hx'.
    + rewrite (alone_ancestors d d' x (fresh_object x junk)) by done.
      destruct (ancestors d y) as [l|] eqn:El; [|done]. cbn [mbind option_bind]. f_equal. f_equal.
      assert (Hn : x ∉ l) by (intros Hin; destruct (ancestors_valid _ _ _ _ El Hin); congruence).
      clear -Hn Hother. unfold all_verbs. induction l as [|a l IH]; [done|]. apply not_elem_of_cons in Hn as [Ha Hn].
      cbn [mbind list_bind]. rewrite (IH Hn). f_equal. unfold verbs. by rewrite Hother.
Qed.

Lemma inv_recycled d : db_inv d -> table_room d -> exists d', dbpriv_new_recycled_object d = Some d' /\ db_inv d'.
Proof.
  intros Hi Hr. pose proof (inv_ok d Hi) as [Hp Hl Hu]. pose proof (po_tree d Hp) as (Ht & _).
  destruct (ensure_spec d Ht Hr) as (max & E & Hmax). unfold dbpriv_new_recycled_object. rewrite E.
  unfold with_table, with_objects. cbn [num_objects max_objects objects all_users vcache next_addr].
  destruct (Z.ltb_spec (num_objects d) max); [|lia]. eexists. split; [done|].
  rewrite int_id by (destruct Ht; unfold INT32_MIN, INT32_MAX in *; lia).
  rewrite delete_id.
  2: { destruct (objects d !! num_objects d) as [o|] eqn:Eo; [|done]. destruct Ht as (_ & _ & Ht).
       destruct (Ht _ o Eo). lia. }
  set (d' := mkDb _ _ _ _ _ _).
  assert (Ht' : table_ok d').
  { destruct Ht as (Hn & Hm & Ht). split; [simpl; lia|]. split; [simpl; unfold INT32_MAX in *; lia|].
    intros x o Ho. destruct (Ht x o Ho). split; [simpl; lia|done]. }
  assert (Hp' : props_ok d') by (destruct Hp as [(_ & H1 & H2) H3 H4 H5 H6]; by split).
  apply (inv_frame d); try done. by apply (users_agree d).
Qed.

Lemma inv_reset d : db_inv d -> (exists x, valid d x = true) -> exists d', db_reset_last_used_objid d = Some d' /\ db_inv d'.
Proof.
  intros Hi [x Hx]. pose proof (inv_ok d Hi) as [Hp Hl Hu]. pose proof (po_tree d Hp) as (Ht & _).
  apply valid_spec in Hx; [|done].
  destruct (reset_loop_spec (S (Z.to_nat (num_objects d))) d) as (n & E & Hn & Hlast); [done|lia|by eexists|].
  eexists. split; [exact E|]. set (d' := with_table _ _ _).
  assert (Ht' : table_ok d').
  { destruct Ht as (H1 & Hm & Ht). destruct Hn as [on Hon]. destruct (Ht n on Hon) as [? _].
    split; [simpl; lia|]. split; [done|]. intros y o Ho. destruct (Ht y o Ho). split; [|done]. simpl.
    destruct (decide (n < y)); [|lia]. rewrite Hlast in Ho by done. done. }
  assert (Hp' : props_ok d') by (destruct Hp as [(_ & H1 & H2) H3 H4 H5 H6]; by split).
  apply (inv_frame d); try done. by apply (users_agree d).
Qed.

Lemma destroy_frame d oid d' : db_destroy_object d oid = Some d' ->
  vcache d' = vcache (db_priv_affected_callable_verb_lookup d) /\ next_addr d' = next_addr d.
Proof.
  unfold db_destroy_object. destruct (dbpriv_find_object d oid) as [o|]; [|done]. cbn [mbind option_bind].
  destruct (flush_vcache d) as [c ->]. case_match; [done|].
  destruct (if is_user _ _ then _ else _); [|done]. cbn [mbind option_bind].
  destruct (slots _ _ _); [|done]. cbn [mbind option_bind]. by intros [= <-].
Qed.

Lemma inv_destroy d oid : db_inv d -> barren d oid -> llen (all_users d) < MAX_LIST ->
  exists d', db_destroy_object d oid = Some d' /\ db_inv d'.
Proof.
  intros Hi Hb Hlen. destruct (db_destroy_object_spec d oid (inv_ok d Hi) Hlen) as [_ H].
  destruct (H Hb) as (d' & E & Hok & _ & Eo & _). exists d'. split; [done|].
  destruct (destroy_frame _ _ _ E) as [Ec Ea]. split; [done| |apply (vc_ok_flushed d); [apply Hi|done]].
  intros x o Ho. rewrite Eo in Ho. apply lookup_delete_Some in Ho as [_ Ho]. rewrite Ea. by apply (inv_verbs d Hi x).
Qed.

Lemma inv_move d oid location : db_inv d -> valid d oid = true -> location = NOTHING \/ valid d location = true ->
  exists d', db_change_location d oid location = Some d' /\ db_inv d'.
Proof.
  intros Hi Hv Hloc. pose proof (inv_ok d Hi) as [Hp Hl Hu]. pose proof (po_tree d Hp) as Ht. pose proof Ht as (Htab & _).
  apply valid_spec in Hv as [o Ho]; [|done].
  destruct (change_location_spec d oid location (o_location o) Htab Hl) as (d' & E & Hm & Hl');
    [unfold db_object_location; by rewrite Ho|done|].
  exists d'. split; [done|]. pose proof Hm as (_ & _ & [m Em] & _).
  assert (Ha : forall A (g : Object -> A), (forall z o, g (set_contents z o) = g o) ->
       (forall z o, g (set_next z o) = g o) -> (forall z o, g (set_location z o) = g o) -> agree g d d')
    by (intros; by eapply moved_agree).
  assert (Hp' : props_ok d') by (apply (props_agree d); [apply Ha; by intros ? []..|by rewrite Em|by rewrite Em|done]).
  apply (inv_frame d); try done; try by rewrite Em.
  - apply (users_agree d); [done|apply Hp'|apply Ha; by intros ? []|by rewrite Em|done].
  - split; apply Ha; by intros ? [].
Qed.

(** *** Flags *)

Lemma set_flag_frame sole d oid f d' : db_set_object_flag sole d oid f = Some d' ->
  exists m u, d' = with_users u (with_objects (fun _ => m) d).
Proof.
  unfold db_set_object_flag. destruct (objects d !! oid) as [o|]; [|done]. cbn [mbind option_bind].
  destruct (update _ _ _) as [d1|] eqn:E; [|done]. apply update_inv in E as (o1 & _ & ->). cbn [mbind option_bind].
  destruct (f =? FLAG_USER).
  - destruct (setadd _ _ _) as [[u b]|]; [|done]. intros [= <-]. by eexists _, u.
  - intros [= <-]. by eexists _, (all_users d).
Qed.

Lemma clear_flag_frame d oid f d' : db_clear_object_flag d oid f = Some d' ->
  exists m u, d' = with_users u (with_objects (fun _ => m) d).
Proof.
  unfold db_clear_object_flag. destruct (objects d !! oid) as [o|]; [|done]. cbn [mbind option_bind].
  destruct (update _ _ _) as [d1|] eqn:E; [|done]. apply update_inv in E as (o1 & _ & ->). cbn [mbind option_bind].
  destruct (f =? FLAG_USER).
  - destruct (setremove _ _) as [u|]; [|done]. intros [= <-]. by eexists _, u.
  - intros [= <-]. by eexists _, (all_users d).
Qed.

Lemma inv_flags sole d oid f : db_inv d -> valid d oid = true -> 0 <= f < 16 -> llen (all_users d) < MAX_LIST ->
  (exists d', db_set_object_flag sole d oid f = Some d' /\ db_inv d') /\
  (exists d', db_clear_object_flag d oid f = Some d' /\ db_inv d').
Proof.
  intros Hi Hv Hf Hlen. pose proof (inv_ok d Hi) as [Hp Hl Hu].
  destruct (object_flags_spec sole d oid f (po_tree d Hp) Hu Hlen Hv Hf)
    as (d1 & d2 & E1 & E2 & _ & _ & Ht1 & Ht2 & Hu1 & Hu2 & Ha).
  assert (G : forall d', (exists m u, d' = with_users u (with_objects (fun _ => m) d)) -> tree_ok d' -> users_ok d' ->
    (forall A (g : Object -> A), (forall z o, g (set_flags z o) = g o) -> agree g d d') -> db_inv d').
  { intros d' (m & u & Em) Ht' Hu' Ha'. apply (inv_frame d); try done; try by rewrite Em.
    - apply (props_agree d); [apply Ha'; by intros ? []..|by rewrite Em|by rewrite Em|done].
    - apply (links_agree contents_links d); [apply Ha'; by intros ? []..|done].
    - split; apply Ha'; by intros ? []. }
  split; [exists d1|exists d2]; (split; [done|]); apply G; try done.
  - by eapply set_flag_frame.
  - intros A g Hg. by apply Ha.
  - by eapply clear_flag_frame.
  - intros A g Hg. by apply Ha.
Qed.

(** *** Properties and parents *)

Lemma below_case d oid (P : Z -> Prop) : tree_ok d -> (forall y, P y \/ ~ P y) ->
  (exists y, below d oid y /\ P y) \/ (forall y, below d oid y -> ~ P y).
Proof.
  intros Ht HP. assert (G : forall l : list Z, (exists y, y ∈ l /\ below d oid y /\ P y) \/ (forall y, y ∈ l -> below d oid y -> ~ P y)).
  { induction l as [|x l IH]; [right; intros y Hy; by apply elem_of_nil in Hy|].
    destruct IH as [(y & Hy & H)|IH]; [left; exists y; split; [by right|done]|].
    destruct (decide (below d oid x)) as [Hb|Hb]; [destruct (HP x) as [Hx|Hx]|].
    - left. exists x. split; [by left|done].
    - right. intros y [-> |Hy]%elem_of_cons; [done|by apply IH].
    - right. intros y [-> |Hy]%elem_of_cons; [done|by apply IH]. }
  destruct (G (elements (dom (objects d)))) as [(y & _ & H)|H]; [left; by exists y|right].
  intros y Hy. apply H; [|done]. apply elem_of_elements, elem_of_dom. by apply (below_valid d Ht oid y).
Qed.

Lemma own_case d y (P : Propdef -> Prop) `{forall p, Decision (P p)} : (exists q, q ∈ own d y /\ P q) \/ ~ (exists q, q ∈ own d y /\ P q).
Proof.
  destruct (decide (Exists P (own d y))) as [H1|H1]; rewrite Exists_exists in H1; [by left|by right].
Qed.

Lemma lookup_case d y k : prop_lookup d y k <> None \/ ~ (prop_lookup d y k <> None).
Proof. destruct (prop_lookup d y k); [by left|right]. intros H. by apply H. Qed.

(** What [db_add_propdef], [db_delete_propdef] and [db_rename_propdef] do, in
    every case: nothing, or the change to the lookups. *)
Lemma inv_add_prop d oid o name value owner flags : db_inv d -> objects d !! oid = Some o -> cstr name -> value <> VClear ->
  2 * pl_max_length (o_propdefs o) <= INT32_MAX ->
  exists d' b, db_add_propdef d oid name value owner flags = Some (d', b) /\ db_inv d' /\
    (if b then same_shape d d' /\ ~ builtin_name (casefold name) /\
              (forall y, below d oid y -> prop_lookup d y (casefold name) = None) /\
              forall y k, ~ (k = casefold name /\ below d oid y) -> prop_lookup d' y k = prop_lookup d y k
     else d' = d).
Proof.
  intros Hi Ho Hn Hv Hm. pose proof (inv_ok d Hi) as [Hp _ _].
  destruct (db_add_propdef_spec d oid o name value owner flags Hp Ho Hn Hv Hm) as [H1 H2].
  destruct (decide (builtin_name (casefold name))) as [Hb|Hb]; [exists d, false; split; [by apply H1; left|done]|].
  destruct (below_case d oid (fun y => prop_lookup d y (casefold name) <> None) (po_tree d Hp)) as [Hex|Hno];
    [intros; apply lookup_case|exists d, false; split; [by apply H1; right|done]|].
  assert (Hno' : forall y, below d oid y -> prop_lookup d y (casefold name) = None).
  { intros y Hy. specialize (Hno y Hy). destruct (prop_lookup d y (casefold name)); [|done]. by destruct Hno. }
  destruct (H2 Hb Hno') as (d' & E & Hp' & Hs & Hl & _). exists d', true. split; [done|]. split; [by eapply inv_shape|].
  split; [done|]. split; [done|]. split; [done|]. intros y k Hk. rewrite Hl. by rewrite decide_False.
Qed.

Lemma inv_delete_prop d oid name : db_inv d -> valid d oid = true -> cstr name ->
  exists d' b, db_delete_propdef d oid name = Some (d', b) /\ db_inv d' /\
    (if b then same_shape d d' /\
              forall y k, prop_lookup d' y k =
                if decide (k = casefold name /\ below d oid y) then None else prop_lookup d y k
     else d' = d).
Proof.
  intros Hi Hv Hn. pose proof (inv_ok d Hi) as [Hp _ _].
  destruct (db_delete_propdef_spec d oid name Hp Hv Hn) as [H1 H2].
  destruct (own_case d oid (fun p => casefold (pd_name p) = casefold name)) as [Hex|Hno].
  - destruct (H2 Hex) as (d' & E & Hp' & Hs & Hl). exists d', true. split; [done|]. split; [by eapply inv_shape|]. done.
  - exists d, false. split; [|done]. apply H1. intros p Hin E. apply Hno. by exists p.
Qed.

Lemma inv_rename_prop d oid old new : db_inv d -> valid d oid = true -> cstr old -> cstr new ->
  exists d' b, db_rename_propdef d oid old new = Some (d', b) /\ db_inv d' /\
    (if b then same_shape d d' /\
              (casefold new = casefold old \/ ~ builtin_name (casefold new) /\
                 forall y, below d oid y -> prop_lookup d y (casefold new) = None) /\
              forall y k, prop_lookup d' y k =
                if decide (below d oid y)
                then (if decide (k = casefold new) then prop_lookup d y (casefold old)
                      else if decide (k = casefold old) then None else prop_lookup d y k)
                else prop_lookup d y k
     else d' = d).
Proof.
  intros Hi Hv Ho Hn. pose proof (inv_ok d Hi) as [Hp _ _].
  pose proof (db_rename_propdef_spec d oid old new Hp Hv Ho Hn) as H. cbv zeta in H.
  set (defined := exists p, p ∈ own d oid /\ casefold (pd_name p) = casefold old) in H.
  set (free := _ \/ _) in H. destruct H as [H1 H2].
  assert (Hfree : free \/ ~ free).
  { unfold free. destruct (decide (casefold new = casefold old)) as [|Hne]; [by left; left|].
    destruct (decide (builtin_name (casefold new))) as [Hb|Hb]; [right; naive_solver|].
    destruct (below_case d oid (fun y => prop_lookup d y (casefold new) <> None) (po_tree d Hp)) as [(y & Hy & Hex)|Hno];
      [intros; apply lookup_case|right|left; right].
    - intros [|[_ H]]; [done|]. by apply Hex, H.
    - split; [done|]. intros y Hy. specialize (Hno y Hy). destruct (prop_lookup d y (casefold new)); [|done]. by destruct Hno. }
  destruct (own_case d oid (fun p => casefold (pd_name p) = casefold old)) as [Hd|Hd]; fold defined in Hd.
  - destruct Hfree as [Hf|Hf].
    + destruct (H2 Hd Hf) as (d' & E & Hp' & Hs & Hl). exists d', true. split; [done|]. split; [by eapply inv_shape|]. done.
    + exists d, false. split; [|done]. apply H1. by intros [_ ?].
  - exists d, false. split; [|done]. apply H1. by intros [? _].
Qed.

(** Without children and verbs an object is in no other's lookup, and no key. *)
Lemma first_verb_leaf d d' oid o P y : props_ok d -> objects d !! oid = Some o -> o_child o = NOTHING -> o_verbdefs o = [] ->
  props_ok d' -> agree o_verbdefs d d' -> (forall x, x <> oid -> db_object_parent d' x = db_object_parent d x) ->
  y <> oid -> first_verb d' P y = first_verb d P y.
Proof.
  intros Hp Ho Hc Hvs Hp' Hv Hpar Hy. pose proof (po_tree d Hp) as (Ht & Hl & _).
  assert (Hup : forall x, upf children_links d x <> Some oid).
  { intros x Hx. assert (members children_links d oid = Some []) as E.
    { apply (members_chain children_links d oid NOTHING); [unfold headf; rewrite Ho; simpl; by rewrite Hc|constructor]. }
    destruct Hl as (_ & Hm & _). apply (Hm oid [] E) in Hx. by apply elem_of_nil in Hx. }
  assert (Eup : forall x, x <> oid -> upf children_links d' x = upf children_links d x).
  { intros x Hx. specialize (Hpar x Hx). unfold db_object_parent in Hpar. unfold upf. simpl.
    destruct (objects d' !! x), (objects d !! x); simpl in *; congruence. }
  assert (Hnot : forall l, chain NOTHING (upf children_links d) y l -> oid ∉ l).
  { intros l Hch Hin. destruct (chain_pred _ _ _ _ Hch Hin) as [|[w Hw]]; [done|]. by apply (Hup w). }
  assert (Ea : ancestors d' y = ancestors d y).
  { apply option_eq. intros l. rewrite !ancestors_chain. split; intros Hch.
    - assert (Hn : oid ∉ l).
      { revert Hch Hy. clear -Eup Hup. induction 1 as [|h t l Hs Ht Hch IH]; intros Hy; [by intros ?%elem_of_nil|].
        intros [E|Hin]%elem_of_cons; [done|]. apply IH; [|done]. rewrite Eup in Ht by done. intros ->. by apply (Hup h). }
      eapply chain_ext; [|exact Hch]. intros x Hx. symmetry. apply Eup. by intros ->.
    - eapply chain_ext; [|exact Hch]. intros x Hx. apply Eup. intros ->. by apply (Hnot l). }
  unfold first_verb. rewrite Ea. destruct (ancestors d y) as [l|]; [|done]. cbn [mbind option_bind]. f_equal. f_equal.
  unfold all_verbs. clear -Hv. induction l as [|a l IH]; [done|]. cbn [mbind list_bind]. by rewrite IH, (agree_verbs d d').
Qed.

Lemma inv_parent d oid parent : db_inv d -> valid d oid = true -> parent = NOTHING \/ valid d parent = true ->
  ~ below d oid parent -> exists d' b, db_change_parent d oid parent = Some (d', b) /\ db_inv d'.
Proof.
  intros Hi Hv Hpar Hb. pose proof (inv_ok d Hi) as [Hp Hl Hu]. pose proof (po_tree d Hp) as Ht.
  apply valid_spec in Hv as [o Ho]; [|apply Ht].
  destruct (db_change_parent_spec d oid parent o Hp Ho Hpar Hb) as [H1 H2].
  destruct (below_case d oid (fun y => exists q, q ∈ own d y /\ prop_lookup d parent (casefold (pd_name q)) <> None) Ht)
    as [(y & Hy & q & Hex)|Hno].
  { intros y. apply own_case, _. }
  { exists d, false. split; [|done]. apply H1. by exists y, q. }
  destruct H2 as (d' & E & Hp' & _ & Hup & _ & Ha & m & Em).
  { intros (y & q & Hy & Hq). apply (Hno y Hy). by exists q. }
  exists d', true. split; [done|]. set (quiet := (o_child o =? NOTHING) && _) in Em.
  set (d0 := if quiet then d else _) in Em.
  assert (Hd0 : num_objects d0 = num_objects d /\ max_objects d0 = max_objects d /\ all_users d0 = all_users d /\ next_addr d0 = next_addr d).
  { unfold d0. destruct quiet; [done|]. by destruct (flush_vcache d) as [c ->]. }
  destruct Hd0 as (En & Emx & Eu & Ena).
  assert (Hvs : agree o_verbdefs d d') by (apply Ha; by intros ? []).
  split; [split; [done| |]| |].
  - apply (links_agree contents_links d); [apply Ha; by intros ? []..|done].
  - apply (users_agree d); [apply Ht|apply Hp'|apply Ha; by intros ? []|by rewrite Em|done].
  - apply (verbs_ok_agree d); [done|by rewrite Em|apply Hi].
  - destruct quiet eqn:Eq.
    + apply andb_true_iff in Eq as [Ec Ev]. apply Z.eqb_eq in Ec. destruct (o_verbdefs o) eqn:Evs; [|done].
      apply (vc_ok_ext d); [by rewrite Em| | |apply Hi].
      * intros x. by rewrite (agree_verbs d d').
      * intros w x Hx. apply (first_verb_leaf d d' oid o); try done.
        -- intros z Hz. rewrite Hup. by rewrite decide_False.
        -- intros ->. destruct Hx as [-> |Hx]; [|unfold verbs in Hx; by rewrite Ho in Hx].
           by rewrite (tree_NOTHING d Ht) in Ho.
    + apply (vc_ok_flushed d); [apply Hi|by rewrite Em].
Qed.

Lemma inv_prop_slot d oid name value owner flags ok : db_inv d -> has_prop d oid name ok ->
  (forall a, ok a -> a = oid -> value <> VClear) ->
  exists h d1 d2 d3, db_find_property d oid name false = Some (h, None) /\
    db_set_property_value d h value = Some d1 /\ db_set_property_owner d h owner = Some d2 /\
    db_set_property_flags d h flags = Some d3 /\ db_inv d1 /\ db_inv d2 /\ db_inv d3 /\
    exists a pv, prop_lookup d oid (casefold name) = Some (a, pv) /\
      Forall2 (fun d' f => same_but_propval d d' /\ forall y k, prop_lookup d' y k =
          if decide (y = oid /\ k = casefold name) then Some (a, f pv) else prop_lookup d y k)
        [d1; d2; d3] [set_pv_var value; set_pv_owner owner; set_pv_perms (uwrap 16 flags)].
Proof.
  intros Hi (Hv & Hn & Hb & a & pv & Hl & Ha) Hok.
  destruct (property_access_spec d oid name a pv value owner flags) as
    (h & d1 & d2 & d3 & Eh & _ & _ & _ & _ & E1 & E2 & E3 & H); [apply Hi|done..|by apply Hok|].
  apply Forall2_cons in H as [(S1 & P1 & L1) H]. apply Forall2_cons in H as [(S2 & P2 & L2) H].
  apply Forall2_cons in H as [(S3 & P3 & L3) _].
  exists h, d1, d2, d3. do 4 (split; [done|]). split; [by eapply inv_same|]. split; [by eapply inv_same|].
  split; [by eapply inv_same|]. exists a, pv. split; [done|].
  do 3 (constructor; [done|]). constructor.
Qed.

(** An object gets the number [new], which no other has. *)
Lemma inv_renumber d old : db_inv d -> valid d old = true -> db_object_location d old <> Some old ->
  exists d' new, db_renumber_object d old = Some (d', new) /\ db_inv d' /\ 0 <= new <= old /\
    (forall x, 0 <= x < new -> valid d x = true) /\
    (new <> old -> valid d new = false /\ renamed old new (reowned old new) (db_priv_affected_callable_verb_lookup d) d').
Proof.
  intros [Hi Hv Hc] Ho Hloc. pose proof (po_tree d (ok_props d Hi)) as (Ht & _). apply valid_spec in Ho as [o Ho]; [|done].
  destruct (db_renumber_object_spec d old o Hi Ho) as (d' & new & E & Hi' & Hn & Hb & Hs & Hr).
  { intros El. apply Hloc. unfold db_object_location. rewrite Ho. cbn. by rewrite El. }
  exists d', new. split; [done|]. destruct (flush_vcache_eq d) as (c & Ec & Evc).
  assert (Hd : vcache d' = vcache (db_priv_affected_callable_verb_lookup d) /\ verbs_ok d').
  { destruct (decide (new = old)) as [->|Hne]; [rewrite (Hs eq_refl); split; [done|by rewrite Ec]|]. destruct (Hr Hne) as (Hfree & R & _).
    split; [apply R|]. intros y oy Hy. assert (Hs' : is_Some (objects d' !! y)) by (by eexists). apply (rn_dom _ _ _ _ _ R) in Hs' as (x & -> & Hx). rewrite flush_objects in Hx.
    assert (Hxn : x <> new) by (intros ->; rewrite Hfree in Hx; by destruct Hx).
    pose proof (rn_fields _ _ _ _ _ R (fun o => v_addr <$> o_verbdefs o) x ltac:(by intros ? []) Hxn) as Ef. rewrite Hy, flush_objects in Ef.
    destruct Hx as [ox Hx]. rewrite Hx in Ef. cbn [fmap option_fmap option_map] in Ef. rewrite reowned_addrs in Ef. injection Ef as Ef. destruct (Hv x ox Hx) as [H1 H2].
    rewrite Ef. split; [done|]. rewrite (rn_addr _ _ _ _ _ R), Ec. cbn [next_addr with_vcache].
    apply (Forall_fmap v_addr (fun a => a < next_addr d)). rewrite Ef. by apply (Forall_fmap v_addr (fun a => a < next_addr d)). }
  destruct Hd as [Hd1 Hd2]. split; [split; [done|done|by apply (vc_ok_flushed d)]|]. split; [done|]. split; [intros x Hx; by apply valid_spec, Hb|].
  intros Hne. destruct (Hr Hne) as (Hfree & R & _). split; [|done]. destruct (valid d new) eqn:E'; [|done]. apply valid_spec in E' as [? E']; [|done]. congruence.
Qed.

Lemma inv_users d users : db_inv d -> users_ok (dbpriv_set_all_users d users) -> db_inv (dbpriv_set_all_users d users).
Proof. intros [[Hp Hc _] Hv Hvc] Hu. split; [split|done|done]; [by destruct Hp; split|done|done]. Qed.

(** One step. *)
Lemma exec_inv d op : db_inv d -> pre op d -> exists d', exec op d = Some d' /\ db_inv d'.
Proof.
  intros Hi Hpre. destruct op; cbn [pre] in Hpre; cbn [exec].
  - destruct (inv_create junk d Hi Hpre) as (d' & n & -> & H). by exists d'.
  - by apply inv_recycled.
  - by apply inv_reset.
  - destruct Hpre. by apply inv_destroy.
  - apply inv_update; [done..|]. intros A g H _ o. apply H.
  - apply inv_update; [done..|]. intros A g _ H o. apply H.
  - destruct Hpre. by apply inv_move.
  - destruct Hpre as (? & ? & ?). by apply (inv_flags sole).
  - destruct Hpre as (? & ? & ?). by apply (inv_flags true).
  - destruct Hpre as (H1 & H2 & H3). destruct (inv_parent d oid parent Hi H1 H2 H3) as (d' & b & -> & H). by exists d'.
  - destruct Hpre as (H1 & H2 & o & H3 & H4).
    destruct (inv_add_prop d oid o name value owner flags Hi H3 H1 H2 H4) as (d' & b & -> & H & _). by exists d'.
  - destruct Hpre as (H1 & H2). destruct (inv_delete_prop d oid name Hi H1 H2) as (d' & b & -> & H & _). by exists d'.
  - destruct Hpre as (H1 & H2 & H3). destruct (inv_rename_prop d oid old new Hi H1 H2 H3) as (d' & b & -> & H & _). by exists d'.
  - destruct (inv_prop_slot d oid name value 0 0 _ Hi Hpre) as (h & d1 & d2 & d3 & -> & E & _ & _ & H & _); [done|]. by exists d1.
  - destruct (inv_prop_slot d oid name (VInt 0) owner 0 _ Hi Hpre) as (h & d1 & d2 & d3 & -> & _ & E & _ & _ & H & _); [done|]. by exists d2.
  - destruct (inv_prop_slot d oid name (VInt 0) 0 flags _ Hi Hpre) as (h & d1 & d2 & d3 & -> & _ & _ & E & _ & _ & H & _); [done|]. by exists d3.
  - destruct Hpre as (o & Ho & Hlen).
    destruct (inv_add_verb d oid o names owner flags dobj prep iobj Hi Ho Hlen) as (d' & n & -> & H). by exists d'.
  - by apply inv_delete_verb.
  - by apply inv_write_flushed.
  - by apply inv_write_quiet.
  - by apply inv_write_flushed.
  - by apply inv_write_quiet.
  - by apply inv_write_flushed.
  - destruct Hpre as (H1 & H2 & H3). destruct (inv_find_verb d same oid word Hi H1 H2 H3) as (d' & h & -> & H). by exists d'.
  - destruct Hpre as [H1 H2]. destruct (inv_renumber d oid Hi H1 H2) as (d' & n & -> & H & _). by exists d'.
  - eexists. split; [done|]. by apply inv_users.
Qed.

Lemma empty_inv : db_inv empty_db.
Proof.
  assert (Ht : table_ok empty_db).
  { split; [simpl; lia|]. split; [unfold INT32_MAX; simpl; lia|]. intros x o Ho. simpl in Ho. by rewrite lookup_empty in Ho. }
  assert (Hl : forall L, links_ok L empty_db) by (intros L; apply links_check_ok; reflexivity).
  assert (Hno : forall x, objects empty_db !! x = None) by (intros x; apply lookup_empty).
  split; [split| |exact I].
  - split; [split; [done|split; [apply Hl|]]|..].
    + intros x [o Ho]. by rewrite Hno in Ho.
    + intros x o Ho. by rewrite Hno in Ho.
    + intros x o l Ho. by rewrite Hno in Ho.
    + intros x o i pv Ho. by rewrite Hno in Ho.
    + intros x l _. unfold keys. induction l; [constructor|done].
  - apply Hl.
  - exists []. split; [done|]. split; [constructor|]. intros x. split; [by intros ?%elem_of_nil|].
    unfold is_user, valid_with_flag. rewrite find_object_objects by done. simpl. by rewrite lookup_empty.
  - intros x o Ho. simpl in Ho. by rewrite lookup_empty in Ho.
Qed.

Lemma reachable_inv d : reachable d -> db_inv d.
Proof.
  induction 1 as [|d op d' Hd IH Hp E]; [apply empty_inv|].
  destruct (exec_inv d op IH Hp) as (d2 & E2 & H). rewrite E in E2. by injection E2 as <-.
Qed.

(** ** Theorem *)

(** C1: the database as a whole: whatever sequence of the operations of [db_op]
    (each that changes objects, properties, verbs, the list of users or the
    verb cache, renumbering included) built it, each called as [pre] asks, the
    hierarchy, the contents lists, the property tables, the list of users, the
    verbs and the verb cache are well formed, and every operation whose
    precondition holds succeeds: it never follows a null pointer, panics or
    loops for ever.  Renumbering asks that the object is not its own location,
    setting the list of users that the new list is right. *)
Theorem database_invariant (d : db) (op : db_op) :
  reachable d -> db_inv d /\ (pre op d -> exists d', exec op d = Some d' /\ reachable d' /\ db_inv d').
Proof.
  intros Hr. pose proof (reachable_inv d Hr) as Hi. split; [done|]. intros Hp.
  destruct (exec_inv d op Hi Hp) as (d' & E & H). exists d'. split; [done|]. split; [|done]. by eapply reach_step.
Qed.

(** Two objects are created and the second made a child of the first. *)
Definition blank : Object := mkObject 0 0 0 0 0 0 0 0 [] 0 [] (mkProplist 0 []) [].
Definition family : db :=
  default empty_db (d ← exec (OpCreate blank) empty_db; d ← exec (OpCreate blank) d; exec (OpParent 1 0) d).

Example database_invariant_witness :
  reachable family /\ db_object_parent family 1 = Some 0 /\
  exists d', exec (OpAddProp 0 (BS "color") (VInt 1) 0 0) family = Some d' /\ db_inv d'.
Proof.
  assert (Hr : reachable family).
  { destruct (exec (OpCreate blank) empty_db) as [d1|] eqn:E1; [|vm_compute in E1; discriminate].
    assert (H1 : reachable d1) by (eapply reach_step; [apply reach_start| |exact E1]; right; vm_compute; discriminate).
    destruct (exec (OpCreate blank) d1) as [d2|] eqn:E2.
    2: { exfalso. assert (G : (exec (OpCreate blank) empty_db ≫= exec (OpCreate blank)) = None) by (rewrite E1; exact E2).
         vm_compute in G. discriminate. }
    assert (Ed1 : Some d1 = exec (OpCreate blank) empty_db) by done. vm_compute in Ed1. injection Ed1 as Ed1.
    assert (H2 : reachable d2) by (eapply reach_step; [exact H1| |exact E2]; left; subst d1; vm_compute; reflexivity).
    subst d1. assert (Ed2 := eq_sym E2). vm_compute in Ed2. injection Ed2 as Ed2.
    destruct (exec (OpParent 1 0) d2) as [d3|] eqn:E3; [|subst d2; vm_compute in E3; discriminate].
    assert (H3 : reachable d3).
    { eapply reach_step; [exact H2| |exact E3]. subst d2. split; [vm_compute; reflexivity|].
      split; [right; vm_compute; reflexivity|]. intros (l & El & Hl). vm_compute in El. injection El as <-.
      apply list_elem_of_singleton in Hl. discriminate. }
    assert (family = d3) as ->; [|exact H3]. subst d2. assert (Ed3 := eq_sym E3). vm_compute in Ed3. injection Ed3 as ->.
    vm_compute. reflexivity. }
  split; [exact Hr|]. split; [vm_compute; reflexivity|].
  destruct (database_invariant family (OpAddProp 0 (BS "color") (VInt 1) 0 0) Hr) as [_ H].
  destruct H as (d' & E & _ & Hi); [|exists d'; split; [exact E|exact Hi]].
  split; [apply cstrb_ok; reflexivity|]. split; [discriminate|].
  destruct (objects family !! 0) as [o|] eqn:Ho; [|vm_compute in Ho; discriminate].
  exists o. split; [reflexivity|]. vm_compute in Ho. injection Ho as <-. vm_compute. discriminate.
Defined.
