(* ===== verification/Authority.v ===== *)
(** * Who may change what

    The built-in functions that change the database call its operations after
    checks of their own.  [permitted p d op] is the permission that operation
    [op] requires of the programmer [p] in the database [d]; [does p d ops d']
    says that the operations [ops] lead from [d] to [d'], each permitted and
    called as its documentation asks. *)

From S2P Require Import Prelude Utf CString Values Streams Functions Lists Db Links Hierarchy Attributes Words Preps Verbs Properties PropView PropChange ChangeParent Objects Database.

(** ** Specification *)

Definition may_write (d : db) (p oid : Z) : Prop := db_object_allows d oid p FLAG_WRITE = Some true.
Definition controls_object (d : db) (p oid : Z) : Prop := is_wizard d p = true \/ db_object_owner d oid = Some p.

(** Access to a slot of a property and to a verb. *)
Definition slot_allows (d : db) (p : Z) (pv : Pval) (flag : Z) : Prop :=
  has_perm pv flag = true \/ p = pv_owner pv \/ is_wizard d p = true.
Definition prop_allows (d : db) (p oid : Z) (name : bytes) (flag : Z) : Prop :=
  exists a pv, prop_lookup d oid (casefold name) = Some (a, pv) /\ slot_allows d p pv flag.
Definition verb_allows (d : db) (p : Z) (h : handle) (flag : Z) : Prop :=
  db_verb_allows d (Some h) p flag = Some true.

Definition permitted (p : Z) (d : db) (op : db_op) : Prop :=
  match op with
  | OpAddProp oid _ _ owner _ => may_write d p oid /\ (p = owner \/ is_wizard d p = true)
  | OpDeleteProp oid _ => may_write d p oid
  | OpRenameProp oid old _ => prop_allows d p oid old PF_WRITE
  | OpPropFlags oid name _ => prop_allows d p oid name PF_WRITE
  | OpPropOwner oid name owner =>
      exists a pv, prop_lookup d oid (casefold name) = Some (a, pv) /\ slot_allows d p pv PF_WRITE /\
        (pv_owner pv = owner \/ is_wizard d p = true)
  | OpPropValue oid name VClear =>
      exists a pv, prop_lookup d oid (casefold name) = Some (a, pv) /\ (p = pv_owner pv \/ is_wizard d p = true)
  | OpPropValue oid name _ => prop_allows d p oid name PF_WRITE
  | OpAddVerb oid _ owner _ _ _ _ => may_write d p oid /\ (p = owner \/ is_wizard d p = true)
  | OpDeleteVerb h => may_write d p (h_definer h)
  | OpVerbNames h _ | OpVerbFlags h _ | OpVerbArgs h _ _ _ => verb_allows d p h VF_WRITE
  | OpVerbOwner h owner =>
      verb_allows d p h VF_WRITE /\ (db_verb_owner d (Some h) = Some owner \/ is_wizard d p = true)
  | OpVerbProgram h _ => verb_allows d p h VF_WRITE /\ is_programmer d p = true
  | OpMove oid _ | OpDestroy oid => controls_object d p oid
  | OpParent oid parent => controls_object d p oid /\
      (valid d parent = true -> db_object_allows d parent p FLAG_FERTILE = Some true)
  | _ => is_wizard d p = true
  end.

Inductive does (p : Z) : db -> list db_op -> db -> Prop :=
| does_nothing d : does p d [] d
| does_op d op d1 ops d2 : permitted p d op -> pre op d -> exec op d = Some d1 -> does p d1 ops d2 ->
    does p d (op :: ops) d2.

(** ** Lemmas *)

Lemma does_one p d op d' : permitted p d op -> pre op d -> exec op d = Some d' -> does p d [op] d'.
Proof. intros. econstructor; eauto using does_nothing. Qed.

Lemma does_app p d ops d1 ops' d2 : does p d ops d1 -> does p d1 ops' d2 -> does p d (ops ++ ops') d2.
Proof. induction 1; [done|]. intros. simpl. econstructor; eauto. Qed.

Lemma does_inv p d ops d' : does p d ops d' -> db_inv d -> db_inv d'.
Proof.
  induction 1 as [|d op d1 ops d2 _ Hpre E _ IH]; [done|]. intros Hi. apply IH.
  destruct (exec_inv d op Hi Hpre) as (d' & E' & H). rewrite E in E'. by injection E' as <-.
Qed.

Lemma allows_total d p oid f : is_Some (objects d !! oid) -> table_ok d -> exists b, db_object_allows d oid p f = Some b.
Proof.
  intros [o Ho] Ht. unfold db_object_allows, db_object_owner, db_object_has_flag.
  rewrite Ho. cbn [mbind option_bind]. destruct (_ || _); eauto.
Qed.

(** Tables that are not close to the sizes an [int] can count. *)
Record room (d : db) : Prop := {
  room_props : forall x o, objects d !! x = Some o -> 2 * pl_max_length (o_propdefs o) <= INT32_MAX;
  room_verbs : forall x o, objects d !! x = Some o -> Z.of_nat (length (o_verbdefs o)) < INT32_MAX;
  room_users : llen (all_users d) < MAX_LIST;
  room_table : table_room d
}.

(** What a built-in that may change the database promises: it does not fail,
    all it does is permitted and of the kind [Q], and when it raises an error it
    has changed nothing. *)
Definition obeys (Q : db_op -> Prop) (p : Z) (d : db) (r : option (db * package)) : Prop :=
  exists d' pk ops, r = Some (d', pk) /\ does p d ops d' /\ Forall Q ops /\
    ((exists e m v, pk = BI_RAISE e m v) -> d' = d).

Lemma obeys_nothing Q p d pk : obeys Q p d (Some (d, pk)).
Proof. exists d, pk, []. split; [done|]. split; [constructor|]. split; [constructor|done]. Qed.

Lemma obeys_does (Q : db_op -> Prop) p d ops d' v : does p d ops d' -> Forall Q ops -> obeys Q p d (Some (d', BI_RETURN v)).
Proof. intros H HQ. exists d', (BI_RETURN v), ops. split; [done|]. split; [done|]. split; [done|]. by intros (? & ? & ? & ?). Qed.

#[export] Hint Resolve obeys_nothing : moo.

Lemma allows_valid d p oid f : table_ok d -> valid d oid = true -> exists b, db_object_allows d oid p f = Some b.
Proof. intros Ht Hv. apply allows_total; [by apply valid_spec|done]. Qed.
