(* ===== verification/PropBuiltins.v ===== *)
(** * The built-in functions on properties (property.c), the ownership quota
    (quota.c) and the server options (get_server_option of server.c)

    A built-in function takes the arguments that its prototype describes, the
    programmer and the database; the result is the package and, for those that
    may change it, the database.  [None] is a panic or a wild access. *)

From S2P Require Import Prelude Utf CString Values Streams Functions Lists Db Links Hierarchy Attributes Words Preps Verbs Properties PropView PropChange ChangeParent Objects Database Authority ListBuiltins.

(** ** Definitions *)

(** The result of the functions that change the database and return nothing. *)
Definition finish_pack (d : db) (e : option error) : db * package :=
  (d, match e with None => no_var_pack | Some e => make_error_pack e end).

(** [add_to_list]: the next element of a list being filled. *)
Definition add_name (data : option arr * Z) (prop_name : bytes) : (option arr * Z) * bool :=
  let i := snd data + 1 in
  ((a ← fst data; awrite a i (VStr prop_name), i), false).

Definition bf_properties (arglist : list Var) (progr : Z) (d : db) : option package :=
  match arglist with
  | [VObj oid] =>
      if negb (valid d oid) then Some (make_error_pack E_INVARG)
      else
        allows ← db_object_allows d oid progr FLAG_READ;
        if negb allows then Some (make_error_pack E_PERM)
        else
          n ← db_count_propdefs d oid;
          r ← new_list n;
          '((a, _), _) ← db_for_all_propdefs d oid add_name (Some r, 0);
          a ← a; l ← finish a; Some (make_var_pack (VList l))
  | _ => None
  end.

Definition is_built_in (h : db_prop_handle) : bool := negb (bool_decide (built_in h = BP_NONE)).

(** The letters of a set of flags. *)
Definition letters (flags : Z) (t : list (Z * Z)) : bytes :=
  t ≫= fun p => if negb (Z.land flags (fst p) =? 0) then [snd p] else [].
Definition prop_letters : list (Z * Z) := [(PF_READ, 114); (PF_WRITE, 119); (PF_CHOWN, 99)].

Definition bf_prop_info (arglist : list Var) (progr : Z) (d : db) : option package :=
  match arglist with
  | [VObj oid; VStr pname] =>
      if negb (valid d oid) then Some (make_error_pack E_INVARG)
      else
        '(h, _) ← db_find_property d oid pname false;
        if is_null h || is_built_in h then Some (make_error_pack E_PROPNF)
        else
          allows ← db_property_allows d h progr PF_READ;
          if negb allows then Some (make_error_pack E_PERM)
          else
            owner ← db_property_owner d h;
            flags ← db_property_flags d h;
            Some (make_var_pack (VList [VObj owner; VStr (letters flags prop_letters)]))
  | _ => None
  end.

(** The flags that a string of letters in either case stands for. *)
Fixpoint parse_letters (s : bytes) (t : list (Z * Z)) (flags : Z) : option Z :=
  match s with
  | [] => Some flags
  | c :: s =>
      match find (fun p => (c =? snd p) || (c =? snd p - 32)) t with
      | Some p => parse_letters s t (Z.lor flags (fst p))
      | None => None
      end
  end.

(** The owner, the flags and the new name, if there is one. *)
Definition validate_prop_info (d : db) (v : Var) : error + Z * Z * option bytes :=
  let check owner perms name :=
    if negb (valid d owner) then inl E_INVARG
    else match parse_letters perms prop_letters 0 with
         | None => inl E_INVARG
         | Some flags => inr (owner, flags, name)
         end in
  match v with
  | VList [VObj owner; VStr perms] => check owner perms None
  | VList [VObj owner; VStr perms; VStr name] => check owner perms (Some name)
  | _ => inl E_TYPE
  end.

(** The database, and the error if there is one. *)
Definition set_prop_info (oid : Z) (pname : bytes) (info : Var) (progr : Z) (d : db) : option (db * option error) :=
  match (if negb (valid d oid) then inl E_INVARG else validate_prop_info d info) with
  | inl e => Some (d, Some e)
  | inr (new_owner, new_flags, new_name) =>
      '(h, _) ← db_find_property d oid pname false;
      if is_null h || is_built_in h then Some (d, Some E_PROPNF)
      else
        allows ← db_property_allows d h progr PF_WRITE;
        owner ← db_property_owner d h;
        if negb allows || (negb (is_wizard d progr) && negb (owner =? new_owner)) then Some (d, Some E_PERM)
        else
          r ← match new_name with
              | Some new_name =>
                  '(d, b) ← db_rename_propdef d oid pname new_name;
                  if negb b then Some (d, None)
                  else '(h, _) ← db_find_property d oid new_name false; Some (d, Some h)
              | None => Some (d, Some h)
              end;
          match r with
          | (d, None) => Some (d, Some E_INVARG)
          | (d, Some h) =>
              d ← db_set_property_owner d h new_owner;
              d ← db_set_property_flags d h new_flags;
              Some (d, None)
          end
  end.

Definition bf_set_prop_info (arglist : list Var) (progr : Z) (d : db) : option (db * package) :=
  match arglist with
  | [VObj oid; VStr pname; info] =>
      '(d, e) ← set_prop_info oid pname info progr d; Some (finish_pack d e)
  | _ => None
  end.

Definition bf_add_prop (arglist : list Var) (progr : Z) (d : db) : option (db * package) :=
  match arglist with
  | [VObj oid; VStr pname; value; info] =>
      match validate_prop_info d info with
      | inl e => Some (finish_pack d (Some e))
      | inr (owner, flags, new_name) =>
          if bool_decide (is_Some new_name) then Some (finish_pack d (Some E_TYPE))
          else if negb (valid d oid) then Some (finish_pack d (Some E_INVARG))
          else
            allows ← db_object_allows d oid progr FLAG_WRITE;
            if negb allows || (negb (progr =? owner) && negb (is_wizard d progr))
            then Some (finish_pack d (Some E_PERM))
            else
              '(d, b) ← db_add_propdef d oid pname value owner flags;
              Some (finish_pack d (if b : bool then None else Some E_INVARG))
      end
  | _ => None
  end.

Definition bf_delete_prop (arglist : list Var) (progr : Z) (d : db) : option (db * package) :=
  match arglist with
  | [VObj oid; VStr pname] =>
      if negb (valid d oid) then Some (finish_pack d (Some E_INVARG))
      else
        allows ← db_object_allows d oid progr FLAG_WRITE;
        if negb allows then Some (finish_pack d (Some E_PERM))
        else
          '(d, b) ← db_delete_propdef d oid pname;
          Some (finish_pack d (if b : bool then None else Some E_PROPNF))
  | _ => None
  end.

Definition bf_clear_prop (arglist : list Var) (progr : Z) (d : db) : option (db * package) :=
  match arglist with
  | [VObj oid; VStr pname] =>
      if negb (valid d oid) then Some (finish_pack d (Some E_INVARG))
      else
        '(h, _) ← db_find_property d oid pname false;
        if is_null h then Some (finish_pack d (Some E_PROPNF))
        else
          denied ← (if is_built_in h then Some true
                    else owner ← db_property_owner d h; Some (negb (progr =? owner) && negb (is_wizard d progr)));
          if denied : bool then Some (finish_pack d (Some E_PERM))
          else if definer h =? oid then Some (finish_pack d (Some E_INVARG))
          else d ← db_set_property_value d h VClear; Some (finish_pack d None)
  | _ => None
  end.

Definition bf_is_clear_prop (arglist : list Var) (progr : Z) (d : db) : option package :=
  match arglist with
  | [VObj oid; VStr pname] =>
      if negb (valid d oid) then Some (make_error_pack E_INVARG)
      else
        '(h, _) ← db_find_property d oid pname false;
        if is_null h then Some (make_error_pack E_PROPNF)
        else if is_built_in h then Some (make_int_pack 0)
        else
          allows ← db_property_allows d h progr PF_READ;
          if negb allows then Some (make_error_pack E_PERM)
          else v ← db_property_value d h; Some (make_int_pack (if bool_decide (type_of v = TYPE_CLEAR) then 1 else 0))
  | _ => None
  end.

(** *** Quotas *)

Definition quota_name : bytes := BS "ownership_quota".

(** The quota as a number, if the property is there and is one. *)
Definition quota_of (player : Z) (d : db) : option (option (db_prop_handle * Z)) :=
  if negb (valid d player) then Some None
  else
    '(h, v) ← db_find_property d player quota_name true;
    Some (match v with Some (VInt n) => if is_null h then None else Some (h, n) | _ => None end).

Definition decr_quota (player : Z) (d : db) : option (db * bool) :=
  q ← quota_of player d;
  match q with
  | None => Some (d, true)
  | Some (h, n) => if n <=? 0 then Some (d, false)
                   else d ← db_set_property_value d h (VInt (n - 1)); Some (d, true)
  end.

Definition incr_quota (player : Z) (d : db) : option db :=
  q ← quota_of player d;
  match q with
  | None => Some d
  | Some (h, n) => db_set_property_value d h (VInt (Num (n + 1)))
  end.

(** *** Server options *)

(** [valid(oid) && db_find_property(oid, name, r).ptr]: the value. *)
Definition option_property (oid : Z) (name : bytes) (d : db) : option (option Var) :=
  if negb (valid d oid) then Some None
  else '(h, v) ← db_find_property d oid name true; Some (if is_null h then None else v).

Definition get_server_option (oid : Z) (name : bytes) (d : db) : option (option Var) :=
  r ← option_property oid (BS "server_options") d;
  r ← match r with Some v => Some (Some v) | None => option_property SYSTEM_OBJECT (BS "server_options") d end;
  match r with
  | Some (VObj o) => option_property o name d
  | _ => Some None
  end.

(** The operations on properties. *)
Definition property_op (op : db_op) : Prop :=
  match op with
  | OpAddProp _ _ _ _ _ | OpDeleteProp _ _ | OpRenameProp _ _ _ | OpPropValue _ _ _
  | OpPropOwner _ _ _ | OpPropFlags _ _ _ => True
  | _ => False
  end.

(** The functions that [register_property] registers. *)
Definition reads (f : list Var -> Z -> db -> option package) (arglist : list Var) (progr : Z) (d : db)
    : option (db * package) := p ← f arglist progr d; Some (d, p).
Definition property_functions :
    list (bytes * Z * Z * list var_type * (list Var -> Z -> db -> option (db * package))) :=
  [(BS "properties", 1, 1, [TYPE_OBJ], reads bf_properties);
   (BS "property_info", 2, 2, [TYPE_OBJ; TYPE_STR], reads bf_prop_info);
   (BS "set_property_info", 3, 3, [TYPE_OBJ; TYPE_STR; TYPE_LIST], bf_set_prop_info);
   (BS "add_property", 4, 4, [TYPE_OBJ; TYPE_STR; TYPE_ANY; TYPE_LIST], bf_add_prop);
   (BS "delete_property", 2, 2, [TYPE_OBJ; TYPE_STR], bf_delete_prop);
   (BS "clear_property", 2, 2, [TYPE_OBJ; TYPE_STR], bf_clear_prop);
   (BS "is_clear_property", 2, 2, [TYPE_OBJ; TYPE_STR], reads bf_is_clear_prop)].

(** ** Lemmas *)


(** *** Filling a list of names *)

Lemma awrite_next (l : list Var) n v :
  awrite ((Some <$> l) ++ replicate (S n) None) (Z.of_nat (length l) + 1) v =
  Some ((Some <$> (l ++ [v])) ++ replicate n None).
Proof.
  unfold awrite. rewrite length_app, length_fmap, length_replicate.
  destruct (Z.leb_spec 1 (Z.of_nat (length l) + 1)); [|lia].
  destruct (Z.leb_spec (Z.of_nat (length l) + 1) (Z.of_nat (length l + S n))); [|lia]. cbn [andb]. f_equal.
  replace (Z.to_nat (Z.of_nat (length l) + 1 - 1)) with (length (Some <$> l) + 0)%nat by (rewrite length_fmap; lia).
  rewrite insert_app_r. cbn [replicate insert list_insert]. by rewrite fmap_app, <- app_assoc.
Qed.

Lemma finish_full (l : list Var) : finish (Some <$> l) = Some l.
Proof. unfold finish. induction l as [|v l IH]; [done|]. cbn [fmap list_fmap mapM]. by rewrite IH. Qed.

(** The loop over names that are bytes of something. *)
Lemma add_names_spec (names : list bytes) (l : list Var) :
  fold_left (fun data n => fst (add_name data n)) names
    (Some ((Some <$> l) ++ replicate (length names) None), Z.of_nat (length l)) =
  (Some (Some <$> (l ++ (VStr <$> names))), Z.of_nat (length l + length names)).
Proof.
  revert l. induction names as [|n names IH]; intros l.
  - cbn [fmap list_fmap length replicate fold_left]. by rewrite !app_nil_r, Nat.add_0_r.
  - cbn [fold_left length]. unfold add_name at 2. cbn [fst snd mbind option_bind]. rewrite awrite_next.
    replace (Z.of_nat (length l) + 1) with (Z.of_nat (length (l ++ [VStr n]))) by (rewrite length_app; simpl; lia).
    rewrite IH, <- app_assoc, length_app. cbn [length fmap list_fmap app]. do 2 f_equal. lia.
Qed.

Lemma propdefs_loop_fold {A} (func : A -> bytes -> A * bool) (data : A) (l : list Propdef) :
  (forall a n, snd (func a n) = false) ->
  propdefs_loop func data l = (fold_left (fun a n => fst (func a n)) (pd_name <$> l) data, false).
Proof.
  intros Hf. revert data. induction l as [|p l IH]; intros data; [done|]. cbn [propdefs_loop fmap list_fmap fold_left].
  specialize (Hf data (pd_name p)). destruct (func data (pd_name p)) as [a b]. simpl in Hf. subst b. apply IH.
Qed.

Lemma properties_listed d oid o : table_ok d -> objects d !! oid = Some o -> pl_cur_length (o_propdefs o) <= INT32_MAX ->
  (n ← db_count_propdefs d oid;
   r ← new_list n;
   '((a, _), _) ← db_for_all_propdefs d oid add_name (Some r, 0);
   a ← a; l ← finish a; Some (make_var_pack (VList l))) =
  Some (make_var_pack (VList (VStr <$> (pd_name <$> pl_l (o_propdefs o))))).
Proof.
  intros Ht Ho Hlen. unfold db_count_propdefs, db_for_all_propdefs. rewrite find_object_objects, Ho by done.
  cbn [mbind option_bind]. unfold new_list, pl_cur_length in *. unfold INT32_MAX in Hlen.
  rewrite int_id by (unfold INT32_MIN, INT32_MAX; lia).
  destruct (Z.ltb_spec (Z.of_nat (length (pl_l (o_propdefs o)))) 0); [lia|]. cbn [mbind option_bind]. rewrite Nat2Z.id.
  rewrite propdefs_loop_fold by done. pose proof (add_names_spec (pd_name <$> pl_l (o_propdefs o)) []) as E.
  rewrite length_fmap in E. cbn [fmap list_fmap app length] in E. change (Z.of_nat 0) with 0 in E. rewrite E. cbn [mbind option_bind].
  by rewrite finish_full.
Qed.

(** *** Handles *)

Section Handles.
Context (d : db) (Hi : db_inv d) (oid : Z) (Hv : valid d oid = true) (name : bytes) (Hn : cstr name).

Definition found (h : db_prop_handle) (a : Z) (pv : Pval) : Prop :=
  is_null h = false /\ is_built_in h = false /\ definer h = a /\
  ~ builtin_name (casefold name) /\ prop_lookup d oid (casefold name) = Some (a, pv) /\ read_slot d h = Some pv.

Lemma find_handle : exists h, db_find_property d oid name false = Some (h, None) /\
  ((is_null h = false /\ is_built_in h = true /\ builtin_name (casefold name)) \/
   (is_null h = true /\ is_built_in h = false /\ ~ builtin_name (casefold name) /\ prop_lookup d oid (casefold name) = None) \/
   exists a pv, found h a pv).
Proof.
  pose proof (ok_props d (inv_ok d Hi)) as Hp.
  destruct (find_property_spec d oid name Hp Hv Hn) as [H1 H2].
  destruct (decide (builtin_name (casefold name))) as [Hb|Hb].
  - destruct (H1 Hb) as (b & Hne & E). eexists. split; [exact E|]. left. split; [done|]. split; [|done].
    unfold is_built_in. by rewrite bool_decide_false.
  - specialize (H2 Hb). destruct (prop_lookup d oid (casefold name)) as [[a pv]|] eqn:El.
    + destruct H2 as (n & v & E & Hr & _). apply find_property_handle in E. eexists. split; [exact E|].
      right. right. exists a, pv. repeat split; try done.
    + apply find_property_handle in H2. eexists. split; [exact H2|]. right. left. done.
Qed.

Lemma slot_allows_bool h a pv p flag : found h a pv ->
  exists b, db_property_allows d h p flag = Some b /\ (b = true <-> slot_allows d p pv flag) /\
    db_property_owner d h = Some (pv_owner pv) /\ db_property_flags d h = Some (pv_perms pv) /\
    db_property_value d h = Some (pv_var pv).
Proof.
  intros (_ & Hb & _ & _ & _ & Hr). unfold is_built_in in Hb. apply negb_false_iff, bool_decide_eq_true in Hb.
  unfold db_property_allows, db_property_owner, db_property_flags, db_property_value. rewrite Hb, Hr.
  cbn [mbind option_bind]. unfold slot_allows, has_perm.
  destruct (negb (Z.land (pv_perms pv) flag =? 0)).
  - exists true. split; [done|]. split; [by split; [left|]|done].
  - eexists. split; [done|]. split; [|done]. rewrite orb_true_iff, Z.eqb_eq. naive_solver.
Qed.
End Handles.

(** *** Values of lookups *)

Lemma lookup_not_builtin d x k a pv : props_ok d -> prop_lookup d x k = Some (a, pv) -> ~ builtin_name k.
Proof.
  intros Hp H. unfold prop_lookup, pview in H. destruct (ancestors d x) as [l|]; [|done].
  destruct (propval d x) as [v|]; [|done]. apply assoc_In in H as (p & Hin & <-).
  apply elem_of_keys in Hin as [_ Hin]. pose proof (own_ok d Hp a) as Ho. rewrite Forall_forall in Ho.
  by destruct (Ho p Hin) as (_ & _ & ?).
Qed.

(** A change of values only leaves handles as they are. *)
Lemma find_prop_loop_same d d' : same_but_propval d d' -> table_ok d -> forall fuel o o' hash name n,
  set_propval [] <$> o' = set_propval [] <$> o ->
  find_prop_loop fuel d' o' hash name n = find_prop_loop fuel d o hash name n.
Proof.
  intros Hs Ht. pose proof (same_table d d' Hs Ht) as Ht'.
  assert (G : forall (o o' : Object), set_propval [] o' = set_propval [] o ->
     o_propdefs o' = o_propdefs o /\ o_parent o' = o_parent o /\ o_id o' = o_id o).
  { intros [] []. unfold set_propval. simpl. by intros [= -> -> -> -> -> -> -> -> -> -> -> ->]. }
  induction fuel as [|f IH]; intros o o' hash name n E; destruct o' as [o'|], o as [o|]; try done;
    injection E as E; destruct (G _ _ E) as (E1 & E2 & E3); cbn [find_prop_loop].
  rewrite E1, E2, E3. destruct (find_propdef hash name (pl_l (o_propdefs o)) 0); [done|].
  apply IH. rewrite !find_object_objects by done. apply Hs.
Qed.

Lemma find_property_same d d' oid name : same_but_propval d d' -> table_ok d ->
  db_find_property d' oid name false = db_find_property d oid name false.
Proof.
  intros Hs Ht. unfold db_find_property. destruct (find_builtin _ _ _); [done|].
  rewrite (same_size d d' Hs), (find_prop_loop_same d d' Hs Ht _ (dbpriv_find_object d oid)); [done|].
  rewrite !find_object_objects by (done || by eapply same_table). apply Hs.
Qed.

Lemma flag_agree d d' p f : agree o_flags d d' -> table_ok d -> table_ok d' ->
  valid_with_flag d' p f = valid_with_flag d p f.
Proof.
  intros Ha Ht Ht'. unfold valid_with_flag. rewrite !find_object_objects by done. specialize (Ha p). unfold has_flag.
  destruct (objects d' !! p) as [o'|], (objects d !! p) as [o|]; simpl in Ha; try done. by injection Ha as ->.
Qed.

Lemma same_wizard d d' p : same_but_propval d d' -> table_ok d -> is_wizard d' p = is_wizard d p.
Proof.
  intros Hs Ht. apply flag_agree; [|done|by eapply same_table]. by eapply same_agree; [|intros ? []].
Qed.

Lemma shape_agree {A} (g : Object -> A) d d' : same_shape d d' -> (forall o, g (erase o) = g o) -> agree g d d'.
Proof.
  intros [_ H] Hg x. specialize (H x). destruct (objects d !! x) as [o|], (objects d' !! x) as [o'|];
    simpl in *; try done. injection H as H. f_equal. rewrite <- (Hg o'), <- (Hg o). congruence.
Qed.

Lemma shape_wizard d d' p : same_shape d d' -> table_ok d -> table_ok d' -> is_wizard d' p = is_wizard d p.
Proof. intros Hs Ht Ht'. apply flag_agree; [|done..]. by eapply shape_agree; [|intros []]. Qed.

Lemma shape_valid d d' x : same_shape d d' -> table_ok d -> table_ok d' -> valid d' x = valid d x.
Proof.
  intros [_ H] Ht Ht'. unfold valid. rewrite !find_object_objects by done. specialize (H x).
  by destruct (objects d' !! x), (objects d !! x).
Qed.

Lemma same_valid d d' x : same_but_propval d d' -> table_ok d -> valid d' x = valid d x.
Proof.
  intros Hs Ht. unfold valid. rewrite !find_object_objects by (done || by eapply same_table).
  pose proof (same_dom d d' x Hs) as H. destruct (objects d' !! x) as [o1|], (objects d !! x) as [o2|]; try done; exfalso.
  - destruct (proj1 H ltac:(eauto)). done.
  - destruct (proj2 H ltac:(eauto)). done.
Qed.

(** *** Setting the owner and the flags of a slot *)

(** The last part of [set_prop_info], for the handle found. *)
Lemma set_info_does d oid name h a pv p owner flags : db_inv d -> valid d oid = true -> cstr name ->
  db_find_property d oid name false = Some (h, None) -> found d oid name h a pv ->
  slot_allows d p pv PF_WRITE -> (is_wizard d p = true \/ pv_owner pv = owner) ->
  exists d1 d2, db_set_property_owner d h owner = Some d1 /\ db_set_property_flags d1 h flags = Some d2 /\
    does p d [OpPropOwner oid name owner; OpPropFlags oid name flags] d2.
Proof.
  intros Hi Hv Hn Eh (Hnull & Hb & Hd & Hbi & Hl & Hr) Hal How. pose proof (inv_ok d Hi) as [Hp _ _].
  pose proof (po_tree d Hp) as Htr. assert (Ht : table_ok d) by apply Htr.
  assert (Hpre : has_prop d oid name (fun _ => True)) by (split; [done|]; split; [done|]; split; [done|]; by exists a, pv).
  destruct (inv_prop_slot d oid name (VInt 0) owner flags _ Hi Hpre) as (h' & x1 & d1 & x3 & Eh' & _ & E1 & _ & _ & Hi1 & _ & a' & pv' & Hl' & HF);
    [done|]. rewrite Eh in Eh'. injection Eh' as <-. rewrite Hl in Hl'. injection Hl' as <- <-.
  apply Forall2_cons in HF as [_ HF]. apply Forall2_cons in HF as [[Hs L] _].
  assert (Hv1 : valid d1 oid = true) by by rewrite (same_valid d d1).
  assert (Hl1 : prop_lookup d1 oid (casefold name) = Some (a, set_pv_owner owner pv)) by (rewrite L; by rewrite decide_True).
  assert (Hpre1 : has_prop d1 oid name (fun _ => True)) by (split; [done|]; split; [done|]; split; [done|]; by exists a, (set_pv_owner owner pv)).
  destruct (inv_prop_slot d1 oid name (VInt 0) owner flags _ Hi1 Hpre1) as (h' & y1 & y2 & d2 & Eh' & _ & _ & E2 & _); [done|].
  rewrite (find_property_same d d1) in Eh' by done. rewrite Eh in Eh'. injection Eh' as <-.
  exists d1, d2. split; [done|]. split; [done|]. econstructor; [|exact Hpre| |apply does_one; [|exact Hpre1|]].
  - exists a, pv. split; [done|]. split; [done|]. tauto.
  - cbn [exec]. rewrite Eh. exact E1.
  - exists a, (set_pv_owner owner pv). split; [done|]. unfold slot_allows in *. cbn [pv_owner set_pv_owner].
    rewrite (same_wizard d d1) by done. change (has_perm (set_pv_owner owner pv) PF_WRITE) with (has_perm pv PF_WRITE).
    destruct Hal as [?|[->|?]]; [by left| |by right; right]. destruct How as [?|How]; [by right; right|right; left; done].
  - cbn [exec]. rewrite (find_property_same d d1), Eh by done. exact E2.
Qed.

(** *** The functions *)

Section Functions.
Context (d : db) (Hi : db_inv d) (Hroom : room d) (p oid : Z).

Lemma validate_valid info owner flags name : validate_prop_info d info = inr (owner, flags, name) ->
  forall s, name = Some s -> VStr s ∈ (match info with VList l => l | _ => [] end).
Proof.
  unfold validate_prop_info. intros H s ->. repeat case_match; simplify_eq; set_solver.
Qed.

Lemma set_prop_info_obeys pname info : cstr pname -> wf_value info ->
  obeys property_op p d ('(d, e) ← set_prop_info oid pname info p d; Some (finish_pack d e)).
Proof.
  intros Hn Hwf. unfold set_prop_info. destruct (valid d oid) eqn:Hv; cbn [negb]; [|apply obeys_nothing].
  destruct (validate_prop_info d info) as [e|[[owner flags] new_name]] eqn:Ev; [apply obeys_nothing|].
  destruct (find_handle d Hi oid Hv pname Hn) as (h & Eh & Hcase). rewrite Eh. cbn [mbind option_bind].
  destruct Hcase as [(-> & -> & _)|[(-> & _)|(a & pv & Hf)]]; [apply obeys_nothing..|].
  pose proof Hf as (-> & -> & Hda & Hb & Hl & Hr). cbn [orb].
  destruct (slot_allows_bool d oid pname h a pv p PF_WRITE Hf) as (b & -> & Hal & -> & _ & _). cbn [mbind option_bind].
  destruct (negb b || _) eqn:Eperm; [apply obeys_nothing|]. apply orb_false_iff in Eperm as [Eb Ew].
  apply negb_false_iff in Eb. subst b. assert (Hallow : slot_allows d p pv PF_WRITE) by by apply Hal.
  assert (How : is_wizard d p = true \/ pv_owner pv = owner).
  { destruct (is_wizard d p); [by left|]. right. simpl in Ew. apply negb_false_iff, Z.eqb_eq in Ew. done. }
  destruct new_name as [new_name|].
  - assert (Hnn : cstr new_name).
    { pose proof (validate_valid _ _ _ _ Ev new_name eq_refl) as Hin. destruct info as [| | | | | | | | |]; try (apply elem_of_nil in Hin; destruct Hin).
      apply wf_value_list in Hwf as [_ Hwf]. rewrite Forall_forall in Hwf. by apply wf_value_str, Hwf. }
    destruct (inv_rename_prop d oid pname new_name Hi Hv Hn Hnn) as (d1 & b & E1 & Hi1 & Heff). rewrite E1. cbn [mbind option_bind].
    destruct b; cbn [negb]; [|subst d1; apply obeys_nothing]. destruct Heff as (Hs & _ & L).
    pose proof (inv_ok d1 Hi1) as [Hp1 _ _]. pose proof (inv_ok d Hi) as [Hp0 _ _].
    assert (Ht0 : table_ok d) by apply Hp0. assert (Ht1 : table_ok d1) by apply Hp1.
    assert (Hv1 : valid d1 oid = true) by by rewrite (shape_valid d d1).
    assert (Hself : below d oid oid) by (apply below_refl; [apply Hp0|by apply valid_spec]).
    assert (Hl1 : prop_lookup d1 oid (casefold new_name) = Some (a, pv)).
    { rewrite L, decide_True by done. by rewrite decide_True. }
    destruct (find_handle d1 Hi1 oid Hv1 new_name Hnn) as (h1 & Eh1 & Hcase). rewrite Eh1. cbn [mbind option_bind].
    assert (Hf1 : found d1 oid new_name h1 a pv).
    { pose proof (lookup_not_builtin d1 _ _ _ _ Hp1 Hl1) as Hb1.
      destruct Hcase as [(_ & _ & ?)|[(_ & _ & _ & E)|(a' & pv' & Hf')]]; [done|by rewrite Hl1 in E|].
      pose proof Hf' as (_ & _ & _ & _ & E & _). rewrite Hl1 in E. by injection E as <- <-. }
    destruct (set_info_does d1 oid new_name h1 a pv p owner flags) as (d2 & d3 & -> & E3 & Hdo); [done..| | |].
    { unfold slot_allows. by rewrite (shape_wizard d d1). } { by rewrite (shape_wizard d d1). }
    cbn [mbind option_bind]. rewrite E3. cbn [mbind option_bind]. eapply obeys_does.
    + eapply (does_op p d (OpRenameProp oid pname new_name)); [by exists a, pv|done|cbn [exec]; by rewrite E1|exact Hdo].
    + by repeat constructor.
  - cbn [mbind option_bind]. destruct (set_info_does d oid pname h a pv p owner flags) as (d2 & d3 & -> & E3 & Hdo); [done..|].
    cbn [mbind option_bind]. rewrite E3. cbn [mbind option_bind]. eapply obeys_does; [done|by repeat constructor].
Qed.

Lemma bf_add_prop_obeys pname value info : cstr pname -> value <> VClear ->
  obeys property_op p d (bf_add_prop [VObj oid; VStr pname; value; info] p d).
Proof.
  intros Hn Hvc. unfold bf_add_prop.
  destruct (validate_prop_info d info) as [e|[[owner flags] new_name]] eqn:Ev; [apply obeys_nothing|].
  destruct (bool_decide (is_Some new_name)); [apply obeys_nothing|].
  destruct (valid d oid) eqn:Hv; cbn [negb]; [|apply obeys_nothing].
  assert (Ht : table_ok d) by apply (inv_ok d Hi).
  destruct (allows_valid d p oid FLAG_WRITE Ht Hv) as [b Eb]. rewrite Eb. cbn [mbind option_bind].
  destruct (negb b || _) eqn:Eperm; [apply obeys_nothing|]. apply orb_false_iff in Eperm as [Ebt Ew].
  apply negb_false_iff in Ebt. subst b. pose proof Hv as Hv'. apply valid_spec in Hv' as [o Ho]; [|done].
  pose proof (room_props d Hroom oid o Ho) as Hroom'.
  destruct (inv_add_prop d oid o pname value owner flags Hi Ho Hn Hvc Hroom') as (d1 & b & E1 & Hi1 & Heff).
  rewrite E1. cbn [mbind option_bind]. destruct b; [|subst d1; apply obeys_nothing].
  eapply obeys_does; [apply (does_one p d (OpAddProp oid pname value owner flags)); [| |cbn [exec]; by rewrite E1]|by repeat constructor].
  - split; [done|]. apply andb_false_iff in Ew as [Ew|Ew]; apply negb_false_iff in Ew; [left; by apply Z.eqb_eq|by right].
  - split; [done|]. split; [done|]. by exists o.
Qed.

Lemma bf_delete_prop_obeys pname : cstr pname -> obeys property_op p d (bf_delete_prop [VObj oid; VStr pname] p d).
Proof.
  intros Hn. unfold bf_delete_prop. destruct (valid d oid) eqn:Hv; cbn [negb]; [|apply obeys_nothing].
  assert (Ht : table_ok d) by apply (inv_ok d Hi).
  destruct (allows_valid d p oid FLAG_WRITE Ht Hv) as [b Eb]. rewrite Eb. cbn [mbind option_bind].
  destruct b; cbn [negb]; [|apply obeys_nothing].
  destruct (inv_delete_prop d oid pname Hi Hv Hn) as (d1 & b & E1 & Hi1 & Heff).
  rewrite E1. cbn [mbind option_bind]. destruct b; [|subst d1; apply obeys_nothing].
  eapply obeys_does; [apply (does_one p d (OpDeleteProp oid pname)); [done|done|cbn [exec]; by rewrite E1]|by repeat constructor].
Qed.

Lemma bf_clear_prop_obeys pname : cstr pname -> obeys property_op p d (bf_clear_prop [VObj oid; VStr pname] p d).
Proof.
  intros Hn. unfold bf_clear_prop. destruct (valid d oid) eqn:Hv; cbn [negb]; [|apply obeys_nothing].
  destruct (find_handle d Hi oid Hv pname Hn) as (h & Eh & Hcase). rewrite Eh. cbn [mbind option_bind].
  destruct Hcase as [(-> & -> & _)|[(-> & _)|(a & pv & Hf)]]; [apply obeys_nothing..|].
  pose proof Hf as (-> & -> & Hda & Hb & Hl & Hr).
  destruct (slot_allows_bool d oid pname h a pv p PF_WRITE Hf) as (b & _ & _ & -> & _ & _). cbn [mbind option_bind].
  destruct (negb (p =? pv_owner pv) && negb (is_wizard d p)) eqn:Ew; [apply obeys_nothing|].
  rewrite Hda. destruct (Z.eqb_spec a oid) as [|Hne]; [apply obeys_nothing|].
  assert (Hpre : has_prop d oid pname (fun a => a = oid -> VClear <> VClear)).
  { split; [done|]. split; [done|]. split; [done|]. by exists a, pv. }
  destruct (inv_prop_slot d oid pname VClear 0 0 _ Hi Hpre) as (h' & d1 & d2 & d3 & Eh' & E1 & _); [done|].
  rewrite Eh in Eh'. injection Eh' as <-. rewrite E1. cbn [mbind option_bind].
  eapply obeys_does; [apply (does_one p d (OpPropValue oid pname VClear)); [|exact Hpre|cbn [exec]; rewrite Eh; exact E1]|by repeat constructor].
  exists a, pv. split; [done|]. apply andb_false_iff in Ew as [Ew|Ew]; apply negb_false_iff in Ew; [left; by apply Z.eqb_eq|by right].
Qed.

Lemma bf_reads_obey pname : cstr pname ->
  obeys property_op p d (reads bf_properties [VObj oid] p d) /\ obeys property_op p d (reads bf_prop_info [VObj oid; VStr pname] p d) /\
  obeys property_op p d (reads bf_is_clear_prop [VObj oid; VStr pname] p d).
Proof.
  intros Hn. assert (Ht : table_ok d) by apply (inv_ok d Hi). unfold reads.
  assert (Hfh : valid d oid = true -> exists h, db_find_property d oid pname false = Some (h, None) /\
    (is_null h = true \/ is_built_in h = true \/ exists a pv, found d oid pname h a pv)).
  { intros Hv. destruct (find_handle d Hi oid Hv pname Hn) as (h & Eh & Hcase). exists h. split; [done|]. tauto. }
  split; [|split].
  - unfold bf_properties. destruct (valid d oid) eqn:Hv; cbn [negb]; [|apply obeys_nothing].
    destruct (allows_valid d p oid FLAG_READ Ht Hv) as [b ->]. cbn [mbind option_bind]. destruct b; cbn [negb]; [|apply obeys_nothing].
    apply valid_spec in Hv as [o Ho]; [|done]. rewrite (properties_listed d oid o Ht Ho); [apply obeys_nothing|].
    pose proof (room_props d Hroom oid o Ho). pose proof (po_defs d (ok_props d (inv_ok d Hi)) oid o Ho) as [_ Hlen].
    unfold INT32_MAX, pl_cur_length in *. lia.
  - unfold bf_prop_info. destruct (valid d oid) eqn:Hv; cbn [negb]; [|apply obeys_nothing].
    destruct (Hfh eq_refl) as (h & -> & Hc). cbn [mbind option_bind]. destruct Hc as [-> |[-> |(a & pv & Hf)]]; [apply obeys_nothing|rewrite orb_true_r; apply obeys_nothing|].
    pose proof Hf as (-> & -> & _). cbn [orb].
    destruct (slot_allows_bool d oid pname h a pv p PF_READ Hf) as (b & -> & _ & -> & -> & _). cbn [mbind option_bind].
    destruct b; apply obeys_nothing.
  - unfold bf_is_clear_prop. destruct (valid d oid) eqn:Hv; cbn [negb]; [|apply obeys_nothing].
    destruct (Hfh eq_refl) as (h & -> & Hc). cbn [mbind option_bind]. destruct Hc as [-> |[-> |(a & pv & Hf)]]; [apply obeys_nothing|destruct (is_null h); apply obeys_nothing|].
    pose proof Hf as (-> & -> & _).
    destruct (slot_allows_bool d oid pname h a pv p PF_READ Hf) as (b & -> & _ & _ & _ & ->). cbn [mbind option_bind].
    destruct b; apply obeys_nothing.
Qed.
End Functions.

(** *** Quotas *)

Lemma quota_name_ok : cstr quota_name /\ ~ builtin_name (casefold quota_name).
Proof.
  split; [apply cstrb_ok; reflexivity|]. apply (bool_decide_eq_false_1 (builtin_name _)). vm_compute. reflexivity.
Qed.

Lemma effective_ext d d' l k : (forall y, y ∈ l -> prop_lookup d' y k = prop_lookup d y k) ->
  effective d' l k = effective d l k.
Proof.
  induction l as [|y l IH]; intros H; [done|]. cbn [effective]. rewrite H by set_solver.
  destruct (prop_lookup d y k) as [[a pv]|]; [|done]. cbn [mbind option_bind]. rewrite IH by set_solver. done.
Qed.

(** Writing the quota that has been found. *)
Lemma quota_spec player d : db_inv d -> valid d player = true ->
  match prop_value d player (casefold quota_name) with
  | Some (VInt n) => exists h, quota_of player d = Some (Some (h, n)) /\
      forall v, v <> VClear -> exists d', db_set_property_value d h v = Some d' /\ db_inv d' /\ same_but_propval d d' /\
        prop_value d' player (casefold quota_name) = Some v
  | _ => quota_of player d = Some None
  end.
Proof.
  intros Hi Hv. unfold quota_of. generalize quota_name_ok. generalize quota_name as name. intros name [Hn Hb].
  pose proof (ok_props d (inv_ok d Hi)) as Hp. destruct (find_property_spec d player name Hp Hv Hn) as [_ H].
  specialize (H Hb). rewrite Hv. cbn [negb].
  destruct (prop_lookup d player (casefold name)) as [[a pv]|] eqn:El.
  - destruct H as (n & v & E & _ & -> & _). rewrite E. cbn [mbind option_bind].
    apply find_property_handle in E. destruct v; try done. eexists. split; [done|]. intros v Hvc.
    assert (Hpre : has_prop d player name (fun a => a = player -> v <> VClear)).
    { split; [done|]. split; [done|]. split; [done|]. by exists a, pv. }
    destruct (inv_prop_slot d player name v 0 0 _ Hi Hpre) as (h' & d1 & x2 & x3 & Eh & E1 & _ & _ & Hi1 & _ & _ & a' & pv' & Hl' & HF);
      [by auto|]. rewrite E in Eh. injection Eh as <-. rewrite El in Hl'. injection Hl' as <- <-.
    apply Forall2_cons in HF as [[Hs L] _]. exists d1. split; [done|]. split; [done|]. split; [done|].
    unfold prop_value. rewrite (same_ancestors d d1) by done. apply valid_spec in Hv as [o Ho]; [|apply Hp].
    destruct (tree_ancestors d (po_tree d Hp) player ltac:(by eexists)) as [l ->]. cbn [mbind option_bind effective].
    rewrite L, decide_True by done. cbn [mbind option_bind pv_var set_pv_var]. by destruct v.
  - rewrite H. cbn [mbind option_bind]. apply valid_spec in Hv as [o Ho]; [|apply Hp]. unfold prop_value.
    destruct (tree_ancestors d (po_tree d Hp) player ltac:(by eexists)) as [l ->]. cbn [mbind option_bind effective].
    by rewrite El.
Qed.

(** The quota counts down to zero and up again; without a quota that is a
    number nothing is counted. *)
Lemma decr_quota_spec player d : db_inv d -> exists d' b, decr_quota player d = Some (d', b) /\ db_inv d' /\
  same_but_propval d d' /\
  match (if valid d player then prop_value d player (casefold quota_name) else None) with
  | Some (VInt n) => if n <=? 0 then d' = d /\ b = false
                     else b = true /\ prop_value d' player (casefold quota_name) = Some (VInt (n - 1))
  | _ => d' = d /\ b = true
  end.
Proof.
  intros Hi. pose proof (quota_spec player d Hi) as H. unfold decr_quota. destruct (valid d player) eqn:Hv.
  2: { unfold quota_of. rewrite Hv. exists d, true. by split; [|split; [|split; [apply same_refl|]]]. }
  specialize (H eq_refl). destruct (prop_value d player (casefold quota_name)) as [v|].
  2: { rewrite H. exists d, true. by split; [|split; [|split; [apply same_refl|]]]. }
  destruct v; try (rewrite H; exists d, true; by split; [|split; [|split; [apply same_refl|]]]).
  destruct H as (h & -> & Hw). cbn [mbind option_bind]. destruct (n <=? 0).
  - exists d, false. by split; [|split; [|split; [apply same_refl|]]].
  - destruct (Hw (VInt (n - 1)) ltac:(done)) as (d' & -> & Hi' & Hs & Hq). cbn [mbind option_bind]. exists d', true. done.
Qed.

Lemma incr_quota_spec player d : db_inv d -> exists d', incr_quota player d = Some d' /\ db_inv d' /\
  same_but_propval d d' /\
  match (if valid d player then prop_value d player (casefold quota_name) else None) with
  | Some (VInt n) => prop_value d' player (casefold quota_name) = Some (VInt (Num (n + 1)))
  | _ => d' = d
  end.
Proof.
  intros Hi. pose proof (quota_spec player d Hi) as H. unfold incr_quota. destruct (valid d player) eqn:Hv.
  2: { unfold quota_of. rewrite Hv. exists d. by split; [|split; [|split; [apply same_refl|]]]. }
  specialize (H eq_refl). destruct (prop_value d player (casefold quota_name)) as [v|].
  2: { rewrite H. exists d. by split; [|split; [|split; [apply same_refl|]]]. }
  destruct v; try (rewrite H; exists d; by split; [|split; [|split; [apply same_refl|]]]).
  destruct H as (h & -> & Hw). cbn [mbind option_bind].
  destruct (Hw (VInt (Num (n + 1))) ltac:(done)) as (d' & -> & Hi' & Hs & Hq). exists d'. done.
Qed.

(** *** Isolation *)

(** Property [k] of [x] is out of the reach of the programmer [p]: [p] is no
    wizard, and can write neither [x] nor an ancestor of it, nor the slots in
    which they hold the property. *)
Definition shielded (p : Z) (d : db) (x : Z) (k : bytes) : Prop :=
  is_wizard d p = false /\ prop_lookup d x k <> None /\
  forall y, below d y x -> ~ may_write d p y /\
    forall a pv, prop_lookup d y k = Some (a, pv) -> has_perm pv PF_WRITE = false /\ pv_owner pv <> p.

(** Two databases with the same hierarchy, owners and flags. *)
Definition same_rights (d d' : db) : Prop :=
  agree o_flags d d' /\ agree o_owner d d' /\ agree o_parent d d' /\ table_ok d /\ table_ok d'.

Lemma rights_shape d d' : same_shape d d' -> table_ok d -> table_ok d' -> same_rights d d'.
Proof.
  intros Hs Ht Ht'. split; [by eapply shape_agree; [|intros []]|]. split; [by eapply shape_agree; [|intros []]|].
  split; [by eapply shape_agree; [|intros []]|done].
Qed.
Lemma rights_same d d' : same_but_propval d d' -> table_ok d -> same_rights d d'.
Proof.
  intros Hs Ht. split; [by eapply same_agree; [|intros ? []]|]. split; [by eapply same_agree; [|intros ? []]|].
  split; [by eapply same_agree; [|intros ? []]|]. split; [done|by eapply same_table].
Qed.

Lemma rights_may_write d d' p y : same_rights d d' -> may_write d' p y <-> may_write d p y.
Proof.
  intros (Hf & Ho & _ & Ht & Ht'). unfold may_write, db_object_allows, db_object_owner, db_object_has_flag, is_wizard.
  rewrite (flag_agree d d' p FLAG_WIZARD Hf Ht Ht'). specialize (Hf y). specialize (Ho y). unfold has_flag.
  destruct (objects d' !! y) as [o'|], (objects d !! y) as [o|]; simpl in Hf, Ho; try done.
  cbn [mbind option_bind]. injection Hf as ->. injection Ho as ->. done.
Qed.

Lemma slot_denied p d x k y a pv : shielded p d x k -> below d y x -> prop_lookup d y k = Some (a, pv) ->
  ~ slot_allows d p pv PF_WRITE.
Proof.
  intros (Hw & _ & H) Hy Hl. destruct (H y Hy) as [_ Hs]. destruct (Hs a pv Hl) as [H1 H2]. unfold slot_allows.
  rewrite H1, Hw. intros [?|[?|?]]; [done|by apply H2|done].
Qed.

(** A slot change that the shield does not allow is somewhere else. *)
Lemma slot_change_shielded p d x k name oid (d' : db) a' f y :
  shielded p d x k -> below d y x -> prop_allows d p oid name PF_WRITE ->
  (forall y k', prop_lookup d' y k' = if decide (y = oid /\ k' = casefold name) then Some (a', f) else prop_lookup d y k') ->
  prop_lookup d' y k = prop_lookup d y k.
Proof.
  intros Hs Hy (a & pv & Hl & Hal) L. rewrite L. destruct (decide _) as [[-> ->]|]; [|done].
  exfalso. by eapply slot_denied.
Qed.

Lemma step_shielded p d x k op d' : db_inv d -> shielded p d x k -> property_op op ->
  permitted p d op -> pre op d -> exec op d = Some d' ->
  same_rights d d' /\ forall y, below d y x -> prop_lookup d' y k = prop_lookup d y k.
Proof.
  intros Hi Hs Hop Hperm Hpre E. pose proof (ok_props d (inv_ok d Hi)) as Hp. assert (Ht : table_ok d) by apply Hp.
  pose proof (po_tree d Hp) as Htr. pose proof Hs as (Hw & Hne & Hsh).
  assert (Hrefl : forall d', d = d' -> same_rights d d' /\ forall y, below d y x -> prop_lookup d' y k = prop_lookup d y k).
  { intros ? <-. split; [|done]. apply rights_same; [apply same_refl|done]. }
  assert (Hslot : forall oid name (ok : Z -> Prop) v ow fl, has_prop d oid name ok -> (forall a, ok a -> a = oid -> v <> VClear) ->
    prop_allows d p oid name PF_WRITE \/ (exists a pv, prop_lookup d oid (casefold name) = Some (a, pv) /\ (p = pv_owner pv \/ is_wizard d p = true)) ->
    ('(h, _) ← db_find_property d oid name false; db_set_property_value d h v) = Some d' \/
    ('(h, _) ← db_find_property d oid name false; db_set_property_owner d h ow) = Some d' \/
    ('(h, _) ← db_find_property d oid name false; db_set_property_flags d h fl) = Some d' ->
    same_rights d d' /\ forall y, below d y x -> prop_lookup d' y k = prop_lookup d y k).
  { intros oid name ok v ow fl Hh Hvc Hal HE.
    assert (Hal' : prop_allows d p oid name PF_WRITE).
    { destruct Hal as [?|(a & pv & ? & ?)]; [done|]. exists a, pv. split; [done|]. by right. }
    destruct (inv_prop_slot d oid name v ow fl ok Hi Hh Hvc) as (h & d1 & d2 & d3 & Eh & E1 & E2 & E3 & _ & _ & _ & a & pv & _ & HF).
    apply Forall2_cons in HF as [[S1 L1] HF]. apply Forall2_cons in HF as [[S2 L2] HF]. apply Forall2_cons in HF as [[S3 L3] _].
    rewrite Eh in HE. cbn [mbind option_bind] in HE. rewrite E1, E2, E3 in HE.
    destruct HE as [[= <-]|[[= <-]|[= <-]]]; (split; [by apply rights_same|]); intros y Hy; by eapply slot_change_shielded. }
  destruct op; try (exfalso; exact Hop); cbn [exec] in E.
  - destruct Hperm as [Hmw _]. destruct Hpre as (Hn & Hv & o & Ho & Hm).
    destruct (inv_add_prop d oid o name value owner flags Hi Ho Hn Hv Hm) as (d1 & b & E1 & Hi1 & Heff).
    rewrite E1 in E. injection E as <-. destruct b; [|by apply Hrefl].
    destruct Heff as (Hsh' & _ & _ & L). split; [apply rights_shape; [done..|apply Hi1]|]. intros y Hy. apply L. intros [_ Hb].
    destruct (Hsh oid) as [Hno _]; [by eapply below_trans|done].
  - destruct Hpre as [Hv Hn].
    destruct (inv_delete_prop d oid name Hi Hv Hn) as (d1 & b & E1 & Hi1 & Heff).
    rewrite E1 in E. injection E as <-. destruct b; [|by apply Hrefl].
    destruct Heff as (Hsh' & L). split; [apply rights_shape; [done..|apply Hi1]|]. intros y Hy. rewrite L.
    destruct (decide _) as [[_ Hb]|]; [|done]. destruct (Hsh oid) as [Hno _]; [by eapply below_trans|done].
  - destruct Hpre as (Hv & Hn & Hn').
    destruct (inv_rename_prop d oid old new Hi Hv Hn Hn') as (d1 & b & E1 & Hi1 & Heff).
    rewrite E1 in E. injection E as <-. destruct b; [|by apply Hrefl].
    destruct Heff as (Hsh' & Hfree & L). split; [apply rights_shape; [done..|apply Hi1]|]. intros y Hy. rewrite L.
    destruct (decide (below d oid y)) as [Hb|]; [|done]. assert (Hox : below d oid x) by by eapply below_trans.
    destruct Hperm as (a & pv & Hl & Hal).
    assert (Hko : k <> casefold old) by (intros ->; by eapply slot_denied).
    rewrite (decide_False (P := k = casefold old)) by done. destruct (decide (k = casefold new)) as [-> |]; [|done].
    destruct Hfree as [?|[_ Hnone]]; [done|]. by rewrite Hnone in Hne.
  - eapply (Hslot oid name _ value 0 0 Hpre); [done| |by left]. destruct value; try (by left). by right.
  - eapply (Hslot oid name _ (VInt 0) owner 0 Hpre); [done| |by right; left]. left. destruct Hperm as (a & pv & ? & ? & _). by exists a, pv.
  - eapply (Hslot oid name _ (VInt 0) 0 flags Hpre); [done| |by right; right]. by left.
Qed.

Lemma does_shielded p d ops d' x k : does p d ops d' -> db_inv d -> shielded p d x k -> Forall property_op ops ->
  shielded p d' x k /\ ancestors d' x = ancestors d x /\
  forall y, below d y x -> prop_lookup d' y k = prop_lookup d y k.
Proof.
  intros H. revert x k. induction H as [|d op d1 ops d2 Hperm Hpre E H IH]; intros x k Hi Hs Hops; [done|].
  apply Forall_cons in Hops as [Hop Hops]. destruct (step_shielded p d x k op d1 Hi Hs Hop Hperm Hpre E) as [Hr L].
  assert (Hi1 : db_inv d1). { destruct (exec_inv d op Hi Hpre) as (d' & E' & ?). rewrite E in E'. by injection E' as <-. }
  assert (Hbelow : forall y, below d1 y x <-> below d y x).
  { intros y. unfold below. destruct Hr as (_ & _ & Hpa & _). by rewrite (ancestors_agree d d1). }
  assert (Hxx : is_Some (objects d !! x)).
  { destruct Hs as (_ & Hne & _). destruct (objects d !! x) as [o|] eqn:Ho; [eauto|]. exfalso. apply Hne.
    unfold prop_lookup, pview, propval. rewrite Ho. by destruct (ancestors d x). }
  assert (Hs1 : shielded p d1 x k).
  { destruct Hs as (Hw & Hne & Hsh). pose proof Hr as (Hf & _ & _ & Ht & Ht'). split; [unfold is_wizard; by rewrite (flag_agree d d1)|].
    split; [rewrite L; [done|apply below_refl; [apply (ok_props d (inv_ok d Hi))|done]]|].
    intros y Hy. apply Hbelow in Hy. destruct (Hsh y Hy) as [Hmw Hsl]. split; [by rewrite (rights_may_write d d1)|].
    intros a pv. rewrite L by done. apply Hsl. }
  destruct (IH x k Hi1 Hs1 Hops) as (Hs2 & Ha2 & L2). split; [done|].
  split; [rewrite Ha2; destruct Hr as (_ & _ & Hpa & _); by apply ancestors_agree|]. intros y Hy. rewrite L2 by by apply Hbelow. by apply L.
Qed.

(** ** Theorems *)
(** A sequence of calls of these functions by one programmer. *)
Inductive calls (p : Z) : db -> db -> Prop :=
| calls_none d : calls p d d
| calls_one d name mn mx proto f args d1 pk d2 : room d -> (name, mn, mx, proto, f) ∈ property_functions ->
    good_arguments mn mx proto args -> f args p d = Some (d1, pk) -> calls p d1 d2 -> calls p d d2.

Lemma property_functions_obey d p : db_inv d -> room d ->
  Forall (fun '(name, mn, mx, proto, f) =>
            forall args, good_arguments mn mx proto args -> obeys property_op p d (f args p d)) property_functions.
Proof.
  intros Hi Hroom. unfold property_functions.
  repeat (apply Forall_cons; split); [..|constructor]; intros args Hargs; open_good Hargs.
  all: repeat match goal with H : wf_value (VStr ?s) |- _ => apply wf_value_str in H end.
  - eapply (proj1 (bf_reads_obey d Hi Hroom p _ [] _)). Unshelve. constructor.
  - eapply (proj1 (proj2 (bf_reads_obey d Hi Hroom p _ _ _))). Unshelve. assumption.
  - apply set_prop_info_obeys; assumption.
  - apply bf_add_prop_obeys; [assumption..|]. by intros ->.
  - apply bf_delete_prop_obeys; assumption.
  - apply bf_clear_prop_obeys; assumption.
  - eapply (proj2 (proj2 (bf_reads_obey d Hi Hroom p _ _ _))). Unshelve. assumption.
Qed.

(** C13: the built-ins on properties are safe and keep to the permissions: with
    any arguments their prototypes accept they succeed or raise an error,
    never panic; what they change is a sequence of database operations each of
    which the programmer is permitted and whose precondition holds, so that the
    invariant of the database is kept; and with an error nothing has changed. *)
Theorem property_builtins_obey (d : db) (p : Z) :
  db_inv d -> room d ->
  Forall (fun '(name, mn, mx, proto, f) =>
            forall args, good_arguments mn mx proto args ->
              obeys property_op p d (f args p d) /\
              forall d' pk, f args p d = Some (d', pk) -> db_inv d') property_functions.
Proof.
  intros Hi Hroom. eapply Forall_impl; [by apply (property_functions_obey d p)|].
  intros [[[[name mn] mx] proto] f] H args Hargs. specialize (H args Hargs). split; [done|].
  destruct H as (d1 & pk1 & ops & E & Hd & _). intros d' pk E'. rewrite E in E'. injection E' as <- _.
  by eapply does_inv.
Qed.

Lemma sample_inv : db_inv sample.
Proof. split; [exact sample_ok|exact sample_verbs|exact I]. Qed.

Lemma objects_check (P : Object -> bool) d : forallb (fun p => P (snd p)) (map_to_list (objects d)) = true ->
  forall x o, objects d !! x = Some o -> P o = true.
Proof.
  rewrite forallb_forall. intros H x o Ho. apply (H (x, o)). by apply list_elem_of_In, elem_of_map_to_list.
Qed.

Lemma sample_room : room sample.
Proof.
  split; [| |vm_compute; reflexivity|left; vm_compute; reflexivity]; intros x o Ho.
  - apply (objects_check (fun o => 2 * pl_max_length (o_propdefs o) <=? INT32_MAX) sample) in Ho; [lia|vm_compute; reflexivity].
  - apply (objects_check (fun o => Z.of_nat (length (o_verbdefs o)) <? INT32_MAX) sample) in Ho; [lia|vm_compute; reflexivity].
Qed.

Lemma size_args : good_arguments 2 2 [TYPE_OBJ; TYPE_STR] [VObj 2; VStr (BS "size")].
Proof.
  split; [vm_compute; discriminate|]. split; [right; vm_compute; discriminate|].
  split; [|split; [constructor; [unfold wf_value, is_Num, NUM_MIN, NUM_MAX; lia|constructor; [apply wf_ascii; reflexivity|constructor]]|]].
  - intros k q a Hq Ha. destruct k as [|[|k]]; [injection Hq as <-; injection Ha as <-; reflexivity..|]. discriminate Hq.
  - intros l Hl. apply elem_of_cons in Hl as [Hl|Hl]; [discriminate|]. apply list_elem_of_singleton in Hl. discriminate.
Qed.

(** Anna, #4, deletes the property "size" of her ball, #2. *)
Example property_builtins_obey_witness :
  exists d', bf_delete_prop [VObj 2; VStr (BS "size")] 4 sample = Some (d', no_var_pack) /\ db_inv d'.
Proof.
  pose proof (property_builtins_obey sample 4 sample_inv sample_room) as H.
  do 4 apply Forall_inv_tail in H. apply Forall_inv in H. specialize (H [VObj 2; VStr (BS "size")]).
  destruct H as [_ H]; [exact size_args|].
  destruct (bf_delete_prop [VObj 2; VStr (BS "size")] 4 sample) as [[d' pk]|] eqn:E; [|vm_compute in E; discriminate].
  exists d'. split; [|exact (H d' pk eq_refl)]. assert (G : snd <$> bf_delete_prop [VObj 2; VStr (BS "size")] 4 sample = Some no_var_pack) by (vm_compute; reflexivity).
  rewrite E in G. injection G as ->. reflexivity.
Defined.

(** C12: isolation: a programmer who is no wizard and can write neither an
    object nor its ancestors, nor the slots in which they hold a property,
    cannot change the value that the object has for the property, nor its
    slots, by any sequence of calls of the built-ins on properties: not by
    deleting, redefining or renaming properties elsewhere in the hierarchy
    either. *)
Theorem property_isolation (d d' : db) (p x : Z) (k : bytes) :
  db_inv d -> shielded p d x k -> calls p d d' ->
  prop_value d' x k = prop_value d x k /\ prop_lookup d' x k = prop_lookup d x k /\ shielded p d' x k /\ db_inv d'.
Proof.
  intros Hi Hs Hc.
  assert (G : db_inv d' /\ shielded p d' x k /\ ancestors d' x = ancestors d x /\
              forall y, below d y x -> prop_lookup d' y k = prop_lookup d y k).
  { induction Hc as [d|d name mn mx proto f args d1 pk d2 Hroom Hin Hargs E Hc IH]; [done|].
    pose proof (property_functions_obey d p Hi Hroom) as H. rewrite Forall_forall in H. specialize (H _ Hin args Hargs).
    destruct H as (d1' & pk' & ops & E' & Hd & Hops & _). rewrite E in E'. injection E' as <- <-.
    destruct (does_shielded p d ops d1 x k Hd Hi Hs Hops) as (Hs1 & Ha1 & L1).
    destruct IH as (Hi2 & Hs2 & Ha2 & L2); [by eapply does_inv|done|].
    split; [done|]. split; [done|]. split; [congruence|]. intros y Hy. rewrite L2 by (unfold below; by rewrite Ha1). by apply L1. }
  destruct G as (Hi' & Hs' & Ha & L). pose proof Hs as (_ & Hne & _).
  assert (Hx : below d x x).
  { apply below_refl; [apply (ok_props d (inv_ok d Hi))|]. destruct (objects d !! x) as [o|] eqn:Ho; [eauto|]. exfalso. apply Hne.
    unfold prop_lookup, pview, propval. rewrite Ho. by destruct (ancestors d x). }
  split; [|split; [by apply L|done]]. unfold prop_value. rewrite Ha. destruct (ancestors d x) as [l|] eqn:El; [|done].
  cbn [mbind option_bind]. apply effective_ext. intros y Hy. apply L. by exists l.
Qed.

(** What Anna does to her ball does not touch the description of the room. *)
Example property_isolation_witness :
  exists d', bf_delete_prop [VObj 2; VStr (BS "size")] 4 sample = Some (d', no_var_pack) /\
    prop_value d' 3 (casefold (BS "description")) = Some (VStr (BS "a room")).
Proof.
  destruct (bf_delete_prop [VObj 2; VStr (BS "size")] 4 sample) as [[d' pk]|] eqn:E; [|vm_compute in E; discriminate].
  assert (G : snd <$> bf_delete_prop [VObj 2; VStr (BS "size")] 4 sample = Some no_var_pack) by (vm_compute; reflexivity).
  rewrite E in G. injection G as ->. exists d'. split; [reflexivity|].
  assert (Ev : prop_value sample 3 (casefold (BS "description")) = Some (VStr (BS "a room"))) by (vm_compute; reflexivity).
  assert (En : exists pv1 pv3, prop_lookup sample 1 (casefold (BS "description")) = Some (1, pv1) /\ pv_owner pv1 = 1 /\ pv_perms pv1 = 5 /\
    prop_lookup sample 3 (casefold (BS "description")) = Some (1, pv3) /\ pv_owner pv3 = 1 /\ pv_perms pv3 = 5).
  { eexists _, _. split; [vm_compute; reflexivity|]. split; [reflexivity|]. split; [reflexivity|].
    split; [vm_compute; reflexivity|]. split; reflexivity. }
  revert Ev En. generalize (casefold (BS "description")). intros k Ev (pv1 & pv3 & L1 & O1 & P1 & L3 & O3 & P3).
  destruct (property_isolation sample d' 4 3 k sample_inv) as [H _].
  - split; [reflexivity|]. split; [rewrite L3; discriminate|]. intros y (l & El & Hy).
    assert (El' : ancestors sample 3 = Some [3; 1]) by (vm_compute; reflexivity). rewrite El' in El. injection El as <-.
    apply elem_of_cons in Hy as [-> |Hy]; [|apply list_elem_of_singleton in Hy as ->].
    + split; [intros Hm; vm_compute in Hm; discriminate|]. intros a pv Hl. rewrite L3 in Hl. injection Hl as <- <-.
      unfold has_perm. rewrite P3, O3. split; [reflexivity|discriminate].
    + split; [intros Hm; vm_compute in Hm; discriminate|]. intros a pv Hl. rewrite L1 in Hl. injection Hl as <- <-.
      unfold has_perm. rewrite P1, O1. split; [reflexivity|discriminate].
  - apply (calls_one 4 sample (BS "delete_property") 2 2 [TYPE_OBJ; TYPE_STR] bf_delete_prop [VObj 2; VStr (BS "size")] d' no_var_pack d').
    + exact sample_room.
    + unfold property_functions. do 4 right. left.
    + exact size_args.
    + exact E.
    + apply calls_none.
  - rewrite H. exact Ev.
Defined.
