(* ===== verification/VerbBuiltins.v ===== *)
(** * The built-in functions on verbs (verbs.c)

    Conventions as in PropBuiltins.  The parser, which yacc generates from
    parser.y, is a parameter of [bf_set_verb_code]: the program or nothing, and
    the list of errors.  [same] is the comparison of pointers in
    [verbcasecmp]; [numeric] is the server option
    "support_numeric_verbname_strings". *)

From S2P Require Import Prelude Utf CString Values Streams Functions Lists Db Links Hierarchy Attributes Words Preps Verbs Properties PropView PropChange ChangeParent Objects Database Authority ListBuiltins PropBuiltins.

(** ** Definitions *)

Definition bf_verbs (arglist : list Var) (progr : Z) (d : db) : option package :=
  match arglist with
  | [VObj oid] =>
      if negb (valid d oid) then Some (make_error_pack E_INVARG)
      else
        allows ← db_object_allows d oid progr FLAG_READ;
        if negb allows then Some (make_error_pack E_PERM)
        else
          n ← db_count_verbs d oid;
          r ← new_list n;
          '((a, _), _) ← db_for_all_verbs d oid add_name (Some r, 0);
          a ← a; l ← finish a; Some (make_var_pack (VList l))
  | _ => None
  end.

Definition verb_letters : list (Z * Z) := [(VF_READ, 114); (VF_WRITE, 119); (VF_EXEC, 120); (VF_DEBUG, 100)].

(** The owner, the flags and the names without leading blanks. *)
Definition validate_verb_info (d : db) (v : Var) : error + Z * Z * bytes :=
  match v with
  | VList [VObj owner; VStr perms; VStr names] =>
      if negb (valid d owner) then inl E_INVARG
      else match parse_letters perms verb_letters 0 with
           | None => inl E_INVARG
           | Some flags =>
               match skip_spaces names with
               | [] => inl E_INVARG
               | names => inr (owner, flags, names)
               end
           end
  | _ => inl E_TYPE
  end.

Definition match_arg_spec (s : bytes) : option Z :=
  if mystrcasecmp s (BS "none") =? 0 then Some ASPEC_NONE
  else if mystrcasecmp s (BS "any") =? 0 then Some ASPEC_ANY
  else if mystrcasecmp s (BS "this") =? 0 then Some ASPEC_THIS
  else None.

(** The inner [None]: no such preposition. *)
Definition match_prep_spec (s : bytes) : option (option Z) :=
  if mystrcasecmp s (BS "none") =? 0 then Some (Some PREP_NONE)
  else if mystrcasecmp s (BS "any") =? 0 then Some (Some PREP_ANY)
  else spec ← db_match_prep s; Some (if spec =? PREP_NONE then None else Some spec).

Definition validate_verb_args (v : Var) : option (error + Z * Z * Z) :=
  match v with
  | VList [VStr dobj; VStr prep; VStr iobj] =>
      match match_arg_spec dobj with
      | None => Some (inl E_INVARG)
      | Some dobj =>
          prep ← match_prep_spec prep;
          Some (match prep, match_arg_spec iobj with
                | Some prep, Some iobj => inr (dobj, prep, iobj)
                | _, _ => inl E_INVARG
                end)
      end
  | _ => Some (inl E_TYPE)
  end.

Definition bf_add_verb (arglist : list Var) (progr : Z) (d : db) : option (db * package) :=
  match arglist with
  | [VObj oid; info; args] =>
      match validate_verb_info d info with
      | inl e => Some (finish_pack d (Some e))
      | inr (owner, flags, names) =>
          a ← validate_verb_args args;
          match a with
          | inl e => Some (finish_pack d (Some e))
          | inr (dobj, prep, iobj) =>
              if negb (valid d oid) then Some (finish_pack d (Some E_INVARG))
              else
                allows ← db_object_allows d oid progr FLAG_WRITE;
                if negb allows || (negb (progr =? owner) && negb (is_wizard d progr))
                then Some (finish_pack d (Some E_PERM))
                else '(d, n) ← db_add_verb d oid names owner flags dobj prep iobj; Some (d, make_int_pack n)
          end
      end
  | _ => None
  end.

(** The error, if there is one. *)
Definition validate_verb_descriptor (desc : Var) : option error :=
  match desc with
  | VStr _ => None
  | VInt n => if n <=? 0 then Some E_INVARG else None
  | _ => Some E_TYPE
  end.

Section Verbs.
Context (same : Verbdef -> bool) (numeric : bool).

(** The index is an [unsigned]: the number is cut to 32 bits. *)
Definition find_described_verb (d : db) (oid : Z) (desc : Var) : option (option handle) :=
  match desc with
  | VInt n => db_find_indexed_verb d oid (uwrap 32 n)
  | VStr s => db_find_defined_verb same d oid s numeric
  | _ => None
  end.

(** The checks that the functions on one verb begin with: an error, or the
    handle, which may be null. *)
Definition describe (d : db) (oid : Z) (desc : Var) : option (error + option handle) :=
  match validate_verb_descriptor desc with
  | Some e => Some (inl e)
  | None => if negb (valid d oid) then Some (inl E_INVARG)
            else h ← find_described_verb d oid desc; Some (inr h)
  end.

Definition bf_delete_verb (arglist : list Var) (progr : Z) (d : db) : option (db * package) :=
  match arglist with
  | [VObj oid; desc] =>
      match validate_verb_descriptor desc with
      | Some e => Some (finish_pack d (Some e))
      | None =>
          if negb (valid d oid) then Some (finish_pack d (Some E_INVARG))
          else
            allows ← db_object_allows d oid progr FLAG_WRITE;
            if negb allows then Some (finish_pack d (Some E_PERM))
            else
              h ← find_described_verb d oid desc;
              match h with
              | Some _ => d ← db_delete_verb d h; Some (finish_pack d None)
              | None => Some (finish_pack d (Some E_VERBNF))
              end
      end
  | _ => None
  end.

Definition bf_verb_info (arglist : list Var) (progr : Z) (d : db) : option package :=
  match arglist with
  | [VObj oid; desc] =>
      r ← describe d oid desc;
      match r with
      | inl e => Some (make_error_pack e)
      | inr None => Some (make_error_pack E_VERBNF)
      | inr h =>
          allows ← db_verb_allows d h progr VF_READ;
          if negb allows then Some (make_error_pack E_PERM)
          else
            owner ← db_verb_owner d h;
            flags ← db_verb_flags d h;
            names ← db_verb_names d h;
            Some (make_var_pack (VList [VObj owner; VStr (letters flags verb_letters); VStr names]))
      end
  | _ => None
  end.

Definition bf_set_verb_info (arglist : list Var) (progr : Z) (d : db) : option (db * package) :=
  match arglist with
  | [VObj oid; desc; info] =>
      match validate_verb_descriptor desc with
      | Some e => Some (finish_pack d (Some e))
      | None =>
          match (if negb (valid d oid) then inl E_INVARG else validate_verb_info d info) with
          | inl e => Some (finish_pack d (Some e))
          | inr (new_owner, new_flags, new_names) =>
              h ← find_described_verb d oid desc;
              match h with
              | None => Some (finish_pack d (Some E_VERBNF))
              | Some _ =>
                  allows ← db_verb_allows d h progr VF_WRITE;
                  owner ← db_verb_owner d h;
                  if negb allows || (negb (is_wizard d progr) && negb (owner =? new_owner))
                  then Some (finish_pack d (Some E_PERM))
                  else
                    d ← db_set_verb_owner d h new_owner;
                    d ← db_set_verb_flags d h new_flags;
                    d ← db_set_verb_names d h new_names;
                    Some (finish_pack d None)
              end
          end
      end
  | _ => None
  end.

(** [None] is a panic. *)
Definition unparse_arg_spec (spec : Z) : option bytes :=
  if spec =? ASPEC_NONE then Some (BS "none")
  else if spec =? ASPEC_ANY then Some (BS "any")
  else if spec =? ASPEC_THIS then Some (BS "this")
  else None.

Definition bf_verb_args (arglist : list Var) (progr : Z) (d : db) : option package :=
  match arglist with
  | [VObj oid; desc] =>
      r ← describe d oid desc;
      match r with
      | inl e => Some (make_error_pack e)
      | inr None => Some (make_error_pack E_VERBNF)
      | inr h =>
          allows ← db_verb_allows d h progr VF_READ;
          if negb allows then Some (make_error_pack E_PERM)
          else
            '(dobj, prep, iobj) ← db_verb_arg_specs d h;
            dobj ← unparse_arg_spec dobj;
            prep ← db_unparse_prep prep;
            iobj ← unparse_arg_spec iobj;
            Some (make_var_pack (VList [VStr dobj; VStr prep; VStr iobj]))
      end
  | _ => None
  end.

Definition bf_set_verb_args (arglist : list Var) (progr : Z) (d : db) : option (db * package) :=
  match arglist with
  | [VObj oid; desc; args] =>
      match validate_verb_descriptor desc with
      | Some e => Some (finish_pack d (Some e))
      | None =>
          a ← (if negb (valid d oid) then Some (inl E_INVARG) else validate_verb_args args);
          match a with
          | inl e => Some (finish_pack d (Some e))
          | inr (dobj, prep, iobj) =>
              h ← find_described_verb d oid desc;
              match h with
              | None => Some (finish_pack d (Some E_VERBNF))
              | Some _ =>
                  allows ← db_verb_allows d h progr VF_WRITE;
                  if negb allows then Some (finish_pack d (Some E_PERM))
                  else d ← db_set_verb_arg_specs d h dobj prep iobj; Some (finish_pack d None)
              end
          end
      end
  | _ => None
  end.

(** The parser, and whether the task ran out of time while it was at work. *)
Context (parse_list_as_program : Var -> option Program * Var) (task_timed_out : bool).

Definition bf_set_verb_code (arglist : list Var) (progr : Z) (d : db) : option (db * package) :=
  match arglist with
  | [VObj oid; desc; VList code] =>
      if negb (forallb (fun v => bool_decide (type_of v = TYPE_STR)) code) then Some (finish_pack d (Some E_TYPE))
      else
        r ← describe d oid desc;
        match r with
        | inl e => Some (finish_pack d (Some e))
        | inr None => Some (finish_pack d (Some E_VERBNF))
        | inr h =>
            denied ← (if negb (is_programmer d progr) then Some true
                      else allows ← db_verb_allows d h progr VF_WRITE; Some (negb allows));
            if denied : bool then Some (finish_pack d (Some E_PERM))
            else
              match parse_list_as_program (VList code) with
              | (Some program, errors) =>
                  if task_timed_out then Some (d, make_var_pack errors)
                  else d ← db_set_verb_program d h (Some program); Some (d, make_var_pack errors)
              | (None, errors) => Some (d, make_var_pack errors)
              end
        end
  | _ => None
  end.

Definition verb_functions :
    list (bytes * Z * Z * list var_type * (list Var -> Z -> db -> option (db * package))) :=
  [(BS "verbs", 1, 1, [TYPE_OBJ], reads bf_verbs);
   (BS "verb_info", 2, 2, [TYPE_OBJ; TYPE_ANY], reads bf_verb_info);
   (BS "set_verb_info", 3, 3, [TYPE_OBJ; TYPE_ANY; TYPE_LIST], bf_set_verb_info);
   (BS "verb_args", 2, 2, [TYPE_OBJ; TYPE_ANY], reads bf_verb_args);
   (BS "set_verb_args", 3, 3, [TYPE_OBJ; TYPE_ANY; TYPE_LIST], bf_set_verb_args);
   (BS "add_verb", 3, 3, [TYPE_OBJ; TYPE_LIST; TYPE_LIST], bf_add_verb);
   (BS "delete_verb", 2, 2, [TYPE_OBJ; TYPE_ANY], bf_delete_verb);
   (BS "set_verb_code", 3, 3, [TYPE_OBJ; TYPE_ANY; TYPE_LIST], bf_set_verb_code)].
End Verbs.

(** ** Lemmas *)

(** *** Rights at the start of a call

    [set_verb_info] tests its permissions once and may then take the write
    permission away before it sets the names, so the operations of a call are
    permitted in the database the call began with. *)

Inductive runs : db -> list db_op -> db -> Prop :=
| runs_nothing d : runs d [] d
| runs_op d op d1 ops d2 : pre op d -> exec op d = Some d1 -> runs d1 ops d2 -> runs d (op :: ops) d2.

Definition verb_op (op : db_op) : Prop :=
  match op with
  | OpAddVerb _ _ _ _ _ _ _ | OpDeleteVerb _ | OpVerbNames _ _ | OpVerbOwner _ _ | OpVerbFlags _ _
  | OpVerbProgram _ _ | OpVerbArgs _ _ _ _ => True
  | _ => False
  end.

Definition behaves (p : Z) (d : db) (r : option (db * package)) : Prop :=
  exists d' pk ops, r = Some (d', pk) /\ runs d ops d' /\ Forall (fun op => permitted p d op /\ verb_op op) ops /\
    ((exists e m v, pk = BI_RAISE e m v) -> d' = d).

Lemma runs_inv d ops d' : runs d ops d' -> db_inv d -> db_inv d'.
Proof.
  induction 1 as [|d op d1 ops d2 Hpre E _ IH]; [done|]. intros Hi. apply IH.
  destruct (exec_inv d op Hi Hpre) as (d' & E' & H). rewrite E in E'. by injection E' as <-.
Qed.

Lemma behaves_nothing p d pk : behaves p d (Some (d, pk)).
Proof. exists d, pk, []. split; [done|]. split; [constructor|]. split; [constructor|done]. Qed.

Lemma behaves_runs p d ops d' v : runs d ops d' -> Forall (fun op => permitted p d op /\ verb_op op) ops ->
  behaves p d (Some (d', BI_RETURN v)).
Proof. intros H HQ. exists d', (BI_RETURN v), ops. split; [done|]. split; [done|]. split; [done|]. by intros (? & ? & ? & ?). Qed.

Lemma behaves_one p d op d' v : permitted p d op -> verb_op op -> pre op d -> exec op d = Some d' ->
  behaves p d (Some (d', BI_RETURN v)).
Proof. intros. eapply behaves_runs; [eapply runs_op; [eassumption..|constructor]|by repeat constructor]. Qed.

(** A step that is bound to work. *)
Lemma runs_step d op : db_inv d -> pre op d -> exists d', exec op d = Some d' /\ db_inv d'.
Proof. intros. by apply exec_inv. Qed.

(** *** Finding the verb that an argument describes *)

Lemma find_in {A} (P : A -> bool) (l : list A) x : find P l = Some x -> x ∈ l.
Proof. intros [H _]%find_some. by apply list_elem_of_In. Qed.

Lemma deref_in d oid o v : objects d !! oid = Some o -> verbs_ok d -> v ∈ o_verbdefs o ->
  deref d (mkHandle oid (v_addr v)) = Some v.
Proof.
  intros Ho Hv Hin. unfold deref. simpl. rewrite Ho. cbn [mbind option_bind]. destruct (Hv oid o Ho) as [Hnd _].
  apply list_elem_of_split in Hin as (l1 & l2 & E). rewrite E in *. by apply find_unique.
Qed.

Lemma find_numbered (P : Z * Verbdef -> bool) (f : Z * Verbdef -> handle) d oid o n : db_inv d -> objects d !! oid = Some o ->
  (forall i v, f (i, v) = mkHandle (o_id o) (v_addr v)) ->
  exists h, Some (f <$> find P (zip (seqZ n (Z.of_nat (length (o_verbdefs o)))) (o_verbdefs o))) = Some h /\
    forall h', h = Some h' -> h_definer h' = oid /\ is_Some (deref d h').
Proof.
  intros Hi Ho Hf. eexists. split; [done|]. intros h'. destruct (find P _) as [[i v]|] eqn:E; [|done].
  intros [= <-]. rewrite Hf. pose proof (ok_props d (inv_ok d Hi)) as Hp.
  assert (Ht : table_ok d) by apply Hp. destruct Ht as (_ & _ & Hid). destruct (Hid oid o Ho) as [_ ->].
  split; [done|]. apply find_in, elem_of_zip_r in E. exists v. apply (deref_in d oid o); [done|apply Hi|done].
Qed.

Lemma find_described same numeric d oid desc : db_inv d -> valid d oid = true -> validate_verb_descriptor desc = None ->
  exists h, find_described_verb same numeric d oid desc = Some h /\
    forall h', h = Some h' -> h_definer h' = oid /\ is_Some (deref d h').
Proof.
  intros Hi Hv Hd. pose proof (ok_props d (inv_ok d Hi)) as Hp. assert (Ht : table_ok d) by apply Hp.
  apply valid_spec in Hv as [o Ho]; [|done].
  destruct desc; try (exfalso; discriminate Hd); cbn [find_described_verb].
  - unfold db_find_indexed_verb. rewrite find_object_objects, Ho by done. cbn [mbind option_bind].
    by apply find_numbered.
  - unfold db_find_defined_verb. rewrite find_object_objects, Ho by done. cbn [mbind option_bind].
    destruct (strtol _) as [k q]. by apply find_numbered.
Qed.

(** What the accessors answer through a good handle. *)
Lemma access d h v p f : deref d h = Some v ->
  db_verb_owner d (Some h) = Some (v_owner v) /\ db_verb_flags d (Some h) = Some (Z.land (v_perms v) PERMMASK) /\
  db_verb_names d (Some h) = Some (v_name v) /\ db_verb_arg_specs d (Some h) = Some (dobj_spec v, v_prep v, iobj_spec v) /\
  exists b, db_verb_allows d (Some h) p f = Some b.
Proof.
  intros E. unfold db_verb_allows, db_verb_owner, db_verb_flags, db_verb_names, db_verb_arg_specs.
  cbn [mbind option_bind]. rewrite E. cbn [mbind option_bind]. do 4 (split; [done|]). by eexists.
Qed.

(** Operations through a handle leave it good. *)
Definition handle_op (h : handle) (op : db_op) : Prop :=
  match op with
  | OpVerbNames h' _ | OpVerbOwner h' _ | OpVerbFlags h' _ | OpVerbProgram h' _ | OpVerbArgs h' _ _ _ => h' = h
  | _ => False
  end.

Lemma handle_step d h op : db_inv d -> is_Some (deref d h) -> handle_op h op ->
  exists d', exec op d = Some d' /\ pre op d /\ db_inv d' /\ is_Some (deref d' h).
Proof.
  intros Hi [v Hd] Hop. assert (Hpre : pre op d) by (destruct op; try (exfalso; exact Hop); simpl in *; subst; eauto).
  destruct (exec_inv d op Hi Hpre) as (d' & E & Hi'). exists d'. split; [done|]. split; [done|]. split; [done|].
  assert (G : forall d0 f, deref d0 h = Some v -> (forall v, v_addr (f v) = v_addr v) -> write_verb d0 h f = Some d' -> is_Some (deref d' h)).
  { intros d0 f H0 Hf E'. destruct (write_verb_spec d0 h v f H0 Hf) as (d2 & E2 & H2 & _). rewrite E2 in E'. injection E' as <-. eauto. }
  destruct (flush_fields d) as (c & Ec & _).
  destruct op; try (exfalso; exact Hop); simpl in Hop; subst; cbn [exec] in E;
    unfold db_set_verb_names, db_set_verb_owner, db_set_verb_flags, db_set_verb_program, db_set_verb_arg_specs in E;
    rewrite ?Ec in E; cbn [mbind option_bind] in E; (eapply G; [| |exact E]; [exact Hd|done]).
Qed.

(** *** Arguments *)

Lemma copy_alias_cstr s : cstr s -> cstr (fst (copy_alias s)).
Proof.
  unfold cstr. induction 1 as [|c s Hc Hs IH]; [constructor|]. cbn [copy_alias]. destruct (c =? slash); [constructor|].
  destruct (copy_alias s). simpl in *. by constructor.
Qed.

Lemma match_prep_total s : cstr s -> exists z, db_match_prep s = Some z.
Proof.
  intros Hs. unfold db_match_prep. destruct (strtol _) as [n q]. destruct q; [eauto|].
  rewrite words_of_spec by by apply copy_alias_cstr. cbn [mbind option_bind]. eauto.
Qed.

Lemma validate_args_total a : wf_value a -> exists r, validate_verb_args a = Some r.
Proof.
  intros Hwf. destruct a as [| | | |l| | | | |]; try (eexists; reflexivity).
  destruct l as [|[| |dobj| | | | | | |] [|[| |prep| | | | | | |] [|[| |iobj| | | | | | |] [|? ?]]]]; try (eexists; reflexivity).
  apply wf_value_list in Hwf as [_ Hwf]. apply Forall_cons in Hwf as [_ Hwf]. apply Forall_cons in Hwf as [Hwf _].
  apply wf_value_str in Hwf. cbn [validate_verb_args]. destruct (match_arg_spec dobj); [|eexists; reflexivity].
  assert (exists k, match_prep_spec prep = Some k) as [k ->]; [|cbn [mbind option_bind]; eexists; reflexivity].
  unfold match_prep_spec. destruct (_ =? 0); [by eexists|]. destruct (_ =? 0); [by eexists|].
  destruct (match_prep_total _ Hwf) as [k ->]. cbn [mbind option_bind]. by eexists.
Qed.

Lemma describe_spec same numeric d oid desc : db_inv d ->
  (exists e, describe same numeric d oid desc = Some (inl e)) \/
  describe same numeric d oid desc = Some (inr None) \/
  exists h v, describe same numeric d oid desc = Some (inr (Some h)) /\ h_definer h = oid /\ deref d h = Some v.
Proof.
  intros Hi. unfold describe. destruct (validate_verb_descriptor desc) eqn:Ed; [eauto|].
  destruct (valid d oid) eqn:Hv; cbn [negb]; [|eauto].
  destruct (find_described same numeric d oid desc Hi Hv Ed) as (h & -> & H). cbn [mbind option_bind].
  destruct h as [h|]; [|eauto]. destruct (H h eq_refl) as [? [v ?]]. right. right. eauto.
Qed.

(** The specifiers of all verbs can be printed. *)
Definition specs_ok (d : db) : Prop :=
  forall x o, objects d !! x = Some o ->
    Forall (fun v => 0 <= dobj_spec v <= 2 /\ 0 <= iobj_spec v <= 2 /\ is_Some (db_unparse_prep (v_prep v))) (o_verbdefs o).

Lemma verbs_loop_fold {A} (func : A -> bytes -> A * bool) (data : A) (l : list Verbdef) :
  (forall a n, snd (func a n) = false) ->
  verbs_loop func data l = (fold_left (fun a n => fst (func a n)) (v_name <$> l) data, false).
Proof.
  intros Hf. revert data. induction l as [|v l IH]; intros data; [done|]. cbn [verbs_loop fmap list_fmap fold_left].
  specialize (Hf data (v_name v)). destruct (func data (v_name v)) as [a b]. simpl in Hf. subst b. apply IH.
Qed.

Lemma verbs_listed d oid o : table_ok d -> objects d !! oid = Some o -> Z.of_nat (length (o_verbdefs o)) < INT32_MAX ->
  (n ← db_count_verbs d oid;
   r ← new_list n;
   '((a, _), _) ← db_for_all_verbs d oid add_name (Some r, 0);
   a ← a; l ← finish a; Some (make_var_pack (VList l))) =
  Some (make_var_pack (VList (VStr <$> (v_name <$> o_verbdefs o)))).
Proof.
  intros Ht Ho Hlen. unfold db_count_verbs, db_for_all_verbs. rewrite find_object_objects, Ho by done.
  cbn [mbind option_bind]. unfold new_list, INT32_MAX in *. 
  assert (E : int (Z.of_nat (length (o_verbdefs o))) = Z.of_nat (length (o_verbdefs o))) by (apply int_id; unfold INT32_MIN, INT32_MAX; lia).
  rewrite !E. clear E.
  destruct (Z.ltb_spec (Z.of_nat (length (o_verbdefs o))) 0); [lia|]. cbn [mbind option_bind]. rewrite Nat2Z.id.
  rewrite verbs_loop_fold by done. pose proof (add_names_spec (v_name <$> o_verbdefs o) []) as E.
  rewrite length_fmap in E. cbn [fmap list_fmap app length] in E. change (Z.of_nat 0) with 0 in E. rewrite E. cbn [mbind option_bind].
  by rewrite finish_full.
Qed.

(** *** The functions *)

Section Behaviour.
Context (same : Verbdef -> bool) (numeric : bool) (d : db) (Hi : db_inv d) (Hroom : room d) (p oid : Z).

Lemma bf_verbs_behaves : behaves p d (reads bf_verbs [VObj oid] p d).
Proof.
  assert (Ht : table_ok d) by apply (inv_ok d Hi). unfold reads, bf_verbs.
  destruct (valid d oid) eqn:Hv; cbn [negb]; [|apply behaves_nothing].
  destruct (allows_valid d p oid FLAG_READ Ht Hv) as [b ->]. cbn [mbind option_bind]. destruct b; cbn [negb]; [|apply behaves_nothing].
  apply valid_spec in Hv as [o Ho]; [|done]. rewrite (verbs_listed d oid o Ht Ho); [apply behaves_nothing|].
  by apply (room_verbs d Hroom oid).
Qed.

Lemma bf_add_verb_behaves info args : wf_value args -> behaves p d (bf_add_verb [VObj oid; info; args] p d).
Proof.
  intros Hwf. unfold bf_add_verb. destruct (validate_verb_info d info) as [e|[[owner flags] names]]; [apply behaves_nothing|].
  destruct (validate_args_total args Hwf) as [r ->]. cbn [mbind option_bind].
  destruct r as [e|[[dobj prep] iobj]]; [apply behaves_nothing|].
  destruct (valid d oid) eqn:Hv; cbn [negb]; [|apply behaves_nothing].
  assert (Ht : table_ok d) by apply (inv_ok d Hi).
  destruct (allows_valid d p oid FLAG_WRITE Ht Hv) as [b Eb]. rewrite Eb. cbn [mbind option_bind].
  destruct (negb b || _) eqn:Eperm; [apply behaves_nothing|]. apply orb_false_iff in Eperm as [Ebt Ew].
  apply negb_false_iff in Ebt. subst b. apply valid_spec in Hv as [o Ho]; [|done].
  destruct (inv_add_verb d oid o names owner flags dobj prep iobj Hi Ho) as (d1 & n & E1 & Hi1); [by apply (room_verbs d Hroom oid)|].
  rewrite E1. cbn [mbind option_bind].
  apply (behaves_one p d (OpAddVerb oid names owner flags dobj prep iobj)); [|done| |cbn [exec]; by rewrite E1].
  - split; [done|]. apply andb_false_iff in Ew as [Ew|Ew]; apply negb_false_iff in Ew; [left; by apply Z.eqb_eq|by right].
  - exists o. split; [done|]. by apply (room_verbs d Hroom oid).
Qed.

Lemma bf_delete_verb_behaves desc : behaves p d (bf_delete_verb same numeric [VObj oid; desc] p d).
Proof.
  unfold bf_delete_verb. destruct (validate_verb_descriptor desc) eqn:Ed; [apply behaves_nothing|].
  destruct (valid d oid) eqn:Hv; cbn [negb]; [|apply behaves_nothing].
  assert (Ht : table_ok d) by apply (inv_ok d Hi).
  destruct (allows_valid d p oid FLAG_WRITE Ht Hv) as [b Eb]. rewrite Eb. cbn [mbind option_bind].
  destruct b; cbn [negb]; [|apply behaves_nothing].
  destruct (find_described same numeric d oid desc Hi Hv Ed) as (h & -> & H). cbn [mbind option_bind].
  destruct h as [h|]; [|apply behaves_nothing]. destruct (H h eq_refl) as [<- Hd].
  destruct (runs_step d (OpDeleteVerb h) Hi Hd) as (d1 & E & _). cbn [exec] in E. rewrite E. cbn [mbind option_bind].
  by apply (behaves_one p d (OpDeleteVerb h)).
Qed.

Lemma bf_verb_info_behaves desc : behaves p d (reads (bf_verb_info same numeric) [VObj oid; desc] p d).
Proof.
  unfold reads, bf_verb_info. destruct (describe_spec same numeric d oid desc Hi) as [[e ->]|[-> |(h & v & -> & _ & Hd)]];
    cbn [mbind option_bind]; [apply behaves_nothing..|].
  destruct (access d h v p VF_READ Hd) as (-> & -> & -> & _ & b & ->). cbn [mbind option_bind]. destruct b; apply behaves_nothing.
Qed.

Lemma bf_set_verb_info_behaves desc info : behaves p d (bf_set_verb_info same numeric [VObj oid; desc; info] p d).
Proof.
  unfold bf_set_verb_info. destruct (validate_verb_descriptor desc) eqn:Ed; [apply behaves_nothing|].
  destruct (valid d oid) eqn:Hv; cbn [negb]; [|apply behaves_nothing].
  destruct (validate_verb_info d info) as [e|[[owner flags] names]]; [apply behaves_nothing|].
  destruct (find_described same numeric d oid desc Hi Hv Ed) as (h & -> & H). cbn [mbind option_bind].
  destruct h as [h|]; [|apply behaves_nothing]. destruct (H h eq_refl) as [_ [v Hd]].
  destruct (access d h v p VF_WRITE Hd) as (Eo & _ & _ & _ & b & Eb). rewrite Eo, Eb. cbn [mbind option_bind].
  destruct (negb b || _) eqn:Eperm; [apply behaves_nothing|]. apply orb_false_iff in Eperm as [Ebt Ew].
  apply negb_false_iff in Ebt. subst b.
  destruct (handle_step d h (OpVerbOwner h owner) Hi) as (d1 & E1 & P1 & Hi1 & Hd1); [by eexists|done|].
  destruct (handle_step d1 h (OpVerbFlags h flags) Hi1 Hd1) as (d2 & E2 & P2 & Hi2 & Hd2); [done|].
  destruct (handle_step d2 h (OpVerbNames h names) Hi2 Hd2) as (d3 & E3 & P3 & Hi3 & Hd3); [done|].
  cbn [exec] in E1, E2, E3. rewrite E1. cbn [mbind option_bind]. rewrite E2. cbn [mbind option_bind]. rewrite E3. cbn [mbind option_bind].
  eapply behaves_runs.
  - eapply (runs_op d (OpVerbOwner h owner)); [done|exact E1|]. eapply (runs_op d1 (OpVerbFlags h flags)); [done|exact E2|].
    eapply (runs_op d2 (OpVerbNames h names)); [done|exact E3|constructor].
  - apply Forall_cons. split; [split; [|done]|].
    + split; [done|]. apply andb_false_iff in Ew as [Ew|Ew]; apply negb_false_iff in Ew; [by right|left].
      apply Z.eqb_eq in Ew. by rewrite Eo, Ew.
    + repeat apply Forall_cons_2; [done..|constructor].
Qed.

Lemma unparse_arg_total z : 0 <= z <= 2 -> exists s, unparse_arg_spec z = Some s.
Proof.
  intros H. unfold unparse_arg_spec, ASPEC_NONE, ASPEC_ANY, ASPEC_THIS.
  destruct (Z.eqb_spec z 0); [by eexists|]. destruct (Z.eqb_spec z 1); [by eexists|]. destruct (Z.eqb_spec z 2); [by eexists|lia].
Qed.

Lemma bf_verb_args_behaves desc : specs_ok d -> behaves p d (reads (bf_verb_args same numeric) [VObj oid; desc] p d).
Proof.
  intros Hs. unfold reads, bf_verb_args. destruct (describe_spec same numeric d oid desc Hi) as [[e ->]|[-> |(h & v & -> & _ & Hd)]];
    cbn [mbind option_bind]; [apply behaves_nothing..|].
  destruct (access d h v p VF_READ Hd) as (_ & _ & _ & -> & b & ->). cbn [mbind option_bind].
  destruct b; cbn [negb]; [|apply behaves_nothing].
  destruct (deref_inv _ _ _ Hd) as (o & Ho & _ & Hin & _). pose proof (Hs _ o Ho) as Hf. rewrite Forall_forall in Hf.
  destruct (Hf v Hin) as (Hdo & Hio & [s Hp]).
  destruct (unparse_arg_total _ Hdo) as [s1 ->], (unparse_arg_total _ Hio) as [s2 ->]. rewrite Hp. cbn [mbind option_bind].
  apply behaves_nothing.
Qed.

Lemma bf_set_verb_args_behaves desc args : wf_value args -> behaves p d (bf_set_verb_args same numeric [VObj oid; desc; args] p d).
Proof.
  intros Hwf. unfold bf_set_verb_args. destruct (validate_verb_descriptor desc) eqn:Ed; [apply behaves_nothing|].
  destruct (valid d oid) eqn:Hv; cbn [negb]; [|apply behaves_nothing].
  destruct (validate_args_total args Hwf) as [r ->]. cbn [mbind option_bind].
  destruct r as [e|[[dobj prep] iobj]]; [apply behaves_nothing|].
  destruct (find_described same numeric d oid desc Hi Hv Ed) as (h & -> & H). cbn [mbind option_bind].
  destruct h as [h|]; [|apply behaves_nothing]. destruct (H h eq_refl) as [_ [v Hd]].
  destruct (access d h v p VF_WRITE Hd) as (_ & _ & _ & _ & b & Eb). rewrite Eb. cbn [mbind option_bind].
  destruct b; cbn [negb]; [|apply behaves_nothing].
  destruct (handle_step d h (OpVerbArgs h dobj prep iobj) Hi) as (d1 & E1 & P1 & _); [by eexists|done|].
  cbn [exec] in E1. rewrite E1. cbn [mbind option_bind]. by apply (behaves_one p d (OpVerbArgs h dobj prep iobj)).
Qed.

Lemma bf_set_verb_code_behaves parse out desc code :
  behaves p d (bf_set_verb_code same numeric parse out [VObj oid; desc; VList code] p d).
Proof.
  unfold bf_set_verb_code. destruct (negb (forallb _ code)); [apply behaves_nothing|].
  destruct (describe_spec same numeric d oid desc Hi) as [[e ->]|[-> |(h & v & -> & _ & Hd)]];
    cbn [mbind option_bind]; [apply behaves_nothing..|].
  destruct (access d h v p VF_WRITE Hd) as (_ & _ & _ & _ & b & Eb). rewrite Eb. cbn [mbind option_bind].
  destruct (is_programmer d p) eqn:Ep; cbn [negb mbind option_bind]; [|apply behaves_nothing].
  destruct b; cbn [negb mbind option_bind]; [|apply behaves_nothing].
  destruct (parse (VList code)) as [[program|] errors]; [|apply behaves_nothing].
  destruct out; [apply behaves_nothing|].
  destruct (handle_step d h (OpVerbProgram h (Some program)) Hi) as (d1 & E1 & P1 & _); [by eexists|done|].
  cbn [exec] in E1. rewrite E1. cbn [mbind option_bind]. by apply (behaves_one p d (OpVerbProgram h (Some program))).
Qed.
End Behaviour.

(** *** What is stored *)

Lemma parse_letters_range s f : 0 <= f < 16 -> forall g, parse_letters s verb_letters f = Some g -> 0 <= g < 16.
Proof.
  revert f. induction s as [|c s IH]; intros f Hf g; cbn [parse_letters]; [by intros [= <-]|].
  destruct (find _ verb_letters) as [q|] eqn:E; [|done]. apply IH. apply find_in in E.
  assert (Hq : 0 <= fst q < 16).
  { unfold verb_letters, VF_READ, VF_WRITE, VF_EXEC, VF_DEBUG in E. repeat (apply elem_of_cons in E as [->|E]; [simpl; lia|]). by apply elem_of_nil in E. }
  split; [apply Z.lor_nonneg; lia|]. destruct (Z.eqb_spec (Z.lor f (fst q)) 0) as [->|Hne]; [lia|].
  apply (Z.log2_lt_pow2 _ 4); [pose proof (proj2 (Z.lor_nonneg f (fst q)) ltac:(lia)); lia|].
  rewrite Z.log2_lor by lia. apply Z.max_lub_lt.
  - destruct (Z.eqb_spec f 0) as [->|]; [simpl; lia|]. apply Z.log2_lt_pow2; lia.
  - destruct (Z.eqb_spec (fst q) 0) as [->|]; [simpl; lia|]. apply Z.log2_lt_pow2; lia.
Qed.

(** The letters of the flags are read as the flags. *)
Lemma letters_parse f : 0 <= f < 16 -> parse_letters (letters f verb_letters) verb_letters 0 = Some f.
Proof.
  intros Hf. assert (H : forallb (fun f => bool_decide (parse_letters (letters f verb_letters) verb_letters 0 = Some f)) (seqZ 0 16) = true)
    by (vm_compute; reflexivity).
  rewrite forallb_forall in H. apply (bool_decide_eq_true_1 _), H, list_elem_of_In, elem_of_seqZ. lia.
Qed.

Lemma validate_info_range d v owner flags names : validate_verb_info d v = inr (owner, flags, names) ->
  0 <= flags < 16 /\ valid d owner = true.
Proof.
  unfold validate_verb_info. destruct v as [| | | |l| | | | |]; try done.
  destruct l as [|[|w| | | | | | | |] [|[| |perms| | | | | | |] [|[| |s| | | | | | |] [|? ?]]]]; try done.
  destruct (valid d w) eqn:Hv; [|done]. cbn [negb]. destruct (parse_letters perms verb_letters 0) as [f|] eqn:E; [|done].
  apply parse_letters_range in E; [|lia]. destruct (skip_spaces s); [done|]. by intros [= <- <- <-].
Qed.

Lemma match_arg_spec_range s z : match_arg_spec s = Some z -> 0 <= z <= 2.
Proof.
  unfold match_arg_spec, ASPEC_NONE, ASPEC_ANY, ASPEC_THIS.
  destruct (_ =? 0); [intros [= <-]; lia|]. destruct (_ =? 0); [intros [= <-]; lia|]. destruct (_ =? 0); [intros [= <-]; lia|done].
Qed.

(** Lookup by number depends on the addresses only. *)
Lemma indexed_agree d d' oid n : table_ok d -> table_ok d' ->
  (forall x, (map v_addr ∘ o_verbdefs) <$> objects d' !! x = (map v_addr ∘ o_verbdefs) <$> objects d !! x) ->
  db_find_indexed_verb d' oid n = db_find_indexed_verb d oid n.
Proof.
  intros Ht Ht' Ha. unfold db_find_indexed_verb. rewrite !find_object_objects by done. specialize (Ha oid).
  destruct Ht as (_ & _ & H), Ht' as (_ & _ & H').
  destruct (objects d !! oid) as [o|] eqn:Ho, (objects d' !! oid) as [o'|] eqn:Ho'; simpl in Ha; try done.
  cbn [mbind option_bind]. f_equal. destruct (H oid o Ho) as [_ ->], (H' oid o' Ho') as [_ ->]. injection Ha as Ha.
  assert (G : forall l, (fun '(_, v) => mkHandle oid (v_addr v)) <$> find (fun '(i, _) => i =? n) (zip (seqZ 1 (Z.of_nat (length l))) l) =
    (fun p => mkHandle oid (snd p)) <$> find (fun p => fst p =? n) (zip (seqZ 1 (Z.of_nat (length (map v_addr l)))) (map v_addr l))).
  { intros l. rewrite length_map. change (map v_addr l) with (v_addr <$> l). rewrite zip_with_fmap_r.
    replace (zip_with (fun x v => (x, v_addr v)) (seqZ 1 (Z.of_nat (length l))) l)
      with ((fun p : Z * Verbdef => (fst p, v_addr (snd p))) <$> zip (seqZ 1 (Z.of_nat (length l))) l)
      by (clear; generalize (seqZ 1 (Z.of_nat (length l))); intros k; revert k; induction l as [|v l IH]; intros [|i k]; [done..|]; cbn; f_equal; apply IH).
    rewrite find_fmap. rewrite <- option_fmap_compose. rewrite (find_ext _ (fun p => fst p =? n)) by by intros [].
    by destruct (find _ _) as [[]|]. }
  by rewrite !G, Ha.
Qed.

(** One write through a handle, the cache emptied before or not. *)
Definition only_changes (d : db) (h : handle) (v : Verbdef) (d' : db) : Prop :=
  deref d' h = Some v /\ (forall h', h' <> h -> deref d' h' = deref d h') /\
  (forall x, (map v_addr ∘ o_verbdefs) <$> objects d' !! x = (map v_addr ∘ o_verbdefs) <$> objects d !! x).

Lemma only_changes_trans d h v1 d1 v2 d2 : only_changes d h v1 d1 -> only_changes d1 h v2 d2 -> only_changes d h v2 d2.
Proof.
  intros (_ & H1 & A1) (D2 & H2 & A2). split; [done|]. split; [intros h' Hne; by rewrite H2, H1|].
  intros x. by rewrite A2, A1.
Qed.

Lemma write_changes d c h v f d' : write_verb (with_vcache c d) h f = Some d' -> deref d h = Some v ->
  (forall v, v_addr (f v) = v_addr v) -> only_changes d h (f v) d'.
Proof.
  intros E Hd Hf. destruct (write_verb_spec (with_vcache c d) h v f Hd Hf) as (d1 & E1 & H1 & H2 & _ & _ & H3).
  rewrite E1 in E. injection E as <-. split; [done|]. split; [|done]. intros h' Hne. by apply H2.
Qed.

Lemma set_info_changes d h v owner flags names d1 d2 d3 : deref d h = Some v -> 0 <= flags < 16 ->
  db_set_verb_owner d (Some h) owner = Some d1 -> db_set_verb_flags d1 (Some h) flags = Some d2 ->
  db_set_verb_names d2 (Some h) names = Some d3 ->
  exists v', only_changes d h v' d3 /\ v_owner v' = owner /\ v_name v' = names /\ Z.land (v_perms v') PERMMASK = flags /\
    dobj_spec v' = dobj_spec v /\ iobj_spec v' = iobj_spec v /\ v_prep v' = v_prep v /\ v_program v' = v_program v.
Proof.
  intros Hd Hf E1 E2 E3. unfold db_set_verb_owner in E1. cbn [mbind option_bind] in E1.
  replace d with (with_vcache (vcache d) d) in E1 by by destruct d.
  pose proof (write_changes _ _ _ v _ _ E1 Hd ltac:(done)) as C1. pose proof C1 as (H1 & _).
  unfold db_set_verb_flags in E2. destruct (flush_fields d1) as (c & Ec & _). rewrite Ec in E2. cbn [mbind option_bind] in E2.
  pose proof (write_changes _ _ _ _ _ _ E2 H1 ltac:(done)) as C2. pose proof C2 as (H2 & _).
  unfold db_set_verb_names in E3. destruct (flush_fields d2) as (c' & Ec' & _). rewrite Ec' in E3. cbn [mbind option_bind] in E3.
  pose proof (write_changes _ _ _ _ _ _ E3 H2 ltac:(done)) as C3.
  eexists. split; [eapply only_changes_trans; [exact C1|eapply only_changes_trans; [exact C2|exact C3]]|].
  unfold dobj_spec, iobj_spec. cbn [v_owner v_name v_perms v_prep v_program set_v_owner set_v_perms set_v_name].
  destruct (replace_flags (v_perms v) flags Hf) as [R1 R2]. rewrite R1. do 3 (split; [done|]).
  destruct (specs_of_bits (v_perms v) (uwrap 16 (Z.lor (uwrap 16 (Z.land (v_perms v) (Z.lnot PERMMASK))) flags))) as [S1 S2].
  { intros n Hn. specialize (R2 0 n). rewrite Z.add_0_r in R2. apply R2; lia. }
  unfold dobj_spec, iobj_spec in S1, S2. cbn [v_perms set_v_perms] in S1, S2. by rewrite S1, S2.
Qed.

(** The verb that was added is found by the number that is returned. *)
Lemma added_verb d oid o names owner flags dobj prep iobj d' n : db_inv d -> objects d !! oid = Some o ->
  Z.of_nat (length (o_verbdefs o)) < INT32_MAX ->
  db_add_verb d oid names owner flags dobj prep iobj = Some (d', n) ->
  db_inv d' /\ 0 < n /\ is_Some (objects d' !! oid) /\
  exists h, db_find_indexed_verb d' oid (uwrap 32 n) = Some (Some h) /\
    deref d' h = Some (mkVerbdef (next_addr d) names None owner (pack_specs flags dobj iobj) (swrap 16 prep)).
Proof.
  intros Hi Ho Hlen E. destruct (inv_add_verb d oid o names owner flags dobj prep iobj Hi Ho Hlen) as (d1 & n1 & E1 & Hi1).
  rewrite E in E1. injection E1 as <- <-. assert (Ht : table_ok d) by apply (inv_ok d Hi). assert (Ht' : table_ok d') by apply (inv_ok d' Hi1).
  destruct (add_verb_spec d oid o names owner flags dobj prep iobj Ht (inv_verbs d Hi) Ho Hlen) as (d2 & v & E2 & Ev & Eo & _ & _ & _ & _ & _ & Hv').
  rewrite E in E2. injection E2 as <- ->. split; [done|]. split; [lia|].
  assert (Ho' : objects d' !! oid = Some (set_verbdefs (o_verbdefs o ++ [v]) o)) by (by rewrite Eo, lookup_insert_eq).
  split; [by eexists|]. exists (mkHandle oid (v_addr v)). replace (uwrap 32 _) with (Z.of_nat (length (o_verbdefs o)) + 1)
    by (unfold uwrap; rewrite Z.mod_small; unfold INT32_MAX in Hlen; lia). unfold db_find_indexed_verb. rewrite find_object_objects, Ho' by done.
  cbn [mbind option_bind]. rewrite get_set_verbdefs, (indexed_last (fun i => i =? Z.of_nat (length (o_verbdefs o)) + 1)) by done.
  destruct Ht' as (_ & _ & Hid). destruct (Hid oid _ Ho') as [_ ->]. split; [done|]. rewrite <- Ev.
  apply (deref_in d' oid (set_verbdefs (o_verbdefs o ++ [v]) o)); [done|done|]. rewrite get_set_verbdefs. set_solver.
Qed.

(** What [verb_info] and [verb_args] show of a verb, to one who may read it. *)
Lemma shown same numeric d w oid n h v b : db_inv d -> db_verb_allows d (Some h) w VF_READ = Some b -> valid d oid = true -> 0 < n ->
  db_find_indexed_verb d oid (uwrap 32 n) = Some (Some h) -> deref d h = Some v ->
  bf_verb_info same numeric [VObj oid; VInt n] w d =
    Some (if b then make_var_pack (VList [VObj (v_owner v); VStr (letters (Z.land (v_perms v) PERMMASK) verb_letters); VStr (v_name v)])
          else make_error_pack E_PERM) /\
  bf_verb_args same numeric [VObj oid; VInt n] w d =
    if b then
      dobj ← unparse_arg_spec (dobj_spec v); prep ← db_unparse_prep (v_prep v); iobj ← unparse_arg_spec (iobj_spec v);
      Some (make_var_pack (VList [VStr dobj; VStr prep; VStr iobj]))
    else Some (make_error_pack E_PERM).
Proof.
  intros Hi Hw Hv Hn Ef Hd. unfold bf_verb_info, bf_verb_args, describe. cbn [validate_verb_descriptor].
  destruct (Z.leb_spec n 0); [lia|]. rewrite Hv. cbn [negb find_described_verb]. rewrite Ef. cbn [mbind option_bind].
  rewrite Hw. destruct (access d h v w VF_READ Hd) as (Eo & El & En & Es & _). rewrite El, Eo, En, Es.
  cbn [mbind option_bind]. by destruct b.
Qed.

(** The owner of a verb and wizards may read it. *)
Lemma reads_verb d h v w : deref d h = Some v -> is_wizard d w = true \/ w = v_owner v ->
  db_verb_allows d (Some h) w VF_READ = Some true.
Proof.
  intros Hd Hw. destruct (access d h v w VF_READ Hd) as (Eo & El & _). unfold db_verb_allows. rewrite El, Eo.
  cbn [mbind option_bind]. destruct Hw as [-> | ->]; [by rewrite orb_true_r|by rewrite Z.eqb_refl, orb_true_r].
Qed.

(** ** Theorems *)

(** The functions, with everything that is a parameter. *)
Lemma verb_functions_behave same numeric parse out d p : db_inv d -> room d ->
  Forall (fun '(name, mn, mx, proto, f) =>
            forall args, good_arguments mn mx proto args -> (name = BS "verb_args" -> specs_ok d) -> behaves p d (f args p d)) (verb_functions same numeric parse out).
Proof.
  intros Hi Hroom. unfold verb_functions.
  repeat (apply Forall_cons; split); [..|constructor]; intros args Hargs Hs; open_good Hargs.
  - by apply bf_verbs_behaves.
  - by apply bf_verb_info_behaves.
  - by apply bf_set_verb_info_behaves.
  - by apply bf_verb_args_behaves; [..|apply Hs].
  - by apply bf_set_verb_args_behaves.
  - by apply bf_add_verb_behaves.
  - by apply bf_delete_verb_behaves.
  - by apply bf_set_verb_code_behaves.
Qed.

(** C26: the built-ins on verbs are safe and keep to the permissions: with any
    arguments their prototypes accept and whatever the parser does they succeed
    or raise an error, never panic ([verb_args] on a database without specifiers
    that cannot be printed, such as [add_verb] and [set_verb_args] can make from
    a number in place of a preposition: [verb_args_outside]); what they change is a sequence of database
    operations each of which the programmer was permitted when the call began
    and whose precondition holds when it is done, so that the invariant of the
    database is kept; and with an error nothing has changed. *)
Theorem verb_builtins_obey (same : Verbdef -> bool) (numeric out : bool) (parse : Var -> option Program * Var) (d : db) (p : Z) :
  db_inv d -> room d ->
  Forall (fun '(name, mn, mx, proto, f) =>
            forall args, good_arguments mn mx proto args -> (name = BS "verb_args" -> specs_ok d) ->
              behaves p d (f args p d) /\
              forall d' pk, f args p d = Some (d', pk) -> db_inv d') (verb_functions same numeric parse out).
Proof.
  intros Hi Hroom. eapply Forall_impl; [by apply (verb_functions_behave same numeric parse out d p)|].
  intros [[[[name mn] mx] proto] f] H args Hargs Hs. specialize (H args Hargs Hs). split; [done|].
  destruct H as (d1 & pk1 & ops & E & Hd & _). intros d' pk E'. rewrite E in E'. injection E' as <- _.
  by eapply runs_inv.
Qed.

Lemma sample_specs : specs_ok sample.
Proof.
  intros x o Ho. apply (objects_check (fun o => bool_decide (o_verbdefs o = [])) sample) in Ho; [|vm_compute; reflexivity].
  apply bool_decide_eq_true in Ho. rewrite Ho. constructor.
Qed.

Definition look_args : list Var :=
  [VObj 2; VList [VObj 4; VStr (BS "rx"); VStr (BS " l*ook")]; VList [VStr (BS "this"); VStr (BS "in front of"); VStr (BS "any")]].
Lemma look_good : good_arguments 3 3 [TYPE_OBJ; TYPE_LIST; TYPE_LIST] look_args.
Proof.
  split; [vm_compute; discriminate|]. split; [right; vm_compute; discriminate|].
  split; [|split].
  - intros k q a Hq Ha. destruct k as [|[|[|k]]]; [injection Hq as <-; injection Ha as <-; reflexivity..|]. discriminate Hq.
  - repeat apply Forall_cons_2; [unfold wf_value, is_Num, NUM_MIN, NUM_MAX; lia| | |constructor].
    + apply wf_value_list. split; [vm_compute; discriminate|]. repeat apply Forall_cons_2; [unfold wf_value, is_Num, NUM_MIN, NUM_MAX; lia|apply wf_ascii; reflexivity..|constructor].
    + apply wf_value_list. split; [vm_compute; discriminate|]. repeat apply Forall_cons_2; [apply wf_ascii; reflexivity..|constructor].
  - intros l Hl. repeat (apply elem_of_cons in Hl as [Hl|Hl]; [try discriminate; injection Hl as ->; reflexivity|]). by apply elem_of_nil in Hl.
Qed.

(** Anna, #4, adds a verb to her ball, #2. *)
Example verb_builtins_obey_witness :
  exists d', bf_add_verb look_args 4 sample = Some (d', make_int_pack 1) /\ db_inv d'.
Proof.
  pose proof (verb_builtins_obey (fun _ => false) false false (fun _ => (None, VList [])) sample 4 sample_inv sample_room) as H.
  do 5 apply Forall_inv_tail in H. apply Forall_inv in H. specialize (H look_args).
  destruct H as [_ H]; [exact look_good|intros _; exact sample_specs|].
  destruct (bf_add_verb look_args 4 sample) as [[d' pk]|] eqn:E; [|vm_compute in E; discriminate].
  exists d'. split; [|exact (H d' pk eq_refl)]. assert (G : snd <$> bf_add_verb look_args 4 sample = Some (make_int_pack 1)) by (vm_compute; reflexivity).
  rewrite E in G. injection G as ->. reflexivity.
Defined.

(** What the built-ins store in a verb is what they show: after [add_verb]
    and after [set_verb_info] on a verb by its number, [verb_info] shows the
    owner, the flags as letters, which are read as the same flags, and the
    names without leading blanks; [verb_args] shows the specifiers given to
    [add_verb], and [set_verb_info] leaves them, the program and every other
    verb alone. *)
Theorem verb_info_correct (same : Verbdef -> bool) (numeric : bool) (d d' : db) (p w oid owner n : Z) (perms names : bytes) :
  db_inv d -> room d -> is_wizard d' w = true \/ w = owner ->
  let shows := exists flags, parse_letters perms verb_letters 0 = Some flags /\
    parse_letters (letters flags verb_letters) verb_letters 0 = Some flags /\
    bf_verb_info same numeric [VObj oid; VInt n] w d' =
      Some (make_var_pack (VList [VObj owner; VStr (letters flags verb_letters); VStr (skip_spaces names)])) in
  (forall dobj prep iobj,
     bf_add_verb [VObj oid; VList [VObj owner; VStr perms; VStr names]; VList [VStr dobj; VStr prep; VStr iobj]] p d = Some (d', make_int_pack n) ->
     shows /\ exists a b c, match_arg_spec dobj = Some a /\ match_prep_spec prep = Some (Some b) /\ match_arg_spec iobj = Some c /\
       bf_verb_args same numeric [VObj oid; VInt n] w d' =
         (sa ← unparse_arg_spec a; sb ← db_unparse_prep (swrap 16 b); sc ← unparse_arg_spec c;
          Some (make_var_pack (VList [VStr sa; VStr sb; VStr sc])))) /\
  (bf_set_verb_info same numeric [VObj oid; VInt n; VList [VObj owner; VStr perms; VStr names]] p d = Some (d', no_var_pack) ->
     shows /\ (forall v, bf_verb_args same numeric [VObj oid; VInt n] w d = Some (make_var_pack v) ->
                bf_verb_args same numeric [VObj oid; VInt n] w d' = Some (make_var_pack v)) /\
     exists h, db_find_indexed_verb d oid (uwrap 32 n) = Some (Some h) /\ (v_program <$> deref d' h) = (v_program <$> deref d h) /\
       forall h', h' <> h -> deref d' h' = deref d h').
Proof.
  intros Hi Hroom Hw shows. subst shows. assert (Ht : table_ok d) by apply (inv_ok d Hi). split.
  - intros dobj prep iobj. unfold bf_add_verb.
    destruct (validate_verb_info d _) as [e|[[owner' flags] names']] eqn:Ev; [done|].
    destruct (validate_info_range _ _ _ _ _ Ev) as [Hf _]. cbn [validate_verb_args].
    destruct (match_arg_spec dobj) as [a|] eqn:Ea; [|done]. destruct (match_prep_spec prep) as [[b|]|] eqn:Eb; [|done..].
    cbn [mbind option_bind]. destruct (match_arg_spec iobj) as [c|] eqn:Ec; [|done].
    destruct (valid d oid) eqn:Hv; [|done]. cbn [negb]. destruct (db_object_allows d oid p FLAG_WRITE) as [al|]; [|done]. cbn [mbind option_bind].
    destruct (negb al || _); [done|]. destruct (db_add_verb _ _ _ _ _ _ _ _) as [[d1 n1]|] eqn:E; [|done]. cbn [mbind option_bind].
    intros [= <- <-]. apply valid_spec in Hv as [o Ho]; [|done].
    destruct (added_verb d oid o _ _ _ _ _ _ _ _ Hi Ho (room_verbs d Hroom oid o Ho) E) as (Hi1 & Hn & Hx & h & Eh & Hd).
    assert (Hv1 : valid d1 oid = true) by (apply valid_spec; [apply (inv_ok d1 Hi1)|done]).
    destruct (pack_fields flags a c Hf) as (P1 & P2 & P3); [apply match_arg_spec_range in Ea; lia|apply match_arg_spec_range in Ec; lia|].
    cbn [validate_verb_info] in Ev. destruct (negb _); [done|]. destruct (parse_letters perms verb_letters 0) as [f|] eqn:Ep; [|done].
    destruct (skip_spaces names) as [|ch s] eqn:En; [done|]. injection Ev as <- <- <-.
    destruct (shown same numeric d1 w oid n1 h _ true Hi1 (reads_verb d1 h _ w Hd Hw) Hv1 Hn Eh Hd) as [-> ->].
    unfold dobj_spec, iobj_spec. cbn [v_owner v_name v_perms v_prep]. rewrite P1, P2, P3. split; [|by exists a, b, c].
    exists f. split; [done|]. split; [by apply letters_parse|done].
  - unfold bf_set_verb_info. cbn [validate_verb_descriptor]. destruct (Z.leb_spec n 0); [done|].
    destruct (valid d oid) eqn:Hv; [|done]. cbn [negb]. destruct (validate_verb_info d _) as [e|[[owner' flags] names']] eqn:Ev; [done|].
    destruct (validate_info_range _ _ _ _ _ Ev) as [Hf _]. cbn [find_described_verb].
    destruct (find_described same numeric d oid (VInt n) Hi Hv) as (h & Eh & Hh); [cbn; by destruct (Z.leb_spec n 0); [lia|]|].
    cbn [find_described_verb] in Eh. rewrite Eh. cbn [mbind option_bind]. destruct h as [h|]; [|done]. destruct (Hh h eq_refl) as [_ [v Hd]].
    destruct (access d h v p VF_WRITE Hd) as (-> & _ & _ & _ & al & ->). cbn [mbind option_bind]. destruct (negb al || _); [done|].
    destruct (handle_step d h (OpVerbOwner h owner') Hi ltac:(by eexists) eq_refl) as (d1 & E1 & _ & Hi1 & Hd1).
    destruct (handle_step d1 h (OpVerbFlags h flags) Hi1 Hd1 eq_refl) as (d2 & E2 & _ & Hi2 & Hd2).
    destruct (handle_step d2 h (OpVerbNames h names') Hi2 Hd2 eq_refl) as (d3 & E3 & _ & Hi3 & Hd3).
    cbn [exec] in E1, E2, E3. rewrite E1. cbn [mbind option_bind]. rewrite E2. cbn [mbind option_bind]. rewrite E3. cbn [mbind option_bind].
    intros [= <-]. destruct (set_info_changes d h v owner' flags names' d1 d2 d3 Hd Hf E1 E2 E3)
      as (v' & (D & Hoth & Hadr) & Wo & Wn & Wf & Wd & Wi & Wp & Wr).
    assert (Ht3 : table_ok d3) by apply (inv_ok d3 Hi3). pose proof (indexed_agree d d3 oid (uwrap 32 n) Ht Ht3 Hadr) as Ei. rewrite Eh in Ei.
    assert (Hv3 : valid d3 oid = true).
    { apply valid_spec; [done|]. apply valid_spec in Hv as [o Ho]; [|done]. specialize (Hadr oid). rewrite Ho in Hadr.
      destruct (objects d3 !! oid); [by eexists|done]. }
    cbn [validate_verb_info] in Ev. destruct (negb _); [done|]. destruct (parse_letters perms verb_letters 0) as [f|] eqn:Ep; [|done].
    destruct (skip_spaces names) as [|ch s] eqn:En; [done|]. injection Ev as <- <- <-.
    rewrite <- Wo in Hw. destruct (shown same numeric d3 w oid n h v' true Hi3 (reads_verb d3 h v' w D Hw) Hv3 ltac:(lia) Ei D) as [S1 S2].
    rewrite Wf, Wo, Wn in S1. rewrite Wd, Wi, Wp in S2. split; [|split].
    + exists f. split; [done|]. split; [by apply letters_parse|exact S1].
    + intros x. destruct (access d h v w VF_READ Hd) as (_ & _ & _ & _ & b & Eb).
      destruct (shown same numeric d w oid n h v b Hi Eb Hv ltac:(lia) Eh Hd) as [_ ->]. rewrite S2. by destruct b.
    + exists h. split; [done|]. rewrite D, Hd. split; [cbn; by rewrite Wr|done].
Qed.

(** The verb that Anna adds, as she sees it. *)
Example verb_info_correct_witness :
  exists d', bf_add_verb look_args 4 sample = Some (d', make_int_pack 1) /\
    bf_verb_info (fun _ => false) false [VObj 2; VInt 1] 4 d' = Some (make_var_pack (VList [VObj 4; VStr (BS "rx"); VStr (BS "l*ook")])).
Proof.
  destruct (bf_add_verb look_args 4 sample) as [[d' pk]|] eqn:E; [|vm_compute in E; discriminate].
  assert (G : snd <$> bf_add_verb look_args 4 sample = Some (make_int_pack 1)) by (vm_compute; reflexivity).
  rewrite E in G. cbn [fmap option_fmap option_map] in G. injection G as ->. exists d'. split; [reflexivity|].
  destruct (verb_info_correct (fun _ => false) false sample d' 4 4 2 4 1 (BS "rx") (BS " l*ook") sample_inv sample_room (or_intror eq_refl)) as [H _].
  destruct (H _ _ _ E) as [(f & Ep & _ & ->) _]. vm_compute in Ep. injection Ep as <-. reflexivity.
Defined.

(** A preposition that [add_verb] accepts and that [verb_args] cannot print. *)
Definition odd_args : list Var :=
  [VObj 2; VList [VObj 4; VStr (BS "rx"); VStr (BS "look")]; VList [VStr (BS "this"); VStr (BS "4294950000"); VStr (BS "any")]].
Lemma verb_args_outside :
  (('(d, _) ← bf_add_verb odd_args 4 sample; Some (bf_verb_args (fun _ => false) false [VObj 2; VInt 1] 4 d)) = Some None).
Proof. vm_compute. reflexivity. Qed.
