(* ===== verification/Commands.v ===== *)
(** * Commands typed by players (match.c, parse_cmd.c)

    Matching a name against the objects around a player, and taking a command
    apart into its verb, its objects and its preposition.  Everything is read
    from the database; nothing is changed. *)

From S2P Require Import Prelude Utf CString Values Streams Functions Lists Words Preps Db Links Hierarchy Attributes Verbs Properties PropView Objects Database Authority ListBuiltins Numbers PropBuiltins.

(** ** Definitions *)

Definition aliases_name : bytes := BS "aliases".

(** The list of aliases, without the place for its length. *)
Definition aliases (d : db) (oid : Z) : option (list Var) :=
  '(h, value) ← db_find_property d oid aliases_name true;
  Some (if is_null h then [] else match value with Some (VList l) => l | _ => [] end).

(** [exact] and [partial] of the structure; its name is a parameter. *)
Record match_data := mkMatch { md_exact : Z; md_partial : Z }.

Section Matching.
Context (name : bytes).

(** The loop over the names of one object; whether it returns 1. *)
Fixpoint match_names (oid : Z) (names : list Var) (m : match_data) : option (match_data * bool) :=
  match names with
  | [] => Some (m, false)
  | VStr n :: names =>
      if mystrncasecmp n name (length name) =? 0 then
        c ← (n ++ [0]) !! length name;
        if c =? 0 then
          if (md_exact m =? NOTHING) || (md_exact m =? oid) then match_names oid names (mkMatch oid (md_partial m))
          else Some (m, true)
        else
          match_names oid names
            (mkMatch (md_exact m) (if (md_partial m =? FAILED_MATCH) || (md_partial m =? oid) then oid else AMBIGUOUS))
      else match_names oid names m
  | _ :: names => match_names oid names m
  end.

(** The callback; [None] is a panic in it. *)
Definition match_proc (d : db) (data : option match_data) (oid : Z) : option match_data * bool :=
  match (m ← data; names ← aliases d oid; n ← db_object_name d oid; match_names oid (VStr n :: names) m) with
  | Some (m, stop) => (Some m, stop)
  | None => (None, true)
  end.

(** One round of the loop over the player and its location. *)
Definition match_round (d : db) (oid : Z) (data : option match_data) : option (option match_data * bool) :=
  if negb (valid d oid) then Some (data, false) else db_for_all_contents d oid (match_proc d) data.

Definition match_contents (d : db) (player : Z) : option Z :=
  if negb (valid d player) then Some FAILED_MATCH
  else
    loc ← db_object_location d player;
    '(data, stop) ← match_round d player (Some (mkMatch NOTHING FAILED_MATCH));
    _ ← data;
    if stop : bool then Some AMBIGUOUS
    else
      '(data, stop) ← match_round d loc data;
      m ← data;
      if stop : bool then Some AMBIGUOUS
      else Some (if negb (md_exact m =? NOTHING) then md_exact m else md_partial m).

Definition match_object (d : db) (player : Z) : option Z :=
  match name with
  | [] => Some NOTHING
  | c :: rest =>
      if c =? 35 then
        let '(r, p) := strtol rest in
        Some (if negb (bool_decide (p = [])) || negb (valid d r) then FAILED_MATCH else r)
      else if negb (valid d player) then Some FAILED_MATCH
      else if mystrcasecmp name (BS "me") =? 0 then Some player
      else if mystrcasecmp name (BS "here") =? 0 then db_object_location d player
      else match_contents d player
  end.
End Matching.

(** *** Commands *)

Record Parsed_Command := mkCommand {
  pc_verb : bytes;
  pc_argstr : bytes;
  pc_args : list Var;
  pc_dobjstr : bytes;
  pc_dobj : Z;
  pc_prepstr : bytes;
  pc_prep : Z;
  pc_iobjstr : bytes;
  pc_iobj : Z
}.

(** The loop that skips the verb. *)
Fixpoint skip_verb (in_quotes : bool) (argstr : bytes) : bytes :=
  match argstr with
  | [] => []
  | c :: argstr' =>
      if in_quotes || negb (c =? space_char) then
        let in_quotes := if c =? dquote then negb in_quotes else in_quotes in
        if negb (c =? dquote) && (c =? backslash) then
          match argstr' with [] => [] | _ :: argstr'' => skip_verb in_quotes argstr'' end
        else skip_verb in_quotes argstr'
      else argstr
  end.

(** [argstr] and the line that is split into words. *)
Definition expand (command : bytes) : bytes * bytes :=
  let special verb := let argstr := drop 1 command in (argstr, verb ++ [space_char] ++ argstr) in
  match command with
  | 34 :: _ => special (BS "say")
  | 58 :: _ => special (BS "emote")
  | 59 :: _ => special (BS "eval")
  | _ => (skip_spaces (skip_verb false command), command)
  end.

(** [build_string(n, argv + p)]; the words have to be there. *)
Definition build_words (n p : Z) (argv : list bytes) : option bytes :=
  if (0 <=? n) && (0 <=? p) && (p + n <=? Z.of_nat (length argv))
  then build_string (take (Z.to_nat n) (drop (Z.to_nat p) argv)) else None.

(** The preposition among the words, and where its phrase is. *)
Definition prep_range (argv : list bytes) : option (Z * Z * Z) :=
  let argc := Z.of_nat (length argv) in
  if 1 <? argc then
    let '(prep, range) := db_find_prep false (drop 1 argv) in
    if prep =? PREP_NONE then Some (prep, argc, argc)
    else '(pstart, pend) ← range; Some (prep, pstart + 1, pend + 1)
  else Some (PREP_NONE, argc, argc).

(** [prepstr], [iobjstr] and [iobj]. *)
Definition indirect (d : db) (user prep pstart pend : Z) (argv : list bytes) : option (bytes * bytes * Z) :=
  if negb (prep =? PREP_NONE) then
    prepstr ← build_words (pend - pstart + 1) pstart argv;
    iobjstr ← build_words (Z.of_nat (length argv) - (pend + 1)) (pend + 1) argv;
    iobj ← match_object iobjstr d user;
    Some (prepstr, iobjstr, iobj)
  else Some ([], [], NOTHING).

(** [dobjstr] and [dobj]. *)
Definition direct (d : db) (user pstart : Z) (argv : list bytes) : option (bytes * Z) :=
  let dlen := pstart - 1 in
  if dlen =? 0 then Some ([], NOTHING)
  else
    dobjstr ← build_words dlen 1 argv;
    dobj ← match_object dobjstr d user;
    Some (dobjstr, dobj).

(** The inner [None]: there is no word. *)
Definition parse_command (d : db) (command : bytes) (user : Z) : option (option Parsed_Command) :=
  let '(argstr, buf) := expand (skip_spaces command) in
  argv ← words_of buf;
  match argv with
  | [] => Some None
  | verb :: args =>
      '(prep, pstart, pend) ← prep_range argv;
      '(prepstr, iobjstr, iobj) ← indirect d user prep pstart pend argv;
      '(dobjstr, dobj) ← direct d user pstart argv;
      Some (Some (mkCommand verb argstr (VStr <$> args) dobjstr dobj prepstr prep iobjstr iobj))
  end.

(** ** Specification

    What a number that the C library read from the whole name denotes. *)
Definition number_match (d : db) (r : Z * bytes) : Z :=
  let '(n, rest) := r in if bool_decide (rest = []) && valid d n then n else FAILED_MATCH.

(** The strings among some values. *)
Definition strings (l : list Var) : list bytes := omap (fun v => match v with VStr s => Some s | _ => None end) l.

(** The names of an object. *)
Definition names_of (d : db) (x : Z) : list bytes :=
  match objects d !! x with
  | Some o => o_name o :: match prop_value d x (casefold aliases_name) with Some (VList l) => strings l | _ => [] end
  | None => []
  end.

Definition is_exact (name n : bytes) : bool := bool_decide (casefold n = casefold name).
Definition is_partial (name n : bytes) : bool := prefixb (casefold name) (casefold n) && negb (is_exact name n).
Definition matches (test : bytes -> bytes -> bool) (d : db) (name : bytes) (x : Z) : bool := existsb (test name) (names_of d x).

(** The objects around a player. *)
Definition around (d : db) (player : Z) : list Z :=
  default [] (members contents_links d player) ++
  match db_object_location d player with
  | Some loc => if valid d loc then default [] (members contents_links d loc) else []
  | None => []
  end.

(** What a list of candidates comes to. *)
Definition the_one (l : list Z) : Z :=
  match l with
  | [] => FAILED_MATCH
  | x :: l => if forallb (Z.eqb x) l then x else AMBIGUOUS
  end.

Definition best_match (d : db) (name : bytes) (l : list Z) : Z :=
  match filter (fun x => matches is_exact d name x) l with
  | [] => the_one (filter (fun x => matches is_partial d name x) l)
  | exact => the_one exact
  end.

(** Names are C strings. *)
Definition names_ok (d : db) : Prop := forall x, Forall cstr (names_of d x).

(** ** Lemmas *)

(** *** Matching *)

Lemma ncase_prefix n name : cstr n -> cstr name ->
  (mystrncasecmp n name (length name) = 0 <-> casefold name `prefix_of` casefold n).
Proof.
  intros Hn Hm. rewrite mystrncasecmp_eq by done.
  rewrite (take_ge (casefold name)) by (unfold casefold; by rewrite length_fmap). split.
  - intros <-. by apply prefix_take.
  - intros [k ->]. rewrite take_app_le by (unfold casefold; by rewrite length_fmap).
    apply take_ge. unfold casefold. by rewrite length_fmap.
Qed.

(** The test for the end of the name, where the first test has succeeded. *)
Lemma name_end n name : cstr n -> casefold name `prefix_of` casefold n ->
  exists c, (n ++ [0]) !! length name = Some c /\ (c = 0 <-> casefold n = casefold name).
Proof.
  intros Hn [k E]. pose proof (f_equal length E) as El. unfold casefold in El. rewrite length_app, !length_fmap in El.
  assert (Hlen : (length name < length (n ++ [0%Z]))%nat) by (rewrite length_app; simpl; lia).
  apply lookup_lt_is_Some in Hlen as [c Hc]. exists c. split; [done|].
  destruct (decide (length n = length name)) as [Heq|Hne].
  - rewrite <- Heq, (list_lookup_middle n [] 0 _ eq_refl) in Hc. injection Hc as <-. split; [intros _|done].
    rewrite E. assert (k = []) as -> by (apply length_zero_iff_nil; lia). by rewrite app_nil_r.
  - rewrite lookup_app_l in Hc by lia. split.
    + intros ->. unfold cstr in Hn. rewrite Forall_forall in Hn. specialize (Hn 0 ltac:(by eapply list_elem_of_lookup_2)). lia.
    + intros H. apply (f_equal length) in H. unfold casefold in H. rewrite !length_fmap in H. lia.
Qed.

Section Proc.
Context (name : bytes) (Hname : cstr name).

(** One object: [e] and [p] say whether a name matches exactly, partially. *)
Lemma match_names_spec oid names m : Forall cstr (strings names) ->
  let e := existsb (is_exact name) (strings names) in
  let p := existsb (is_partial name) (strings names) in
  exists m' stop, match_names name oid names m = Some (m', stop) /\
    (stop = true <-> e = true /\ md_exact m <> NOTHING /\ md_exact m <> oid) /\
    (stop = false -> md_exact m' = (if e then oid else md_exact m) /\
       md_partial m' = (if p then if (md_partial m =? FAILED_MATCH) || (md_partial m =? oid) then oid else AMBIGUOUS else md_partial m)).
Proof.
  cbv zeta. revert m. induction names as [|v names IH]; intros m Hc.
  { exists m, false. split; [done|]. split; [naive_solver|done]. }
  destruct v as [| |n| | | | | | |]; try (apply IH, Hc).
  cbn [strings omap list_omap] in Hc. apply Forall_cons in Hc as [Hn Hc]. cbn [match_names].
  cbn [strings omap list_omap existsb]. fold (strings names).
  destruct (Z.eqb_spec (mystrncasecmp n name (length name)) 0) as [E|E].
  - apply ncase_prefix in E; [|done|done]. destruct (name_end n name Hn E) as (c & -> & Hend). cbn [mbind option_bind].
    destruct (Z.eqb_spec c 0) as [Hz|Hz].
    + apply Hend in Hz. assert (He : is_exact name n = true) by by apply bool_decide_eq_true.
      assert (Hp : is_partial name n = false) by (unfold is_partial; by rewrite He, andb_false_r).
      rewrite He, Hp. cbn [orb].
      destruct (Z.eqb_spec (md_exact m) NOTHING) as [E1|E1]; [|destruct (Z.eqb_spec (md_exact m) oid) as [E2|E2]]; cbn [orb].
      3: { exists m, true. split; [done|]. split; [naive_solver|done]. }
      all: destruct (IH (mkMatch oid (md_partial m)) Hc) as (m' & stop & -> & Hs & Hf); cbn [md_exact md_partial] in *;
        exists m', stop; split; [done|]; split; [naive_solver|]; intros Hst; destruct (Hf Hst) as [-> ->];
        (split; [by destruct (existsb _ _)|done]).
    + assert (He : is_exact name n = false) by (apply bool_decide_eq_false; tauto).
      assert (Hp : is_partial name n = true) by (unfold is_partial; rewrite He; cbn [negb]; rewrite andb_true_r; by apply prefixb_prefix).
      rewrite He, Hp. cbn [orb].
      match goal with |- context [match_names name oid names ?m1] => destruct (IH m1 Hc) as (m' & stop & -> & Hs & Hf) end.
      cbn [md_exact md_partial] in *. exists m', stop. split; [done|]. split; [done|].
      intros Hst. destruct (Hf Hst) as [-> ->]. split; [done|]. destruct (existsb (is_partial name) (strings names)); [|done].
      destruct ((md_partial m =? FAILED_MATCH) || (md_partial m =? oid)); [by rewrite Z.eqb_refl, orb_true_r|]. destruct (Z.eqb_spec AMBIGUOUS oid) as [<-|]; [by rewrite orb_true_r|done].
  - assert (Hpre : ~ casefold name `prefix_of` casefold n) by by rewrite <- ncase_prefix.
    assert (He : is_exact name n = false) by (apply bool_decide_eq_false; intros H; apply Hpre; by rewrite H).
    assert (Hp : is_partial name n = false).
    { unfold is_partial. destruct (prefixb _ _) eqn:Ep; [|done]. by apply prefixb_prefix in Ep. }
    rewrite He, Hp. apply IH, Hc.
Qed.
End Proc.

Lemma the_one_snoc l x : Forall (Z.le 0) l -> 0 <= x ->
  the_one (l ++ [x]) = if (the_one l =? FAILED_MATCH) || (the_one l =? x) then x else AMBIGUOUS.
Proof.
  intros Hl Hx. destruct l as [|y l]; [done|]. apply Forall_cons in Hl as [Hy Hl]. cbn [app the_one].
  rewrite forallb_app. cbn [forallb]. destruct (forallb (Z.eqb y) l); cbn [andb].
  - rewrite andb_true_r. destruct (Z.eqb_spec y FAILED_MATCH); [unfold FAILED_MATCH in *; lia|]. cbn [orb].
    destruct (Z.eqb_spec y x); [done|done].
  - destruct (Z.eqb_spec AMBIGUOUS x) as [<-|]; [unfold AMBIGUOUS in Hx; lia|done].
Qed.

Lemma the_one_many l x y : x ∈ l -> y ∈ l -> x <> y -> the_one l = AMBIGUOUS.
Proof.
  destruct l as [|z l]; [by intros ?%elem_of_nil|]. intros Hx Hy Hne. cbn [the_one].
  destruct (forallb (Z.eqb z) l) eqn:E; [|done]. rewrite forallb_forall in E.
  assert (G : forall w, w ∈ z :: l -> w = z).
  { intros w [->|Hw]%elem_of_cons; [done|]. apply list_elem_of_In, E in Hw. lia. }
  rewrite (G x), (G y) in Hne by done. done.
Qed.

Lemma names_of_eq d x o : objects d !! x = Some o -> names_of d x =
  o_name o :: match prop_value d x (casefold aliases_name) with Some (VList l) => strings l | _ => [] end.
Proof. intros Ho. unfold names_of. by rewrite Ho. Qed.
Lemma matches_eq test d name x : existsb (test name) (names_of d x) = matches test d name x.
Proof. reflexivity. Qed.
#[local] Opaque matches names_of.

Section Candidates.
Context (d : db) (Hi : db_inv d) (Hnames : names_ok d) (name : bytes) (Hname : cstr name).
Local Abbreviation ex := (fun x => matches is_exact d name x).
Local Abbreviation pa := (fun x => matches is_partial d name x).

Lemma aliases_ok : cstr aliases_name /\ ~ builtin_name (casefold aliases_name).
Proof.
  split; [apply cstrb_ok; reflexivity|]. apply (bool_decide_eq_false_1 (builtin_name _)). vm_compute. reflexivity.
Qed.

Lemma names_found x o : objects d !! x = Some o ->
  exists l, aliases d x = Some l /\ names_of d x = o_name o :: strings l.
Proof.
  intros Ho. unfold aliases. rewrite (names_of_eq d x o Ho). generalize aliases_ok. generalize aliases_name. intros a [Ha Hb].
  pose proof (ok_props d (inv_ok d Hi)) as Hp. pose proof (po_tree d Hp) as Ht.
  assert (Hv : valid d x = true) by (apply valid_spec; [apply Ht|by eexists]).
  destruct (find_property_spec d x a Hp Hv Ha) as [_ H]. specialize (H Hb).
  destruct (prop_lookup d x (casefold a)) as [[b pv]|] eqn:El.
  - destruct H as (n & v & -> & _ & -> & _). cbn [mbind option_bind is_null slot_handle ptr]. eexists. split; [done|].
    by destruct v.
  - rewrite H. cbn [mbind option_bind]. eexists. split; [done|]. unfold prop_value.
    destruct (tree_ancestors d Ht x ltac:(by eexists)) as [l ->]. cbn [mbind option_bind effective]. by rewrite El.
Qed.

(** What the loop knows after the objects [l]. *)
Definition knows (m : match_data) (l : list Z) : Prop :=
  (if decide (filter ex l = []) then md_exact m = NOTHING
   else md_exact m <> NOTHING /\ Forall (eq (md_exact m)) (filter ex l)) /\
  md_partial m = the_one (filter pa l).

Lemma proc_spec l x m : knows m l -> Forall (Z.le 0) l -> is_Some (objects d !! x) ->
  exists m' stop, match_proc name d (Some m) x = (Some m', stop) /\
    if stop : bool then exists y, y ∈ filter ex l /\ ex x = true /\ y <> x else knows m' (l ++ [x]).
Proof.
  intros [Ke Kp] Hl [o Ho]. destruct (names_found x o Ho) as (al & Eal & En). unfold match_proc, db_object_name.
  cbn [mbind option_bind]. rewrite Eal, Ho. cbn [mbind option_bind].
  pose proof (Hnames x) as Hc. rewrite En in Hc.
  destruct (match_names_spec name Hname x (VStr (o_name o) :: al) m) as (m' & stop & -> & Hs & Hf); [exact Hc|].
  exists m', stop. split; [done|].
  change (strings (VStr (o_name o) :: al)) with (o_name o :: strings al) in Hs, Hf. rewrite <- En in Hs, Hf.
  rewrite matches_eq in Hs, Hf. rewrite matches_eq in Hf.
  assert (Hx : 0 <= x).
  { pose proof (ok_props d (inv_ok d Hi)) as Hp. assert (Ht : table_ok d) by apply Hp. destruct Ht as (_ & _ & H). destruct (H x o Ho). lia. }
  destruct stop.
  - destruct (proj1 Hs eq_refl) as (E & H1 & H2). exists (md_exact m). split; [|split; [exact E|exact H2]].
    case_decide as Hnil; [by destruct (H1 Ke)|]. destruct Ke as [_ Ke].
    destruct (filter ex l) as [|y l']; [by destruct (Hnil eq_refl)|]. apply Forall_cons in Ke as [-> _]. left.
  - destruct (Hf eq_refl) as [Fe Fp]. split.
    + rewrite filter_app. cbn [filter list_filter]. rewrite Fe. destruct (ex x) eqn:Ex.
      * rewrite (decide_True (P := Is_true true)) by exact I. rewrite decide_False by (intros H; by destruct (filter _ l)). split; [unfold NOTHING; lia|].
        apply Forall_app. split; [|by repeat constructor].
        case_decide as Hnil; [rewrite Hnil; constructor|]. destruct Ke as [K1 K2].
        assert (Hxe : md_exact m = x). { destruct (decide (md_exact m = x)) as [E|E]; [exact E|]. discriminate (proj2 Hs (conj eq_refl (conj K1 E))). }
        rewrite <- Hxe. exact K2.
      * rewrite (decide_False (P := Is_true false)) by (intros []). rewrite app_nil_r. exact Ke.
    + rewrite filter_app. cbn [filter list_filter]. rewrite Fp. destruct (pa x) eqn:Px.
      * rewrite (decide_True (P := Is_true true)) by exact I. rewrite the_one_snoc, Kp; [reflexivity| |exact Hx].
        rewrite Forall_forall in Hl |- *. intros y [_ Hy]%list_elem_of_filter. exact (Hl y Hy).
      * rewrite (decide_False (P := Is_true false)) by (intros []). rewrite app_nil_r. exact Kp.
Qed.

Lemma visit_spec l l' m : knows m l -> Forall (Z.le 0) l -> Forall (fun x => is_Some (objects d !! x)) l' ->
  exists m' stop, visit (match_proc name d) (Some m) l' = (Some m', stop) /\
    if stop : bool then exists x y, x ∈ filter ex (l ++ l') /\ y ∈ filter ex (l ++ l') /\ x <> y else knows m' (l ++ l').
Proof.
  revert l m. induction l' as [|x l' IH]; intros l m K Hl Hv.
  { exists m, false. split; [done|]. by rewrite app_nil_r. }
  apply Forall_cons in Hv as [Hx Hv]. destruct (proc_spec l x m K Hl Hx) as (m1 & stop & E & H). cbn [visit]. rewrite E.
  destruct stop.
  - exists m1, true. split; [done|]. destruct H as (y & Hy & Ex & Hne). exists y, x. rewrite filter_app.
    split; [apply elem_of_app; by left|]. split; [|done]. apply elem_of_app. right. apply list_elem_of_filter. rewrite Ex. split; [exact I|left].
  - destruct (IH (l ++ [x]) m1 H) as (m2 & stop & E2 & H2); [|done|].
    + apply Forall_app. split; [done|]. constructor; [|constructor]. destruct Hx as [o Ho].
      pose proof (ok_props d (inv_ok d Hi)) as Hp. assert (Ht : table_ok d) by apply Hp. destruct Ht as (_ & _ & Ht). destruct (Ht x o Ho). lia.
    + exists m2, stop. split; [done|]. by rewrite <- app_assoc in H2.
Qed.
End Candidates.

Lemma round_spec d oid name l m : db_inv d -> names_ok d -> cstr name ->
  knows d name m l -> Forall (Z.le 0) l ->
  let l' := if valid d oid then default [] (members contents_links d oid) else [] in
  Forall (Z.le 0) (l ++ l') /\
  exists m' stop, match_round name d oid (Some m) = Some (Some m', stop) /\
    if stop : bool
    then exists x y, x ∈ filter (fun x => matches is_exact d name x) (l ++ l') /\ y ∈ filter (fun x => matches is_exact d name x) (l ++ l') /\ x <> y
    else knows d name m' (l ++ l').
Proof.
  intros Hi Hn Hc K Hl l'. pose proof (inv_ok d Hi) as [Hp Hlk _]. assert (Ht : table_ok d) by apply Hp.
  unfold match_round, l'. destruct (valid d oid) eqn:Hv; cbn [negb].
  2: { rewrite app_nil_r. split; [exact Hl|]. exists m, false. split; [reflexivity|exact K]. }
  apply valid_spec in Hv; [|done]. destruct (links_members contents_links d oid Hlk Hv) as [ms Em]. destruct Hv as [o Ho].
  rewrite Em. cbn [default]. unfold db_for_all_contents. rewrite Ho. cbn [mbind option_bind].
  rewrite (for_all_members contents_links d oid ms o _ _ Ho Em).
  assert (Hms : Forall (fun x => is_Some (objects d !! x)) ms).
  { apply Forall_forall. intros x Hx. exact (members_defined contents_links d oid ms x Em Hx). }
  split.
  - apply Forall_app. split; [exact Hl|]. eapply Forall_impl; [exact Hms|]. intros x [ox Hx]. destruct Ht as (_ & _ & H). destruct (H x ox Hx). lia.
  - destruct (visit_spec d Hi Hn name Hc l ms m K Hl Hms) as (m' & stop & -> & H). exists m', stop. split; [reflexivity|exact H].
Qed.

Lemma best_exact d name l x y : x ∈ filter (fun x => matches is_exact d name x) l -> y ∈ filter (fun x => matches is_exact d name x) l ->
  x <> y -> best_match d name l = AMBIGUOUS.
Proof.
  intros Hx Hy Hne. unfold best_match. destruct (filter _ l) as [|z l'] eqn:E; [by apply elem_of_nil in Hx|].
  by apply (the_one_many _ x y).
Qed.

Lemma knows_best d name m l : knows d name m l ->
  (if negb (md_exact m =? NOTHING) then md_exact m else md_partial m) = best_match d name l.
Proof.
  intros [Ke Kp]. unfold best_match. case_decide as Hnil.
  - rewrite Hnil, Ke. exact Kp.
  - destruct Ke as [K1 K2]. destruct (Z.eqb_spec (md_exact m) NOTHING) as [E|_]; [by destruct (K1 E)|]. cbn [negb].
    destruct (filter _ l) as [|z l']; [by destruct (Hnil eq_refl)|]. apply Forall_cons in K2 as [Ez K2]. subst z. cbn [the_one].
    assert (E : forallb (Z.eqb (md_exact m)) l' = true); [|by rewrite E].
    apply forallb_forall. intros z Hz%list_elem_of_In. rewrite Forall_forall in K2. apply Z.eqb_eq. exact (K2 z Hz).
Qed.

Lemma match_contents_spec d player name : db_inv d -> names_ok d -> cstr name -> valid d player = true ->
  match_contents name d player = Some (best_match d name (around d player)).
Proof.
  intros Hi Hn Hc Hv. unfold match_contents, around, db_object_location. rewrite Hv. cbn [negb].
  assert (Ht : table_ok d) by apply (inv_ok d Hi). pose proof Hv as Hv'. apply valid_spec in Hv' as [o Ho]; [|done].
  rewrite Ho. cbn [mbind option_bind].
  assert (K : knows d name (mkMatch NOTHING FAILED_MATCH) []) by (split; reflexivity).
  destruct (round_spec d player name [] _ Hi Hn Hc K (Forall_nil_2 _)) as (H0 & m1 & stop & -> & H1). rewrite Hv in H0, H1.
  cbn [app] in H0, H1. cbn [mbind option_bind]. destruct stop.
  { destruct H1 as (x & y & Hx & Hy & Hne). f_equal. symmetry. apply (best_exact d name _ x y); [| |exact Hne];
      rewrite filter_app; apply elem_of_app; left; assumption. }
  destruct (round_spec d (o_location o) name _ _ Hi Hn Hc H1 H0) as (_ & m2 & stop & -> & H2). cbn [mbind option_bind]. destruct stop.
  { destruct H2 as (x & y & Hx & Hy & Hne). f_equal. symmetry. exact (best_exact d name _ x y Hx Hy Hne). }
  f_equal. exact (knows_best d name m2 _ H2).
Qed.

(** *** The words of a command *)

Lemma skip_verb_spec n : forall q s, (length s <= n)%nat -> skip_verb q s = snd (scan_word q s).
Proof.
  induction n as [|n IH]; intros q s Hn.
  - destruct s; [done|simpl in Hn; lia].
  - destruct s as [|c s]; [done|]. cbn [skip_verb scan_word]. simpl in Hn. destruct (q || negb (c =? space_char)); [|done].
    destruct (c =? dquote); cbn [negb andb]; [apply IH; lia|]. destruct (c =? backslash).
    + destruct s as [|c' s]; [done|]. simpl in Hn. rewrite IH by lia. by destruct (scan_word q s).
    + rewrite IH by lia. by destruct (scan_word q s).
Qed.

(** Enough fuel is all that matters. *)
Lemma split_fuel_enough f s : cstr s -> (length s < f)%nat -> split_fuel f s = split_words s.
Proof.
  intros Hs Hf. unfold split_words. assert (G : forall n f g s, cstr s -> (length s <= n)%nat -> (length s < f)%nat -> (length s < g)%nat ->
    split_fuel f s = split_fuel g s); [|apply (G (length s)); [done|lia..]].
  clear. induction n as [|n IH]; intros [|f] [|g] s Hs Hn Hf Hg; try lia; cbn [split_fuel].
  - destruct s; [done|simpl in Hn; lia].
  - pose proof (skip_spaces_le s) as Hle. pose proof (skip_spaces_cstr s Hs) as Hc. pose proof (skip_spaces_idem s) as Hid.
    destruct (skip_spaces s) as [|c s'] eqn:E; [done|].
    assert (Hnb : c <> space_char).
    { intros ->. cbn [skip_spaces] in Hid. rewrite Z.eqb_refl in Hid. apply (f_equal length) in Hid. pose proof (skip_spaces_le s'). simpl in Hid. lia. }
    pose proof (scan_word_progress c s' Hnb Hc) as Hp. destruct (scan_word false (c :: s')) as [w r] eqn:Ew. f_equal.
    destruct (scan_word_spec _ false _ (Nat.le_refl _) Hc) as (_ & Hr & _). rewrite Ew in Hr. simpl in Hp, Hr, Hle. apply IH; [done|lia..].
Qed.

Lemma split_words_nil s : skip_spaces s = [] -> split_words s = [].
Proof. intros E. unfold split_words. cbn [split_fuel]. by rewrite E. Qed.

Lemma split_words_cons s c s' w r : cstr s -> skip_spaces s = c :: s' -> scan_word false (c :: s') = (w, r) ->
  split_words s = w :: split_words r.
Proof.
  intros Hs E Ew. unfold split_words at 1. cbn [split_fuel]. rewrite E, Ew. f_equal.
  pose proof (skip_spaces_le s) as Hle. pose proof (skip_spaces_cstr s Hs) as Hc. pose proof (skip_spaces_idem s) as Hid.
  rewrite E in Hle, Hc, Hid.
  assert (Hnb : c <> space_char).
  { intros ->. cbn [skip_spaces] in Hid. rewrite Z.eqb_refl in Hid. apply (f_equal length) in Hid. pose proof (skip_spaces_le s'). simpl in Hid. lia. }
  pose proof (scan_word_progress c s' Hnb Hc) as Hp. destruct (scan_word_spec _ false _ (Nat.le_refl _) Hc) as (_ & Hr & _).
  rewrite Ew in Hp, Hr. simpl in Hp, Hle, Hr. apply split_fuel_enough; [done|lia].
Qed.

Lemma split_words_skip s : cstr s -> split_words (skip_spaces s) = split_words s.
Proof.
  intros Hs. pose proof (skip_spaces_le s). unfold split_words at 2. rewrite <- split_fuel_skip. symmetry.
  apply split_fuel_enough; [by apply skip_spaces_cstr|lia].
Qed.

(** A word without special characters at the front of a line. *)
Lemma split_words_plain v s : cstr v -> cstr s -> v <> [] -> Forall (fun c => c <> space_char /\ c <> dquote /\ c <> backslash) v ->
  split_words (v ++ space_char :: s) = v :: split_words s.
Proof.
  intros Hv Hs Hne Hf. destruct v as [|c v]; [done|].
  assert (Hc : cstr ((c :: v) ++ space_char :: s)) by (apply Forall_app; split; [done|by constructor; [unfold space_char; lia|]]).
  pose proof Hf as [[Hb _] _]%Forall_cons.
  assert (Ew : scan_word false ((c :: v) ++ space_char :: s) = (c :: v, space_char :: s)).
  { clear -Hf. induction Hf as [|x l (H1 & H2 & H3) Hl IH]; [done|]. cbn [app scan_word orb].
    destruct (Z.eqb_spec x space_char), (Z.eqb_spec x dquote), (Z.eqb_spec x backslash); try done. cbn [negb]. by rewrite IH. }
  rewrite (split_words_cons _ c (v ++ space_char :: s) (c :: v) (space_char :: s)); [|done| |exact Ew].
  - f_equal. unfold split_words at 1. cbn [split_fuel length]. change (skip_spaces (space_char :: s)) with (skip_spaces s).
    pose proof (split_fuel_enough (S (S (length s))) s Hs ltac:(lia)) as E. cbn [split_fuel] in E. exact E.
  - cbn [app skip_spaces]. by destruct (Z.eqb_spec c space_char).
Qed.

(** [argstr] is what follows the verb. *)
Lemma expand_spec command : cstr command -> skip_spaces command = command ->
  let '(argstr, buf) := expand command in cstr argstr /\ cstr buf /\
  match split_words buf with
  | [] => command = []
  | verb :: args => args = split_words argstr
  end.
Proof.
  intros Hc Hid. assert (Hsp : forall verb, cstr (BS verb) -> BS verb <> [] ->
    Forall (fun c => c <> space_char /\ c <> dquote /\ c <> backslash) (BS verb) ->
    cstr (drop 1 command) /\ cstr (BS verb ++ [space_char] ++ drop 1 command) /\
    match split_words (BS verb ++ [space_char] ++ drop 1 command) with [] => command = [] | v :: args => args = split_words (drop 1 command) end).
  { intros verb Hv Hne Hf. assert (Hd : cstr (drop 1 command)) by (by apply Forall_drop). split; [done|]. split.
    - apply Forall_app. split; [done|]. constructor; [unfold space_char; lia|done].
    - change ([space_char] ++ drop 1 command) with (space_char :: drop 1 command). by rewrite split_words_plain. }
  assert (Hgen : let '(argstr, buf) := (skip_spaces (skip_verb false command), command) in cstr argstr /\ cstr buf /\
    match split_words buf with [] => command = [] | verb :: args => args = split_words argstr end).
  { rewrite (skip_verb_spec _ false _ (Nat.le_refl _)). destruct (scan_word_spec _ false _ (Nat.le_refl _) Hc) as (_ & Hr & _).
    split; [by apply skip_spaces_cstr|]. split; [done|]. destruct command as [|c s]; [done|].
    destruct (scan_word false (c :: s)) as [w r] eqn:Ew. simpl in Hr |- *.
    rewrite (split_words_cons _ c s w r Hc Hid Ew). by rewrite split_words_skip. }
  unfold expand. destruct command as [|c s]; [exact Hgen|].
  assert (Ht : forall v, v = "say" \/ v = "emote" \/ v = "eval" -> cstr (BS v) /\ BS v <> [] /\ Forall (fun c => c <> space_char /\ c <> dquote /\ c <> backslash) (BS v)).
  { intros v Hv. destruct Hv as [-> |[-> | ->]]; (split; [apply cstrb_ok; reflexivity|]); (split; [discriminate|]);
      repeat (apply Forall_cons_2; [split; [discriminate|split; discriminate]|]); constructor. }
  destruct (Z.eq_dec c 34) as [-> |]; [apply Hsp; apply Ht; auto|].
  destruct (Z.eq_dec c 58) as [-> |]; [apply Hsp; apply Ht; auto|].
  destruct (Z.eq_dec c 59) as [-> |]; [apply Hsp; apply Ht; auto|].
  replace (match c with 34 => _ | _ => _ end) with (skip_spaces (skip_verb false (c :: s)), c :: s); [exact Hgen|].
  repeat (destruct c as [|c|c]; try done).
Qed.

Lemma match_object_total d player name : db_inv d -> names_ok d -> cstr name -> exists r, match_object name d player = Some r.
Proof.
  intros Hi Hn Hc. unfold match_object. destruct name as [|c rest] eqn:En; [eauto|]. rewrite <- En in *. destruct (c =? 35).
  { destruct (strtol rest). eauto. }
  destruct (valid d player) eqn:Hv; cbn [negb]; [|eauto].
  destruct (mystrcasecmp name (BS "me") =? 0); [eauto|]. destruct (mystrcasecmp name (BS "here") =? 0).
  - unfold db_object_location. apply valid_spec in Hv as [o ->]; [|apply (inv_ok d Hi)]. cbn [mbind option_bind]. eauto.
  - rewrite (match_contents_spec d player name Hi Hn Hc Hv). eauto.
Qed.

Lemma build_words_spec n p argv : 0 <= n -> 0 <= p -> p + n <= Z.of_nat (length argv) ->
  build_words n p argv = Some (join (take (Z.to_nat n) (drop (Z.to_nat p) argv))).
Proof.
  intros Hn Hp Hl. unfold build_words. destruct (Z.leb_spec 0 n); [|lia]. destruct (Z.leb_spec 0 p); [|lia].
  destruct (Z.leb_spec (p + n) (Z.of_nat (length argv))); [|lia]. apply build_string_spec.
Qed.

(** The fields of a command with the arguments [dw ++ pw ++ iw]. *)
Definition parsed (d : db) (user : Z) (verb argstr : bytes) (dw pw iw : list bytes) (prep : Z) (pc : Parsed_Command) : Prop :=
  pc_verb pc = verb /\ pc_argstr pc = argstr /\ pc_args pc = VStr <$> (dw ++ pw ++ iw) /\
  pc_dobjstr pc = join dw /\ pc_prepstr pc = join pw /\ pc_iobjstr pc = join iw /\ pc_prep pc = prep /\
  match_object (join dw) d user = Some (pc_dobj pc) /\ match_object (join iw) d user = Some (pc_iobj pc).

(** The words before the phrase. *)
Lemma direct_spec d user verb args k : db_inv d -> names_ok d -> Forall cstr args -> (k <= length args)%nat ->
  exists dobj, direct d user (Z.of_nat k + 1) (verb :: args) = Some (join (take k args), dobj) /\
    match_object (join (take k args)) d user = Some dobj.
Proof.
  intros Hi Hn Hc Hk. unfold direct. destruct (Z.eqb_spec (Z.of_nat k + 1 - 1) 0) as [E|E].
  - assert (k = 0%nat) as -> by lia. by exists NOTHING.
  - rewrite build_words_spec by (simpl; lia). change (drop (Z.to_nat 1) (verb :: args)) with args.
    replace (Z.to_nat (Z.of_nat k + 1 - 1)) with k by lia. cbn [mbind option_bind].
    destruct (match_object_total d user (join (take k args)) Hi Hn) as [r Er]; [by apply join_cstr, Forall_take|].
    rewrite Er. cbn [mbind option_bind]. by exists r.
Qed.

(** The phrase and the words after it. *)
Lemma indirect_spec d user verb args j f n : db_inv d -> names_ok d -> Forall cstr args -> (0 < n)%nat -> (f + n <= length args)%nat ->
  exists iobj, indirect d user (Z.of_nat j) (Z.of_nat f + 1) (Z.of_nat f + Z.of_nat n - 1 + 1) (verb :: args) =
      Some (join (take n (drop f args)), join (drop (f + n) args), iobj) /\
    match_object (join (drop (f + n) args)) d user = Some iobj.
Proof.
  intros Hi Hn Hc Hn0 Hlen. unfold indirect. destruct (Z.eqb_spec (Z.of_nat j) PREP_NONE) as [E|_]; [unfold PREP_NONE in E; lia|]. cbn [negb].
  rewrite !build_words_spec by (simpl; lia). simpl length. cbn [mbind option_bind].
  replace (Z.to_nat (Z.of_nat f + Z.of_nat n - 1 + 1 - (Z.of_nat f + 1) + 1)) with n by lia.
  replace (Z.to_nat (Z.of_nat f + 1)) with (S f) by lia.
  replace (Z.to_nat (Z.of_nat f + Z.of_nat n - 1 + 1 + 1)) with (S (f + n)) by lia.
  cbn [drop]. rewrite (take_ge (drop (f + n) args)) by (rewrite length_drop; lia).
  destruct (match_object_total d user (join (drop (f + n) args)) Hi Hn) as [iobj Ei]; [by apply join_cstr, Forall_drop|].
  rewrite Ei. cbn [mbind option_bind]. by exists iobj.
Qed.

(** The search for a preposition among the words after the verb. *)
Lemma parse_words_spec d user verb argstr args : db_inv d -> names_ok d -> Forall cstr args ->
  exists pc dw pw iw prep,
    ('(prep, pstart, pend) ← prep_range (verb :: args);
     '(prepstr, iobjstr, iobj) ← indirect d user prep pstart pend (verb :: args);
     '(dobjstr, dobj) ← direct d user pstart (verb :: args);
     Some (Some (mkCommand verb argstr (VStr <$> args) dobjstr dobj prepstr prep iobjstr iobj))) = Some (Some pc) /\
    args = dw ++ pw ++ iw /\ parsed d user verb argstr dw pw iw prep pc /\
    ((prep = PREP_NONE /\ pw = [] /\ iw = [] /\ forall j f n, ~ phrase_at args j f n) \/
     exists j, prep = Z.of_nat j /\ phrase_at args j (length dw) (length pw) /\
       (forall j' n', (j' < j)%nat -> ~ phrase_at args j' (length dw) n') /\
       (forall j' f' n', (f' < length dw)%nat -> ~ phrase_at args j' f' n')).
Proof.
  intros Hi Hn Hc.
  assert (Hr : (prep_range (verb :: args) = Some (PREP_NONE, Z.of_nat (length args) + 1, Z.of_nat (length args) + 1) /\ forall j f n, ~ phrase_at args j f n) \/
    exists j f n, prep_range (verb :: args) = Some (Z.of_nat j, Z.of_nat f + 1, Z.of_nat f + Z.of_nat n - 1 + 1) /\ phrase_at args j f n /\
      (forall j' n', (j' < j)%nat -> ~ phrase_at args j' f n') /\ forall j' f' n', (f' < f)%nat -> ~ phrase_at args j' f' n').
  { unfold prep_range. replace (Z.of_nat (length (verb :: args))) with (Z.of_nat (length args) + 1) by (simpl; lia). cbn [drop].
    rewrite drop_0. destruct (Z.ltb_spec 1 (Z.of_nat (length args) + 1)).
    2: { left. split; [done|]. intros j f n [? ?]%phrase_at_length. lia. }
    pose proof (find_prep_from_spec args Hc 0) as H0. rewrite drop_0 in H0. unfold db_find_prep. change (Z.of_nat 0) with 0 in H0.
    destruct (find_prep_from false 0 args) as [p [[first last]|]].
    - right. destruct H0 as (j & f & n & -> & -> & -> & _ & _ & Hph & Hm1 & Hm2). exists j, f, n.
      destruct (Z.eqb_spec (Z.of_nat j) PREP_NONE) as [E|_]; [unfold PREP_NONE in E; lia|]. cbn [mbind option_bind].
      split; [done|]. split; [done|]. split; [done|]. intros j' f' n' Hf'. apply Hm2. lia.
    - left. destruct H0 as [-> H0]. rewrite Z.eqb_refl. split; [done|]. intros j f n. apply H0. lia. }
  destruct Hr as [[-> Hno]|(j & f & n & -> & Hph & Hm1 & Hm2)]; cbn [mbind option_bind].
  - unfold indirect at 1. rewrite Z.eqb_refl. cbn [negb mbind option_bind].
    destruct (direct_spec d user verb args (length args) Hi Hn Hc ltac:(lia)) as (dobj & -> & Ed). cbn [mbind option_bind].
    rewrite take_ge in * by done. eexists _, args, [], [], PREP_NONE. split; [done|]. rewrite !app_nil_r.
    split; [done|]. split; [|left; done]. unfold parsed. cbn. rewrite !app_nil_r. auto 10.
  - destruct (phrase_at_length _ _ _ _ Hph) as [Hn0 Hlen].
    destruct (indirect_spec d user verb args j f n Hi Hn Hc Hn0 Hlen) as (iobj & -> & Ei). cbn [mbind option_bind].
    destruct (direct_spec d user verb args f Hi Hn Hc ltac:(lia)) as (dobj & -> & Ed). cbn [mbind option_bind].
    eexists _, (take f args), (take n (drop f args)), (drop (f + n) args), (Z.of_nat j). split; [done|].
    assert (Eargs : args = take f args ++ take n (drop f args) ++ drop (f + n) args) by (rewrite <- drop_drop, take_drop, take_drop; done).
    split; [exact Eargs|]. split; [unfold parsed; cbn; rewrite <- Eargs; auto 10|]. right. exists j.
    rewrite !length_take, length_drop. replace (f `min` length args)%nat with f by lia.
    replace (n `min` (length args - f))%nat with n by lia. auto 10.
Qed.

(** What [best_match] answers, case by case. *)
Lemma best_match_cases d name l :
  let found test x := x ∈ l /\ matches test d name x = true in
  let r := best_match d name l in
  (forall x, found is_exact x -> (forall y, found is_exact y -> y = x) -> r = x) /\
  (forall x y, found is_exact x -> found is_exact y -> x <> y -> r = AMBIGUOUS) /\
  ((forall x, ~ found is_exact x) ->
     (forall x, found is_partial x -> (forall y, found is_partial y -> y = x) -> r = x) /\
     (forall x y, found is_partial x -> found is_partial y -> x <> y -> r = AMBIGUOUS) /\
     ((forall x, ~ found is_partial x) -> r = FAILED_MATCH)).
Proof.
  assert (F : forall test x, x ∈ filter (fun x => matches test d name x) l <-> x ∈ l /\ matches test d name x = true).
  { intros test x. rewrite list_elem_of_filter. split.
    - intros [H Hx]. split; [exact Hx|]. by destruct (matches test d name x).
    - intros [Hx ->]. split; [exact I|exact Hx]. }
  assert (One : forall test x, x ∈ l /\ matches test d name x = true -> (forall y, y ∈ l /\ matches test d name y = true -> y = x) ->
    filter (fun x => matches test d name x) l <> [] /\ the_one (filter (fun x => matches test d name x) l) = x).
  { intros test x Hx Hall. apply F in Hx. assert (G : forall y, y ∈ filter (fun x => matches test d name x) l -> y = x) by (intros y Hy; apply Hall, F, Hy).
    destruct (filter _ l) as [|z l']; [by apply elem_of_nil in Hx|]. split; [discriminate|]. cbn [the_one].
    assert (E : forallb (Z.eqb z) l' = true); [|rewrite E; apply G; left].
    apply forallb_forall. intros y Hy%list_elem_of_In. apply Z.eqb_eq. rewrite (G z) by left. symmetry. apply G. right. exact Hy. }
  cbv zeta. unfold best_match. split; [|split].
  - intros x Hx Hall. destruct (One is_exact x Hx Hall) as [Hne E]. by destruct (filter _ l).
  - intros x y Hx%F Hy%F Hxy. apply (best_exact d name l x y Hx Hy Hxy).
  - intros Hno. assert (E : filter (fun x => matches is_exact d name x) l = []).
    { destruct (filter (fun x => matches is_exact d name x) l) as [|z l'] eqn:E; [done|]. destruct (Hno z). apply F. rewrite E. left. }
    rewrite E. split; [|split].
    + intros x Hx Hall. by destruct (One is_partial x Hx Hall).
    + intros x y Hx%F Hy%F. by apply the_one_many.
    + intros Hnone. assert (E2 : filter (fun x => matches is_partial d name x) l = []); [|by rewrite E2].
      destruct (filter (fun x => matches is_partial d name x) l) as [|z l'] eqn:E2; [done|]. destruct (Hnone z). apply F. rewrite E2. left.
Qed.

(** Names that are object numbers. *)
Lemma number_match_eq d player rest : match_object (35 :: rest) d player = Some (number_match d (strtol rest)).
Proof.
  unfold match_object, number_match. change (35 =? 35) with true. cbv iota. destruct (strtol rest) as [r p].
  case_bool_decide; destruct (valid d r); reflexivity.
Qed.

(** An integer as the C library reads it, perhaps with a minus. *)
Lemma strtol_digits (neg : bool) ds : forallb isdigit ds = true -> ds <> [] ->
  strtol ((if neg then [45] else []) ++ ds) = (clamp_long (if neg then - digits_value ds else digits_value ds), []).
Proof.
  intros Hd Hne. destruct ds as [|c ds]; [done|]. pose proof (read_digits_all 0 (c :: ds) Hd) as E.
  assert (Hc : isdigit c = true) by (cbn in Hd; by destruct (isdigit c)). assert (Hr : 48 <= c <= 57) by (unfold isdigit in Hc; lia).
  unfold strtol. destruct neg; cbn [app skip_isspace].
  - change (isspace 45) with false. cbv iota. change (45 =? 45) with true. cbv iota. rewrite Hc, E. reflexivity.
  - assert (isspace c = false) as -> by (unfold isspace, space_char; lia). cbv iota.
    destruct (Z.eqb_spec c 45); [lia|]. destruct (Z.eqb_spec c 43); [lia|]. rewrite Hc, E. reflexivity.
Qed.

Lemma number_match_digits d player ds : forallb isdigit ds = true -> ds <> [] ->
  match_object (35 :: ds) d player = Some (let n := Z.min NUM_MAX (digits_value ds) in if valid d n then n else FAILED_MATCH).
Proof.
  intros Hd Hne. rewrite number_match_eq. pose proof (strtol_digits false ds Hd Hne) as E. cbn [app] in E. rewrite E. unfold number_match. rewrite bool_decide_eq_true_2 by done.
  assert (H0 : 0 <= digits_value ds).
  { assert (G : forall ds a, forallb isdigit ds = true -> 0 <= a -> 0 <= fold_left (fun a c => a * 10 + (c - 48)) ds a); [|by apply G].
    clear. induction ds as [|c ds IH]; intros a Hd Ha; [done|]. cbn in Hd |- *. apply andb_true_iff in Hd as [Hc Hd].
    apply IH; [done|]. unfold isdigit in Hc. lia. }
  unfold clamp_long. replace (Z.max NUM_MIN _) with (Z.min NUM_MAX (digits_value ds)) by (unfold NUM_MAX, NUM_MIN; lia). reflexivity.
Qed.

Lemma number_match_print d player x : is_Num x -> valid d x = true -> match_object (35 :: print_num x) d player = Some x.
Proof.
  intros Hx Hv. destruct (print_num_spec x Hx) as (ds & -> & Hd & Hne & Ha). rewrite number_match_eq, strtol_digits by done.
  unfold number_match. rewrite bool_decide_eq_true_2 by done.
  replace (clamp_long _) with x; [by rewrite Hv|]. unfold clamp_long, is_Num in *. rewrite Ha. destruct (Z.ltb_spec x 0); lia.
Qed.

(** ** Theorems *)

(** C22: matching a name, whatever it is: the empty name is no object; a number
    sign with an integer after it, as the C library reads one, and nothing more
    is the valid object with that 64-bit number (digits denote their value, and
    what is printed for an object is read as that object), and is no match if
    the number is not valid or something follows it; "me" and "here" are the
    player and the place; any other name is compared, ignoring case, with the names and aliases of the objects that
    the player carries and that are in the same place.  The only object with a
    matching name is the answer, even if others match partially; without one the
    only object with a name that begins so; several are ambiguous. *)
Theorem match_object_correct (d : db) (player : Z) (name : bytes) :
  db_inv d -> names_ok d -> cstr name ->
  match_object name d player = Some (
    if decide (name = []) then NOTHING
    else if decide (head name = Some 35) then number_match d (strtol (tail name))
    else if negb (valid d player) then FAILED_MATCH
    else if decide (casefold name = casefold (BS "me")) then player
    else if decide (casefold name = casefold (BS "here")) then default NOTHING (db_object_location d player)
    else best_match d name (around d player)) /\
  (forall ds, forallb isdigit ds = true -> ds <> [] -> name = 35 :: ds ->
     match_object name d player = Some (let n := Z.min NUM_MAX (digits_value ds) in if valid d n then n else FAILED_MATCH)) /\
  (forall x, is_Num x -> valid d x = true -> name = 35 :: print_num x -> match_object name d player = Some x) /\
  let found test x := x ∈ around d player /\ matches test d name x = true in
  let r := best_match d name (around d player) in
  (forall x, found is_exact x -> (forall y, found is_exact y -> y = x) -> r = x) /\
  (forall x y, found is_exact x -> found is_exact y -> x <> y -> r = AMBIGUOUS) /\
  ((forall x, ~ found is_exact x) ->
     (forall x, found is_partial x -> (forall y, found is_partial y -> y = x) -> r = x) /\
     (forall x y, found is_partial x -> found is_partial y -> x <> y -> r = AMBIGUOUS) /\
     ((forall x, ~ found is_partial x) -> r = FAILED_MATCH)).
Proof.
  intros Hi Hn Hc. split; [|split; [|split]].
  - unfold match_object. destruct name as [|c rest] eqn:En; [by rewrite decide_True|]. rewrite <- En in *.
    rewrite decide_False by (rewrite En; discriminate). destruct (Z.eqb_spec c 35) as [->|Hne].
    { rewrite decide_True by (by rewrite En). rewrite En. apply (number_match_eq d player rest). }
    rewrite decide_False by (rewrite En; simpl; congruence).
    destruct (valid d player) eqn:Hv; cbn [negb]; [|done].
    assert (Hme : cstr (BS "me") /\ cstr (BS "here")) by (split; apply cstrb_ok; reflexivity). destruct Hme as [Hme Hhere].
    destruct (Z.eqb_spec (mystrcasecmp name (BS "me")) 0) as [E|E]; [apply mystrcasecmp_eq in E; [|done..]; by rewrite decide_True|].
    rewrite mystrcasecmp_eq in E by done. rewrite (decide_False (P := casefold name = casefold (BS "me"))) by exact E.
    destruct (Z.eqb_spec (mystrcasecmp name (BS "here")) 0) as [E'|E'].
    + apply mystrcasecmp_eq in E'; [|done..]. rewrite decide_True by done. unfold db_object_location.
      apply valid_spec in Hv as [o ->]; [done|apply (inv_ok d Hi)].
    + rewrite mystrcasecmp_eq in E' by done. rewrite (decide_False (P := casefold name = casefold (BS "here"))) by exact E'.
      by apply match_contents_spec.
  - intros ds Hd Hne ->. by apply number_match_digits.
  - intros x Hx Hv ->. by apply number_match_print.
  - cbv zeta. apply best_match_cases.
Qed.

(** C21: taking a command apart: a line of blanks is no command; any other is
    split into a verb and arguments, which are the words of [argstr] (also for
    the abbreviations with a quote, a colon and a semicolon); the arguments are
    the direct object's words, the leftmost prepositional phrase, and the
    indirect object's words, in this order, nothing lost, and the objects are
    what the strings match.  Without a phrase all arguments are the direct
    object.  No word outside the command is read. *)
Theorem parse_command_correct (d : db) (user : Z) (command : bytes) :
  db_inv d -> names_ok d -> cstr command ->
  (skip_spaces command = [] -> parse_command d command user = Some None) /\
  (skip_spaces command <> [] -> exists pc verb argstr dw pw iw prep,
     parse_command d command user = Some (Some pc) /\ parsed d user verb argstr dw pw iw prep pc /\
     split_words (snd (expand (skip_spaces command))) = verb :: dw ++ pw ++ iw /\
     argstr = fst (expand (skip_spaces command)) /\ split_words argstr = dw ++ pw ++ iw /\
     ((prep = PREP_NONE /\ pw = [] /\ iw = [] /\ forall j f n, ~ phrase_at (split_words argstr) j f n) \/
      exists j, prep = Z.of_nat j /\ phrase_at (split_words argstr) j (length dw) (length pw) /\
        (forall j' n', (j' < j)%nat -> ~ phrase_at (split_words argstr) j' (length dw) n') /\
        (forall j' f' n', (f' < length dw)%nat -> ~ phrase_at (split_words argstr) j' f' n'))).
Proof.
  intros Hi Hn Hc. pose proof (expand_spec (skip_spaces command) (skip_spaces_cstr _ Hc) (skip_spaces_idem _)) as H.
  unfold parse_command. split.
  - intros E. rewrite E. reflexivity.
  - intros Hne. destruct (expand (skip_spaces command)) as [argstr buf]. destruct H as (Ha & Hb & H). cbn [fst snd].
    rewrite words_of_spec by done. cbn [mbind option_bind]. destruct (split_words buf) as [|verb args] eqn:Ew; [done|].
    assert (Hargs : Forall cstr args).
    { pose proof (split_fuel_cstr (S (length buf)) buf Hb) as G. change (split_fuel _ _) with (split_words buf) in G. rewrite Ew in G.
      by apply Forall_cons in G as [_ G]. }
    destruct (parse_words_spec d user verb argstr args Hi Hn Hargs) as (pc & dw & pw & iw & prep & E & Eargs & Hp & Hcase).
    exists pc, verb, argstr, dw, pw, iw, prep. split; [exact E|]. split; [exact Hp|]. rewrite <- H, <- Eargs.
    split; [reflexivity|]. split; [reflexivity|]. split; [reflexivity|exact Hcase].
Qed.

#[local] Transparent matches names_of.
Lemma sample_names : names_ok sample.
Proof.
  intros x. unfold names_of. destruct (objects sample !! x) as [o|] eqn:Ho; [|constructor].
  assert (Hin : In (x, o) (map_to_list (objects sample))) by (by apply list_elem_of_In, elem_of_map_to_list).
  assert (G : forallb (fun '(x, o) => cstrb (o_name o) &&
      match prop_value sample x (casefold aliases_name) with None => true | _ => false end) (map_to_list (objects sample)) = true) by (vm_compute; reflexivity).
  rewrite forallb_forall in G. specialize (G _ Hin). cbv beta iota in G. apply andb_true_iff in G as [G1 G2].
  destruct (prop_value sample x (casefold aliases_name)); [discriminate G2|]. constructor; [by apply cstrb_ok|constructor].
Qed.

(** Anna, #4, carries the ball, #2, in the room, #3: "ba" matches in part; a
    number that is 2 modulo 2^32 is not the ball. *)
Example match_object_correct_witness :
  match_object (BS "ba") sample 4 = Some 2 /\ best_match sample (BS "ba") (around sample 4) = 2 /\
  match_object (BS "#2") sample 4 = Some 2 /\ match_object (BS "#4294967298") sample 4 = Some FAILED_MATCH.
Proof.
  destruct (match_object_correct sample 4 (BS "ba")) as [H _];
    [exact sample_inv|exact sample_names|apply cstrb_ok; reflexivity|].
  assert (E : best_match sample (BS "ba") (around sample 4) = 2) by (vm_compute; reflexivity).
  split; [rewrite H; vm_compute; reflexivity|]. split; [exact E|]. split.
  - destruct (match_object_correct sample 4 (BS "#2")) as (_ & _ & H' & _);
      [exact sample_inv|exact sample_names|apply cstrb_ok; reflexivity|].
    apply H'; [unfold is_Num, NUM_MIN, NUM_MAX; lia|reflexivity|reflexivity].
  - destruct (match_object_correct sample 4 (BS "#4294967298")) as (_ & H' & _);
      [exact sample_inv|exact sample_names|apply cstrb_ok; reflexivity|].
    rewrite (H' (BS "4294967298")); [vm_compute; reflexivity|reflexivity|discriminate|reflexivity].
Defined.

(** Anna says something, and puts the ball in front of the room. *)
Example parse_command_correct_witness :
  (exists pc, parse_command sample (BS "  put ball in front of the\ room") 4 = Some (Some pc) /\
     pc_dobj pc = 2 /\ pc_prep pc = 2 /\ pc_iobjstr pc = BS "the room" /\ pc_iobj pc = FAILED_MATCH) /\
  exists pc verb, parse_command sample (34 :: BS "hi there") 4 = Some (Some pc) /\ pc_verb pc = verb /\ pc_argstr pc = BS "hi there".
Proof.
  split.
  - eexists. split; [vm_compute; reflexivity|]. repeat split.
  - destruct (parse_command_correct sample 4 (34 :: BS "hi there")) as [_ H];
      [exact sample_inv|exact sample_names|apply cstrb_ok; reflexivity|].
    destruct H as (pc & verb & argstr & dw & pw & iw & prep & E & Hp & _ & Ha & _); [discriminate|].
    exists pc, verb. split; [exact E|]. destruct Hp as (-> & -> & _). split; [reflexivity|]. rewrite Ha. reflexivity.
Defined.
