(* ===== verification/Ast.v ===== *)
(** * Syntax trees and opcodes (ast.h, opcode.h)

    What the parser builds, the code generator consumes and the decompiler
    rebuilds.  The linked lists of the trees (arguments, statements, arms) are
    inductive types of their own, so that everything about trees is by mutual
    recursion; a null pointer is the empty list.  The labels that ast.h keeps in
    some nodes "for convenience" are results of the functions that set them. *)

From S2P Require Import Prelude Utf CString Values.

(** ** Definitions *)

Inductive Arg_Kind := ARG_NORMAL | ARG_SPLICE.
Inductive Scatter_Kind := SCAT_REQUIRED | SCAT_OPTIONAL | SCAT_REST.

(** The operators that are treated alike; those on bits and [EXPR_EXP] have
    extended opcodes. *)
Inductive binary_kind :=
| EXPR_PLUS | EXPR_MINUS | EXPR_TIMES | EXPR_DIVIDE | EXPR_MOD
| EXPR_EQ | EXPR_NE | EXPR_LT | EXPR_LE | EXPR_GT | EXPR_GE | EXPR_IN
| EXPR_EXP | EXPR_BITOR | EXPR_BITXOR | EXPR_BITAND | EXPR_SHL | EXPR_SHR | EXPR_LSHR.
Inductive unary_kind := EXPR_NEGATE | EXPR_NOT | EXPR_COMPLEMENT.
Inductive logic_kind := EXPR_AND | EXPR_OR.

Inductive Expr :=
| EXPR_VAR (v : Var)
| EXPR_ID (id : Z)
| EXPR_PROP (lhs rhs : Expr)
| EXPR_VERB (obj verb : Expr) (args : Arg_List)
| EXPR_INDEX (lhs rhs : Expr)
| EXPR_RANGE (base from to : Expr)
| EXPR_ASGN (lhs rhs : Expr)
| EXPR_CALL (func : Z) (args : Arg_List)
| EXPR_BINARY (kind : binary_kind) (lhs rhs : Expr)
| EXPR_UNARY (kind : unary_kind) (expr : Expr)
| EXPR_LOGIC (kind : logic_kind) (lhs rhs : Expr)
| EXPR_LIST (list : Arg_List)
| EXPR_COND (condition consequent alternate : Expr)
| EXPR_CATCH (try : Expr) (codes : Arg_List) (except : Expr_ptr)
| EXPR_LENGTH
| EXPR_SCATTER (scatter : Scatter)
with Expr_ptr := Null | Ptr (e : Expr)
with Arg_List := ANil | ACons (kind : Arg_Kind) (expr : Expr) (next : Arg_List)
with Scatter := SNil | SCons (kind : Scatter_Kind) (id : Z) (expr : Expr_ptr) (next : Scatter).

Scheme Expr_mut := Induction for Expr Sort Prop
  with Expr_ptr_mut := Induction for Expr_ptr Sort Prop
  with Arg_List_mut := Induction for Arg_List Sort Prop
  with Scatter_mut := Induction for Scatter Sort Prop.
Combined Scheme Expr_ind_all from Expr_mut, Expr_ptr_mut, Arg_List_mut, Scatter_mut.

Inductive Stmt :=
| STMT_COND (arms : Cond_Arm) (otherwise : Stmts)
| STMT_LIST (id : Z) (expr : Expr) (body : Stmts)
| STMT_RANGE (id : Z) (from to : Expr) (body : Stmts)
| STMT_WHILE (id : Z) (condition : Expr) (body : Stmts)
| STMT_FORK (id : Z) (time : Expr) (body : Stmts)
| STMT_EXPR (expr : Expr)
| STMT_RETURN (expr : Expr_ptr)
| STMT_TRY_EXCEPT (body : Stmts) (excepts : Except_Arm)
| STMT_TRY_FINALLY (body handler : Stmts)
| STMT_BREAK (exit : Z)
| STMT_CONTINUE (exit : Z)
with Stmts := SEnd | SNext (s : Stmt) (next : Stmts)
with Cond_Arm := CEnd | CArm (condition : Expr) (stmt : Stmts) (next : Cond_Arm)
with Except_Arm := XEnd | XArm (id : Z) (codes : Arg_List) (stmt : Stmts) (next : Except_Arm).

Scheme Stmt_mut := Induction for Stmt Sort Prop
  with Stmts_mut := Induction for Stmts Sort Prop
  with Cond_Arm_mut := Induction for Cond_Arm Sort Prop
  with Except_Arm_mut := Induction for Except_Arm Sort Prop.
Combined Scheme Stmt_ind_all from Stmt_mut, Stmts_mut, Cond_Arm_mut, Except_Arm_mut.

(** *** Opcodes *)

Definition NUM_READY_VARS : Z := 32.

Definition OP_IF : Z := 0.
Definition OP_WHILE : Z := 1.
Definition OP_EIF : Z := 2.
Definition OP_FORK : Z := 3.
Definition OP_FORK_WITH_ID : Z := 4.
Definition OP_FOR_LIST : Z := 5.
Definition OP_FOR_RANGE : Z := 6.
Definition OP_INDEXSET : Z := 7.
Definition OP_PUSH_GET_PROP : Z := 8.
Definition OP_GET_PROP : Z := 9.
Definition OP_CALL_VERB : Z := 10.
Definition OP_PUT_PROP : Z := 11.
Definition OP_BI_FUNC_CALL : Z := 12.
Definition OP_IF_QUES : Z := 13.
Definition OP_REF : Z := 14.
Definition OP_RANGE_REF : Z := 15.
Definition OP_MAKE_SINGLETON_LIST : Z := 16.
Definition OP_CHECK_LIST_FOR_SPLICE : Z := 17.
Definition OP_MULT : Z := 18.
Definition OP_DIV : Z := 19.
Definition OP_MOD : Z := 20.
Definition OP_ADD : Z := 21.
Definition OP_MINUS : Z := 22.
Definition OP_EQ : Z := 23.
Definition OP_NE : Z := 24.
Definition OP_LT : Z := 25.
Definition OP_LE : Z := 26.
Definition OP_GT : Z := 27.
Definition OP_GE : Z := 28.
Definition OP_IN : Z := 29.
Definition OP_AND : Z := 30.
Definition OP_OR : Z := 31.
Definition OP_UNARY_MINUS : Z := 32.
Definition OP_NOT : Z := 33.
Definition OP_PUT : Z := 34.
Definition OP_G_PUT : Z := OP_PUT + NUM_READY_VARS.
Definition OP_PUSH : Z := OP_G_PUT + 1.
Definition OP_G_PUSH : Z := OP_PUSH + NUM_READY_VARS.
Definition OP_IMM : Z := OP_G_PUSH + 1.
Definition OP_MAKE_EMPTY_LIST : Z := OP_IMM + 1.
Definition OP_LIST_ADD_TAIL : Z := OP_IMM + 2.
Definition OP_LIST_APPEND : Z := OP_IMM + 3.
Definition OP_PUSH_REF : Z := OP_IMM + 4.
Definition OP_PUT_TEMP : Z := OP_IMM + 5.
Definition OP_PUSH_TEMP : Z := OP_IMM + 6.
Definition OP_JUMP : Z := OP_IMM + 7.
Definition OP_RETURN : Z := OP_IMM + 8.
Definition OP_RETURN0 : Z := OP_IMM + 9.
Definition OP_DONE : Z := OP_IMM + 10.
Definition OP_POP : Z := OP_IMM + 11.
Definition OP_EXTENDED : Z := OP_IMM + 12.
Definition OPTIM_NUM_START : Z := OP_IMM + 13.
Definition Last_Opcode : Z := 255.

Definition EOP_RANGESET : Z := 0.
Definition EOP_LENGTH : Z := 1.
Definition EOP_PUSH_LABEL : Z := 2.
Definition EOP_END_CATCH : Z := 3.
Definition EOP_END_EXCEPT : Z := 4.
Definition EOP_END_FINALLY : Z := 5.
Definition EOP_CONTINUE : Z := 6.
Definition EOP_CATCH : Z := 7.
Definition EOP_TRY_EXCEPT : Z := 8.
Definition EOP_TRY_FINALLY : Z := 9.
Definition EOP_WHILE_ID : Z := 10.
Definition EOP_EXIT : Z := 11.
Definition EOP_EXIT_ID : Z := 12.
Definition EOP_SCATTER : Z := 13.
Definition EOP_EXP : Z := 14.
Definition EOP_BITAND : Z := 15.
Definition EOP_BITXOR : Z := 16.
Definition EOP_BITOR : Z := 17.
Definition EOP_SHL : Z := 18.
Definition EOP_SHR : Z := 19.
Definition EOP_LSHR : Z := 20.
Definition EOP_COMPLEMENT : Z := 21.

Definition OPTIM_NUM_LOW : Z := -10.
Definition OPTIM_NUM_HI : Z := Last_Opcode - OPTIM_NUM_START + OPTIM_NUM_LOW.

Definition IS_PUSH_n (o : Z) : bool := (OP_PUSH <=? o) && (o <? OP_G_PUSH).
Definition IS_PUT_n (o : Z) : bool := (OP_PUT <=? o) && (o <? OP_G_PUT).
Definition PUSH_n_INDEX (o : Z) : Z := o - OP_PUSH.
Definition PUT_n_INDEX (o : Z) : Z := o - OP_PUT.
Definition IS_OPTIM_NUM_OPCODE (o : Z) : bool := OPTIM_NUM_START <=? o.
Definition OPCODE_TO_OPTIM_NUM (o : Z) : Z := o - OPTIM_NUM_START + OPTIM_NUM_LOW.
Definition OPTIM_NUM_TO_OPCODE (i : Z) : Z := OPTIM_NUM_START + i - OPTIM_NUM_LOW.
Definition IN_OPTIM_NUM_RANGE (i : Z) : bool := (OPTIM_NUM_LOW <=? i) && (i <=? OPTIM_NUM_HI).
Definition COUNT_TICK (o : Z) : bool := o <=? OP_G_PUT.
Definition COUNT_EOP_TICK (eo : Z) : bool := EOP_CATCH <=? eo.
