(* ===== verification/CodeGen.v ===== *)
(** * The code generator (code_gen.c)

    A tree is translated in one pass into bytes with holes; each hole has a
    fixup that says what goes there, and how many holes of each kind are in
    front of the place a label refers to.  When the tree is done the sizes of
    the holes are chosen and the bytes are copied with the holes filled in.

    The state is threaded through a monad; [None] is a panic.  The growing of
    arrays, the reuse of memory and the interning of strings do not matter
    here.  BYTECODE_REDUCE_REF is off. *)

From S2P Require Import Prelude Utf CString Values Db Ast.

(** ** Definitions *)

Inductive fixup_kind := FIXUP_LITERAL | FIXUP_FORK | FIXUP_LABEL | FIXUP_VAR_REF | FIXUP_STACK.
#[export] Instance fixup_kind_eq_dec : EqDecision fixup_kind.
Proof. solve_decision. Defined.

Record Fixup := mkFixup {
  f_kind : fixup_kind;
  f_pc : Z;
  f_value : Z;
  prev_literals : Z; prev_forks : Z; prev_var_refs : Z; prev_labels : Z; prev_stacks : Z;
  f_next : Z
}.

Record GState := mkGState {
  total_var_refs : Z;
  g_literals : list Var;
  g_fork_vectors : list Bytecodes
}.

Record Loop := mkLoop {
  l_id : Z; l_top_label : Fixup; l_top_stack : Z; l_bottom_label : Z; l_bottom_stack : Z
}.

(** The innermost loop is the first of [loops]. *)
Record State := mkState {
  max_literal : Z; max_fork : Z; max_var_ref : Z;
  num_literals : Z; num_forks : Z; num_var_refs : Z; num_labels : Z; num_stacks : Z;
  fixups : list Fixup;
  cbytes : list Z;
  cur_stack : Z; max_stack : Z;
  saved_stack : Z;
  loops : list Loop;
  gstate : GState
}.

Definition UINT_MAX : Z := 2 ^ 32 - 1.

Definition init_gstate : GState := mkGState 0 [] [].
Definition init_state (g : GState) : State :=
  mkState 0 0 0 0 0 0 0 0 [] [] 0 0 UINT_MAX [] g.

(** *** Computations *)

Definition M (A : Type) : Type := State -> option (A * State).
#[export] Instance M_ret : MRet M := fun A a s => Some (a, s).
#[export] Instance M_bind : MBind M := fun A B f m s => match m s with Some (a, s) => f a s | None => None end.

Definition get {A} (f : State -> A) : M A := fun s => Some (f s, s).
Definition modify (f : State -> State) : M unit := fun s => Some (tt, f s).
Definition panic {A} : M A := fun _ => None.

Definition with_code (bs : list Z) (fx : list Fixup) (s : State) : State :=
  mkState (max_literal s) (max_fork s) (max_var_ref s) (num_literals s) (num_forks s) (num_var_refs s)
    (num_labels s) (num_stacks s) fx bs (cur_stack s) (max_stack s) (saved_stack s) (loops s) (gstate s).
Definition with_counts (nl nf nv nb ns : Z) (s : State) : State :=
  mkState (max_literal s) (max_fork s) (max_var_ref s) nl nf nv nb ns (fixups s) (cbytes s)
    (cur_stack s) (max_stack s) (saved_stack s) (loops s) (gstate s).
Definition with_maxima (ml mf mv : Z) (s : State) : State :=
  mkState ml mf mv (num_literals s) (num_forks s) (num_var_refs s) (num_labels s) (num_stacks s)
    (fixups s) (cbytes s) (cur_stack s) (max_stack s) (saved_stack s) (loops s) (gstate s).
Definition with_stack (c m sv : Z) (s : State) : State :=
  mkState (max_literal s) (max_fork s) (max_var_ref s) (num_literals s) (num_forks s) (num_var_refs s)
    (num_labels s) (num_stacks s) (fixups s) (cbytes s) c m sv (loops s) (gstate s).
Definition with_loops (l : list Loop) (s : State) : State :=
  mkState (max_literal s) (max_fork s) (max_var_ref s) (num_literals s) (num_forks s) (num_var_refs s)
    (num_labels s) (num_stacks s) (fixups s) (cbytes s) (cur_stack s) (max_stack s) (saved_stack s) l (gstate s).
Definition with_gstate (g : GState) (s : State) : State :=
  mkState (max_literal s) (max_fork s) (max_var_ref s) (num_literals s) (num_forks s) (num_var_refs s)
    (num_labels s) (num_stacks s) (fixups s) (cbytes s) (cur_stack s) (max_stack s) (saved_stack s) (loops s) g.

Definition num_bytes (s : State) : Z := Z.of_nat (length (cbytes s)).

(** *** Emitting *)

Definition emit_byte (b : Z) : M unit := modify (fun s => with_code (cbytes s ++ [uwrap 8 b]) (fixups s) s).
Definition emit_extended_byte (b : Z) : M unit := emit_byte OP_EXTENDED;; emit_byte b.

Definition set_pc (pc : Z) (f : Fixup) : Fixup :=
  mkFixup (f_kind f) pc (f_value f) (prev_literals f) (prev_forks f) (prev_var_refs f) (prev_labels f) (prev_stacks f) (f_next f).

(** Answers the index of the fixup; the byte is a placeholder. *)
Definition add_known_fixup (f : Fixup) : M Z :=
  i ← get (fun s => Z.of_nat (length (fixups s)));
  modify (fun s => with_code (cbytes s) (fixups s ++ [set_pc (num_bytes s) f]) s);;
  emit_byte 0;;
  mret i.

Definition add_linked_fixup (kind : fixup_kind) (value next : Z) : M Z :=
  f ← get (fun s => mkFixup kind 0 value (num_literals s) (num_forks s) (num_var_refs s) (num_labels s) (num_stacks s) next);
  add_known_fixup f.
Definition add_fixup (kind : fixup_kind) (value : Z) : M Z := add_linked_fixup kind value (-1).

(** The index of a literal among those interned, or their number. *)
Fixpoint find_literal (v : Var) (literals : list Var) (i : Z) : option Z :=
  match literals with
  | [] => Some i
  | w :: literals =>
      b ← (if decide (type_of v = type_of w) then equality v w true else Some false);
      if b : bool then Some i else find_literal v literals (i + 1)
  end.

Definition add_literal (v : Var) : M unit :=
  g ← get gstate;
  match find_literal v (g_literals g) 0 with
  | None => panic
  | Some i =>
      (if i =? Z.of_nat (length (g_literals g))
       then modify (with_gstate (mkGState (total_var_refs g) (g_literals g ++ [v]) (g_fork_vectors g)))
       else mret tt);;
      add_fixup FIXUP_LITERAL i;;
      modify (fun s => with_counts (num_literals s + 1) (num_forks s) (num_var_refs s) (num_labels s) (num_stacks s) s);;
      modify (fun s => with_maxima (if max_literal s <? i then i else max_literal s) (max_fork s) (max_var_ref s) s)
  end.

Definition add_fork (b : Bytecodes) : M unit :=
  g ← get gstate;
  let i := Z.of_nat (length (g_fork_vectors g)) in
  modify (with_gstate (mkGState (total_var_refs g) (g_literals g) (g_fork_vectors g ++ [b])));;
  add_fixup FIXUP_FORK i;;
  modify (fun s => with_counts (num_literals s) (num_forks s + 1) (num_var_refs s) (num_labels s) (num_stacks s) s);;
  modify (fun s => with_maxima (max_literal s) (if max_fork s <? i then i else max_fork s) (max_var_ref s) s).

Definition add_var_ref (slot : Z) : M unit :=
  add_fixup FIXUP_VAR_REF slot;;
  modify (fun s => with_counts (num_literals s) (num_forks s) (num_var_refs s + 1) (num_labels s) (num_stacks s) s);;
  modify (fun s => with_maxima (max_literal s) (max_fork s) (if max_var_ref s <? slot then slot else max_var_ref s) s);;
  modify (fun s => with_gstate (mkGState (total_var_refs (gstate s) + 1) (g_literals (gstate s)) (g_fork_vectors (gstate s))) s).

Definition count_label : M unit :=
  modify (fun s => with_counts (num_literals s) (num_forks s) (num_var_refs s) (num_labels s + 1) (num_stacks s) s).

Definition add_linked_label (next : Z) : M Z :=
  label ← add_linked_fixup FIXUP_LABEL 0 next; count_label;; mret label.
Definition add_label : M Z := add_linked_label (-1).

Definition add_pseudo_label (value : Z) : M unit :=
  add_known_fixup (mkFixup FIXUP_LABEL 0 value 0 0 0 0 0 (-1));; count_label.

Definition add_known_label (f : Fixup) : M Z := label ← add_known_fixup f; count_label;; mret label.

(** [pc] is set by [add_known_label]. *)
Definition capture_label : M Fixup :=
  get (fun s => mkFixup FIXUP_LABEL 0 (num_bytes s) (num_literals s) (num_forks s) (num_var_refs s) (num_labels s) (num_stacks s) (-1)).

Definition set_target (s : State) (f : Fixup) : Fixup :=
  mkFixup (f_kind f) (f_pc f) (num_bytes s) (num_literals s) (num_forks s) (num_var_refs s) (num_labels s) (num_stacks s) (f_next f).

(** The loop of [define_label]; a chain is not longer than the array. *)
Fixpoint define_chain (fuel : nat) (label : Z) (s : State) (fx : list Fixup) : option (list Fixup) :=
  if label =? -1 then Some fx
  else
    match fuel with
    | O => None
    | S fuel =>
        if label <? 0 then None
        else
          f ← fx !! Z.to_nat label;
          define_chain fuel (f_next f) s (<[Z.to_nat label := set_target s f]> fx)
    end.
Definition define_label (label : Z) : M unit := fun s =>
  fx ← define_chain (S (length (fixups s))) label s (fixups s);
  Some (tt, with_code (cbytes s) fx s).

Definition add_stack_ref (index : Z) : M unit :=
  add_fixup FIXUP_STACK index;; mret tt.

(** *** The stack and the loops *)

Definition push_stack (n : Z) : M unit :=
  modify (fun s =>
    let c := cur_stack s + n in
    with_stack c (if max_stack s <? c then c else max_stack s) (saved_stack s) s).
Definition pop_stack (n : Z) : M unit :=
  modify (fun s => with_stack (cur_stack s - n) (max_stack s) (saved_stack s) s).

Definition save_stack_top : M Z :=
  old ← get saved_stack;
  modify (fun s => with_stack (cur_stack s) (max_stack s) (uwrap 32 (cur_stack s - 1)) s);;
  mret old.
Definition saved_stack_top : M Z := get saved_stack.
Definition restore_stack_top (old : Z) : M unit :=
  modify (fun s => with_stack (cur_stack s) (max_stack s) old s).

Definition enter_loop (id : Z) (top_label : Fixup) (top_stack bottom_label bottom_stack : Z) : M unit :=
  modify (fun s => with_loops (mkLoop id top_label top_stack bottom_label bottom_stack :: loops s) s).
Definition exit_loop : M Z := fun s =>
  match loops s with
  | [] => None
  | l :: ls => Some (l_bottom_label l, with_loops ls s)
  end.

(** *** Expressions *)

Definition emit_call_verb_op (op : Z) : M unit := emit_byte op.
Definition emit_ending_op (op : Z) : M unit := emit_byte op.
Definition emit_var_op (op slot : Z) : M unit :=
  if NUM_READY_VARS <=? slot then emit_byte (op + NUM_READY_VARS);; add_var_ref slot
  else emit_byte (op + slot).

(** The opcode of a binary operator, and whether it is an extended one. *)
Definition binary_op (kind : binary_kind) : bool * Z :=
  match kind with
  | EXPR_PLUS => (false, OP_ADD) | EXPR_MINUS => (false, OP_MINUS) | EXPR_TIMES => (false, OP_MULT)
  | EXPR_DIVIDE => (false, OP_DIV) | EXPR_MOD => (false, OP_MOD)
  | EXPR_EQ => (false, OP_EQ) | EXPR_NE => (false, OP_NE) | EXPR_LT => (false, OP_LT)
  | EXPR_LE => (false, OP_LE) | EXPR_GT => (false, OP_GT) | EXPR_GE => (false, OP_GE) | EXPR_IN => (false, OP_IN)
  | EXPR_EXP => (true, EOP_EXP)
  | EXPR_BITOR => (true, EOP_BITOR) | EXPR_BITXOR => (true, EOP_BITXOR) | EXPR_BITAND => (true, EOP_BITAND)
  | EXPR_SHL => (true, EOP_SHL) | EXPR_SHR => (true, EOP_SHR) | EXPR_LSHR => (true, EOP_LSHR)
  end.
Definition unary_op (kind : unary_kind) : bool * Z :=
  match kind with
  | EXPR_NEGATE => (false, OP_UNARY_MINUS) | EXPR_NOT => (false, OP_NOT) | EXPR_COMPLEMENT => (true, EOP_COMPLEMENT)
  end.
Definition logic_op (kind : logic_kind) : Z := match kind with EXPR_AND => OP_AND | EXPR_OR => OP_OR end.
Definition emit_op (op : bool * Z) : M unit :=
  let '(extended, op) := op in if extended : bool then emit_extended_byte op else emit_byte op.

(** [nargs], [nreq] and [rest], -1 without one. *)
Fixpoint scatter_counts (sc : Scatter) (nargs nreq rest : Z) : Z * Z * Z :=
  match sc with
  | SNil => (nargs, nreq, rest)
  | SCons kind _ _ next =>
      let nargs := nargs + 1 in
      match kind with
      | SCAT_REQUIRED => scatter_counts next nargs (nreq + 1) rest
      | SCAT_REST => scatter_counts next nargs nreq nargs
      | SCAT_OPTIONAL => scatter_counts next nargs nreq rest
      end
  end.

(** The variables and labels; answers the labels of the defaults. *)
Fixpoint scatter_header (sc : Scatter) : M (list Z) :=
  match sc with
  | SNil => mret []
  | SCons kind id expr next =>
      add_var_ref id;;
      match kind, expr with
      | SCAT_OPTIONAL, Ptr _ => label ← add_label; labels ← scatter_header next; mret (label :: labels)
      | SCAT_OPTIONAL, Null => add_pseudo_label 1;; scatter_header next
      | _, _ => add_pseudo_label 0;; scatter_header next
      end
  end.

Definition is_indexed (e : Expr) : bool :=
  match e with EXPR_RANGE _ _ _ | EXPR_INDEX _ _ => true | _ => false end.

(** The loop that assigns through the indexings of a left-hand side. *)
Fixpoint assign_loop (e : Expr) : M unit :=
  match e with
  | EXPR_RANGE base _ _ => emit_extended_byte EOP_RANGESET;; pop_stack 3;; assign_loop base
  | EXPR_INDEX lhs _ => emit_byte OP_INDEXSET;; pop_stack 2;; assign_loop lhs
  | EXPR_ID id => emit_var_op OP_PUT id
  | EXPR_PROP _ _ => emit_byte OP_PUT_PROP;; pop_stack 2
  | _ => panic
  end.

(** [generate_arg_list] goes on with [generate_more_args] after the first
    argument, where the opcodes change. *)
Fixpoint generate_expr (e : Expr) : M unit :=
  match e with
  | EXPR_VAR v =>
      match v with
      | VInt n => if IN_OPTIM_NUM_RANGE n then emit_byte (OPTIM_NUM_TO_OPCODE n)
                  else emit_byte OP_IMM;; add_literal v
      | _ => emit_byte OP_IMM;; add_literal v
      end;;
      push_stack 1
  | EXPR_ID id => emit_var_op OP_PUSH id;; push_stack 1
  | EXPR_LOGIC kind lhs rhs =>
      generate_expr lhs;;
      emit_byte (logic_op kind);;
      end_label ← add_label;
      pop_stack 1;;
      generate_expr rhs;;
      define_label end_label
  | EXPR_UNARY kind expr => generate_expr expr;; emit_op (unary_op kind)
  | EXPR_BINARY kind lhs rhs =>
      generate_expr lhs;; generate_expr rhs;; emit_op (binary_op kind);; pop_stack 1
  | EXPR_PROP lhs rhs => generate_expr lhs;; generate_expr rhs;; emit_byte OP_GET_PROP;; pop_stack 1
  | EXPR_INDEX lhs rhs =>
      generate_expr lhs;;
      old ← save_stack_top;
      generate_expr rhs;;
      restore_stack_top old;;
      emit_byte OP_REF;;
      pop_stack 1
  | EXPR_RANGE base from to =>
      generate_expr base;;
      old ← save_stack_top;
      generate_expr from;;
      generate_expr to;;
      restore_stack_top old;;
      emit_byte OP_RANGE_REF;;
      pop_stack 2
  | EXPR_LENGTH =>
      saved ← saved_stack_top;
      if negb (saved =? UINT_MAX) then
        emit_extended_byte EOP_LENGTH;; add_stack_ref saved;; push_stack 1
      else panic
  | EXPR_LIST args => generate_arg_list args
  | EXPR_CALL func args => generate_arg_list args;; emit_byte OP_BI_FUNC_CALL;; emit_byte func
  | EXPR_VERB obj verb args =>
      generate_expr obj;;
      generate_expr verb;;
      generate_arg_list args;;
      emit_call_verb_op OP_CALL_VERB;;
      pop_stack 2
  | EXPR_COND condition consequent alternate =>
      generate_expr condition;;
      emit_byte OP_IF_QUES;;
      else_label ← add_label;
      pop_stack 1;;
      generate_expr consequent;;
      emit_byte OP_JUMP;;
      end_label ← add_label;
      pop_stack 1;;
      define_label else_label;;
      generate_expr alternate;;
      define_label end_label
  | EXPR_ASGN (EXPR_SCATTER sc) rhs =>
      generate_expr rhs;;
      let '(nargs, nreq, rest) := scatter_counts sc 0 0 (-1) in
      let rest := if rest =? -1 then nargs + 1 else rest in
      emit_extended_byte EOP_SCATTER;;
      emit_byte nargs;;
      emit_byte nreq;;
      emit_byte rest;;
      labels ← scatter_header sc;
      done ← add_label;
      generate_defaults sc labels;;
      define_label done
  | EXPR_ASGN e rhs =>
      push_lvalue e false;;
      generate_expr rhs;;
      (if is_indexed e then emit_byte OP_PUT_TEMP else mret tt);;
      assign_loop e;;
      (if is_indexed e then emit_byte OP_POP;; emit_byte OP_PUSH_TEMP else mret tt)
  | EXPR_CATCH try codes except =>
      (match codes with
       | ANil => emit_byte (OPTIM_NUM_TO_OPCODE 0);; push_stack 1
       | _ => generate_arg_list codes
       end);;
      emit_extended_byte EOP_PUSH_LABEL;;
      handler_label ← add_label;
      push_stack 1;;
      emit_extended_byte EOP_CATCH;;
      push_stack 1;;
      generate_expr try;;
      emit_extended_byte EOP_END_CATCH;;
      end_label ← add_label;
      pop_stack 3;;
      define_label handler_label;;
      match except with
      | Ptr except => emit_byte OP_POP;; pop_stack 1;; generate_expr except
      | Null => emit_byte (OPTIM_NUM_TO_OPCODE 1);; emit_byte OP_REF
      end;;
      define_label end_label
  | EXPR_SCATTER _ => panic
  end
with push_lvalue (e : Expr) (indexed_above : bool) : M unit :=
  match e with
  | EXPR_RANGE base from to =>
      push_lvalue base true;;
      old ← save_stack_top;
      generate_expr from;;
      generate_expr to;;
      restore_stack_top old
  | EXPR_INDEX lhs rhs =>
      push_lvalue lhs true;;
      old ← save_stack_top;
      generate_expr rhs;;
      restore_stack_top old;;
      if indexed_above then emit_byte OP_PUSH_REF;; push_stack 1 else mret tt
  | EXPR_ID id => if indexed_above then emit_var_op OP_PUSH id;; push_stack 1 else mret tt
  | EXPR_PROP lhs rhs =>
      generate_expr lhs;;
      generate_expr rhs;;
      if indexed_above then emit_byte OP_PUSH_GET_PROP;; push_stack 1 else mret tt
  | _ => panic
  end
with generate_arg_list (args : Arg_List) : M unit :=
  match args with
  | ANil => emit_byte OP_MAKE_EMPTY_LIST;; push_stack 1
  | ACons kind expr next =>
      generate_expr expr;;
      emit_byte (match kind with ARG_NORMAL => OP_MAKE_SINGLETON_LIST | ARG_SPLICE => OP_CHECK_LIST_FOR_SPLICE end);;
      pop_stack 0;;
      generate_more_args next
  end
with generate_more_args (args : Arg_List) : M unit :=
  match args with
  | ANil => mret tt
  | ACons kind expr next =>
      generate_expr expr;;
      emit_byte (match kind with ARG_NORMAL => OP_LIST_ADD_TAIL | ARG_SPLICE => OP_LIST_APPEND end);;
      pop_stack 1;;
      generate_more_args next
  end
with generate_defaults (sc : Scatter) (labels : list Z) : M unit :=
  match sc with
  | SNil => mret tt
  | SCons SCAT_OPTIONAL id (Ptr expr) next =>
      match labels with
      | [] => panic
      | label :: labels =>
          define_label label;;
          generate_expr expr;;
          emit_var_op OP_PUT id;;
          emit_byte OP_POP;;
          pop_stack 1;;
          generate_defaults next labels
      end
  | SCons _ _ _ next => generate_defaults next labels
  end.

Definition generate_codes (codes : Arg_List) : M unit :=
  match codes with
  | ANil => emit_byte (OPTIM_NUM_TO_OPCODE 0);; push_stack 1
  | _ => generate_arg_list codes
  end.

(** *** Putting the bytes together *)

Definition ref_size (rmax : Z) : Z := if rmax <=? 256 then 1 else if rmax <=? 256 * 256 then 2 else 4.

(** The bytes of a value, the first the most significant. *)
Definition put_value (size value : Z) : option (list Z) :=
  if size =? 4 then Some [uwrap 8 (Z.shiftr value 24); uwrap 8 (Z.shiftr value 16); uwrap 8 (Z.shiftr value 8); uwrap 8 value]
  else if size =? 2 then Some [uwrap 8 (Z.shiftr value 8); uwrap 8 value]
  else if size =? 1 then Some [uwrap 8 value]
  else None.

(** The sizes of the references, in the order of [bc_numbytes]. *)
Record sizes := mkSizes { s_label : Z; s_literal : Z; s_fork : Z; s_var_name : Z; s_stack : Z }.
Definition size_list (z : sizes) : list Z := [s_label z; s_literal z; s_fork z; s_var_name z; s_stack z].

Definition fixup_value (z : sizes) (f : Fixup) : Z :=
  match f_kind f with
  | FIXUP_LABEL =>
      uwrap 32 (f_value f + prev_literals f * (s_literal z - 1) + prev_forks f * (s_fork z - 1)
        + prev_var_refs f * (s_var_name z - 1) + prev_labels f * (s_label z - 1) + prev_stacks f * (s_stack z - 1))
  | _ => f_value f
  end.
Definition fixup_size (z : sizes) (f : Fixup) : Z :=
  match f_kind f with
  | FIXUP_LITERAL => s_literal z | FIXUP_FORK => s_fork z | FIXUP_VAR_REF => s_var_name z
  | FIXUP_STACK => s_stack z | FIXUP_LABEL => s_label z
  end.

Fixpoint fill_holes (z : sizes) (old_i : Z) (bs : list Z) (fx : list Fixup) : option (list Z) :=
  match bs with
  | [] => Some []
  | b :: bs =>
      match fx with
      | f :: fx' =>
          if f_pc f =? old_i then
            v ← put_value (fixup_size z f) (fixup_value z f);
            r ← fill_holes z (old_i + 1) bs fx';
            Some (v ++ r)
          else r ← fill_holes z (old_i + 1) bs fx; Some (b :: r)
      | [] => r ← fill_holes z (old_i + 1) bs fx; Some (b :: r)
      end
  end.

(** The second half of [stmt_to_code].  The vector is an array of [bc.size]
    bytes: writing more than that is outside it, and a byte that is not written
    has no value. *)
Definition choose_sizes (s : State) : sizes * Z :=
  let nl := ref_size (Z.max (max_literal s) (Z.of_nat (length (g_literals (gstate s))))) in
  let nf := ref_size (Z.max (max_fork s) (Z.of_nat (length (g_fork_vectors (gstate s))))) in
  let nv := ref_size (Z.max (max_var_ref s) (total_var_refs (gstate s))) in
  let size := num_bytes s + (nl - 1) * num_literals s + (nf - 1) * num_forks s + (nv - 1) * num_var_refs s in
  let nb := if size <=? 256 then 1 else if size + num_labels s <=? 256 * 256 then 2 else 4 in
  (mkSizes nb nl nf nv (ref_size (max_stack s)), size + (nb - 1) * num_labels s).

Definition finish_code (s : State) : option (Bytecodes * GState) :=
  if negb (cur_stack s =? 0) then None
  else if negb (saved_stack s =? UINT_MAX) then None
  else
    let '(z, size) := choose_sizes s in
    vector ← fill_holes z 0 (cbytes s) (fixups s);
    if Z.of_nat (length vector) =? size
    then Some (mkBytecodes (size_list z) vector (max_stack s), gstate s) else None.

(** [stmt_to_code], given what generates the statements. *)
Definition to_code (generate : M unit) (g : GState) : option (Bytecodes * GState) :=
  '(_, s) ← (generate;; emit_ending_op OP_DONE) (init_state g);
  finish_code s.

(** *** Statements *)

(** The pushes of codes and labels before a [try]; answers the labels. *)
Fixpoint generate_excepts (ex : Except_Arm) : M (list Z) :=
  match ex with
  | XEnd => mret []
  | XArm _ codes _ next =>
      generate_codes codes;;
      emit_extended_byte EOP_PUSH_LABEL;;
      label ← add_label;
      push_stack 1;;
      labels ← generate_excepts next;
      mret (label :: labels)
  end.

(** The search for the loop that a [break] or [continue] names. *)
Fixpoint find_loop (id : Z) (ls : list Loop) : option nat :=
  match ls with
  | [] => None
  | l :: ls => if l_id l =? id then Some O else S <$> find_loop id ls
  end.

Definition set_bottom_label (label : Z) (l : Loop) : Loop :=
  mkLoop (l_id l) (l_top_label l) (l_top_stack l) label (l_bottom_stack l).

Definition generate_exit (continue : bool) (exit : Z) : M unit :=
  i ← (if exit =? -1 then
         emit_extended_byte EOP_EXIT;;
         ls ← get loops;
         match ls with [] => panic | _ => mret O end
       else
         emit_extended_byte EOP_EXIT_ID;;
         add_var_ref exit;;
         ls ← get loops;
         match find_loop exit ls with None => panic | Some i => mret i end);
  ls ← get loops;
  match ls !! i with
  | None => panic
  | Some loop =>
      if continue : bool then
        add_stack_ref (l_top_stack loop);;
        add_known_label (l_top_label loop);;
        mret tt
      else
        add_stack_ref (l_bottom_stack loop);;
        label ← add_linked_label (l_bottom_label loop);
        modify (fun s => with_loops (<[i := set_bottom_label label loop]> (loops s)) s)
  end.

Fixpoint generate_stmt (stmt : Stmt) : M unit :=
  match stmt with
  | STMT_COND arms otherwise =>
      end_label ← generate_arms arms OP_IF (-1);
      generate_stmts otherwise;;
      define_label end_label
  | STMT_LIST id expr body =>
      generate_expr expr;;
      emit_byte (OPTIM_NUM_TO_OPCODE 1);;
      push_stack 1;;
      loop_top ← capture_label;
      emit_byte OP_FOR_LIST;;
      add_var_ref id;;
      end_label ← add_label;
      cur ← get cur_stack;
      enter_loop id loop_top cur end_label (cur - 2);;
      generate_stmts body;;
      end_label ← exit_loop;
      emit_byte OP_JUMP;;
      add_known_label loop_top;;
      define_label end_label;;
      pop_stack 2
  | STMT_RANGE id from to body =>
      generate_expr from;;
      generate_expr to;;
      loop_top ← capture_label;
      emit_byte OP_FOR_RANGE;;
      add_var_ref id;;
      end_label ← add_label;
      cur ← get cur_stack;
      enter_loop id loop_top cur end_label (cur - 2);;
      generate_stmts body;;
      end_label ← exit_loop;
      emit_byte OP_JUMP;;
      add_known_label loop_top;;
      define_label end_label;;
      pop_stack 2
  | STMT_WHILE id condition body =>
      loop_top ← capture_label;
      generate_expr condition;;
      (if id =? -1 then emit_byte OP_WHILE
       else emit_extended_byte EOP_WHILE_ID;; add_var_ref id);;
      end_label ← add_label;
      pop_stack 1;;
      cur ← get cur_stack;
      enter_loop id loop_top cur end_label cur;;
      generate_stmts body;;
      end_label ← exit_loop;
      emit_byte OP_JUMP;;
      add_known_label loop_top;;
      define_label end_label
  | STMT_FORK id time body =>
      generate_expr time;;
      emit_byte (if 0 <=? id then OP_FORK_WITH_ID else OP_FORK);;
      g ← get gstate;
      match to_code (generate_stmts body) g with
      | None => panic
      | Some (b, g) => modify (with_gstate g);; add_fork b
      end;;
      (if 0 <=? id then add_var_ref id else mret tt);;
      pop_stack 1
  | STMT_EXPR expr => generate_expr expr;; emit_byte OP_POP;; pop_stack 1
  | STMT_RETURN (Ptr expr) => generate_expr expr;; emit_ending_op OP_RETURN;; pop_stack 1
  | STMT_RETURN Null => emit_ending_op OP_RETURN0
  | STMT_TRY_EXCEPT body excepts =>
      labels ← generate_excepts excepts;
      let arm_count := Z.of_nat (length labels) in
      emit_extended_byte EOP_TRY_EXCEPT;;
      emit_byte arm_count;;
      push_stack 1;;
      generate_stmts body;;
      emit_extended_byte EOP_END_EXCEPT;;
      end_label ← add_label;
      pop_stack (2 * arm_count + 1);;
      end_label ← generate_handlers excepts labels end_label;
      define_label end_label
  | STMT_TRY_FINALLY body handler =>
      emit_extended_byte EOP_TRY_FINALLY;;
      handler_label ← add_label;
      push_stack 1;;
      generate_stmts body;;
      emit_extended_byte EOP_END_FINALLY;;
      pop_stack 1;;
      define_label handler_label;;
      push_stack 2;;
      generate_stmts handler;;
      emit_extended_byte EOP_CONTINUE;;
      pop_stack 2
  | STMT_BREAK exit => generate_exit false exit
  | STMT_CONTINUE exit => generate_exit true exit
  end
with generate_stmts (stmts : Stmts) : M unit :=
  match stmts with
  | SEnd => mret tt
  | SNext stmt next => generate_stmt stmt;; generate_stmts next
  end
with generate_arms (arms : Cond_Arm) (if_op end_label : Z) : M Z :=
  match arms with
  | CEnd => mret end_label
  | CArm condition stmt next =>
      generate_expr condition;;
      emit_byte if_op;;
      else_label ← add_label;
      pop_stack 1;;
      generate_stmts stmt;;
      emit_byte OP_JUMP;;
      end_label ← add_linked_label end_label;
      define_label else_label;;
      generate_arms next OP_EIF end_label
  end
with generate_handlers (ex : Except_Arm) (labels : list Z) (end_label : Z) : M Z :=
  match ex with
  | XEnd => mret end_label
  | XArm id _ stmt next =>
      match labels with
      | [] => panic
      | label :: labels =>
          define_label label;;
          push_stack 1;;
          (if 0 <=? id then emit_var_op OP_PUT id else mret tt);;
          emit_byte OP_POP;;
          pop_stack 1;;
          generate_stmts stmt;;
          end_label ← (match next with
                       | XEnd => mret end_label
                       | _ => emit_byte OP_JUMP;; add_linked_label end_label
                       end);
          generate_handlers next labels end_label
      end
  end.

Definition stmt_to_code (stmt : Stmts) : GState -> option (Bytecodes * GState) := to_code (generate_stmts stmt).

Definition generate_code (stmt : Stmts) (version : Z) : option Program :=
  '(b, g) ← stmt_to_code stmt init_gstate;
  Some (new_program version b (g_literals g) (g_fork_vectors g) []).
