(* ===== verification/CodeSpec.v ===== *)
(** * The code of a tree

    What the code generator puts out, before the sizes of the references are
    known: a list of items, each one byte in [cbytes].  [code_e], [code_s] and
    their companions say which items are the code of an expression or
    statement at a place; the decompiler and the generator are both proved
    against them.  This file has the specification and how the primitives of the
    generator act on it. *)

From Stdlib Require Import SpecFloat.
From S2P Require Import Prelude Utf CString Values Db Ast CodeGen.

(** ** Definitions *)

(** A byte, a reference of some kind, a label with its target, or one of the
    two constants that [scatter] has in the place of a label. *)
Inductive item := Op (b : Z) | Ref (k : fixup_kind) (v : Z) | Lab (target : Z) | Pseudo (v : Z).

Definition ilen (i : list item) : Z := Z.of_nat (length i).
Definition old_byte (x : item) : Z := match x with Op b => b | _ => 0 end.

Section Code.
(** The literals of the program. *)
Context (L : list Var).

Definition code_var (op id : Z) (i : list item) : Prop :=
  (0 <= id < NUM_READY_VARS /\ i = [Op (op + id)]) \/
  (NUM_READY_VARS <= id /\ i = [Op (op + NUM_READY_VARS); Ref FIXUP_VAR_REF id]).

Definition code_lit (v : Var) (i : list item) : Prop :=
  (exists n, v = VInt n /\ IN_OPTIM_NUM_RANGE n = true /\ i = [Op (OPTIM_NUM_TO_OPCODE n)]) \/
  (exists k, 0 <= k /\ L !! Z.to_nat k = Some v /\ i = [Op OP_IMM; Ref FIXUP_LITERAL k]).

Definition code_op (op : bool * Z) : list item :=
  let '(extended, op) := op in if extended : bool then [Op OP_EXTENDED; Op op] else [Op op].

Definition first_arg (kind : Arg_Kind) : Z :=
  match kind with ARG_NORMAL => OP_MAKE_SINGLETON_LIST | ARG_SPLICE => OP_CHECK_LIST_FOR_SPLICE end.
Definition next_arg (kind : Arg_Kind) : Z :=
  match kind with ARG_NORMAL => OP_LIST_ADD_TAIL | ARG_SPLICE => OP_LIST_APPEND end.

(** The end of an assignment. *)
Fixpoint code_assign (e : Expr) (i : list item) : Prop :=
  match e with
  | EXPR_RANGE base _ _ => exists i', i = [Op OP_EXTENDED; Op EOP_RANGESET] ++ i' /\ code_assign base i'
  | EXPR_INDEX lhs _ => exists i', i = [Op OP_INDEXSET] ++ i' /\ code_assign lhs i'
  | EXPR_ID id => code_var OP_PUT id i
  | EXPR_PROP _ _ => i = [Op OP_PUT_PROP]
  | _ => False
  end.

(** How many values the places of a left-hand side leave on the stack. *)
Fixpoint lv_size (e : Expr) (indexed_above : bool) : Z :=
  match e with
  | EXPR_RANGE base _ _ => lv_size base true + 2
  | EXPR_INDEX lhs _ => lv_size lhs true + 1 + (if indexed_above then 1 else 0)
  | EXPR_PROP _ _ => 2 + (if indexed_above then 1 else 0)
  | _ => if indexed_above then 1 else 0
  end.

(** The variables of a scattering assignment; [ts] are the places of the
    defaults. *)
Fixpoint code_targets (sc : Scatter) (ts : list Z) (i : list item) : Prop :=
  match sc with
  | SNil => ts = [] /\ i = []
  | SCons kind id expr next =>
      exists x i', i = [Ref FIXUP_VAR_REF id; x] ++ i' /\
        match kind, expr with
        | SCAT_OPTIONAL, Ptr _ => exists t ts', ts = t :: ts' /\ x = Lab t /\ code_targets next ts' i'
        | SCAT_OPTIONAL, Null => x = Pseudo 1 /\ code_targets next ts i'
        | _, _ => x = Pseudo 0 /\ code_targets next ts i'
        end
  end.

(** [pc]: where the code is; [c]: the height of the stack before; [sv]: the
    place that [$] refers to. *)
Fixpoint code_e (pc c sv : Z) (e : Expr) (i : list item) : Prop :=
  match e with
  | EXPR_VAR v => code_lit v i
  | EXPR_ID id => code_var OP_PUSH id i
  | EXPR_PROP lhs rhs => exists i1 i2, i = i1 ++ i2 ++ [Op OP_GET_PROP] /\
      code_e pc c sv lhs i1 /\ code_e (pc + ilen i1) (c + 1) sv rhs i2
  | EXPR_BINARY kind lhs rhs => exists i1 i2, i = i1 ++ i2 ++ code_op (binary_op kind) /\
      code_e pc c sv lhs i1 /\ code_e (pc + ilen i1) (c + 1) sv rhs i2
  | EXPR_UNARY kind expr => exists i1, i = i1 ++ code_op (unary_op kind) /\ code_e pc c sv expr i1
  | EXPR_LOGIC kind lhs rhs => exists i1 i2,
      i = i1 ++ [Op (logic_op kind); Lab (pc + ilen i1 + 2 + ilen i2)] ++ i2 /\
      code_e pc c sv lhs i1 /\ code_e (pc + ilen i1 + 2) c sv rhs i2
  | EXPR_INDEX lhs rhs => exists i1 i2, i = i1 ++ i2 ++ [Op OP_REF] /\
      code_e pc c sv lhs i1 /\ code_e (pc + ilen i1) (c + 1) c rhs i2
  | EXPR_RANGE base from to => exists i1 i2 i3, i = i1 ++ i2 ++ i3 ++ [Op OP_RANGE_REF] /\
      code_e pc c sv base i1 /\ code_e (pc + ilen i1) (c + 1) c from i2 /\
      code_e (pc + ilen i1 + ilen i2) (c + 2) c to i3
  | EXPR_LENGTH => i = [Op OP_EXTENDED; Op EOP_LENGTH; Ref FIXUP_STACK sv]
  | EXPR_LIST args => code_args pc c sv args i
  | EXPR_CALL func args => exists i1, i = i1 ++ [Op OP_BI_FUNC_CALL; Op (uwrap 8 func)] /\ code_args pc c sv args i1
  | EXPR_VERB obj verb args => exists i1 i2 i3, i = i1 ++ i2 ++ i3 ++ [Op OP_CALL_VERB] /\
      code_e pc c sv obj i1 /\ code_e (pc + ilen i1) (c + 1) sv verb i2 /\
      code_args (pc + ilen i1 + ilen i2) (c + 2) sv args i3
  | EXPR_COND condition consequent alternate => exists i1 i2 i3,
      i = i1 ++ [Op OP_IF_QUES; Lab (pc + ilen i1 + 2 + ilen i2 + 2)] ++
          i2 ++ [Op OP_JUMP; Lab (pc + ilen i1 + 2 + ilen i2 + 2 + ilen i3)] ++ i3 /\
      code_e pc c sv condition i1 /\ code_e (pc + ilen i1 + 2) c sv consequent i2 /\
      code_e (pc + ilen i1 + 2 + ilen i2 + 2) c sv alternate i3
  | EXPR_ASGN (EXPR_SCATTER sc) rhs => exists i1 i2 i3 ts,
      (let '(nargs, nreq, rest) := scatter_counts sc 0 0 (-1) in
       i = i1 ++ [Op OP_EXTENDED; Op EOP_SCATTER; Op (uwrap 8 nargs); Op (uwrap 8 nreq);
                  Op (uwrap 8 (if rest =? -1 then nargs + 1 else rest))] ++
           i2 ++ [Lab (pc + ilen i1 + 5 + ilen i2 + 1 + ilen i3)] ++ i3) /\
      code_e pc c sv rhs i1 /\ code_targets sc ts i2 /\
      code_defaults (pc + ilen i1 + 5 + ilen i2 + 1) (c + 1) sv sc ts i3
  | EXPR_ASGN e rhs => exists i1 i2 i3,
      i = i1 ++ i2 ++ (if is_indexed e then [Op OP_PUT_TEMP] else []) ++ i3 ++
          (if is_indexed e then [Op OP_POP; Op OP_PUSH_TEMP] else []) /\
      code_lv pc c sv e false i1 /\
      code_e (pc + ilen i1) (c + lv_size e false) sv rhs i2 /\ code_assign e i3
  | EXPR_CATCH try codes except => exists i1 i2 i3,
      (let handler := pc + ilen i1 + 5 + ilen i2 + 3 in
       i = i1 ++ [Op OP_EXTENDED; Op EOP_PUSH_LABEL; Lab handler; Op OP_EXTENDED; Op EOP_CATCH] ++
           i2 ++ [Op OP_EXTENDED; Op EOP_END_CATCH; Lab (handler + ilen i3)] ++ i3) /\
      match codes with
      | ANil => i1 = [Op (OPTIM_NUM_TO_OPCODE 0)]
      | _ => code_args pc c sv codes i1
      end /\
      code_e (pc + ilen i1 + 5) (c + 3) sv try i2 /\
      match except with
      | Null => i3 = [Op (OPTIM_NUM_TO_OPCODE 1); Op OP_REF]
      | Ptr e => exists i4, i3 = [Op OP_POP] ++ i4 /\ code_e (pc + ilen i1 + 5 + ilen i2 + 3 + 1) c sv e i4
      end
  | EXPR_SCATTER _ => False
  end
with code_lv (pc c sv : Z) (e : Expr) (indexed_above : bool) (i : list item) : Prop :=
  match e with
  | EXPR_RANGE base from to => exists i1 i2 i3, i = i1 ++ i2 ++ i3 /\
      (let c' := c + lv_size base true in
       code_lv pc c sv base true i1 /\ code_e (pc + ilen i1) c' (c' - 1) from i2 /\
       code_e (pc + ilen i1 + ilen i2) (c' + 1) (c' - 1) to i3)
  | EXPR_INDEX lhs rhs => exists i1 i2, i = i1 ++ i2 ++ (if indexed_above then [Op OP_PUSH_REF] else []) /\
      (let c' := c + lv_size lhs true in
       code_lv pc c sv lhs true i1 /\ code_e (pc + ilen i1) c' (c' - 1) rhs i2)
  | EXPR_ID id => if indexed_above then code_var OP_PUSH id i else i = []
  | EXPR_PROP lhs rhs => exists i1 i2, i = i1 ++ i2 ++ (if indexed_above then [Op OP_PUSH_GET_PROP] else []) /\
      code_e pc c sv lhs i1 /\ code_e (pc + ilen i1) (c + 1) sv rhs i2
  | _ => False
  end
with code_args (pc c sv : Z) (args : Arg_List) (i : list item) : Prop :=
  match args with
  | ANil => i = [Op OP_MAKE_EMPTY_LIST]
  | ACons kind expr next => exists i1 i2, i = i1 ++ [Op (first_arg kind)] ++ i2 /\
      code_e pc c sv expr i1 /\ code_more (pc + ilen i1 + 1) (c + 1) sv next i2
  end
with code_more (pc c sv : Z) (args : Arg_List) (i : list item) : Prop :=
  match args with
  | ANil => i = []
  | ACons kind expr next => exists i1 i2, i = i1 ++ [Op (next_arg kind)] ++ i2 /\
      code_e pc c sv expr i1 /\ code_more (pc + ilen i1 + 1) c sv next i2
  end
with code_defaults (pc c sv : Z) (sc : Scatter) (ts : list Z) (i : list item) : Prop :=
  match sc with
  | SNil => ts = [] /\ i = []
  | SCons SCAT_OPTIONAL id (Ptr expr) next => exists i1 i2 i3 ts', ts = pc :: ts' /\
      i = i1 ++ i2 ++ [Op OP_POP] ++ i3 /\ code_e pc c sv expr i1 /\ code_var OP_PUT id i2 /\
      code_defaults (pc + ilen i1 + ilen i2 + 1) c sv next ts' i3
  | SCons _ _ _ next => code_defaults pc c sv next ts i
  end.
End Code.

(** *** The height of the stack

    How many places code uses above where it begins. *)

Fixpoint depth_e (e : Expr) : Z :=
  match e with
  | EXPR_VAR _ | EXPR_ID _ | EXPR_LENGTH | EXPR_SCATTER _ => 1
  | EXPR_PROP lhs rhs | EXPR_BINARY _ lhs rhs | EXPR_INDEX lhs rhs => Z.max (depth_e lhs) (1 + depth_e rhs)
  | EXPR_LOGIC _ lhs rhs => Z.max (depth_e lhs) (depth_e rhs)
  | EXPR_UNARY _ expr => depth_e expr
  | EXPR_RANGE base from to => Z.max (depth_e base) (Z.max (1 + depth_e from) (2 + depth_e to))
  | EXPR_LIST args | EXPR_CALL _ args => depth_args args
  | EXPR_VERB obj verb args => Z.max (depth_e obj) (Z.max (1 + depth_e verb) (2 + depth_args args))
  | EXPR_COND condition consequent alternate => Z.max (depth_e condition) (Z.max (depth_e consequent) (depth_e alternate))
  | EXPR_ASGN (EXPR_SCATTER sc) rhs => Z.max (depth_e rhs) (1 + depth_defaults sc)
  | EXPR_ASGN lhs rhs => Z.max (depth_lv lhs false) (lv_size lhs false + depth_e rhs)
  | EXPR_CATCH try codes except =>
      Z.max (depth_args codes) (Z.max (3 + depth_e try) (match except with Null => 0 | Ptr e => depth_e e end))
  end
with depth_lv (e : Expr) (indexed_above : bool) : Z :=
  match e with
  | EXPR_RANGE base from to =>
      Z.max (depth_lv base true) (Z.max (lv_size base true + depth_e from) (lv_size base true + 1 + depth_e to))
  | EXPR_INDEX lhs rhs => Z.max (depth_lv lhs true) (Z.max (lv_size lhs true + depth_e rhs) (lv_size e indexed_above))
  | EXPR_PROP lhs rhs => Z.max (depth_e lhs) (Z.max (1 + depth_e rhs) (lv_size e indexed_above))
  | _ => lv_size e indexed_above
  end
with depth_args (args : Arg_List) : Z :=
  match args with ANil => 1 | ACons _ expr next => Z.max (depth_e expr) (1 + depth_more next) end
with depth_more (args : Arg_List) : Z :=
  match args with ANil => 0 | ACons _ expr next => Z.max (depth_e expr) (depth_more next) end
with depth_defaults (sc : Scatter) : Z :=
  match sc with
  | SNil => 0
  | SCons _ _ (Ptr e) next => Z.max (depth_e e) (depth_defaults next)
  | SCons _ _ Null next => depth_defaults next
  end.

Fixpoint arm_count (ex : Except_Arm) : Z := match ex with XEnd => 0 | XArm _ _ _ next => 1 + arm_count next end.

Fixpoint depth_excepts (ex : Except_Arm) : Z :=
  match ex with XEnd => 0 | XArm _ codes _ next => Z.max (depth_args codes) (2 + depth_excepts next) end.
Fixpoint depth_s (st : Stmt) : Z :=
  match st with
  | STMT_COND arms otherwise => Z.max (depth_arms arms) (depth_ss otherwise)
  | STMT_LIST _ expr body => Z.max (depth_e expr) (2 + depth_ss body)
  | STMT_RANGE _ from to body => Z.max (depth_e from) (Z.max (1 + depth_e to) (2 + depth_ss body))
  | STMT_WHILE _ condition body => Z.max (depth_e condition) (depth_ss body)
  | STMT_FORK _ time _ => depth_e time
  | STMT_EXPR expr => depth_e expr
  | STMT_RETURN (Ptr expr) => depth_e expr
  | STMT_RETURN Null => 0
  | STMT_TRY_EXCEPT body excepts =>
      Z.max (depth_excepts excepts) (Z.max (2 * arm_count excepts + 1 + depth_ss body) (depth_handlers excepts))
  | STMT_TRY_FINALLY body handler => Z.max (1 + depth_ss body) (2 + depth_ss handler)
  | STMT_BREAK _ | STMT_CONTINUE _ => 0
  end
with depth_ss (st : Stmts) : Z :=
  match st with SEnd => 0 | SNext st next => Z.max (depth_s st) (depth_ss next) end
with depth_arms (arms : Cond_Arm) : Z :=
  match arms with CEnd => 0 | CArm condition stmt next => Z.max (depth_e condition) (Z.max (depth_ss stmt) (depth_arms next)) end
with depth_handlers (ex : Except_Arm) : Z :=
  match ex with XEnd => 0 | XArm _ _ stmt next => Z.max 1 (Z.max (depth_ss stmt) (depth_handlers next)) end.

(** *** Encoding *)

Definition kind_size (z : sizes) (k : fixup_kind) : Z :=
  match k with
  | FIXUP_LITERAL => s_literal z | FIXUP_FORK => s_fork z | FIXUP_VAR_REF => s_var_name z
  | FIXUP_STACK => s_stack z | FIXUP_LABEL => s_label z
  end.
Definition item_size (z : sizes) (x : item) : Z :=
  match x with Op _ => 1 | Ref k _ => kind_size z k | Lab _ | Pseudo _ => s_label z end.
Definition isum (z : sizes) (i : list item) : Z := foldr (fun x n => item_size z x + n) 0 i.
(** Where the item number [t] comes to be. *)
Definition place (z : sizes) (i : list item) (t : Z) : Z := isum z (take (Z.to_nat t) i).

Definition put_bytes (size v : Z) : list Z := default [] (put_value size v).
Definition put_item (z : sizes) (i : list item) (x : item) : list Z :=
  match x with
  | Op b => [b]
  | Ref k v => put_bytes (kind_size z k) v
  | Lab t => put_bytes (s_label z) (uwrap 32 (place z i t))
  | Pseudo v => put_bytes (s_label z) (uwrap 32 v)
  end.
Definition encode (z : sizes) (i : list item) : list Z := flat_map (put_item z i) i.

Definition size_ok (n : Z) : Prop := n = 1 \/ n = 2 \/ n = 4.
(** [v] is not cut off in [n] bytes, unless there are more than fit in four. *)
Definition fits (n v : Z) : Prop := 0 <= v /\ (n = 4 \/ v < 256 ^ n).
Record encodes (z : sizes) (i : list item) : Prop := {
  e_sizes : forall k, size_ok (kind_size z k);
  e_refs : forall k v, Ref k v ∈ i -> fits (kind_size z k) v;
  e_labels : forall t, Lab t ∈ i -> 0 <= t < ilen i /\ fits (s_label z) (place z i t)
}.
(** The vector [b] is the items [i], which use [d] places on the stack. *)
Definition compiled (b : Bytecodes) (i : list item) (d : Z) : Prop :=
  bc_max_stack b = d /\ exists z, bc_numbytes b = size_list z /\ encodes z i /\ bc_vector b = encode z i.

(** *** Statements *)

(** What the code of a loop knows about itself: where [continue] and [break]
    go and the heights of the stack there. *)
Record Env := mkEnv { e_id : Z; e_top : Z; e_top_stack : Z; e_bottom : Z; e_bottom_stack : Z }.
Fixpoint find_env (id : Z) (E : list Env) : option nat :=
  match E with [] => None | e :: E => if e_id e =? id then Some O else S <$> find_env id E end.

Section Statements.
(** The literals and the fork vectors of the program. *)
Context (L : list Var) (F : list Bytecodes).
Notation code_expr := (fun pc c e i => code_e L pc c UINT_MAX e i).

Definition code_codes (pc c : Z) (codes : Arg_List) (i : list item) : Prop :=
  match codes with
  | ANil => i = [Op (OPTIM_NUM_TO_OPCODE 0)]
  | _ => code_args L pc c UINT_MAX codes i
  end.

Fixpoint code_excepts (pc c : Z) (ex : Except_Arm) (ts : list Z) (i : list item) : Prop :=
  match ex with
  | XEnd => ts = [] /\ i = []
  | XArm _ codes _ next => exists i1 i2 t ts', ts = t :: ts' /\
      i = i1 ++ [Op OP_EXTENDED; Op EOP_PUSH_LABEL; Lab t] ++ i2 /\
      code_codes pc c codes i1 /\ code_excepts (pc + ilen i1 + 3) (c + 2) next ts' i2
  end.

Definition code_exit (E : list Env) (continue : bool) (exit : Z) (i : list item) : Prop :=
  exists j e i0, E !! j = Some e /\
    ((exit = -1 /\ j = O /\ i0 = [Op OP_EXTENDED; Op EOP_EXIT]) \/
     (exit <> -1 /\ find_env exit E = Some j /\ i0 = [Op OP_EXTENDED; Op EOP_EXIT_ID; Ref FIXUP_VAR_REF exit])) /\
    i = i0 ++ [Ref FIXUP_STACK (if continue then e_top_stack e else e_bottom_stack e);
               Lab (if continue then e_top e else e_bottom e)].

Fixpoint code_s (E : list Env) (pc c : Z) (st : Stmt) (i : list item) : Prop :=
  match st with
  | STMT_COND arms otherwise => exists i1 i2, i = i1 ++ i2 /\
      code_arms E pc c OP_IF (pc + ilen i) arms i1 /\ code_ss E (pc + ilen i1) c otherwise i2
  | STMT_LIST id expr body => exists i1 i2,
      (let top := pc + ilen i1 + 1 in let bottom := top + 3 + ilen i2 + 2 in
       i = i1 ++ [Op (OPTIM_NUM_TO_OPCODE 1); Op OP_FOR_LIST; Ref FIXUP_VAR_REF id; Lab bottom] ++
           i2 ++ [Op OP_JUMP; Lab top] /\
       code_expr pc c expr i1 /\ code_ss (mkEnv id top (c + 2) bottom c :: E) (top + 3) (c + 2) body i2)
  | STMT_RANGE id from to body => exists i1 i2 i3,
      (let top := pc + ilen i1 + ilen i2 in let bottom := top + 3 + ilen i3 + 2 in
       i = i1 ++ i2 ++ [Op OP_FOR_RANGE; Ref FIXUP_VAR_REF id; Lab bottom] ++ i3 ++ [Op OP_JUMP; Lab top] /\
       code_expr pc c from i1 /\ code_expr (pc + ilen i1) (c + 1) to i2 /\
       code_ss (mkEnv id top (c + 2) bottom c :: E) (top + 3) (c + 2) body i3)
  | STMT_WHILE id condition body => exists i1 i2 i3,
      (let bottom := pc + ilen i1 + ilen i2 + 1 + ilen i3 + 2 in
       i = i1 ++ i2 ++ [Lab bottom] ++ i3 ++ [Op OP_JUMP; Lab pc] /\
       code_expr pc c condition i1 /\
       i2 = (if id =? -1 then [Op OP_WHILE] else [Op OP_EXTENDED; Op EOP_WHILE_ID; Ref FIXUP_VAR_REF id]) /\
       code_ss (mkEnv id pc c bottom c :: E) (pc + ilen i1 + ilen i2 + 1) c body i3)
  | STMT_FORK id time body => exists i1 k b i2,
      i = i1 ++ [Op (if 0 <=? id then OP_FORK_WITH_ID else OP_FORK); Ref FIXUP_FORK k] ++
          (if 0 <=? id then [Ref FIXUP_VAR_REF id] else []) /\
      code_expr pc c time i1 /\ 0 <= k /\ F !! Z.to_nat k = Some b /\
      compiled b (i2 ++ [Op OP_DONE]) (depth_ss body) /\ code_ss [] 0 0 body i2
  | STMT_EXPR expr => exists i1, i = i1 ++ [Op OP_POP] /\ code_expr pc c expr i1
  | STMT_RETURN (Ptr expr) => exists i1, i = i1 ++ [Op OP_RETURN] /\ code_expr pc c expr i1
  | STMT_RETURN Null => i = [Op OP_RETURN0]
  | STMT_TRY_EXCEPT body excepts => exists i1 i2 i3 ts,
      (let n := Z.of_nat (length ts) in
       i = i1 ++ [Op OP_EXTENDED; Op EOP_TRY_EXCEPT; Op (uwrap 8 n)] ++
           i2 ++ [Op OP_EXTENDED; Op EOP_END_EXCEPT; Lab (pc + ilen i)] ++ i3 /\
       code_excepts pc c excepts ts i1 /\ code_ss E (pc + ilen i1 + 3) (c + 2 * n + 1) body i2 /\
       code_handlers E (pc + ilen i1 + 3 + ilen i2 + 3) c (pc + ilen i) excepts ts i3)
  | STMT_TRY_FINALLY body handler => exists i1 i2,
      i = [Op OP_EXTENDED; Op EOP_TRY_FINALLY; Lab (pc + 3 + ilen i1 + 2)] ++
          i1 ++ [Op OP_EXTENDED; Op EOP_END_FINALLY] ++ i2 ++ [Op OP_EXTENDED; Op EOP_CONTINUE] /\
      code_ss E (pc + 3) (c + 1) body i1 /\ code_ss E (pc + 3 + ilen i1 + 2) (c + 2) handler i2
  | STMT_BREAK exit => code_exit E false exit i
  | STMT_CONTINUE exit => code_exit E true exit i
  end
with code_ss (E : list Env) (pc c : Z) (st : Stmts) (i : list item) : Prop :=
  match st with
  | SEnd => i = []
  | SNext st next => exists i1 i2, i = i1 ++ i2 /\ code_s E pc c st i1 /\ code_ss E (pc + ilen i1) c next i2
  end
with code_arms (E : list Env) (pc c if_op tend : Z) (arms : Cond_Arm) (i : list item) : Prop :=
  match arms with
  | CEnd => i = []
  | CArm condition stmt next => exists i1 i2 i3,
      i = i1 ++ [Op if_op; Lab (pc + ilen i1 + 2 + ilen i2 + 2)] ++ i2 ++ [Op OP_JUMP; Lab tend] ++ i3 /\
      code_expr pc c condition i1 /\ code_ss E (pc + ilen i1 + 2) c stmt i2 /\
      code_arms E (pc + ilen i1 + 2 + ilen i2 + 2) c OP_EIF tend next i3
  end
with code_handlers (E : list Env) (pc c tend : Z) (ex : Except_Arm) (ts : list Z) (i : list item) : Prop :=
  match ex with
  | XEnd => ts = [] /\ i = []
  | XArm id _ stmt next => exists i1 i2 i3 i4 ts', ts = pc :: ts' /\
      i = i1 ++ [Op OP_POP] ++ i2 ++ i3 ++ i4 /\
      (if 0 <=? id then code_var OP_PUT id i1 else i1 = []) /\
      code_ss E (pc + ilen i1 + 1) c stmt i2 /\
      i3 = (match next with XEnd => [] | _ => [Op OP_JUMP; Lab tend] end) /\
      code_handlers E (pc + ilen i1 + 1 + ilen i2 + ilen i3) c tend next ts' i4
  end.
End Statements.

(** The program [p] is the code of the statements. *)
Definition code_program (p : Program) (st : Stmts) : Prop :=
  exists i, compiled (p_main_vector p) (i ++ [Op OP_DONE]) (depth_ss st) /\ code_ss (p_literals p) (p_fork_vectors p) [] 0 0 st i.


(** *** Counting references *)

Definition is_ref (k : fixup_kind) (x : item) : bool :=
  match x with
  | Op _ => false
  | Ref k' _ => bool_decide (k = k')
  | Lab _ | Pseudo _ => bool_decide (k = FIXUP_LABEL)
  end.
Fixpoint count (k : fixup_kind) (i : list item) : Z :=
  match i with [] => 0 | x :: i => (if is_ref k x then 1 else 0) + count k i end.

(** The items that are holes, with their places. *)
Fixpoint holes (pc : Z) (i : list item) : list (Z * item) :=
  match i with
  | [] => []
  | Op _ :: i => holes (pc + 1) i
  | x :: i => (pc, x) :: holes (pc + 1) i
  end.

(** The fixup says that the place is the item number [t]. *)
Definition target_ok (i : list item) (t : Z) (f : Fixup) : Prop :=
  f_value f = t /\ 0 <= t <= ilen i /\
  let before := take (Z.to_nat t) i in
  prev_literals f = count FIXUP_LITERAL before /\ prev_forks f = count FIXUP_FORK before /\
  prev_var_refs f = count FIXUP_VAR_REF before /\ prev_labels f = count FIXUP_LABEL before.

(** The fixup of a hole. *)
Definition fix_ok (i : list item) (h : Z * item) (f : Fixup) : Prop :=
  f_pc f = fst h /\ prev_stacks f = 0 /\
  match snd h with
  | Op _ => False
  | Ref k v => f_kind f = k /\ f_value f = v /\ k <> FIXUP_LABEL
  | Lab t => f_kind f = FIXUP_LABEL /\ target_ok i t f
  | Pseudo v => f_kind f = FIXUP_LABEL /\ f_value f = v /\
      prev_literals f = 0 /\ prev_forks f = 0 /\ prev_var_refs f = 0 /\ prev_labels f = 0
  end.
(** The fixup of a label that has not been defined yet. *)
Definition fix_pending (h : Z * item) (f : Fixup) : Prop :=
  f_pc f = fst h /\ f_kind f = FIXUP_LABEL /\ prev_stacks f = 0 /\ exists t, snd h = Lab t.

(** *** What the state of the generator holds *)

Definition nexts (s : State) : list Z := map f_next (fixups s).
(** The label [l] heads the chain [ch] of fixups. *)
Fixpoint chain_of (nx : list Z) (l : Z) (ch : list nat) : Prop :=
  match ch with
  | [] => l = -1
  | k :: ch => l = Z.of_nat k /\ exists n, nx !! k = Some n /\ n < l /\ chain_of nx n ch
  end.
(** The hole number [k] is a label at [t]. *)
Definition points (i : list item) (k : nat) (t : Z) : Prop := exists p, holes 0 i !! k = Some (p, Lab t).
Definition loop_chain (s : State) (k : nat) : Prop :=
  exists l ch, l ∈ loops s /\ chain_of (nexts s) (l_bottom_label l) ch /\ k ∈ ch.
Definition pending (s : State) (X : list (nat * Z)) (k : nat) : Prop := k ∈ X.*1 \/ loop_chain s k.

(** Where the loop's code starts. *)
Definition top_ok (i : list item) (f : Fixup) : Prop :=
  f_kind f = FIXUP_LABEL /\ f_next f = -1 /\ prev_stacks f = 0 /\ target_ok i (f_value f) f.

(** References are below this. *)
Definition ref_bound (s : State) (k : fixup_kind) : Z :=
  match k with
  | FIXUP_LITERAL => Z.of_nat (length (g_literals (gstate s)))
  | FIXUP_FORK => Z.of_nat (length (g_fork_vectors (gstate s)))
  | FIXUP_VAR_REF | FIXUP_STACK => 256
  | FIXUP_LABEL => 0
  end.

(** The state has put out the items [i].  The labels of [X] are not defined
    yet, and neither are the ends of the loops; [X] and [B] say where they
    will be. *)
Record holds (s : State) (i : list item) (B : list Z) (X : list (nat * Z)) : Prop := {
  h_bytes : cbytes s = map old_byte i;
  h_len : length (fixups s) = length (holes 0 i);
  h_fix : forall k h f, holes 0 i !! k = Some h -> fixups s !! k = Some f ->
    (pending s X k -> fix_pending h f) /\ (~ pending s X k -> fix_ok i h f);
  h_pend : forall k t, (k, t) ∈ X -> points i k t;
  h_loops : Forall2 (fun l b => exists ch, chain_of (nexts s) (l_bottom_label l) ch /\ forall k, k ∈ ch -> points i k b) (loops s) B;
  h_tops : forall l, l ∈ loops s -> top_ok i (l_top_label l);
  h_literals : num_literals s = count FIXUP_LITERAL i;
  h_forks : num_forks s = count FIXUP_FORK i;
  h_var_refs : num_var_refs s = count FIXUP_VAR_REF i;
  h_labels : num_labels s = count FIXUP_LABEL i;
  h_stacks : num_stacks s = 0;
  h_refs : forall k v, Ref k v ∈ i -> 0 <= v < ref_bound s k
}.

(** What the parser makes a literal of; minus zero would be taken for zero. *)
Definition wf_lit (v : Var) : bool :=
  match v with
  | VInt _ | VObj _ | VErr _ => true
  | VStr s => cstrb s
  | VFloat f => match f with S754_zero true => false | _ => true end
  | _ => false
  end.
Definition lits_ok (s : State) : Prop := Forall (fun v => wf_lit v = true) (g_literals (gstate s)).

Definition chains (s : State) : Prop := forall l, l ∈ loops s -> exists ch, chain_of (nexts s) (l_bottom_label l) ch.
Definition same_loop (l l' : Loop) : Prop :=
  l_id l = l_id l' /\ l_top_label l = l_top_label l' /\ l_top_stack l = l_top_stack l' /\ l_bottom_stack l = l_bottom_stack l'.

(** A step from [s] to [s'] puts out [i], leaving the labels [N] to be defined,
    and moves the stack by [n], using at most [d] places above it. *)
Record ext (B : list Z) (s : State) (i : list item) (N : list (nat * Z)) (s' : State) (n d : Z) : Prop := {
  x_adds : forall i0 X, holds s i0 B X -> holds s' (i0 ++ i) B (N ++ X);
  x_bytes : num_bytes s' = num_bytes s + ilen i;
  x_cur : cur_stack s' = cur_stack s + n;
  x_max : cur_stack s <= max_stack s -> max_stack s' = Z.max (max_stack s) (cur_stack s + d);
  x_high : n <= d;
  x_saved : saved_stack s' = saved_stack s;
  x_loops : Forall2 same_loop (loops s) (loops s');
  x_chains : chains s -> chains s';
  x_nexts : nexts s `prefix_of` nexts s';
  x_lits_ok : lits_ok s -> lits_ok s';
  x_lits : g_literals (gstate s) `prefix_of` g_literals (gstate s');
  x_forks : g_fork_vectors (gstate s) `prefix_of` g_fork_vectors (gstate s')
}.

(** The computation succeeds. *)
Definition runs {A} (m : M A) (s : State) (Q : A -> State -> Prop) : Prop := exists a s', m s = Some (a, s') /\ Q a s'.

Definition set_saved (v : Z) (s : State) : State := with_stack (cur_stack s) (max_stack s) v s.

(** What the steps that put out one byte have in common. *)
Record puts (s : State) (x : item) (fx : list Fixup) (s' : State) : Prop := {
  u_bytes : cbytes s' = cbytes s ++ [old_byte x];
  u_fixups : fixups s' = fixups s ++ fx;
  u_loops : loops s' = loops s;
  u_lits : g_literals (gstate s) `prefix_of` g_literals (gstate s');
  u_forks : g_fork_vectors (gstate s) `prefix_of` g_fork_vectors (gstate s');
  u_lits_ok : lits_ok s -> lits_ok s';
  u_refs : forall k v, x = Ref k v -> 0 <= v < ref_bound s' k;
  u_literals : num_literals s' = num_literals s + count FIXUP_LITERAL [x];
  u_nforks : num_forks s' = num_forks s + count FIXUP_FORK [x];
  u_var_refs : num_var_refs s' = num_var_refs s + count FIXUP_VAR_REF [x];
  u_labels : num_labels s' = num_labels s + count FIXUP_LABEL [x];
  u_stacks : num_stacks s' = num_stacks s;
  u_cur : cur_stack s' = cur_stack s;
  u_max : max_stack s' = max_stack s;
  u_saved : saved_stack s' = saved_stack s;
  u_len : length fx = length (holes 0 [x])
}.

(** The state after a fixup that counts as [x]. *)
Definition with_hole (f : Fixup) (s : State) : State :=
  with_code (cbytes s ++ [0]) (fixups s ++ [set_pc (num_bytes s) f]) s.

Definition new_fixup (kind : fixup_kind) (value next : Z) (s : State) : Fixup :=
  mkFixup kind 0 value (num_literals s) (num_forks s) (num_var_refs s) (num_labels s) (num_stacks s) next.

(** Defining the labels of a chain. *)
Definition resolve (s : State) (ch : list nat) (fx : list Fixup) : list Fixup :=
  imap (fun k f => if bool_decide (k ∈ ch) then set_target s f else f) fx.

(** What a definition leaves alone. *)
Record quiet (s s' : State) : Prop := {
  q_bytes : num_bytes s' = num_bytes s;
  q_cur : cur_stack s' = cur_stack s;
  q_saved : saved_stack s' = saved_stack s;
  q_loops : loops s' = loops s;
  q_nexts : nexts s' = nexts s;
  q_gstate : gstate s' = gstate s
}.

(** ** Lemmas *)

Lemma ilen_app i j : ilen (i ++ j) = ilen i + ilen j.
Proof. unfold ilen. rewrite length_app. lia. Qed.
Lemma ilen_cons x i : ilen (x :: i) = 1 + ilen i.
Proof. unfold ilen. simpl. lia. Qed.
Lemma ilen_nil : ilen [] = 0.
Proof. done. Qed.
Lemma ilen_nonneg i : 0 <= ilen i.
Proof. unfold ilen. lia. Qed.

Lemma count_app p i j : count p (i ++ j) = count p i + count p j.
Proof. induction i as [|x i IH]; cbn [app count]; [lia|]. rewrite IH. lia. Qed.

Lemma holes_app pc i j : holes pc (i ++ j) = holes pc i ++ holes (pc + ilen i) j.
Proof.
  revert pc. induction i as [|x i IH]; intros pc; cbn [app holes].
  - by rewrite Z.add_0_r.
  - rewrite ilen_cons, Z.add_assoc. destruct x; cbn [app]; by rewrite IH.
Qed.

Lemma points_app i j k t : points i k t -> points (i ++ j) k t.
Proof. intros [p H]. exists p. rewrite holes_app. by apply lookup_app_l_Some. Qed.

Lemma chain_of_det nx l ch ch' : chain_of nx l ch -> chain_of nx l ch' -> ch = ch'.
Proof.
  revert l ch'. induction ch as [|k ch IH]; intros l [|k' ch']; cbn [chain_of]; try done; try lia.
  intros (-> & n & H1 & _ & H2) (Hk & n' & H1' & _ & H2'). assert (k' = k) as -> by lia. simplify_eq. f_equal. by eapply IH.
Qed.
Lemma chain_of_prefix nx nx' l ch : nx `prefix_of` nx' -> chain_of nx l ch -> chain_of nx' l ch.
Proof.
  intros Hp. revert l. induction ch as [|k ch IH]; intros l; cbn [chain_of]; [done|].
  intros (-> & n & H1 & H2 & H3). split; [done|]. exists n. split; [by eapply prefix_lookup_Some|]. auto.
Qed.
Lemma chain_of_bound nx l ch k : chain_of nx l ch -> k ∈ ch -> (k < length nx)%nat /\ Z.of_nat k <= l.
Proof.
  revert l. induction ch as [|k' ch IH]; intros l; cbn [chain_of]; [by intros _ ?%elem_of_nil|].
  intros (-> & n & H1 & H2 & H3) [->|Hk]%elem_of_cons.
  - split; [by eapply lookup_lt_Some|lia].
  - destruct (IH _ H3 Hk). split; lia.
Qed.
Lemma chain_of_length nx l ch : chain_of nx l ch -> Z.of_nat (length ch) <= l + 1.
Proof.
  revert l. induction ch as [|k' ch IH]; intros l; cbn [chain_of]; [intros ->; simpl; lia|].
  intros (-> & n & H1 & H2 & H3). apply IH in H3. simpl. lia.
Qed.

Lemma holds_num s i B X : holds s i B X -> num_bytes s = ilen i.
Proof. intros H. unfold num_bytes, ilen. rewrite (h_bytes s i B X H), length_map. done. Qed.

Lemma target_ok_app i j t f : target_ok i t f -> target_ok (i ++ j) t f.
Proof.
  intros (Hv & Ht & Hc). split; [done|]. rewrite ilen_app. pose proof (ilen_nonneg j).
  split; [lia|]. rewrite take_app_le by (unfold ilen in Ht; lia). exact Hc.
Qed.
(** More items do not change what the fixups say. *)
Lemma fix_ok_app i j h f : fix_ok i h f -> fix_ok (i ++ j) h f.
Proof. intros (H1 & H2 & H). split; [done|]. split; [done|]. destruct (snd h); try done. destruct H. eauto using target_ok_app. Qed.
Lemma top_ok_app i j f : top_ok i f -> top_ok (i ++ j) f.
Proof. intros (? & ? & ? & ?). unfold top_ok. eauto using target_ok_app. Qed.

Lemma loop_chain_same s s' i B X k : loops s' = loops s -> nexts s `prefix_of` nexts s' -> holds s i B X ->
  loop_chain s' k <-> loop_chain s k.
Proof.
  intros El Ep H. unfold loop_chain. rewrite El. split.
  - intros (l & ch & Hl & Hc & Hk). apply list_elem_of_lookup in Hl as [j Hj].
    destruct (Forall2_lookup_l _ _ _ _ _ (h_loops _ _ _ _ H) Hj) as (b & _ & ch' & Hc' & _).
    rewrite (chain_of_det _ _ _ _ Hc (chain_of_prefix _ _ _ _ Ep Hc')) in Hk.
    exists l, ch'. split; [by eapply list_elem_of_lookup_2|]. done.
  - intros (l & ch & Hl & Hc & Hk). exists l, ch. eauto using chain_of_prefix.
Qed.

(** The loops after something was put out. *)
Lemma holds_loops s s' i j B X : loops s' = loops s -> nexts s `prefix_of` nexts s' -> holds s i B X ->
  Forall2 (fun l b => exists ch, chain_of (nexts s') (l_bottom_label l) ch /\ forall k, k ∈ ch -> points (i ++ j) k b) (loops s') B.
Proof.
  intros El Ep H. rewrite El. eapply Forall2_impl; [exact (h_loops _ _ _ _ H)|].
  intros l b (ch & Hc & Hp). exists ch. split; [by eapply chain_of_prefix|]. intros k Hk. by apply points_app, Hp.
Qed.

(** Only membership matters for the pending labels. *)
Lemma holds_ext s i B X X' : (forall x, x ∈ X <-> x ∈ X') -> holds s i B X -> holds s i B X'.
Proof.
  intros E []. split; try done.
  - assert (Hp : forall k, pending s X' k <-> pending s X k).
    { intros k. unfold pending. rewrite !list_elem_of_fmap. setoid_rewrite E. done. }
    intros k h f Hh Hf. rewrite Hp. by apply h_fix0.
  - intros k t Hk. apply h_pend0. by apply E.
Qed.

Lemma holds_same s s' i B X : cbytes s' = cbytes s -> fixups s' = fixups s -> loops s' = loops s ->
  num_literals s' = num_literals s -> num_forks s' = num_forks s -> num_var_refs s' = num_var_refs s ->
  num_labels s' = num_labels s -> num_stacks s' = num_stacks s ->
  (forall k, ref_bound s k <= ref_bound s' k) -> holds s i B X -> holds s' i B X.
Proof.
  intros E1 E2 E3 E4 E5 E6 E7 E8 Hb []. assert (En : nexts s' = nexts s) by (unfold nexts; by rewrite E2).
  assert (Hl : forall k, loop_chain s' k <-> loop_chain s k) by (intros k; unfold loop_chain; by rewrite E3, En).
  split; rewrite ?E1, ?E2, ?E3, ?E4, ?E5, ?E6, ?E7, ?E8, ?En; try done.
  - intros k h f. unfold pending. rewrite Hl. apply h_fix0.
  - intros k v Hv. specialize (h_refs0 k v Hv). specialize (Hb k). lia.
Qed.

(** *** Runs *)

Lemma runs_bind {A C} (m : M A) (f : A -> M C) s Q : runs m s (fun a s1 => runs (f a) s1 Q) -> runs (m ≫= f) s Q.
Proof. intros (a & s1 & E & b & s2 & E2 & H). exists b, s2. split; [|done]. unfold mbind, M_bind. by rewrite E. Qed.
Lemma runs_mono {A} (m : M A) s (Q Q' : A -> State -> Prop) : runs m s Q -> (forall a s', Q a s' -> Q' a s') -> runs m s Q'.
Proof. intros (a & s' & E & H) HQ. exists a, s'. auto. Qed.
Lemma runs_ret {A} (a : A) s (Q : A -> State -> Prop) : Q a s -> runs (mret a) s Q.
Proof. intros H. by exists a, s. Qed.
Lemma runs_get {A} (f : State -> A) s (Q : A -> State -> Prop) : Q (f s) s -> runs (get f) s Q.
Proof. intros H. by exists (f s), s. Qed.
Lemma runs_modify f s (Q : unit -> State -> Prop) : Q tt (f s) -> runs (modify f) s Q.
Proof. intros H. by exists tt, (f s). Qed.
(** The result does not depend on what is to be shown of it. *)
Lemma runs_forall {A T} (t : T) (m : M A) s (Q : T -> A -> State -> Prop) :
  (forall t, runs m s (Q t)) -> runs m s (fun a s' => forall t, Q t a s').
Proof.
  intros H. destruct (H t) as (a & s' & E & _). exists a, s'. split; [done|]. intros t'.
  destruct (H t') as (a' & s'' & E' & HQ). congruence.
Qed.

(** *** Steps *)

Lemma same_loop_refl l : same_loop l l.
Proof. done. Qed.
Lemma same_loops_refl ls : Forall2 same_loop ls ls.
Proof. induction ls; constructor; auto using same_loop_refl. Qed.
Lemma same_loops_trans l1 l2 l3 : Forall2 same_loop l1 l2 -> Forall2 same_loop l2 l3 -> Forall2 same_loop l1 l3.
Proof.
  intros H. revert l3. induction H as [|? ? ? ? (? & ? & ? & ?) _ IH]; intros l3 H3; inversion H3 as [|? ? ? ? (? & ? & ? & ?)]; subst; constructor.
  - repeat split; congruence.
  - auto.
Qed.

Lemma ext_refl B s : ext B s [] [] s 0 0.
Proof.
  split; try done; try lia.
  - intros i0 X H. by rewrite app_nil_r.
  - rewrite ilen_nil. lia.
  - apply same_loops_refl.
Qed.

Lemma ext_trans B s1 i N s2 n d j N' s3 n' d' :
  ext B s1 i N s2 n d -> ext B s2 j N' s3 n' d' -> ext B s1 (i ++ j) (N' ++ N) s3 (n + n') (Z.max d (n + d')).
Proof.
  intros [] []. split; try lia; try congruence; try (by etrans).
  - intros i0 X H. rewrite app_assoc, <- (app_assoc N'). auto.
  - rewrite ilen_app. lia.
  - by eapply same_loops_trans.
  - auto.
  - auto.
Qed.

(** Steps with the same effect. *)
Lemma ext_conv B s i N s' n d i' N' n' d' : ext B s i N s' n d ->
  i = i' -> (forall x, x ∈ N <-> x ∈ N') -> n = n' -> d = d' -> ext B s i' N' s' n' d'.
Proof.
  intros [] <- E <- Hd. split; try done; try lia. intros i0 X H. eapply holds_ext; [|by apply x_adds0].
  intros x. rewrite !elem_of_app, E. done.
Qed.

(** Steps that put out nothing. *)
Lemma ext_silent B s s' n d : cbytes s' = cbytes s -> fixups s' = fixups s ->
  num_literals s' = num_literals s -> num_forks s' = num_forks s -> num_var_refs s' = num_var_refs s ->
  num_labels s' = num_labels s -> num_stacks s' = num_stacks s ->
  cur_stack s' = cur_stack s + n -> (cur_stack s <= max_stack s -> max_stack s' = Z.max (max_stack s) (cur_stack s + d)) -> n <= d ->
  saved_stack s' = saved_stack s -> loops s' = loops s -> gstate s' = gstate s -> ext B s [] [] s' n d.
Proof.
  intros E1 E2 E3 E4 E5 E6 E7 E8 E9 E13 E10 E11 E12. split; try done.
  - intros i0 X Hh. rewrite app_nil_r. eapply holds_same; [..|exact Hh]; try done. intros []; unfold ref_bound; by rewrite ?E12.
  - unfold num_bytes. rewrite E1, ilen_nil. lia.
  - rewrite E11. apply same_loops_refl.
  - unfold chains, nexts. by rewrite E2, E11.
  - unfold nexts. by rewrite E2.
  - unfold lits_ok. by rewrite E12.
  - by rewrite E12.
  - by rewrite E12.
Qed.

Lemma push_runs B n s : 0 <= n -> runs (push_stack n) s (fun _ s' => ext B s [] [] s' n n).
Proof. intros Hn. apply runs_modify, ext_silent; try done. simpl. destruct (Z.ltb_spec (max_stack s) (cur_stack s + n)); lia. Qed.
Lemma pop_runs B n s : 0 <= n -> runs (pop_stack n) s (fun _ s' => ext B s [] [] s' (- n) 0).
Proof. intros Hn. apply runs_modify, ext_silent; try done; simpl; lia. Qed.

(** A step with another saved place. *)
Lemma ext_saved B v s i N s' n d : ext B (set_saved v s) i N s' n d -> ext B s i N (set_saved (saved_stack s) s') n d.
Proof.
  intros []. split; try done. intros i0 X H. eapply holds_same; [..|apply x_adds0]; try done.
  by eapply holds_same; [..|exact H].
Qed.

(** A byte or a reference is put out. *)
Lemma holds_add s s' i B X x fx N :
  cbytes s' = cbytes s ++ [old_byte x] -> fixups s' = fixups s ++ fx -> loops s' = loops s ->
  (forall k, ref_bound s k <= ref_bound s' k) -> (forall k v, x = Ref k v -> 0 <= v < ref_bound s' k) ->
  num_literals s' = num_literals s + count FIXUP_LITERAL [x] -> num_forks s' = num_forks s + count FIXUP_FORK [x] ->
  num_var_refs s' = num_var_refs s + count FIXUP_VAR_REF [x] -> num_labels s' = num_labels s + count FIXUP_LABEL [x] ->
  num_stacks s' = num_stacks s ->
  length fx = length (holes 0 [x]) ->
  (forall f, fx = [f] -> holds s i B X -> (exists t, N = [(length (fixups s), t)] /\ x = Lab t /\ fix_pending (ilen i, x) f) \/
     (N = [] /\ fix_ok (i ++ [x]) (ilen i, x) f)) -> (fx = [] -> N = []) ->
  holds s i B X -> holds s' (i ++ [x]) B (N ++ X).
Proof.
  intros Eb Ef El Hb Hr E1 E2 E3 E4 E5 Hlen Hnew Hnil H.
  assert (Hp : nexts s `prefix_of` nexts s') by (unfold nexts; rewrite Ef, map_app; apply prefix_app_r; done).
  pose proof (h_len _ _ _ _ H) as Hl0.
  assert (Hlc : forall k, loop_chain s' k <-> loop_chain s k) by (intros k; by eapply loop_chain_same).
  assert (Hold : forall k, loop_chain s k \/ k ∈ X.*1 -> (k < length (fixups s))%nat).
  { intros k [(l & ch & _ & Hc & Hk)|Hk].
    - apply (chain_of_bound _ _ _ _ Hc) in Hk as [Hk _]. unfold nexts in Hk. by rewrite length_map in Hk.
    - apply list_elem_of_fmap in Hk as ([k' t] & -> & Hk). apply (h_pend _ _ _ _ H) in Hk as [p Hk].
      apply lookup_lt_Some in Hk. simpl. lia. }
  split; rewrite ?E1, ?E2, ?E3, ?E4, ?E5.
  - by rewrite Eb, (h_bytes _ _ _ _ H), map_app.
  - rewrite Ef, holes_app, !length_app, Hl0, Hlen. f_equal. destruct x; done.
  - intros k h f Hh Hf. rewrite Ef in Hf. rewrite holes_app in Hh. destruct (decide (k < length (fixups s))%nat) as [Hk|Hk].
    + rewrite lookup_app_l in Hf by lia. rewrite lookup_app_l in Hh by lia. destruct (h_fix _ _ _ _ H k h f Hh Hf) as [H1 H2].
      assert (Hiff : pending s' (N ++ X) k <-> pending s X k).
      { unfold pending. rewrite Hlc, fmap_app, elem_of_app. split; [|tauto]. intros [[HN|HN]|HN]; [|tauto|tauto].
        exfalso. destruct fx as [|f' [|? ?]].
        - rewrite Hnil in HN by done. by apply elem_of_nil in HN.
        - destruct (Hnew f' eq_refl H) as [(t & -> & _)|[-> _]]; [|by apply elem_of_nil in HN].
          apply list_elem_of_fmap in HN as ([k' t'] & E & HN). apply list_elem_of_singleton in HN. simplify_eq. simpl in Hk. lia.
        - destruct x; simpl in Hlen; discriminate. }
      rewrite Hiff. split; [exact H1|]. intros Hn. by apply fix_ok_app, H2.
    + rewrite lookup_app_r in Hf by lia. rewrite lookup_app_r in Hh by lia. rewrite Z.add_0_l in Hh.
      destruct fx as [|f' [|? ?]]; [by rewrite lookup_nil in Hf| |destruct x; simpl in Hlen; discriminate].
      apply list_lookup_singleton_Some in Hf as [Hk0 <-].
      assert (Hx : h = (ilen i, x)).
      { rewrite <- Hl0, Hk0 in Hh. destruct x; simpl in Hh; by simplify_eq. }
      subst h. destruct (Hnew f' eq_refl H) as [(t & -> & -> & Hf)|[-> Hf]].
      * split; [done|]. intros Hn. exfalso. apply Hn. left. simpl. assert (k = length (fixups s)) as -> by lia. left.
      * split; [|done]. intros [Hn|Hn]; [|rewrite Hlc in Hn]; exfalso; apply Hk, Hold; auto.
  - intros k t [Hk|Hk]%elem_of_app.
    + destruct fx as [|f' [|? ?]]; [rewrite Hnil in Hk by done; by apply elem_of_nil in Hk| |destruct x; simpl in Hlen; discriminate].
      destruct (Hnew f' eq_refl H) as [(t' & -> & -> & _)|[-> _]]; [|by apply elem_of_nil in Hk].
      apply list_elem_of_singleton in Hk. simplify_eq. exists (0 + ilen i). rewrite holes_app, lookup_app_r by lia.
      rewrite <- Hl0, Nat.sub_diag. done.
    + by apply points_app, (h_pend _ _ _ _ H).
  - by eapply holds_loops.
  - intros l Hl. rewrite El in Hl. by apply top_ok_app, (h_tops _ _ _ _ H).
  - rewrite count_app, (h_literals _ _ _ _ H). done.
  - rewrite count_app, (h_forks _ _ _ _ H). done.
  - rewrite count_app, (h_var_refs _ _ _ _ H). done.
  - rewrite count_app, (h_labels _ _ _ _ H). done.
  - apply (h_stacks _ _ _ _ H).
  - intros k v [Hv|Hv]%elem_of_app.
    + specialize (h_refs _ _ _ _ H k v Hv). specialize (Hb k). lia.
    + apply list_elem_of_singleton in Hv. by apply Hr.
Qed.

Lemma ref_bound_mono s s' k : g_literals (gstate s) `prefix_of` g_literals (gstate s') ->
  g_fork_vectors (gstate s) `prefix_of` g_fork_vectors (gstate s') -> ref_bound s k <= ref_bound s' k.
Proof. intros H1 H2. pose proof (prefix_length _ _ H1). pose proof (prefix_length _ _ H2). destruct k; unfold ref_bound; lia. Qed.

Lemma ext_puts B s x fx s' N : puts s x fx s' ->
  (forall f i X, fx = [f] -> holds s i B X -> (exists t, N = [(length (fixups s), t)] /\ x = Lab t /\ fix_pending (ilen i, x) f) \/
     (N = [] /\ fix_ok (i ++ [x]) (ilen i, x) f)) -> (fx = [] -> N = []) -> ext B s [x] N s' 0 0.
Proof.
  intros [] Hnew Hnil. assert (Hp : nexts s `prefix_of` nexts s') by (unfold nexts; rewrite u_fixups0, map_app; by apply prefix_app_r).
  split; try done; try lia.
  - intros i0 X H. eapply holds_add; eauto. intros k. by apply ref_bound_mono.
  - unfold num_bytes. rewrite u_bytes0, length_app, ilen_cons, ilen_nil. simpl. lia.
  - rewrite u_loops0. apply same_loops_refl.
  - intros Hc l Hl. rewrite u_loops0 in Hl. destruct (Hc l Hl) as [ch Hch]. exists ch. by eapply chain_of_prefix.
Qed.

Lemma emit_runs B b s : 0 <= b < 256 -> runs (emit_byte b) s (fun _ s' => ext B s [Op b] [] s' 0 0).
Proof.
  intros Hb. apply runs_modify. apply (ext_puts B s (Op b) [] _ []); [|done|done]. split; try done; try (simpl; lia).
  - simpl. by rewrite uwrap_id.
  - simpl. by rewrite app_nil_r.
Qed.

Lemma emit_extended_runs B b s : 0 <= b < 256 -> runs (emit_extended_byte b) s (fun _ s' => ext B s [Op OP_EXTENDED; Op b] [] s' 0 0).
Proof.
  intros Hb. apply runs_bind. eapply runs_mono; [apply (emit_runs B); vm_compute; split; congruence|]. intros [] s1 H1.
  eapply runs_mono; [by apply (emit_runs B)|]. intros [] s2 H2. exact (ext_trans _ _ _ _ _ _ _ _ _ _ _ _ H1 H2).
Qed.

Lemma add_known_fixup_eq f s : add_known_fixup f s = Some (Z.of_nat (length (fixups s)), with_hole f s).
Proof. reflexivity. Qed.

Lemma add_linked_fixup_eq kind value next s :
  add_linked_fixup kind value next s = Some (Z.of_nat (length (fixups s)), with_hole (new_fixup kind value next s) s).
Proof. reflexivity. Qed.

(** A reference. *)
Lemma ref_fix_ok s i B X k v next : holds s i B X -> k <> FIXUP_LABEL ->
  fix_ok (i ++ [Ref k v]) (ilen i, Ref k v) (set_pc (num_bytes s) (new_fixup k v next s)).
Proof. intros H Hk. split; [by rewrite <- (holds_num _ _ _ _ H)|]. split; [apply (h_stacks _ _ _ _ H)|done]. Qed.

Lemma ext_ref B s k v s' : k <> FIXUP_LABEL -> puts s (Ref k v) [set_pc (num_bytes s) (new_fixup k v (-1) s)] s' ->
  ext B s [Ref k v] [] s' 0 0.
Proof.
  intros Hk H. eapply ext_puts; [exact H| |done]. intros f i X [= <-] Hh. right. split; [done|]. by eapply ref_fix_ok.
Qed.

Lemma add_var_ref_runs B slot s : 0 <= slot < 256 -> runs (add_var_ref slot) s (fun _ s' => ext B s [Ref FIXUP_VAR_REF slot] [] s' 0 0).
Proof. intros Hs. eexists _, _. split; [reflexivity|]. apply ext_ref; [done|]. split; try done; simpl; try lia. intros k v [= <- <-]. done. Qed.
Lemma add_stack_ref_runs B v s : 0 <= v < 256 -> runs (add_stack_ref v) s (fun _ s' => ext B s [Ref FIXUP_STACK v] [] s' 0 0).
Proof. intros Hs. eexists _, _. split; [reflexivity|]. apply ext_ref; [done|]. split; try done; simpl; try lia. intros k v' [= <- <-]. done. Qed.

Lemma add_fork_runs B b s : runs (add_fork b) s (fun _ s' => exists k, ext B s [Ref FIXUP_FORK k] [] s' 0 0 /\
  0 <= k /\ g_fork_vectors (gstate s') !! Z.to_nat k = Some b).
Proof.
  unfold add_fork. apply runs_bind, runs_get. cbv zeta. apply runs_bind, runs_modify.
  eexists _, _. split; [reflexivity|]. exists (Z.of_nat (length (g_fork_vectors (gstate s)))). split; [|split; [lia|]].
  - apply ext_ref; [done|]. split; try done; simpl; try lia; [by apply prefix_app_r|].
    intros k v [= <- <-]. unfold ref_bound. simpl. rewrite length_app. simpl. lia.
  - rewrite Nat2Z.id. apply lookup_snoc_last.
Qed.

Lemma literal_equal v w : wf_lit v = true -> wf_lit w = true -> type_of v = type_of w ->
  exists b, equality v w true = Some b /\ (b = true -> v = w).
Proof.
  destruct v as [n|o|t|e| | | | | |f], w as [m|p|u|e'| | | | | |g]; try done; intros Hv Hw _; (eexists; split; [reflexivity|]); cbn.
  - intros ->%Z.eqb_eq. done.
  - intros ->%Z.eqb_eq. done.
  - intros E%Z.eqb_eq. f_equal. apply strcmp_eq in E; [done|by apply cstrb_ok..].
  - intros ->%bool_decide_eq_true. done.
  - intros [_ [->|(b & c & -> & ->)]]%SFeqb_spec; [done|]. destruct b, c; done.
Qed.

Lemma find_literal_spec v lits i : wf_lit v = true -> Forall (fun w => wf_lit w = true) lits ->
  exists j, find_literal v lits i = Some (i + Z.of_nat j) /\ (j <= length lits)%nat /\
    forall w, lits !! j = Some w -> w = v.
Proof.
  intros Hv. revert i. induction lits as [|w lits IH]; intros i Hl; cbn [find_literal].
  - exists O. split; [f_equal; lia|]. done.
  - apply Forall_cons in Hl as [Hw Hl].
    assert (exists b, (if decide (type_of v = type_of w) then equality v w true else Some false) = Some b /\ (b = true -> v = w)) as (b & -> & Hb).
    { destruct (decide (type_of v = type_of w)); [by apply literal_equal|by exists false]. }
    simpl. destruct b.
    + exists O. split; [f_equal; lia|]. split; [simpl; lia|]. intros w' [= <-]. symmetry. auto.
    + destruct (IH (i + 1) Hl) as (j & -> & Hj & Hw'). exists (S j). split; [f_equal; lia|]. split; [simpl; lia|]. exact Hw'.
Qed.

Lemma add_literal_runs B v s : wf_lit v = true -> lits_ok s ->
  runs (add_literal v) s (fun _ s' => exists k, ext B s [Ref FIXUP_LITERAL k] [] s' 0 0 /\
    0 <= k /\ g_literals (gstate s') !! Z.to_nat k = Some v).
Proof.
  intros Hv Hl. destruct (find_literal_spec v (g_literals (gstate s)) 0 Hv Hl) as (j & E & Hj & Hw).
  unfold add_literal. apply runs_bind, runs_get. rewrite E, Z.add_0_l. destruct (Z.eqb_spec (Z.of_nat j) (Z.of_nat (length (g_literals (gstate s))))) as [Ej|Ej].
  - eexists _, _. split; [reflexivity|]. exists (Z.of_nat j). split; [|split; [lia|]].
    + apply ext_ref; [done|]. split; try done; simpl; try lia; [by apply prefix_app_r| |].
      * unfold lits_ok. simpl. intros Ha. apply Forall_app. split; [done|]. constructor; [done|constructor].
      * intros k v' [= <- <-]. unfold ref_bound. simpl. rewrite length_app. simpl. lia.
    + rewrite Nat2Z.id. simpl. assert (j = length (g_literals (gstate s))) as -> by lia. apply lookup_snoc_last.
  - eexists _, _. split; [reflexivity|]. exists (Z.of_nat j). split; [|split; [lia|]].
    + apply ext_ref; [done|]. split; try done; simpl; try lia. intros k v' [= <- <-]. unfold ref_bound. simpl. lia.
    + rewrite Nat2Z.id. simpl. destruct (lookup_lt_is_Some_2 (g_literals (gstate s)) j) as [w Ew]; [lia|]. by rewrite Ew, (Hw w Ew).
Qed.

(** *** Labels *)

Lemma add_linked_label_runs B next ch s : chain_of (nexts s) next ch ->
  runs (add_linked_label next) s (fun l s' => exists k, (forall t, ext B s [Lab t] [(k, t)] s' 0 0) /\
    l = Z.of_nat k /\ nexts s' !! k = Some next /\ chain_of (nexts s') l (k :: ch)).
Proof.
  intros Hc. eexists _, _. split; [reflexivity|]. exists (length (fixups s)).
  assert (Hn : next < Z.of_nat (length (fixups s))).
  { destruct ch as [|k ch]; cbn [chain_of] in Hc; [lia|]. destruct Hc as (-> & n & Hk & _). apply lookup_lt_Some in Hk.
    unfold nexts in Hk. rewrite length_map in Hk. lia. }
  assert (Hk : nexts (with_counts (num_literals s) (num_forks s) (num_var_refs s) (num_labels s + 1) (num_stacks s)
    (with_hole (new_fixup FIXUP_LABEL 0 next s) s)) !! length (fixups s) = Some next).
  { unfold nexts. simpl. rewrite map_app, lookup_app_r; rewrite length_map; [|done]. by rewrite Nat.sub_diag. }
  split; [|split; [done|split; [exact Hk|]]].
  - intros t. eapply (ext_puts B s (Lab t) [set_pc (num_bytes s) (new_fixup FIXUP_LABEL 0 next s)]); [|intros f i X [= <-] H|done].
    + split; try done; simpl; try lia.
    + left. exists t. split; [done|]. split; [done|]. split; [by rewrite <- (holds_num _ _ _ _ H)|]. split; [done|]. split; [apply (h_stacks _ _ _ _ H)|]. by exists t.
  - split; [done|]. exists next. split; [exact Hk|]. split; [exact Hn|]. eapply chain_of_prefix; [|exact Hc]. unfold nexts. simpl. rewrite map_app. by apply prefix_app_r.
Qed.

Lemma add_label_runs B s : runs add_label s (fun l s' => exists k, (forall t, ext B s [Lab t] [(k, t)] s' 0 0) /\
    l = Z.of_nat k /\ nexts s' !! k = Some (-1) /\ chain_of (nexts s') l [k]).
Proof. by apply (add_linked_label_runs B (-1) []). Qed.

Lemma add_pseudo_label_runs B v s : runs (add_pseudo_label v) s (fun _ s' => ext B s [Pseudo v] [] s' 0 0).
Proof.
  eexists _, _. split; [reflexivity|]. eapply (ext_puts B s (Pseudo v) [_]); [|intros f i X [= <-] H|done].
  - split; try done; simpl; try lia.
  - right. split; [done|]. split; [by rewrite <- (holds_num _ _ _ _ H)|]. done.
Qed.

(** After a step. *)
Lemma ext_puts_after B s0 i N s n d x f s' : puts s x [f] s' -> ext B s0 i N s n d ->
  (forall i0 X, holds s0 i0 B X -> holds s (i0 ++ i) B (N ++ X) -> fix_ok ((i0 ++ i) ++ [x]) (ilen (i0 ++ i), x) f) ->
  ext B s0 (i ++ [x]) N s' n d.
Proof.
  intros [] [] Hf. assert (Hp : nexts s `prefix_of` nexts s') by (unfold nexts; rewrite u_fixups0, map_app; by apply prefix_app_r).
  split; try done; try lia; try congruence; try (by etrans); auto.
  - intros i0 X H. rewrite app_assoc. eapply (holds_add s s' (i0 ++ i) B (N ++ X) x [f] []); eauto.
    + intros k. by apply ref_bound_mono.
    + intros g [= <-] _. right. split; [done|]. apply (Hf i0 X); auto.
  - rewrite ilen_app, ilen_cons, ilen_nil. unfold num_bytes in *. rewrite u_bytes0, length_app. simpl. lia.
  - intros Hc l Hl. rewrite u_loops0 in Hl. destruct (x_chains0 Hc l Hl) as [ch Hch]. exists ch. by eapply chain_of_prefix.
Qed.

(** A jump back to the top of a loop. *)
Lemma known_label_after B s0 i N s n d f : ext B s0 i N s n d -> (forall i0 X, holds s0 i0 B X -> top_ok (i0 ++ i) f) ->
  runs (add_known_label f) s (fun _ s' => ext B s0 (i ++ [Lab (f_value f)]) N s' n d /\
    cur_stack s' = cur_stack s /\ num_bytes s' = num_bytes s + 1 /\ saved_stack s' = saved_stack s /\ gstate s' = gstate s /\
    loops s' = loops s /\ nexts s `prefix_of` nexts s').
Proof.
  intros X Hf. eexists _, _. split; [reflexivity|]. split.
  - eapply ext_puts_after; [|exact X|].
    + split; try done; simpl; try lia.
    + intros i0 X0 H H'. destruct (Hf _ _ H) as (Hk & _ & Hs & Ht). split; [by rewrite <- (holds_num _ _ _ _ H')|].
      split; [done|]. split; [done|]. by apply target_ok_app.
  - repeat split; try done.
    + unfold num_bytes. simpl. rewrite length_app. simpl. lia.
    + unfold nexts. simpl. rewrite map_app. by apply prefix_app_r.
Qed.

(** Here and now. *)
Lemma target_here s i B X f : holds s i B X ->
  f_value f = num_bytes s -> prev_literals f = num_literals s -> prev_forks f = num_forks s ->
  prev_var_refs f = num_var_refs s -> prev_labels f = num_labels s -> target_ok i (num_bytes s) f.
Proof.
  intros H Ev E1 E2 E3 E4. unfold target_ok. rewrite Ev, (holds_num _ _ _ _ H), E1, E2, E3, E4. pose proof (ilen_nonneg i).
  assert (take (Z.to_nat (ilen i)) i = i) as -> by (unfold ilen; by rewrite Nat2Z.id, firstn_all).
  rewrite (h_literals _ _ _ _ H), (h_forks _ _ _ _ H), (h_var_refs _ _ _ _ H), (h_labels _ _ _ _ H). split; [done|]. split; [lia|]. done.
Qed.

Lemma capture_ok s i B X : holds s i B X ->
  top_ok i (mkFixup FIXUP_LABEL 0 (num_bytes s) (num_literals s) (num_forks s) (num_var_refs s) (num_labels s) (num_stacks s) (-1)).
Proof. intros H. split; [done|]. split; [done|]. split; [apply (h_stacks _ _ _ _ H)|]. by eapply target_here. Qed.

Lemma resolve_lookup s ch fx k : resolve s ch fx !! k = (fun f => if bool_decide (k ∈ ch) then set_target s f else f) <$> fx !! k.
Proof. unfold resolve. by rewrite list_lookup_imap. Qed.

Lemma define_chain_spec s fuel label ch fx : chain_of (map f_next fx) label ch -> (length ch < fuel)%nat ->
  define_chain fuel label s fx = Some (resolve s ch fx).
Proof.
  revert fuel label fx. induction ch as [|k ch IH]; intros fuel label fx Hc Hf; destruct fuel as [|fuel]; try (simpl in Hf; lia); cbn [chain_of define_chain] in *.
  - subst label. simpl. f_equal. apply list_eq. intros k. rewrite resolve_lookup. destruct (fx !! k); [|done]. done.
  - destruct Hc as (-> & n & Hk & Hn & Hc). destruct (Z.eqb_spec (Z.of_nat k) (-1)); [lia|].
    destruct (Z.ltb_spec (Z.of_nat k) 0); [lia|]. rewrite Nat2Z.id.
    change (map f_next fx) with (f_next <$> fx) in Hk. rewrite list_lookup_fmap in Hk. destruct (fx !! k) as [f|] eqn:Ef; [|done]. simpl in *. injection Hk as Hk.
    assert (En : map f_next (<[k := set_target s f]> fx) = map f_next fx).
    { change (f_next <$> <[k := set_target s f]> fx = f_next <$> fx). rewrite list_fmap_insert. apply list_insert_id. by rewrite list_lookup_fmap, Ef. }
    rewrite IH; [|rewrite En, Hk; exact Hc|lia]. f_equal. apply list_eq. intros j. rewrite !resolve_lookup.
    destruct (decide (j = k)) as [->|Hj].
    + rewrite list_lookup_insert_eq by (by eapply lookup_lt_Some). rewrite Ef. simpl.
      rewrite (bool_decide_true (k ∈ k :: ch)) by by left. by destruct (bool_decide (k ∈ ch)).
    + rewrite list_lookup_insert_ne by done. destruct (fx !! j); simpl; [|done].
      rewrite (bool_decide_ext (j ∈ k :: ch) (j ∈ ch)); [done|]. rewrite elem_of_cons. naive_solver.
Qed.

Lemma define_label_eq label ch s : chain_of (nexts s) label ch ->
  define_label label s = Some (tt, with_code (cbytes s) (resolve s ch (fixups s)) s).
Proof.
  intros Hc. unfold define_label. rewrite (define_chain_spec s _ label ch); [done|exact Hc|].
  destruct ch as [|k ch]; [simpl; lia|]. pose proof (chain_of_length _ _ _ Hc). destruct (chain_of_bound _ _ _ k Hc) as [Hb _]; [by left|].
  cbn [chain_of] in Hc. destruct Hc as (-> & _). unfold nexts in Hb. rewrite length_map in Hb. simpl in *. lia.
Qed.

Lemma nexts_resolve s ch fx : map f_next (resolve s ch fx) = map f_next fx.
Proof.
  apply list_eq. intros k. change (f_next <$> resolve s ch fx) with (map f_next (resolve s ch fx)).
  rewrite !list_lookup_fmap, resolve_lookup. destruct (fx !! k) as [f|]; [|done]. simpl. by destruct (bool_decide _).
Qed.

Lemma holds_define s i B ch X : holds s i B (((., num_bytes s) <$> ch) ++ X) ->
  holds (with_code (cbytes s) (resolve s ch (fixups s)) s) i B X.
Proof.
  intros H. set (s' := with_code _ _ s). assert (En : nexts s' = nexts s) by (unfold nexts; simpl; apply nexts_resolve).
  assert (Hlc : forall k, loop_chain s' k <-> loop_chain s k) by (intros k; unfold loop_chain; by rewrite En).
  destruct (H) as []. split; rewrite ?En; try done.
  - simpl. unfold resolve. by rewrite length_imap.
  - intros k h f Hh Hf. simpl in Hf. rewrite resolve_lookup in Hf. destruct (fixups s !! k) as [g|] eqn:Eg; [|done]. simpl in Hf. injection Hf as <-.
    destruct (h_fix0 k h g Hh Eg) as [H1 H2]. unfold pending in *. rewrite Hlc.
    assert (Hin : k ∈ ch -> k ∈ (((., num_bytes s) <$> ch) ++ X).*1).
    { intros Hk. rewrite fmap_app, elem_of_app. left. rewrite <- list_fmap_compose. apply list_elem_of_fmap. by exists k. }
    assert (Hin' : k ∈ X.*1 -> k ∈ (((., num_bytes s) <$> ch) ++ X).*1) by (intros Hk; rewrite fmap_app, elem_of_app; by right).
    assert (Hout : k ∈ (((., num_bytes s) <$> ch) ++ X).*1 -> k ∈ ch \/ k ∈ X.*1).
    { rewrite fmap_app, elem_of_app, <- list_fmap_compose. intros [(x & -> & Hx)%list_elem_of_fmap|Hx]; auto. }
    destruct (bool_decide_reflect (k ∈ ch)) as [Hk|Hk].
    + split.
      * intros _. destruct (H1 (or_introl (Hin Hk))) as (E1 & E2 & E3 & t & E4). unfold fix_pending. simpl. split; [done|]. split; [done|].
        split; [apply h_stacks0|]. by exists t.
      * intros _. destruct (H1 (or_introl (Hin Hk))) as (E1 & E2 & E3 & t & E4).
        destruct (h_pend0 k (num_bytes s)) as [p Hp]; [apply elem_of_app; left; apply list_elem_of_fmap; by exists k|].
        rewrite Hh in Hp. injection Hp as ->. split; [done|]. split; [apply h_stacks0|]. simpl. split; [done|].
        eapply target_here; [exact H|done..].
    + split; [naive_solver|]. intros Hn. apply H2. naive_solver.
  - intros k t Hk. apply h_pend0. apply elem_of_app. by right.
Qed.

Lemma define_runs ch label s1 : chain_of (nexts s1) label ch ->
  runs (define_label label) s1 (fun _ s2 => quiet s1 s2 /\
    forall B s0 i N n d, ext B s0 i (((., num_bytes s1) <$> ch) ++ N) s1 n d -> ext B s0 i N s2 n d).
Proof.
  intros Hc. eexists _, _. split; [by apply define_label_eq|].
  assert (En : nexts (with_code (cbytes s1) (resolve s1 ch (fixups s1)) s1) = nexts s1) by apply nexts_resolve.
  split; [by split|]. intros B s0 i N n d []. split; rewrite ?En; try done.
  - intros i0 X H. apply holds_define. rewrite app_assoc. by apply x_adds0.
  - unfold chains. rewrite En. done.
Qed.

(** *** Loops *)

Lemma enter_holds s i B X id f ts k t bs : holds s i B ((k, t) :: X) -> nexts s !! k = Some (-1) -> top_ok i f ->
  holds (with_loops (mkLoop id f ts (Z.of_nat k) bs :: loops s) s) i (t :: B) X.
Proof.
  intros H Hk Hf. set (s' := with_loops _ s). destruct (H) as [].
  assert (Hch : chain_of (nexts s) (Z.of_nat k) [k]) by (split; [done|]; exists (-1); split; [done|]; split; [lia|done]).
  assert (Hp : forall j, pending s' X j <-> pending s ((k, t) :: X) j).
  { intros j. unfold pending. cbn. rewrite elem_of_cons. split.
    - intros [Hj|(l & ch & Hl & Hc & Hj)]; [tauto|]. apply elem_of_cons in Hl as [->|Hl].
      + rewrite (chain_of_det _ _ _ _ Hc Hch) in Hj. apply list_elem_of_singleton in Hj. tauto.
      + right. by exists l, ch.
    - intros [[->|Hj]|(l & ch & Hl & Hc & Hj)]; [|tauto|].
      + right. eexists _, _. split; [by left|]. split; [exact Hch|by left].
      + right. exists l, ch. split; [by right|]. done. }
  split; try done.
  - intros j h g Hh Hg. rewrite Hp. by apply h_fix0.
  - intros j u Hj. apply h_pend0. by right.
  - constructor; [|done]. exists [k]. split; [exact Hch|]. intros j Hj. apply list_elem_of_singleton in Hj as ->. apply h_pend0. by left.
  - intros l Hl. apply elem_of_cons in Hl as [->|Hl]; [done|]. by apply h_tops0.
Qed.

Lemma exit_holds s i B X l ls t ch : holds s i (t :: B) X -> loops s = l :: ls -> chain_of (nexts s) (l_bottom_label l) ch ->
  holds (with_loops ls s) i B (((., t) <$> ch) ++ X).
Proof.
  intros H El Hc. set (s' := with_loops _ s). destruct (H) as [].
  assert (Hp : forall j, pending s' (((., t) <$> ch) ++ X) j <-> pending s X j).
  { intros j. unfold pending. rewrite fmap_app, elem_of_app, <- list_fmap_compose. split.
    - intros [[(x & -> & Hx)%list_elem_of_fmap|Hj]|(l' & ch' & Hl & Hc' & Hj)]; [|tauto|].
      + right. exists l, ch. rewrite El. split; [by left|done].
      + right. exists l', ch'. rewrite El. split; [by right|done].
    - intros [Hj|(l' & ch' & Hl & Hc' & Hj)]; [tauto|]. rewrite El in Hl. apply elem_of_cons in Hl as [->|Hl].
      + rewrite (chain_of_det _ _ _ _ Hc' Hc) in Hj. left. left. apply list_elem_of_fmap. by exists j.
      + right. by exists l', ch'. }
  rewrite El in h_loops0. apply Forall2_cons in h_loops0 as [(ch' & Hc' & Hpts) Hls].
  rewrite (chain_of_det _ _ _ _ Hc' Hc) in Hpts.
  split; try done.
  - intros j h g Hh Hg. rewrite Hp. by apply h_fix0.
  - intros j u [Hj|Hj]%elem_of_app; [|by apply h_pend0]. apply list_elem_of_fmap in Hj as (k & [= -> ->] & Hk). by apply Hpts.
  - intros l' Hl. apply h_tops0. rewrite El. by right.
Qed.

(** A loop around a body. *)
Lemma loop_ext B s0 i N k t s1 n d id f ts bs j s2 d2 l ls :
  ext B s0 i ((k, t) :: N) s1 n d -> nexts s1 !! k = Some (-1) ->
  (forall i0 X, holds s0 i0 B X -> top_ok (i0 ++ i) f) ->
  ext (t :: B) (with_loops (mkLoop id f ts (Z.of_nat k) bs :: loops s1) s1) j [] s2 0 d2 -> chains s0 ->
  loops s2 = l :: ls ->
  exists ch, chain_of (nexts s2) (l_bottom_label l) ch /\ l_top_label l = f /\
    ext B s0 (i ++ j) (((., t) <$> ch) ++ N) (with_loops ls s2) n (Z.max d (n + d2)).
Proof.
  intros H1 Hk Hf H2 Hch El.
  assert (Hc1 : chains s1) by (by apply (x_chains _ _ _ _ _ _ _ H1)).
  assert (Hc2 : chains s2).
  { apply (x_chains _ _ _ _ _ _ _ H2). intros l' Hl. cbn in Hl. apply elem_of_cons in Hl as [->|Hl]; [|by apply Hc1].
    exists [k]. split; [done|]. exists (-1). split; [done|]. split; [cbn; lia|done]. }
  destruct (Hc2 l) as [ch Hc]; [rewrite El; by left|]. exists ch. split; [done|].
  pose proof (x_loops _ _ _ _ _ _ _ H2) as Hsl. rewrite El in Hsl. cbn [loops with_loops] in Hsl. apply Forall2_cons in Hsl as [(_ & E & _) Hsl].
  split; [by rewrite <- E|]. destruct H1, H2. split; cbn [cur_stack max_stack saved_stack gstate loops nexts fixups with_loops] in *; try lia; try congruence; try (by etrans); auto.
  - intros i0 X H. rewrite app_assoc, <- (app_assoc ((., t) <$> ch)). eapply exit_holds; [|done|done].
    apply (x_adds1 (i0 ++ i) (N ++ X)). apply enter_holds; [|done|by eapply Hf]. by apply (x_adds0 i0 X).
  - change (num_bytes (with_loops ls s2)) with (num_bytes s2). rewrite x_bytes1. change (num_bytes (with_loops (mkLoop id f ts (Z.of_nat k) bs :: loops s1) s1)) with (num_bytes s1). rewrite x_bytes0, ilen_app. lia.
  - by eapply same_loops_trans.
  - intros _ l' Hl. cbn in Hl. apply Hc2. rewrite El. by right.
Qed.

(** A [break] hooks its label into the chain of the loop. *)
Lemma relink_holds s i B X j l b k : holds s i B ((k, b) :: X) -> loops s !! j = Some l -> B !! j = Some b ->
  nexts s !! k = Some (l_bottom_label l) -> l_bottom_label l < Z.of_nat k ->
  holds (with_loops (<[j := set_bottom_label (Z.of_nat k) l]> (loops s)) s) i B X.
Proof.
  intros H Hj Hb Hk Hlt. set (s' := with_loops _ s). destruct (H) as [].
  assert (Els : loops s' = <[j := set_bottom_label (Z.of_nat k) l]> (loops s)) by done.
  destruct (Forall2_lookup_lr _ _ _ _ _ _ h_loops0 Hj Hb) as (ch & Hc & Hpts).
  assert (Hch : chain_of (nexts s) (Z.of_nat k) (k :: ch)) by (split; [done|]; eauto).
  assert (Hjl : (j < length (loops s))%nat) by (by eapply lookup_lt_Some).
  assert (Hp1 : forall m, pending s' X m -> pending s ((k, b) :: X) m).
  { intros m. unfold pending. cbn. rewrite elem_of_cons.
    intros [Hm|(l' & ch' & Hl & Hc' & Hm)]; [tauto|]. apply list_elem_of_lookup in Hl as [j' Hl]. try rewrite Els in Hl.
    destruct (decide (j' = j)) as [->|Hne].
    - rewrite list_lookup_insert_eq in Hl by done. injection Hl as <-. rewrite (chain_of_det _ _ _ _ Hc' Hch) in Hm.
      apply elem_of_cons in Hm as [->|Hm]; [tauto|]. right. exists l, ch. split; [by eapply list_elem_of_lookup_2|done].
    - rewrite list_lookup_insert_ne in Hl by done. right. exists l', ch'. split; [by eapply list_elem_of_lookup_2|done]. }
  assert (Hnew : forall m, m ∈ k :: ch -> loop_chain s' m).
  { intros m Hm. exists (set_bottom_label (Z.of_nat k) l), (k :: ch). split; [|done]. apply (list_elem_of_lookup_2 _ j). rewrite Els. by apply list_lookup_insert_eq. }
  assert (Hp2 : forall m, pending s ((k, b) :: X) m -> pending s' X m).
  { intros m. unfold pending. cbn. rewrite elem_of_cons. intros [[->|Hm]|(l' & ch' & Hl & Hc' & Hm)]; [right; apply Hnew; by left|tauto|].
    right. apply list_elem_of_lookup in Hl as [j' Hl]. destruct (decide (j' = j)) as [->|Hne].
    - rewrite Hj in Hl. injection Hl as <-. rewrite (chain_of_det _ _ _ _ Hc' Hc) in Hm. apply Hnew. by right.
    - exists l', ch'. split; [|done]. apply (list_elem_of_lookup_2 _ j'). rewrite Els. by rewrite list_lookup_insert_ne by done. }
  split; try done.
  - intros m h g Hh Hg. destruct (h_fix0 m h g Hh Hg) as [H1 H2]. split; [auto|]. intros Hn. apply H2. auto.
  - intros m u Hm. apply h_pend0. by right.
  - apply Forall2_same_length_lookup_2.
    + rewrite Els, length_insert. by eapply Forall2_length.
    + intros j' l' b' Hl Hb'. rewrite Els in Hl. destruct (decide (j' = j)) as [->|Hne].
      * rewrite list_lookup_insert_eq in Hl by done. injection Hl as <-. assert (b' = b) as -> by congruence. exists (k :: ch). split; [done|].
        intros m [->|Hm]%elem_of_cons; [apply h_pend0; by left|auto].
      * rewrite list_lookup_insert_ne in Hl by done. by apply (Forall2_lookup_lr _ _ _ _ _ _ h_loops0 Hl Hb').
  - intros l' Hl. apply list_elem_of_lookup in Hl as [j' Hl]. rewrite Els in Hl. destruct (decide (j' = j)) as [->|Hne].
    + rewrite list_lookup_insert_eq in Hl by done. injection Hl as <-. apply (h_tops0 l). by eapply list_elem_of_lookup_2.
    + rewrite list_lookup_insert_ne in Hl by done. apply h_tops0. by eapply list_elem_of_lookup_2.
Qed.

Lemma relink_ext B s0 i N k b s1 n d j l : ext B s0 i ((k, b) :: N) s1 n d -> loops s1 !! j = Some l -> B !! j = Some b ->
  nexts s1 !! k = Some (l_bottom_label l) -> l_bottom_label l < Z.of_nat k ->
  ext B s0 i N (with_loops (<[j := set_bottom_label (Z.of_nat k) l]> (loops s1)) s1) n d.
Proof.
  intros [] Hj Hb Hk Hlt. split; cbn; try done.
  - intros i0 X H. eapply relink_holds; try done. by apply x_adds0.
  - eapply same_loops_trans; [exact x_loops0|]. apply Forall2_same_length_lookup_2; [by rewrite length_insert|].
    intros j' l1 l2 H1 H2. destruct (decide (j' = j)) as [->|Hne].
    + rewrite list_lookup_insert_eq in H2 by (by eapply lookup_lt_Some). assert (l1 = l) as -> by congruence. injection H2 as <-. done.
    + rewrite list_lookup_insert_ne in H2 by done. assert (l1 = l2) as -> by congruence. apply same_loop_refl.
  - intros Hc l' Hl. apply list_elem_of_lookup in Hl as [j' Hl]. cbn in Hl. destruct (decide (j' = j)) as [->|Hne].
    + rewrite list_lookup_insert_eq in Hl by (by eapply lookup_lt_Some). injection Hl as <-.
      destruct (x_chains0 Hc l) as [ch Hch]; [by eapply list_elem_of_lookup_2|]. exists (k :: ch). split; [done|]. eauto.
    + rewrite list_lookup_insert_ne in Hl by done. apply (x_chains0 Hc). by eapply list_elem_of_lookup_2.
Qed.
