(* ===== verification/CodeProof.v ===== *)
(** * The generator puts out the code of the tree

    For every tree that the parser can build the generator does not panic, and
    what it puts out is the code of the tree in the sense of [CodeSpec]. *)

From Stdlib Require Import SpecFloat.
From S2P Require Import Prelude Utf CString Values Db Ast CodeGen CodeSpec.

(** ** Definitions *)

(** *** Well-formed trees *)

(** A variable; with more than 256 of them see [var_slot_cut_off]. *)
Definition slot_ok (id : Z) : bool := (0 <=? id) && (id <? 256).

Definition scatter_rest (sc : Scatter) : Z * Z * Z :=
  let '(nargs, nreq, rest) := scatter_counts sc 0 0 (-1) in
  (nargs, nreq, if rest =? -1 then nargs + 1 else rest).

(** What the parser builds: [$] only in an index ([inx]), only assignable
    things on the left of an assignment, and so on. *)
Fixpoint wf_e (inx : bool) (e : Expr) : bool :=
  match e with
  | EXPR_VAR v => wf_lit v
  | EXPR_ID id => slot_ok id
  | EXPR_PROP lhs rhs | EXPR_BINARY _ lhs rhs | EXPR_LOGIC _ lhs rhs => wf_e inx lhs && wf_e inx rhs
  | EXPR_VERB obj verb args => wf_e inx obj && wf_e inx verb && wf_args inx args
  | EXPR_INDEX lhs rhs => wf_e inx lhs && wf_e true rhs
  | EXPR_RANGE base from to => wf_e inx base && wf_e true from && wf_e true to
  | EXPR_ASGN (EXPR_SCATTER sc) rhs =>
      let '(nargs, nreq, rest) := scatter_rest sc in wf_scatter inx sc && (nargs <? 256) && (rest <? 256) && wf_e inx rhs
  | EXPR_ASGN lhs rhs => wf_lv inx false lhs && wf_e inx rhs
  | EXPR_CALL func args => (0 <=? func) && (func <? 256) && wf_args inx args
  | EXPR_UNARY _ expr => wf_e inx expr
  | EXPR_LIST args => wf_args inx args
  | EXPR_COND condition consequent alternate => wf_e inx condition && wf_e inx consequent && wf_e inx alternate
  | EXPR_CATCH try codes except =>
      wf_e inx try && wf_args inx codes && match except with Null => true | Ptr e => wf_e inx e end
  | EXPR_LENGTH => inx
  | EXPR_SCATTER _ => false
  end
with wf_lv (inx indexed_above : bool) (e : Expr) : bool :=
  match e with
  | EXPR_RANGE base from to => negb indexed_above && wf_lv inx true base && wf_e true from && wf_e true to
  | EXPR_INDEX lhs rhs => wf_lv inx true lhs && wf_e true rhs
  | EXPR_ID id => slot_ok id
  | EXPR_PROP lhs rhs => wf_e inx lhs && wf_e inx rhs
  | _ => false
  end
with wf_args (inx : bool) (args : Arg_List) : bool :=
  match args with ANil => true | ACons _ expr next => wf_e inx expr && wf_args inx next end
with wf_scatter (inx : bool) (sc : Scatter) : bool :=
  match sc with
  | SNil => true
  | SCons kind id expr next =>
      slot_ok id && wf_scatter inx next &&
      match expr with Null => true | Ptr e => match kind with SCAT_OPTIONAL => wf_e inx e | _ => false end end
  end.

(** *** What is to be shown of the generator *)

Definition ready (inx : bool) (s : State) (d : Z) : Prop :=
  0 <= cur_stack s /\ cur_stack s + d <= 255 /\ lits_ok s /\ (inx = true -> 0 <= saved_stack s < 256).

Definition gen_ok (B : list Z) (m : M unit) (s : State) (n d : Z) (C : list Var -> Z -> Z -> Z -> list item -> Prop) : Prop :=
  runs m s (fun _ s' => exists i, ext B s i [] s' n d /\
    forall L, g_literals (gstate s') `prefix_of` L -> C L (num_bytes s) (cur_stack s) (saved_stack s) i).

(** The handler of a [catch]. *)
Definition generate_handler (except : Expr_ptr) : M unit :=
  match except with
  | Ptr except => emit_byte OP_POP;; pop_stack 1;; generate_expr except
  | Null => emit_byte (OPTIM_NUM_TO_OPCODE 1);; emit_byte OP_REF
  end.
Definition good (e : Expr) : Prop := forall B inx s, wf_e inx e = true -> ready inx s (depth_e e) ->
  gen_ok B (generate_expr e) s 1 (depth_e e) (fun L pc c sv => code_e L pc c sv e).
Definition good_lv (e : Expr) : Prop := forall B inx above s, wf_lv inx above e = true -> ready inx s (depth_lv e above) ->
  gen_ok B (push_lvalue e above) s (lv_size e above) (depth_lv e above) (fun L pc c sv => code_lv L pc c sv e above).
Definition good_ptr (p : Expr_ptr) : Prop := match p with Null => True | Ptr e => good e end.
Definition good_list (args : Arg_List) : Prop := forall B inx s, wf_args inx args = true -> ready inx s (depth_args args) ->
  gen_ok B (generate_arg_list args) s 1 (depth_args args) (fun L pc c sv => code_args L pc c sv args).
Definition good_more (args : Arg_List) : Prop := forall B inx s, wf_args inx args = true -> ready inx s (depth_more args) ->
  gen_ok B (generate_more_args args) s 0 (depth_more args) (fun L pc c sv => code_more L pc c sv args).

Fixpoint good_defaults (sc : Scatter) : Prop :=
  match sc with SNil => True | SCons _ _ expr next => good_ptr expr /\ good_defaults next end.
(** How many labels a scattering assignment has. *)
Fixpoint optionals (sc : Scatter) : nat :=
  match sc with
  | SNil => O
  | SCons SCAT_OPTIONAL _ (Ptr _) next => S (optionals next)
  | SCons _ _ _ next => optionals next
  end.

(** What a stretch of the generator's work keeps. *)
Record kept (s s' : State) (len n : Z) : Prop := {
  k_bytes : num_bytes s' = num_bytes s + len;
  k_cur : cur_stack s' = cur_stack s + n;
  k_saved : saved_stack s' = saved_stack s;
  k_lits_ok : lits_ok s -> lits_ok s';
  k_lits : g_literals (gstate s) `prefix_of` g_literals (gstate s');
  k_nexts : nexts s `prefix_of` nexts s'
}.

(** ** Lemmas *)

(** *** Tactics *)

(** One step of a computation. *)
Ltac step L := apply runs_bind; eapply runs_mono; [apply L|cbn beta].
Ltac last L := eapply runs_mono; [apply L|cbn beta].
Ltac byte := match goal with |- 0 <= ?b < ?c => first [lia | vm_compute; split; congruence] end.

(** What a step does to the state. *)
Ltac note X :=
  pose proof (x_cur _ _ _ _ _ _ _ X); pose proof (x_bytes _ _ _ _ _ _ _ X); pose proof (x_saved _ _ _ _ _ _ _ X);
  pose proof (x_lits_ok _ _ _ _ _ _ _ X); pose proof (x_lits _ _ _ _ _ _ _ X); pose proof (x_nexts _ _ _ _ _ _ _ X).

Ltac ext_join :=
  repeat match goal with
  | H1 : ext ?B ?s1 _ _ ?s2 _ _, H2 : ext ?B ?s2 _ _ ?s3 _ _ |- _ =>
      let H := fresh in pose proof (ext_trans _ _ _ _ _ _ _ _ _ _ _ _ H1 H2) as H; clear H1 H2
  end.
Ltac ext_done :=
  ext_join;
  match goal with
  | H : ext ?B ?s ?i _ ?s' _ _ |- ext ?B ?s ?j _ ?s' _ _ =>
      pose proof (x_high _ _ _ _ _ _ _ H);
      eapply ext_conv; [exact H | rewrite ?app_nil_l, ?app_nil_r, <- ?app_assoc; cbn [app]; try reflexivity | | try lia | try lia];
      [try (intros [? ?]; rewrite ?elem_of_app, ?elem_of_cons, ?elem_of_nil; tauto)..]
  end.

Ltac solve_prefix :=
  first [assumption | etrans; [eassumption|solve_prefix]].
Ltac solve_ready := first [eassumption | split; [lia|split; [lia|split; [auto 10|intros; try match goal with H : ?b = true -> _, E : ?b = true |- _ => specialize (H E) end; congruence || lia]]]].

Ltac items := rewrite ?ilen_app, ?ilen_cons, ?ilen_nil in *.

Lemma depth_pos_all : (forall e, 1 <= depth_e e /\ forall b, 0 <= lv_size e b <= depth_lv e b) /\
  (forall p, match p with Null => True | Ptr e => 1 <= depth_e e end) /\
  (forall a, 1 <= depth_args a /\ 0 <= depth_more a) /\ (forall sc, 0 <= depth_defaults sc).
Proof.
  apply Expr_ind_all; intros; cbn [depth_e depth_lv lv_size depth_args depth_more depth_defaults];
    repeat match goal with H : _ /\ _ |- _ => destruct H | H : forall b : bool, _ |- _ => pose proof (H true); pose proof (H false); clear H end;
    repeat match goal with e : Expr_ptr |- _ => destruct e end;
    try match goal with |- _ /\ forall b : bool, _ => split; [|intros []] end; try lia.
  destruct lhs; lia.
Qed.
Lemma depth_pos e : 1 <= depth_e e.
Proof. apply depth_pos_all. Qed.
Lemma depth_args_pos a : 1 <= depth_args a.
Proof. apply depth_pos_all. Qed.
Lemma depth_more_pos a : 0 <= depth_more a.
Proof. apply depth_pos_all. Qed.
Lemma depth_defaults_pos sc : 0 <= depth_defaults sc.
Proof. apply depth_pos_all. Qed.
Lemma depth_lv_pos e b : 0 <= lv_size e b <= depth_lv e b.
Proof. apply depth_pos_all. Qed.
Ltac depths :=
  repeat match goal with
  | _ : context [depth_e ?e] |- _ => lazymatch goal with _ : 1 <= depth_e e |- _ => fail | _ => pose proof (depth_pos e) end
  | _ : context [depth_args ?e] |- _ => lazymatch goal with _ : 1 <= depth_args e |- _ => fail | _ => pose proof (depth_args_pos e) end
  | _ : context [depth_more ?e] |- _ => lazymatch goal with _ : 0 <= depth_more e |- _ => fail | _ => pose proof (depth_more_pos e) end
  | _ : context [depth_defaults ?e] |- _ => lazymatch goal with _ : 0 <= depth_defaults e |- _ => fail | _ => pose proof (depth_defaults_pos e) end
  | _ : context [depth_lv ?e ?b] |- _ => lazymatch goal with _ : 0 <= lv_size e b <= depth_lv e b |- _ => fail | _ => pose proof (depth_lv_pos e b) end
  end.

(** *** Pieces *)

Lemma slot_ok_range id : slot_ok id = true -> 0 <= id < 256.
Proof. unfold slot_ok. lia. Qed.

Lemma emit_var_runs B op id s : slot_ok id = true -> 0 <= op < 256 - NUM_READY_VARS ->
  runs (emit_var_op op id) s (fun _ s' => exists i, ext B s i [] s' 0 0 /\ code_var op id i).
Proof.
  intros Hs%slot_ok_range Ho. unfold emit_var_op. unfold NUM_READY_VARS in *. destruct (Z.leb_spec 32 id).
  - step (emit_runs B); [byte|]. intros [] s1 X1. last (add_var_ref_runs B); [lia|]. intros [] s2 X2.
    eexists. split; [ext_done|]. right. split; [unfold NUM_READY_VARS; lia|done].
  - last (emit_runs B); [byte|]. intros [] s1 X1. eexists. split; [ext_done|]. left. split; [unfold NUM_READY_VARS; lia|done].
Qed.

Lemma emit_op_runs B op s : 0 <= snd op < 256 -> runs (emit_op op) s (fun _ s' => ext B s (code_op op) [] s' 0 0).
Proof. destruct op as [[] op]; intros Ho; [by apply emit_extended_runs|by apply emit_runs]. Qed.

Lemma good_var v : forall B inx s, wf_e inx (EXPR_VAR v) = true -> ready inx s 1 ->
  gen_ok B (generate_expr (EXPR_VAR v)) s 1 1 (fun L pc c sv => code_e L pc c sv (EXPR_VAR v)).
Proof.
  intros B inx s Hv (Hc & Hd & Hl & _). cbn [wf_e] in Hv. unfold gen_ok. cbn [generate_expr code_e].
  assert (Himm : runs (emit_byte OP_IMM;; add_literal v) s (fun _ s' => exists i, ext B s i [] s' 0 0 /\
    forall L, g_literals (gstate s') `prefix_of` L -> code_lit L v i)).
  { step (emit_runs B); [byte|]. intros [] s1 X1. note X1. last (add_literal_runs B); [done|auto|]. intros [] s2 (k & X2 & Hk & Hlk).
    eexists. split; [ext_done|]. intros L HL. right. exists k. split; [done|]. split; [by eapply prefix_lookup_Some|done]. }
  assert (Hlit : runs (match v with
      | VInt n => if IN_OPTIM_NUM_RANGE n then emit_byte (OPTIM_NUM_TO_OPCODE n) else emit_byte OP_IMM;; add_literal v
      | _ => emit_byte OP_IMM;; add_literal v
      end) s (fun _ s' => exists i, ext B s i [] s' 0 0 /\ forall L, g_literals (gstate s') `prefix_of` L -> code_lit L v i)).
  { destruct v; try exact Himm. destruct (IN_OPTIM_NUM_RANGE n) eqn:En; [|exact Himm].
    last (emit_runs B); [|intros [] s1 X1; eexists; split; [ext_done|]; intros L HL; left; eauto].
    unfold IN_OPTIM_NUM_RANGE, OPTIM_NUM_TO_OPCODE, OPTIM_NUM_HI, OPTIM_NUM_LOW, Last_Opcode in *.
    change OPTIM_NUM_START with 113 in *. lia. }
  apply runs_bind. eapply runs_mono; [exact Hlit|]. intros [] s1 (i & X1 & HL1). note X1. last (push_runs B); [lia|]. intros [] s2 X2. note X2.
  exists i. split; [ext_done|]. intros L HL. apply HL1. solve_prefix.
Qed.

(** Items that are the same up to the places in them. *)
Ltac shape := items; rewrite ?app_nil_r, <- ?app_assoc; cbn [app]; repeat (first [reflexivity | lia | f_equal]).

(** The hypotheses of a case. *)
Ltac case_start :=
  let B := fresh "B" in let inx := fresh "inx" in let s := fresh "s" in
  intros B inx s Hwf (Hc & Hd & Hl & Hsv);
  cbn [wf_e wf_lv wf_args wf_scatter depth_e depth_lv depth_args depth_more] in *; 
  repeat match goal with H : andb _ _ = true |- _ => apply andb_true_iff in H as [? ?] end;
  unfold gen_ok; cbn [generate_expr push_lvalue generate_arg_list generate_more_args]; depths.

(** One use of an induction hypothesis. *)
Ltac use IH i s1 X C :=
  first [ apply runs_bind; eapply runs_mono; [eapply IH; [eassumption|solve_ready]|cbn beta]
        | eapply runs_mono; [eapply IH; [eassumption|solve_ready]|cbn beta] ];
  intros [] s1 (i & X & C); note X.
Ltac one L s1 X := first [step L; [try byte; try lia ..|] | last L; [try byte; try lia..|]]; intros [] s1 X; note X.
Ltac onev L s1 X := first [step L | last L]; intros [] s1 X; note X.
Ltac onew L tac s1 X := first [step L; [tac|] | last L; [tac|]]; intros [] s1 X; note X.
(** The code of a part, at its place. *)
Ltac code_at C :=
  let HC := fresh in
  match goal with HL : _ `prefix_of` ?L |- _ => assert (HC := C L ltac:(solve_prefix)) end;
  cbn beta in HC; items;
  match type of HC with ?P ?a ?b ?c ?e ?i => match goal with |- ?P ?a' ?b' ?c' _ _ =>
     replace a' with a by lia; replace b' with b by lia; replace c' with c by lia end end; exact HC.

Lemma good_prop lhs rhs : good lhs -> good rhs -> good (EXPR_PROP lhs rhs).
Proof.
  intros IH1 IH2. case_start.
  use (IH1 B) i1 s1 X1 C1. use (IH2 B) i2 s2 X2 C2. one (emit_runs B) s3 X3. onew (pop_runs B) lia s4 X4.
  eexists. split; [ext_done|]. intros L HL. cbn [code_e]. exists i1, i2. split; [done|]. split; [code_at C1|code_at C2].
Qed.

Lemma good_binary k lhs rhs : good lhs -> good rhs -> good (EXPR_BINARY k lhs rhs).
Proof.
  intros IH1 IH2. case_start.
  use (IH1 B) i1 s1 X1 C1. use (IH2 B) i2 s2 X2 C2. onew (emit_op_runs B) ltac:(destruct k; byte) s3 X3. onew (pop_runs B) lia s4 X4.
  eexists. split; [ext_done|]. intros L HL. cbn [code_e]. exists i1, i2. split; [done|]. split; [code_at C1|code_at C2].
Qed.

Lemma good_unary k e : good e -> good (EXPR_UNARY k e).
Proof.
  intros IH1. case_start.
  use (IH1 B) i1 s1 X1 C1. onew (emit_op_runs B) ltac:(destruct k; byte) s2 X2.
  eexists. split; [ext_done|]. intros L HL. cbn [code_e]. exists i1. split; [done|]. code_at C1.
Qed.

(** A label that is defined later. *)
Ltac label B k s1 X Hch :=
  step (add_label_runs B); intros ? s1 (k & X & _ & _ & Hch);
  let t := fresh in pose proof (X 0) as t; note t; clear t.
Ltac noteq Q :=
  pose proof (q_cur _ _ Q); pose proof (q_bytes _ _ Q); pose proof (q_saved _ _ Q);
  let H := fresh in
  pose proof (q_gstate _ _ Q) as H;
  match type of Q with quiet ?s ?s' =>
    assert (lits_ok s -> lits_ok s') by (unfold lits_ok; rewrite H; auto);
    assert (g_literals (gstate s) `prefix_of` g_literals (gstate s')) by (rewrite H; done);
    assert (nexts s `prefix_of` nexts s') by (rewrite (q_nexts _ _ Q); done)
  end; clear H.
Ltac define ch s1 X Q :=
  first [apply runs_bind; eapply runs_mono; [apply (define_runs ch)|cbn beta] | eapply runs_mono; [apply (define_runs ch)|cbn beta]];
  [eapply chain_of_prefix; [|eassumption]; solve_prefix|intros [] s1 (Q & X); noteq Q].
Ltac resolved X6 := apply X6; cbn [fmap list_fmap app]; ext_done.

Lemma good_logic k lhs rhs : good lhs -> good rhs -> good (EXPR_LOGIC k lhs rhs).
Proof.
  intros IH1 IH2. case_start.
  use (IH1 B) i1 s1 X1 C1. onew (emit_runs B) ltac:(destruct k; byte) s2 X2. label B kl s3 X3 Hch.
  onew (pop_runs B) lia s4 X4. use (IH2 B) i2 s5 X5 C2. define [kl] s6 X6 Q.
  specialize (X3 (num_bytes s5)). eexists. split; [resolved X6|]. intros L HL. cbn [code_e]. exists i1, i2.
  split; [|split; [code_at C1|code_at C2]]. shape.
Qed.

(** Around the part where [$] is another place. *)
Ltac unsave :=
  repeat match goal with
  | H : context [num_bytes (set_saved ?v ?s)] |- _ => change (num_bytes (set_saved v s)) with (num_bytes s) in H
  | H : context [cur_stack (set_saved ?v ?s)] |- _ => change (cur_stack (set_saved v s)) with (cur_stack s) in H
  | H : context [saved_stack (set_saved ?v ?s)] |- _ => change (saved_stack (set_saved v s)) with v in H
  | H : context [lits_ok (set_saved ?v ?s)] |- _ => change (lits_ok (set_saved v s)) with (lits_ok s) in H
  | H : context [g_literals (gstate (set_saved ?v ?s))] |- _ =>
      change (g_literals (gstate (set_saved v s))) with (g_literals (gstate s)) in H
  end.
Ltac save :=
  unfold save_stack_top; apply runs_bind, runs_bind, runs_get, runs_bind, runs_modify, runs_ret;
  rewrite uwrap_id by lia;
  match goal with |- context [with_stack (cur_stack ?s) (max_stack ?s) ?v ?s] =>
    change (with_stack (cur_stack s) (max_stack s) v s) with (set_saved v s) end.
Ltac restore X :=
  first [apply runs_bind, runs_modify | apply runs_modify];
  match goal with |- context [with_stack (cur_stack ?s) (max_stack ?s) ?v ?s] =>
    change (with_stack (cur_stack s) (max_stack s) v s) with (set_saved v s) end;
  apply ext_saved in X; note X; unsave.

Lemma set_saved_ready v s : 0 <= v < 256 -> forall inx d, 0 <= cur_stack s -> cur_stack s + d <= 255 -> lits_ok s -> ready inx (set_saved v s) d.
Proof. intros Hv inx d H1 H2 H3. split; [done|]. split; [done|]. split; [done|]. intros _. exact Hv. Qed.

Lemma good_index lhs rhs : good lhs -> good rhs -> good (EXPR_INDEX lhs rhs).
Proof.
  intros IH1 IH2. case_start. use (IH1 B) i1 s1 X1 C1. save.
  assert (Hr : ready true (set_saved (cur_stack s1 - 1) s1) (depth_e rhs)) by (apply set_saved_ready; auto; lia).
  use (IH2 B) i2 s2 X2 C2. restore X2.
  set (s2' := set_saved (saved_stack s1) s2) in *.
  one (emit_runs B) s3 X3. onew (pop_runs B) lia s4 X4.
  eexists. split; [ext_done|]. intros L HL. cbn [code_e]. exists i1, i2. split; [shape|]. split; [code_at C1|code_at C2].
Qed.

Lemma good_range base from to : good base -> good from -> good to -> good (EXPR_RANGE base from to).
Proof.
  intros IH1 IH2 IH3. case_start. use (IH1 B) i1 s1 X1 C1. save.
  assert (Hr : ready true (set_saved (cur_stack s1 - 1) s1) (depth_e from)) by (apply set_saved_ready; auto; lia).
  use (IH2 B) i2 s2 X2 C2. unsave.
  assert (Hr2 : ready true s2 (depth_e to)) by (split; [lia|split; [lia|split; [auto|intros _; lia]]]).
  use (IH3 B) i3 s3 X3 C3. pose proof (ext_trans _ _ _ _ _ _ _ _ _ _ _ _ X2 X3) as X4. clear X2 X3.
  restore X4. set (s3' := set_saved (saved_stack s1) s3) in *.
  one (emit_runs B) s5 X5. onew (pop_runs B) lia s6 X6.
  eexists. split; [ext_done|]. intros L HL. cbn [code_e]. exists i1, i2, i3. split; [shape|].
  split; [code_at C1|split; [code_at C2|code_at C3]].
Qed.

Lemma good_cond c a b : good c -> good a -> good b -> good (EXPR_COND c a b).
Proof.
  intros IH1 IH2 IH3. case_start. use (IH1 B) i1 s1 X1 C1. one (emit_runs B) s2 X2. label B ke s3 X3 He.
  onew (pop_runs B) lia s4 X4. use (IH2 B) i2 s5 X5 C2. one (emit_runs B) s6 X6. label B kd s7 X7 Hd'.
  onew (pop_runs B) lia s8 X8. define [ke] s9 X9 Q. use (IH3 B) i3 s10 X10 C3. define [kd] s11 X11 Q'.
  specialize (X3 (num_bytes s8)). specialize (X7 (num_bytes s10)).
  assert (Y : ext B s (i1 ++ [Op OP_IF_QUES; Lab (num_bytes s8)] ++ i2 ++ [Op OP_JUMP; Lab (num_bytes s10)]) [(kd, num_bytes s10)] s9 0
    (Z.max (depth_e c) (depth_e a))) by (apply X9; cbn [fmap list_fmap app]; ext_done).
  clear X1 X2 X3 X4 X5 X6 X7 X8 X9.
  eexists. split; [resolved X11|]. intros L HL. cbn [code_e]. exists i1, i2, i3. split; [shape|].
  split; [code_at C1|split; [code_at C2|code_at C3]].
Qed.

Lemma good_args_nil : good_list ANil /\ good_more ANil.
Proof.
  split; case_start.
  - one (emit_runs B) s1 X1. onew (push_runs B) lia s2 X2. eexists. split; [ext_done|]. intros L HL. done.
  - apply runs_ret. exists []. split; [apply ext_refl|done].
Qed.

Lemma good_args_cons k e next : good e -> good_more next -> good_list (ACons k e next) /\ good_more (ACons k e next).
Proof.
  intros IH1 IH2. split; case_start.
  - use (IH1 B) i1 s1 X1 C1. onew (emit_runs B) ltac:(destruct k; byte) s2 X2. onew (pop_runs B) lia s3 X3. use (IH2 B) i2 s4 X4 C2.
    eexists. split; [ext_done|]. intros L HL. cbn [code_args]. exists i1, i2. split; [destruct k; shape|]. split; [code_at C1|code_at C2].
  - use (IH1 B) i1 s1 X1 C1. onew (emit_runs B) ltac:(destruct k; byte) s2 X2. onew (pop_runs B) lia s3 X3. use (IH2 B) i2 s4 X4 C2.
    eexists. split; [ext_done|]. intros L HL. cbn [code_more]. exists i1, i2. split; [destruct k; shape|]. split; [code_at C1|code_at C2].
Qed.

Lemma good_verb o v args : good o -> good v -> good_list args -> good (EXPR_VERB o v args).
Proof.
  intros IH1 IH2 IH3. case_start. use (IH1 B) i1 s1 X1 C1. use (IH2 B) i2 s2 X2 C2. use (IH3 B) i3 s3 X3 C3.
  unfold emit_call_verb_op. one (emit_runs B) s4 X4. onew (pop_runs B) lia s5 X5.
  eexists. split; [ext_done|]. intros L HL. cbn [code_e]. exists i1, i2, i3. split; [shape|].
  split; [code_at C1|split; [code_at C2|code_at C3]].
Qed.

Lemma good_call f args : good_list args -> good (EXPR_CALL f args).
Proof.
  intros IH1. case_start. use (IH1 B) i1 s1 X1 C1. one (emit_runs B) s2 X2. onew (emit_runs B) lia s3 X3.
  eexists. split; [ext_done|]. intros L HL. cbn [code_e]. exists i1. split; [rewrite uwrap_id by lia; shape|]. code_at C1.
Qed.

Lemma good_list_expr args : good_list args -> good (EXPR_LIST args).
Proof.
  intros IH1. case_start. use (IH1 B) i1 s1 X1 C1. exists i1. split; [ext_done|]. intros L HL. cbn [code_e]. code_at C1.
Qed.

Lemma good_id id : good (EXPR_ID id).
Proof.
  case_start. step (emit_var_runs B); [done|byte|]. intros [] s1 (i & X1 & C1). note X1. onew (push_runs B) lia s2 X2.
  exists i. split; [ext_done|]. intros L HL. exact C1.
Qed.

Lemma good_length : good EXPR_LENGTH.
Proof.
  case_start. apply runs_bind, runs_get. specialize (Hsv Hwf). destruct (Z.eqb_spec (saved_stack s) UINT_MAX) as [E|_]; [unfold UINT_MAX in E; lia|].
  cbn [negb]. one (emit_extended_runs B) s1 X1. onew (add_stack_ref_runs B) lia s2 X2. onew (push_runs B) lia s3 X3.
  eexists. split; [ext_done|]. intros L HL. cbn [code_e]. shape.
Qed.

Lemma good_codes codes : good_list codes -> forall B inx s, wf_args inx codes = true -> ready inx s (depth_args codes) ->
  gen_ok B (generate_codes codes) s 1 (depth_args codes) (fun L pc c sv i =>
    match codes with ANil => i = [Op (OPTIM_NUM_TO_OPCODE 0)] | _ => code_args L pc c sv codes i end).
Proof.
  intros IH. destruct codes as [|k e next]; [|exact IH]. case_start. unfold generate_codes.
  one (emit_runs B) s1 X1. onew (push_runs B) lia s2 X2. eexists. split; [ext_done|]. intros L HL. done.
Qed.

Lemma good_handler except : good_ptr except -> forall B inx s,
  match except with Null => true | Ptr e => wf_e inx e end = true -> 1 <= cur_stack s ->
  ready inx s (match except with Null => 0 | Ptr e => depth_e e - 1 end) ->
  gen_ok B (generate_handler except) s 0 (match except with Null => 0 | Ptr e => depth_e e - 1 end) (fun L pc c sv i =>
      match except with
      | Null => i = [Op (OPTIM_NUM_TO_OPCODE 1); Op OP_REF]
      | Ptr e => exists i4, i = [Op OP_POP] ++ i4 /\ code_e L (pc + 1) (c - 1) sv e i4
      end).
Proof.
  intros IH B inx s Hwf Hpos Hr. unfold gen_ok, generate_handler. destruct except as [|e]; destruct Hr as (Hc & Hd & Hl & Hsv); depths.
  - one (emit_runs B) s1 X1. one (emit_runs B) s2 X2. eexists. split; [ext_done|]. intros L HL. done.
  - one (emit_runs B) s1 X1. onew (pop_runs B) lia s2 X2. use (IH B) i3 s3 X3 C3. eexists. split; [ext_done|]. intros L HL. exists i3. split; [shape|]. code_at C3.
Qed.

Lemma good_catch try codes except : good try -> good_list codes -> good_ptr except -> good (EXPR_CATCH try codes except).
Proof.
  intros IH1 IH2 IH3. case_start.
  match goal with |- runs (?m ≫= _) _ _ => change m with (generate_codes codes) end.
  use (good_codes codes IH2 B) i1 s1 X1 C1. one (emit_extended_runs B) s2 X2. label B kh s3 X3 Hh. onew (push_runs B) lia s4 X4.
  one (emit_extended_runs B) s5 X5. onew (push_runs B) lia s6 X6. use (IH1 B) i2 s7 X7 C2.
  one (emit_extended_runs B) s8 X8. label B ke s9 X9 He. onew (pop_runs B) lia s10 X10. define [kh] s11 X11 Q.
  match goal with |- runs (?m ≫= _) _ _ => change m with (generate_handler except) end.
  assert (Hr : ready inx s11 (match except with Null => 0 | Ptr e => depth_e e - 1 end))
    by (split; [lia|split; [destruct except; lia|split; [auto 20|intros E; specialize (Hsv E); lia]]]).
  apply runs_bind. eapply runs_mono; [eapply (good_handler except IH3 B inx); [assumption|lia|exact Hr]|cbn beta].
  intros [] s12 (i3 & X12 & C3). note X12. define [ke] s13 X13 Q'.
  specialize (X3 (num_bytes s10)). specialize (X9 (num_bytes s12)).
  assert (Y : ext B s (i1 ++ [Op OP_EXTENDED; Op EOP_PUSH_LABEL; Lab (num_bytes s10); Op OP_EXTENDED; Op EOP_CATCH] ++
    i2 ++ [Op OP_EXTENDED; Op EOP_END_CATCH; Lab (num_bytes s12)]) [(ke, num_bytes s12)] s11 1
    (Z.max (depth_args codes) (3 + depth_e try))) by (apply X11; cbn [fmap list_fmap app]; ext_done).
  clear X1 X2 X3 X4 X5 X6 X7 X8 X9 X10 X11.
  eexists. split; [apply X13; cbn [fmap list_fmap app]; destruct except; depths; ext_done|].
  intros L HL. cbn [code_e]. exists i1, i2, i3. split; [shape|].
  split; [destruct codes; [exact (C1 L ltac:(solve_prefix))|code_at C1]|]. split; [code_at C2|].
  specialize (C3 L ltac:(solve_prefix)). destruct except as [|e]; [exact C3|]. destruct C3 as (i4 & -> & C3).
  exists i4. split; [done|]. items.
  match type of C3 with ?P ?a ?b ?c ?e ?i => match goal with |- ?P ?a' ?b' ?c' _ _ =>
     replace a' with a by lia; replace b' with b by lia; replace c' with c by lia end end. exact C3.
Qed.

(** *** Assignments *)

Lemma lv_size_above e inx : wf_lv inx true e = true -> lv_size e true = lv_size e false + 1.
Proof. destruct e; try done; intros _; cbn [lv_size]; lia. Qed.

Ltac lv_start :=
  let B := fresh "B" in let inx := fresh "inx" in let above := fresh "above" in let s := fresh "s" in
  intros B inx above s Hwf (Hc & Hd & Hl & Hsv); unfold gen_ok;
  cbn [wf_e wf_lv depth_e depth_lv lv_size push_lvalue] in *;
  repeat match goal with H : andb _ _ = true |- _ => apply andb_true_iff in H as [? ?] end; depths.

Lemma good_lv_range base from to : good_lv base -> good from -> good to -> good_lv (EXPR_RANGE base from to).
Proof.
  intros IH1 IH2 IH3. lv_start. use (IH1 B) i1 s1 X1 C1.
  assert (1 <= lv_size base true) by (rewrite (lv_size_above base inx) by done; pose proof (depth_lv_pos base false); lia). save.
  assert (Hr : ready true (set_saved (cur_stack s1 - 1) s1) (depth_e from)) by (apply set_saved_ready; auto; lia).
  use (IH2 B) i2 s2 X2 C2. unsave.
  assert (Hr2 : ready true s2 (depth_e to)) by (split; [lia|split; [lia|split; [auto|intros _; lia]]]).
  use (IH3 B) i3 s3 X3 C3. pose proof (ext_trans _ _ _ _ _ _ _ _ _ _ _ _ X2 X3) as X4. clear X2 X3.
  restore X4. set (s3' := set_saved (saved_stack s1) s3) in *.
  eexists. split; [ext_done|]. intros L HL. cbn [code_lv]. exists i1, i2, i3. split; [shape|].
  split; [|split; [code_at C2|code_at C3]].
  assert (HC := C1 L ltac:(solve_prefix)). exact HC.
Qed.

Lemma good_lv_index lhs rhs : good_lv lhs -> good rhs -> good_lv (EXPR_INDEX lhs rhs).
Proof.
  intros IH1 IH2. lv_start. use (IH1 B) i1 s1 X1 C1.
  assert (1 <= lv_size lhs true) by (rewrite (lv_size_above lhs inx) by done; pose proof (depth_lv_pos lhs false); lia). save.
  assert (Hr : ready true (set_saved (cur_stack s1 - 1) s1) (depth_e rhs)) by (apply set_saved_ready; auto; lia).
  use (IH2 B) i2 s2 X2 C2. restore X2. set (s2' := set_saved (saved_stack s1) s2) in *.
  destruct above.
  - one (emit_runs B) s3 X3. onew (push_runs B) lia s4 X4. eexists. split; [ext_done|]. intros L HL. cbn [code_lv]. exists i1, i2.
    split; [shape|]. split; [exact (C1 L ltac:(solve_prefix))|code_at C2].
  - apply runs_ret. eexists. split; [ext_done|]. intros L HL. cbn [code_lv]. exists i1, i2.
    split; [shape|]. split; [exact (C1 L ltac:(solve_prefix))|code_at C2].
Qed.

Lemma good_lv_id id : good_lv (EXPR_ID id).
Proof.
  lv_start. destruct above.
  - step (emit_var_runs B); [done|byte|]. intros [] s1 (i & X1 & C1). note X1. onew (push_runs B) lia s2 X2.
    exists i. split; [ext_done|]. intros L HL. exact C1.
  - apply runs_ret. exists []. split; [apply ext_refl|]. intros L HL. done.
Qed.

Lemma good_lv_prop lhs rhs : good lhs -> good rhs -> good_lv (EXPR_PROP lhs rhs).
Proof.
  intros IH1 IH2. lv_start. use (IH1 B) i1 s1 X1 C1. use (IH2 B) i2 s2 X2 C2. destruct above.
  - one (emit_runs B) s3 X3. onew (push_runs B) lia s4 X4. eexists. split; [ext_done|]. intros L HL. cbn [code_lv]. exists i1, i2.
    split; [shape|]. split; [code_at C1|code_at C2].
  - apply runs_ret. eexists. split; [ext_done|]. intros L HL. cbn [code_lv]. exists i1, i2.
    split; [shape|]. split; [code_at C1|code_at C2].
Qed.

Lemma assign_runs B inx e : forall above s, wf_lv inx above e = true ->
  runs (assign_loop e) s (fun _ s' => exists i, ext B s i [] s' (- lv_size e false) 0 /\ code_assign e i).
Proof.
  induction e; intros above s Hwf; try discriminate Hwf; cbn [wf_lv assign_loop lv_size code_assign] in *;
    repeat match goal with H : andb _ _ = true |- _ => apply andb_true_iff in H as [? ?] end.
  - last (emit_var_runs B); [done|byte|]. intros [] s1 (i & X1 & C1). exists i. split; [exact X1|exact C1].
  - one (emit_runs B) s1 X1. onew (pop_runs B) lia s2 X2. eexists. split; [ext_done|done].
  - pose proof (lv_size_above e1 inx ltac:(assumption)).
    one (emit_runs B) s1 X1. onew (pop_runs B) lia s2 X2. apply (runs_mono _ _ _ _ (IHe1 true _ ltac:(eassumption))). intros [] s3 (i & X3 & C3).
    eexists. split; [ext_done|]. exists i. split; [shape|done].
  - pose proof (lv_size_above e1 inx ltac:(assumption)).
    one (emit_extended_runs B) s1 X1. onew (pop_runs B) lia s2 X2. apply (runs_mono _ _ _ _ (IHe1 true _ ltac:(eassumption))). intros [] s3 (i & X3 & C3).
    eexists. split; [ext_done|]. exists i. split; [shape|done].
Qed.

Lemma good_asgn lhs rhs : (forall sc, lhs <> EXPR_SCATTER sc) -> good_lv lhs -> good rhs -> good (EXPR_ASGN lhs rhs).
Proof.
  intros Hns IH1 IH2 B inx s Hwf Hr. unfold gen_ok.
  assert (Ew : wf_e inx (EXPR_ASGN lhs rhs) = wf_lv inx false lhs && wf_e inx rhs) by (destruct lhs; done || by destruct (Hns scatter)).
  assert (Ed : depth_e (EXPR_ASGN lhs rhs) = Z.max (depth_lv lhs false) (lv_size lhs false + depth_e rhs)) by (destruct lhs; done || by destruct (Hns scatter)).
  assert (Eg : generate_expr (EXPR_ASGN lhs rhs) = (
      push_lvalue lhs false;;
      generate_expr rhs;;
      (if is_indexed lhs then emit_byte OP_PUT_TEMP else mret tt);;
      assign_loop lhs;;
      (if is_indexed lhs then emit_byte OP_POP;; emit_byte OP_PUSH_TEMP else mret tt))) by (destruct lhs; done || by destruct (Hns scatter)).
  rewrite Ew in Hwf. apply andb_true_iff in Hwf as [Hw1 Hw2]. rewrite Ed in *. rewrite Eg. destruct Hr as (Hc & Hd & Hl & Hsv). depths.
  use (IH1 B) i1 s1 X1 C1. use (IH2 B) i2 s2 X2 C2.
  apply runs_bind. apply (runs_mono _ _ (fun _ s3 => ext B s2 (if is_indexed lhs then [Op OP_PUT_TEMP] else []) [] s3 0 0)).
  { destruct (is_indexed lhs); [apply (emit_runs B); byte|apply runs_ret, ext_refl]. }
  intros [] s3 X3. note X3. apply runs_bind. eapply runs_mono; [by apply (assign_runs B inx lhs false)|cbn beta]. intros [] s4 (i3 & X4 & C3). note X4.
  apply (runs_mono _ _ (fun _ s5 => ext B s4 (if is_indexed lhs then [Op OP_POP; Op OP_PUSH_TEMP] else []) [] s5 0 0)).
  { destruct (is_indexed lhs); [|apply runs_ret, ext_refl]. clear X1 X2 X3 X4. one (emit_runs B) s5 X5. one (emit_runs B) s6 X6. ext_done. }
  intros [] s5 X5. note X5.
  eexists. split; [ext_done|]. intros L HL.
  assert (HC1 := C1 L ltac:(solve_prefix)).
  assert (HC2 : code_e L (num_bytes s + ilen i1) (cur_stack s + lv_size lhs false) (saved_stack s) rhs i2) by code_at C2.
  destruct lhs; try discriminate Hw1; cbn [code_e]; exists i1, i2, i3; (split; [reflexivity|split; [exact HC1|split; [exact HC2|exact C3]]]).
Qed.

(** *** Scattering assignments *)

Lemma chain_single nx k : nx !! k = Some (-1) -> chain_of nx (Z.of_nat k) [k].
Proof. intros H. split; [done|]. exists (-1). split; [done|]. split; [lia|done]. Qed.

Ltac notek K :=
  pose proof (k_cur _ _ _ _ K); pose proof (k_bytes _ _ _ _ K); pose proof (k_saved _ _ _ _ K);
  pose proof (k_lits_ok _ _ _ _ K); pose proof (k_lits _ _ _ _ K); pose proof (k_nexts _ _ _ _ K).

Lemma header_runs B sc : forall inx s, wf_scatter inx sc = true ->
  runs (scatter_header sc) s (fun labels s' => exists ks, labels = map Z.of_nat ks /\ length ks = optionals sc /\
    (forall k, k ∈ ks -> nexts s' !! k = Some (-1)) /\
    exists len, kept s s' len 0 /\
    forall ts, length ts = length ks -> exists i, ext B s i (zip ks ts) s' 0 0 /\ ilen i = len /\ code_targets sc ts i).
Proof.
  induction sc as [|kind id expr next IH]; intros inx s Hwf; cbn [wf_scatter scatter_header] in *;
    repeat match goal with H : andb _ _ = true |- _ => apply andb_true_iff in H as [? ?] end.
  - apply runs_ret. exists []. split; [done|]. split; [done|]. split; [by intros k ?%elem_of_nil|]. exists 0. split; [by split; rewrite ?Z.add_0_r|].
    intros [|]; [|done]. intros _. exists []. split; [apply ext_refl|done].
  - step (add_var_ref_runs B); [by apply slot_ok_range|]. intros [] s1 X1. note X1.
    assert (Hpseudo : forall v, (forall ts i, code_targets next ts i -> code_targets (SCons kind id expr next) ts ([Ref FIXUP_VAR_REF id; Pseudo v] ++ i)) ->
      optionals (SCons kind id expr next) = optionals next ->
      runs (add_pseudo_label v;; scatter_header next) s1 (fun labels s' => exists ks, labels = map Z.of_nat ks /\ length ks = optionals next /\
        (forall k, k ∈ ks -> nexts s' !! k = Some (-1)) /\
        exists len, kept s s' len 0 /\
        forall ts, length ts = length ks -> exists i, ext B s i (zip ks ts) s' 0 0 /\ ilen i = len /\ code_targets (SCons kind id expr next) ts i)).
    { intros v Hcode Ho. step (add_pseudo_label_runs B). intros [] s2 X2. note X2.
      eapply runs_mono; [by eapply IH|]. intros labels s3 (ks & -> & Hn & Hks & len & K & Hts). notek K. exists ks. split; [done|]. split; [done|]. split; [done|].
      exists (2 + len). split; [split; items; try lia; auto 10; solve_prefix|].
      intros ts Hlen. destruct (Hts ts Hlen) as (i & X3 & Hi & Hc).
      exists ([Ref FIXUP_VAR_REF id; Pseudo v] ++ i). split; [|split; [items; lia|by apply Hcode]]. ext_done. }
    destruct kind, expr as [|e]; cbn [code_targets] in *; try discriminate;
      try (apply Hpseudo; [|done]; intros ts i Hi; eexists _, _; split; [done|]; done).
    step (add_label_runs B). intros l s2 (k & X2 & -> & Hk & _). pose proof (X2 0) as X2'. note X2'. clear X2'.
    apply runs_bind. eapply runs_mono; [by eapply IH|cbn beta]. intros labels s3 (ks & -> & Hn & Hks & len & K & Hts). notek K. apply runs_ret.
    exists (k :: ks). split; [done|]. split; [cbn; lia|]. split.
    { intros k' [->|Hk']%elem_of_cons; [by eapply prefix_lookup_Some|auto]. }
    exists (2 + len). split; [split; items; try lia; auto 10; solve_prefix|].
    intros [|t ts] Hlen; [done|]. destruct (Hts ts) as (i & X3 & Hi & Hc); [simpl in Hlen; lia|]. specialize (X2 t). cbn [zip zip_with].
    exists ([Ref FIXUP_VAR_REF id; Lab t] ++ i). split; [ext_done|]. split; [items; lia|]. eexists _, _. split; [done|]. by exists t, ts.
Qed.

Lemma defaults_runs B sc : good_defaults sc -> forall inx s ks, wf_scatter inx sc = true -> ready inx s (depth_defaults sc) ->
  length ks = optionals sc -> (forall k, k ∈ ks -> nexts s !! k = Some (-1)) ->
  runs (generate_defaults sc (map Z.of_nat ks)) s (fun _ s' => exists ts i, length ts = length ks /\ kept s s' (ilen i) 0 /\
    (forall L, g_literals (gstate s') `prefix_of` L -> code_defaults L (num_bytes s) (cur_stack s) (saved_stack s) sc ts i) /\
    forall s0 j N n d, ext B s0 j (zip ks ts ++ N) s n d -> cur_stack s = cur_stack s0 + n ->
      ext B s0 (j ++ i) N s' n (Z.max d (n + depth_defaults sc))).
Proof.
  induction sc as [|kind id expr next IH]; intros Hg inx s ks Hwf Hr Hn Hks; cbn [wf_scatter good_defaults] in *;
    repeat match goal with H : andb _ _ = true |- _ => apply andb_true_iff in H as [? ?] end.
  - destruct ks; [|done]. apply runs_ret. exists [], []. split; [done|]. split; [by split; rewrite ?Z.add_0_r|]. split; [done|].
    intros s0 j N n d X Hcur. cbn [zip zip_with app] in X. cbn [depth_defaults]. ext_done.
  - destruct Hg as [Hg1 Hg2].
    assert (Hskip : (match kind, expr with SCAT_OPTIONAL, Ptr _ => false | _, _ => true end) = true ->
      runs (generate_defaults next (map Z.of_nat ks)) s (fun _ s' => exists ts i, length ts = length ks /\ kept s s' (ilen i) 0 /\
        (forall L, g_literals (gstate s') `prefix_of` L -> code_defaults L (num_bytes s) (cur_stack s) (saved_stack s) (SCons kind id expr next) ts i) /\
        forall s0 j N n d, ext B s0 j (zip ks ts ++ N) s n d -> cur_stack s = cur_stack s0 + n ->
          ext B s0 (j ++ i) N s' n (Z.max d (n + depth_defaults (SCons kind id expr next))))).
    { intros Hk. assert (expr = Null) as -> by (destruct kind, expr; done).
      assert (Hn' : length ks = optionals next) by (destruct kind; exact Hn).
      eapply runs_mono; [apply (IH Hg2 inx); [done| |exact Hn'|exact Hks]; destruct Hr as (?&?&?&?); cbn [depth_defaults] in *; split; [lia|split; [lia|done]]|].
      intros [] s' (ts & i & Ht & K & HC & HX). exists ts, i. split; [done|]. split; [done|]. split; [destruct kind; exact HC|].
      intros s0 j N n d X Hcur. cbn [depth_defaults]. by apply HX. }
    destruct kind, expr as [|e]; cbn [generate_defaults]; try (by apply Hskip); try done. clear Hskip. cbn [good_ptr] in Hg1.
    destruct ks as [|k ks]; [done|]. cbn [map]. destruct Hr as (Hc & Hd & Hl & Hsv). cbn [depth_defaults] in *.
    apply runs_bind. eapply runs_mono; [apply (define_runs [k]); apply chain_single, Hks; by left|cbn beta]. intros [] s1 (Q & X). noteq Q. depths.
    use (Hg1 B) i1 s2 X2 C1. step (emit_var_runs B); [done|byte|]. intros [] s3 (i2 & X3 & C2). note X3.
    one (emit_runs B) s4 X4. onew (pop_runs B) lia s5 X5.
    assert (Hr5 : ready inx s5 (depth_defaults next)) by solve_ready.
    eapply runs_mono; [apply (IH Hg2 inx s5 ks); try done; [simpl in Hn; lia|]|].
    { intros k' Hk'. eapply prefix_lookup_Some; [apply Hks; by right|]. solve_prefix. }
    intros [] s6 (ts & i3 & Ht & K & C3 & HX). notek K.
    exists (num_bytes s :: ts), (i1 ++ i2 ++ [Op OP_POP] ++ i3). split; [simpl; lia|]. split; [|split].
    + split; items; try lia; auto 20; solve_prefix.
    + intros L HL. exists i1, i2, i3, ts. split; [done|]. split; [done|]. split; [code_at C1|]. split; [done|].
      assert (HC := C3 L ltac:(solve_prefix)). items.
      match type of HC with ?P ?a ?b ?c ?e _ _ => match goal with |- ?P ?a' ?b' ?c' _ _ _ =>
        replace a' with a by lia; replace b' with b by lia; replace c' with c by lia end end. exact HC.
    + intros s0 j N n d X0 Hcur.
      assert (Y : ext B s0 (j ++ i1 ++ i2 ++ [Op OP_POP]) (zip ks ts ++ N) s5 n (Z.max d (n + depth_e e))).
      { specialize (X B s0 j (zip ks ts ++ N) n d X0). clear X0. ext_done. }
      specialize (HX _ _ _ _ _ Y). eapply ext_conv; [apply HX; lia|by rewrite <- !app_assoc|done|lia|lia].
Qed.

Lemma scatter_counts_mono sc nargs nreq rest : 0 <= nargs -> 0 <= nreq <= nargs -> -1 <= rest <= nargs ->
  let '(nargs', nreq', rest') := scatter_counts sc nargs nreq rest in
  nargs <= nargs' /\ nreq <= nreq' <= nargs' /\ -1 <= rest' <= nargs'.
Proof.
  revert nargs nreq rest. induction sc as [|kind id expr next IH]; intros nargs nreq rest H1 H2 H3; cbn [scatter_counts]; [lia|].
  destruct kind.
  - specialize (IH (nargs + 1) (nreq + 1) rest). destruct (scatter_counts next _ _ _) as [[? ?] ?]. lia.
  - specialize (IH (nargs + 1) nreq rest). destruct (scatter_counts next _ _ _) as [[? ?] ?]. lia.
  - specialize (IH (nargs + 1) nreq (nargs + 1)). destruct (scatter_counts next _ _ _) as [[? ?] ?]. lia.
Qed.

Lemma zip_length_eq {A C} (k : list A) (l : list C) : length k = length l -> length (zip k l) = length k.
Proof. intros H. rewrite length_zip_with. lia. Qed.

Lemma good_scatter sc rhs : good_defaults sc -> good rhs -> good (EXPR_ASGN (EXPR_SCATTER sc) rhs).
Proof.
  intros IH1 IH2 B inx s Hwf Hr. unfold gen_ok. cbn [wf_e generate_expr depth_e] in *. unfold scatter_rest in Hwf.
  pose proof (scatter_counts_mono sc 0 0 (-1) ltac:(lia) ltac:(lia) ltac:(lia)) as Hcnt.
  destruct (scatter_counts sc 0 0 (-1)) as [[nargs nreq] rest] eqn:Ecnt. set (rest' := if rest =? -1 then nargs + 1 else rest) in *.
  assert (Hrest : 0 <= rest').
  { unfold rest'. destruct (Z.eqb_spec rest (-1)); lia. }
  repeat match goal with H : andb _ _ = true |- _ => apply andb_true_iff in H as [? ?] end.
  destruct Hr as (Hc & Hd & Hl & Hsv). depths.
  use (IH2 B) i1 s1 X1 C1. one (emit_extended_runs B) s2 X2. onew (emit_runs B) lia s3 X3. onew (emit_runs B) lia s4 X4. onew (emit_runs B) lia s5 X5.
  apply runs_bind. eapply runs_mono; [by eapply (header_runs B sc)|cbn beta]. intros labels s6 (ks & -> & Hn & Hks & len & K & Hts). notek K.
  label B kd s7 X7 Hd'.
  assert (Hr7 : ready inx s7 (depth_defaults sc)) by solve_ready.
  apply runs_bind. eapply runs_mono; [apply (defaults_runs B sc IH1 inx s7 ks); try done|cbn beta].
  { intros k Hk. eapply prefix_lookup_Some; [by apply Hks|done]. }
  intros [] s8 (ts & i3 & Ht & K' & C3 & HX). notek K'. define [kd] s9 X9 Q.
  destruct (Hts ts Ht) as (i2 & X6 & Hi2 & C2). specialize (X7 (num_bytes s8)).
  assert (Y : ext B s (i1 ++ [Op OP_EXTENDED; Op EOP_SCATTER; Op nargs; Op nreq; Op rest'] ++ i2 ++ [Lab (num_bytes s8)])
    (zip ks ts ++ [(kd, num_bytes s8)]) s7 1 (depth_e rhs)).
  { ext_join. match goal with H : ext B s _ _ s7 _ _ |- _ => eapply ext_conv; [exact H|by rewrite ?app_nil_r, <- ?app_assoc| |lia|lia] end.
    intros x. rewrite ?app_nil_r, ?elem_of_app. tauto. }
  apply HX in Y; [|lia].
  eexists. split; [apply X9; cbn [fmap list_fmap app]; eapply ext_conv; [exact Y|reflexivity|done|lia|lia]|].
  intros L HL. cbn [code_e]. exists i1, i2, i3, ts. split; [|split; [code_at C1|split; [done|]]].
  - rewrite Ecnt. rewrite !uwrap_id by (fold rest'; lia). fold rest'. shape.
  - assert (HC := C3 L ltac:(solve_prefix)). items.
    match type of HC with ?P ?a ?b ?c ?e _ _ => match goal with |- ?P ?a' ?b' ?c' _ _ _ =>
        replace a' with a by lia; replace b' with b by lia; replace c' with c by lia end end. exact HC.
Qed.

(** The induction. *)
Lemma good_all : (forall e, good e /\ good_lv e /\ (forall sc, e = EXPR_SCATTER sc -> good_defaults sc)) /\ (forall p, good_ptr p) /\
  (forall a, good_list a /\ good_more a) /\ (forall sc, good_defaults sc).
Proof.
  assert (Hno : forall e, (forall inx above, wf_lv inx above e = false) -> good_lv e).
  { intros e H B inx above s Hw. by rewrite H in Hw. }
  apply Expr_ind_all; intros;
    repeat match goal with H : _ /\ _ |- _ => destruct H end; try (split; [|split; [|by intros ? [= <-]||done]]); try (by apply Hno).
  all: try (first [ by apply good_var | by apply good_id | by apply good_lv_id | by apply good_prop | by apply good_lv_prop
    | by apply good_verb | by apply good_index | by apply good_lv_index | by apply good_range | by apply good_lv_range | by apply good_call
    | by apply good_binary | by apply good_unary | by apply good_logic | by apply good_list_expr | by apply good_cond | by apply good_catch
    | by apply good_length | by apply good_args_nil | by apply good_args_cons | done ]).
  - exact (good_var v).
  - assert ((exists sc, lhs = EXPR_SCATTER sc) \/ ~ exists sc, lhs = EXPR_SCATTER sc) as [[sc ->]|Hn] by (destruct lhs; try (right; intros [? ?]; done); left; eauto).
    + apply good_scatter; eauto.
    + apply good_asgn; auto. intros sc ->. apply Hn. by exists sc.
Qed.
Lemma expr_good e : good e.
Proof. apply good_all. Qed.
Lemma list_good a : good_list a.
Proof. apply good_all. Qed.
