(* ===== verification/CodeStmts.v ===== *)
(** * The code of statements and programs

    The rest of the generator: statements with their loops and handlers, the
    filling of the holes, and whole programs.  [generate_code_correct]: for
    the trees of the parser the generator succeeds and the program is their code. *)

From Stdlib Require Import SpecFloat.
From S2P Require Import Prelude Utf CString Values Db Ast CodeGen CodeSpec CodeProof.

(** ** Definitions *)

(** The variable of a [fork] or of a handler: -1 without one. *)
Definition opt_slot_ok (id : Z) : bool := (id =? -1) || slot_ok id.
Definition exit_ok (ids : list Z) (exit : Z) : bool :=
  if exit =? -1 then match ids with [] => false | _ => true end else slot_ok exit && existsb (Z.eqb exit) ids.

(** [ids]: the loops that [break] and [continue] can name, the innermost
    first; a fork begins afresh, with a stack of its own. *)
Fixpoint wf_s (ids : list Z) (st : Stmt) : bool :=
  match st with
  | STMT_COND arms otherwise => wf_arms ids arms && wf_ss ids otherwise
  | STMT_LIST id expr body => slot_ok id && wf_e false expr && wf_ss (id :: ids) body
  | STMT_RANGE id from to body => slot_ok id && wf_e false from && wf_e false to && wf_ss (id :: ids) body
  | STMT_WHILE id condition body => opt_slot_ok id && wf_e false condition && wf_ss (id :: ids) body
  | STMT_FORK id time body => opt_slot_ok id && wf_e false time && wf_ss [] body && (depth_ss body <=? 255)
  | STMT_EXPR expr => wf_e false expr
  | STMT_RETURN (Ptr expr) => wf_e false expr
  | STMT_RETURN Null => true
  | STMT_TRY_EXCEPT body excepts => wf_ss ids body && wf_handlers ids excepts && (arm_count excepts <? 256)
  | STMT_TRY_FINALLY body handler => wf_ss ids body && wf_ss ids handler
  | STMT_BREAK exit | STMT_CONTINUE exit => exit_ok ids exit
  end
with wf_ss (ids : list Z) (st : Stmts) : bool :=
  match st with SEnd => true | SNext st next => wf_s ids st && wf_ss ids next end
with wf_arms (ids : list Z) (arms : Cond_Arm) : bool :=
  match arms with CEnd => true | CArm condition stmt next => wf_e false condition && wf_ss ids stmt && wf_arms ids next end
with wf_handlers (ids : list Z) (ex : Except_Arm) : bool :=
  match ex with XEnd => true | XArm id codes stmt next => opt_slot_ok id && wf_args false codes && wf_ss ids stmt && wf_handlers ids next end.

(** A program of the parser with at most 256 variables that needs at most 255
    places on the stack. *)
Definition wf_program (st : Stmts) : bool := wf_ss [] st && (depth_ss st <=? 255).

(** *** What is to be shown of the generator *)

Definition envs (ls : list Loop) (B : list Z) : list Env :=
  zip_with (fun l b => mkEnv (l_id l) (f_value (l_top_label l)) (l_top_stack l) b (l_bottom_stack l)) ls B.

Record sready (ids : list Z) (s : State) (d : Z) : Prop := {
  r_cur : 0 <= cur_stack s /\ cur_stack s + d <= 255;
  r_lits : lits_ok s;
  r_saved : saved_stack s = UINT_MAX;
  r_ids : map l_id (loops s) = ids;
  r_chains : chains s;
  r_stacks : forall l, l ∈ loops s -> 0 <= l_top_stack l < 256 /\ 0 <= l_bottom_stack l < 256
}.

Definition sgen_ok (B : list Z) (m : M unit) (s : State) (d : Z)
    (C : list Var -> list Bytecodes -> list Env -> Z -> Z -> list item -> Prop) : Prop :=
  runs m s (fun _ s' => exists i, ext B s i [] s' 0 d /\
    forall L F, g_literals (gstate s') `prefix_of` L -> g_fork_vectors (gstate s') `prefix_of` F ->
      C L F (envs (loops s) B) (num_bytes s) (cur_stack s) i).

Definition good_s (st : Stmt) : Prop := forall ids s B, wf_s ids st = true -> sready ids s (depth_s st) -> length B = length ids ->
  sgen_ok B (generate_stmt st) s (depth_s st) (fun L F E pc c => code_s L F E pc c st).
Definition good_ss (st : Stmts) : Prop := forall ids s B, wf_ss ids st = true -> sready ids s (depth_ss st) -> length B = length ids ->
  sgen_ok B (generate_stmts st) s (depth_ss st) (fun L F E pc c => code_ss L F E pc c st).

Definition good_arms (arms : Cond_Arm) : Prop := forall ids s B if_op endl ch, wf_arms ids arms = true ->
  sready ids s (depth_arms arms) -> length B = length ids -> 0 <= if_op < 256 -> chain_of (nexts s) endl ch ->
  runs (generate_arms arms if_op endl) s (fun endl' s' => exists ks, chain_of (nexts s') endl' (ks ++ ch) /\
    forall t, exists i, ext B s i ((., t) <$> ks) s' 0 (depth_arms arms) /\
      forall L F, g_literals (gstate s') `prefix_of` L -> g_fork_vectors (gstate s') `prefix_of` F ->
        code_arms L F (envs (loops s) B) (num_bytes s) (cur_stack s) if_op t arms i).

Definition good_handlers (ex : Except_Arm) : Prop := forall ids s B ks endl ch, wf_handlers ids ex = true ->
  sready ids s (depth_handlers ex) -> length B = length ids -> Z.of_nat (length ks) = arm_count ex ->
  (forall k, k ∈ ks -> nexts s !! k = Some (-1)) -> chain_of (nexts s) endl ch ->
  runs (generate_handlers ex (map Z.of_nat ks) endl) s (fun endl' s' => exists ks' ts len, length ts = length ks /\
    chain_of (nexts s') endl' (ks' ++ ch) /\ kept s s' len 0 /\ g_fork_vectors (gstate s) `prefix_of` g_fork_vectors (gstate s') /\
    envs (loops s') B = envs (loops s) B /\
    forall t, exists i, ilen i = len /\
      (forall L F, g_literals (gstate s') `prefix_of` L -> g_fork_vectors (gstate s') `prefix_of` F ->
        code_handlers L F (envs (loops s) B) (num_bytes s) (cur_stack s) t ex ts i) /\
      forall s0 j N n d, ext B s0 j (zip ks ts ++ N) s n d -> cur_stack s = cur_stack s0 + n ->
        ext B s0 (j ++ i) (((., t) <$> ks') ++ N) s' n (Z.max d (n + depth_handlers ex))).

Definition glits_ok (g : GState) : Prop := Forall (fun v => wf_lit v = true) (g_literals g).

Definition sample_program : Stmts :=
  SNext (STMT_EXPR (EXPR_ASGN (EXPR_ID 17) (EXPR_LIST (ACons ARG_NORMAL (EXPR_VAR (VInt 1000)) ANil))))
  (SNext (STMT_LIST 33 (EXPR_ID 17)
     (SNext (STMT_COND (CArm (EXPR_BINARY EXPR_EQ (EXPR_ID 33) (EXPR_INDEX (EXPR_ID 17) EXPR_LENGTH)) (SNext (STMT_BREAK (-1)) SEnd) CEnd) SEnd)
     (SNext (STMT_TRY_EXCEPT (SNext (STMT_CONTINUE 33) SEnd) (XArm 34 ANil (SNext (STMT_RETURN (Ptr (EXPR_ID 34))) SEnd) XEnd)) SEnd)))
  (SNext (STMT_FORK (-1) (EXPR_VAR (VInt 5)) (SNext (STMT_RETURN Null) SEnd)) SEnd)).

(** [n] lists in one another, around [x] indexed by [$]. *)
Fixpoint nested (n : nat) : Expr :=
  match n with
  | O => EXPR_INDEX (EXPR_ID 0) EXPR_LENGTH
  | S n => EXPR_BINARY EXPR_PLUS (EXPR_ID 0) (nested n)
  end.

(** 255 required targets, without a rest. *)
Fixpoint targets (n : nat) : Scatter := match n with O => SNil | S n => SCons SCAT_REQUIRED 0 Null (targets n) end.

(** ** Lemmas *)

Lemma runs_forall_cond {A T} (P : T -> Prop) (t : T) (m : M A) s (Q : T -> A -> State -> Prop) :
  P t -> (forall t, P t -> runs m s (Q t)) -> runs m s (fun a s' => forall t, P t -> Q t a s').
Proof.
  intros Ht H. destruct (H t Ht) as (a & s' & E & _). exists a, s'. split; [done|]. intros t' Ht'.
  destruct (H t' Ht') as (a' & s'' & E' & HQ). congruence.
Qed.

Lemma same_loops_ids l l' : Forall2 same_loop l l' -> map l_id l' = map l_id l.
Proof. induction 1 as [|? ? ? ? (? & ? & ? & ?)]; cbn; congruence. Qed.
Lemma same_loops_envs l l' B : Forall2 same_loop l l' -> envs l' B = envs l B.
Proof.
  intros H. revert B. induction H as [|? ? ? ? (E1 & E2 & E3 & E4)]; intros B; [done|]. destruct B as [|b B]; [done|].
  unfold envs in *. cbn [zip_with]. rewrite E1, E2, E3, E4. f_equal. auto.
Qed.
Lemma same_loops_sym l l' : Forall2 same_loop l l' -> Forall2 same_loop l' l.
Proof. induction 1 as [|? ? ? ? (? & ? & ? & ?)]; constructor; [by repeat split|done]. Qed.

Lemma sready_ext ids s d B i N s' n d1 d2 : sready ids s d -> ext B s i N s' n d1 -> 0 <= cur_stack s + n -> cur_stack s + n + d2 <= 255 -> sready ids s' d2.
Proof.
  intros [] [] H1 H2. split; try lia; try congruence; auto.
  - by rewrite (same_loops_ids _ _ x_loops).
  - intros l' Hl'. apply list_elem_of_lookup in Hl' as [j Hj]. destruct (Forall2_lookup_r _ _ _ _ _ x_loops Hj) as (l & Hl & (E1 & E2 & E3 & E4)).
    rewrite <- E3, <- E4. apply r_stacks0. by eapply list_elem_of_lookup_2.
Qed.
Lemma sready_quiet ids s d s' : sready ids s d -> quiet s s' -> sready ids s' d.
Proof. intros [] []. split; try congruence; try lia. - unfold lits_ok. by rewrite q_gstate. - unfold chains. by rewrite q_loops, q_nexts. - by rewrite q_loops. Qed.
Lemma sready_le ids s d d' : sready ids s d -> d' <= d -> sready ids s d'.
Proof. intros [] H. split; try done. lia. Qed.
Lemma sready_ready ids s d : sready ids s d -> ready false s d.
Proof. intros []. split; [lia|]. split; [lia|]. split; [done|]. done. Qed.

(** An expression in a statement. *)
Lemma sexpr ids e B s : wf_e false e = true -> sready ids s (depth_e e) ->
  runs (generate_expr e) s (fun _ s' => exists i, ext B s i [] s' 1 (depth_e e) /\
    forall L (F : list Bytecodes), g_literals (gstate s') `prefix_of` L -> g_fork_vectors (gstate s') `prefix_of` F ->
      code_e L (num_bytes s) (cur_stack s) UINT_MAX e i).
Proof.
  intros Hw Hr. eapply runs_mono; [eapply expr_good; [exact Hw|by eapply sready_ready]|]. intros [] s' (i & X & C).
  exists i. split; [done|]. intros L F HL _. rewrite <- (r_saved _ _ _ Hr). by apply C.
Qed.

(** *** Tactics *)

Ltac snote B X :=
  note X; pose proof (x_forks _ _ _ _ _ _ _ X); pose proof (same_loops_envs _ _ B (x_loops _ _ _ _ _ _ _ X)).
Ltac snoteq Q :=
  noteq Q;
  match type of Q with quiet ?s ?s' =>
    assert (g_fork_vectors (gstate s) `prefix_of` g_fork_vectors (gstate s')) by (rewrite (q_gstate _ _ Q); done);
    pose proof (q_loops _ _ Q)
  end.
Ltac sone B L s1 X := first [step L; [try byte; try lia ..|] | last L; [try byte; try lia..|]]; intros [] s1 X; snote B X.
Ltac sonew B L tac s1 X := first [step L; [tac|] | last L; [tac|]]; intros [] s1 X; snote B X.
Ltac slabel B k s1 X Hn Hch :=
  step (add_label_runs B); intros ? s1 (k & X & -> & Hn & Hch);
  let t := fresh in pose proof (X 0) as t; snote B t; clear t.
Ltac sdefine ch s1 X Q :=
  first [apply runs_bind; eapply runs_mono; [apply (define_runs ch)|cbn beta] | eapply runs_mono; [apply (define_runs ch)|cbn beta]];
  [first [assumption | eapply chain_of_prefix; [|eassumption]; solve_prefix]|intros [] s1 (Q & X); snoteq Q].

(** The state is still ready. *)
Ltac ready_at s1 d :=
  match goal with
  | |- _ => idtac
  end;
  let H := fresh "Hr" in
  first [
    match goal with Hr : sready ?ids ?s _, X : ext _ ?s _ _ s1 _ _ |- _ =>
      assert (H : sready ids s1 d) by (apply (sready_ext ids s _ _ _ _ _ _ _ d Hr X); lia) end
  | match goal with Hr : sready ?ids ?s _, X : forall t, ext _ ?s _ _ s1 _ _ |- _ =>
      assert (H : sready ids s1 d) by (apply (sready_ext ids s _ _ _ _ _ _ _ d Hr (X 0)); lia) end
  | match goal with Hr : sready ?ids ?s _, Q : quiet ?s s1 |- _ =>
      assert (H : sready ids s1 d) by (eapply sready_le; [exact (sready_quiet _ _ _ _ Hr Q)|lia]) end ].

Ltac sstart :=
  let ids := fresh "ids" in let s := fresh "s" in let B := fresh "B" in let Hb := fresh "Hb" in
  intros ids s B Hwf Hr Hb; unfold sgen_ok;
  cbn [wf_s wf_ss wf_arms wf_handlers depth_s depth_ss depth_arms depth_handlers generate_stmt generate_stmts] in *;
  repeat match goal with H : andb _ _ = true |- _ => apply andb_true_iff in H as [? ?] end;
  pose proof (proj1 (r_cur _ _ _ Hr)); pose proof (proj2 (r_cur _ _ _ Hr)); depths.

Ltac sexp ids e B i s1 X C :=
  first [apply runs_bind; eapply runs_mono; [apply (sexpr ids e B)|cbn beta] | eapply runs_mono; [apply (sexpr ids e B)|cbn beta]];
  [assumption|first [assumption|eapply sready_le; [eassumption|lia]]|intros [] s1 (i & X & C)].

Ltac scode C :=
  let HC := fresh in
  match goal with HL : _ `prefix_of` ?L, HF : _ `prefix_of` ?F |- _ =>
    assert (HC := C L F ltac:(solve_prefix) ltac:(solve_prefix)) end;
  cbn beta in HC; items;
  repeat match goal with H : loops ?s = loops _ |- _ => rewrite H in HC | H : envs (loops ?s) ?B = _ |- _ => rewrite H in HC end;
  lazymatch type of HC with
  | code_e _ ?a ?b _ _ _ => match goal with |- code_e _ ?a' ?b' _ _ _ => replace a' with a by lia; replace b' with b by lia end
  | ?P ?a ?b ?e ?i => match goal with |- ?P ?a' ?b' _ _ => replace a' with a by lia; replace b' with b by lia end
  end; exact HC.

Lemma depth_stmts_pos : (forall st, 0 <= depth_s st) /\ (forall st, 0 <= depth_ss st) /\ (forall a, 0 <= depth_arms a) /\ (forall x, 0 <= depth_handlers x).
Proof.
  apply Stmt_ind_all; intros; cbn [depth_s depth_ss depth_arms depth_handlers];
    repeat match goal with e : Expr_ptr |- _ => destruct e end;
    repeat match goal with |- context [depth_e ?e] => lazymatch goal with _ : 1 <= depth_e e |- _ => fail | _ => pose proof (depth_pos e) end end; lia.
Qed.
Lemma depth_s_pos st : 0 <= depth_s st.
Proof. apply depth_stmts_pos. Qed.
Lemma depth_ss_pos st : 0 <= depth_ss st.
Proof. apply depth_stmts_pos. Qed.
Lemma depth_arms_pos st : 0 <= depth_arms st.
Proof. apply depth_stmts_pos. Qed.
Lemma depth_handlers_pos st : 0 <= depth_handlers st.
Proof. apply depth_stmts_pos. Qed.
Lemma depth_excepts_pos ex : 0 <= depth_excepts ex.
Proof. induction ex; cbn [depth_excepts]; [lia|]. pose proof (depth_args_pos codes). lia. Qed.
Lemma arm_count_pos ex : 0 <= arm_count ex.
Proof. induction ex; cbn [arm_count]; lia. Qed.

(** *** Simple statements *)

Lemma good_seq st next : good_s st -> good_ss next -> good_ss (SNext st next).
Proof.
  intros IH1 IH2. sstart. pose proof (depth_s_pos st). pose proof (depth_ss_pos next).
  apply runs_bind. eapply runs_mono; [apply (IH1 ids s B); [done|eapply sready_le; [done|lia]|done]|cbn beta].
  intros [] s1 (i1 & X1 & C1). snote B X1. ready_at s1 (depth_ss next).
  eapply runs_mono; [apply (IH2 ids s1 B); done|cbn beta]. intros [] s2 (i2 & X2 & C2). snote B X2.
  eexists. split; [ext_done|]. intros L F HL HF. cbn [code_ss]. exists i1, i2. split; [shape|]. split; [scode C1|]. scode C2.
Qed.

Lemma good_nil : good_ss SEnd.
Proof. sstart. apply runs_ret. exists []. split; [apply ext_refl|]. intros L F HL HF. done. Qed.

Lemma good_expr e : good_s (STMT_EXPR e).
Proof.
  sstart. sexp ids e B i1 s1 X1 C1. snote B X1. sone B (emit_runs B) s2 X2. last (pop_runs B); [lia|]. intros [] s3 X3. snote B X3.
  eexists. split; [ext_done|]. intros L F HL HF. cbn [code_s]. exists i1. split; [shape|scode C1].
Qed.

Lemma good_return p : good_s (STMT_RETURN p).
Proof.
  destruct p as [|e]; sstart; unfold emit_ending_op.
  - sone B (emit_runs B) s1 X1. eexists. split; [ext_done|]. done.
  - sexp ids e B i1 s1 X1 C1. snote B X1. sone B (emit_runs B) s2 X2. last (pop_runs B); [lia|]. intros [] s3 X3. snote B X3.
    eexists. split; [ext_done|]. intros L F HL HF. cbn [code_s]. exists i1. split; [shape|scode C1].
Qed.

Lemma good_finally body handler : good_ss body -> good_ss handler -> good_s (STMT_TRY_FINALLY body handler).
Proof.
  intros IH1 IH2. sstart. pose proof (depth_ss_pos body). pose proof (depth_ss_pos handler).
  sone B (emit_extended_runs B) s1 X1. slabel B k s2 X2 Hn Hch. sonew B (push_runs B) lia s3 X3.
  ready_at s1 (1 + depth_ss body). ready_at s2 (1 + depth_ss body). ready_at s3 (depth_ss body).
  apply runs_bind. eapply runs_mono; [apply (IH1 ids s3 B); done|cbn beta]. intros [] s4 (i1 & X4 & C1). snote B X4.
  sone B (emit_extended_runs B) s5 X5. step (pop_runs B); [lia|]. intros [] s6 X6. snote B X6. sdefine [k] s7 X7 Q.
  specialize (X2 (num_bytes s6)).
  assert (Y : ext B s ([Op OP_EXTENDED; Op EOP_TRY_FINALLY; Lab (num_bytes s6)] ++ i1 ++ [Op OP_EXTENDED; Op EOP_END_FINALLY]) []
    s7 0 (1 + depth_ss body)) by (apply X7; cbn [fmap list_fmap app]; ext_done).
  clear X1 X2 X3 X4 X5 X6. sonew B (push_runs B) lia s8 X8. ready_at s7 (2 + depth_ss handler). ready_at s8 (depth_ss handler).
  apply runs_bind. eapply runs_mono; [apply (IH2 ids s8 B); done|cbn beta]. intros [] s9 (i2 & X9 & C2). snote B X9.
  sone B (emit_extended_runs B) s10 X10. last (pop_runs B); [lia|]. intros [] s11 X11. snote B X11.
  eexists. split; [ext_done|]. intros L F HL HF. cbn [code_s]. exists i1, i2. split; [shape|]. split; [scode C1|]. scode C2.
Qed.

(** *** Conditionals *)

Lemma good_arms_nil : good_arms CEnd.
Proof.
  intros ids s B if_op endl ch Hwf Hr Hb Ho Hch. cbn [generate_arms]. apply runs_ret. exists []. split; [exact Hch|].
  intros t. exists []. split; [apply ext_refl|]. done.
Qed.

Lemma good_arms_cons c st next : good_ss st -> good_arms next -> good_arms (CArm c st next).
Proof.
  intros IH1 IH2 ids s B if_op endl ch Hwf Hr Hb Ho Hch. cbn [generate_arms wf_arms depth_arms] in *.
  repeat match goal with H : andb _ _ = true |- _ => apply andb_true_iff in H as [? ?] end.
  pose proof (r_cur _ _ _ Hr) as [Hc1 Hc2]. depths. pose proof (depth_ss_pos st). pose proof (depth_arms_pos next).
  sexp ids c B i1 s1 X1 C1. snote B X1. sone B (emit_runs B) s2 X2. slabel B ke s3 X3 Hn3 Hch3. step (pop_runs B); [lia|]. intros [] s4 X4. snote B X4.
  ready_at s1 0. ready_at s2 0. ready_at s3 0. ready_at s4 (depth_ss st).
  apply runs_bind. eapply runs_mono; [apply (IH1 ids s4 B); done|cbn beta]. intros [] s5 (i2 & X5 & C2). snote B X5.
  sone B (emit_runs B) s6 X6.
  step (add_linked_label_runs B endl ch); [eapply chain_of_prefix; [|exact Hch]; solve_prefix|].
  intros endl7 s7 (kd & X7 & -> & Hn7 & Hch7). pose proof (X7 0) as X7'. snote B X7'. clear X7'.
  sdefine [ke] s8 X8 Q. specialize (X3 (num_bytes s7)).
  assert (Y : forall t, ext B s (i1 ++ [Op if_op; Lab (num_bytes s7)] ++ i2 ++ [Op OP_JUMP; Lab t]) [(kd, t)] s8 0
    (Z.max (depth_e c) (depth_ss st))).
  { intros t. specialize (X7 t). apply X8; cbn [fmap list_fmap app]; ext_done. }
  clear X1 X2 X3 X4 X5 X6 X7 X8. ready_at s8 (depth_arms next).
  eapply runs_mono; [apply (IH2 ids s8 B OP_EIF (Z.of_nat kd) (kd :: ch)); try done; by eapply chain_of_prefix|cbn beta].
  intros endl9 s9 (ks & Hch9 & X9). exists (ks ++ [kd]). split; [by rewrite <- app_assoc|]. intros t. specialize (Y t).
  destruct (X9 t) as (i3 & X9' & C3). snote B X9'. clear X9.
  eexists. split.
  { ext_join. match goal with H : ext B s _ _ s9 _ _ |- _ => eapply ext_conv; [exact H|reflexivity| |lia|lia] end.
    intros x. rewrite fmap_app. cbn. tauto. }
  intros L F HL HF. cbn [code_arms]. exists i1, i2, i3. split; [shape|]. split; [scode C1|]. split; [scode C2|].
  assert (HC := C3 L F ltac:(solve_prefix) ltac:(solve_prefix)). items.
  repeat match goal with H : loops ?s = loops _ |- _ => rewrite H in HC | H : envs (loops ?s) ?B = _ |- _ => rewrite H in HC end.
  replace (cur_stack s8) with (cur_stack s) in HC by lia.
  replace (num_bytes s8) with (num_bytes s + ilen i1 + 2 + ilen i2 + 2) in HC by lia. exact HC.
Qed.

Lemma good_cond_stmt arms otherwise : good_arms arms -> good_ss otherwise -> good_s (STMT_COND arms otherwise).
Proof.
  intros IH1 IH2. sstart. pose proof (depth_arms_pos arms). pose proof (depth_ss_pos otherwise).
  apply runs_bind. eapply runs_mono; [apply (IH1 ids s B OP_IF (-1) []); try done; eapply sready_le; [done|lia]|cbn beta].
  intros endl s1 (ks & Hch & X1). destruct (X1 0) as (i0 & X0 & _). snote B X0. ready_at s1 (depth_ss otherwise). clear X0.
  apply runs_bind. eapply runs_mono; [apply (IH2 ids s1 B); done|cbn beta]. intros [] s2 (i2 & X2 & C2). snote B X2.
  rewrite app_nil_r in Hch. sdefine ks s3 X3 Q. destruct (X1 (num_bytes s2)) as (i1 & X1' & C1). snote B X1'.
  eexists. split; [apply X3; rewrite app_nil_r; ext_done|]. intros L F HL HF. cbn [code_s]. exists i1, i2. split; [shape|].
  split; [|scode C2].
  assert (HC := C1 L F ltac:(solve_prefix) ltac:(solve_prefix)). items.
  match type of HC with context [num_bytes s2] => replace (num_bytes s2) with (num_bytes s + (ilen i1 + ilen i2)) in HC by lia end. exact HC.
Qed.

(** *** Handlers *)

Lemma excepts_runs B ex : forall ids s, wf_handlers ids ex = true -> sready ids s (depth_excepts ex) ->
  runs (generate_excepts ex) s (fun labels s' => exists ks len, labels = map Z.of_nat ks /\ Z.of_nat (length ks) = arm_count ex /\
    (forall k, k ∈ ks -> nexts s' !! k = Some (-1)) /\
    forall ts, length ts = length ks -> exists i, ilen i = len /\
      ext B s i (zip ks ts) s' (2 * arm_count ex) (depth_excepts ex) /\
      forall L (F : list Bytecodes), g_literals (gstate s') `prefix_of` L -> g_fork_vectors (gstate s') `prefix_of` F ->
        code_excepts L (num_bytes s) (cur_stack s) ex ts i).
Proof.
  induction ex as [|id codes st next IH]; intros ids s Hwf Hr; cbn [generate_excepts wf_handlers depth_excepts arm_count] in *.
  - apply runs_ret. exists [], 0. split; [done|]. split; [done|]. split; [by intros k ?%elem_of_nil|]. intros [|]; [|done]. intros _.
    exists []. split; [done|]. split; [apply ext_refl|done].
  - repeat match goal with H : andb _ _ = true |- _ => apply andb_true_iff in H as [? ?] end.
    pose proof (r_cur _ _ _ Hr) as [Hc1 Hc2]. depths. pose proof (depth_excepts_pos next). pose proof (arm_count_pos next).
    apply runs_bind. eapply runs_mono; [eapply (good_codes codes (list_good codes) B false s); [assumption|]|cbn beta].
    { apply (sready_ready ids). eapply sready_le; [exact Hr|lia]. }
    intros [] s1 (i1 & X1 & C1). snote B X1. sone B (emit_extended_runs B) s2 X2. slabel B k s3 X3 Hn3 Hch3. sonew B (push_runs B) lia s4 X4.
    ready_at s1 1. ready_at s2 1. ready_at s3 1. ready_at s4 (depth_excepts next).
    apply runs_bind. eapply runs_mono; [by apply (IH ids s4)|cbn beta]. intros labels s5 (ks & len & -> & Hks & Hnx & HX). apply runs_ret.
    destruct (HX (replicate (length ks) 0)) as (i0 & _ & X0 & _); [by rewrite length_replicate|]. snote B X0. clear X0.
    exists (k :: ks), (ilen i1 + 3 + len). split; [done|]. split; [simpl; lia|]. split.
    { intros k' [->|Hk']%elem_of_cons; [|by apply Hnx]. eapply prefix_lookup_Some; [exact Hn3|solve_prefix]. }
    intros [|t ts] Hts; [done|]. destruct (HX ts) as (i2 & Hi2 & X5 & C2); [simpl in Hts; lia|]. specialize (X3 t).
    exists (i1 ++ [Op OP_EXTENDED; Op EOP_PUSH_LABEL; Lab t] ++ i2). split; [items; lia|]. split.
    + cbn [zip zip_with]. ext_done.
    + intros L F HL HF. cbn [code_excepts]. exists i1, i2, t, ts. split; [done|]. split; [done|]. split.
      * unfold code_codes. rewrite <- (r_saved _ _ _ Hr). exact (C1 L ltac:(solve_prefix)).
      * assert (HC := C2 L F ltac:(solve_prefix) ltac:(solve_prefix)). items.
        replace (num_bytes s4) with (num_bytes s + ilen i1 + 3) in HC by lia. replace (cur_stack s4) with (cur_stack s + 2) in HC by lia. exact HC.
Qed.

Lemma good_handlers_nil : good_handlers XEnd.
Proof.
  intros ids s B ks endl ch Hwf Hr Hb Hks Hnx Hch. destruct ks; [|simpl in Hks; lia]. apply runs_ret. exists [], [], 0.
  split; [done|]. split; [done|]. split; [by split; rewrite ?Z.add_0_r|]. split; [done|]. split; [done|]. intros t. exists [].
  split; [done|]. split; [done|]. intros s0 j N n d X Hc. cbn [zip zip_with app fmap list_fmap depth_handlers] in *. ext_done.
Qed.

(** The jump to the end, but not from the last handler. *)
Lemma handler_end B (next : Except_Arm) endl ch s : chain_of (nexts s) endl ch ->
  runs (match next with XEnd => mret endl | _ => emit_byte OP_JUMP;; add_linked_label endl end) s (fun endl' s' =>
    exists ks, chain_of (nexts s') endl' (ks ++ ch) /\
      forall t, ext B s (match next with XEnd => [] | _ => [Op OP_JUMP; Lab t] end) ((., t) <$> ks) s' 0 0).
Proof.
  intros Hch. destruct next as [|id codes st next].
  - apply runs_ret. exists []. split; [done|]. intros t. apply ext_refl.
  - step (emit_runs B); [byte|]. intros [] s1 X1. last (add_linked_label_runs B endl ch).
    { eapply chain_of_prefix; [apply (x_nexts _ _ _ _ _ _ _ X1)|done]. }
    intros endl' s2 (k & X2 & -> & _ & Hch2). exists [k]. split; [done|]. intros t. specialize (X2 t). cbn [fmap list_fmap]. ext_done.
Qed.

Lemma good_handlers_cons id codes st next : good_ss st -> good_handlers next -> good_handlers (XArm id codes st next).
Proof.
  intros IH1 IH2 ids s B ks endl ch Hwf Hr Hb Hks Hnx Hch. cbn [wf_handlers depth_handlers arm_count] in *. pose proof (arm_count_pos next).
  destruct ks as [|k ks]; [simpl in Hks; lia|]. cbn [map generate_handlers].
  repeat match goal with H : andb _ _ = true |- _ => apply andb_true_iff in H as [? ?] end.
  pose proof (r_cur _ _ _ Hr) as [Hc1 Hc2]. pose proof (depth_ss_pos st). pose proof (depth_handlers_pos next).
  apply runs_bind. eapply runs_mono; [apply (define_runs [k]); apply chain_single, Hnx; by left|cbn beta]. intros [] s1 (Q & X). snoteq Q.
  sonew B (push_runs B) lia s2 X2.
  apply runs_bind. apply (runs_mono _ _ (fun _ s3 => exists i, ext B s2 i [] s3 0 0 /\ (if 0 <=? id then code_var OP_PUT id i else i = []))).
  { destruct (Z.leb_spec 0 id) as [Hid|Hid]; [|apply runs_ret; exists []; split; [apply ext_refl|done]].
    last (emit_var_runs B); [|byte|].
    - match goal with H : opt_slot_ok id = true |- _ => unfold opt_slot_ok in H; apply orb_true_iff in H as [H|H]; [lia|done] end.
    - intros [] s3 (i & X3 & C3). exists i. done. }
  intros [] s3 (i1 & X3 & C1). snote B X3. sone B (emit_runs B) s4 X4. step (pop_runs B); [lia|]. intros [] s5 X5. snote B X5.
  ready_at s1 1. ready_at s2 0. ready_at s3 0. ready_at s4 0. ready_at s5 (depth_ss st).
  apply runs_bind. eapply runs_mono; [apply (IH1 ids s5 B); done|cbn beta]. intros [] s6 (i2 & X6 & C2). snote B X6.
  apply runs_bind. eapply runs_mono; [apply (handler_end B next endl ch); eapply chain_of_prefix; [|exact Hch]; solve_prefix|cbn beta].
  intros endl7 s7 (ks7 & Hch7 & X7). pose proof (X7 0) as X7'. snote B X7'. ready_at s6 0.
  assert (Hr7 : sready ids s7 (depth_handlers next)) by (apply (sready_ext ids s6 _ _ _ _ _ _ _ _ Hr5 X7'); lia). clear X7'.
  eapply runs_mono; [apply (IH2 ids s7 B ks endl7 (ks7 ++ ch)); try done; [simpl in Hks; lia|]|cbn beta].
  { intros k' Hk'. eapply prefix_lookup_Some; [apply Hnx; by right|]. solve_prefix. }
  intros endl8 s8 (ks8 & ts & len & Ht & Hch8 & K & HF8 & He8 & HX8). notek K.
  exists (ks8 ++ ks7), (num_bytes s :: ts), (ilen i1 + 1 + ilen i2 + (match next with XEnd => 0 | _ => 2 end) + len).
  split; [simpl; lia|]. split; [by rewrite <- app_assoc|].
  assert (Hn7 : forall t, ilen (match next with XEnd => [] | _ => [Op OP_JUMP; Lab t] end) = match next with XEnd => 0 | _ => 2 end) by (intros t; by destruct next).
  split; [split; items; rewrite ?(Hn7 0) in *; try lia; auto 20; solve_prefix|]. split; [solve_prefix|]. split; [congruence|].
  intros t. specialize (X7 t). destruct (HX8 t) as (i4 & Hi4 & C4 & HX). specialize (Hn7 t).
  set (i3 := match next with XEnd => [] | _ => [Op OP_JUMP; Lab t] end) in *.
  exists (i1 ++ [Op OP_POP] ++ i2 ++ i3 ++ i4). split; [items; lia|]. split.
  - intros L F HL HF. cbn [code_handlers]. exists i1, i2, i3, i4, ts. split; [done|]. split; [done|]. split; [done|]. split; [scode C2|]. split; [done|].
    assert (HC := C4 L F ltac:(solve_prefix) ltac:(solve_prefix)). items. rewrite Hn7.
    repeat match goal with H : loops ?s = loops _ |- _ => rewrite H in HC | H : envs (loops ?s) ?B = _ |- _ => rewrite H in HC end.
    replace (cur_stack s7) with (cur_stack s) in HC by lia.
    pose proof (x_bytes _ _ _ _ _ _ _ X7). replace (num_bytes s7) with (num_bytes s + ilen i1 + 1 + ilen i2 + match next with XEnd => 0 | _ => 2 end) in HC by lia. exact HC.
  - intros s0 j N n d X0 Hcur. clear HX8.
    specialize (X B s0 j (zip ks ts ++ N) n d X0). clear X0.
    assert (Y : ext B s0 (j ++ i1 ++ [Op OP_POP] ++ i2 ++ i3) (zip ks ts ++ ((., t) <$> ks7) ++ N) s7 n (Z.max d (n + Z.max 1 (depth_ss st)))).
    { ext_join. match goal with H : ext B s0 _ _ s7 _ _ |- _ => eapply ext_conv; [exact H|by rewrite <- ?app_assoc| |lia|lia] end.
      intros x. rewrite !elem_of_app. cbn. rewrite ?elem_of_nil. tauto. }
    specialize (HX _ _ _ _ _ Y ltac:(lia)). eapply ext_conv; [exact HX|by rewrite <- ?app_assoc| |lia|lia].
    intros x. rewrite fmap_app, !elem_of_app. tauto.
Qed.

Lemma good_try body excepts : good_ss body -> good_handlers excepts -> good_s (STMT_TRY_EXCEPT body excepts).
Proof.
  intros IH1 IH2. sstart. pose proof (depth_ss_pos body). pose proof (depth_handlers_pos excepts). pose proof (depth_excepts_pos excepts). pose proof (arm_count_pos excepts).
  apply runs_bind. eapply runs_mono; [apply (excepts_runs B excepts ids); [done|eapply sready_le; [exact Hr|lia]]|cbn beta].
  intros labels s1 (ks & len & -> & Hks & Hnx & HX1). rewrite length_map, Hks.
  destruct (HX1 (replicate (length ks) 0)) as (i0 & Hi0 & X0 & _); [by rewrite length_replicate|]. snote B X0. ready_at s1 (1 + depth_ss body). clear X0.
  sone B (emit_extended_runs B) s2 X2. sonew B (emit_runs B) lia s3 X3. sonew B (push_runs B) lia s4 X4.
  ready_at s2 (1 + depth_ss body). ready_at s3 (1 + depth_ss body). ready_at s4 (depth_ss body).
  apply runs_bind. eapply runs_mono; [apply (IH1 ids s4 B); done|cbn beta]. intros [] s5 (i2 & X5 & C2). snote B X5.
  sone B (emit_extended_runs B) s6 X6. slabel B ke s7 X7 Hn7 Hch7. step (pop_runs B); [lia|]. intros [] s8 X8. snote B X8.
  ready_at s5 0. ready_at s6 0. ready_at s7 0. ready_at s8 (depth_handlers excepts).
  apply runs_bind. eapply runs_mono; [apply (IH2 ids s8 B ks (Z.of_nat ke) [ke]); try done|cbn beta].
  { intros k Hk. eapply prefix_lookup_Some; [by apply Hnx|]. solve_prefix. }
  { eapply chain_of_prefix; [|exact Hch7]. solve_prefix. }
  intros endl s9 (ks9 & ts & len9 & Hts & Hch9 & K & HF9 & He9 & HX9). notek K. sdefine (ks9 ++ [ke]) s10 X10 Q.
  destruct (HX1 ts Hts) as (i1 & Hi1 & X1 & C1). destruct (HX9 (num_bytes s9)) as (i3 & Hi3 & C3 & HX). specialize (X7 (num_bytes s9)).
  assert (Y : ext B s (i1 ++ [Op OP_EXTENDED; Op EOP_TRY_EXCEPT; Op (arm_count excepts)] ++ i2 ++ [Op OP_EXTENDED; Op EOP_END_EXCEPT; Lab (num_bytes s9)])
    (zip ks ts ++ [(ke, num_bytes s9)]) s8 0 (Z.max (depth_excepts excepts) (2 * arm_count excepts + 1 + depth_ss body))).
  { clear HX1 HX9 HX. ext_join. match goal with H : ext B s _ _ s8 _ _ |- _ => eapply ext_conv; [exact H|by rewrite ?app_nil_r, <- ?app_assoc| |lia|lia] end.
    intros x. rewrite ?app_nil_r, ?elem_of_app, ?elem_of_nil. tauto. }
  apply HX in Y; [|lia].
  eexists. split.
  { apply X10. eapply ext_conv; [exact Y|reflexivity| |lia|lia]. intros x. rewrite fmap_app, !elem_of_app. cbn. rewrite ?elem_of_nil. tauto. }
  intros L F HL HF. cbn [code_s]. exists i1, i2, i3, ts. cbn zeta. rewrite Hts, Hks, uwrap_id by lia.
  match goal with |- context [Lab (num_bytes s + ilen ?X)] => replace (num_bytes s + ilen X) with (num_bytes s9) by (items; lia) end. items.
  pose proof (C1 L F ltac:(solve_prefix) ltac:(solve_prefix)) as HC1. split; [shape|]. split; [exact HC1|]. split; [scode C2|].
  assert (HC := C3 L F ltac:(solve_prefix) ltac:(solve_prefix)).
  repeat match goal with H : loops ?s = loops _ |- _ => rewrite H in HC | H : envs (loops ?s) ?B = _ |- _ => rewrite H in HC end.
  replace (cur_stack s8) with (cur_stack s) in HC by lia.
  replace (num_bytes s8) with (num_bytes s + ilen i1 + 3 + ilen i2 + 3) in HC by lia.
  exact HC.
Qed.

(** *** Loops *)

Lemma loop_runs (I : Z -> list item) body (K : Z -> M unit) (Q : unit -> State -> Prop) ids s0 s1 n d k f id ts bs B :
  good_ss body -> wf_ss (id :: ids) body = true -> length B = length ids -> chains s0 ->
  (forall t, ext B s0 (I t) [(k, t)] s1 n d) -> nexts s1 !! k = Some (-1) ->
  (forall t i0 X, holds s0 i0 B X -> top_ok (i0 ++ I t) f) ->
  sready ids s1 (depth_ss body) -> 0 <= ts < 256 -> 0 <= bs < 256 ->
  (forall endl s9 ch i2, chain_of (nexts s9) endl ch ->
     ext B s0 (I (num_bytes s9) ++ i2 ++ [Op OP_JUMP; Lab (f_value f)]) ((., num_bytes s9) <$> ch) s9 n (Z.max d (n + depth_ss body)) ->
     (forall L F, g_literals (gstate s9) `prefix_of` L -> g_fork_vectors (gstate s9) `prefix_of` F ->
       code_ss L F (mkEnv id (f_value f) ts (num_bytes s9) bs :: envs (loops s0) B) (num_bytes s1) (cur_stack s1) body i2) ->
     g_literals (gstate s1) `prefix_of` g_literals (gstate s9) -> g_fork_vectors (gstate s1) `prefix_of` g_fork_vectors (gstate s9) ->
     runs (K endl) s9 Q) ->
  runs (enter_loop id f ts (Z.of_nat k) bs;; generate_stmts body;; endl ← exit_loop; emit_byte OP_JUMP;; add_known_label f;; K endl) s1 Q.
Proof.
  intros IH Hwf Hb Hchains HX Hk Hf Hr Hts Hbs HK. pose proof (depth_ss_pos body).
  apply runs_bind, runs_modify. set (se := with_loops (mkLoop id f ts (Z.of_nat k) bs :: loops s1) s1).
  assert (Hre : sready (id :: ids) se (depth_ss body)).
  { destruct Hr. split; try done; cbn; [by f_equal| |].
    - intros l [->|Hl]%elem_of_cons; [|by apply r_chains0]. exists [k]. by apply chain_single.
    - intros l [->|Hl]%elem_of_cons; [done|by apply r_stacks0]. }
  apply runs_bind. eapply runs_mono.
  { apply (runs_forall_cond (fun B' : list Z => length B' = length (id :: ids)) (0 :: B)); [simpl; lia|].
    intros B' Hb'. apply (IH (id :: ids) se B'); done. }
  cbn beta. intros [] s2 H2. destruct (H2 (0 :: B)) as (j & X2 & _); [simpl; lia|]. note X2. pose proof (x_forks _ _ _ _ _ _ _ X2).
  pose proof (x_loops _ _ _ _ _ _ _ X2) as Hl. unfold se in Hl. cbn [loops with_loops] in Hl.
  destruct (loops s2) as [|l ls] eqn:El; [by apply Forall2_cons_nil_inv in Hl|]. clear X2.
  set (t := num_bytes s2 + 2). destruct (H2 (t :: B)) as (i2 & X2 & C2); [simpl; lia|]. clear H2. pose proof (x_bytes _ _ _ _ _ _ _ X2).
  destruct (loop_ext B s0 (I t) [] k t s1 n d id f ts bs i2 s2 (depth_ss body) l ls (HX t) Hk (Hf t) X2 Hchains El) as (ch & Hch & Htop & Y).
  apply runs_bind. exists (l_bottom_label l), (with_loops ls s2). split; [unfold exit_loop; by rewrite El|].
  step (emit_runs B); [byte|]. intros [] s3 X3. note X3. pose proof (x_forks _ _ _ _ _ _ _ X3).
  pose proof (ext_trans _ _ _ _ _ _ _ _ _ _ _ _ Y X3) as Y3.
  step (known_label_after B s0 _ _ s3 _ _ f Y3).
  { intros i0 X H'. rewrite <- app_assoc, app_assoc. by apply top_ok_app, (Hf t i0 X). }
  intros k4 s4 (Y4 & E1 & E2 & E3 & E4 & E5 & Hp4).
  assert (Et : num_bytes s4 = t).
  { items. change (num_bytes (with_loops ls s2)) with (num_bytes s2) in *. unfold t. lia. }
  change (gstate (with_loops ls s2)) with (gstate s2) in *. change (gstate se) with (gstate s1) in *. change (num_bytes se) with (num_bytes s1) in *.
  apply (HK (l_bottom_label l) s4 ch i2).
  - eapply chain_of_prefix; [exact Hp4|]. eapply chain_of_prefix; [apply (x_nexts _ _ _ _ _ _ _ X3)|exact Hch].
  - rewrite Et. eapply ext_conv; [exact Y4|by rewrite <- !app_assoc|intros x; rewrite ?elem_of_app, ?elem_of_nil; tauto|lia|lia].
  - rewrite Et, E4. intros L F HL HF. assert (HC := C2 L F ltac:(solve_prefix) ltac:(solve_prefix)).
    unfold se in HC. cbn [loops with_loops envs zip_with] in HC. fold (envs (loops s1) B) in HC.
    rewrite (same_loops_envs _ _ B (x_loops _ _ _ _ _ _ _ (HX t))) in HC. exact HC.
  - rewrite E4. solve_prefix.
  - rewrite E4. solve_prefix.
Qed.

(** The code of a loop begins here. *)
Lemma capture_after B s0 i n d s i' : ext B s0 i [] s n d -> forall i0 X, holds s0 i0 B X ->
  top_ok (i0 ++ i ++ i') (mkFixup FIXUP_LABEL 0 (num_bytes s) (num_literals s) (num_forks s) (num_var_refs s) (num_labels s) (num_stacks s) (-1)).
Proof. intros X i0 X0 H. rewrite app_assoc. apply top_ok_app. eapply capture_ok. by apply (x_adds _ _ _ _ _ _ _ X i0 X0). Qed.

Ltac split_wf := repeat match goal with H : andb _ _ = true |- _ => apply andb_true_iff in H as [? ?] end.

Lemma good_while id c body : good_ss body -> good_s (STMT_WHILE id c body).
Proof.
  intros IH. sstart. pose proof (depth_ss_pos body).
  apply runs_bind, runs_get. sexp ids c B i1 s1 X1 C1. snote B X1. ready_at s1 0.
  apply runs_bind. apply (runs_mono _ _ (fun _ s2 =>
    ext B s1 (if id =? -1 then [Op OP_WHILE] else [Op OP_EXTENDED; Op EOP_WHILE_ID; Ref FIXUP_VAR_REF id]) [] s2 0 0)).
  { destruct (Z.eqb_spec id (-1)) as [->|Hid]; [apply (emit_runs B); byte|].
    step (emit_extended_runs B); [byte|]. intros [] s2 X2. last (add_var_ref_runs B).
    - apply slot_ok_range. match goal with H : opt_slot_ok id = true |- _ => unfold opt_slot_ok in H; apply orb_true_iff in H as [H|H]; [lia|done] end.
    - intros [] s3 X3. clear X1. ext_done. }
  intros [] s2 X2. snote B X2. set (i2 := if id =? -1 then _ else _) in *. slabel B k s3 X3 Hn3 Hch3. step (pop_runs B); [lia|]. intros [] s4 X4. snote B X4.
  ready_at s2 0. ready_at s3 0. ready_at s4 (depth_ss body).
  apply runs_bind, runs_get.
  apply (loop_runs (fun t => i1 ++ i2 ++ [Lab t]) body _ _ ids s s4 0 (depth_e c) k _ id _ _ B); try done; try lia.
  - exact (r_chains _ _ _ Hr).
  - intros t. specialize (X3 t). ext_done.
  - eapply prefix_lookup_Some; [exact Hn3|solve_prefix].
  - intros t i0 X H'. exact (capture_after B s [] 0 0 s (i1 ++ i2 ++ [Lab t]) (ext_refl B s) i0 X H').
  - intros endl s9 ch i3 Hch9 Y C3 HL9 HF9. pose proof (x_bytes _ _ _ _ _ _ _ Y) as Hb9. clear X1 X2 X3 X4. sdefine ch s10 X10 Q.
    eexists. split; [apply X10; rewrite app_nil_r; eapply ext_conv; [exact Y|reflexivity|done|lia|lia]|].
    intros L F HL HF. cbn [code_s]. exists i1, i2, i3. cbn zeta. cbn [f_value] in *. items.
    split; [shape|]. split; [scode C1|]. split; [done|].
    assert (HC := C3 L F ltac:(solve_prefix) ltac:(solve_prefix)). items.
    replace (num_bytes s4) with (num_bytes s + ilen i1 + ilen i2 + 1) in HC by lia. replace (cur_stack s4) with (cur_stack s) in HC by lia.
    replace (num_bytes s9) with (num_bytes s + ilen i1 + ilen i2 + 1 + ilen i3 + 2) in HC by lia. exact HC.
Qed.

Lemma good_for_list id e body : good_ss body -> good_s (STMT_LIST id e body).
Proof.
  intros IH. sstart. pose proof (depth_ss_pos body). assert (Hid : 0 <= id < 256) by (by apply slot_ok_range).
  sexp ids e B i1 s1 X1 C1. snote B X1. sone B (emit_runs B) s2 X2. sonew B (push_runs B) lia s3 X3.
  apply runs_bind, runs_get. sone B (emit_runs B) s4 X4. sonew B (add_var_ref_runs B) lia s5 X5. slabel B k s6 X6 Hn6 Hch6.
  ready_at s1 0. ready_at s2 0. ready_at s3 0. ready_at s4 0. ready_at s5 0. ready_at s6 (depth_ss body).
  apply runs_bind, runs_get.
  apply (loop_runs (fun t => i1 ++ [Op (OPTIM_NUM_TO_OPCODE 1); Op OP_FOR_LIST; Ref FIXUP_VAR_REF id; Lab t]) body _ _ ids s s6 2 (Z.max (depth_e e) 2)
    k _ id _ _ B); try done; try lia.
  - exact (r_chains _ _ _ Hr).
  - intros t. specialize (X6 t). ext_done.
  - intros t i0 X H'.
    pose proof (ext_trans _ _ _ _ _ _ _ _ _ _ _ _ (ext_trans _ _ _ _ _ _ _ _ _ _ _ _ X1 X2) X3) as X13.
    pose proof (capture_after B s _ _ _ s3 [Op OP_FOR_LIST; Ref FIXUP_VAR_REF id; Lab t] X13 i0 X H') as Ht.
    rewrite !app_nil_r, <- !app_assoc in Ht. exact Ht.
  - intros endl s9 ch i3 Hch9 Y C3 HL9 HF9. pose proof (x_bytes _ _ _ _ _ _ _ Y) as Hb9. pose proof (x_cur _ _ _ _ _ _ _ Y) as Hc9.
    clear X1 X2 X3 X4 X5 X6. sdefine ch s10 X10 Q.
    assert (Y' : ext B s ((i1 ++ [Op (OPTIM_NUM_TO_OPCODE 1); Op OP_FOR_LIST; Ref FIXUP_VAR_REF id; Lab (num_bytes s9)]) ++ i3 ++ [Op OP_JUMP; Lab (num_bytes s3)]) []
      s10 2 (Z.max (Z.max (depth_e e) 2) (2 + depth_ss body))) by (apply X10; rewrite app_nil_r; exact Y).
    clear Y. last (pop_runs B); [lia|]. intros [] s11 X11. snote B X11.
    eexists. split; [ext_done|].
    intros L F HL HF. cbn [code_s]. exists i1, i3. cbn zeta. cbn [f_value] in *. items.
    split; [shape|]. split; [scode C1|].
    assert (HC := C3 L F ltac:(solve_prefix) ltac:(solve_prefix)). items.
    replace (num_bytes s6) with (num_bytes s + ilen i1 + 1 + 3) in HC by lia. replace (cur_stack s6) with (cur_stack s + 2) in HC by lia.
    replace (num_bytes s9) with (num_bytes s + ilen i1 + 1 + 3 + ilen i3 + 2) in HC by lia.
    replace (num_bytes s3) with (num_bytes s + ilen i1 + 1) in HC by lia. replace (cur_stack s + 2 - 2) with (cur_stack s) in HC by lia. exact HC.
Qed.

Lemma good_for_range id from to body : good_ss body -> good_s (STMT_RANGE id from to body).
Proof.
  intros IH. sstart. pose proof (depth_ss_pos body). assert (Hid : 0 <= id < 256) by (by apply slot_ok_range).
  sexp ids from B i1 s1 X1 C1. snote B X1. ready_at s1 (depth_e to). sexp ids to B i2 s2 X2 C2. snote B X2.
  apply runs_bind, runs_get. sone B (emit_runs B) s4 X4. sonew B (add_var_ref_runs B) lia s5 X5. slabel B k s6 X6 Hn6 Hch6.
  ready_at s2 0. ready_at s4 0. ready_at s5 0. ready_at s6 (depth_ss body).
  apply runs_bind, runs_get.
  apply (loop_runs (fun t => (i1 ++ i2) ++ [Op OP_FOR_RANGE; Ref FIXUP_VAR_REF id; Lab t]) body _ _ ids s s6 2 (Z.max (depth_e from) (1 + depth_e to))
    k _ id _ _ B); try done; try lia.
  - exact (r_chains _ _ _ Hr).
  - intros t. specialize (X6 t). ext_done.
  - intros t i0 X H'.
    pose proof (ext_trans _ _ _ _ _ _ _ _ _ _ _ _ X1 X2) as X13.
    exact (capture_after B s _ _ _ s2 [Op OP_FOR_RANGE; Ref FIXUP_VAR_REF id; Lab t] X13 i0 X H').
  - intros endl s9 ch i3 Hch9 Y C3 HL9 HF9. pose proof (x_bytes _ _ _ _ _ _ _ Y) as Hb9. pose proof (x_cur _ _ _ _ _ _ _ Y) as Hc9.
    clear X1 X2 X4 X5 X6. sdefine ch s10 X10 Q.
    assert (Y' : ext B s (((i1 ++ i2) ++ [Op OP_FOR_RANGE; Ref FIXUP_VAR_REF id; Lab (num_bytes s9)]) ++ i3 ++ [Op OP_JUMP; Lab (num_bytes s2)]) []
      s10 2 (Z.max (Z.max (depth_e from) (1 + depth_e to)) (2 + depth_ss body))) by (apply X10; rewrite app_nil_r; exact Y).
    clear Y. last (pop_runs B); [lia|]. intros [] s11 X11. snote B X11.
    eexists. split; [ext_done|].
    intros L F HL HF. cbn [code_s]. exists i1, i2, i3. cbn zeta. cbn [f_value] in *. items.
    split; [shape|]. split; [scode C1|]. split; [scode C2|].
    assert (HC := C3 L F ltac:(solve_prefix) ltac:(solve_prefix)). items.
    replace (num_bytes s6) with (num_bytes s + ilen i1 + ilen i2 + 3) in HC by lia. replace (cur_stack s6) with (cur_stack s + 2) in HC by lia.
    replace (num_bytes s9) with (num_bytes s + ilen i1 + ilen i2 + 3 + ilen i3 + 2) in HC by lia.
    replace (num_bytes s2) with (num_bytes s + ilen i1 + ilen i2) in HC by lia. replace (cur_stack s + 2 - 2) with (cur_stack s) in HC by lia. exact HC.
Qed.

(** *** [break] and [continue] *)

Lemma find_env_loops id ls B : length B = length ls -> find_env id (envs ls B) = find_loop id ls.
Proof.
  revert B. induction ls as [|l ls IH]; intros [|b B] Hb; try done. unfold envs. cbn [zip_with find_env find_loop e_id].
  destruct (l_id l =? id); [done|]. fold (envs ls B). by rewrite IH by (simpl in Hb; lia).
Qed.
Lemma find_loop_some id ls : existsb (Z.eqb id) (map l_id ls) = true -> exists j l, find_loop id ls = Some j /\ ls !! j = Some l.
Proof.
  induction ls as [|l ls IH]; [done|]. cbn [map existsb find_loop]. destruct (Z.eqb_spec (l_id l) id) as [E|E]; intros H.
  - by exists O, l.
  - apply orb_true_iff in H as [H|H]; [lia|]. destruct (IH H) as (j & l' & -> & Hj). by exists (S j), l'.
Qed.

Lemma find_loop_same ls ls' id : Forall2 same_loop ls ls' -> find_loop id ls' = find_loop id ls.
Proof. induction 1 as [|l l' ls ls' (E & _) _ IH]; [done|]. cbn [find_loop]. by rewrite <- E, IH. Qed.

Lemma runs_and {A} (R : A -> State -> Prop) (m : M A) s Q : runs m s Q -> (forall a s', m s = Some (a, s') -> R a s') ->
  runs m s (fun a s' => Q a s' /\ R a s').
Proof. intros (a & s' & E & HQ) HR. exists a, s'. auto. Qed.

(** Which loop is left. *)
Lemma exit_target_runs B ids exit s : exit_ok ids exit = true -> sready ids s 0 -> length B = length ids ->
  runs (if exit =? -1 then
         emit_extended_byte EOP_EXIT;;
         ls ← get loops;
         match ls with [] => panic | _ => mret O end
       else
         emit_extended_byte EOP_EXIT_ID;;
         add_var_ref exit;;
         ls ← get loops;
         match find_loop exit ls with None => panic | Some i => mret i end) s
    (fun j s' => exists i l, ext B s i [] s' 0 0 /\ loops s !! j = Some l /\
       ((exit = -1 /\ j = O /\ i = [Op OP_EXTENDED; Op EOP_EXIT]) \/
        (exit <> -1 /\ find_env exit (envs (loops s) B) = Some j /\ i = [Op OP_EXTENDED; Op EOP_EXIT_ID; Ref FIXUP_VAR_REF exit]))).
Proof.
  intros Hok Hr Hb. unfold exit_ok in Hok. destruct Hr. rewrite <- r_ids0 in *. rewrite length_map in Hb. destruct (Z.eqb_spec exit (-1)) as [->|Hne].
  - step (emit_extended_runs B); [byte|]. intros [] s1 X1. apply runs_bind, runs_get. pose proof (x_loops _ _ _ _ _ _ _ X1) as Hl.
    destruct (loops s) as [|l ls] eqn:El; [done|]. destruct (loops s1) as [|l' ls']; [by apply Forall2_cons_nil_inv in Hl|].
    apply runs_ret. exists [Op OP_EXTENDED; Op EOP_EXIT], l. split; [done|]. split; [done|]. left. done.
  - apply andb_true_iff in Hok as [Hs Hin]. destruct (find_loop_some exit (loops s) Hin) as (j & l & Ej & Hj).
    step (emit_extended_runs B); [byte|]. intros [] s1 X1. step (add_var_ref_runs B); [by apply slot_ok_range|]. intros [] s2 X2.
    apply runs_bind, runs_get. pose proof (ext_trans _ _ _ _ _ _ _ _ _ _ _ _ X1 X2) as X12.
    rewrite (find_loop_same _ _ exit (x_loops _ _ _ _ _ _ _ X12)), Ej. apply runs_ret.
    exists [Op OP_EXTENDED; Op EOP_EXIT_ID; Ref FIXUP_VAR_REF exit], l. split; [clear X12; ext_done|]. split; [done|]. right.
    split; [done|]. split; [by rewrite find_env_loops|done].
Qed.

Lemma envs_lookup ls B j l b : ls !! j = Some l -> B !! j = Some b ->
  envs ls B !! j = Some (mkEnv (l_id l) (f_value (l_top_label l)) (l_top_stack l) b (l_bottom_stack l)).
Proof. intros H1 H2. unfold envs. by rewrite lookup_zip_with, H1, H2. Qed.

Lemma exit_runs B ids cont exit s : exit_ok ids exit = true -> sready ids s 0 -> length B = length ids ->
  sgen_ok B (generate_exit cont exit) s 0 (fun L F E pc c => code_exit E cont exit).
Proof.
  intros Hok Hr Hb. unfold sgen_ok, generate_exit. pose proof (r_cur _ _ _ Hr) as [Hc1 Hc2].
  apply runs_bind. eapply runs_mono; [by apply (exit_target_runs B ids)|cbn beta]. intros j s1 (i0 & l0 & X1 & Hl0 & Hcode).
  apply runs_bind, runs_get. destruct (Forall2_lookup_l _ _ _ _ _ (x_loops _ _ _ _ _ _ _ X1) Hl0) as (l1 & Hl1 & Hs1). rewrite Hl1.
  destruct (lookup_lt_is_Some_2 B j) as [b Hb']; [rewrite Hb, <- (r_ids _ _ _ Hr), length_map; by eapply lookup_lt_Some|].
  pose proof (envs_lookup _ _ _ _ _ Hl0 Hb') as He. destruct (r_stacks _ _ _ Hr l0) as [Hts Hbs]; [by eapply list_elem_of_lookup_2|].
  destruct Hs1 as (E1 & E2 & E3 & E4). snote B X1.
  destruct cont.
  - rewrite <- E3. sonew B (add_stack_ref_runs B) lia s2 X2. rewrite <- E2.
    pose proof (ext_trans _ _ _ _ _ _ _ _ _ _ _ _ X1 X2) as X12.
    step (known_label_after B s _ _ s2 _ _ (l_top_label l0) X12).
    { intros i1 X Hh. apply top_ok_app, (h_tops _ _ _ _ Hh). by eapply list_elem_of_lookup_2. }
    intros k s3 (Y & _). apply runs_ret. eexists. split; [eapply ext_conv; [exact Y|reflexivity|done|lia|lia]|].
    intros L F HL HF. exists j, (mkEnv (l_id l0) (f_value (l_top_label l0)) (l_top_stack l0) b (l_bottom_stack l0)), i0.
    split; [done|]. split; [done|]. cbn. by rewrite <- app_assoc.
  - rewrite <- E4. apply runs_bind. eapply runs_mono; [apply (runs_and (fun _ s2 => loops s2 = loops s1)); [by apply (add_stack_ref_runs B)|by intros a s2 [= _ <-]]|cbn beta].
    intros [] s2 [X2 El2]. snote B X2.
    assert (Hch : exists ch, chain_of (nexts s2) (l_bottom_label l1) ch).
    { destruct (x_chains _ _ _ _ _ _ _ X1 (r_chains _ _ _ Hr) l1) as [ch Hch]; [by eapply list_elem_of_lookup_2|].
      exists ch. eapply chain_of_prefix; [apply (x_nexts _ _ _ _ _ _ _ X2)|done]. }
    destruct Hch as [ch Hch]. apply runs_bind.
    eapply runs_mono; [apply (runs_and (fun _ s3 => loops s3 = loops s2)); [apply (add_linked_label_runs B (l_bottom_label l1) ch); done|by intros a s3 [= _ <-]]|cbn beta].
    intros endl s3 [(k & X3 & -> & Hn3 & Hch3) El3]. specialize (X3 b). apply runs_modify.
    pose proof (ext_trans _ _ _ _ _ _ _ _ _ _ _ _ (ext_trans _ _ _ _ _ _ _ _ _ _ _ _ X1 X2) X3) as X13.
    assert (Y : ext B s ((i0 ++ [Ref FIXUP_STACK (l_bottom_stack l0)]) ++ [Lab b]) [(k, b)] s3 0 0).
    { eapply ext_conv; [exact X13|done|intros x; rewrite ?app_nil_r; done|lia|lia]. }
    destruct Hch3 as (_ & n & Hn & Hlt & _). assert (n = l_bottom_label l1) as -> by congruence.
    rewrite El3, El2. rewrite <- El2, <- El3. rewrite <- El2, <- El3 in Hl1.
    pose proof (relink_ext B s _ [] k b s3 0 0 j l1 Y Hl1 Hb' Hn Hlt) as Z1.
    eexists. split; [exact Z1|].
    intros L F HL HF. exists j, (mkEnv (l_id l0) (f_value (l_top_label l0)) (l_top_stack l0) b (l_bottom_stack l0)), i0.
    split; [done|]. split; [done|]. cbn. by rewrite <- app_assoc.
Qed.

Lemma good_break exit : good_s (STMT_BREAK exit).
Proof. intros ids s B Hwf Hr Hb. by apply (exit_runs B ids false exit s). Qed.
Lemma good_continue exit : good_s (STMT_CONTINUE exit).
Proof. intros ids s B Hwf Hr Hb. by apply (exit_runs B ids true exit s). Qed.

(** *** Filling the holes *)

Lemma isum_app z i j : isum z (i ++ j) = isum z i + isum z j.
Proof. induction i as [|x i IH]; cbn [app isum foldr]; [done|]. fold (isum z (i ++ j)) (isum z i). rewrite IH. lia. Qed.

Lemma isum_count z i : isum z i = ilen i + count FIXUP_LITERAL i * (s_literal z - 1) + count FIXUP_FORK i * (s_fork z - 1) +
  count FIXUP_VAR_REF i * (s_var_name z - 1) + count FIXUP_LABEL i * (s_label z - 1) + count FIXUP_STACK i * (s_stack z - 1).
Proof.
  induction i as [|x i IH]; [done|]. cbn [isum foldr count]. fold (isum z i). rewrite IH, ilen_cons.
  destruct x as [b|[]|t|v]; cbn [item_size kind_size is_ref];
    repeat match goal with |- context [bool_decide ?P] => let b := eval vm_compute in (bool_decide P) in change (bool_decide P) with b end; cbn match; lia.
Qed.

Section Filling.
Context (z : sizes) (Hz : forall k, size_ok (kind_size z k)) (Hstack : s_stack z = 1).

Lemma put_value_some k v : put_value (kind_size z k) v = Some (put_bytes (kind_size z k) v).
Proof. unfold put_bytes. destruct (Hz k) as [->|[->| ->]]; reflexivity. Qed.
Lemma put_bytes_length k v : Z.of_nat (length (put_bytes (kind_size z k) v)) = kind_size z k.
Proof. unfold put_bytes. destruct (Hz k) as [->|[->| ->]]; reflexivity. Qed.

Lemma item_size_pos x : 1 <= item_size z x.
Proof.
  destruct x as [b|k v|t|v]; cbn [item_size]; [lia| | |]; [destruct (Hz k) as [->|[->| ->]]; lia|..];
    destruct (Hz FIXUP_LABEL) as [E|[E|E]]; cbn [kind_size] in E; lia.
Qed.
Lemma isum_ilen i : ilen i <= isum z i.
Proof.
  induction i as [|x i IH]; [done|]. rewrite ilen_cons. cbn [isum foldr]. fold (isum z i). pose proof (item_size_pos x). lia.
Qed.
Lemma place_bound i t : 0 <= t < ilen i -> 0 <= place z i t < isum z i.
Proof.
  intros Ht. unfold place. pose proof (isum_ilen (take (Z.to_nat t) i)). pose proof (isum_ilen (drop (Z.to_nat t) i)).
  assert (ilen (drop (Z.to_nat t) i) = ilen i - t) as Hd by (unfold ilen in *; rewrite length_drop; lia).
  pose proof (ilen_nonneg (take (Z.to_nat t) i)).
  assert (isum z i = isum z (take (Z.to_nat t) i) + isum z (drop (Z.to_nat t) i)) by (by rewrite <- isum_app, take_drop). lia.
Qed.

Lemma put_item_length i x : Z.of_nat (length (put_item z i x)) = item_size z x.
Proof.
  destruct x as [b|k v|t|v]; cbn [put_item item_size]; [done| | |].
  - apply put_bytes_length.
  - apply (put_bytes_length FIXUP_LABEL).
  - apply (put_bytes_length FIXUP_LABEL).
Qed.
Lemma encode_length i : Z.of_nat (length (encode z i)) = isum z i.
Proof.
  unfold encode. generalize i at 1. intros j. induction i as [|x i IH]; [done|]. cbn [flat_map isum foldr]. fold (isum z i).
  rewrite length_app, Nat2Z.inj_add, IH, put_item_length. done.
Qed.

Lemma fixup_value_ok i p x f : fix_ok i (p, x) f -> is_ref FIXUP_STACK x = false \/ True ->
  put_bytes (fixup_size z f) (fixup_value z f) = put_item z i x.
Proof.
  intros (_ & Hs & H) _. destruct x as [b|k v|t|v]; cbn [snd] in H; [done| | |].
  - destruct H as (<- & <- & Hk). unfold fixup_size, fixup_value. destruct (f_kind f); done.
  - destruct H as (Ek & <- & Ht & E1 & E2 & E3 & E4). unfold fixup_size, fixup_value. rewrite Ek. cbn [put_item]. do 2 f_equal.
    unfold place. rewrite isum_count, Hstack, <- E1, <- E2, <- E3, <- E4, Hs.
    assert (ilen (take (Z.to_nat (f_value f)) i) = f_value f) as -> by (unfold ilen in *; rewrite length_take; lia). lia.
  - destruct H as (Ek & <- & E1 & E2 & E3 & E4). unfold fixup_size, fixup_value. rewrite Ek, E1, E2, E3, E4, Hs. cbn [put_item]. do 2 f_equal. lia.
Qed.

Lemma holes_fst pc i h : h ∈ holes pc i -> pc <= fst h.
Proof.
  revert pc. induction i as [|x i IH]; intros pc; cbn [holes]; [by intros ?%elem_of_nil|].
  destruct x; rewrite ?elem_of_cons; try (intros [->|H]; [simpl; lia|apply IH in H; lia]). intros H. apply IH in H. lia.
Qed.

Lemma fill_ok i suf pc fx : Forall2 (fix_ok i) (holes pc suf) fx ->
  fill_holes z pc (map old_byte suf) fx = Some (flat_map (put_item z i) suf).
Proof.
  revert pc fx. induction suf as [|x suf IH]; intros pc fx H; [done|]. cbn [map fill_holes flat_map].
  assert (Hhole : forall fx', holes pc (x :: suf) = (pc, x) :: holes (pc + 1) suf -> Forall2 (fix_ok i) (holes pc (x :: suf)) fx' ->
    exists f fx'', fx' = f :: fx'' /\ fix_ok i (pc, x) f /\ Forall2 (fix_ok i) (holes (pc + 1) suf) fx'').
  { intros fx' E H'. rewrite E in H'. apply Forall2_cons_inv_l in H' as (f & fx'' & Hf & Hfx & ->). eauto. }
  destruct x as [b|k v|t|v];
    try (destruct (Hhole fx eq_refl H) as (f & fx'' & -> & Hf & Hfx); pose proof (proj1 Hf) as Ef; cbn [fst] in Ef; rewrite Ef, Z.eqb_refl;
         unfold fixup_size at 1;
         replace (match f_kind f with FIXUP_LITERAL => s_literal z | FIXUP_FORK => s_fork z | FIXUP_VAR_REF => s_var_name z
                  | FIXUP_STACK => s_stack z | FIXUP_LABEL => s_label z end) with (kind_size z (f_kind f)) by (by destruct (f_kind f));
         rewrite put_value_some; cbn [mbind option_bind]; rewrite (IH _ _ Hfx); cbn [mbind option_bind];
         rewrite <- (fixup_value_ok i pc _ f Hf (or_intror I)); unfold fixup_size;
         by destruct (f_kind f)).
  cbn [holes] in H. cbn [old_byte put_item]. destruct fx as [|f fx].
  - rewrite (IH _ _ H). done.
  - assert (Hpc : f_pc f <> pc).
    { apply Forall2_cons_inv_r in H as (h & hs & Hh & Hhs & E). destruct Hh as [E' _]. rewrite E'.
      assert (Hin : h ∈ holes (pc + 1) suf) by (rewrite E; by left). apply holes_fst in Hin. lia. }
    destruct (Z.eqb_spec (f_pc f) pc); [lia|]. rewrite (IH _ _ H). done.
Qed.
End Filling.

Lemma ref_size_ok n : size_ok (ref_size n).
Proof. unfold ref_size, size_ok. destruct (n <=? 256); [auto|]. destruct (n <=? 256 * 256); auto. Qed.
Lemma ref_size_fits n v : 0 <= v < n -> fits (ref_size n) v.
Proof.
  intros Hv. unfold ref_size, fits. split; [lia|]. destruct (Z.leb_spec n 256); [right; change (256 ^ 1) with 256; lia|].
  destruct (Z.leb_spec n (256 * 256)); [right; change (256 ^ 2) with (256 * 256); lia|left; done].
Qed.
Lemma fits_256 n v : size_ok n -> 0 <= v < 256 -> fits n v.
Proof. intros [->|[->| ->]] Hv; (split; [lia|]); [right|right|left]; change (256 ^ 1) with 256; change (256 ^ 2) with 65536; lia. Qed.
Lemma fits_le n m v : 0 <= v -> v < m -> m <= n -> fits (ref_size n) v.
Proof. intros H1 H2 H3. apply ref_size_fits. lia. Qed.

Lemma holds_fixups s i : holds s i [] [] -> loops s = [] -> Forall2 (fix_ok i) (holes 0 i) (fixups s).
Proof.
  intros H El. apply Forall2_same_length_lookup_2; [symmetry; apply (h_len _ _ _ _ H)|]. intros k h f Hh Hf.
  destruct (h_fix _ _ _ _ H k h f Hh Hf) as [_ H2]. apply H2. intros [Hk|(l & ch & Hl & _)]; [by apply elem_of_nil in Hk|].
  rewrite El in Hl. by apply elem_of_nil in Hl.
Qed.

Lemma label_hole pc i t : Lab t ∈ i -> exists p, (p, Lab t) ∈ holes pc i.
Proof.
  revert pc. induction i as [|x i IH]; intros pc; [by intros ?%elem_of_nil|]. intros [<-|H]%elem_of_cons; cbn [holes].
  - exists pc. by left.
  - destruct (IH (pc + 1) H) as [p Hp]. exists p. destruct x; [done|right; done..].
Qed.
Lemma holds_labels s i t : holds s i [] [] -> loops s = [] -> Lab t ∈ i -> 0 <= t <= ilen i.
Proof.
  intros H El Ht. destruct (label_hole 0 i t Ht) as [p Hp]. apply list_elem_of_lookup in Hp as [k Hk].
  destruct (Forall2_lookup_l _ _ _ _ _ (holds_fixups s i H El) Hk) as (f & _ & _ & _ & _ & _ & Hr & _). exact Hr.
Qed.

Lemma finish_ok s i : holds s i [] [] -> loops s = [] -> cur_stack s = 0 -> saved_stack s = UINT_MAX -> max_stack s <= 255 ->
  (forall t, Lab t ∈ i -> 0 <= t < ilen i) -> exists b, finish_code s = Some (b, gstate s) /\ compiled b i (max_stack s).
Proof.
  intros H El Ec Es Hm Hlab. unfold finish_code. rewrite Ec, Es. cbn [Z.eqb negb].
  rewrite (Z.eqb_refl UINT_MAX). cbn [negb].
  unfold choose_sizes. set (nl := ref_size (Z.max (max_literal s) _)). set (nf := ref_size (Z.max (max_fork s) _)).
  set (nv := ref_size (Z.max (max_var_ref s) _)). set (sz := num_bytes s + _ + _ + _). set (nb := if sz <=? 256 then 1 else _).
  assert (Hst : ref_size (max_stack s) = 1) by (unfold ref_size; destruct (Z.leb_spec (max_stack s) 256); lia). rewrite Hst.
  set (z := mkSizes nb nl nf nv 1).
  assert (Hz : forall k, size_ok (kind_size z k)).
  { intros []; cbn; [apply ref_size_ok|apply ref_size_ok| |apply ref_size_ok|by left].
    unfold nb. destruct (sz <=? 256); [by left|]. destruct (sz + num_labels s <=? 256 * 256); [right; by left|right; by right]. }
  assert (Esize : isum z i = sz + (nb - 1) * num_labels s).
  { rewrite isum_count. unfold sz. cbn [s_literal s_fork s_var_name s_label s_stack z].
    rewrite (holds_num _ _ _ _ H), (h_literals _ _ _ _ H), (h_forks _ _ _ _ H), (h_var_refs _ _ _ _ H), (h_labels _ _ _ _ H). lia. }
  rewrite (h_bytes _ _ _ _ H), (fill_ok z Hz eq_refl i i 0 (fixups s) (holds_fixups s i H El)). cbn [mbind option_bind].
  fold (encode z i). rewrite (encode_length z Hz), Esize, Z.eqb_refl.
  eexists. split; [reflexivity|]. split; [done|]. exists z. split; [done|]. split; [|done]. split; [exact Hz| |].
  - intros k v Hv. pose proof (h_refs _ _ _ _ H k v Hv) as Hb. unfold ref_bound in Hb. destruct k; cbn [kind_size z s_literal s_fork s_label s_var_name s_stack].
    + eapply (fits_le _ (Z.of_nat (length (g_literals (gstate s))))); lia.
    + eapply (fits_le _ (Z.of_nat (length (g_fork_vectors (gstate s))))); lia.
    + lia.
    + apply fits_256; [apply ref_size_ok|lia].
    + apply fits_256; [by left|lia].
  - intros t Ht. specialize (Hlab t Ht). split; [done|]. pose proof (place_bound z Hz i t Hlab) as Hp. rewrite Esize in Hp. cbn [s_label z].
    assert (Hnl : 0 <= num_labels s).
    { rewrite (h_labels _ _ _ _ H). clear. induction i as [|x i IH]; cbn [count]; [lia|]. destruct (is_ref FIXUP_LABEL x); lia. }
    unfold fits. split; [lia|]. unfold nb in *. destruct (Z.leb_spec sz 256); [right; change (256 ^ 1) with 256; lia|].
    destruct (Z.leb_spec (sz + num_labels s) (256 * 256)); [right; change (256 ^ 2) with (256 * 256); lia|by left].
Qed.

(** *** Vectors *)

Lemma init_holds g : holds (init_state g) [] [] [].
Proof.
  split; try done; try (by constructor); intros; by match goal with H : _ ∈ [] |- _ => apply elem_of_nil in H | H : _ ∈ _ |- _ => apply elem_of_nil in H end.
Qed.

Lemma to_code_ok body g : good_ss body -> wf_ss [] body = true -> depth_ss body <= 255 -> glits_ok g ->
  exists b g', to_code (generate_stmts body) g = Some (b, g') /\ g_literals g `prefix_of` g_literals g' /\
    g_fork_vectors g `prefix_of` g_fork_vectors g' /\ glits_ok g' /\
    exists i, compiled b (i ++ [Op OP_DONE]) (depth_ss body) /\
      forall L F, g_literals g' `prefix_of` L -> g_fork_vectors g' `prefix_of` F -> code_ss L F [] 0 0 body i.
Proof.
  intros IH Hwf Hd Hg. set (s := init_state g).
  assert (Hr : sready [] s (depth_ss body)).
  { pose proof (depth_ss_pos body). split; try done; try (cbn; lia). - intros l Hl. by apply elem_of_nil in Hl. - intros l Hl. by apply elem_of_nil in Hl. }
  destruct (IH [] s [] Hwf Hr eq_refl) as ([] & s1 & E1 & i & X1 & C1).
  destruct (emit_runs [] OP_DONE s1) as ([] & s2 & E2 & X2); [byte|].
  pose proof (x_adds _ _ _ _ _ _ _ X1 [] [] (init_holds g)) as H1. cbn [app] in H1.
  pose proof (x_adds _ _ _ _ _ _ _ X2 i [] H1) as H2. cbn [app] in H2.
  assert (El1 : loops s1 = []) by (pose proof (x_loops _ _ _ _ _ _ _ X1) as Hl; by apply Forall2_nil_inv_l in Hl).
  assert (El2 : loops s2 = []) by (pose proof (x_loops _ _ _ _ _ _ _ X2) as Hl; rewrite El1 in Hl; by apply Forall2_nil_inv_l in Hl).
  assert (Emax : max_stack s2 = depth_ss body).
  { pose proof (x_max _ _ _ _ _ _ _ X1) as M1. pose proof (x_max _ _ _ _ _ _ _ X2) as M2. pose proof (x_cur _ _ _ _ _ _ _ X1) as M3.
    change (max_stack s) with 0 in *. change (cur_stack s) with 0 in *. pose proof (depth_ss_pos body). lia. }
  destruct (finish_ok s2 (i ++ [Op OP_DONE])) as (b & Eb & Hb); try done.
  - rewrite (x_cur _ _ _ _ _ _ _ X2), (x_cur _ _ _ _ _ _ _ X1). reflexivity.
  - rewrite (x_saved _ _ _ _ _ _ _ X2), (x_saved _ _ _ _ _ _ _ X1). done.
  - lia.
  - intros t [Ht|Ht]%elem_of_app; [|by apply list_elem_of_singleton in Ht].
    pose proof (holds_labels s1 i t H1 El1 Ht). rewrite ilen_app. change (ilen [Op OP_DONE]) with 1. lia.
  - rewrite Emax in Hb. exists b, (gstate s2). split.
    { unfold to_code, emit_ending_op. unfold mbind at 1, option_bind, mbind, M_bind. fold s. rewrite E1, E2. exact Eb. }
    note X1. note X2. pose proof (x_forks _ _ _ _ _ _ _ X1). pose proof (x_forks _ _ _ _ _ _ _ X2).
    change (g_literals g) with (g_literals (gstate s)). change (g_fork_vectors g) with (g_fork_vectors (gstate s)).
    split; [solve_prefix|]. split; [solve_prefix|]. split.
    { apply (x_lits_ok _ _ _ _ _ _ _ X2), (x_lits_ok _ _ _ _ _ _ _ X1). exact Hg. }
    exists i. split; [done|]. intros L F HL HF. exact (C1 L F ltac:(solve_prefix) ltac:(solve_prefix)).
Qed.

Lemma with_gstate_ext B s g : g_literals (gstate s) `prefix_of` g_literals g -> g_fork_vectors (gstate s) `prefix_of` g_fork_vectors g ->
  glits_ok g -> ext B s [] [] (with_gstate g s) 0 0.
Proof.
  intros H1 H2 H3. split; try done; try (cbn; lia).
  - intros i0 X H. rewrite app_nil_r. eapply holds_same; [..|exact H]; try done. intros k. by apply ref_bound_mono.
  - change (num_bytes (with_gstate g s)) with (num_bytes s). rewrite ilen_nil. lia.
  - apply same_loops_refl.
Qed.

Lemma good_fork id time body : good_ss body -> good_s (STMT_FORK id time body).
Proof.
  intros IH. sstart. sexp ids time B i1 s1 X1 C1. snote B X1. sonew B (emit_runs B) ltac:(destruct (0 <=? id); byte) s2 X2.
  apply runs_bind, runs_get.
  destruct (to_code_ok body (gstate s2)) as (b & g & Eb & Hg1 & Hg2 & Hg3 & i2 & Hi2 & C2); [done|done|lia| |].
  { apply (x_lits_ok _ _ _ _ _ _ _ X2), (x_lits_ok _ _ _ _ _ _ _ X1). exact (r_lits _ _ _ Hr). }
  rewrite Eb. apply runs_bind, runs_bind, runs_modify. pose proof (with_gstate_ext B s2 g Hg1 Hg2 Hg3) as X3. set (s3 := with_gstate g s2) in *. snote B X3.
  last (add_fork_runs B). intros [] s4 (k & X4 & Hk & HFk). snote B X4.
  apply runs_bind. apply (runs_mono _ _ (fun _ s5 => ext B s4 (if 0 <=? id then [Ref FIXUP_VAR_REF id] else []) [] s5 0 0)).
  { destruct (Z.leb_spec 0 id) as [Hid|Hid]; [|apply runs_ret, ext_refl]. apply (add_var_ref_runs B). apply slot_ok_range.
    match goal with H : opt_slot_ok id = true |- _ => unfold opt_slot_ok in H; apply orb_true_iff in H as [H|H]; [lia|done] end. }
  intros [] s5 X5. snote B X5. last (pop_runs B); [lia|]. intros [] s6 X6. snote B X6.
  change (g_literals g) with (g_literals (gstate s3)) in *. change (g_fork_vectors g) with (g_fork_vectors (gstate s3)) in *.
  eexists. split; [ext_done|]. intros L F HL HF. cbn [code_s]. exists i1, k, b, i2. split; [destruct (0 <=? id); shape|].
  split; [scode C1|]. split; [done|]. split; [eapply prefix_lookup_Some; [exact HFk|solve_prefix]|]. split; [done|].
  exact (C2 L F ltac:(solve_prefix) ltac:(solve_prefix)).
Qed.

Lemma stmts_good_all : (forall st, good_s st) /\ (forall st, good_ss st) /\ (forall a, good_arms a) /\ (forall x, good_handlers x).
Proof.
  apply Stmt_ind_all; intros; auto using good_cond_stmt, good_for_list, good_for_range, good_while, good_fork, good_expr, good_return,
    good_try, good_finally, good_break, good_continue, good_nil, good_seq, good_arms_nil, good_arms_cons, good_handlers_nil, good_handlers_cons.
Qed.

Lemma generate_code_ok (st : Stmts) (version : Z) : wf_program st = true ->
  exists p, generate_code st version = Some p /\ code_program p st.
Proof.
  intros [Hw Hd]%andb_true_iff. destruct (to_code_ok st init_gstate) as (b & g & E & _ & _ & _ & i & Hi & C); [apply stmts_good_all|done|lia|by constructor|].
  unfold generate_code, stmt_to_code. rewrite E. cbn [mbind option_bind]. eexists. split; [reflexivity|].
  exists i. split; [exact Hi|]. by apply C.
Qed.

(** ** Theorems *)



(** *** What the limits are for *)

(** The size of the references to variables is chosen from the largest slot
    as if it were a number of slots: slot 256 gets one byte, and is taken for
    slot 0, when there are few references. *)
Lemma var_slot_cut_off (version : Z) :
  (bc_vector ∘ p_main_vector) <$> generate_code (SNext (STMT_EXPR (EXPR_ID 256)) SEnd) version =
  Some [OP_G_PUSH; 0; OP_POP; OP_DONE].
Proof. reflexivity. Qed.

(** With more than 256 places on the stack a reference to the stack takes two
    bytes, which the size of the vector does not count: the generator writes
    behind its end. *)
Lemma stack_refs_overflow (version : Z) : generate_code (SNext (STMT_EXPR (nested 255)) SEnd) version = None.
Proof. vm_compute. reflexivity. Qed.
(** With 256 it does not. *)
Lemma stack_refs_fit (version : Z) : is_Some (generate_code (SNext (STMT_EXPR (nested 254)) SEnd) version).
Proof. vm_compute. by eexists. Qed.

(** The number of the rest, one more than the number of targets when there is
    none, is put into one byte: with 255 targets it is 0. *)
Lemma scatter_rest_cut_off (version : Z) :
  (fun p => take 6 (bc_vector (p_main_vector p))) <$>
    generate_code (SNext (STMT_EXPR (EXPR_ASGN (EXPR_SCATTER (targets 255)) (EXPR_ID 0))) SEnd) version =
  Some [OP_PUSH; OP_EXTENDED; EOP_SCATTER; 255; 255; 0].
Proof. vm_compute. reflexivity. Qed.

(** Minus zero after zero is the same literal. *)
Lemma minus_zero_literal (version : Z) :
  p_literals <$> generate_code (SNext (STMT_RETURN (Ptr (EXPR_LIST (ACons ARG_NORMAL (EXPR_VAR (VFloat (S754_zero false)))
    (ACons ARG_NORMAL (EXPR_VAR (VFloat (S754_zero true))) ANil))))) SEnd) version = Some [VFloat (S754_zero false)].
Proof. reflexivity. Qed.
