(* ===== verification/Decompile.v ===== *)
(** * The decompiler (decompile.c)

    Code is turned back into a tree by running it on a stack of expressions;
    the parts that jumps delimit are decompiled by calls of the decompiler on
    their own ranges.  A pointer into a vector is its index.

    Not modelled: which node of the tree is hot, that is where a given program
    counter is ([hot_byte], [find_line_number]), and the freeing of nodes. *)

From S2P Require Import Prelude Utf CString Values Db Ast CodeGen.

(** ** Definitions *)

(** The static and local state: [sink] and [arms] are what was added to
    [*stmt_sink] and [*arm_sink], the last first. *)
Record Cursor := mkCursor {
  ptr : Z;
  stmt_start : Z;
  expr_stack : list Expr;
  sink : list Stmt;
  arms : list (Expr * Stmts)
}.

Definition D (A : Type) : Type := Cursor -> option (A * Cursor).
#[export] Instance D_ret : MRet D := fun A a c => Some (a, c).
#[export] Instance D_bind : MBind D := fun A B f m c => match m c with Some (a, c) => f a c | None => None end.

Definition dpanic {A} : D A := fun _ => None.
Definition dget {A} (f : Cursor -> A) : D A := fun c => Some (f c, c).
(** The test that precedes a panic. *)
Definition dcheck (b : bool) : D unit := if b then mret tt else dpanic.
Definition dmodify (f : Cursor -> Cursor) : D unit := fun c => Some (tt, f c).
Definition set_ptr (p : Z) : D unit := dmodify (fun c => mkCursor p (stmt_start c) (expr_stack c) (sink c) (arms c)).
Definition set_stack (l : list Expr) : D unit := dmodify (fun c => mkCursor (ptr c) (stmt_start c) l (sink c) (arms c)).

Definition stmts_of (l : list Stmt) : Stmts := foldr SNext SEnd l.
Definition arms_of (l : list (Expr * Stmts)) : Cond_Arm := foldr (fun a r => CArm (fst a) (snd a) r) CEnd l.

(** *** Reading *)

Definition nb_label (bc : Bytecodes) : Z := nth 0 (bc_numbytes bc) 0.
Definition nb_literal (bc : Bytecodes) : Z := nth 1 (bc_numbytes bc) 0.
Definition nb_fork (bc : Bytecodes) : Z := nth 2 (bc_numbytes bc) 0.
Definition nb_var_name (bc : Bytecodes) : Z := nth 3 (bc_numbytes bc) 0.
Definition nb_stack (bc : Bytecodes) : Z := nth 4 (bc_numbytes bc) 0.

Definition vector_byte (bc : Bytecodes) (p : Z) : option Z := if p <? 0 then None else bc_vector bc !! Z.to_nat p.

(** [*ptr++] *)
Definition next_byte (bc : Bytecodes) : D Z :=
  p ← dget ptr;
  match vector_byte bc p with None => dpanic | Some b => set_ptr (p + 1);; mret b end.

Definition SKIP_BYTES (n : Z) : D unit := p ← dget ptr; set_ptr (p + n).

Definition READ_BYTES (bc : Bytecodes) (n : Z) : D Z :=
  SKIP_BYTES n;;
  p ← dget ptr;
  match (if n =? 1 then vector_byte bc (p - 1)
         else if n =? 2 then
           b2 ← vector_byte bc (p - 2);
           b1 ← vector_byte bc (p - 1);
           Some (Z.shiftl b2 8 + b1)
         else
           b4 ← vector_byte bc (p - 4);
           b3 ← vector_byte bc (p - 3);
           b2 ← vector_byte bc (p - 2);
           b1 ← vector_byte bc (p - 1);
           Some (uwrap 32 (Z.shiftl b4 24 + Z.shiftl b3 16 + Z.shiftl b2 8 + b1))) with
  | None => dpanic
  | Some v => mret v
  end.

Definition READ_LABEL (bc : Bytecodes) : D Z := READ_BYTES bc (nb_label bc).
Definition READ_ID (bc : Bytecodes) : D Z := READ_BYTES bc (nb_var_name bc).
Definition READ_STACK (bc : Bytecodes) : D unit := SKIP_BYTES (nb_stack bc).

Section Decompile.
(** The program, and how many expressions fit on [expr_stack]. *)
Context (program : Program) (capacity : Z).

Definition READ_LITERAL (bc : Bytecodes) : D Var :=
  i ← READ_BYTES bc (nb_literal bc);
  match p_literals program !! Z.to_nat i with None => dpanic | Some v => mret v end.
Definition READ_FORK (bc : Bytecodes) : D Bytecodes :=
  i ← READ_BYTES bc (nb_fork bc);
  match p_fork_vectors program !! Z.to_nat i with None => dpanic | Some b => mret b end.

Definition read_jump (bc : Bytecodes) : D Z :=
  b ← next_byte bc;
  dcheck (b =? OP_JUMP);;
  READ_LABEL bc.

(** *** The stack and the sinks *)

Definition push_expr (e : Expr) : D unit :=
  l ← dget expr_stack;
  dcheck (Z.of_nat (length l) <? capacity);;
  set_stack (e :: l).
Definition pop_expr : D Expr :=
  l ← dget expr_stack;
  match l with [] => dpanic | e :: l => set_stack l;; mret e end.

(** Without a sink the null pointer is followed. *)
Definition ADD_STMT (stmt_sink : bool) (s : Stmt) : D unit :=
  dcheck stmt_sink;;
  dmodify (fun c => mkCursor (ptr c) (ptr c) (expr_stack c) (s :: sink c) (arms c)).
Definition ADD_ARM (arm_sink : bool) (condition : Expr) (stmt : Stmts) : D unit :=
  dcheck arm_sink;;
  dmodify (fun c => mkCursor (ptr c) (stmt_start c) (expr_stack c) (sink c) ((condition, stmt) :: arms c)).
Definition set_stmt_start : D unit :=
  dmodify (fun c => mkCursor (ptr c) (ptr c) (expr_stack c) (sink c) (arms c)).

(** *** Instructions that only move expressions *)

Definition finish_binary (mk : Expr -> Expr -> Expr) : D unit :=
  e ← pop_expr;
  l ← pop_expr;
  push_expr (mk l e).

(** What [finish_binary] makes, by the opcode. *)
Definition binary_node (op : Z) : option (Expr -> Expr -> Expr) :=
  if (op =? OP_GET_PROP) || (op =? OP_PUSH_GET_PROP) then Some EXPR_PROP
  else if op =? OP_EQ then Some (EXPR_BINARY EXPR_EQ)
  else if op =? OP_NE then Some (EXPR_BINARY EXPR_NE)
  else if op =? OP_LT then Some (EXPR_BINARY EXPR_LT)
  else if op =? OP_LE then Some (EXPR_BINARY EXPR_LE)
  else if op =? OP_GT then Some (EXPR_BINARY EXPR_GT)
  else if op =? OP_GE then Some (EXPR_BINARY EXPR_GE)
  else if op =? OP_IN then Some (EXPR_BINARY EXPR_IN)
  else if op =? OP_ADD then Some (EXPR_BINARY EXPR_PLUS)
  else if op =? OP_MINUS then Some (EXPR_BINARY EXPR_MINUS)
  else if op =? OP_MULT then Some (EXPR_BINARY EXPR_TIMES)
  else if op =? OP_DIV then Some (EXPR_BINARY EXPR_DIVIDE)
  else if op =? OP_MOD then Some (EXPR_BINARY EXPR_MOD)
  else if (op =? OP_REF) || (op =? OP_PUSH_REF) then Some EXPR_INDEX
  else None.
Definition extended_binary_node (eop : Z) : option (Expr -> Expr -> Expr) :=
  if eop =? EOP_EXP then Some (EXPR_BINARY EXPR_EXP)
  else if eop =? EOP_BITAND then Some (EXPR_BINARY EXPR_BITAND)
  else if eop =? EOP_BITXOR then Some (EXPR_BINARY EXPR_BITXOR)
  else if eop =? EOP_BITOR then Some (EXPR_BINARY EXPR_BITOR)
  else if eop =? EOP_SHL then Some (EXPR_BINARY EXPR_SHL)
  else if eop =? EOP_SHR then Some (EXPR_BINARY EXPR_SHR)
  else if eop =? EOP_LSHR then Some (EXPR_BINARY EXPR_LSHR)
  else None.

(** The last argument gets a next one; without an argument the null pointer
    is followed. *)
Fixpoint add_arg (args : Arg_List) (kind : Arg_Kind) (e : Expr) : option Arg_List :=
  match args with
  | ANil => None
  | ACons k x ANil => Some (ACons k x (ACons kind e ANil))
  | ACons k x next => ACons k x <$> add_arg next kind e
  end.

(** The search for [OP_PUSH_TEMP], byte by byte. *)
Fixpoint find_temp (bs : list Z) : option Z :=
  match bs with
  | [] => None
  | b :: bs => if b =? OP_PUSH_TEMP then Some 0 else Z.add 1 <$> find_temp bs
  end.
Definition finish_indexed_assignment (bc : Bytecodes) : D unit :=
  p ← dget ptr;
  match find_temp (drop (Z.to_nat p) (bc_vector bc)) with
  | None => dpanic
  | Some n => set_ptr (p + n + 1)
  end.

(** The cases of [simple_op]; [None]: another instruction. *)
Definition quick_op (op : Z) : option (D unit) :=
  if IS_PUSH_n op then Some (push_expr (EXPR_ID (PUSH_n_INDEX op)))
  else if IS_PUT_n op then Some (e ← pop_expr; push_expr (EXPR_ASGN (EXPR_ID (PUT_n_INDEX op)) e))
  else if IS_OPTIM_NUM_OPCODE op then Some (push_expr (EXPR_VAR (VInt (OPCODE_TO_OPTIM_NUM op))))
  else None.
Definition load_op (bc : Bytecodes) (op : Z) : option (D unit) :=
  if op =? OP_IMM then Some (v ← READ_LITERAL bc; push_expr (EXPR_VAR v))
  else if op =? OP_G_PUSH then Some (id ← READ_ID bc; push_expr (EXPR_ID id))
  else None.
Definition operator_op (op : Z) : option (D unit) :=
  match binary_node op with
  | Some mk => Some (finish_binary mk)
  | None =>
      if op =? OP_UNARY_MINUS then Some (e ← pop_expr; push_expr (EXPR_UNARY EXPR_NEGATE e))
      else if op =? OP_NOT then Some (e ← pop_expr; push_expr (EXPR_UNARY EXPR_NOT e))
      else None
  end.
Definition call_op (bc : Bytecodes) (op : Z) : option (D unit) :=
  if op =? OP_RANGE_REF then Some (e1 ← pop_expr; e2 ← pop_expr; base ← pop_expr; push_expr (EXPR_RANGE base e2 e1))
  else if op =? OP_BI_FUNC_CALL then Some (
    a ← pop_expr;
    match a with
    | EXPR_LIST args => func ← READ_BYTES bc 1; push_expr (EXPR_CALL func args)
    | _ => dpanic
    end)
  else if op =? OP_CALL_VERB then Some (
    a ← pop_expr;
    e2 ← pop_expr;
    match a with
    | EXPR_LIST args => obj ← pop_expr; push_expr (EXPR_VERB obj e2 args)
    | _ => dpanic
    end)
  else None.
Definition assign_op (bc : Bytecodes) (op : Z) : option (D unit) :=
  if op =? OP_PUT_TEMP then Some (mret tt)
  else if op =? OP_INDEXSET then Some (
    rvalue ← pop_expr;
    index ← pop_expr;
    base ← pop_expr;
    push_expr (EXPR_ASGN (EXPR_INDEX base index) rvalue);;
    finish_indexed_assignment bc)
  else if op =? OP_G_PUT then Some (id ← READ_ID bc; e ← pop_expr; push_expr (EXPR_ASGN (EXPR_ID id) e))
  else if op =? OP_PUT_PROP then Some (
    rvalue ← pop_expr;
    e ← pop_expr;
    l ← pop_expr;
    push_expr (EXPR_ASGN (EXPR_PROP l e) rvalue))
  else None.
Definition list_op (op : Z) : option (D unit) :=
  if op =? OP_MAKE_EMPTY_LIST then Some (push_expr (EXPR_LIST ANil))
  else if op =? OP_MAKE_SINGLETON_LIST then Some (e ← pop_expr; push_expr (EXPR_LIST (ACons ARG_NORMAL e ANil)))
  else if op =? OP_CHECK_LIST_FOR_SPLICE then Some (e ← pop_expr; push_expr (EXPR_LIST (ACons ARG_SPLICE e ANil)))
  else if (op =? OP_LIST_ADD_TAIL) || (op =? OP_LIST_APPEND) then Some (
    e ← pop_expr;
    list ← pop_expr;
    match list with
    | EXPR_LIST args =>
        match add_arg args (if op =? OP_LIST_APPEND then ARG_SPLICE else ARG_NORMAL) e with
        | Some args => push_expr (EXPR_LIST args)
        | None => dpanic
        end
    | _ => dpanic
    end)
  else None.
Definition simple_op (bc : Bytecodes) (op : Z) : option (D unit) :=
  quick_op op ∪ load_op bc op ∪ operator_op op ∪ call_op bc op ∪ assign_op bc op ∪ list_op op.

Definition simple_extended_op (bc : Bytecodes) (eop : Z) : option (D unit) :=
  match extended_binary_node eop with
  | Some mk => Some (finish_binary mk)
  | None =>
      if eop =? EOP_RANGESET then Some (
        rvalue ← pop_expr;
        to ← pop_expr;
        from ← pop_expr;
        base ← pop_expr;
        push_expr (EXPR_ASGN (EXPR_RANGE base from to) rvalue);;
        finish_indexed_assignment bc)
      else if eop =? EOP_LENGTH then Some (READ_STACK bc;; push_expr EXPR_LENGTH)
      else if eop =? EOP_PUSH_LABEL then Some (label ← READ_LABEL bc; push_expr (EXPR_VAR (VInt label)))
      else if eop =? EOP_COMPLEMENT then Some (e ← pop_expr; push_expr (EXPR_UNARY EXPR_COMPLEMENT e))
      else None
  end.

(** *** Instructions with parts of their own *)

(** [nest]: decompiling a range of a vector, with a sink for statements or
    without, and with one for arms or without; the stack is shared. *)
Section Nest.
Context (nest : Bytecodes -> Z -> Z -> bool -> bool -> D (Z * Stmts * Cond_Arm)).

(** The macro; the range begins at [ptr]. *)
Definition DECOMPILE (bc : Bytecodes) (stop : Z) (stmt_sink arm_sink : bool) : D (Stmts * Cond_Arm) :=
  p ← dget ptr;
  '(p', ss, a) ← nest bc p stop stmt_sink arm_sink;
  set_ptr p';;
  mret (ss, a).
(** Without sinks. *)
Definition DECOMPILE_expr (bc : Bytecodes) (stop : Z) : D unit := _ ← DECOMPILE bc stop false false; mret tt.

Definition jump_len (bc : Bytecodes) : Z := nb_label bc + 1.

Definition decompile_if (bc : Bytecodes) (stmt_sink : bool) : D unit :=
  next ← READ_LABEL bc;
  condition ← pop_expr;
  '(arm_stmts, _) ← DECOMPILE bc (next - jump_len bc) true false;
  done ← read_jump bc;
  '(otherwise, arms) ← DECOMPILE bc done true true;
  ADD_STMT stmt_sink (STMT_COND (CArm condition arm_stmts arms) otherwise).

Definition decompile_eif (bc : Bytecodes) (stop : Z) (arm_sink : bool) : D unit :=
  next ← READ_LABEL bc;
  condition ← pop_expr;
  '(arm_stmts, _) ← DECOMPILE bc (next - jump_len bc) true false;
  ADD_ARM arm_sink condition arm_stmts;;
  done ← read_jump bc;
  dcheck (done =? stop);;
  set_stmt_start.

Definition decompile_for_list (bc : Bytecodes) (stmt_sink : bool) : D unit :=
  p ← dget ptr;
  let top := p - 1 in
  id ← READ_ID bc;
  done ← READ_LABEL bc;
  one ← pop_expr;
  list ← pop_expr;
  match one with EXPR_VAR (VInt n) => dcheck (n =? 1) | _ => dpanic end;;
  '(body, _) ← DECOMPILE bc (done - jump_len bc) true false;
  jump ← read_jump bc;
  dcheck (top =? jump);;
  ADD_STMT stmt_sink (STMT_LIST id list body).

Definition decompile_for_range (bc : Bytecodes) (stmt_sink : bool) : D unit :=
  p ← dget ptr;
  let top := p - 1 in
  id ← READ_ID bc;
  done ← READ_LABEL bc;
  to ← pop_expr;
  from ← pop_expr;
  '(body, _) ← DECOMPILE bc (done - jump_len bc) true false;
  jump ← read_jump bc;
  dcheck (top =? jump);;
  ADD_STMT stmt_sink (STMT_RANGE id from to body).

Definition finish_while (bc : Bytecodes) (stmt_sink : bool) (id : Z) : D unit :=
  top ← dget stmt_start;
  done ← READ_LABEL bc;
  condition ← pop_expr;
  '(body, _) ← DECOMPILE bc (done - jump_len bc) true false;
  jump ← read_jump bc;
  dcheck (top =? jump);;
  ADD_STMT stmt_sink (STMT_WHILE id condition body).

Definition decompile_fork (bc : Bytecodes) (stmt_sink : bool) (with_id : bool) : D unit :=
  time ← pop_expr;
  fbc ← READ_FORK bc;
  id ← (if with_id then READ_ID bc else mret (-1));
  '(_, body, _) ← nest fbc 0 (bc_size fbc) true false;
  ADD_STMT stmt_sink (STMT_FORK id time body).

Definition decompile_logic (bc : Bytecodes) (kind : logic_kind) : D unit :=
  done ← READ_LABEL bc;
  e ← pop_expr;
  DECOMPILE_expr bc done;;
  p ← dget ptr;
  dcheck (p =? done);;
  rhs ← pop_expr;
  push_expr (EXPR_LOGIC kind e rhs).

Definition decompile_cond (bc : Bytecodes) : D unit :=
  label ← READ_LABEL bc;
  condition ← pop_expr;
  DECOMPILE_expr bc (label - jump_len bc);;
  label ← read_jump bc;
  consequent ← pop_expr;
  DECOMPILE_expr bc label;;
  p ← dget ptr;
  dcheck (p =? label);;
  alternate ← pop_expr;
  push_expr (EXPR_COND condition consequent alternate).

(** The targets: kind, variable and the place of the default, 0 without one. *)
Fixpoint read_targets (bc : Bytecodes) (n : nat) (i rest : Z) : D (list (Scatter_Kind * Z * Z)) :=
  match n with
  | O => mret []
  | S n =>
      id ← READ_ID bc;
      label ← READ_LABEL bc;
      let label := int label in
      let kind := if i =? rest then SCAT_REST else if label =? 0 then SCAT_REQUIRED else SCAT_OPTIONAL in
      l ← read_targets bc n (i + 1) rest;
      mret ((kind, id, if 1 <? label then label else 0) :: l)
  end.

(** Where the default that comes next is, or the end. *)
Definition next_default (targets : list (Scatter_Kind * Z * Z)) (done : Z) : Z :=
  match filter (fun t => snd t <> 0) targets with [] => done | t :: _ => snd t end.

Fixpoint read_defaults (bc : Bytecodes) (targets : list (Scatter_Kind * Z * Z)) (done : Z) : D Scatter :=
  match targets with
  | [] => mret SNil
  | (kind, id, label) :: targets =>
      if label =? 0 then sc ← read_defaults bc targets done; mret (SCons kind id Null sc)
      else
        p ← dget ptr;
        dcheck (p =? label);;
        DECOMPILE_expr bc (next_default targets done - 1);;
        defallt ← pop_expr;
        match defallt with
        | EXPR_ASGN (EXPR_ID id') rhs =>
            dcheck (id' =? id);;
            b ← next_byte bc;
            dcheck (b =? OP_POP);;
            sc ← read_defaults bc targets done;
            mret (SCons kind id (Ptr rhs) sc)
        | _ => dpanic
        end
  end.

Definition decompile_scatter (bc : Bytecodes) : D unit :=
  nargs ← next_byte bc;
  SKIP_BYTES 1;;
  rest ← next_byte bc;
  targets ← read_targets bc (Z.to_nat nargs) 1 rest;
  done ← READ_LABEL bc;
  let done := int done in
  sc ← read_defaults bc targets done;
  rhs ← pop_expr;
  push_expr (EXPR_ASGN (EXPR_SCATTER sc) rhs);;
  p ← dget ptr;
  dcheck (p =? done).

(** The codes of a handler. *)
Definition codes_of (e : Expr) : D Arg_List :=
  match e with
  | EXPR_LIST args => mret args
  | EXPR_VAR (VInt 0) => mret ANil
  | _ => dpanic
  end.
Definition label_of (e : Expr) : D Z := match e with EXPR_VAR (VInt n) => mret (int n) | _ => dpanic end.

Definition decompile_catch (bc : Bytecodes) (stop : Z) : D unit :=
  label_expr ← pop_expr;
  codes ← pop_expr;
  label ← label_of label_expr;
  a ← codes_of codes;
  DECOMPILE_expr bc stop;;
  SKIP_BYTES 1;;
  b ← next_byte bc;
  dcheck (b =? EOP_END_CATCH);;
  done ← READ_LABEL bc;
  let done := int done in
  try_expr ← pop_expr;
  p ← dget ptr;
  dcheck (p =? label);;
  op ← next_byte bc;
  default_expr ←
    (if op =? OPTIM_NUM_TO_OPCODE 1 then
       b ← next_byte bc;
       dcheck (b =? OP_REF);;
       mret Null
     else if op =? OP_POP then
       DECOMPILE_expr bc done;;
       e ← pop_expr;
       mret (Ptr e)
     else dpanic);
  p ← dget ptr;
  dcheck (p =? done);;
  push_expr (EXPR_CATCH try_expr a default_expr).

(** The labels and codes of the handlers, the first handler first. *)
Fixpoint pop_excepts (count : nat) (excepts : list (Z * Arg_List)) : D (list (Z * Arg_List)) :=
  match count with
  | O => mret excepts
  | S count =>
      label_expr ← pop_expr;
      label ← label_of label_expr;
      e ← pop_expr;
      a ← codes_of e;
      pop_excepts count ((label, a) :: excepts)
  end.

Fixpoint read_handlers (bc : Bytecodes) (excepts : list (Z * Arg_List)) (done : Z) : D Except_Arm :=
  match excepts with
  | [] => mret XEnd
  | (label, codes) :: next =>
      p ← dget ptr;
      dcheck (label =? p);;
      op ← next_byte bc;
      '(id, op) ←
        (if op =? OP_G_PUT then id ← READ_ID bc; op ← next_byte bc; mret (id, op)
         else if IS_PUT_n op then op' ← next_byte bc; mret (PUT_n_INDEX op, op')
         else mret (-1, op));
      dcheck (op =? OP_POP);;
      '(stmt, _) ← DECOMPILE bc (match next with (label', _) :: _ => label' - jump_len bc | [] => done end) true false;
      match next with
      | [] => mret tt
      | _ => jump ← read_jump bc; dcheck (jump =? done)
      end;;
      x ← read_handlers bc next done;
      mret (XArm id codes stmt x)
  end.

Definition decompile_try_except (bc : Bytecodes) (stop : Z) (stmt_sink : bool) : D unit :=
  count ← next_byte bc;
  excepts ← pop_excepts (Z.to_nat count) [];
  '(body, _) ← DECOMPILE bc stop true false;
  SKIP_BYTES 1;;
  b ← next_byte bc;
  dcheck (b =? EOP_END_EXCEPT);;
  done ← READ_LABEL bc;
  x ← read_handlers bc excepts done;
  p ← dget ptr;
  dcheck (p =? done);;
  ADD_STMT stmt_sink (STMT_TRY_EXCEPT body x).

Definition decompile_try_finally (bc : Bytecodes) (stop : Z) (stmt_sink : bool) : D unit :=
  label ← READ_LABEL bc;
  let label := int label in
  '(body, _) ← DECOMPILE bc stop true false;
  SKIP_BYTES 1;;
  b ← next_byte bc;
  dcheck (b =? EOP_END_FINALLY);;
  p ← dget ptr;
  dcheck (p =? label);;
  '(handler, _) ← DECOMPILE bc stop true false;
  SKIP_BYTES 1;;
  b ← next_byte bc;
  dcheck (b =? EOP_CONTINUE);;
  ADD_STMT stmt_sink (STMT_TRY_FINALLY body handler).

Definition decompile_exit (bc : Bytecodes) (stmt_sink : bool) (with_id : bool) : D unit :=
  exit ← (if with_id then READ_ID bc else mret (-1));
  READ_STACK bc;;
  label ← READ_LABEL bc;
  p ← dget ptr;
  ADD_STMT stmt_sink (if label <? p then STMT_CONTINUE exit else STMT_BREAK exit).

(** One instruction; answers whether the function returns, which an early
    exit does in front of the instruction. *)
Definition extended_step (bc : Bytecodes) (stop : Z) (stmt_sink : bool) : D bool :=
  eop ← next_byte bc;
  match simple_extended_op bc eop with
  | Some m => m;; mret false
  | None =>
      if eop =? EOP_SCATTER then decompile_scatter bc;; mret false
      else if eop =? EOP_CATCH then decompile_catch bc stop;; mret false
      else if eop =? EOP_TRY_EXCEPT then decompile_try_except bc stop stmt_sink;; mret false
      else if eop =? EOP_TRY_FINALLY then decompile_try_finally bc stop stmt_sink;; mret false
      else if (eop =? EOP_END_CATCH) || (eop =? EOP_END_EXCEPT) || (eop =? EOP_END_FINALLY) || (eop =? EOP_CONTINUE)
      then SKIP_BYTES (-2);; mret true
      else if eop =? EOP_WHILE_ID then id ← READ_ID bc; finish_while bc stmt_sink id;; mret false
      else if (eop =? EOP_EXIT) || (eop =? EOP_EXIT_ID) then decompile_exit bc stmt_sink (eop =? EOP_EXIT_ID);; mret false
      else dpanic
  end.

Definition step (bc : Bytecodes) (stop : Z) (stmt_sink arm_sink : bool) : D bool :=
  op ← next_byte bc;
  match simple_op bc op with
  | Some m => m;; mret false
  | None =>
      if op =? OP_IF then decompile_if bc stmt_sink;; mret false
      else if op =? OP_EIF then decompile_eif bc stop arm_sink;; mret false
      else if op =? OP_FOR_LIST then decompile_for_list bc stmt_sink;; mret false
      else if op =? OP_FOR_RANGE then decompile_for_range bc stmt_sink;; mret false
      else if op =? OP_WHILE then finish_while bc stmt_sink (-1);; mret false
      else if (op =? OP_FORK) || (op =? OP_FORK_WITH_ID) then decompile_fork bc stmt_sink (op =? OP_FORK_WITH_ID);; mret false
      else if op =? OP_POP then e ← pop_expr; ADD_STMT stmt_sink (STMT_EXPR e);; mret false
      else if op =? OP_RETURN then e ← pop_expr; ADD_STMT stmt_sink (STMT_RETURN (Ptr e));; mret false
      else if op =? OP_RETURN0 then ADD_STMT stmt_sink (STMT_RETURN Null);; mret false
      else if op =? OP_DONE then p ← dget ptr; dcheck (p =? stop);; mret false
      else if op =? OP_AND then decompile_logic bc EXPR_AND;; mret false
      else if op =? OP_OR then decompile_logic bc EXPR_OR;; mret false
      else if op =? OP_IF_QUES then decompile_cond bc;; mret false
      else if op =? OP_EXTENDED then extended_step bc stop stmt_sink
      else dpanic
  end.
End Nest.

(** The loop of [decompile]; the fuel bounds the number of instructions in
    sequence and inside of one another. *)
Fixpoint run (fuel : nat) (bc : Bytecodes) (stop : Z) (stmt_sink arm_sink : bool) (c : Cursor) : option Cursor :=
  match fuel with
  | O => None
  | S fuel =>
      if ptr c <? stop then
        '(returned, c) ← step (fun bc start stop stmt_sink arm_sink c =>
            c' ← run fuel bc stop stmt_sink arm_sink (mkCursor start start (expr_stack c) [] []);
            Some ((ptr c', stmts_of (rev (sink c')), arms_of (rev (arms c'))),
                  mkCursor (ptr c) (stmt_start c) (expr_stack c') (sink c) (arms c))) bc stop stmt_sink arm_sink c;
        if returned : bool then Some c else run fuel bc stop stmt_sink arm_sink c
      else if ptr c =? stop then Some c else None
  end.
Definition decompile (fuel : nat) (bc : Bytecodes) (start stop : Z) (stmt_sink arm_sink : bool) : D (Z * Stmts * Cond_Arm) :=
  fun c =>
    c' ← run fuel bc stop stmt_sink arm_sink (mkCursor start start (expr_stack c) [] []);
    Some ((ptr c', stmts_of (rev (sink c')), arms_of (rev (arms c'))),
          mkCursor (ptr c) (stmt_start c) (expr_stack c') (sink c) (arms c)).
End Decompile.

(** [decompile_program]: the size of the stack is the sum of what the vectors
    need. *)
Definition stack_size (prog : Program) : Z :=
  foldr Z.add 0 (map bc_max_stack (p_main_vector prog :: p_fork_vectors prog)).
Definition program_to_tree (fuel : nat) (prog : Program) (vector : Z) : option Stmts :=
  bc ← (if vector =? MAIN_VECTOR then Some (p_main_vector prog) else p_fork_vectors prog !! Z.to_nat vector);
  '((_, result, _), _) ← decompile prog (stack_size prog) fuel bc 0 (bc_size bc) true false (mkCursor 0 0 [] [] []);
  Some result.
Definition decompile_program (fuel : nat) (prog : Program) (vector : Z) : option Stmts := program_to_tree fuel prog vector.
