(* ===== verification/DecompileProof.v ===== *)
(** * The decompiler undoes the generator

    [decompile_generate]: decompiling the program generated for a tree gives
    the tree back.  The proof goes through the specification of code in
    [CodeSpec]: wherever the code of a tree is in a vector, the decompiler reads
    it there. *)

From S2P Require Import Prelude Utf CString Values Db Ast CodeGen CodeSpec CodeProof CodeStmts Decompile.

(** ** Definitions *)

(** [bc] is the items [I], with sizes [z]. *)
Record vec (bc : Bytecodes) (z : sizes) (I : list item) : Prop := {
  v_sizes : bc_numbytes bc = size_list z;
  v_encodes : encodes z I;
  v_bytes : bc_vector bc = encode z I;
  v_small : isum z I < 2 ^ 31
}.

(** The items [i] are at [pc]. *)
Definition seg (I : list item) (pc : Z) (i : list item) : Prop := 0 <= pc /\ exists post, drop (Z.to_nat pc) I = i ++ post.

(** The variable that an indexed assignment changes. *)
Fixpoint base_id (e : Expr) : Z :=
  match e with EXPR_RANGE base _ _ => base_id base | EXPR_INDEX lhs _ => base_id lhs | EXPR_ID id => id | _ => -1 end.
Fixpoint rests (sc : Scatter) : Z :=
  match sc with SNil => 0 | SCons kind _ _ next => (match kind with SCAT_REST => 1 | _ => 0 end) + rests next end.

(** What the decompiler asks for besides: no indexed assignment to the variable whose slot is
    the number of [OP_PUSH_TEMP], see [decompile_slot_106]; a scattering
    assignment has one rest at most, a conditional one arm at least, as the
    parser makes sure. *)
Fixpoint dwf_e (e : Expr) : bool :=
  match e with
  | EXPR_VAR _ | EXPR_ID _ | EXPR_LENGTH => true
  | EXPR_PROP lhs rhs | EXPR_BINARY _ lhs rhs | EXPR_LOGIC _ lhs rhs | EXPR_INDEX lhs rhs => dwf_e lhs && dwf_e rhs
  | EXPR_RANGE base from to => dwf_e base && dwf_e from && dwf_e to
  | EXPR_UNARY _ expr => dwf_e expr
  | EXPR_VERB obj verb args => dwf_e obj && dwf_e verb && dwf_args args
  | EXPR_CALL _ args | EXPR_LIST args => dwf_args args
  | EXPR_ASGN lhs rhs => dwf_e lhs && dwf_e rhs && negb (is_indexed lhs && (base_id lhs =? OP_PUSH_TEMP))
  | EXPR_SCATTER sc => dwf_scatter sc && (rests sc <=? 1)
  | EXPR_COND condition consequent alternate => dwf_e condition && dwf_e consequent && dwf_e alternate
  | EXPR_CATCH try codes except => dwf_e try && dwf_args codes && match except with Null => true | Ptr e => dwf_e e end
  end
with dwf_args (args : Arg_List) : bool :=
  match args with ANil => true | ACons _ expr next => dwf_e expr && dwf_args next end
with dwf_scatter (sc : Scatter) : bool :=
  match sc with SNil => true | SCons _ _ expr next => dwf_scatter next && match expr with Null => true | Ptr e => dwf_e e end end.

(** What the places of a left-hand side are on the stack of the decompiler. *)
Definition operands (e : Expr) : list Expr :=
  match e with
  | EXPR_PROP lhs rhs | EXPR_INDEX lhs rhs => [rhs; lhs]
  | EXPR_RANGE base from to => [to; from; base]
  | _ => []
  end.
(** What is on the stack for the codes. *)
Definition codes_expr (codes : Arg_List) : Expr := match codes with ANil => EXPR_VAR (VInt 0) | _ => EXPR_LIST codes end.
Fixpoint args_app (a b : Arg_List) : Arg_List := match a with ANil => b | ACons k e next => ACons k e (args_app next b) end.

Fixpoint sc_len (sc : Scatter) : Z := match sc with SNil => 0 | SCons _ _ _ next => 1 + sc_len next end.
(** The target number [rest] is the rest, and no other is. *)
Fixpoint rest_pos (sc : Scatter) (i rest : Z) : Prop :=
  match sc with SNil => True | SCons kind _ _ next => (kind = SCAT_REST <-> i = rest) /\ rest_pos next (i + 1) rest end.
(** The targets as the decompiler reads them. *)
Fixpoint dtargets (z : sizes) (I : list item) (sc : Scatter) (ts : list Z) : list (Scatter_Kind * Z * Z) :=
  match sc with
  | SNil => []
  | SCons SCAT_OPTIONAL id (Ptr _) next =>
      match ts with [] => [] | t :: ts => (SCAT_OPTIONAL, id, place z I t) :: dtargets z I next ts end
  | SCons kind id _ next => (kind, id, 0) :: dtargets z I next ts
  end.

(** *** What is to be shown of the decompiler *)

Notation cur := mkCursor.
(** With enough fuel. *)
Definition ev (Q : nat -> Prop) : Prop := exists n, forall k, (n <= k)%nat -> Q k.
(** The early exits. *)
Definition ends (eop : Z) : Prop := eop = EOP_END_CATCH \/ eop = EOP_END_EXCEPT \/ eop = EOP_END_FINALLY \/ eop = EOP_CONTINUE.

Section Statements.
Context (program : Program) (capacity : Z).
Notation L := (p_literals program).

Definition returns (bc : Bytecodes) (stop : Z) (ss sa : bool) (c r : Cursor) : Prop :=
  ev (fun k => run program capacity k bc stop ss sa c = Some r).
(** Running from [c] comes to [c']. *)
Definition exec (bc : Bytecodes) (stop : Z) (ss sa : bool) (c c' : Cursor) : Prop :=
  forall r, returns bc stop ss sa c' r -> returns bc stop ss sa c r.

Context (bc : Bytecodes) (z : sizes) (I : list item).
Notation P := (place z I).

(** Running over the items takes the stack from [es] to [es']. *)
Definition ran (pc : Z) (i : list item) (es es' : list Expr) : Prop :=
  seg I pc i -> forall stop ss sa st sk ar, P (pc + ilen i) <= stop ->
  exec bc stop ss sa (cur (P pc) st es sk ar) (cur (P (pc + ilen i)) st es' sk ar).

Definition fitting (es : list Expr) (d : Z) : Prop := Z.of_nat (length es) + d <= capacity.

Definition dec (e : Expr) : Prop := forall inx pc c sv i es, wf_e inx e = true -> dwf_e e = true -> code_e L pc c sv e i ->
  fitting es (depth_e e) -> ran pc i es (e :: es).
(** A left-hand side leaves its value, or what is needed to assign to it. *)
Definition dec_lv (e : Expr) : Prop := forall above inx pc c sv i es, wf_lv inx above e = true -> dwf_e e = true -> code_lv L pc c sv e above i ->
  fitting es (depth_lv e above) -> ran pc i es (if above then e :: es else operands e ++ es).
Definition dec_args (args : Arg_List) : Prop := forall inx pc c sv i es, wf_args inx args = true -> dwf_args args = true -> code_args L pc c sv args i ->
  fitting es (depth_args args) -> ran pc i es (EXPR_LIST args :: es).
Definition dec_more (args : Arg_List) : Prop := forall inx k e0 a0 pc c sv i es, wf_args inx args = true -> dwf_args args = true -> code_more L pc c sv args i ->
  fitting es (1 + depth_more args) -> ran pc i (EXPR_LIST (ACons k e0 a0) :: es) (EXPR_LIST (args_app (ACons k e0 a0) args) :: es).
Definition dec_ptr (p : Expr_ptr) : Prop := match p with Null => True | Ptr e => dec e end.
Fixpoint dec_defaults (sc : Scatter) : Prop := match sc with SNil => True | SCons _ _ expr next => dec_ptr expr /\ dec_defaults next end.
End Statements.

(** ** Lemmas *)

Lemma sc_len_nonneg sc : 0 <= sc_len sc.
Proof. induction sc; cbn [sc_len]; lia. Qed.
Lemma rests_nonneg sc : 0 <= rests sc.
Proof. induction sc as [|kind id expr next IH]; cbn [rests]; [lia|]. destruct kind; lia. Qed.

Lemma seg_app I pc i j : seg I pc (i ++ j) -> seg I pc i /\ seg I (pc + ilen i) j.
Proof.
  intros [Hp [post H]]. split; (split; [pose proof (ilen_nonneg i); lia|]).
  - exists (j ++ post). by rewrite app_assoc.
  - exists post. replace (Z.to_nat (pc + ilen i)) with (Z.to_nat pc + length i)%nat by (unfold ilen; lia).
    rewrite <- drop_drop, H, <- app_assoc, drop_app_length. done.
Qed.
Lemma seg_cons I pc x i : seg I pc (x :: i) -> seg I pc [x] /\ seg I (pc + 1) i.
Proof. intros H. by apply (seg_app I pc [x] i). Qed.
Lemma seg_lookup I pc x i : seg I pc (x :: i) -> I !! Z.to_nat pc = Some x.
Proof.
  intros [Hp [post H]]. rewrite <- (Nat.add_0_r (Z.to_nat pc)), <- lookup_drop, H. done.
Qed.
Lemma seg_elem I pc x i : seg I pc (x :: i) -> x ∈ I.
Proof. intros H. apply seg_lookup in H. by eapply list_elem_of_lookup_2. Qed.

(** *** Reading code *)

Lemma dbind_eq {A B} (m : D A) (f : A -> D B) c a c1 : m c = Some (a, c1) -> (m ≫= f) c = f a c1.
Proof. intros H. unfold mbind, D_bind. by rewrite H. Qed.
Lemma dbind_assoc_eq {A B C} (m : D A) (f : A -> D B) (g : B -> D C) c b c1 : (m ≫= f) c = Some (b, c1) -> (a ← m; f a ≫= g) c = g b c1.
Proof. unfold mbind, D_bind. destruct (m c) as [[a c2]|]; [|done]. by intros ->. Qed.

Lemma pop_eq e p st es sk ar : Decompile.pop_expr (cur p st (e :: es) sk ar) = Some (e, cur p st es sk ar).
Proof. done. Qed.
Lemma check_eq b c : b = true -> dcheck b c = Some (tt, c).
Proof. by intros ->. Qed.

Lemma skip_eq n p st es sk ar : SKIP_BYTES n (cur p st es sk ar) = Some (tt, cur (p + n) st es sk ar).
Proof. done. Qed.

Lemma push_eq capacity e p st es sk ar : Z.of_nat (length es) < capacity ->
  push_expr capacity e (cur p st es sk ar) = Some (tt, cur p st (e :: es) sk ar).
Proof.
  intros H. unfold push_expr, dcheck, mbind, D_bind, dget. cbn [expr_stack]. destruct (Z.ltb_spec (Z.of_nat (length es)) capacity); [|lia]. done.
Qed.

Ltac bind H := rewrite (dbind_eq _ _ _ _ _ H).
(** What the machine does without the code. *)
Ltac easy_bind :=
  repeat match goal with
  | |- context [mbind ?f Decompile.pop_expr (cur ?p ?st (?e :: ?es) ?sk ?ar)] => bind (pop_eq e p st es sk ar)
  | |- context [mbind ?f (dget ptr) (cur ?p ?st ?es ?sk ?ar)] => bind (eq_refl : dget ptr (cur p st es sk ar) = Some (p, cur p st es sk ar))
  end.
Ltac pcs := rewrite ?ilen_app, ?ilen_cons, ?ilen_nil in *.
Ltac const c := try (let v := eval vm_compute in c in change c with v in * ).
Ltac consts := const OP_PUSH; const OP_PUT; const OP_G_PUSH; const OP_G_PUT; const OPTIM_NUM_START; const NUM_READY_VARS.

Section Vector.
Context (bc : Bytecodes) (z : sizes) (I : list item) (V : vec bc z I).
Notation P := (place z I).

Lemma kind_size_pos k : 1 <= kind_size z k.
Proof. destruct (e_sizes _ _ (v_encodes _ _ _ V) k) as [->|[->| ->]]; lia. Qed.

Lemma place_succ pc x i : seg I pc (x :: i) -> P (pc + 1) = P pc + item_size z x.
Proof.
  intros H. pose proof (seg_lookup _ _ _ _ H) as Hx. destruct H as [Hp _]. unfold place.
  replace (Z.to_nat (pc + 1)) with (S (Z.to_nat pc)) by lia. rewrite (take_S_r _ _ x Hx), isum_app.
  change (isum z [x]) with (item_size z x + 0). lia.
Qed.

Lemma place_op pc b i : seg I pc (Op b :: i) -> P (pc + 1) = P pc + 1.
Proof. apply place_succ. Qed.

Lemma place_mono pc pc' : 0 <= pc <= pc' -> P pc <= P pc'.
Proof.
  intros H. unfold place. replace (Z.to_nat pc') with (Z.to_nat pc + (Z.to_nat pc' - Z.to_nat pc))%nat by lia.
  assert (E : take (Z.to_nat pc + (Z.to_nat pc' - Z.to_nat pc)) I = take (Z.to_nat pc) I ++ take (Z.to_nat pc' - Z.to_nat pc) (drop (Z.to_nat pc) I)).
  { rewrite <- (take_drop (Z.to_nat pc) (take (Z.to_nat pc + (Z.to_nat pc' - Z.to_nat pc)) I)), take_take, skipn_firstn_comm.
    f_equal; [f_equal; lia|f_equal; lia]. }
  rewrite E, isum_app. pose proof (isum_ilen z (e_sizes _ _ (v_encodes _ _ _ V)) (take (Z.to_nat pc' - Z.to_nat pc) (drop (Z.to_nat pc) I))).
  pose proof (ilen_nonneg (take (Z.to_nat pc' - Z.to_nat pc) (drop (Z.to_nat pc) I))). lia.
Qed.

Lemma place_nonneg pc : 0 <= pc -> 0 <= P pc.
Proof. intros H. pose proof (place_mono 0 pc ltac:(lia)) as Hm. change (P 0) with 0 in Hm. exact Hm. Qed.

(** Items are not empty. *)
Lemma place_lt pc i : seg I pc i -> P pc + ilen i <= P (pc + ilen i).
Proof.
  revert pc. induction i as [|x i IH]; intros pc H.
  - rewrite ilen_nil, !Z.add_0_r. lia.
  - pose proof (place_succ _ _ _ H). apply seg_cons in H as [_ H]. specialize (IH _ H). rewrite ilen_cons.
    replace (pc + (1 + ilen i)) with (pc + 1 + ilen i) by lia.
    pose proof (item_size_pos z (e_sizes _ _ (v_encodes _ _ _ V)) x). lia.
Qed.

Lemma place_max pc : P pc <= isum z I.
Proof.
  unfold place. rewrite <- (take_drop (Z.to_nat pc) I) at 2. rewrite isum_app.
  pose proof (isum_ilen z (e_sizes _ _ (v_encodes _ _ _ V)) (drop (Z.to_nat pc) I)). pose proof (ilen_nonneg (drop (Z.to_nat pc) I)). lia.
Qed.

Lemma place_int pc : 0 <= pc -> int (P pc) = P pc.
Proof.
  intros H. pose proof (place_nonneg pc H). pose proof (place_max pc). pose proof (v_small _ _ _ V). unfold int. apply swrap_id; lia.
Qed.

(** The bytes at a place. *)
Lemma put_items_length i : Z.of_nat (length (flat_map (put_item z I) i)) = isum z i.
Proof.
  induction i as [|y i IH]; [done|]. cbn [isum foldr flat_map]. fold (isum z i).
  pose proof (put_item_length z (e_sizes _ _ (v_encodes _ _ _ V)) I y). rewrite length_app. lia.
Qed.

Lemma bytes_drop pc : drop (Z.to_nat (P pc)) (bc_vector bc) = flat_map (put_item z I) (drop (Z.to_nat pc) I).
Proof.
  rewrite (v_bytes _ _ _ V). unfold encode. unfold place. rewrite <- (put_items_length (take (Z.to_nat pc) I)), Nat2Z.id.
  assert (E : flat_map (put_item z I) I = flat_map (put_item z I) (take (Z.to_nat pc) I) ++ flat_map (put_item z I) (drop (Z.to_nat pc) I))
    by (by rewrite <- flat_map_app, take_drop).
  by rewrite E, drop_app_length.
Qed.

Lemma bytes_seg pc i : seg I pc i -> exists rest, drop (Z.to_nat (P pc)) (bc_vector bc) = flat_map (put_item z I) i ++ rest.
Proof. intros [_ [post H]]. rewrite bytes_drop, H, flat_map_app. eauto. Qed.
Lemma bytes_at pc x i : seg I pc (x :: i) -> exists rest, drop (Z.to_nat (P pc)) (bc_vector bc) = put_item z I x ++ rest.
Proof. intros [rest ->]%bytes_seg. cbn [flat_map]. rewrite <- app_assoc. eauto. Qed.

Lemma place_seg pc i : seg I pc i -> P (pc + ilen i) = P pc + isum z i.
Proof.
  intros [Hp [post H]]. unfold place. replace (Z.to_nat (pc + ilen i)) with (Z.to_nat pc + length i)%nat by (unfold ilen; lia).
  rewrite <- (take_drop (Z.to_nat pc) (take (Z.to_nat pc + length i) I)), take_take, skipn_firstn_comm, H, isum_app.
  replace (Z.to_nat pc `min` (Z.to_nat pc + length i))%nat with (Z.to_nat pc) by lia.
  replace (Z.to_nat pc + length i - Z.to_nat pc)%nat with (length i) by lia. by rewrite take_app_length.
Qed.

Lemma vector_byte_drop p rest n b : 0 <= p -> drop (Z.to_nat p) (bc_vector bc) = rest -> rest !! n = Some b ->
  vector_byte bc (p + Z.of_nat n) = Some b.
Proof.
  intros Hp <- H. unfold vector_byte. destruct (Z.ltb_spec (p + Z.of_nat n) 0); [lia|].
  rewrite lookup_drop in H. rewrite <- H. f_equal. lia.
Qed.

Lemma next_byte_op pc b i st es sk ar : seg I pc (Op b :: i) ->
  next_byte bc (mkCursor (P pc) st es sk ar) = Some (b, mkCursor (P (pc + 1)) st es sk ar).
Proof.
  intros H. destruct (bytes_at _ _ _ H) as [rest E]. pose proof (place_op _ _ _ H) as Ep. pose proof (proj1 H) as Hp.
  unfold next_byte. unfold mbind at 1, D_bind at 1, dget at 1. cbn [ptr].
  pose proof (vector_byte_drop (P pc) _ 0 b (place_nonneg _ Hp) E eq_refl) as Hb. cbn [Z.of_nat] in Hb. rewrite Z.add_0_r in Hb. rewrite Hb, Ep. done.
Qed.

Lemma lookup_app_prefix {A} (l r : list A) n x : l !! n = Some x -> (l ++ r) !! n = Some x.
Proof. apply lookup_app_l_Some. Qed.

(** Reading a number back. *)
Lemma read_back p k v rest st es sk ar : 0 <= p -> drop (Z.to_nat p) (bc_vector bc) = put_bytes (kind_size z k) v ++ rest ->
  fits (kind_size z k) v -> v < 2 ^ 32 ->
  READ_BYTES bc (kind_size z k) (mkCursor p st es sk ar) = Some (v, mkCursor (p + kind_size z k) st es sk ar).
Proof.
  intros Hp E [Hv0 Hv] Hsmall. unfold READ_BYTES, SKIP_BYTES.
  pose proof (vector_byte_drop p) as Hb.
  destruct (e_sizes _ _ (v_encodes _ _ _ V) k) as [Hk|[Hk|Hk]]; rewrite Hk in *; cbn [Z.eqb Pos.eqb] in *;
    unfold put_bytes in E; cbn [put_value Z.eqb Pos.eqb default from_option id] in E;
    unfold mbind, D_bind, dget, set_ptr, dmodify; cbn [ptr stmt_start expr_stack sink arms].
  - replace (p + 1 - 1) with (p + Z.of_nat 0) by lia. rewrite (Hb _ 0%nat _ Hp E eq_refl).
    unfold mret, D_ret. destruct Hv as [?|Hv]; [lia|]. rewrite uwrap_id by (change (256 ^ 1) with 256 in Hv; lia). done.
  - replace (p + 2 - 2) with (p + Z.of_nat 0) by lia. replace (p + 2 - 1) with (p + Z.of_nat 1) by lia.
    rewrite (Hb _ 0%nat _ Hp E eq_refl). cbn [option_bind]. rewrite (Hb _ 1%nat _ Hp E eq_refl). cbn [option_bind].
    destruct Hv as [?|Hv]; [lia|]. change (256 ^ 2) with 65536 in Hv.
    unfold mret, D_ret. do 2 f_equal. unfold uwrap. rewrite Z.shiftl_mul_pow2, Z.shiftr_div_pow2 by lia. change (2 ^ 8) with 256.
    Z.to_euclidean_division_equations; lia.
  - replace (p + 4 - 4) with (p + Z.of_nat 0) by lia. replace (p + 4 - 3) with (p + Z.of_nat 1) by lia.
    replace (p + 4 - 2) with (p + Z.of_nat 2) by lia. replace (p + 4 - 1) with (p + Z.of_nat 3) by lia.
    rewrite (Hb _ 0%nat _ Hp E eq_refl). cbn [option_bind]. rewrite (Hb _ 1%nat _ Hp E eq_refl). cbn [option_bind].
    rewrite (Hb _ 2%nat _ Hp E eq_refl). cbn [option_bind]. rewrite (Hb _ 3%nat _ Hp E eq_refl). cbn [option_bind].
    unfold mret, D_ret. do 2 f_equal.
    assert (Hx : Z.shiftl (uwrap 8 (Z.shiftr v 24)) 24 + Z.shiftl (uwrap 8 (Z.shiftr v 16)) 16 + Z.shiftl (uwrap 8 (Z.shiftr v 8)) 8 + uwrap 8 v = v).
    { unfold uwrap. rewrite !Z.shiftl_mul_pow2, !Z.shiftr_div_pow2 by lia. change (2 ^ 8) with 256. change (2 ^ 16) with 65536. change (2 ^ 24) with 16777216.
      change (2 ^ 32) with 4294967296 in Hsmall. Z.to_euclidean_division_equations; lia. }
    rewrite Hx. apply uwrap_id. lia.
Qed.

Lemma read_ref pc k v i st es sk ar : seg I pc (Ref k v :: i) -> v < 2 ^ 32 ->
  READ_BYTES bc (kind_size z k) (mkCursor (P pc) st es sk ar) = Some (v, mkCursor (P (pc + 1)) st es sk ar).
Proof.
  intros H Hv. destruct (bytes_at _ _ _ H) as [rest E]. rewrite (place_succ _ _ _ H). cbn [item_size].
  eapply read_back; [apply place_nonneg, H|exact E| |done]. apply (e_refs _ _ (v_encodes _ _ _ V)). by eapply seg_elem.
Qed.

Lemma read_label pc t i st es sk ar : seg I pc (Lab t :: i) ->
  READ_LABEL bc (mkCursor (P pc) st es sk ar) = Some (P t, mkCursor (P (pc + 1)) st es sk ar).
Proof.
  intros H. destruct (bytes_at _ _ _ H) as [rest E]. rewrite (place_succ _ _ _ H). cbn [item_size put_item] in *.
  destruct (e_labels _ _ (v_encodes _ _ _ V) t) as [Ht Hf]; [by eapply seg_elem|].
  pose proof (place_max t). pose proof (v_small _ _ _ V). pose proof (place_nonneg t (proj1 Ht)).
  unfold READ_LABEL, nb_label. rewrite (v_sizes _ _ _ V). rewrite uwrap_id in E by lia.
  apply (read_back (P pc) FIXUP_LABEL (P t) rest); [apply place_nonneg, H|exact E|exact Hf|lia].
Qed.

Lemma read_pseudo pc v i st es sk ar : seg I pc (Pseudo v :: i) -> 0 <= v < 256 ->
  READ_LABEL bc (mkCursor (P pc) st es sk ar) = Some (v, mkCursor (P (pc + 1)) st es sk ar).
Proof.
  intros H Hv. destruct (bytes_at _ _ _ H) as [rest E]. rewrite (place_succ _ _ _ H). cbn [item_size put_item] in *.
  unfold READ_LABEL, nb_label. rewrite (v_sizes _ _ _ V). rewrite uwrap_id in E by lia.
  apply (read_back (P pc) FIXUP_LABEL v rest); [apply place_nonneg, H|exact E| |lia].
  apply fits_256; [apply (e_sizes _ _ (v_encodes _ _ _ V))|done].
Qed.

Lemma read_id pc v i st es sk ar : seg I pc (Ref FIXUP_VAR_REF v :: i) -> v < 2 ^ 32 ->
  READ_ID bc (mkCursor (P pc) st es sk ar) = Some (v, mkCursor (P (pc + 1)) st es sk ar).
Proof. intros H Hv. unfold READ_ID, nb_var_name. rewrite (v_sizes _ _ _ V). by eapply (read_ref pc FIXUP_VAR_REF). Qed.

Lemma read_stack pc v i st es sk ar : seg I pc (Ref FIXUP_STACK v :: i) ->
  READ_STACK bc (mkCursor (P pc) st es sk ar) = Some (tt, mkCursor (P (pc + 1)) st es sk ar).
Proof.
  intros H. unfold READ_STACK, nb_stack. rewrite (v_sizes _ _ _ V), (place_succ _ _ _ H). done.
Qed.

Lemma place_jump pc b t i : seg I pc (Op b :: Lab t :: i) -> P (pc + 2) - jump_len bc = P pc.
Proof.
  intros Hs. pose proof (place_op _ _ _ Hs). apply seg_cons in Hs as [_ Hs]. pose proof (place_succ _ _ _ Hs) as Hl.
  replace (pc + 1 + 1) with (pc + 2) in Hl by lia. unfold jump_len, nb_label. rewrite (v_sizes _ _ _ V). change (nth 0 (size_list z) 0) with (s_label z).
  cbn [item_size] in Hl. lia.
Qed.

Lemma read_jump_eq pc t i st es sk ar : seg I pc (Op OP_JUMP :: Lab t :: i) ->
  read_jump bc (cur (P pc) st es sk ar) = Some (P t, cur (P (pc + 2)) st es sk ar).
Proof.
  intros Hs. unfold read_jump. rewrite (dbind_eq _ _ _ _ _ (next_byte_op _ _ _ st es sk ar Hs)), (dbind_eq _ _ _ _ _ (check_eq (OP_JUMP =? OP_JUMP) _ eq_refl)).
  apply seg_cons in Hs as [_ Hs]. rewrite (read_label _ _ _ st es sk ar Hs). by replace (pc + 1 + 1) with (pc + 2) by lia.
Qed.

Lemma place_ops pc a b i : seg I pc (Op a :: Op b :: i) -> P (pc + 2) = P pc + 2.
Proof.
  intros Hs. pose proof (place_op _ _ _ Hs). apply seg_cons in Hs as [_ Hs]. pose proof (place_op _ _ _ Hs) as H1.
  replace (pc + 1 + 1) with (pc + 2) in H1 by lia. lia.
Qed.

(** The end of the part between the mark and the exit. *)
Lemma read_end {A} (f : Z -> D A) pc eop i st es sk ar : seg I pc (Op OP_EXTENDED :: Op eop :: i) ->
  (SKIP_BYTES 1;; b ← next_byte bc; f b) (cur (P pc) st es sk ar) = f eop (cur (P (pc + 2)) st es sk ar).
Proof.
  intros Hs. bind (skip_eq 1 (P pc) st es sk ar). rewrite <- (place_op _ _ _ Hs). apply seg_cons in Hs as [_ Hs].
  bind (next_byte_op _ _ _ st es sk ar Hs). by replace (pc + 1 + 1) with (pc + 2) by lia.
Qed.

Lemma label_of_eq t c : 0 <= t -> label_of (EXPR_VAR (VInt (P t))) c = Some (P t, c).
Proof. intros Ht. cbn [label_of]. by rewrite (place_int t Ht). Qed.

End Vector.

(** *** Running *)

Lemma ev_always (Q : nat -> Prop) : (forall k, Q k) -> ev Q.
Proof. intros H. by exists 0%nat. Qed.
Lemma ev_impl (Q R : nat -> Prop) : ev Q -> (forall k, Q k -> R k) -> ev R.
Proof. intros [n H] HR. exists n. auto. Qed.
Lemma ev_and (Q R : nat -> Prop) : ev Q -> ev R -> ev (fun k => Q k /\ R k).
Proof. intros [n H] [m H']. exists (n + m)%nat. intros k Hk. split; [apply H|apply H']; lia. Qed.

Section Running.
Context (program : Program) (capacity : Z).
Notation L := (p_literals program).
Notation returns := (returns program capacity).
Notation exec := (exec program capacity).

Lemma exec_refl bc stop ss sa c : exec bc stop ss sa c c.
Proof. by intros r. Qed.
Lemma exec_trans bc stop ss sa c1 c2 c3 : exec bc stop ss sa c1 c2 -> exec bc stop ss sa c2 c3 -> exec bc stop ss sa c1 c3.
Proof. intros H1 H2 r H. auto. Qed.
Lemma exec_eq bc stop ss sa c1 c2 c2' : exec bc stop ss sa c1 c2 -> c2 = c2' -> exec bc stop ss sa c1 c2'.
Proof. by intros H <-. Qed.

Lemma stop_returns bc stop ss sa c : ptr c = stop -> returns bc stop ss sa c c.
Proof.
  intros E. exists 1%nat. intros [|k] Hk; [lia|]. cbn [run]. rewrite E, Z.ltb_irrefl, Z.eqb_refl. done.
Qed.

Lemma step_exec bc stop ss sa c c' : ptr c < stop -> ev (fun k => step program capacity (decompile program capacity k) bc stop ss sa c = Some (false, c')) ->
  exec bc stop ss sa c c'.
Proof.
  intros Hp [n Hn] r [m Hm]. exists (S (n + m)). intros [|k] Hk; [lia|]. cbn [run]. destruct (Z.ltb_spec (ptr c) stop); [|lia].
  change (fun bc start stop ss sa c => _) with (decompile program capacity k). rewrite Hn by lia. cbn [mbind option_bind]. apply Hm. lia.
Qed.
Lemma step_returns bc stop ss sa c c' : ptr c < stop -> ev (fun k => step program capacity (decompile program capacity k) bc stop ss sa c = Some (true, c')) ->
  returns bc stop ss sa c c'.
Proof.
  intros Hp [n Hn]. exists (S n). intros [|k] Hk; [lia|]. cbn [run]. destruct (Z.ltb_spec (ptr c) stop); [|lia].
  change (fun bc start stop ss sa c => _) with (decompile program capacity k). rewrite Hn by lia. done.
Qed.

(** A range decompiled by a call. *)
Lemma nest_decompile bc stop ss sa p st es sk ar c' : returns bc stop ss sa (cur p p es [] []) c' ->
  ev (fun k => DECOMPILE (decompile program capacity k) bc stop ss sa (cur p st es sk ar) =
    Some ((stmts_of (rev (sink c')), arms_of (rev (Decompile.arms c'))), cur (ptr c') st (Decompile.expr_stack c') sk ar)).
Proof.
  intros H. eapply ev_impl; [exact H|]. intros k E. unfold DECOMPILE, decompile, mbind, D_bind, dget. cbn [ptr expr_stack].
  rewrite E. done.
Qed.
Lemma nest_expr bc stop p st es sk ar c' : returns bc stop false false (cur p p es [] []) c' ->
  ev (fun k => DECOMPILE_expr (decompile program capacity k) bc stop (cur p st es sk ar) = Some (tt, cur (ptr c') st (Decompile.expr_stack c') sk ar)).
Proof.
  intros H. eapply ev_impl; [exact (nest_decompile _ _ _ _ _ st es sk ar _ H)|]. intros k E. unfold DECOMPILE_expr. by rewrite (dbind_eq _ _ _ _ _ E).
Qed.

Section Vec.
Context (bc : Bytecodes) (z : sizes) (I : list item) (V : vec bc z I).
Notation P := (place z I).
Notation ex stop ss sa := (exec bc stop ss sa).
Notation ran := (ran program capacity bc z I).
Notation dec := (dec program capacity bc z I).
Notation dec_lv := (dec_lv program capacity bc z I).
Notation dec_args := (dec_args program capacity bc z I).
Notation dec_more := (dec_more program capacity bc z I).
Notation dec_ptr := (dec_ptr program capacity bc z I).
Notation dec_defaults := (dec_defaults program capacity bc z I).
Notation fitting := (fitting capacity).

(** *** Stretches of items *)

Lemma ran_nil pc es : ran pc [] es es.
Proof. intros _ stop ss sa st sk ar _. rewrite ilen_nil, Z.add_0_r. apply exec_refl. Qed.

Lemma ran_app pc i j es es1 es2 : ran pc i es es1 -> ran (pc + ilen i) j es1 es2 -> ran pc (i ++ j) es es2.
Proof.
  intros H1 H2 Hs stop ss sa st sk ar Hstop. apply seg_app in Hs as [Hs1 Hs2]. rewrite ilen_app, Z.add_assoc in *.
  eapply exec_trans; [apply H1; [done|]|by apply H2].
  pose proof (place_mono bc z I V (pc + ilen i) (pc + ilen i + ilen j)) as Hm. pose proof (ilen_nonneg j). pose proof (proj1 Hs2). lia.
Qed.

Lemma ran_step pc op i es es' :
  (seg I pc (Op op :: i) -> seg I (pc + 1) i -> forall stop ss sa st sk ar, P (pc + 1 + ilen i) <= stop ->
     ev (fun k => step program capacity (decompile program capacity k) bc stop ss sa (cur (P pc) st es sk ar) =
       Some (false, cur (P (pc + 1 + ilen i)) st es' sk ar))) ->
  ran pc (Op op :: i) es es'.
Proof.
  intros H Hs stop ss sa st sk ar Hstop. rewrite ilen_cons, Z.add_assoc in *. pose proof (proj2 (seg_cons _ _ _ _ Hs)) as Hs'.
  apply step_exec; [|by apply H]. cbn [ptr]. pose proof (place_op z _ _ _ _ Hs). pose proof (place_lt bc z I V _ _ Hs'). pose proof (ilen_nonneg i). lia.
Qed.

Lemma ran_simple pc op i es es' m : simple_op program capacity bc op = Some m ->
  (seg I (pc + 1) i -> forall st sk ar, m (cur (P (pc + 1)) st es sk ar) = Some (tt, cur (P (pc + 1 + ilen i)) st es' sk ar)) ->
  ran pc (Op op :: i) es es'.
Proof.
  intros Em Er. apply ran_step. intros Hs Hs' stop ss sa st sk ar Hstop. apply ev_always. intros k. unfold step.
  rewrite (dbind_eq _ _ _ _ _ (next_byte_op bc z I V pc op i st es sk ar Hs)), Em, (dbind_eq _ _ _ _ _ (Er Hs' st sk ar)). done.
Qed.

Lemma extended_eq k pc eop i stop ss sa st es sk ar : seg I pc (Op OP_EXTENDED :: Op eop :: i) ->
  step program capacity (decompile program capacity k) bc stop ss sa (cur (P pc) st es sk ar) =
  extended_step capacity (decompile program capacity k) bc stop ss (cur (P (pc + 1)) st es sk ar).
Proof. intros Hs. unfold step. by rewrite (dbind_eq _ _ _ _ _ (next_byte_op bc z I V pc _ _ st es sk ar Hs)). Qed.

Lemma ran_extended pc op i es es' m : simple_extended_op capacity bc op = Some m ->
  (seg I (pc + 2) i -> forall st sk ar, m (cur (P (pc + 2)) st es sk ar) = Some (tt, cur (P (pc + 2 + ilen i)) st es' sk ar)) ->
  ran pc (Op OP_EXTENDED :: Op op :: i) es es'.
Proof.
  intros Em Er. apply ran_step. intros Hs Hs' stop ss sa st sk ar Hstop. apply ev_always. intros k.
  rewrite (extended_eq _ _ _ _ _ _ _ _ _ _ _ Hs). unfold extended_step. rewrite (dbind_eq _ _ _ _ _ (next_byte_op bc z I V (pc + 1) op i st es sk ar Hs')), Em.
  apply seg_cons in Hs' as [_ Hs']. rewrite ilen_cons. replace (pc + 1 + 1) with (pc + 2) in * by lia. replace (pc + 1 + (1 + ilen i)) with (pc + 2 + ilen i) by lia.
  by rewrite (dbind_eq _ _ _ _ _ (Er Hs' st sk ar)).
Qed.

(** A range on its own. *)
Lemma nested_expr pc i es es' st sk ar : ran pc i es es' -> seg I pc i ->
  ev (fun k => DECOMPILE_expr (decompile program capacity k) bc (P (pc + ilen i)) (cur (P pc) st es sk ar) =
    Some (tt, cur (P (pc + ilen i)) st es' sk ar)).
Proof.
  intros H Hs. apply (nest_expr _ _ _ st es sk ar (cur (P (pc + ilen i)) (P pc) es' [] [])).
  apply H; [done|done|]. by apply stop_returns.
Qed.

(** *** Single instructions *)

Lemma quick_simple op m : quick_op capacity op = Some m -> simple_op program capacity bc op = Some m.
Proof. intros E. unfold simple_op. rewrite E. assert (U : forall o : option (D unit), Some m ∪ o = Some m) by (by intros []). by rewrite !U. Qed.

Lemma ran_push_var id pc i es : 0 <= id < 256 -> code_var OP_PUSH id i -> Z.of_nat (length es) < capacity -> ran pc i es (EXPR_ID id :: es).
Proof.
  intros Hid Hc Hcap. destruct Hc as [[Hr ->]|[Hr ->]].
  - eapply ran_simple.
    + apply quick_simple. unfold quick_op. assert (IS_PUSH_n (OP_PUSH + id) = true) as ->; [|reflexivity].
      unfold IS_PUSH_n. consts. lia.
    + intros _ st sk ar. unfold PUSH_n_INDEX. replace (OP_PUSH + id - OP_PUSH) with id by lia. rewrite ilen_nil, Z.add_0_r. by apply push_eq.
  - eapply ran_simple; [reflexivity|]. intros Hs st sk ar. rewrite (dbind_eq _ _ _ _ _ (read_id bc z I V _ _ _ st es sk ar Hs ltac:(lia))). by apply push_eq.
Qed.

Lemma ran_put_var id pc i e es : 0 <= id < 256 -> code_var OP_PUT id i -> Z.of_nat (length es) < capacity ->
  ran pc i (e :: es) (EXPR_ASGN (EXPR_ID id) e :: es).
Proof.
  intros Hid Hc Hcap. destruct Hc as [[Hr ->]|[Hr ->]].
  - eapply ran_simple.
    + apply quick_simple. unfold quick_op. assert (IS_PUSH_n (OP_PUT + id) = false) as ->; [|assert (IS_PUT_n (OP_PUT + id) = true) as ->; [|reflexivity]].
      * unfold IS_PUSH_n. consts. lia.
      * unfold IS_PUT_n. consts. lia.
    + intros _ st sk ar. unfold PUT_n_INDEX. replace (OP_PUT + id - OP_PUT) with id by lia. rewrite ilen_nil, Z.add_0_r.
      rewrite (dbind_eq _ _ _ _ _ (pop_eq e _ st es sk ar)). by apply push_eq.
  - eapply ran_simple; [reflexivity|]. intros Hs st sk ar. rewrite (dbind_eq _ _ _ _ _ (read_id bc z I V _ _ _ st (e :: es) sk ar Hs ltac:(lia))).
    rewrite (dbind_eq _ _ _ _ _ (pop_eq e _ st es sk ar)). by apply push_eq.
Qed.

(** An instruction that takes expressions off the stack and puts one on it. *)
Ltac operator := intros; eapply ran_simple; [reflexivity|]; intros _ st sk ar; rewrite ilen_nil, Z.add_0_r; by apply push_eq.
Ltac extended_operator := intros; eapply ran_extended; [reflexivity|]; intros _ st sk ar; rewrite ilen_nil, Z.add_0_r; by apply push_eq.

Lemma ran_binary kind pc lhs rhs es : Z.of_nat (length es) < capacity ->
  ran pc (code_op (binary_op kind)) (rhs :: lhs :: es) (EXPR_BINARY kind lhs rhs :: es).
Proof. destruct kind; try operator; extended_operator. Qed.
Lemma ran_unary kind pc e es : Z.of_nat (length es) < capacity ->
  ran pc (code_op (unary_op kind)) (e :: es) (EXPR_UNARY kind e :: es).
Proof. destruct kind; try operator; extended_operator. Qed.
Lemma ran_prop op pc lhs rhs es : op = OP_GET_PROP \/ op = OP_PUSH_GET_PROP -> Z.of_nat (length es) < capacity ->
  ran pc [Op op] (rhs :: lhs :: es) (EXPR_PROP lhs rhs :: es).
Proof. intros [->| ->]; operator. Qed.
Lemma ran_index op pc lhs rhs es : op = OP_REF \/ op = OP_PUSH_REF -> Z.of_nat (length es) < capacity ->
  ran pc [Op op] (rhs :: lhs :: es) (EXPR_INDEX lhs rhs :: es).
Proof. intros [->| ->]; operator. Qed.
Lemma ran_range pc base from to es : Z.of_nat (length es) < capacity ->
  ran pc [Op OP_RANGE_REF] (to :: from :: base :: es) (EXPR_RANGE base from to :: es).
Proof. operator. Qed.
Lemma ran_verb pc obj verb args es : Z.of_nat (length es) < capacity ->
  ran pc [Op OP_CALL_VERB] (EXPR_LIST args :: verb :: obj :: es) (EXPR_VERB obj verb args :: es).
Proof. operator. Qed.
Lemma ran_length pc v es : Z.of_nat (length es) < capacity ->
  ran pc [Op OP_EXTENDED; Op EOP_LENGTH; Ref FIXUP_STACK v] es (EXPR_LENGTH :: es).
Proof.
  intros. eapply ran_extended; [reflexivity|]. intros Hs st sk ar. rewrite (dbind_eq _ _ _ _ _ (read_stack bc z I V _ _ _ st es sk ar Hs)). by apply push_eq.
Qed.
Lemma ran_first kind pc e es : Z.of_nat (length es) < capacity ->
  ran pc [Op (first_arg kind)] (e :: es) (EXPR_LIST (ACons kind e ANil) :: es).
Proof. destruct kind; operator. Qed.
Lemma ran_next kind pc args args' e es : Z.of_nat (length es) < capacity -> add_arg args kind e = Some args' ->
  ran pc [Op (next_arg kind)] (e :: EXPR_LIST args :: es) (EXPR_LIST args' :: es).
Proof.
  intros Hcap Ha. destruct kind; (eapply ran_simple; [reflexivity|]); intros _ st sk ar; rewrite ilen_nil, Z.add_0_r;
    rewrite (dbind_eq _ _ _ _ _ (pop_eq e _ st _ sk ar)), (dbind_eq _ _ _ _ _ (pop_eq _ _ st es sk ar)).
  - change (next_arg ARG_NORMAL =? OP_LIST_APPEND) with false. cbn iota. rewrite Ha. by apply push_eq.
  - change (next_arg ARG_SPLICE =? OP_LIST_APPEND) with true. cbn iota. rewrite Ha. by apply push_eq.
Qed.

Lemma read_op pc b i st es sk ar : seg I pc (Op b :: i) -> 0 <= b ->
  READ_BYTES bc 1 (cur (P pc) st es sk ar) = Some (b, cur (P (pc + 1)) st es sk ar).
Proof.
  intros Hs Hb. pose proof (place_op z _ _ _ _ Hs) as Ep. destruct (bytes_at bc z I V _ _ _ Hs) as [rest E].
  pose proof (vector_byte_drop bc (P pc) _ 0 b (place_nonneg bc z I V _ (proj1 Hs)) E eq_refl) as Hv. cbn [Z.of_nat] in Hv. rewrite Z.add_0_r in Hv.
  unfold READ_BYTES, SKIP_BYTES, mbind, D_bind, dget, set_ptr, dmodify. cbn [ptr stmt_start Decompile.expr_stack sink Decompile.arms Z.eqb Pos.eqb].
  rewrite Ep. replace (P pc + 1 - 1) with (P pc) by lia. by rewrite Hv.
Qed.
Lemma ran_call pc func args es : 0 <= func < 256 -> Z.of_nat (length es) < capacity ->
  ran pc [Op OP_BI_FUNC_CALL; Op (uwrap 8 func)] (EXPR_LIST args :: es) (EXPR_CALL func args :: es).
Proof.
  intros Hf Hcap. rewrite uwrap_id by (change (2 ^ 8) with 256; lia). eapply ran_simple; [reflexivity|]. intros Hs st sk ar.
  rewrite (dbind_eq _ _ _ _ _ (pop_eq _ _ st es sk ar)), (dbind_eq _ _ _ _ _ (read_op _ _ _ st es sk ar Hs ltac:(lia))). by apply push_eq.
Qed.

(** *** Instructions with parts of their own *)

Lemma ran_logic kind pc i2 e1 e2 es : ran (pc + 2) i2 es (e2 :: es) -> Z.of_nat (length es) < capacity ->
  ran pc ([Op (logic_op kind); Lab (pc + 2 + ilen i2)] ++ i2) (e1 :: es) (EXPR_LOGIC kind e1 e2 :: es).
Proof.
  intros H Hcap. apply ran_step. intros Hs Hs1 stop ss sa st sk ar _. pose proof (proj2 (seg_cons _ _ _ _ Hs1)) as Hs2.
  replace (pc + 1 + 1) with (pc + 2) in Hs2 by lia. cbn [app] in *. rewrite ilen_cons. replace (pc + 1 + (1 + ilen i2)) with (pc + 2 + ilen i2) by lia.
  eapply ev_impl; [exact (nested_expr _ _ _ _ st sk ar H Hs2)|]. intros k E. unfold step. bind (next_byte_op bc z I V _ _ _ st (e1 :: es) sk ar Hs).
  trans ((decompile_logic capacity (decompile program capacity k) bc kind;; mret false) (cur (P (pc + 1)) st (e1 :: es) sk ar)); [by destruct kind|].
  erewrite dbind_eq; [reflexivity|]. unfold decompile_logic. bind (read_label bc z I V _ _ _ st (e1 :: es) sk ar Hs1).
  replace (pc + 1 + 1) with (pc + 2) by lia. easy_bind. bind E. easy_bind. bind (check_eq (P (pc + 2 + ilen i2) =? P (pc + 2 + ilen i2)) (cur (P (pc + 2 + ilen i2)) st (e2 :: es) sk ar) (Z.eqb_refl _)).
  easy_bind. by apply push_eq.
Qed.

Lemma ran_cond pc i2 i3 c a b es : ran (pc + 2) i2 es (a :: es) -> ran (pc + 2 + ilen i2 + 2) i3 es (b :: es) -> Z.of_nat (length es) < capacity ->
  ran pc ([Op OP_IF_QUES; Lab (pc + 2 + ilen i2 + 2)] ++ i2 ++ [Op OP_JUMP; Lab (pc + 2 + ilen i2 + 2 + ilen i3)] ++ i3) (c :: es) (EXPR_COND c a b :: es).
Proof.
  intros H2 H3 Hcap. apply ran_step. cbn [app]. intros Hs Hs1 stop ss sa st sk ar _. pose proof (proj2 (seg_cons _ _ _ _ Hs1)) as Hs2.
  replace (pc + 1 + 1) with (pc + 2) in Hs2 by lia. apply seg_app in Hs2 as [Hs2 Hj]. pose proof (seg_app _ _ [_; _] _ Hj) as [_ Hs3].
  change (ilen [_; _]) with 2 in Hs3. rewrite ilen_cons, ilen_app, !ilen_cons. set (e := pc + 2 + ilen i2 + 2 + ilen i3) in *.
  replace (pc + 1 + (1 + (ilen i2 + (1 + (1 + ilen i3))))) with e by (unfold e; lia).
  eapply ev_impl; [exact (ev_and _ _ (nested_expr _ _ _ _ st sk ar H2 Hs2) (nested_expr _ _ _ _ st sk ar H3 Hs3))|]. intros k [E2 E3].
  unfold step. bind (next_byte_op bc z I V _ _ _ st (c :: es) sk ar Hs).
  trans ((decompile_cond capacity (decompile program capacity k) bc;; mret false) (cur (P (pc + 1)) st (c :: es) sk ar)); [done|].
  erewrite dbind_eq; [reflexivity|]. unfold decompile_cond. bind (read_label bc z I V _ _ _ st (c :: es) sk ar Hs1).
  replace (pc + 1 + 1) with (pc + 2) by lia. easy_bind. rewrite (place_jump bc z I V _ _ _ _ Hj). bind E2. bind (read_jump_eq bc z I V _ _ _ st (a :: es) sk ar Hj).
  easy_bind. fold e in E3. bind E3. easy_bind. bind (check_eq (P e =? P e) (cur (P e) st (b :: es) sk ar) (Z.eqb_refl _)). easy_bind. by apply push_eq.
Qed.

(** The early exits. *)

Lemma exit_returns pc eop i stop ss sa st es sk ar : ends eop -> seg I pc (Op OP_EXTENDED :: Op eop :: i) -> P (pc + 2) <= stop ->
  returns bc stop ss sa (cur (P pc) st es sk ar) (cur (P pc) st es sk ar).
Proof.
  intros He Hs Hstop. pose proof (place_ops z I _ _ _ _ Hs) as Hp. apply step_returns; [cbn [ptr]; lia|]. apply ev_always. intros k.
  rewrite (extended_eq _ _ _ _ _ _ _ _ _ _ _ Hs). unfold extended_step. apply seg_cons in Hs as [_ Hs].
  rewrite (dbind_eq _ _ _ _ _ (next_byte_op bc z I V _ _ _ st es sk ar Hs)). replace (pc + 1 + 1) with (pc + 2) by lia. rewrite Hp.
  trans (Some (true, cur (P pc + 2 + -2) st es sk ar)); [by destruct He as [->|[->|[->| ->]]]|]. by replace (P pc + 2 + -2) with (P pc) by lia.
Qed.

(** A range that ends with an early exit. *)
Lemma nested_exit pc i eop post es es' stop st sk ar : ran pc i es es' -> ends eop -> seg I pc (i ++ Op OP_EXTENDED :: Op eop :: post) ->
  P (pc + ilen i + 2) <= stop ->
  ev (fun k => DECOMPILE_expr (decompile program capacity k) bc stop (cur (P pc) st es sk ar) =
    Some (tt, cur (P (pc + ilen i)) st es' sk ar)).
Proof.
  intros H He Hs Hstop. apply seg_app in Hs as [Hs Hx]. apply (nest_expr _ _ _ st es sk ar (cur (P (pc + ilen i)) (P pc) es' [] [])).
  apply H; [done| |]; [|by eapply exit_returns]. pose proof (place_ops z I _ _ _ _ Hx). lia.
Qed.

Lemma ran_push_label pc t es : Z.of_nat (length es) < capacity -> ran pc [Op OP_EXTENDED; Op EOP_PUSH_LABEL; Lab t] es (EXPR_VAR (VInt (P t)) :: es).
Proof.
  intros Hcap. eapply ran_extended; [reflexivity|]. intros Hs st sk ar. bind (read_label bc z I V _ _ _ st es sk ar Hs). by apply push_eq.
Qed.

Lemma codes_of_eq codes c : codes_of (codes_expr codes) c = Some (codes, c).
Proof. by destruct codes. Qed.

Lemma ran_catch pc i2 i3 try codes except es :
  ran (pc + 2) i2 es (try :: es) -> Z.of_nat (length es) < capacity ->
  match except with
  | Null => i3 = [Op (OPTIM_NUM_TO_OPCODE 1); Op OP_REF]
  | Ptr e => exists i4, i3 = Op OP_POP :: i4 /\ ran (pc + 2 + ilen i2 + 3 + 1) i4 es (e :: es)
  end ->
  ran pc ([Op OP_EXTENDED; Op EOP_CATCH] ++ i2 ++ [Op OP_EXTENDED; Op EOP_END_CATCH; Lab (pc + 2 + ilen i2 + 3 + ilen i3)] ++ i3)
    (EXPR_VAR (VInt (P (pc + 2 + ilen i2 + 3))) :: codes_expr codes :: es) (EXPR_CATCH try codes except :: es).
Proof.
  intros H2 Hcap H3. apply ran_step. cbn [app]. intros Hs Hs1 stop ss sa st sk ar Hstop. pose proof (proj2 (seg_cons _ _ _ _ Hs1)) as Hs2.
  replace (pc + 1 + 1) with (pc + 2) in Hs2 by lia. pose proof (seg_app _ _ _ _ Hs2) as [_ Hx]. pose proof (proj1 Hs2) as Hpc.
  pose proof (seg_app _ _ [_; _; _] _ Hx) as [_ Hs3]. change (ilen [_; _; _]) with 3 in Hs3.
  pose proof (seg_app _ _ [_; _] _ Hx) as [_ Hl]. change (ilen [_; _]) with 2 in Hl. pose proof (ilen_nonneg i2). pose proof (ilen_nonneg i3).
  rewrite !ilen_cons, ilen_app, !ilen_cons in *. set (h := pc + 2 + ilen i2 + 3) in *.
  replace (pc + 1 + (1 + (ilen i2 + (1 + (1 + (1 + ilen i3)))))) with (h + ilen i3) in * by (unfold h; lia).
  assert (Hend : P (pc + 2 + ilen i2 + 2) <= stop).
  { pose proof (place_mono bc z I V (pc + 2 + ilen i2 + 2) (h + ilen i3)). unfold h in *. lia. }
  assert (Hd : ev (fun k =>
    (op ← next_byte bc;
     if op =? OPTIM_NUM_TO_OPCODE 1 then b ← next_byte bc; dcheck (b =? OP_REF);; mret Null
     else if op =? OP_POP then DECOMPILE_expr (decompile program capacity k) bc (P (h + ilen i3));; e ← Decompile.pop_expr; mret (Ptr e)
     else dpanic) (cur (P h) st es sk ar) = Some (except, cur (P (h + ilen i3)) st es sk ar))).
  { destruct except as [|e].
    - subst i3. apply ev_always. intros k. bind (next_byte_op bc z I V _ _ _ st es sk ar Hs3). rewrite Z.eqb_refl. apply seg_cons in Hs3 as [_ Hs3].
      bind (next_byte_op bc z I V _ _ _ st es sk ar Hs3). rewrite Z.eqb_refl. change (ilen [_; _]) with 2. by replace (h + 1 + 1) with (h + 2) by lia.
    - destruct H3 as (i4 & -> & H4). pose proof (seg_cons _ _ _ _ Hs3) as [_ Hs4]. rewrite ilen_cons, Z.add_assoc.
      eapply ev_impl; [exact (nested_expr _ _ _ _ st sk ar H4 Hs4)|]. intros k E. bind (next_byte_op bc z I V _ _ _ st es sk ar Hs3).
      change (OP_POP =? OPTIM_NUM_TO_OPCODE 1) with false. rewrite Z.eqb_refl. bind E. by easy_bind. }
  eapply ev_impl; [exact (ev_and _ _ (nested_exit _ _ _ _ _ _ _ st sk ar H2 (or_introl eq_refl) Hs2 Hend) Hd)|]. intros k [E2 E3].
  rewrite (extended_eq _ _ _ _ _ _ _ _ _ _ _ Hs). unfold extended_step. bind (next_byte_op bc z I V _ _ _ st (EXPR_VAR (VInt (P h)) :: codes_expr codes :: es) sk ar Hs1).
  replace (pc + 1 + 1) with (pc + 2) by lia.
  trans ((decompile_catch capacity (decompile program capacity k) bc stop;; mret false) (cur (P (pc + 2)) st (EXPR_VAR (VInt (P h)) :: codes_expr codes :: es) sk ar)); [done|].
  erewrite dbind_eq; [reflexivity|]. unfold decompile_catch. easy_bind. bind (label_of_eq bc z I V h (cur (P (pc + 2)) st es sk ar) ltac:(unfold h; lia)).
  bind (codes_of_eq codes (cur (P (pc + 2)) st es sk ar)). bind E2. rewrite (read_end bc z I V _ _ _ _ st (try :: es) sk ar Hx), Z.eqb_refl.
  bind (check_eq true (cur (P (pc + 2 + ilen i2 + 2)) st (try :: es) sk ar) eq_refl).
  bind (read_label bc z I V _ _ _ st (try :: es) sk ar Hl). replace (pc + 2 + ilen i2 + 2 + 1) with h by (unfold h; lia).
  rewrite (place_int bc z I V) by (unfold h; lia). easy_bind. bind (check_eq _ (cur (P h) st es sk ar) (Z.eqb_refl (P h))).
  rewrite (dbind_assoc_eq _ _ _ _ _ _ E3). easy_bind. bind (check_eq _ (cur (P (h + ilen i3)) st es sk ar) (Z.eqb_refl (P (h + ilen i3)))). by apply push_eq.
Qed.

(** *** Assignments *)

Lemma code_var_bytes op id i : 0 <= id < 256 -> id <> OP_PUSH_TEMP -> op = OP_PUT -> code_var op id i ->
  Forall (fun b => b <> OP_PUSH_TEMP) (flat_map (put_item z I) i).
Proof.
  intros Hid Hne -> [[Hr ->]|[Hr ->]]; cbn [flat_map app put_item]; rewrite ?app_nil_r.
  - constructor; [|done]. consts. const OP_PUSH_TEMP. lia.
  - constructor; [done|]. cbn [kind_size]. unfold put_bytes. const OP_PUSH_TEMP.
    destruct (e_sizes _ _ (v_encodes _ _ _ V) FIXUP_VAR_REF) as [E|[E|E]]; cbn [kind_size] in E; rewrite E; cbn [put_value Z.eqb Pos.eqb default from_option Datatypes.id];
      unfold uwrap; rewrite ?Z.shiftr_div_pow2 by lia; repeat constructor; change (2 ^ 8) with 256; change (2 ^ 16) with 65536; change (2 ^ 24) with 16777216;
      Z.to_euclidean_division_equations; lia.
Qed.

Lemma code_assign_bytes e inx above : forall i, wf_lv inx above e = true -> base_id e <> OP_PUSH_TEMP -> code_assign e i ->
  Forall (fun b => b <> OP_PUSH_TEMP) (flat_map (put_item z I) i).
Proof.
  revert above. induction e; intros above i Hw Hb Hc; try done; cbn [code_assign wf_lv base_id] in *.
  - apply (code_var_bytes OP_PUT id); try done. by apply slot_ok_range.
  - subst i. by repeat constructor.
  - destruct Hc as (i' & -> & Hc). apply andb_true_iff in Hw as [Hw _]. constructor; [done|]. by eapply IHe1.
  - destruct Hc as (i' & -> & Hc). rewrite !andb_true_iff in Hw. destruct Hw as [[[_ Hw] _] _]. do 2 (constructor; [done|]). by eapply IHe1.
Qed.

Lemma find_temp_app bs rest : Forall (fun b => b <> OP_PUSH_TEMP) bs -> find_temp (bs ++ OP_PUSH_TEMP :: rest) = Some (Z.of_nat (length bs)).
Proof.
  induction 1 as [|b bs Hb Hbs IH]; [done|]. cbn [app find_temp]. destruct (Z.eqb_spec b OP_PUSH_TEMP); [done|]. rewrite IH. cbn [fmap option_fmap option_map length]. f_equal. lia.
Qed.

Lemma finish_eq pc i st es sk ar : seg I pc (i ++ [Op OP_POP; Op OP_PUSH_TEMP]) -> Forall (fun b => b <> OP_PUSH_TEMP) (flat_map (put_item z I) i) ->
  finish_indexed_assignment bc (cur (P pc) st es sk ar) = Some (tt, cur (P (pc + ilen (i ++ [Op OP_POP; Op OP_PUSH_TEMP]))) st es sk ar).
Proof.
  intros Hs Hb. unfold finish_indexed_assignment. easy_bind. rewrite (place_seg z I _ _ Hs).
  destruct (bytes_seg bc z I V _ _ Hs) as [rest E]. rewrite E, flat_map_app. cbn [flat_map app put_item].
  replace ((flat_map (put_item z I) i ++ [OP_POP; OP_PUSH_TEMP]) ++ rest) with ((flat_map (put_item z I) i ++ [OP_POP]) ++ OP_PUSH_TEMP :: rest) by (by rewrite <- !app_assoc).
  rewrite find_temp_app by (apply Forall_app; split; [done|by repeat constructor]).
  rewrite length_app, Nat2Z.inj_add, (put_items_length bc z I V), isum_app. change (isum z [Op OP_POP; Op OP_PUSH_TEMP]) with 2. change (Z.of_nat (length [OP_POP])) with 1.
  unfold set_ptr, dmodify. cbn. do 3 f_equal. lia.
Qed.

Lemma ran_indexed lhs rv inx pc i es : is_indexed lhs = true -> wf_lv inx false lhs = true -> base_id lhs <> OP_PUSH_TEMP -> code_assign lhs i ->
  Z.of_nat (length es) < capacity ->
  ran pc ([Op OP_PUT_TEMP] ++ i ++ [Op OP_POP; Op OP_PUSH_TEMP]) (rv :: operands lhs ++ es) (EXPR_ASGN lhs rv :: es).
Proof.
  intros Hx Hw Hb Hc Hcap. eapply (ran_app pc [_]); [eapply ran_simple; [reflexivity|]; intros _ st sk ar; by rewrite ilen_nil, Z.add_0_r|].
  destruct lhs; try done; cbn [code_assign wf_lv base_id operands] in *; destruct Hc as (i' & -> & Hc).
  - apply andb_true_iff in Hw as [Hw _]. eapply ran_simple; [reflexivity|]. intros Hs st sk ar. cbn [app]. easy_bind.
    bind (push_eq capacity (EXPR_ASGN (EXPR_INDEX lhs1 lhs2) rv) (P (pc + ilen [Op OP_PUT_TEMP] + 1)) st es sk ar Hcap). apply finish_eq; [done|]. by eapply code_assign_bytes.
  - rewrite !andb_true_iff in Hw. destruct Hw as [[[_ Hw] _] _]. eapply ran_extended; [reflexivity|]. intros Hs st sk ar. cbn [app]. easy_bind.
    bind (push_eq capacity (EXPR_ASGN (EXPR_RANGE lhs1 lhs2 lhs3) rv) (P (pc + ilen [Op OP_PUT_TEMP] + 2)) st es sk ar Hcap). apply finish_eq; [done|]. by eapply code_assign_bytes.
Qed.

Lemma ran_assign lhs rv inx pc i es : is_indexed lhs = false -> wf_lv inx false lhs = true -> code_assign lhs i ->
  Z.of_nat (length es) < capacity -> ran pc i (rv :: operands lhs ++ es) (EXPR_ASGN lhs rv :: es).
Proof.
  intros Hx Hw Hc Hcap. destruct lhs; try done; cbn [code_assign wf_lv operands] in *.
  - apply ran_put_var; try done. by apply slot_ok_range.
  - subst i. eapply ran_simple; [reflexivity|]. intros _ st sk ar. rewrite ilen_nil, Z.add_0_r. cbn [app]. easy_bind. by apply push_eq.
Qed.

(** *** Scattering assignments *)

Lemma rest_pos_none sc n k : rests sc = 0 -> (k <= n \/ n + sc_len sc < k) -> rest_pos sc (n + 1) k.
Proof.
  revert n. induction sc as [|kind id expr next IH]; intros n Hr Hk; [done|]. cbn [rests rest_pos sc_len] in *.
  pose proof (sc_len_nonneg next). pose proof (rests_nonneg next). split.
  - split; [by intros ->; lia|lia].
  - apply IH; [destruct kind; lia|lia].
Qed.

Lemma scatter_counts_pos sc : forall n r rest0, rests sc <= 1 ->
  let '(nargs, _, rest) := scatter_counts sc n r rest0 in
  nargs = n + sc_len sc /\ (rests sc = 0 -> rest = rest0) /\ (rests sc = 1 -> n < rest <= nargs /\ rest_pos sc (n + 1) rest).
Proof.
  induction sc as [|kind id expr next IH]; intros n r rest0 Hr; cbn [scatter_counts rests sc_len rest_pos] in *; [lia|].
  pose proof (rests_nonneg next). pose proof (sc_len_nonneg next). destruct kind.
  - specialize (IH (n + 1) (r + 1) rest0 ltac:(lia)). destruct (scatter_counts next _ _ _) as [[na nr] rest]. destruct IH as (E & H1 & H2).
    split; [lia|]. split; [lia|]. intros E'. destruct (H2 ltac:(lia)) as [Hb Hp]. split; [lia|]. split; [|done]. split; [done|lia].
  - specialize (IH (n + 1) r rest0 ltac:(lia)). destruct (scatter_counts next _ _ _) as [[na nr] rest]. destruct IH as (E & H1 & H2).
    split; [lia|]. split; [lia|]. intros E'. destruct (H2 ltac:(lia)) as [Hb Hp]. split; [lia|]. split; [|done]. split; [done|lia].
  - specialize (IH (n + 1) r (n + 1) ltac:(lia)). destruct (scatter_counts next _ _ _) as [[na nr] rest]. destruct IH as (E & H1 & H2).
    split; [lia|]. split; [lia|]. intros _. rewrite H1 by lia. split; [lia|]. split; [done|]. apply rest_pos_none; lia.
Qed.

Lemma scatter_rest_pos sc : rests sc <= 1 -> let '(nargs, _, rest) := scatter_counts sc 0 0 (-1) in
  nargs = sc_len sc /\ rest_pos sc 1 (if rest =? -1 then nargs + 1 else rest).
Proof.
  intros Hr. pose proof (scatter_counts_pos sc 0 0 (-1) Hr) as H. destruct (scatter_counts sc 0 0 (-1)) as [[na nr] rest]. destruct H as (E & H1 & H2).
  split; [lia|]. pose proof (rests_nonneg sc). destruct (decide (rests sc = 0)) as [E0|E0].
  - rewrite H1 by done. rewrite Z.eqb_refl. apply (rest_pos_none sc 0); [done|lia].
  - destruct H2 as [Hb Hp]; [lia|]. destruct (Z.eqb_spec rest (-1)); [lia|]. exact Hp.
Qed.

Lemma read_targets_eq rest inx sc : forall ts pc idx i st es sk ar, code_targets sc ts i -> seg I pc i -> wf_scatter inx sc = true ->
  rest_pos sc idx rest -> (forall t, t ∈ ts -> 0 <= t /\ 1 < P t) ->
  read_targets bc (Z.to_nat (sc_len sc)) idx rest (cur (P pc) st es sk ar) = Some (dtargets z I sc ts, cur (P (pc + ilen i)) st es sk ar).
Proof.
  induction sc as [|kind id expr next IH]; intros ts pc idx i st es sk ar Hc Hs Hw Hr Ht; cbn [code_targets wf_scatter rest_pos sc_len dtargets] in *.
  { destruct Hc as [-> ->]. by rewrite ilen_nil, Z.add_0_r. }
  destruct Hc as (x & i' & -> & Hc). pose proof (sc_len_nonneg next). replace (Z.to_nat (1 + sc_len next)) with (S (Z.to_nat (sc_len next))) by lia.
  cbn [read_targets]. rewrite !andb_true_iff in Hw. destruct Hw as [[Hid%slot_ok_range Hw] Hex]. destruct Hr as [Hr Hrest].
  cbn [app] in Hs. bind (read_id bc z I V _ _ _ st es sk ar Hs ltac:(lia)). pose proof (proj2 (seg_cons _ _ _ _ Hs)) as Hx.
  pose proof (proj2 (seg_cons _ _ _ _ Hx)) as Hs'. replace (pc + 1 + 1) with (pc + 2) in * by lia.
  change (ilen ([_; x] ++ i')) with (ilen (Ref FIXUP_VAR_REF id :: x :: i')). rewrite !ilen_cons. replace (pc + (1 + (1 + ilen i'))) with (pc + 2 + ilen i') by lia.
  assert (Hpseudo : forall v, x = Pseudo v -> v = 0 \/ v = 1 -> READ_LABEL bc (cur (P (pc + 1)) st es sk ar) = Some (v, cur (P (pc + 2)) st es sk ar)).
  { intros v -> Hv. rewrite (read_pseudo bc z I V _ _ _ st es sk ar Hx) by lia. by replace (pc + 1 + 1) with (pc + 2) by lia. }
  destruct kind.
  - destruct expr; [|done]. destruct Hc as [-> Hc]. bind (Hpseudo 0 eq_refl ltac:(lia)). change (int 0) with 0.
    bind (IH ts (pc + 2) (idx + 1) i' st es sk ar Hc Hs' Hw Hrest Ht). destruct (Z.eqb_spec idx rest); [naive_solver|done].
  - destruct expr as [|e].
    + destruct Hc as [-> Hc]. bind (Hpseudo 1 eq_refl ltac:(lia)). change (int 1) with 1.
      bind (IH ts (pc + 2) (idx + 1) i' st es sk ar Hc Hs' Hw Hrest Ht). destruct (Z.eqb_spec idx rest); [naive_solver|done].
    + destruct Hc as (t & ts' & -> & -> & Hc). destruct (Ht t ltac:(by left)) as [Ht0 Ht1].
      bind (read_label bc z I V _ _ _ st es sk ar Hx). replace (pc + 1 + 1) with (pc + 2) by lia. rewrite (place_int bc z I V) by done.
      bind (IH ts' (pc + 2) (idx + 1) i' st es sk ar Hc Hs' Hw Hrest (fun t H => Ht t (list_elem_of_further _ _ _ H))). destruct (Z.eqb_spec idx rest); [naive_solver|].
      destruct (Z.eqb_spec (P t) 0); [lia|]. destruct (Z.ltb_spec 1 (P t)); [done|lia].
  - destruct expr; [|done]. destruct Hc as [-> Hc]. bind (Hpseudo 0 eq_refl ltac:(lia)). change (int 0) with 0.
    bind (IH ts (pc + 2) (idx + 1) i' st es sk ar Hc Hs' Hw Hrest Ht). destruct (Z.eqb_spec idx rest); [done|naive_solver].
Qed.

Lemma defaults_head pc c sv sc ts i : code_defaults L pc c sv sc ts i -> match ts with [] => i = [] | t :: _ => t = pc end.
Proof.
  induction sc as [|kind id expr next IH]; cbn [code_defaults]; [by intros [-> ->]|]. destruct kind; try done. destruct expr; try done.
  by intros (i1 & i2 & i3 & ts' & -> & _).
Qed.
Lemma defaults_ge pc c sv sc ts i t : code_defaults L pc c sv sc ts i -> t ∈ ts -> pc <= t.
Proof.
  revert pc ts i. induction sc as [|kind id expr next IH]; intros pc ts i; cbn [code_defaults]; [by intros [-> ->] ?%elem_of_nil|].
  destruct kind; try apply IH. destruct expr; try apply IH. intros (i1 & i2 & i3 & ts' & -> & _ & _ & _ & Hc) [->|Ht]%elem_of_cons; [lia|].
  apply (IH _ _ _ Hc) in Ht. pose proof (ilen_nonneg i1). pose proof (ilen_nonneg i2). lia.
Qed.

Lemma next_default_eq sc pc c sv ts i done : code_defaults L pc c sv sc ts i -> (forall t, t ∈ ts -> 1 < P t) ->
  next_default (dtargets z I sc ts) done = match ts with [] => done | t :: _ => P t end.
Proof.
  unfold next_default. induction sc as [|kind id expr next IH]; cbn [code_defaults dtargets]; [by intros [-> ->]|].
  intros Hc Ht. assert (Hskip : code_defaults L pc c sv next ts i ->
    match filter (fun t : Scatter_Kind * Z * Z => snd t <> 0) ((kind, id, 0) :: dtargets z I next ts) with [] => done | t :: _ => snd t end =
    match ts with [] => done | t :: _ => P t end).
  { intros Hc'. rewrite filter_cons_False by (cbn; lia). by apply IH. }
  destruct kind; try by apply Hskip. destruct expr; [by apply Hskip|]. destruct Hc as (i1 & i2 & i3 & ts' & -> & _).
  specialize (Ht pc ltac:(by left)). rewrite filter_cons_True by (cbn; lia). done.
Qed.

(** *** Expressions *)

Context (Hlits : Z.of_nat (length L) < 2 ^ 32).

Lemma ran_lit v pc i es : code_lit L v i -> Z.of_nat (length es) < capacity -> ran pc i es (EXPR_VAR v :: es).
Proof.
  intros [(n & -> & Hn & ->)|(k & Hk & Hl & ->)] Hcap.
  - unfold IN_OPTIM_NUM_RANGE, OPTIM_NUM_HI, OPTIM_NUM_LOW, Last_Opcode in Hn. eapply ran_simple.
    + apply quick_simple. unfold quick_op. unfold OPTIM_NUM_TO_OPCODE, OPTIM_NUM_LOW. set (op := OPTIM_NUM_START + n - -10).
      assert (Hop : OPTIM_NUM_START <= op) by (unfold op; lia).
      assert (IS_PUSH_n op = false) as -> by (unfold IS_PUSH_n; consts; lia).
      assert (IS_PUT_n op = false) as -> by (unfold IS_PUT_n; consts; lia).
      assert (IS_OPTIM_NUM_OPCODE op = true) as -> by (unfold IS_OPTIM_NUM_OPCODE; lia). reflexivity.
    + intros _ st sk ar. rewrite ilen_nil, Z.add_0_r. unfold OPCODE_TO_OPTIM_NUM. replace (_ - OPTIM_NUM_START + OPTIM_NUM_LOW) with n by (unfold OPTIM_NUM_LOW; lia).
      by apply push_eq.
  - eapply ran_simple; [reflexivity|]. intros Hs st sk ar. assert (Hlt : k < 2 ^ 32) by (apply lookup_lt_Some in Hl; lia).
    pose proof (read_ref bc z I V (pc + 1) FIXUP_LITERAL k [] st es sk ar Hs Hlt) as Hr.
    assert (E : READ_LITERAL program bc (cur (P (pc + 1)) st es sk ar) = Some (v, cur (P (pc + 1 + 1)) st es sk ar)).
    { unfold READ_LITERAL, nb_literal. rewrite (v_sizes _ _ _ V). change (nth 1 (size_list z) 0) with (kind_size z FIXUP_LITERAL).
      rewrite (dbind_eq _ _ _ _ _ Hr). by rewrite Hl. }
    rewrite (dbind_eq _ _ _ _ _ E). by apply push_eq.
Qed.

Lemma read_defaults_eq inx sc : dec_defaults sc -> forall pc c sv ts i st es sk ar, code_defaults L pc c sv sc ts i -> seg I pc i ->
  wf_scatter inx sc = true -> dwf_scatter sc = true -> fitting es (depth_defaults sc) -> (forall t, t ∈ ts -> 1 < P t) ->
  ev (fun k => read_defaults (decompile program capacity k) bc (dtargets z I sc ts) (P (pc + ilen i)) (cur (P pc) st es sk ar) =
    Some (sc, cur (P (pc + ilen i)) st es sk ar)).
Proof.
  induction sc as [|kind id expr next IH]; intros Hd pc c sv ts i st es sk ar Hc Hs Hw Hdw Hf Ht.
  { destruct Hc as [-> ->]. apply ev_always. intros k. by rewrite ilen_nil, Z.add_0_r. }
  cbn [dec_defaults wf_scatter dwf_scatter depth_defaults] in *. destruct Hd as [Hd Hds]. rewrite !andb_true_iff in Hw. destruct Hw as [[Hid Hw] Hex]. apply andb_true_iff in Hdw as [Hdw Hde].
  assert (Hskip : code_defaults L pc c sv next ts i -> expr = Null ->
    ev (fun k => read_defaults (decompile program capacity k) bc ((kind, id, 0) :: dtargets z I next ts) (P (pc + ilen i)) (cur (P pc) st es sk ar) =
      Some (SCons kind id Null next, cur (P (pc + ilen i)) st es sk ar))).
  { intros Hc' ->. eapply ev_impl; [exact (IH Hds pc c sv ts i st es sk ar Hc' Hs Hw Hdw Hf Ht)|]. intros k E. cbn [read_defaults]. rewrite Z.eqb_refl. by bind E. }
  destruct expr as [|e]; [destruct kind; by apply Hskip|]. destruct kind; try done. clear Hskip.
  cbn [code_defaults dtargets] in *. destruct Hc as (i1 & i2 & i3 & ts' & -> & -> & C1 & C2 & C3). pose proof (Ht pc ltac:(by left)) as Hp.
  assert (R : ran pc (i1 ++ i2) es (EXPR_ASGN (EXPR_ID id) e :: es)).
  { unfold fitting in *. pose proof (depth_pos e). eapply ran_app; [eapply Hd; try done; unfold fitting; lia|]. apply ran_put_var; [by apply slot_ok_range|done|lia]. }
  rewrite app_assoc in Hs. pose proof (seg_app _ _ _ _ Hs) as [Hs1 Hs2]. pose proof (seg_cons _ _ _ _ Hs2) as [_ Hs3].
  rewrite app_assoc, ilen_app. change (ilen ([Op OP_POP] ++ i3)) with (ilen (Op OP_POP :: i3)). rewrite ilen_cons.
  replace (pc + (ilen (i1 ++ i2) + (1 + ilen i3))) with (pc + ilen (i1 ++ i2) + 1 + ilen i3) by lia. set (q := pc + ilen (i1 ++ i2)) in *.
  replace (pc + ilen i1 + ilen i2 + 1) with (q + 1) in C3 by (unfold q; rewrite ilen_app; lia).
  assert (Hf' : fitting es (depth_defaults next)) by (unfold fitting in *; lia).
  assert (Ht' : forall t, t ∈ ts' -> 1 < P t) by (intros t H; apply Ht; by right).
  eapply ev_impl; [exact (ev_and _ _ (nested_expr _ _ _ _ st sk ar R Hs1) (IH Hds (q + 1) c sv ts' i3 st es sk ar C3 Hs3 Hw Hdw Hf' Ht'))|].
  intros k [E1 E2]. cbn [read_defaults]. destruct (Z.eqb_spec (P pc) 0); [lia|]. easy_bind. bind (check_eq _ (cur (P pc) st es sk ar) (Z.eqb_refl (P pc))).
  assert (Hn : next_default (dtargets z I next ts') (P (q + 1 + ilen i3)) - 1 = P q).
  { rewrite (next_default_eq _ _ _ _ _ _ _ C3 Ht'). pose proof (defaults_head _ _ _ _ _ _ C3) as Hh. pose proof (place_op z _ _ _ _ Hs2) as Ho.
    destruct ts' as [|t ts']; [subst i3; rewrite ilen_nil, Z.add_0_r|subst t]; lia. }
  fold q in E1. rewrite Hn. bind E1. easy_bind. bind (check_eq _ (cur (P q) st es sk ar) (Z.eqb_refl id)).
  bind (next_byte_op bc z I V _ _ _ st es sk ar Hs2). bind (check_eq _ (cur (P (q + 1)) st es sk ar) (Z.eqb_refl OP_POP)). by bind E2.
Qed.

Lemma uwrap8 n : 0 <= n < 256 -> uwrap 8 n = n.
Proof. intros H. apply uwrap_id. exact H. Qed.

Lemma ran_scatter inx sc pc c sv ts i2 i3 rhs es nargs nreq rest : dec_defaults sc -> scatter_rest sc = (nargs, nreq, rest) -> 0 <= pc ->
  nargs < 256 -> rest < 256 -> wf_scatter inx sc = true -> dwf_e (EXPR_SCATTER sc) = true -> fitting es (1 + depth_defaults sc) ->
  code_targets sc ts i2 -> code_defaults L (pc + 5 + ilen i2 + 1) c sv sc ts i3 ->
  ran pc ([Op OP_EXTENDED; Op EOP_SCATTER; Op (uwrap 8 nargs); Op (uwrap 8 nreq); Op (uwrap 8 rest)] ++
    i2 ++ [Lab (pc + 5 + ilen i2 + 1 + ilen i3)] ++ i3) (rhs :: es) (EXPR_ASGN (EXPR_SCATTER sc) rhs :: es).
Proof.
  intros Hd Hr Hpc Hna Hre Hw [Hdw Hone]%andb_true_iff Hf C2 C3. pose proof (scatter_rest_pos sc ltac:(lia)) as Hpos. unfold scatter_rest in Hr.
  pose proof (scatter_counts_mono sc 0 0 (-1) ltac:(lia) ltac:(lia) ltac:(lia)) as Hcnt.
  destruct (scatter_counts sc 0 0 (-1)) as [[na nr] re]. destruct Hpos as [-> Hpos].
  assert (sc_len sc = nargs /\ (if re =? -1 then sc_len sc + 1 else re) = rest) as [En Er] by (injection Hr as -> -> ->; done). rewrite Er in Hpos. rewrite En in *. clear Hr.
  assert (Hre0 : 0 <= rest) by (destruct (Z.eqb_spec re (-1)); lia). rewrite (uwrap8 nargs), (uwrap8 rest) by lia.
  apply ran_step. cbn [app]. intros Hs Hs1 stop ss sa st sk ar Hstop.
  pose proof (seg_cons _ _ _ _ Hs1) as [_ Hs2]. pose proof (seg_cons _ _ _ _ Hs2) as [_ Hs3]. pose proof (seg_cons _ _ _ _ Hs3) as [_ Hs4].
  pose proof (seg_cons _ _ _ _ Hs4) as [_ Hs5]. replace (pc + 1 + 1 + 1 + 1) with (pc + 4) in * by lia. replace (pc + 1 + 1 + 1) with (pc + 3) in * by lia.
  replace (pc + 1 + 1) with (pc + 2) in * by lia. replace (pc + 4 + 1) with (pc + 5) in * by lia.
  pose proof (seg_app _ _ _ _ Hs5) as [Hs6 Hl]. pose proof (seg_cons _ _ _ _ Hl) as [_ Hs7].
  rewrite !ilen_cons, ilen_app, ilen_cons. set (q := pc + 5 + ilen i2 + 1) in *. replace (pc + 1 + _) with (q + ilen i3) by (unfold q; lia).
  assert (Hq : 1 < P q).
  { pose proof (place_op z _ _ _ _ Hs). pose proof (place_op z _ _ _ _ Hs1). pose proof (place_nonneg bc z I V pc Hpc). pose proof (ilen_nonneg i2).
    replace (pc + 1 + 1) with (pc + 2) in * by lia. pose proof (place_mono bc z I V (pc + 2) q). unfold q in *. lia. }
  assert (Ht : forall t, t ∈ ts -> 0 <= t /\ 1 < P t).
  { intros t H. apply (defaults_ge _ _ _ _ _ _ _ C3) in H. pose proof (ilen_nonneg i2). pose proof (place_mono bc z I V q t). unfold q in *. lia. }
  pose proof (read_targets_eq rest inx sc ts (pc + 5) 1 i2 st (rhs :: es) sk ar C2 Hs6 Hw Hpos Ht) as E1.
  eapply ev_impl; [exact (read_defaults_eq inx sc Hd q c sv ts i3 st (rhs :: es) sk ar C3 Hs7 Hw Hdw
    ltac:(unfold fitting in *; cbn [length]; lia) (fun t H => proj2 (Ht t H)))|].
  intros k E2.
  rewrite (extended_eq _ _ _ _ _ _ _ _ _ _ _ Hs). unfold extended_step. bind (next_byte_op bc z I V _ _ _ st (rhs :: es) sk ar Hs1).
  trans ((decompile_scatter capacity (decompile program capacity k) bc;; mret false) (cur (P (pc + 1 + 1)) st (rhs :: es) sk ar)); [done|].
  replace (pc + 1 + 1) with (pc + 2) by lia. erewrite dbind_eq; [reflexivity|]. unfold decompile_scatter.
  bind (next_byte_op bc z I V _ _ _ st (rhs :: es) sk ar Hs2). replace (pc + 2 + 1) with (pc + 3) by lia.
  bind (skip_eq 1 (P (pc + 3)) st (rhs :: es) sk ar). rewrite <- (place_op z _ _ _ _ Hs3). replace (pc + 3 + 1) with (pc + 4) by lia.
  bind (next_byte_op bc z I V _ _ _ st (rhs :: es) sk ar Hs4). replace (pc + 4 + 1) with (pc + 5) by lia. rewrite <- En. bind E1.
  bind (read_label bc z I V _ _ _ st (rhs :: es) sk ar Hl). pose proof (ilen_nonneg i2). pose proof (ilen_nonneg i3).
  rewrite (place_int bc z I V) by (unfold q; lia). fold q. bind E2. easy_bind. unfold fitting in Hf. pose proof (depth_defaults_pos sc).
  bind (push_eq capacity (EXPR_ASGN (EXPR_SCATTER sc) rhs) (P (q + ilen i3)) st es sk ar ltac:(lia)). easy_bind. by rewrite Z.eqb_refl.
Qed.

Ltac ands := repeat match goal with H : andb _ _ = true |- _ => apply andb_true_iff in H as [? ?] | H : _ /\ _ |- _ => destruct H | H : exists _, _ |- _ => destruct H end.
Ltac fit := unfold fitting in *; cbn [length] in *; depths; lia.
Ltac part IH := eapply ran_app; [eapply IH; [eassumption..|fit]|].
Ltac code_case := intros inx pc c sv i es Hw Hdw Hc Hf; cbn [wf_e dwf_e code_e depth_e] in *; ands; subst.

Lemma dec_prop lhs rhs : dec lhs -> dec rhs -> dec (EXPR_PROP lhs rhs).
Proof. intros H1 H2. code_case. part H1. part H2. apply ran_prop; [by left|fit]. Qed.
Lemma dec_binary kind lhs rhs : dec lhs -> dec rhs -> dec (EXPR_BINARY kind lhs rhs).
Proof. intros H1 H2. code_case. part H1. part H2. apply ran_binary; fit. Qed.
Lemma dec_unary kind e : dec e -> dec (EXPR_UNARY kind e).
Proof. intros H1. code_case. part H1. apply ran_unary; fit. Qed.
Lemma dec_index lhs rhs : dec lhs -> dec rhs -> dec (EXPR_INDEX lhs rhs).
Proof. intros H1 H2. code_case. part H1. part H2. apply ran_index; [by left|fit]. Qed.
Lemma dec_range base from to : dec base -> dec from -> dec to -> dec (EXPR_RANGE base from to).
Proof. intros H1 H2 H3. code_case. part H1. part H2. part H3. apply ran_range; fit. Qed.
Lemma dec_verb obj verb args : dec obj -> dec verb -> dec_args args -> dec (EXPR_VERB obj verb args).
Proof. intros H1 H2 H3. code_case. part H1. part H2. part H3. apply ran_verb; fit. Qed.
Lemma dec_call func args : dec_args args -> dec (EXPR_CALL func args).
Proof. intros H. code_case. part H. apply ran_call; [lia|fit]. Qed.
Lemma dec_list args : dec_args args -> dec (EXPR_LIST args).
Proof. intros H. code_case. by eapply H. Qed.
Lemma dec_logic kind lhs rhs : dec lhs -> dec rhs -> dec (EXPR_LOGIC kind lhs rhs).
Proof. intros H1 H2. code_case. part H1. apply ran_logic; [|fit]. eapply H2; [eassumption..|fit]. Qed.
Lemma dec_cond b0 b1 b2 : dec b0 -> dec b1 -> dec b2 -> dec (EXPR_COND b0 b1 b2).
Proof. intros H1 H2 H3. code_case. part H1. apply ran_cond; [eapply H2; [eassumption..|fit]|eapply H3; [eassumption..|fit]|fit]. Qed.

Lemma dec_codes codes : dec_args codes -> forall inx pc c sv i es, wf_args inx codes = true -> dwf_args codes = true ->
  match codes with ANil => i = [Op (OPTIM_NUM_TO_OPCODE 0)] | _ => code_args L pc c sv codes i end ->
  fitting es (depth_args codes) -> ran pc i es (codes_expr codes :: es).
Proof.
  intros H inx pc c sv i es Hw Hdw Hc Hf. destruct codes; [|by eapply H]. apply ran_lit; [|fit]. left. by exists 0.
Qed.

Lemma dec_catch try codes except : dec try -> dec_args codes -> dec_ptr except -> dec (EXPR_CATCH try codes except).
Proof.
  intros H1 H2 H3. code_case.
  match goal with |- ran _ (?i1 ++ [_; _; ?l; _; _] ++ ?i2 ++ ?i3) _ _ =>
    replace (i1 ++ [Op OP_EXTENDED; Op EOP_PUSH_LABEL; l; Op OP_EXTENDED; Op EOP_CATCH] ++ i2 ++ i3)
      with (i1 ++ [Op OP_EXTENDED; Op EOP_PUSH_LABEL; l] ++ [Op OP_EXTENDED; Op EOP_CATCH] ++ i2 ++ i3) by done end.
  eapply ran_app; [eapply dec_codes; [done|eassumption..|fit]|]. eapply ran_app; [apply ran_push_label; fit|].
  change (ilen [Op OP_EXTENDED; Op EOP_PUSH_LABEL; _]) with 3.
  match goal with |- context [P (pc + ilen ?i1 + 5 + ilen ?i2 + 3)] => replace (pc + ilen i1 + 5 + ilen i2 + 3) with (pc + ilen i1 + 3 + 2 + ilen i2 + 3) in * by lia;
    replace (pc + ilen i1 + 5) with (pc + ilen i1 + 3 + 2) in * by lia end.
  apply ran_catch; [eapply H1; [eassumption..|fit]|fit|].
  destruct except; [done|]. ands. subst. eexists. split; [reflexivity|]. eapply H3; [eassumption..|fit].
Qed.

Lemma add_arg_app k0 e0 a k e next : exists args, add_arg (ACons k0 e0 a) k e = Some args /\
  (exists k' e' a', args = ACons k' e' a') /\ args_app args next = args_app (ACons k0 e0 a) (ACons k e next).
Proof.
  revert k0 e0. induction a as [|k1 e1 a IH]; intros k0 e0; [eexists; split; [reflexivity|]; eauto|].
  destruct (IH k1 e1) as (args & E & _ & E'). exists (ACons k0 e0 args). cbn [add_arg args_app] in *. rewrite E. split; [done|]. split; [eauto|]. by rewrite E'.
Qed.

Lemma dec_args_nil : dec_args ANil /\ dec_more ANil.
Proof.
  split.
  - intros inx pc c sv i es _ _ -> Hf. cbn [depth_args] in Hf. eapply ran_simple; [reflexivity|]. intros _ st sk ar. rewrite ilen_nil, Z.add_0_r. apply push_eq. fit.
  - intros inx k e0 a0 pc c sv i es _ _ -> Hf. assert (E : args_app (ACons k e0 a0) ANil = ACons k e0 a0).
    { generalize (ACons k e0 a0). intros a. induction a as [|? ? ? IH]; cbn [args_app]; [done|]. by rewrite IH. }
    rewrite E. apply ran_nil.
Qed.
Lemma dec_args_cons kind e next : dec e -> dec_more next -> dec_args (ACons kind e next) /\ dec_more (ACons kind e next).
Proof.
  intros H1 H2. split.
  - intros inx pc c sv i es Hw Hdw Hc Hf. cbn [wf_args dwf_args code_args depth_args] in *. ands. subst. part H1.
    eapply ran_app; [apply ran_first; fit|]. change (ilen [Op (first_arg kind)]) with 1. apply (H2 inx kind e ANil (pc + ilen x + 1) (c + 1) sv x0 es); [done..|fit].
  - intros inx k e0 a0 pc c sv i es Hw Hdw Hc Hf. cbn [wf_args dwf_args code_more depth_more] in *. ands. subst. part H1.
    destruct (add_arg_app k e0 a0 kind e next) as (args & Ea & (k' & e' & a' & ->) & E). eapply ran_app; [apply ran_next; [fit|exact Ea]|].
    change (ilen [Op (next_arg kind)]) with 1. rewrite <- E. eapply H2; [eassumption..|fit].
Qed.

(** *** Left-hand sides *)

Lemma ran_shape pc i es es1 es2 : ran pc i es es1 -> es1 = es2 -> ran pc i es es2.
Proof. by intros H <-. Qed.
Ltac lv_case := intros above inx pc c sv i es Hw Hdw Hc Hf; cbn [wf_lv dwf_e code_lv depth_lv] in *; ands; subst.

Lemma dec_lv_id id : dec_lv (EXPR_ID id).
Proof.
  lv_case. destruct above; [|subst; apply ran_nil]. apply ran_push_var; [by apply slot_ok_range|done|]. cbn [lv_size] in *. fit.
Qed.
Lemma dec_lv_prop lhs rhs : dec lhs -> dec rhs -> dec_lv (EXPR_PROP lhs rhs).
Proof.
  intros H1 H2. lv_case. part H1. part H2. destruct above; [|apply ran_nil]. apply ran_prop; [by right|]. fit.
Qed.
Lemma lv_size_true e inx : wf_lv inx true e = true -> 1 <= lv_size e true.
Proof. intros H. rewrite (lv_size_above e inx H). pose proof (depth_lv_pos e false). lia. Qed.
Lemma dec_lv_index lhs rhs : dec_lv lhs -> dec rhs -> dec_lv (EXPR_INDEX lhs rhs).
Proof.
  intros H1 H2. lv_case. match goal with H : wf_lv _ true lhs = true |- _ => pose proof (lv_size_true _ _ H) end.
  eapply ran_app; [eapply (H1 true); [eassumption..|fit]|]. cbn match. part H2. destruct above; [|apply ran_nil]. apply ran_index; [by right|]. fit.
Qed.
Lemma dec_lv_range base from to : dec_lv base -> dec from -> dec to -> dec_lv (EXPR_RANGE base from to).
Proof.
  intros H1 H2 H3. lv_case. match goal with H : wf_lv _ true base = true |- _ => pose proof (lv_size_true _ _ H) end. destruct above; [done|].
  eapply ran_app; [eapply (H1 true); [eassumption..|fit]|]. cbn match. part H2. eapply H3; [eassumption..|fit].
Qed.

(** *** Assignments as expressions *)

Lemma code_asgn_eq pc c sv lhs rhs i : (forall sc, lhs <> EXPR_SCATTER sc) -> code_e L pc c sv (EXPR_ASGN lhs rhs) i ->
  exists i1 i2 i3, i = i1 ++ i2 ++ (if is_indexed lhs then [Op OP_PUT_TEMP] else []) ++ i3 ++ (if is_indexed lhs then [Op OP_POP; Op OP_PUSH_TEMP] else []) /\
    code_lv L pc c sv lhs false i1 /\ code_e L (pc + ilen i1) (c + lv_size lhs false) sv rhs i2 /\ code_assign lhs i3.
Proof. intros Hn Hc. destruct lhs; try exact Hc. by destruct (Hn scatter). Qed.
Lemma wf_asgn_eq inx lhs rhs : (forall sc, lhs <> EXPR_SCATTER sc) -> wf_e inx (EXPR_ASGN lhs rhs) = wf_lv inx false lhs && wf_e inx rhs.
Proof. intros Hn. destruct lhs; try done. by destruct (Hn scatter). Qed.
Lemma depth_asgn_eq lhs rhs : (forall sc, lhs <> EXPR_SCATTER sc) -> depth_e (EXPR_ASGN lhs rhs) = Z.max (depth_lv lhs false) (lv_size lhs false + depth_e rhs).
Proof. intros Hn. destruct lhs; try done. by destruct (Hn scatter). Qed.
Lemma operands_length e inx : wf_lv inx false e = true -> Z.of_nat (length (operands e)) <= lv_size e false.
Proof.
  destruct e; intros Hw; try done; cbn [wf_lv] in Hw; ands; cbn [operands length lv_size]; try lia;
    match goal with H : wf_lv _ true _ = true |- _ => pose proof (lv_size_true _ _ H) end; lia.
Qed.

Lemma dec_asgn lhs rhs : (forall sc, lhs <> EXPR_SCATTER sc) -> dec_lv lhs -> dec rhs -> dec (EXPR_ASGN lhs rhs).
Proof.
  intros Hn H1 H2 inx pc c sv i es Hw Hdw Hc Hf. rewrite (wf_asgn_eq _ _ _ Hn) in Hw. unfold fitting in Hf. rewrite (depth_asgn_eq _ _ Hn) in Hf.
  apply (code_asgn_eq _ _ _ _ _ _ Hn) in Hc as (i1 & i2 & i3 & -> & C1 & C2 & C3). cbn [dwf_e] in Hdw. ands.
  pose proof (operands_length lhs inx ltac:(done)) as Hl. pose proof (depth_pos rhs). pose proof (depth_lv_pos lhs false).
  eapply ran_app; [eapply (H1 false); [eassumption..|fit]|]. cbn match.
  eapply ran_app; [eapply H2; [eassumption..|unfold fitting; rewrite length_app; lia]|].
  destruct (is_indexed lhs) eqn:Ex.
  - eapply (ran_indexed _ _ inx); [done|done| |done|lia]. intros Hb. rewrite Hb in *. done.
  - cbn [app]. rewrite app_nil_r. eapply (ran_assign _ _ inx); try done. lia.
Qed.

Lemma dec_scatter sc rhs : dec_defaults sc -> dec rhs -> dec (EXPR_ASGN (EXPR_SCATTER sc) rhs).
Proof.
  intros H1 H2 inx pc c sv i es Hw Hdw Hc Hf. cbn [wf_e code_e depth_e] in *. destruct (scatter_rest sc) as [[nargs nreq] rest] eqn:Er.
  unfold scatter_rest in Er. cbn [dwf_e] in Hdw. destruct Hc as (i1 & i2 & i3 & ts & Hi & C1 & C2 & C3). ands.
  destruct (scatter_counts sc 0 0 (-1)) as [[na nr] re] eqn:Ec. assert (E : na = nargs /\ nr = nreq /\ (if re =? -1 then na + 1 else re) = rest) by (by injection Er as -> -> ->).
  destruct E as (-> & -> & E). rewrite E in Hi. subst i. clear Er.
  assert (Er : scatter_rest sc = (nargs, nreq, rest)) by (unfold scatter_rest; by rewrite Ec, E).
  intros Hseg. assert (Hpc : 0 <= pc + ilen i1) by (pose proof (proj1 Hseg); pose proof (ilen_nonneg i1); lia). revert Hseg.
  change (ran pc (i1 ++ [Op OP_EXTENDED; Op EOP_SCATTER; Op (uwrap 8 nargs); Op (uwrap 8 nreq); Op (uwrap 8 rest)] ++ i2 ++ [Lab (pc + ilen i1 + 5 + ilen i2 + 1 + ilen i3)] ++ i3) es (EXPR_ASGN (EXPR_SCATTER sc) rhs :: es)).
  eapply ran_app; [eapply H2; [eassumption..|fit]|].
  eapply (ran_scatter inx sc (pc + ilen i1)); try eassumption; [lia..| |fit]. cbn [dwf_e]. by apply andb_true_iff.
Qed.

(** *** The induction *)

Lemma dec_all : (forall e, dec e /\ dec_lv e /\ (forall sc, e = EXPR_SCATTER sc -> dec_defaults sc)) /\ (forall p, dec_ptr p) /\
  (forall a, dec_args a /\ dec_more a) /\ (forall sc, dec_defaults sc).
Proof.
  assert (Hno : forall e, (forall inx above, wf_lv inx above e = false) -> dec_lv e).
  { intros e H above inx pc c sv i es Hw. by rewrite H in Hw. }
  apply Expr_ind_all; intros;
    repeat match goal with H : _ /\ _ |- _ => destruct H end; try (split; [|split; [|by intros ? [= <-]||done]]); try (by apply Hno).
  all: try (first [ by apply dec_lv_id | by apply dec_prop | by apply dec_lv_prop | by apply dec_verb | by apply dec_index | by apply dec_lv_index
    | by apply dec_range | by apply dec_lv_range | by apply dec_call | by apply dec_binary | by apply dec_unary | by apply dec_logic
    | by apply dec_list | by apply dec_cond | by apply dec_catch | by apply dec_args_nil | by apply dec_args_cons | done ]).
  - intros inx pc c sv i es Hw Hdw Hc Hf. cbn [code_e depth_e] in *. apply ran_lit; [done|fit].
  - intros inx pc c sv i es Hw Hdw Hc Hf. cbn [wf_e code_e depth_e] in *. apply ran_push_var; [by apply slot_ok_range|done|fit].
  - assert ((exists sc, lhs = EXPR_SCATTER sc) \/ ~ exists sc, lhs = EXPR_SCATTER sc) as [[sc ->]|Hn] by (destruct lhs; try (right; intros [? ?]; done); left; eauto).
    + apply dec_scatter; eauto.
    + apply dec_asgn; auto. intros sc ->. apply Hn. by exists sc.
  - intros inx pc c sv i es Hw Hdw Hc Hf. cbn [code_e depth_e] in *. subst. apply ran_length. fit.
Qed.
Lemma dec_expr e : dec e.
Proof. apply dec_all. Qed.
Lemma dec_arguments a : dec_args a.
Proof. apply dec_all. Qed.
End Vec.
End Running.
