(* ===== verification/DecompileStmts.v ===== *)
(** * Decompiling statements

    The second half of the proof that the decompiler undoes the generator:
    statements, handlers, arms and forks, and with them programs. *)

From S2P Require Import Prelude Utf CString Values Db Ast CodeGen CodeSpec CodeProof CodeStmts Decompile DecompileProof.

(** ** Definitions *)

(** What the parser makes sure of and [wf_s] does not ask for, see [dwf_e]. *)
Fixpoint dwf_s (st : Stmt) : bool :=
  match st with
  | STMT_COND arms otherwise => match arms with CEnd => false | _ => dwf_arms arms end && dwf_ss otherwise
  | STMT_LIST _ expr body => dwf_e expr && dwf_ss body
  | STMT_RANGE _ from to body => dwf_e from && dwf_e to && dwf_ss body
  | STMT_WHILE _ condition body => dwf_e condition && dwf_ss body
  | STMT_FORK _ time body => dwf_e time && dwf_ss body
  | STMT_EXPR expr => dwf_e expr
  | STMT_RETURN (Ptr expr) => dwf_e expr
  | STMT_RETURN Null | STMT_BREAK _ | STMT_CONTINUE _ => true
  | STMT_TRY_EXCEPT body excepts => dwf_ss body && dwf_handlers excepts
  | STMT_TRY_FINALLY body handler => dwf_ss body && dwf_ss handler
  end
with dwf_ss (st : Stmts) : bool :=
  match st with SEnd => true | SNext st next => dwf_s st && dwf_ss next end
with dwf_arms (arms : Cond_Arm) : bool :=
  match arms with CEnd => true | CArm condition stmt next => dwf_e condition && dwf_ss stmt && dwf_arms next end
with dwf_handlers (ex : Except_Arm) : bool :=
  match ex with XEnd => true | XArm _ codes stmt next => dwf_args codes && dwf_ss stmt && dwf_handlers next end.

Fixpoint stmts_list (st : Stmts) : list Stmt := match st with SEnd => [] | SNext st next => st :: stmts_list next end.
Fixpoint arms_list (arms : Cond_Arm) : list (Expr * Stmts) :=
  match arms with CEnd => [] | CArm condition stmt next => (condition, stmt) :: arms_list next end.
(** The handlers as [pop_excepts] leaves them. *)
Fixpoint excepts_list (z : sizes) (I : list item) (ex : Except_Arm) (ts : list Z) : list (Z * Arg_List) :=
  match ex, ts with XArm _ codes _ next, t :: ts => (place z I t, codes) :: excepts_list z I next ts | _, _ => [] end.
(** The expressions that [code_excepts] pushes, in their order. *)
Definition handler_exprs (l : list (Z * Arg_List)) : list Expr := flat_map (fun h => [codes_expr (snd h); EXPR_VAR (VInt (fst h))]) l.

(** The code from [pc] to [fin] is inside of its loops. *)
Definition inside (E : list Env) (pc fin : Z) : Prop := 0 <= pc /\ Forall (fun e => 0 <= e_top e <= pc /\ fin <= e_bottom e) E.

(** What the width of the references and of the machine's integers allows. *)
Record sized (p : Program) : Prop := {
  z_literals : Z.of_nat (length (p_literals p)) < 2 ^ 32;
  z_forks : Z.of_nat (length (p_fork_vectors p)) < 2 ^ 32;
  z_vectors : Forall (fun b => 0 <= bc_max_stack b /\ bc_size b < 2 ^ 31) (p_main_vector p :: p_fork_vectors p)
}.

Section Statements.
Context (program : Program) (capacity : Z).
Notation L := (p_literals program).
Notation F := (p_fork_vectors program).

(** Running over the items adds the statements to the sink. *)
Definition sran (bc : Bytecodes) (z : sizes) (I : list item) (pc : Z) (i : list item) (l : list Stmt) : Prop :=
  seg I pc i -> forall stop sa sk ar, place z I (pc + ilen i) <= stop ->
  exec program capacity bc stop true sa (cur (place z I pc) (place z I pc) [] sk ar)
    (cur (place z I (pc + ilen i)) (place z I (pc + ilen i)) [] (rev l ++ sk) ar).

Definition sdec (st : Stmt) : Prop := forall bc z I E ids pc c i, vec bc z I -> wf_s ids st = true -> dwf_s st = true ->
  code_s L F E pc c st i -> inside E pc (pc + ilen i) -> depth_s st <= capacity -> sran bc z I pc i [st].
Definition ssdec (st : Stmts) : Prop := forall bc z I E ids pc c i, vec bc z I -> wf_ss ids st = true -> dwf_ss st = true ->
  code_ss L F E pc c st i -> inside E pc (pc + ilen i) -> depth_ss st <= capacity -> sran bc z I pc i (stmts_list st).
(** The arms after the first, up to the place where all of them end. *)
Definition adec (arms : Cond_Arm) : Prop := forall bc z I E ids pc c tend i, vec bc z I -> wf_arms ids arms = true -> dwf_arms arms = true ->
  code_arms L F E pc c OP_EIF tend arms i -> inside E pc (pc + ilen i) -> depth_arms arms <= capacity ->
  seg I pc i -> pc + ilen i <= tend -> forall sk ar,
  exec program capacity bc (place z I tend) true true (cur (place z I pc) (place z I pc) [] sk ar)
    (cur (place z I (pc + ilen i)) (place z I (pc + ilen i)) [] sk (rev (arms_list arms) ++ ar)).
Definition hdec (ex : Except_Arm) : Prop := forall bc z I E ids pc c ts i st sk ar, vec bc z I -> wf_handlers ids ex = true -> dwf_handlers ex = true ->
  code_handlers L F E pc c (pc + ilen i) ex ts i -> inside E pc (pc + ilen i) -> depth_handlers ex <= capacity -> seg I pc i ->
  ev (fun k => read_handlers (decompile program capacity k) bc (excepts_list z I ex ts) (place z I (pc + ilen i)) (cur (place z I pc) st [] sk ar) =
    Some (ex, cur (place z I (pc + ilen i)) st [] sk ar)).
End Statements.

(** The end of an indexed assignment is looked for byte by byte: where the
    variable's slot is the number of [OP_PUSH_TEMP] the generator's code cannot be
    decompiled.  The tree is well-formed otherwise. *)
Definition assign_slot_106 : Stmts := SNext (STMT_EXPR (EXPR_ASGN (EXPR_INDEX (EXPR_ID 106) (EXPR_ID 1)) (EXPR_ID 1))) SEnd.

(** ** Lemmas *)

Lemma stmts_of_list st : stmts_of (stmts_list st) = st.
Proof. induction st as [|st next IH]; [done|]. change (SNext st (stmts_of (stmts_list next)) = SNext st next). by rewrite IH. Qed.
Lemma arms_of_list arms : arms_of (arms_list arms) = arms.
Proof. induction arms as [|c st next IH]; [done|]. change (CArm c st (arms_of (arms_list next)) = CArm c st next). by rewrite IH. Qed.

Lemma inside_sub E pc fin pc' fin' : inside E pc fin -> pc <= pc' -> fin' <= fin -> inside E pc' fin'.
Proof. intros [H0 H] H1 H2. split; [lia|]. eapply Forall_impl; [exact H|]. cbn. intros e He. lia. Qed.
Lemma inside_loop E pc fin e pc' fin' : inside E pc fin -> pc <= pc' -> fin' <= fin -> 0 <= e_top e <= pc' -> fin' <= e_bottom e -> inside (e :: E) pc' fin'.
Proof. intros H H1 H2 H3 H4. destruct (inside_sub _ _ _ pc' fin' H H1 H2) as [H0 H5]. split; [done|]. by constructor. Qed.

Section Running.
Context (program : Program) (capacity : Z).
Notation L := (p_literals program).
Notation F := (p_fork_vectors program).
Notation sdec := (sdec program capacity).
Notation ssdec := (ssdec program capacity).
Notation adec := (adec program capacity).
Notation hdec := (hdec program capacity).
Notation nest := (decompile program capacity).

Section Vec.
Context (bc : Bytecodes) (z : sizes) (I : list item) (V : vec bc z I).
Notation P := (place z I).
Notation ran := (ran program capacity bc z I).
Notation sran := (sran program capacity bc z I).

Lemma add_eq p st sk ar s : ADD_STMT true s (cur p st [] sk ar) = Some (tt, cur p p [] (s :: sk) ar).
Proof. done. Qed.

Lemma sran_nil pc : sran pc [] [].
Proof. intros _ stop sa sk ar _. rewrite ilen_nil, Z.add_0_r. apply exec_refl. Qed.
Lemma sran_app pc i j l l' : sran pc i l -> sran (pc + ilen i) j l' -> sran pc (i ++ j) (l ++ l').
Proof.
  intros H1 H2 Hs stop sa sk ar Hstop. apply seg_app in Hs as [Hs1 Hs2]. rewrite ilen_app, Z.add_assoc in *.
  pose proof (place_mono bc z I V (pc + ilen i) (pc + ilen i + ilen j)) as Hm. pose proof (ilen_nonneg j). pose proof (proj1 Hs2).
  eapply exec_trans; [apply H1; [done|lia]|]. rewrite rev_app_distr, <- app_assoc. by apply H2.
Qed.

(** A statement: its expressions, and an instruction that ends it. *)
Lemma sran_step pc i1 op i es s : ran pc i1 [] es ->
  (seg I (pc + ilen i1) (Op op :: i) -> seg I (pc + ilen i1 + 1) i -> forall stop sa sk ar, P (pc + ilen i1 + 1 + ilen i) <= stop ->
     ev (fun k => step program capacity (nest k) bc stop true sa (cur (P (pc + ilen i1)) (P pc) es sk ar) =
       Some (false, cur (P (pc + ilen i1 + 1 + ilen i)) (P (pc + ilen i1 + 1 + ilen i)) [] (s :: sk) ar))) ->
  sran pc (i1 ++ Op op :: i) [s].
Proof.
  intros H1 H2 Hs stop sa sk ar Hstop. apply seg_app in Hs as [Hs1 Hs2]. rewrite ilen_app, ilen_cons in *.
  replace (pc + (ilen i1 + (1 + ilen i))) with (pc + ilen i1 + 1 + ilen i) in * by lia. pose proof (proj2 (seg_cons _ _ _ _ Hs2)) as Hs3.
  pose proof (place_op z _ _ _ _ Hs2). pose proof (place_lt bc z I V _ _ Hs3). pose proof (ilen_nonneg i).
  eapply exec_trans; [apply H1; [done|lia]|]. apply step_exec; [cbn [ptr]; lia|]. by apply H2.
Qed.

(** A range of statements. *)
Lemma nested_stmts pc i l st sk ar : sran pc i l -> seg I pc i ->
  ev (fun k => DECOMPILE (nest k) bc (P (pc + ilen i)) true false (cur (P pc) st [] sk ar) =
    Some ((stmts_of l, CEnd), cur (P (pc + ilen i)) st [] sk ar)).
Proof.
  intros H Hs. rewrite <- (rev_involutive l), <- (app_nil_r (rev l)).
  apply (nest_decompile _ _ _ _ _ _ _ st [] sk ar (cur (P (pc + ilen i)) (P (pc + ilen i)) [] (rev l ++ []) [])).
  apply H; [done|done|]. by apply stop_returns.
Qed.
Lemma nested_body pc i l eop post stop st sk ar : sran pc i l -> ends eop -> seg I pc (i ++ Op OP_EXTENDED :: Op eop :: post) -> P (pc + ilen i + 2) <= stop ->
  ev (fun k => DECOMPILE (nest k) bc stop true false (cur (P pc) st [] sk ar) =
    Some ((stmts_of l, CEnd), cur (P (pc + ilen i)) st [] sk ar)).
Proof.
  intros H He Hs Hstop. apply seg_app in Hs as [Hs Hx]. rewrite <- (rev_involutive l), <- (app_nil_r (rev l)).
  apply (nest_decompile _ _ _ _ _ _ _ st [] sk ar (cur (P (pc + ilen i)) (P (pc + ilen i)) [] (rev l ++ []) [])).
  apply H; [done| |by eapply exit_returns]. pose proof (place_ops z I _ _ _ _ Hx). lia.
Qed.
End Vec.

(** *** Statements *)

Context (Hlits : Z.of_nat (length L) < 2 ^ 32).

Lemma dexpr bc z I e pc c i : vec bc z I -> wf_e false e = true -> dwf_e e = true -> code_e L pc c UINT_MAX e i -> depth_e e <= capacity ->
  ran program capacity bc z I pc i [] [e].
Proof. intros V Hw Hd Hc Hcap. eapply (dec_expr program capacity bc z I V Hlits e false); try done. Qed.
Lemma dexpr2 bc z I e e' pc c i : vec bc z I -> wf_e false e = true -> dwf_e e = true -> code_e L pc c UINT_MAX e i -> 1 + depth_e e <= capacity ->
  ran program capacity bc z I pc i [e'] [e; e'].
Proof. intros V Hw Hd Hc Hcap. eapply (dec_expr program capacity bc z I V Hlits e false); try done. Qed.

Ltac lens H := repeat rewrite ?ilen_app, ?ilen_cons, ?ilen_nil in H.
(** The places at the end of the code are [t]. *)
Ltac ends_at t :=
  match goal with
  | |- context [place _ _ (?a + 1 + ilen ?l)] => replace (a + 1 + ilen l) with t
  | |- context [place _ _ (?a + ilen (?x :: ?l))] => replace (a + ilen (x :: l)) with t
  end; [|try unfold t; repeat rewrite ?ilen_app, ?ilen_cons, ?ilen_nil; lia].
Ltac sands := repeat match goal with H : andb _ _ = true |- _ => apply andb_true_iff in H as [? ?] end.
Ltac sstart := intros bc z I E ids pc c i V Hw Hdw Hc Hin Hd; cbn [wf_s dwf_s depth_s] in *; sands.

Lemma sdec_expr e : sdec (STMT_EXPR e).
Proof.
  sstart. destruct Hc as (i1 & -> & C1). eapply (sran_step bc z I V); [by eapply dexpr|]. intros Hs _ stop sa sk ar _. apply ev_always. intros k.
  unfold step. bind (next_byte_op bc z I V _ _ _ (place z I pc) [e] sk ar Hs). rewrite ilen_nil, Z.add_0_r. done.
Qed.
Lemma sdec_return p : sdec (STMT_RETURN p).
Proof.
  destruct p as [|e]; sstart.
  - cbn [code_s] in Hc. subst i. apply (sran_step bc z I V pc [] OP_RETURN0 [] [] _ (ran_nil _ _ _ _ _ _ _)). intros Hs _ stop sa sk ar _. apply ev_always. intros k.
    unfold step. bind (next_byte_op bc z I V _ _ _ (place z I pc) [] sk ar Hs). rewrite !ilen_nil, !Z.add_0_r. done.
  - destruct Hc as (i1 & -> & C1). eapply (sran_step bc z I V); [by eapply dexpr|]. intros Hs _ stop sa sk ar _. apply ev_always. intros k.
    unfold step. bind (next_byte_op bc z I V _ _ _ (place z I pc) [e] sk ar Hs). rewrite ilen_nil, Z.add_0_r. done.
Qed.

Lemma sdec_seq st next : sdec st -> ssdec next -> ssdec (SNext st next).
Proof.
  intros H1 H2 bc z I E ids pc c i V Hw Hdw Hc Hin Hd. cbn [wf_ss dwf_ss depth_ss stmts_list] in *. sands. destruct Hc as (i1 & i2 & -> & C1 & C2).
  rewrite ilen_app in Hin. pose proof (ilen_nonneg i1). pose proof (ilen_nonneg i2).
  apply (sran_app bc z I V pc i1 i2 [st]); [eapply H1; try done; [|lia]|eapply H2; try done; [|lia]]; (eapply inside_sub; [exact Hin|lia|lia]).
Qed.
Lemma sdec_nil : ssdec SEnd.
Proof. intros bc z I E ids pc c i V Hw Hdw Hc Hin Hd. cbn [code_ss] in Hc. subst i. apply sran_nil. Qed.

(** *** Loops *)

(** The body between the head and the jump back. *)
Lemma loop_body bc z I pc t top i2 l st sk ar : vec bc z I -> sran program capacity bc z I pc i2 l -> seg I pc (i2 ++ [Op OP_JUMP; Lab top]) ->
  t = pc + ilen i2 + 2 ->
  ev (fun k => DECOMPILE (nest k) bc (place z I t - jump_len bc) true false (cur (place z I pc) st [] sk ar) =
    Some ((stmts_of l, CEnd), cur (place z I (pc + ilen i2)) st [] sk ar)) /\
  read_jump bc (cur (place z I (pc + ilen i2)) st [] sk ar) = Some (place z I top, cur (place z I t) st [] sk ar).
Proof.
  intros V H Hs ->. apply seg_app in Hs as [Hs1 Hs2]. rewrite (place_jump bc z I V _ _ _ _ Hs2). split; [by apply nested_stmts|].
  apply (read_jump_eq bc z I V _ _ _ st [] sk ar Hs2).
Qed.

Lemma finish_while_eq bc z I q t top id condition body i3 sk ar : vec bc z I -> sran program capacity bc z I (q + 1) i3 (stmts_list body) ->
  seg I q (Lab t :: i3 ++ [Op OP_JUMP; Lab top]) -> t = q + 1 + ilen i3 + 2 ->
  ev (fun k => finish_while (nest k) bc true id (cur (place z I q) (place z I top) [condition] sk ar) =
    Some (tt, cur (place z I t) (place z I t) [] (STMT_WHILE id condition body :: sk) ar)).
Proof.
  intros V Hb Hs Et. pose proof (proj2 (seg_cons _ _ _ _ Hs)) as Hs2.
  destruct (loop_body bc z I (q + 1) t top i3 _ (place z I top) sk ar V Hb Hs2 Et) as [Hn Hj].
  eapply ev_impl; [exact Hn|]. intros k En. unfold finish_while.
  bind (eq_refl : dget stmt_start (cur (place z I q) (place z I top) [condition] sk ar) = Some (place z I top, cur (place z I q) (place z I top) [condition] sk ar)).
  bind (read_label bc z I V _ _ _ (place z I top) [condition] sk ar Hs). easy_bind. bind En. bind Hj.
  bind (check_eq _ (cur (place z I t) (place z I top) [] sk ar) (Z.eqb_refl (place z I top))). by rewrite add_eq, stmts_of_list.
Qed.

Lemma sdec_while id condition body : ssdec body -> sdec (STMT_WHILE id condition body).
Proof.
  intros H. sstart. destruct Hc as (i1 & i2 & i3 & -> & C1 & Ei2 & C3). set (t := pc + ilen i1 + ilen i2 + 1 + ilen i3 + 2) in *.
  lens Hin. pose proof (ilen_nonneg i1). pose proof (ilen_nonneg i2). pose proof (ilen_nonneg i3). pose proof (proj1 Hin).
  assert (Hb : sran program capacity bc z I (pc + ilen i1 + ilen i2 + 1) i3 (stmts_list body)).
  { eapply (H bc z I); try done; [|lia]. eapply inside_loop; [exact Hin|cbn; unfold t; lia..]. }
  assert (Hid : id = -1 \/ 0 <= id < 256) by (unfold opt_slot_ok, slot_ok in *; lia).
  destruct (Z.eqb_spec id (-1)) as [->|Hne]; subst i2; (eapply (sran_step bc z I V); [eapply dexpr; [eassumption..|lia]|]; intros Hs Hs1 stop sa sk ar _).
  - change (ilen [Op OP_WHILE]) with 1 in *. cbn [app] in Hs1.
    eapply ev_impl; [exact (finish_while_eq bc z I _ t pc (-1) condition body i3 sk ar V Hb Hs1 ltac:(unfold t; lia))|]. intros k E1. unfold step.
    bind (next_byte_op bc z I V _ _ _ (place z I pc) [condition] sk ar Hs).
    trans ((finish_while (nest k) bc true (-1);; mret false) (cur (place z I (pc + ilen i1 + 1)) (place z I pc) [condition] sk ar)); [done|].
    bind E1. by ends_at t.
  - change (ilen [Op OP_EXTENDED; Op EOP_WHILE_ID; Ref FIXUP_VAR_REF id]) with 3 in *. cbn [app] in Hs, Hs1.
    pose proof (proj2 (seg_cons _ _ _ _ Hs1)) as Hs2. pose proof (proj2 (seg_cons _ _ _ _ Hs2)) as Hs3.
    replace (pc + ilen i1 + 1 + 1) with (pc + ilen i1 + 2) in * by lia. replace (pc + ilen i1 + 2 + 1) with (pc + ilen i1 + 3) in * by lia.
    eapply ev_impl; [exact (finish_while_eq bc z I _ t pc id condition body i3 sk ar V Hb Hs3 ltac:(unfold t; lia))|]. intros k E1.
    rewrite (extended_eq _ _ bc z I V _ _ _ _ _ _ _ _ _ _ _ Hs). unfold extended_step. bind (next_byte_op bc z I V _ _ _ (place z I pc) [condition] sk ar Hs1).
    trans ((id ← READ_ID bc; finish_while (nest k) bc true id;; mret false) (cur (place z I (pc + ilen i1 + 1 + 1)) (place z I pc) [condition] sk ar)); [done|].
    replace (pc + ilen i1 + 1 + 1) with (pc + ilen i1 + 2) by lia. bind (read_id bc z I V _ _ _ (place z I pc) [condition] sk ar Hs2 ltac:(lia)).
    replace (pc + ilen i1 + 2 + 1) with (pc + ilen i1 + 3) by lia. bind E1. by ends_at t.
Qed.

Lemma sdec_for_list id e body : ssdec body -> sdec (STMT_LIST id e body).
Proof.
  intros H. sstart. destruct Hc as (i1 & i2 & -> & C1 & C2). set (q := pc + ilen i1 + 1) in *. set (t := q + 3 + ilen i2 + 2) in *.
  lens Hin. pose proof (ilen_nonneg i1). pose proof (ilen_nonneg i2). pose proof (proj1 Hin). pose proof (depth_ss_pos body). pose proof (depth_pos e).
  assert (Hb : sran program capacity bc z I (q + 3) i2 (stmts_list body)).
  { eapply (H bc z I); try done; [|lia]. eapply inside_loop; [exact Hin|cbn; unfold t, q; lia..]. }
  replace (i1 ++ [Op (OPTIM_NUM_TO_OPCODE 1); Op OP_FOR_LIST; Ref FIXUP_VAR_REF id; Lab t] ++ i2 ++ [Op OP_JUMP; Lab q])
    with ((i1 ++ [Op (OPTIM_NUM_TO_OPCODE 1)]) ++ Op OP_FOR_LIST :: Ref FIXUP_VAR_REF id :: Lab t :: i2 ++ [Op OP_JUMP; Lab q]) by (by rewrite <- app_assoc).
  assert (Hid : 0 <= id < 256) by (by apply slot_ok_range).
  eapply (sran_step bc z I V).
  { eapply (ran_app program capacity bc z I V); [eapply dexpr; [eassumption..|lia]|]. eapply (ran_lit program capacity bc z I V Hlits (VInt 1)); [|cbn; lia].
    left. by exists 1. }
  rewrite ilen_app. change (ilen [_]) with 1. rewrite Z.add_assoc. fold q. intros Hs Hs1 stop sa sk ar _.
  pose proof (proj2 (seg_cons _ _ _ _ Hs1)) as Hs2. pose proof (proj2 (seg_cons _ _ _ _ Hs2)) as Hs3.
  replace (q + 1 + 1) with (q + 2) in * by lia. replace (q + 2 + 1) with (q + 3) in * by lia.
  destruct (loop_body bc z I (q + 3) t q i2 _ (place z I pc) sk ar V Hb Hs3 ltac:(unfold t; lia)) as [Hn Hj].
  eapply ev_impl; [exact Hn|]. intros k En. unfold step. bind (next_byte_op bc z I V _ _ _ (place z I pc) [EXPR_VAR (VInt 1); e] sk ar Hs).
  trans ((decompile_for_list (nest k) bc true;; mret false) (cur (place z I (q + 1)) (place z I pc) [EXPR_VAR (VInt 1); e] sk ar)); [done|].
  ends_at t. erewrite dbind_eq; [reflexivity|]. unfold decompile_for_list. easy_bind.
  bind (read_id bc z I V _ _ _ (place z I pc) [EXPR_VAR (VInt 1); e] sk ar Hs1 ltac:(lia)). replace (q + 1 + 1) with (q + 2) by lia.
  bind (read_label bc z I V _ _ _ (place z I pc) [EXPR_VAR (VInt 1); e] sk ar Hs2). replace (q + 2 + 1) with (q + 3) by lia. easy_bind.
  bind (check_eq _ (cur (place z I (q + 3)) (place z I pc) [] sk ar) (Z.eqb_refl 1)). bind En. bind Hj.
  rewrite (place_op z _ _ _ _ Hs). replace (place z I q + 1 - 1) with (place z I q) by lia.
  bind (check_eq _ (cur (place z I t) (place z I pc) [] sk ar) (Z.eqb_refl (place z I q))). by rewrite add_eq, stmts_of_list.
Qed.

Lemma sdec_for_range id from to body : ssdec body -> sdec (STMT_RANGE id from to body).
Proof.
  intros H. sstart. destruct Hc as (i1 & i2 & i3 & -> & C1 & C2 & C3). set (q := pc + ilen i1 + ilen i2) in *. set (t := q + 3 + ilen i3 + 2) in *.
  lens Hin. pose proof (ilen_nonneg i1). pose proof (ilen_nonneg i2). pose proof (ilen_nonneg i3). pose proof (proj1 Hin). pose proof (depth_ss_pos body).
  assert (Hb : sran program capacity bc z I (q + 3) i3 (stmts_list body)).
  { eapply (H bc z I); try done; [|lia]. eapply inside_loop; [exact Hin|cbn; unfold t, q; lia..]. }
  rewrite (app_assoc i1). cbn [app]. assert (Hid : 0 <= id < 256) by (by apply slot_ok_range).
  eapply (sran_step bc z I V).
  { eapply (ran_app program capacity bc z I V); [eapply (dexpr bc z I from); [eassumption..|lia]|]. eapply (dexpr2 bc z I to); [eassumption..|lia]. }
  rewrite ilen_app, Z.add_assoc. fold q. intros Hs Hs1 stop sa sk ar _.
  pose proof (proj2 (seg_cons _ _ _ _ Hs1)) as Hs2. pose proof (proj2 (seg_cons _ _ _ _ Hs2)) as Hs3.
  replace (q + 1 + 1) with (q + 2) in * by lia. replace (q + 2 + 1) with (q + 3) in * by lia.
  destruct (loop_body bc z I (q + 3) t q i3 _ (place z I pc) sk ar V Hb Hs3 ltac:(unfold t; lia)) as [Hn Hj].
  eapply ev_impl; [exact Hn|]. intros k En. unfold step. bind (next_byte_op bc z I V _ _ _ (place z I pc) [to; from] sk ar Hs).
  trans ((decompile_for_range (nest k) bc true;; mret false) (cur (place z I (q + 1)) (place z I pc) [to; from] sk ar)); [done|].
  ends_at t. erewrite dbind_eq; [reflexivity|]. unfold decompile_for_range. easy_bind.
  bind (read_id bc z I V _ _ _ (place z I pc) [to; from] sk ar Hs1 ltac:(lia)). replace (q + 1 + 1) with (q + 2) by lia.
  bind (read_label bc z I V _ _ _ (place z I pc) [to; from] sk ar Hs2). replace (q + 2 + 1) with (q + 3) by lia. easy_bind. bind En. bind Hj.
  rewrite (place_op z _ _ _ _ Hs). replace (place z I q + 1 - 1) with (place z I q) by lia.
  bind (check_eq _ (cur (place z I t) (place z I pc) [] sk ar) (Z.eqb_refl (place z I q))). by rewrite add_eq, stmts_of_list.
Qed.

(** *** Exits *)

Lemma decompile_exit_eq bc z I E q v t i st sk ar exit (continue with_id : bool) (j : nat) e : vec bc z I ->
  seg I q (Ref FIXUP_STACK v :: Lab t :: i) -> E !! j = Some e -> inside E q (q + 2) -> t = (if continue then e_top e else e_bottom e) ->
  (READ_STACK bc;; label ← READ_LABEL bc; p ← dget ptr; ADD_STMT true (if label <? p then STMT_CONTINUE exit else STMT_BREAK exit))
    (cur (place z I q) st [] sk ar) =
  Some (tt, cur (place z I (q + 2)) (place z I (q + 2)) [] ((if continue then STMT_CONTINUE exit else STMT_BREAK exit) :: sk) ar).
Proof.
  intros V Hs Hj [Hq Hin] ->. bind (read_stack bc z I V _ _ _ st [] sk ar Hs). pose proof (proj2 (seg_cons _ _ _ _ Hs)) as Hs1.
  bind (read_label bc z I V _ _ _ st [] sk ar Hs1). replace (q + 1 + 1) with (q + 2) by lia. easy_bind.
  eapply Forall_lookup_1 in Hin as [Htop Hbot]; [|exact Hj].
  destruct continue.
  - pose proof (place_mono bc z I V (e_top e) q ltac:(lia)). pose proof (place_lt bc z I V q [_; _] (proj1 (seg_app I q [_; _] i Hs))) as Hlt. change (ilen [_; _]) with 2 in Hlt.
    destruct (Z.ltb_spec (place z I (e_top e)) (place z I (q + 2))); [done|lia].
  - pose proof (place_mono bc z I V (q + 2) (e_bottom e) ltac:(lia)). destruct (Z.ltb_spec (place z I (e_bottom e)) (place z I (q + 2))); [lia|done].
Qed.

Lemma sdec_exit (continue : bool) exit : forall bc z I E ids pc i, vec bc z I -> exit_ok ids exit = true -> code_exit E continue exit i -> inside E pc (pc + ilen i) ->
  sran program capacity bc z I pc i [if continue then STMT_CONTINUE exit else STMT_BREAK exit].
Proof.
  intros bc z I E ids pc i V Hw (j & e & i0 & Hj & Hi & ->) Hin. lens Hin.
  destruct Hi as [(-> & -> & ->)|(Hne & Hf & ->)]; cbn [app].
  - lens Hin. apply (sran_step bc z I V pc [] _ _ [] _ (ran_nil _ _ _ _ _ _ _)). rewrite ilen_nil, Z.add_0_r. intros Hs Hs1 stop sa sk ar _. apply ev_always. intros k.
    pose proof (proj2 (seg_cons _ _ _ _ Hs1)) as Hs2. rewrite (extended_eq _ _ bc z I V _ _ _ _ _ _ _ _ _ _ _ Hs). unfold extended_step.
    bind (next_byte_op bc z I V _ _ _ (place z I pc) [] sk ar Hs1).
    trans ((decompile_exit bc true false;; mret false) (cur (place z I (pc + 1 + 1)) (place z I pc) [] sk ar)); [done|].
    replace (pc + 1 + 1) with (pc + 2) in * by lia. ends_at (pc + 2 + 2).
    erewrite dbind_eq; [reflexivity|]. unfold decompile_exit. rewrite (dbind_eq _ _ _ (-1) (cur (place z I (pc + 2)) (place z I pc) [] sk ar) eq_refl).
    eapply (decompile_exit_eq bc z I E (pc + 2) _ _ [] _ sk ar (-1) continue false _ _ V Hs2 Hj); [|done]. eapply inside_sub; [exact Hin|lia|lia].
  - lens Hin. apply (sran_step bc z I V pc [] _ _ [] _ (ran_nil _ _ _ _ _ _ _)). rewrite ilen_nil, Z.add_0_r. intros Hs Hs1 stop sa sk ar _. apply ev_always. intros k.
    pose proof (proj2 (seg_cons _ _ _ _ Hs1)) as Hs2. rewrite (extended_eq _ _ bc z I V _ _ _ _ _ _ _ _ _ _ _ Hs). unfold extended_step.
    bind (next_byte_op bc z I V _ _ _ (place z I pc) [] sk ar Hs1). pose proof (proj2 (seg_cons _ _ _ _ Hs2)) as Hs3.
    trans ((decompile_exit bc true true;; mret false) (cur (place z I (pc + 1 + 1)) (place z I pc) [] sk ar)); [done|].
    replace (pc + 1 + 1) with (pc + 2) in * by lia. replace (pc + 2 + 1) with (pc + 3) in * by lia. ends_at (pc + 3 + 2).
    assert (Hid : 0 <= exit < 256) by (unfold exit_ok in Hw; destruct (Z.eqb_spec exit (-1)); [lia|apply andb_true_iff in Hw as [Hw _]; by apply slot_ok_range]).
    erewrite dbind_eq; [reflexivity|]. unfold decompile_exit. bind (read_id bc z I V _ _ _ (place z I pc) [] sk ar Hs2 ltac:(lia)). replace (pc + 2 + 1) with (pc + 3) by lia.
    eapply (decompile_exit_eq bc z I E (pc + 3) _ _ [] _ sk ar exit continue true _ _ V Hs3 Hj); [|done]. eapply inside_sub; [exact Hin|lia|lia].
Qed.
Lemma sdec_break exit : sdec (STMT_BREAK exit).
Proof. sstart. by eapply (sdec_exit false). Qed.
Lemma sdec_continue exit : sdec (STMT_CONTINUE exit).
Proof. sstart. by eapply (sdec_exit true). Qed.

(** *** Conditionals *)

Lemma adec_nil : adec CEnd.
Proof. intros bc z I E ids pc c tend i V Hw Hdw Hc Hin Hd Hs Ht sk ar. cbn [code_arms] in Hc. subst i. rewrite ilen_nil, Z.add_0_r. apply exec_refl. Qed.

Lemma add_arm_eq p st sk ar condition stmt : ADD_ARM true condition stmt (cur p st [] sk ar) = Some (tt, cur p st [] sk ((condition, stmt) :: ar)).
Proof. done. Qed.

(** An arm's statements and the jump at their end. *)
Lemma arm_body bc z I q st stmt tend i2 i3 sk ar : vec bc z I -> sran program capacity bc z I (q + 1) i2 (stmts_list stmt) ->
  seg I q (Lab (q + 1 + ilen i2 + 2) :: i2 ++ [Op OP_JUMP; Lab tend] ++ i3) ->
  ev (fun k => DECOMPILE (nest k) bc (place z I (q + 1 + ilen i2 + 2) - jump_len bc) true false (cur (place z I (q + 1)) st [] sk ar) =
    Some ((stmt, CEnd), cur (place z I (q + 1 + ilen i2)) st [] sk ar)) /\
  read_jump bc (cur (place z I (q + 1 + ilen i2)) st [] sk ar) = Some (place z I tend, cur (place z I (q + 1 + ilen i2 + 2)) st [] sk ar).
Proof.
  intros V Hb [_ Hs]%seg_cons. rewrite app_assoc in Hs. apply seg_app in Hs as [Hs _]. rewrite <- (stmts_of_list stmt). by apply loop_body.
Qed.

Lemma adec_cons condition stmt next : ssdec stmt -> adec next -> adec (CArm condition stmt next).
Proof.
  intros H1 H2 bc z I E ids pc c tend i V Hw Hdw Hc Hin Hd Hs Ht sk ar. cbn [wf_arms dwf_arms depth_arms arms_list rev] in *. sands.
  destruct Hc as (i1 & i2 & i3 & -> & C1 & C2 & C3). lens Hin. lens Ht. pose proof (ilen_nonneg i1). pose proof (ilen_nonneg i2). pose proof (ilen_nonneg i3).
  set (q := pc + ilen i1 + 1) in *. replace (pc + ilen i1 + 2) with (q + 1) in * by (unfold q; lia). set (n := q + 1 + ilen i2 + 2) in *.
  assert (Hb : sran program capacity bc z I (q + 1) i2 (stmts_list stmt)).
  { eapply (H1 bc z I E ids); try done; [|lia]. eapply inside_sub; [exact Hin|unfold q; lia..]. }
  pose proof (seg_app _ _ _ _ Hs) as [Hs1 Hs2]. cbn [app] in Hs2. pose proof (proj2 (seg_cons _ _ _ _ Hs2)) as Hs3. fold q in Hs3.
  pose proof (proj2 (seg_app _ _ [_] _ Hs3)) as Hs4. apply seg_app in Hs4 as [_ Hs4]. pose proof (proj2 (seg_app _ _ [_; _] _ Hs4)) as Hs5.
  change (ilen [_; _]) with 2 in Hs5. change (ilen [_]) with 1 in Hs5. replace (q + 1 + ilen i2 + 2) with n in Hs5 by done.
  assert (Hend : pc + ilen (i1 ++ [Op OP_EIF; Lab n] ++ i2 ++ [Op OP_JUMP; Lab tend] ++ i3) = n + ilen i3).
  { repeat rewrite ?ilen_app, ?ilen_cons, ?ilen_nil. unfold n, q. lia. }
  rewrite Hend. pose proof (proj1 Hin).
  assert (Hq : place z I q <= place z I tend) by (apply (place_mono bc z I V); unfold q; lia).
  assert (Hpc : place z I (pc + ilen i1) < place z I q) by (pose proof (place_op z _ _ _ _ Hs2); unfold q; lia).
  eapply exec_trans; [apply (dexpr bc z I condition pc c i1 V); try done; lia|].
  eapply exec_trans; [|rewrite <- app_assoc; eapply (H2 bc z I E ids n c tend i3); try done; [eapply inside_sub; [exact Hin|unfold n, q; lia..]|lia|unfold n, q; lia]].
  destruct (arm_body bc z I q (place z I pc) stmt tend i2 i3 sk ar V Hb Hs3) as [Hn _].
  apply step_exec; [cbn [ptr]; lia|]. eapply ev_impl; [exact Hn|]. intros k En. unfold step.
  bind (next_byte_op bc z I V _ _ _ (place z I pc) [condition] sk ar Hs2). fold q.
  trans ((decompile_eif (nest k) bc (place z I tend) true;; mret false) (cur (place z I q) (place z I pc) [condition] sk ar)); [done|].
  erewrite dbind_eq; [reflexivity|]. unfold decompile_eif. bind (read_label bc z I V _ _ _ (place z I pc) [condition] sk ar Hs3). easy_bind. fold n in En. bind En. cbn beta iota.
  bind (add_arm_eq (place z I (q + 1 + ilen i2)) (place z I pc) sk ar condition stmt).
  destruct (arm_body bc z I q (place z I pc) stmt tend i2 i3 sk ((condition, stmt) :: ar) V Hb Hs3) as [_ Hj]. bind Hj. fold n.
  by bind (check_eq _ (cur (place z I n) (place z I pc) [] sk ((condition, stmt) :: ar)) (Z.eqb_refl (place z I tend))).
Qed.

Lemma sdec_cond arms otherwise : (forall c st next, arms = CArm c st next -> ssdec st /\ adec next) -> ssdec otherwise -> sdec (STMT_COND arms otherwise).
Proof.
  intros H1 H2. sstart. destruct arms as [|condition stmt next]; [done|]. destruct (H1 _ _ _ eq_refl) as [K1 K2]. clear H1.
  cbn [wf_arms dwf_arms depth_arms] in *. sands. destruct Hc as (ia & i4 & Ei & Ca & C4). destruct Ca as (i1 & i2 & i3 & -> & C1 & C2 & C3).
  set (tend := pc + ilen i) in *. assert (Elen : ilen i = ilen i1 + 2 + ilen i2 + 2 + ilen i3 + ilen i4).
  { rewrite Ei. repeat rewrite ?ilen_app, ?ilen_cons, ?ilen_nil. lia. }
  replace (pc + ilen (i1 ++ [Op OP_IF; Lab (pc + ilen i1 + 2 + ilen i2 + 2)] ++ i2 ++ [Op OP_JUMP; Lab tend] ++ i3)) with (pc + ilen i1 + 2 + ilen i2 + 2 + ilen i3) in C4
    by (repeat rewrite ?ilen_app, ?ilen_cons, ?ilen_nil; lia).
  pose proof (ilen_nonneg i1). pose proof (ilen_nonneg i2). pose proof (ilen_nonneg i3). pose proof (ilen_nonneg i4).
  set (q := pc + ilen i1 + 1) in *. replace (pc + ilen i1 + 2) with (q + 1) in * by (unfold q; lia). set (n := q + 1 + ilen i2 + 2) in *.
  assert (Hb : sran program capacity bc z I (q + 1) i2 (stmts_list stmt)).
  { eapply (K1 bc z I E ids); try done; [|lia]. eapply inside_sub; [exact Hin|unfold tend, q; lia..]. }
  assert (Ei' : i = i1 ++ Op OP_IF :: Lab n :: i2 ++ [Op OP_JUMP; Lab tend] ++ i3 ++ i4) by (by rewrite Ei, <- ?app_assoc; cbn [app]; rewrite <- ?app_assoc).
  assert (Et : tend = n + ilen i3 + ilen i4) by (unfold tend, n, q; lia). clearbody tend. clear Ei. subst i. eapply (sran_step bc z I V); [eapply dexpr; [eassumption..|lia]|]. fold q. intros Hs Hs1 stop sa sk ar _.
  destruct (arm_body bc z I q (place z I pc) stmt tend i2 (i3 ++ i4) sk ar V Hb Hs1) as [Hn Hj].
  pose proof (proj2 (seg_app _ _ [_] _ Hs1)) as Hs4. apply seg_app in Hs4 as [_ Hs4]. pose proof (proj2 (seg_app _ _ [_; _] _ Hs4)) as Hs5.
  change (ilen [_; _]) with 2 in Hs5. change (ilen [_]) with 1 in Hs5. fold n in Hs5. apply seg_app in Hs5 as [Hs5 Hs6].
  ends_at tend.
  assert (Ho : ev (fun k => DECOMPILE (nest k) bc (place z I tend) true true (cur (place z I n) (place z I pc) [] sk ar) =
    Some ((otherwise, next), cur (place z I tend) (place z I pc) [] sk ar))).
  { pose proof (nest_decompile program capacity bc (place z I tend) true true (place z I n) (place z I pc) [] sk ar
      (cur (place z I tend) (place z I tend) [] (rev (stmts_list otherwise) ++ []) (rev (arms_list next) ++ []))) as N.
    assert (X : exec program capacity bc (place z I tend) true true (cur (place z I n) (place z I n) [] [] [])
      (cur (place z I tend) (place z I tend) [] (rev (stmts_list otherwise) ++ []) (rev (arms_list next) ++ []))).
    { eapply exec_trans; [eapply (K2 bc z I E ids n c tend i3); try done; [eapply inside_sub; [exact Hin|unfold n, q; lia..]|lia|lia]|].
      rewrite Et. eapply (H2 bc z I E ids); try done; [eapply inside_sub; [exact Hin|unfold n, q; lia..]|lia]. }
    specialize (N ltac:(apply X; by apply stop_returns)). cbn [sink Decompile.arms ptr Decompile.expr_stack] in N.
    by rewrite !app_nil_r, !rev_involutive, stmts_of_list, arms_of_list in N. }
  eapply ev_impl; [exact (ev_and _ _ Hn Ho)|]. intros k [En Eo]. unfold step. bind (next_byte_op bc z I V _ _ _ (place z I pc) [condition] sk ar Hs). fold q.
  trans ((decompile_if (nest k) bc true;; mret false) (cur (place z I q) (place z I pc) [condition] sk ar)); [done|].
  erewrite dbind_eq; [reflexivity|]. unfold decompile_if. bind (read_label bc z I V _ _ _ (place z I pc) [condition] sk ar Hs1). easy_bind. fold n in En, Hj.
  bind En. cbn beta iota. bind Hj. by bind Eo.
Qed.

(** *** Handlers *)

Lemma sdec_finally body handler : ssdec body -> ssdec handler -> sdec (STMT_TRY_FINALLY body handler).
Proof.
  intros H1 H2. sstart. destruct Hc as (i1 & i2 & -> & C1 & C2). lens Hin. pose proof (ilen_nonneg i1). pose proof (ilen_nonneg i2). pose proof (proj1 Hin).
  assert (Hb : sran program capacity bc z I (pc + 3) i1 (stmts_list body)).
  { eapply (H1 bc z I E ids); try done; [|lia]. eapply inside_sub; [exact Hin|lia..]. }
  set (t := pc + 3 + ilen i1 + 2) in *. set (fin := t + ilen i2 + 2).
  assert (Hh : sran program capacity bc z I t i2 (stmts_list handler)).
  { eapply (H2 bc z I E ids); try done; [|lia]. eapply inside_sub; [exact Hin|unfold t; lia..]. }
  apply (sran_step bc z I V pc [] _ _ [] _ (ran_nil _ _ _ _ _ _ _)). rewrite ilen_nil, Z.add_0_r. cbn [app]. ends_at fin.
  intros Hs Hs1 stop sa sk ar Hstop. pose proof (proj2 (seg_cons _ _ _ _ Hs1)) as Hs2. replace (pc + 1 + 1) with (pc + 2) in * by lia.
  pose proof (proj2 (seg_cons _ _ _ _ Hs2)) as Hs3. replace (pc + 2 + 1) with (pc + 3) in * by lia.
  pose proof (proj2 (seg_app _ _ _ _ Hs3)) as Hs4. pose proof (proj2 (seg_app _ _ [_; _] _ Hs4)) as Hs5. change (ilen [_; _]) with 2 in Hs5. fold t in Hs5.
  pose proof (proj2 (seg_app _ _ _ _ Hs5)) as Hs6.
  assert (P1 : place z I (pc + 3 + ilen i1 + 2) <= stop) by (pose proof (place_mono bc z I V (pc + 3 + ilen i1 + 2) fin); unfold fin, t in *; lia).
  pose proof (nested_body bc z I V (pc + 3) i1 _ EOP_END_FINALLY _ stop (place z I pc) sk ar Hb ltac:(right; right; by left) Hs3 P1) as N1.
  pose proof (nested_body bc z I V t i2 _ EOP_CONTINUE _ stop (place z I pc) sk ar Hh ltac:(right; right; by right) Hs5 Hstop) as N2.
  eapply ev_impl; [exact (ev_and _ _ N1 N2)|]. intros k [E1 E2].
  rewrite (extended_eq _ _ bc z I V _ _ _ _ _ _ _ _ _ _ _ Hs). unfold extended_step. bind (next_byte_op bc z I V _ _ _ (place z I pc) [] sk ar Hs1).
  trans ((decompile_try_finally (nest k) bc stop true;; mret false) (cur (place z I (pc + 1 + 1)) (place z I pc) [] sk ar)); [done|].
  replace (pc + 1 + 1) with (pc + 2) by lia. erewrite dbind_eq; [reflexivity|]. unfold decompile_try_finally.
  bind (read_label bc z I V _ _ _ (place z I pc) [] sk ar Hs2). replace (pc + 2 + 1) with (pc + 3) by lia. rewrite (place_int bc z I V) by (unfold t; lia). bind E1. cbn beta iota.
  rewrite (read_end bc z I V _ _ _ _ (place z I pc) [] sk ar Hs4). bind (check_eq _ (cur (place z I t) (place z I pc) [] sk ar) (Z.eqb_refl EOP_END_FINALLY)). easy_bind.
  bind (check_eq _ (cur (place z I t) (place z I pc) [] sk ar) (Z.eqb_refl (place z I t))). bind E2. cbn beta iota.
  rewrite (read_end bc z I V _ _ _ _ (place z I pc) [] sk ar Hs6). fold fin. bind (check_eq _ (cur (place z I fin) (place z I pc) [] sk ar) (Z.eqb_refl EOP_CONTINUE)).
  by rewrite add_eq, !stmts_of_list.
Qed.

Lemma excepts_ts pc c ex ts i : code_excepts L pc c ex ts i -> Z.of_nat (length ts) = arm_count ex.
Proof.
  revert pc c ts i. induction ex as [|id codes stmt next IH]; intros pc c ts i; cbn [code_excepts arm_count]; [by intros [-> _]|].
  intros (i1 & i2 & t & ts' & -> & _ & _ & Hc). cbn [length]. apply IH in Hc. lia.
Qed.
Lemma excepts_list_length z I ex ts : Z.of_nat (length ts) = arm_count ex -> length (excepts_list z I ex ts) = length ts.
Proof.
  revert ts. induction ex as [|id codes stmt next IH]; intros [|t ts] Hl; cbn [arm_count length excepts_list] in *; try done; try (pose proof (arm_count_pos next); lia).
  f_equal. apply IH. lia.
Qed.

Lemma excepts_ran bc z I ids (V : vec bc z I) ex : forall pc c ts i es, wf_handlers ids ex = true -> dwf_handlers ex = true -> code_excepts L pc c ex ts i ->
  fitting capacity es (depth_excepts ex) -> ran program capacity bc z I pc i es (rev (handler_exprs (excepts_list z I ex ts)) ++ es).
Proof.
  induction ex as [|id codes stmt next IH]; intros pc c ts i es Hw Hdw Hc Hf; cbn [wf_handlers dwf_handlers code_excepts excepts_list depth_excepts] in *.
  { destruct Hc as [-> ->]. apply ran_nil. }
  sands. destruct Hc as (i1 & i2 & t & ts' & -> & -> & C1 & C2). unfold fitting in *. pose proof (depth_args_pos codes). pose proof (depth_excepts_pos next).
  eapply (ran_app _ _ bc z I V).
  { eapply (dec_codes program capacity bc z I V Hlits codes (dec_arguments program capacity bc z I V Hlits codes) false pc c UINT_MAX); try done. unfold fitting. lia. }
  eapply (ran_app _ _ bc z I V); [apply (ran_push_label program capacity bc z I V); cbn [length]; lia|]. change (ilen [_; _; _]) with 3.
  unfold handler_exprs. cbn [flat_map fst snd app rev]. rewrite <- !app_assoc. cbn [app]. eapply IH; try done. cbn [length]. lia.
Qed.

Lemma pop_excepts_eq bc z I (V : vec bc z I) p st es sk ar l : Forall (fun h => int (fst h) = fst h) l -> forall acc,
  pop_excepts (length l) acc (cur p st (rev (handler_exprs l) ++ es) sk ar) = Some (l ++ acc, cur p st es sk ar).
Proof.
  induction l as [|[t codes] l IH] using rev_ind; [done|]. intros HF acc. apply Forall_app in HF as [Hl Ht]. apply Forall_inv in Ht. change (int t = t) in Ht.
  rewrite length_app, Nat.add_1_r. cbn [pop_excepts]. unfold handler_exprs. rewrite flat_map_app, rev_app_distr. cbn [flat_map fst snd app rev]. easy_bind.
  assert (El : forall c, label_of (EXPR_VAR (VInt t)) c = Some (t, c)) by (intros c; cbn [label_of]; by rewrite Ht). bind (El (cur p st (codes_expr codes :: rev (handler_exprs l) ++ es) sk ar)).
  easy_bind. bind (codes_of_eq codes (cur p st (rev (handler_exprs l) ++ es) sk ar)). rewrite (IH Hl). by rewrite <- app_assoc.
Qed.

Lemma excepts_int bc z I (V : vec bc z I) ex ts : (forall t, t ∈ ts -> 0 <= t) -> Forall (fun h => int (fst h) = fst h) (excepts_list z I ex ts).
Proof.
  revert ts. induction ex as [|id codes stmt next IH]; intros [|t ts] Ht; cbn [excepts_list]; constructor.
  - cbn [fst]. apply (place_int bc z I V), Ht. by left.
  - apply IH. intros u Hu. apply Ht. by right.
Qed.
Lemma handlers_ge E pc c tend ex ts i t : code_handlers L F E pc c tend ex ts i -> t ∈ ts -> pc <= t.
Proof.
  revert pc ts i. induction ex as [|id codes stmt next IH]; intros pc ts i; [by intros [-> _] ?%elem_of_nil|].
  intros (i1 & i2 & i3 & i4 & ts' & -> & _ & _ & _ & _ & Hc) [->|Ht]%elem_of_cons; [lia|]. apply (IH _ _ _ Hc) in Ht.
  pose proof (ilen_nonneg i1). pose proof (ilen_nonneg i2). pose proof (ilen_nonneg i3). lia.
Qed.

Lemma hdec_nil : hdec XEnd.
Proof.
  intros bc z I E ids pc c ts i st sk ar V Hw Hdw Hc Hin Hd Hs. destruct Hc as [-> ->]. apply ev_always. intros k. by rewrite ilen_nil, Z.add_0_r.
Qed.

(** The variable of a handler. *)
Lemma handler_var bc z I id pc i1 i st sk ar : vec bc z I -> opt_slot_ok id = true -> (if 0 <=? id then code_var OP_PUT id i1 else i1 = []) ->
  seg I pc (i1 ++ Op OP_POP :: i) ->
  (op ← next_byte bc;
   if op =? OP_G_PUT then id ← READ_ID bc; op ← next_byte bc; mret (id, op)
   else if IS_PUT_n op then op' ← next_byte bc; mret (PUT_n_INDEX op, op')
   else mret (-1, op)) (cur (place z I pc) st [] sk ar) = Some ((id, OP_POP), cur (place z I (pc + ilen i1 + 1)) st [] sk ar).
Proof.
  intros V Hid Hc Hs. assert (id = -1 \/ 0 <= id < 256) as [->|Hr] by (unfold opt_slot_ok, slot_ok in *; lia).
  - cbn in Hc. subst i1. rewrite ilen_nil, Z.add_0_r. by bind (next_byte_op bc z I V _ _ _ st [] sk ar Hs).
  - destruct (Z.leb_spec 0 id); [|lia]. destruct Hc as [[Hv ->]|[Hv ->]]; cbn [app] in Hs; pose proof (proj2 (seg_cons _ _ _ _ Hs)) as Hs1.
    + bind (next_byte_op bc z I V _ _ _ st [] sk ar Hs). change (ilen [_]) with 1.
      destruct (Z.eqb_spec (OP_PUT + id) OP_G_PUT); [consts; lia|]. assert (IS_PUT_n (OP_PUT + id) = true) as -> by (unfold IS_PUT_n; consts; lia).
      bind (next_byte_op bc z I V _ _ _ st [] sk ar Hs1). unfold PUT_n_INDEX. by replace (OP_PUT + id - OP_PUT) with id by lia.
    + pose proof (proj2 (seg_cons _ _ _ _ Hs1)) as Hs2. bind (next_byte_op bc z I V _ _ _ st [] sk ar Hs). rewrite Z.eqb_refl.
      bind (read_id bc z I V _ _ _ st [] sk ar Hs1 ltac:(lia)). bind (next_byte_op bc z I V _ _ _ st [] sk ar Hs2).
      change (ilen [_; _]) with 2. by replace (pc + 1 + 1 + 1) with (pc + 2 + 1) by lia.
Qed.

(** Where the handler's statements end. *)
Lemma handlers_head E pc c tend ex ts i : code_handlers L F E pc c tend ex ts i ->
  match ex with XEnd => ts = [] /\ i = [] | _ => exists ts', ts = pc :: ts' end.
Proof. destruct ex; [done|]. intros (i1 & i2 & i3 & i4 & ts' & -> & _). by exists ts'. Qed.

Lemma hdec_cons id codes stmt next : ssdec stmt -> hdec next -> hdec (XArm id codes stmt next).
Proof.
  intros H1 H2 bc z I E ids pc c ts i st sk ar V Hw Hdw Hc Hin Hd Hs. cbn [wf_handlers dwf_handlers depth_handlers] in *. sands.
  destruct Hc as (i1 & i2 & i3 & i4 & ts' & -> & Ei & Cv & C2 & Ei3 & C4). set (fin := pc + ilen i) in *.
  assert (Elen : fin = pc + ilen i1 + 1 + ilen i2 + ilen i3 + ilen i4) by (unfold fin; rewrite Ei; repeat rewrite ?ilen_app, ?ilen_cons, ?ilen_nil; lia).
  pose proof (ilen_nonneg i1). pose proof (ilen_nonneg i2). pose proof (ilen_nonneg i3). pose proof (ilen_nonneg i4). pose proof (proj1 Hin).
  set (q := pc + ilen i1 + 1) in *. cbn [excepts_list]. clearbody fin. subst i. cbn [app] in Hs.
  assert (Hb : sran program capacity bc z I q i2 (stmts_list stmt)).
  { eapply (H1 bc z I E ids); try done; [|lia]. eapply inside_sub; [exact Hin|unfold q; lia..]. }
  pose proof (proj2 (seg_app _ _ _ _ Hs)) as Hs1. apply seg_cons in Hs1 as [_ Hs1]. fold q in Hs1. pose proof (proj2 (seg_app _ _ _ _ Hs1)) as Hs3.
  pose proof (seg_app _ _ _ _ Hs3) as [_ Hs4]. pose proof (handlers_head _ _ _ _ _ _ _ C4) as Hh.
  assert (E4 : ev (fun k => read_handlers (nest k) bc (excepts_list z I next ts') (place z I fin) (cur (place z I (q + ilen i2 + ilen i3)) st [] sk ar) =
    Some (next, cur (place z I fin) st [] sk ar))).
  { rewrite Elen. rewrite Elen in C4. eapply (H2 bc z I E ids); try done; [|lia]. eapply inside_sub; [exact Hin|unfold q; lia..]. }
  assert (E2 : ev (fun k => DECOMPILE (nest k) bc (match excepts_list z I next ts' with (label', _) :: _ => label' - jump_len bc | [] => place z I fin end) true false
      (cur (place z I q) st [] sk ar) = Some ((stmt, CEnd), cur (place z I (q + ilen i2)) st [] sk ar)) /\
    (match excepts_list z I next ts' with [] => mret tt | _ => jump ← read_jump bc; dcheck (jump =? place z I fin) end)
      (cur (place z I (q + ilen i2)) st [] sk ar) = Some (tt, cur (place z I (q + ilen i2 + ilen i3)) st [] sk ar)).
  { destruct next as [|id' codes' stmt' next']; subst i3.
    - destruct Hh as [-> ->]. cbn [excepts_list]. rewrite ilen_nil, Z.add_0_r. replace fin with (q + ilen i2) by (rewrite Elen, !ilen_nil; lia).
      split; [|done]. apply seg_app in Hs1 as [Hs1 _]. pose proof (nested_stmts bc z I q i2 _ st sk ar Hb Hs1) as N. by rewrite stmts_of_list in N.
    - destruct Hh as [ts'' ->]. cbn [excepts_list]. change (ilen [_; _]) with 2 in *.
      destruct (loop_body bc z I q (q + ilen i2 + 2) fin i2 _ st sk ar V Hb) as [Hn Hj]; [|done|].
      { rewrite app_assoc in Hs1. by apply seg_app in Hs1 as [Hs1 _]. }
      rewrite stmts_of_list in Hn. split; [done|]. bind Hj. by rewrite (Z.eqb_refl (place z I fin)). }
  destruct E2 as [E2 Ej]. eapply ev_impl; [exact (ev_and _ _ E2 E4)|]. intros k [F2 F4]. cbn [read_handlers]. easy_bind.
  bind (check_eq _ (cur (place z I pc) st [] sk ar) (Z.eqb_refl (place z I pc))).
  rewrite (dbind_assoc_eq _ _ _ _ _ _ (handler_var bc z I id pc i1 _ st sk ar V ltac:(done) Cv Hs)). fold q. cbn beta iota.
  bind (check_eq _ (cur (place z I q) st [] sk ar) (Z.eqb_refl OP_POP)). bind F2. cbn beta iota. bind Ej. by bind F4.
Qed.

Lemma sdec_try body excepts : ssdec body -> hdec excepts -> sdec (STMT_TRY_EXCEPT body excepts).
Proof.
  intros H1 H2. sstart. destruct Hc as (i1 & i2 & i3 & ts & Ei & C1 & C2 & C3). pose proof (excepts_ts _ _ _ _ _ C1) as Hts.
  pose proof (arm_count_pos excepts). set (fin := pc + ilen i) in *. pose proof (proj1 Hin).
  assert (Elen : fin = pc + ilen i1 + 3 + ilen i2 + 3 + ilen i3) by (unfold fin; rewrite Ei; repeat rewrite ?ilen_app, ?ilen_cons, ?ilen_nil; lia).
  pose proof (ilen_nonneg i1). pose proof (ilen_nonneg i2). pose proof (ilen_nonneg i3). pose proof (depth_ss_pos body).
  set (q := pc + ilen i1 + 3) in *. rewrite uwrap8 in Ei by lia. clearbody fin. subst i. cbn [app].
  assert (Hb : sran program capacity bc z I q i2 (stmts_list body)).
  { eapply (H1 bc z I E ids); try done; [|lia]. eapply inside_sub; [exact Hin|unfold q; lia..]. }
  eapply (sran_step bc z I V).
  { apply (excepts_ran bc z I ids V excepts pc c ts i1 []); try done. unfold fitting. cbn [length]. lia. }
  rewrite app_nil_r. intros Hs Hs1 stop sa sk ar Hstop.
  assert (Hfin : place z I fin <= stop).
  { etrans; [|exact Hstop]. apply Z.eq_le_incl. f_equal. unfold q in *. repeat rewrite ?ilen_app, ?ilen_cons, ?ilen_nil. lia. }
  ends_at fin. set (es := rev (handler_exprs (excepts_list z I excepts ts))).
  pose proof (proj2 (seg_cons _ _ _ _ Hs1)) as Hs2. pose proof (proj2 (seg_cons _ _ _ _ Hs2)) as Hs3.
  replace (pc + ilen i1 + 1 + 1 + 1) with q in Hs3 by (unfold q; lia). pose proof (proj2 (seg_app _ _ _ _ Hs3)) as Hs4.
  pose proof (proj2 (seg_app _ _ [_; _] _ Hs4)) as Hs5. pose proof (proj2 (seg_cons _ _ _ _ Hs5)) as Hs6. change (ilen [_; _]) with 2 in *.
  set (h := q + ilen i2 + 3) in *. replace (q + ilen i2 + 2 + 1) with h in Hs6 by (unfold h; lia).
  assert (P1 : place z I (q + ilen i2 + 2) <= stop) by (pose proof (place_mono bc z I V (q + ilen i2 + 2) fin); unfold h, q in *; lia).
  pose proof (nested_body bc z I V q i2 _ EOP_END_EXCEPT _ stop (place z I pc) sk ar Hb ltac:(right; by left) Hs3 P1) as N1. rewrite stmts_of_list in N1.
  assert (N2 : ev (fun k => read_handlers (nest k) bc (excepts_list z I excepts ts) (place z I fin) (cur (place z I h) (place z I pc) [] sk ar) =
    Some (excepts, cur (place z I fin) (place z I pc) [] sk ar))).
  { rewrite Elen in C3 |- *. eapply (H2 bc z I E ids); try done; [|lia]. eapply inside_sub; [exact Hin|unfold h, q; lia..]. }
  assert (Hge : forall t, t ∈ ts -> 0 <= t) by (intros t Ht; pose proof (handlers_ge _ _ _ _ _ _ _ t C3 Ht); unfold h, q in *; lia).
  eapply ev_impl; [exact (ev_and _ _ N1 N2)|]. intros k [E1 E2].
  rewrite (extended_eq _ _ bc z I V _ _ _ _ _ _ _ _ _ _ _ Hs). unfold extended_step. bind (next_byte_op bc z I V _ _ _ (place z I pc) es sk ar Hs1).
  trans ((decompile_try_except (nest k) bc stop true;; mret false) (cur (place z I (pc + ilen i1 + 1 + 1)) (place z I pc) es sk ar)); [done|].
  erewrite dbind_eq; [reflexivity|]. unfold decompile_try_except. bind (next_byte_op bc z I V _ _ _ (place z I pc) es sk ar Hs2).
  replace (pc + ilen i1 + 1 + 1 + 1) with q by (unfold q; lia). rewrite Nat2Z.id, <- (excepts_list_length z I excepts ts Hts).
  pose proof (pop_excepts_eq bc z I V (place z I q) (place z I pc) [] sk ar (excepts_list z I excepts ts)
    (excepts_int bc z I V excepts ts Hge) []) as Ep.
  rewrite !app_nil_r in Ep. bind Ep. bind E1. cbn beta iota. rewrite (read_end bc z I V _ _ _ _ (place z I pc) [] sk ar Hs4).
  bind (check_eq _ (cur (place z I (q + ilen i2 + 2)) (place z I pc) [] sk ar) (Z.eqb_refl EOP_END_EXCEPT)).
  bind (read_label bc z I V _ _ _ (place z I pc) [] sk ar Hs5). replace (q + ilen i2 + 2 + 1) with h by (unfold h; lia). bind E2. easy_bind.
  by bind (check_eq _ (cur (place z I fin) (place z I pc) [] sk ar) (Z.eqb_refl (place z I fin))).
Qed.

(** *** Vectors *)

(** A vector on its own. *)
Lemma vector_returns b i body : bc_size b < 2 ^ 31 -> compiled b (i ++ [Op OP_DONE]) (depth_ss body) -> wf_ss [] body = true -> dwf_ss body = true ->
  code_ss L F [] 0 0 body i -> ssdec body -> depth_ss body <= capacity ->
  exists st, returns program capacity b (bc_size b) true false (cur 0 0 [] [] []) (cur (bc_size b) st [] (rev (stmts_list body) ++ []) []).
Proof.
  intros Hsz (_ & z & Ez & He & Eb) Hw Hdw Hc IH Hcap. set (I := i ++ [Op OP_DONE]) in *.
  assert (El : bc_size b = isum z I) by (unfold bc_size; rewrite Eb; apply (encode_length z (e_sizes _ _ He))).
  assert (V : vec b z I) by (split; [done..|lia]).
  assert (Hs : seg I 0 I) by (split; [lia|]; exists []; by rewrite app_nil_r).
  pose proof (seg_app I 0 i [Op OP_DONE] Hs) as [Hs1 Hs2]. rewrite Z.add_0_l in Hs2.
  assert (Ef : place z I (ilen i + 1) = bc_size b).
  { rewrite El, <- (Z.add_0_l (ilen i + 1)). change 1 with (ilen [Op OP_DONE]). rewrite <- ilen_app. exact (place_seg z I 0 I Hs). }
  pose proof (place_op z _ _ _ _ Hs2) as Ho. exists (place z I (ilen i)). change 0 with (place z I 0) at 1 2.
  assert (R : sran program capacity b z I 0 i (stmts_list body)).
  { by eapply (IH b z I [] []). }
  apply (R Hs1 (bc_size b) false [] []); rewrite Z.add_0_l; [lia|].
  apply step_exec with (c' := cur (place z I (ilen i + 1)) (place z I (ilen i)) [] (rev (stmts_list body) ++ []) []); [cbn [ptr]; lia|..].
  - apply ev_always. intros k. unfold step. bind (next_byte_op b z I V _ _ _ (place z I (ilen i)) [] (rev (stmts_list body) ++ []) [] Hs2).
    trans ((p ← dget ptr; dcheck (p =? bc_size b);; mret false) (cur (place z I (ilen i + 1)) (place z I (ilen i)) [] (rev (stmts_list body) ++ []) [])); [done|].
    easy_bind. rewrite Ef. by bind (check_eq _ (cur (bc_size b) (place z I (ilen i)) [] (rev (stmts_list body) ++ []) []) (Z.eqb_refl (bc_size b))).
  - rewrite Ef. by apply stop_returns.
Qed.

Lemma nested_vector b i body st es sk ar : bc_size b < 2 ^ 31 -> compiled b (i ++ [Op OP_DONE]) (depth_ss body) -> wf_ss [] body = true -> dwf_ss body = true ->
  code_ss L F [] 0 0 body i -> ssdec body -> depth_ss body <= capacity -> es = [] -> forall p,
  ev (fun k => nest k b 0 (bc_size b) true false (cur p st es sk ar) = Some ((bc_size b, body, CEnd), cur p st [] sk ar)).
Proof.
  intros H1 H2 H3 H4 H5 H6 H7 -> p. destruct (vector_returns b i body H1 H2 H3 H4 H5 H6 H7) as [st' R].
  eapply ev_impl; [exact R|]. intros k E. unfold decompile. cbn [Decompile.expr_stack]. rewrite E. cbn [mbind option_bind sink ptr Decompile.arms Decompile.expr_stack stmt_start].
  rewrite app_nil_r, rev_involutive, stmts_of_list. done.
Qed.

(** *** Forks *)

Context (Hforks : Z.of_nat (length F) < 2 ^ 32).
Context (Hvecs : forall b, b ∈ F -> bc_size b < 2 ^ 31 /\ bc_max_stack b <= capacity).

Lemma sdec_fork id time body : ssdec body -> sdec (STMT_FORK id time body).
Proof.
  intros H. sstart. destruct Hc as (i1 & k0 & b & i2 & -> & C1 & Hk & Hb & Hcomp & C2).
  destruct (Hvecs b ltac:(by eapply list_elem_of_lookup_2)) as [Hsz Hms]. pose proof (proj1 Hcomp) as Ed.
  assert (Hkb : k0 < 2 ^ 32) by (apply lookup_lt_Some in Hb; lia).
  assert (Hid : id = -1 \/ 0 <= id < 256) by (unfold opt_slot_ok, slot_ok in *; lia).
  set (with_id := 0 <=? id) in *.
  change ([Op (if with_id then OP_FORK_WITH_ID else OP_FORK); Ref FIXUP_FORK k0] ++ (if with_id then [Ref FIXUP_VAR_REF id] else []))
    with (Op (if with_id then OP_FORK_WITH_ID else OP_FORK) :: Ref FIXUP_FORK k0 :: (if with_id then [Ref FIXUP_VAR_REF id] else [])).
  eapply (sran_step bc z I V); [eapply dexpr; [eassumption..|lia]|]. intros Hs Hs1 stop sa sk ar _. set (q := pc + ilen i1 + 1) in *.
  pose proof (proj2 (seg_cons _ _ _ _ Hs1)) as Hs2. rewrite ilen_cons. set (fin := q + (1 + ilen (if with_id then [Ref FIXUP_VAR_REF id] else []))).
  eapply ev_impl; [exact (nested_vector b i2 body (place z I pc) [] sk ar Hsz Hcomp ltac:(done) ltac:(done) C2 H ltac:(lia) eq_refl (place z I fin))|].
  intros k E1. unfold step. bind (next_byte_op bc z I V _ _ _ (place z I pc) [time] sk ar Hs). fold q.
  trans ((decompile_fork program (nest k) bc true with_id;; mret false) (cur (place z I q) (place z I pc) [time] sk ar)); [by destruct with_id|].
  erewrite dbind_eq; [reflexivity|]. unfold decompile_fork. easy_bind.
  assert (Ef : READ_FORK program bc (cur (place z I q) (place z I pc) [] sk ar) = Some (b, cur (place z I (q + 1)) (place z I pc) [] sk ar)).
  { unfold READ_FORK, nb_fork. rewrite (v_sizes _ _ _ V). change (nth 2 (size_list z) 0) with (kind_size z FIXUP_FORK).
    bind (read_ref bc z I V q FIXUP_FORK k0 _ (place z I pc) [] sk ar Hs1 Hkb). by rewrite Hb. }
  bind Ef.
  assert (Ei : (if with_id then READ_ID bc else mret (-1)) (cur (place z I (q + 1)) (place z I pc) [] sk ar) = Some (id, cur (place z I fin) (place z I pc) [] sk ar)).
  { unfold fin. unfold with_id in *. destruct (Z.leb_spec 0 id).
    - rewrite (read_id bc z I V _ _ _ (place z I pc) [] sk ar Hs2) by lia. change (ilen [_]) with 1. by rewrite <- Z.add_assoc.
    - rewrite ilen_nil, Z.add_0_r. by replace id with (-1) by lia. }
  bind Ei. bind E1. done.
Qed.

(** *** The induction *)

Lemma sdec_all : (forall st, sdec st) /\ (forall st, ssdec st) /\
  (forall a, adec a /\ forall c st next, a = CArm c st next -> ssdec st /\ adec next) /\ (forall x, hdec x).
Proof.
  apply Stmt_ind_all; intros; repeat match goal with H : _ /\ _ |- _ => destruct H end; try split;
    auto using sdec_for_list, sdec_for_range, sdec_while, sdec_fork, sdec_expr, sdec_return, sdec_try, sdec_finally, sdec_break, sdec_continue,
    sdec_nil, sdec_seq, adec_nil, adec_cons, hdec_nil, hdec_cons.
  - by apply sdec_cond.
  - done.
  - by intros ? ? ? [= -> -> ->].
Qed.
End Running.

Lemma sum_nonneg l : Forall (fun n => 0 <= n) l -> 0 <= foldr Z.add 0 l.
Proof. induction 1 as [|n l Hn Hl IH]; cbn [foldr]; lia. Qed.
Lemma sum_ge l n : Forall (fun n => 0 <= n) l -> n ∈ l -> n <= foldr Z.add 0 l.
Proof.
  induction 1 as [|m l Hm Hl IH]; [by intros ?%elem_of_nil|]. intros [->|H]%elem_of_cons; cbn [foldr].
  - pose proof (sum_nonneg l Hl). lia.
  - specialize (IH H). lia.
Qed.
Lemma stack_size_ge p b : sized p -> b = p_main_vector p \/ b ∈ p_fork_vectors p -> bc_max_stack b <= stack_size p.
Proof.
  intros Hp Hb. apply sum_ge.
  - apply Forall_map. eapply Forall_impl; [exact (z_vectors p Hp)|]. intros x [Hx _]. exact Hx.
  - apply list_elem_of_fmap. exists b. split; [done|]. apply elem_of_cons. tauto.
Qed.
Lemma sized_vector p b : sized p -> b = p_main_vector p \/ b ∈ p_fork_vectors p -> bc_size b < 2 ^ 31.
Proof. intros Hp Hb. pose proof (z_vectors p Hp) as H. rewrite Forall_forall in H. apply H, elem_of_cons. tauto. Qed.

Lemma decompile_code p st : code_program p st -> wf_ss [] st = true -> dwf_ss st = true -> sized p ->
  ev (fun k => decompile_program k p MAIN_VECTOR = Some st).
Proof.
  intros (i & Hcomp & Hc) Hw Hd Hp.
  assert (IH : ssdec p (stack_size p) st).
  { apply sdec_all; [apply (z_literals p Hp)|apply (z_forks p Hp)|]. intros b Hb. split; [apply (sized_vector p b Hp)|apply (stack_size_ge p b Hp)]; by right. }
  pose proof (stack_size_ge p _ Hp (or_introl eq_refl)) as Hs. rewrite (proj1 Hcomp) in Hs.
  eapply ev_impl; [exact (nested_vector p (stack_size p) (p_main_vector p) i st 0 [] [] [] (sized_vector p _ Hp (or_introl eq_refl)) Hcomp Hw Hd Hc IH Hs eq_refl 0)|].
  intros k E. unfold decompile_program, program_to_tree. rewrite Z.eqb_refl. cbn [mbind option_bind]. by rewrite E.
Qed.

(** ** Theorems *)

(** C20: decompiling the program that was generated for a tree gives the tree
    back, when the fuel is enough: no check of the decompiler fails, whether
    on the places jumps go to, on the opcodes expected or on the stack, whose size
    is the sum of what the vectors declare.  The trees are those that the parser builds within the limits
    of [wf_program] (slots below 256, depth at most 255, less than 255 targets before a rest and
    256 handlers, function numbers in a byte, no float -0.0) without an indexed assignment to the variable in slot 106, and the sizes of
    the program fit in the machine's integers ([sized]). *)
Theorem decompile_generate (st : Stmts) (version : Z) (p : Program) : wf_program st = true -> dwf_ss st = true ->
  generate_code st version = Some p -> sized p ->
  exists fuel, forall k, (fuel <= k)%nat -> decompile_program k p MAIN_VECTOR = Some st.
Proof.
  intros Hwf Hd Hg Hp. destruct (generate_code_ok st version Hwf) as (p' & Hg' & Hc). assert (p' = p) as -> by congruence.
  apply decompile_code; try done. by apply andb_true_iff in Hwf as [Hw _].
Qed.

Lemma decompile_generate_witness : exists p, generate_code sample_program 5 = Some p /\
  exists fuel, forall k, (fuel <= k)%nat -> decompile_program k p MAIN_VECTOR = Some sample_program.
Proof.
  eexists. split; [vm_compute; reflexivity|]. apply (decompile_generate sample_program 5); [reflexivity|reflexivity|vm_compute; reflexivity|].
  split; [reflexivity|reflexivity|]. repeat constructor; vm_compute; congruence.
Defined.

Lemma decompile_slot_106 : wf_program assign_slot_106 = true /\ exists p, generate_code assign_slot_106 5 = Some p /\
  forall k, decompile_program k p MAIN_VECTOR = None.
Proof.
  split; [reflexivity|]. eexists. split; [vm_compute; reflexivity|]. intros k. do 12 (destruct k as [|k]; [vm_compute; reflexivity|]). 
  vm_compute. reflexivity.
Qed.
