(* ===== verification/InputQueue.v ===== *)
(** * The input queue of a task queue (tasks.c)

    Lines of input wait in a linked list.  It alternates between runs of
    out-of-band lines and runs of other lines, and a second list, the itail
    queue, is threaded through the last line of every run, so that the first
    line of either sort is found without a search.  Both lists are kept with
    pointers to the pointer to be written next; here a line has an address, and
    a pointer to a pointer is a [slot]. *)

From S2P Require Import Prelude CString Values.

(** ** Definitions *)

Inductive task_kind := TASK_INBAND | TASK_OOB | TASK_QUOTED | TASK_BINARY | TASK_FORKED | TASK_SUSPENDED.
#[export] Instance task_kind_eq_dec : EqDecision task_kind.
Proof. solve_decision. Defined.
Definition is_oob (k : task_kind) : bool := bool_decide (k = TASK_OOB).

(** A null pointer is 0. *)
Record input_task := mkInput {
  it_kind : task_kind;
  it_string : bytes;
  it_length : Z;
  it_next : Z;
  it_next_itail : Z
}.
Definition set_next (p : Z) (t : input_task) : input_task :=
  mkInput (it_kind t) (it_string t) (it_length t) p (it_next_itail t).
Definition set_next_itail (p : Z) (t : input_task) : input_task :=
  mkInput (it_kind t) (it_string t) (it_length t) (it_next t) p.

(** [&tq->first_input], [&tq->first_itail], [&t->next] and [&t->t.input.next_itail]. *)
Inductive slot := First_input | First_itail | Next (t : Z) | Next_itail (t : Z).
#[export] Instance slot_eq_dec : EqDecision slot.
Proof. solve_decision. Defined.

Record input_queue := mkIq {
  lines : gmap Z input_task;
  next_line : Z;                  (* an address that was never used *)
  first_input : Z;
  last_input : slot;
  first_itail : Z;
  last_itail : slot;
  total_input_length : Z
}.

Definition empty_input : input_queue := mkIq ∅ 1 0 First_input 0 First_itail 0.

Definition with_lines (f : gmap Z input_task -> gmap Z input_task) (q : input_queue) : input_queue :=
  mkIq (f (lines q)) (next_line q) (first_input q) (last_input q) (first_itail q) (last_itail q) (total_input_length q).
Definition set_last_input (s : slot) (q : input_queue) : input_queue :=
  mkIq (lines q) (next_line q) (first_input q) s (first_itail q) (last_itail q) (total_input_length q).
Definition set_last_itail (s : slot) (q : input_queue) : input_queue :=
  mkIq (lines q) (next_line q) (first_input q) (last_input q) (first_itail q) s (total_input_length q).
Definition set_total (n : Z) (q : input_queue) : input_queue :=
  mkIq (lines q) (next_line q) (first_input q) (last_input q) (first_itail q) (last_itail q) n.

(** [*s] and [*s = p]. *)
Definition read_slot (q : input_queue) (s : slot) : option Z :=
  match s with
  | First_input => Some (first_input q)
  | First_itail => Some (first_itail q)
  | Next t => it_next <$> lines q !! t
  | Next_itail t => it_next_itail <$> lines q !! t
  end.
Definition write_slot (q : input_queue) (s : slot) (p : Z) : option input_queue :=
  match s with
  | First_input =>
      Some (mkIq (lines q) (next_line q) p (last_input q) (first_itail q) (last_itail q) (total_input_length q))
  | First_itail =>
      Some (mkIq (lines q) (next_line q) (first_input q) (last_input q) p (last_itail q) (total_input_length q))
  | Next t => l ← lines q !! t; Some (with_lines <[t := set_next p l]> q)
  | Next_itail t => l ← lines q !! t; Some (with_lines <[t := set_next_itail p l]> q)
  end.

Definition oob_quote_prefix : bytes := BS "#$" ++ [34].
Definition oob_prefix : bytes := BS "#$#".
Definition oob_quote_prefix_length : Z := Z.of_nat (length oob_quote_prefix).

(** [strncmp(prefix, input, strlen(prefix)) == 0] *)
Definition has_prefix (prefix input : bytes) : bool := bool_decide (take (length prefix) input = prefix).

Definition input_kind (input : bytes) (binary : bool) : task_kind :=
  if binary then TASK_BINARY
  else if has_prefix oob_quote_prefix input then TASK_QUOTED
  else if has_prefix oob_prefix input then TASK_OOB
  else TASK_INBAND.

(** The new line, not yet in the lists. *)
Definition with_new (q : input_queue) (input : bytes) (binary : bool) : input_queue :=
  mkIq (<[next_line q := mkInput (input_kind input binary) input (int (Z.of_nat (length input))) 0 0]> (lines q))
    (next_line q + 1) (first_input q) (last_input q) (first_itail q) (last_itail q)
    (int (total_input_length q + int (Z.of_nat (length input)))).

(** The part of [enqueue_input_task] that changes the queue. *)
Definition enqueue_line (q : input_queue) (input : bytes) (at_front binary : bool) : option input_queue :=
  let t := next_line q in
  let kind := input_kind input binary in
  let q := with_new q input binary in
  if at_front && negb (first_input q =? 0) then
    first ← lines q !! first_input q;
    q ← (if negb (eqb (is_oob (it_kind first)) (is_oob kind)) then
           q ← write_slot q (Next_itail t) (first_itail q);
           q ← write_slot q First_itail t;
           Some (if bool_decide (last_itail q = First_itail) then set_last_itail (Next_itail t) q else q)
         else Some q);
    q ← write_slot q (Next t) (first_input q);
    write_slot q First_input t
  else
    q ← (if negb (first_input q =? 0) then
           tail ← read_slot q (last_itail q);
           l ← lines q !! tail;
           Some (if negb (eqb (is_oob (it_kind l)) (is_oob kind)) then set_last_itail (Next_itail tail) q else q)
         else Some q);
    q ← write_slot q (last_itail q) t;
    q ← write_slot q (last_input q) t;
    Some (set_last_input (Next t) q).

Inductive dequeue_how := DQ_FIRST | DQ_OOB | DQ_INBAND.
#[export] Instance dequeue_how_eq_dec : EqDecision dequeue_how.
Proof. solve_decision. Defined.
Definition dequeue_how_value (how : dequeue_how) : Z :=
  match how with DQ_FIRST => -1 | DQ_OOB => 0 | DQ_INBAND => 1 end.

(** How a line that leaves the queue is changed. *)
Definition unquote (disable_oob : bool) (kind : task_kind) (string_ : bytes) : task_kind * bytes :=
  match kind with
  | TASK_OOB => (if disable_oob then TASK_INBAND else TASK_OOB, string_)
  | TASK_QUOTED => (TASK_INBAND, if disable_oob then string_ else drop (Z.to_nat oob_quote_prefix_length) string_)
  | k => (k, string_)
  end.

(** The line [t], at [pt], leaves the list. *)
Definition unlink_next (q : input_queue) (t : Z) (pt : slot) : option input_queue :=
  next ← read_slot q (Next t);
  q ← write_slot q pt next;
  if next =? 0 then Some (set_last_input pt q) else write_slot q (Next t) 0.

(** The line [t] leaves the itail queue if it is there, at [pitail]. *)
Definition unlink_itail (q : input_queue) (t : Z) (pitail : slot) : option input_queue :=
  itail ← read_slot q pitail;
  if t =? itail then
    q ← write_slot q pitail 0;
    next ← read_slot q (Next_itail t);
    q ← (if negb (next =? 0) then
           q ← write_slot q First_itail next;
           write_slot q (Next_itail t) 0
         else Some q);
    last ← read_slot q (last_itail q);
    Some (if last =? 0 then set_last_itail First_itail q else q)
  else Some q.

(** [dequeue_input_task], without the resumption of suspended input. *)
Definition dequeue_line (disable_oob : bool) (how : dequeue_how) (q : input_queue)
    : option (input_queue * option (task_kind * bytes)) :=
  if disable_oob && bool_decide (how = DQ_OOB) then Some (q, None)
  else
    let how := if disable_oob then DQ_FIRST else how in
    if first_input q =? 0 then Some (q, None)
    else
      first ← lines q !! first_input q;
      let '(pt, pitail) :=
        if dequeue_how_value how =? (if is_oob (it_kind first) then 1 else 0)
        then (Next (first_itail q), Next_itail (first_itail q))
        else (First_input, First_itail) in
      t ← read_slot q pt;
      if t =? 0 then Some (q, None)
      else
        line ← lines q !! t;
        q ← unlink_next q t pt;
        q ← unlink_itail q t pitail;
        let q := set_total (int (total_input_length q - it_length line)) q in
        Some (with_lines (fun m => delete t m) q, Some (unquote disable_oob (it_kind line) (it_string line))).

(** ** Specification *)

(** The last line of every run; [k] tells the out-of-band lines. *)
Fixpoint tails (k : Z -> bool) (ps : list Z) : list Z :=
  match ps with
  | [] => []
  | p :: r => match r with [] => [p] | p' :: _ => if eqb (k p) (k p') then tails k r else p :: tails k r end
  end.
(** The pointer that points to the last of a list. *)
Fixpoint last_slot (T : list Z) : slot :=
  match T with
  | a :: T' => match T' with [] => First_itail | [_] => Next_itail a | _ => last_slot T' end
  | [] => First_itail
  end.

Definition next_of (q : input_queue) (p : Z) : option Z := it_next <$> lines q !! p.
Definition itail_of (q : input_queue) (p : Z) : option Z := it_next_itail <$> lines q !! p.
Definition oob_at (q : input_queue) (p : Z) : bool :=
  match lines q !! p with Some t => is_oob (it_kind t) | None => false end.

(** The lines of [q] are at the addresses [ps], in this order. *)
Record lines_at (q : input_queue) (ps : list Z) : Prop := {
  r_chain : chain 0 (next_of q) (first_input q) ps;
  r_last : last_input q = match last ps with None => First_input | Some p => Next p end;
  r_itails : chain 0 (itail_of q) (first_itail q) (tails (oob_at q) ps);
  r_last_itail : last_itail q = last_slot (tails (oob_at q) ps);
  r_fresh : 0 < next_line q;
  r_used : forall p, is_Some (lines q !! p) -> 0 < p < next_line q;
  r_dom : forall p, is_Some (lines q !! p) -> p ∈ ps;
  r_length : forall p t, lines q !! p = Some t -> it_length t = int (Z.of_nat (length (it_string t)))
}.
Definition content (q : input_queue) (p : Z) : option (task_kind * bytes) :=
  (fun t => (it_kind t, it_string t)) <$> lines q !! p.

(** The queue holds these lines. *)
Definition holds (q : input_queue) (ls : list (task_kind * bytes)) : Prop :=
  exists ps, lines_at q ps /\ Forall2 (fun p l => content q p = Some l) ps ls /\
    total_input_length q = int (foldr (fun l n => Z.of_nat (length l.2) + n) 0 ls).

(** Which line [dequeue_input_task] is to answer: the first, the first out-of-band
    line or the first other line. *)
Definition wanted (disable_oob : bool) (how : dequeue_how) (l : task_kind * bytes) : bool :=
  match how with
  | DQ_FIRST => true
  | DQ_OOB => negb disable_oob && is_oob l.1
  | DQ_INBAND => disable_oob || negb (is_oob l.1)
  end.

(** ** Lemmas *)

Lemma eqb_swap a b : eqb a b = eqb b a.
Proof. by destruct a, b. Qed.

(** *** The ends of runs *)

Lemma tails_cons k p r : tails k (p :: r) = match r with [] => [p] | p' :: _ => if eqb (k p) (k p') then tails k r else p :: tails k r end.
Proof. done. Qed.

Lemma tails_subset k ps p : p ∈ tails k ps -> p ∈ ps.
Proof.
  induction ps as [|a r IH]; [done|]. rewrite tails_cons. destruct r as [|b r].
  - done.
  - destruct (eqb (k a) (k b)); [intros H; right; auto|]. intros [->|H]%elem_of_cons; [left|right; auto].
Qed.

Lemma tails_ext k k' ps : (forall p, p ∈ ps -> k p = k' p) -> tails k ps = tails k' ps.
Proof.
  induction ps as [|a r IH]; intros H; [done|]. rewrite !tails_cons. destruct r as [|b r]; [done|].
  rewrite (H a), (H b), IH by set_solver. done.
Qed.

Lemma tails_NoDup k ps : NoDup ps -> NoDup (tails k ps).
Proof.
  induction ps as [|a r IH]; intros H; [constructor|]. rewrite tails_cons. apply NoDup_cons in H as [Ha H].
  destruct r as [|b r]; [apply NoDup_singleton|].
  destruct (eqb (k a) (k b)); [by apply IH|]. constructor; [|by apply IH]. intros Hin%tails_subset. by apply Ha.
Qed.

Lemma tails_nil k ps : tails k ps = [] -> ps = [].
Proof.
  induction ps as [|a r IH]; [done|]. rewrite tails_cons. destruct r as [|b r]; [done|].
  destruct (eqb (k a) (k b)); [|done]. intros H. by apply IH in H.
Qed.

(** The last line ends the last run. *)
Lemma tails_snoc k ps x : exists T, tails k (ps ++ [x]) = T ++ [x] /\
  forall t, tails k (ps ++ [x; t]) = T ++ (if eqb (k x) (k t) then [t] else [x; t]).
Proof.
  induction ps as [|a r IH].
  - exists []. split; [done|]. intros t. cbn [app tails]. by destruct (eqb (k x) (k t)).
  - destruct IH as (T & H1 & H2). destruct r as [|b r].
    + assert (T = []) as -> by (cbn in H1; by destruct T as [|? [|]]).
      exists (if eqb (k a) (k x) then [] else [a]). cbn [app] in *. split.
      * cbn [tails]. by destruct (eqb (k a) (k x)).
      * intros t. rewrite tails_cons, H2. by destruct (eqb (k a) (k x)).
    + exists (if eqb (k a) (k b) then T else a :: T). cbn [app] in *. rewrite tails_cons, H1. split.
      * by destruct (eqb (k a) (k b)).
      * intros t. rewrite tails_cons, H2. by destruct (eqb (k a) (k b)).
Qed.

(** The first run. *)
Lemma first_run k a r : exists ps s R, a :: r = ps ++ s :: R /\ (forall p, p ∈ ps ++ [s] -> k p = k a) /\
  match R with [] => tails k (a :: r) = [s] | b :: _ => k b <> k a /\ tails k (a :: r) = s :: tails k R end.
Proof.
  revert a. induction r as [|b r IH]; intros a.
  - exists [], a, []. split; [done|]. split; [set_solver|done].
  - rewrite tails_cons. destruct (eqb (k a) (k b)) eqn:E.
    + apply eqb_prop in E. destruct (IH b) as (ps & s & R & H1 & H2 & H3). exists (a :: ps), s, R.
      split; [by rewrite H1|]. split.
      * intros p [->|Hp]%elem_of_cons; [done|]. rewrite E. by apply H2.
      * destruct R; [done|]. by rewrite E.
    + exists [], a, (b :: r). split; [done|]. split; [set_solver|]. split; [|done]. apply eqb_false_iff in E. congruence.
Qed.

Lemma tails_absorb k ps y r : (forall p, p ∈ ps -> k p = k y) -> tails k (ps ++ y :: r) = tails k (y :: r).
Proof.
  induction ps as [|a ps IH]; intros H; [done|]. cbn [app]. rewrite tails_cons, IH by set_solver.
  destruct ps as [|b ps]; cbn [app]; rewrite (H a), ?(H b), eqb_reflx by set_solver; done.
Qed.
Lemma tails_run k ps s : (forall p, p ∈ ps -> k p = k s) -> tails k (ps ++ [s]) = [s].
Proof. apply tails_absorb. Qed.
Lemma tails_split k ps s b r : (forall p, p ∈ ps -> k p = k s) -> k b <> k s ->
  tails k (ps ++ s :: b :: r) = s :: tails k (b :: r).
Proof.
  intros H Hb. rewrite tails_absorb by done. rewrite (tails_cons k s).
  destruct (eqb (k s) (k b)) eqn:E; [|done]. apply eqb_prop in E. congruence.
Qed.

(** *** The slot of the last *)

Lemma last_slot_snoc T x y : last_slot (T ++ [x; y]) = Next_itail x.
Proof.
  induction T as [|a T IH]; [done|]. cbn [app last_slot]. destruct T as [|b T]; [done|]. cbn [app] in *.
  destruct (T ++ [x; y]) eqn:E; [by destruct T|]. done.
Qed.
Lemma last_slot_swap T x y : last_slot (T ++ [x]) = last_slot (T ++ [y]).
Proof.
  destruct (app_case T) as [->|(T' & a & ->)]; [done|]. rewrite <- !app_assoc. cbn [app]. by rewrite !last_slot_snoc.
Qed.
Lemma last_slot_cons a b c T : last_slot (a :: b :: c :: T) = last_slot (b :: c :: T).
Proof. done. Qed.
Lemma last_slot_long a b T : exists p, last_slot (a :: b :: T) = Next_itail p /\ p ∈ a :: b :: T.
Proof.
  revert a b. induction T as [|c T IH]; intros a b; [exists a; split; [done|left]|].
  rewrite last_slot_cons. destruct (IH b c) as (p & H1 & H2). exists p. split; [done|]. by right.
Qed.
(** What is pointed to is the last. *)
Lemma read_last_slot q T x : chain 0 (itail_of q) (first_itail q) (T ++ [x]) -> read_slot q (last_slot (T ++ [x])) = Some x.
Proof.
  intros H. destruct (app_case T) as [->|(T' & a & ->)].
  - cbn [app last_slot read_slot]. by apply chain_cons_inv in H as [-> _].
  - rewrite <- app_assoc in *. cbn [app] in *. rewrite last_slot_snoc. cbn [read_slot].
    apply chain_split in H. apply chain_cons_inv in H as (_ & _ & t & Ht & Hc).
    apply chain_cons_inv in Hc as (-> & _). exact Ht.
Qed.
(** The last of the list is replaced through the pointer to it. *)
Lemma chain_replace_last nx nx' h h' T x t : chain 0 nx h (T ++ [x]) -> t <> 0 -> nx' t = Some 0 ->
  (match last T with None => h' = t | Some p => h' = h /\ nx' p = Some t end) ->
  (forall p, p ∈ T -> last T <> Some p -> nx' p = nx p) -> NoDup (T ++ [x]) -> chain 0 nx' h' (T ++ [t]).
Proof.
  revert h h'. induction T as [|a T IH]; intros h h' H Ht Hn Hl E Hd; cbn [app] in *.
  - simpl in Hl. subst h'. econstructor; [done|done|constructor].
  - apply chain_cons_inv in H as (<- & Ha & u & Hu & Hc). apply NoDup_cons in Hd as [Hd1 Hd2].
    destruct T as [|b T].
    + cbn in Hl. destruct Hl as [-> Hl]. econstructor; [done|exact Hl|]. cbn [app]. econstructor; [done|done|constructor].
    + change (last (a :: b :: T)) with (last (b :: T)) in *.
      assert (Hal : last (b :: T) <> Some a).
      { intros Hx. apply last_Some_elem_of in Hx. apply Hd1. set_solver. }
      assert (exists w, last (b :: T) = Some w) as [w Hw] by (destruct (last (b :: T)) eqn:Ew; [by eexists|by apply last_None in Ew]).
      rewrite Hw in *. destruct Hl as [-> Hl].
      econstructor; [done|rewrite E by (set_solver || congruence); exact Hu|].
      apply (IH u u); [exact Hc|done|done|by split| |done].
      intros p Hp Hpw. apply E; [by right|done].
Qed.

(** *** Writing through a slot *)

Definition info (q : input_queue) (p : Z) : option (task_kind * bytes * Z) :=
  (fun t => (it_kind t, it_string t, it_length t)) <$> lines q !! p.
(** What does not concern the order of the lines is the same. *)
Record same_lines (q q' : input_queue) : Prop := {
  s_info : forall y, info q' y = info q y;
  s_next_line : next_line q' = next_line q;
  s_total : total_input_length q' = total_input_length q
}.
Record wrote (q : input_queue) (s : slot) (p : Z) (q' : input_queue) : Prop := {
  w_next : forall y, next_of q' y = if decide (s = Next y) then Some p else next_of q y;
  w_itail : forall y, itail_of q' y = if decide (s = Next_itail y) then Some p else itail_of q y;
  w_first : first_input q' = if decide (s = First_input) then p else first_input q;
  w_first_itail : first_itail q' = if decide (s = First_itail) then p else first_itail q;
  w_last : last_input q' = last_input q;
  w_last_itail : last_itail q' = last_itail q;
  w_same : same_lines q q'
}.

Lemma same_lines_refl q : same_lines q q.
Proof. by split. Qed.
Lemma same_lines_trans q1 q2 q3 : same_lines q1 q2 -> same_lines q2 q3 -> same_lines q1 q3.
Proof. intros [H1 H2 H3] [G1 G2 G3]. split; [intros y; by rewrite G1|congruence..]. Qed.

Lemma same_set_last_itail l q : same_lines q (set_last_itail l q).
Proof. by split. Qed.
Lemma same_set_last_input l q : same_lines q (set_last_input l q).
Proof. by split. Qed.

(** Many writes. *)
Ltac same := repeat match goal with
  | |- same_lines ?q ?q => apply same_lines_refl
  | |- same_lines ?q (set_last_itail ?l ?q') => eapply same_lines_trans; [|apply same_set_last_itail]
  | |- same_lines ?q (set_last_input ?l ?q') => eapply same_lines_trans; [|apply same_set_last_input]
  | W : wrote ?q0 _ _ ?q' |- same_lines ?q ?q' => eapply same_lines_trans; [|apply (w_same _ _ _ _ W)]
  end.
Lemma write_slot_ok q s p : is_Some (read_slot q s) -> exists q', write_slot q s p = Some q' /\ wrote q s p q'.
Proof.
  intros [v H]. destruct s as [| |t|t]; simpl in *.
  1,2: eexists; split; [done|]; split; try done; intros; by destruct (decide _).
  all: destruct (lines q !! t) as [l|] eqn:E; [|done]; simpl; eexists; split; [done|].
  all: split; [| |done|done|done|done|split; [|done|done]]; intros y; unfold next_of, itail_of, info; cbn [lines with_lines];
    destruct (decide (t = y)) as [<-|Hne].
  all: rewrite ?lookup_insert_eq, ?E, ?lookup_insert_ne by done; repeat case_decide; simplify_eq; done.
Qed.

Lemma info_oob q q' y : info q' y = info q y -> oob_at q' y = oob_at q y.
Proof. unfold info, oob_at. destruct (lines q !! y), (lines q' !! y); simpl; intros; simplify_eq; congruence. Qed.
Lemma info_content q q' y : info q' y = info q y -> content q' y = content q y.
Proof. unfold info, content. destruct (lines q !! y), (lines q' !! y); simpl; intros; simplify_eq; congruence. Qed.
Lemma info_some q y : is_Some (info q y) <-> is_Some (lines q !! y).
Proof. apply fmap_is_Some. Qed.
Lemma next_some q y : is_Some (next_of q y) <-> is_Some (lines q !! y).
Proof. apply fmap_is_Some. Qed.
Lemma itail_some q y : is_Some (itail_of q y) <-> is_Some (lines q !! y).
Proof. apply fmap_is_Some. Qed.

(** Read the fields of a state that was written to. *)
Ltac fields := repeat match goal with
  | W : wrote _ _ _ ?q' |- context [first_input ?q'] => rewrite (w_first _ _ _ _ W)
  | W : wrote _ _ _ ?q' |- context [last_input ?q'] => rewrite (w_last _ _ _ _ W)
  | W : wrote _ _ _ ?q' |- context [first_itail ?q'] => rewrite (w_first_itail _ _ _ _ W)
  | W : wrote _ _ _ ?q' |- context [last_itail ?q'] => rewrite (w_last_itail _ _ _ _ W)
  | W : wrote _ _ _ ?q' |- context [next_of ?q' ?y] => rewrite (w_next _ _ _ _ W)
  | W : wrote _ _ _ ?q' |- context [itail_of ?q' ?y] => rewrite (w_itail _ _ _ _ W)
  | |- context [first_input (set_last_itail ?l ?q')] => change (first_input (set_last_itail l q')) with (first_input q')
  | |- context [first_input (set_last_input ?l ?q')] => change (first_input (set_last_input l q')) with (first_input q')
  | |- context [last_input (set_last_itail ?l ?q')] => change (last_input (set_last_itail l q')) with (last_input q')
  | |- context [last_input (set_last_input ?l ?q')] => change (last_input (set_last_input l q')) with l
  | |- context [first_itail (set_last_itail ?l ?q')] => change (first_itail (set_last_itail l q')) with (first_itail q')
  | |- context [first_itail (set_last_input ?l ?q')] => change (first_itail (set_last_input l q')) with (first_itail q')
  | |- context [last_itail (set_last_itail ?l ?q')] => change (last_itail (set_last_itail l q')) with l
  | |- context [last_itail (set_last_input ?l ?q')] => change (last_itail (set_last_input l q')) with (last_itail q')
  | |- context [next_of (set_last_itail ?l ?q') ?y] => change (next_of (set_last_itail l q') y) with (next_of q' y)
  | |- context [next_of (set_last_input ?l ?q') ?y] => change (next_of (set_last_input l q') y) with (next_of q' y)
  | |- context [itail_of (set_last_itail ?l ?q') ?y] => change (itail_of (set_last_itail l q') y) with (itail_of q' y)
  | |- context [itail_of (set_last_input ?l ?q') ?y] => change (itail_of (set_last_input l q') y) with (itail_of q' y)
  | |- context [decide ?P] => first [rewrite (decide_True (P := P)) by done | rewrite (decide_False (P := P)) by congruence]
  end.
(** The next write of the goal; it leaves that the slot is there. *)
Ltac write := match goal with
  | |- context [write_slot ?q ?s ?p] =>
      let q' := fresh "q" in let E := fresh "E" in let W := fresh "W" in
      destruct (write_slot_ok q s p) as (q' & E & W); [|rewrite E; cbn [mbind option_bind]]
  end.

Section Lines.
Context (q : input_queue) (ps : list Z) (R : lines_at q ps).

Lemma lines_NoDup : NoDup ps.
Proof. eapply chain_NoDup, R. Qed.
Lemma lines_elem p : p ∈ ps <-> is_Some (lines q !! p).
Proof.
  split; [|apply R]. intros H. apply next_some. eapply chain_elem_defined; [apply R|done].
Qed.
Lemma lines_fresh : next_line q ∉ ps.
Proof. intros H%lines_elem. apply (r_used _ _ R) in H. lia. Qed.
Lemma lines_pos p : p ∈ ps -> 0 < p < next_line q.
Proof. rewrite lines_elem. apply R. Qed.
End Lines.

(** How a state is known to hold lines in some order. *)
Lemma lines_at_intro q q' ps : 0 < next_line q ->
  (forall p, is_Some (lines q !! p) -> 0 < p < next_line q /\ p ∈ ps) ->
  (forall p t, lines q !! p = Some t -> it_length t = int (Z.of_nat (length (it_string t)))) ->
  same_lines q q' ->
  chain 0 (next_of q') (first_input q') ps ->
  last_input q' = match last ps with None => First_input | Some p => Next p end ->
  chain 0 (itail_of q') (first_itail q') (tails (oob_at q) ps) ->
  last_itail q' = last_slot (tails (oob_at q) ps) -> lines_at q' ps.
Proof.
  intros F U Hl [H1 H2 H3] C1 L1 C2 L2.
  assert (Hd : forall p, is_Some (lines q' !! p) <-> is_Some (lines q !! p)) by (intros p; rewrite <- !info_some, H1; done).
  assert (Ht : tails (oob_at q') ps = tails (oob_at q) ps) by (apply tails_ext; intros; by apply info_oob).
  split; [done|done|by rewrite Ht|by rewrite Ht|by rewrite H2| | |].
  - intros p. rewrite Hd, H2. apply U.
  - intros p. rewrite Hd. apply U.
  - intros p t Hp. specialize (H1 p). unfold info in H1. rewrite Hp in H1. destruct (lines q !! p) as [t'|] eqn:E; [|done].
    simpl in H1. injection H1 as Hk Hs Hn. rewrite Hn, Hs. eauto.
Qed.

(** *** Adding a line *)

Section New.
Context (q : input_queue) (ps : list Z) (R : lines_at q ps) (input : bytes) (binary : bool).
Notation t := (next_line q).
Notation b := (with_new q input binary).

Lemma new_line : lines b !! t = Some (mkInput (input_kind input binary) input (int (Z.of_nat (length input))) 0 0).
Proof. apply lookup_insert_eq. Qed.
Lemma new_lines p : p ∈ ps -> lines b !! p = lines q !! p.
Proof. intros H. apply lookup_insert_ne. intros <-. by apply (lines_fresh _ _ R). Qed.
Lemma new_next p : p ∈ ps -> next_of b p = next_of q p.
Proof. intros H. unfold next_of. by rewrite new_lines. Qed.
Lemma new_itail p : p ∈ ps -> itail_of b p = itail_of q p.
Proof. intros H. unfold itail_of. by rewrite new_lines. Qed.
Lemma new_oob p : p ∈ ps -> oob_at b p = oob_at q p.
Proof. intros H. unfold oob_at. by rewrite new_lines. Qed.
Lemma new_content p : p ∈ ps -> content b p = content q p.
Proof. intros H. unfold content. by rewrite new_lines. Qed.
Lemma new_oob_t : oob_at b t = is_oob (input_kind input binary).
Proof. unfold oob_at. by rewrite new_line. Qed.

Lemma new_base p : is_Some (lines b !! p) -> 0 < p < next_line b /\ (p = t \/ p ∈ ps).
Proof.
  pose proof (r_fresh _ _ R). intros [l H']. cbn [lines with_new next_line] in *. destruct (decide (t = p)) as [<-|Hne].
  - split; [lia|by left].
  - rewrite lookup_insert_ne in H' by done. assert (Hs : is_Some (lines q !! p)) by by eexists.
    pose proof (r_used _ _ R _ Hs). split; [lia|]. right. by apply (r_dom _ _ R).
Qed.
Lemma new_length p l : lines b !! p = Some l -> it_length l = int (Z.of_nat (length (it_string l))).
Proof.
  cbn [lines with_new]. destruct (decide (t = p)) as [<-|Hne].
  - rewrite lookup_insert_eq. by intros [= <-].
  - rewrite lookup_insert_ne by done. apply R.
Qed.

(** Any state with these lines that has them in order is the result. *)
Lemma new_finish q' ps' : same_lines b q' -> (forall p, p ∈ ps' <-> p = t \/ p ∈ ps) ->
  chain 0 (next_of q') (first_input q') ps' ->
  last_input q' = match last ps' with None => First_input | Some p => Next p end ->
  chain 0 (itail_of q') (first_itail q') (tails (oob_at b) ps') ->
  last_itail q' = last_slot (tails (oob_at b) ps') ->
  lines_at q' ps' /\ content q' t = Some (input_kind input binary, input) /\
  (forall p, p ∈ ps -> content q' p = content q p) /\
  total_input_length q' = int (total_input_length q + Z.of_nat (length input)).
Proof.
  intros S He C1 L1 C2 L2. split; [|split; [|split]].
  - eapply (lines_at_intro b); eauto using new_length.
    + cbn. pose proof (r_fresh _ _ R). lia.
    + intros p Hp. destruct (new_base p Hp). by rewrite He.
  - rewrite (info_content b q') by apply S. unfold content. by rewrite new_line.
  - intros p Hp. rewrite (info_content b q') by apply S. by apply new_content.
  - rewrite (s_total _ _ S). cbn [total_input_length with_new]. unfold int. by rewrite Z.add_comm, swrap_add_l, Z.add_comm.
Qed.

Lemma add_front f r : ps = f :: r -> exists q', enqueue_line q input true binary = Some q' /\ same_lines b q' /\
  chain 0 (next_of q') (first_input q') (t :: ps) /\ last_input q' = last_input q /\
  chain 0 (itail_of q') (first_itail q') (tails (oob_at b) (t :: ps)) /\
  last_itail q' = last_slot (tails (oob_at b) (t :: ps)).
Proof.
  intros E. pose proof R as [C1 L1 C2 L2 F _ _ _]. pose proof (lines_fresh _ _ R) as Ht.
  rewrite E in C1. apply chain_cons_inv in C1 as C1'. destruct C1' as (Ef & Hf & _). rewrite <- E in C1.
  assert (Hfp : f ∈ ps) by (rewrite E; left).
  assert (Hin : forall p, p ∈ ps -> p <> t) by (intros p Hp ->; done).
  destruct (proj1 (lines_elem _ _ R f) Hfp) as [lf Hlf].
  assert (Hof : oob_at b f = is_oob (it_kind lf)) by (unfold oob_at; by rewrite new_lines, Hlf).
  assert (Htl : tails (oob_at b) ps = tails (oob_at q) ps) by (apply tails_ext; intros; by apply new_oob).
  unfold enqueue_line. change (first_input b) with (first_input q). rewrite <- Ef.
  destruct (Z.eqb_spec f 0); [congruence|]. cbn [negb andb]. rewrite (new_lines f Hfp), Hlf. cbn [mbind option_bind].
  assert (Hsb : forall q1, same_lines b q1 -> is_Some (lines q1 !! t)) by (intros q1 [Hi _ _]; apply info_some; rewrite Hi; apply info_some; rewrite new_line; by eexists).
  rewrite E, tails_cons, <- E, new_oob_t, Hof, Htl, (eqb_swap (is_oob (input_kind _ _))).
  destruct (eqb (is_oob (it_kind lf)) (is_oob (input_kind input binary))) eqn:Ek; cbn [negb mbind option_bind].
  - write; [apply next_some, Hsb, same_lines_refl|]. write; [by eexists|].
    exists q1. split; [done|]. split; [eapply same_lines_trans; eauto using w_same|]. fields.
    split; [|split; [done|split; [|exact L2]]].
    + econstructor; [lia|fields; done|]. eapply chain_ext; [|exact C1]. intros x Hx. pose proof (Hin x Hx). fields. by apply new_next.
    + eapply chain_ext; [|exact C2]. intros x Hx%tails_subset. pose proof (Hin x Hx). fields. by apply new_itail.
  - write; [apply itail_some, Hsb, same_lines_refl|]. write; [by eexists|].
    set (li := if bool_decide (last_itail q1 = First_itail) then Next_itail t else last_itail q1).
    replace (if bool_decide _ then _ else q1) with (set_last_itail li q1) by (unfold li; case_bool_decide; by destruct q1).
    write; [apply next_some, Hsb; same|]. write; [by eexists|].
    exists q3. split; [done|]. split; [same|]. fields. split; [|split; [done|split]].
    + econstructor; [lia|by fields|].
      eapply chain_ext; [|exact C1]. intros x Hx. pose proof (Hin x Hx). fields. by apply new_next.
    + econstructor; [lia|by fields|].
      eapply chain_ext; [|exact C2]. intros x Hx%tails_subset. pose proof (Hin x Hx). fields. by apply new_itail.
    + unfold li. fields. change (last_itail b) with (last_itail q). rewrite L2.
      destruct (tails (oob_at q) ps) as [|a [|a' T]] eqn:ET; [apply tails_nil in ET; congruence|done|].
      rewrite last_slot_cons. rewrite bool_decide_eq_false_2; [done|].
      destruct (last_slot_long a a' T) as (p & -> & _). done.
Qed.

(** At the back, after [x], through the pointer [li] of the itail queue: [b'] is
    [b] except for what it has for the last of the itail queue. *)
Section Back.
Context (ps0 : list Z) (x : Z) (E : ps = ps0 ++ [x]) (l : slot).
Notation b' := (set_last_itail l b).

Lemma back_elem : x ∈ ps /\ x <> t /\ last_input q = Next x.
Proof.
  assert (Hx : x ∈ ps) by (rewrite E; set_solver). split; [done|]. split.
  - intros ->. by apply (lines_fresh _ _ R).
  - pose proof (r_last _ _ R) as L. by rewrite E, last_snoc in L.
Qed.
Lemma back_next li : is_Some (read_slot b' li) -> li <> First_input -> (forall y, li <> Next y) ->
  exists q0 q1, write_slot b' li t = Some q0 /\ write_slot q0 (last_input q0) t = Some q1 /\ same_lines b q1 /\
    chain 0 (next_of q1) (first_input q1) (ps ++ [t]) /\ first_itail q1 = (if decide (li = First_itail) then t else first_itail q) /\
    last_itail q1 = l /\ (forall y, itail_of q1 y = if decide (li = Next_itail y) then Some t else itail_of b y).
Proof.
  intros Hs Hl1 Hl2. destruct back_elem as (Hx & Hxt & L1). pose proof R as [C1 _ _ _ F _ _ _].
  destruct (proj1 (lines_elem _ _ R x) Hx) as [lx Hlx].
  write; [exact Hs|]. exists q0.
  assert (El : last_input q0 = Next x) by (rewrite (w_last _ _ _ _ W); exact L1). rewrite El.
  write; [apply next_some, info_some; rewrite (s_info _ _ (w_same _ _ _ _ W)); apply info_some; cbn [lines set_last_itail]; rewrite (new_lines x Hx), Hlx; by eexists|].
  exists q1. split; [done|]. split; [done|]. split; [same|]. split; [|split; [|split; [by fields|intros y; by fields]]].
  - rewrite (w_first _ _ _ _ W0), decide_False, (w_first _ _ _ _ W), decide_False by done.
    change (first_input b') with (first_input q). rewrite E, <- app_assoc. cbn [app].
    apply (chain_append _ (next_of q)); [by rewrite <- E|lia|by fields| |].
    + fields. rewrite ?decide_False by apply Hl2. unfold next_of. by rewrite new_line.
    + intros y Hy. assert (y <> x) by (intros ->; pose proof (lines_NoDup _ _ R) as Hd; rewrite E in Hd; apply NoDup_app in Hd as (_ & Hd & _); apply (Hd x Hy); left).
      fields. rewrite ?decide_False by apply Hl2. apply new_next. rewrite E. set_solver.
  - rewrite (w_first_itail _ _ _ _ W0), decide_False by done. apply (w_first_itail _ _ _ _ W).
Qed.
End Back.

Lemma last_slot_itail (T : list Z) x : last_slot (T ++ [x]) <> First_input /\ (forall y, last_slot (T ++ [x]) <> Next y) /\
  (last_slot (T ++ [x]) = First_itail <-> T = []) /\ (forall p, last_slot (T ++ [x]) = Next_itail p <-> last T = Some p).
Proof.
  destruct (app_case T) as [->|(T1 & w & ->)]; cbn [app last_slot].
  - done.
  - rewrite <- app_assoc. cbn [app]. rewrite last_slot_snoc, last_snoc. split; [done|]. split; [done|]. split; [by destruct T1|].
    intros p. split; congruence.
Qed.

(** The new line takes the place of [x] as the end of the last run. *)
Lemma back_same ps0 x T q1 : ps = ps0 ++ [x] -> tails (oob_at q) ps = T ++ [x] ->
  first_itail q1 = (if decide (last_slot (T ++ [x]) = First_itail) then t else first_itail q) ->
  (forall y, itail_of q1 y = if decide (last_slot (T ++ [x]) = Next_itail y) then Some t else itail_of b y) ->
  chain 0 (itail_of q1) (first_itail q1) (T ++ [t]).
Proof.
  intros E HT Hf Hi. pose proof (r_itails _ _ R) as C2. rewrite HT in C2. pose proof (r_fresh _ _ R) as F.
  assert (Hd : NoDup (T ++ [x])) by (rewrite <- HT; apply tails_NoDup, (lines_NoDup _ _ R)).
  assert (HTp : forall p, p ∈ T -> p ∈ ps) by (intros p Hp; apply (tails_subset (oob_at q)); rewrite HT; set_solver).
  destruct (last_slot_itail T x) as (_ & _ & Hs1 & Hs2).
  eapply (chain_replace_last (itail_of q)); [exact C2|lia| | | |exact Hd].
  - rewrite Hi, decide_False; [unfold itail_of; by rewrite new_line|]. rewrite Hs2. intros Hl%last_Some_elem_of.
    by apply (lines_fresh _ _ R), HTp.
  - destruct (last T) as [w|] eqn:El.
    + split; [|by rewrite Hi, decide_True by by apply Hs2]. rewrite Hf, decide_False; [done|]. intros H%Hs1. by rewrite H in El.
    + apply last_None in El. by rewrite Hf, decide_True by by apply Hs1.
  - intros p Hp Hl. rewrite Hi, decide_False by by rewrite Hs2. apply new_itail. auto.
Qed.

(** The new line is a run of its own. *)
Lemma back_other ps0 x T q1 : ps = ps0 ++ [x] -> tails (oob_at q) ps = T ++ [x] -> x <> t ->
  first_itail q1 = first_itail q -> (forall y, itail_of q1 y = if decide (Next_itail x = Next_itail y) then Some t else itail_of b y) ->
  chain 0 (itail_of q1) (first_itail q1) (T ++ [x; t]).
Proof.
  intros E HT Hxt Hf Hi. pose proof (r_itails _ _ R) as C2. rewrite HT in C2. pose proof (r_fresh _ _ R) as F.
  assert (Hd : NoDup (T ++ [x])) by (rewrite <- HT; apply tails_NoDup, (lines_NoDup _ _ R)).
  rewrite Hf. apply (chain_append _ (itail_of q)); [exact C2|lia|by rewrite Hi, decide_True| |].
  - rewrite Hi, decide_False by congruence. unfold itail_of. by rewrite new_line.
  - intros y Hy. rewrite Hi, decide_False; [|intros [= ->]; apply NoDup_app in Hd as (_ & Hd & _); apply (Hd y Hy); left].
    apply new_itail, (tails_subset (oob_at q)). rewrite HT. set_solver.
Qed.

Lemma add_first : ps = [] -> forall at_front, exists q', enqueue_line q input at_front binary = Some q' /\ same_lines b q' /\
  chain 0 (next_of q') (first_input q') [t] /\ last_input q' = Next t /\
  chain 0 (itail_of q') (first_itail q') [t] /\ last_itail q' = First_itail.
Proof.
  intros E at_front. pose proof R as [C1 L1 C2 L2 F _ _ _]. rewrite E in *. apply chain_nil_inv in C1. cbn in L1, L2, C2. apply chain_nil_inv in C2.
  unfold enqueue_line. change (first_input b) with (first_input q). rewrite C1, andb_false_r. cbn [Z.eqb negb mbind option_bind].
  change (last_itail b) with (last_itail q). rewrite L2. write; [by eexists|].
  assert (El : last_input q0 = First_input) by (rewrite (w_last _ _ _ _ W); exact L1). rewrite El. write; [by eexists|].
  exists (set_last_input (Next t) q1). split; [done|]. split; [same|].
  split; [|split; [done|split; [|by fields; rewrite <- L2]]]; fields; (econstructor; [lia| |constructor]); fields;
    unfold next_of, itail_of; by rewrite new_line.
Qed.

Lemma add_back at_front : (at_front = true -> ps = []) -> exists q', enqueue_line q input at_front binary = Some q' /\ same_lines b q' /\
  chain 0 (next_of q') (first_input q') (ps ++ [t]) /\ last_input q' = Next t /\
  chain 0 (itail_of q') (first_itail q') (tails (oob_at b) (ps ++ [t])) /\
  last_itail q' = last_slot (tails (oob_at b) (ps ++ [t])).
Proof.
  intros Hfr. destruct (app_case ps) as [E|(ps0 & x & E)]; [rewrite E; by apply add_first|].
  destruct (tails_snoc (oob_at q) ps0 x) as (T & HT & _). rewrite <- E in HT.
  destruct (back_elem ps0 x E) as (Hx & Hxt & _). destruct (last_slot_itail T x) as (Hs1 & Hs2 & _).
  destruct (proj1 (lines_elem _ _ R x) Hx) as [lx Hlx]. pose proof (r_last_itail _ _ R) as L2. rewrite HT in L2.
  assert (Hf : first_input q <> 0).
  { pose proof (r_chain _ _ R) as C1. rewrite E in C1. intros Hf. rewrite Hf in C1. apply chain_inv_stop in C1. by destruct ps0. }
  assert (Htl : tails (oob_at b) (ps ++ [t]) = T ++ (if eqb (oob_at b x) (oob_at b t) then [t] else [x; t])).
  { rewrite E, <- app_assoc. cbn [app]. destruct (tails_snoc (oob_at b) ps0 x) as (T2 & H2 & H2'). rewrite H2'. f_equal.
    rewrite <- E, (tails_ext _ (oob_at q)), HT in H2 by (intros; by apply new_oob). by apply app_inj_tail in H2 as [-> _]. }
  assert (Hr : read_slot b (last_slot (T ++ [x])) = Some x).
  { pose proof (r_itails _ _ R) as C2. rewrite HT in C2. pose proof (read_last_slot q T x C2) as Hr.
    destruct (app_case T) as [->|(T1 & w & ->)]; [exact Hr|]. rewrite <- app_assoc in *. cbn [app] in *. rewrite last_slot_snoc in *.
    cbn [read_slot] in *. rewrite new_lines; [exact Hr|]. apply (tails_subset (oob_at q)). rewrite HT. set_solver. }
  unfold enqueue_line. change (first_input b) with (first_input q). change (last_itail b) with (last_itail q).
  replace (at_front && _) with false by (destruct at_front; [rewrite Hfr in E by done; by destruct ps0|done]).
  destruct (Z.eqb_spec (first_input q) 0); [done|]. cbn [negb]. rewrite L2, Hr. cbn [mbind option_bind].
  rewrite (new_lines x Hx), Hlx. cbn [mbind option_bind].
  rewrite Htl, new_oob_t. replace (oob_at b x) with (is_oob (it_kind lx)) by (unfold oob_at; by rewrite new_lines, Hlx).
  destruct (eqb (is_oob (it_kind lx)) (is_oob (input_kind input binary))); cbn [negb].
  - destruct (back_next ps0 x E (last_itail q) (last_slot (T ++ [x]))) as (q0 & q1 & E0 & E1 & S & C & H1 & H2 & H3); [by eexists|done|done|].
    change (set_last_itail (last_itail q) b) with b in E0. change (last_itail b) with (last_itail q). rewrite L2, E0. cbn [mbind option_bind]. rewrite E1. cbn [mbind option_bind].
    exists (set_last_input (Next t) q1). split; [done|]. split; [same; exact S|]. split; [exact C|]. split; [done|]. split; [by eapply back_same|].
    fields. rewrite H2, L2. apply last_slot_swap.
  - destruct (back_next ps0 x E (Next_itail x) (Next_itail x)) as (q0 & q1 & E0 & E1 & S & C & H1 & H2 & H3); [|done|done|].
    { cbn [read_slot]. apply itail_some. cbn [lines set_last_itail]. rewrite (new_lines x Hx), Hlx. by eexists. }
    cbn [last_itail set_last_itail]. rewrite E0. cbn [mbind option_bind]. rewrite E1. cbn [mbind option_bind].
    exists (set_last_input (Next t) q1). split; [done|]. split; [same; exact S|]. split; [exact C|]. split; [done|]. split; [by eapply back_other|].
    fields. by rewrite H2, last_slot_snoc.
Qed.
End New.

(** *** Taking a line *)

(** The part of the state that the itail queue does not touch. *)
Record same_order (q q' : input_queue) : Prop := {
  o_same : same_lines q q';
  o_next : forall y, next_of q' y = next_of q y;
  o_first : first_input q' = first_input q;
  o_last : last_input q' = last_input q
}.

Section Unlink.
Context (q : input_queue) (t : Z) (Ht : is_Some (lines q !! t)).

(** [t] ends the run before [TR]. *)
Lemma unlink_itail_end T0 pitail TR :
  match T0 with [] => pitail = First_itail | [s] => pitail = Next_itail s | _ => False end ->
  chain 0 (itail_of q) (first_itail q) (T0 ++ t :: TR) -> last_itail q = last_slot (T0 ++ t :: TR) ->
  exists q', unlink_itail q t pitail = Some q' /\ same_order q q' /\
    let T' := match TR with [] => T0 | _ => TR end in
    chain 0 (itail_of q') (first_itail q') T' /\ last_itail q' = last_slot T'.
Proof.
  intros Hp C L. pose proof (chain_NoDup _ _ _ _ C) as Hd.
  assert (Hr : read_slot q pitail = Some t).
  { destruct T0 as [|s [|]]; [| |done]; subst pitail; cbn [app read_slot] in *.
    - apply chain_cons_inv in C as (-> & _). done.
    - apply chain_cons_inv in C as (<- & _ & u & Hu & C). apply chain_cons_inv in C as (<- & _). exact Hu. }
  assert (Hnt : itail_of q t = Some (default 0 (head TR)) /\ chain 0 (itail_of q) (default 0 (head TR)) TR).
  { apply chain_split in C. apply chain_cons_inv in C as (_ & _ & u & Hu & C). rewrite Hu.
    destruct TR as [|v TR]; [apply chain_nil_inv in C as ->; split; [done|constructor]|].
    pose proof C as C'. apply chain_cons_inv in C' as (-> & _). by split. }
  destruct Hnt as [Hnt CT]. unfold unlink_itail. rewrite Hr. cbn [mbind option_bind]. rewrite Z.eqb_refl.
  write; [rewrite Hr; by eexists|].
  assert (Hrt : read_slot q0 (Next_itail t) = Some (default 0 (head TR))).
  { cbn [read_slot]. change (itail_of q0 t = Some (default 0 (head TR))). rewrite (w_itail _ _ _ _ W), decide_False; [exact Hnt|].
    destruct T0 as [|s [|]]; [| |done]; subst pitail; [done|]. intros [= ->]. cbn [app] in Hd. apply NoDup_cons in Hd as [Hd _]. set_solver. }
  rewrite Hrt. cbn [mbind option_bind]. destruct TR as [|v TR]; cbn [head default from_option id] in *; unfold id in *.
  - cbn [Z.eqb negb mbind option_bind]. rewrite (w_last_itail _ _ _ _ W), L. clear Hrt.
    assert (Hz : read_slot q0 (last_slot (T0 ++ [t])) = Some 0).
    { destruct T0 as [|s [|]]; [| |done]; subst pitail; cbn [app last_slot read_slot]; [by fields|]. change (itail_of q0 s = Some 0). by fields. }
    rewrite Hz. cbn [mbind option_bind Z.eqb]. exists (set_last_itail First_itail q0). split; [done|]. split.
    + split; [same|intros y; fields|fields|fields]; (destruct T0 as [|s [|]]; [by subst pitail|by subst pitail|done]).
    + destruct T0 as [|s [|]]; [| |done]; subst pitail; cbn zeta; fields; (split; [|done]); [constructor|].
      cbn [app] in C. apply chain_cons_inv in C as (<- & Hs & _). econstructor; [done|by fields|constructor].
  - assert (Hv : v <> 0 /\ v <> t).
    { apply chain_not_stop in C. split; [intros ->; set_solver|]. intros ->. apply NoDup_app in Hd as (_ & _ & Hd). apply NoDup_cons in Hd as [Hd _]. set_solver. }
    destruct Hv as [Hv Hvt]. destruct (Z.eqb_spec v 0); [done|]. cbn [negb]. write; [by eexists|].
    write; [change (is_Some (itail_of q1 t)); rewrite (w_itail _ _ _ _ W0); cbn [decide]; rewrite decide_False by done;
            change (is_Some (read_slot q0 (Next_itail t))); rewrite Hrt; by eexists|].
    assert (CT' : chain 0 (itail_of q2) (first_itail q2) (v :: TR)).
    { fields. eapply chain_ext; [|exact CT]. intros x Hx. assert (Hxt : x <> t) by (intros ->; apply NoDup_app in Hd as (_ & _ & Hd); by apply NoDup_cons in Hd as [Hd _]).
      fields. rewrite decide_False; [done|]. destruct T0 as [|s [|]]; [| |done]; subst pitail; [done|]. intros [= ->].
      apply NoDup_app in Hd as (_ & Hd & _). apply (Hd x); [left|by right]. }
    rewrite (w_last_itail _ _ _ _ W1), (w_last_itail _ _ _ _ W0), (w_last_itail _ _ _ _ W), L.
    assert (Ho : same_order q q2).
    { split; [same|intros y; fields|fields|fields]; (destruct T0 as [|s [|]]; [by subst pitail|by subst pitail|done]). }
    destruct TR as [|w TR].
    + rewrite last_slot_snoc. cbn [read_slot].
      replace (it_next_itail <$> lines q2 !! t) with (Some 0) by (symmetry; change (itail_of q2 t = Some 0); by fields). cbn [mbind option_bind Z.eqb].
      exists (set_last_itail First_itail q2). split; [done|]. split; [|split; [exact CT'|done]].
      destruct Ho. split; [same; done|done..].
    + assert (HL : last_slot (T0 ++ t :: v :: w :: TR) = last_slot (v :: w :: TR)).
      { destruct T0 as [|s [|]]; [| |done]; cbn [app]; by rewrite ?last_slot_cons. }
      rewrite HL. destruct (app_case (v :: w :: TR)) as [|(T1 & x & ET)]; [done|]. rewrite ET in *.
      rewrite (read_last_slot q2 T1 x CT'). cbn [mbind option_bind]. destruct (Z.eqb_spec x 0) as [->|].
      { apply chain_not_stop in CT'. set_solver. }
      exists q2. split; [done|]. split; [done|]. split; [exact CT'|]. fields. by rewrite L.
Qed.

(** [t] does not end its run. *)
Lemma unlink_itail_inside T0 pitail v TR :
  match T0 with [] => pitail = First_itail | [s] => pitail = Next_itail s | _ => False end ->
  chain 0 (itail_of q) (first_itail q) (T0 ++ v :: TR) -> v <> t -> unlink_itail q t pitail = Some q.
Proof.
  intros Hp C Hv. unfold unlink_itail. replace (read_slot q pitail) with (Some v).
  - cbn [mbind option_bind]. by destruct (Z.eqb_spec t v).
  - symmetry. destruct T0 as [|s [|]]; [| |done]; subst pitail; cbn [app read_slot] in *.
    + by apply chain_cons_inv in C as (-> & _).
    + apply chain_cons_inv in C as (<- & _ & u & Hu & C). apply chain_cons_inv in C as (<- & _). exact Hu.
Qed.

Lemma unlink_next_ok ps0 r pt : (match last ps0 with None => pt = First_input | Some s => pt = Next s end) ->
  chain 0 (next_of q) (first_input q) (ps0 ++ t :: r) ->
  last_input q = match last (ps0 ++ t :: r) with None => First_input | Some p => Next p end ->
  exists q', unlink_next q t pt = Some q' /\ same_lines q q' /\ (forall y, itail_of q' y = itail_of q y) /\
    first_itail q' = first_itail q /\ last_itail q' = last_itail q /\
    chain 0 (next_of q') (first_input q') (ps0 ++ r) /\
    last_input q' = match last (ps0 ++ r) with None => First_input | Some p => Next p end.
Proof.
  intros Hp C L. pose proof (chain_NoDup _ _ _ _ C) as Hd.
  assert (Hpt : pt = First_input \/ exists s, pt = Next s) by (destruct (last ps0); eauto).
  assert (Ht' : t ∉ ps0 ++ r) by (apply NoDup_app in Hd as (H1 & H2 & H3); apply NoDup_cons in H3 as [H3 _]; intros [H|H]%elem_of_app; [by apply (H2 t H); left|done]).
  assert (Hnt : next_of q t = Some (default 0 (head r)) /\ chain 0 (next_of q) (default 0 (head r)) r).
  { apply chain_split in C. apply chain_cons_inv in C as (_ & _ & u & Hu & C). rewrite Hu.
    destruct r as [|v r]; [apply chain_nil_inv in C as ->; split; [done|constructor]|].
    pose proof C as C'. apply chain_cons_inv in C' as (-> & _). by split. }
  destruct Hnt as [Hnt CT]. unfold unlink_next. change (read_slot q (Next t)) with (next_of q t). rewrite Hnt. cbn [mbind option_bind].
  assert (Hs : is_Some (read_slot q pt)).
  { destruct (app_case ps0) as [->|(ps1 & s & ->)]; [cbn in Hp; subst pt; by eexists|]. rewrite last_snoc in Hp. subst pt.
    change (is_Some (next_of q s)). eapply chain_elem_defined; [exact C|]. set_solver. }
  write; [exact Hs|]. set (n := default 0 (head r)) in *.
  assert (C0 : chain 0 (next_of q0) (first_input q0) (ps0 ++ r)).
  { destruct (app_case ps0) as [->|(ps1 & s & ->)].
    - cbn in Hp. subst pt. fields. cbn [app] in *. eapply chain_ext; [|exact CT]. intros; by fields.
    - rewrite last_snoc in Hp. subst pt. fields. rewrite <- app_assoc in *. cbn [app] in *.
      eapply chain_cut; [exact C|exact Hnt|by fields|]. intros x Hx. assert (x <> s) by (intros ->; apply NoDup_app in Hd as (H1 & H2 & H3); apply NoDup_cons in H3 as [H3 _]; apply elem_of_app in Hx as [Hx|Hx]; [apply (H2 s Hx); left|set_solver]).
      by fields. }
  destruct r as [|v r]; unfold n in *; cbn [head default from_option id] in *; unfold id in *.
  - cbn [Z.eqb]. exists (set_last_input pt q0). split; [done|]. split; [same|].
    split; [intros; fields; by destruct Hpt as [->|[? ->]]|].
    split; [fields; by destruct Hpt as [->|[? ->]]|]. split; [by fields|]. split; [exact C0|]. rewrite app_nil_r. revert Hp. by destruct (last ps0).
  - destruct (Z.eqb_spec v 0) as [->|Hv]; [apply chain_not_stop in C; set_solver|].
    write; [apply next_some, info_some; rewrite (s_info _ _ (w_same _ _ _ _ W)); by apply info_some|].
    exists q1. split; [done|]. split; [same|].
    split; [intros; fields; by destruct Hpt as [->|[? ->]]|].
    split; [fields; by destruct Hpt as [->|[? ->]]|]. split; [by fields|]. split.
    + rewrite (w_first _ _ _ _ W0), decide_False by done. eapply chain_ext; [|exact C0]. intros x Hx. assert (x <> t) by (intros ->; done). rewrite (w_next _ _ _ _ W0), decide_False by congruence. done.
    + fields. rewrite L. rewrite !last_app_cons, last_cons_cons. done.
Qed.
End Unlink.

Section Dequeue.
Context (q : input_queue) (ps : list Z) (R : lines_at q ps).

(** The state after a line has left both lists. *)
Lemma taken ps0 t r l q' : ps = ps0 ++ t :: r -> lines q !! t = Some l -> same_lines q q' ->
  chain 0 (next_of q') (first_input q') (ps0 ++ r) ->
  last_input q' = match last (ps0 ++ r) with None => First_input | Some p => Next p end ->
  chain 0 (itail_of q') (first_itail q') (tails (oob_at q) (ps0 ++ r)) ->
  last_itail q' = last_slot (tails (oob_at q) (ps0 ++ r)) -> forall n,
  let q2 := with_lines (fun m => delete t m) (set_total n q') in
  lines_at q2 (ps0 ++ r) /\ (forall p, p ∈ ps0 ++ r -> content q2 p = content q p) /\ total_input_length q2 = n.
Proof.
  intros E Hl S C1 L1 C2 L2 n q2. pose proof (lines_NoDup _ _ R) as Hd. rewrite E in Hd.
  assert (Ht : t ∉ ps0 ++ r) by (apply NoDup_app in Hd as (H1 & H2 & H3); apply NoDup_cons in H3 as [H3 _]; intros [H|H]%elem_of_app; [by apply (H2 t H); left|done]).
  assert (Hne : forall p, p ∈ ps0 ++ r -> t <> p) by (intros p Hp ->; done).
  set (b := with_lines (fun m => delete t m) (set_total n q)).
  assert (Hb : forall p, p <> t -> lines b !! p = lines q !! p) by (intros p Hp; apply lookup_delete_ne; congruence).
  assert (H2 : forall p, p <> t -> lines q2 !! p = lines q' !! p) by (intros p Hp; apply lookup_delete_ne; congruence).
  assert (Sb : same_lines b q2).
  { split; [|apply S|done]. intros y. unfold info. destruct (decide (y = t)) as [->|Hy].
    - cbn [lines with_lines b q2]. by rewrite !lookup_delete_eq.
    - rewrite Hb, H2 by done. apply S. }
  split; [|split; [|done]].
  - eapply (lines_at_intro b).
    + apply R.
    + intros p Hp. destruct (decide (p = t)) as [->|Hpt]; [cbn [lines with_lines b] in Hp; rewrite lookup_delete_eq in Hp; by destruct Hp|].
      rewrite Hb in Hp by done. split; [by apply (r_used _ _ R)|]. apply (r_dom _ _ R) in Hp. rewrite E in Hp. set_solver.
    + intros p l' Hp. destruct (decide (p = t)) as [->|Hpt]; [cbn [lines with_lines b] in Hp; by rewrite lookup_delete_eq in Hp|].
      rewrite Hb in Hp by done. eapply r_length; eauto.
    + exact Sb.
    + eapply chain_ext; [|exact C1]. intros x Hx. unfold next_of. rewrite H2; [done|]. by apply not_eq_sym, Hne.
    + exact L1.
    + replace (tails (oob_at b) (ps0 ++ r)) with (tails (oob_at q) (ps0 ++ r)).
      * eapply chain_ext; [|exact C2]. intros x Hx%tails_subset. unfold itail_of. rewrite H2; [done|]. by apply not_eq_sym, Hne.
      * apply tails_ext. intros p Hp. unfold oob_at. rewrite Hb; [done|]. by apply not_eq_sym, Hne.
    + replace (tails (oob_at b) (ps0 ++ r)) with (tails (oob_at q) (ps0 ++ r)); [exact L2|].
      apply tails_ext. intros p Hp. unfold oob_at. rewrite Hb; [done|]. by apply not_eq_sym, Hne.
  - intros p Hp. apply info_content. unfold info. rewrite H2 by by apply not_eq_sym, Hne. apply S.
Qed.

(** The itail queue without [t]. *)
Lemma unlink_itail_ok ps0 t r pitail q0 : ps = ps0 ++ t :: r -> same_lines q q0 ->
  (forall y, itail_of q0 y = itail_of q y) -> first_itail q0 = first_itail q -> last_itail q0 = last_itail q ->
  (match last ps0 with
   | None => pitail = First_itail
   | Some s => pitail = Next_itail s /\ (forall p, p ∈ ps0 -> oob_at q p = oob_at q s) /\ oob_at q t <> oob_at q s
   end) ->
  exists q', unlink_itail q0 t pitail = Some q' /\ same_order q0 q' /\
    chain 0 (itail_of q') (first_itail q') (tails (oob_at q) (ps0 ++ r)) /\
    last_itail q' = last_slot (tails (oob_at q) (ps0 ++ r)).
Proof.
  intros E S Hi Hf Hl Hp. pose proof R as [_ _ C2 L2 _ _ _ _].
  assert (Ht0 : is_Some (lines q0 !! t)).
  { apply info_some. rewrite (s_info _ _ S). apply info_some, (lines_elem _ _ R). rewrite E. set_solver. }
  set (T0 := match last ps0 with None => [] | Some s => [s] end).
  assert (HT : tails (oob_at q) ps = T0 ++ tails (oob_at q) (t :: r)).
  { rewrite E. unfold T0. destruct (app_case ps0) as [->|(ps1 & s & ->)]; [done|]. rewrite last_snoc in *. destruct Hp as (_ & Hs & Hn).
    rewrite <- app_assoc. cbn [app]. apply tails_split; [|congruence]. intros p Hp. apply Hs. set_solver. }
  assert (HT' : tails (oob_at q) (ps0 ++ r) = match r with [] => T0 | y :: _ => if eqb (oob_at q t) (oob_at q y) then T0 ++ tails (oob_at q) r else tails (oob_at q) r end).
  { unfold T0. destruct (app_case ps0) as [->|(ps1 & s & ->)].
    - cbn [last app]. destruct r as [|y r]; [done|]. by destruct (eqb _ _).
    - rewrite last_snoc in *. destruct Hp as (_ & Hs & Hn). assert (Hs' : forall p, p ∈ ps1 -> oob_at q p = oob_at q s) by (intros p Hp; apply Hs; set_solver).
      destruct r as [|y r]; [rewrite app_nil_r; by apply tails_run|]. destruct (eqb (oob_at q t) (oob_at q y)) eqn:Ek.
      + apply eqb_prop in Ek. rewrite <- app_assoc. cbn [app]. apply tails_split; [done|congruence].
      + apply eqb_false_iff in Ek. apply tails_absorb. intros p Hp. rewrite Hs by done. by destruct (oob_at q p), (oob_at q s), (oob_at q t), (oob_at q y). }
  assert (HpT : match T0 with [] => pitail = First_itail | [s] => pitail = Next_itail s | _ => False end) by (unfold T0; destruct (last ps0); [apply Hp|done]).
  rewrite HT in C2, L2. rewrite <- Hf in C2. rewrite <- Hl in L2.
  assert (C0 : chain 0 (itail_of q0) (first_itail q0) (T0 ++ tails (oob_at q) (t :: r))) by (eapply chain_ext; [|exact C2]; intros; apply Hi).
  rewrite HT'. rewrite tails_cons in C0, L2. destruct r as [|y r].
  - destruct (unlink_itail_end q0 t Ht0 T0 pitail [] HpT C0 L2) as (q' & E1 & O1 & H1). eauto.
  - destruct (eqb (oob_at q t) (oob_at q y)) eqn:Ek.
    + destruct (tails (oob_at q) (y :: r)) as [|v TR] eqn:ET; [by apply tails_nil in ET|].
      exists q0. split; [eapply (unlink_itail_inside q0 t T0); [exact HpT|exact C0|]|].
      * intros ->. assert (Hin : t ∈ y :: r) by (apply (tails_subset (oob_at q)); rewrite ET; left).
        pose proof (lines_NoDup _ _ R) as Hd. rewrite E in Hd. apply NoDup_app in Hd as (_ & _ & Hd). by apply NoDup_cons in Hd as [Hd _].
      * split; [split; done|]. split; [done|]. exact L2.
    + destruct (unlink_itail_end q0 t Ht0 T0 pitail _ HpT C0 L2) as (q' & E1 & O1 & H1). cbv zeta in H1.
      destruct (tails (oob_at q) (y :: r)) eqn:ET; [by apply tails_nil in ET|]. eauto.
Qed.

Lemma take_ok ps0 t r pt pitail l : ps = ps0 ++ t :: r -> lines q !! t = Some l ->
  (match last ps0 with None => pt = First_input | Some s => pt = Next s end) ->
  (match last ps0 with
   | None => pitail = First_itail
   | Some s => pitail = Next_itail s /\ (forall p, p ∈ ps0 -> oob_at q p = oob_at q s) /\ oob_at q t <> oob_at q s
   end) ->
  exists q', (forall {B} (f : input_queue -> option B),
      (q1 ← unlink_next q t pt; q2 ← unlink_itail q1 t pitail; f q2) = f q') /\
    let q2 := with_lines (fun m => delete t m) (set_total (int (total_input_length q' - it_length l)) q') in
    lines_at q2 (ps0 ++ r) /\ (forall p, p ∈ ps0 ++ r -> content q2 p = content q p) /\
    total_input_length q2 = int (total_input_length q - it_length l).
Proof.
  intros E Hl Hp Hpi. pose proof R as [C1 L1 C2 L2 _ _ _ _]. rewrite E in C1, L1.
  destruct (unlink_next_ok q t ltac:(by eexists) ps0 r pt Hp C1 L1) as (q1 & E1 & S1 & Hi & Hf & Hla & C3 & L3).
  destruct (unlink_itail_ok ps0 t r pitail q1 E S1 Hi Hf Hla Hpi) as (q2 & E2 & O2 & C4 & L4).
  exists q2. split; [intros B f; rewrite E1; cbn [mbind option_bind]; rewrite E2; done|]. intros q3.
  assert (S2 : same_lines q q2) by (eapply same_lines_trans; [exact S1|apply O2]).
  destruct (taken ps0 t r l q2 E Hl S2) with (n := int (total_input_length q2 - it_length l)) as (H1 & H2 & H3); [| |done|done|].
  - rewrite (o_first _ _ O2). eapply chain_ext; [|exact C3]. intros; apply O2.
  - by rewrite (o_last _ _ O2).
  - split; [exact H1|]. split; [exact H2|]. unfold q3. rewrite H3. by rewrite (s_total _ _ S2).
Qed.

(** [dequeue_input_task] takes the first line that is wanted. *)
Lemma dequeue_lines disable_oob how :
  let W p := match content q p with Some l => wanted disable_oob how l | None => false end in
  (exists ps0 t r l q', ps = ps0 ++ t :: r /\ lines q !! t = Some l /\ Forall (fun p => W p = false) ps0 /\ W t = true /\
    dequeue_line disable_oob how q = Some (q', Some (unquote disable_oob (it_kind l) (it_string l))) /\
    lines_at q' (ps0 ++ r) /\ (forall p, p ∈ ps0 ++ r -> content q' p = content q p) /\
    total_input_length q' = int (total_input_length q - it_length l)) \/
  (Forall (fun p => W p = false) ps /\ dequeue_line disable_oob how q = Some (q, None)).
Proof.
  intros W. pose proof R as [C1 L1 C2 L2 _ _ _ _].
  assert (HW : forall p, p ∈ ps -> W p = match how with DQ_FIRST => true | DQ_OOB => negb disable_oob && oob_at q p | DQ_INBAND => disable_oob || negb (oob_at q p) end).
  { intros p Hp. apply (lines_elem _ _ R) in Hp as [l Hl]. unfold W, content, oob_at. rewrite Hl. by destruct how. }
  destruct (disable_oob && bool_decide (how = DQ_OOB)) eqn:E1.
  { unfold dequeue_line. rewrite E1. apply andb_true_iff in E1 as [-> E1]. apply bool_decide_eq_true in E1 as ->. right. split; [|done].
    apply Forall_forall. intros p Hp. by rewrite HW. }
  set (how' := if disable_oob then DQ_FIRST else how).
  assert (HW' : forall p, p ∈ ps -> W p = match how' with DQ_FIRST => true | DQ_OOB => oob_at q p | DQ_INBAND => negb (oob_at q p) end).
  { intros p Hp. rewrite HW by done. unfold how'. destruct how, disable_oob; done. }
  assert (Hps : ps = [] \/ exists f r, ps = f :: r) by (destruct ps; eauto).
  destruct Hps as [Eps|(f & r & Eps)]; rewrite Eps in C1, C2, L2, HW' |- *.
  { apply chain_nil_inv in C1. unfold dequeue_line. rewrite E1, C1. right. split; [constructor|done]. }
  apply chain_cons_inv in C1 as C1'. destruct C1' as (Ef & Hf & _).
  destruct (proj1 (lines_elem _ _ R f) ltac:(rewrite Eps; left)) as [lf Hlf].
  assert (Hdec : (dequeue_how_value how' =? (if is_oob (it_kind lf) then 1 else 0)) = negb (W f)).
  { rewrite HW' by left. unfold oob_at. rewrite Hlf. by destruct how', (is_oob (it_kind lf)). }
  destruct (W f) eqn:EW; cbn [negb] in Hdec.
  - left. destruct (take_ok [] f r First_input First_itail lf) as (q' & E' & H1 & H2 & H3); [done|done|done|done|].
    eexists [], f, r, lf, _. split; [done|]. split; [done|]. split; [constructor|]. split; [done|]. split; [|done].
    unfold dequeue_line. rewrite E1. cbv zeta. fold how'. rewrite <- Ef. destruct (Z.eqb_spec f 0); [congruence|]. rewrite Hlf. cbn [mbind option_bind].
    rewrite Hdec. cbn [read_slot mbind option_bind]. rewrite <- Ef. destruct (Z.eqb_spec f 0); [congruence|]. rewrite Hlf. cbn [mbind option_bind].
    etransitivity; [apply E'|reflexivity].
  - destruct (first_run (oob_at q) f r) as (ps1 & s & RR & E & Hk & HT).
    assert (Hs : forall p, p ∈ ps1 ++ [s] -> W p = false).
    { intros p Hp. rewrite HW' by (rewrite E; apply elem_of_app in Hp as [Hp|Hp%list_elem_of_singleton]; apply elem_of_app; [by left|subst p; right; left]).
      rewrite (Hk p Hp), <- EW, HW' by left. done. }
    assert (Hfi : first_itail q = s).
    { destruct RR; [rewrite HT in C2|destruct HT as [_ HT]; rewrite HT in C2]; by apply chain_cons_inv in C2 as (-> & _). }
    rewrite E in C1. apply chain_split in C1 as C3. apply chain_cons_inv in C3 as (_ & _ & u & Hu & C3).
    assert (HD : dequeue_line disable_oob how q =
      if u =? 0 then Some (q, None) else
      line ← lines q !! u; q1 ← unlink_next q u (Next s); q2 ← unlink_itail q1 u (Next_itail s);
      Some (with_lines (fun m => delete u m) (set_total (int (total_input_length q2 - it_length line)) q2),
            Some (unquote disable_oob (it_kind line) (it_string line)))).
    { unfold dequeue_line. rewrite E1. cbv zeta. fold how'. rewrite <- Ef. destruct (Z.eqb_spec f 0); [congruence|]. rewrite Hlf. cbn [mbind option_bind].
      rewrite Hdec, Hfi. cbn [read_slot]. change (it_next <$> lines q !! s) with (next_of q s). by rewrite Hu. }
    rewrite HD. destruct RR as [|b RR].
    + apply chain_nil_inv in C3 as ->. right. split; [|done]. rewrite E. by apply Forall_forall.
    + apply chain_cons_inv in C3 as (<- & Hb & _). destruct (Z.eqb_spec b 0); [done|]. left.
      destruct (proj1 (lines_elem _ _ R b)) as [lb Hlb]; [rewrite Eps, E; apply elem_of_app; right; right; left|].
      destruct HT as [Hbf HT].
      destruct (take_ok (ps1 ++ [s]) b RR (Next s) (Next_itail s) lb) as (q' & E' & H1 & H2 & H3); [by rewrite Eps, E, <- app_assoc|done|by rewrite last_snoc| |].
      { rewrite last_snoc. split; [done|]. rewrite (Hk s) by (apply elem_of_app; right; left). split; [|done]. intros p Hp. by apply Hk. }
      eexists (ps1 ++ [s]), b, RR, lb, _. split; [by rewrite E, <- app_assoc|]. split; [done|]. split; [by apply Forall_forall|].
      split; [|split; [rewrite Hlb; cbn [mbind option_bind]; etransitivity; [apply E'|reflexivity]|done]].
      rewrite HW' by (rewrite E; apply elem_of_app; right; right; left). rewrite HW' in EW by left. destruct how'; [done| |]; by destruct (oob_at q b), (oob_at q f).
Qed.
End Dequeue.

Lemma contents_length q ps ls : Forall2 (fun p l => content q p = Some l) ps ls -> length ps = length ls.
Proof. apply Forall2_length. Qed.
Lemma contents_same q q' ps ls : Forall2 (fun p l => content q p = Some l) ps ls ->
  (forall p, p ∈ ps -> content q' p = content q p) -> Forall2 (fun p l => content q' p = Some l) ps ls.
Proof.
  intros H E. apply Forall2_same_length_lookup in H as [Hl H]. apply Forall2_same_length_lookup. split; [done|].
  intros i p l Hp Hq. rewrite E by by eapply list_elem_of_lookup_2. eauto.
Qed.
Lemma total_app (l1 l2 : list (task_kind * bytes)) :
  foldr (fun l n => Z.of_nat (length l.2) + n) 0 (l1 ++ l2) =
  foldr (fun l n => Z.of_nat (length l.2) + n) 0 l1 + foldr (fun l n => Z.of_nat (length l.2) + n) 0 l2.
Proof. induction l1 as [|l l1 IH]; cbn [app foldr]; [lia|]. rewrite IH. lia. Qed.

Lemma holds_empty : holds empty_input [].
Proof.
  exists []. split; [|by repeat constructor]. split; try done; try apply chain_nil.
  all: intros p; cbn [lines empty_input]; rewrite lookup_empty; by intros []||done.
Qed.

Lemma enqueue_holds q ls input at_front binary : holds q ls ->
  exists q', enqueue_line q input at_front binary = Some q' /\
    holds q' (let l := (input_kind input binary, input) in if at_front then l :: ls else ls ++ [l]).
Proof.
  intros (ps & R & C & T). destruct at_front.
  - destruct ps as [|f r] eqn:E.
    + destruct (add_back q [] R input binary true) as (q' & E' & S & H); [done|]. exists q'. split; [done|].
      destruct (new_finish q [] R input binary q' ([] ++ [next_line q]) S) as (R' & Ht & Hc & Hn); [set_solver|apply H..|].
      apply Forall2_nil_inv_l in C as ->. exists [next_line q]. split; [exact R'|]. split; [by repeat constructor|].
      rewrite Hn, T. cbn [foldr snd]. unfold int. by rewrite swrap_add_l, Z.add_comm by lia.
    + destruct (add_front q (f :: r) R input binary f r eq_refl) as (q' & E' & S & H1 & H2 & H3 & H4).
      destruct (new_finish q (f :: r) R input binary q' (next_line q :: f :: r) S) as (R' & Ht & Hc & Hn);
        [set_solver|done|rewrite H2; apply R|done|done|].
      exists q'. split; [done|]. exists (next_line q :: f :: r). split; [exact R'|]. split.
      * constructor; [done|]. eapply contents_same; eauto.
      * rewrite Hn, T. cbn [foldr snd]. unfold int. by rewrite swrap_add_l, Z.add_comm by lia.
  - destruct (add_back q ps R input binary false) as (q' & E' & S & H1 & H2 & H3 & H4); [done|]. exists q'. split; [done|].
    destruct (new_finish q ps R input binary q' (ps ++ [next_line q]) S) as (R' & Ht & Hc & Hn); [set_solver|done|by rewrite last_snoc|done|done|].
    exists (ps ++ [next_line q]). split; [exact R'|]. split.
    + apply Forall2_app; [by eapply contents_same|by repeat constructor].
    + rewrite Hn, T, total_app. cbn [foldr snd]. unfold int. rewrite swrap_add_l by lia. by rewrite Z.add_0_r.
Qed.

Lemma dequeue_holds q ls disable_oob how : holds q ls ->
  (exists pre l post q', ls = pre ++ l :: post /\ Forall (fun l => wanted disable_oob how l = false) pre /\
     wanted disable_oob how l = true /\
     dequeue_line disable_oob how q = Some (q', Some (unquote disable_oob l.1 l.2)) /\ holds q' (pre ++ post)) \/
  (Forall (fun l => wanted disable_oob how l = false) ls /\ dequeue_line disable_oob how q = Some (q, None)).
Proof.
  intros (ps & R & C & T). destruct (dequeue_lines q ps R disable_oob how) as [(ps0 & t & r & l & q' & E & Hl & HF & HW & HD & R' & Hc & Hn)|[HF HD]].
  - left. subst ps. apply Forall2_app_inv_l in C as (ls0 & lr & C0 & Cr & ->). apply Forall2_cons_inv_l in Cr as (l' & lr' & Hl' & Cr & ->).
    unfold content in Hl'. rewrite Hl in Hl'. injection Hl' as <-.
    exists ls0, (it_kind l, it_string l), lr', q'. split; [done|]. split; [|split; [|split; [exact HD|]]].
    + apply Forall_lookup. intros i x Hx. apply Forall2_same_length_lookup in C0 as [L0 C0].
      destruct (lookup_lt_is_Some_2 ps0 i) as [p Hp]; [rewrite L0; by eapply lookup_lt_Some|].
      rewrite Forall_lookup in HF. specialize (HF i p Hp). cbv beta in HF. by rewrite (C0 i p x Hp Hx) in HF.
    + unfold content in HW. by rewrite Hl in HW.
    + exists (ps0 ++ r). split; [done|]. split; [eapply contents_same; [by apply Forall2_app|done]|].
      rewrite Hn, T, !total_app. cbn [foldr snd]. rewrite (r_length _ _ R t l Hl). unfold int, swrap. symmetry.
      set (a := foldr _ 0 ls0). set (c := foldr _ 0 lr'). set (n := Z.of_nat _). f_equal.
      rewrite <- (Zminus_mod_idemp_l _ _ (2 ^ 32)) || idtac.
      replace (a + c + 2 ^ (32 - 1)) with ((a + (n + c) + 2 ^ (32 - 1)) - n) by lia.
      replace ((a + (n + c) + 2 ^ (32 - 1)) mod 2 ^ 32 - 2 ^ (32 - 1) - ((n + 2 ^ (32 - 1)) mod 2 ^ 32 - 2 ^ (32 - 1)) + 2 ^ (32 - 1))
        with ((a + (n + c) + 2 ^ (32 - 1)) mod 2 ^ 32 - ((n + 2 ^ (32 - 1)) mod 2 ^ 32) + 2 ^ (32 - 1)) by lia.
      rewrite <- (Zplus_mod_idemp_l _ (2 ^ (32 - 1))), <- Zminus_mod, Zplus_mod_idemp_l. f_equal. lia.
  - right. split; [|done]. apply Forall_lookup. intros i x Hx. apply Forall2_same_length_lookup in C as [L0 C].
    destruct (lookup_lt_is_Some_2 ps i) as [p Hp]; [rewrite L0; by eapply lookup_lt_Some|].
    rewrite Forall_lookup in HF. specialize (HF i p Hp). cbv beta in HF. by rewrite (C i p x Hp Hx) in HF.
Qed.

(** ** Properties *)

(** C17: the two threaded lists implement a queue of lines.  From the empty
    queue on, adding a line puts it at the chosen end; taking a line takes the
    first that is wanted (any; an out-of-band line; an in-band line; out-of-band
    processing may be disabled), and answers none only if there is none, although
    the code only looks at two places; the total length counts the lines that are there. *)
Theorem input_queue_correct (q : input_queue) (ls : list (task_kind * bytes)) : holds q ls ->
  holds empty_input [] /\
  (forall input at_front binary, exists q', enqueue_line q input at_front binary = Some q' /\
     holds q' (let l := (input_kind input binary, input) in if at_front then l :: ls else ls ++ [l])) /\
  (forall disable_oob how,
    (exists pre l post q', ls = pre ++ l :: post /\ Forall (fun l => wanted disable_oob how l = false) pre /\
       wanted disable_oob how l = true /\
       dequeue_line disable_oob how q = Some (q', Some (unquote disable_oob l.1 l.2)) /\ holds q' (pre ++ post)) \/
    (Forall (fun l => wanted disable_oob how l = false) ls /\ dequeue_line disable_oob how q = Some (q, None))).
Proof.
  intros H. split; [|split].
  - exact holds_empty.
  - intros. by apply enqueue_holds.
  - intros. by apply dequeue_holds.
Qed.

Lemma input_queue_correct_witness : exists q q' ls, holds q ls /\ length ls = 3%nat /\
  dequeue_line false DQ_OOB q = Some (q', Some (TASK_OOB, BS "#$#b")) /\
  dequeue_line false DQ_OOB empty_input = Some (empty_input, None).
Proof.
  destruct (proj1 (proj2 (input_queue_correct empty_input [] holds_empty)) (BS "a") false false) as (q1 & E1 & H1).
  destruct (enqueue_holds q1 _ (BS "#$#b") false false H1) as (q2 & E2 & H2).
  destruct (enqueue_holds q2 _ (BS "c") false false H2) as (q3 & E3 & H3).
  vm_compute in E1. injection E1 as <-. vm_compute in E2. injection E2 as <-. vm_compute in E3. injection E3 as <-.
  eexists _, _, _. split; [exact H3|]. split; [done|]. split; [vm_compute; reflexivity|done].
Defined.
