(* ===== verification/Activation.v ===== *)
(** * Activations and environments (execute.h, eval_env.c, eval_vm.c)

    An activation is a verb that is being run.  Its value stack is a list with
    the top first; the room for it is allocated when the activation is made.
    The pools of common sizes, from which stacks and environments are taken,
    and reference counts are not represented.  A stopped machine ([vm]) is a
    list of activations, the hottest first: the index that the code gives an
    activation is the number of activations below it. *)

From S2P Require Import Prelude Utf CString Values Db.

(** ** Definitions *)

(** [a_bi_func_id] and [a_bi_func_data] have a meaning only if [a_bi_func_pc]
    is not 0; the data of a built-in function is an opaque handle. *)
Record activation := mkActivation {
  a_prog : Program;
  a_rt_env : list Var;
  a_rt_stack : list Var;
  a_rt_stack_size : Z;
  a_pc : Z;
  a_error_pc : Z;
  a_bi_func_pc : Z;
  a_bi_func_id : Z;
  a_bi_func_data : Z;
  a_temp : Var;
  a_this : Z;
  a_player : Z;
  a_progr : Z;
  a_vloc : Z;
  a_verb : bytes;
  a_verbname : bytes;
  a_debug : bool
}.

Definition set_rt_env (e : list Var) (a : activation) : activation :=
  let 'mkActivation p _ st ss pc epc bpc bid bd t th pl pr vl v vn d := a in
  mkActivation p e st ss pc epc bpc bid bd t th pl pr vl v vn d.
Definition set_rt_stack (st : list Var) (a : activation) : activation :=
  let 'mkActivation p e _ ss pc epc bpc bid bd t th pl pr vl v vn d := a in
  mkActivation p e st ss pc epc bpc bid bd t th pl pr vl v vn d.
Definition set_pc (pc : Z) (a : activation) : activation :=
  let 'mkActivation p e st ss _ epc bpc bid bd t th pl pr vl v vn d := a in
  mkActivation p e st ss pc epc bpc bid bd t th pl pr vl v vn d.
Definition set_error_pc (epc : Z) (a : activation) : activation :=
  let 'mkActivation p e st ss pc _ bpc bid bd t th pl pr vl v vn d := a in
  mkActivation p e st ss pc epc bpc bid bd t th pl pr vl v vn d.
Definition set_bi_func (bpc bid bd : Z) (a : activation) : activation :=
  let 'mkActivation p e st ss pc epc _ _ _ t th pl pr vl v vn d := a in
  mkActivation p e st ss pc epc bpc bid bd t th pl pr vl v vn d.
Definition set_temp (t : Var) (a : activation) : activation :=
  let 'mkActivation p e st ss pc epc bpc bid bd _ th pl pr vl v vn d := a in
  mkActivation p e st ss pc epc bpc bid bd t th pl pr vl v vn d.
Definition set_progr (pr : Z) (a : activation) : activation :=
  let 'mkActivation p e st ss pc epc bpc bid bd t th pl _ vl v vn d := a in
  mkActivation p e st ss pc epc bpc bid bd t th pl pr vl v vn d.
Definition set_prog (p : Program) (a : activation) : activation :=
  let 'mkActivation _ e st ss pc epc bpc bid bd t th pl pr vl v vn d := a in
  mkActivation p e st ss pc epc bpc bid bd t th pl pr vl v vn d.

(** *** Value stacks *)

Definition RT_STACK_QUICKSIZE : Z := 15.

(** [alloc_rt_stack]: an empty stack of at least the quick size. *)
Definition alloc_rt_stack (size : Z) (a : activation) : activation :=
  let 'mkActivation p e _ _ pc epc bpc bid bd t th pl pr vl v vn d := a in
  mkActivation p e [] size pc epc bpc bid bd t th pl pr vl v vn d.
(** How many values there is room for. *)
Definition rt_stack_room (a : activation) : Z := Z.max (a_rt_stack_size a) RT_STACK_QUICKSIZE.

(** *** Environments *)

Definition SLOT_NUM : Z := 0.
Definition SLOT_OBJ : Z := 1.
Definition SLOT_STR : Z := 2.
Definition SLOT_LIST : Z := 3.
Definition SLOT_ERR : Z := 4.
Definition SLOT_PLAYER : Z := 5.
Definition SLOT_THIS : Z := 6.
Definition SLOT_CALLER : Z := 7.
Definition SLOT_VERB : Z := 8.
Definition SLOT_ARGS : Z := 9.
Definition SLOT_ARGSTR : Z := 10.
Definition SLOT_DOBJ : Z := 11.
Definition SLOT_DOBJSTR : Z := 12.
Definition SLOT_PREPSTR : Z := 13.
Definition SLOT_IOBJ : Z := 14.
Definition SLOT_IOBJSTR : Z := 15.
Definition SLOT_INT : Z := 16.
Definition SLOT_FLOAT : Z := 17.

(** The database versions at which the set of variables changed. *)
Definition DBV_Float : Z := 3.

(** Slots outside the variables of the program are not represented: [None] is
    an access to one. *)
Definition new_rt_env (size : Z) : list Var := replicate (Z.to_nat size) VNone.

Definition env_get (env : list Var) (slot : Z) : option Var :=
  if slot <? 0 then None else env !! Z.to_nat slot.
Definition set_rt_env_var (env : list Var) (slot : Z) (v : Var) : option (list Var) :=
  _ ← env_get env slot; Some (<[Z.to_nat slot := v]> env).
Definition set_rt_env_obj (env : list Var) (slot o : Z) : option (list Var) := set_rt_env_var env slot (VObj o).
Definition set_rt_env_str (env : list Var) (slot : Z) (s : bytes) : option (list Var) := set_rt_env_var env slot (VStr s).

(** Several assignments, in order. *)
Definition set_rt_env_vars (env : list Var) (l : list (Z * Var)) : option (list Var) :=
  fold_left (fun env '(slot, v) => env ← env; set_rt_env_var env slot v) l (Some env).

Definition copy_rt_env (from : list Var) (size : Z) : option (list Var) :=
  if size <=? Z.of_nat (length from) then Some (take (Z.to_nat size) from) else None.

(** The type codes that programs see are those of the database. *)
Definition type_code (t : var_type) : Var := VInt (Z.land (var_type_value t) TYPE_DB_MASK).
Definition fill_in_rt_consts (env : list Var) (version : Z) : option (list Var) :=
  env ← set_rt_env_vars env
    [(SLOT_ERR, type_code TYPE_ERR); (SLOT_NUM, type_code TYPE_INT); (SLOT_STR, type_code TYPE_STR);
     (SLOT_OBJ, type_code TYPE_OBJ); (SLOT_LIST, type_code TYPE_LIST)];
  if DBV_Float <=? version
  then set_rt_env_vars env [(SLOT_INT, type_code TYPE_INT); (SLOT_FLOAT, type_code TYPE_FLOAT)]
  else Some env.

(** *** Stopped machines *)

Record vm := mkVm {
  vm_task_id : Z;
  vm_activ_stack : list activation;
  vm_max_stack_size : Z;
  vm_root_activ_vector : Z
}.

(** [None]: a machine without activations. *)
Definition top_activ (the_vm : vm) : option activation := head (vm_activ_stack the_vm).
Definition progr_of_cur_verb (the_vm : vm) : option Z := a ← top_activ the_vm; Some (a_progr a).

Section Lines.
(** [find_line_number] (decompile.c): the line of a program counter of a vector. *)
Context (find_line_number : Program -> Z -> Z -> Z).

(** The vector that the activation with [below] activations below it runs. *)
Definition vector_of (below : nat) (root_vector : Z) : Z := match below with O => root_vector | _ => MAIN_VECTOR end.
Definition suspended_lineno_of_vm (the_vm : vm) : option Z :=
  a ← top_activ the_vm;
  Some (find_line_number (a_prog a) (vector_of (length (vm_activ_stack the_vm) - 1) (vm_root_activ_vector the_vm)) (a_error_pc a)).
End Lines.
