(* ===== verification/Tasks.v ===== *)
(** * Task queues (tasks.c)

    A task queue belongs to a player or a connection; it has an address, and the
    lists of idle and of active queues are lists of addresses.  The forked and
    suspended tasks that wait for their time are one list, by starting time. *)

From S2P Require Import Prelude Utf CString Values Streams Functions Lists Db Properties PropBuiltins Activation InputQueue.

(** ** Definitions *)

Record forked_task := mkForked {
  ft_id : Z;
  ft_program : Program;
  ft_a : activation;
  ft_rt_env : list Var;
  ft_f_index : Z;
  ft_start_time : Z
}.
Record suspended_task := mkSuspended {
  st_the_vm : vm;
  st_start_time : Z;
  st_value : Var
}.
(** The background tasks. *)
Inductive bg_task := Forked (ft : forked_task) | Suspended (st : suspended_task).

Record tqueue := mkTqueue {
  tq_player : Z;
  tq_handler : Z;
  tq_connected : bool;
  tq_input : input_queue;
  tq_input_suspended : bool;
  tq_last_input_task_id : Z;
  tq_bg : list bg_task;
  tq_usage : Z;
  tq_num_bg_tasks : Z;
  tq_output_prefix : option bytes;
  tq_output_suffix : option bytes;
  tq_flush_cmd : option bytes;
  tq_program : option (bytes * Z * bytes);   (* program_stream, program_object, program_verb *)
  tq_hold_input : bool;
  tq_disable_oob : bool;
  tq_icmds : Z;
  tq_reading : option vm                      (* reading, reading_vm *)
}.

Definition set_tq_player (p : Z) (q : tqueue) : tqueue :=
  let 'mkTqueue _ h c i s l b u n op os fc pg hi d ic r := q in mkTqueue p h c i s l b u n op os fc pg hi d ic r.
Definition set_tq_handler (h : Z) (q : tqueue) : tqueue :=
  let 'mkTqueue p _ c i s l b u n op os fc pg hi d ic r := q in mkTqueue p h c i s l b u n op os fc pg hi d ic r.
Definition set_tq_connected (c : bool) (q : tqueue) : tqueue :=
  let 'mkTqueue p h _ i s l b u n op os fc pg hi d ic r := q in mkTqueue p h c i s l b u n op os fc pg hi d ic r.
Definition set_tq_input (i : input_queue) (q : tqueue) : tqueue :=
  let 'mkTqueue p h c _ s l b u n op os fc pg hi d ic r := q in mkTqueue p h c i s l b u n op os fc pg hi d ic r.
Definition set_tq_input_suspended (s : bool) (q : tqueue) : tqueue :=
  let 'mkTqueue p h c i _ l b u n op os fc pg hi d ic r := q in mkTqueue p h c i s l b u n op os fc pg hi d ic r.
Definition set_tq_last_input_task_id (l : Z) (q : tqueue) : tqueue :=
  let 'mkTqueue p h c i s _ b u n op os fc pg hi d ic r := q in mkTqueue p h c i s l b u n op os fc pg hi d ic r.
Definition set_tq_bg (b : list bg_task) (q : tqueue) : tqueue :=
  let 'mkTqueue p h c i s l _ u n op os fc pg hi d ic r := q in mkTqueue p h c i s l b u n op os fc pg hi d ic r.
Definition set_tq_usage (u : Z) (q : tqueue) : tqueue :=
  let 'mkTqueue p h c i s l b _ n op os fc pg hi d ic r := q in mkTqueue p h c i s l b u n op os fc pg hi d ic r.
Definition set_tq_num_bg_tasks (n : Z) (q : tqueue) : tqueue :=
  let 'mkTqueue p h c i s l b u _ op os fc pg hi d ic r := q in mkTqueue p h c i s l b u n op os fc pg hi d ic r.
Definition set_tq_output (prefix : bool) (o : option bytes) (q : tqueue) : tqueue :=
  let 'mkTqueue p h c i s l b u n op os fc pg hi d ic r := q in
  mkTqueue p h c i s l b u n (if prefix then o else op) (if prefix then os else o) fc pg hi d ic r.
Definition set_tq_flush_cmd (fc : option bytes) (q : tqueue) : tqueue :=
  let 'mkTqueue p h c i s l b u n op os _ pg hi d ic r := q in mkTqueue p h c i s l b u n op os fc pg hi d ic r.
Definition set_tq_program (pg : option (bytes * Z * bytes)) (q : tqueue) : tqueue :=
  let 'mkTqueue p h c i s l b u n op os fc _ hi d ic r := q in mkTqueue p h c i s l b u n op os fc pg hi d ic r.
Definition set_tq_flags (hi d : bool) (ic : Z) (q : tqueue) : tqueue :=
  let 'mkTqueue p h c i s l b u n op os fc pg _ _ _ r := q in mkTqueue p h c i s l b u n op os fc pg hi d ic r.
Definition set_tq_reading (r : option vm) (q : tqueue) : tqueue :=
  let 'mkTqueue p h c i s l b u n op os fc pg hi d ic _ := q in mkTqueue p h c i s l b u n op os fc pg hi d ic r.

Record tasks := mkTasks {
  tqs : gmap Z tqueue;
  idle_tqueues : list Z;
  active_tqueues : list Z;
  waiting_tasks : list bg_task;
  next_tq : Z;                     (* an address that was never used *)
  current_task_id : Z
}.
Definition no_tasks : tasks := mkTasks ∅ [] [] [] 1 0.

Definition with_tqs (f : gmap Z tqueue -> gmap Z tqueue) (t : tasks) : tasks :=
  mkTasks (f (tqs t)) (idle_tqueues t) (active_tqueues t) (waiting_tasks t) (next_tq t) (current_task_id t).
Definition with_tqueues (idle active : list Z) (t : tasks) : tasks :=
  mkTasks (tqs t) idle active (waiting_tasks t) (next_tq t) (current_task_id t).
Definition with_waiting (w : list bg_task) (t : tasks) : tasks :=
  mkTasks (tqs t) (idle_tqueues t) (active_tqueues t) w (next_tq t) (current_task_id t).
Definition set_current_task_id (id : Z) (t : tasks) : tasks :=
  mkTasks (tqs t) (idle_tqueues t) (active_tqueues t) (waiting_tasks t) (next_tq t) id.

(** [tq->... = ...] *)
Definition update_tq (tq : Z) (f : tqueue -> tqueue) (t : tasks) : option tasks :=
  q ← tqs t !! tq; Some (with_tqs <[tq := f q]> t).

Definition NO_USAGE : Z := -1.
Definition ICMD_ALL_CMDS : Z := Z.shiftl 1 6 - 2.

Definition GET_START_TIME (ttt : bg_task) : Z :=
  match ttt with Forked ft => ft_start_time ft | Suspended st => st_start_time st end.
(** The programmer that a task is charged to. *)
Definition task_progr (t : bg_task) : option Z :=
  match t with Forked ft => Some (a_progr (ft_a ft)) | Suspended st => progr_of_cur_verb (st_the_vm st) end.

Definition deactivate_tqueue (tq : Z) (t : tasks) : option tasks :=
  t ← update_tq tq (set_tq_usage NO_USAGE) t;
  Some (with_tqueues (tq :: idle_tqueues t) (active_tqueues t) t).

(** Behind the queues that were used as much. *)
Fixpoint insert_by_usage (m : gmap Z tqueue) (usage tq : Z) (l : list Z) : option (list Z) :=
  match l with
  | [] => Some [tq]
  | x :: l' =>
      q ← m !! x;
      if tq_usage q <=? usage then l' ← insert_by_usage m usage tq l'; Some (x :: l') else Some (tq :: l)
  end.
Definition activate_tqueue (tq : Z) (t : tasks) : option tasks :=
  q ← tqs t !! tq;
  l ← insert_by_usage (tqs t) (tq_usage q) tq (active_tqueues t);
  Some (with_tqueues (idle_tqueues t) l t).

Definition ensure_usage (tq : Z) (t : tasks) : option tasks :=
  q ← tqs t !! tq;
  if tq_usage q =? NO_USAGE then
    usage ← (match active_tqueues t with [] => Some 0 | x :: _ => tq_usage <$> tqs t !! x end);
    t ← update_tq tq (set_tq_usage usage) t;
    activate_tqueue tq (with_tqueues (without tq (idle_tqueues t)) (active_tqueues t) t)
  else Some t.

(** The first queue of a list that is [player]'s. *)
Fixpoint search_tqueue (m : gmap Z tqueue) (player : Z) (l : list Z) : option (option Z) :=
  match l with
  | [] => Some None
  | x :: l => q ← m !! x; if tq_player q =? player then Some (Some x) else search_tqueue m player l
  end.

Definition new_tqueue (player : Z) : tqueue :=
  mkTqueue player 0 false empty_input false 0 [] NO_USAGE 0 None None None None false false ICMD_ALL_CMDS None.

(** [find_tqueue(player, 0)] *)
Definition find_tqueue (player : Z) (t : tasks) : option (option Z) :=
  r ← search_tqueue (tqs t) player (active_tqueues t);
  match r with Some x => Some (Some x) | None => search_tqueue (tqs t) player (idle_tqueues t) end.
(** [find_tqueue(player, 1)] *)
Definition find_or_create_tqueue (player : Z) (t : tasks) : option (tasks * Z) :=
  r ← find_tqueue player t;
  match r with
  | Some x => Some (t, x)
  | None =>
      let tq := next_tq t in
      let t := mkTasks (<[tq := new_tqueue player]> (tqs t)) (idle_tqueues t) (active_tqueues t)
                 (waiting_tasks t) (tq + 1) (current_task_id t) in
      t ← deactivate_tqueue tq t; Some (t, tq)
  end.

Definition free_tqueue (tq : Z) (t : tasks) : tasks :=
  with_tqueues (without tq (idle_tqueues t)) (active_tqueues t) (with_tqs (fun m => delete tq m) t).

Definition enqueue_bg_task (tq : Z) (task : bg_task) (t : tasks) : option tasks :=
  update_tq tq (fun q => set_tq_bg (tq_bg q ++ [task]) q) t.
Definition dequeue_bg_task (tq : Z) (t : tasks) : option (tasks * option bg_task) :=
  q ← tqs t !! tq;
  match tq_bg q with
  | [] => Some (t, None)
  | task :: rest =>
      t ← update_tq tq (fun q => set_tq_num_bg_tasks (int (tq_num_bg_tasks q - 1)) (set_tq_bg rest q)) t;
      Some (t, Some task)
  end.

(** Behind the tasks that start no later. *)
Fixpoint insert_by_start (task : bg_task) (l : list bg_task) : list bg_task :=
  match l with
  | [] => [task]
  | x :: l' => if GET_START_TIME task <? GET_START_TIME x then task :: l else x :: insert_by_start task l'
  end.
Definition enqueue_waiting (task : bg_task) (t : tasks) : option tasks :=
  progr ← task_progr task;
  '(t, tq) ← find_or_create_tqueue progr t;
  t ← update_tq tq (fun q => set_tq_num_bg_tasks (int (tq_num_bg_tasks q + 1)) q) t;
  Some (with_waiting (insert_by_start task (waiting_tasks t)) t).

Definition enqueue_ft (program : Program) (a : activation) (rt_env : list Var) (f_index start_time id : Z) (t : tasks)
    : option tasks :=
  let a := set_rt_stack [] (set_prog program (set_rt_env rt_env a)) in
  enqueue_waiting (Forked (mkForked id program a rt_env f_index start_time)) t.

(** The library's RAND_MAX is TASK_MAX.  [None]: the random numbers given are used up. *)
Fixpoint new_task_id (random : list Z) : option (Z * list Z) :=
  match random with
  | [] => None
  | i :: random => if i =? 0 then new_task_id random else Some (i, random)
  end.

(** How many tasks [user] has waiting, against the user's limit or the server's. *)
Definition check_user_task_limit (user : Z) (d : db) (t : tasks) : option bool :=
  tq ← find_tqueue user t;
  limit ← (if valid d user then
             '(h, v) ← db_find_property d user (BS "queued_task_limit") true;
             Some (if is_null h then -1 else match v with Some (VInt n) => int n | _ => -1 end)
           else Some (-1));
  opt ← get_server_option SYSTEM_OBJECT (BS "queued_task_limit") d;
  let limit := if limit <? 0 then int (server_int_option (fun _ => opt) (BS "queued_task_limit") (-1)) else limit in
  n ← (match tq with Some tq => tq_num_bg_tasks <$> tqs t !! tq | None => Some 0 end);
  Some ((limit <? 0) || negb (limit <=? n)).

(** The clock is [time(0)], a [time_t].  Answers the activation that is left
    behind: its variable [vid] has the number of the task. *)
Definition enqueue_forked_task2 (a : activation) (f_index after_seconds vid : Z) (d : db) (clock : Z)
    (random : list Z) (t : tasks) : option (tasks * list Z * list Var * error) :=
  ok ← check_user_task_limit (a_progr a) d t;
  if negb ok then Some (t, random, a_rt_env a, E_QUOTA)
  else
    '(id, random) ← new_task_id random;
    env ← (if 0 <=? vid then set_rt_env_var (a_rt_env a) vid (VInt id) else Some (a_rt_env a));
    rt_env ← copy_rt_env env (Z.of_nat (length (p_var_names (a_prog a))));
    t ← enqueue_ft (program_ref (a_prog a)) a rt_env f_index (clock + uwrap 32 after_seconds) id t;
    Some (t, random, env, E_NONE).

(** The sum of two [int]s that overflows is taken to wrap around. *)
Definition enqueue_suspended_task (the_vm : vm) (after_seconds : Z) (d : db) (clock : Z) (t : tasks)
    : option (tasks * error) :=
  let now := int clock in
  progr ← progr_of_cur_verb the_vm;
  ok ← check_user_task_limit progr d t;
  if ok : bool then
    let when := if int (now + after_seconds) <? now then INT32_MAX else int (now + after_seconds) in
    t ← enqueue_waiting (Suspended (mkSuspended the_vm when zero)) t;
    Some (t, E_NONE)
  else Some (t, E_QUOTA).

Definition resume_task (the_vm : vm) (value : Var) (t : tasks) : option tasks :=
  progr ← progr_of_cur_verb the_vm;
  '(t, tq) ← find_or_create_tqueue progr t;
  t ← enqueue_bg_task tq (Suspended (mkSuspended the_vm 0 value)) t;
  ensure_usage tq t.

Definition is_out_of_input (q : tqueue) : bool := negb (tq_connected q) && (first_input (tq_input q) =? 0).

Definition make_reading_task (the_vm : vm) (player : Z) (t : tasks) : option (tasks * error) :=
  tq ← find_tqueue player t;
  match tq with
  | None => Some (t, E_INVARG)
  | Some tq =>
      q ← tqs t !! tq;
      if bool_decide (is_Some (tq_reading q)) || is_out_of_input q then Some (t, E_INVARG)
      else
        t ← update_tq tq (set_tq_reading (Some the_vm)) t;
        t ← (if negb (first_input (tq_input q) =? 0) then ensure_usage tq t else Some t);
        Some (t, E_NONE)
  end.

Definition last_input_task_id (player : Z) (t : tasks) : option Z :=
  tq ← find_tqueue player t;
  match tq with None => Some 0 | Some tq => tq_last_input_task_id <$> tqs t !! tq end.
