(* ===== verification/Machine.v ===== *)
(** * The virtual machine: state, calls, errors (execute.c, functions.c)

    The globals of the interpreter and the parts of the server that a running
    task can reach are one record.  Computations on it ([V]) answer [None] for a
    panic and for what C leaves undefined.  The built-in functions act on the
    machine too: the table of them is a parameter here. *)

From S2P Require Import Prelude Utf CString Values Functions Lists ListBuiltins Db Verbs Attributes Properties PropBuiltins Activation InputQueue Tasks.

(** ** Definitions *)

Inductive outcome := OUTCOME_DONE | OUTCOME_ABORTED | OUTCOME_BLOCKED.
#[export] Instance outcome_eq_dec : EqDecision outcome.
Proof. solve_decision. Defined.

Inductive Finally_Reason := FIN_FALL_THRU | FIN_RAISE | FIN_UNCAUGHT | FIN_RETURN | FIN_ABORT | FIN_EXIT.
#[export] Instance Finally_Reason_eq_dec : EqDecision Finally_Reason.
Proof. solve_decision. Defined.
Definition reason_value (why : Finally_Reason) : Z :=
  match why with
  | FIN_FALL_THRU => 0 | FIN_RAISE => 1 | FIN_UNCAUGHT => 2 | FIN_RETURN => 3 | FIN_ABORT => 4 | FIN_EXIT => 5
  end.

(** What built-in functions keep while a verb that they called is running. *)
Inductive bi_func_data :=
| Move_data (what where_ : Z)
| Object_data (oid : Z)
| Call_function_data (fnum data : Z).

(** What others see of a task. *)
Inductive event :=
| Log (line : bytes)
| Notify (player : Z) (line : bytes)
| Suspend_input (player : Z)
| Resume_input (player : Z)
| Boot_player (player : Z)
| Player_connected (old_id new_id : Z) (is_newly_created : bool).

(** [activ_stack]: the hottest activation first, the root last; it is not empty
    while the machine runs, and the root stays when it is finished.  [events]:
    the last first. *)
Record State := mkState {
  activ_stack : list activation;
  max_stack_size : Z;
  root_activ_vector : Z;
  ticks_remaining : Z;
  interpreter_is_running : bool;
  handler : option bytes;             (* handler_verb_name *)
  handler_verb_args : Var;
  database : db;
  options : option_cache;
  the_tasks : tasks;
  clock : Z;
  random : list Z;
  data : gmap Z bi_func_data;
  next_data : Z;                      (* an address that was never used *)
  events : list event
}.

Definition with_activ_stack (l : list activation) (s : State) : State :=
  let 'mkState _ m r t i h ha d o ts c rn da nd ev := s in mkState l m r t i h ha d o ts c rn da nd ev.
Definition with_root (m r : Z) (s : State) : State :=
  let 'mkState l _ _ t i h ha d o ts c rn da nd ev := s in mkState l m r t i h ha d o ts c rn da nd ev.
Definition with_ticks (t : Z) (s : State) : State :=
  let 'mkState l m r _ i h ha d o ts c rn da nd ev := s in mkState l m r t i h ha d o ts c rn da nd ev.
Definition with_running (i : bool) (s : State) : State :=
  let 'mkState l m r t _ h ha d o ts c rn da nd ev := s in mkState l m r t i h ha d o ts c rn da nd ev.
Definition with_handler (h : option bytes) (ha : Var) (s : State) : State :=
  let 'mkState l m r t i _ _ d o ts c rn da nd ev := s in mkState l m r t i h ha d o ts c rn da nd ev.
Definition with_database (d : db) (s : State) : State :=
  let 'mkState l m r t i h ha _ o ts c rn da nd ev := s in mkState l m r t i h ha d o ts c rn da nd ev.
Definition with_tasks (ts : tasks) (rn : list Z) (s : State) : State :=
  let 'mkState l m r t i h ha d o _ c _ da nd ev := s in mkState l m r t i h ha d o ts c rn da nd ev.
Definition with_data (da : gmap Z bi_func_data) (nd : Z) (s : State) : State :=
  let 'mkState l m r t i h ha d o ts c rn _ _ ev := s in mkState l m r t i h ha d o ts c rn da nd ev.
Definition with_events (ev : list event) (s : State) : State :=
  let 'mkState l m r t i h ha d o ts c rn da nd _ := s in mkState l m r t i h ha d o ts c rn da nd ev.

(** *** Computations *)

Definition V (A : Type) : Type := State -> option (A * State).
#[export] Instance V_ret : MRet V := fun A a s => Some (a, s).
#[export] Instance V_bind : MBind V := fun A B f m s => match m s with Some (a, s) => f a s | None => None end.

Definition vpanic {A} : V A := fun _ => None.
Definition vget {A} (f : State -> A) : V A := fun s => Some (f s, s).
Definition vmodify (f : State -> State) : V unit := fun s => Some (tt, f s).
(** A computation without effect on the machine that may panic. *)
Definition lift {A} (x : option A) : V A := fun s => match x with Some a => Some (a, s) | None => None end.
Definition reads_db {A} (f : db -> option A) : V A := d ← vget database; lift (f d).
Definition writes_db {A} (f : db -> option (db * A)) : V A :=
  d ← vget database; '(d, a) ← lift (f d); vmodify (with_database d);; mret a.

Definition emit (e : event) : V unit := vmodify (fun s => with_events (e :: events s) s).
Definition oklog (line : bytes) : V unit := emit (Log line).

Definition top_activ_stack (s : State) : Z := Z.of_nat (length (activ_stack s)) - 1.

(** [RUN_ACTIV] *)
Definition run_activ : V activation := l ← vget activ_stack; lift (head l).
Definition update_run_activ (f : activation -> activation) : V unit :=
  l ← vget activ_stack;
  match l with [] => vpanic | a :: l => vmodify (with_activ_stack (f a :: l)) end.

(** A value on the stack of the running activation, which has room for so many. *)
Definition push_value (v : Var) : V unit :=
  a ← run_activ;
  if Z.of_nat (length (a_rt_stack a)) <? rt_stack_room a
  then update_run_activ (set_rt_stack (v :: a_rt_stack a)) else vpanic.

Definition caller : V Z := a ← run_activ; mret (a_this a).

(** [alloc_data] and [free_data]: the use of freed memory is a panic. *)
Definition alloc_data (x : bi_func_data) : V Z :=
  n ← vget next_data; m ← vget data;
  vmodify (with_data (<[n := x]> m) (n + 1));; mret n.
Definition free_data (p : Z) : V unit :=
  m ← vget data; n ← vget next_data;
  match m !! p with None => vpanic | Some _ => vmodify (with_data (delete p m) n) end.
Definition read_data (p : Z) : V bi_func_data := m ← vget data; lift (m !! p).

(** *** Calling verbs *)

Section Calls.
(** The program of verbs without one, which program.c makes at the start; whether
    the pointer to the name that is called is that to the names of a verb. *)
Context (null : Program) (same : Verbdef -> bool).

Definition push_activation (a : activation) : V bool :=
  s ← vget (fun s => s);
  if top_activ_stack s <? max_stack_size s - 1
  then vmodify (with_activ_stack (a :: activ_stack s));; mret true else mret false.

(** The activation that a call of the verb [h] makes, from the caller's. *)
Definition verb_activation (d : db) (h : option handle) (this : Z) (vname : bytes) (args : Var) (c : activation)
    : option activation :=
  program ← db_verb_program null d h;
  owner ← db_verb_owner d h;
  definer ← db_verb_definer h;
  names ← db_verb_names d h;
  flags ← db_verb_flags d h;
  env ← fill_in_rt_consts (new_rt_env (Z.of_nat (length (p_var_names program)))) (p_version program);
  argstr ← env_get (a_rt_env c) SLOT_ARGSTR;
  dobj ← env_get (a_rt_env c) SLOT_DOBJ;
  dobjstr ← env_get (a_rt_env c) SLOT_DOBJSTR;
  prepstr ← env_get (a_rt_env c) SLOT_PREPSTR;
  iobj ← env_get (a_rt_env c) SLOT_IOBJ;
  iobjstr ← env_get (a_rt_env c) SLOT_IOBJSTR;
  c_player ← env_get (a_rt_env c) SLOT_PLAYER;
  let player := match c_player with
                | VObj p => if is_wizard d (a_progr c) then p else a_player c
                | _ => a_player c
                end in
  env ← set_rt_env_vars env
    [(SLOT_THIS, VObj this); (SLOT_CALLER, VObj (a_this c)); (SLOT_ARGSTR, argstr); (SLOT_DOBJ, dobj);
     (SLOT_DOBJSTR, dobjstr); (SLOT_PREPSTR, prepstr); (SLOT_IOBJ, iobj); (SLOT_IOBJSTR, iobjstr);
     (SLOT_PLAYER, VObj player); (SLOT_VERB, VStr vname); (SLOT_ARGS, args)];
  Some (mkActivation (program_ref program) env [] (bc_max_stack (p_main_vector program)) 0 0 0 0 0 VNone
          this player owner definer vname names (negb (Z.land flags VF_DEBUG =? 0))).

(** [call_verb2]; the verb is looked up in the verb cache, which may change. *)
Definition call_verb2 (this : Z) (vname : bytes) (args : Var) (do_pass : bool) : V error :=
  a ← run_activ;
  d ← vget database;
  if do_pass && negb (valid d (a_vloc a)) then mret E_INVIND
  else
    where_ ← lift (if do_pass then db_object_parent d (a_vloc a) else Some this);
    if negb (valid d where_) then mret E_INVIND
    else
      h ← writes_db (fun d => db_find_callable_verb same d where_ vname);
      match h with
      | None => mret E_VERBNF
      | Some _ =>
          s ← vget (fun s => s);
          if negb (top_activ_stack s <? max_stack_size s - 1) then mret E_MAXREC
          else
            new ← reads_db (fun d => verb_activation d h this vname args a);
            _ ← push_activation new;
            mret E_NONE
      end.
Definition call_verb (this : Z) (vname : bytes) (args : Var) (do_pass : bool) : V error :=
  call_verb2 this vname args do_pass.

(** *** Built-in functions *)

Record bi_func := mkBiFunc {
  fn_name : bytes;
  fn_minargs : Z;
  fn_maxargs : Z;
  fn_prototype : list var_type;
  fn_protected : bool;
  fn_func : Var -> Z -> Z -> Z -> V package    (* arglist, next, vdata, progr *)
}.

Section Functions.
Context (bf_table : list bi_func).

Definition fn_name_by_num (n : Z) : bytes :=
  match bf_table !! Z.to_nat n with Some f => fn_name f | None => func_not_found_msg end.

(** [call_bi_func]: the tests of [Functions.call_bi_func], with the call of
    #0:bf_NAME() made on the machine. *)
Definition call_bi_func (n : Z) (arglist : Var) (func_pc progr vdata : Z) : V package :=
  match bf_table !! Z.to_nat n with
  | None => oklog (BS "CALL_BI_FUNC: Unknown function number: " ++ print_num n);; mret no_var_pack
  | Some f =>
      let run := fn_func f arglist func_pc vdata progr in
      if func_pc =? 1 then
        args ← lift (match arglist with VList args => Some args | _ => None end);
        let checked :=
          let nargs := llen args in
          if (nargs <? fn_minargs f) || (negb (fn_maxargs f =? -1) && (fn_maxargs f <? nargs))
          then mret (make_error_pack E_ARGS)
          else
            ok ← lift (check_types (Z.to_nat (if fn_maxargs f =? -1 then fn_minargs f else nargs)) (fn_prototype f) args);
            if ok : bool then run else mret (make_error_pack E_TYPE) in
        this ← caller;
        if negb (this =? SYSTEM_OBJECT) && fn_protected f then
          e ← call_verb2 SYSTEM_OBJECT (BS "bf_" ++ fn_name f) arglist false;
          if bool_decide (e = E_NONE) then mret tail_call_pack
          else
            d ← vget database;
            if bool_decide (e = E_MAXREC) || negb (is_wizard d progr)
            then mret (make_error_pack (if bool_decide (e = E_MAXREC) then e else E_PERM))
            else checked
        else checked
      else if (func_pc =? 2) && (vdata =? call_bi_func_data) then mret (make_var_pack arglist)
      else run
  end.

(** *** Tracebacks *)

(** Which line of a program a counter is at (decompile.c). *)
Context (find_line_number : Program -> Z -> Z -> Z).
Definition line_of (below : nat) (root_vector : Z) (a : activation) : Z :=
  find_line_number (a_prog a) (vector_of below root_vector) (a_error_pc a).

(** The lines of [print_error_backtrace] for the activations [l], of which the
    first is the hottest exactly if [top]. *)
Fixpoint backtrace (msg : bytes) (top : bool) (root_vector : Z) (l : list activation) : list bytes :=
  match l with
  | [] => [BS "(End of traceback)"]
  | a :: l =>
      let t := length l in
      ((if top then [] else BS "... called from ") ++
       BS "#" ++ print_num (a_vloc a) ++ BS ":" ++ a_verbname a ++
       (if a_vloc a =? a_this a then [] else BS " (this == #" ++ print_num (a_this a) ++ BS ")") ++
       BS ", line " ++ print_num (line_of t root_vector a) ++
       (if top then BS ":  " ++ msg else [])) ::
      (if negb (Z.of_nat t =? 0) && negb (a_bi_func_pc a =? 0)
       then [BS "... called from built-in function " ++ fn_name_by_num (a_bi_func_id a) ++ BS "()"] else []) ++
      backtrace msg false root_vector l
  end.
Definition print_error_backtrace (msg : bytes) : V (list bytes) :=
  s ← vget (fun s => s);
  mret (if interpreter_is_running s then backtrace msg true (root_activ_vector s) (activ_stack s) else []).
Definition error_backtrace_list (msg : bytes) : V Var :=
  l ← print_error_backtrace msg; mret (VList (VStr <$> l)).

(** [make_stack_list] for the activations [l] down to number [start]. *)
Fixpoint make_stack_list (l : list activation) (start : nat) (include_end : bool) (root_vector : Z) (line_numbers_too : bool)
    : list Var :=
  match l with
  | [] => []
  | a :: l =>
      let i := length l in
      let more (n : Z) := if line_numbers_too then [VInt n] else [] in
      (if include_end then
         [VList ([VObj (a_this a); VStr (a_verb a); VObj (a_progr a); VObj (a_vloc a); VObj (a_player a)] ++
                 more (line_of i root_vector a))]
       else []) ++
      (if negb (i =? start)%nat && negb (a_bi_func_pc a =? 0) then
         [VList ([VObj NOTHING; VStr (fn_name_by_num (a_bi_func_id a)); VObj NOTHING; VObj NOTHING; VObj (a_player a)] ++
                 more (a_bi_func_pc a))]
       else []) ++
      (if (i <=? start)%nat then [] else make_stack_list l start true root_vector line_numbers_too)
  end.

(** *** Unwinding *)

(** The loop over the value stack of an activation: a handler was found, and
    the stack and the program counter are set for it, or the stack is at [goal]. *)
Inductive unwound := To_handler (pc : Z) (stack : list Var) | At_goal (stack : list Var).

(** The pairs of codes and labels below a catch marker, the deepest first. *)
Fixpoint handler_pairs (n : nat) (stack : list Var) (acc : list (Var * Var)) : option (list (Var * Var) * list Var) :=
  match n with
  | O => Some (acc, stack)
  | S n => match stack with label :: codes :: stack => handler_pairs n stack ((codes, label) :: acc) | _ => None end
  end.
Definition code_matches (code codes : Var) : option bool :=
  match codes with VList l => i ← ismember code l false; Some (negb (i =? 0)) | _ => Some true end.
Fixpoint find_pair (code : Var) (l : list (Var * Var)) : option (option Z) :=
  match l with
  | [] => Some None
  | (codes, label) :: l =>
      m ← code_matches code codes;
      if m : bool then match label with VInt pc => Some (Some pc) | _ => None end else find_pair code l
  end.

Fixpoint unwind_rt (fuel : nat) (why : Finally_Reason) (code value : Var) (goal : Z) (stack : list Var) : option unwound :=
  if Z.of_nat (length stack) <=? goal then Some (At_goal stack)
  else match fuel, stack with
  | S fuel, v :: stack =>
      match v with
      | VFinally pc =>
          if negb (bool_decide (why = FIN_ABORT))
          then Some (To_handler pc (value :: VInt (reason_value why) :: stack))
          else unwind_rt fuel why code value goal stack
      | VCatch n =>
          if bool_decide (why = FIN_RAISE) then
            '(pairs, stack) ← handler_pairs (Z.to_nat n) stack [];
            r ← find_pair code pairs;
            match r with
            | Some pc => Some (To_handler pc (value :: stack))
            | None => unwind_rt fuel why code value goal stack
            end
          else unwind_rt fuel why code value goal stack
      | _ => unwind_rt fuel why code value goal stack
      end
  | _, _ => None
  end.

Definition list_elem (v : Var) (i : Z) : option Var := match v with VList l => aread l i | _ => None end.
Definition int_elem (v : Var) (i : Z) : option Z := x ← list_elem v i; match x with VInt n => Some n | _ => None end.

(** [find_handler_activ]: the activation, as the number of those below it. *)
Fixpoint find_catch (fuel : nat) (code : Var) (stack : list Var) : option bool :=
  match fuel, stack with
  | _, [] => Some false
  | S fuel, VCatch n :: stack =>
      '(pairs, stack) ← handler_pairs (Z.to_nat n) stack [];
      b ← (fix go l := match l with
           | [] => Some false
           | (codes, _) :: l => m ← code_matches code codes; if m : bool then Some true else go l
           end) pairs;
      if b : bool then Some true else find_catch fuel code stack
  | S fuel, _ :: stack => find_catch fuel code stack
  | O, _ :: _ => None
  end.
Fixpoint find_handler_activ (code : Var) (l : list activation) : option (option nat) :=
  match l with
  | [] => Some None
  | a :: l =>
      b ← find_catch (length (a_rt_stack a)) code (a_rt_stack a);
      if b : bool then Some (Some (length l)) else find_handler_activ code l
  end.

Definition enqueue_suspended_task_proc : Z := 1.
Definition make_reading_task_proc : Z := 2.

(** [suspend_task]; the procedures of suspensions are those two. *)
Definition suspend_task (proc datum : Z) : V error :=
  s ← vget (fun s => s);
  let the_vm := mkVm (current_task_id (the_tasks s)) (activ_stack s) (max_stack_size s) (root_activ_vector s) in
  '(t, e) ← lift (if proc =? enqueue_suspended_task_proc
                  then enqueue_suspended_task the_vm datum (database s) (clock s) (the_tasks s)
                  else if proc =? make_reading_task_proc then make_reading_task the_vm datum (the_tasks s)
                  else None);
  vmodify (with_tasks t (random s));; mret e.

Definition save_handler_info (vname : bytes) (args : list Var) : V unit :=
  vmodify (with_handler (Some vname) (VList args)).

(** [raise_error] and [abort_task], given how to unwind. *)
Section Raising.
Context (unwind : Finally_Reason -> Var -> V (option outcome)).

Definition raise_error_with (code : Var) (msg : bytes) (value : Var) : V (option outcome) :=
  s ← vget (fun s => s);
  h ← lift (find_handler_activ code (activ_stack s));
  let stack start := VList (make_stack_list (activ_stack s) start true (root_activ_vector s) true) in
  match h with
  | Some frame => unwind FIN_RAISE (VList [code; VStr msg; value; stack frame])
  | None =>
      tb ← error_backtrace_list msg;
      save_handler_info (BS "handle_uncaught_error") [code; VStr msg; value; stack O; tb];;
      unwind FIN_UNCAUGHT zero
  end.

Definition abort_task_with (reason : abort_reason) : V unit :=
  s ← vget (fun s => s);
  (match reason with
   | ABORT_KILL => mret tt
   | _ =>
       let '(msg, htag) := match reason with
                           | ABORT_TICKS => (BS "Task ran out of ticks", BS "ticks")
                           | _ => (BS "Task ran out of seconds", BS "seconds")
                           end in
       tb ← error_backtrace_list msg;
       save_handler_info (BS "handle_task_timeout")
         [VStr htag; VList (make_stack_list (activ_stack s) O true (root_activ_vector s) true); tb]
   end);;
  _ ← unwind FIN_ABORT zero;
  mret tt.
End Raising.

(** A built-in function whose verb was unwound is called on with 0 until it calls
    no further; the activations it makes are dropped.  [progr] is read from
    the activation that was unwound. *)
Fixpoint short_circuit (fuel : nat) (id pc datum progr : Z) : V unit :=
  match fuel with
  | O => vpanic
  | S fuel =>
      p ← call_bi_func id zero pc progr datum;
      match p with
      | BI_CALL pc datum =>
          l ← vget activ_stack;
          match l with
          | a :: l =>
              vmodify (with_activ_stack l);;
              if pc =? 0 then mret tt else short_circuit fuel id pc datum (a_progr a)
          | [] => vpanic
          end
      | _ => mret tt
      end
  end.

(** [unwind_stack]: [Some] if the interpreter should stop.  Fuel: the activations
    and the calls of built-in functions. *)
Fixpoint unwind_stack (fuel : nat) (why : Finally_Reason) (value : Var) : V (option outcome) :=
  match fuel with
  | O => vpanic
  | S fuel =>
      code ← lift (if bool_decide (why = FIN_RAISE) then list_elem value 1 else Some zero);
      goal ← lift (if bool_decide (why = FIN_EXIT) then int_elem value 1 else Some 0);
      a ← run_activ;
      r ← lift (unwind_rt (length (a_rt_stack a)) why code value goal (a_rt_stack a));
      match r with
      | To_handler pc stack => update_run_activ (fun a => set_pc pc (set_rt_stack stack a));; mret None
      | At_goal stack =>
          if bool_decide (why = FIN_EXIT) then
            pc ← lift (int_elem value 2);
            update_run_activ (fun a => set_pc pc (set_rt_stack stack a));; mret None
          else
            update_run_activ (set_rt_stack stack);;
            l ← vget activ_stack;
            match l with
            | [] => vpanic
            | [_] => mret (Some (if bool_decide (why = FIN_RETURN) then OUTCOME_DONE else OUTCOME_ABORTED))
            | _ :: l =>
                vmodify (with_activ_stack l);;
                if negb (a_bi_func_pc a =? 0) then
                  if bool_decide (why = FIN_RETURN) then
                    c ← run_activ;
                    p ← call_bi_func (a_bi_func_id a) value (a_bi_func_pc a) (a_progr c) (a_bi_func_data a);
                    match p with
                    | BI_RETURN ret => push_value ret;; mret None
                    | BI_RAISE code msg v =>
                        if a_debug c then raise_error_with (unwind_stack fuel) code msg v
                        else push_value code;; mret None
                    | BI_SUSPEND proc datum =>
                        e ← suspend_task proc datum;
                        if bool_decide (e = E_NONE) then mret (Some OUTCOME_BLOCKED)
                        else unwind_stack fuel FIN_RAISE (VErr e)
                    | BI_CALL pc datum => update_run_activ (set_bi_func pc (a_bi_func_id a) datum);; mret None
                    | BI_ABORT reason => abort_task_with (unwind_stack fuel) reason;; mret (Some OUTCOME_ABORTED)
                    end
                  else
                    short_circuit fuel (a_bi_func_id a) (a_bi_func_pc a) (a_bi_func_data a) (a_progr a);;
                    unwind_stack fuel why value
                else if bool_decide (why = FIN_RETURN) then push_value value;; mret None
                else unwind_stack fuel why value
            end
      end
  end.

(** How often unwinding may go round. *)
Context (unwind_fuel : nat).
Definition raise_error : Var -> bytes -> Var -> V (option outcome) := raise_error_with (unwind_stack unwind_fuel).
Definition abort_task : abort_reason -> V unit := abort_task_with (unwind_stack unwind_fuel).
End Functions.
End Calls.
