(* ===== verification/TaskQueues.v ===== *)
(** * Operations on the task queues (tasks.c)

    What connections, built-in functions and the scheduler do with task queues
    on the machine.  Other parts of the server register no queues of their own:
    experiments.c, which does, is off. *)

From S2P Require Import Prelude Utf CString Values Functions Lists ListBuiltins Db Properties PropBuiltins Activation InputQueue Tasks Machine.

(** ** Definitions *)

Definition INPUT_HIWAT : Z := 65536.
Definition INPUT_LOWAT : Z := INPUT_HIWAT / 2.

Definition get_tq (tq : Z) : V tqueue := t ← vget the_tasks; lift (tqs t !! tq).
(** An operation of [Tasks] that may panic. *)
Definition update_tasks (f : tasks -> option tasks) : V unit :=
  t ← vget the_tasks; rn ← vget random; t ← lift (f t); vmodify (with_tasks t rn).
Definition on_tasks {A} (f : tasks -> option (tasks * A)) : V A :=
  t ← vget the_tasks; rn ← vget random; '(t, a) ← lift (f t); vmodify (with_tasks t rn);; mret a.
Definition put_tq (tq : Z) (f : tqueue -> tqueue) : V unit := update_tasks (update_tq tq f).

Definition task_id_from_num (n : Z) : Z := if (n <? 0) || (INT32_MAX <? n) then 0 else n.

(** *** Intrinsic commands *)

Definition ICMD_SUFFIX : Z := 1.
Definition ICMD_OUTPUTSUFFIX : Z := 2.
Definition ICMD_OUTPUTPREFIX : Z := 3.
Definition ICMD_PREFIX : Z := 4.
Definition ICMD_PROGRAM : Z := 5.

(** [ICMD_FOR_EACH]: the number, the name and whether a verb is the command. *)
Definition icmd_table (verb : bytes) : list (Z * bytes * bool) :=
  [(ICMD_PROGRAM, BS ".program", verbcasecmp false (BS ".pr*ogram") verb);
   (ICMD_PREFIX, BS "PREFIX", strcmp verb (BS "PREFIX") =? 0);
   (ICMD_SUFFIX, BS "SUFFIX", strcmp verb (BS "SUFFIX") =? 0);
   (ICMD_OUTPUTPREFIX, BS "OUTPUTPREFIX", strcmp verb (BS "OUTPUTPREFIX") =? 0);
   (ICMD_OUTPUTSUFFIX, BS "OUTPUTSUFFIX", strcmp verb (BS "OUTPUTSUFFIX") =? 0)].

(** Bytes as C's [char], of which only the low bits are used. *)
Definition icmd_hash (verb : bytes) : Z :=
  let len := int (Z.of_nat (length verb)) in
  let c2 := if 2 <? len then byte_at verb 2 else 0 in
  let c8 := if 8 <? len then byte_at verb 8 else 0 in
  Z.lxor (Z.land c2 7) 6 + (if Z.land c8 2 =? 0 then 1 else 0).
Definition icmd_index (verb : bytes) : Z :=
  match find (fun '(icmd, _, _) => icmd =? icmd_hash verb) (icmd_table verb) with
  | Some (icmd, _, matches) => if matches : bool then icmd else 0
  | None => 0
  end.

Definition icmd_list (icmd_flags : Z) : list Var :=
  (fun '(_, name, _) => VStr name) <$>
  filter (fun '(icmd, _, _) => Z.land icmd_flags (Z.shiftl 1 icmd) ≠ 0) (icmd_table []).

Fixpoint icmd_flags_of (l : list Var) (newflags : Z) : option Z :=
  match l with
  | [] => Some newflags
  | VStr verb :: l =>
      let icmd := icmd_index verb in
      if icmd =? 0 then None else icmd_flags_of l (Z.lor newflags (Z.shiftl 1 icmd))
  | _ => None
  end.
(** [None]: refused. *)
Definition icmd_set_flags (list_ : Var) : option Z :=
  match list_ with
  | VInt _ => Some (if is_true list_ then ICMD_ALL_CMDS else 0)
  | VList l => icmd_flags_of l 0
  | _ => None
  end.

(** *** Connections *)

Definition default_flush_command (handler : Z) (d : db) : option (option bytes) :=
  v ← get_server_option handler (BS "default_flush_command") d;
  let str := match v with None => Some (BS ".flush") | Some (VStr s) => Some s | Some _ => None end in
  Some (match str with Some (c :: s) => Some (c :: s) | _ => None end).

Definition new_task_queue (player handler : Z) : V Z :=
  tq ← on_tasks (find_or_create_tqueue player);
  flush ← reads_db (default_flush_command handler);
  put_tq tq (fun q => set_tq_flush_cmd flush (set_tq_handler handler (set_tq_connected true q)));;
  mret tq.

Definition free_task_queue (tq : Z) : V unit :=
  put_tq tq (set_tq_connected false);;
  q ← get_tq tq;
  if bool_decide (is_Some (tq_reading q)) then update_tasks (ensure_usage tq) else mret tt.

(** TASK_CO_TABLE: whether there is the option and it could be set. *)
Definition tasks_set_connection_option (tq : Z) (option_ : bytes) (value : Var) : V bool :=
  if mystrcasecmp option_ (BS "flush-command") =? 0 then
    put_tq tq (set_tq_flush_cmd (match value with VStr (c :: s) => Some (c :: s) | _ => None end));; mret true
  else if mystrcasecmp option_ (BS "hold-input") =? 0 then
    put_tq tq (fun q => set_tq_flags (is_true value) (tq_disable_oob q) (tq_icmds q) q);;
    q ← get_tq tq;
    (if negb (tq_hold_input q) && negb (first_input (tq_input q) =? 0) then update_tasks (ensure_usage tq) else mret tt);;
    mret true
  else if mystrcasecmp option_ (BS "disable-oob") =? 0 then
    put_tq tq (fun q => set_tq_flags (tq_hold_input q) (is_true value) (tq_icmds q) q);;
    q ← get_tq tq;
    let i := tq_input q in
    (if negb (tq_disable_oob q) && negb (first_input i =? 0) then
       itail ← lift (lines i !! first_itail i);
       first ← lift (lines i !! first_input i);
       if negb (it_next itail =? 0) || is_oob (it_kind first) then update_tasks (ensure_usage tq) else mret tt
     else mret tt);;
    mret true
  else if mystrcasecmp option_ (BS "intrinsic-commands") =? 0 then
    match icmd_set_flags value with
    | Some flags => put_tq tq (fun q => set_tq_flags (tq_hold_input q) (tq_disable_oob q) flags q);; mret true
    | None => mret false
    end
  else mret false.

(** The options in the order of the table, with their values. *)
Definition connection_option_table (q : tqueue) : list (bytes * Var) :=
  [(BS "flush-command", VStr (default [] (tq_flush_cmd q)));
   (BS "hold-input", VInt (if tq_hold_input q then 1 else 0));
   (BS "disable-oob", VInt (if tq_disable_oob q then 1 else 0));
   (BS "intrinsic-commands", VList (icmd_list (tq_icmds q)))].
Definition tasks_connection_option (q : tqueue) (option_ : bytes) : option Var :=
  snd <$> find (fun '(name, _) => mystrcasecmp option_ name =? 0) (connection_option_table q).
Definition tasks_connection_options (q : tqueue) (list_ : list Var) : list Var :=
  list_ ++ ((fun '(name, v) => VList [VStr name; v]) <$> connection_option_table q).

(** *** Input *)

Definition suspend_queue_input (tq : Z) : V unit :=
  q ← get_tq tq;
  emit (Suspend_input (tq_player q));; put_tq tq (set_tq_input_suspended true).

Definition enqueue_input_task (tq : Z) (input : bytes) (at_front binary : bool) : V unit :=
  q ← get_tq tq;
  i ← lift (enqueue_line (tq_input q) input at_front binary);
  put_tq tq (set_tq_input i);;
  (if negb (tq_hold_input q) || bool_decide (is_Some (tq_reading q)) ||
      (negb (tq_disable_oob q) && is_oob (input_kind input binary))
   then update_tasks (ensure_usage tq) else mret tt);;
  if negb (tq_input_suspended q) && tq_connected q && (INPUT_HIWAT <? total_input_length i)
  then suspend_queue_input tq else mret tt.

Definition task_suspend_input (tq : Z) : V unit :=
  q ← get_tq tq;
  if negb (tq_input_suspended q) && tq_connected q then suspend_queue_input tq else mret tt.

Definition dequeue_input_task (tq : Z) (how : dequeue_how) : V (option (task_kind * bytes)) :=
  q ← get_tq tq;
  '(i, line) ← lift (dequeue_line (tq_disable_oob q) how (tq_input q));
  put_tq tq (set_tq_input i);;
  (if bool_decide (is_Some line) && tq_input_suspended q && tq_connected q && (total_input_length i <? INPUT_LOWAT)
   then emit (Resume_input (tq_player q));; put_tq tq (set_tq_input_suspended false) else mret tt);;
  mret line.

(** The loop of [flush_input]. *)
Fixpoint flush_loop (fuel : nat) (tq : Z) (show_messages : bool) : V unit :=
  match fuel with
  | O => vpanic
  | S fuel =>
      q ← get_tq tq;
      line ← dequeue_input_task tq DQ_FIRST;
      match line with
      | None => mret tt
      | Some (_, string_) =>
          (if show_messages then emit (Notify (tq_player q) (BS ">>     " ++ string_)) else mret tt);;
          flush_loop fuel tq show_messages
      end
  end.
Definition flush_input (tq : Z) (show_messages : bool) : V unit :=
  q ← get_tq tq;
  let say (line : bytes) := if show_messages then emit (Notify (tq_player q) line) else mret tt in
  if negb (first_input (tq_input q) =? 0) then
    say (BS ">> Flushing the following pending input:");;
    flush_loop (S (size (lines (tq_input q)))) tq show_messages;;
    say (BS ">> (Done flushing)")
  else say (BS ">> No pending input to flush...").

Definition new_input_task (tq : Z) (input : bytes) (binary : bool) : V unit :=
  q ← get_tq tq;
  if match tq_flush_cmd q with Some cmd => mystrcasecmp input cmd =? 0 | None => false end
  then flush_input tq true else enqueue_input_task tq input false binary.

Definition read_input_now (connection : Z) : V Var :=
  t ← vget the_tasks;
  tq ← lift (find_tqueue connection t);
  match tq with
  | None => mret (VErr E_INVARG)
  | Some tq =>
      q ← get_tq tq;
      if is_out_of_input q then mret (VErr E_INVARG)
      else
        line ← dequeue_input_task tq DQ_INBAND;
        mret (match line with None => VInt 0 | Some (_, string_) => VStr string_ end)
  end.

(** *** Finding, killing and resuming tasks *)

Definition task_id_of (t : bg_task) : Z :=
  match t with Forked ft => ft_id ft | Suspended st => vm_task_id (st_the_vm st) end.
Definition is_suspended (id : Z) (t : bg_task) : bool :=
  match t with Suspended st => vm_task_id (st_the_vm st) =? id | Forked _ => false end.
Definition is_reading (id : Z) (q : tqueue) : bool :=
  match tq_reading q with Some the_vm => vm_task_id the_vm =? id | None => false end.

Definition suspended_vm (id : Z) (l : list bg_task) : option vm :=
  t ← find (is_suspended id) l; match t with Suspended st => Some (st_the_vm st) | Forked _ => None end.

(** The queues of a list, in order. *)
Definition queues (t : tasks) (l : list Z) : option (list (Z * tqueue)) :=
  mapM (fun x => q ← tqs t !! x; Some (x, q)) l.

(** The task that reads from a queue, or else its suspended tasks if [bg]. *)
Fixpoint find_in_queues (id : Z) (bg : bool) (l : list (Z * tqueue)) : option vm :=
  match l with
  | [] => None
  | (_, q) :: l =>
      if is_reading id q then tq_reading q
      else match (if bg then suspended_vm id (tq_bg q) else None) with
           | Some the_vm => Some the_vm
           | None => find_in_queues id bg l
           end
  end.
Definition find_suspended_task (id : Z) (t : tasks) : option (option vm) :=
  match suspended_vm id (waiting_tasks t) with
  | Some the_vm => Some (Some the_vm)
  | None =>
      idle ← queues t (idle_tqueues t);
      match find_in_queues id false idle with
      | Some the_vm => Some (Some the_vm)
      | None => active ← queues t (active_tqueues t); Some (find_in_queues id true active)
      end
  end.

(** The first element that satisfies [p], and the list without it. *)
Fixpoint take_first {A} (p : A -> bool) (l : list A) : option (A * list A) :=
  match l with
  | [] => None
  | x :: l => if p x then Some (x, l) else '(y, r) ← take_first p l; Some (y, x :: r)
  end.

(** The tasks that read from the queues [l], and the background tasks too if [bg]:
    [None] if none of them is [id]. *)
Fixpoint kill_in_queues (id : Z) (wizard : bool) (owner : Z) (bg : bool) (l : list (Z * tqueue)) (t : tasks)
    : option (option (tasks * error)) :=
  match l with
  | [] => Some None
  | (tq, q) :: l =>
      let allowed := wizard || (owner =? tq_player q) in
      if is_reading id q then
        if allowed then t ← update_tq tq (set_tq_reading None) t; Some (Some (t, E_NONE)) else Some (Some (t, E_PERM))
      else
        match (if bg then take_first (fun x => task_id_of x =? id) (tq_bg q) else None) with
        | Some (_, rest) =>
            if allowed then
              t ← update_tq tq (fun q => set_tq_num_bg_tasks (int (tq_num_bg_tasks q - 1)) (set_tq_bg rest q)) t;
              Some (Some (t, E_NONE))
            else Some (Some (t, E_PERM))
        | None => kill_in_queues id wizard owner bg l t
        end
  end.

Definition kill_task (id owner : Z) (d : db) (t : tasks) : option (tasks * error) :=
  let wizard := is_wizard d owner in
  if id =? current_task_id t then Some (t, E_NONE)
  else
    match take_first (fun x => task_id_of x =? id) (waiting_tasks t) with
    | Some (x, rest) =>
        progr ← task_progr x;
        if negb wizard && negb (owner =? progr) then Some (t, E_PERM)
        else
          tq ← find_tqueue progr t;
          t ← (match tq with
               | Some tq => update_tq tq (fun q => set_tq_num_bg_tasks (int (tq_num_bg_tasks q - 1)) q) t
               | None => Some t
               end);
          Some (with_waiting rest t, E_NONE)
    | None =>
        idle ← queues t (idle_tqueues t);
        r ← kill_in_queues id wizard owner false idle t;
        match r with
        | Some r => Some r
        | None =>
            active ← queues t (active_tqueues t);
            r ← kill_in_queues id wizard owner true active t;
            Some (default (t, E_INVARG) r)
        end
    end.

Definition set_value (start : option Z) (value : Var) (x : bg_task) : bg_task :=
  match x with
  | Suspended st => Suspended (mkSuspended (st_the_vm st) (default (st_start_time st) start) value)
  | Forked ft => Forked ft
  end.
(** The first task that satisfies [p] is changed. *)
Fixpoint update_first {A} (p : A -> bool) (f : A -> A) (l : list A) : list A :=
  match l with [] => [] | x :: l => if p x then f x :: l else x :: update_first p f l end.

Fixpoint resume_in_queues (id : Z) (value : Var) (wizard : bool) (progr : Z) (l : list (Z * tqueue)) (t : tasks)
    : option (tasks * error) :=
  match l with
  | [] => Some (t, E_INVARG)
  | (tq, q) :: l =>
      if existsb (is_suspended id) (tq_bg q) then
        if negb wizard && negb (progr =? tq_player q) then Some (t, E_PERM)
        else
          t ← update_tq tq (fun q => set_tq_bg (update_first (is_suspended id) (set_value None value) (tq_bg q)) q) t;
          Some (t, E_NONE)
      else resume_in_queues id value wizard progr l t
  end.

Definition do_resume (id : Z) (value : Var) (progr : Z) (d : db) (clock : Z) (t : tasks) : option (tasks * error) :=
  let wizard := is_wizard d progr in
  match take_first (is_suspended id) (waiting_tasks t) with
  | Some (x, rest) =>
      owner ← task_progr x;
      if negb wizard && negb (progr =? owner) then Some (t, E_PERM)
      else
        '(t, tq) ← find_or_create_tqueue owner t;
        t ← ensure_usage tq (with_waiting rest t);
        t ← enqueue_bg_task tq (set_value (Some clock) value x) t;
        Some (t, E_NONE)
  | None => active ← queues t (active_tqueues t); resume_in_queues id value wizard progr active t
  end.

(** *** When to run *)

(** Seconds until a task can run, or -1; the difference is an [int]. *)
Definition next_task_start (clock : Z) (t : tasks) : option Z :=
  active ← queues t (active_tqueues t);
  if existsb (fun '(_, q) => negb (first_input (tq_input q) =? 0) || negb (bool_decide (tq_bg q = []))) active
  then Some 0
  else match waiting_tasks t with
       | x :: _ => let wait := int (GET_START_TIME x - clock) in Some (if 0 <=? wait then wait else 0)
       | [] => Some (-1)
       end.

(** *** Built-in functions *)

Definition bf_queue_info (arglist : Var) (next vdata progr : Z) : V package :=
  t ← vget the_tasks;
  match arglist with
  | VList [] =>
      active ← lift (queues t (active_tqueues t));
      idle ← lift (queues t (idle_tqueues t));
      mret (make_var_pack (VList (reverse ((fun '(_, q) => VObj (tq_player q)) <$> (active ++ idle)))))
  | VList (VObj who :: _) =>
      tq ← lift (find_tqueue who t);
      n ← lift (match tq with Some tq => tq_num_bg_tasks <$> tqs t !! tq | None => Some 0 end);
      mret (make_var_pack (VInt n))
  | _ => vpanic
  end.

Definition bf_task_id (arglist : Var) (next vdata progr : Z) : V package :=
  t ← vget the_tasks; mret (make_var_pack (VInt (current_task_id t))).

Definition bf_kill_task (arglist : Var) (next vdata progr : Z) : V package :=
  match arglist with
  | VList (VInt n :: _) =>
      let id := task_id_from_num n in
      d ← vget database;
      e ← on_tasks (kill_task id progr d);
      t ← vget the_tasks;
      mret (if negb (bool_decide (e = E_NONE)) then make_error_pack e
            else if id =? current_task_id t then make_abort_pack ABORT_KILL else no_var_pack)
  | _ => vpanic
  end.

Definition bf_resume (arglist : Var) (next vdata progr : Z) : V package :=
  match arglist with
  | VList (VInt n :: rest) =>
      let value := match rest with v :: _ => v | [] => zero end in
      d ← vget database;
      now ← vget clock;
      e ← on_tasks (do_resume (task_id_from_num n) value progr d now);
      mret (if negb (bool_decide (e = E_NONE)) then make_error_pack e else no_var_pack)
  | _ => vpanic
  end.

Definition bf_output_delimiters (arglist : Var) (next vdata progr : Z) : V package :=
  match arglist with
  | VList (VObj player :: _) =>
      d ← vget database;
      if negb (is_wizard d progr) && negb (progr =? player) then mret (make_error_pack E_PERM)
      else
        t ← vget the_tasks;
        tq ← lift (find_tqueue player t);
        match tq with
        | None => mret (make_error_pack E_INVARG)
        | Some tq =>
            q ← get_tq tq;
            mret (if tq_connected q
                  then make_var_pack (VList [VStr (default [] (tq_output_prefix q)); VStr (default [] (tq_output_suffix q))])
                  else make_error_pack E_INVARG)
        end
  | _ => vpanic
  end.

Definition bf_force_input (arglist : Var) (next vdata progr : Z) : V package :=
  match arglist with
  | VList (VObj conn :: VStr line :: rest) =>
      let at_front := match rest with v :: _ => is_true v | [] => false end in
      d ← vget database;
      if negb (is_wizard d progr) && negb (progr =? conn) then mret (make_error_pack E_PERM)
      else
        tq ← on_tasks (find_or_create_tqueue conn);
        enqueue_input_task tq line at_front false;;
        mret no_var_pack
  | _ => vpanic
  end.

Definition bf_flush_input (arglist : Var) (next vdata progr : Z) : V package :=
  match arglist with
  | VList (VObj conn :: rest) =>
      let show_messages := match rest with v :: _ => is_true v | [] => false end in
      d ← vget database;
      if negb (is_wizard d progr) && negb (progr =? conn) then mret (make_error_pack E_PERM)
      else
        tq ← on_tasks (find_or_create_tqueue conn);
        flush_input tq show_messages;;
        mret no_var_pack
  | _ => vpanic
  end.

Section Listing.
(** Where a program is (decompile.c), and the sizes that queued_tasks() shows. *)
Context (find_line_number : Program -> Z -> Z -> Z) (forked_task_bytes : forked_task -> Z) (suspended_task_bytes : vm -> Z).

Definition OLD_CLOCK_TICKS : Z := 15000.
Definition list_for_forked_task (ft : forked_task) : Var :=
  let a := ft_a ft in
  VList [VInt (ft_id ft); VInt (ft_start_time ft); VInt 0; VInt OLD_CLOCK_TICKS; VObj (a_progr a); VObj (a_vloc a);
         VStr (a_verbname a); VInt (find_line_number (ft_program ft) (ft_f_index ft) 0); VObj (a_this a);
         VInt (forked_task_bytes ft)].
Definition list_for_vm (the_vm : vm) (second fifth : Var) : option Var :=
  a ← top_activ the_vm;
  line ← suspended_lineno_of_vm find_line_number the_vm;
  Some (VList [VInt (vm_task_id the_vm); second; VInt 0; VInt OLD_CLOCK_TICKS; fifth; VObj (a_vloc a);
               VStr (a_verbname a); VInt line; VObj (a_this a); VInt (suspended_task_bytes the_vm)]).
Definition list_for_suspended_task (st : suspended_task) : option Var :=
  progr ← progr_of_cur_verb (st_the_vm st);
  list_for_vm (st_the_vm st) (VInt (st_start_time st)) (VObj progr).
Definition list_for_reading_task (player : Z) (the_vm : vm) : option Var := list_for_vm the_vm (VInt (-1)) (VObj player).

Definition list_for_bg (show_all : bool) (progr : Z) (l : list bg_task) : option (list Var) :=
  (@concat Var) <$> mapM (fun x =>
    p ← task_progr x;
    if show_all || (p =? progr) then
      v ← (match x with Forked ft => Some (list_for_forked_task ft) | Suspended st => list_for_suspended_task st end);
      Some [v]
    else Some []) l.
Definition list_for_queue (show_all : bool) (progr : Z) (bg : bool) (q : tqueue) : option (list Var) :=
  reading ← (match tq_reading q with
             | Some the_vm =>
                 if show_all || (tq_player q =? progr)
                 then v ← list_for_reading_task (tq_player q) the_vm; Some [v] else Some []
             | None => Some []
             end);
  rest ← (if bg then list_for_bg show_all progr (tq_bg q) else Some []);
  Some (reading ++ rest).
(** The list is made in one pass; the code counts first. *)
Definition bf_queued_tasks (arglist : Var) (next vdata progr : Z) : V package :=
  d ← vget database;
  t ← vget the_tasks;
  let show_all := is_wizard d progr in
  idle ← lift (queues t (idle_tqueues t));
  active ← lift (queues t (active_tqueues t));
  a ← lift (mapM (fun '(_, q) => list_for_queue show_all progr false q) idle);
  b ← lift (mapM (fun '(_, q) => list_for_queue show_all progr true q) active);
  c ← lift (list_for_bg show_all progr (waiting_tasks t));
  mret (make_var_pack (VList (concat a ++ concat b ++ c))).

Definition bf_task_stack (bf_table : list bi_func) (arglist : Var) (next vdata progr : Z) : V package :=
  match arglist with
  | VList (VInt n :: rest) =>
      let line_numbers_too := match rest with v :: _ => is_true v | [] => false end in
      t ← vget the_tasks;
      d ← vget database;
      the_vm ← lift (find_suspended_task (task_id_from_num n) t);
      match the_vm with
      | None => mret (make_error_pack E_INVARG)
      | Some the_vm =>
          owner ← lift (progr_of_cur_verb the_vm);
          mret (if negb (is_wizard d progr) && negb (progr =? owner) then make_error_pack E_PERM
                else make_var_pack (VList (make_stack_list bf_table find_line_number (vm_activ_stack the_vm) O true
                                             (vm_root_activ_vector the_vm) line_numbers_too)))
      end
  | _ => vpanic
  end.
End Listing.
