(* ===== verification/Run.v ===== *)
(** * The interpreter (run() of execute.c)

    One definition per instruction.  The local variables of [run()] are those of
    the running activation: [bv] is its [a_pc], [error_bv] its [a_error_pc], [rts]
    its value stack.  An instruction goes on, leaves with [goto next_opcode], or
    makes [run()] return. *)

From Stdlib Require Import Floats.SpecFloat.
From S2P Require Import Prelude Utf CString Values Functions Lists ListBuiltins Numbers Db Verbs Attributes Properties PropBuiltins Ast Activation InputQueue Tasks Machine.
From S2P Require Decompile.

(** ** Definitions *)

Inductive ctrl (A : Type) := Go (a : A) | Next_opcode | Return (o : outcome) (result : option Var).
Arguments Go {A} a.
Arguments Next_opcode {A}.
Arguments Return {A} o result.

Definition X (A : Type) : Type := State -> option (ctrl A * State).
#[export] Instance X_ret : MRet X := fun A a s => Some (Go a, s).
#[export] Instance X_bind : MBind X := fun A B f m s =>
  match m s with
  | Some (Go a, s) => f a s
  | Some (Next_opcode, s) => Some (Next_opcode, s)
  | Some (Return o r, s) => Some (Return o r, s)
  | None => None
  end.

Definition xpanic {A} : X A := fun _ => None.
Definition goto_next_opcode {A} : X A := fun s => Some (Next_opcode, s).
Definition return_ {A} (o : outcome) (result : option Var) : X A := fun s => Some (Return o result, s).
(** A computation on the machine. *)
Definition call {A} (v : V A) : X A := fun s => match v s with Some (a, s) => Some (Go a, s) | None => None end.
(** A value that may not be there. *)
Definition need {A} (x : option A) : X A := fun s => match x with Some a => Some (Go a, s) | None => None end.

(** *** The value stack and the variables *)

Definition RUN_ACTIV : X activation := call run_activ.
Definition UPDATE (f : activation -> activation) : X unit := call (update_run_activ f).

Definition POP : X Var :=
  a ← RUN_ACTIV;
  match a_rt_stack a with [] => xpanic | v :: st => UPDATE (set_rt_stack st);; mret v end.
Definition PUSH (v : Var) : X unit := call (push_value v).
Definition TOP_RT_VALUE : X Var := a ← RUN_ACTIV; need (a_rt_stack a !! 0%nat).
Definition NEXT_TOP_RT_VALUE : X Var := a ← RUN_ACTIV; need (a_rt_stack a !! 1%nat).
(** [TOP_RT_VALUE = v] and [NEXT_TOP_RT_VALUE = v]. *)
Definition set_TOP (n : nat) (v : Var) : X unit :=
  a ← RUN_ACTIV; _ ← need (a_rt_stack a !! n); UPDATE (set_rt_stack (<[n := v]> (a_rt_stack a))).

Definition get_var (id : Z) : X Var := a ← RUN_ACTIV; need (env_get (a_rt_env a) id).
Definition put_var (id : Z) (v : Var) : X unit :=
  a ← RUN_ACTIV; env ← need (set_rt_env_var (a_rt_env a) id v); UPDATE (set_rt_env env).

(** *** Reading the code *)

(** [bc] of LOAD_STATE_VARIABLES. *)
Definition bytecodes : X Bytecodes :=
  s ← call (vget (fun s => s));
  a ← RUN_ACTIV;
  if negb (top_activ_stack s =? 0) || (root_activ_vector s =? MAIN_VECTOR)
  then mret (p_main_vector (a_prog a))
  else need (if root_activ_vector s <? 0 then None else p_fork_vectors (a_prog a) !! Z.to_nat (root_activ_vector s)).

(** [bv[i]] *)
Definition bv_at (i : Z) : X Z := bc ← bytecodes; a ← RUN_ACTIV; need (Decompile.vector_byte bc (a_pc a + i)).
Definition JUMP (label : Z) : X unit := UPDATE (set_pc label).
Definition SKIP_BYTES (n : Z) : X unit := UPDATE (fun a => set_pc (a_pc a + n) a).
Definition next_byte : X Z := b ← bv_at 0; SKIP_BYTES 1;; mret b.
Definition READ_BYTES (nb : Z) : X Z :=
  SKIP_BYTES nb;;
  if nb =? 1 then bv_at (-1)
  else if nb =? 2 then b2 ← bv_at (-2); b1 ← bv_at (-1); mret (Z.shiftl b2 8 + b1)
  else
    b4 ← bv_at (-4); b3 ← bv_at (-3); b2 ← bv_at (-2); b1 ← bv_at (-1);
    mret (uwrap 32 (Z.shiftl b4 24 + Z.shiftl b3 16 + Z.shiftl b2 8 + b1)).
Definition READ_LABEL : X Z := bc ← bytecodes; READ_BYTES (Decompile.nb_label bc).
Definition READ_VAR_NAME : X Z := bc ← bytecodes; READ_BYTES (Decompile.nb_var_name bc).
Definition READ_LITERAL : X Z := bc ← bytecodes; READ_BYTES (Decompile.nb_literal bc).
Definition READ_FORK : X Z := bc ← bytecodes; READ_BYTES (Decompile.nb_fork bc).
Definition READ_STACK : X Z := bc ← bytecodes; READ_BYTES (Decompile.nb_stack bc).

Definition num (b : bool) : Var := VInt (if b then 1 else 0).
Definition int_or_float (v : Var) : bool := match v with VInt _ | VFloat _ => true | _ => false end.
Definition list_or_string (v : Var) : bool := match v with VList _ | VStr _ => true | _ => false end.

Definition rangeref_fails (length_ from after : Z) : bool :=
  negb ((after <=? from) || ((1 <=? from) && (after <=? length_ + 1))).
(** The sum is of type [size_t]. *)
Definition rangeset_error (max blen ilen from after : Z) : error :=
  if negb ((1 <=? after) && ((from <=? 0) || (from <=? blen + 1))) then E_RANGE
  else if max <? size_t ((if 1 <? from then from - 1 else 0) + ilen + (if after <=? blen then blen - after + 1 else 0))
  then E_QUOTA else E_NONE.

(** A shift by the whole width is undefined. *)
Definition HIGHONES (c : Z) : option Z := if c =? 0 then None else Some (Num (uwrap 64 (Z.shiftl (2 ^ 64 - 1) (64 - c)))).
Definition LOWONES (c : Z) : option Z := h ← HIGHONES c; Some (Z.lnot h).
Definition LOGSHIFTR (a b : Z) : option Z := l ← LOWONES b; Some (Z.land (Num (Z.shiftr (uwrap 64 a) b)) l).
Definition SHIFTR (a b : Z) : option Z :=
  l ← LOGSHIFTR a b; h ← (if a <? 0 then HIGHONES b else Some 0); Some (Z.lxor l h).

(** [--ticks_remaining]: the counter is an [int], which wraps. *)
Definition one_tick (t : Z) : Z := if t =? INT32_MIN then INT32_MAX else t - 1.

Section Run.
(** What is outside: see [Machine]; the C library's [fmod] and [pow]; whether the
    time is up when so many ticks are left. *)
Context (null : Program) (same : Verbdef -> bool) (bf_table : list bi_func).
Context (find_line_number : Program -> Z -> Z -> Z) (unwind_fuel : nat).
Context (fmod : spec_float -> spec_float -> spec_float) (pow : spec_float -> spec_float -> spec_float * bool).
Context (task_timed_out : Z -> bool).

(** *** Errors *)

Definition UNWIND (why : Finally_Reason) (value : Var) : X (option outcome) :=
  call (unwind_stack null same bf_table find_line_number unwind_fuel why value).
Definition ABORT {A} (reason : abort_reason) : X A :=
  call (abort_task null same bf_table find_line_number unwind_fuel reason);; return_ OUTCOME_ABORTED None.
Definition RAISE (code : Var) (msg : bytes) (value : Var) : X unit :=
  r ← call (raise_error null same bf_table find_line_number unwind_fuel code msg value);
  match r with Some _ => return_ OUTCOME_ABORTED None | None => mret tt end.

Definition RAISE_ERROR (the_err : error) : X unit :=
  a ← RUN_ACTIV;
  if a_debug a then RAISE (VErr the_err) (unparse_error the_err) zero;; goto_next_opcode else mret tt.
Definition PUSH_ERROR (the_err : error) : X unit := RAISE_ERROR the_err;; PUSH (VErr the_err).
Definition PUSH_ERROR_UNLESS_QUOTA (the_err : error) : X unit :=
  o ← call (vget options);
  if bool_decide (the_err = E_QUOTA) && negb (SVO_MAX_CONCAT_CATCHABLE o) then ABORT ABORT_SECONDS
  else PUSH_ERROR the_err.
(** The ends of many instructions. *)
Definition push_or_error (ans : Var) : X unit := match ans with VErr e => PUSH_ERROR e | _ => PUSH ans end.
Definition push_or_error_unless_quota (ans : Var) : X unit :=
  match ans with VErr e => PUSH_ERROR_UNLESS_QUOTA e | _ => PUSH ans end.

(** *** Jumps and loops *)

Definition do_test : X unit :=
  cond ← POP;
  if negb (is_true cond) then lab ← READ_LABEL; JUMP lab
  else bc ← bytecodes; SKIP_BYTES (Decompile.nb_label bc).

Definition op_jump : X unit := lab ← READ_LABEL; JUMP lab.

Definition op_for_list : X unit :=
  id ← READ_VAR_NAME;
  lab ← READ_LABEL;
  count ← TOP_RT_VALUE;
  list_ ← NEXT_TOP_RT_VALUE;
  match list_ with
  | VList l =>
      c ← need (match count with VInt c => Some c | _ => None end);
      if llen l <? c then _ ← POP; _ ← POP; JUMP lab
      else
        v ← need (aread l c);
        put_var id v;;
        set_TOP 0 (VInt (Num (c + 1)))
  | _ => RAISE_ERROR E_TYPE;; _ ← POP; _ ← POP; JUMP lab
  end.

Definition op_for_range : X unit :=
  id ← READ_VAR_NAME;
  lab ← READ_LABEL;
  to ← TOP_RT_VALUE;
  from ← NEXT_TOP_RT_VALUE;
  match from, to with
  | VInt f, VInt t =>
      if t <? f then _ ← POP; _ ← POP; JUMP lab
      else
        put_var id from;;
        if f <? NUM_MAX then set_TOP 1 (VInt (f + 1)) else set_TOP 0 (VInt (t - 1))
  | VObj f, VObj t =>
      if t <? f then _ ← POP; _ ← POP; JUMP lab
      else
        put_var id from;;
        if f <? NUM_MAX then set_TOP 1 (VObj (f + 1)) else set_TOP 0 (VObj (t - 1))
  | _, _ => RAISE_ERROR E_TYPE;; _ ← POP; _ ← POP; JUMP lab
  end.

(** *** Values and lists *)

Definition op_pop : X unit := _ ← POP; mret tt.

Definition op_imm : X unit :=
  bc ← bytecodes;
  b ← bv_at (Decompile.nb_literal bc);
  if b =? OP_POP then SKIP_BYTES (Decompile.nb_literal bc + 1)
  else
    slot ← READ_LITERAL;
    a ← RUN_ACTIV;
    v ← need (p_literals (a_prog a) !! Z.to_nat slot);
    PUSH v.

Definition op_make_empty_list : X unit := PUSH (VList []).

Definition op_list_add_tail : X unit :=
  o ← call (vget options);
  tail ← POP;
  list_ ← POP;
  match list_ with
  | VList l =>
      if SVO_MAX_LIST_CONCAT o <=? llen l then PUSH_ERROR_UNLESS_QUOTA E_QUOTA
      else r ← need (listappend false l tail); PUSH (VList r)
  | _ => PUSH_ERROR_UNLESS_QUOTA E_TYPE
  end.

Definition op_list_append : X unit :=
  o ← call (vget options);
  tail ← POP;
  list_ ← POP;
  match tail, list_ with
  | VList t, VList l =>
      if SVO_MAX_LIST_CONCAT o <? llen l + llen t then PUSH_ERROR_UNLESS_QUOTA E_QUOTA
      else r ← need (listconcat l t); PUSH (VList r)
  | _, _ => PUSH_ERROR_UNLESS_QUOTA E_TYPE
  end.

Definition op_indexset : X unit :=
  value ← POP;
  index ← POP;
  list_ ← POP;
  match index, list_ with
  | VInt i, VList l =>
      if i <? 1 then PUSH_ERROR E_RANGE
      else if llen l <? i then PUSH_ERROR E_RANGE
      else r ← need (listset l value i); PUSH (VList r)
  | VInt i, VStr s =>
      if i <? 1 then PUSH_ERROR E_RANGE
      else
        '(from, after) ← need (utf_byte_range s (i, Num (i + 1)));
        match value with
        | VStr v =>
            if Z.of_nat (length s) <? uwrap 64 from then PUSH_ERROR E_RANGE
            else if negb (Z.of_nat (length v) =? clearance_utf (byte_at v 0)) then PUSH_ERROR E_INVARG
            else r ← need (strrangeset s from after v); PUSH (VStr r)
        | _ => PUSH_ERROR E_TYPE
        end
  | _, _ => PUSH_ERROR E_TYPE
  end.

Definition op_make_singleton_list : X unit := v ← POP; PUSH (VList [v]).
Definition op_check_list_for_splice : X unit :=
  v ← TOP_RT_VALUE;
  match v with VList _ => mret tt | _ => _ ← POP; PUSH_ERROR E_TYPE end.
Definition op_put_temp : X unit := v ← TOP_RT_VALUE; UPDATE (set_temp v).
Definition op_push_temp : X unit := a ← RUN_ACTIV; PUSH (a_temp a);; UPDATE (set_temp VNone).

(** *** Operators *)

Definition op_eq (ne : bool) : X unit :=
  rhs ← POP;
  lhs ← POP;
  b ← need (equality rhs lhs false);
  PUSH (num (xorb ne b)).

(** [finish_comparison]: [a <= b], or its negation. *)
Definition compare_le (not : bool) (a b : Var) : option Var :=
  if int_or_float a && int_or_float b then numeric_lt_or_eq not a b
  else
    match a, b with
    | VObj x, VObj y => Some (num (xorb not (x <=? y)))
    | VErr x, VErr y => Some (num (xorb not (error_value x <=? error_value y)))
    | VStr x, VStr y => Some (num (xorb not (mystrcasecmp x y <=? 0)))
    | VList _, VList _ => Some (VErr E_TYPE)
    | _, _ => if bool_decide (type_of a = type_of b) then None else Some (VErr E_TYPE)
    end.
Definition op_compare (op : Z) : X unit :=
  if (op =? OP_LE) || (op =? OP_GT) then
    b ← POP; a ← POP; ans ← need (compare_le (negb (op =? OP_LE)) a b); push_or_error ans
  else
    a ← POP; b ← POP; ans ← need (compare_le (negb (op =? OP_GE)) a b); push_or_error ans.

Definition op_in : X unit :=
  rhs ← POP;
  lhs ← POP;
  match rhs with
  | VList l => i ← need (ismember lhs l false); PUSH (VInt i)
  | _ => PUSH_ERROR E_TYPE
  end.

Definition op_arith (op : Z) : X unit :=
  rhs ← POP;
  lhs ← POP;
  ans ← need (if int_or_float lhs && int_or_float rhs then
                if op =? OP_MULT then do_multiply lhs rhs
                else if op =? OP_MINUS then do_subtract lhs rhs
                else if op =? OP_DIV then do_divide lhs rhs
                else do_modulus fmod lhs rhs
              else Some (VErr E_TYPE));
  push_or_error ans.

Definition op_add : X unit :=
  o ← call (vget options);
  rhs ← POP;
  lhs ← POP;
  ans ← need (match lhs, rhs with
              | VStr l, VStr r =>
                  let flen := int (int (Z.of_nat (length l)) + Z.of_nat (length r)) in
                  Some (if SVO_MAX_STRING_CONCAT o <? flen then VErr E_QUOTA else VStr (l ++ r))
              | _, _ => if int_or_float lhs && int_or_float rhs then do_add lhs rhs else Some (VErr E_TYPE)
              end);
  push_or_error_unless_quota ans.

Definition op_logic (op : Z) : X unit :=
  lab ← READ_LABEL;
  lhs ← TOP_RT_VALUE;
  if ((op =? OP_AND) && negb (is_true lhs)) || ((op =? OP_OR) && is_true lhs) then JUMP lab
  else _ ← POP; mret tt.

Definition op_not : X unit := arg ← POP; PUSH (num (negb (is_true arg))).
Definition op_unary_minus : X unit :=
  arg ← POP;
  match arg with
  | VInt n => PUSH (VInt (Num (- n)))
  | VFloat f => PUSH (VFloat (SFopp f))
  | _ => PUSH_ERROR E_TYPE
  end.

(** *** Indexing *)

Definition op_ref : X unit :=
  index ← POP;
  list_ ← POP;
  match index, list_ with
  | VInt i, VList l =>
      if i <? 1 then PUSH_ERROR E_RANGE
      else if llen l <? i then PUSH_ERROR E_RANGE
      else v ← need (aread l i); PUSH v
  | VInt i, VStr s =>
      if i <? 1 then PUSH_ERROR E_RANGE
      else
        bindex ← need (utf_byte_index s i);
        if Z.of_nat (length s) <? uwrap 64 bindex then PUSH_ERROR E_RANGE
        else r ← need (substr s bindex (bindex + clearance_utf (byte_at s (Z.to_nat (bindex - 1))))); PUSH (VStr r)
  | _, _ => PUSH_ERROR E_TYPE
  end.

Definition op_push_ref : X unit :=
  index ← TOP_RT_VALUE;
  list_ ← NEXT_TOP_RT_VALUE;
  match index, list_ with
  | VInt i, VList l =>
      if (i <=? 0) || (llen l <? i) then PUSH_ERROR E_RANGE else v ← need (aread l i); PUSH v
  | _, _ => PUSH_ERROR E_TYPE
  end.

Definition op_range_ref : X unit :=
  to ← POP;
  from ← POP;
  base ← POP;
  match to, from, base with
  | VInt t, VInt f, VList l =>
      if rangeref_fails (llen l) f (Num (t + 1)) then PUSH_ERROR E_RANGE
      else r ← need (sublist l f (Num (t + 1))); PUSH (VList r)
  | VInt t, VInt f, VStr s =>
      '(bfrom, bafter) ← need (utf_byte_range s (f, Num (t + 1)));
      if rangeref_fails (Z.of_nat (length s)) bfrom bafter then PUSH_ERROR E_RANGE
      else r ← need (substr s bfrom bafter); PUSH (VStr r)
  | _, _, _ => PUSH_ERROR E_TYPE
  end.

(** *** Variables *)

Definition op_g_put : X unit := id ← READ_VAR_NAME; v ← TOP_RT_VALUE; put_var id v.
Definition push_variable (id : Z) : X unit :=
  value ← get_var id;
  match value with VNone => PUSH_ERROR E_VARNF | _ => PUSH value end.
Definition op_g_push : X unit := id ← READ_VAR_NAME; push_variable id.
Definition op_push_n (op : Z) : X unit := push_variable (PUSH_n_INDEX op).
Definition op_put_n (op : Z) : X unit :=
  b ← bv_at 0;
  if b =? OP_POP then v ← POP; put_var (PUT_n_INDEX op) v;; SKIP_BYTES 1
  else v ← TOP_RT_VALUE; put_var (PUT_n_INDEX op) v.
Definition op_optim_num (op : Z) : X unit := PUSH (VInt (OPCODE_TO_OPTIM_NUM op)).

(** *** Properties *)

(** The flags of [SVO_PROTECT] are those of [BP_NAME] and on. *)
Definition protect_index (bi : bi_prop) : option nat :=
  match bi with
  | BP_NONE => None
  | BP_NAME => Some 0 | BP_OWNER => Some 1 | BP_PROGRAMMER => Some 2 | BP_WIZARD => Some 3
  | BP_R => Some 4 | BP_W => Some 5 | BP_F => Some 6 | BP_LOCATION => Some 7 | BP_CONTENTS => Some 8
  end%nat.
Definition bi_prop_protected (prop : bi_prop) (progr : Z) (d : db) (o : option_cache) : option bool :=
  if is_wizard d progr then Some false else i ← protect_index prop; SVO_PROTECT o !! i.

(** What [obj.propname] is for the programmer [progr]: a value or an error. *)
Definition fetch_prop (obj : Z) (propname : bytes) (progr : Z) (d : db) (o : option_cache) : option (error + Var) :=
  '(h, prop) ← db_find_property d obj propname true;
  if is_null h then Some (inl E_PROPNF)
  else
    denied ← (if is_built_in h then bi_prop_protected (built_in h) progr d o
              else ok ← db_property_allows d h progr PF_READ; Some (negb ok));
    if denied : bool then Some (inl E_PERM) else v ← prop; Some (inr v).

Definition get_prop (obj propname : Var) : X unit :=
  a ← RUN_ACTIV;
  d ← call (vget database);
  o ← call (vget options);
  match propname, obj with
  | VStr propname, VObj obj =>
      if negb (valid d obj) then PUSH_ERROR E_INVIND
      else
        r ← need (fetch_prop obj propname (a_progr a) d o);
        match r with inl e => PUSH_ERROR e | inr prop => PUSH prop end
  | _, _ => PUSH_ERROR E_TYPE
  end.
Definition op_get_prop : X unit := propname ← POP; obj ← POP; get_prop obj propname.
Definition op_push_get_prop : X unit := propname ← TOP_RT_VALUE; obj ← NEXT_TOP_RT_VALUE; get_prop obj propname.

(** The checks of OP_PUT_PROP: the handle to write through and whether the wizard
    bit changes, or an error. *)
Definition put_prop_check (obj : Z) (propname : bytes) (rhs : Var) (progr : Z) (d : db) (o : option_cache)
    : option (error + db_prop_handle * bool) :=
  '(h, _) ← db_find_property d obj propname false;
  let bi_prop_protected := bi_prop_protected (built_in h) progr d o in
  let err (e : error) : option (error + db_prop_handle * bool) := Some (inl e) in
  let ok : option (error + db_prop_handle * bool) := Some (inr (h, false)) in
  let wiz := is_wizard d progr in
  if is_null h then err E_PROPNF
  else
    match built_in h with
    | BP_NONE => allowed ← db_property_allows d h progr PF_WRITE; if allowed : bool then ok else err E_PERM
    | BP_NAME =>
        match rhs with
        | VStr _ =>
            if wiz then ok
            else if is_user d obj then err E_PERM
            else
              p ← bi_prop_protected;
              owner ← db_object_owner d obj;
              if (p : bool) || negb (progr =? owner) then err E_PERM else ok
        | _ => err E_TYPE
        end
    | BP_OWNER => match rhs with VObj _ => if wiz then ok else err E_PERM | _ => err E_TYPE end
    | BP_PROGRAMMER => if wiz then ok else err E_PERM
    | BP_WIZARD =>
        if negb wiz then err E_PERM
        else Some (inr (h, negb (Bool.eqb (negb (is_true rhs)) (negb (is_wizard d obj)))))
    | BP_R | BP_W | BP_F =>
        if wiz then ok
        else
          p ← bi_prop_protected;
          owner ← db_object_owner d obj;
          if (p : bool) || negb (progr =? owner) then err E_PERM else ok
    | BP_LOCATION | BP_CONTENTS => err E_PERM
    end.

Definition log_wizarded (obj progr : Z) : V unit :=
  d ← vget database;
  oklog ((if is_wizard d obj then BS "DE" else []) ++ BS "WIZARDED: #" ++ print_num obj ++
         BS " by programmer #" ++ print_num progr);;
  l ← print_error_backtrace bf_table find_line_number
        (if is_wizard d obj then BS "Wizard bit unset." else BS "Wizard bit set.");
  (fix go l := match l with [] => mret tt | line :: l => oklog line;; go l end) l.

Definition op_put_prop : X unit :=
  rhs ← POP;
  propname ← POP;
  obj ← POP;
  a ← RUN_ACTIV;
  d ← call (vget database);
  o ← call (vget options);
  match obj, propname with
  | VObj obj, VStr propname =>
      if negb (valid d obj) then PUSH_ERROR E_INVIND
      else
        r ← need (put_prop_check obj propname rhs (a_progr a) d o);
        match r with
        | inl e => PUSH_ERROR e
        | inr (h, log) =>
            (if log : bool then call (log_wizarded obj (a_progr a)) else mret tt);;
            d ← need (db_set_property_value d h rhs);
            call (vmodify (with_database d));;
            PUSH rhs
        end
  | _, _ => PUSH_ERROR E_TYPE
  end.

(** *** Forks and calls *)

(** The program counter that the forked task keeps is never used. *)
Definition op_fork (op : Z) : X unit :=
  time ← POP;
  f_index ← READ_FORK;
  id ← (if op =? OP_FORK_WITH_ID then READ_VAR_NAME else mret (-1));
  match time with
  | VInt t =>
      if t <? 0 then RAISE_ERROR E_INVARG
      else
        a ← RUN_ACTIV;
        s ← call (vget (fun s => s));
        '(ts, rn, env, e) ← need (enqueue_forked_task2 a f_index t id (database s) (clock s) (random s) (the_tasks s));
        call (vmodify (with_tasks ts rn));;
        UPDATE (set_rt_env env);;
        if bool_decide (e = E_NONE) then mret tt else RAISE_ERROR e
  | _ => RAISE_ERROR E_TYPE
  end.

Definition op_call_verb : X unit :=
  args ← POP;
  verb ← POP;
  obj ← POP;
  d ← call (vget database);
  err ← (match args, verb, obj with
         | VList _, VStr verb, VObj class =>
             if negb (valid d class) then mret E_INVIND else call (call_verb2 null same class verb args false)
         | _, _, _ => mret E_TYPE
         end);
  if bool_decide (err = E_NONE) then mret tt else PUSH_ERROR err.

Definition op_return (op : Z) : X unit :=
  ret_val ← (if op =? OP_RETURN then POP else mret zero);
  r ← UNWIND FIN_RETURN ret_val;
  match r with
  | Some outcome => return_ outcome (if bool_decide (outcome = OUTCOME_DONE) then Some ret_val else None)
  | None => mret tt
  end.

Definition op_bi_func_call : X unit :=
  func_id ← READ_BYTES 1;
  args ← POP;
  match args with
  | VList _ =>
      a ← RUN_ACTIV;
      p ← call (call_bi_func null same bf_table func_id args 1 (a_progr a) 0);
      match p with
      | BI_RETURN ret => PUSH ret
      | BI_RAISE code msg value =>
          a ← RUN_ACTIV;
          if a_debug a then RAISE code msg value else PUSH code
      | BI_CALL pc datum => UPDATE (set_bi_func pc func_id datum)
      | BI_SUSPEND proc datum =>
          e ← call (suspend_task proc datum);
          if bool_decide (e = E_NONE) then return_ OUTCOME_BLOCKED None else PUSH_ERROR e
      | BI_ABORT why => ABORT why
      end
  | _ => PUSH_ERROR E_TYPE
  end.

(** *** Extended instructions *)

Definition eop_rangeset : X unit :=
  o ← call (vget options);
  value ← POP;
  to ← POP;
  from ← POP;
  base ← POP;
  match to, from, base, value with
  | VInt t, VInt f, VList b, VList v =>
      let e := rangeset_error (SVO_MAX_LIST_CONCAT o) (llen b) (llen v) f (Num (t + 1)) in
      if bool_decide (e = E_NONE) then r ← need (listrangeset b f (Num (t + 1)) v); PUSH (VList r)
      else PUSH_ERROR_UNLESS_QUOTA e
  | VInt t, VInt f, VStr b, VStr v =>
      '(bfrom, bafter) ← need (utf_byte_range b (f, Num (t + 1)));
      let e := rangeset_error (SVO_MAX_STRING_CONCAT o) (Z.of_nat (length b)) (Z.of_nat (length v)) bfrom bafter in
      if bool_decide (e = E_NONE) then r ← need (strrangeset b bfrom bafter v); PUSH (VStr r)
      else PUSH_ERROR_UNLESS_QUOTA e
  | _, _, _, _ => PUSH_ERROR_UNLESS_QUOTA E_TYPE
  end.

(** [base_rt_stack[i]] *)
Definition stack_at (i : Z) : X Var :=
  a ← RUN_ACTIV;
  let n := Z.of_nat (length (a_rt_stack a)) in
  if i <? n then need (a_rt_stack a !! Z.to_nat (n - 1 - i)) else xpanic.
Definition eop_length : X unit :=
  i ← READ_STACK;
  item ← stack_at i;
  match item with
  | VStr s => n ← need (memo_strlen_utf s); PUSH (VInt n)
  | VList l => PUSH (VInt (llen l))
  | _ => PUSH_ERROR E_TYPE
  end.

Definition eop_exp : X unit :=
  rhs ← POP;
  lhs ← POP;
  ans ← need (do_power pow lhs rhs);
  push_or_error ans.

(** The loop over the targets of a scattering assignment: [i] runs to [nargs];
    answers [where]. *)
Fixpoint scatter_loop (n : nat) (i rest nrest nopt_avail offset where_ : Z) (list_ : list Var) : X Z :=
  match n with
  | O => mret where_
  | S n =>
      id ← READ_VAR_NAME;
      label ← READ_LABEL;
      if i =? rest then
        l ← need (sublist list_ i (i + nrest - 1));
        put_var id (VList l);;
        scatter_loop n (i + 1) rest nrest nopt_avail (offset + (nrest - 1)) where_ list_
      else if label =? 0 then
        v ← need (aread list_ (i + offset));
        put_var id v;;
        scatter_loop n (i + 1) rest nrest nopt_avail offset where_ list_
      else if 0 <? nopt_avail then
        v ← need (aread list_ (i + offset));
        put_var id v;;
        scatter_loop n (i + 1) rest nrest (nopt_avail - 1) offset where_ list_
      else
        scatter_loop n (i + 1) rest nrest nopt_avail (offset - 1)
          (if (where_ =? 0) && negb (label =? 1) then label else where_) list_
  end.

Definition eop_scatter : X unit :=
  nargs ← READ_BYTES 1;
  nreq ← READ_BYTES 1;
  rest ← READ_BYTES 1;
  bc ← bytecodes;
  let have_rest := rest <=? nargs in
  let fail (e : error) : X Z :=
    _ ← POP;
    PUSH_ERROR e;;
    SKIP_BYTES (nargs * (Decompile.nb_var_name bc + Decompile.nb_label bc));;
    mret 0 in
  v ← TOP_RT_VALUE;
  where_ ← (match v with
            | VList list_ =>
                let len := int (llen list_) in
                if (len <? nreq) || (negb have_rest && (nargs <? len)) then fail E_ARGS
                else
                  let nrest := if have_rest && (nargs <=? len) then len - nargs + 1 else 0 in
                  scatter_loop (Z.to_nat nargs) 1 rest nrest (len - nreq) 0 0 list_
            | _ => fail E_TYPE
            end);
  done ← READ_LABEL;
  if where_ =? 0 then JUMP done else JUMP where_.

Definition eop_push_label : X unit := n ← READ_LABEL; PUSH (VInt n).
Definition eop_try_finally : X unit := n ← READ_LABEL; PUSH (VFinally n).
Definition eop_catch (eop : Z) : X unit :=
  n ← (if eop =? EOP_CATCH then mret 1 else READ_BYTES 1);
  PUSH (VCatch n).

Fixpoint pop_handlers (n : nat) : X unit :=
  match n with O => mret tt | S n => _ ← POP; _ ← POP; pop_handlers n end.
Definition eop_end_catch (eop : Z) : X unit :=
  v ← (if eop =? EOP_END_CATCH then POP else mret VNone);
  marker ← POP;
  match marker with
  | VCatch n =>
      pop_handlers (Z.to_nat n);;
      (if eop =? EOP_END_CATCH then PUSH v else mret tt);;
      lab ← READ_LABEL; JUMP lab
  | _ => xpanic
  end.

Definition eop_end_finally : X unit :=
  v ← POP;
  match v with
  | VFinally _ => PUSH (VInt (reason_value FIN_FALL_THRU));; PUSH zero
  | _ => xpanic
  end.

(** The reasons that a FINALLY clause can be entered for. *)
Definition reason_of (n : Z) : option Finally_Reason :=
  if n =? 0 then Some FIN_FALL_THRU else if n =? 1 then Some FIN_RAISE else if n =? 2 then Some FIN_UNCAUGHT
  else if n =? 3 then Some FIN_RETURN else if n =? 5 then Some FIN_EXIT else None.
Definition eop_continue : X unit :=
  v ← POP;
  why ← POP;
  match why with
  | VInt n =>
      why ← need (reason_of n);
      match why with
      | FIN_FALL_THRU => mret tt
      | _ => r ← UNWIND why v; match r with Some outcome => return_ outcome None | None => mret tt end
      end
  | _ => xpanic
  end.

Definition eop_while_id : X unit := id ← READ_VAR_NAME; v ← TOP_RT_VALUE; put_var id v;; do_test.

Definition eop_exit (eop : Z) : X unit :=
  bc ← bytecodes;
  (if eop =? EOP_EXIT_ID then SKIP_BYTES (Decompile.nb_var_name bc) else mret tt);;
  stack ← READ_STACK;
  label ← READ_LABEL;
  _ ← UNWIND FIN_EXIT (VList [VInt stack; VInt label]);
  mret tt.

Definition eop_bitwise (eop : Z) : X unit :=
  rhs ← POP;
  lhs ← POP;
  match lhs, rhs with
  | VInt a, VInt b =>
      PUSH (VInt (if eop =? EOP_BITAND then Z.land a b else if eop =? EOP_BITXOR then Z.lxor a b else Z.lor a b))
  | _, _ => PUSH_ERROR E_TYPE
  end.

Definition eop_shift (eop : Z) : X unit :=
  rhs ← POP;
  lhs ← POP;
  match lhs, rhs with
  | VInt a, VInt b =>
      if (b <? 0) || (64 <=? uwrap 64 b) then PUSH_ERROR E_INVARG
      else
        n ← need (if eop =? EOP_SHL then Some (Num (Z.shiftl a b))
                  else if eop =? EOP_SHR then SHIFTR a b else LOGSHIFTR a b);
        PUSH (VInt n)
  | _, _ => PUSH_ERROR E_TYPE
  end.

Definition eop_complement : X unit :=
  arg ← POP;
  match arg with VInt n => PUSH (VInt (Z.lnot n)) | _ => PUSH_ERROR E_TYPE end.

Definition extended_instruction (eop : Z) : X unit :=
  if eop =? EOP_RANGESET then eop_rangeset
  else if eop =? EOP_LENGTH then eop_length
  else if eop =? EOP_EXP then eop_exp
  else if eop =? EOP_SCATTER then eop_scatter
  else if eop =? EOP_PUSH_LABEL then eop_push_label
  else if eop =? EOP_TRY_FINALLY then eop_try_finally
  else if (eop =? EOP_CATCH) || (eop =? EOP_TRY_EXCEPT) then eop_catch eop
  else if (eop =? EOP_END_CATCH) || (eop =? EOP_END_EXCEPT) then eop_end_catch eop
  else if eop =? EOP_END_FINALLY then eop_end_finally
  else if eop =? EOP_CONTINUE then eop_continue
  else if eop =? EOP_WHILE_ID then eop_while_id
  else if (eop =? EOP_EXIT) || (eop =? EOP_EXIT_ID) then eop_exit eop
  else if (eop =? EOP_BITAND) || (eop =? EOP_BITXOR) || (eop =? EOP_BITOR) then eop_bitwise eop
  else if (eop =? EOP_SHL) || (eop =? EOP_SHR) || (eop =? EOP_LSHR) then eop_shift eop
  else if eop =? EOP_COMPLEMENT then eop_complement
  else xpanic.

Definition op_extended : X unit :=
  eop ← next_byte;
  (if COUNT_EOP_TICK eop then call (vmodify (fun s => with_ticks (one_tick (ticks_remaining s)) s)) else mret tt);;
  extended_instruction eop.

(** *** The loop *)

Definition instruction (op : Z) : X unit :=
  if (op =? OP_IF_QUES) || (op =? OP_IF) || (op =? OP_WHILE) || (op =? OP_EIF) then do_test
  else if op =? OP_JUMP then op_jump
  else if op =? OP_FOR_LIST then op_for_list
  else if op =? OP_FOR_RANGE then op_for_range
  else if op =? OP_POP then op_pop
  else if op =? OP_IMM then op_imm
  else if op =? OP_MAKE_EMPTY_LIST then op_make_empty_list
  else if op =? OP_LIST_ADD_TAIL then op_list_add_tail
  else if op =? OP_LIST_APPEND then op_list_append
  else if op =? OP_INDEXSET then op_indexset
  else if op =? OP_MAKE_SINGLETON_LIST then op_make_singleton_list
  else if op =? OP_CHECK_LIST_FOR_SPLICE then op_check_list_for_splice
  else if op =? OP_PUT_TEMP then op_put_temp
  else if op =? OP_PUSH_TEMP then op_push_temp
  else if (op =? OP_EQ) || (op =? OP_NE) then op_eq (op =? OP_NE)
  else if (op =? OP_GT) || (op =? OP_LT) || (op =? OP_GE) || (op =? OP_LE) then op_compare op
  else if op =? OP_IN then op_in
  else if (op =? OP_MULT) || (op =? OP_MINUS) || (op =? OP_DIV) || (op =? OP_MOD) then op_arith op
  else if op =? OP_ADD then op_add
  else if (op =? OP_AND) || (op =? OP_OR) then op_logic op
  else if op =? OP_NOT then op_not
  else if op =? OP_UNARY_MINUS then op_unary_minus
  else if op =? OP_REF then op_ref
  else if op =? OP_PUSH_REF then op_push_ref
  else if op =? OP_RANGE_REF then op_range_ref
  else if op =? OP_G_PUT then op_g_put
  else if op =? OP_G_PUSH then op_g_push
  else if op =? OP_GET_PROP then op_get_prop
  else if op =? OP_PUSH_GET_PROP then op_push_get_prop
  else if op =? OP_PUT_PROP then op_put_prop
  else if (op =? OP_FORK) || (op =? OP_FORK_WITH_ID) then op_fork op
  else if op =? OP_CALL_VERB then op_call_verb
  else if (op =? OP_RETURN) || (op =? OP_RETURN0) || (op =? OP_DONE) then op_return op
  else if op =? OP_BI_FUNC_CALL then op_bi_func_call
  else if op =? OP_EXTENDED then op_extended
  else if IS_PUSH_n op then op_push_n op
  else if IS_PUT_n op then op_put_n op
  else if IS_OPTIM_NUM_OPCODE op then op_optim_num op
  else xpanic.

(** The tests of the limits, which count only some instructions. *)
Definition count_tick (op : Z) : X unit :=
  if COUNT_TICK op then
    call (vmodify (fun s => with_ticks (one_tick (ticks_remaining s)) s));;
    ticks ← call (vget ticks_remaining);
    if ticks <=? 0 then ABORT ABORT_TICKS
    else if task_timed_out ticks then ABORT ABORT_SECONDS
    else mret tt
  else mret tt.

Definition step : X unit :=
  UPDATE (fun a => set_error_pc (a_pc a) a);;
  op ← next_byte;
  count_tick op;;
  instruction op.

(** The loop of [run()]: the outcome and, if it is set, the result. *)
Fixpoint run_loop (fuel : nat) (s : State) : option (outcome * option Var * State) :=
  match fuel with
  | O => None
  | S fuel =>
      match step s with
      | Some (Return o r, s) => Some (o, r, s)
      | Some (_, s) => run_loop fuel s
      | None => None
      end
  end.

Definition run (fuel : nat) (resumption_error : option error) (s : State) : option (outcome * option Var * State) :=
  match resumption_error with
  | None => run_loop fuel s
  | Some e =>
      match (UPDATE (fun a => set_error_pc (a_pc a) a);; PUSH_ERROR e) s with
      | Some (Return o r, s) => Some (o, r, s)
      | Some (_, s) => run_loop fuel s
      | None => None
      end
  end.
End Run.
