(* ===== verification/Interp.v ===== *)
(** * Starting and resuming tasks (execute.c)

    The entry points of the interpreter, and its built-in functions.  Memory for
    activations that is left from earlier tasks is not represented: what C
    takes from there is not read before it is set. *)

From Stdlib Require Import Floats.SpecFloat.
From S2P Require Import Prelude Utf CString Values Streams Functions Lists ListBuiltins Numbers Db Verbs Attributes Properties PropBuiltins Commands Activation InputQueue Tasks Machine TaskQueues Run.

(** ** Definitions *)

(** Configured (options.ac). *)
Definition DEFAULT_BG_SECONDS : Z := 3.
Definition DEFAULT_BG_TICKS : Z := 15000.
Definition DEFAULT_FG_SECONDS : Z := 5.
Definition DEFAULT_FG_TICKS : Z := 30000.
Definition DEFAULT_MAX_STACK_DEPTH : Z := 50.

Definition int_option (name : bytes) (defallt : Z) (d : db) : option Z :=
  v ← get_server_option SYSTEM_OBJECT name d; Some (server_int_option (fun _ => v) name defallt).

(** [current_max_stack_size]; [UNum]. *)
Definition current_max_stack_size (d : db) : option Z :=
  max ← int_option (BS "max_stack_depth") DEFAULT_MAX_STACK_DEPTH d;
  let max := uwrap 64 max in
  Some (if max <? DEFAULT_MAX_STACK_DEPTH then DEFAULT_MAX_STACK_DEPTH else max).
(** Room for no activation at all, or for more than can be asked for, is left
    out: the size in bytes is taken not to exceed an [unsigned]. *)
Definition check_activ_stack_size (max : Z) : V unit := vmodify (fun s => with_root max (root_activ_vector s) s).

(** The time that the task has is part of [task_timed_out]. *)
Definition setup_task_execution_limits (is_fg : bool) : V Z :=
  d ← vget database;
  seconds ← lift (if is_fg then int_option (BS "fg_seconds") DEFAULT_FG_SECONDS d
                  else int_option (BS "bg_seconds") DEFAULT_BG_SECONDS d);
  ticks ← lift (if is_fg then int_option (BS "fg_ticks") DEFAULT_FG_TICKS d
                else int_option (BS "bg_ticks") DEFAULT_BG_TICKS d);
  let seconds := int seconds in
  let ticks := int ticks in
  vmodify (with_ticks (if ticks <? 100 then 100 else ticks));;
  mret (if seconds <? 1 then 1 else seconds).

(** The root: [activ_stack[0]]. *)
Definition root_player : V Z := l ← vget activ_stack; a ← lift (last l); mret (a_player a).

Fixpoint notify_all (player : Z) (l : list Var) : V unit :=
  match l with
  | [] => mret tt
  | VStr line :: l => emit (Notify player line);; notify_all player l
  | _ => vpanic
  end.

Section Interp.
Context (null : Program) (same : Verbdef -> bool) (bf_table : list bi_func).
Context (find_line_number : Program -> Z -> Z -> Z) (unwind_fuel : nat).
Context (fmod : spec_float -> spec_float -> spec_float) (pow : spec_float -> spec_float -> spec_float * bool).
(** The seconds that a task is given, and the ticks that are left. *)
Context (timed_out : Z -> Z -> bool) (run_fuel : nat).

(** *** run_interpreter *)

(** Up to the return of [run()]. *)
Definition interpret (raise : option error) (is_fg : bool) : V (outcome * option Var) :=
  seconds ← setup_task_execution_limits is_fg;
  vmodify (with_handler None zero);;
  vmodify (with_running true);;
  r ← (fun s =>
         match run null same bf_table find_line_number unwind_fuel fmod pow (timed_out seconds) run_fuel raise s with
         | Some (o, r, s) => Some ((o, r), s)
         | None => None
         end);
  vmodify (with_running false);;
  mret r.

(** The traceback, the last of the arguments for the handler, for the player. *)
Definition show_traceback (args : Var) : V unit :=
  match args with
  | VList l =>
      traceback ← lift (last l);
      match traceback with VList lines => player ← root_player; notify_all player lines | _ => vpanic end
  | _ => vpanic
  end.

(** [do_task] and those who call it, for an interpreter that is given. *)
Section Tasks.
Context (run_interpreter : option error -> bool -> V (outcome * option Var)).

(** [a] is the activation that was set up. *)
Definition do_task (prog : Program) (which_vector : Z) (a : activation) (is_fg : bool) : V (outcome * option Var) :=
  bc ← lift (if which_vector =? MAIN_VECTOR then Some (p_main_vector prog)
             else if which_vector <? 0 then None else p_fork_vectors prog !! Z.to_nat which_vector);
  vmodify (fun s => with_root (max_stack_size s) which_vector s);;
  vmodify (with_activ_stack
    [set_temp VNone (set_bi_func 0 0 0 (set_error_pc 0 (set_pc 0
       (alloc_rt_stack (bc_max_stack bc) (set_prog (program_ref prog) a)))))]);;
  run_interpreter None is_fg.

Definition do_server_program_task (this : Z) (verb : bytes) (args : Var) (vloc : Z) (verbname : bytes)
    (program : Program) (progr : Z) (debug : bool) (player : Z) (argstr : bytes) : V (outcome * option Var) :=
  max ← reads_db current_max_stack_size;
  check_activ_stack_size max;;
  env ← lift (fill_in_rt_consts (new_rt_env (Z.of_nat (length (p_var_names program)))) (p_version program));
  env ← lift (set_rt_env_vars env
    [(SLOT_PLAYER, VObj player); (SLOT_CALLER, VObj (-1)); (SLOT_THIS, VObj this); (SLOT_DOBJ, VObj NOTHING);
     (SLOT_IOBJ, VObj NOTHING); (SLOT_DOBJSTR, VStr []); (SLOT_IOBJSTR, VStr []); (SLOT_ARGSTR, VStr argstr);
     (SLOT_PREPSTR, VStr []); (SLOT_VERB, VStr verb); (SLOT_ARGS, args)]);
  do_task program MAIN_VECTOR
    (mkActivation program env [] 0 0 0 0 0 0 VNone this player progr vloc verb verbname debug) true.

Definition do_server_verb_task (this : Z) (verb : bytes) (args : Var) (h : option handle) (player : Z) (argstr : bytes)
    : V (outcome * option Var) :=
  definer ← lift (db_verb_definer h);
  names ← reads_db (fun d => db_verb_names d h);
  program ← reads_db (fun d => db_verb_program null d h);
  owner ← reads_db (fun d => db_verb_owner d h);
  flags ← reads_db (fun d => db_verb_flags d h);
  do_server_program_task this verb args definer names program owner (negb (Z.land flags VF_DEBUG =? 0)) player argstr.
End Tasks.

(** [run_interpreter] without tracebacks in the database. *)
Definition run_interpreter_plain (raise : option error) (is_fg : bool) : V (outcome * option Var) :=
  '(ret, result) ← interpret raise is_fg;
  h ← vget handler;
  args ← vget handler_verb_args;
  (if bool_decide (ret = OUTCOME_ABORTED) && bool_decide (is_Some h) then show_traceback args else mret tt);;
  mret (ret, result).

(** [run_interpreter] with them: an error that was not handled is shown to a verb
    of #0 first. *)
Definition run_interpreter_handled (raise : option error) (is_fg : bool) : V (outcome * option Var) :=
  '(ret, result) ← interpret raise is_fg;
  h ← vget handler;
  args ← vget handler_verb_args;
  match h with
  | Some name =>
      if bool_decide (ret = OUTCOME_ABORTED) then
        h ← writes_db (fun d => db_find_callable_verb same d SYSTEM_OBJECT name);
        done ← (match h with
                | Some _ =>
                    player ← root_player;
                    '(hret, handled) ← do_server_verb_task run_interpreter_plain SYSTEM_OBJECT name args h player [];
                    match hret with
                    | OUTCOME_DONE => v ← lift handled; mret (is_true v)
                    | OUTCOME_BLOCKED => mret true
                    | OUTCOME_ABORTED => mret false
                    end
                | None => mret false
                end);
        (if done : bool then mret tt else show_traceback args);;
        mret (OUTCOME_ABORTED, result)
      else mret (ret, result)
  | None => mret (ret, result)
  end.

Definition run_interpreter (do_db_tracebacks : bool) : option error -> bool -> V (outcome * option Var) :=
  if do_db_tracebacks then run_interpreter_handled else run_interpreter_plain.

(** *** New tasks *)

Definition run_server_program (do_db_tracebacks : bool) := do_server_program_task (run_interpreter do_db_tracebacks).
Definition run_server_verb (do_db_tracebacks : bool) := do_server_verb_task (run_interpreter do_db_tracebacks).

Definition do_input_task (user : Z) (pc : Parsed_Command) (this : Z) (vh : option handle) : V outcome :=
  prog ← reads_db (fun d => db_verb_program null d vh);
  max ← reads_db current_max_stack_size;
  check_activ_stack_size max;;
  owner ← reads_db (fun d => db_verb_owner d vh);
  definer ← lift (db_verb_definer vh);
  names ← reads_db (fun d => db_verb_names d vh);
  flags ← reads_db (fun d => db_verb_flags d vh);
  env ← lift (fill_in_rt_consts (new_rt_env (Z.of_nat (length (p_var_names prog)))) (p_version prog));
  env ← lift (set_rt_env_vars env
    [(SLOT_PLAYER, VObj user); (SLOT_CALLER, VObj user); (SLOT_THIS, VObj this); (SLOT_DOBJ, VObj (pc_dobj pc));
     (SLOT_IOBJ, VObj (pc_iobj pc)); (SLOT_DOBJSTR, VStr (pc_dobjstr pc)); (SLOT_IOBJSTR, VStr (pc_iobjstr pc));
     (SLOT_ARGSTR, VStr (pc_argstr pc)); (SLOT_PREPSTR, VStr (pc_prepstr pc)); (SLOT_VERB, VStr (pc_verb pc));
     (SLOT_ARGS, VList (pc_args pc))]);
  '(ret, _) ← do_task (run_interpreter true) prog MAIN_VECTOR
    (mkActivation prog env [] 0 0 0 0 0 0 VNone this user owner definer (pc_verb pc) names
       (negb (Z.land flags VF_DEBUG =? 0))) true;
  mret ret.

Definition do_forked_task (prog : Program) (rt_env : list Var) (a : activation) (f_id : Z) : V outcome :=
  max ← reads_db current_max_stack_size;
  check_activ_stack_size max;;
  '(ret, _) ← do_task (run_interpreter true) prog f_id (set_rt_env rt_env a) false;
  mret ret.

(** [resume_from_previous_vm] *)
Definition resume_from_previous_vm (the_vm : vm) (v : Var) : V outcome :=
  check_activ_stack_size (vm_max_stack_size the_vm);;
  vmodify (fun s => with_root (max_stack_size s) (vm_root_activ_vector the_vm) s);;
  vmodify (with_activ_stack (vm_activ_stack the_vm));;
  match v with
  | VErr e => '(ret, _) ← run_interpreter true (Some e) false; mret ret
  | _ => push_value v;; '(ret, _) ← run_interpreter true None false; mret ret
  end.

(** [setup_activ_for_eval] *)
Definition setup_activ_for_eval (prog : Program) : V bool :=
  c ← run_activ;
  env ← lift (fill_in_rt_consts (new_rt_env (Z.of_nat (length (p_var_names prog)))) (p_version prog));
  env ← lift (set_rt_env_vars env
    [(SLOT_PLAYER, VObj (a_player c)); (SLOT_CALLER, VObj (a_this c)); (SLOT_THIS, VObj NOTHING);
     (SLOT_DOBJ, VObj NOTHING); (SLOT_IOBJ, VObj NOTHING); (SLOT_DOBJSTR, VStr []); (SLOT_IOBJSTR, VStr []);
     (SLOT_ARGSTR, VStr []); (SLOT_PREPSTR, VStr []); (SLOT_VERB, VStr []); (SLOT_ARGS, VList [])]);
  push_activation
    (alloc_rt_stack (bc_max_stack (p_main_vector prog))
       (mkActivation prog env [] 0 0 0 0 0 0 VNone NOTHING (a_player c) (a_progr c) NOTHING [] (BS "Input to EVAL") true)).

(** *** Built-in functions *)

Section Builtins.
Context (float_g : Z -> spec_float -> bytes) (strtod : bytes -> spec_float).

Fixpoint find_bi_func (t : list bi_func) (name : bytes) (i : Z) : Z :=
  match t with
  | [] => FUNC_NOT_FOUND
  | f :: t => if mystrcasecmp name (fn_name f) =? 0 then i else find_bi_func t name (i + 1)
  end.

(** A call that calls on keeps the number of the function and its data. *)
Definition keep_call (fnum : Z) (p : package) : V package :=
  match p with
  | BI_CALL pc datum => s ← alloc_data (Call_function_data fnum datum); mret (BI_CALL pc s)
  | _ => mret p
  end.
Definition bf_call_function (arglist : Var) (next vdata progr : Z) : V package :=
  if next =? 1 then
    match arglist with
    | VList (VStr fname :: args) =>
        let fnum := find_bi_func bf_table fname 0 in
        if fnum =? FUNC_NOT_FOUND then mret (make_raise_pack E_INVARG (BS "Unknown built-in function") (VStr fname))
        else p ← call_bi_func null same bf_table fnum (VList args) next progr vdata; keep_call fnum p
    | _ => vpanic
    end
  else
    x ← read_data vdata;
    match x with
    | Call_function_data fnum datum =>
        p ← call_bi_func null same bf_table fnum arglist next progr datum;
        free_data vdata;;
        keep_call fnum p
    | _ => vpanic
    end.

(** [value2str]: too long a text is an exception that nothing catches. *)
Definition value2str (cache : option_cache) (v : Var) : option bytes :=
  match v with
  | VStr s => Some s
  | _ => match stream_add_tostr cache float_g strtod (new_stream 0) v with SOk s => Some (stream_contents s) | _ => None end
  end.
Definition bf_raise (arglist : Var) (next vdata progr : Z) : V package :=
  match arglist with
  | VList (code :: rest) =>
      o ← vget options;
      msg ← lift (match rest with VStr msg :: _ => Some msg | [] => value2str o code | _ => None end);
      mret (BI_RAISE code msg (match rest with _ :: value :: _ => value | _ => zero end))
  | _ => vpanic
  end.

Definition bf_suspend (arglist : Var) (next vdata progr : Z) : V package :=
  match arglist with
  | VList [] => mret (BI_SUSPEND enqueue_suspended_task_proc (-1))
  | VList (VInt n :: _) =>
      let seconds := int n in
      mret (if seconds <? 0 then make_error_pack E_INVARG else BI_SUSPEND enqueue_suspended_task_proc seconds)
  | _ => vpanic
  end.

Definition bf_read (arglist : Var) (next vdata progr : Z) : V package :=
  args ← lift (match arglist with VList l => Some l | _ => None end);
  let non_blocking := match args with _ :: v :: _ => is_true v | _ => false end in
  d ← vget database;
  t ← vget the_tasks;
  '(connection, ok) ← (match args with
    | VObj connection :: _ =>
        ok ← lift (if is_wizard d progr then Some true
                   else if negb (valid d connection) then Some false
                   else owner ← db_object_owner d connection; Some (progr =? owner));
        mret (connection, ok)
    | [] =>
        connection ← root_player;
        last ← lift (last_input_task_id connection t);
        mret (connection, is_wizard d progr && (last =? current_task_id t))
    | _ => vpanic
    end);
  if negb ok then mret (make_error_pack E_PERM)
  else if non_blocking then
    r ← read_input_now connection;
    mret (match r with VErr e => make_error_pack e | _ => make_var_pack r end)
  else mret (BI_SUSPEND make_reading_task_proc connection).

Definition bf_ticks_left (arglist : Var) (next vdata progr : Z) : V package :=
  t ← vget ticks_remaining; mret (make_var_pack (VInt t)).

Definition bf_pass (arglist : Var) (next vdata progr : Z) : V package :=
  a ← run_activ;
  e ← call_verb2 null same (a_this a) (a_verb a) arglist true;
  mret (if bool_decide (e = E_NONE) then tail_call_pack else make_error_pack e).

Definition bf_set_task_perms (arglist : Var) (next vdata progr : Z) : V package :=
  match arglist with
  | VList (VObj oid :: _) =>
      d ← vget database;
      if negb (progr =? oid) && negb (is_wizard d progr) then mret (make_error_pack E_PERM)
      else update_run_activ (set_progr oid);; mret no_var_pack
  | _ => vpanic
  end.

Definition bf_caller_perms (arglist : Var) (next vdata progr : Z) : V package :=
  l ← vget activ_stack;
  match l with
  | [] => vpanic
  | [_] => mret (make_var_pack (VObj NOTHING))
  | _ :: c :: _ => mret (make_var_pack (VObj (a_progr c)))
  end.

Definition bf_callers (arglist : Var) (next vdata progr : Z) : V package :=
  match arglist with
  | VList args =>
      s ← vget (fun s => s);
      let line_numbers_too := match args with v :: _ => is_true v | [] => false end in
      mret (make_var_pack (VList (make_stack_list bf_table find_line_number (activ_stack s) O false (root_activ_vector s)
                                    line_numbers_too)))
  | _ => vpanic
  end.
End Builtins.
End Interp.
