(* ===== verification/Scheduler.v ===== *)
(** * The scheduler (tasks.c)

    The tasks that input starts, the programming of verbs with [.program], and
    [run_ready_tasks], which runs one task.  Time stands still while a task
    runs; how long it took is an argument.  The command history of log.c is not
    kept. *)

From Stdlib Require Import Floats.SpecFloat.
From S2P Require Import Prelude Utf CString Values Streams Functions Lists ListBuiltins Numbers Words Db Verbs Attributes Objects Properties PropBuiltins VerbBuiltins Commands Activation InputQueue Tasks Machine TaskQueues Run Interp.

(** ** Definitions *)

Definition with_clock (c : Z) (s : State) : State :=
  let 'mkState l m r t i h ha d o ts _ rn da nd ev := s in mkState l m r t i h ha d o ts c rn da nd ev.

Definition set_current_task (id : Z) : V unit := update_tasks (fun t => Some (set_current_task_id id t)).

(** [get_system_property] and [get_system_object] (utils.c). *)
Definition get_system_property (name : bytes) (d : db) : option Var :=
  if negb (valid d SYSTEM_OBJECT) then Some (VErr E_INVIND)
  else
    '(h, value) ← db_find_property d SYSTEM_OBJECT name true;
    if is_null h then Some (VErr E_PROPNF) else value.
Definition get_system_object (name : bytes) (d : db) : option Z :=
  v ← get_system_property name d; Some (match v with VObj o => o | _ => NOTHING end).

Section Scheduler.
Context (null : Program) (same : Verbdef -> bool) (numeric : bool) (bf_table : list bi_func).
Context (find_line_number : Program -> Z -> Z -> Z) (unwind_fuel : nat).
Context (fmod : spec_float -> spec_float -> spec_float) (pow : spec_float -> spec_float -> spec_float * bool).
Context (timed_out : Z -> Z -> bool) (run_fuel : nat).
(** The parser: the program, if there is one, and its complaints. *)
Context (parse_program : bytes -> option Program * list bytes).

Definition resume (the_vm : vm) (v : Var) : V outcome :=
  resume_from_previous_vm null same bf_table find_line_number unwind_fuel fmod pow timed_out run_fuel the_vm v.

(** *** Programming *)

(** The part of a reference before the colon and the part after it. *)
Fixpoint split_colon (s : bytes) : option (bytes * bytes) :=
  match s with
  | [] => None
  | c :: s => if c =? 58 then Some ([], s) else '(a, b) ← split_colon s; Some (c :: a, b)
  end.

(** Answers the handle, the message and the name of the verb. *)
Definition find_verb_for_programming (player : Z) (verbref : bytes) (d : db) : option (option handle * bytes * bytes) :=
  match split_colon verbref with
  | None | Some (_, []) => Some (None, BS "You must specify a verb; use the format object:verb.", [])
  | Some (obj, vname) =>
      oid ← (match obj with
             | c :: name => if c =? 36 then get_system_object name d else match_object obj d player
             | [] => match_object obj d player
             end);
      if negb (valid d oid) then
        Some (None,
              (if oid =? FAILED_MATCH then BS "I don't see " ++ [34] ++ obj ++ [34] ++ BS " here."
               else if oid =? AMBIGUOUS then BS "I don't know which " ++ [34] ++ obj ++ [34] ++ BS " you mean."
               else [34] ++ obj ++ [34] ++ BS " is not a valid object."), vname)
      else
        h ← find_described_verb same numeric d oid (VStr vname);
        match h with
        | None => Some (None, BS "That object does not have that verb definition.", vname)
        | Some _ =>
            allowed ← db_verb_allows d h player VF_WRITE;
            protect ← get_server_option SYSTEM_OBJECT (BS "protect_set_verb_code") d;
            if negb allowed ||
               (server_flag_option (fun _ => protect) (BS "protect_set_verb_code") false && negb (is_wizard d player))
            then Some (None, BS "Permission denied.", vname)
            else
              name ← db_object_name d oid;
              names ← db_verb_names d h;
              Some (h, BS "Now programming " ++ name ++ BS ":" ++ names ++ BS ".  Use " ++ [34; 46; 34] ++ BS " to end.", vname)
        end
  end.

Definition start_programming (tq : Z) (argstr : bytes) : V unit :=
  q ← get_tq tq;
  '(h, message, vname) ← reads_db (find_verb_for_programming (tq_player q) argstr);
  emit (Notify (tq_player q) message);;
  match h with
  | Some _ => definer ← lift (db_verb_definer h); put_tq tq (set_tq_program (Some ([], definer, vname)))
  | None => mret tt
  end.

Fixpoint notify_lines (player : Z) (l : list bytes) : V unit :=
  match l with [] => mret tt | line :: l => emit (Notify player line);; notify_lines player l end.

Definition end_programming (tq : Z) : V unit :=
  q ← get_tq tq;
  let player := tq_player q in
  d ← vget database;
  '(text, program_object, program_verb) ← lift (tq_program q);
  (if negb (valid d program_object) then emit (Notify player (BS "That object appears to have disappeared ..."))
   else
     h ← reads_db (fun d => find_described_verb same numeric d program_object (VStr program_verb));
     match h with
     | None => emit (Notify player (BS "That verb appears to have disappeared ..."))
     | Some _ =>
         let '(program, messages) := parse_program text in
         notify_lines player messages;;
         emit (Notify player (print_num (Z.of_nat (length messages)) ++ BS " error(s)."));;
         match program with
         | Some p =>
             d ← lift (db_set_verb_program d h (Some p));
             vmodify (with_database d);;
             emit (Notify player (BS "Verb programmed."))
         | None => emit (Notify player (BS "Verb not programmed."))
         end
     end);;
  put_tq tq (set_tq_program None).

(** *** Tasks of the server *)

(** [run_server_task_setting_id]: the number is stored if [slot] is a queue. *)
Definition run_server_task_setting_id (player what : Z) (verb : bytes) (args : Var) (argstr : bytes) (slot : option Z)
    : V (outcome * option Var) :=
  rn ← vget random;
  '(id, rn) ← lift (new_task_id rn);
  t ← vget the_tasks;
  vmodify (with_tasks (set_current_task_id id t) rn);;
  (match slot with Some tq => put_tq tq (set_tq_last_input_task_id id) | None => mret tt end);;
  h ← writes_db (fun d => db_find_callable_verb same d what verb);
  match h with
  | Some _ =>
      run_server_verb null same bf_table find_line_number unwind_fuel fmod pow timed_out run_fuel true
        what verb args h player argstr
  | None => mret (OUTCOME_DONE, Some (VInt 0))
  end.
Definition run_server_task (player what : Z) (verb : bytes) (args : Var) (argstr : bytes) : V (outcome * option Var) :=
  run_server_task_setting_id player what verb args argstr None.

Definition run_server_program_task (this : Z) (verb : bytes) (args : Var) (vloc : Z) (verbname : bytes)
    (program : Program) (progr : Z) (debug : bool) (player : Z) (argstr : bytes) : V (outcome * option Var) :=
  rn ← vget random;
  '(id, rn) ← lift (new_task_id rn);
  t ← vget the_tasks;
  vmodify (with_tasks (set_current_task_id id t) rn);;
  run_server_program null same bf_table find_line_number unwind_fuel fmod pow timed_out run_fuel true
    this verb args vloc verbname program progr debug player argstr.

(** *** Commands *)

Definition find_verb_on (oid : Z) (pc : Parsed_Command) (d : db) : option (option handle) :=
  if negb (valid d oid) then Some None
  else
    let spec (o : Z) := if o =? oid then ASPEC_THIS else if o =? NOTHING then ASPEC_NONE else ASPEC_ANY in
    db_find_command_verb same d oid (pc_verb pc) (spec (pc_dobj pc)) (pc_prep pc) (spec (pc_iobj pc)).

(** The first of the objects that has a verb for the command. *)
Fixpoint find_command (l : list Z) (pc : Parsed_Command) (d : db) : option (option (Z * option handle)) :=
  match l with
  | [] => Some None
  | o :: l =>
      h ← find_verb_on o pc d;
      match h with Some _ => Some (Some (o, h)) | None => find_command l pc d end
  end.

Definition set_delimiter (tq : Z) (prefix : bool) (string_ : bytes) : V unit :=
  put_tq tq (fun q =>
    let s := match string_ with [] => None | _ => Some string_ end in
    if prefix then set_tq_output true s q else set_tq_output false s q).

(** Whether the command was one of them. *)
Definition do_intrinsic_command (tq : Z) (pc : Parsed_Command) : V bool :=
  q ← get_tq tq;
  d ← vget database;
  let icmd := icmd_index (pc_verb pc) in
  if (icmd =? 0) || (Z.land (tq_icmds q) (Z.shiftl 1 icmd) =? 0) then mret false
  else if icmd =? ICMD_PROGRAM then
    if negb (is_programmer d (tq_player q)) then mret false
    else
      (match pc_args pc with
       | [VStr ref] => start_programming tq ref
       | [_] => vpanic
       | _ => emit (Notify (tq_player q) (BS "Usage:  .program object:verb"))
       end);;
      mret true
  else if (icmd =? ICMD_PREFIX) || (icmd =? ICMD_OUTPUTPREFIX) then set_delimiter tq true (pc_argstr pc);; mret true
  else if (icmd =? ICMD_SUFFIX) || (icmd =? ICMD_OUTPUTSUFFIX) then set_delimiter tq false (pc_argstr pc);; mret true
  else vpanic.

Definition say_delimiter (player : Z) (s : option bytes) : V unit :=
  match s with Some line => emit (Notify player line) | None => mret tt end.

(** What follows :do_command when it did not handle the command. *)
Definition dispatch_command (tq : Z) (pc : Parsed_Command) (player location : Z) : V unit :=
  r ← reads_db (find_command [player; location; pc_dobj pc; pc_iobj pc] pc);
  r ← (match r with
       | Some r => mret (Some r)
       | None =>
           d ← vget database;
           if valid d location then
             h ← writes_db (fun d => db_find_callable_verb same d location (BS "huh"));
             mret (match h with Some _ => Some (location, h) | None => None end)
           else mret None
       end);
  match r with
  | Some (this, vh) =>
      _ ← do_input_task null same bf_table find_line_number unwind_fuel fmod pow timed_out run_fuel player pc this vh;
      mret tt
  | None =>
      emit (Notify player (BS "I couldn't understand that."));;
      put_tq tq (set_tq_last_input_task_id 0)
  end.

(** Whether there was a command to do. *)
Definition do_command_task (tq : Z) (command : bytes) : V bool :=
  q ← get_tq tq;
  let player := tq_player q in
  match tq_program q with
  | Some (text, o, v) =>
      (if strcmp command (BS ".") =? 0 then end_programming tq
       else put_tq tq (set_tq_program (Some (text ++ command ++ [10], o, v))));;
      mret true
  | None =>
      pc ← reads_db (fun d => parse_command d command player);
      match pc with
      | None => mret false
      | Some pc =>
          intrinsic ← do_intrinsic_command tq pc;
          (if intrinsic : bool then mret tt
           else
             d ← vget database;
             location ← lift (if valid d player then db_object_location d player else Some NOTHING);
             q ← get_tq tq;
             say_delimiter player (tq_output_prefix q);;
             args ← lift (parse_into_wordlist command);
             '(ret, result) ← run_server_task_setting_id player (tq_handler q) (BS "do_command") args command (Some tq);
             handled ← (match ret with OUTCOME_DONE => v ← lift result; mret (is_true v) | _ => mret true end);
             (if handled : bool then mret tt else dispatch_command tq pc player location);;
             q ← get_tq tq;
             say_delimiter player (tq_output_suffix q));;
          mret true
      end
  end.

Definition do_out_of_band_command (tq : Z) (command : bytes) : V unit :=
  q ← get_tq tq;
  args ← lift (parse_into_wordlist command);
  _ ← run_server_task (tq_player q) (tq_handler q) (BS "do_out_of_band_command") args command;
  mret tt.

(** *** Logging in *)

(** The background tasks of one queue go to another, and the lines of a queue
    are dropped. *)
Fixpoint move_bg_tasks (fuel : nat) (from to : Z) (t : tasks) : option tasks :=
  match fuel with
  | O => None
  | S fuel =>
      '(t, task) ← dequeue_bg_task from t;
      match task with
      | None => Some t
      | Some task => t ← enqueue_bg_task to task t; move_bg_tasks fuel from to t
      end
  end.
Definition move_all_bg (from to : Z) (t : tasks) : option tasks :=
  q ← tqs t !! from; move_bg_tasks (S (length (tq_bg q))) from to t.
Fixpoint drop_lines (fuel : nat) (tq : Z) : V unit :=
  match fuel with
  | O => vpanic
  | S fuel =>
      line ← dequeue_input_task tq DQ_FIRST;
      match line with None => mret tt | Some _ => drop_lines fuel tq end
  end.

(** The connection [tq] becomes [new_player]'s. *)
Definition login (tq new_player : Z) (old_max_object : Z) : V unit :=
  q ← get_tq tq;
  let old_player := tq_player q in
  t ← vget the_tasks;
  dead_tq ← lift (find_tqueue new_player t);
  put_tq tq (set_tq_player new_player);;
  (if negb (tq_num_bg_tasks q =? 0) then
     old_tq ← on_tasks (find_or_create_tqueue old_player);
     put_tq old_tq (set_tq_num_bg_tasks (tq_num_bg_tasks q));;
     update_tasks (move_all_bg tq old_tq);;
     put_tq tq (set_tq_num_bg_tasks 0)
   else mret tt);;
  (match dead_tq with
   | None => mret tt
   | Some dead =>
       dq ← get_tq dead;
       put_tq tq (set_tq_num_bg_tasks (tq_num_bg_tasks dq));;
       drop_lines (S (size (lines (tq_input dq)))) dead;;
       update_tasks (move_all_bg dead tq);;
       put_tq dead (fun dq => set_tq_num_bg_tasks 0 (set_tq_player NOTHING dq))
   end);;
  emit (Player_connected old_player new_player (old_max_object <? new_player)).

Definition do_login_task (tq : Z) (command : bytes) : V bool :=
  q ← get_tq tq;
  d ← vget database;
  let old_max_object := db_last_used_objid d in
  args ← lift (parse_into_wordlist command);
  '(_, result) ← run_server_task_setting_id (tq_player q) (tq_handler q) (BS "do_login_command") args command (Some tq);
  q ← get_tq tq;
  d ← vget database;
  (match result with
   | Some (VObj new_player) =>
       if tq_connected q && is_user d new_player then login tq new_player old_max_object else mret tt
   | _ => mret tt
   end);;
  mret true.

(** *** run_ready_tasks *)

(** The tasks whose time has come go to the queues of their programmers. *)
Fixpoint ready_tasks (now : Z) (l : list bg_task) (t : tasks) : option tasks :=
  match l with
  | x :: rest =>
      if GET_START_TIME x <=? now then
        progr ← task_progr x;
        '(t, tq) ← find_or_create_tqueue progr t;
        t ← ensure_usage tq t;
        t ← enqueue_bg_task tq x t;
        ready_tasks now rest t
      else Some (with_waiting l t)
  | [] => Some (with_waiting [] t)
  end.

(** Looks in a queue for a task that can run, and runs it. *)
Fixpoint run_queue (fuel : nat) (tq : Z) : V bool :=
  match fuel with
  | O => vpanic
  | S fuel =>
      q ← get_tq tq;
      line ← dequeue_input_task tq
               (if tq_hold_input q && negb (bool_decide (is_Some (tq_reading q))) then DQ_OOB else DQ_FIRST);
      match line with
      | Some (TASK_OOB, string_) => do_out_of_band_command tq string_;; mret true
      | Some (TASK_BINARY, string_) | Some (TASK_INBAND, string_) =>
          match tq_reading q with
          | Some the_vm =>
              put_tq tq (set_tq_reading None);;
              set_current_task (vm_task_id the_vm);;
              _ ← resume the_vm (VStr string_);
              mret true
          | None =>
              did_one ← (if 0 <=? tq_player q then do_command_task tq string_ else do_login_task tq string_);
              if did_one : bool then mret true else run_queue fuel tq
          end
      | Some _ => vpanic
      | None =>
          task ← on_tasks (dequeue_bg_task tq);
          match task with
          | None => mret false
          | Some (Forked ft) =>
              set_current_task (ft_id ft);;
              _ ← do_forked_task null same bf_table find_line_number unwind_fuel fmod pow timed_out run_fuel
                    (ft_program ft) (ft_rt_env ft) (ft_a ft) (ft_f_index ft);
              mret true
          | Some (Suspended st) =>
              set_current_task (vm_task_id (st_the_vm st));;
              _ ← resume (st_the_vm st) (st_value st);
              mret true
          end
      end
  end.

(** A task that reads from a queue without more input is told so. *)
Definition run_reading (tq : Z) : V bool :=
  q ← get_tq tq;
  match tq_reading q with
  | Some the_vm =>
      if is_out_of_input q then
        put_tq tq (set_tq_reading None);;
        set_current_task (vm_task_id the_vm);;
        _ ← resume the_vm (VErr E_INVARG);
        mret true
      else mret false
  | None => mret false
  end.

(** [tq->next] *)
Fixpoint behind (tq : Z) (l : list Z) : list Z :=
  match l with [] => [] | x :: l => if x =? tq then l else behind tq l end.

(** The loop over the active queues. *)
Fixpoint run_queues (fuel : nat) (took : Z) : V unit :=
  match fuel with
  | O => vpanic
  | S fuel =>
      t ← vget the_tasks;
      match active_tqueues t with
      | [] => mret tt
      | tq :: _ =>
          did_one ← run_reading tq;
          did_one ← (if did_one : bool then mret true
                     else q ← get_tq tq; run_queue (S (size (lines (tq_input q)))) tq);
          update_tasks (fun t => Some (with_tqueues (idle_tqueues t) (behind tq (active_tqueues t)) t));;
          if did_one : bool then
            now ← vget clock;
            vmodify (with_clock (now + took));;
            put_tq tq (fun q => set_tq_usage (int (tq_usage q + took)) q);;
            update_tasks (activate_tqueue tq)
          else
            update_tasks (deactivate_tqueue tq);;
            run_queues fuel took
      end
  end.

(** Unconnected queues without input and tasks are freed. *)
Fixpoint free_dead_queues (l : list Z) (t : tasks) : option tasks :=
  match l with
  | [] => Some t
  | tq :: l =>
      q ← tqs t !! tq;
      let dead := negb (tq_connected q) && (first_input (tq_input q) =? 0) && (tq_num_bg_tasks q =? 0) in
      free_dead_queues l (if dead : bool then free_tqueue tq t else t)
  end.

(** [run_ready_tasks], when the task that it runs takes [took] seconds. *)
Definition run_ready_tasks (took : Z) : V unit :=
  now ← vget clock;
  update_tasks (fun t => ready_tasks now (waiting_tasks t) t);;
  t ← vget the_tasks;
  run_queues (S (length (active_tqueues t))) took;;
  update_tasks (fun t => free_dead_queues (idle_tqueues t) t).
End Scheduler.
