(* ===== verification/ObjBuiltins.v ===== *)
(** * The built-in functions on objects (objects.c)

    Those that call verbs, move(), create() and recycle(), are called again when
    the verb returns, with its result and the data that they kept. *)

From Stdlib Require Import Floats.SpecFloat.
From S2P Require Import Prelude Utf CString Values Functions Lists Numbers Db Links Hierarchy Attributes Verbs Properties PropBuiltins ChangeParent Objects Activation InputQueue Tasks Machine.

(** ** Definitions *)

Definition make_arglist (what : Z) : Var := VList [VObj what].

Definition controls (who what : Z) (d : db) : option bool :=
  if is_wizard d who then Some true else owner ← db_object_owner d what; Some (who =? owner).

(** An operation of the database that answers nothing else. *)
Definition changes_db (f : db -> option db) : V unit :=
  d ← vget database; d ← lift (f d); vmodify (with_database d).

Section ObjBuiltins.
Context (null : Program) (same : Verbdef -> bool).

Definition call_verb_for (this : Z) (vname : bytes) (args : Var) : V error := call_verb null same this vname args false.

(** *** move *)

Definition move_data (datum : Z) : V (Z * Z) :=
  x ← read_data datum; match x with Move_data what where_ => mret (what, where_) | _ => vpanic end.

(** Case 3 of [do_move]. *)
Definition do_move_enter (datum : Z) : V package :=
  '(what, where_) ← move_data datum;
  d ← vget database;
  if negb (valid d where_) || negb (valid d what) then mret no_var_pack
  else
    loc ← lift (db_object_location d what);
    if negb (loc =? where_) then mret no_var_pack
    else
      e ← call_verb_for where_ (BS "enterfunc") (make_arglist what);
      mret (if bool_decide (e = E_NONE) then make_call_pack 4 datum
            else if bool_decide (e = E_MAXREC) then make_error_pack e else no_var_pack).

(** Whether [what] is [oid] or contains it. *)
Fixpoint inside (fuel : nat) (d : db) (what oid : Z) : option bool :=
  if oid =? NOTHING then Some false
  else if oid =? what then Some true
  else match fuel with O => None | S fuel => up ← db_object_location d oid; inside fuel d what up end.

(** [accepts_decided] *)
Definition do_move_decided (datum progr : Z) (accepts : bool) : V package :=
  '(what, where_) ← move_data datum;
  d ← vget database;
  if negb (is_wizard d progr) && negb accepts then mret (make_error_pack E_NACC)
  else if negb (valid d what) || (negb (where_ =? NOTHING) && negb (valid d where_)) then mret no_var_pack
  else
    oldloc ← lift (db_object_location d what);
    if oldloc =? where_ then mret no_var_pack
    else
      rec ← lift (inside (ll_fuel d) d what where_);
      if rec : bool then mret (make_error_pack E_RECMOVE)
      else
        changes_db (fun d => db_change_location d what where_);;
        e ← call_verb_for oldloc (BS "exitfunc") (make_arglist what);
        if bool_decide (e = E_NONE) then mret (make_call_pack 3 datum)
        else if bool_decide (e = E_MAXREC) then mret (make_error_pack e)
        else do_move_enter datum.

Definition do_move (arglist : Var) (next datum progr : Z) : V package :=
  '(what, where_) ← move_data datum;
  d ← vget database;
  if next =? 1 then
    if negb (valid d what) || (negb (valid d where_) && negb (where_ =? NOTHING)) then mret (make_error_pack E_INVARG)
    else
      ok ← lift (controls progr what d);
      if negb ok then mret (make_error_pack E_PERM)
      else if where_ =? NOTHING then do_move_decided datum progr true
      else
        e ← call_verb_for where_ (BS "accept") (make_arglist what);
        if bool_decide (e = E_NONE) then mret (make_call_pack 2 datum)
        else if bool_decide (e = E_VERBNF) then do_move_decided datum progr false
        else mret (make_error_pack e)
  else if next =? 2 then do_move_decided datum progr (is_true arglist)
  else if next =? 3 then do_move_enter datum
  else if next =? 4 then mret no_var_pack
  else vpanic.

(** Data that are not kept for a verb are freed. *)
Definition finish_data (p : package) (datum : Z) : V package :=
  (match p with BI_CALL _ _ => mret tt | _ => free_data datum end);; mret p.

Definition bf_move (arglist : Var) (next vdata progr : Z) : V package :=
  datum ← (if next =? 1 then
             match arglist with
             | VList (VObj what :: VObj where_ :: _) => alloc_data (Move_data what where_)
             | _ => vpanic
             end
           else mret vdata);
  p ← do_move arglist next datum progr;
  finish_data p datum.

(** *** create *)

Definition object_data (datum : Z) : V Z :=
  x ← read_data datum; match x with Object_data oid => mret oid | _ => vpanic end.

(** [junk] is what the memory of the new object happens to hold. *)
Definition bf_create (junk : Object) (arglist : Var) (next vdata progr : Z) : V package :=
  if next =? 1 then
    '(parent, owner) ← lift (match arglist with
                             | VList [VObj parent; VObj owner] => Some (parent, owner)
                             | VList [VObj parent] => Some (parent, progr)
                             | _ => None
                             end);
    d ← vget database;
    fertile ← lift (if valid d parent then db_object_allows d parent progr FLAG_FERTILE
                    else Some (parent =? NOTHING));
    if negb fertile || (negb (owner =? progr) && negb (is_wizard d progr)) then mret (make_error_pack E_PERM)
    else
      quota ← (if valid d owner then writes_db (decr_quota owner) else mret true);
      if negb quota then mret (make_error_pack E_QUOTA)
      else
        oid ← writes_db (db_create_object junk);
        changes_db (fun d => db_set_object_name d oid []);;
        changes_db (fun d => db_set_object_owner d oid (if owner =? NOTHING then oid else owner));;
        _ ← writes_db (fun d => db_change_parent d oid parent);
        datum ← alloc_data (Object_data oid);
        e ← call_verb_for oid (BS "initialize") (VList []);
        if bool_decide (e = E_NONE) then mret (make_call_pack 2 datum)
        else
          free_data datum;;
          mret (if bool_decide (e = E_MAXREC) then make_error_pack e else make_var_pack (VObj oid))
  else
    oid ← object_data vdata;
    free_data vdata;;
    mret (make_var_pack (VObj oid)).

(** *** recycle *)

(** Whether the exit verb was called. *)
Definition move_to_nothing (oid : Z) : V bool :=
  oldloc ← reads_db (fun d => db_object_location d oid);
  changes_db (fun d => db_change_location d oid NOTHING);;
  e ← call_verb_for oldloc (BS "exitfunc") (make_arglist oid);
  mret (bool_decide (e = E_NONE)).

Definition first_proc (data oid : Z) : Z * bool := (oid, true).
Definition get_first_content (oid : Z) (d : db) : option Z :=
  '(r, _) ← db_for_all_contents d oid first_proc NOTHING; Some r.
Definition get_first_child (oid : Z) (d : db) : option Z :=
  '(r, _) ← db_for_all_children d oid first_proc NOTHING; Some r.

(** Moves contents out until a verb was called or there are no more. *)
Fixpoint empty_contents (fuel : nat) (oid : Z) : V bool :=
  match fuel with
  | O => vpanic
  | S fuel =>
      c ← reads_db (get_first_content oid);
      if c =? NOTHING then mret false
      else called ← move_to_nothing c; if called : bool then mret true else empty_contents fuel oid
  end.

Fixpoint orphan_children (fuel : nat) (oid : Z) (d : db) : option db :=
  match fuel with
  | O => None
  | S fuel =>
      c ← get_first_child oid d;
      if c =? NOTHING then Some d
      else
        parent ← db_object_parent d oid;
        '(d, _) ← db_change_parent d c parent;
        orphan_children fuel oid d
  end.

(** The end of the inheritance of an object, and its own. *)
Definition demolish (oid : Z) (d : db) : option db :=
  d ← orphan_children (ll_fuel d) oid d;
  '(d, _) ← db_change_parent d oid NOTHING;
  owner ← db_object_owner d oid;
  d ← incr_quota owner d;
  db_destroy_object d oid.

(** [moving_contents] *)
Definition recycle_contents (datum : Z) : V package :=
  oid ← object_data datum;
  d ← vget database;
  if negb (valid d oid) then free_data datum;; mret no_var_pack
  else
    called ← empty_contents (ll_fuel d) oid;
    if called : bool then mret (make_call_pack 2 datum)
    else
      loc ← reads_db (fun d => db_object_location d oid);
      called ← (if loc =? NOTHING then mret false else move_to_nothing oid);
      if called : bool then mret (make_call_pack 2 datum)
      else
        changes_db (demolish oid);;
        free_data datum;;
        mret no_var_pack.

Definition bf_recycle (arglist : Var) (func_pc vdata progr : Z) : V package :=
  if func_pc =? 1 then
    match arglist with
    | VList (VObj oid :: _) =>
        d ← vget database;
        if negb (valid d oid) then mret (make_error_pack E_INVARG)
        else
          ok ← lift (controls progr oid d);
          if negb ok then mret (make_error_pack E_PERM)
          else
            datum ← alloc_data (Object_data oid);
            e ← call_verb_for oid (BS "recycle") (VList []);
            if bool_decide (e = E_NONE) then mret (make_call_pack 2 datum) else recycle_contents datum
    | _ => vpanic
    end
  else if func_pc =? 2 then recycle_contents vdata
  else vpanic.

(** *** The others *)

(** What a function that is called once gets: its arguments and the database. *)
Definition bf_toobj (my_isspace : Z -> bool) (strtod : bytes -> spec_float * bytes) (arglist : list Var) : option package :=
  v ← head arglist;
  r ← become_integer my_isspace strtod v false;
  Some (match r with inl e => make_error_pack e | inr n => make_var_pack (VObj n) end).

Definition bf_typeof (arglist : list Var) : option package :=
  v ← head arglist; Some (make_var_pack (type_code (type_of v))).

Definition bf_valid (arglist : list Var) (d : db) : option package :=
  match arglist with
  | VObj oid :: _ => Some (make_var_pack (VInt (if valid d oid then 1 else 0)))
  | _ => None
  end.

Definition bf_max_object (d : db) : package := make_var_pack (VObj (db_last_used_objid d)).

(** Whether [what] is [oid] or an ancestor of it. *)
Fixpoint descends (fuel : nat) (d : db) (what oid : Z) : option bool :=
  if oid =? NOTHING then Some false
  else if oid =? what then Some true
  else match fuel with O => None | S fuel => up ← db_object_parent d oid; descends fuel d what up end.

Definition bf_chparent (arglist : list Var) (progr : Z) (d : db) : option (db * package) :=
  match arglist with
  | VObj what :: VObj parent :: _ =>
      if negb (valid d what) || (negb (valid d parent) && negb (parent =? NOTHING))
      then Some (d, make_error_pack E_INVARG)
      else
        ok ← controls progr what d;
        fertile ← (if valid d parent then db_object_allows d parent progr FLAG_FERTILE else Some true);
        if negb ok || negb fertile then Some (d, make_error_pack E_PERM)
        else
          rec ← descends (ll_fuel d) d what parent;
          if rec : bool then Some (d, make_error_pack E_RECMOVE)
          else
            '(d, changed) ← db_change_parent d what parent;
            Some (d, if changed : bool then no_var_pack else make_error_pack E_INVARG)
  | _ => None
  end.

Definition bf_parent (arglist : list Var) (d : db) : option package :=
  match arglist with
  | VObj obj :: _ =>
      if negb (valid d obj) then Some (make_error_pack E_INVARG)
      else p ← db_object_parent d obj; Some (make_var_pack (VObj p))
  | _ => None
  end.

(** The list is as long as there are children; the callback fills it. *)
Definition add_to_list (data : list Var) (child : Z) : list Var * bool := (data ++ [VObj child], false).
Definition bf_children (arglist : list Var) (d : db) : option package :=
  match arglist with
  | VObj oid :: _ =>
      if negb (valid d oid) then Some (make_error_pack E_INVARG)
      else
        n ← db_count_children d oid;
        '(l, _) ← db_for_all_children d oid add_to_list [];
        if llen l =? n then Some (make_var_pack (VList l)) else None
  | _ => None
  end.

Definition bf_players (d : db) : package := make_var_pack (VList (db_all_users d)).

Definition bf_is_player (arglist : list Var) (d : db) : option package :=
  match arglist with
  | VObj oid :: _ =>
      Some (if negb (valid d oid) then make_error_pack E_INVARG
            else make_var_pack (VInt (if is_user d oid then 1 else 0)))
  | _ => None
  end.

Definition bf_set_player_flag (sole : bool) (arglist : Var) (next vdata progr : Z) : V package :=
  match arglist with
  | VList (VObj obj :: flag :: _) =>
      d ← vget database;
      if negb (valid d obj) then mret (make_error_pack E_INVARG)
      else if negb (is_wizard d progr) then mret (make_error_pack E_PERM)
      else
        (if is_true flag then changes_db (fun d => db_set_object_flag sole d obj FLAG_USER)
         else emit (Boot_player obj);; changes_db (fun d => db_clear_object_flag d obj FLAG_USER));;
        mret no_var_pack
  | _ => vpanic
  end.

Definition bf_object_bytes (arglist : list Var) (progr : Z) (d : db) : option package :=
  match arglist with
  | VObj oid :: _ =>
      if negb (is_wizard d progr) then Some (make_error_pack E_PERM)
      else if negb (valid d oid) then Some (make_error_pack E_INVIND)
      else n ← db_object_bytes d oid; Some (make_var_pack (VInt n))
  | _ => None
  end.
End ObjBuiltins.
