(* ===== verification/Eval.v ===== *)
(** * What expressions mean, and that their code computes it

    [eval] evaluates an expression directly on its tree, from left to right:
    variables and assignments to them, literals, lists, indexing and [$],
    properties, the operators, the logical operators and conditionals.  Calls,
    which run other programs, and assignments to places are left out.  The
    instructions that the code generator emits, run on the machine from where
    they are, compute the same. *)

From Stdlib Require Import Floats.SpecFloat.
From S2P Require Import Prelude Utf CString Values Functions Lists Numbers Db Properties PropBuiltins Ast CodeGen CodeSpec CodeProof CodeStmts Decompile DecompileProof Activation InputQueue Tasks Machine Run.

(** ** Definitions *)

#[export] Instance logic_kind_eq_dec : EqDecision logic_kind.
Proof. solve_decision. Defined.

(** A value, or an error; [quota]: an error that ends the task when it is
    E_QUOTA, unless the server is told otherwise. *)
Inductive res (A : Type) := Val (a : A) | Err (quota : bool) (e : error).
Arguments Val {A} a.
Arguments Err {A} quota e.

(** An error as the value of an expression. *)
Definition answer (quota : bool) (v : Var) : res Var := match v with VErr e => Err quota e | _ => Val v end.
Definition num_val (b : bool) : Var := VInt (if b then 1 else 0).

Section Values.
Context (fmod : spec_float -> spec_float -> spec_float) (pow : spec_float -> spec_float -> spec_float * bool).

Definition numeric (f : Var -> Var -> option Var) (lhs rhs : Var) : option (res Var) :=
  if int_or_float lhs && int_or_float rhs then answer false <$> f lhs rhs else Some (Err false E_TYPE).
Definition bits (f : Z -> Z -> Z) (lhs rhs : Var) : option (res Var) :=
  match lhs, rhs with VInt a, VInt b => Some (Val (VInt (f a b))) | _, _ => Some (Err false E_TYPE) end.
Definition shift (f : Z -> Z -> option Z) (lhs rhs : Var) : option (res Var) :=
  match lhs, rhs with
  | VInt a, VInt b =>
      if (b <? 0) || (64 <=? uwrap 64 b) then Some (Err false E_INVARG) else n ← f a b; Some (Val (VInt n))
  | _, _ => Some (Err false E_TYPE)
  end.

Definition binary_value (o : option_cache) (kind : binary_kind) (lhs rhs : Var) : option (res Var) :=
  match kind with
  | EXPR_PLUS =>
      match lhs, rhs with
      | VStr l, VStr r =>
          Some (if SVO_MAX_STRING_CONCAT o <? int (int (Z.of_nat (length l)) + Z.of_nat (length r))
                then Err true E_QUOTA else Val (VStr (l ++ r)))
      | _, _ => if int_or_float lhs && int_or_float rhs then answer true <$> do_add lhs rhs else Some (Err true E_TYPE)
      end
  | EXPR_MINUS => numeric do_subtract lhs rhs
  | EXPR_TIMES => numeric do_multiply lhs rhs
  | EXPR_DIVIDE => numeric do_divide lhs rhs
  | EXPR_MOD => numeric (do_modulus fmod) lhs rhs
  | EXPR_EXP => answer false <$> do_power pow lhs rhs
  | EXPR_EQ => b ← equality rhs lhs false; Some (Val (num_val b))
  | EXPR_NE => b ← equality rhs lhs false; Some (Val (num_val (negb b)))
  | EXPR_LE => answer false <$> compare_le false lhs rhs
  | EXPR_GT => answer false <$> compare_le true lhs rhs
  | EXPR_GE => answer false <$> compare_le false rhs lhs
  | EXPR_LT => answer false <$> compare_le true rhs lhs
  | EXPR_IN =>
      match rhs with VList l => i ← ismember lhs l false; Some (Val (VInt i)) | _ => Some (Err false E_TYPE) end
  | EXPR_BITAND => bits Z.land lhs rhs
  | EXPR_BITXOR => bits Z.lxor lhs rhs
  | EXPR_BITOR => bits Z.lor lhs rhs
  | EXPR_SHL => shift (fun a b => Some (Num (Z.shiftl a b))) lhs rhs
  | EXPR_SHR => shift SHIFTR lhs rhs
  | EXPR_LSHR => shift LOGSHIFTR lhs rhs
  end.

Definition unary_value (kind : unary_kind) (arg : Var) : res Var :=
  match kind, arg with
  | EXPR_NOT, _ => Val (num_val (negb (is_true arg)))
  | EXPR_NEGATE, VInt n => Val (VInt (Num (- n)))
  | EXPR_NEGATE, VFloat f => Val (VFloat (SFopp f))
  | EXPR_COMPLEMENT, VInt n => Val (VInt (Z.lnot n))
  | _, _ => Err false E_TYPE
  end.

Definition ref_value (base index : Var) : option (res Var) :=
  match index, base with
  | VInt i, VList l => if (i <? 1) || (llen l <? i) then Some (Err false E_RANGE) else v ← aread l i; Some (Val v)
  | VInt i, VStr s =>
      if i <? 1 then Some (Err false E_RANGE)
      else
        bindex ← utf_byte_index s i;
        if Z.of_nat (length s) <? uwrap 64 bindex then Some (Err false E_RANGE)
        else r ← substr s bindex (bindex + clearance_utf (byte_at s (Z.to_nat (bindex - 1)))); Some (Val (VStr r))
  | _, _ => Some (Err false E_TYPE)
  end.

Definition range_value (base from to : Var) : option (res Var) :=
  match to, from, base with
  | VInt t, VInt f, VList l =>
      if rangeref_fails (llen l) f (Num (t + 1)) then Some (Err false E_RANGE)
      else r ← sublist l f (Num (t + 1)); Some (Val (VList r))
  | VInt t, VInt f, VStr s =>
      '(bfrom, bafter) ← utf_byte_range s (f, Num (t + 1));
      if rangeref_fails (Z.of_nat (length s)) bfrom bafter then Some (Err false E_RANGE)
      else r ← substr s bfrom bafter; Some (Val (VStr r))
  | _, _, _ => Some (Err false E_TYPE)
  end.

Definition length_value (base : Var) : option (res Var) :=
  match base with
  | VStr s => n ← memo_strlen_utf s; Some (Val (VInt n))
  | VList l => Some (Val (VInt (llen l)))
  | _ => Some (Err false E_TYPE)
  end.

(** What a list begins with. *)
Definition first_value (kind : Arg_Kind) (v : Var) : res Var :=
  match kind with
  | ARG_NORMAL => Val (VList [v])
  | ARG_SPLICE => match v with VList _ => Val v | _ => Err false E_TYPE end
  end.
(** The elements of a list so far, and one more or those of another list. *)
Definition add_tail (o : option_cache) (list_ tail : Var) : option (res Var) :=
  match list_ with
  | VList l =>
      if SVO_MAX_LIST_CONCAT o <=? llen l then Some (Err true E_QUOTA)
      else r ← listappend false l tail; Some (Val (VList r))
  | _ => Some (Err true E_TYPE)
  end.
Definition append (o : option_cache) (list_ tail : Var) : option (res Var) :=
  match tail, list_ with
  | VList t, VList l =>
      if SVO_MAX_LIST_CONCAT o <? llen l + llen t then Some (Err true E_QUOTA)
      else r ← listconcat l t; Some (Val (VList r))
  | _, _ => Some (Err true E_TYPE)
  end.

Definition prop_value_of (d : db) (o : option_cache) (progr : Z) (obj propname : Var) : option (res Var) :=
  match propname, obj with
  | VStr propname, VObj obj =>
      if negb (valid d obj) then Some (Err false E_INVIND)
      else r ← fetch_prop obj propname progr d o; Some (match r with inl e => Err false e | inr v => Val v end)
  | _, _ => Some (Err false E_TYPE)
  end.
End Values.

(** *** Evaluation *)

(** The expressions that are covered. *)
Fixpoint covered (e : Expr) : bool :=
  match e with
  | EXPR_VAR _ | EXPR_ID _ | EXPR_LENGTH => true
  | EXPR_PROP lhs rhs | EXPR_BINARY _ lhs rhs | EXPR_LOGIC _ lhs rhs | EXPR_INDEX lhs rhs => covered lhs && covered rhs
  | EXPR_UNARY _ e => covered e
  | EXPR_RANGE base from to => covered base && covered from && covered to
  | EXPR_COND condition consequent alternate => covered condition && covered consequent && covered alternate
  | EXPR_LIST args => covered_args args
  | EXPR_ASGN (EXPR_ID _) rhs => covered rhs
  | _ => false
  end
with covered_args (args : Arg_List) : bool :=
  match args with ANil => true | ACons _ e next => covered e && covered_args next end.

Section Eval.
Context (fmod : spec_float -> spec_float -> spec_float) (pow : spec_float -> spec_float -> spec_float * bool).
Context (d : db) (o : option_cache) (progr : Z) (debug : bool).

(** Without the debug bit errors are values like others. *)
Definition settle (r : res Var) : res Var :=
  match r with
  | Err quota e =>
      if debug || (quota && bool_decide (e = E_QUOTA) && negb (SVO_MAX_CONCAT_CATCHABLE o)) then r else Val (VErr e)
  | Val v => Val v
  end.

(** Computations on the variables. *)
Definition E (A : Type) : Type := list Var -> option (res A * list Var).
#[export] Instance E_ret : MRet E := fun A a env => Some (Val a, env).
#[export] Instance E_bind : MBind E := fun A B f m env =>
  match m env with
  | Some (Val a, env) => f a env
  | Some (Err quota e, env) => Some (Err quota e, env)
  | None => None
  end.
Definition result (r : option (res Var)) : E Var := fun env => r ← r; Some (settle r, env).

Definition var_value (env : list Var) (id : Z) : option (res Var) :=
  v ← env_get env id; Some (match v with VNone => Err false E_VARNF | _ => Val v end).

Definition assign (id : Z) (v : Var) : E Var := fun env =>
  match set_rt_env_var env id v with Some env => Some (Val v, env) | None => None end.

(** [base]: what [$] is the length of. *)
Fixpoint eval (base : option Var) (e : Expr) : E Var :=
  match e with
  | EXPR_VAR v => mret v
  | EXPR_ID id => fun env => result (var_value env id) env
  | EXPR_BINARY kind lhs rhs => l ← eval base lhs; r ← eval base rhs; result (binary_value fmod pow o kind l r)
  | EXPR_UNARY kind e => v ← eval base e; result (Some (unary_value kind v))
  | EXPR_LOGIC EXPR_AND lhs rhs => l ← eval base lhs; if is_true l then eval base rhs else mret l
  | EXPR_LOGIC EXPR_OR lhs rhs => l ← eval base lhs; if is_true l then mret l else eval base rhs
  | EXPR_COND condition consequent alternate =>
      c ← eval base condition; if is_true c then eval base consequent else eval base alternate
  | EXPR_INDEX lhs rhs => l ← eval base lhs; i ← eval (Some l) rhs; result (ref_value l i)
  | EXPR_RANGE lhs from to =>
      l ← eval base lhs; f ← eval (Some l) from; t ← eval (Some l) to; result (range_value l f t)
  | EXPR_LENGTH => result (v ← base; length_value v)
  | EXPR_PROP lhs rhs => obj ← eval base lhs; name ← eval base rhs; result (prop_value_of d o progr obj name)
  | EXPR_LIST args => eval_args base args
  | EXPR_ASGN (EXPR_ID id) rhs =>
      v ← eval base rhs; assign id v
  | _ => fun _ => None
  end
with eval_args (base : option Var) (args : Arg_List) : E Var :=
  match args with
  | ANil => mret (VList [])
  | ACons kind e next =>
      v ← eval base e;
      l ← result (Some (first_value kind v));
      eval_more base l next
  end
with eval_more (base : option Var) (list_ : Var) (args : Arg_List) : E Var :=
  match args with
  | ANil => mret list_
  | ACons kind e next =>
      v ← eval base e;
      l ← result (match kind with ARG_NORMAL => add_tail o list_ v | ARG_SPLICE => append o list_ v end);
      eval_more base l next
  end.
End Eval.

(** *** Running code *)

(** The interpreter comes to the same from both states. *)
Section Running.
Context (null : Program) (same : Verbdef -> bool) (bf_table : list bi_func).
Context (find_line_number : Program -> Z -> Z -> Z) (unwind_fuel : nat).
Context (fmod : spec_float -> spec_float -> spec_float) (pow : spec_float -> spec_float -> spec_float * bool).
Context (task_timed_out : Z -> bool).

Notation exec_loop := (run_loop null same bf_table find_line_number unwind_fuel fmod pow task_timed_out).

Definition joins (s s' : State) : Prop := exists n m, forall k, exec_loop (n + k) s = exec_loop (m + k) s'.

(** An error where the machine is at [s]. *)
Definition fault (quota : bool) (e : error) : X unit :=
  if quota then PUSH_ERROR_UNLESS_QUOTA null same bf_table find_line_number unwind_fuel e
  else PUSH_ERROR null same bf_table find_line_number unwind_fuel e.
(** From [s] the interpreter comes to that error at [s']. *)
Definition faults (s s' : State) (quota : bool) (e : error) : Prop :=
  exists n m, forall k, exec_loop (n + k) s =
    match fault quota e s' with
    | Some (Return out r, s2) => Some (out, r, s2)
    | Some (_, s2) => exec_loop (m + k) s2
    | None => None
    end.

(** The machine [s] with the running activation [a], at [p] with the values [st],
    the variables [env] and [t] ticks. *)
Definition conf (s : State) (a : activation) (l : list activation) (p : Z) (st env : list Var) (t ep : Z) : State :=
  with_ticks t (with_activ_stack (set_rt_stack st (set_rt_env env (set_error_pc ep (set_pc p a))) :: l) s).
End Running.

(** The vector that the activation [a] above [l] runs on the machine [s]. *)
Definition current (s : State) (l : list activation) (a : activation) : option Bytecodes :=
  if negb (Z.of_nat (length l) =? 0) || (root_activ_vector s =? MAIN_VECTOR) then Some (p_main_vector (a_prog a))
  else if root_activ_vector s <? 0 then None else p_fork_vectors (a_prog a) !! Z.to_nat (root_activ_vector s).

(** The items [i] are at [pc], and an instruction follows. *)
Definition segf (I : list item) (pc : Z) (i : list item) : Prop :=
  0 <= pc /\ exists b post, drop (Z.to_nat pc) I = i ++ Op b :: post.
(** The value at the place that [$] refers to. *)
Definition dollar (base : option Var) (sv : Z) (st : list Var) : Prop :=
  match base with Some v => 0 <= sv /\ reverse st !! Z.to_nat sv = Some v | None => True end.

(** ** Lemmas *)

(** *** The machine at a place *)

Lemma xbind_eq {A B} (m : X A) (f : A -> X B) s a s1 : m s = Some (Go a, s1) -> (m ≫= f) s = f a s1.
Proof. intros H. unfold mbind, X_bind. by rewrite H. Qed.

Lemma conf_ep s a l p st env t ep ep' : UPDATE (set_error_pc ep') (conf s a l p st env t ep) = Some (Go tt, conf s a l p st env t ep').
Proof. by destruct s, a. Qed.
Lemma conf_mark s a l p st env t ep :
  UPDATE (fun a => set_error_pc (a_pc a) a) (conf s a l p st env t ep) = Some (Go tt, conf s a l p st env t p).
Proof. by destruct s, a. Qed.
Lemma conf_pop s a l p v st env t ep : POP (conf s a l p (v :: st) env t ep) = Some (Go v, conf s a l p st env t ep).
Proof. by destruct s, a. Qed.
Lemma conf_top s a l p v st env t ep :
  TOP_RT_VALUE (conf s a l p (v :: st) env t ep) = Some (Go v, conf s a l p (v :: st) env t ep).
Proof. by destruct s, a. Qed.
Lemma conf_activ s a l p st env t ep : RUN_ACTIV (conf s a l p st env t ep) =
  Some (Go (set_rt_stack st (set_rt_env env (set_error_pc ep (set_pc p a)))), conf s a l p st env t ep).
Proof. by destruct s, a. Qed.
Lemma conf_push s a l p v st env t ep : Z.of_nat (length st) < rt_stack_room a ->
  PUSH v (conf s a l p st env t ep) = Some (Go tt, conf s a l p (v :: st) env t ep).
Proof.
  intros H. set (x := set_rt_stack st (set_rt_env env (set_error_pc ep (set_pc p a)))).
  assert (Ex : a_rt_stack x = st /\ rt_stack_room x = rt_stack_room a) by by destruct a. destruct Ex as [E1 E2].
  unfold PUSH, call, push_value. unfold mbind, V_bind.
  assert (Er : run_activ (conf s a l p st env t ep) = Some (x, conf s a l p st env t ep)) by by destruct s, a.
  rewrite Er, E1, E2, (proj2 (Z.ltb_lt _ _) H). by destruct s, a.
Qed.
Lemma conf_jump s a l p q st env t ep : JUMP q (conf s a l p st env t ep) = Some (Go tt, conf s a l q st env t ep).
Proof. by destruct s, a. Qed.
Lemma conf_skip s a l p n st env t ep : SKIP_BYTES n (conf s a l p st env t ep) = Some (Go tt, conf s a l (p + n) st env t ep).
Proof. by destruct s, a. Qed.
Lemma conf_get s a l p st env t ep id v : env_get env id = Some v ->
  get_var id (conf s a l p st env t ep) = Some (Go v, conf s a l p st env t ep).
Proof. intros H. unfold get_var. rewrite (xbind_eq _ _ _ _ _ (conf_activ _ _ _ _ _ _ _ _)). destruct s, a. cbn. by rewrite H. Qed.
Lemma conf_put s a l p st env t ep id v env' : set_rt_env_var env id v = Some env' ->
  put_var id v (conf s a l p st env t ep) = Some (Go tt, conf s a l p st env' t ep).
Proof.
  intros H. unfold put_var. rewrite (xbind_eq _ _ _ _ _ (conf_activ _ _ _ _ _ _ _ _)). destruct s, a. cbn.
  unfold mbind, X_bind. cbn. by rewrite H.
Qed.
Lemma conf_options s a l p st env t ep :
  call (vget options) (conf s a l p st env t ep) = Some (Go (options s), conf s a l p st env t ep).
Proof. by destruct s, a. Qed.
Lemma conf_database s a l p st env t ep :
  call (vget database) (conf s a l p st env t ep) = Some (Go (database s), conf s a l p st env t ep).
Proof. by destruct s, a. Qed.
Lemma conf_ticks s a l p st env t ep (f : Z -> Z) :
  call (vmodify (fun s => with_ticks (f (ticks_remaining s)) s)) (conf s a l p st env t ep) = Some (Go tt, conf s a l p st env (f t) ep).
Proof. by destruct s, a. Qed.
Lemma one_tick_pos t : 0 <= t -> one_tick t = t - 1.
Proof. intros H. unfold one_tick. destruct (Z.eqb_spec t INT32_MIN); [unfold INT32_MIN in *; lia|done]. Qed.
Lemma conf_ticks_left s a l p st env t ep :
  call (vget ticks_remaining) (conf s a l p st env t ep) = Some (Go t, conf s a l p st env t ep).
Proof. by destruct s, a. Qed.
Lemma conf_bytecodes s a l p st env t ep bc : current s l a = Some bc ->
  bytecodes (conf s a l p st env t ep) = Some (Go bc, conf s a l p st env t ep).
Proof.
  intros H. unfold current in H. set (c := conf s a l p st env t ep).
  assert (Et : top_activ_stack c = Z.of_nat (length l)) by (unfold top_activ_stack; destruct s, a; cbn [c conf]; cbn; lia).
  assert (Er : root_activ_vector c = root_activ_vector s) by by destruct s.
  unfold bytecodes. rewrite (xbind_eq _ _ c c c eq_refl), (xbind_eq RUN_ACTIV _ c _ c (conf_activ s a l p st env t ep)), Et, Er.
  replace (a_prog (set_rt_stack st _)) with (a_prog a) by by destruct a.
  destruct (negb _ || _); [by injection H as ->|]. destruct (_ <? 0); [done|]. unfold need. by rewrite H.
Qed.
Lemma conf_byte s a l p st env t ep bc n b : current s l a = Some bc -> vector_byte bc (p + n) = Some b ->
  bv_at n (conf s a l p st env t ep) = Some (Go b, conf s a l p st env t ep).
Proof.
  intros H Hb. unfold bv_at. rewrite (xbind_eq _ _ _ _ _ (conf_bytecodes s a l p st env t ep bc H)), (xbind_eq _ _ _ _ _ (conf_activ _ _ _ _ _ _ _ _)).
  destruct s, a. cbn. unfold need. by rewrite Hb.
Qed.
Lemma conf_next s a l p st env t ep bc b : current s l a = Some bc -> vector_byte bc p = Some b ->
  next_byte (conf s a l p st env t ep) = Some (Go b, conf s a l (p + 1) st env t ep).
Proof.
  intros H Hb. unfold next_byte. assert (Hb' : vector_byte bc (p + 0) = Some b) by by rewrite Z.add_0_r.
  rewrite (xbind_eq _ _ _ _ _ (conf_byte s a l p st env t ep bc 0 b H Hb')), (xbind_eq _ _ _ _ _ (conf_skip _ _ _ _ _ _ _ _ _)). done.
Qed.
(** Numbers are read as the decompiler reads them. *)
Lemma conf_read s a l p st env t ep bc n v : current s l a = Some bc ->
  Decompile.READ_BYTES bc n (mkCursor p 0 [] [] []) = Some (v, mkCursor (p + n) 0 [] [] []) ->
  READ_BYTES n (conf s a l p st env t ep) = Some (Go v, conf s a l (p + n) st env t ep).
Proof.
  intros H Hd. unfold READ_BYTES. rewrite (xbind_eq _ _ _ _ _ (conf_skip _ _ _ _ _ _ _ _ _)).
  unfold Decompile.READ_BYTES, Decompile.SKIP_BYTES, mbind, D_bind, dget, set_ptr, dmodify in Hd.
  cbn [ptr stmt_start expr_stack sink Decompile.arms] in Hd.
  pose proof (fun i b Hb => conf_byte s a l (p + n) st env t ep bc i b H Hb) as Hbyte.
  destruct (n =? 1).
  { destruct (vector_byte bc (p + n - 1)) as [b|] eqn:E; [|done]. injection Hd as <-. by rewrite (Hbyte (-1) b E). }
  destruct (n =? 2).
  { destruct (vector_byte bc (p + n - 2)) as [b2|] eqn:E2; [|done]. cbn in Hd.
    destruct (vector_byte bc (p + n - 1)) as [b1|] eqn:E1; [|done]. injection Hd as <-.
    by rewrite (xbind_eq _ _ _ _ _ (Hbyte (-2) b2 E2)), (xbind_eq _ _ _ _ _ (Hbyte (-1) b1 E1)). }
  destruct (vector_byte bc (p + n - 4)) as [b4|] eqn:E4; [|done]. cbn in Hd.
  destruct (vector_byte bc (p + n - 3)) as [b3|] eqn:E3; [|done]. cbn in Hd.
  destruct (vector_byte bc (p + n - 2)) as [b2|] eqn:E2; [|done]. cbn in Hd.
  destruct (vector_byte bc (p + n - 1)) as [b1|] eqn:E1; [|done]. injection Hd as <-.
  by rewrite (xbind_eq _ _ _ _ _ (Hbyte (-4) b4 E4)), (xbind_eq _ _ _ _ _ (Hbyte (-3) b3 E3)),
    (xbind_eq _ _ _ _ _ (Hbyte (-2) b2 E2)), (xbind_eq _ _ _ _ _ (Hbyte (-1) b1 E1)).
Qed.

(** *** Segments *)

Lemma segf_seg I pc i : segf I pc i -> seg I pc i.
Proof. intros [Hp (b & post & H)]. split; [done|]. by exists (Op b :: post). Qed.
(** A part before an instruction. *)
Lemma segf_app I pc i b j : segf I pc (i ++ Op b :: j) -> segf I pc i /\ segf I (pc + ilen i) (Op b :: j).
Proof.
  intros [Hp (b' & post & H)]. split; (split; [pose proof (ilen_nonneg i); lia|]).
  - exists b, (j ++ Op b' :: post). by rewrite H, <- app_assoc.
  - exists b', post. replace (Z.to_nat (pc + ilen i)) with (Z.to_nat pc + length i)%nat by (unfold ilen; lia).
    by rewrite <- drop_drop, H, <- app_assoc, drop_app_length.
Qed.
Lemma segf_cons I pc x i : segf I pc (x :: i) -> segf I (pc + 1) i.
Proof.
  intros [Hp (b & post & H)]. split; [lia|]. exists b, post. replace (Z.to_nat (pc + 1)) with (Z.to_nat pc + 1)%nat by lia.
  by rewrite <- drop_drop, H.
Qed.
Lemma segf_next I pc i : segf I pc i -> exists b post, seg I (pc + ilen i) (Op b :: post).
Proof.
  intros [Hp (b & post & H)]. exists b, post. split; [pose proof (ilen_nonneg i); lia|]. exists [].
  replace (Z.to_nat (pc + ilen i)) with (Z.to_nat pc + length i)%nat by (unfold ilen; lia).
  by rewrite <- drop_drop, H, drop_app_length, app_nil_r.
Qed.

(** Code begins with an instruction. *)
Definition starts (i : list item) : Prop := exists b j, i = Op b :: j.
Lemma starts_app i j : starts i -> starts (i ++ j).
Proof. intros (b & k & ->). by exists b, (k ++ j). Qed.
Lemma starts_var op id i : code_var op id i -> starts i.
Proof. intros [[_ ->]|[_ ->]]; by eexists _, _. Qed.
Lemma starts_lit L v i : code_lit L v i -> starts i.
Proof. intros [(n & _ & _ & ->)|(k & _ & _ & ->)]; by eexists _, _. Qed.


Lemma starts_covered :
  (forall e, covered e = true -> forall L pc c sv i, code_e L pc c sv e i -> starts i) /\
  (forall p : Expr_ptr, True) /\
  (forall args, covered_args args = true -> forall L pc c sv i, code_args L pc c sv args i -> starts i) /\
  (forall sc : Scatter, True).
Proof.
  apply Expr_ind_all; try done.
  - intros v _ L pc c sv i H. by eapply starts_lit.
  - intros id _ L pc c sv i H. by eapply starts_var.
  - intros lhs IHl rhs _ [Hl _]%andb_prop L pc c sv i (i1 & i2 & -> & H1 & _). eapply starts_app, IHl; eauto.
  - intros lhs IHl rhs _ [Hl _]%andb_prop L pc c sv i (i1 & i2 & -> & H1 & _). eapply starts_app, IHl; eauto.
  - intros base IHb from _ to _ [[Hl _]%andb_prop _]%andb_prop L pc c sv i (i1 & i2 & i3 & -> & H1 & _). eapply starts_app, IHb; eauto.
  - intros lhs _ rhs IHr Hc L pc c sv i H. destruct lhs; try done. destruct H as (i1 & i2 & i3 & -> & -> & H2 & _).
    cbn [app]. eapply starts_app, IHr; eauto.
  - intros kind lhs IHl rhs _ [Hl _]%andb_prop L pc c sv i (i1 & i2 & -> & H1 & _). eapply starts_app, IHl; eauto.
  - intros kind e IH He L pc c sv i (i1 & -> & H1). eapply starts_app, IH; eauto.
  - intros kind lhs IHl rhs _ [Hl _]%andb_prop L pc c sv i (i1 & i2 & -> & H1 & _). eapply starts_app, IHl; eauto.
  - intros x IHx y _ u _ [[Hx _]%andb_prop _]%andb_prop L pc c sv i (i1 & i2 & i3 & -> & H1 & _). eapply starts_app, IHx; eauto.
  - intros _ L pc c sv i H. cbn [code_e] in H. subst i. by eexists _, _.
  - intros _ L pc c sv i H. cbn [code_args] in H. subst i. by eexists _, _.
  - intros kind e IH next _ [He _]%andb_prop L pc c sv i (i1 & i2 & -> & H1 & _). eapply starts_app, IH; eauto.
Qed.

(** *** Running *)

Section Machine.
Context (null : Program) (same : Verbdef -> bool) (bf_table : list bi_func).
Context (find_line_number : Program -> Z -> Z -> Z) (unwind_fuel : nat).
Context (fmod : spec_float -> spec_float -> spec_float) (pow : spec_float -> spec_float -> spec_float * bool).
Context (task_timed_out : Z -> bool).
Context (Htime : forall t, task_timed_out t = false).

Notation joins := (joins null same bf_table find_line_number unwind_fuel fmod pow task_timed_out).
Notation faults := (faults null same bf_table find_line_number unwind_fuel fmod pow task_timed_out).
Notation fault := (fault null same bf_table find_line_number unwind_fuel).
Notation run_loop := (run_loop null same bf_table find_line_number unwind_fuel fmod pow task_timed_out).
Notation step := (step null same bf_table find_line_number unwind_fuel fmod pow task_timed_out).
Notation instruction := (instruction null same bf_table find_line_number unwind_fuel fmod pow).

Lemma joins_refl s : joins s s.
Proof. by exists O, O. Qed.
Lemma joins_sym s s' : joins s s' -> joins s' s.
Proof. intros (n & m & H). exists m, n. by intros k. Qed.
Lemma joins_trans s1 s2 s3 : joins s1 s2 -> joins s2 s3 -> joins s1 s3.
Proof.
  intros (n & m & H1) (n' & m' & H2). exists (n + n')%nat, (m' + m)%nat. intros k.
  replace (n + n' + k)%nat with (n + (n' + k))%nat by lia. rewrite H1.
  replace (m + (n' + k))%nat with (n' + (m + k))%nat by lia. rewrite H2. f_equal. lia.
Qed.
Lemma joins_faults s1 s2 s' q e : joins s1 s2 -> faults s2 s' q e -> faults s1 s' q e.
Proof.
  intros (n & m & H1) (n' & m' & H2). exists (n + n')%nat, (m' + m)%nat. intros k.
  replace (n + n' + k)%nat with (n + (n' + k))%nat by lia. rewrite H1.
  replace (m + (n' + k))%nat with (n' + (m + k))%nat by lia. rewrite H2.
  replace (m' + m + k)%nat with (m' + (m + k))%nat by lia. done.
Qed.
Lemma step_joins s s' : step s = Some (Go tt, s') -> joins s s'.
Proof. intros H. exists 1%nat, O. intros k. cbn [Nat.add Run.run_loop]. by rewrite H. Qed.
Lemma step_faults s s' q e : step s = fault q e s' -> faults s s' q e.
Proof. intros H. exists 1%nat, O. intros k. cbn [Nat.add Run.run_loop]. by rewrite H. Qed.
Lemma step_same s s' : step s = step s' -> joins s s'.
Proof. intros H. exists 1%nat, 1%nat. intros k. cbn [Nat.add Run.run_loop]. by rewrite H. Qed.

Section Activation.
Context (s : State) (a : activation) (l : list activation) (bc : Bytecodes) (z : sizes) (I : list item).
Context (Hcur : current s l a = Some bc) (V : vec bc z I).
Context (Hlits : Z.of_nat (length (p_literals (a_prog a))) < 2 ^ 32) (Hroom : rt_stack_room a < 2 ^ 32).
Notation C := (conf s a l).
Notation P := (place z I).
Notation settle := (settle (options s) (a_debug a)).
Notation answered := (fun r : res Var => match r with Val v => PUSH v | Err q e => fault q e end).

Lemma conf_ref k pc v i st env t ep : seg I pc (Ref k v :: i) -> v < 2 ^ 32 ->
  READ_BYTES (kind_size z k) (C (P pc) st env t ep) = Some (Go v, C (P (pc + 1)) st env t ep).
Proof.
  intros H Hv. pose proof (read_ref bc z I V pc k v i 0 [] [] [] H Hv) as Hd. pose proof (place_succ z _ _ _ _ H) as Hp.
  cbn [item_size] in Hp. rewrite Hp in *. by apply (conf_read _ _ _ _ _ _ _ _ bc).
Qed.
Lemma conf_label pc tgt i st env t ep : seg I pc (Lab tgt :: i) ->
  READ_LABEL (C (P pc) st env t ep) = Some (Go (P tgt), C (P (pc + 1)) st env t ep).
Proof.
  intros H. pose proof (read_label bc z I V pc tgt i 0 [] [] [] H) as Hd. pose proof (place_succ z _ _ _ _ H) as Hp.
  cbn [item_size] in Hp. unfold READ_LABEL. rewrite (xbind_eq _ _ _ _ _ (conf_bytecodes _ _ _ _ _ _ _ _ bc Hcur)). rewrite Hp in *.
  unfold Decompile.READ_LABEL in Hd. unfold nb_label in *. rewrite (v_sizes _ _ _ V) in *.
  by apply (conf_read _ _ _ _ _ _ _ _ bc).
Qed.
Lemma conf_var_name pc id i st env t ep : seg I pc (Ref FIXUP_VAR_REF id :: i) -> id < 2 ^ 32 ->
  READ_VAR_NAME (C (P pc) st env t ep) = Some (Go id, C (P (pc + 1)) st env t ep).
Proof.
  intros H Hid. unfold READ_VAR_NAME. rewrite (xbind_eq _ _ _ _ _ (conf_bytecodes _ _ _ _ _ _ _ _ bc Hcur)).
  unfold nb_var_name. rewrite (v_sizes _ _ _ V). by eapply (conf_ref FIXUP_VAR_REF).
Qed.

Lemma op_byte pc b i : seg I pc (Op b :: i) -> vector_byte bc (P pc) = Some b.
Proof.
  intros H. pose proof (next_byte_op bc z I V pc b i 0 [] [] [] H) as E. unfold Decompile.next_byte, mbind, D_bind, dget in E. cbn [ptr] in E.
  destruct (vector_byte bc (P pc)) as [b'|]; [|done]. by injection E as <-.
Qed.

(** An instruction: its ticks, and what it does. *)
Definition ticks_after (b t : Z) : Z := if COUNT_TICK b then t - 1 else t.
Lemma conf_step pc b i st env t ep : seg I pc (Op b :: i) -> 1 < t ->
  step (C (P pc) st env t ep) = instruction b (C (P (pc + 1)) st env (ticks_after b t) (P pc)).
Proof.
  intros H Ht. pose proof (place_op z _ _ _ _ H) as Ep. unfold Run.step.
  rewrite (xbind_eq _ _ _ _ _ (conf_mark _ _ _ _ _ _ _ _)), (xbind_eq _ _ _ _ _ (conf_next _ _ _ _ _ _ _ _ bc b Hcur (op_byte _ _ _ H))).
  rewrite <- Ep. unfold count_tick, ticks_after. destruct (COUNT_TICK b); [|done].
  set (c := C (P (pc + 1)) st env (t - 1) (P pc)).
  rewrite (xbind_eq _ _ _ tt c); [done|].
  rewrite (xbind_eq _ _ _ _ _ (conf_ticks s a l (P (pc + 1)) st env t (P pc) one_tick)), one_tick_pos by lia.
  rewrite (xbind_eq _ _ _ _ _ (conf_ticks_left s a l (P (pc + 1)) st env (t - 1) (P pc))).
  destruct (Z.leb_spec (t - 1) 0); [lia|]. by rewrite Htime.
Qed.
Lemma conf_ep_joins p st env t ep ep' : joins (C p st env t ep) (C p st env t ep').
Proof.
  apply step_same. unfold Run.step. by rewrite !(xbind_eq _ _ _ _ _ (conf_mark _ _ _ _ _ _ _ _)).
Qed.

(** An answer on the stack, or an error. *)
Definition room (st : list Var) : Prop := Z.of_nat (length st) < rt_stack_room a.
Lemma answer_settle r p st env t ep : room st ->
  match settle r with
  | Val v => answered r (C p st env t ep) = Some (Go tt, C p (v :: st) env t ep)
  | Err q e => r = Err q e
  end.
Proof.
  intros Hr. destruct r as [v|q e]; cbn [Eval.settle]; [by apply conf_push|].
  destruct (a_debug a) eqn:Hd; cbn [orb]; [done|].
  destruct q; cbn [andb].
  - destruct (bool_decide (e = E_QUOTA) && negb (SVO_MAX_CONCAT_CATCHABLE (options s))) eqn:Hq; [done|].
    unfold Eval.fault, PUSH_ERROR_UNLESS_QUOTA. rewrite (xbind_eq _ _ _ _ _ (conf_options _ _ _ _ _ _ _ _)), Hq.
    unfold PUSH_ERROR. erewrite xbind_eq; [by apply conf_push|].
    unfold RAISE_ERROR. rewrite (xbind_eq _ _ _ _ _ (conf_activ _ _ _ _ _ _ _ _)). destruct a. cbn in *. by rewrite Hd.
  - unfold Eval.fault, PUSH_ERROR. erewrite xbind_eq; [by apply conf_push|].
    unfold RAISE_ERROR. rewrite (xbind_eq _ _ _ _ _ (conf_activ _ _ _ _ _ _ _ _)). destruct a. cbn in *. by rewrite Hd.
Qed.

(** *** Evaluated *)

Notation extended_instruction := (extended_instruction null same bf_table find_line_number unwind_fuel pow).

(** From [B] the machine comes to the place [pc] with the value on [st], or to the
    error with [st] below what is on the stack; in [n] ticks at most. *)
Definition evaluated (B : State) (pc : Z) (st : list Var) (r : res Var) (env : list Var) (t n : Z) : Prop :=
  exists t', t - n <= t' <= t /\
    match r with
    | Val v => joins B (C (P pc) (v :: st) env t' 0)
    | Err q e => exists p more ep, faults B (C p (more ++ st) env t' ep) q e
    end.

Lemma evaluated_joins B B' pc st r env t n : joins B B' -> evaluated B' pc st r env t n -> evaluated B pc st r env t n.
Proof.
  intros H (t' & Ht & Hr). exists t'. split; [done|]. destruct r as [v|q e]; [by eapply joins_trans|].
  destruct Hr as (p & more & ep & Hf). exists p, more, ep. by eapply joins_faults.
Qed.
Lemma evaluated_more B pc pc' v st q e env t n n' : n <= n' ->
  evaluated B pc (v :: st) (Err q e) env t n -> evaluated B pc' st (Err q e) env t n'.
Proof.
  intros Hn (t' & Ht & p & more & ep & Hf). exists t'. split; [lia|]. exists p, (more ++ [v]), ep. by rewrite <- app_assoc.
Qed.
Lemma evaluated_err B pc pc' st q e env t n n' : n <= n' ->
  evaluated B pc st (Err q e) env t n -> evaluated B pc' st (Err q e) env t n'.
Proof. intros Hn (t' & Ht & Hf). exists t'. split; [lia|done]. Qed.
(** One value after the other. *)
Lemma evaluated_then B pc v st env t n pc2 st2 r env2 n2 :
  evaluated B pc st (Val v) env t n ->
  (forall t', t - n <= t' <= t -> evaluated (C (P pc) (v :: st) env t' 0) pc2 st2 r env2 t' n2) ->
  evaluated B pc2 st2 r env2 t (n + n2).
Proof.
  intros (t' & Ht & Hj) H. eapply evaluated_joins; [exact Hj|]. destruct (H t' Ht) as (t'' & Ht'' & Hr). exists t''. split; [lia|done].
Qed.
Lemma evaluated_weaken B pc st r env t n n' : n <= n' -> evaluated B pc st r env t n -> evaluated B pc st r env t n'.
Proof. intros Hn (t' & Ht & H). exists t'. split; [lia|done]. Qed.

(** A step that answers. *)
Lemma step_evaluated B pc p st r env t t' n ep : room st -> p = P pc -> t - n <= t' <= t ->
  step B = answered r (C p st env t' ep) -> evaluated B pc st (settle r) env t n.
Proof.
  intros Hr -> Ht Hs. pose proof (answer_settle r (P pc) st env t' ep Hr) as Ha. exists t'. split; [done|].
  destruct (settle r) as [v|q e].
  - eapply joins_trans; [apply step_joins; by rewrite Hs|]. apply conf_ep_joins.
  - subst r. exists (P pc), [], ep. by apply step_faults.
Qed.

Lemma conf_extended pc eop i st env t ep : seg I pc (Op OP_EXTENDED :: Op eop :: i) -> 1 < t ->
  exists t', t - 1 <= t' <= t /\
    step (C (P pc) st env t ep) = extended_instruction eop (C (P (pc + 2)) st env t' (P pc)).
Proof.
  intros H Ht. rewrite (conf_step pc _ _ st env t ep H Ht). apply seg_cons in H as [_ H].
  change (ticks_after OP_EXTENDED t) with t.
  change (instruction OP_EXTENDED) with (op_extended null same bf_table find_line_number unwind_fuel pow).
  unfold op_extended. rewrite (xbind_eq _ _ _ _ _ (conf_next _ _ _ _ _ _ _ _ bc eop Hcur (op_byte _ _ _ H))).
  rewrite <- (place_op z _ _ _ _ H). replace (pc + 1 + 1) with (pc + 2) by lia.
  destruct (COUNT_EOP_TICK eop); [exists (t - 1)|exists t]; (split; [lia|]).
  - by rewrite (xbind_eq _ _ _ _ _ (conf_ticks s a l (P (pc + 2)) st env t (P pc) one_tick)), one_tick_pos by lia.
  - by rewrite (xbind_eq _ _ _ tt (C (P (pc + 2)) st env t (P pc)) eq_refl).
Qed.

(** *** Operators *)

Notation pr := (null, same) (only parsing).
Notation push_or_error := (push_or_error null same bf_table find_line_number unwind_fuel).
Notation push_or_error_unless_quota := (push_or_error_unless_quota null same bf_table find_line_number unwind_fuel).

Lemma push_answer v : push_or_error v = answered (answer false v).
Proof. by destruct v. Qed.
Lemma push_answer_quota v : push_or_error_unless_quota v = answered (answer true v).
Proof. by destruct v. Qed.

Ltac pops := repeat (rewrite (xbind_eq _ _ _ _ _ (conf_pop _ _ _ _ _ _ _ _ _)) || rewrite (xbind_eq _ _ _ _ _ (conf_options _ _ _ _ _ _ _ _))).
Lemma need_eq {A B} (x : option A) (f : A -> X B) c y : x = Some y -> (need x ≫= f) c = f y c.
Proof. by intros ->. Qed.

Lemma arith_instr op f p lhs rhs st env t ep raw : numeric f lhs rhs = Some raw ->
  (forall l r, f l r = (if op =? OP_MULT then do_multiply l r else if op =? OP_MINUS then do_subtract l r
                        else if op =? OP_DIV then do_divide l r else do_modulus fmod l r)) ->
  op_arith null same bf_table find_line_number unwind_fuel fmod op (C p (rhs :: lhs :: st) env t ep) = answered raw (C p st env t ep).
Proof.
  intros H Hf. unfold op_arith. pops. unfold numeric in H. rewrite Hf in H.
  destruct (int_or_float lhs && int_or_float rhs).
  - destruct (if op =? OP_MULT then _ else _) as [v|]; [|done]. injection H as <-. rewrite (need_eq _ _ _ v eq_refl). by rewrite push_answer.
  - injection H as <-. done.
Qed.
Lemma bitwise_instr op f p lhs rhs st env t ep raw : bits f lhs rhs = Some raw ->
  (forall x y, f x y = (if op =? EOP_BITAND then Z.land x y else if op =? EOP_BITXOR then Z.lxor x y else Z.lor x y)) ->
  eop_bitwise null same bf_table find_line_number unwind_fuel op (C p (rhs :: lhs :: st) env t ep) = answered raw (C p st env t ep).
Proof. intros H Hf. unfold eop_bitwise. pops. unfold bits in H. destruct lhs, rhs; injection H as <-; try done. by rewrite Hf. Qed.
Lemma shift_instr op f p lhs rhs st env t ep raw : shift f lhs rhs = Some raw ->
  (forall x y, f x y = (if op =? EOP_SHL then Some (Num (Z.shiftl x y)) else if op =? EOP_SHR then SHIFTR x y else LOGSHIFTR x y)) ->
  eop_shift null same bf_table find_line_number unwind_fuel op (C p (rhs :: lhs :: st) env t ep) = answered raw (C p st env t ep).
Proof.
  intros H Hf. unfold eop_shift. pops. unfold shift in H. destruct lhs, rhs as [y| | | | | | | | |]; try by injection H as <-.
  destruct (_ || _); [by injection H as <-|]. rewrite Hf in H.
  destruct (if op =? EOP_SHL then _ else _) as [v|]; [|done]. injection H as <-. by rewrite (need_eq _ _ _ v eq_refl).
Qed.
Lemma compare_instr op v p lhs rhs st env t ep :
  (if (op =? OP_LE) || (op =? OP_GT) then compare_le (negb (op =? OP_LE)) lhs rhs else compare_le (negb (op =? OP_GE)) rhs lhs) = Some v ->
  op_compare null same bf_table find_line_number unwind_fuel op (C p (rhs :: lhs :: st) env t ep) = answered (answer false v) (C p st env t ep).
Proof.
  intros H. unfold op_compare. destruct (_ || _); pops; rewrite (need_eq _ _ _ v H); by rewrite push_answer.
Qed.

Definition run_op (op : bool * Z) : X unit := (if fst op then extended_instruction else instruction) (snd op).

Lemma binary_instr kind p lhs rhs st env t ep raw : binary_value fmod pow (options s) kind lhs rhs = Some raw ->
  run_op (binary_op kind) (C p (rhs :: lhs :: st) env t ep) = answered raw (C p st env t ep).
Proof.
  intros H. destruct kind; unfold run_op; cbn [binary_op fst snd binary_value] in *.
  - change (instruction OP_ADD) with (op_add null same bf_table find_line_number unwind_fuel). unfold op_add. pops.
    destruct lhs, rhs; cbn [int_or_float andb] in *; try (by injection H as <-);
      try (by destruct (do_add _ _) as [v|] eqn:Ev; [|done]; injection H as <-; rewrite (need_eq _ _ _ v eq_refl), push_answer_quota).
    injection H as <-. rewrite (need_eq _ _ _ _ eq_refl), push_answer_quota. by destruct (_ <? _).
  - by eapply (arith_instr OP_MINUS).
  - by eapply (arith_instr OP_MULT).
  - by eapply (arith_instr OP_DIV).
  - by eapply (arith_instr OP_MOD).
  - change (instruction OP_EQ) with (op_eq false). unfold op_eq. pops.
    destruct (equality rhs lhs false) as [b|] eqn:Eb; [|done]. injection H as <-. by rewrite (need_eq _ _ _ b eq_refl).
  - change (instruction OP_NE) with (op_eq true). unfold op_eq. pops.
    destruct (equality rhs lhs false) as [b|] eqn:Eb; [|done]. injection H as <-. by rewrite (need_eq _ _ _ b eq_refl).
  - destruct (compare_le true rhs lhs) as [v|] eqn:Ev; [|done]. injection H as <-. by apply (compare_instr OP_LT).
  - destruct (compare_le false lhs rhs) as [v|] eqn:Ev; [|done]. injection H as <-. by apply (compare_instr OP_LE).
  - destruct (compare_le true lhs rhs) as [v|] eqn:Ev; [|done]. injection H as <-. by apply (compare_instr OP_GT).
  - destruct (compare_le false rhs lhs) as [v|] eqn:Ev; [|done]. injection H as <-. by apply (compare_instr OP_GE).
  - change (instruction OP_IN) with (op_in null same bf_table find_line_number unwind_fuel). unfold op_in. pops.
    destruct rhs; try (by injection H as <-). destruct (ismember _ _ _) as [i|] eqn:Ei; [|done]. injection H as <-.
    by rewrite (need_eq _ _ _ i eq_refl).
  - change (extended_instruction EOP_EXP) with (eop_exp null same bf_table find_line_number unwind_fuel pow). unfold eop_exp. pops.
    destruct (do_power pow lhs rhs) as [v|] eqn:Ev; [|done]. injection H as <-. by rewrite (need_eq _ _ _ v eq_refl), push_answer.
  - by eapply (bitwise_instr EOP_BITOR).
  - by eapply (bitwise_instr EOP_BITXOR).
  - by eapply (bitwise_instr EOP_BITAND).
  - by eapply (shift_instr EOP_SHL).
  - by eapply (shift_instr EOP_SHR).
  - by eapply (shift_instr EOP_LSHR).
Qed.

Lemma unary_instr kind p v st env t ep :
  run_op (unary_op kind) (C p (v :: st) env t ep) = answered (unary_value kind v) (C p st env t ep).
Proof.
  destruct kind; unfold run_op; cbn [unary_op fst snd].
  - change (instruction OP_UNARY_MINUS) with (op_unary_minus null same bf_table find_line_number unwind_fuel).
    unfold op_unary_minus. pops. by destruct v.
  - change (instruction OP_NOT) with op_not. unfold op_not. by pops.
  - change (extended_instruction EOP_COMPLEMENT) with (eop_complement null same bf_table find_line_number unwind_fuel).
    unfold eop_complement. pops. by destruct v.
Qed.

Lemma ref_instr p base index st env t ep raw : ref_value base index = Some raw ->
  instruction OP_REF (C p (index :: base :: st) env t ep) = answered raw (C p st env t ep).
Proof.
  intros H. change (instruction OP_REF) with (op_ref null same bf_table find_line_number unwind_fuel). unfold op_ref. pops.
  unfold ref_value in H. destruct index as [i| | | | | | | | |]; try (by injection H as <-). destruct base as [| |str| |lst| | | | |]; try (by injection H as <-).
  - destruct (i <? 1); [by injection H as <-|]. destruct (utf_byte_index str i) as [bi|] eqn:Eb; [|done]. cbn [mbind option_bind] in H.
    rewrite (need_eq _ _ _ bi eq_refl). destruct (_ <? _); [by injection H as <-|].
    destruct (substr _ _ _) as [r|] eqn:Er; [|done]. injection H as <-. by rewrite (need_eq _ _ _ r eq_refl).
  - destruct (i <? 1); [by injection H as <-|]. cbn [orb] in H. destruct (_ <? i); [by injection H as <-|].
    destruct (aread lst i) as [r|] eqn:Er; [|done]. injection H as <-. by rewrite (need_eq _ _ _ r eq_refl).
Qed.

Lemma range_instr p base from to st env t ep raw : range_value base from to = Some raw ->
  instruction OP_RANGE_REF (C p (to :: from :: base :: st) env t ep) = answered raw (C p st env t ep).
Proof.
  intros H. change (instruction OP_RANGE_REF) with (op_range_ref null same bf_table find_line_number unwind_fuel). unfold op_range_ref. pops.
  unfold range_value in H. destruct to as [i| | | | | | | | |]; try (by injection H as <-). destruct from as [f| | | | | | | | |]; try (by injection H as <-).
  destruct base as [| |str| |lst| | | | |]; try (by injection H as <-).
  - destruct (utf_byte_range str (f, Num (i + 1))) as [[bf ba]|] eqn:Eb; [|done]. cbn [mbind option_bind] in H.
    rewrite (need_eq _ _ _ (bf, ba) eq_refl). destruct (rangeref_fails _ _ _); [by injection H as <-|].
    destruct (substr _ _ _) as [r|] eqn:Er; [|done]. injection H as <-. by rewrite (need_eq _ _ _ r eq_refl).
  - destruct (rangeref_fails _ _ _); [by injection H as <-|].
    destruct (sublist _ _ _) as [r|] eqn:Er; [|done]. injection H as <-. by rewrite (need_eq _ _ _ r eq_refl).
Qed.

Lemma tail_instr p lst v st env t ep raw : add_tail (options s) lst v = Some raw ->
  instruction OP_LIST_ADD_TAIL (C p (v :: lst :: st) env t ep) = answered raw (C p st env t ep).
Proof.
  intros H. change (instruction OP_LIST_ADD_TAIL) with (op_list_add_tail null same bf_table find_line_number unwind_fuel).
  unfold op_list_add_tail. pops. unfold add_tail in H. destruct lst; try (by injection H as <-).
  destruct (_ <=? _); [by injection H as <-|]. destruct (listappend _ _ _) as [r|] eqn:Er; [|done]. injection H as <-.
  by rewrite (need_eq _ _ _ r eq_refl).
Qed.
Lemma append_instr p lst v st env t ep raw : append (options s) lst v = Some raw ->
  instruction OP_LIST_APPEND (C p (v :: lst :: st) env t ep) = answered raw (C p st env t ep).
Proof.
  intros H. change (instruction OP_LIST_APPEND) with (op_list_append null same bf_table find_line_number unwind_fuel).
  unfold op_list_append. pops. unfold append in H. destruct v; try (by injection H as <-). destruct lst; try (by injection H as <-).
  destruct (_ <? _); [by injection H as <-|]. destruct (listconcat _ _) as [r|] eqn:Er; [|done]. injection H as <-.
  by rewrite (need_eq _ _ _ r eq_refl).
Qed.
Lemma prop_instr p obj name st env t ep raw : prop_value_of (database s) (options s) (a_progr a) obj name = Some raw ->
  instruction OP_GET_PROP (C p (name :: obj :: st) env t ep) = answered raw (C p st env t ep).
Proof.
  intros H. change (instruction OP_GET_PROP) with (op_get_prop null same bf_table find_line_number unwind_fuel).
  unfold op_get_prop. pops. unfold get_prop.
  rewrite (xbind_eq _ _ _ _ _ (conf_activ _ _ _ _ _ _ _ _)), (xbind_eq _ _ _ _ _ (conf_database _ _ _ _ _ _ _ _)), (xbind_eq _ _ _ _ _ (conf_options _ _ _ _ _ _ _ _)).
  replace (a_progr (set_rt_stack st _)) with (a_progr a) by by destruct a.
  unfold prop_value_of in H. destruct name; try (by injection H as <-). destruct obj; try (by injection H as <-).
  destruct (negb _); [by injection H as <-|]. destruct (fetch_prop _ _ _ _ _) as [r|] eqn:Er; [|done]. injection H as <-.
  rewrite (need_eq _ _ _ r eq_refl). by destruct r.
Qed.

(** *** Variables and literals *)

(** Instructions that number a variable. *)
Lemma ready_var (Q : Z -> Prop) (n : nat) : (forall k : nat, (k < n)%nat -> Q (Z.of_nat k)) -> forall id, 0 <= id < Z.of_nat n -> Q id.
Proof. intros H id Hid. specialize (H (Z.to_nat id)). rewrite Z2Nat.id in H by lia. apply H. lia. Qed.
Lemma instr_push id : 0 <= id < NUM_READY_VARS -> instruction (OP_PUSH + id) = op_push_n null same bf_table find_line_number unwind_fuel (OP_PUSH + id).
Proof. revert id. apply (ready_var _ 32). intros k Hk. do 32 (destruct k as [|k]; [reflexivity|]). lia. Qed.
Lemma instr_put id : 0 <= id < NUM_READY_VARS -> instruction (OP_PUT + id) = op_put_n (OP_PUT + id).
Proof. revert id. apply (ready_var _ 32). intros k Hk. do 32 (destruct k as [|k]; [reflexivity|]). lia. Qed.
Lemma instr_num n : IN_OPTIM_NUM_RANGE n = true -> instruction (OPTIM_NUM_TO_OPCODE n) = op_optim_num (OPTIM_NUM_TO_OPCODE n).
Proof.
  unfold IN_OPTIM_NUM_RANGE. intros [H1 H2]%andb_prop. apply Z.leb_le in H1, H2.
  replace n with ((n + 10) - 10) by lia. assert (Hn : 0 <= n + 10 < Z.of_nat 146).
  { change OPTIM_NUM_LOW with (-10) in H1. let v := eval vm_compute in OPTIM_NUM_HI in change OPTIM_NUM_HI with v in H2. lia. }
  revert Hn. generalize (n + 10). apply ready_var. intros k Hk. do 146 (destruct k as [|k]; [reflexivity|]). lia.
Qed.

Lemma ticks_after_range b t : t - 1 <= ticks_after b t <= t.
Proof. unfold ticks_after. destruct (COUNT_TICK b); lia. Qed.

Definition var_res (v : Var) : res Var := match v with VNone => Err false E_VARNF | _ => Val v end.
Lemma push_variable_eq id v p st env t ep : env_get env id = Some v ->
  push_variable null same bf_table find_line_number unwind_fuel id (C p st env t ep) = answered (var_res v) (C p st env t ep).
Proof. intros H. unfold push_variable. rewrite (xbind_eq _ _ _ _ _ (conf_get _ _ _ _ _ _ _ _ _ _ H)). by destruct v. Qed.

Lemma run_push_var id i pc v st env t : slot_ok id = true -> code_var OP_PUSH id i -> segf I pc i -> env_get env id = Some v ->
  room st -> 1 < t -> evaluated (C (P pc) st env t 0) (pc + ilen i) st (settle (var_res v)) env t (ilen i).
Proof.
  intros Hid Hc Hs Hv Hr Ht. apply andb_prop in Hid as [H1 H2]. apply Z.leb_le in H1. apply Z.ltb_lt in H2. apply segf_seg in Hs.
  destruct Hc as [[Hrg ->]|[Hrg ->]].
  - pose proof (ticks_after_range (OP_PUSH + id) t). eapply (step_evaluated _ _ (P (pc + 1)) _ _ _ _ _ _ (P pc) Hr eq_refl).
    2: { rewrite (conf_step pc _ [] st env t 0 Hs Ht), (instr_push id Hrg). unfold op_push_n, PUSH_n_INDEX.
         replace (OP_PUSH + id - OP_PUSH) with id by lia. by apply push_variable_eq. }
    rewrite ilen_cons, ilen_nil. lia.
  - pose proof (ticks_after_range OP_G_PUSH t). eapply (step_evaluated _ _ (P (pc + 2)) _ _ _ _ _ _ (P pc) Hr eq_refl).
    2: { change (OP_PUSH + NUM_READY_VARS) with OP_G_PUSH in *. rewrite (conf_step pc _ _ st env t 0 Hs Ht).
         change (instruction OP_G_PUSH) with (op_g_push null same bf_table find_line_number unwind_fuel). unfold op_g_push.
         apply seg_cons in Hs as [_ Hs]. rewrite (xbind_eq _ _ _ _ _ (conf_var_name _ _ _ _ _ _ _ Hs ltac:(lia))).
         replace (pc + 1 + 1) with (pc + 2) by lia. by apply push_variable_eq. }
    rewrite !ilen_cons, ilen_nil. lia.
Qed.

(** POP undoes what was left on the stack. *)
Lemma pop_joins pc post v st env t ep ep' : seg I pc (Op OP_POP :: post) -> 1 < t ->
  joins (C (P pc) (v :: st) env t ep) (C (P pc + 1) st env t ep').
Proof.
  intros Hs Ht. eapply joins_trans; [apply step_joins|apply conf_ep_joins].
  rewrite (conf_step pc _ _ (v :: st) env t ep Hs Ht). change (instruction OP_POP) with op_pop. unfold op_pop.
  rewrite (xbind_eq _ _ _ _ _ (conf_pop _ _ _ _ _ _ _ _ _)). by rewrite (place_op z _ _ _ _ Hs).
Qed.

Lemma run_lit v i pc st env t : code_lit (p_literals (a_prog a)) v i -> segf I pc i ->
  room st -> 1 < t -> evaluated (C (P pc) st env t 0) (pc + ilen i) st (Val v) env t (ilen i).
Proof.
  intros Hc Hs Hr Ht. pose proof (segf_next _ _ _ Hs) as (b & post & Hn). apply segf_seg in Hs.
  destruct Hc as [(n & -> & Hrg & ->)|(k & Hk & HL & ->)].
  - pose proof (ticks_after_range (OPTIM_NUM_TO_OPCODE n) t) as Htk. exists (ticks_after (OPTIM_NUM_TO_OPCODE n) t).
    rewrite ilen_cons, ilen_nil in *. split; [lia|].
    eapply joins_trans; [apply step_joins|apply conf_ep_joins]. rewrite (conf_step pc _ [] st env t 0 Hs Ht), (instr_num n Hrg).
    unfold op_optim_num. rewrite conf_push by done. do 4 f_equal. unfold OPTIM_NUM_TO_OPCODE, OPCODE_TO_OPTIM_NUM. f_equal. f_equal. lia.
  - exists t. change (ilen [Op OP_IMM; Ref FIXUP_LITERAL k]) with 2 in *. split; [lia|].
    assert (Hk' : k < 2 ^ 32) by (apply lookup_lt_Some in HL; lia).
    assert (Hstep : step (C (P pc) st env t 0) = op_imm (C (P (pc + 1)) st env t (P pc))) by apply (conf_step pc _ _ st env t 0 Hs Ht).
    unfold op_imm in Hstep. rewrite (xbind_eq _ _ _ _ _ (conf_bytecodes _ _ _ _ _ _ _ _ bc Hcur)) in Hstep.
    apply seg_cons in Hs as [_ Hs]. pose proof (place_succ z _ _ _ _ Hs) as Ep. cbn [item_size] in Ep. replace (pc + 1 + 1) with (pc + 2) in Ep by lia.
    assert (En : nb_literal bc = kind_size z FIXUP_LITERAL) by (unfold nb_literal; by rewrite (v_sizes _ _ _ V)).
    pose proof (op_byte _ _ _ Hn) as Hb. rewrite Ep, <- En in Hb.
    rewrite (xbind_eq _ _ _ _ _ (conf_byte _ _ _ _ _ _ _ _ bc _ b Hcur Hb)) in Hstep.
    destruct (Z.eqb_spec b OP_POP) as [->|_].
    + eapply joins_trans; [apply step_joins; rewrite Hstep, conf_skip; reflexivity|]. apply joins_sym.
      replace (P (pc + 1) + (nb_literal bc + 1)) with (P (pc + 2) + 1) by lia. eapply pop_joins; [exact Hn|done].
    + eapply joins_trans; [apply step_joins; rewrite Hstep|apply conf_ep_joins].
      unfold READ_LITERAL. rewrite (xbind_eq (bytecodes ≫= _) _ _ k (C (P (pc + 2)) st env t (P pc))).
      * rewrite (xbind_eq _ _ _ _ _ (conf_activ _ _ _ _ _ _ _ _)). replace (a_prog (set_rt_stack st _)) with (a_prog a) by by destruct a.
        rewrite (need_eq _ _ _ v HL). by apply conf_push.
      * rewrite (xbind_eq _ _ _ _ _ (conf_bytecodes _ _ _ _ _ _ _ _ bc Hcur)), En.
        rewrite (conf_ref FIXUP_LITERAL (pc + 1) k _ _ _ _ _ Hs Hk'). by replace (pc + 1 + 1) with (pc + 2) by lia.
Qed.

Lemma run_put_var id i pc v st env env' t : slot_ok id = true -> code_var OP_PUT id i -> segf I pc i ->
  set_rt_env_var env id v = Some env' -> ilen i + 1 < t ->
  exists t', t - ilen i <= t' <= t /\ joins (C (P pc) (v :: st) env t 0) (C (P (pc + ilen i)) (v :: st) env' t' 0).
Proof.
  intros Hid Hc Hs Hv Ht. apply andb_prop in Hid as [H1 H2]. apply Z.leb_le in H1. apply Z.ltb_lt in H2.
  pose proof (segf_next _ _ _ Hs) as (b & post & Hn). apply segf_seg in Hs. destruct Hc as [[Hrg ->]|[Hrg ->]].
  - change (ilen [Op (OP_PUT + id)]) with 1 in *. exists (t - 1). split; [lia|].
    assert (Hstep : step (C (P pc) (v :: st) env t 0) = op_put_n (OP_PUT + id) (C (P (pc + 1)) (v :: st) env (t - 1) (P pc))).
    { rewrite (conf_step pc _ _ (v :: st) env t 0 Hs ltac:(lia)), (instr_put id Hrg). unfold ticks_after.
      assert (COUNT_TICK (OP_PUT + id) = true) as ->; [|done]. unfold COUNT_TICK. change NUM_READY_VARS with 32 in Hrg.
      change OP_G_PUT with 66. change OP_PUT with 34. lia. }
    unfold op_put_n in Hstep. pose proof (op_byte _ _ _ Hn) as Hb. rewrite <- (Z.add_0_r (P (pc + 1))) in Hb.
    rewrite (xbind_eq _ _ _ _ _ (conf_byte _ _ _ _ _ _ _ _ bc _ b Hcur Hb)) in Hstep.
    unfold PUT_n_INDEX in Hstep. replace (OP_PUT + id - OP_PUT) with id in Hstep by lia.
    destruct (Z.eqb_spec b OP_POP) as [->|_].
    + rewrite (xbind_eq _ _ _ _ _ (conf_pop _ _ _ _ _ _ _ _ _)), (xbind_eq _ _ _ _ _ (conf_put _ _ _ _ _ _ _ _ _ _ _ Hv)), conf_skip in Hstep.
      eapply joins_trans; [apply step_joins; exact Hstep|]. apply joins_sym.
      apply (pop_joins (pc + 1) post v st env' (t - 1) 0 (P pc) Hn). lia.
    + rewrite (xbind_eq _ _ _ _ _ (conf_top _ _ _ _ _ _ _ _ _)), (conf_put _ _ _ _ _ _ _ _ _ _ _ Hv) in Hstep.
      eapply joins_trans; [apply step_joins; exact Hstep|apply conf_ep_joins].
  - change (OP_PUT + NUM_READY_VARS) with OP_G_PUT in *. change (ilen [Op OP_G_PUT; Ref FIXUP_VAR_REF id]) with 2 in *.
    exists (t - 1). split; [lia|]. eapply joins_trans; [apply step_joins|apply conf_ep_joins].
    rewrite (conf_step pc _ _ (v :: st) env t 0 Hs ltac:(lia)). change (ticks_after OP_G_PUT t) with (t - 1).
    change (instruction OP_G_PUT) with op_g_put. unfold op_g_put. apply seg_cons in Hs as [_ Hs].
    rewrite (xbind_eq _ _ _ _ _ (conf_var_name _ _ _ _ _ _ _ Hs ltac:(lia))). replace (pc + 1 + 1) with (pc + 2) by lia.
    rewrite (xbind_eq _ _ _ _ _ (conf_top _ _ _ _ _ _ _ _ _)). by apply conf_put.
Qed.

(** *** Jumps and [$] *)

Lemma do_test_eq pc tgt i v st env t ep : seg I pc (Lab tgt :: i) ->
  do_test (C (P pc) (v :: st) env t ep) = Some (Go tt, C (P (if is_true v then pc + 1 else tgt)) st env t ep).
Proof.
  intros H. unfold do_test. rewrite (xbind_eq _ _ _ _ _ (conf_pop _ _ _ _ _ _ _ _ _)). destruct (is_true v); cbn [negb].
  - rewrite (xbind_eq _ _ _ _ _ (conf_bytecodes _ _ _ _ _ _ _ _ bc Hcur)), conf_skip.
    pose proof (place_succ z _ _ _ _ H) as Ep. cbn [item_size] in Ep. unfold nb_label. rewrite (v_sizes _ _ _ V). by rewrite Ep.
  - rewrite (xbind_eq _ _ _ _ _ (conf_label _ _ _ _ _ _ _ H)). apply conf_jump.
Qed.

Lemma stack_at_eq sv v p st env t ep : 0 <= sv -> reverse st !! Z.to_nat sv = Some v ->
  stack_at sv (C p st env t ep) = Some (Go v, C p st env t ep).
Proof.
  intros H0 H. unfold stack_at. rewrite (xbind_eq _ _ _ _ _ (conf_activ _ _ _ _ _ _ _ _)).
  replace (a_rt_stack (set_rt_stack st _)) with st by by destruct a.
  pose proof (lookup_lt_Some _ _ _ H) as Hlt. rewrite length_reverse in Hlt.
  destruct (Z.ltb_spec sv (Z.of_nat (length st))); [|lia]. unfold need.
  assert (E : st !! Z.to_nat (Z.of_nat (length st) - 1 - sv) = Some v).
  { rewrite reverse_lookup in H by done. rewrite <- H. f_equal. lia. }
  by rewrite E.
Qed.

Lemma length_instr pc sv i v raw st env t ep : seg I pc (Ref FIXUP_STACK sv :: i) -> dollar (Some v) sv st -> sv < 2 ^ 32 ->
  length_value v = Some raw ->
  extended_instruction EOP_LENGTH (C (P pc) st env t ep) = answered raw (C (P (pc + 1)) st env t ep).
Proof.
  intros Hs [H0 Hv] Hsv H. change (extended_instruction EOP_LENGTH) with (eop_length null same bf_table find_line_number unwind_fuel).
  unfold eop_length, READ_STACK.
  rewrite (xbind_eq (bytecodes ≫= _) _ _ sv (C (P (pc + 1)) st env t ep)).
  - rewrite (xbind_eq _ _ _ _ _ (stack_at_eq sv v _ _ _ _ _ H0 Hv)). unfold length_value in H.
    destruct v; try (by injection H as <-). destruct (memo_strlen_utf _) as [n|] eqn:En; [|done]. injection H as <-.
    by rewrite (need_eq _ _ _ n eq_refl).
  - rewrite (xbind_eq _ _ _ _ _ (conf_bytecodes _ _ _ _ _ _ _ _ bc Hcur)). unfold nb_stack. rewrite (v_sizes _ _ _ V).
    by apply (conf_ref FIXUP_STACK pc sv i).
Qed.

(** *** Expressions *)

Notation L := (p_literals (a_prog a)).
Notation eval := (eval fmod pow (database s) (options s) (a_progr a) (a_debug a)).
Notation eval_args := (eval_args fmod pow (database s) (options s) (a_progr a) (a_debug a)).
Notation eval_more := (eval_more fmod pow (database s) (options s) (a_progr a) (a_debug a)).
Notation result := (result (options s) (a_debug a)).

Definition fits_in (st : list Var) (d : Z) : Prop := Z.of_nat (length st) + d <= rt_stack_room a.

Definition comp (e : Expr) : Prop := forall inx base pc c sv i st env t r env',
  wf_e inx e = true -> covered e = true -> code_e L pc c sv e i -> segf I pc i ->
  eval base e env = Some (r, env') -> Z.of_nat (length st) = c -> dollar base sv st -> fits_in st (depth_e e) -> ilen i + 1 < t ->
  evaluated (C (P pc) st env t 0) (pc + ilen i) st r env' t (ilen i).
Definition comp_args (args : Arg_List) : Prop := forall inx base pc c sv i st env t r env',
  wf_args inx args = true -> covered_args args = true -> code_args L pc c sv args i -> segf I pc i ->
  eval_args base args env = Some (r, env') -> Z.of_nat (length st) = c -> dollar base sv st -> fits_in st (depth_args args) -> ilen i + 1 < t ->
  evaluated (C (P pc) st env t 0) (pc + ilen i) st r env' t (ilen i).
(** The list so far is on the stack. *)
Definition comp_more (args : Arg_List) : Prop := forall inx base pc c sv i list_ st env t r env',
  wf_args inx args = true -> covered_args args = true -> code_more L pc c sv args i -> segf I pc i ->
  eval_more base list_ args env = Some (r, env') -> Z.of_nat (length st) + 1 = c -> dollar base sv st ->
  fits_in st (1 + depth_more args) -> ilen i + 1 < t ->
  evaluated (C (P pc) (list_ :: st) env t 0) (pc + ilen i) st r env' t (ilen i).

Lemma ebind_inv {A B} (m : E A) (f : A -> E B) env r env' : (m ≫= f) env = Some (r, env') ->
  (exists q e, m env = Some (Err q e, env') /\ r = Err q e) \/
  (exists v env1, m env = Some (Val v, env1) /\ f v env1 = Some (r, env')).
Proof.
  unfold mbind, E_bind. destruct (m env) as [[[v|q e] env1]|] eqn:Em; [| |done]; intros H.
  - right. eauto.
  - left. injection H as <- <-. eauto.
Qed.
Lemma result_inv raw env r env' : result raw env = Some (r, env') -> exists x, raw = Some x /\ r = settle x /\ env' = env.
Proof. unfold Eval.result. destruct raw as [x|]; [|done]. intros H. injection H as <- <-. eauto. Qed.

Lemma evaluated_conv B pc pc' st r env t n n' : pc = pc' -> n <= n' -> evaluated B pc st r env t n -> evaluated B pc' st r env t n'.
Proof. intros <-. apply evaluated_weaken. Qed.
Lemma segf_split pc i j : segf I pc (i ++ j) -> starts j -> segf I pc i /\ segf I (pc + ilen i) j.
Proof. intros H (b & k & ->). by apply segf_app. Qed.
Lemma starts_op op : starts (code_op op).
Proof. destruct op as [[] b]; by eexists _, _. Qed.
Lemma dollar_push base sv v st : dollar base sv st -> dollar base sv (v :: st).
Proof.
  destruct base as [x|]; [|done]. intros [H0 H]. split; [done|]. rewrite reverse_cons. by apply lookup_app_l_Some.
Qed.
Lemma dollar_top v st : dollar (Some v) (Z.of_nat (length st)) (v :: st).
Proof.
  split; [lia|]. rewrite reverse_cons, lookup_app_r by (rewrite length_reverse; lia).
  by replace (Z.to_nat (Z.of_nat (length st)) - length (reverse st))%nat with O by (rewrite length_reverse; lia).
Qed.

(** An operator on what was evaluated. *)
Lemma run_byte b post pc st0 st env t raw : seg I pc (Op b :: post) -> room st -> 1 < t ->
  (forall p t ep, instruction b (C p st0 env t ep) = answered raw (C p st env t ep)) ->
  evaluated (C (P pc) st0 env t 0) (pc + 1) st (settle raw) env t 1.
Proof.
  intros Hs Hr Ht H. pose proof (ticks_after_range b t).
  eapply (step_evaluated _ _ (P (pc + 1)) _ _ _ _ (ticks_after b t) _ (P pc) Hr eq_refl); [lia|].
  by rewrite (conf_step pc b post st0 env t 0 Hs Ht), <- H.
Qed.
Lemma run_operator op pc st0 st env t raw : segf I pc (code_op op) -> room st -> 1 < t ->
  (forall p t ep, run_op op (C p st0 env t ep) = answered raw (C p st env t ep)) ->
  evaluated (C (P pc) st0 env t 0) (pc + ilen (code_op op)) st (settle raw) env t (ilen (code_op op)).
Proof.
  intros Hs Hr Ht H. apply segf_seg in Hs. destruct op as [[] b]; cbn [code_op] in *.
  - destruct (conf_extended pc b [] st0 env t 0 Hs Ht) as (t' & Ht' & E). eapply (step_evaluated _ _ (P (pc + 2)) _ _ _ _ t' _ (P pc) Hr eq_refl).
    + change (ilen _) with 2. lia.
    + rewrite E. by rewrite <- H.
  - change (ilen _) with 1. by eapply run_byte.
Qed.

Lemma evaluated_jump B pc post T st r env t n : evaluated B pc st r env t n -> seg I pc (Op OP_JUMP :: Lab T :: post) -> 1 + n < t ->
  evaluated B T st r env t n.
Proof.
  intros (t' & Ht' & H) Hs Ht. exists t'. split; [done|]. destruct r as [v|q e]; [|done].
  eapply joins_trans; [exact H|]. eapply joins_trans; [apply step_joins|apply conf_ep_joins].
  rewrite (conf_step pc _ _ (v :: st) env t' 0 Hs ltac:(lia)). change (ticks_after OP_JUMP t') with t'. change (instruction OP_JUMP) with op_jump.
  apply seg_cons in Hs as [_ Hs]. unfold op_jump. rewrite (xbind_eq _ _ _ _ _ (conf_label _ _ _ _ _ _ _ Hs)). apply conf_jump.
Qed.

(** One operand after the other. *)
Ltac nonneg := repeat match goal with |- context [ilen ?i] => lazymatch goal with H : 0 <= ilen i |- _ => fail | _ => pose proof (ilen_nonneg i) end
                                   | H : context [ilen ?i] |- _ => lazymatch goal with H : 0 <= ilen i |- _ => fail | _ => pose proof (ilen_nonneg i) end end.
Lemma comp_binary pc c sv base inx lhs rhs i1 i2 op st env t r env' (f : Var -> Var -> option (res Var)) inx2 sv2 (base2 : Var -> option Var) :
  comp lhs -> comp rhs ->
  wf_e inx lhs = true -> wf_e inx2 rhs = true -> covered lhs = true -> covered rhs = true ->
  code_e L pc c sv lhs i1 -> code_e L (pc + ilen i1) (c + 1) sv2 rhs i2 -> segf I pc (i1 ++ i2 ++ code_op op) ->
  (l ← eval base lhs; r ← eval (base2 l) rhs; result (f l r)) env = Some (r, env') ->
  Z.of_nat (length st) = c -> dollar base sv st -> (forall l, dollar (base2 l) sv2 (l :: st)) ->
  fits_in st (Z.max (depth_e lhs) (1 + depth_e rhs)) -> room st -> ilen (i1 ++ i2 ++ code_op op) + 1 < t ->
  (forall x y raw p env t ep, f x y = Some raw -> run_op op (C p (y :: x :: st) env t ep) = answered raw (C p st env t ep)) ->
  evaluated (C (P pc) st env t 0) (pc + ilen (i1 ++ i2 ++ code_op op)) st r env' t (ilen (i1 ++ i2 ++ code_op op)).
Proof.
  intros IHl IHr Wl Wr Cl Cr H1 H2 Hs Hev Hc Hd Hd2 Hf Hr Ht Hop. unfold fits_in in Hf. pcs.
  pose proof (proj1 starts_covered rhs Cr _ _ _ _ _ H2) as St2.
  destruct (segf_split _ _ _ Hs (starts_app _ _ St2)) as [S1 S23]. destruct (segf_split _ _ _ S23 (starts_op op)) as [S2 S3]. nonneg.
  apply ebind_inv in Hev as [(q & e & He & ->)|(v & env1 & He & Hev)].
  - eapply evaluated_err; [|eapply (IHl inx base pc c sv i1 st env t _ _ Wl Cl H1 S1 He Hc Hd); [unfold fits_in; lia|lia]]. lia.
  - pose proof (IHl inx base pc c sv i1 st env t _ _ Wl Cl H1 S1 He Hc Hd ltac:(unfold fits_in; lia) ltac:(lia)) as E1.
    eapply (evaluated_conv _ (pc + ilen i1 + ilen i2 + ilen (code_op op)) _ _ _ _ _ (ilen i1 + (ilen i2 + ilen (code_op op)))); [lia|lia|].
    eapply evaluated_then; [exact E1|]. intros t1 Ht1.
    apply ebind_inv in Hev as [(q & e & He2 & ->)|(v2 & env2 & He2 & Hev)].
    + eapply evaluated_more; [|eapply (IHr inx2 (base2 v) _ (c + 1) sv2 i2 (v :: st) env1 t1 _ _ Wr Cr H2 S2 He2); [cbn [length]; lia|done|unfold fits_in; cbn [length]; lia|lia]]. lia.
    + eapply evaluated_then; [eapply (IHr inx2 (base2 v) _ (c + 1) sv2 i2 (v :: st) env1 t1 _ _ Wr Cr H2 S2 He2); [cbn [length]; lia|done|unfold fits_in; cbn [length]; lia|lia]|].
      intros t2 Ht2. apply result_inv in Hev as (raw & Hraw & -> & ->). apply run_operator; [done|done|lia|]. intros p t' ep. by apply Hop.
Qed.

Lemma comp_range base_ from to : comp base_ -> comp from -> comp to -> comp (EXPR_RANGE base_ from to).
Proof.
  intros IHb IHf IHt inx base pc c sv i st env t r env' [[Wb Wf]%andb_prop Wt]%andb_prop [[Cb Cf]%andb_prop Ct]%andb_prop
    (i1 & i2 & i3 & -> & H1 & H2 & H3) Hs Hev Hc Hd Hf Ht. unfold fits_in in Hf. cbn [depth_e] in Hf. pcs.
  pose proof (proj1 starts_covered _ Cf _ _ _ _ _ H2) as St2. pose proof (proj1 starts_covered _ Ct _ _ _ _ _ H3) as St3.
  destruct (segf_split _ _ _ Hs (starts_app _ _ St2)) as [S1 S23]. destruct (segf_split _ _ _ S23 (starts_app _ _ St3)) as [S2 S34].
  destruct (segf_split _ _ _ S34 (starts_op (false, OP_RANGE_REF))) as [S3 S4]. nonneg. change (ilen [Op OP_RANGE_REF]) with 1 in *.
  assert (D3 := depth_pos to). cbn [Eval.eval] in Hev.
  apply ebind_inv in Hev as [(q & e & He & ->)|(v & env1 & He & Hev)];
    (eassert (E1 : evaluated (C (P pc) st env t 0) (pc + ilen i1) st _ _ t (ilen i1))
       by (eapply (IHb inx base pc c sv i1 st env t _ _ Wb Cb H1 S1 He Hc Hd); [unfold fits_in; lia|lia]));
    [eapply evaluated_err; [|exact E1]; lia|].
  eapply (evaluated_conv _ (pc + ilen i1 + ilen i2 + ilen i3 + 1) _ _ _ _ _ (ilen i1 + (ilen i2 + (ilen i3 + 1)))); [lia|lia|].
  eapply evaluated_then; [exact E1|]. intros t1 Ht1.
  apply ebind_inv in Hev as [(q & e & He2 & ->)|(v2 & env2 & He2 & Hev)];
    (eassert (E2 : evaluated (C (P (pc + ilen i1)) (v :: st) env1 t1 0) (pc + ilen i1 + ilen i2) (v :: st) _ _ t1 (ilen i2))
       by (eapply (IHf true (Some v) _ (c + 1) c i2 (v :: st) env1 t1 _ _ Wf Cf H2 S2 He2);
           [cbn [length]; lia|subst c; apply dollar_top|unfold fits_in; cbn [length]; lia|lia]));
    [eapply evaluated_more; [|exact E2]; lia|].
  eapply evaluated_then; [exact E2|]. intros t2 Ht2.
  apply ebind_inv in Hev as [(q & e & He3 & ->)|(v3 & env3 & He3 & Hev)];
    (eassert (E3 : evaluated (C (P (pc + ilen i1 + ilen i2)) (v2 :: v :: st) env2 t2 0) (pc + ilen i1 + ilen i2 + ilen i3) (v2 :: v :: st) _ _ t2 (ilen i3))
       by (eapply (IHt true (Some v) _ (c + 2) c i3 (v2 :: v :: st) env2 t2 _ _ Wt Ct H3 S3 He3);
           [cbn [length]; lia|subst c; apply dollar_push, dollar_top|unfold fits_in; cbn [length]; lia|lia]));
    [eapply (evaluated_more _ 0 _ _ _ _ _ _ _ (ilen i3 + 1)); [lia|]; eapply evaluated_more; [|exact E3]; lia|].
  eapply evaluated_then; [exact E3|]. intros t3 Ht3. apply result_inv in Hev as (raw & Hraw & -> & ->).
  apply (run_operator (false, OP_RANGE_REF)); [done|unfold room; lia|lia|]. intros p t' ep. by apply range_instr.
Qed.

Lemma comp_logic kind lhs rhs : comp lhs -> comp rhs -> comp (EXPR_LOGIC kind lhs rhs).
Proof.
  intros IHl IHr inx base pc c sv i st env t r env' [Wl Wr]%andb_prop [Cl Cr]%andb_prop
    (i1 & i2 & -> & H1 & H2) Hs Hev Hc Hd Hf Ht. unfold fits_in in Hf. cbn [depth_e] in Hf. cbn [app] in *. pcs.
  destruct (segf_app _ _ _ _ _ Hs) as [S1 S23]. pose proof (segf_seg _ _ _ S23) as Sop.
  pose proof (segf_cons _ _ _ _ (segf_cons _ _ _ _ S23)) as S2. replace (pc + ilen i1 + 1 + 1) with (pc + ilen i1 + 2) in S2 by lia. nonneg.
  set (T := pc + ilen i1 + 2 + ilen i2) in *.
  assert (Hev' : (l ← eval base lhs; if Bool.eqb (is_true l) (bool_decide (kind = EXPR_OR)) then mret l else eval base rhs) env = Some (r, env')).
  { destruct kind; cbn [Eval.eval] in Hev; rewrite <- Hev; unfold mbind, E_bind; destruct (eval base lhs env) as [[[v|q e] env1]|]; try done; by destruct (is_true v). }
  clear Hev. rename Hev' into Hev.
  apply ebind_inv in Hev as [(q & e & He & ->)|(v & env1 & He & Hev)];
    (eassert (E1 : evaluated (C (P pc) st env t 0) (pc + ilen i1) st _ _ t (ilen i1))
       by (eapply (IHl inx base pc c sv i1 st env t _ _ Wl Cl H1 S1 He Hc Hd); [unfold fits_in; lia|lia]));
    [eapply evaluated_err; [|exact E1]; lia|].
  eapply (evaluated_conv _ T _ _ _ _ _ (ilen i1 + (1 + (1 + ilen i2)))); [unfold T; lia|lia|].
  eapply evaluated_then; [exact E1|]. intros t1 Ht1.
  assert (Hstep : step (C (P (pc + ilen i1)) (v :: st) env1 t1 0) =
    Some (Go tt, C (P (if Bool.eqb (is_true v) (bool_decide (kind = EXPR_OR)) then T else pc + ilen i1 + 2))
                   (if Bool.eqb (is_true v) (bool_decide (kind = EXPR_OR)) then v :: st else st) env1 (t1 - 1) (P (pc + ilen i1)))).
  { rewrite (conf_step _ _ _ (v :: st) env1 t1 0 Sop ltac:(lia)). apply seg_cons in Sop as [_ Slab].
    assert (ticks_after (logic_op kind) t1 = t1 - 1) as -> by by destruct kind.
    assert (instruction (logic_op kind) = op_logic (logic_op kind)) as -> by by destruct kind.
    unfold op_logic. rewrite (xbind_eq _ _ _ _ _ (conf_label _ _ _ _ _ _ _ Slab)), (xbind_eq _ _ _ _ _ (conf_top _ _ _ _ _ _ _ _ _)).
    replace (pc + ilen i1 + 1 + 1) with (pc + ilen i1 + 2) by lia.
    destruct kind, (is_true v); cbn; (apply conf_jump || (rewrite (xbind_eq _ _ _ _ _ (conf_pop _ _ _ _ _ _ _ _ _)); done)). }
  destruct (Bool.eqb _ _).
  - injection Hev as <- <-. exists (t1 - 1). split; [lia|]. eapply joins_trans; [apply step_joins; exact Hstep|apply conf_ep_joins].
  - eapply evaluated_joins; [eapply joins_trans; [apply step_joins; exact Hstep|apply (conf_ep_joins _ _ _ _ _ 0)]|].
    destruct (IHr inx base (pc + ilen i1 + 2) c sv i2 st env1 (t1 - 1) r env' Wr Cr H2 S2 Hev Hc Hd ltac:(unfold fits_in; lia) ltac:(lia)) as (t2 & Ht2 & E2).
    exists t2. split; [lia|exact E2].
Qed.

Lemma comp_cond x y u : comp x -> comp y -> comp u -> comp (EXPR_COND x y u).
Proof.
  intros IHx IHy IHu inx base pc c sv i st env t r env' [[Wx Wy]%andb_prop Wu]%andb_prop [[Cx Cy]%andb_prop Cu]%andb_prop
    (i1 & i2 & i3 & -> & H1 & H2 & H3) Hs Hev Hc Hd Hf Ht. unfold fits_in in Hf. cbn [depth_e] in Hf. cbn [app] in *. do 2 pcs.
  destruct (segf_app _ _ _ _ _ Hs) as [S1 S23]. pose proof (segf_seg _ _ _ S23) as Sop.
  pose proof (segf_cons _ _ _ _ (segf_cons _ _ _ _ S23)) as S234. replace (pc + ilen i1 + 1 + 1) with (pc + ilen i1 + 2) in S234 by lia.
  destruct (segf_app _ _ _ _ _ S234) as [S2 S34]. pose proof (segf_seg _ _ _ S34) as Sjump.
  pose proof (segf_cons _ _ _ _ (segf_cons _ _ _ _ S34)) as S3. nonneg.
  set (T := pc + ilen i1 + 2 + ilen i2 + 2 + ilen i3) in *. set (A := pc + ilen i1 + 2 + ilen i2 + 2) in *.
  replace (pc + ilen i1 + 2 + ilen i2 + 1 + 1) with A in S3 by (unfold A; lia).
  cbn [Eval.eval] in Hev. apply ebind_inv in Hev as [(q & e & He & ->)|(v & env1 & He & Hev)];
    (eassert (E1 : evaluated (C (P pc) st env t 0) (pc + ilen i1) st _ _ t (ilen i1))
       by (eapply (IHx inx base pc c sv i1 st env t _ _ Wx Cx H1 S1 He Hc Hd); [unfold fits_in; lia|lia]));
    [eapply evaluated_err; [|exact E1]; lia|].
  eapply (evaluated_conv _ T _ _ _ _ _ (ilen i1 + (1 + (ilen i2 + ilen i3)))); [unfold T; lia|lia|].
  eapply evaluated_then; [exact E1|]. intros t1 Ht1.
  assert (Hstep : step (C (P (pc + ilen i1)) (v :: st) env1 t1 0) =
    Some (Go tt, C (P (if is_true v then pc + ilen i1 + 2 else A)) st env1 (t1 - 1) (P (pc + ilen i1)))).
  { rewrite (conf_step _ _ _ (v :: st) env1 t1 0 Sop ltac:(lia)). apply seg_cons in Sop as [_ Slab].
    change (ticks_after OP_IF_QUES t1) with (t1 - 1). change (instruction OP_IF_QUES) with do_test.
    rewrite (do_test_eq _ _ _ _ _ _ _ _ Slab). by replace (pc + ilen i1 + 1 + 1) with (pc + ilen i1 + 2) by lia. }
  eapply evaluated_joins; [eapply joins_trans; [apply step_joins; exact Hstep|apply (conf_ep_joins _ _ _ _ _ 0)]|].
  destruct (is_true v).
  - destruct (IHy inx base (pc + ilen i1 + 2) c sv i2 st env1 (t1 - 1) r env' Wy Cy H2 S2 Hev Hc Hd ltac:(unfold fits_in; lia) ltac:(lia)) as (t2 & Ht2 & E2).
    eapply (evaluated_jump _ _ _ T _ _ _ _ (1 + (ilen i2 + ilen i3))); [exists t2; split; [lia|exact E2]|exact Sjump|lia].
  - destruct (IHu inx base A c sv i3 st env1 (t1 - 1) r env' Wu Cu H3 S3 Hev Hc Hd ltac:(unfold fits_in; lia) ltac:(lia)) as (t2 & Ht2 & E2).
    exists t2. split; [lia|exact E2].
Qed.

Lemma comp_unary kind e : comp e -> comp (EXPR_UNARY kind e).
Proof.
  intros IH inx base pc c sv i st env t r env' We Ce (i1 & -> & H1) Hs Hev Hc Hd Hf Ht. unfold fits_in in Hf. cbn [depth_e] in Hf. pcs.
  destruct (segf_split _ _ _ Hs (starts_op _)) as [S1 S2]. nonneg. assert (D := depth_pos e). cbn [Eval.eval] in Hev.
  apply ebind_inv in Hev as [(q & x & He & ->)|(v & env1 & He & Hev)];
    (eassert (E1 : evaluated (C (P pc) st env t 0) (pc + ilen i1) st _ _ t (ilen i1))
       by (eapply (IH inx base pc c sv i1 st env t _ _ We Ce H1 S1 He Hc Hd); [unfold fits_in; lia|lia]));
    [eapply evaluated_err; [|exact E1]; lia|].
  eapply (evaluated_conv _ (pc + ilen i1 + ilen (code_op (unary_op kind)))); [lia| |eapply evaluated_then; [exact E1|]]; [reflexivity|].
  intros t1 Ht1. apply result_inv in Hev as (raw & Hraw & -> & ->). injection Hraw as <-.
  apply run_operator; [done|unfold room; lia|lia|]. intros p t' ep. apply unary_instr.
Qed.

Lemma comp_length : comp EXPR_LENGTH.
Proof.
  intros inx base pc c sv i st env t r env' _ _ H Hs Hev Hc Hd Hf Ht. cbn [code_e] in H. subst i. unfold fits_in in Hf. cbn [depth_e] in Hf.
  cbn [Eval.eval] in Hev. apply result_inv in Hev as (raw & Hraw & -> & ->). apply segf_seg in Hs.
  destruct base as [v|]; [|done]. destruct Hd as [H0 Hv]. pose proof (lookup_lt_Some _ _ _ Hv) as Hlt. rewrite length_reverse in Hlt.
  change (ilen _) with 3 in *. destruct (conf_extended _ _ _ st env t 0 Hs ltac:(lia)) as (t' & Ht' & E).
  eapply (step_evaluated _ _ (P (pc + 3)) st _ env t t' _ (P pc)); [unfold room; lia|done|lia|].
  rewrite E. apply seg_cons in Hs as [_ Hs]. apply seg_cons in Hs as [_ Hs]. replace (pc + 1 + 1) with (pc + 2) in Hs by lia.
  rewrite (length_instr _ _ _ v raw _ _ _ _ Hs); [by replace (pc + 2 + 1) with (pc + 3) by lia|done|lia|exact Hraw].
Qed.

Lemma comp_assign id rhs : comp rhs -> comp (EXPR_ASGN (EXPR_ID id) rhs).
Proof.
  intros IH inx base pc c sv i st env t r env' [Wi We]%andb_prop Ce (i1 & i2 & i3 & -> & H1 & H2 & H3) Hs Hev Hc Hd Hf Ht.
  cbn [code_lv] in H1. subst i1. cbn [is_indexed app code_assign] in *. unfold fits_in in Hf. cbn [depth_e depth_lv lv_size] in Hf.
  rewrite ?app_nil_r, ?ilen_nil, ?Z.add_0_r in *. pcs. change (lv_size (EXPR_ID id) false) with 0 in *. rewrite ?Z.add_0_r in *.
  destruct (segf_split _ _ _ Hs) as [S1 S2]; [by eapply starts_var|]. nonneg. cbn [Eval.eval] in Hev.
  apply ebind_inv in Hev as [(q & x & He & ->)|(v & env1 & He & Hev)];
    (eassert (E1 : evaluated (C (P pc) st env t 0) (pc + ilen i2) st _ _ t (ilen i2))
       by (eapply (IH inx base pc c sv i2 st env t _ _ We Ce H2 S1 He Hc Hd); [unfold fits_in; lia|lia]));
    [eapply evaluated_err; [|exact E1]; lia|].
  eapply (evaluated_conv _ (pc + ilen i2 + ilen i3)); [lia| |eapply evaluated_then; [exact E1|]]; [reflexivity|].
  intros t1 Ht1. unfold assign in Hev. destruct (set_rt_env_var env1 id v) as [env2|] eqn:Ev; [|done]. injection Hev as <- <-.
  exact (run_put_var id i3 _ v st env1 env2 t1 Wi H3 S2 Ev ltac:(lia)).
Qed.

(** *** Lists *)

Lemma first_instr kind p v st env t ep : room st ->
  instruction (first_arg kind) (C p (v :: st) env t ep) = answered (first_value kind v) (C p st env t ep).
Proof.
  intros Hr. destruct kind; cbn [first_arg first_value].
  - change (instruction OP_MAKE_SINGLETON_LIST) with op_make_singleton_list. unfold op_make_singleton_list. by pops.
  - change (instruction OP_CHECK_LIST_FOR_SPLICE) with (op_check_list_for_splice null same bf_table find_line_number unwind_fuel).
    unfold op_check_list_for_splice. rewrite (xbind_eq _ _ _ _ _ (conf_top _ _ _ _ _ _ _ _ _)).
    destruct v; pops; try done. by rewrite conf_push.
Qed.
Definition next_value (kind : Arg_Kind) (list_ v : Var) : option (res Var) :=
  match kind with ARG_NORMAL => add_tail (options s) list_ v | ARG_SPLICE => append (options s) list_ v end.
Lemma next_instr kind p list_ v st env t ep raw : next_value kind list_ v = Some raw ->
  instruction (next_arg kind) (C p (v :: list_ :: st) env t ep) = answered raw (C p st env t ep).
Proof. destruct kind; [apply tail_instr|apply append_instr]. Qed.

(** One element, the instruction for it, and the rest. *)
Lemma comp_element pc c sv base inx e next st0 st i1 b i2 env t env1 v raw r env' :
  segf I pc (i1 ++ Op b :: i2) -> ilen i1 + 1 + ilen i2 + 1 < t -> room st ->
  wf_args inx next = true -> covered_args next = true -> code_more L (pc + ilen i1 + 1) c sv next i2 ->
  Z.of_nat (length st) + 1 = c -> dollar base sv st -> fits_in st (1 + depth_more next) ->
  evaluated (C (P pc) st0 env t 0) (pc + ilen i1) e (Val v) env1 t (ilen i1) ->
  (forall p t ep, instruction b (C p (v :: e) env1 t ep) = answered raw (C p st env1 t ep)) ->
  (l ← result (Some raw); eval_more base l next) env1 = Some (r, env') ->
  comp_more next ->
  evaluated (C (P pc) st0 env t 0) (pc + (ilen i1 + (1 + ilen i2))) st r env' t (ilen i1 + (1 + ilen i2)).
Proof.
  intros Hs Ht Hr Wn Cn H2 Hc Hd Hf E1 Hop Hev IH. destruct (segf_app _ _ _ _ _ Hs) as [S1 S23].
  pose proof (segf_cons _ _ _ _ S23) as S3. apply segf_seg in S23. nonneg.
  eapply evaluated_then; [exact E1|]. intros t1 Ht1.
  pose proof (run_byte b i2 _ (v :: e) st env1 t1 raw S23 Hr ltac:(lia) Hop) as E2.
  apply ebind_inv in Hev as [(q & x & He & ->)|(l2 & env2 & He & Hev)];
    apply result_inv in He as (raw' & Hraw & Hset & ->); injection Hraw as <-; rewrite <- Hset in E2.
  - eapply evaluated_err; [|exact E2]. lia.
  - eapply evaluated_then; [exact E2|]. intros t2 Ht2.
    eapply (evaluated_conv _ (pc + ilen i1 + 1 + ilen i2)); [lia|reflexivity|].
    by apply (IH inx base _ c sv i2 l2 st env1 t2 r env' Wn Cn H2 S3 Hev Hc Hd Hf); lia.
Qed.

Lemma comp_more_nil : comp_more ANil.
Proof.
  intros inx base pc c sv i list_ st env t r env' _ _ H Hs Hev _ _ _ _. cbn [code_more] in H. subst i. cbn [Eval.eval_more] in Hev.
  injection Hev as <- <-. rewrite ilen_nil, Z.add_0_r. exists t. split; [lia|]. apply joins_refl.
Qed.
Lemma comp_more_cons kind e next : comp e -> comp_more next -> comp_more (ACons kind e next).
Proof.
  intros IHe IHn inx base pc c sv i list_ st env t r env' [We Wn]%andb_prop [Ce Cn]%andb_prop (i1 & i2 & -> & H1 & H2) Hs Hev Hc Hd Hf Ht.
  unfold fits_in in Hf. cbn [depth_more] in Hf. cbn [app] in *. pcs. destruct (segf_app _ _ _ _ _ Hs) as [S1 _]. nonneg.
  assert (D := depth_pos e). assert (D2 := depth_more_pos next). cbn [Eval.eval_more] in Hev.
  apply ebind_inv in Hev as [(q & x & He & ->)|(v & env1 & He & Hev)];
    (eassert (E1 : evaluated (C (P pc) (list_ :: st) env t 0) (pc + ilen i1) (list_ :: st) _ _ t (ilen i1))
       by (eapply (IHe inx base pc c sv i1 (list_ :: st) env t _ _ We Ce H1 S1 He); [cbn [length]; lia|by apply dollar_push|unfold fits_in; cbn [length]; lia|lia]));
    [eapply evaluated_more; [|exact E1]; lia|].
  assert (exists raw, next_value kind list_ v = Some raw) as [raw Hraw].
  { unfold next_value. apply ebind_inv in Hev as [(q & x & He2 & _)|(l2 & env2 & He2 & _)]; apply result_inv in He2 as (raw & Hraw & _); by exists raw. }
  eapply (comp_element _ c sv base inx (list_ :: st) next _ st i1 _ i2 env t env1 v raw); [exact Hs|lia|unfold room; lia|done|done|done|lia|done|unfold fits_in; lia|exact E1| | |done].
  - intros p t' ep. by apply next_instr.
  - unfold next_value in Hraw. by rewrite <- Hraw.
Qed.

Lemma comp_args_nil : comp_args ANil.
Proof.
  intros inx base pc c sv i st env t r env' _ _ H Hs Hev Hc Hd Hf Ht. cbn [code_args] in H. subst i. unfold fits_in in Hf. cbn [depth_args] in Hf.
  cbn [Eval.eval_args] in Hev. injection Hev as <- <-. change (ilen _) with 1 in *.
  eapply (run_byte OP_MAKE_EMPTY_LIST [] pc st st env t (Val (VList []))); [by apply segf_seg|unfold room; lia|lia|done].
Qed.
Lemma comp_args_cons kind e next : comp e -> comp_more next -> comp_args (ACons kind e next).
Proof.
  intros IHe IHn inx base pc c sv i st env t r env' [We Wn]%andb_prop [Ce Cn]%andb_prop (i1 & i2 & -> & H1 & H2) Hs Hev Hc Hd Hf Ht.
  unfold fits_in in Hf. cbn [depth_args] in Hf. cbn [app] in *. pcs. destruct (segf_app _ _ _ _ _ Hs) as [S1 _]. nonneg.
  assert (D := depth_pos e). assert (D2 := depth_more_pos next). cbn [Eval.eval_args] in Hev.
  apply ebind_inv in Hev as [(q & x & He & ->)|(v & env1 & He & Hev)];
    (eassert (E1 : evaluated (C (P pc) st env t 0) (pc + ilen i1) st _ _ t (ilen i1))
       by (eapply (IHe inx base pc c sv i1 st env t _ _ We Ce H1 S1 He Hc Hd); [unfold fits_in; lia|lia]));
    [eapply evaluated_err; [|exact E1]; lia|].
  eapply (comp_element _ (c + 1) sv base inx st next _ st i1 _ i2 env t env1 v (first_value kind v)); [exact Hs|lia|unfold room; lia|done|done|done|lia|done|unfold fits_in; lia|exact E1| |exact Hev|done].
  intros p t' ep. apply first_instr. unfold room. lia.
Qed.

(** *** All expressions *)

Lemma comp_all :
  (forall e, comp e) /\ (forall p : Expr_ptr, True) /\ (forall args, comp_args args /\ comp_more args) /\ (forall sc : Scatter, True).
Proof.
  apply Expr_ind_all; try done.
  - intros v inx base pc c sv i st env t r env' _ _ H Hs Hev Hc Hd Hf Ht. injection Hev as <- <-. unfold fits_in in Hf. cbn [depth_e] in Hf.
    pose proof (ilen_nonneg i). apply run_lit; [done|done|unfold room; lia|lia].
  - intros id inx base pc c sv i st env t r env' W _ H Hs Hev Hc Hd Hf Ht. unfold fits_in in Hf. cbn [depth_e] in Hf. cbn [Eval.eval] in Hev.
    apply result_inv in Hev as (raw & Hraw & -> & ->). unfold var_value in Hraw. destruct (env_get env id) as [v|] eqn:Ev; [|done].
    injection Hraw as <-. pose proof (ilen_nonneg i). apply (run_push_var id i pc v); [done|done|done|done|unfold room; lia|lia].
  - intros lhs IHl rhs IHr inx base pc c sv i st env t r env' [Wl Wr]%andb_prop [Cl Cr]%andb_prop (i1 & i2 & -> & H1 & H2) Hs Hev Hc Hd Hf Ht.
    cbn [Eval.eval] in Hev. assert (D := depth_pos rhs). cbn [depth_e] in Hf. pose proof Hf as Hf'. unfold fits_in in Hf'.
    eapply (comp_binary pc c sv base inx lhs rhs i1 i2 (false, OP_GET_PROP) st env t r env' _ inx sv (fun _ => base) IHl IHr Wl Wr Cl Cr H1 H2 Hs Hev Hc Hd); [intros; by apply dollar_push|done|unfold room; lia|done|].
    intros x y raw p env0 t' ep. apply prop_instr.
  - intros lhs IHl rhs IHr inx base pc c sv i st env t r env' [Wl Wr]%andb_prop [Cl Cr]%andb_prop (i1 & i2 & -> & H1 & H2) Hs Hev Hc Hd Hf Ht.
    cbn [Eval.eval] in Hev. assert (D := depth_pos rhs). cbn [depth_e] in Hf. pose proof Hf as Hf'. unfold fits_in in Hf'.
    eapply (comp_binary pc c sv base inx lhs rhs i1 i2 (false, OP_REF) st env t r env' _ true c (fun l => Some l) IHl IHr Wl Wr Cl Cr H1 H2 Hs Hev Hc Hd); [intros; subst c; apply dollar_top|done|unfold room; lia|done|].
    intros x y raw p env0 t' ep. apply ref_instr.
  - intros. by apply comp_range.
  - intros lhs _ rhs IHr. destruct lhs; try done. by apply comp_assign.
  - intros kind lhs IHl rhs IHr inx base pc c sv i st env t r env' [Wl Wr]%andb_prop [Cl Cr]%andb_prop (i1 & i2 & -> & H1 & H2) Hs Hev Hc Hd Hf Ht.
    cbn [Eval.eval] in Hev. assert (D := depth_pos rhs). cbn [depth_e] in Hf. pose proof Hf as Hf'. unfold fits_in in Hf'.
    eapply (comp_binary pc c sv base inx lhs rhs i1 i2 (binary_op kind) st env t r env' _ inx sv (fun _ => base) IHl IHr Wl Wr Cl Cr H1 H2 Hs Hev Hc Hd); [intros; by apply dollar_push|done|unfold room; lia|done|].
    intros x y raw p env0 t' ep. apply binary_instr.
  - intros. by apply comp_unary.
  - intros. by apply comp_logic.
  - intros args [IH _]. exact IH.
  - intros. by apply comp_cond.
  - apply comp_length.
  - split; [apply comp_args_nil|apply comp_more_nil].
  - intros kind e IH next [_ IHn]. split; [by apply comp_args_cons|by apply comp_more_cons].
Qed.
End Activation.
End Machine.
