(* ===== verification/Exec.v ===== *)
(** * What programs mean, and that their code computes it

    [exec_ss] runs statements on their tree: expressions, conditionals, loops
    over lists, ranges and conditions, breaks out of loops and returns.  Forks and the
    handlers of errors are left out.  The vector that the code generator emits,
    run by the machine with enough ticks, comes to the same result. *)

From Stdlib Require Import Floats.SpecFloat.
From S2P Require Import Prelude Values Functions Lists Numbers Db Properties PropBuiltins Ast CodeGen CodeSpec CodeProof CodeStmts Decompile DecompileProof DecompileStmts Activation InputQueue Tasks Machine Run Eval.
From S2P Require Database.

(** ** Definitions *)

(** How statements end: they leave a loop, the number of which is counted from the
    inside, for its next round or for good; they return, or there is an error. *)
Inductive flow := Falls | Exits (continue : bool) (j : nat) | Returns (v : Var) | Raises (quota : bool) (e : error).

Definition Ex : Type := list Var -> option (flow * list Var).
Definition skip : Ex := fun env => Some (Falls, env).
Definition ends (fl : flow) : Ex := fun env => Some (fl, env).
Definition with_value (m : E Var) (f : Var -> Ex) : Ex := fun env =>
  match m env with
  | Some (Val v, env) => f v env
  | Some (Err q e, env) => Some (Raises q e, env)
  | None => None
  end.
Definition and_then (m1 m2 : Ex) : Ex := fun env => match m1 env with Some (Falls, env) => m2 env | r => r end.
(** The body of a loop, and what is left of it. *)
Definition iterate (body rest : Ex) : Ex := fun env =>
  match body env with
  | Some (Falls, env) | Some (Exits true O, env) => rest env
  | Some (Exits false O, env) => Some (Falls, env)
  | Some (Exits continue (S j), env) => Some (Exits continue j, env)
  | r => r
  end.

Fixpoint while_loop (fuel : nat) (condition : E Var) (body : Ex) : Ex :=
  match fuel with
  | O => fun _ => None
  | S fuel => with_value condition (fun v => if is_true v then iterate body (while_loop fuel condition body) else skip)
  end.
Fixpoint list_loop (id : Z) (l : list Var) (body : Ex) : Ex :=
  match l with
  | [] => skip
  | v :: l => with_value (assign id v) (fun _ => iterate body (list_loop id l body))
  end.
(** [n] numbers from [from] on. *)
Fixpoint range_loop (mk : Z -> Var) (id : Z) (n : nat) (from : Z) (body : Ex) : Ex :=
  match n with
  | O => skip
  | S n => with_value (assign id (mk from)) (fun _ => iterate body (range_loop mk id n (from + 1) body))
  end.

Fixpoint find_id (id : Z) (ids : list Z) : option nat :=
  match ids with [] => None | i :: ids => if i =? id then Some O else S <$> find_id id ids end.
Definition exit_level (ids : list Z) (exit : Z) : option nat :=
  if exit =? -1 then match ids with [] => None | _ => Some O end else find_id exit ids.

Fixpoint covered_s (st : Stmt) : bool :=
  match st with
  | STMT_COND arms otherwise => covered_arms arms && covered_ss otherwise
  | STMT_LIST _ expr body => covered expr && covered_ss body
  | STMT_RANGE _ from to body => covered from && covered to && covered_ss body
  | STMT_WHILE _ condition body => covered condition && covered_ss body
  | STMT_EXPR expr | STMT_RETURN (Ptr expr) => covered expr
  | STMT_RETURN Null | STMT_BREAK _ | STMT_CONTINUE _ => true
  | STMT_FORK _ _ _ | STMT_TRY_EXCEPT _ _ | STMT_TRY_FINALLY _ _ => false
  end
with covered_ss (st : Stmts) : bool :=
  match st with SEnd => true | SNext st next => covered_s st && covered_ss next end
with covered_arms (arms : Cond_Arm) : bool :=
  match arms with CEnd => true | CArm condition stmt next => covered condition && covered_ss stmt && covered_arms next end.

Section Exec.
Context (fmod : spec_float -> spec_float -> spec_float) (pow : spec_float -> spec_float -> spec_float * bool).
Context (d : db) (o : option_cache) (progr : Z) (debug : bool).
Context (fuel : nat).
Notation eval := (eval fmod pow d o progr debug None).

(** Without the debug bit a loop over what is no list is skipped. *)
Definition no_loop : Ex := if debug then ends (Raises false E_TYPE) else skip.

(** [fuel]: the rounds of a loop over a condition.  Lists and ranges go up to
    NUM_MAX. *)
Fixpoint exec_s (ids : list Z) (st : Stmt) : Ex :=
  match st with
  | STMT_COND arms otherwise => exec_arms ids arms (exec_ss ids otherwise)
  | STMT_LIST id expr body =>
      with_value (eval expr) (fun v =>
        match v with
        | VList l => if llen l <? NUM_MAX then list_loop id l (exec_ss (id :: ids) body) else fun _ => None
        | _ => no_loop
        end)
  | STMT_RANGE id from to body =>
      with_value (eval from) (fun from => with_value (eval to) (fun to =>
        match from, to with
        | VInt f, VInt t =>
            if t <=? NUM_MAX then range_loop VInt id (Z.to_nat (t - f + 1)) f (exec_ss (id :: ids) body) else fun _ => None
        | VObj f, VObj t =>
            if t <=? NUM_MAX then range_loop VObj id (Z.to_nat (t - f + 1)) f (exec_ss (id :: ids) body) else fun _ => None
        | _, _ => no_loop
        end))
  | STMT_WHILE id condition body =>
      while_loop fuel (if id =? -1 then eval condition else (v ← eval condition; assign id v)) (exec_ss (id :: ids) body)
  | STMT_EXPR expr => with_value (eval expr) (fun _ => skip)
  | STMT_RETURN (Ptr expr) => with_value (eval expr) (fun v => ends (Returns v))
  | STMT_RETURN Null => ends (Returns zero)
  | STMT_BREAK exit => fun env => j ← exit_level ids exit; Some (Exits false j, env)
  | STMT_CONTINUE exit => fun env => j ← exit_level ids exit; Some (Exits true j, env)
  | STMT_FORK _ _ _ | STMT_TRY_EXCEPT _ _ | STMT_TRY_FINALLY _ _ => fun _ => None
  end
with exec_ss (ids : list Z) (st : Stmts) : Ex :=
  match st with SEnd => skip | SNext st next => and_then (exec_s ids st) (exec_ss ids next) end
with exec_arms (ids : list Z) (arms : Cond_Arm) (otherwise : Ex) : Ex :=
  match arms with
  | CEnd => otherwise
  | CArm condition stmt next =>
      with_value (eval condition) (fun v => if is_true v then exec_ss ids stmt else exec_arms ids next otherwise)
  end.
End Exec.

(** What a program returns. *)
Definition result_of (fl : flow) : option Var :=
  match fl with Returns v => Some v | Falls => Some zero | _ => None end.

(** A value that unwinding passes by. *)
Definition plain (v : Var) : bool := match v with VCatch _ | VFinally _ => false | _ => true end.

(** [s = 0; for x in ({1, 2, 3}) if (x == 2) continue; endif s = s + x; endfor
    for i in [1..2] s = s + i; endfor while w (s < 100) s = s * 2; if (s > 20) break w; endif
    endwhile return {s, 1}[$ - 1];] *)
Definition sample_run : Stmts :=
  let int n := EXPR_VAR (VInt n) in
  let add e x := STMT_EXPR (EXPR_ASGN (EXPR_ID 17) (EXPR_BINARY e (EXPR_ID 17) x)) in
  let list2 x y := EXPR_LIST (ACons ARG_NORMAL x (ACons ARG_NORMAL y ANil)) in
  SNext (STMT_EXPR (EXPR_ASGN (EXPR_ID 17) (int 0)))
  (SNext (STMT_LIST 18 (EXPR_LIST (ACons ARG_NORMAL (int 1) (ACons ARG_SPLICE (list2 (int 2) (int 3)) ANil)))
    (SNext (STMT_COND (CArm (EXPR_BINARY EXPR_EQ (EXPR_ID 18) (int 2)) (SNext (STMT_CONTINUE (-1)) SEnd) CEnd) SEnd)
    (SNext (add EXPR_PLUS (EXPR_ID 18)) SEnd)))
  (SNext (STMT_RANGE 19 (int 1) (int 2) (SNext (add EXPR_PLUS (EXPR_ID 19)) SEnd))
  (SNext (STMT_WHILE 40 (EXPR_BINARY EXPR_LT (EXPR_ID 17) (int 100))
    (SNext (add EXPR_TIMES (int 2))
    (SNext (STMT_COND (CArm (EXPR_BINARY EXPR_GT (EXPR_ID 17) (int 20)) (SNext (STMT_BREAK 40) SEnd) CEnd) SEnd) SEnd)))
  (SNext (STMT_RETURN (Ptr (EXPR_INDEX (list2 (EXPR_ID 17) (int 1)) (EXPR_BINARY EXPR_MINUS EXPR_LENGTH (int 1))))) SEnd)))).
Definition sample_null : Program := mkProgram 0 0 1 (mkBytecodes [1; 1; 1; 1; 1] [OP_DONE] 0) [] [] [] 0 0 0.
Definition sample_code : Program := default sample_null (generate_code sample_run 5).
Definition sample_activation : activation :=
  mkActivation sample_code (replicate 41 VNone) [] 50 0 0 0 0 0 VNone 0 0 0 0 [] [] true.
Definition sample_machine : State :=
  mkState [sample_activation] 50 MAIN_VECTOR 0 true None zero Database.empty_db
    (mkCache [] 1000 1000 true 1000) no_tasks 0 [] ∅ 0 [].

(** ** Lemmas *)

Lemma find_env_id id E : find_env id E = find_id id (map e_id E).
Proof. induction E as [|e E IH]; [done|]. cbn [find_env find_id map]. by rewrite IH. Qed.

Lemma with_value_inv m f env fl env' : with_value m f env = Some (fl, env') ->
  (exists q e, m env = Some (Err q e, env') /\ fl = Raises q e) \/
  (exists v env1, m env = Some (Val v, env1) /\ f v env1 = Some (fl, env')).
Proof.
  unfold with_value. destruct (m env) as [[[v|q e] env1]|]; [| |done]; intros H.
  - right. eauto.
  - left. injection H as <- <-. eauto.
Qed.

(** Unwinding past plain values. *)
Lemma unwind_plain why code value st : forall more fuel, Forall (fun v => plain v = true) more -> (length more <= fuel)%nat ->
  unwind_rt fuel why code value (Z.of_nat (length st)) (more ++ st) = Some (At_goal st).
Proof.
  induction more as [|v more IH]; intros fuel Hm Hf.
  - destruct fuel; cbn [app unwind_rt]; by rewrite Z.leb_refl.
  - apply Forall_cons in Hm as [Hv Hm]. cbn [length] in Hf. destruct fuel as [|fuel]; [lia|]. cbn [app unwind_rt length].
    rewrite (proj2 (Z.leb_gt _ _)) by (rewrite length_app; lia). destruct v; try done; apply IH; done || lia.
Qed.

(** Code is empty or begins with an instruction. *)
Definition enters (i : list item) : Prop := i = [] \/ starts i.
Lemma enters_app i j : enters i -> enters j -> enters (i ++ j).
Proof. intros [->|H] Hj; [done|]. right. by apply starts_app. Qed.
Lemma starts_enters i : starts i -> enters i.
Proof. by right. Qed.

Lemma starts_expr e L pc c sv i : covered e = true -> code_e L pc c sv e i -> starts i.
Proof. intros Hc. by apply (proj1 starts_covered e Hc). Qed.

Lemma enters_covered L F :
  (forall st E pc c i, covered_s st = true -> code_s L F E pc c st i -> enters i) /\
  (forall st E pc c i, covered_ss st = true -> code_ss L F E pc c st i -> enters i) /\
  (forall arms E pc c op tend i, covered_arms arms = true -> code_arms L F E pc c op tend arms i -> enters i) /\
  (forall ex : Except_Arm, True).
Proof.
  apply Stmt_ind_all; try done.
  - intros arms IHa otherwise IHo E pc c i [Ca Co]%andb_prop (i1 & i2 & -> & H1 & H2). eapply enters_app; eauto.
  - intros id e body _ E pc c i [Ce _]%andb_prop (i1 & i2 & -> & H1 & _). apply starts_enters, starts_app. by eapply starts_expr.
  - intros id f t body _ E pc c i [[Cf _]%andb_prop _]%andb_prop (i1 & i2 & i3 & -> & H1 & _). apply starts_enters, starts_app. by eapply starts_expr.
  - intros id e body _ E pc c i [Ce _]%andb_prop (i1 & i2 & i3 & -> & H1 & _). apply starts_enters, starts_app. by eapply starts_expr.
  - intros e E pc c i Ce (i1 & -> & H1). apply starts_enters, starts_app. by eapply starts_expr.
  - intros [|e] E pc c i Ce H; cbn [code_s] in H; [subst i|destruct H as (i1 & -> & H1); apply starts_enters, starts_app; by eapply starts_expr].
    right. by eexists _, _.
  - intros exit E pc c i _ (j & e & i0 & _ & [(_ & _ & ->)|(_ & _ & ->)] & ->); right; by eexists _, _.
  - intros exit E pc c i _ (j & e & i0 & _ & [(_ & _ & ->)|(_ & _ & ->)] & ->); right; by eexists _, _.
  - intros E pc c i _ H. cbn [code_ss] in H. by left.
  - intros st IH next IHn E pc c i [Cs Cn]%andb_prop (i1 & i2 & -> & H1 & H2). eapply enters_app; eauto.
  - intros E pc c op tend i _ H. cbn [code_arms] in H. by left.
  - intros e st _ next _ E pc c op tend i [[Ce _]%andb_prop _]%andb_prop (i1 & i2 & i3 & -> & H1 & _). apply starts_enters, starts_app. by eapply starts_expr.
Qed.
Lemma segf_enters I pc i j : segf I pc (i ++ j) -> enters j -> segf I pc i /\ segf I (pc + ilen i) j.
Proof.
  intros H [->|(b & k & ->)]; [|by apply segf_app]. rewrite app_nil_r in H. split; [done|].
  pose proof (segf_next _ _ _ H) as (b & post & Hn). destruct Hn as [H0 (post' & Hn)]. split; [done|]. by exists b, (post ++ post').
Qed.

(** *** Running *)

Section Machine.
Context (null : Program) (same : Verbdef -> bool) (bf_table : list bi_func).
Context (find_line_number : Program -> Z -> Z -> Z) (unwind_fuel : nat).
Context (fmod : spec_float -> spec_float -> spec_float) (pow : spec_float -> spec_float -> spec_float * bool).
Context (task_timed_out : Z -> bool).
Context (Htime : forall t, task_timed_out t = false) (Hunwind : unwind_fuel <> O).

Notation joins := (joins null same bf_table find_line_number unwind_fuel fmod pow task_timed_out).
Notation faults := (faults null same bf_table find_line_number unwind_fuel fmod pow task_timed_out).
Notation fault := (fault null same bf_table find_line_number unwind_fuel).
Notation exec_loop := (run_loop null same bf_table find_line_number unwind_fuel fmod pow task_timed_out).
Notation step := (step null same bf_table find_line_number unwind_fuel fmod pow task_timed_out).
Notation instruction := (instruction null same bf_table find_line_number unwind_fuel fmod pow).
Notation extended_instruction := (extended_instruction null same bf_table find_line_number unwind_fuel pow).
Notation UNWIND := (UNWIND null same bf_table find_line_number unwind_fuel).
Notation joins_trans := (joins_trans null same bf_table find_line_number unwind_fuel fmod pow task_timed_out).
Notation step_joins := (step_joins null same bf_table find_line_number unwind_fuel fmod pow task_timed_out).

(** From [B] the interpreter comes to doing [m] at [s']. *)
Definition comes (B s' : State) (m : X unit) : Prop :=
  exists n k', forall k, exec_loop (n + k) B =
    match m s' with
    | Some (Return out r, s2) => Some (out, r, s2)
    | Some (_, s2) => exec_loop (k' + k) s2
    | None => None
    end.
Lemma joins_comes B B' s' m : joins B B' -> comes B' s' m -> comes B s' m.
Proof.
  intros (n & k1 & H1) (n' & k2 & H2). exists (n + n')%nat, (k1 + k2)%nat. intros k.
  replace (n + n' + k)%nat with (n + (n' + k))%nat by lia. rewrite H1.
  replace (k1 + (n' + k))%nat with (n' + (k1 + k))%nat by lia. rewrite H2.
  by replace (k1 + k2 + k)%nat with (k2 + (k1 + k))%nat by lia.
Qed.
Lemma comes_joins B s' m s2 : comes B s' m -> m s' = Some (Go tt, s2) -> joins B s2.
Proof. intros (n & k' & H) Hm. exists n, k'. intros k. by rewrite H, Hm. Qed.
Lemma step_comes B s' m : step B = m s' -> comes B s' m.
Proof. intros H. exists 1%nat, O. intros k. cbn [Nat.add run_loop]. by rewrite H. Qed.
Lemma faults_comes B s' q e : faults B s' q e <-> comes B s' (fault q e).
Proof. done. Qed.

Section Activation.
Context (s : State) (a : activation) (l : list activation) (bc : Bytecodes) (z : sizes) (I : list item).
Context (Hcur : current s l a = Some bc) (V : vec bc z I).
Context (Hlits : Z.of_nat (length (p_literals (a_prog a))) < 2 ^ 32) (Hroom : rt_stack_room a < 2 ^ 32).
Notation C := (conf s a l).
Notation P := (place z I).
Notation fits_in := (fits_in a).
Notation L := (p_literals (a_prog a)).
Notation eval := (eval fmod pow (database s) (options s) (a_progr a) (a_debug a) None).
Notation conf_label := (conf_label s a l bc z I Hcur V).
Notation conf_ref := (conf_ref s a l bc z I Hcur V).
Notation conf_var_name := (conf_var_name s a l bc z I Hcur V).
Notation conf_ep_joins := (conf_ep_joins null same bf_table find_line_number unwind_fuel fmod pow task_timed_out s a l).
Notation conf_step := (conf_step null same bf_table find_line_number unwind_fuel fmod pow task_timed_out Htime s a l bc z I Hcur V).
Notation conf_extended := (conf_extended null same bf_table find_line_number unwind_fuel fmod pow task_timed_out Htime s a l bc z I Hcur V).

(** Out of a loop; and back. *)
Definition leave (height pl : Z) : X unit := _ ← UNWIND FIN_EXIT (VList [VInt height; VInt (P pl)]); mret tt.
Definition returning (v : Var) : X unit :=
  r ← UNWIND FIN_RETURN v;
  match r with
  | Some outcome => return_ outcome (if bool_decide (outcome = OUTCOME_DONE) then Some v else None)
  | None => mret tt
  end.

Definition exit_height (continue : bool) (e : Env) : Z := if continue then e_top_stack e else e_bottom_stack e.
Definition exit_place (continue : bool) (e : Env) : Z := if continue then e_top e else e_bottom e.

(** From [B] the statements end at [pc] with the stack [st]; in [n] ticks at most. *)
Definition reached (B : State) (E : list Env) (pc : Z) (st : list Var) (fl : flow) (env : list Var) (t n : Z) : Prop :=
  exists t', t - n <= t' <= t /\
    match fl with
    | Falls => joins B (C (P pc) st env t' 0)
    | Exits continue j => exists e p more ep, E !! j = Some e /\ Forall (fun v => plain v = true) more /\
        comes B (C p (more ++ st) env t' ep) (leave (exit_height continue e) (exit_place continue e))
    | Returns v => exists p more ep, Forall (fun v => plain v = true) more /\ comes B (C p (more ++ st) env t' ep) (returning v)
    | Raises q e => exists p more ep, faults B (C p (more ++ st) env t' ep) q e
    end.
(** From a place to another, and to the end of statements, with enough ticks. *)
Definition goes (pc : Z) (st env : list Var) (pc' : Z) (st' env' : list Var) : Prop :=
  exists n, 0 <= n /\ forall t, n < t -> exists t', t - n <= t' <= t /\ joins (C (P pc) st env t 0) (C (P pc') st' env' t' 0).
Definition runs (pc : Z) (st0 env0 : list Var) (E : list Env) (pc' : Z) (st : list Var) (fl : flow) (env : list Var) : Prop :=
  exists n, 0 <= n /\ forall t, n < t -> reached (C (P pc) st0 env0 t 0) E pc' st fl env t n.

Lemma reached_joins B B' E pc st fl env t n : joins B B' -> reached B' E pc st fl env t n -> reached B E pc st fl env t n.
Proof.
  intros H (t' & Ht & Hr). exists t'. split; [done|]. destruct fl as [|c j|v|q e].
  - by eapply joins_trans.
  - destruct Hr as (x & p & more & ep & Hx & Hm & Hc). exists x, p, more, ep. split; [done|]. split; [done|]. by eapply joins_comes.
  - destruct Hr as (p & more & ep & Hm & Hc). exists p, more, ep. split; [done|]. by eapply joins_comes.
  - destruct Hr as (p & more & ep & Hc). exists p, more, ep. by eapply joins_comes.
Qed.
Lemma goes_refl pc st env : goes pc st env pc st env.
Proof. exists 0. split; [lia|]. intros t Ht. exists t. split; [lia|]. apply joins_refl. Qed.
Lemma goes_runs pc st0 env0 pc1 st1 env1 E pc' st fl env :
  goes pc st0 env0 pc1 st1 env1 -> runs pc1 st1 env1 E pc' st fl env -> runs pc st0 env0 E pc' st fl env.
Proof.
  intros (n1 & Hn1 & H1) (n2 & Hn2 & H2). exists (n1 + n2). split; [lia|]. intros t Ht. destruct (H1 t ltac:(lia)) as (t' & Ht' & Hj).
  eapply reached_joins; [exact Hj|]. destruct (H2 t' ltac:(lia)) as (t2 & Ht2 & Hr). exists t2. split; [lia|done].
Qed.
Lemma goes_trans pc st env pc1 st1 env1 pc2 st2 env2 : goes pc st env pc1 st1 env1 -> goes pc1 st1 env1 pc2 st2 env2 -> goes pc st env pc2 st2 env2.
Proof.
  intros (n1 & Hn1 & H1) (n2 & Hn2 & H2). exists (n1 + n2). split; [lia|]. intros t Ht. destruct (H1 t ltac:(lia)) as (t' & Ht' & Hj).
  destruct (H2 t' ltac:(lia)) as (t2 & Ht2 & Hj2). exists t2. split; [lia|]. by eapply joins_trans.
Qed.
Lemma goes_falls pc st env E pc' st' env' : goes pc st env pc' st' env' <-> runs pc st env E pc' st' Falls env'.
Proof. done. Qed.

(** An instruction. *)
Lemma goes_op b post pc st0 env0 pc' st env : seg I pc (Op b :: post) ->
  (forall t ep, instruction b (C (P (pc + 1)) st0 env0 t ep) = Some (Go tt, C (P pc') st env t ep)) -> goes pc st0 env0 pc' st env.
Proof.
  intros Hs H. exists 1. split; [lia|]. intros t Ht. exists (ticks_after b t). split; [unfold ticks_after; destruct (COUNT_TICK b); lia|].
  eapply joins_trans; [apply step_joins; by rewrite (conf_step _ _ _ _ _ _ _ Hs Ht), H|]. apply conf_ep_joins.
Qed.
Lemma goes_extended b post pc st0 env0 pc' st env : seg I pc (Op OP_EXTENDED :: Op b :: post) ->
  (forall t ep, extended_instruction b (C (P (pc + 2)) st0 env0 t ep) = Some (Go tt, C (P pc') st env t ep)) -> goes pc st0 env0 pc' st env.
Proof.
  intros Hs H. exists 1. split; [lia|]. intros t Ht. destruct (conf_extended _ _ _ st0 env0 t 0 Hs Ht) as (t' & Ht' & E). exists t'. split; [done|].
  eapply joins_trans; [apply step_joins; by rewrite E, H|]. apply conf_ep_joins.
Qed.
Lemma goes_jump pc T post st env : seg I pc (Op OP_JUMP :: Lab T :: post) -> goes pc st env T st env.
Proof.
  intros Hs. eapply goes_op; [exact Hs|]. intros t ep. change (instruction OP_JUMP) with op_jump. unfold op_jump.
  apply seg_cons in Hs as [_ Hs]. rewrite (xbind_eq _ _ _ _ _ (conf_label _ _ _ _ _ _ _ Hs)). apply conf_jump.
Qed.
Lemma goes_pop pc post v st env : seg I pc (Op OP_POP :: post) -> goes pc (v :: st) env (pc + 1) st env.
Proof.
  intros Hs. eapply goes_op; [exact Hs|]. intros t ep. change (instruction OP_POP) with op_pop. unfold op_pop.
  by rewrite (xbind_eq _ _ _ _ _ (conf_pop _ _ _ _ _ _ _ _ _)).
Qed.
Lemma goes_test op pc T post v st env : op = OP_IF \/ op = OP_EIF \/ op = OP_WHILE -> seg I pc (Op op :: Lab T :: post) ->
  goes pc (v :: st) env (if is_true v then pc + 2 else T) st env.
Proof.
  intros Hop Hs. eapply goes_op; [exact Hs|]. intros t ep. apply seg_cons in Hs as [_ Hs].
  assert (instruction op = do_test) as -> by by destruct Hop as [->|[->| ->]].
  rewrite (do_test_eq _ _ _ _ _ _ Hcur V _ _ _ _ _ _ _ _ Hs). by replace (pc + 1 + 1) with (pc + 2) by lia.
Qed.

(** *** Out of loops *)

Lemma vbind_eq {A B} (m : Machine.V A) (f : A -> Machine.V B) c x c1 : m c = Some (x, c1) -> (m ≫= f) c = f x c1.
Proof. intros H. unfold mbind, V_bind. by rewrite H. Qed.

Lemma leave_eq h T more st p env t ep : h = Z.of_nat (length st) -> Forall (fun v => plain v = true) more ->
  leave h T (C p (more ++ st) env t ep) = Some (Go tt, C (P T) st env t ep).
Proof.
  intros -> Hm. unfold leave, Run.UNWIND. destruct unwind_fuel as [|k]; [done|].
  assert (call (unwind_stack null same bf_table find_line_number (S k) FIN_EXIT (VList [VInt (Z.of_nat (length st)); VInt (P T)]))
    (C p (more ++ st) env t ep) = Some (Go None, C (P T) st env t ep)) as E; [|by rewrite (xbind_eq _ _ _ _ _ E)].
  set (c := C p (more ++ st) env t ep). set (x := set_rt_stack (more ++ st) (set_rt_env env (set_error_pc ep (set_pc p a)))).
  unfold call. cbn [unwind_stack].
  rewrite (vbind_eq _ _ c zero c eq_refl), (vbind_eq _ _ c (Z.of_nat (length st)) c eq_refl).
  rewrite (vbind_eq _ _ c x c) by by destruct s, a.
  replace (a_rt_stack x) with (more ++ st) by by destruct a.
  rewrite (vbind_eq _ _ c (At_goal st) c) by (by rewrite (unwind_plain FIN_EXIT zero _ st more _ Hm) by (rewrite length_app; lia)).
  by destruct s, a.
Qed.

Lemma reached_under B E pc pc' vals st fl env t n : Forall (fun v => plain v = true) vals -> fl <> Falls ->
  reached B E pc (vals ++ st) fl env t n -> reached B E pc' st fl env t n.
Proof.
  intros Hv Hf (t' & Ht & H). exists t'. split; [done|]. destruct fl as [|c j|v|q e]; [done|..].
  - destruct H as (x & p & more & ep & Hx & Hm & Hc). exists x, p, (more ++ vals), ep. split; [done|]. rewrite <- app_assoc. split; [by apply Forall_app|done].
  - destruct H as (p & more & ep & Hm & Hc). exists p, (more ++ vals), ep. rewrite <- app_assoc. split; [by apply Forall_app|done].
  - destruct H as (p & more & ep & Hc). exists p, (more ++ vals), ep. by rewrite <- app_assoc.
Qed.
Lemma runs_under pc0 st0 env0 E pc pc' vals st fl env : Forall (fun v => plain v = true) vals -> fl <> Falls ->
  runs pc0 st0 env0 E pc (vals ++ st) fl env -> runs pc0 st0 env0 E pc' st fl env.
Proof. intros Hv Hf (n & Hn & H). exists n. split; [done|]. intros t Ht. eapply reached_under; eauto. Qed.
(** An error needs no stack. *)
Lemma raises_under pc0 st0 env0 E pc pc' v st q e env :
  runs pc0 st0 env0 E pc (v :: st) (Raises q e) env -> runs pc0 st0 env0 E pc' st (Raises q e) env.
Proof.
  intros (n & Hn & H). exists n. split; [done|]. intros t Ht. destruct (H t Ht) as (t' & Ht' & p & more & ep & Hc).
  exists t'. split; [done|]. exists p, (more ++ [v]), ep. by rewrite <- app_assoc.
Qed.
Lemma reached_elsewhere pc0 st0 env0 E pc pc' st fl env : fl <> Falls -> runs pc0 st0 env0 E pc st fl env -> runs pc0 st0 env0 E pc' st fl env.
Proof. intros Hf. apply (runs_under _ _ _ _ _ _ []); [constructor|done]. Qed.

Lemma iterate_inv body rest env fl env' : iterate body rest env = Some (fl, env') -> exists fl1 env1, body env = Some (fl1, env1) /\
  (((fl1 = Falls \/ fl1 = Exits true O) /\ rest env1 = Some (fl, env')) \/ (fl1 = Exits false O /\ fl = Falls /\ env' = env1) \/
   (env' = env1 /\ ((exists c j, fl1 = Exits c (S j) /\ fl = Exits c j) \/ (fl1 = fl /\ ((exists v, fl = Returns v) \/ exists q e, fl = Raises q e))))).
Proof.
  unfold iterate. destruct (body env) as [[fl1 env1]|]; [|done]. intros H. exists fl1, env1. split; [done|].
  destruct fl1 as [|[] [|j]|v|q e]; try (injection H as <- <-); eauto 10.
Qed.

(** One round: the body, and back to the top with another. *)
Lemma round id top bottom vals vals' st pcb env pcj post body rest fl env' E :
  let e := mkEnv id top (Z.of_nat (length (vals ++ st))) bottom (Z.of_nat (length st)) in
  Forall (fun v => plain v = true) vals -> seg I pcj (Op OP_JUMP :: Lab top :: post) ->
  (forall fl1 env1, body env = Some (fl1, env1) -> runs pcb (vals ++ st) env (e :: E) pcj (vals ++ st) fl1 env1) ->
  (forall env1, rest env1 = Some (fl, env') -> runs top (vals ++ st) env1 E bottom st fl env') ->
  vals' = vals ++ st ->
  iterate body rest env = Some (fl, env') -> runs pcb vals' env E bottom st fl env'.
Proof.
  intros e Hv Hs Hb Hr -> H. apply iterate_inv in H as (fl1 & env1 & Eb & H). specialize (Hb _ _ Eb).
  destruct H as [[[-> | ->] H]|[(-> & -> & ->)|(-> & H)]].
  - apply (goes_runs _ _ _ pcj (vals ++ st) env1); [done|]. eapply goes_runs; [by eapply goes_jump|]. by apply Hr.
  - eapply goes_runs; [|by apply Hr]. destruct Hb as (n & Hn & Hb). exists n. split; [done|]. intros t Ht.
    destruct (Hb t Ht) as (t' & Ht' & e' & p & more & ep & [= <-] & Hm & Hc). exists t'. split; [done|].
    eapply joins_trans; [eapply (comes_joins _ _ _ _ Hc); by apply leave_eq|]. apply conf_ep_joins.
  - destruct Hb as (n & Hn & Hb). exists n. split; [done|]. intros t Ht.
    destruct (Hb t Ht) as (t' & Ht' & e' & p & more & ep & [= <-] & Hm & Hc). exists t'. split; [done|].
    eapply joins_trans; [eapply (comes_joins _ _ _ _ Hc); rewrite app_assoc; apply leave_eq; [done|by apply Forall_app]|]. apply conf_ep_joins.
  - destruct H as [(c & j & -> & ->)|(-> & H)].
    + eapply (runs_under _ _ _ _ pcj bottom) in Hb; [|exact Hv|done]. destruct Hb as (n & Hn & Hb). exists n. split; [done|]. intros t Ht.
      destruct (Hb t Ht) as (t' & Ht' & e' & H). exists t'. split; [done|]. by exists e'.
    + eapply (runs_under _ _ _ _ pcj); [exact Hv|by destruct H as [[v ->]|(q & x & ->)]|].
      destruct Hb as (n & Hn & Hb). exists n. split; [done|]. intros t Ht. specialize (Hb t Ht).
      destruct H as [[v ->]|(q & x & ->)]; exact Hb.
Qed.

(** *** Expressions *)

Lemma expr_runs e pc c i st env r env' : wf_e false e = true -> covered e = true -> code_e L pc c UINT_MAX e i -> segf I pc i ->
  eval e env = Some (r, env') -> Z.of_nat (length st) = c -> fits_in st (depth_e e) ->
  match r with
  | Val v => goes pc st env (pc + ilen i) (v :: st) env'
  | Err q x => forall E pc', runs pc st env E pc' st (Raises q x) env'
  end.
Proof.
  intros Hw Hc Hi Hs Hev Hl Hf. pose proof (ilen_nonneg i) as Hn.
  pose proof (proj1 (comp_all null same bf_table find_line_number unwind_fuel fmod pow task_timed_out Htime s a l bc z I Hcur V Hlits Hroom) e) as H.
  destruct r as [v|q x]; [|intros E pc']; exists (ilen i + 1); (split; [lia|]); intros t Ht;
    destruct (H false None pc c UINT_MAX i st env t _ env' Hw Hc Hi Hs Hev Hl Logic.I Hf ltac:(lia)) as (t' & Ht' & Hj); exists t'; (split; [lia|exact Hj]).
Qed.

(** *** Loops *)

Lemma conf_set_top n p st env t ep v : (n < length st)%nat ->
  set_TOP n v (C p st env t ep) = Some (Go tt, C p (<[n := v]> st) env t ep).
Proof.
  intros Hn. unfold set_TOP. rewrite (xbind_eq _ _ _ _ _ (conf_activ _ _ _ _ _ _ _ _)).
  replace (a_rt_stack (set_rt_stack st _)) with st by by destruct a.
  destruct (lookup_lt_is_Some_2 st n Hn) as [x Hx]. rewrite (need_eq _ _ _ x Hx). by destruct s, a.
Qed.
Lemma conf_next_top p v w st env t ep : NEXT_TOP_RT_VALUE (C p (v :: w :: st) env t ep) = Some (Go w, C p (v :: w :: st) env t ep).
Proof. by destruct s, a. Qed.

(** The error of a loop over what is no list, or its end. *)
Lemma no_loop_comes B v w st T p env t t' n ep E : t - n <= t' <= t ->
  comes B (C p (v :: w :: st) env t' ep) (RAISE_ERROR null same bf_table find_line_number unwind_fuel E_TYPE;; _ ← POP; _ ← POP; JUMP (P T)) ->
  forall fl env', no_loop (a_debug a) env = Some (fl, env') -> reached B E T st fl env' t n.
Proof.
  intros Ht Hc fl env' H. exists t'. split; [done|]. unfold no_loop in H. destruct (a_debug a) eqn:Ed; injection H as <- <-.
  - exists p, [v; w], ep. destruct Hc as (n1 & k' & Hc). exists n1, k'. intros k. rewrite Hc. cbn [app].
    unfold fault, PUSH_ERROR, RAISE_ERROR, mbind, X_bind. set (c := C p (v :: w :: st) env t' ep).
    destruct (RUN_ACTIV c) as [[[x| |? ?] c1]|] eqn:Ex; try done.
    unfold c in Ex. rewrite conf_activ in Ex. injection Ex as <- <-.
    replace (a_debug (set_rt_stack (v :: w :: st) (set_rt_env env (set_error_pc ep (set_pc p a))))) with true by by destruct a.
    by destruct (RAISE _ _ _ _ _ _ _ _ _) as [[[| |] ?]|].
  - eapply joins_trans; [apply (comes_joins _ _ _ (C (P T) st env t' ep) Hc)|apply conf_ep_joins].
    rewrite (xbind_eq _ _ _ tt (C p (v :: w :: st) env t' ep));
      [rewrite (xbind_eq _ _ _ _ _ (conf_pop _ _ _ _ _ _ _ _ _)), (xbind_eq _ _ _ _ _ (conf_pop _ _ _ _ _ _ _ _ _)); apply conf_jump|].
    unfold RAISE_ERROR. rewrite (xbind_eq _ _ _ _ _ (conf_activ _ _ _ _ _ _ _ _)).
    by replace (a_debug (set_rt_stack (v :: w :: st) (set_rt_env env (set_error_pc ep (set_pc p a))))) with false by by destruct a.
Qed.

(** OP_FOR_LIST and OP_FOR_RANGE, where the operands are. *)
Section For.
Context (top id bottom : Z) (post : list item) (Hid : slot_ok id = true).
Context (op : Z) (Hop : op = OP_FOR_LIST \/ op = OP_FOR_RANGE).
Context (Hs : seg I top (Op op :: Ref FIXUP_VAR_REF id :: Lab bottom :: post)).

Definition for_instruction (v w : Var) : X unit :=
  if op =? OP_FOR_LIST then
    match w with
    | VList l =>
        c ← need (match v with VInt c => Some c | _ => None end);
        if llen l <? c then _ ← POP; _ ← POP; JUMP (P bottom)
        else x ← need (aread l c); put_var id x;; set_TOP 0 (VInt (Num (c + 1)))
    | _ => RAISE_ERROR null same bf_table find_line_number unwind_fuel E_TYPE;; _ ← POP; _ ← POP; JUMP (P bottom)
    end
  else
    match w, v with
    | VInt f, VInt t =>
        if t <? f then _ ← POP; _ ← POP; JUMP (P bottom)
        else put_var id w;; (if f <? NUM_MAX then set_TOP 1 (VInt (f + 1)) else set_TOP 0 (VInt (t - 1)))
    | VObj f, VObj t =>
        if t <? f then _ ← POP; _ ← POP; JUMP (P bottom)
        else put_var id w;; (if f <? NUM_MAX then set_TOP 1 (VObj (f + 1)) else set_TOP 0 (VObj (t - 1)))
    | _, _ => RAISE_ERROR null same bf_table find_line_number unwind_fuel E_TYPE;; _ ← POP; _ ← POP; JUMP (P bottom)
    end.

Lemma for_step v w st env t ep : 1 < t -> exists t', t - 1 <= t' <= t /\
  step (C (P top) (v :: w :: st) env t ep) = for_instruction v w (C (P (top + 3)) (v :: w :: st) env t' (P top)).
Proof.
  intros Ht. exists (ticks_after op t). split; [unfold ticks_after; destruct (COUNT_TICK op); lia|].
  rewrite (conf_step _ _ _ (v :: w :: st) env t ep Hs Ht). apply andb_prop in Hid as [H1 H2]. apply Z.leb_le in H1. apply Z.ltb_lt in H2.
  apply seg_cons in Hs as [_ Hs1]. pose proof (seg_cons _ _ _ _ Hs1) as [_ Hs2].
  unfold for_instruction. destruct Hop as [-> | ->].
  - change (instruction OP_FOR_LIST) with (op_for_list null same bf_table find_line_number unwind_fuel). unfold op_for_list.
    rewrite (xbind_eq _ _ _ _ _ (conf_var_name _ _ _ _ _ _ _ Hs1 ltac:(lia))), (xbind_eq _ _ _ _ _ (conf_label _ _ _ _ _ _ _ Hs2)).
    rewrite (xbind_eq _ _ _ _ _ (conf_top _ _ _ _ _ _ _ _ _)), (xbind_eq _ _ _ _ _ (conf_next_top _ _ _ _ _ _ _)).
    by replace (top + 1 + 1 + 1) with (top + 3) by lia.
  - change (instruction OP_FOR_RANGE) with (op_for_range null same bf_table find_line_number unwind_fuel). unfold op_for_range.
    rewrite (xbind_eq _ _ _ _ _ (conf_var_name _ _ _ _ _ _ _ Hs1 ltac:(lia))), (xbind_eq _ _ _ _ _ (conf_label _ _ _ _ _ _ _ Hs2)).
    rewrite (xbind_eq _ _ _ _ _ (conf_top _ _ _ _ _ _ _ _ _)), (xbind_eq _ _ _ _ _ (conf_next_top _ _ _ _ _ _ _)).
    replace (top + 1 + 1 + 1) with (top + 3) by lia. by destruct w, v.
Qed.
Lemma goes_for v w st env st' env' pc' :
  (forall t ep, for_instruction v w (C (P (top + 3)) (v :: w :: st) env t ep) = Some (Go tt, C (P pc') st' env' t ep)) ->
  goes top (v :: w :: st) env pc' st' env'.
Proof.
  intros H. exists 1. split; [lia|]. intros t Ht. destruct (for_step v w st env t 0 Ht) as (t' & Ht' & E). exists t'. split; [done|].
  eapply joins_trans; [apply step_joins; by rewrite E, H|]. apply conf_ep_joins.
Qed.
Lemma for_end v w st env : for_instruction v w = (_ ← POP; _ ← POP; JUMP (P bottom)) -> goes top (v :: w :: st) env bottom st env.
Proof.
  intros E. apply goes_for. intros t ep. rewrite E, (xbind_eq _ _ _ _ _ (conf_pop _ _ _ _ _ _ _ _ _)), (xbind_eq _ _ _ _ _ (conf_pop _ _ _ _ _ _ _ _ _)).
  apply conf_jump.
Qed.
Lemma for_no_loop v w st env E fl env' :
  for_instruction v w = (RAISE_ERROR null same bf_table find_line_number unwind_fuel E_TYPE;; _ ← POP; _ ← POP; JUMP (P bottom)) ->
  no_loop (a_debug a) env = Some (fl, env') -> runs top (v :: w :: st) env E bottom st fl env'.
Proof.
  intros Ei H. exists 1. split; [lia|]. intros t Ht. destruct (for_step v w st env t 0 Ht) as (t' & Ht' & Es).
  eapply no_loop_comes; [exact Ht'| |exact H]. apply step_comes. by rewrite Es, Ei.
Qed.
End For.

(** The rounds of a loop over a list or a range. *)
Section Rounds.
Context (top id bottom pcj : Z) (post post2 : list item) (Hid : slot_ok id = true).
Context (st : list Var) (E : list Env) (body : Ex).
Context (Hj : seg I pcj (Op OP_JUMP :: Lab top :: post2)).
Notation e := (mkEnv id top (Z.of_nat (S (S (length st)))) bottom (Z.of_nat (length st))).
Context (Hbody : forall v w env fl1 env1, body env = Some (fl1, env1) ->
  runs (top + 3) (v :: w :: st) env (e :: E) pcj (v :: w :: st) fl1 env1).

(** One round, when the operands are [v1] and [w1] and will be [v2] and [w2]. *)
Lemma for_round op v1 w1 v2 w2 x env rest fl env' : op = OP_FOR_LIST \/ op = OP_FOR_RANGE ->
  seg I top (Op op :: Ref FIXUP_VAR_REF id :: Lab bottom :: post) -> plain v2 = true -> plain w2 = true ->
  (forall env1 t ep, set_rt_env_var env id x = Some env1 ->
    for_instruction id bottom op v1 w1 (C (P (top + 3)) (v1 :: w1 :: st) env t ep) = Some (Go tt, C (P (top + 3)) (v2 :: w2 :: st) env1 t ep)) ->
  (forall env1, rest env1 = Some (fl, env') -> runs top (v2 :: w2 :: st) env1 E bottom st fl env') ->
  with_value (assign id x) (fun _ => iterate body rest) env = Some (fl, env') -> runs top (v1 :: w1 :: st) env E bottom st fl env'.
Proof.
  intros Hop Hs Hv Hw Hi Hr H. apply with_value_inv in H as [(q & y & H & _)|(y & env1 & H & Hit)]; unfold assign in H;
    destruct (set_rt_env_var env id x) as [env2|] eqn:Ee; try done. injection H as <- <-.
  eapply goes_runs; [apply (goes_for top id bottom post Hid op Hop Hs v1 w1 st env (v2 :: w2 :: st) env2 (top + 3)); intros t ep; by apply Hi|].
  apply (round id top bottom [v2; w2] _ st (top + 3) env2 pcj post2 body rest fl env' E); [by repeat constructor|exact Hj| | |done|exact Hit].
  - intros fl1 env1 Hb. by apply Hbody.
  - exact Hr.
Qed.

Lemma list_loop_runs (Hs : seg I top (Op OP_FOR_LIST :: Ref FIXUP_VAR_REF id :: Lab bottom :: post)) all : llen all < NUM_MAX ->
  forall rest n env fl env', drop n all = rest -> list_loop id rest body env = Some (fl, env') ->
  (n <= length all)%nat -> runs top (VInt (Z.of_nat n + 1) :: VList all :: st) env E bottom st fl env'.
Proof.
  intros Hlen. induction rest as [|x rest IH]; intros n env fl env' Hd H Hle; cbn [list_loop] in H.
  - injection H as <- <-. assert (Hn : length (drop n all) = O) by by rewrite Hd. rewrite length_drop in Hn.
    apply (for_end top id bottom post Hid OP_FOR_LIST (or_introl eq_refl) Hs). unfold for_instruction. rewrite Z.eqb_refl.
    change (need (Some ?c) ≫= ?f) with (f c). cbn beta. unfold llen. by rewrite (proj2 (Z.ltb_lt _ _)) by lia.
  - assert (Hx : all !! n = Some x) by (rewrite <- (Nat.add_0_r n), <- lookup_drop, Hd; done).
    pose proof (lookup_lt_Some _ _ _ Hx) as Hlt. unfold llen in Hlen.
    apply (for_round OP_FOR_LIST _ _ (VInt (Z.of_nat (S n) + 1)) (VList all) x env (list_loop id rest body)); [by left|exact Hs|done|done| | |exact H].
    + intros env1 t ep He. unfold for_instruction. rewrite Z.eqb_refl. rewrite (need_eq _ _ _ (Z.of_nat n + 1) eq_refl).
      unfold llen. rewrite (proj2 (Z.ltb_ge _ _)) by lia. rewrite (need_eq _ _ _ x).
      2: { unfold aread. rewrite (proj2 (Z.leb_le _ _)) by lia. by replace (Z.to_nat (Z.of_nat n + 1 - 1)) with n by lia. }
      rewrite (xbind_eq _ _ _ _ _ (conf_put _ _ _ _ _ _ _ _ _ _ _ He)), conf_set_top by (cbn [length]; lia). cbn [insert list_insert].
      rewrite Num_id by (unfold is_Num, NUM_MIN, NUM_MAX in *; lia). by replace (Z.of_nat n + 1 + 1) with (Z.of_nat (S n) + 1) by lia.
    + intros env1 H1. apply IH; [|exact H1|lia]. by rewrite <- (Nat.add_1_r n), <- drop_drop, Hd.
Qed.

Lemma range_loop_runs (Hs : seg I top (Op OP_FOR_RANGE :: Ref FIXUP_VAR_REF id :: Lab bottom :: post)) mk : mk = VInt \/ mk = VObj ->
  forall n f t env fl env', n = Z.to_nat (t - f + 1) -> t <= NUM_MAX -> range_loop mk id n f body env = Some (fl, env') ->
  runs top (mk t :: mk f :: st) env E bottom st fl env'.
Proof.
  intros Hmk. induction n as [|n IH]; intros f t env fl env' Hn Ht H; cbn [range_loop] in H.
  - injection H as <- <-. apply (for_end top id bottom post Hid OP_FOR_RANGE (or_intror eq_refl) Hs). unfold for_instruction.
    change (OP_FOR_RANGE =? OP_FOR_LIST) with false. destruct Hmk as [-> | ->]; by rewrite (proj2 (Z.ltb_lt _ _)) by lia.
  - destruct (Z.ltb_spec f NUM_MAX) as [Hf|Hf].
    + apply (for_round OP_FOR_RANGE _ _ (mk t) (mk (f + 1)) (mk f) env (range_loop mk id n (f + 1) body));
        [by right|exact Hs|by destruct Hmk as [-> | ->]..| |intros env1 H1; apply (IH (f + 1) t); [lia|done|done]|exact H].
      intros env1 t0 ep He. unfold for_instruction. change (OP_FOR_RANGE =? OP_FOR_LIST) with false.
      destruct Hmk as [-> | ->]; rewrite (proj2 (Z.ltb_ge _ _)) by lia; rewrite (xbind_eq _ _ _ _ _ (conf_put _ _ _ _ _ _ _ _ _ _ _ He));
        rewrite (proj2 (Z.ltb_lt _ _)) by lia; by rewrite conf_set_top by (cbn [length]; lia).
    + assert (n = O) as -> by lia.
      apply (for_round OP_FOR_RANGE _ _ (mk (t - 1)) (mk f) (mk f) env (range_loop mk id O (f + 1) body));
        [by right|exact Hs|by destruct Hmk as [-> | ->]..| |intros env1 H1; apply (IH f (t - 1)); [lia|lia|exact H1]|exact H].
      intros env1 t0 ep He. unfold for_instruction. change (OP_FOR_RANGE =? OP_FOR_LIST) with false.
      destruct Hmk as [-> | ->]; rewrite (proj2 (Z.ltb_ge _ _)) by lia; rewrite (xbind_eq _ _ _ _ _ (conf_put _ _ _ _ _ _ _ _ _ _ _ He));
        rewrite (proj2 (Z.ltb_ge _ _)) by lia; by rewrite conf_set_top by (cbn [length]; lia).
Qed.
End Rounds.

(** *** Statements *)

Section Statements.
Context (F : list Bytecodes) (fuel : nat).
Notation exec_s := (exec_s fmod pow (database s) (options s) (a_progr a) (a_debug a) fuel).
Notation exec_ss := (exec_ss fmod pow (database s) (options s) (a_progr a) (a_debug a) fuel).
Notation exec_arms := (exec_arms fmod pow (database s) (options s) (a_progr a) (a_debug a) fuel).

Definition heights_ok (E : list Env) : Prop := Forall (fun e => e_top_stack e < 2 ^ 32 /\ e_bottom_stack e < 2 ^ 32) E.
Definition srun (x : Stmt) : Prop := forall ids E pc c i st env fl env',
  wf_s ids x = true -> covered_s x = true -> code_s L F E pc c x i -> segf I pc i -> exec_s ids x env = Some (fl, env') ->
  Z.of_nat (length st) = c -> map e_id E = ids -> heights_ok E -> fits_in st (depth_s x) ->
  runs pc st env E (pc + ilen i) st fl env'.
Definition ssrun (x : Stmts) : Prop := forall ids E pc c i st env fl env',
  wf_ss ids x = true -> covered_ss x = true -> code_ss L F E pc c x i -> segf I pc i -> exec_ss ids x env = Some (fl, env') ->
  Z.of_nat (length st) = c -> map e_id E = ids -> heights_ok E -> fits_in st (depth_ss x) ->
  runs pc st env E (pc + ilen i) st fl env'.
Definition arun (x : Cond_Arm) : Prop := forall ids E pc c op tend i st env otherwise fl env',
  wf_arms ids x = true -> covered_arms x = true -> code_arms L F E pc c op tend x i -> segf I pc i -> op = OP_IF \/ op = OP_EIF ->
  exec_arms ids x otherwise env = Some (fl, env') ->
  Z.of_nat (length st) = c -> map e_id E = ids -> heights_ok E -> fits_in st (depth_arms x) ->
  (forall env1, otherwise env1 = Some (fl, env') -> runs (pc + ilen i) st env1 E tend st fl env') ->
  runs pc st env E tend st fl env'.

Lemma runs_jump pc0 st0 env0 E q T post st fl env : runs pc0 st0 env0 E q st fl env -> seg I q (Op OP_JUMP :: Lab T :: post) ->
  runs pc0 st0 env0 E T st fl env.
Proof.
  intros H Hs. destruct fl; try (by eapply reached_elsewhere). apply (goes_runs _ _ _ q st env); [done|]. by eapply goes_jump.
Qed.
Lemma fits_less st d d' : d' <= d -> fits_in st d -> fits_in st d'.
Proof. unfold Eval.fits_in. lia. Qed.
Ltac fits := match goal with H : fits_in _ _ |- _ => revert H; unfold Eval.fits_in; cbn [depth_s depth_ss depth_arms length]; lia end.

Lemma srun_expr e : srun (STMT_EXPR e).
Proof.
  intros ids E pc c i st env fl env' Hw Hc (i1 & -> & H1) Hs Hev Hl He Hh Hf. destruct (segf_app _ _ _ _ _ Hs) as [S1 S2]. rewrite ilen_app.
  cbn [Exec.exec_s] in Hev. apply with_value_inv in Hev as [(q & x & Hev & ->)|(v & env1 & Hev & Hk)];
    pose proof (expr_runs e pc c i1 st env _ _ Hw Hc H1 S1 Hev Hl ltac:(fits)) as R; cbn beta iota in R; [apply R|].
  injection Hk as <- <-. eapply goes_runs; [exact R|]. change (ilen [_]) with 1. rewrite Z.add_assoc.
  by eapply goes_pop, segf_seg.
Qed.

Lemma return_runs op p v st env E pc' : instruction op = op_return null same bf_table find_line_number unwind_fuel op -> op = OP_RETURN \/ op = OP_RETURN0 -> forall post,
  seg I p (Op op :: post) -> runs p ((if op =? OP_RETURN then [v] else []) ++ st) env E pc' st (Returns (if op =? OP_RETURN then v else zero)) env.
Proof.
  intros Hi Hop post Hs. exists 1. split; [lia|]. intros t Ht. exists (ticks_after op t). split; [unfold ticks_after; destruct (COUNT_TICK op); lia|].
  exists (P (p + 1)), [], (P p). split; [constructor|]. apply step_comes. rewrite (conf_step _ _ _ _ env t 0 Hs Ht), Hi. unfold op_return.
  destruct Hop as [-> | ->]; [|done]. change (OP_RETURN =? OP_RETURN) with true. cbn [app]. by rewrite (xbind_eq _ _ _ _ _ (conf_pop _ _ _ _ _ _ _ _ _)).
Qed.
Lemma srun_return x : srun (STMT_RETURN x).
Proof.
  intros ids E pc c i st env fl env' Hw Hc Hi Hs Hev Hl He Hh Hf. destruct x as [|e]; cbn [code_s] in Hi; cbn [Exec.exec_s] in Hev.
  - subst i. injection Hev as <- <-. by apply (return_runs OP_RETURN0 pc zero st env E _ eq_refl (or_intror eq_refl) []), segf_seg.
  - destruct Hi as (i1 & -> & H1). destruct (segf_app _ _ _ _ _ Hs) as [S1 S2].
    apply with_value_inv in Hev as [(q & x & Hev & ->)|(v & env1 & Hev & Hk)];
      pose proof (expr_runs e pc c i1 st env _ _ Hw Hc H1 S1 Hev Hl ltac:(fits)) as R; cbn beta iota in R; [apply R|].
    injection Hk as <- <-. eapply goes_runs; [exact R|].
    by apply (return_runs OP_RETURN _ v st env1 E _ eq_refl (or_introl eq_refl) []), segf_seg.
Qed.

Lemma srun_exit (continue : bool) exit : srun (if continue then STMT_CONTINUE exit else STMT_BREAK exit).
Proof.
  intros ids E pc c i st env fl env' Hw Hc Hi Hs Hev Hl He Hh Hf.
  assert (Hi' : code_exit E continue exit i) by by destruct continue. assert (Hw' : exit_ok ids exit = true) by by destruct continue.
  assert (Hev' : exists j, exit_level ids exit = Some j /\ fl = Exits continue j /\ env' = env).
  { destruct continue; cbn [Exec.exec_s] in Hev; destruct (exit_level ids exit) as [j|]; try done; injection Hev as <- <-; by exists j. }
  destruct Hev' as (j & Hj & -> & ->). destruct Hi' as (j' & e & i0 & HE & Hi0 & ->). apply segf_seg in Hs.
  assert (j' = j) as ->.
  { unfold exit_level in Hj. destruct Hi0 as [(-> & -> & _)|(Hne & Hfe & _)].
    - change (-1 =? -1) with true in Hj. destruct ids; congruence.
    - rewrite (proj2 (Z.eqb_neq _ _) Hne) in Hj. rewrite find_env_id, He in Hfe. congruence. }
  assert (Hht : (if continue then e_top_stack e else e_bottom_stack e) < 2 ^ 32).
  { pose proof (Forall_lookup_1 _ _ _ _ Hh HE) as [? ?]. by destruct continue. }
  exists 1. split; [lia|]. intros t Ht.
  assert (Hx : exists b post, seg I pc (Op OP_EXTENDED :: Op b :: post) /\ extended_instruction b = eop_exit null same bf_table find_line_number unwind_fuel b /\
    exists q, seg I q [Ref FIXUP_STACK (if continue then e_top_stack e else e_bottom_stack e); Lab (if continue then e_top e else e_bottom e)] /\
    forall t ep, (if b =? EOP_EXIT_ID then SKIP_BYTES (Decompile.nb_var_name bc) else mret tt) (C (P (pc + 2)) st env t ep) = Some (Go tt, C (P q) st env t ep)).
  { destruct Hi0 as [(_ & _ & ->)|(_ & _ & ->)]; cbn [app] in Hs.
    - eexists EOP_EXIT, _. split; [exact Hs|]. split; [done|]. exists (pc + 2). apply seg_cons in Hs as [_ Hs]. apply seg_cons in Hs as [_ Hs].
      split; [by replace (pc + 2) with (pc + 1 + 1) by lia|done].
    - eexists EOP_EXIT_ID, _. split; [exact Hs|]. split; [done|]. exists (pc + 2 + 1). apply seg_cons in Hs as [_ Hs]. apply seg_cons in Hs as [_ Hs].
      replace (pc + 1 + 1) with (pc + 2) in Hs by lia. split; [by apply seg_cons in Hs as [_ Hs]|]. intros t0 ep. cbn [Z.eqb].
      change (EOP_EXIT_ID =? EOP_EXIT_ID) with true. cbn beta iota. rewrite conf_skip. unfold nb_var_name. rewrite (v_sizes _ _ _ V).
      by rewrite (place_succ z _ _ _ _ Hs). }
  destruct Hx as (b & post & Hsx & Hxi & q & Hsq & Hskip).
  destruct (conf_extended _ _ _ st env t 0 Hsx Ht) as (t' & Ht' & Es). exists t'. split; [done|].
  exists e, (P (q + 1 + 1)), [], (P pc). split; [done|]. split; [constructor|]. apply step_comes. rewrite Es, Hxi. unfold eop_exit.
  rewrite (xbind_eq _ _ _ _ _ (conf_bytecodes _ _ _ _ _ _ _ _ bc Hcur)), (xbind_eq _ _ _ _ _ (Hskip t' (P pc))). unfold READ_STACK.
  rewrite (xbind_eq (bytecodes ≫= _) _ _ (if continue then e_top_stack e else e_bottom_stack e) (C (P (q + 1)) st env t' (P pc))).
  - apply seg_cons in Hsq as [_ Hsq]. rewrite (xbind_eq _ _ _ _ _ (conf_label _ _ _ _ _ _ _ Hsq)). by destruct continue.
  - rewrite (xbind_eq _ _ _ _ _ (conf_bytecodes _ _ _ _ _ _ _ _ bc Hcur)). unfold nb_stack. rewrite (v_sizes _ _ _ V).
    by apply (conf_ref FIXUP_STACK q _ [Lab (if continue then e_top e else e_bottom e)]).
Qed.

Lemma ssrun_nil : ssrun SEnd.
Proof.
  intros ids E pc c i st env fl env' _ _ Hi _ Hev _ _ _ _. cbn [code_ss] in Hi. subst i. injection Hev as <- <-. rewrite ilen_nil, Z.add_0_r.
  apply goes_refl.
Qed.
Lemma ssrun_cons x next : srun x -> ssrun next -> ssrun (SNext x next).
Proof.
  intros IHx IHn ids E pc c i st env fl env' [Wx Wn]%andb_prop [Cx Cn]%andb_prop (i1 & i2 & -> & H1 & H2) Hs Hev Hl He Hh Hf. rewrite ilen_app.
  destruct (segf_enters _ _ _ _ Hs) as [S1 S2]; [by apply (proj1 (proj2 (enters_covered L F)) _ _ _ _ _ Cn H2)|].
  change (exec_ss ids (SNext x next)) with (and_then (exec_s ids x) (exec_ss ids next)) in Hev. unfold and_then in Hev. destruct (exec_s ids x env) as [[fl1 env1]|] eqn:Ex; [|done].
  pose proof (IHx ids E pc c i1 st env fl1 env1 Wx Cx H1 S1 Ex Hl He Hh ltac:(fits)) as R1. destruct fl1 as [|cc j|v|q e].
  - apply (goes_runs _ _ _ (pc + ilen i1) st env1); [exact R1|]. rewrite Z.add_assoc.
    by apply (IHn ids E _ c i2 st env1 fl env' Wn Cn H2 S2 Hev Hl He Hh); fits.
  - injection Hev as <- <-. by eapply reached_elsewhere.
  - injection Hev as <- <-. by eapply reached_elsewhere.
  - injection Hev as <- <-. by eapply reached_elsewhere.
Qed.

(** *** Conditionals *)

Lemma arun_nil : arun CEnd.
Proof.
  intros ids E pc c op tend i st env otherwise fl env' _ _ Hi _ _ Hev _ _ _ _ Ho. cbn [code_arms] in Hi. subst i. rewrite ilen_nil, Z.add_0_r in Ho.
  by apply Ho.
Qed.
Lemma arun_cons e body next : ssrun body -> arun next -> arun (CArm e body next).
Proof.
  intros IHb IHn ids E pc c op tend i st env otherwise fl env' [[We Wb]%andb_prop Wn]%andb_prop [[Ce Cb]%andb_prop Cn]%andb_prop
    (i1 & i2 & i3 & -> & H1 & H2 & H3) Hs Hop Hev Hl He Hh Hf Ho. cbn [app] in *.
  destruct (segf_app _ _ _ _ _ Hs) as [S1 S2]. pose proof (segf_cons _ _ _ _ (segf_cons _ _ _ _ S2)) as S3.
  replace (pc + ilen i1 + 1 + 1) with (pc + ilen i1 + 2) in S3 by lia. destruct (segf_app _ _ _ _ _ S3) as [S4 S5].
  pose proof (segf_cons _ _ _ _ (segf_cons _ _ _ _ S5)) as S6. set (q := pc + ilen i1 + 2 + ilen i2 + 2) in *.
  replace (pc + ilen i1 + 2 + ilen i2 + 1 + 1) with q in S6 by (unfold q; lia).
  change (exec_arms ids (CArm e body next) otherwise) with
    (with_value (eval e) (fun v => if is_true v then exec_ss ids body else exec_arms ids next otherwise)) in Hev.
  apply with_value_inv in Hev as [(q0 & x & Hev & ->)|(v & env1 & Hev & Hk)];
    pose proof (expr_runs e pc c i1 st env _ _ We Ce H1 S1 Hev Hl ltac:(fits)) as R; cbn beta iota in R; [apply R|].
  eapply goes_runs; [exact R|]. eapply goes_runs; [eapply (goes_test op); [destruct Hop as [-> | ->]; tauto|by apply segf_seg]|].
  destruct (is_true v).
  - eapply runs_jump; [|by apply segf_seg]. by apply (IHb ids E _ c i2 st env1 fl env' Wb Cb H2 S4 Hk Hl He Hh); fits.
  - apply (IHn ids E q c OP_EIF tend i3 st env1 otherwise fl env' Wn Cn H3 S6 (or_intror eq_refl) Hk Hl He Hh); [fits|].
    intros env2 H. specialize (Ho env2 H). rewrite !ilen_app, !ilen_cons, !ilen_app, !ilen_cons in Ho.
    by replace (q + ilen i3) with (pc + (ilen i1 + (1 + (1 + (ilen i2 + (1 + (1 + ilen i3))))))) by (unfold q; lia).
Qed.
Lemma srun_cond arms otherwise : arun arms -> ssrun otherwise -> srun (STMT_COND arms otherwise).
Proof.
  intros IHa IHo ids E pc c i st env fl env' [Wa Wo]%andb_prop [Ca Co]%andb_prop (i1 & i2 & Hi & H1 & H2) Hs Hev Hl He Hh Hf.
  rewrite Hi in Hs. destruct (segf_enters _ _ _ _ Hs) as [S1 S2]; [by apply (proj1 (proj2 (enters_covered L F)) _ _ _ _ _ Co H2)|].
  apply (IHa ids E pc c OP_IF (pc + ilen i) i1 st env (exec_ss ids otherwise) fl env' Wa Ca H1 S1 (or_introl eq_refl) Hev Hl He Hh); [fits|].
  intros env1 H. replace (pc + ilen i) with (pc + ilen i1 + ilen i2) by (rewrite Hi, ilen_app; lia).
  by apply (IHo ids E _ c i2 st env1 fl env' Wo Co H2 S2 H Hl He Hh); fits.
Qed.

(** *** While *)

Lemma while_runs pc bottom pcb pcj post id st E cond body :
  seg I pcj (Op OP_JUMP :: Lab pc :: post) ->
  (forall env r env1, cond env = Some (r, env1) ->
    match r with
    | Val v => goes pc st env (if is_true v then pcb else bottom) st env1
    | Err q x => forall E pc', runs pc st env E pc' st (Raises q x) env1
    end) ->
  (forall env fl1 env1, body env = Some (fl1, env1) ->
    runs pcb st env (mkEnv id pc (Z.of_nat (length st)) bottom (Z.of_nat (length st)) :: E) pcj st fl1 env1) ->
  forall m env fl env', while_loop m cond body env = Some (fl, env') -> runs pc st env E bottom st fl env'.
Proof.
  intros Hj Hc Hb. induction m as [|m IH]; intros env fl env' H; [done|]. cbn [while_loop] in H.
  apply with_value_inv in H as [(q & x & H & ->)|(v & env1 & H & Hk)]; pose proof (Hc _ _ _ H) as R; cbn beta iota in R; [apply R|].
  eapply goes_runs; [exact R|]. destruct (is_true v).
  - apply (round id pc bottom [] st st pcb env1 pcj post body (while_loop m cond body) fl env' E); [constructor|exact Hj| | |done|exact Hk].
    + intros fl1 env2 Hb1. by apply Hb.
    + intros env2 Hr. by apply IH.
  - injection Hk as <- <-. apply goes_refl.
Qed.

Lemma goes_while_id q id T post v st env env1 : slot_ok id = true -> seg I q (Op OP_EXTENDED :: Op EOP_WHILE_ID :: Ref FIXUP_VAR_REF id :: Lab T :: post) ->
  set_rt_env_var env id v = Some env1 -> goes q (v :: st) env (if is_true v then q + 4 else T) st env1.
Proof.
  intros [H1 H2]%andb_prop Hs Hv. apply Z.leb_le in H1. apply Z.ltb_lt in H2. eapply goes_extended; [exact Hs|]. intros t ep.
  apply seg_cons in Hs as [_ Hs]. apply seg_cons in Hs as [_ Hs]. replace (q + 1 + 1) with (q + 2) in Hs by lia.
  change (extended_instruction EOP_WHILE_ID) with eop_while_id. unfold eop_while_id.
  rewrite (xbind_eq _ _ _ _ _ (conf_var_name _ _ _ _ _ _ _ Hs ltac:(lia))), (xbind_eq _ _ _ _ _ (conf_top _ _ _ _ _ _ _ _ _)).
  rewrite (xbind_eq _ _ _ _ _ (conf_put _ _ _ _ _ _ _ _ _ _ _ Hv)). apply seg_cons in Hs as [_ Hs].
  rewrite (do_test_eq _ _ _ _ _ _ Hcur V _ _ _ _ _ _ _ _ Hs). by replace (q + 2 + 1 + 1) with (q + 4) by lia.
Qed.

Lemma srun_while id e body : ssrun body -> srun (STMT_WHILE id e body).
Proof.
  intros IHb ids E pc c i st env fl env' [[Wi We]%andb_prop Wb]%andb_prop [Ce Cb]%andb_prop (i1 & i2 & i3 & -> & H1 & Hi2 & H3) Hs Hev Hl He Hh Hf.
  subst c. set (bottom := pc + ilen i1 + ilen i2 + 1 + ilen i3 + 2) in *.
  assert (St2 : starts i2) by (rewrite Hi2; destruct (id =? -1); by eexists _, _).
  destruct (segf_split I _ _ _ Hs (starts_app _ _ St2)) as [S1 S2].
  replace (pc + ilen (i1 ++ i2 ++ [Lab bottom] ++ i3 ++ [Op OP_JUMP; Lab pc])) with bottom
    by (rewrite !ilen_app, !ilen_cons, ilen_nil; unfold bottom; lia).
  assert (S3 : segf I (pc + ilen i1 + ilen i2 + 1) (i3 ++ [Op OP_JUMP; Lab pc])).
  { rewrite Hi2 in S2 |- *. destruct (id =? -1); cbn [app] in S2; repeat apply segf_cons in S2; revert S2; cbn [ilen length]; by rewrite ?Z.add_assoc || idtac;
      match goal with |- segf _ ?x _ -> segf _ ?y _ => replace y with x by (unfold ilen; cbn [length]; lia) end. }
  destruct (segf_app _ _ _ _ _ S3) as [S4 S5].
  eapply (while_runs pc bottom (pc + ilen i1 + ilen i2 + 1) _ _ id); [by apply segf_seg| | |exact Hev].
  - intros env0 r env1 Hc.
    assert (Hc' : exists r0 env2, eval e env0 = Some (r0, env2) /\
      match r0 with Val v => r = Val v /\ (if id =? -1 then Some env2 else set_rt_env_var env2 id v) = Some env1 | Err q x => r = Err q x /\ env2 = env1 end).
    { destruct (id =? -1).
      - exists r, env1. split; [done|]. by destruct r.
      - apply ebind_inv in Hc as [(q & x & Hc & ->)|(v & env2 & Hc & Ha)]; [by exists (Err q x), env1|]. exists (Val v), env2. split; [done|].
        unfold assign in Ha. destruct (set_rt_env_var env2 id v); [|done]. by injection Ha as <- <-. }
    destruct Hc' as (r0 & env2 & Hev0 & Hr). pose proof (expr_runs e pc _ i1 st env0 _ _ We Ce H1 S1 Hev0 eq_refl ltac:(fits)) as R.
    destruct r0 as [v|q x]; cbn beta iota in R; destruct Hr as [-> Hr]; [|by subst env2]. eapply goes_trans; [exact R|].
    apply segf_seg in S2. rewrite Hi2 in S2 |- *. unfold opt_slot_ok in Wi. destruct (Z.eqb_spec id (-1)) as [->|Hne].
    + change (-1 =? -1) with true in *. cbn beta iota in *. injection Hr as <-. change (ilen [Op OP_WHILE]) with 1. replace (pc + ilen i1 + 1 + 1) with (pc + ilen i1 + 2) by lia.
      eapply (goes_test OP_WHILE); [tauto|exact S2].
    + change (ilen [_; _; _]) with 3. replace (pc + ilen i1 + 3 + 1) with (pc + ilen i1 + 4) by lia. cbn [app] in S2. eapply goes_while_id; [exact Wi|exact S2|exact Hr].
  - intros env0 fl1 env1 Hb. apply (IHb (id :: ids) _ _ _ i3 st env0 fl1 env1 Wb Cb H3 S4 Hb eq_refl); [by rewrite <- He| |fits].
    constructor; [|done]. cbn [e_top_stack e_bottom_stack]. unfold Eval.fits_in in Hf. assert (D := depth_pos e). cbn [depth_s] in Hf. lia.
Qed.

(** *** Loops over lists and ranges *)

Lemma goes_one pc post st env : seg I pc (Op (OPTIM_NUM_TO_OPCODE 1) :: post) -> room a st -> goes pc st env (pc + 1) (VInt 1 :: st) env.
Proof.
  intros Hs Hr. eapply goes_op; [exact Hs|]. intros t ep. change (instruction (OPTIM_NUM_TO_OPCODE 1)) with (op_optim_num (OPTIM_NUM_TO_OPCODE 1)). by apply conf_push.
Qed.

(** The body of a loop with its two operands on the stack. *)
Lemma for_body ids E id top bottom body pcj i2 post st :
  ssrun body -> wf_ss (id :: ids) body = true -> covered_ss body = true ->
  code_ss L F (mkEnv id top (Z.of_nat (length st) + 2) bottom (Z.of_nat (length st)) :: E) (top + 3) (Z.of_nat (length st) + 2) body i2 ->
  segf I (top + 3) (i2 ++ Op OP_JUMP :: post) -> map e_id E = ids -> heights_ok E -> fits_in st (2 + depth_ss body) -> pcj = top + 3 + ilen i2 ->
  forall v w env fl1 env1, exec_ss (id :: ids) body env = Some (fl1, env1) ->
  runs (top + 3) (v :: w :: st) env (mkEnv id top (Z.of_nat (S (S (length st)))) bottom (Z.of_nat (length st)) :: E) pcj (v :: w :: st) fl1 env1.
Proof.
  intros IHb Wb Cb H2 Hs He Hh Hf -> v w env fl1 env1 Hb. destruct (segf_app _ _ _ _ _ Hs) as [S2 _].
  replace (Z.of_nat (length st) + 2) with (Z.of_nat (S (S (length st)))) in H2 by lia.
  apply (IHb (id :: ids) _ _ _ i2 (v :: w :: st) env fl1 env1 Wb Cb H2 S2 Hb eq_refl); [by rewrite <- He| |fits].
  constructor; [|done]. cbn [e_top_stack e_bottom_stack]. revert Hf. unfold Eval.fits_in. pose proof (depth_ss_pos body). lia.
Qed.

Lemma srun_list id e body : ssrun body -> srun (STMT_LIST id e body).
Proof.
  intros IHb ids E pc c i st env fl env' [[Wi We]%andb_prop Wb]%andb_prop [Ce Cb]%andb_prop (i1 & i2 & -> & H1 & H2) Hs Hev Hl He Hh Hf. subst c.
  set (top := pc + ilen i1 + 1) in *. set (bottom := top + 3 + ilen i2 + 2) in *. cbn [app] in *.
  destruct (segf_app _ _ _ _ _ Hs) as [S1 S2]. pose proof (segf_cons _ _ _ _ S2) as S3. fold top in S3.
  pose proof (segf_cons _ _ _ _ (segf_cons _ _ _ _ (segf_cons _ _ _ _ S3))) as S4. replace (top + 1 + 1 + 1) with (top + 3) in S4 by lia.
  assert (S5 : seg I (top + 3 + ilen i2) [Op OP_JUMP; Lab top]) by (by apply segf_seg; destruct (segf_app _ _ _ _ _ S4)).
  match goal with |- runs _ _ _ _ ?x _ _ _ => replace x with bottom by (rewrite ilen_app, !ilen_cons, ilen_app, !ilen_cons, ilen_nil; unfold bottom, top; lia) end.
  apply with_value_inv in Hev as [(q & x & Hev & ->)|(v & env1 & Hev & Hk)];
    pose proof (expr_runs e pc _ i1 st env _ _ We Ce H1 S1 Hev eq_refl ltac:(fits)) as R; cbn beta iota in R; [apply R|].
  eapply goes_runs; [exact R|]. assert (D := depth_ss_pos body).
  eapply goes_runs; [eapply goes_one; [by apply segf_seg|revert Hf; unfold Eval.fits_in, room; cbn [depth_s length]; lia]|]. fold top.
  pose proof (for_body ids E id top bottom body _ i2 _ st IHb Wb Cb H2 S4 He Hh ltac:(fits) eq_refl) as Hb.
  apply segf_seg in S3. destruct v as [| | | |lst| | | | |]; try (by eapply (for_no_loop top id bottom _ Wi OP_FOR_LIST (or_introl eq_refl) S3)).
  destruct (Z.ltb_spec (llen lst) NUM_MAX) as [Hlen|]; [|done].
  by eapply (list_loop_runs top id bottom _ _ _ Wi st E _ S5 Hb S3 lst Hlen lst O); [|exact Hk|lia].
Qed.

Lemma srun_range id from to body : ssrun body -> srun (STMT_RANGE id from to body).
Proof.
  intros IHb ids E pc c i st env fl env' [[[Wi Wf]%andb_prop Wt]%andb_prop Wb]%andb_prop [[Cf Ct]%andb_prop Cb]%andb_prop
    (i1 & i2 & i3 & -> & H1 & H2 & H3) Hs Hev Hl He Hh Hf. subst c.
  set (top := pc + ilen i1 + ilen i2) in *. set (bottom := top + 3 + ilen i3 + 2) in *. cbn [app] in *.
  destruct (segf_split I _ _ _ Hs (starts_app _ _ (starts_expr _ _ _ _ _ _ Ct H2))) as [S1 S2].
  destruct (segf_app _ _ _ _ _ S2) as [S2' S3]. fold top in S3.
  pose proof (segf_cons _ _ _ _ (segf_cons _ _ _ _ (segf_cons _ _ _ _ S3))) as S4. replace (top + 1 + 1 + 1) with (top + 3) in S4 by lia.
  assert (S5 : seg I (top + 3 + ilen i3) [Op OP_JUMP; Lab top]) by (by apply segf_seg; destruct (segf_app _ _ _ _ _ S4)).
  match goal with |- runs _ _ _ _ ?x _ _ _ => replace x with bottom by (rewrite !ilen_app, !ilen_cons, ilen_app, !ilen_cons, ilen_nil; unfold bottom, top; lia) end.
  apply with_value_inv in Hev as [(q & x & Hev & ->)|(f & env1 & Hev & Hk)];
    pose proof (expr_runs from pc _ i1 st env _ _ Wf Cf H1 S1 Hev eq_refl ltac:(fits)) as R; cbn beta iota in R; [apply R|].
  eapply goes_runs; [exact R|].
  apply with_value_inv in Hk as [(q & x & Hk & ->)|(t & env2 & Hk2 & Hk)].
  - apply (raises_under _ _ _ _ pc _ f). eapply (expr_runs to _ _ i2 (f :: st) env1 _ _ Wt Ct H2 S2' Hk); [cbn [length]; lia|fits].
  - assert (R2 : goes (pc + ilen i1) (f :: st) env1 top (t :: f :: st) env2)
      by (eapply (expr_runs to _ _ i2 (f :: st) env1 (Val t) env2 Wt Ct H2 S2' Hk2); [cbn [length]; lia|fits]).
    eapply goes_runs; [exact R2|].
    pose proof (for_body ids E id top bottom body _ i3 _ st IHb Wb Cb H3 S4 He Hh ltac:(fits) eq_refl) as Hb.
    apply segf_seg in S3.
    destruct f as [f|f| | | | | | | |]; try (by eapply (for_no_loop top id bottom _ Wi OP_FOR_RANGE (or_intror eq_refl) S3));
      destruct t as [t|t| | | | | | | |]; try (by eapply (for_no_loop top id bottom _ Wi OP_FOR_RANGE (or_intror eq_refl) S3));
      (destruct (Z.leb_spec t NUM_MAX) as [Ht|]; [|done]).
    + by eapply (range_loop_runs top id bottom _ _ _ Wi st E _ S5 Hb S3 VInt (or_introl eq_refl)).
    + by eapply (range_loop_runs top id bottom _ _ _ Wi st E _ S5 Hb S3 VObj (or_intror eq_refl)).
Qed.

Lemma srun_all : (forall x, srun x) /\ (forall x, ssrun x) /\ (forall x, arun x) /\ (forall ex : Except_Arm, True).
Proof.
  apply Stmt_ind_all; try done; intros.
  - by apply srun_cond.
  - by apply srun_list.
  - by apply srun_range.
  - by apply srun_while.
  - apply srun_expr.
  - apply srun_return.
  - apply (srun_exit false).
  - apply (srun_exit true).
  - apply ssrun_nil.
  - by apply ssrun_cons.
  - apply arun_nil.
  - by apply arun_cons.
Qed.
End Statements.
End Activation.

(** *** Programs *)

(** A program that starts on a machine of its own. *)
Record starts_with (s : State) (a : activation) (p : Program) : Prop := {
  w_alone : activ_stack s = [a];
  w_main : root_activ_vector s = MAIN_VECTOR;
  w_prog : a_prog a = p;
  w_pc : a_pc a = 0;
  w_stack : a_rt_stack a = [];
  w_room : bc_max_stack (p_main_vector p) <= rt_stack_room a < 2 ^ 32
}.

Lemma start_conf s a p t : starts_with s a p -> with_ticks t s = conf s a [] 0 [] (a_rt_env a) t (a_error_pc a).
Proof. intros [H1 _ _ H4 H5 _]. destruct s, a. cbn in *. by subst. Qed.

(** Returning from the root of the task. *)
Lemma returning_root s a p more env t ep v : Forall (fun v => plain v = true) more ->
  returning v (conf s a [] p more env t ep) = Some (Return OUTCOME_DONE (Some v), conf s a [] p [] env t ep).
Proof.
  intros Hm. unfold returning, Run.UNWIND. destruct unwind_fuel as [|k]; [done|].
  set (c := conf s a [] p more env t ep). set (x := set_rt_stack more (set_rt_env env (set_error_pc ep (set_pc p a)))).
  assert (unwind_stack null same bf_table find_line_number (S k) FIN_RETURN v c = Some (Some OUTCOME_DONE, conf s a [] p [] env t ep)) as E.
  { cbn [unwind_stack]. rewrite (vbind_eq _ _ c zero c eq_refl), (vbind_eq _ _ c 0 c eq_refl).
    rewrite (vbind_eq _ _ c x c) by by destruct s, a. replace (a_rt_stack x) with more by by destruct a.
    rewrite (vbind_eq _ _ c (At_goal []) c); [by destruct s, a|].
    pose proof (unwind_plain FIN_RETURN zero v [] more (length more) Hm (le_n _)) as E. rewrite app_nil_r in E. change (Z.of_nat (length [])) with 0 in E. by rewrite E. }
  unfold call, mbind, X_bind. by rewrite E.
Qed.

Lemma program_comes (st : Stmts) (version : Z) (p : Program) (s : State) (a : activation) (fuel : nat) (fl : flow) (env' : list Var) (v : Var) :
  wf_program st = true -> covered_ss st = true -> generate_code st version = Some p -> sized p -> starts_with s a p ->
  exec_ss fmod pow (database s) (options s) (a_progr a) (a_debug a) fuel [] st (a_rt_env a) = Some (fl, env') -> result_of fl = Some v ->
  exists n, forall t, n < t -> exists q more t' ep, Forall (fun v => plain v = true) more /\
    comes (with_ticks t s) (conf s a [] q more env' t' ep) (returning v).
Proof.
  intros Hwf Hc Hg Hp Hw He Hfl. destruct (generate_code_ok st version Hwf) as (p' & Hg' & (i & Hcomp & Hi)). assert (p' = p) as -> by congruence.
  apply andb_prop in Hwf as [Hwf _]. destruct Hcomp as (Hmax & z & Ez & Hen & Eb). set (I := i ++ [Op OP_DONE]) in *.
  pose proof (sized_vector p _ Hp (or_introl eq_refl)) as Hsz. unfold bc_size in Hsz. rewrite Eb, (encode_length z (e_sizes _ _ Hen)) in Hsz.
  assert (V : vec (p_main_vector p) z I) by (split; done).
  assert (Hcur : current s [] a = Some (p_main_vector p)).
  { unfold current. rewrite (w_main s a p Hw), (w_prog s a p Hw). done. }
  assert (Hs : segf I 0 i) by (split; [lia|]; by exists OP_DONE, []).
  pose proof (w_room s a p Hw) as [Hroom1 Hroom2]. rewrite Hmax in Hroom1. pose proof (w_prog s a p Hw) as Hpr.
  pose proof (proj1 (proj2 (srun_all s a [] _ z I Hcur V ltac:(rewrite Hpr; exact (z_literals p Hp)) Hroom2 (p_fork_vectors p) fuel)) st
    [] [] 0 0 i [] (a_rt_env a) fl env' Hwf Hc ltac:(rewrite Hpr; exact Hi) Hs He eq_refl eq_refl (List.Forall_nil _)
    ltac:(unfold fits_in; cbn [length]; lia)) as (n & Hn & R).
  exists (n + 1). intros t Ht. destruct (R t ltac:(lia)) as (t' & Ht' & H). rewrite (start_conf s a p t Hw).
  assert (J : joins (conf s a [] 0 [] (a_rt_env a) t (a_error_pc a)) (conf s a [] (place z I 0) [] (a_rt_env a) t 0)) by apply conf_ep_joins.
  destruct fl as [|c j|v'|q e]; try done; cbn [result_of] in Hfl.
  - injection Hfl as <-. rewrite Z.add_0_l in H. assert (Hd : seg I (ilen i) [Op OP_DONE]).
    { rewrite <- (Z.add_0_l (ilen i)). apply (proj2 (seg_app I 0 i [Op OP_DONE] ltac:(split; [lia|]; exists []; by rewrite app_nil_r))). }
    exists (place z I (ilen i + 1)), [], (ticks_after OP_DONE t'), (place z I (ilen i)). split; [constructor|].
    eapply joins_comes; [eapply joins_trans; [exact J|exact H]|]. apply step_comes.
    by rewrite (conf_step null same bf_table find_line_number unwind_fuel fmod pow task_timed_out Htime s a [] _ z I Hcur V _ _ _ _ _ _ _ Hd) by lia.
  - injection Hfl as <-. destruct H as (q & more & ep & Hm & H). exists q, more, t', ep. split; [done|]. rewrite app_nil_r in H. by eapply joins_comes.
Qed.
End Machine.

(** ** Theorems *)

(** C2: the compiler and the virtual machine together compute what programs mean.
    For a program of expressions, conditionals, loops, breaks and returns that the
    parser builds, generate its code and run it on a machine with one fresh
    activation: with enough ticks, and while no timer fires, the interpreter ends with OUTCOME_DONE
    and with the value, 0 if there is no [return], that running the statements on their
    tree gives, whatever the variables, the database, the options and the debug bit are. *)
Theorem program_runs (null : Program) (same : Verbdef -> bool) (bf_table : list bi_func)
  (find_line_number : Program -> Z -> Z -> Z) (unwind_fuel : nat)
  (fmod : spec_float -> spec_float -> spec_float) (pow : spec_float -> spec_float -> spec_float * bool) (task_timed_out : Z -> bool)
  (st : Stmts) (version : Z) (p : Program) (s : State) (a : activation) (fuel : nat) (fl : flow) (env' : list Var) (v : Var) :
  (forall t, task_timed_out t = false) -> unwind_fuel <> O ->
  wf_program st = true -> covered_ss st = true -> generate_code st version = Some p -> sized p -> starts_with s a p ->
  exec_ss fmod pow (database s) (options s) (a_progr a) (a_debug a) fuel [] st (a_rt_env a) = Some (fl, env') -> result_of fl = Some v ->
  exists n, forall t, n < t -> exists k s', forall k', (k <= k')%nat ->
    run null same bf_table find_line_number unwind_fuel fmod pow task_timed_out k' None (with_ticks t s) = Some (OUTCOME_DONE, Some v, s').
Proof.
  intros Ht Hu Hwf Hc Hg Hp Hw He Hv.
  destruct (program_comes null same bf_table find_line_number unwind_fuel fmod pow task_timed_out Ht Hu st version p s a fuel fl env' v
    Hwf Hc Hg Hp Hw He Hv) as (n & H).
  exists n. intros t Hn. destruct (H t Hn) as (q & more & t' & ep & Hm & k & m & Hk). exists k, (conf s a [] q [] env' t' ep). intros k' Hk'.
  replace k' with (k + (k' - k))%nat by lia. cbn [run]. rewrite Hk.
  by rewrite (returning_root null same bf_table find_line_number unwind_fuel Hu s a q more env' t' ep v Hm).
Qed.

Lemma program_runs_witness : wf_program sample_run = true /\ exists n, forall t, n < t -> exists k s', forall k', (k <= k')%nat ->
  run sample_null (fun _ => true) [] (fun _ _ _ => 0) 1 (fun x _ => x) (fun x _ => (x, false)) (fun _ => false) k' None
    (with_ticks t sample_machine) = Some (OUTCOME_DONE, Some (VInt 28), s').
Proof.
  split; [reflexivity|].
  eapply (program_runs sample_null (fun _ => true) [] (fun _ _ _ => 0) 1 (fun x _ => x) (fun x _ => (x, false)) (fun _ => false)
    sample_run 5 sample_code sample_machine sample_activation 10 (Returns (VInt 28))).
  - done.
  - done.
  - reflexivity.
  - reflexivity.
  - vm_compute. reflexivity.
  - split; [vm_compute; reflexivity..|]. repeat constructor; vm_compute; congruence.
  - split; [vm_compute; reflexivity..|]. vm_compute. split; congruence.
  - vm_compute. reflexivity.
  - reflexivity.
Defined.
(** The machine itself, on the same program. *)
Lemma sample_runs : exists s', run sample_null (fun _ => true) [] (fun _ _ _ => 0) 1 (fun x _ => x) (fun x _ => (x, false)) (fun _ => false) 300 None
    (with_ticks 1000 sample_machine) = Some (OUTCOME_DONE, Some (VInt 28), s').
Proof. eexists. vm_compute. reflexivity. Qed.
