(* ===== verification/RunProof.v ===== *)
(** * Unwinding, limits and scattering on the machine

    What the markers on a value stack mean when a task unwinds; that running out of
    ticks ends a task whatever it is doing; and two places where the interpreter does
    something else than it is documented to do. *)

From Stdlib Require Import Floats.SpecFloat.
From S2P Require Import Prelude Values Functions Lists Numbers Db Properties PropBuiltins Ast CodeGen CodeSpec CodeProof CodeStmts Decompile DecompileProof DecompileStmts Activation InputQueue Tasks Machine ObjBuiltins Run Eval Exec.

(** ** Definitions *)

(** A value stack, from the top: values, the handlers of [try except] and of [catch]
    with the places they are at, the first one first, and those of [try finally]. *)
Inductive mark := Value (v : Var) | Handlers (pairs : list (Var * Z)) | Finally (pc : Z).
Definition pair_values (p : Var * Z) : list Var := [VInt (snd p); fst p].
Definition mark_values (m : mark) : list Var :=
  match m with
  | Value v => [v]
  | Handlers pairs => VCatch (Z.of_nat (length pairs)) :: flat_map pair_values (reverse pairs)
  | Finally pc => [VFinally pc]
  end.
Definition stack_of (l : list mark) : list Var := flat_map mark_values l.

(** The codes of a handler are a list, or something else for all errors. *)
Definition mark_ok (m : mark) : bool :=
  match m with Value v => plain v | Handlers pairs => forallb (fun p => plain (fst p)) pairs | Finally _ => true end.

(** The first handler for an error. *)
Fixpoint handler_for (code : Var) (pairs : list (Var * Z)) : option (option Z) :=
  match pairs with
  | [] => Some None
  | (codes, pc) :: pairs => m ← code_matches code codes; if m : bool then Some (Some pc) else handler_for code pairs
  end.
(** The innermost mark that stops the unwinding. *)
Fixpoint unwind_marks (why : Finally_Reason) (code value : Var) (l : list mark) : option unwound :=
  match l with
  | [] => Some (At_goal [])
  | Value _ :: l => unwind_marks why code value l
  | Finally pc :: l =>
      if bool_decide (why = FIN_ABORT) then unwind_marks why code value l
      else Some (To_handler pc (value :: VInt (reason_value why) :: stack_of l))
  | Handlers pairs :: l =>
      if bool_decide (why = FIN_RAISE) then
        h ← handler_for code pairs;
        match h with Some pc => Some (To_handler pc (value :: stack_of l)) | None => unwind_marks why code value l end
      else unwind_marks why code value l
  end.

(** [try try ... except (E_PERM) ... except (E_TYPE, E_DIV) ... endtry finally ... endtry],
    with a loop inside. *)
Definition sample_marks : list mark :=
  [Value (VInt 3); Value (VList [VInt 5]); Handlers [(VList [VErr E_PERM], 40); (VList [VErr E_TYPE; VErr E_DIV], 50)]; Finally 60].

(** [while w (v) endwhile] for the variable in the slot [id] and a constant, and one with a string. *)
Definition endless_loop (id : Z) (v : Var) : Stmts := SNext (STMT_WHILE id (EXPR_VAR v) SEnd) SEnd.
Definition endless_code : Program := default sample_null (generate_code (endless_loop 40 (VStr (BS "yes"))) 5).
(** [{a, @b} = l; return b;] *)
Definition scatter_rest : Stmts :=
  SNext (STMT_EXPR (EXPR_ASGN (EXPR_SCATTER (SCons SCAT_REQUIRED 18 Null (SCons SCAT_REST 19 Null SNil))) (EXPR_ID 17)))
  (SNext (STMT_RETURN (Ptr (EXPR_ID 19))) SEnd).
Definition scatter_code : Program := default sample_null (generate_code scatter_rest 5).

(** A fresh activation for a program, and a machine for it. *)
Definition fresh (p : Program) (env : list Var) : activation := mkActivation p env [] 50 0 0 0 0 0 VNone 0 0 0 0 [] [] true.
Definition machine_for (l : list activation) : State :=
  mkState l 50 MAIN_VECTOR 0 true None zero Database.empty_db (mkCache [] 1000 1000 true 1000) no_tasks 0 [] ∅ 0 [].

(** *** Built-in functions that are cut short

    A built-in function whose verb was unwound is called on with 0.  It keeps to the
    protocol if it does not panic, if it calls a verb, in a new activation, whenever it says so
    and otherwise leaves the activations alone, and if after [n] such calls it ends;
    the activations it makes are dropped.  [Q] holds in the state in the end. *)
Section Protocol.
Context (null : Program) (same : Verbdef -> bool) (bf_table : list bi_func).

Fixpoint cut_short (n : nat) (id pc datum progr : Z) (Q : State -> Prop) (s : State) : Prop :=
  match call_bi_func null same bf_table id zero pc progr datum s with
  | Some (BI_CALL pc' datum', s') => exists b, activ_stack s' = b :: activ_stack s /\
      (if pc' =? 0 then Q (with_activ_stack (activ_stack s) s')
       else match n with
            | O => False
            | S n => cut_short n id pc' datum' (a_progr b) Q (with_activ_stack (activ_stack s) s')
            end)
  | Some (_, s') => activ_stack s' = activ_stack s /\ Q s'
  | None => False
  end.

(** All that called activations of [l], from the top. *)
Fixpoint all_cut_short (n : nat) (l : list activation) (s : State) : Prop :=
  match l with
  | a :: l =>
      match l with
      | [] => True
      | _ => if a_bi_func_pc a =? 0 then all_cut_short n l (with_activ_stack l s)
             else cut_short n (a_bi_func_id a) (a_bi_func_pc a) (a_bi_func_data a) (a_progr a) (all_cut_short n l) (with_activ_stack l s)
      end
  | [] => True
  end.
End Protocol.

(** ** Lemmas *)

(** *** Marks *)

Lemma handler_pairs_eq : forall pairs acc st,
  handler_pairs (length pairs) (flat_map pair_values pairs ++ st) acc = Some (map (fun p => (fst p, VInt (snd p))) (reverse pairs) ++ acc, st).
Proof.
  induction pairs as [|[codes pc] pairs IH]; intros acc st; [done|]. cbn [length flat_map pair_values app handler_pairs fst snd].
  rewrite IH, reverse_cons, map_app, <- app_assoc. done.
Qed.
Lemma find_pair_eq code pairs : find_pair code (map (fun p => (fst p, VInt (snd p))) pairs) = handler_for code pairs.
Proof.
  induction pairs as [|[codes pc] pairs IH]; [done|]. cbn [map find_pair handler_for fst snd]. rewrite IH. by destruct (code_matches code codes) as [[]|].
Qed.
(** Plain values on the top. *)
Lemma unwind_rt_skip fuel why code value vals st : Forall (fun v => plain v = true) vals ->
  unwind_rt (length vals + fuel) why code value 0 (vals ++ st) = unwind_rt fuel why code value 0 st.
Proof.
  induction 1 as [|v vals Hv Hvs IH]; [done|]. cbn [length Nat.add app unwind_rt]. rewrite <- IH.
  destruct (Z.leb_spec (Z.of_nat (S (length (vals ++ st)))) 0); [lia|]. by destruct v.
Qed.
Lemma plain_pairs pairs : forallb (fun p : Var * Z => plain (fst p)) pairs = true -> Forall (fun v => plain v = true) (flat_map pair_values (reverse pairs)).
Proof.
  intros H. apply Forall_forall. intros v Hv. apply list_elem_of_In, in_flat_map in Hv as (p & Hp & Hv).
  rewrite forallb_forall in H. assert (Hp' : In p pairs) by (apply list_elem_of_In; apply elem_of_reverse; by apply list_elem_of_In). specialize (H p Hp').
  destruct Hv as [<-|[<-|[]]]; done.
Qed.
Lemma unwind_rt_marks why code value : forall l extra, forallb mark_ok l = true ->
  unwind_rt (length (stack_of l) + extra) why code value 0 (stack_of l) = unwind_marks why code value l.
Proof.
  induction l as [|m l IH]; intros extra H; [by destruct extra|]. apply andb_prop in H as [Hm Hl].
  cbn [stack_of flat_map unwind_marks]. fold (stack_of l). rewrite length_app, <- Nat.add_assoc.
  destruct m as [v|pairs|pc]; cbn [mark_values mark_ok] in *.
  - rewrite <- (IH extra Hl). change (length [v]) with 1%nat. apply (unwind_rt_skip _ why code value [v]). by constructor.
  - pose proof (plain_pairs pairs Hm) as Hp. cbn [length Nat.add app unwind_rt].
    destruct (Z.leb_spec (Z.of_nat (S (length (flat_map pair_values (reverse pairs) ++ stack_of l)))) 0); [lia|].
    case_bool_decide as Hw.
    + rewrite Nat2Z.id, <- (length_reverse pairs), handler_pairs_eq. cbn [mbind option_bind]. rewrite app_nil_r, reverse_involutive, find_pair_eq.
      destruct (handler_for code pairs) as [[pc|]|]; [done| |done]. cbn [mbind option_bind]. rewrite <- (IH (length (flat_map pair_values (reverse pairs)) + extra)%nat Hl).
      by replace (length (flat_map pair_values (reverse pairs)) + (length (stack_of l) + extra))%nat
        with (length (stack_of l) + (length (flat_map pair_values (reverse pairs)) + extra))%nat by lia.
    + rewrite unwind_rt_skip by done. by apply IH.
  - cbn [length Nat.add app unwind_rt]. destruct (Z.leb_spec (Z.of_nat (S (length (stack_of l)))) 0); [lia|].
    destruct (bool_decide (why = FIN_ABORT)); [|done]. cbn [negb]. by apply IH.
Qed.

(** *** Aborting *)

Lemma unwind_rt_abort code value : forall st fuel, (length st <= fuel)%nat -> unwind_rt fuel FIN_ABORT code value 0 st = Some (At_goal []).
Proof.
  induction st as [|v st IH]; intros fuel H; [by destruct fuel|]. cbn [length] in H. destruct fuel as [|fuel]; [lia|].
  cbn [unwind_rt]. destruct (Z.leb_spec (Z.of_nat (length (v :: st))) 0); [cbn [length] in *; lia|]. destruct v; apply IH; lia.
Qed.

Section Abort.
Context (null : Program) (same : Verbdef -> bool) (bf_table : list bi_func) (find_line_number : Program -> Z -> Z -> Z).
Notation unwind_stack := (unwind_stack null same bf_table find_line_number).

Lemma update_run_activ_eq f a l s : activ_stack s = a :: l -> update_run_activ f s = Some (tt, with_activ_stack (f a :: l) s).
Proof. intros H. destruct s. cbn in *. by subst. Qed.
Lemma short_circuit_ends : forall n id pc datum progr Q s fuel, cut_short null same bf_table n id pc datum progr Q s -> (n < fuel)%nat ->
  exists s', short_circuit null same bf_table fuel id pc datum progr s = Some (tt, s') /\ activ_stack s' = activ_stack s /\ Q s'.
Proof.
  induction n as [|n IH]; intros id pc datum progr Q s [|fuel] H Hf; try lia; cbn [cut_short Machine.short_circuit] in *;
    unfold mbind, V_bind; destruct (call_bi_func null same bf_table id zero pc progr datum s) as [[[ret|code msg v|pc' d'|proc d|r] s']|];
    try (destruct H as [H1 H2]; by exists s'); try done; destruct H as (b & Hb & H); unfold vget; rewrite Hb; cbn; unfold vmodify;
    (destruct (pc' =? 0); [by exists (with_activ_stack (activ_stack s) s'); destruct s'|]); [done|].
  destruct (IH _ _ _ _ _ _ fuel H ltac:(lia)) as (s2 & E & Es & HQ). exists s2. split; [exact E|]. split; [by rewrite Es; destruct s'|done].
Qed.

(** One activation that is aborted, above others. *)
Lemma unwind_one value fuel a c l s : activ_stack s = a :: c :: l ->
  unwind_stack (S fuel) FIN_ABORT value s =
    ((if negb (a_bi_func_pc a =? 0)
      then short_circuit null same bf_table fuel (a_bi_func_id a) (a_bi_func_pc a) (a_bi_func_data a) (a_progr a)
      else mret tt);; unwind_stack fuel FIN_ABORT value) (with_activ_stack (c :: l) s).
Proof.
  intros Hs. cbn [Machine.unwind_stack].
  rewrite (vbind_eq _ _ s zero s eq_refl), (vbind_eq _ _ s 0 s eq_refl), (vbind_eq _ _ s a s) by (unfold run_activ; destruct s; cbn in *; by subst).
  rewrite (vbind_eq _ _ s (At_goal []) s) by (by rewrite (unwind_rt_abort zero value _ _ (le_n _))). change (bool_decide (FIN_ABORT = FIN_EXIT)) with false.
  set (s1 := with_activ_stack (set_rt_stack [] a :: c :: l) s). cbn beta iota.
  rewrite (vbind_eq _ _ s tt s1) by by apply update_run_activ_eq.
  rewrite (vbind_eq _ _ s1 (set_rt_stack [] a :: c :: l) s1) by by destruct s.
  rewrite (vbind_eq _ _ s1 tt (with_activ_stack (c :: l) s)) by by destruct s.
  change (bool_decide (FIN_ABORT = FIN_RETURN)) with false. cbn beta iota. by destruct (a_bi_func_pc a =? 0).
Qed.
Lemma unwind_root value fuel a s : activ_stack s = [a] ->
  unwind_stack (S fuel) FIN_ABORT value s = Some (Some OUTCOME_ABORTED, with_activ_stack [set_rt_stack [] a] s).
Proof.
  intros Hs. cbn [Machine.unwind_stack].
  rewrite (vbind_eq _ _ s zero s eq_refl), (vbind_eq _ _ s 0 s eq_refl), (vbind_eq _ _ s a s) by (unfold run_activ; destruct s; cbn in *; by subst).
  rewrite (vbind_eq _ _ s (At_goal []) s) by (by rewrite (unwind_rt_abort zero value _ _ (le_n _))). change (bool_decide (FIN_ABORT = FIN_EXIT)) with false.
  cbn beta iota. rewrite (vbind_eq _ _ s tt (with_activ_stack [set_rt_stack [] a] s)) by by apply update_run_activ_eq. by destruct s.
Qed.

Lemma unwind_stack_abort value n : forall l fuel s root, activ_stack s = l -> (length l + n <= fuel)%nat ->
  all_cut_short null same bf_table n l s -> last l = Some root ->
  exists s', unwind_stack fuel FIN_ABORT value s = Some (Some OUTCOME_ABORTED, s') /\ activ_stack s' = [set_rt_stack [] root] /\
    (Forall (fun a => a_bi_func_pc a = 0) l -> s' = with_activ_stack [set_rt_stack [] root] s).
Proof.
  induction l as [|a l IH]; intros fuel s root Hs Hf Hc Hr; [done|]. cbn [length] in Hf. destruct fuel as [|fuel]; [lia|].
  destruct l as [|c l].
  { injection Hr as <-. exists (with_activ_stack [set_rt_stack [] a] s). split; [by apply unwind_root|]. split; [by destruct s|done]. }
  rewrite (unwind_one value fuel a c l s Hs). cbn [all_cut_short] in Hc. destruct (Z.eqb_spec (a_bi_func_pc a) 0) as [E|E]; cbn [negb].
  - destruct (IH fuel (with_activ_stack (c :: l) s) root) as (s' & Hu & Ha & Hz); [by destruct s|lia|done|by rewrite <- Hr|].
    exists s'. split; [exact Hu|]. split; [done|]. intros [_ H]%Forall_cons. rewrite (Hz H). by destruct s.
  - destruct (short_circuit_ends _ _ _ _ _ _ _ fuel Hc ltac:(cbn [length] in Hf; lia)) as (s1 & E1 & Hs1 & H1).
    rewrite (vbind_eq _ _ _ tt s1 E1). destruct (IH fuel s1 root) as (s' & Hu & Ha & _); [rewrite Hs1; by destruct s|lia|done|by rewrite <- Hr|].
    exists s'. split; [exact Hu|]. split; [done|]. intros [H _]%Forall_cons. done.
Qed.

(** create(), called on, frees its data and answers the object. *)
Lemma create_cut_short f junk n id datum progr (Q : State -> Prop) s oid :
  bf_table !! Z.to_nat id = Some f -> fn_func f = bf_create null same junk -> datum <> call_bi_func_data ->
  data s !! datum = Some (Object_data oid) -> Q (with_data (delete datum (data s)) (next_data s) s) ->
  cut_short null same bf_table n id 2 datum progr Q s.
Proof.
  intros Hf Hc Hne Hd HQ.
  assert (E : call_bi_func null same bf_table id zero 2 progr datum s =
    Some (make_var_pack (VObj oid), with_data (delete datum (data s)) (next_data s) s)).
  { unfold call_bi_func. rewrite Hf, Hc. change (2 =? 1) with false. cbv iota.
    destruct (Z.eqb_spec datum call_bi_func_data); [done|]. rewrite andb_false_r. unfold bf_create. change (2 =? 1) with false. cbv iota.
    unfold object_data, read_data, free_data, lift, vget, vmodify, mbind, V_bind. rewrite Hd. cbn. by rewrite Hd. }
  destruct n; cbn [cut_short]; rewrite E; (split; [by destruct s|exact HQ]).
Qed.

(** Activations that no built-in function called. *)
Lemma plain_cut_short n : forall l s, Forall (fun a => a_bi_func_pc a = 0) l -> all_cut_short null same bf_table n l s.
Proof.
  induction l as [|a l IH]; intros s H; [done|]. apply Forall_cons in H as [Ha H]. cbn [all_cut_short]. destruct l; [done|].
  rewrite Ha. cbn. by apply IH.
Qed.
End Abort.

(** *** Code that is run byte by byte *)

Section Bytes.
Context (null : Program) (same : Verbdef -> bool) (bf_table : list bi_func).
Context (find_line_number : Program -> Z -> Z -> Z) (unwind_fuel : nat).
Context (fmod : spec_float -> spec_float -> spec_float) (pow : spec_float -> spec_float -> spec_float * bool).
Context (task_timed_out : Z -> bool).
Notation step := (step null same bf_table find_line_number unwind_fuel fmod pow task_timed_out).
Notation instruction := (instruction null same bf_table find_line_number unwind_fuel fmod pow).
Notation exec_loop := (run_loop null same bf_table find_line_number unwind_fuel fmod pow task_timed_out).
Context (s : State) (a : activation) (p : Program) (Hw : starts_with s a p).
Notation bc := (p_main_vector p).
Notation C := (conf s a []).

Lemma current_main : current s [] a = Some bc.
Proof. unfold current. rewrite (w_main s a p Hw), (w_prog s a p Hw). done. Qed.

(** An instruction that no tick is counted for. *)
Lemma free_step q b st env t ep : vector_byte bc q = Some b -> COUNT_TICK b = false ->
  step (C q st env t ep) = instruction b (C (q + 1) st env t q).
Proof.
  intros Hb Hc. unfold Run.step. rewrite (xbind_eq _ _ _ _ _ (conf_mark _ _ _ _ _ _ _ _)).
  rewrite (xbind_eq _ _ _ _ _ (conf_next _ _ _ _ _ _ _ _ bc b current_main Hb)). unfold count_tick. by rewrite Hc.
Qed.
Lemma conf_number n v q st env t ep : Decompile.READ_BYTES bc n (mkCursor q 0 [] [] []) = Some (v, mkCursor (q + n) 0 [] [] []) ->
  Run.READ_BYTES n (C q st env t ep) = Some (Go v, C (q + n) st env t ep).
Proof. apply conf_read, current_main. Qed.
Lemma conf_var q v st env t ep : nth 3 (bc_numbytes bc) 0 = 1 -> vector_byte bc q = Some v ->
  Run.READ_VAR_NAME (C q st env t ep) = Some (Go v, C (q + 1) st env t ep).
Proof.
  intros Hn Hv. unfold Run.READ_VAR_NAME. rewrite (xbind_eq _ _ _ _ _ (conf_bytecodes _ _ _ _ _ _ _ _ bc current_main)).
  unfold nb_var_name. rewrite Hn. apply conf_number. unfold Decompile.READ_BYTES, Decompile.SKIP_BYTES, mbind, D_bind, dget, set_ptr, dmodify.
  cbn [ptr]. change (1 =? 1) with true. cbn beta iota. replace (q + 1 - 1) with q by lia. by rewrite Hv.
Qed.
Lemma conf_lab q v st env t ep : nth 0 (bc_numbytes bc) 0 = 1 -> vector_byte bc q = Some v ->
  Run.READ_LABEL (C q st env t ep) = Some (Go v, C (q + 1) st env t ep).
Proof.
  intros Hn Hv. unfold Run.READ_LABEL. rewrite (xbind_eq _ _ _ _ _ (conf_bytecodes _ _ _ _ _ _ _ _ bc current_main)).
  unfold nb_label. rewrite Hn. apply conf_number. unfold Decompile.READ_BYTES, Decompile.SKIP_BYTES, mbind, D_bind, dget, set_ptr, dmodify.
  cbn [ptr]. change (1 =? 1) with true. cbn beta iota. replace (q + 1 - 1) with q by lia. by rewrite Hv.
Qed.
Lemma exec_loop_step c c' k : step c = Some (Go tt, c') -> exec_loop (S k) c = exec_loop k c'.
Proof. intros H. cbn [run_loop]. by rewrite H. Qed.
End Bytes.

(** *** The loop that never ends *)

Lemma set_var_some env k x : 0 <= k < Z.of_nat (length env) -> set_rt_env_var env k x = Some (<[Z.to_nat k := x]> env).
Proof.
  intros H. unfold set_rt_env_var, env_get. destruct (Z.ltb_spec k 0); [lia|].
  destruct (lookup_lt_is_Some_2 env (Z.to_nat k) ltac:(lia)) as [y ->]. done.
Qed.

Section Endless.
Context (null : Program) (same : Verbdef -> bool) (bf_table : list bi_func).
Context (find_line_number : Program -> Z -> Z -> Z) (unwind_fuel : nat).
Context (fmod : spec_float -> spec_float -> spec_float) (pow : spec_float -> spec_float -> spec_float * bool).
Context (task_timed_out : Z -> bool).
Notation step := (step null same bf_table find_line_number unwind_fuel fmod pow task_timed_out).
Notation instruction := (instruction null same bf_table find_line_number unwind_fuel fmod pow).
Notation exec_loop := (run_loop null same bf_table find_line_number unwind_fuel fmod pow task_timed_out).
Context (s : State) (a : activation) (p : Program) (Hw : starts_with s a p).
Notation bc := (p_main_vector p).
Notation C := (conf s a []).
Notation free_step := (free_step null same bf_table find_line_number unwind_fuel fmod pow task_timed_out s a p Hw).
Context (z : sizes) (I : list item) (V : vec bc z I).
Notation P := (place z I).
Notation Hcur := (current_main s a p Hw).
Context (id : Z) (v : Var) (i1 : list item) (bottom : Z) (post : list item).
Context (Hid : slot_ok id = true) (Hv : is_true v = true) (Hlit : code_lit (p_literals p) v i1) (Hsz : Z.of_nat (length (p_literals p)) < 2 ^ 32).
Context (Hs : seg I 0 (i1 ++ Op OP_EXTENDED :: Op EOP_WHILE_ID :: Ref FIXUP_VAR_REF id :: Lab bottom :: Op OP_JUMP :: Lab 0 :: post)).

Lemma endless_room : room a [].
Proof. unfold room, rt_stack_room. change RT_STACK_QUICKSIZE with 15. cbn [length]. lia. Qed.

(** The instructions behind the constant. *)
Lemma endless_test : seg I (ilen i1) (Op OP_EXTENDED :: Op EOP_WHILE_ID :: Ref FIXUP_VAR_REF id :: Lab bottom :: Op OP_JUMP :: Lab 0 :: post).
Proof. rewrite <- (Z.add_0_l (ilen i1)). exact (proj2 (seg_app _ _ _ _ Hs)). Qed.
Lemma endless_jump : seg I (ilen i1 + 4) (Op OP_JUMP :: Lab 0 :: post).
Proof.
  pose proof endless_test as H. do 4 apply seg_cons in H as [_ H]. by replace (ilen i1 + 4) with (ilen i1 + 1 + 1 + 1 + 1) by lia.
Qed.

Lemma num_free n : IN_OPTIM_NUM_RANGE n = true -> COUNT_TICK (OPTIM_NUM_TO_OPCODE n) = false.
Proof.
  unfold IN_OPTIM_NUM_RANGE, COUNT_TICK, OPTIM_NUM_TO_OPCODE. intros [H _]%andb_prop. apply Z.leb_le in H. apply Z.leb_gt.
  assert (OP_G_PUT < OPTIM_NUM_START) by (vm_compute; reflexivity). lia.
Qed.
Lemma endless_1 env t ep : step (C (P 0) [] env t ep) = Some (Go tt, C (P (ilen i1)) [v] env t (P 0)).
Proof.
  pose proof endless_test as Ht. destruct Hlit as [(n & -> & Hrg & ->)|(k & Hk & HL & ->)].
  - change ([Op (OPTIM_NUM_TO_OPCODE n)] ++ ?i) with (Op (OPTIM_NUM_TO_OPCODE n) :: i) in Hs.
    rewrite (free_step (P 0) _ _ _ _ _ (op_byte _ _ _ V _ _ _ Hs)), instr_num; [|exact a|exact Hrg|by apply num_free].
    unfold op_optim_num. rewrite conf_push by apply endless_room. change (ilen [_]) with (0 + 1). rewrite (place_op _ _ _ _ _ Hs).
    do 5 f_equal. unfold OPTIM_NUM_TO_OPCODE, OPCODE_TO_OPTIM_NUM. lia.
  - cbn [app] in Hs. assert (Hk' : k < 2 ^ 32) by (apply lookup_lt_Some in HL; lia).
    rewrite (free_step (P 0) OP_IMM _ _ _ _ (op_byte _ _ _ V _ _ _ Hs) eq_refl), <- (place_op _ _ _ _ _ Hs).
    change (instruction OP_IMM) with op_imm. unfold op_imm. rewrite (xbind_eq _ _ _ _ _ (conf_bytecodes _ _ _ _ _ _ _ _ bc Hcur)).
    pose proof Hs as H1. apply seg_cons in H1 as [_ H1]. pose proof (place_succ z _ _ _ _ H1) as Ep. cbn [item_size] in Ep.
    change (ilen [_; _]) with (0 + 1 + 1) in Ht |- *.
    assert (En : nb_literal bc = kind_size z FIXUP_LITERAL) by (unfold nb_literal; by rewrite (v_sizes _ _ _ V)).
    pose proof (op_byte _ _ _ V _ _ _ Ht) as Hb. rewrite Ep, <- En in Hb.
    rewrite (xbind_eq _ _ _ _ _ (conf_byte _ _ _ _ _ _ _ _ bc _ _ Hcur Hb)). change (OP_EXTENDED =? OP_POP) with false. cbv iota.
    unfold READ_LITERAL. rewrite (xbind_eq (bytecodes ≫= _) _ _ k (C (P (0 + 1 + 1)) [] env t (P 0))).
    + rewrite (xbind_eq _ _ _ _ _ (conf_activ _ _ _ _ _ _ _ _)). replace (a_prog (set_rt_stack [] _)) with p by (rewrite <- (w_prog s a p Hw); by destruct a).
      rewrite (need_eq _ _ _ v HL). apply conf_push, endless_room.
    + rewrite (xbind_eq _ _ _ _ _ (conf_bytecodes _ _ _ _ _ _ _ _ bc Hcur)), En. apply (conf_ref s a [] bc z I Hcur V FIXUP_LITERAL _ _ _ _ _ _ _ H1 Hk').
Qed.
Lemma endless_2 env t ep : id < Z.of_nat (length env) ->
  step (C (P (ilen i1)) [v] env t ep) = Some (Go tt, C (P (ilen i1 + 4)) [] (<[Z.to_nat id := v]> env) (one_tick t) (P (ilen i1))).
Proof.
  intros He. pose proof Hid as [H1 H2]%andb_prop. apply Z.leb_le in H1. apply Z.ltb_lt in H2. pose proof endless_test as H.
  rewrite (free_step _ OP_EXTENDED _ _ _ _ (op_byte _ _ _ V _ _ _ H) eq_refl), <- (place_op _ _ _ _ _ H). apply seg_cons in H as [_ H].
  change (instruction OP_EXTENDED) with (op_extended null same bf_table find_line_number unwind_fuel pow). unfold op_extended.
  rewrite (xbind_eq _ _ _ _ _ (conf_next s a [] _ _ _ _ _ _ _ Hcur (op_byte _ _ _ V _ _ _ H))), <- (place_op _ _ _ _ _ H). apply seg_cons in H as [_ H].
  change (COUNT_EOP_TICK EOP_WHILE_ID) with true. cbn beta iota. rewrite (xbind_eq _ _ _ _ _ (conf_ticks _ _ _ _ _ _ _ _ one_tick)).
  change (extended_instruction null same bf_table find_line_number unwind_fuel pow EOP_WHILE_ID) with eop_while_id. unfold eop_while_id.
  rewrite (xbind_eq _ _ _ _ _ (conf_var_name s a [] bc z I Hcur V _ _ _ _ _ _ _ H ltac:(lia))), (xbind_eq _ _ _ _ _ (conf_top _ _ _ _ _ _ _ _ _)).
  rewrite (xbind_eq _ _ _ _ _ (conf_put _ _ _ _ _ _ _ _ id v _ (set_var_some env id v ltac:(lia)))). apply seg_cons in H as [_ H].
  rewrite (do_test_eq s a [] bc z I Hcur V _ _ _ _ _ _ _ _ H), Hv. by replace (ilen i1 + 1 + 1 + 1 + 1) with (ilen i1 + 4) by lia.
Qed.
Lemma endless_3 env t ep : step (C (P (ilen i1 + 4)) [] env t ep) = Some (Go tt, C (P 0) [] env t (P (ilen i1 + 4))).
Proof.
  pose proof endless_jump as H. rewrite (free_step _ OP_JUMP _ _ _ _ (op_byte _ _ _ V _ _ _ H) eq_refl), <- (place_op _ _ _ _ _ H).
  apply seg_cons in H as [_ H]. change (instruction OP_JUMP) with op_jump. unfold op_jump.
  rewrite (xbind_eq _ _ _ _ _ (conf_label s a [] bc z I Hcur V _ _ _ _ _ _ _ H)). apply conf_jump.
Qed.
Lemma endless_round env t ep k : id < Z.of_nat (length env) ->
  exec_loop (S (S (S k))) (C (P 0) [] env t ep) = exec_loop k (C (P 0) [] (<[Z.to_nat id := v]> env) (one_tick t) (P (ilen i1 + 4))).
Proof.
  intros He. erewrite exec_loop_step by apply endless_1. erewrite exec_loop_step by by apply endless_2. erewrite exec_loop_step by apply endless_3. done.
Qed.
Lemma endless_rounds : forall n env t ep, id < Z.of_nat (length env) -> exists s', ticks_remaining s' = Nat.iter n one_tick t /\
  forall k, exec_loop (3 * n + k) (C (P 0) [] env t ep) = exec_loop k s'.
Proof.
  induction n as [|n IH]; intros env t ep He.
  - exists (C (P 0) [] env t ep). split; [destruct s; cbn; lia|done].
  - destruct (IH (<[Z.to_nat id := v]> env) (one_tick t) (P (ilen i1 + 4)) ltac:(by rewrite length_insert)) as (s' & Ht & H). exists s'.
    split; [by rewrite Nat.iter_succ_r|]. intros k. replace (3 * S n + k)%nat with (S (S (S (3 * n + k)))) by lia. by rewrite endless_round.
Qed.
Lemma endless_none : forall n k env t ep, (k < 3)%nat -> id < Z.of_nat (length env) -> exec_loop (3 * n + k) (C (P 0) [] env t ep) = None.
Proof.
  induction n as [|n IH]; intros k env t ep Hk He.
  - change (3 * 0 + k)%nat with k. destruct k as [|[|[|k]]]; [done| | |lia]; erewrite exec_loop_step by apply endless_1; [done|]. by erewrite exec_loop_step by by apply endless_2.
  - replace (3 * S n + k)%nat with (S (S (S (3 * n + k)))) by lia. rewrite endless_round by done. apply IH; [done|by rewrite length_insert].
Qed.
End Endless.

(** What the ticks are after some rounds. *)
Lemma ticks_iter n t : INT32_MIN <= t <= INT32_MAX -> Nat.iter n one_tick t = int (t - Z.of_nat n).
Proof.
  intros Ht. induction n as [|n IH]; [by rewrite Z.sub_0_r, int_id|]. rewrite Nat.iter_succ, IH. unfold one_tick, int, swrap, INT32_MIN, INT32_MAX in *.
  rewrite Nat2Z.inj_succ. change (32 - 1) with 31.
  pose proof (Z.mod_pos_bound (t - Z.of_nat n + 2 ^ 31) (2 ^ 32) ltac:(lia)). pose proof (Z.div_mod (t - Z.of_nat n + 2 ^ 31) (2 ^ 32) ltac:(lia)) as E.
  set (q := (t - Z.of_nat n + 2 ^ 31) / 2 ^ 32) in *. set (r := (t - Z.of_nat n + 2 ^ 31) mod 2 ^ 32) in *.
  destruct (Z.eqb_spec (r - 2 ^ 31) (- 2 ^ 31)) as [Er|Er].
  - rewrite <- (Z.mod_unique_pos (t - Z.succ (Z.of_nat n) + 2 ^ 31) (2 ^ 32) (q - 1) (2 ^ 32 - 1)) by lia. lia.
  - rewrite <- (Z.mod_unique_pos (t - Z.succ (Z.of_nat n) + 2 ^ 31) (2 ^ 32) q (r - 1)) by lia. lia.
Qed.

(** The code of the loop. *)
Lemma endless_code_of id v version p : wf_program (endless_loop id v) = true -> id <> -1 -> generate_code (endless_loop id v) version = Some p -> sized p ->
  exists z I i1 bottom post, vec (p_main_vector p) z I /\ slot_ok id = true /\ code_lit (p_literals p) v i1 /\
    Z.of_nat (length (p_literals p)) < 2 ^ 32 /\
    seg I 0 (i1 ++ Op OP_EXTENDED :: Op EOP_WHILE_ID :: Ref FIXUP_VAR_REF id :: Lab bottom :: Op OP_JUMP :: Lab 0 :: post).
Proof.
  intros Hwf Hne Hg Hp. destruct (generate_code_ok _ version Hwf) as (p' & Hg' & (i & Hcomp & Hi)). assert (p' = p) as -> by congruence.
  destruct Hcomp as (_ & z & Ez & Hen & Eb). set (I := i ++ [Op OP_DONE]) in *.
  pose proof (sized_vector p _ Hp (or_introl eq_refl)) as Hsz. unfold bc_size in Hsz. rewrite Eb, (encode_length z (e_sizes _ _ Hen)) in Hsz.
  destruct Hi as (i1 & i2 & -> & (j1 & j2 & j3 & -> & Hl & -> & ->) & ->). destruct (Z.eqb_spec id (-1)); [done|].
  exists z, I, j1, (0 + ilen j1 + 3 + 1 + 0 + 2), [Op OP_DONE]. split; [by split|]. split; [|split; [exact Hl|split; [exact (z_literals p Hp)|]]].
  - revert Hwf. unfold wf_program, endless_loop. cbn [wf_ss wf_s]. unfold opt_slot_ok. destruct (Z.eqb_spec id (-1)); [done|]. cbn [orb]. by destruct (slot_ok id).
  - split; [lia|]. exists []. unfold I. rewrite app_nil_r. cbn [Z.to_nat drop]. rewrite !app_nil_r, <- !app_assoc. reflexivity.
Qed.

(** *** The rest of a scattering assignment *)

Section Scatter.
Context (null : Program) (same : Verbdef -> bool) (bf_table : list bi_func).
Context (find_line_number : Program -> Z -> Z -> Z) (unwind_fuel : nat) (Hunwind : unwind_fuel <> O).
Context (fmod : spec_float -> spec_float -> spec_float) (pow : spec_float -> spec_float -> spec_float * bool).
Context (task_timed_out : Z -> bool).
Notation step := (step null same bf_table find_line_number unwind_fuel fmod pow task_timed_out).
Notation instruction := (instruction null same bf_table find_line_number unwind_fuel fmod pow).
Notation exec_loop := (run_loop null same bf_table find_line_number unwind_fuel fmod pow task_timed_out).
Notation free_step := (free_step null same bf_table find_line_number unwind_fuel fmod pow task_timed_out).
Context (s : State) (a : activation) (Hw : starts_with s a scatter_code) (l : list Var) (Hl : list_ok l).
Notation C := (conf s a []).
Notation number := (conf_number s a _ Hw 1).

Lemma scatter_targets env t ep : (20 <= length env)%nat -> l <> [] ->
  scatter_loop 2 1 2 (if 2 <=? llen l then llen l - 2 + 1 else 0) (llen l - 1) 0 0 l (C 6 [VList l] env t ep) =
  Some (Go 0, C 10 [VList l] (<[19%nat := VList (take (length l - 2) (drop 1 l))]> (<[18%nat := nth 0 l zero]> env)) t ep).
Proof.
  intros He Hne. destruct l as [|x l']; [done|]. cbn [scatter_loop].
  rewrite (xbind_eq _ _ _ _ _ (conf_var s a _ Hw 6 18 _ _ _ _ eq_refl eq_refl)), (xbind_eq _ _ _ _ _ (conf_lab s a _ Hw (6 + 1) 0 _ _ _ _ eq_refl eq_refl)).
  change (1 =? 2) with false. change (0 =? 0) with true. cbn beta iota. rewrite (need_eq (aread (x :: l') (1 + 0)) _ _ x eq_refl).
  rewrite (xbind_eq _ _ _ _ _ (conf_put _ _ _ _ _ _ _ _ 18 x (<[18%nat := x]> env) (set_var_some env 18 _ ltac:(lia)))).
  rewrite (xbind_eq _ _ _ _ _ (conf_var s a _ Hw (6 + 1 + 1) 19 _ _ _ _ eq_refl eq_refl)),
    (xbind_eq _ _ _ _ _ (conf_lab s a _ Hw (6 + 1 + 1 + 1) 0 _ _ _ _ eq_refl eq_refl)).
  change (1 + 1 =? 2) with true. cbn beta iota. set (r := take (length (x :: l') - 2) (drop 1 (x :: l'))).
  rewrite (need_eq _ _ _ r).
  2: { rewrite sublist_spec; [|done|]; unfold llen in *; cbn [length] in *.
       - unfold r. do 2 f_equal. destruct (Z.leb_spec 2 (Z.of_nat (S (length l')))); cbn [length]; lia.
       - destruct (Z.leb_spec 2 (Z.of_nat (S (length l')))); lia. }
  rewrite (xbind_eq _ _ _ _ _ (conf_put _ _ _ _ _ _ _ _ 19 (VList r) (<[19%nat := VList r]> (<[18%nat := x]> env))
    (set_var_some (<[18%nat := x]> env) 19 _ ltac:(rewrite length_insert; lia)))). done.
Qed.

Lemma scatter_step env t ep : (20 <= length env)%nat -> l <> [] -> step (C 1 [VList l] env t ep) =
  Some (Go tt, C 11 [VList l] (<[19%nat := VList (take (length l - 2) (drop 1 l))]> (<[18%nat := nth 0 l zero]> env)) (one_tick t) 1).
Proof.
  intros He Hne. rewrite (free_step s a _ Hw 1 112 [VList l] env t ep eq_refl eq_refl).
  change (instruction 112) with (op_extended null same bf_table find_line_number unwind_fuel pow). unfold op_extended.
  rewrite (xbind_eq _ _ _ _ _ (conf_next s a [] (1 + 1) _ _ _ _ _ 13 (current_main s a _ Hw) eq_refl)). change (COUNT_EOP_TICK 13) with true. cbn beta iota.
  rewrite (xbind_eq _ _ _ _ _ (conf_ticks _ _ _ _ _ _ _ _ one_tick)).
  change (extended_instruction null same bf_table find_line_number unwind_fuel pow 13) with (eop_scatter null same bf_table find_line_number unwind_fuel).
  unfold eop_scatter.
  rewrite (xbind_eq _ _ _ _ _ (number 2 (1 + 1 + 1) _ _ _ _ eq_refl)), (xbind_eq _ _ _ _ _ (number 1 (1 + 1 + 1 + 1) _ _ _ _ eq_refl)),
    (xbind_eq _ _ _ _ _ (number 2 (1 + 1 + 1 + 1 + 1) _ _ _ _ eq_refl)).
  rewrite (xbind_eq _ _ _ _ _ (conf_bytecodes _ _ _ _ _ _ _ _ _ (current_main s a _ Hw))). cbv zeta. change (2 <=? 2) with true.
  rewrite (xbind_eq _ _ _ _ _ (conf_top _ _ _ _ _ _ _ _ _)). cbn [negb andb].
  destruct (list_ok_int l 0 Hl) as [Hi Hb]; [lia|]. rewrite Z.add_0_r in Hi. rewrite Hi.
  assert (1 <= llen l) by (destruct l; [done|unfold llen; cbn [length]; lia]). destruct (Z.ltb_spec (llen l) 1); [lia|]. cbn [orb].
  rewrite (xbind_eq _ _ _ _ _ (scatter_targets env (one_tick t) 1 He Hne)).
  rewrite (xbind_eq _ _ _ _ _ (conf_lab s a _ Hw 10 11 _ _ _ _ eq_refl eq_refl)). apply conf_jump.
Qed.

Lemma scatter_runs env t ep k : env_get env 17 = Some (VList l) -> (20 <= length env)%nat -> l <> [] ->
  exists s', exec_loop (S (S (S (S (S k))))) (C 0 [] env t ep) = Some (OUTCOME_DONE, Some (VList (take (length l - 2) (drop 1 l))), s').
Proof.
  intros H17 He Hne. set (r := take (length l - 2) (drop 1 l)).
  assert (Hr : room a []) by (unfold room, rt_stack_room; change RT_STACK_QUICKSIZE with 15; cbn [length]; lia).
  erewrite exec_loop_step.
  2: { rewrite (free_step s a _ Hw 0 84 [] env t ep eq_refl eq_refl).
       change (instruction 84) with (op_push_n null same bf_table find_line_number unwind_fuel 84). unfold op_push_n, push_variable.
       change (PUSH_n_INDEX 84) with 17. rewrite (xbind_eq _ _ _ _ _ (conf_get _ _ _ _ _ _ _ _ _ _ H17)). by apply conf_push. }
  erewrite exec_loop_step by by apply scatter_step. fold r. set (env1 := <[19%nat := VList r]> (<[18%nat := nth 0 l zero]> env)).
  assert (H19 : env_get env1 19 = Some (VList r)).
  { unfold env_get, env1. cbn [Z.ltb Z.compare]. change (Z.to_nat 19) with 19%nat. apply list_lookup_insert_eq. rewrite length_insert. lia. }
  erewrite exec_loop_step.
  2: { rewrite (free_step s a _ Hw 11 111 [VList l] env1 (one_tick t) 1 eq_refl eq_refl). change (instruction 111) with op_pop. unfold op_pop.
       rewrite (xbind_eq _ _ _ _ _ (conf_pop _ _ _ _ _ _ _ _ _)). reflexivity. }
  erewrite exec_loop_step.
  2: { rewrite (free_step s a _ Hw (11 + 1) 86 [] env1 (one_tick t) 11 eq_refl eq_refl).
       change (instruction 86) with (op_push_n null same bf_table find_line_number unwind_fuel 86). unfold op_push_n, push_variable.
       change (PUSH_n_INDEX 86) with 19. rewrite (xbind_eq _ _ _ _ _ (conf_get _ _ _ _ _ _ _ _ _ _ H19)). by apply conf_push. }
  eexists. cbn [run_loop]. rewrite (free_step s a _ Hw (11 + 1 + 1) 108 [VList r] env1 (one_tick t) (11 + 1) eq_refl eq_refl).
  change (instruction 108) with (op_return null same bf_table find_line_number unwind_fuel 108). unfold op_return.
  change (108 =? OP_RETURN) with true. cbn beta iota. rewrite (xbind_eq _ _ _ _ _ (conf_pop _ _ _ _ _ _ _ _ _)).
  pose proof (returning_root null same bf_table find_line_number unwind_fuel Hunwind s a (11 + 1 + 1 + 1) [] env1 (one_tick t) (11 + 1 + 1) (VList r) (List.Forall_nil _)) as E.
  unfold returning in E. rewrite E. reflexivity.
Qed.
End Scatter.

(** ** Theorems *)

(** C6: a task that is aborted stops: no [try except], [catch] or [try finally] in any
    of its activations, whatever their value stacks hold, stops the unwinding for
    ABORT_TICKS, ABORT_SECONDS or ABORT_KILL, which goes through all the activations, answers
    OUTCOME_ABORTED and leaves the root's activation alone, with an empty stack.  Activations may have
    been called by built-in functions: these are called on with 0, and what they call
    is dropped.  The assumption on them is [all_cut_short]: none of them panics, each calls verbs at most [n] times more, and
    none but these calls changes the activations; create() is such a function
    ([create_cut_short]).  Without such activations nothing else changes. *)
Theorem abort_ends_task (null : Program) (same : Verbdef -> bool) (bf_table : list bi_func) (find_line_number : Program -> Z -> Z -> Z)
  (value : Var) (n fuel : nat) (s : State) (root : activation) :
  last (activ_stack s) = Some root -> all_cut_short null same bf_table n (activ_stack s) s -> (length (activ_stack s) + n <= fuel)%nat ->
  exists s', unwind_stack null same bf_table find_line_number fuel FIN_ABORT value s = Some (Some OUTCOME_ABORTED, s') /\
    activ_stack s' = [set_rt_stack [] root] /\
    (Forall (fun a => a_bi_func_pc a = 0) (activ_stack s) -> s' = with_activ_stack [set_rt_stack [] root] s).
Proof. intros Hr Hc Hf. by apply (unwind_stack_abort null same bf_table find_line_number value n (activ_stack s)). Qed.

(** Activations in the midst of everything, of which create() called the second. *)
Lemma abort_ends_task_witness :
  let inner := set_rt_stack (stack_of sample_marks) (fresh sample_null []) in
  let s := with_data {[7 := Object_data 3]} 8 (machine_for [inner; set_bi_func 2 0 7 inner; inner; fresh sample_null [zero]]) in
  let table := [mkBiFunc (BS "create") 1 2 [TYPE_OBJ; TYPE_OBJ] false (bf_create sample_null (fun _ => true) Database.blank)] in
  last (activ_stack s) = Some (fresh sample_null [zero]) /\
  exists s', unwind_stack sample_null (fun _ => true) table (fun _ _ _ => 0) 4 FIN_ABORT zero s = Some (Some OUTCOME_ABORTED, s') /\
    activ_stack s' = [fresh sample_null [zero]].
Proof.
  intros inner s table. split; [reflexivity|].
  destruct (abort_ends_task sample_null (fun _ => true) table (fun _ _ _ => 0) zero 0 4 s (fresh sample_null [zero])) as (s' & H1 & H2 & _);
    [reflexivity| |cbn; lia|by exists s'].
  eapply (create_cut_short sample_null (fun _ => true) table _ Database.blank 0 0 7 _ _ _ 3);
    [reflexivity|reflexivity|discriminate|reflexivity|exact Logic.I].
Defined.

(** C3: unwinding a value stack finds the handler that the program's text says: the
    innermost mark that stops it decides.  A [try finally] stops everything but an
    abort and gets the value and the reason; a [try except] or [catch] stops errors that one of its
    handlers is for, and the first of these gets it; other handlers are taken
    off the stack with their codes and labels, and so are values. *)
Theorem unwinding_correct (why : Finally_Reason) (code value : Var) (l : list mark) : forallb mark_ok l = true ->
  unwind_rt (length (stack_of l)) why code value 0 (stack_of l) = unwind_marks why code value l.
Proof. intros H. rewrite <- (unwind_rt_marks why code value l 0 H). by rewrite Nat.add_0_r. Qed.

Lemma unwinding_correct_witness :
  forallb mark_ok sample_marks = true /\
  unwind_rt (length (stack_of sample_marks)) FIN_RAISE (VErr E_DIV) zero 0 (stack_of sample_marks) = Some (To_handler 50 [zero; VFinally 60]).
Proof. split; [reflexivity|]. exact (unwinding_correct FIN_RAISE (VErr E_DIV) zero sample_marks eq_refl). Defined.



(** C8: [{a, @b} = l] leaves out the last element of [l]: EOP_SCATTER calls [sublist] with the
    place of the last element, as when that was the last to take; it is the first not to take.
    For every list but the empty one, [{a, @b} = l; return b;] returns the elements from the second to the last but one. *)
Theorem scatter_rest_misses_last (null : Program) (same : Verbdef -> bool) (bf_table : list bi_func)
  (find_line_number : Program -> Z -> Z -> Z) (unwind_fuel : nat)
  (fmod : spec_float -> spec_float -> spec_float) (pow : spec_float -> spec_float -> spec_float * bool) (task_timed_out : Z -> bool)
  (s : State) (a : activation) (l : list Var) (t : Z) (fuel : nat) : unwind_fuel <> O -> (5 <= fuel)%nat ->
  starts_with s a scatter_code -> (20 <= length (a_rt_env a))%nat -> env_get (a_rt_env a) 17 = Some (VList l) -> list_ok l -> l <> [] ->
  exists s', run null same bf_table find_line_number unwind_fuel fmod pow task_timed_out fuel None (with_ticks t s) =
    Some (OUTCOME_DONE, Some (VList (take (length l - 2) (drop 1 l))), s').
Proof.
  intros Hu Hf Hw He H17 Hl Hne. cbn [run]. rewrite (start_conf s a scatter_code t Hw).
  replace fuel with (S (S (S (S (S (fuel - 5)))))) by lia.
  by apply (scatter_runs null same bf_table find_line_number unwind_fuel Hu fmod pow task_timed_out s a Hw l Hl).
Qed.

Lemma scatter_rest_misses_last_witness :
  let a := fresh scatter_code (<[17%nat := VList [VInt 1; VInt 2; VInt 3]]> (replicate 20 VNone)) in
  starts_with (machine_for [a]) a scatter_code /\
  exists s', run sample_null (fun _ => true) [] (fun _ _ _ => 0) 1 (fun x _ => x) (fun x _ => (x, false)) (fun _ => false) 5 None
    (with_ticks 100 (machine_for [a])) = Some (OUTCOME_DONE, Some (VList [VInt 2]), s').
Proof.
  intros a. assert (H : starts_with (machine_for [a]) a scatter_code).
  { split; [reflexivity..|]. vm_compute. split; congruence. }
  split; [exact H|].
  apply (scatter_rest_misses_last sample_null (fun _ => true) [] (fun _ _ _ => 0) 1 (fun x _ => x) (fun x _ => (x, false)) (fun _ => false)
    (machine_for [a]) a [VInt 1; VInt 2; VInt 3]); [done|lia|exact H|cbn; lia|reflexivity|vm_compute; congruence|done].
Defined.
