(* ===== verification/TaskProof.v ===== *)
(** * The invariant of the task queues (tasks.c)

    The scheduler keeps its queues in two lists, idle and active, its waiting tasks
    in a third, and a count of background tasks in each queue.  Whatever
    happens to the queues, by commands, forks, suspensions, resumptions, kills and the
    scheduler itself, the lists stay consistent with each other and with the counts. *)

From stdpp Require Import sorting.
From S2P Require Import Prelude Values Functions Lists Db Properties PropBuiltins Activation InputQueue Tasks Machine TaskQueues Scheduler.

(** ** Definitions *)

Definition starts_before (x y : bg_task) : Prop := GET_START_TIME x <= GET_START_TIME y.
Definition usage_of (m : gmap Z tqueue) (x : Z) : Z := default 0 (tq_usage <$> m !! x).
Definition used_less (m : gmap Z tqueue) (x y : Z) : Prop := usage_of m x <= usage_of m y.
(** How many tasks of [w] are charged to [p]. *)
Definition count (p : Z) (w : list bg_task) : Z := Z.of_nat (length (filter (fun x => task_progr x = Some p) w)).

(** [w]: the waiting tasks. *)
Record tasks_ok (w : list bg_task) (t : tasks) : Prop := {
  k_nodup : NoDup (idle_tqueues t ++ active_tqueues t);
  k_listed : forall x, x ∈ idle_tqueues t ++ active_tqueues t <-> is_Some (tqs t !! x);
  k_fresh : forall x, is_Some (tqs t !! x) -> x < next_tq t;
  (* an idle queue has nothing to run: no task is forgotten *)
  k_idle : forall x q, x ∈ idle_tqueues t -> tqs t !! x = Some q -> tq_usage q = NO_USAGE /\ tq_bg q = [];
  k_active : forall x q, x ∈ active_tqueues t -> tqs t !! x = Some q -> 0 <= tq_usage q;
  (* the queue that was used least comes first *)
  k_usage : StronglySorted (used_less (tqs t)) (active_tqueues t);
  k_players : forall x y q r, tqs t !! x = Some q -> tqs t !! y = Some r -> tq_player q = tq_player r -> x = y;
  k_waiting : StronglySorted starts_before w;
  k_owner : forall task, task ∈ w -> exists p x q, task_progr task = Some p /\ tqs t !! x = Some q /\ tq_player q = p;
  k_bg : forall x q task, tqs t !! x = Some q -> task ∈ tq_bg q -> task_progr task = Some (tq_player q);
  (* the count is what the limits on tasks are compared with *)
  k_count : forall x q, tqs t !! x = Some q -> tq_num_bg_tasks q = Z.of_nat (length (tq_bg q)) + count (tq_player q) w;
  k_bound : forall x q, tqs t !! x = Some q -> tq_num_bg_tasks q <= INT32_MAX
}.

Definition tasks_inv (t : tasks) : Prop := tasks_ok (waiting_tasks t) t.

(** What other operations do to a queue: they leave these fields alone. *)
Definition keeps (f : tqueue -> tqueue) : Prop := forall q,
  tq_player (f q) = tq_player q /\ tq_usage (f q) = tq_usage q /\ tq_bg (f q) = tq_bg q /\ tq_num_bg_tasks (f q) = tq_num_bg_tasks q.
(** There are fewer tasks than an [int] counts. *)
Definition few_tasks (t : tasks) : Prop := forall x q, tqs t !! x = Some q -> tq_num_bg_tasks q < INT32_MAX.

(** What happens to the queues. *)
Inductive task_op :=
| Op_queue (player : Z)                                (* a player connects *)
| Op_fields (tq : Z) (f : tqueue -> tqueue)            (* lines of input, options, reading *)
| Op_wake (tq : Z)                                     (* there is input *)
| Op_fork (program : Program) (a : activation) (rt_env : list Var) (f_index start id : Z)
| Op_suspend (the_vm : vm) (seconds : Z) (d : db) (now : Z)
| Op_read (the_vm : vm) (player : Z)
| Op_ready (now : Z)                                   (* the scheduler: the tasks whose time has come *)
| Op_dequeue                                           (* ... takes a task of the first active queue *)
| Op_used (took : Z)                                   (* ... has run a task of it *)
| Op_retire                                            (* ... found nothing to run in it *)
| Op_free                                              (* ... frees queues *)
| Op_kill (id owner : Z) (d : db)
| Op_resume (id : Z) (value : Var) (progr : Z) (d : db) (now : Z)
| Op_login (s : State) (tq new_player : Z) (old_max_object : Z).   (* on a machine in such a state *)

Definition perform (op : task_op) (t : tasks) : option tasks :=
  match op with
  | Op_queue player => fst <$> find_or_create_tqueue player t
  | Op_fields tq f => update_tq tq f t
  | Op_wake tq => ensure_usage tq t
  | Op_fork program a rt_env f_index start id => enqueue_ft program a rt_env f_index start id t
  | Op_suspend the_vm seconds d now => fst <$> enqueue_suspended_task the_vm seconds d now t
  | Op_read the_vm player => fst <$> make_reading_task the_vm player t
  | Op_ready now => ready_tasks now (waiting_tasks t) t
  | Op_dequeue => tq ← head (active_tqueues t); fst <$> dequeue_bg_task tq t
  | Op_used took =>
      tq ← head (active_tqueues t);
      t ← update_tq tq (fun q => set_tq_usage (int (tq_usage q + took)) q)
            (with_tqueues (idle_tqueues t) (behind tq (active_tqueues t)) t);
      activate_tqueue tq t
  | Op_retire => tq ← head (active_tqueues t); deactivate_tqueue tq (with_tqueues (idle_tqueues t) (behind tq (active_tqueues t)) t)
  | Op_free => free_dead_queues (idle_tqueues t) t
  | Op_kill id owner d => fst <$> kill_task id owner d t
  | Op_resume id value progr d now => fst <$> do_resume id value progr d now t
  | Op_login s tq new_player old_max_object =>
      '(_, s) ← login tq new_player old_max_object (with_tasks t (random s) s); Some (the_tasks s)
  end.
(** When it happens. *)
Definition allowed (op : task_op) (t : tasks) : Prop :=
  match op with
  | Op_fields tq f => is_Some (tqs t !! tq) /\ keeps f
  | Op_wake tq => is_Some (tqs t !! tq)
  | Op_fork _ _ _ _ _ _ => few_tasks t
  | Op_suspend the_vm _ d _ => few_tasks t /\ is_Some (progr_of_cur_verb the_vm) /\
      forall progr, progr_of_cur_verb the_vm = Some progr -> is_Some (check_user_task_limit progr d t)
  | Op_dequeue => active_tqueues t <> []
  | Op_used took => active_tqueues t <> [] /\ 0 <= took /\ forall x q, tqs t !! x = Some q -> tq_usage q + took <= INT32_MAX
  | Op_retire => exists tq q, head (active_tqueues t) = Some tq /\ tqs t !! tq = Some q /\ tq_bg q = []
  (* for a player without a queue, by a connection without background tasks *)
  | Op_login _ tq new_player _ => (exists q, tqs t !! tq = Some q /\ tq_num_bg_tasks q = 0) /\
      forall x r, tqs t !! x = Some r -> tq_player r <> new_player
  | _ => True
  end.

Inductive tasks_reachable : tasks -> Prop :=
| start_tasks : tasks_reachable no_tasks
| next_tasks op t t' : tasks_reachable t -> allowed op t -> perform op t = Some t' -> tasks_reachable t'.

(** One player connects, a task of another's is forked and becomes ready. *)
Definition no_program : Program := mkProgram 0 0 1 (mkBytecodes [1; 1; 1; 1; 1] [] 0) [] [] [] 0 0 0.
Definition idle_activation : activation := mkActivation no_program [] [] 0 0 0 0 0 0 VNone 0 0 7 0 [] [] true.
Definition after (op : task_op) (t : tasks) : tasks := default no_tasks (perform op t).
Definition sample_tasks : tasks :=
  after (Op_ready 12) (after (Op_wake 1) (after (Op_fork no_program idle_activation [] (-1) 10 99) (after (Op_queue 2) no_tasks))).

(** Another task, a machine, and the queues with a task that is ready. *)
Definition some_vm : vm := mkVm 5 [idle_activation] 50 0.
Definition queued_task : tasks :=
  after (Op_ready 12) (after (Op_fork no_program idle_activation [] (-1) 10 99) no_tasks).
Definition idle_machine (t : tasks) : State :=
  mkState [] 50 (-1) 0 false None zero Database.empty_db (mkCache [] 1000 1000 true 1000) t 0 [] ∅ 0 [].

(** ** Lemmas *)

(** *** Counting *)

Lemma count_cons p x w : count p (x :: w) = (if bool_decide (task_progr x = Some p) then 1 else 0) + count p w.
Proof. unfold count. rewrite filter_cons. case_bool_decide; case_decide; try done; cbn [length]; lia. Qed.
Lemma count_perm p w w' : w ≡ₚ w' -> count p w = count p w'.
Proof. unfold count. intros H. by rewrite H. Qed.
Lemma count_none p w : (forall x, x ∈ w -> task_progr x <> Some p) -> count p w = 0.
Proof.
  induction w as [|x w IH]; intros H; [done|]. rewrite count_cons, IH by (intros y Hy; apply H; by right).
  rewrite bool_decide_false; [done|]. apply H. by left.
Qed.
Lemma count_nonneg p w : 0 <= count p w.
Proof. unfold count. lia. Qed.

Lemma update_tq_eq tq f t q : tqs t !! tq = Some q -> update_tq tq f t = Some (with_tqs <[tq := f q]> t).
Proof. intros H. unfold update_tq. by rewrite H. Qed.

(** *** One queue changes *)

Lemma usage_insert m tq q q' x : m !! tq = Some q -> tq_usage q' = tq_usage q -> usage_of (<[tq := q']> m) x = usage_of m x.
Proof.
  intros H Hu. unfold usage_of. destruct (decide (x = tq)) as [->|Hne]; [rewrite lookup_insert_eq, H; cbn; by rewrite Hu|by rewrite lookup_insert_ne].
Qed.
Lemma sorted_ext {A} (R S : A -> A -> Prop) l : (forall x y, x ∈ l -> y ∈ l -> R x y -> S x y) -> StronglySorted R l -> StronglySorted S l.
Proof.
  intros H HR. induction HR as [|x l Hl IH Hx]; constructor.
  - apply IH. intros y z Hy Hz. apply H; by right.
  - rewrite Forall_forall in *. intros y Hy. apply H; [by left|by right|by apply Hx].
Qed.

(** The queue [tq] changes from [q] to [q'], and the waiting tasks from [w] to [w']. *)
Lemma ok_update w w' t tq q q' : tasks_ok w t -> tqs t !! tq = Some q ->
  tq_player q' = tq_player q -> tq_usage q' = tq_usage q -> (tq ∈ idle_tqueues t -> tq_bg q' = []) ->
  (forall task, task ∈ tq_bg q' -> task_progr task = Some (tq_player q)) ->
  tq_num_bg_tasks q' = Z.of_nat (length (tq_bg q')) + count (tq_player q) w' -> tq_num_bg_tasks q' <= INT32_MAX ->
  (forall p, p <> tq_player q -> count p w' = count p w) -> StronglySorted starts_before w' ->
  (forall x, x ∈ w' -> x ∈ w \/ task_progr x = Some (tq_player q)) -> tasks_ok w' (with_tqs <[tq := q']> t).
Proof.
  intros K Hq Hp Hu Hi Hb Hn Hm Hc Hs Hw.
  assert (Hl : forall x r, (<[tq := q']> (tqs t)) !! x = Some r -> (x = tq /\ r = q') \/ (x <> tq /\ tqs t !! x = Some r)).
  { intros x r H. destruct (decide (x = tq)) as [->|Hne]; [left; rewrite lookup_insert_eq in H; by injection H as <-|right; by rewrite lookup_insert_ne in H]. }
  assert (Hold : forall x r, (<[tq := q']> (tqs t)) !! x = Some r -> exists r0, tqs t !! x = Some r0 /\ tq_player r = tq_player r0 /\ tq_usage r = tq_usage r0).
  { intros x r H. destruct (Hl x r H) as [[-> ->]|[Hne H']]; eauto. }
  split; change (tqs (with_tqs <[tq := q']> t)) with (<[tq := q']> (tqs t)); try exact (k_nodup w t K).
  - intros x. rewrite lookup_insert_is_Some'. rewrite (k_listed w t K x). split; [tauto|]. intros [<-|H]; [by rewrite Hq|done].
  - intros x Hx. apply (k_fresh w t K). destruct Hx as [r Hx]. destruct (Hold x r Hx) as (r0 & H & _). by rewrite H.
  - intros x r Hx H. destruct (Hl x r H) as [[-> ->]|[Hne H']]; [|by apply (k_idle w t K x r)]. rewrite Hu.
    split; [by apply (k_idle w t K tq q)|by apply Hi].
  - intros x r Hx H. destruct (Hold x r H) as (r0 & H0 & _ & ->). by apply (k_active w t K x).
  - eapply sorted_ext; [|exact (k_usage w t K)]. intros x y _ _. unfold used_less. by rewrite !(usage_insert _ _ q) by done.
  - intros x y r1 r2 H1 H2 He. destruct (Hold x r1 H1) as (r3 & H3 & E3 & _), (Hold y r2 H2) as (r4 & H4 & E4 & _).
    apply (k_players w t K x y r3 r4 H3 H4). congruence.
  - exact Hs.
  - intros task Ht. destruct (Hw task Ht) as [H|H].
    + destruct (k_owner w t K task H) as (p & x & r & H1 & H2 & H3). destruct (decide (x = tq)) as [->|Hne].
      * exists p, tq, q'. rewrite lookup_insert_eq. split; [done|]. split; [done|]. congruence.
      * exists p, x, r. by rewrite lookup_insert_ne.
    + exists (tq_player q), tq, q'. by rewrite lookup_insert_eq.
  - intros x r task H Ht. destruct (Hl x r H) as [[-> ->]|[Hne H']]; [rewrite Hp; by apply Hb|by apply (k_bg w t K x r)].
  - intros x r H. destruct (Hl x r H) as [[-> ->]|[Hne H']]; [by rewrite Hp|]. rewrite (k_count w t K x r H'). rewrite Hc; [done|].
    intros He. apply Hne. by apply (k_players w t K x tq r q).
  - intros x r H. destruct (Hl x r H) as [[-> ->]|[Hne H']]; [done|by apply (k_bound w t K x r)].
Qed.

(** A queue keeps what the invariant is about. *)
Lemma ok_fields w t tq f : tasks_ok w t -> is_Some (tqs t !! tq) -> keeps f -> exists t', update_tq tq f t = Some t' /\ tasks_ok w t'.
Proof.
  intros K [q Hq] Hf. eexists. split; [by apply update_tq_eq|]. destruct (Hf q) as (H1 & H2 & H3 & H4).
  apply (ok_update w w t tq q); try done.
  - intros Hi. rewrite H3. by apply (k_idle w t K tq q).
  - intros task. rewrite H3. by apply (k_bg w t K tq q).
  - rewrite H3, H4. by apply (k_count w t K tq q).
  - rewrite H4. by apply (k_bound w t K tq q).
  - apply (k_waiting w t K).
  - by left.
Qed.

(** *** Finding a queue *)

Lemma listed w t x : tasks_ok w t -> x ∈ idle_tqueues t \/ x ∈ active_tqueues t <-> is_Some (tqs t !! x).
Proof. intros K. rewrite <- (k_listed w t K x). by rewrite elem_of_app. Qed.
Lemma search_tqueue_spec m player : forall l, (forall x, x ∈ l -> is_Some (m !! x)) ->
  (exists x q, search_tqueue m player l = Some (Some x) /\ x ∈ l /\ m !! x = Some q /\ tq_player q = player) \/
  (search_tqueue m player l = Some None /\ forall x q, x ∈ l -> m !! x = Some q -> tq_player q <> player).
Proof.
  induction l as [|y l IH]; intros H; [right; split; [done|]; by intros x q ?%elem_of_nil|]. cbn [search_tqueue].
  destruct (H y ltac:(by left)) as [q Hq]. rewrite Hq. cbn [mbind option_bind]. destruct (Z.eqb_spec (tq_player q) player) as [<-|Hne].
  - left. exists y, q. split; [done|]. split; [by left|done].
  - destruct IH as [(x & r & H1 & H2 & H3 & H4)|[H1 H2]]; [intros x Hx; apply H; by right| |].
    + left. exists x, r. split; [done|]. split; [by right|done].
    + right. split; [done|]. intros x r [->|Hx]%elem_of_cons Hr; [congruence|by apply (H2 x)].
Qed.
Lemma find_tqueue_spec w t player : tasks_ok w t ->
  (exists x q, find_tqueue player t = Some (Some x) /\ tqs t !! x = Some q /\ tq_player q = player) \/
  (find_tqueue player t = Some None /\ forall x q, tqs t !! x = Some q -> tq_player q <> player).
Proof.
  intros K. unfold find_tqueue.
  destruct (search_tqueue_spec (tqs t) player (active_tqueues t)) as [(x & q & -> & _ & H & Hp)|[-> Ha]];
    [intros x Hx; apply (listed w t x K); by right|left; by exists x, q|]. cbn [mbind option_bind].
  destruct (search_tqueue_spec (tqs t) player (idle_tqueues t)) as [(x & q & -> & _ & H & Hp)|[-> Hi]];
    [intros x Hx; apply (listed w t x K); by left|left; by exists x, q|].
  right. split; [done|]. intros x q Hq. destruct (proj2 (listed w t x K) ltac:(by rewrite Hq)) as [H|H]; [by apply (Hi x)|by apply (Ha x)].
Qed.

(** A new queue, idle. *)
Lemma ok_new w t player : tasks_ok w t -> (forall x q, tqs t !! x = Some q -> tq_player q <> player) ->
  tasks_ok w (mkTasks (<[next_tq t := set_tq_usage NO_USAGE (new_tqueue player)]> (tqs t)) (next_tq t :: idle_tqueues t) (active_tqueues t)
                (waiting_tasks t) (next_tq t + 1) (current_task_id t)).
Proof.
  intros K Hnew. assert (Hn : tqs t !! next_tq t = None).
  { destruct (tqs t !! next_tq t) eqn:E; [|done]. pose proof (k_fresh w t K (next_tq t) ltac:(by rewrite E)). lia. }
  set (q0 := set_tq_usage NO_USAGE (new_tqueue player)). set (m := <[next_tq t := q0]> (tqs t)).
  assert (Hl : forall x r, m !! x = Some r -> (x = next_tq t /\ r = q0) \/ (x <> next_tq t /\ tqs t !! x = Some r)).
  { intros x r H. unfold m in H. destruct (decide (x = next_tq t)) as [->|Hne]; [left; rewrite lookup_insert_eq in H; by injection H as <-|right; by rewrite lookup_insert_ne in H]. }
  assert (Hex : forall x, x ∈ idle_tqueues t ++ active_tqueues t -> x <> next_tq t).
  { intros x Hx ->. apply (k_listed w t K) in Hx. rewrite Hn in Hx. by destruct Hx. }
  assert (Hc : count player w = 0).
  { apply count_none. intros x Hx He. destruct (k_owner w t K x Hx) as (p & y & r & H1 & H2 & H3). apply (Hnew y r H2). congruence. }
  split; cbn [tqs idle_tqueues active_tqueues next_tq]; fold m.
  - cbn [app]. constructor; [|exact (k_nodup w t K)]. intros Hx. by apply (Hex _ Hx).
  - intros x. cbn [app]. rewrite elem_of_cons, (k_listed w t K x). unfold m. rewrite lookup_insert_is_Some'. naive_solver.
  - intros x [r Hx]. destruct (Hl x r Hx) as [[-> _]|[_ H]]; [lia|]. pose proof (k_fresh w t K x ltac:(by rewrite H)). lia.
  - intros x r Hx H. destruct (Hl x r H) as [[-> ->]|[Hne H']]; [done|]. apply elem_of_cons in Hx as [->|Hx]; [done|]. by apply (k_idle w t K x).
  - intros x r Hx H. destruct (Hl x r H) as [[-> ->]|[Hne H']]; [|by apply (k_active w t K x)]. exfalso. apply (Hex (next_tq t)); [|done]. apply elem_of_app. by right.
  - eapply sorted_ext; [|exact (k_usage w t K)]. intros x y Hx Hy. unfold used_less, usage_of, m.
    rewrite !lookup_insert_ne; [done| |]; symmetry; apply Hex, elem_of_app; by right.
  - intros x y r1 r2 H1 H2 He. destruct (Hl x r1 H1) as [[-> ->]|[_ H1']], (Hl y r2 H2) as [[-> ->]|[_ H2']]; try done.
    + exfalso. by apply (Hnew y r2 H2').
    + exfalso. by apply (Hnew x r1 H1').
    + by apply (k_players w t K x y r1 r2).
  - exact (k_waiting w t K).
  - intros task Ht. destruct (k_owner w t K task Ht) as (p & x & r & H1 & H2 & H3). exists p, x, r. split; [done|]. split; [|done].
    unfold m. rewrite lookup_insert_ne; [done|]. intros <-. congruence.
  - intros x r task H Ht. destruct (Hl x r H) as [[-> ->]|[_ H']]; [by apply elem_of_nil in Ht|by apply (k_bg w t K x r)].
  - intros x r H. destruct (Hl x r H) as [[-> ->]|[_ H']]; [|by apply (k_count w t K x r)]. cbn. by rewrite Hc.
  - intros x r H. destruct (Hl x r H) as [[-> ->]|[_ H']]; [cbn; unfold INT32_MAX; lia|by apply (k_bound w t K x r)].
Qed.

Lemma find_or_create_ok w t player : tasks_ok w t -> exists t' x q, find_or_create_tqueue player t = Some (t', x) /\ tasks_ok w t' /\
  tqs t' !! x = Some q /\ tq_player q = player /\ waiting_tasks t' = waiting_tasks t /\ (t' = t \/ tq_num_bg_tasks q = 0) /\
  (forall y r, y <> x -> tqs t' !! y = Some r -> tqs t !! y = Some r).
Proof.
  intros K. unfold find_or_create_tqueue. destruct (find_tqueue_spec w t player K) as [(x & q & -> & H & Hp)|[-> Hnew]].
  - exists t, x, q. cbn [mbind option_bind]. split; [done|]. split; [done|]. split; [done|]. split; [done|]. split; [done|]. split; [by left|done].
  - cbn [mbind option_bind]. unfold deactivate_tqueue, update_tq. cbn [tqs]. rewrite lookup_insert_eq. cbn [mbind option_bind].
    eexists _, (next_tq t), _. split; [reflexivity|]. unfold with_tqs, with_tqueues. cbn [tqs idle_tqueues active_tqueues waiting_tasks next_tq current_task_id].
    rewrite insert_insert_eq, lookup_insert_eq. split; [by apply ok_new|]. split; [done|]. split; [done|]. split; [done|]. split; [by right|].
    intros y r Hy H. by rewrite lookup_insert_ne in H.
Qed.

(** *** Between the lists *)

Lemma insert_by_usage_spec m u tq : forall l, (forall y, y ∈ l -> is_Some (m !! y)) -> StronglySorted (used_less m) l ->
  exists l1 l2, insert_by_usage m u tq l = Some (l1 ++ tq :: l2) /\ l = l1 ++ l2 /\
    (forall y, y ∈ l1 -> usage_of m y <= u) /\ (forall y, y ∈ l2 -> u < usage_of m y).
Proof.
  induction l as [|y l IH]; intros H Hs.
  - exists [], []. split; [done|]. split; [done|]. by split; intros y ?%elem_of_nil.
  - apply StronglySorted_cons in Hs as [Hy Hs]. rewrite Forall_forall in Hy. destruct (H y ltac:(by left)) as [q Hq]. cbn [insert_by_usage].
    rewrite Hq. cbn [mbind option_bind]. assert (Hu : usage_of m y = tq_usage q) by (unfold usage_of; by rewrite Hq).
    destruct (Z.leb_spec (tq_usage q) u) as [Hle|Hgt].
    + destruct IH as (l1 & l2 & -> & -> & H1 & H2); [intros z Hz; apply H; by right|done|]. exists (y :: l1), l2. split; [done|]. split; [done|].
      split; [|done]. intros z [->|Hz]%elem_of_cons; [lia|by apply H1].
    + exists [], (y :: l). split; [done|]. split; [done|]. split; [by intros z ?%elem_of_nil|].
      intros z [->|Hz]%elem_of_cons; [lia|]. specialize (Hy z Hz). unfold used_less in Hy. lia.
Qed.

Section Activate.
Context (w : list bg_task) (t : tasks) (tq : Z) (q : tqueue) (u : Z) (idle active : list Z).
Context (K : tasks_ok w t) (Hq : tqs t !! tq = Some q) (Hu : 0 <= u).
Context (Hidle : forall x, x ∈ idle <-> x ∈ idle_tqueues t /\ x <> tq) (Hactive : forall x, x ∈ active <-> x ∈ active_tqueues t /\ x <> tq).
Context (Hdup : NoDup (idle ++ active)) (Hsort : StronglySorted (used_less (tqs t)) active).
Notation m := (<[tq := set_tq_usage u q]> (tqs t)).

Lemma usage_new x : usage_of m x = if decide (x = tq) then u else usage_of (tqs t) x.
Proof. unfold usage_of. case_decide as E; [subst; rewrite lookup_insert_eq; by destruct q|by rewrite lookup_insert_ne]. Qed.
Lemma with_usage x r : m !! x = Some r -> exists r0, tqs t !! x = Some r0 /\ tq_player r = tq_player r0 /\ tq_bg r = tq_bg r0 /\
  tq_num_bg_tasks r = tq_num_bg_tasks r0 /\ (x <> tq -> r = r0) /\ (x = tq -> tq_usage r = u).
Proof.
  intros H. destruct (decide (x = tq)) as [->|Hne].
  - rewrite lookup_insert_eq in H. injection H as <-. exists q. by destruct q.
  - rewrite lookup_insert_ne in H by done. by exists r.
Qed.

Lemma ok_activate : exists l, activate_tqueue tq (with_tqs <[tq := set_tq_usage u q]> (with_tqueues idle active t)) =
    Some (mkTasks m idle l (waiting_tasks t) (next_tq t) (current_task_id t)) /\ tq ∈ l /\
  tasks_ok w (mkTasks m idle l (waiting_tasks t) (next_tq t) (current_task_id t)).
Proof.
  assert (Hm : forall y, y ∈ active -> is_Some (m !! y)).
  { intros y [Hy Hne]%Hactive. rewrite lookup_insert_ne by done. apply (listed w t y K). by right. }
  assert (Hs : StronglySorted (used_less m) active).
  { eapply sorted_ext; [|exact Hsort]. intros x y [_ Hx]%Hactive [_ Hy]%Hactive. unfold used_less. rewrite !usage_new. by rewrite !decide_False. }
  destruct (insert_by_usage_spec m u tq active Hm Hs) as (l1 & l2 & Ei & El & H1 & H2). exists (l1 ++ tq :: l2).
  split; [|split; [apply elem_of_app; right; by left|]].
  { unfold activate_tqueue, with_tqs, with_tqueues. cbn [tqs active_tqueues idle_tqueues waiting_tasks next_tq current_task_id]. rewrite lookup_insert_eq.
    cbn [mbind option_bind]. replace (tq_usage (set_tq_usage u q)) with u by by destruct q. by rewrite Ei. }
  assert (Hin : forall x, x ∈ idle ++ (l1 ++ tq :: l2) <-> x ∈ idle_tqueues t ++ active_tqueues t).
  { intros x. assert (Hx : x ∈ l1 ++ tq :: l2 <-> x = tq \/ x ∈ active) by (rewrite El, !elem_of_app, elem_of_cons; tauto).
    rewrite !elem_of_app, <- elem_of_app, Hx, Hidle, Hactive. assert (Ht := proj2 (listed w t tq K) ltac:(by rewrite Hq)).
    destruct (decide (x = tq)) as [->|Hne]; tauto. }
  split; cbn [tqs active_tqueues idle_tqueues next_tq].
  - assert (HP : idle ++ l1 ++ tq :: l2 ≡ₚ tq :: (idle ++ active)) by (rewrite El; by rewrite !app_assoc, <- Permutation_middle).
    rewrite HP. constructor; [|done]. intros [[_ ?]%Hidle|[_ ?]%Hactive]%elem_of_app; done.
  - intros x. rewrite Hin, (k_listed w t K x), lookup_insert_is_Some'. split; [tauto|]. intros [<-|H]; [by rewrite Hq|done].
  - intros x [r H]. destruct (with_usage x r H) as (r0 & H0 & _). apply (k_fresh w t K). by rewrite H0.
  - intros x r [Hx Hne]%Hidle H. rewrite lookup_insert_ne in H by done. by apply (k_idle w t K x).
  - intros x r Hx H. destruct (with_usage x r H) as (r0 & H0 & _ & _ & _ & E & E'). destruct (decide (x = tq)) as [->|Hne]; [by rewrite E'|].
    rewrite (E Hne). apply (k_active w t K x); [|done]. apply Hactive. rewrite El, elem_of_app in *. rewrite elem_of_cons in Hx. naive_solver.
  - apply StronglySorted_app. rewrite El in Hs. apply StronglySorted_app in Hs as (S1 & S2 & S3). split; [|split; [done|]].
    + intros x y Hx [->|Hy]%elem_of_cons; [|by apply S1]. unfold used_less. rewrite (usage_new tq), decide_True by done. by apply H1.
    + apply StronglySorted_cons. split; [|done]. apply Forall_forall. intros y Hy. unfold used_less. rewrite (usage_new tq), decide_True by done.
      specialize (H2 y Hy). lia.
  - intros x y r1 r2 G1 G2 He. destruct (with_usage x r1 G1) as (r3 & G3 & E3 & _), (with_usage y r2 G2) as (r4 & G4 & E4 & _).
    apply (k_players w t K x y r3 r4 G3 G4). congruence.
  - exact (k_waiting w t K).
  - intros task Ht. destruct (k_owner w t K task Ht) as (p & x & r & G1 & G2 & G3). destruct (decide (x = tq)) as [->|Hne].
    + exists p, tq, (set_tq_usage u q). rewrite lookup_insert_eq. split; [done|]. split; [done|]. assert (r = q) as -> by congruence. by destruct q.
    + exists p, x, r. by rewrite lookup_insert_ne.
  - intros x r task H Ht. destruct (with_usage x r H) as (r0 & H0 & Ep & Eb & _). rewrite Ep. apply (k_bg w t K x); [done|by rewrite <- Eb].
  - intros x r H. destruct (with_usage x r H) as (r0 & H0 & Ep & Eb & En & _). rewrite Ep, Eb, En. by apply (k_count w t K x).
  - intros x r H. destruct (with_usage x r H) as (r0 & H0 & _ & _ & En & _). rewrite En. by apply (k_bound w t K x).
Qed.
End Activate.

Lemma idle_not_active w t x : tasks_ok w t -> x ∈ idle_tqueues t -> x ∈ active_tqueues t -> False.
Proof. intros K Hi Ha. pose proof (k_nodup w t K) as H. apply NoDup_app in H as (_ & H & _). by apply (H x). Qed.

(** Afterwards the queue is active; its fields but the usage are as they were. *)
Lemma ensure_usage_ok w t tq q : tasks_ok w t -> tqs t !! tq = Some q -> exists t' q', ensure_usage tq t = Some t' /\ tasks_ok w t' /\
  tqs t' !! tq = Some q' /\ tq_player q' = tq_player q /\ tq ∈ active_tqueues t' /\ waiting_tasks t' = waiting_tasks t /\
  tq_bg q' = tq_bg q /\ tq_num_bg_tasks q' = tq_num_bg_tasks q.
Proof.
  intros K Hq. unfold ensure_usage. rewrite Hq. cbn [mbind option_bind]. destruct (Z.eqb_spec (tq_usage q) NO_USAGE) as [Hu|Hu].
  - assert (Hi : tq ∈ idle_tqueues t).
    { destruct (proj2 (listed w t tq K) ltac:(by rewrite Hq)) as [H|H]; [done|]. pose proof (k_active w t K tq q H Hq). unfold NO_USAGE in Hu. lia. }
    assert (exists u, match active_tqueues t with [] => Some 0 | x :: _ => tq_usage <$> tqs t !! x end = Some u /\ 0 <= u) as (u & -> & Hu0).
    { destruct (active_tqueues t) as [|x l] eqn:El; [by exists 0|]. destruct (proj1 (listed w t x K) ltac:(right; rewrite El; by left)) as [r Hr].
      exists (tq_usage r). rewrite Hr. split; [done|]. apply (k_active w t K x); [rewrite El; by left|done]. }
    cbn [mbind option_bind]. rewrite (update_tq_eq _ _ _ q Hq). cbn [mbind option_bind].
    destruct (ok_activate w t tq q u (without tq (idle_tqueues t)) (active_tqueues t) K Hq Hu0) as (l & E & Hl & K').
    + intros x. unfold without. rewrite list_elem_of_filter. tauto.
    + intros x. split; [|tauto]. intros Hx. split; [done|]. intros ->. by apply (idle_not_active w t tq K).
    + pose proof (k_nodup w t K) as Hd. apply NoDup_app in Hd as (D1 & D2 & D3). apply NoDup_app. split; [by apply NoDup_filter|]. split; [|done].
      intros x [_ Hx]%list_elem_of_filter. by apply D2.
    + exact (k_usage w t K).
    + exists (mkTasks (<[tq := set_tq_usage u q]> (tqs t)) (without tq (idle_tqueues t)) l (waiting_tasks t) (next_tq t) (current_task_id t)), (set_tq_usage u q).
      split; [exact E|]. split; [exact K'|]. cbn [tqs active_tqueues waiting_tasks]. rewrite lookup_insert_eq. by destruct q.
  - exists t, q. split; [done|]. split; [done|]. split; [done|]. split; [done|]. split; [|done].
    destruct (proj2 (listed w t tq K) ltac:(by rewrite Hq)) as [H|H]; [|done]. by destruct (k_idle w t K tq q H Hq).
Qed.

(** *** Tasks that wait, and tasks that are ready *)

Lemma insert_by_start_perm x w : insert_by_start x w ≡ₚ x :: w.
Proof. induction w as [|y w IH]; [done|]. cbn [insert_by_start]. destruct (_ <? _); [done|]. rewrite IH. by constructor. Qed.
Lemma insert_by_start_sorted x w : StronglySorted starts_before w -> StronglySorted starts_before (insert_by_start x w).
Proof.
  induction 1 as [|y w Hw IH Hy]; cbn [insert_by_start]; [by repeat constructor|]. destruct (Z.ltb_spec (GET_START_TIME x) (GET_START_TIME y)) as [H|H].
  - constructor; [by constructor|]. constructor; [unfold starts_before; lia|]. eapply Forall_impl; [exact Hy|]. intros z. unfold starts_before. lia.
  - constructor; [done|]. rewrite insert_by_start_perm. by constructor.
Qed.

(** The waiting task [x] goes to an active queue, as [y]. *)
Lemma ok_enqueue_bg w w' t tq q x y : tasks_ok w t -> w ≡ₚ x :: w' -> StronglySorted starts_before w' -> tqs t !! tq = Some q ->
  tq ∈ active_tqueues t -> task_progr x = Some (tq_player q) -> task_progr y = task_progr x ->
  exists t', enqueue_bg_task tq y t = Some t' /\ tasks_ok w' t' /\ waiting_tasks t' = waiting_tasks t.
Proof.
  intros K Hw Hs Hq Ha Hx Hy. unfold enqueue_bg_task. rewrite (update_tq_eq _ _ _ q Hq). eexists. split; [done|]. split; [|done].
  assert (E : tq_player (set_tq_bg (tq_bg q ++ [y]) q) = tq_player q /\ tq_usage (set_tq_bg (tq_bg q ++ [y]) q) = tq_usage q /\
    tq_bg (set_tq_bg (tq_bg q ++ [y]) q) = tq_bg q ++ [y] /\ tq_num_bg_tasks (set_tq_bg (tq_bg q ++ [y]) q) = tq_num_bg_tasks q) by by destruct q.
  destruct E as (E1 & E2 & E3 & E4).
  assert (Hc : forall p, count p w = (if bool_decide (task_progr x = Some p) then 1 else 0) + count p w') by (intros p; by rewrite (count_perm p _ _ Hw), count_cons).
  apply (ok_update w w' t tq q); try done.
  - intros Hi. by destruct (idle_not_active w t tq K).
  - rewrite E3. intros task [H| ->%list_elem_of_singleton]%elem_of_app; [by apply (k_bg w t K tq q)|congruence].
  - rewrite E3, E4, (k_count w t K tq q Hq), length_app, Hc, bool_decide_true by done. cbn [length]. lia.
  - rewrite E4. by apply (k_bound w t K tq q).
  - intros p Hp. rewrite (Hc p), bool_decide_false; [done|]. rewrite Hx. congruence.
  - intros z Hz. left. rewrite Hw. by right.
Qed.

Lemma with_waiting_ok w t : tasks_ok w t -> forall v, tasks_ok w (with_waiting v t).
Proof. intros [] v. by split. Qed.

Lemma enqueue_waiting_ok t x p : tasks_inv t -> few_tasks t -> task_progr x = Some p ->
  exists t', enqueue_waiting x t = Some t' /\ tasks_inv t'.
Proof.
  intros K Hfew Hx. unfold enqueue_waiting. rewrite Hx. cbn [mbind option_bind]. set (w := waiting_tasks t) in *.
  destruct (find_or_create_ok w t p K) as (t1 & tq & q & -> & K1 & Hq & Hp & Hw & Hnew & _). cbn [mbind option_bind].
  rewrite (update_tq_eq _ _ _ q Hq). cbn [mbind option_bind]. eexists. split; [done|]. unfold tasks_inv.
  change (waiting_tasks (with_waiting (insert_by_start x (waiting_tasks (with_tqs ?f t1))) ?t2)) with (insert_by_start x (waiting_tasks t1)).
  rewrite Hw. fold w. apply with_waiting_ok.
  assert (Hn : tq_num_bg_tasks q < INT32_MAX).
  { destruct Hnew as [->| ->]; [by apply (Hfew tq)|unfold INT32_MAX; lia]. }
  assert (H0 : 0 <= tq_num_bg_tasks q) by (rewrite (k_count w t1 K1 tq q Hq); pose proof (count_nonneg (tq_player q) w); lia).
  assert (Hi : int (tq_num_bg_tasks q + 1) = tq_num_bg_tasks q + 1) by (apply int_id; unfold INT32_MIN, INT32_MAX in *; lia).
  set (q' := set_tq_num_bg_tasks (int (tq_num_bg_tasks q + 1)) q).
  assert (E : tq_player q' = tq_player q /\ tq_usage q' = tq_usage q /\ tq_bg q' = tq_bg q /\ tq_num_bg_tasks q' = tq_num_bg_tasks q + 1)
    by (rewrite <- Hi; by destruct q).
  destruct E as (E1 & E2 & E3 & E4).
  assert (Hc : forall p, count p (insert_by_start x w) = (if bool_decide (task_progr x = Some p) then 1 else 0) + count p w)
    by (intros p'; by rewrite (count_perm p' _ _ (insert_by_start_perm x w)), count_cons).
  apply (ok_update w _ t1 tq q); try done.
  - intros Hi'. rewrite E3. by apply (k_idle w t1 K1 tq q).
  - rewrite E3. intros task. by apply (k_bg w t1 K1 tq q).
  - rewrite E3, E4, (k_count w t1 K1 tq q Hq), Hc, bool_decide_true by congruence. lia.
  - rewrite E4. lia.
  - intros p' Hne. rewrite Hc, bool_decide_false; [done|]. congruence.
  - apply insert_by_start_sorted, (k_waiting w t1 K1).
  - intros y Hy. rewrite insert_by_start_perm in Hy. apply elem_of_cons in Hy as [->|Hy]; [right; congruence|by left].
Qed.

(** From the waiting tasks to a queue: find or make it, wake it, put the task in. *)
Lemma ready_one w w' t x p : tasks_ok w t -> w ≡ₚ x :: w' -> StronglySorted starts_before w' -> task_progr x = Some p ->
  exists t1 tq t2 t3, find_or_create_tqueue p t = Some (t1, tq) /\ ensure_usage tq t1 = Some t2 /\
    enqueue_bg_task tq x t2 = Some t3 /\ tasks_ok w' t3 /\ waiting_tasks t3 = waiting_tasks t.
Proof.
  intros K Hw Hs Hx. destruct (find_or_create_ok w t p K) as (t1 & tq & q & E1 & K1 & Hq & Hp & Hw1 & _).
  destruct (ensure_usage_ok w t1 tq q K1 Hq) as (t2 & q2 & E2 & K2 & Hq2 & Hp2 & Ha & Hw2 & _).
  destruct (ok_enqueue_bg w w' t2 tq q2 x x K2 Hw Hs Hq2 Ha ltac:(congruence) eq_refl) as (t3 & E3 & K3 & Hw3).
  exists t1, tq, t2, t3. split; [done|]. split; [done|]. split; [done|]. split; [done|]. congruence.
Qed.
Lemma ready_tasks_ok now : forall w t, tasks_ok w t -> exists t', ready_tasks now w t = Some t' /\ tasks_inv t'.
Proof.
  induction w as [|x w IH]; intros t K; cbn [ready_tasks]; [eexists; split; [done|]; by apply with_waiting_ok|].
  destruct (GET_START_TIME x <=? now); [|eexists; split; [done|]; by apply with_waiting_ok].
  destruct (k_owner _ t K x ltac:(by left)) as (p & _ & _ & Hx & _). rewrite Hx. cbn [mbind option_bind].
  pose proof (k_waiting _ t K) as Hs. apply StronglySorted_cons in Hs as [_ Hs].
  destruct (ready_one (x :: w) w t x p K ltac:(done) Hs Hx) as (t1 & tq & t2 & t3 & -> & E2 & E3 & K3 & _). cbn [mbind option_bind].
  rewrite E2. cbn [mbind option_bind]. rewrite E3. cbn [mbind option_bind]. by apply IH.
Qed.

(** A task leaves a queue. *)
Lemma ok_less_bg w t tq q rest x : tasks_ok w t -> tqs t !! tq = Some q -> tq_bg q ≡ₚ x :: rest ->
  tasks_ok w (with_tqs <[tq := set_tq_num_bg_tasks (int (tq_num_bg_tasks q - 1)) (set_tq_bg rest q)]> t).
Proof.
  intros K Hq Hb. pose proof (k_count w t K tq q Hq) as Hn. pose proof (k_bound w t K tq q Hq) as Hm. pose proof (count_nonneg (tq_player q) w).
  assert (Hl : length (tq_bg q) = S (length rest)) by by rewrite Hb.
  assert (Hi : int (tq_num_bg_tasks q - 1) = tq_num_bg_tasks q - 1) by (apply int_id; unfold INT32_MIN, INT32_MAX in *; lia).
  set (q' := set_tq_num_bg_tasks (int (tq_num_bg_tasks q - 1)) (set_tq_bg rest q)).
  assert (E : tq_player q' = tq_player q /\ tq_usage q' = tq_usage q /\ tq_bg q' = rest /\ tq_num_bg_tasks q' = tq_num_bg_tasks q - 1)
    by (rewrite <- Hi; by destruct q).
  destruct E as (E1 & E2 & E3 & E4). apply (ok_update w w t tq q); try done.
  - intros Hidle. destruct (k_idle w t K tq q Hidle Hq) as [_ E]. rewrite E in Hl. done.
  - rewrite E3. intros task Ht. apply (k_bg w t K tq q); [done|]. rewrite Hb. by right.
  - rewrite E3, E4. lia.
  - lia.
  - exact (k_waiting w t K).
  - by left.
Qed.
(** A waiting task is gone. *)
Lemma ok_less_waiting w w' t tq q x : tasks_ok w t -> tqs t !! tq = Some q -> w ≡ₚ x :: w' -> StronglySorted starts_before w' ->
  task_progr x = Some (tq_player q) -> tasks_ok w' (with_tqs <[tq := set_tq_num_bg_tasks (int (tq_num_bg_tasks q - 1)) q]> t).
Proof.
  intros K Hq Hw Hs Hx. pose proof (k_count w t K tq q Hq) as Hn. pose proof (k_bound w t K tq q Hq) as Hm.
  assert (Hc : forall p, count p w = (if bool_decide (task_progr x = Some p) then 1 else 0) + count p w') by (intros p; by rewrite (count_perm p _ _ Hw), count_cons).
  pose proof (Hc (tq_player q)) as Hc'. rewrite bool_decide_true in Hc' by done. pose proof (count_nonneg (tq_player q) w').
  assert (Hi : int (tq_num_bg_tasks q - 1) = tq_num_bg_tasks q - 1) by (apply int_id; unfold INT32_MIN, INT32_MAX in *; lia).
  set (q' := set_tq_num_bg_tasks (int (tq_num_bg_tasks q - 1)) q).
  assert (E : tq_player q' = tq_player q /\ tq_usage q' = tq_usage q /\ tq_bg q' = tq_bg q /\ tq_num_bg_tasks q' = tq_num_bg_tasks q - 1)
    by (rewrite <- Hi; by destruct q).
  destruct E as (E1 & E2 & E3 & E4). apply (ok_update w w' t tq q); try done.
  - intros Hidle. rewrite E3. by apply (k_idle w t K tq q).
  - rewrite E3. intros task. by apply (k_bg w t K tq q).
  - rewrite E3, E4. lia.
  - lia.
  - intros p Hp. rewrite Hc, bool_decide_false; [done|]. rewrite Hx. congruence.
  - intros y Hy. left. rewrite Hw. by right.
Qed.
Lemma take_first_spec {A} (p : A -> bool) : forall l x rest, take_first p l = Some (x, rest) ->
  exists l1 l2, l = l1 ++ x :: l2 /\ rest = l1 ++ l2 /\ p x = true.
Proof.
  induction l as [|y l IH]; intros x rest H; [done|]. cbn [take_first] in H. destruct (p y) eqn:Ey.
  - injection H as <- <-. by exists [], l.
  - destruct (take_first p l) as [[z r]|]; [|done]. injection H as <- <-. destruct (IH z r eq_refl) as (l1 & l2 & -> & -> & Hp). by exists (y :: l1), l2.
Qed.
Lemma sorted_without {A} (R : A -> A -> Prop) l1 x l2 : StronglySorted R (l1 ++ x :: l2) -> StronglySorted R (l1 ++ l2).
Proof.
  intros (H1 & H2 & H3)%StronglySorted_app. apply StronglySorted_cons in H3 as [_ H3]. apply StronglySorted_app. split; [|done].
  intros y z Hy Hz. apply H1; [done|by right].
Qed.

(** *** The operations *)

Lemma queues_ok w t l : tasks_ok w t -> (forall x, x ∈ l -> is_Some (tqs t !! x)) ->
  exists ql, queues t l = Some ql /\ Forall (fun xq => tqs t !! fst xq = Some (snd xq)) ql.
Proof.
  intros K. induction l as [|x l IH]; intros H; [by exists []|]. destruct (H x ltac:(by left)) as [q Hq].
  destruct IH as (ql & E & Hql); [intros y Hy; apply H; by right|]. exists ((x, q) :: ql). split; [|by constructor].
  unfold queues in *. cbn [mapM mbind]. unfold mapM in E |- *. cbn. rewrite Hq. cbn. by rewrite E.
Qed.
Lemma reading_keeps r : keeps (set_tq_reading r).
Proof. by intros []. Qed.

Lemma kill_in_queues_ok w id wizard owner bg t : tasks_ok w t -> forall l, Forall (fun xq => tqs t !! fst xq = Some (snd xq)) l ->
  exists r, kill_in_queues id wizard owner bg l t = Some r /\
    match r with Some (t', _) => tasks_ok w t' /\ waiting_tasks t' = waiting_tasks t | None => True end.
Proof.
  intros K. induction l as [|[tq q] l IH]; intros H; [by exists None|]. apply Forall_cons in H as [Hq H]. cbn [fst snd] in Hq. cbn [kill_in_queues].
  destruct (is_reading id q).
  - destruct (wizard || (owner =? tq_player q)); [|by eexists]. destruct (ok_fields w t tq (set_tq_reading None) K ltac:(by rewrite Hq) (reading_keeps _)) as (t' & E & K').
    rewrite E. cbn [mbind option_bind]. eexists. split; [done|]. split; [done|]. unfold update_tq in E. rewrite Hq in E. by injection E as <-.
  - destruct (if bg then take_first _ (tq_bg q) else None) as [[x rest]|] eqn:Et; [|by apply IH].
    destruct bg; [|done]. apply take_first_spec in Et as (l1 & l2 & Eb & -> & _). destruct (wizard || (owner =? tq_player q)); [|by eexists].
    rewrite (update_tq_eq _ _ _ q Hq). cbn [mbind option_bind]. eexists. split; [done|]. split; [|done].
    apply (ok_less_bg w t tq q (l1 ++ l2) x K Hq). by rewrite Eb, Permutation_middle.
Qed.
Lemma kill_task_ok id owner d t : tasks_inv t -> exists t' e, kill_task id owner d t = Some (t', e) /\ tasks_inv t'.
Proof.
  intros K. unfold kill_task. destruct (id =? current_task_id t); [by exists t, E_NONE|].
  destruct (take_first _ (waiting_tasks t)) as [[x rest]|] eqn:Et.
  - apply take_first_spec in Et as (l1 & l2 & Ew & -> & _). destruct (k_owner _ t K x) as (p & y & q & Hx & Hq & Hp); [rewrite Ew; apply elem_of_app; right; by left|].
    rewrite Hx. cbn [mbind option_bind]. destruct (negb _ && negb _); [by exists t, E_PERM|].
    destruct (find_tqueue_spec _ t p K) as [(tq & r & -> & Hr & Hpr)|[_ Hn]]; [|by destruct (Hn y q Hq)]. cbn [mbind option_bind].
    rewrite (update_tq_eq _ _ _ r Hr). cbn [mbind option_bind]. eexists _, _. split; [done|]. apply with_waiting_ok.
    change (waiting_tasks (with_waiting ?v ?u)) with v. apply (ok_less_waiting (waiting_tasks t) (l1 ++ l2) t tq r x K Hr).
    + by rewrite Ew, Permutation_middle.
    + apply (sorted_without _ _ x). rewrite <- Ew. exact (k_waiting _ t K).
    + congruence.
  - destruct (queues_ok _ t (idle_tqueues t) K) as (ql & -> & Hql); [intros x Hx; apply (listed _ t x K); by left|]. cbn [mbind option_bind].
    destruct (kill_in_queues_ok _ id (is_wizard d owner) owner false t K ql Hql) as (r & -> & Hr). cbn [mbind option_bind].
    destruct r as [[t' e]|]; [exists t', e; split; [done|]; destruct Hr as [Hr Hw]; unfold tasks_inv; by rewrite Hw|].
    destruct (queues_ok _ t (active_tqueues t) K) as (ql2 & -> & Hql2); [intros x Hx; apply (listed _ t x K); by right|]. cbn [mbind option_bind].
    destruct (kill_in_queues_ok _ id (is_wizard d owner) owner true t K ql2 Hql2) as (r & -> & Hr2). cbn [mbind option_bind].
    destruct r as [[t' e]|]; [exists t', e; split; [done|]; destruct Hr2 as [Hr2 Hw]; unfold tasks_inv; by rewrite Hw|by exists t, E_INVARG].
Qed.

Lemma set_value_progr start value x : task_progr (set_value start value x) = task_progr x.
Proof. by destruct x. Qed.
Lemma update_first_spec {A} (p : A -> bool) f : forall l, update_first p f l = l \/
  exists l1 x l2, l = l1 ++ x :: l2 /\ update_first p f l = l1 ++ f x :: l2.
Proof.
  induction l as [|y l IH]; [by left|]. cbn [update_first]. destruct (p y); [right; by exists [], y, l|].
  destruct IH as [->|(l1 & x & l2 & -> & ->)]; [by left|right; by exists (y :: l1), x, l2].
Qed.
Lemma resume_in_queues_ok w id value wizard progr t : tasks_ok w t -> forall l, Forall (fun xq => tqs t !! fst xq = Some (snd xq)) l ->
  exists t' e, resume_in_queues id value wizard progr l t = Some (t', e) /\ tasks_ok w t' /\ waiting_tasks t' = waiting_tasks t.
Proof.
  intros K. induction l as [|[tq q] l IH]; intros H; [by exists t, E_INVARG|]. apply Forall_cons in H as [Hq H]. cbn [fst snd] in Hq. cbn [resume_in_queues].
  destruct (existsb _ (tq_bg q)); [|by apply IH]. destruct (negb _ && negb _); [by exists t, E_PERM|].
  rewrite (update_tq_eq _ _ _ q Hq). cbn [mbind option_bind]. eexists _, _. split; [done|]. split; [|done].
  set (bg := update_first (is_suspended id) (set_value None value) (tq_bg q)).
  assert (E : tq_player (set_tq_bg bg q) = tq_player q /\ tq_usage (set_tq_bg bg q) = tq_usage q /\ tq_bg (set_tq_bg bg q) = bg /\
    tq_num_bg_tasks (set_tq_bg bg q) = tq_num_bg_tasks q) by by destruct q. destruct E as (E1 & E2 & E3 & E4).
  assert (Hbg : length bg = length (tq_bg q) /\ forall y, y ∈ bg -> exists y', y' ∈ tq_bg q /\ task_progr y = task_progr y').
  { unfold bg. destruct (update_first_spec (is_suspended id) (set_value None value) (tq_bg q)) as [->|(l1 & x & l2 & E & ->)]; [split; [done|]; by eauto|].
    rewrite E. split; [by rewrite !length_app|]. intros y Hy. rewrite elem_of_app, elem_of_cons in Hy. destruct Hy as [Hy|[->|Hy]].
    - exists y. split; [apply elem_of_app; by left|done].
    - exists x. split; [apply elem_of_app; right; by left|apply set_value_progr].
    - exists y. split; [apply elem_of_app; right; by right|done]. }
  destruct Hbg as [Hlen Hin]. apply (ok_update w w t tq q); try done.
  - intros Hi. rewrite E3. destruct (k_idle w t K tq q Hi Hq) as [_ E]. rewrite E in Hlen. by destruct bg.
  - rewrite E3. intros task Ht. destruct (Hin task Ht) as (y & Hy & ->). by apply (k_bg w t K tq q).
  - rewrite E3, E4, Hlen. by apply (k_count w t K tq q).
  - rewrite E4. by apply (k_bound w t K tq q).
  - exact (k_waiting w t K).
  - by left.
Qed.
Lemma do_resume_ok id value progr d now t : tasks_inv t -> exists t' e, do_resume id value progr d now t = Some (t', e) /\ tasks_inv t'.
Proof.
  intros K. unfold do_resume. destruct (take_first _ (waiting_tasks t)) as [[x rest]|] eqn:Et.
  - apply take_first_spec in Et as (l1 & l2 & Ew & -> & _). destruct (k_owner _ t K x) as (p & y & q & Hx & Hq & Hp); [rewrite Ew; apply elem_of_app; right; by left|].
    rewrite Hx. cbn [mbind option_bind]. destruct (negb _ && negb _); [by exists t, E_PERM|].
    destruct (find_or_create_ok _ t p K) as (t1 & tq & r & -> & K1 & Hr & Hpr & Hw1 & _). cbn [mbind option_bind].
    pose proof (with_waiting_ok _ _ K1 (l1 ++ l2)) as K1'.
    destruct (ensure_usage_ok _ (with_waiting (l1 ++ l2) t1) tq r K1' Hr) as (t2 & r2 & -> & K2 & Hr2 & Hp2 & Ha & Hw2 & _). cbn [mbind option_bind].
    assert (Hs : StronglySorted starts_before (l1 ++ l2)) by (apply (sorted_without _ _ x); rewrite <- Ew; exact (k_waiting _ t K)).
    destruct (ok_enqueue_bg _ (l1 ++ l2) t2 tq r2 x (set_value (Some now) value x) K2) as (t3 & -> & K3 & Hw3);
      [by rewrite Ew, Permutation_middle|done|done|done|congruence|apply set_value_progr|].
    cbn [mbind option_bind]. exists t3, E_NONE. split; [done|]. unfold tasks_inv. by rewrite Hw3, Hw2.
  - destruct (queues_ok _ t (active_tqueues t) K) as (ql2 & -> & Hql2); [intros x Hx; apply (listed _ t x K); by right|]. cbn [mbind option_bind].
    destruct (resume_in_queues_ok _ id value (is_wizard d progr) progr t K ql2 Hql2) as (t' & e & E & K' & Hw). exists t', e. split; [done|].
    unfold tasks_inv. by rewrite Hw.
Qed.

Lemma make_reading_ok the_vm player t : tasks_inv t -> exists t' e, make_reading_task the_vm player t = Some (t', e) /\ tasks_inv t'.
Proof.
  intros K. unfold make_reading_task. destruct (find_tqueue_spec _ t player K) as [(tq & q & -> & Hq & _)|[-> _]]; cbn [mbind option_bind]; [|by exists t, E_INVARG].
  rewrite Hq. cbn [mbind option_bind]. destruct (_ || _); [by exists t, E_INVARG|].
  destruct (ok_fields _ t tq (set_tq_reading (Some the_vm)) K ltac:(by rewrite Hq) (reading_keeps _)) as (t1 & E & K1). rewrite E. cbn [mbind option_bind].
  rewrite (update_tq_eq _ _ _ q Hq) in E. injection E as <-. destruct (negb _); [|by eexists _, _].
  destruct (ensure_usage_ok _ _ tq (set_tq_reading (Some the_vm) q) K1) as (t2 & q2 & -> & K2 & _ & _ & _ & Hw2 & _); [apply lookup_insert_eq|].
  cbn [mbind option_bind]. eexists _, _. split; [done|]. unfold tasks_inv. rewrite Hw2. exact K2.
Qed.

Lemma enqueue_suspended_ok the_vm seconds d now t progr : tasks_inv t -> few_tasks t -> progr_of_cur_verb the_vm = Some progr ->
  is_Some (check_user_task_limit progr d t) -> exists t' e, enqueue_suspended_task the_vm seconds d now t = Some (t', e) /\ tasks_inv t'.
Proof.
  intros K Hf Hp [ok Hok]. unfold enqueue_suspended_task. rewrite Hp. cbn [mbind option_bind]. rewrite Hok. cbn [mbind option_bind].
  destruct ok; [|by exists t, E_QUOTA].
  match goal with |- context [enqueue_waiting ?x t] => destruct (enqueue_waiting_ok t x progr K Hf Hp) as (t' & -> & K') end.
  cbn [mbind option_bind]. by exists t', E_NONE.
Qed.

(** *** Freeing queues *)

Lemma free_ok w t tq q : tasks_ok w t -> tqs t !! tq = Some q -> tq ∈ idle_tqueues t -> tq_num_bg_tasks q = 0 -> tasks_ok w (free_tqueue tq t).
Proof.
  intros K Hq Hi Hn. unfold free_tqueue, with_tqueues, with_tqs. cbn [tqs idle_tqueues active_tqueues waiting_tasks next_tq current_task_id].
  assert (Hc : count (tq_player q) w = 0).
  { pose proof (k_count w t K tq q Hq) as H. pose proof (count_nonneg (tq_player q) w). lia. }
  assert (Hl : forall x r, delete tq (tqs t) !! x = Some r -> x <> tq /\ tqs t !! x = Some r) by (intros x r [? ?]%lookup_delete_Some; done).
  assert (Hna : tq ∉ active_tqueues t) by (intros Ha; by apply (idle_not_active w t tq K)).
  split; cbn [tqs idle_tqueues active_tqueues next_tq].
  - pose proof (k_nodup w t K) as Hd. apply NoDup_app in Hd as (D1 & D2 & D3). apply NoDup_app. split; [by apply NoDup_filter|]. split; [|done].
    intros x [_ Hx]%list_elem_of_filter. by apply D2.
  - intros x. rewrite elem_of_app. unfold without. rewrite list_elem_of_filter, lookup_delete_is_Some, <- (listed w t x K). split.
    + intros [[Hne Hx]|Hx]; [by split; [|left]|]. split; [|by right]. intros <-. done.
    + intros [Hne [Hx|Hx]]; [left; by split|by right].
  - intros x [r [_ H]%Hl]. apply (k_fresh w t K). by rewrite H.
  - intros x r [_ Hx]%list_elem_of_filter [_ H]%Hl. by apply (k_idle w t K x).
  - intros x r Hx [_ H]%Hl. by apply (k_active w t K x).
  - eapply sorted_ext; [|exact (k_usage w t K)]. intros x y Hx Hy. unfold used_less, usage_of.
    rewrite !lookup_delete_ne; [done| |]; by intros <-.
  - intros x y r1 r2 [_ H1]%Hl [_ H2]%Hl. by apply (k_players w t K x y).
  - exact (k_waiting w t K).
  - intros task Ht. destruct (k_owner w t K task Ht) as (p & x & r & H1 & H2 & H3). exists p, x, r. split; [done|]. split; [|done].
    rewrite lookup_delete_ne; [done|]. intros <-. assert (r = q) as -> by congruence.
    assert (Hpos : 1 <= count p w); [|rewrite <- H3 in Hpos; lia]. unfold count.
    assert (Hin : task ∈ filter (fun x => task_progr x = Some p) w) by by apply list_elem_of_filter.
    destruct (filter _ w); [by apply elem_of_nil in Hin|cbn [length]; lia].
  - intros x r task [_ H]%Hl. by apply (k_bg w t K x).
  - intros x r [_ H]%Hl. by apply (k_count w t K x).
  - intros x r [_ H]%Hl. by apply (k_bound w t K x).
Qed.
Lemma free_dead_ok w : forall l t, tasks_ok w t -> NoDup l -> (forall x, x ∈ l -> x ∈ idle_tqueues t) ->
  exists t', free_dead_queues l t = Some t' /\ tasks_ok w t' /\ waiting_tasks t' = waiting_tasks t.
Proof.
  induction l as [|tq l IH]; intros t K Hd Hin; [by exists t|]. apply NoDup_cons in Hd as [Hn Hd]. cbn [free_dead_queues].
  assert (Hi : tq ∈ idle_tqueues t) by (apply Hin; by left). destruct (proj1 (listed w t tq K) (or_introl Hi)) as [q Hq]. rewrite Hq. cbn [mbind option_bind].
  destruct (negb (tq_connected q) && (first_input (tq_input q) =? 0) && (tq_num_bg_tasks q =? 0)) eqn:Ed.
  - apply andb_prop in Ed as [_ Ed]. apply Z.eqb_eq in Ed. destruct (IH (free_tqueue tq t)) as (t' & E & K' & Hw); [by eapply free_ok|done| |].
    + intros x Hx. unfold free_tqueue, with_tqueues, without. cbn [idle_tqueues]. apply list_elem_of_filter. split; [by intros ->|]. apply Hin. by right.
    + by exists t'.
  - destruct (IH t K Hd) as (t' & E & K' & Hw); [intros x Hx; apply Hin; by right|]. by exists t'.
Qed.

(** *** The first active queue *)

Lemma behind_first tq l : behind tq (tq :: l) = l.
Proof. cbn [behind]. by rewrite Z.eqb_refl. Qed.
Lemma first_active w t tq l : tasks_ok w t -> active_tqueues t = tq :: l -> exists q, tqs t !! tq = Some q /\ tq ∉ idle_tqueues t /\ tq ∉ l.
Proof.
  intros K E. assert (Ha : tq ∈ active_tqueues t) by (rewrite E; by left). destruct (proj1 (listed w t tq K) (or_intror Ha)) as [q Hq].
  exists q. split; [done|]. split; [intros Hi; by apply (idle_not_active w t tq K)|].
  pose proof (k_nodup w t K) as Hd. apply NoDup_app in Hd as (_ & _ & Hd). rewrite E in Hd. by apply NoDup_cons in Hd as [? _].
Qed.

Lemma dequeue_ok t tq : tasks_inv t -> head (active_tqueues t) = Some tq -> exists t' task, dequeue_bg_task tq t = Some (t', task) /\ tasks_inv t'.
Proof.
  intros K Hh. destruct (active_tqueues t) as [|x l] eqn:E; [done|]. injection Hh as ->. destruct (first_active _ t tq l K E) as (q & Hq & _).
  unfold dequeue_bg_task. rewrite Hq. cbn [mbind option_bind]. destruct (tq_bg q) as [|task rest] eqn:Eb; [by exists t, None|].
  rewrite (update_tq_eq _ _ _ q Hq). cbn [mbind option_bind]. eexists _, _. split; [done|]. unfold tasks_inv. cbn [waiting_tasks with_tqs].
  apply (ok_less_bg _ t tq q rest task K Hq). by rewrite Eb.
Qed.
Lemma used_ok t took : tasks_inv t -> active_tqueues t <> [] -> 0 <= took -> (forall x q, tqs t !! x = Some q -> tq_usage q + took <= INT32_MAX) ->
  exists t', perform (Op_used took) t = Some t' /\ tasks_inv t'.
Proof.
  intros K Hne Ht Hmax. cbn [perform]. destruct (active_tqueues t) as [|tq l] eqn:E; [done|]. cbn [head mbind option_bind].
  destruct (first_active _ t tq l K E) as (q & Hq & Hni & Hnl). rewrite behind_first, (update_tq_eq _ _ (with_tqueues (idle_tqueues t) l t) q Hq). cbn [mbind option_bind].
  assert (Hu : 0 <= tq_usage q) by (apply (k_active _ t K tq); [rewrite E; by left|done]). specialize (Hmax tq q Hq).
  assert (Hi : int (tq_usage q + took) = tq_usage q + took) by (apply int_id; unfold INT32_MIN, INT32_MAX in *; lia). rewrite Hi.
  destruct (ok_activate _ t tq q (tq_usage q + took) (idle_tqueues t) l K Hq ltac:(lia)) as (l' & Ea & _ & K').
  - intros x. split; [|tauto]. intros Hx. split; [done|]. by intros ->.
  - intros x. rewrite E, elem_of_cons. split; [|naive_solver]. intros Hx. split; [by right|]. by intros ->.
  - pose proof (k_nodup _ t K) as Hd. rewrite E, <- Permutation_middle in Hd. by apply NoDup_cons in Hd as [_ ?].
  - pose proof (k_usage _ t K) as Hs. rewrite E in Hs. by apply StronglySorted_cons in Hs as [_ ?].
  - eexists. split; [exact Ea|]. exact K'.
Qed.
Lemma retire_ok t tq q : tasks_inv t -> head (active_tqueues t) = Some tq -> tqs t !! tq = Some q -> tq_bg q = [] ->
  exists t', perform Op_retire t = Some t' /\ tasks_inv t'.
Proof.
  intros K Hh Hq Hbg. cbn [perform]. destruct (active_tqueues t) as [|x l] eqn:E; [done|]. injection Hh as ->. cbn [head mbind option_bind].
  destruct (first_active _ t tq l K E) as (q' & Hq' & Hni & Hnl). assert (q' = q) as -> by congruence. unfold deactivate_tqueue.
  rewrite behind_first, (update_tq_eq _ _ (with_tqueues (idle_tqueues t) l t) q Hq). cbn [mbind option_bind]. eexists. split; [done|].
  unfold tasks_inv, with_tqueues, with_tqs. cbn [tqs idle_tqueues active_tqueues waiting_tasks next_tq current_task_id]. set (w := waiting_tasks t) in *.
  pose proof (with_usage t tq q NO_USAGE Hq) as Hl.
  split; cbn [tqs idle_tqueues active_tqueues next_tq].
  - pose proof (k_nodup _ t K) as Hd. rewrite E in Hd. cbn [app]. by rewrite <- Permutation_middle in Hd.
  - intros x. rewrite lookup_insert_is_Some', <- (k_listed w t K x), E, !elem_of_app, !elem_of_cons. naive_solver.
  - intros x [r H]. destruct (Hl x r H) as (r0 & H0 & _). apply (k_fresh w t K). by rewrite H0.
  - intros x r Hx H. destruct (Hl x r H) as (r0 & H0 & _ & Eb & _ & E1 & E2). destruct (decide (x = tq)) as [->|Hne].
    + rewrite E2, Eb by done. split; [done|]. congruence.
    + rewrite E1 by done. apply elem_of_cons in Hx as [->|Hx]; [done|]. by apply (k_idle w t K x).
  - intros x r Hx H. destruct (Hl x r H) as (r0 & H0 & _ & _ & _ & E1 & _). rewrite E1 by (by intros ->). apply (k_active w t K x); [rewrite E; by right|done].
  - pose proof (k_usage w t K) as Hs. rewrite E in Hs. apply StronglySorted_cons in Hs as [_ Hs]. eapply sorted_ext; [|exact Hs].
    intros x y Hx Hy. unfold used_less, usage_of. rewrite !lookup_insert_ne; [done| |]; by intros <-.
  - intros x y r1 r2 H1 H2 He. destruct (Hl x r1 H1) as (r3 & H3 & E3 & _), (Hl y r2 H2) as (r4 & H4 & E4 & _). apply (k_players w t K x y r3 r4 H3 H4). congruence.
  - exact (k_waiting w t K).
  - intros task Ht. destruct (k_owner w t K task Ht) as (p & x & r & H1 & H2 & H3). destruct (decide (x = tq)) as [->|Hne].
    + exists p, tq, (set_tq_usage NO_USAGE q). rewrite lookup_insert_eq. split; [done|]. split; [done|]. assert (r = q) as -> by congruence. by destruct q.
    + exists p, x, r. by rewrite lookup_insert_ne.
  - intros x r task H Ht. destruct (Hl x r H) as (r0 & H0 & Ep & Eb & _). rewrite Ep. apply (k_bg w t K x); [done|by rewrite <- Eb].
  - intros x r H. destruct (Hl x r H) as (r0 & H0 & Ep & Eb & En & _). rewrite Ep, Eb, En. by apply (k_count w t K x).
  - intros x r H. destruct (Hl x r H) as (r0 & H0 & _ & _ & En & _). rewrite En. by apply (k_bound w t K x).
Qed.

(** *** Logging in *)

Lemma ok_player w t tq q player : tasks_ok w t -> tqs t !! tq = Some q -> tq_num_bg_tasks q = 0 ->
  (forall x r, tqs t !! x = Some r -> tq_player r <> player) -> tasks_ok w (with_tqs <[tq := set_tq_player player q]> t).
Proof.
  intros K Hq Hz Hnew. pose proof (k_count w t K tq q Hq) as Hc. rewrite Hz in Hc. pose proof (count_nonneg (tq_player q) w).
  assert (Hb : tq_bg q = []) by (destruct (tq_bg q); [done|cbn [length] in Hc; lia]).
  assert (Hp : count player w = 0).
  { apply count_none. intros x Hx He. destruct (k_owner w t K x Hx) as (p & y & r & H1 & H2 & H3). apply (Hnew y r H2). congruence. }
  assert (Hl : forall x r, (<[tq := set_tq_player player q]> (tqs t)) !! x = Some r ->
    (x = tq /\ r = set_tq_player player q) \/ (x <> tq /\ tqs t !! x = Some r)).
  { intros x r H'. destruct (decide (x = tq)) as [->|Hne]; [left; rewrite lookup_insert_eq in H'; by injection H' as <-|right; by rewrite lookup_insert_ne in H']. }
  assert (Hf : tq_player (set_tq_player player q) = player /\ tq_usage (set_tq_player player q) = tq_usage q /\
    tq_bg (set_tq_player player q) = [] /\ tq_num_bg_tasks (set_tq_player player q) = 0) by by destruct q.
  destruct Hf as (F1 & F2 & F3 & F4).
  split; change (tqs (with_tqs <[tq := set_tq_player player q]> t)) with (<[tq := set_tq_player player q]> (tqs t)); try exact (k_nodup w t K).
  - intros x. rewrite lookup_insert_is_Some', (k_listed w t K x). split; [tauto|]. intros [<-|H']; [by rewrite Hq|done].
  - intros x [r Hx]. apply (k_fresh w t K). destruct (Hl x r Hx) as [[-> _]|[_ H']]; [by rewrite Hq|by rewrite H'].
  - intros x r Hx H'. destruct (Hl x r H') as [[-> ->]|[_ H'']]; [|by apply (k_idle w t K x r)]. rewrite F2, F3. split; [|done]. by apply (k_idle w t K tq q).
  - intros x r Hx H'. destruct (Hl x r H') as [[-> ->]|[_ H'']]; [|by apply (k_active w t K x r)]. rewrite F2. by apply (k_active w t K tq q).
  - eapply sorted_ext; [|exact (k_usage w t K)]. intros x y _ _. unfold used_less. by rewrite !(usage_insert _ _ q) by done.
  - intros x y r1 r2 H1 H2 He. destruct (Hl x r1 H1) as [[-> ->]|[_ G1]], (Hl y r2 H2) as [[-> ->]|[_ G2]]; try done.
    + destruct (Hnew y r2 G2). congruence.
    + destruct (Hnew x r1 G1). congruence.
    + by apply (k_players w t K x y r1 r2).
  - exact (k_waiting w t K).
  - intros task Ht. destruct (k_owner w t K task Ht) as (p & x & r & H1 & H2 & H3). exists p, x, r. split; [done|]. split; [|done].
    rewrite lookup_insert_ne; [done|]. intros <-. assert (r = q) as -> by congruence.
    assert (Hin : task ∈ filter (fun x => task_progr x = Some (tq_player q)) w) by (apply list_elem_of_filter; by rewrite H3).
    unfold count in Hc, H. destruct (filter _ w); [by apply elem_of_nil in Hin|cbn [length] in Hc; lia].
  - intros x r task H' Ht. destruct (Hl x r H') as [[-> ->]|[_ H'']]; [|by apply (k_bg w t K x r)]. rewrite F3 in Ht. by apply elem_of_nil in Ht.
  - intros x r H'. destruct (Hl x r H') as [[-> ->]|[_ H'']]; [|by apply (k_count w t K x r)]. by rewrite F1, F3, F4, Hp.
  - intros x r H'. destruct (Hl x r H') as [[-> ->]|[_ H'']]; [|by apply (k_bound w t K x r)]. rewrite F4. unfold INT32_MAX. lia.
Qed.

Lemma login_ok s t tq q new_player old : tasks_inv t -> tqs t !! tq = Some q -> tq_num_bg_tasks q = 0 ->
  (forall x r, tqs t !! x = Some r -> tq_player r <> new_player) ->
  exists t', perform (Op_login s tq new_player old) t = Some t' /\ tasks_inv t'.
Proof.
  intros K Hq Hz Hnew. exists (with_tqs <[tq := set_tq_player new_player q]> t). split; [|exact (ok_player _ t tq q new_player K Hq Hz Hnew)]. cbn [perform].
  destruct (find_tqueue_spec _ t new_player K) as [(x & r & _ & H & Hp)|[E _]]; [by destruct (Hnew x r H)|].
  unfold login, get_tq, put_tq, update_tasks, update_tq, lift, vget, vmodify, mbind, V_bind, mret, V_ret.
  destruct s. cbn. rewrite Hq. cbn. rewrite E. cbn. rewrite Hq. cbn. by rewrite Hz.
Qed.

(** *** Every operation *)

Lemma no_tasks_inv : tasks_inv no_tasks.
Proof.
  assert (H : forall x q, tqs no_tasks !! x <> Some q) by (intros x q; cbn; by rewrite lookup_empty).
  split; try (by intros x q Hq; destruct (H x q)); try (by intros x [q Hq]; destruct (H x q)); try (by intros x q ?%elem_of_nil); try by constructor.
  - intros x. split; [by intros ?%elem_of_nil|]. intros [q Hq]. by destruct (H x q).
  - intros x y q r Hq. by destruct (H x q).
  - by intros x ?%elem_of_nil.
  - intros x q task Hq. by destruct (H x q).
Qed.

Lemma perform_ok op t : tasks_inv t -> allowed op t -> exists t', perform op t = Some t' /\ tasks_inv t'.
Proof.
  intros K Ha. destruct op; cbn [allowed] in Ha.
  - destruct (find_or_create_ok _ t player K) as (t' & x & q & E & K' & _ & _ & Hw & _). exists t'. cbn [perform]. rewrite E.
    split; [done|]. unfold tasks_inv. by rewrite Hw.
  - destruct Ha as [Hs Hf]. destruct (ok_fields _ t tq f K Hs Hf) as (t' & E & K'). exists t'. split; [done|]. destruct Hs as [q Hq].
    rewrite (update_tq_eq _ _ _ q Hq) in E. by injection E as <-.
  - destruct Ha as [q Hq]. destruct (ensure_usage_ok _ t tq q K Hq) as (t' & q' & E & K' & _ & _ & _ & Hw & _). exists t'. split; [done|].
    unfold tasks_inv. by rewrite Hw.
  - cbn [perform]. unfold enqueue_ft. by eapply (enqueue_waiting_ok t _ _ K Ha).
  - destruct Ha as (Hf & [p Hp] & Hc). destruct (enqueue_suspended_ok the_vm seconds d now t p K Hf Hp (Hc p Hp)) as (t' & e & E & K').
    exists t'. cbn [perform]. by rewrite E.
  - destruct (make_reading_ok the_vm player t K) as (t' & e & E & K'). exists t'. cbn [perform]. by rewrite E.
  - by apply ready_tasks_ok.
  - cbn [perform]. destruct (active_tqueues t) as [|tq l] eqn:El; [done|]. cbn [head mbind option_bind].
    destruct (dequeue_ok t tq K) as (t' & task & E & K'); [by rewrite El|]. exists t'. by rewrite E.
  - destruct Ha as (Hne & H0 & Hm). by apply used_ok.
  - destruct Ha as (tq & q & Hh & Hq & Hb). by apply (retire_ok t tq q).
  - pose proof (k_nodup _ t K) as Hd. apply NoDup_app in Hd as (Hd & _).
    destruct (free_dead_ok _ (idle_tqueues t) t K Hd) as (t' & E & K' & Hw); [done|]. exists t'. split; [done|]. unfold tasks_inv. by rewrite Hw.
  - destruct (kill_task_ok id owner d t K) as (t' & e & E & K'). exists t'. cbn [perform]. by rewrite E.
  - destruct (do_resume_ok id value progr d now t K) as (t' & e & E & K'). exists t'. cbn [perform]. by rewrite E.
  - destruct Ha as [(q & Hq & Hz) Hnew]. by apply (login_ok _ t tq q).
Qed.

Lemma after_reachable op t : tasks_reachable t -> allowed op t -> tasks_reachable (after op t).
Proof. intros H Ha. unfold after. destruct (perform op t) as [t'|] eqn:E; [by eapply next_tasks|constructor]. Qed.

(** ** Theorems *)

(** C5: whatever happens to the task queues by the operations of [task_op], in any order,
    they stay consistent and no operation fails: every queue is on one of the two lists, once; no two belong to one player; an idle
    queue has nothing to run, so that no ready task is forgotten; active queues are ordered
    by usage, so that the player who used least comes first; waiting tasks are ordered by time, and each
    is charged to a queue; a queue counts exactly the background tasks of its
    player, ready and waiting.  The operations are connecting, input, forks, suspensions,
    reads, kills, resume(), the steps of [run_ready_tasks], and logging in for a player
    who has no queue yet from a connection without background tasks.  Not among them, because they
    break the invariant, are [resume_task] of tasks.c, which only the experiments call and which does not
    count ([resume_task_miscounts]), and logging in from a connection that has background tasks, which
    leaves those that are ready in an idle queue ([login_forgets]); nor is logging in
    for a player who has a queue, after which two queues that wait to be freed can be NOTHING's. *)
Theorem tasks_invariant (t : tasks) : tasks_reachable t -> tasks_inv t /\ forall op, allowed op t -> is_Some (perform op t).
Proof.
  intros H. assert (K : tasks_inv t).
  { induction H as [|op t t' _ IH Ha E]; [exact no_tasks_inv|]. destruct (perform_ok op t IH Ha) as (t2 & E2 & K). congruence. }
  split; [done|]. intros op Ha. destruct (perform_ok op t K Ha) as (t' & E & _). by rewrite E.
Qed.

Lemma tasks_invariant_witness : tasks_reachable sample_tasks /\ tasks_inv sample_tasks.
Proof.
  assert (H : tasks_reachable sample_tasks).
  { assert (E : tqs (after (Op_queue 2) no_tasks) = <[1 := set_tq_usage NO_USAGE (new_tqueue 2)]> (<[1 := new_tqueue 2]> (∅ : gmap Z tqueue)))
      by (vm_compute; reflexivity).
    apply after_reachable; [|done]. apply after_reachable; [|vm_compute; by eexists].
    apply after_reachable; [by apply after_reachable; [constructor|]|].
    intros x q Hx. rewrite E, insert_insert_eq in Hx. apply lookup_insert_Some in Hx as [[_ <-]|[_ Hx]]; [done|by rewrite lookup_empty in Hx]. }
  split; [exact H|]. exact (proj1 (tasks_invariant sample_tasks H)).
Defined.

(** A task that [resume_task] queues is not counted. *)
Lemma resume_task_miscounts : exists t', tasks_reachable (after (Op_queue 7) no_tasks) /\
  resume_task some_vm zero (after (Op_queue 7) no_tasks) = Some t' /\ ~ tasks_inv t'.
Proof.
  eexists. split; [by apply after_reachable; [constructor|]|]. split; [vm_compute; reflexivity|].
  intros K. pose proof (k_count _ _ K 1 _ eq_refl) as H. vm_compute in H. discriminate H.
Qed.

(** The ready task of a connection that logs in goes to an idle queue. *)
Lemma login_forgets : exists s', tasks_reachable queued_task /\ login 1 2 0 (idle_machine queued_task) = Some (tt, s') /\
  exists x q, x ∈ idle_tqueues (the_tasks s') /\ tqs (the_tasks s') !! x = Some q /\ tq_bg q <> [].
Proof.
  eexists. split; [|split; [vm_compute; reflexivity|]].
  - apply after_reachable; [|done]. apply after_reachable; [constructor|]. intros x q H. cbn in H. by rewrite lookup_empty in H.
  - eexists 2, _. split; [vm_compute; by left|]. split; [vm_compute; reflexivity|]. vm_compute. discriminate.
Qed.
