(* ===== verification/TypeProof.v ===== *)
(** * What programs compute are values

    Besides the types that programs can see a [Var] has types that mark places on the
    stack, slots without a value and clear properties.  None of them ever is the value
    of an expression, an element of a list, or what a program returns. *)

From Stdlib Require Import Floats.SpecFloat.
From S2P Require Import Prelude Utf CString Values Functions Lists Numbers Db Properties PropBuiltins Ast CodeGen CodeSpec CodeProof CodeStmts Decompile DecompileProof DecompileStmts Activation InputQueue Tasks Machine Run Eval Exec.
From S2P Require Database.

(** ** Definitions *)

(** A value of MOO: a number, an object, a string, an error or a list of values. *)
Fixpoint moo (v : Var) : bool :=
  match v with
  | VInt _ | VObj _ | VStr _ | VErr _ | VFloat _ => true
  | VList l => forallb moo l
  | VClear | VNone | VCatch _ | VFinally _ => false
  end.
(** Lists and arrays, which are not filled yet, of values. *)
Definition cells (a : arr) : Prop := Forall (fun c => forall v, c = Some v -> moo v = true) a.
Definition elements (l : list Var) : Prop := Forall (fun v => moo v = true) l.
(** Variables have values or none. *)
Definition env_ok (env : list Var) : Prop := Forall (fun v => v = VNone \/ moo v = true) env.
Definition typed (r : res Var) : Prop := match r with Val v => moo v = true | Err _ _ => True end.
Definition flow_typed (fl : flow) : Prop := match fl with Returns v => moo v = true | _ => True end.
(** The properties of the database that can be read have values. *)
Definition properties_typed (d : db) (o : option_cache) (progr : Z) : Prop :=
  forall obj name v, valid d obj = true -> fetch_prop obj name progr d o = Some (inr v) -> moo v = true.
(** The variables after [sample_run]. *)
Definition sample_env : list Var :=
  match exec_ss (fun x _ => x) (fun x _ => (x, false)) Database.empty_db (options sample_machine) 0 true 10 [] sample_run (replicate 41 VNone) with
  | Some (_, env) => env
  | None => []
  end.

(** ** Lemmas *)

(** *** Lists *)

Lemma moo_list l : moo (VList l) = true <-> elements l.
Proof. cbn [moo]. unfold elements. rewrite forallb_forall, Forall_forall. by setoid_rewrite list_elem_of_In. Qed.

Lemma new_list_cells n a : new_list n = Some a -> cells a.
Proof. unfold new_list. destruct (_ <? 0); [done|]. intros [= <-]. by apply Forall_replicate. Qed.
Lemma awrite_cells a i v b : awrite a i v = Some b -> cells a -> moo v = true -> cells b.
Proof.
  unfold awrite. destruct (_ && _); [|done]. intros [= <-] Ha Hv. apply Forall_insert; [done|]. by intros w [= <-].
Qed.
Lemma aread_moo l i v : aread l i = Some v -> elements l -> moo v = true.
Proof. unfold aread. destruct (_ <=? _); [|done]. intros H Hl. exact (Forall_lookup_1 _ _ _ _ Hl H). Qed.
Lemma copy_loop_cells : forall n old j new i b, copy_loop n old j new i = Some b -> elements old -> cells new -> cells b.
Proof.
  induction n as [|n IH]; intros old j new i b H Ho Hn; cbn [copy_loop] in H; [by injection H as <-|].
  destruct (aread old j) as [v|] eqn:Ev; [|done]. cbn [mbind option_bind] in H. destruct (awrite new i v) as [new'|] eqn:Ew; [|done].
  apply (IH _ _ _ _ _ H Ho). eapply awrite_cells; [exact Ew|done|]. by eapply aread_moo.
Qed.
Lemma finish_elements a l : finish a = Some l -> cells a -> elements l.
Proof.
  unfold finish, elements. revert l. induction a as [|c a IH]; intros l H Ha; cbn in H; [by injection H as <-|].
  apply Forall_cons in Ha as [Hc Ha]. destruct c as [v|]; [|done]. cbn in H. destruct (mapM id a) as [l'|]; [|done]. injection H as <-.
  constructor; [by apply Hc|by apply IH].
Qed.

(** The steps of an operation on lists. *)
Ltac list_steps H :=
  repeat match type of H with
         | (match ?x with Some _ => _ | None => None end) = Some _ => let E := fresh "E" in destruct x eqn:E; [|done]
         | (?x ≫= _) = Some _ => let E := fresh "E" in destruct x eqn:E; [cbn [mbind option_bind] in H|done]
         end.
Lemma sublist_elements l a b r : sublist l a b = Some r -> elements l -> elements r.
Proof.
  unfold sublist. intros H Hl. list_steps H. apply new_list_cells in E. destruct (negb _); list_steps H; [|by eapply finish_elements].
  eapply finish_elements; [exact H|]. by eapply copy_loop_cells.
Qed.
Lemma listappend_elements l v r : listappend false l v = Some r -> elements l -> moo v = true -> elements r.
Proof.
  unfold listappend, doinsert. cbn [andb]. cbv zeta. intros H Hl Hv. list_steps H. apply new_list_cells in E.
  eapply finish_elements; [exact H|]. eapply copy_loop_cells; [eassumption|done|]. eapply awrite_cells; [eassumption| |done].
  by eapply copy_loop_cells.
Qed.
Lemma listconcat_elements l l2 r : listconcat l l2 = Some r -> elements l -> elements l2 -> elements r.
Proof.
  unfold listconcat. cbv zeta. intros H Hl Hl2. list_steps H. apply new_list_cells in E.
  eapply finish_elements; [exact H|]. eapply copy_loop_cells; [eassumption|done|]. by eapply copy_loop_cells.
Qed.

(** *** Operators *)

Lemma answer_typed q v : moo v = true -> typed (answer q v).
Proof. by destruct v. Qed.
Lemma float_result_moo f : moo (float_result f) = true.
Proof. unfold float_result. by destruct (IS_REAL f). Qed.
Lemma simple_binary_moo f g a b v : simple_binary f g a b = Some v -> moo v = true.
Proof.
  unfold simple_binary. destruct (negb _); [by intros [= <-]|]. destruct a, b; try done; intros [= <-]; [done|apply float_result_moo].
Qed.
Lemma division_op_moo f g a b v : division_op f g a b = Some v -> moo v = true.
Proof.
  unfold division_op. destruct (negb (bool_decide _)); [by intros [= <-]|].
  destruct a as [x| | | | | | | | |x], b as [y| | | | | | | | |y]; try (by intros [= <-]).
  - destruct (negb _); [|by intros [= <-]]. destruct (_ && _); [done|by intros [= <-]].
  - destruct (negb _); [|by intros [= <-]]. intros [= <-]. apply float_result_moo.
Qed.
Lemma do_power_moo pow a b v : do_power pow a b = Some v -> moo v = true.
Proof.
  unfold do_power. intros H. destruct a as [x| | | | | | | | |x]; cbv beta iota zeta in H; try (by injection H as <-).
  all: destruct b as [y| | | | | | | | |y]; cbv beta iota zeta in H; try (match type of H with Some _ = _ => by injection H as <- end).
  - destruct (y <? 0).
    + injection H as <-. destruct (x =? -1); [by destruct (_ =? 0)|]. by destruct (x =? 0), (x =? 1).
    + destruct (power_loop 63 1 x y); [by injection H as <-|done].
  - destruct (pow x (float_of_int y)) as [z err]. injection H as <-. by destruct (_ || _).
  - destruct (pow x y) as [z err]. injection H as <-. by destruct (_ || _).
Qed.
Lemma compare_le_moo n a b v : compare_le n a b = Some v -> moo v = true.
Proof.
  unfold compare_le, numeric_lt_or_eq. destruct (_ && _).
  - destruct (negb _); [by intros [= <-]|]. by destruct a, b; try done; intros [= <-].
  - destruct a, b; try (by intros [= <-]); destruct (bool_decide _); try done; by intros [= <-].
Qed.
Lemma fmap_answer_typed q (x : option Var) raw : answer q <$> x = Some raw -> (forall v, x = Some v -> moo v = true) -> typed raw.
Proof. destruct x as [v|]; [|done]. intros [= <-] H. by apply answer_typed, H. Qed.

Lemma do_add_moo a b v : do_add a b = Some v -> moo v = true.
Proof. apply simple_binary_moo. Qed.
Lemma numeric_typed f l r raw : (forall a b v, f a b = Some v -> moo v = true) -> numeric f l r = Some raw -> typed raw.
Proof. intros Hf. unfold numeric. destruct (_ && _); [|by intros [= <-]]. intros H. eapply fmap_answer_typed; [exact H|]. intros v. apply Hf. Qed.
Lemma bits_typed f l r raw : bits f l r = Some raw -> typed raw.
Proof. unfold bits. by destruct l, r; intros [= <-]. Qed.
Lemma shift_typed f l r raw : shift f l r = Some raw -> typed raw.
Proof. unfold shift. destruct l, r; try (by intros [= <-]). destruct (_ || _); [by intros [= <-]|]. destruct (f n n0); [|done]. by intros [= <-]. Qed.

Lemma binary_typed fmod pow o kind l r raw : binary_value fmod pow o kind l r = Some raw -> typed raw.
Proof.
  unfold binary_value. intros H. destruct kind.
  all: try (by eapply bits_typed).
  all: try (by eapply shift_typed).
  all: try (eapply numeric_typed; [|exact H]; intros; first [by eapply simple_binary_moo|by eapply division_op_moo]).
  all: try (destruct (equality r l false); [|done]; by injection H as <-).
  all: try (eapply fmap_answer_typed; [exact H|]; intros v Hv; first [by eapply do_power_moo|by eapply compare_le_moo]).
  - assert (K : forall x, (if int_or_float l && int_or_float r then answer true <$> do_add l r else Some (Err true E_TYPE)) = Some x -> typed x).
    { intros x. destruct (_ && _); [|by intros [= <-]]. intros Hx. eapply fmap_answer_typed; [exact Hx|]. intros v. apply do_add_moo. }
    destruct l, r; try (by apply K). injection H as <-. by destruct (_ <? _).
  - destruct r; try (by injection H as <-). destruct (ismember _ _ _); [|done]. by injection H as <-.
Qed.

Lemma unary_typed kind v : typed (unary_value kind v).
Proof. by destruct kind, v. Qed.
Ltac by_answer H := try (match type of H with Some _ = Some _ => by injection H as <- | None = Some _ => done end).
Lemma ref_typed b i raw : ref_value b i = Some raw -> moo b = true -> typed raw.
Proof.
  unfold ref_value. intros H Hb. destruct i; by_answer H. destruct b as [| |s| |l| | | | |]; by_answer H.
  - destruct (n <? 1); by_answer H. destruct (utf_byte_index s n) as [k|]; [cbn [mbind option_bind] in H|done].
    destruct (_ <? _); by_answer H. destruct (substr _ _ _); [by injection H as <-|done].
  - destruct (_ || _); by_answer H. destruct (aread l n) as [v|] eqn:E; [|done]. injection H as <-.
    by eapply aread_moo; [exact E|apply moo_list].
Qed.
Lemma range_typed b f t raw : range_value b f t = Some raw -> moo b = true -> typed raw.
Proof.
  unfold range_value. intros H Hb. destruct t as [t| | | | | | | | |]; by_answer H. destruct f as [f| | | | | | | | |]; by_answer H.
  destruct b as [| |s| |l| | | | |]; by_answer H.
  - destruct (utf_byte_range _ _) as [[x y]|]; [cbn [mbind option_bind] in H|done]. destruct (rangeref_fails _ _ _); by_answer H.
    destruct (substr _ _ _); [by injection H as <-|done].
  - destruct (rangeref_fails _ _ _); by_answer H. destruct (sublist _ _ _) as [r|] eqn:E; [|done]. injection H as <-.
    apply moo_list. by eapply sublist_elements, moo_list.
Qed.
Lemma length_typed b raw : length_value b = Some raw -> typed raw.
Proof. unfold length_value. intros H. destruct b; by_answer H. destruct (memo_strlen_utf _); [by injection H as <-|done]. Qed.
Lemma first_typed kind v : moo v = true -> typed (first_value kind v).
Proof. intros Hv. destruct kind; cbn; [by rewrite Hv|]. by destruct v. Qed.
Lemma add_tail_typed o l v raw : add_tail o l v = Some raw -> moo l = true -> moo v = true -> typed raw.
Proof.
  unfold add_tail. intros H Hl Hv. destruct l as [| | | |l| | | | |]; by_answer H. destruct (_ <=? _); by_answer H.
  destruct (listappend _ _ _) as [r|] eqn:E; [|done]. injection H as <-. apply moo_list.
  exact (listappend_elements _ _ _ E (proj1 (moo_list l) Hl) Hv).
Qed.
Lemma append_typed o l v raw : append o l v = Some raw -> moo l = true -> moo v = true -> typed raw.
Proof.
  unfold append. intros H Hl Hv. destruct v as [| | | |t| | | | |]; by_answer H. destruct l as [| | | |l| | | | |]; by_answer H.
  destruct (_ <? _); by_answer H. destruct (listconcat _ _) as [r|] eqn:E; [|done]. injection H as <-.
  apply moo_list. exact (listconcat_elements _ _ _ E (proj1 (moo_list l) Hl) (proj1 (moo_list t) Hv)).
Qed.

(** *** Expressions *)

Section Typing.
Context (fmod : spec_float -> spec_float -> spec_float) (pow : spec_float -> spec_float -> spec_float * bool).
Context (d : db) (o : option_cache) (progr : Z) (debug : bool).
Context (Hd : properties_typed d o progr).

(** A computation on variables with values has a value, and leaves values. *)
Definition safe (m : E Var) : Prop := forall env r env', env_ok env -> m env = Some (r, env') -> env_ok env' /\ typed r.

Lemma safe_ret v : moo v = true -> safe (mret v).
Proof. intros Hv env r env' He [= <- <-]. done. Qed.
Lemma safe_bind (m : E Var) (f : Var -> E Var) : safe m -> (forall v, moo v = true -> safe (f v)) -> safe (m ≫= f).
Proof.
  intros Hm Hf env r env' He H. unfold mbind, E_bind in H. destruct (m env) as [[[v|q e] env1]|] eqn:E1; [| |done].
  - destruct (Hm _ _ _ He E1) as [He1 Hv]. by apply (Hf v Hv env1).
  - injection H as <- <-. by destruct (Hm _ _ _ He E1).
Qed.
Lemma safe_result r : (forall raw, r = Some raw -> typed raw) -> safe (result o debug r).
Proof.
  intros Hr env x env' He H. unfold result in H. destruct r as [raw|]; [|done]. injection H as <- <-. split; [done|].
  specialize (Hr raw eq_refl). destruct raw as [v|q e]; [done|]. cbn. by destruct (_ || _).
Qed.
Lemma prop_typed obj name raw : prop_value_of d o progr obj name = Some raw -> typed raw.
Proof.
  unfold prop_value_of. intros H. destruct name; by_answer H. destruct obj; by_answer H.
  destruct (valid d _) eqn:Ev; cbn [negb] in H; by_answer H. destruct (fetch_prop _ _ _ _ _) as [[e|v]|] eqn:E; [by injection H as <-| |done].
  injection H as <-. by apply (Hd _ _ _ Ev E).
Qed.
Lemma safe_id id : safe (fun env => result o debug (var_value env id) env).
Proof.
  intros env r env' He. apply (safe_result (var_value env id)); [|done]. intros raw H. unfold var_value, env_get in H.
  destruct (id <? 0); [done|]. destruct (env !! _) as [v|] eqn:E; [|done]. injection H as <-.
  destruct (Forall_lookup_1 _ _ _ _ He E) as [->|Hv]; [done|]. by destruct v.
Qed.
Lemma safe_assign id v : moo v = true -> safe (assign id v).
Proof.
  intros Hv env r env' He H. unfold assign, set_rt_env_var in H. destruct (env_get env id); [|done]. injection H as <- <-.
  split; [|done]. apply Forall_insert; [done|by right].
Qed.

(** What [$] refers to, if it refers to something, is a value. *)
Definition base_ok (base : option Var) : Prop := forall v, base = Some v -> moo v = true.
Notation eval := (eval fmod pow d o progr debug).
Notation eval_args := (eval_args fmod pow d o progr debug).
Notation eval_more := (eval_more fmod pow d o progr debug).

Lemma base_some v : moo v = true -> base_ok (Some v).
Proof. by intros Hv w [= <-]. Qed.

Definition safe_e (e : Expr) : Prop := forall inx base, wf_e inx e = true -> base_ok base -> safe (eval base e).
Definition safe_args (args : Arg_List) : Prop := forall inx base, wf_args inx args = true -> base_ok base ->
  safe (eval_args base args) /\ forall l, moo l = true -> safe (eval_more base l args).

Lemma safe_list kind e next : safe_e e -> safe_args next -> safe_args (ACons kind e next).
Proof.
  intros He Hn inx base [Hw1 Hw2]%andb_prop Hb. destruct (Hn inx base Hw2 Hb) as [_ Hm]. split.
  - cbn [Eval.eval_args]. apply safe_bind; [by apply (He inx)|]. intros v Hv. apply safe_bind; [|exact Hm].
    apply safe_result. intros raw [= <-]. by apply first_typed.
  - intros l Hl. cbn [Eval.eval_more]. apply safe_bind; [by apply (He inx)|]. intros v Hv. apply safe_bind; [|exact Hm].
    apply safe_result. destruct kind; intros raw H; [by eapply add_tail_typed|by eapply append_typed].
Qed.
Lemma safe_logic kind l r : safe_e l -> safe_e r -> safe_e (EXPR_LOGIC kind l r).
Proof.
  intros Hl Hr inx base [Hw1 Hw2]%andb_prop Hb. destruct kind; cbn [Eval.eval]; (apply safe_bind; [by apply (Hl inx)|]); intros v Hv;
    destruct (is_true v); by apply (Hr inx) || by apply safe_ret.
Qed.
Lemma safe_not_covered e : (forall base env, eval base e env = None) -> safe_e e.
Proof. intros H inx base _ _ env r env' _ E. by rewrite H in E. Qed.

Lemma safe_index l r : safe_e l -> safe_e r -> safe_e (EXPR_INDEX l r).
Proof.
  intros Hl Hr inx base [Hw1 Hw2]%andb_prop Hb. cbn [Eval.eval]. apply safe_bind; [by apply (Hl inx)|]. intros v Hv.
  apply safe_bind; [by apply (Hr true), base_some|]. intros i _. apply safe_result. intros raw H. by eapply ref_typed.
Qed.
Lemma safe_range b f t : safe_e b -> safe_e f -> safe_e t -> safe_e (EXPR_RANGE b f t).
Proof.
  intros Hb Hf Ht inx base [[Hw1 Hw2]%andb_prop Hw3]%andb_prop H. cbn [Eval.eval]. apply safe_bind; [by apply (Hb inx)|]. intros v Hv.
  apply safe_bind; [by apply (Hf true), base_some|]. intros x _. apply safe_bind; [by apply (Ht true), base_some|]. intros y _.
  apply safe_result. intros raw Hr. by eapply range_typed.
Qed.
Lemma safe_asgn l r : safe_e r -> safe_e (EXPR_ASGN l r).
Proof.
  intros Hr inx base Hw Hb. destruct l; try (intros env x env' _ E; done). apply andb_prop in Hw as [_ Hw]. cbn [Eval.eval].
  apply safe_bind; [by apply (Hr inx)|]. intros v Hv. by apply safe_assign.
Qed.
Lemma safe_binary kind l r : safe_e l -> safe_e r -> safe_e (EXPR_BINARY kind l r).
Proof.
  intros Hl Hr inx base [Hw1 Hw2]%andb_prop Hb. cbn [Eval.eval]. apply safe_bind; [by apply (Hl inx)|]. intros v _.
  apply safe_bind; [by apply (Hr inx)|]. intros w _. apply safe_result. intros raw H. by eapply binary_typed.
Qed.
Lemma safe_prop l r : safe_e l -> safe_e r -> safe_e (EXPR_PROP l r).
Proof.
  intros Hl Hr inx base [Hw1 Hw2]%andb_prop Hb. cbn [Eval.eval]. apply safe_bind; [by apply (Hl inx)|]. intros v _.
  apply safe_bind; [by apply (Hr inx)|]. intros w _. apply safe_result. intros raw. apply prop_typed.
Qed.
Lemma safe_cond c x y : safe_e c -> safe_e x -> safe_e y -> safe_e (EXPR_COND c x y).
Proof.
  intros Hc Hx Hy inx base [[Hw1 Hw2]%andb_prop Hw3]%andb_prop Hb. cbn [Eval.eval]. apply safe_bind; [by apply (Hc inx)|]. intros v _.
  destruct (is_true v); [by apply (Hx inx)|by apply (Hy inx)].
Qed.

Lemma eval_safe_all : (forall e, safe_e e) /\ (forall e : Expr_ptr, match e with Ptr e => safe_e e | Null => True end) /\
  (forall args, safe_args args) /\ (forall s : Scatter, True).
Proof.
  apply Expr_ind_all; try done.
  all: try (intros; apply safe_not_covered; done).
  - intros v inx base Hw _. apply safe_ret. by destruct v.
  - intros id inx base _ _. apply safe_id.
  - intros l IH1 r IH2. by apply safe_prop.
  - intros l IH1 r IH2. by apply safe_index.
  - intros b IH1 f IH2 t IH3. by apply safe_range.
  - intros l _ r IH. by apply safe_asgn.
  - intros kind l IH1 r IH2. by apply safe_binary.
  - intros kind e IH inx base Hw Hb. cbn [Eval.eval]. apply safe_bind; [by apply (IH inx)|]. intros v _.
    apply safe_result. intros raw [= <-]. apply unary_typed.
  - intros kind l IH1 r IH2. by apply safe_logic.
  - intros l IH inx base Hw Hb. by apply (IH inx).
  - intros c IH1 x IH2 y IH3. by apply safe_cond.
  - intros inx base _ _. cbn [Eval.eval]. apply safe_result. intros raw H. destruct base; [|done]. by eapply length_typed.
  - intros inx base _ _. split; [by apply safe_ret|]. intros l Hl. by apply safe_ret.
  - intros kind e IH1 next IH2. by apply safe_list.
Qed.
Lemma eval_safe e : wf_e false e = true -> safe (eval None e).
Proof. intros Hw. by apply (proj1 eval_safe_all e false). Qed.

(** *** Statements *)

Definition safe_x (m : Ex) : Prop := forall env fl env', env_ok env -> m env = Some (fl, env') -> env_ok env' /\ flow_typed fl.

Lemma safe_ends fl : flow_typed fl -> safe_x (ends fl).
Proof. intros Hf env fl' env' He [= <- <-]. done. Qed.
Lemma safe_skip : safe_x skip.
Proof. by apply (safe_ends Falls). Qed.
Lemma safe_with_value m f : safe m -> (forall v, moo v = true -> safe_x (f v)) -> safe_x (with_value m f).
Proof.
  intros Hm Hf env fl env' He [(q & e & E & ->)|(v & env1 & E & H)]%with_value_inv.
  - by destruct (Hm _ _ _ He E).
  - destruct (Hm _ _ _ He E) as [He1 Hv]. by apply (Hf v Hv env1).
Qed.
Lemma safe_and_then m1 m2 : safe_x m1 -> safe_x m2 -> safe_x (and_then m1 m2).
Proof.
  intros H1 H2 env fl env' He H. unfold and_then in H. destruct (m1 env) as [[fl1 env1]|] eqn:E; [|done].
  destruct (H1 _ _ _ He E) as [He1 Hf1]. destruct fl1; [by apply (H2 env1)|injection H as <- <-; done..].
Qed.
Lemma safe_iterate body rest : safe_x body -> safe_x rest -> safe_x (iterate body rest).
Proof.
  intros H1 H2 env fl env' He H. unfold iterate in H. destruct (body env) as [[fl1 env1]|] eqn:E; [|done].
  destruct (H1 _ _ _ He E) as [He1 Hf1]. destruct fl1 as [|c [|j]|v|q e]; try (by apply (H2 env1)); try (by injection H as <- <-).
  - destruct c; [by apply (H2 env1)|by injection H as <- <-].
  - destruct c; by injection H as <- <-.
Qed.
Lemma safe_while fuel condition body : safe condition -> safe_x body -> safe_x (while_loop fuel condition body).
Proof.
  intros Hc Hb. induction fuel as [|fuel IH]; [done|]. cbn [while_loop]. apply safe_with_value; [done|]. intros v _.
  destruct (is_true v); [by apply safe_iterate|apply safe_skip].
Qed.
Lemma safe_list_loop id l body : elements l -> safe_x body -> safe_x (list_loop id l body).
Proof.
  intros Hl Hb. induction Hl as [|v l Hv _ IH]; [apply safe_skip|]. cbn [list_loop]. apply safe_with_value; [by apply safe_assign|].
  intros _ _. by apply safe_iterate.
Qed.
Lemma safe_range_loop mk id n body : (forall i, moo (mk i) = true) -> safe_x body -> forall i, safe_x (range_loop mk id n i body).
Proof.
  intros Hm Hb. induction n as [|n IH]; intros i; [apply safe_skip|]. cbn [range_loop]. apply safe_with_value; [by apply safe_assign|].
  intros _ _. by apply safe_iterate.
Qed.

Notation eval_ e := (eval None e).
Notation exec_s fuel := (exec_s fmod pow d o progr debug fuel).
Notation exec_ss fuel := (exec_ss fmod pow d o progr debug fuel).
Notation exec_arms fuel := (exec_arms fmod pow d o progr debug fuel).

Lemma safe_no_loop : safe_x (no_loop debug).
Proof. unfold no_loop. destruct debug; [by apply safe_ends|apply safe_skip]. Qed.
Lemma safe_exit ids exit c : safe_x (fun env => j ← exit_level ids exit; Some (Exits c j, env)).
Proof. intros env fl env' He H. destruct (exit_level ids exit); [|done]. by injection H as <- <-. Qed.
Lemma safe_for_list fuel ids id e body : wf_e false e = true -> safe_x (exec_ss fuel (id :: ids) body) ->
  safe_x (exec_s fuel ids (STMT_LIST id e body)).
Proof.
  intros Hw Hb. cbn [Exec.exec_s]. apply safe_with_value; [by apply eval_safe|]. intros v Hv.
  destruct v as [| | | |l| | | | |]; try apply safe_no_loop. destruct (llen l <? NUM_MAX); [|done]. by apply safe_list_loop; [apply moo_list|].
Qed.
Lemma safe_for_range fuel ids id f t body : wf_e false f = true -> wf_e false t = true -> safe_x (exec_ss fuel (id :: ids) body) ->
  safe_x (exec_s fuel ids (STMT_RANGE id f t body)).
Proof.
  intros Hf Ht Hb. cbn [Exec.exec_s]. apply safe_with_value; [by apply eval_safe|]. intros v _.
  apply safe_with_value; [by apply eval_safe|]. intros w _.
  destruct v, w; try apply safe_no_loop; (destruct (_ <=? NUM_MAX); [|done]); by apply safe_range_loop.
Qed.
Lemma safe_for_while fuel ids id e body : wf_e false e = true -> safe_x (exec_ss fuel (id :: ids) body) ->
  safe_x (exec_s fuel ids (STMT_WHILE id e body)).
Proof.
  intros Hw Hb. cbn [Exec.exec_s]. apply safe_while; [|done]. destruct (id =? -1); [by apply eval_safe|].
  apply safe_bind; [by apply eval_safe|]. intros v Hv. by apply safe_assign.
Qed.

Lemma exec_safe fuel :
  (forall st ids, wf_s ids st = true -> safe_x (exec_s fuel ids st)) /\
  (forall st ids, wf_ss ids st = true -> safe_x (exec_ss fuel ids st)) /\
  (forall arms ids, wf_arms ids arms = true -> forall otherwise, safe_x otherwise -> safe_x (exec_arms fuel ids arms otherwise)) /\
  (forall ex : Except_Arm, True).
Proof.
  apply Stmt_ind_all; try done.
  all: try (intros; intros env fl env' _ E; done).
  - intros arms IH1 otherwise IH2 ids [Hw1 Hw2]%andb_prop. apply (IH1 ids Hw1), IH2, Hw2.
  - intros id e body IH ids [[_ Hw1]%andb_prop Hw2]%andb_prop. by apply safe_for_list, IH.
  - intros id f t body IH ids [[[_ Hw1]%andb_prop Hw2]%andb_prop Hw3]%andb_prop. by apply safe_for_range, IH.
  - intros id e body IH ids [[_ Hw1]%andb_prop Hw2]%andb_prop. by apply safe_for_while, IH.
  - intros e ids Hw. apply safe_with_value; [by apply eval_safe|]. intros _ _. apply safe_skip.
  - intros [|e] ids Hw; [by apply safe_ends|]. apply safe_with_value; [by apply eval_safe|]. intros v Hv. by apply safe_ends.
  - intros exit ids _. apply safe_exit.
  - intros exit ids _. apply safe_exit.
  - intros ids _. apply safe_skip.
  - intros st IH1 next IH2 ids [Hw1 Hw2]%andb_prop. by apply safe_and_then; [apply IH1|apply IH2].
  - intros e st IH1 next IH2 ids [[Hw1 Hw2]%andb_prop Hw3]%andb_prop otherwise H. cbn [Exec.exec_arms].
    apply safe_with_value; [by apply eval_safe|]. intros v _. destruct (is_true v); [by apply IH1|by apply IH2].
Qed.
End Typing.

(** ** Theorems *)

(** C4: programs are type sound.  If each variable of a program holds a value or is
    empty, and the properties that its programmer can read have values, then what the machine
    returns for the program, when it ends with OUTCOME_DONE, is a value of MOO; the activation that is
    left on the machine has an empty value stack, and each of its variables holds a value
    or is still empty, just as on the tree.  The marks of handlers, the empty slots and the clear
    properties, which are [Var]s as well, never are the value of an expression or an
    element of a list; an empty variable is E_VARNF when it is read. *)
Theorem program_values (null : Program) (same : Verbdef -> bool) (bf_table : list bi_func)
  (find_line_number : Program -> Z -> Z -> Z) (unwind_fuel : nat)
  (fmod : spec_float -> spec_float -> spec_float) (pow : spec_float -> spec_float -> spec_float * bool) (task_timed_out : Z -> bool)
  (st : Stmts) (version : Z) (p : Program) (s : State) (a : activation) (fuel : nat) (fl : flow) (env' : list Var) (v : Var) :
  (forall t, task_timed_out t = false) -> unwind_fuel <> O ->
  wf_program st = true -> covered_ss st = true -> generate_code st version = Some p -> sized p -> starts_with s a p ->
  env_ok (a_rt_env a) -> properties_typed (database s) (options s) (a_progr a) ->
  exec_ss fmod pow (database s) (options s) (a_progr a) (a_debug a) fuel [] st (a_rt_env a) = Some (fl, env') -> result_of fl = Some v ->
  exists n, forall t, n < t -> exists k s' a', moo v = true /\
    activ_stack s' = [a'] /\ a_rt_stack a' = [] /\ a_rt_env a' = env' /\ env_ok (a_rt_env a') /\
    forall k', (k <= k')%nat ->
      run null same bf_table find_line_number unwind_fuel fmod pow task_timed_out k' None (with_ticks t s) = Some (OUTCOME_DONE, Some v, s').
Proof.
  intros Ht Hu Hwf Hc Hg Hp Hw Henv Hd He Hv.
  destruct (program_comes null same bf_table find_line_number unwind_fuel fmod pow task_timed_out Ht Hu st version p s a fuel fl env' v
    Hwf Hc Hg Hp Hw He Hv) as (n & H).
  assert (K : env_ok env' /\ flow_typed fl).
  { apply andb_prop in Hwf as [Hwf _]. exact (proj1 (proj2 (exec_safe fmod pow (database s) (options s) (a_progr a) (a_debug a) Hd fuel)) st [] Hwf
      (a_rt_env a) fl env' Henv He). }
  exists n. intros t Hn. destruct (H t Hn) as (q & more & t' & ep & Hm & k & m & Hk). exists k, (conf s a [] q [] env' t' ep), (set_rt_stack [] (set_rt_env env' (set_error_pc ep (set_pc q a)))).
  split; [destruct fl; try done; injection Hv as <-; [done|apply K]|]. split; [by destruct s|]. split; [by destruct a|].
  split; [by destruct a|]. split; [destruct a; apply K|]. intros k' Hk'.
  replace k' with (k + (k' - k))%nat by lia. cbn [run]. rewrite Hk.
  by rewrite (returning_root null same bf_table find_line_number unwind_fuel Hu s a q more env' t' ep v Hm).
Qed.

Lemma program_values_witness : exists n, forall t, n < t -> exists k s' a', moo (VInt 28) = true /\
  activ_stack s' = [a'] /\ a_rt_stack a' = [] /\ a_rt_env a' = sample_env /\ env_ok (a_rt_env a') /\ forall k', (k <= k')%nat ->
    run sample_null (fun _ => true) [] (fun _ _ _ => 0) 1 (fun x _ => x) (fun x _ => (x, false)) (fun _ => false) k' None
    (with_ticks t sample_machine) = Some (OUTCOME_DONE, Some (VInt 28), s').
Proof.
  eapply (program_values sample_null (fun _ => true) [] (fun _ _ _ => 0) 1 (fun x _ => x) (fun x _ => (x, false)) (fun _ => false)
    sample_run 5 sample_code sample_machine sample_activation 10 (Returns (VInt 28))).
  - done.
  - done.
  - reflexivity.
  - reflexivity.
  - vm_compute. reflexivity.
  - split; [vm_compute; reflexivity..|]. repeat constructor; vm_compute; congruence.
  - split; [vm_compute; reflexivity..|]. vm_compute. split; congruence.
  - repeat constructor.
  - intros obj name v Hv. exfalso. revert Hv. unfold valid. vm_compute. by destruct obj.
  - vm_compute. reflexivity.
  - reflexivity.
Defined.
